(* ===== verification/_CoqProject ===== *)
-Q . S2P
Prelude.v
RangeTracking.v
Stream.v
Patch.v
FileWriter.v
FileReader.v
RandomAccess.v
Memory.v
Heap.v
Suballocator.v
SuballocatorInv.v
AliasGroups.v
Packets.v
Sync.v
Containers.v
Markings.v
Translate.v
Templates.v
Updates.v
HostMemory.v
HostMemoryInv.v
HostFlush.v
HostHistory.v
HostWrites.v
DescriptorSets.v
DescriptorNotes.v
DescriptorTouches.v
Discovery.v
Simulation.v
Output.v
OutputPass.v
Descriptors.v
DescriptorUpdates.v
Checksums.v
ChecksumReplay.v
Asserts.v
Submissions.v
SubmissionsInv.v
SubmissionsReplay.v
SubmissionsSafety.v
InternalBuffers.v
AccelerationBuilds.v
ShaderTables.v
AddressTouches.v
AddressReads.v
ShaderStages.v
RaySimulation.v
RayPlaces.v
RayDiscovery.v
DescriptorBuffers.v
DescriptorResources.v
DescriptorDiscovery.v
