(* ===== verification/Prelude.v ===== *)
(** * Verification of lavatube: a multi-threaded Vulkan API tracer

    lavatube records the Vulkan calls of an application into a trace, one packet
    stream per thread, and replays it on another device. This library models the
    parts of it that are not calls of the driver: the streams and their
    compression, the packets and the order between threads, the capture of writes
    to mapped memory, the diffs that carry them, the translation of values that
    only mean something on one device, and the placement of objects in the memory
    of the replay.

    ** The parts and how they fit together

    Capture: an API call becomes a packet of its thread ([Packets], write.h/.cpp),
    which is written with typed writes ([Stream]) to the thread's [file_writer]
    ([FileWriter], filewriter.h/.cpp), whose chunks two worker threads compress and
    store. What a packet has to wait for on replay is noted in handles and
    barriers ([Sync]). Writes to mapped memory are noticed by comparing it with a
    clone: [RangeTracking] (rangetracking.h) keeps which bytes the application may
    have written and which a command buffer uses, [HostMemory] and [HostFlush]
    (hardcode_write.cpp, lavatube.h) walk them at a submit or a flush, [Patch]
    computes the diff and [Updates] frames it as a packet.

    Replay: the [file_reader] of a thread ([FileReader], filereader.h/.cpp)
    decompresses ahead or on demand, tools open a stream at any place
    ([RandomAccess]); [Packets] steps from packet to packet, [Sync] waits for other
    threads, [Updates] applies diffs, [Markings] (markings.h/.cpp) and [Translate]
    rewrite device addresses, descriptors and shader group handles in them, and
    [Memory], [Heap], [Suballocator] and [AliasGroups] (suballocator.h/.cpp) place
    buffers, images and tensors in device memory. [Containers] (containers.h) holds
    the data structures both sides share.

    ** The files

    - [Prelude]: faults and the outcome monad, the widths of integers,
      little-endian encoding, tactics and lemmas on lists.
    - [RangeTracking]: [range], [exposure] with its lazily reversed vector.
    - [Stream]: classes [ByteSink] and [ByteSource], what the typed operations of
      [file_writer] and [file_reader] need of the stream under them, and the
      operations and round trips proved against the classes.
    - [Patch]: [find_patch_start], [write_patch], [read_patch],
      [collect_patch_spans] on byte lists.
    - [FileWriter]: the chunks and three queues of [file_writer]; [step]
      interleaves the tracing thread, the compressor and the serializer.
    - [FileReader], [RandomAccess]: both readers, opening included; every abort is
      a fault of the model.
    - [Packets]: class [PacketSink] (a sink whose delayed writes can be stored
      later, with [file_packets] as the instance for [file_writer]), the packet
      writer, reader and their invariant [packet_inv].
    - [Sync]: the threads of a capture and of a replay as a state machine.
    - [Containers]: [memory_pool], [trace_data], [replay_remap], [trace_remap],
      [address_remapper].
    - [Markings], [Translate]: sets of marked offsets, their merging, their form
      in a trace, and the rewriting of marked values. The values of the marking
      header, which is not in the repository, are the class [MarkingHeader].
    - [Updates]: update packets from clone to replayed memory.
    - [HostMemory], [HostFlush]: [trackedmemory], command buffers, submits and
      flushes; [HostMemoryInv] has the invariant [store_ok] and what every
      operation does to it; [HostHistory] the histories of a capture as a step
      relation. [HostWrites] follows the provenance of the bytes of an object
      through its update packets.
    - [Discovery], [Simulation]: the post-processor (execute_commands.cpp,
      postprocess.cpp). Its simulator reports which bytes of a shader's input were
      used as addresses; [Discovery] turns them into markings of the packets that
      wrote them, [Simulation] records and runs the transfer commands and keeps
      that provenance up to date.
    - [Output], [OutputPass]: the output pass of lava-tool (tool.cpp), which writes
      a trace again with the markings that were discovered: the mapping of packet
      numbers, the copy of updates and the injection of markings in [Output], the
      whole pass over all threads against a pure description in [OutputPass].
    - [Descriptors], [DescriptorUpdates]: the updates that the output pass writes
      of its own for descriptors that reached a descriptor buffer unseen: the
      tables a thread keeps and what is queued from them in [Descriptors], the
      packets and their replay in [DescriptorUpdates].
    - [Checksums], [ChecksumReplay], [Asserts]: the checksums that the capture and
      the replay take of buffers (util.h, hardcode_read.cpp, hardcode_write.cpp):
      [Checksums] puts the bytes of the capture back into marked places,
      [ChecksumReplay] compares that with [Translate], [Asserts] has the call that
      writes a checksum to the trace and its check on the replay.
    - [Submissions], [SubmissionsReplay]: what a replay notes of the command
      buffers and fences of its submits, the waits in front of the calls that
      touch them and the callbacks that drop the notes (hardcode_read.cpp);
      [SubmissionsInv] has the invariant of the notes, [SubmissionsSafety] runs
      them beside an application and a device.
    - [InternalBuffers], [AccelerationBuilds], [ShaderTables]: ray tracing on a
      replay (hardcode_read.cpp): buffers the replay makes of its own, the scratch
      memory of builds, the correction of shader binding tables and instances.
    - [Templates]: descriptor update templates: the size of their data, its
      rewriting by the capture and by the replay (hardcode_write.cpp,
      hardcode_read.cpp).
    - [DescriptorSets], [DescriptorNotes], [DescriptorTouches]: what updates,
      copies, pushes and templates of descriptors make a set or a command buffer
      of the capture touch (hardcode_write.cpp); [DescriptorTouches] relates the
      notes to a plain table of descriptors.
    - [AddressTouches], [AddressReads]: the data that builds, traces of rays and
      descriptor buffers name by device address, and what a command buffer of the
      capture notes of it.
    - [ShaderStages]: what the post-processor keeps of the shaders, groups and
      group handles of pipelines (postprocess.cpp).
    - [RaySimulation], [RayPlaces], [RayDiscovery]: ray tracing in the
      post-processor (postprocess.cpp, execute_commands.cpp): recording builds and
      traces of rays and collecting the markings of their data in
      [RaySimulation], what the collected places are in [RayPlaces], and that they
      reach the packets that wrote the data in [RayDiscovery].
    - [DescriptorBuffers], [DescriptorResources], [DescriptorDiscovery]: descriptor
      buffers in the post-processor (execute_commands.cpp, tool.cpp): the search for
      the bytes of returned descriptors in bound buffers, what the simulator is given
      for them, and the markings and notes they lead to.
    - [Memory], [Heap], [Suballocator]: requirements, one heap, the suballocator;
      [SuballocatorInv] its invariant; [AliasGroups] [suballocator::create].

    ** Conventions

    Words of the code are [Z] and wrap where it computes with them ([wrap32],
    [wrap64]); bytes are [Byte.byte]; a call that can abort, fail an assertion, go
    out of range or stop returns an [outcome] whose faults are told apart.
    Assertions count as faults, except those that [debug] switches off. A function
    of the driver, a compression library or another header is a parameter, with
    what the code relies on as a named hypothesis (a decompressor undoes the
    compressor, a mapping reaches the bytes asked for, a container is walked
    whole). Every theorem with hypotheses is applied to a concrete run by its
    witness. Definitions have the names of the code. The numbers of packets that
    threads count and wait for are natural numbers in [Sync], where the code has
    [uint32_t]: what is shown there is for threads of fewer than 2^32 packets.

    ** What is shown

    - Streams: whatever the threads of the writer do in between, the file holds
      the bytes written, in order, and the reads of a reader return them, in every
      mode, and in a release build neither fail nor wait for ever
      ([trace_file_roundtrip],
      [writer_file_in_order], [reader_takes_prefix]); pages are given back only
      behind the next read; damaged files end in an abort or in a reader whose
      chunks lie in the file ([open_random_access_safe]).
    - Packets: a reader steps through exactly the packets written
      ([packets_roundtrip]); unread tails are skipped, reads
      beyond a packet and packets of more than 32 bits of size are refused.
    - Threads: a replay of a recording never deadlocks and keeps the recorded
      order ([replay_never_deadlocks], [pushed_barrier_orders_replay]).
    - Memory contents: the vector of ranges refines a set of bytes; a diff applied
      to old bytes gives the new ones; an update packet does the same to the
      replay's memory; and over whole histories of mappings, host writes,
      commands, flushes and submits, the replay holds every byte a submitted
      command buffer may use, unless a compared range ends with the byte behind a
      mapping ([submit_captures_host_writes],
      [flush_captures_host_writes], [unexposed_bytes_replayed]).
    - Translation: exactly the marked places change; addresses that were
      translated back by the post-processor are translated to the same values
      again; merging marked offsets is the union of sets.
    - Post-processing: a byte with a provenance is the byte its packet wrote, after
      any host writes ([provenance_tracked]), after transfers except where bytes
      without a provenance replaced it ([transfers_keep_provenance]), and after
      the copies a shader made, other than those of specialization constants
      ([shader_copies_keep_provenance]); an address
      that is found in it is found in the packet, and the marking reaches that
      packet's queue ([discovered_addresses_sound], [discovered_markings_queued]).
      The references of built instances and the group handles of traced tables
      are marked in the packets that wrote them ([built_instances_discovered],
      [traced_tables_discovered]), and so are the descriptors of bound descriptor
      buffers ([bound_resources_exact], [bound_descriptors_discovered]).
    - Rewriting: the output pass writes every thread's packets again with every
      handle and barrier waiting for the output of the packets it waited for
      ([output_pass_translates]), injects the markings of the queue into exactly
      the updates they belong to ([discovered_markings_injected]) or refuses
      ([output_pass_refuses]); queued descriptors are descriptors that were seen
      ([queued_descriptors_backed]), are written once per buffer
      ([descriptor_updates_written]) and replay to the descriptors of the replay's
      device ([descriptor_updates_replayed]).
    - Checksums: the one of a marked range is Adler-32 of the range with every
      marked place put back ([marked_checksum_reference]), which is that of the
      capture when the replay's memory is the capture's, translated
      ([checksum_of_replayed_memory]); an assertion of the capture passes on such a
      replay and fails where the checksum differs ([assertion_replayed]).
    - Submitted command buffers: when a call of the replay touches a command
      buffer, the device has finished with every submission that names it
      ([touched_is_unused]), because each such buffer is noted with its queue and
      fence ([submissions_noted]); secondary command buffers, which no submission
      names, are not waited for; such calls stop only when a wait fails
      ([replay_call_faults]).
    - Ray tracing: exactly the captured group handles of a table in mapped memory
      and the references of instances become those of the replay's device, and
      which tables are left alone or refused is told
      ([sbt_region_translated], [instance_references_translated]); the scratch
      regions of builds lie in their buffers and apart
      ([scratch_regions_apart]).
    - What the capture notes: what each update, copy and binding of descriptors
      leaves in the notes, which hold what the descriptors of a set name, except for
      those behind a later update that did not write them
      ([descriptor_notes_exact]); data named by device address is noted in the object
      that holds it, except for vertices without indices that begin at an offset
      ([addressed_data_noted]); the
      handles in the data of a template come back as those of the replay
      ([template_data_roundtrip]).
    - Placement: objects never overlap and never move, everything allocated is
      freed once, overlapping captured objects overlap again at the same offsets,
      the search of a heap finds a place exactly when there is one.
    - Containers: each against the abstract map, set or interval structure it
      stands for, over arbitrary histories.

    ** Fuel

    Loops that are not structural take fuel that their callers compute from the
    input, and theorems show it to be enough: the chunk loops of the readers take
    the number of chunks or bytes left, [find_patch_start], [write_patch] and
    [collect_patch_spans] the size of the area (each round moves forward), strings
    the bytes left, the replay of a recording the number of packets left. The
    theorems state that a result is returned, not only what it is.

    ** Not modelled

    Calls of the driver and the generated code around them, which also notes what
    draws, transfers and resets touch; object creation and
    the copies through staging buffers in hardcode_read.cpp and hardcode_write.cpp;
    the simulation of shaders by the post-processor, which an external simulator
    does, and the descriptor sets bound for it; on a replay, frame boundaries,
    instrumentation and the storage that replaces that of acceleration structures;
    the markings
    of push constants and pipelines that tool.cpp injects through generated search
    functions; packed containers, command-line tools, JSON metadata, the import of
    other trace formats, printing, windows and the user interface; vendored
    libraries. Disk errors and running out of host memory are not modelled. The
    suballocator's queue of deletes keeps 32-bit offsets, so the model of it is
    for heaps below 4 GiB; the theorems say so. In the histories of a capture all
    mapped memory is host coherent, flushes carry no markings, and bound objects
    do not alias. The recorder of [Sync] begins all its packets with a header, so the
    update packets that the code begins without one, in the middle of a call, are
    packets of [Packets] and [HostMemory] but not steps of its threads. In
    [OutputPass] what a call writes is a function of its thread, packet and queue
    ([callbacks_ok]), while calls of tool.cpp also read tracked objects and buffer
    contents that other threads change. The device of [SubmissionsSafety] works on the
    command buffers that submissions name, so not on the secondary ones they execute,
    and has a buffer of simultaneous use on one queue at a time.

    ** What is left

    The descriptor sets that the post-processor binds for its simulator, in
    execute_commands.cpp; the packed container (packfile.cpp); binding and unbinding as steps of the capture's histories;
    assertions of memory by address. *)

From Stdlib Require Import ZArith Lia Bool.
From Stdlib.Strings Require Import Byte.
From stdpp Require Import base numbers list.

#[local] Open Scope Z_scope.

(** ** Faults and the outcome monad

    A C++ function that can reach [ABORT], a failing [assert], an out-of-range
    [at()], a null dereference or the cooperative [replay_stop_requested]
    exception returns an [outcome]. [Deadlock] is a wait that nothing can end.
    [OutOfFuel] marks a bounded loop of the model
    that was given too few rounds; it stands for no behaviour of the program. *)

Inductive fault : Set :=
  | AbortCall
  | AssertFailed
  | OutOfRange
  | NullPointer
  | StopRequested
  | Deadlock
  | OutOfFuel.

Inductive outcome (A : Type) : Type :=
  | Ok (a : A)
  | Fail (f : fault).
Arguments Ok {A} a.
Arguments Fail {A} f.

Definition obind {A B} (m : outcome A) (k : A -> outcome B) : outcome B :=
  match m with
  | Ok a => k a
  | Fail f => Fail f
  end.

Declare Scope outcome_scope.
Delimit Scope outcome_scope with outcome.
Notation "'let*' x ':=' c 'in' k" := (obind c (fun x => k))
  (at level 10, x pattern, c at level 100, k at level 200) : outcome_scope.
#[global] Open Scope outcome_scope.

(** [assert(b)] and [if (b) ABORT(...)] *)
Definition require (b : bool) (f : fault) : outcome unit :=
  if b then Ok tt else Fail f.

(** [assert(b)], which only debug builds evaluate *)
Definition assert_in (debug b : bool) : outcome unit :=
  if debug && negb b then Fail AssertFailed else Ok tt.

Definition is_ok {A} (m : outcome A) : bool :=
  match m with Ok _ => true | Fail _ => false end.

#[export] Instance fault_eq_dec : EqDecision fault.
Proof. solve_decision. Defined.

#[export] Instance outcome_eq_dec {A} `{EqDecision A} : EqDecision (outcome A).
Proof. solve_decision. Defined.

Lemma obind_ok_inv {A B} (m : outcome A) (k : A -> outcome B) b :
  obind m k = Ok b -> exists a, m = Ok a /\ k a = Ok b.
Proof. destruct m; simpl; [eauto | discriminate]. Qed.

Lemma require_ok_inv b f u : require b f = Ok u -> b = true.
Proof. destruct b; simpl; congruence. Qed.

Lemma require_true f : require true f = Ok tt.
Proof. reflexivity. Qed.

Lemma obind_fault {A B} (m : outcome A) (k : A -> outcome B) f :
  obind m k = Fail f -> m = Fail f \/ exists x, m = Ok x /\ k x = Fail f.
Proof. destruct m as [x|g]; simpl; [right; by exists x|]. intros [= ->]. by left. Qed.

Lemma require_fault b f g : require b f = Fail g -> g = f.
Proof. destruct b; simpl; [done|]. by intros [= ->]. Qed.

(** Step through the binds of a hypothesis [m = Ok _]. *)
Ltac outcome_inv :=
  repeat match goal with
  | H : obind _ _ = Ok _ |- _ =>
      let a := fresh "v" in let E := fresh "E" in
      apply obind_ok_inv in H as (a & E & H); cbv beta in H
  | H : require _ _ = Ok _ |- _ => apply require_ok_inv in H
  | H : Ok _ = Ok _ |- _ => injection H as H; subst
  | H : Fail _ = Ok _ |- _ => discriminate H
  | H : Ok _ = Fail _ |- _ => discriminate H
  end.

(** ** Machine integers *)

Definition UINT8_MAX : Z := 2 ^ 8 - 1.
Definition UINT16_MAX : Z := 2 ^ 16 - 1.
Definition UINT32_MAX : Z := 2 ^ 32 - 1.
Definition UINT64_MAX : Z := 2 ^ 64 - 1.
Definition INT64_MAX : Z := 2 ^ 63 - 1.

Definition u8 (z : Z) : Prop := 0 <= z <= UINT8_MAX.
Definition u16 (z : Z) : Prop := 0 <= z <= UINT16_MAX.
Definition u32 (z : Z) : Prop := 0 <= z <= UINT32_MAX.
Definition u64 (z : Z) : Prop := 0 <= z <= UINT64_MAX.

(** wrap-around of an unsigned [w]-bit result *)
Definition wrap (w z : Z) : Z := z mod 2 ^ w.
Definition wrap16 (z : Z) : Z := wrap 16 z.
Definition wrap32 (z : Z) : Z := wrap 32 z.
Definition wrap64 (z : Z) : Z := wrap 64 z.

Ltac unfold_width :=
  unfold u8, u16, u32, u64, UINT8_MAX, UINT16_MAX, UINT32_MAX, UINT64_MAX, INT64_MAX in *.
(** arithmetic with the width constants opened *)
Ltac u_lia := unfold_width; lia.

Lemma wrap_small w z : 0 <= z < 2 ^ w -> wrap w z = z.
Proof. intros H. unfold wrap. by apply Z.mod_small. Qed.

Lemma wrap32_small z : u32 z -> wrap32 z = z.
Proof. intros H. apply wrap_small. u_lia. Qed.

Lemma wrap64_small z : u64 z -> wrap64 z = z.
Proof. intros H. apply wrap_small. u_lia. Qed.

Lemma wrap32_range z : u32 (wrap32 z).
Proof. unfold wrap32, wrap, u32, UINT32_MAX. pose proof (Z.mod_pos_bound z (2 ^ 32)). lia. Qed.

Lemma wrap64_range z : u64 (wrap64 z).
Proof. unfold wrap64, wrap, u64, UINT64_MAX. pose proof (Z.mod_pos_bound z (2 ^ 64)). lia. Qed.

(** Booleans to propositions, case analysis on the comparisons of a goal. *)
Ltac bool_to_prop :=
  repeat match goal with
  | H : _ && _ = true |- _ => apply andb_true_iff in H as [? ?]
  | H : _ && _ = false |- _ => apply andb_false_iff in H
  | H : _ || _ = true |- _ => apply orb_true_iff in H
  | H : _ || _ = false |- _ => apply orb_false_iff in H as [? ?]
  | H : negb _ = true |- _ => apply negb_true_iff in H
  | H : negb _ = false |- _ => apply negb_false_iff in H
  | H : (_ <? _) = true |- _ => apply Z.ltb_lt in H
  | H : (_ <? _) = false |- _ => apply Z.ltb_ge in H
  | H : (_ <=? _) = true |- _ => apply Z.leb_le in H
  | H : (_ <=? _) = false |- _ => apply Z.leb_gt in H
  | H : (_ >? _) = true |- _ => rewrite Z.gtb_ltb in H; apply Z.ltb_lt in H
  | H : (_ >? _) = false |- _ => rewrite Z.gtb_ltb in H; apply Z.ltb_ge in H
  | H : (_ >=? _) = true |- _ => rewrite Z.geb_leb in H; apply Z.leb_le in H
  | H : (_ >=? _) = false |- _ => rewrite Z.geb_leb in H; apply Z.leb_gt in H
  | H : (_ =? _) = true |- _ => apply Z.eqb_eq in H
  | H : (_ =? _) = false |- _ => apply Z.eqb_neq in H
  end.

Ltac case_bool :=
  match goal with
  | |- context [if ?b then _ else _] =>
      let E := fresh "C" in destruct b eqn:E
  end.

(** ** Bytes and little-endian integers

    The streams hold values exactly as [memcpy] leaves them on a little-endian
    host: an [n]-byte integer is its [n] bytes, low byte first. *)

Definition byte_of_Z (z : Z) : byte :=
  match Byte.of_N (Z.to_N (z mod 256)) with
  | Some b => b
  | None => x00
  end.

Definition Z_of_byte (b : byte) : Z := Z.of_N (Byte.to_N b).

Fixpoint le_encode (n : nat) (z : Z) : list byte :=
  match n with
  | O => []
  | S n' => byte_of_Z z :: le_encode n' (z / 256)
  end.

Fixpoint le_decode (l : list byte) : Z :=
  match l with
  | [] => 0
  | b :: l' => Z_of_byte b + 256 * le_decode l'
  end.

#[export] Instance byte_eq_dec : EqDecision byte := Byte.byte_eq_dec.

Lemma Z_of_byte_range b : 0 <= Z_of_byte b < 256.
Proof. unfold Z_of_byte. pose proof (Byte.to_N_bounded b). lia. Qed.

Lemma Z_of_byte_of_Z z : Z_of_byte (byte_of_Z z) = z mod 256.
Proof.
  unfold byte_of_Z, Z_of_byte.
  pose proof (Z.mod_pos_bound z 256 ltac:(lia)) as Hb.
  destruct (Byte.of_N (Z.to_N (z mod 256))) as [b|] eqn:E.
  - apply Byte.to_of_N in E. rewrite E. lia.
  - apply Byte.of_N_None_iff in E. lia.
Qed.

Lemma byte_of_Z_of_byte b : byte_of_Z (Z_of_byte b) = b.
Proof.
  unfold byte_of_Z. rewrite Z.mod_small by apply Z_of_byte_range.
  unfold Z_of_byte. rewrite N2Z.id, Byte.of_to_N. reflexivity.
Qed.

Lemma length_le_encode n z : length (le_encode n z) = n.
Proof. revert z; induction n; intros; simpl; auto. Qed.

Lemma le_decode_range l : 0 <= le_decode l < 256 ^ Z.of_nat (length l).
Proof.
  induction l as [|b l IH]; [simpl; lia|].
  cbn [le_decode length]. rewrite Nat2Z.inj_succ, Z.pow_succ_r by lia.
  pose proof (Z_of_byte_range b). nia.
Qed.

Lemma le_decode_encode n z : le_decode (le_encode n z) = z mod 256 ^ Z.of_nat n.
Proof.
  revert z; induction n as [|n IH]; intros z; [simpl; by rewrite Z.mod_1_r|].
  cbn [le_encode le_decode]. rewrite IH, Z_of_byte_of_Z, Nat2Z.inj_succ, Z.pow_succ_r by lia.
  rewrite Z.rem_mul_r by (try apply Z.pow_nonzero; lia). reflexivity.
Qed.

Lemma le_decode_encode_small n z :
  0 <= z < 256 ^ Z.of_nat n -> le_decode (le_encode n z) = z.
Proof. intros H. rewrite le_decode_encode. by apply Z.mod_small. Qed.

Lemma le_encode_decode l : le_encode (length l) (le_decode l) = l.
Proof.
  induction l as [|b l IH]; [done|].
  cbn [length le_encode le_decode]. f_equal.
  - rewrite <- (byte_of_Z_of_byte b) at 2. unfold byte_of_Z.
    rewrite Z.mul_comm, Z_mod_plus_full. reflexivity.
  - rewrite Z.add_comm, Z.mul_comm, Z.div_add_l, Z.div_small, Z.add_0_r
      by (pose proof (Z_of_byte_range b); lia). exact IH.
Qed.

Lemma le_decode_inj l1 l2 :
  length l1 = length l2 -> le_decode l1 = le_decode l2 -> l1 = l2.
Proof.
  intros Hl Hd. rewrite <- (le_encode_decode l1), <- (le_encode_decode l2).
  by rewrite Hl, Hd.
Qed.

(** ** Lists *)

Lemma nth_error_lookup {A} (l : list A) i : nth_error l i = l !! i.
Proof. revert i; induction l as [|a l IH]; intros [|i]; simpl; auto. Qed.

(** a symmetric relation of all pairs does not depend on the order *)
Lemma pairs_perm {A} (P : A -> A -> Prop) l l' : (forall x y, P x y -> P y x) -> l ≡ₚ l' ->
  List.ForallOrdPairs P l -> List.ForallOrdPairs P l'.
Proof.
  intros Hs. induction 1 as [|x l l' Hp IH|x y l|l1 l2 l3 _ IH1 _ IH2]; intros Hl; [done| | |by apply IH2, IH1].
  - inversion Hl as [|? ? H1 H2]; subst. constructor; [by rewrite <- Hp|by apply IH].
  - inversion Hl as [|? ? H1 H2]; subst. inversion H2 as [|? ? H3 H4]; subst. apply Forall_cons in H1 as [H1 H1'].
    constructor; [constructor; [by apply Hs|done]|]. by constructor.
Qed.

(** [std::lower_bound] on a sequence partitioned by [p]: the elements for which
    [p] holds, and the rest. *)
Fixpoint lower_bound {A} (p : A -> bool) (l : list A) : list A * list A :=
  match l with
  | [] => ([], [])
  | a :: l' => if p a then let '(x, y) := lower_bound p l' in (a :: x, y) else ([], a :: l')
  end.

Lemma lower_bound_app {A} (p : A -> bool) l x y :
  lower_bound p l = (x, y) -> l = x ++ y.
Proof.
  revert x y; induction l as [|a l IH]; intros x y; simpl.
  - by intros [= <- <-].
  - destruct (p a); [|by intros [= <- <-]].
    destruct (lower_bound p l) as [x' y']. intros [= <- <-]. simpl. f_equal. by apply IH.
Qed.

Lemma lower_bound_holds {A} (p : A -> bool) l x y :
  lower_bound p l = (x, y) -> Forall (fun a => p a = true) x.
Proof.
  revert x y; induction l as [|a l IH]; intros x y; simpl.
  - intros [= <- <-]. constructor.
  - destruct (p a) eqn:E; [|intros [= <- <-]; constructor].
    destruct (lower_bound p l) as [x' y']. intros [= <- <-]. constructor; [done|]. by eapply IH.
Qed.

Lemma lower_bound_stops {A} (p : A -> bool) l x a y :
  lower_bound p l = (x, a :: y) -> p a = false.
Proof.
  revert x; induction l as [|b l IH]; intros x; simpl; [done|].
  destruct (p b) eqn:E; [|by intros [= <- -> ->]].
  destruct (lower_bound p l) as [x' y'] eqn:E'. intros [= <- ->]. by eapply IH.
Qed.

Create HintDb lava.
Create Rewrite HintDb lava.
#[export] Hint Resolve Z_of_byte_range wrap32_range wrap64_range : lava.
#[export] Hint Rewrite @length_app length_le_encode : lava.
