(* ===== verification/RangeTracking.v ===== *)
(** * Dirty range tracking (src/rangetracking.h)

    The set of bytes of a buffer, image or tensor written since the last scan,
    kept by [exposure] as a vector of closed 64-bit intervals. The vector is
    sorted, except for the lazily reversed fast path of descending additions.
    A byte set is a predicate on [Z]; [wf] is the representation invariant, and
    the operations are proved to be union, intersection hull and difference on
    the sets the vectors stand for. *)

From Stdlib Require Import ZArith Lia Bool.
From stdpp Require Import base numbers list.
From S2P Require Import Prelude.

#[local] Open Scope Z_scope.

(** ** Data *)

Record range := Range { r_first : Z; r_last : Z }.

#[export] Instance range_eq_dec : EqDecision range.
Proof. solve_decision. Defined.

Definition range_eqb (a b : range) : bool :=
  (r_first a =? r_first b) && (r_last a =? r_last b).

Definition valid (v : range) : bool := r_first v <=? r_last v.

Definition invalid : range := Range 1 0.

Record exposure := Exposure { e_r : list range; e_reversed : bool }.

#[export] Instance exposure_eq_dec : EqDecision exposure.
Proof. solve_decision. Defined.

(** [std::vector::front] and [back], only used on non-empty vectors *)
Definition front (l : list range) : range := hd invalid l.
Definition back (l : list range) : range := List.last l invalid.

(** ** Operations *)

Definition empty_exposure : exposure := Exposure [] false.

Definition normalize (e : exposure) : exposure :=
  if e_reversed e then Exposure (reverse (e_r e)) false else e.

(** [retval] accumulates the hull of the pieces met so far *)
Definition widen (retval : range) (first last : Z) : range :=
  if negb (valid retval) then Range first last
  else Range (Z.min (r_first retval) first) (Z.max (r_last retval) last).

Definition shift_last (last offset : Z) : Z :=
  if last >? UINT64_MAX - offset then UINT64_MAX else last + offset.

(** the merge walk of [overlap]: [iter] over the own ranges, [other] over the
    shifted ranges of the argument *)
Fixpoint overlap_loop (offset : Z) (iter : list range) : list range -> range -> range :=
  fix walk (other : list range) (retval : range) : range :=
    match iter, other with
    | i :: iter', o :: other' =>
        if r_first o >? UINT64_MAX - offset then retval
        else
          let other_first := r_first o + offset in
          let other_last := shift_last (r_last o) offset in
          if r_last i <? other_first then overlap_loop offset iter' other retval
          else if other_last <? r_first i then walk other' retval
          else
            let retval' := widen retval (Z.max (r_first i) other_first)
                                        (Z.min (r_last i) other_last) in
            if r_last i <? other_last then overlap_loop offset iter' other retval'
            else walk other' retval'
    | _, _ => retval
    end.

Definition overlap (self e : exposure) (offset : Z) : range :=
  let r := e_r (normalize self) in
  let er := e_r (normalize e) in
  match er, r with
  | [], _ | _, [] => invalid
  | _, _ =>
      if r_first (front er) >? UINT64_MAX - offset then invalid
      else
        let first_other := r_first (front er) + offset in
        let last_other := shift_last (r_last (back er)) offset in
        if (last_other <? r_first (front r)) || (first_other >? r_last (back r)) then invalid
        else if (Nat.eqb (length er) 1) && (Nat.eqb (length r) 1) then
          Range (Z.max (r_first (front r)) first_other) (Z.min (r_last (front r)) last_other)
        else overlap_loop offset r er invalid
  end.

Definition span (e : exposure) : range :=
  match e_r e with
  | [] => invalid
  | r => if e_reversed e then Range (r_first (back r)) (r_last (front r))
         else Range (r_first (front r)) (r_last (back r))
  end.

(** the tail of [add]: ranges that touch the grown one are merged into it *)
Fixpoint absorb (cur : range) (rest : list range) : list range :=
  match rest with
  | [] => [cur]
  | s :: rest' =>
      if (r_last cur =? UINT64_MAX) || (r_last cur + 1 >=? r_first s)
      then absorb (Range (r_first cur) (Z.max (r_last cur) (r_last s))) rest'
      else cur :: rest
  end.

(** the part of [add] after the fast paths *)
Definition add_between (r : list range) (start end_ : Z) : list range :=
  let '(before, from) :=
    lower_bound (fun s => negb (r_last s =? UINT64_MAX) && (r_last s + 1 <? start)) r in
  match from with
  | [] => r ++ [Range start end_]
  | s :: rest =>
      if negb (end_ =? UINT64_MAX) && (end_ + 1 <? r_first s) then before ++ Range start end_ :: from
      else before ++ absorb (Range (Z.min (r_first s) start) (Z.max (r_last s) end_)) rest
  end.

(** [add] once the vector is in ascending order *)
Definition add_sorted (r : list range) (start end_ : Z) : exposure :=
  if negb (end_ =? UINT64_MAX) && (end_ + 1 <? r_first (front r)) then
    if Nat.eqb (length r) 1 then Exposure (r ++ [Range start end_]) true
    else Exposure (Range start end_ :: r) false
  else
    let last := back r in
    if negb (r_last last =? UINT64_MAX) && (start >? r_last last + 1) then
      Exposure (r ++ [Range start end_]) false
    else if (start >=? r_first last) && ((r_last last =? UINT64_MAX) || (start <=? r_last last + 1)) then
      Exposure (removelast r ++ [Range (r_first last) (Z.max (r_last last) end_)]) false
    else
      Exposure (add_between r start end_) false.

Definition add (e : exposure) (start end_ : Z) : outcome exposure :=
  let* _ := require (start <=? end_) AssertFailed in
  Ok (match e_r e with
      | [] => Exposure [Range start end_] (e_reversed e)
      | r =>
          if e_reversed e && (negb (end_ =? UINT64_MAX) && (end_ + 1 <? r_first (back r)))
          then Exposure (r ++ [Range start end_]) true
          else add_sorted (e_r (normalize e)) start end_
      end).

Definition add_os (e : exposure) (offset size : Z) : outcome exposure :=
  if size >? 0 then add e offset (wrap64 (offset + size - 1)) else Ok e.

(** the scan of [fetch] over more than one range *)
Fixpoint fetch_loop (start end_ : Z) (is_mapped : bool) (retval : range) (l : list range)
  : range * list range :=
  match l with
  | [] => (retval, [])
  | s :: t =>
      if r_first s >? end_ then (retval, l)
      else if (r_last s >=? start) && (r_first s <=? end_) then
        let retval' := widen retval (Z.max (r_first s) start) (Z.min (r_last s) end_) in
        if is_mapped then
          let '(v, t') := fetch_loop start end_ is_mapped retval' t in (v, s :: t')
        else if (r_first s >=? start) && (r_last s <=? end_) then
          fetch_loop start end_ is_mapped retval' t
        else if (r_first s <? start) && (r_last s >? end_) then
          (retval', Range (r_first s) (start - 1) :: Range (end_ + 1) (r_last s) :: t)
        else if r_first s <? start then
          let '(v, t') := fetch_loop start end_ is_mapped retval' t in
          (v, Range (r_first s) (start - 1) :: t')
        else if r_last s >? end_ then
          (retval', Range (end_ + 1) (r_last s) :: t)
        else
          let '(v, t') := fetch_loop start end_ is_mapped retval' t in (v, s :: t')
      else
        let '(v, t') := fetch_loop start end_ is_mapped retval t in (v, s :: t')
  end.

(** the branch of [fetch] for a single range *)
Definition fetch_single (s : range) (start end_ : Z) (is_mapped : bool) : range * list range :=
  if (r_last s <? start) || (r_first s >? end_) then (invalid, [s])
  else
    (Range (Z.max (r_first s) start) (Z.min (r_last s) end_),
     if is_mapped then [s]
     else if (r_first s >=? start) && (r_last s <=? end_) then []
     else if (r_first s <? start) && (r_last s >? end_) then
       [Range (r_first s) (start - 1); Range (end_ + 1) (r_last s)]
     else if r_first s <? start then [Range (r_first s) (start - 1)]
     else if r_last s >? end_ then [Range (end_ + 1) (r_last s)]
     else [s]).

Definition fetch (e : exposure) (start end_ : Z) (is_mapped : bool) : outcome (range * exposure) :=
  let* _ := require (start <=? end_) AssertFailed in
  let e := normalize e in
  match e_r e with
  | [] => Ok (invalid, e)
  | r =>
      if (end_ <? r_first (front r)) || (start >? r_last (back r)) then Ok (invalid, e)
      else
        let '(v, r') :=
          if Nat.eqb (length r) 1 then fetch_single (front r) start end_ is_mapped
          else fetch_loop start end_ is_mapped invalid r in
        Ok (v, Exposure r' (e_reversed e))
  end.

Definition fetch_os (e : exposure) (offset size : Z) (is_mapped : bool) : outcome (range * exposure) :=
  if size =? 0 then Ok (invalid, e)
  else fetch e offset (wrap64 (offset + size - 1)) is_mapped.

Definition fetch_range (e : exposure) (v : range) (is_mapped : bool) : outcome (range * exposure) :=
  fetch e (r_first v) (r_last v) is_mapped.

(** the loop of [self_test]; [prev] is [None] on the first round *)
Fixpoint self_test_loop (prev : option Z) (l : list range) : bool :=
  match l with
  | [] => true
  | s :: t =>
      (r_first s <=? r_last s) &&
      match prev with None => true | Some p => r_first s >? p end &&
      self_test_loop (Some (r_last s)) t
  end.

Definition self_test (e : exposure) : outcome exposure :=
  let* _ := require (self_test_loop None (e_r (normalize e))) AssertFailed in
  Ok (normalize e).

(** [list()], which also leaves the vector in ascending order *)
Definition list_ (e : exposure) : list range := e_r (normalize e).

Definition bytes (e : exposure) : Z :=
  fold_left (fun v s => wrap64 (v + (1 + r_last s - r_first s))) (e_r e) 0.

Definition clear (e : exposure) : exposure := Exposure [] false.

Definition size (e : exposure) : Z := Z.of_nat (length (e_r e)).

(** ** The byte set a vector stands for, and the representation invariant *)

Definition in_range (s : range) (x : Z) : Prop := r_first s <= x <= r_last s.

Definition covers (l : list range) (x : Z) : Prop := Exists (fun s => in_range s x) l.

(** ascending, non-empty ranges inside 64 bits that neither overlap nor touch;
    [lo] is the least position the next range may start at *)
Fixpoint separated (lo : Z) (l : list range) : Prop :=
  match l with
  | [] => True
  | s :: t => lo <= r_first s /\ r_first s <= r_last s /\ r_last s <= UINT64_MAX /\
              separated (r_last s + 2) t
  end.

Definition wf (e : exposure) : Prop :=
  separated 0 (list_ e) /\ (e_reversed e = true -> (2 <= length (e_r e))%nat).

Definition contents (e : exposure) : Z -> Prop := covers (list_ e).

(** [v] is the hull of the set [P], and the invalid range when [P] is empty *)
Definition hull_of (P : Z -> Prop) (v : range) : Prop :=
  (v = invalid /\ forall x, ~ P x) \/
  (P (r_first v) /\ P (r_last v) /\ forall x, P x -> r_first v <= x <= r_last v).

(** least start of a range that may follow [l] *)
Definition next_from (lo : Z) (l : list range) : Z :=
  fold_left (fun _ s => r_last s + 2) l lo.

(** ** Lemmas *)

Lemma range_eqb_spec a b : range_eqb a b = true <-> a = b.
Proof.
  unfold range_eqb. rewrite andb_true_iff, !Z.eqb_eq.
  destruct a, b; simpl. split; [intros [-> ->]; done | by intros [= -> ->]].
Qed.

Lemma covers_nil x : covers [] x <-> False.
Proof. apply Exists_nil. Qed.

Lemma covers_cons s l x : covers (s :: l) x <-> in_range s x \/ covers l x.
Proof. apply Exists_cons. Qed.

Lemma covers_app l m x : covers (l ++ m) x <-> covers l x \/ covers m x.
Proof. apply Exists_app. Qed.

Lemma covers_single s x : covers [s] x <-> in_range s x.
Proof. rewrite covers_cons, covers_nil. tauto. Qed.

Lemma separated_weaken lo lo' l : lo' <= lo -> separated lo l -> separated lo' l.
Proof. destruct l; simpl; [done | intuition lia]. Qed.

Lemma separated_tighten lo s l : separated lo (s :: l) -> separated (r_first s) (s :: l).
Proof. simpl. intuition lia. Qed.

Lemma next_from_cons lo s l : next_from lo (s :: l) = next_from (r_last s + 2) l.
Proof. done. Qed.

Lemma separated_app lo l m :
  separated lo (l ++ m) <-> separated lo l /\ separated (next_from lo l) m.
Proof.
  revert lo; induction l as [|s l IH]; intros lo; simpl; [unfold next_from; simpl; tauto|].
  rewrite IH. unfold next_from. simpl. tauto.
Qed.

Lemma next_from_ge lo l : separated lo l -> lo <= next_from lo l.
Proof.
  revert lo; induction l as [|s l IH]; intros lo; [unfold next_from; simpl; lia|].
  intros (?&?&?&H). apply IH in H. unfold next_from in *. simpl in *. lia.
Qed.

Lemma next_from_snoc lo l s : next_from lo (l ++ [s]) = r_last s + 2.
Proof. unfold next_from. by rewrite fold_left_app. Qed.

Lemma separated_covers_ge lo l x : separated lo l -> covers l x -> lo <= x <= UINT64_MAX.
Proof.
  revert lo; induction l as [|s l IH]; intros lo; [by rewrite covers_nil|].
  intros (?&?&?&H). rewrite covers_cons. intros [[? ?]|Hc]; [lia|].
  specialize (IH _ H Hc). lia.
Qed.

Lemma separated_covers_lt lo l x : separated lo l -> covers l x -> x + 2 <= next_from lo l.
Proof.
  revert lo; induction l as [|s l IH]; intros lo; [by rewrite covers_nil|].
  intros (?&?&?&H). rewrite covers_cons, next_from_cons.
  intros [[? ?]|Hc]; [|eauto]. pose proof (next_from_ge _ _ H). lia.
Qed.

Lemma separated_covers_max lo l s x : separated lo (l ++ [s]) -> covers l x -> x + 2 <= r_first s.
Proof.
  rewrite separated_app. simpl. intros (H1&H2&_) Hc.
  pose proof (separated_covers_lt _ _ _ H1 Hc). lia.
Qed.

Lemma back_snoc l s : back (l ++ [s]) = s.
Proof. unfold back. apply last_last. Qed.

Lemma list_of_exposure l b : list_ (Exposure l b) = if b then reverse l else l.
Proof. by destruct b. Qed.

Lemma normalize_list e : e_r (normalize e) = list_ e.
Proof. done. Qed.

Lemma normalize_wf e : wf e -> wf (normalize e) /\ list_ (normalize e) = list_ e /\
  e_reversed (normalize e) = false.
Proof.
  unfold wf, list_, normalize. destruct e as [l [|]]; simpl; intuition discriminate.
Qed.

Lemma wf_sorted l : separated 0 l -> wf (Exposure l false).
Proof. unfold wf, list_, normalize. simpl. intuition discriminate. Qed.

#[export] Hint Rewrite covers_nil covers_cons covers_app : lava.
#[export] Hint Resolve wf_sorted : lava.

Ltac covers_simpl := repeat (rewrite ?covers_nil, ?covers_cons, ?covers_app in * ).

(** ** [add] is set union *)

Lemma absorb_spec cur rest lo :
  lo <= r_first cur -> r_first cur <= r_last cur -> r_last cur <= UINT64_MAX ->
  separated (r_first cur + 2) rest ->
  separated lo (absorb cur rest) /\
  (forall x, covers (absorb cur rest) x <-> in_range cur x \/ covers rest x).
Proof.
  revert cur; induction rest as [|s rest IH]; intros cur H1 H2 H3 Hs.
  - simpl. split; [auto|]. intros x. by rewrite covers_cons.
  - destruct Hs as (Ha&Hb&Hc&Hs). simpl. case_bool; bool_to_prop.
    + destruct (IH (Range (r_first cur) (Z.max (r_last cur) (r_last s)))) as [I1 I2]; simpl; try lia.
      { eapply separated_weaken; [|exact Hs]. lia. }
      split; [exact I1|]. intros x. rewrite I2, covers_cons.
      assert (r_first s <= r_last cur + 1) by (destruct C; bool_to_prop; lia).
      assert (in_range (Range (r_first cur) (Z.max (r_last cur) (r_last s))) x <->
              in_range cur x \/ in_range s x) by (unfold in_range; simpl; lia).
      tauto.
    + split; [|intros x; rewrite !covers_cons; tauto]. simpl. repeat split; try lia. done.
Qed.

Lemma next_from_le lo l start :
  lo <= start -> Forall (fun s => r_last s + 1 < start) l -> next_from lo l <= start.
Proof.
  intros Hlo H. revert lo Hlo. induction H as [|s l Hs _ IH]; intros lo Hlo; [done|].
  rewrite next_from_cons. apply IH. lia.
Qed.

Lemma in_range_split s x : in_range s x <-> r_first s <= x <= r_last s.
Proof. done. Qed.

Definition adds_interval (l l' : list range) (start end_ : Z) : Prop :=
  separated 0 l' /\ forall x, covers l' x <-> covers l x \/ start <= x <= end_.

Lemma add_between_spec r start end_ :
  separated 0 r -> 0 <= start -> start <= end_ -> end_ <= UINT64_MAX ->
  adds_interval r (add_between r start end_) start end_.
Proof.
  intros Hs H0 H1 H2. unfold add_between, adds_interval.
  destruct (lower_bound _ r) as [before from] eqn:E.
  pose proof (lower_bound_app _ _ _ _ E) as ->.
  pose proof (lower_bound_holds _ _ _ _ E) as Hb.
  apply separated_app in Hs as [Hs1 Hs2].
  assert (Hn : next_from 0 before <= start).
  { apply next_from_le; [done|]. eapply Forall_impl; [exact Hb|]. simpl. intros s Hp.
    bool_to_prop. lia. }
  destruct from as [|s rest].
  - rewrite app_nil_r. split.
    + rewrite separated_app. simpl. intuition lia.
    + intros x. rewrite covers_app, covers_single, in_range_split. simpl. tauto.
  - pose proof (lower_bound_stops _ _ _ _ _ E) as Hstop. simpl in Hstop.
    destruct Hs2 as (Ha&Hl&Hm&Hr). case_bool; bool_to_prop.
    + split; [rewrite separated_app; simpl; intuition lia|].
      intros x. rewrite !covers_app, !covers_cons, !in_range_split. simpl. tauto.
    + assert (Htouch : start <= r_last s + 1) by (destruct Hstop; bool_to_prop; lia).
      assert (Htouch' : r_first s <= end_ + 1) by (destruct C; bool_to_prop; lia).
      destruct (absorb_spec (Range (Z.min (r_first s) start) (Z.max (r_last s) end_)) rest
                  (next_from 0 before)) as [A1 A2]; simpl; try lia.
      { eapply separated_weaken; [|exact Hr]. lia. }
      split; [by rewrite separated_app|].
      intros x. rewrite !covers_app, A2, covers_cons, !in_range_split. simpl.
      split; [|intuition lia]. intros [?|[?|?]]; [tauto | | tauto].
      destruct (decide (r_first s <= x <= r_last s)); [tauto|]. right. lia.
Qed.

Lemma length_one_inv {A} (l : list A) : Nat.eqb (length l) 1 = true -> exists a, l = [a].
Proof. destruct l as [|a [|]]; simpl; try discriminate. eauto. Qed.

Lemma adds_interval_back l b start end_ :
  separated 0 (l ++ [b]) -> 0 <= start -> start <= end_ -> end_ <= UINT64_MAX ->
  r_first b <= start -> start <= r_last b + 1 ->
  adds_interval (l ++ [b]) (l ++ [Range (r_first b) (Z.max (r_last b) end_)]) start end_.
Proof.
  unfold adds_interval. rewrite !separated_app. simpl. intros (H1&H2&H3&H4&_) ? ? ? ? ?.
  split; [intuition lia|]. intros x. rewrite !covers_app, !covers_single, !in_range_split. simpl.
  split; [|intuition lia]. intros [?|?]; [tauto|].
  destruct (decide (x <= r_last b)); intuition lia.
Qed.

Lemma add_sorted_spec r start end_ :
  r <> [] -> separated 0 r -> 0 <= start -> start <= end_ -> end_ <= UINT64_MAX ->
  wf (add_sorted r start end_) /\
  adds_interval r (list_ (add_sorted r start end_)) start end_.
Proof.
  intros Hne Hs H0 H1 H2. unfold add_sorted.
  destruct (exists_last Hne) as (l & b & Hr).
  case_bool.
  - apply andb_true_iff in C as [_ C]. apply Z.ltb_lt in C. case_bool.
    + apply length_one_inv in C0 as [a Ha]. rewrite Ha in *. simpl in Hs, C |- *.
      assert (D : adds_interval [a] [Range start end_; a] start end_).
      { split; [simpl; intuition lia|]. intros x. rewrite !covers_cons, !in_range_split. simpl. tauto. }
      split; [|exact D]. split; [apply D | simpl; lia].
    + destruct r as [|a r']; [done|]. simpl in Hs, C.
      assert (D : adds_interval (a :: r') (Range start end_ :: a :: r') start end_).
      { split; [simpl; intuition lia|]. intros x. rewrite !covers_cons, !in_range_split. simpl. tauto. }
      split; [apply wf_sorted, D | exact D].
  - clear C. rewrite Hr, back_snoc. case_bool; [|case_bool].
    + bool_to_prop. assert (D : adds_interval (l ++ [b]) ((l ++ [b]) ++ [Range start end_]) start end_).
      { split; [|intros x; rewrite !covers_app, !covers_single, !in_range_split; simpl; tauto].
        rewrite Hr in Hs. rewrite separated_app, next_from_snoc. simpl. intuition lia. }
      split; [apply wf_sorted, D | exact D].
    + rewrite removelast_last. rewrite Hr in Hs.
      assert (D := adds_interval_back l b start end_ Hs H0 H1 H2).
      apply andb_true_iff in C0 as [? C0]. bool_to_prop.
      assert (start <= r_last b + 1) by (destruct C0; bool_to_prop; lia).
      split; [apply wf_sorted | ]; apply D; done.
    + rewrite <- Hr. pose proof (add_between_spec r start end_ Hs H0 H1 H2) as D.
      split; [apply wf_sorted, D | exact D].
Qed.

Lemma reverse_snoc_list {A} (l : list A) a : reverse (l ++ [a]) = a :: reverse l.
Proof. by rewrite reverse_app. Qed.

(** Whatever fast path is taken. *)
Lemma add_adds e start end_ :
  wf e -> 0 <= start -> start <= end_ -> end_ <= UINT64_MAX ->
  exists e', add e start end_ = Ok e' /\ wf e' /\ adds_interval (list_ e) (list_ e') start end_.
Proof.
  intros Hwf H0 H1 H2. unfold add.
  replace (start <=? end_) with true by lia. simpl. eexists; split; [reflexivity|].
  destruct e as [l b]; simpl. destruct l as [|a l].
  - destruct Hwf as [_ Hb]. destruct b; [simpl in Hb; specialize (Hb eq_refl); lia|].
    assert (D : adds_interval [] [Range start end_] start end_).
    { split; [simpl; intuition lia|]. intros x. rewrite covers_single, covers_nil, in_range_split. simpl. tauto. }
    split; [apply wf_sorted, D | exact D].
  - assert (Hadd : wf (add_sorted (e_r (normalize (Exposure (a :: l) b))) start end_) /\
      adds_interval (list_ (Exposure (a :: l) b))
        (list_ (add_sorted (e_r (normalize (Exposure (a :: l) b))) start end_)) start end_).
    { apply add_sorted_spec; try done; [|apply Hwf]. rewrite normalize_list, list_of_exposure.
      destruct b; [|done]. rewrite reverse_cons. by destruct (reverse l). }
    case_bool; [|exact Hadd]. apply andb_true_iff in C as [-> C]. bool_to_prop.
    destruct Hwf as [Hs _]. rewrite list_of_exposure in Hs.
    destruct (exists_last (l := a :: l) ltac:(done)) as (l' & c & Hl).
    change (a :: l ++ [Range start end_]) with ((a :: l) ++ [Range start end_]).
    rewrite Hl in *. clear Hl.
    rewrite back_snoc in *. rewrite reverse_snoc_list in Hs. simpl in Hs.
    assert (D : adds_interval (list_ (Exposure (l' ++ [c]) true))
                  (list_ (Exposure ((l' ++ [c]) ++ [Range start end_]) true)) start end_).
    { rewrite !list_of_exposure, !reverse_snoc_list. split; [simpl; intuition lia|].
      intros x. rewrite !covers_cons, !in_range_split. simpl. tauto. }
    split; [|exact D]. split; [apply D | simpl; rewrite !length_app; simpl; lia].
Qed.

(** ** [fetch] returns the hull of what it finds and removes the interval *)

Definition inter (P : Z -> Prop) (start end_ : Z) (x : Z) : Prop := P x /\ start <= x <= end_.

Lemma hull_of_ext P Q v : (forall x, P x <-> Q x) -> hull_of P v -> hull_of Q v.
Proof. unfold hull_of. intros H [[? HP]|(H1&H2&H3)]; [left|right]; firstorder. Qed.

Lemma hull_of_empty P : (forall x, ~ P x) -> hull_of P invalid.
Proof. by left. Qed.

Lemma hull_of_nothing : hull_of (fun _ => False) invalid.
Proof. by apply hull_of_empty; intros x []. Qed.

Lemma hull_of_valid P v : hull_of P v -> valid v = true <-> exists x, P x.
Proof.
  unfold hull_of, valid. intros [[-> HP]|(H1&H2&H3)].
  - simpl. split; [done|]. intros [x Hx]. by destruct (HP x).
  - split; [eauto|]. intros _. specialize (H3 _ H2). apply Z.leb_le. lia.
Qed.

Lemma hull_of_widen P v a b :
  hull_of P v -> a <= b -> hull_of (fun x => P x \/ a <= x <= b) (widen v a b).
Proof.
  intros H Hab. unfold widen. pose proof (hull_of_valid _ _ H) as Hv.
  destruct H as [[-> HP]|(H1&H2&H3)].
  - simpl. right. simpl. split; [lia|]. split; [lia|]. intros x [?|?]; [by destruct (HP x)|done].
  - replace (valid v) with true by (symmetry; apply Hv; eauto). simpl. right. simpl.
    destruct (Z.min_spec (r_first v) a) as [[? ->]|[? ->]],
      (Z.max_spec (r_last v) b) as [[? ->]|[? ->]];
      (split; [tauto || (right; lia)|]; split; [tauto || (right; lia)|]);
      intros x [Hx|Hx]; try apply H3 in Hx; lia.
Qed.

Lemma hull_of_range a b : a <= b -> hull_of (fun x => a <= x <= b) (Range a b).
Proof. intros. right. simpl. split; [lia|split; [lia|done]]. Qed.

(** what one range contributes to [inter] *)
Lemma inter_clip s start end_ x :
  inter (in_range s) start end_ x <->
  Z.max (r_first s) start <= x <= Z.min (r_last s) end_.
Proof. unfold inter, in_range. lia. Qed.

Lemma inter_cons s l start end_ x :
  inter (covers (s :: l)) start end_ x <->
  Z.max (r_first s) start <= x <= Z.min (r_last s) end_ \/ inter (covers l) start end_ x.
Proof. rewrite <- inter_clip. unfold inter. rewrite covers_cons. tauto. Qed.

Definition removes (l l' : list range) (start end_ : Z) : Prop :=
  forall x, covers l' x <-> covers l x /\ ~ (start <= x <= end_).

Definition fetched (l l' : list range) (start end_ : Z) (is_mapped : bool) : Prop :=
  if is_mapped then l' = l else removes l l' start end_.

Lemma removes_beyond lo l start end_ : separated lo l -> end_ < lo -> removes l l start end_.
Proof.
  intros Hs Hlo x. split; [|tauto]. intros Hc. split; [done|].
  pose proof (separated_covers_ge _ _ _ Hs Hc). lia.
Qed.

(** results of the scan of [s :: t] from those of [t] *)
Definition fetches (P : Z -> Prop) (lo : Z) (l : list range) (start end_ : Z) (is_mapped : bool)
    (res : range * list range) : Prop :=
  hull_of (fun x => P x \/ inter (covers l) start end_ x) res.1 /\
  separated lo res.2 /\ fetched l res.2 start end_ is_mapped.

Lemma fetches_beyond lo' P v lo l start end_ is_mapped :
  separated lo l -> separated lo' l -> end_ < lo' -> hull_of P v -> fetches P lo l start end_ is_mapped (v, l).
Proof.
  intros Hs0 Hs Hlo Hv. split; [|split; [done|]]; simpl.
  - eapply hull_of_ext; [|exact Hv]. intros x. cbv beta.
    assert (~ inter (covers l) start end_ x); [|tauto].
    intros [Hx ?]. pose proof (separated_covers_ge _ _ _ Hs Hx). lia.
  - destruct is_mapped; [done|]. by apply (removes_beyond lo').
Qed.

(** the pieces [s] leaves behind, and what the rest of the scan gives *)
Lemma fetches_cons P v lo s t start end_ is_mapped ps res :
  lo <= r_first s -> r_first s <= r_last s -> r_last s <= UINT64_MAX ->
  fetches (fun x => P x \/ Z.max (r_first s) start <= x <= Z.min (r_last s) end_)
    (r_last s + 2) t start end_ is_mapped (v, res) ->
  (if is_mapped then ps = [s] else
     forall x, covers ps x <-> in_range s x /\ ~ (start <= x <= end_)) ->
  separated lo (ps ++ res) ->
  fetches P lo (s :: t) start end_ is_mapped (v, ps ++ res).
Proof.
  intros H1 H2 H3 (Hh&_&Hf) Hps Hs'. simpl in *. split; [|split; [exact Hs'|]]; simpl.
  - eapply hull_of_ext; [|exact Hh]. intros x. cbv beta. rewrite inter_cons. tauto.
  - destruct is_mapped; simpl in *; [by subst|]. intros x.
    rewrite covers_app, covers_cons, Hps, (Hf x). tauto.
Qed.

Lemma widen_clip P v s start end_ :
  hull_of P v -> r_first s <= r_last s -> start <= end_ -> start <= r_last s -> r_first s <= end_ ->
  hull_of (fun x => P x \/ Z.max (r_first s) start <= x <= Z.min (r_last s) end_)
    (widen v (Z.max (r_first s) start) (Z.min (r_last s) end_)).
Proof. intros. apply hull_of_widen; [done | lia]. Qed.

Lemma hull_of_miss P v s start end_ :
  hull_of P v -> (r_last s < start \/ end_ < r_first s) ->
  hull_of (fun x => P x \/ Z.max (r_first s) start <= x <= Z.min (r_last s) end_) v.
Proof. intros Hv ?. eapply hull_of_ext; [|exact Hv]. intros x. cbv beta. intuition lia. Qed.

Lemma fetch_loop_spec start end_ is_mapped l lo v P :
  separated lo l -> start <= end_ -> 0 <= start -> hull_of P v ->
  fetches P lo l start end_ is_mapped (fetch_loop start end_ is_mapped v l).
Proof.
  revert lo v P; induction l as [|s t IH]; intros lo v P Hs Hse H0 Hv.
  { simpl. split; [|split; [done|destruct is_mapped; [done|]]].
    - eapply hull_of_ext; [|exact Hv]. intros x. cbv beta. unfold inter. rewrite covers_nil. tauto.
    - intros x. simpl. rewrite covers_nil. tauto. }
  pose proof Hs as (Ha&Hb&Hc&Ht). cbn [fetch_loop].
  assert (Hrec : forall v' lo', lo' <= r_last s + 2 ->
    hull_of (fun x => P x \/ Z.max (r_first s) start <= x <= Z.min (r_last s) end_) v' ->
    fetches (fun x => P x \/ Z.max (r_first s) start <= x <= Z.min (r_last s) end_)
      lo' t start end_ is_mapped (fetch_loop start end_ is_mapped v' t)).
  { intros v' lo' Hlo' Hv'. apply IH; try done. by eapply separated_weaken. }
  destruct (r_first s >? end_) eqn:C1; bool_to_prop.
  { apply (fetches_beyond (r_first s)); [done|by eapply separated_tighten|lia|done]. }
  destruct ((r_last s >=? start) && (r_first s <=? end_)) eqn:C2.
  - apply andb_true_iff in C2 as [C2 _]. rewrite Z.geb_leb in C2. apply Z.leb_le in C2.
    assert (Hw := widen_clip P v s start end_ Hv Hb Hse C2 C1).
    cbv zeta iota. set (v' := widen _ _ _) in *.
    destruct is_mapped; cbv iota; [|case_bool; [|case_bool; [|case_bool; [|case_bool]]]]; bool_to_prop.
    + specialize (Hrec v' (r_last s + 2)). destruct (fetch_loop start end_ true v' t) as [w t'].
      apply (fetches_cons P w lo s t start end_ true [s] t'); auto; [by apply Hrec|]. 
      destruct (Hrec ltac:(lia) Hw) as (_&_&Hf). simpl in Hf. subst t'. exact Hs.
    + pose proof (Hrec v' lo ltac:(lia) Hw) as (_&Hs'&_). specialize (Hrec v' (r_last s + 2)).
      destruct (fetch_loop start end_ false v' t) as [w t'].
      apply (fetches_cons P w lo s t start end_ false [] t'); auto; [by apply Hrec|].
      intros x. rewrite covers_nil. unfold in_range. lia.
    + apply (fetches_cons P v' lo s t start end_ false
               [Range (r_first s) (start - 1); Range (end_ + 1) (r_last s)] t); auto.
      * apply (fetches_beyond (r_last s + 2)); [done | done | lia | done].
      * intros x. rewrite covers_cons, covers_single. unfold in_range; simpl. lia.
      * simpl. repeat split; auto; lia.
    + pose proof (Hrec v' (start + 1) ltac:(lia) Hw) as (_&Hs'&_). specialize (Hrec v' (r_last s + 2)).
      destruct (fetch_loop start end_ false v' t) as [w t'].
      apply (fetches_cons P w lo s t start end_ false [Range (r_first s) (start - 1)] t'); auto; [by apply Hrec| |].
      * intros x. rewrite covers_single. unfold in_range; simpl. lia.
      * simpl. repeat split; auto; try lia. eapply separated_weaken; [|exact Hs']. lia.
    + apply (fetches_cons P v' lo s t start end_ false [Range (end_ + 1) (r_last s)] t); auto.
      * apply (fetches_beyond (r_last s + 2)); [done | done | lia | done].
      * intros x. rewrite covers_single. unfold in_range; simpl. lia.
      * simpl. repeat split; auto; lia.
    + lia.
  - assert (Hm : r_last s < start) by (bool_to_prop; destruct C2; bool_to_prop; lia).
    assert (Hw := hull_of_miss P v s start end_ Hv (or_introl Hm)).
    pose proof (Hrec v (r_last s + 2) ltac:(lia) Hw) as (_&Hs'&_).
    specialize (Hrec v (r_last s + 2)). destruct (fetch_loop start end_ is_mapped v t) as [w t'].
    apply (fetches_cons P w lo s t start end_ is_mapped [s] t'); auto; [by apply Hrec| |].
    + destruct is_mapped; [done|]. intros x. rewrite covers_single. unfold in_range. lia.
    + simpl. repeat split; auto.
Qed.

Lemma fetch_single_spec s start end_ is_mapped :
  separated 0 [s] -> start <= end_ -> 0 <= start ->
  fetches (fun _ => False) 0 [s] start end_ is_mapped (fetch_single s start end_ is_mapped).
Proof.
  intros (Ha&Hb&Hc&_) Hse H0. unfold fetch_single, fetches. case_bool.
  - bool_to_prop. split; [|split; [simpl; auto|destruct is_mapped; [done|]]].
    + apply hull_of_empty. intros x. unfold inter. rewrite covers_single. unfold in_range.
      destruct C; bool_to_prop; lia.
    + intros x. simpl. rewrite covers_single. unfold in_range. destruct C; bool_to_prop; lia.
  - bool_to_prop. split; [|split]; simpl.
    + eapply hull_of_ext; [|apply hull_of_range; lia]. intros x. cbv beta.
      rewrite inter_cons. unfold inter. rewrite covers_nil. intuition lia.
    + destruct is_mapped; repeat (case_bool; bool_to_prop); simpl; repeat split; auto; lia.
    + destruct is_mapped; [done|]. intros x. simpl. rewrite covers_single.
      repeat (case_bool; bool_to_prop); rewrite ?covers_cons, ?covers_nil; unfold in_range; simpl; lia.
Qed.

Lemma separated_front lo l x : separated lo l -> covers l x -> r_first (front l) <= x.
Proof.
  destruct l as [|s l]; [by rewrite covers_nil|]. intros (?&?&?&H) Hc.
  apply covers_cons in Hc as [[? ?]|Hc]; simpl; [done|].
  pose proof (separated_covers_ge _ _ _ H Hc). lia.
Qed.

Lemma separated_back lo l x : separated lo l -> covers l x -> x <= r_last (back l).
Proof.
  intros Hs Hc. destruct (decide (l = [])) as [->|Hne]; [by rewrite covers_nil in Hc|].
  destruct (exists_last Hne) as (l' & b & ->). rewrite back_snoc.
  pose proof (separated_covers_max _ _ _ x Hs) as Hm. apply separated_app in Hs as [_ Hs].
  simpl in Hs. rewrite covers_app, covers_single in Hc. unfold in_range in Hc.
  destruct Hc as [Hc|Hc]; [specialize (Hm Hc)|]; lia.
Qed.

Lemma fetch_spec e start end_ is_mapped :
  wf e -> 0 <= start -> start <= end_ ->
  exists v e', fetch e start end_ is_mapped = Ok (v, e') /\ wf e' /\
    fetches (fun _ => False) 0 (list_ e) start end_ is_mapped (v, list_ e').
Proof.
  intros Hwf H0 Hse. destruct (normalize_wf _ Hwf) as (Hn&Hl&Hr). destruct Hwf as [Hs _].
  unfold fetch. replace (start <=? end_) with true by lia. cbn [require obind].
  rewrite normalize_list, Hr.
  assert (Hmiss : forall x l, l = list_ e -> l <> [] ->
    (end_ <? r_first (front l)) || (start >? r_last (back l)) = true -> covers l x -> ~ (start <= x <= end_)).
  { intros x l -> _ C Hc. pose proof (separated_front _ _ _ Hs Hc). pose proof (separated_back _ _ _ Hs Hc).
    bool_to_prop. destruct C; bool_to_prop; lia. }
  destruct (list_ e) as [|s t] eqn:E.
  - eexists _, _; split; [reflexivity|]. split; [done|]. rewrite Hl.
    apply (fetches_beyond (end_ + 1)); [done|done|lia|apply hull_of_nothing].
  - case_bool.
    + eexists _, _; split; [reflexivity|]. split; [done|]. rewrite Hl.
      split; [|split; [done|destruct is_mapped; [done|]]]; simpl.
      * apply hull_of_empty. intros x [?|[Hc Hx]]; [done|].
        exact (Hmiss x (s :: t) eq_refl ltac:(done) C Hc Hx).
      * intros x. split; [|tauto]. intros Hc. split; [done|].
        exact (Hmiss x (s :: t) eq_refl ltac:(done) C Hc).
    + assert (Hf : fetches (fun _ => False) 0 (s :: t) start end_ is_mapped
        (if Nat.eqb (length (s :: t)) 1 then fetch_single (front (s :: t)) start end_ is_mapped
         else fetch_loop start end_ is_mapped invalid (s :: t))).
      { case_bool; [|apply fetch_loop_spec; try done; apply hull_of_nothing].
        apply length_one_inv in C0 as [a [= -> ->]]. by apply fetch_single_spec. }
      destruct (if Nat.eqb _ _ then _ else _) as [v l']. eexists _, _; split; [reflexivity|].
      split; [apply wf_sorted, Hf|exact Hf].
Qed.

(** ** [overlap] is the hull of an intersection with a shifted set *)

(** the bytes of [e] shifted up by [offset], cut at the end of the address space *)
Definition shifted (P : Z -> Prop) (offset x : Z) : Prop := x <= UINT64_MAX /\ P (x - offset).

Definition meets (l m : list range) (offset x : Z) : Prop := covers l x /\ shifted (covers m) offset x.

Lemma meets_cons_l s l m offset x :
  meets (s :: l) m offset x <-> (in_range s x /\ shifted (covers m) offset x) \/ meets l m offset x.
Proof. unfold meets. rewrite covers_cons. tauto. Qed.

Lemma meets_cons_r l s m offset x :
  meets l (s :: m) offset x <-> (covers l x /\ shifted (in_range s) offset x) \/ meets l m offset x.
Proof. unfold meets, shifted. rewrite covers_cons. tauto. Qed.

Lemma shifted_single s offset x :
  r_first s + offset <= UINT64_MAX ->
  shifted (in_range s) offset x <-> r_first s + offset <= x <= shift_last (r_last s) offset.
Proof. unfold shifted, in_range, shift_last. intros. case_bool; bool_to_prop; lia. Qed.

Lemma shifted_ge lo m offset x : separated lo m -> shifted (covers m) offset x -> lo + offset <= x.
Proof. intros Hs [_ Hc]. pose proof (separated_covers_ge _ _ _ Hs Hc). lia. Qed.

Lemma overlap_loop_spec offset iter : 0 <= offset -> forall other lo lo' v P,
  separated lo iter -> separated lo' other -> hull_of P v ->
  hull_of (fun x => P x \/ meets iter other offset x) (overlap_loop offset iter other v).
Proof.
  intros Ho. induction iter as [|i iter IH].
  { intros [|o other] lo lo' v P _ _ Hv; (eapply hull_of_ext; [|exact Hv]);
      intros x; cbv beta; unfold meets; rewrite covers_nil; tauto. }
  induction other as [|o other IHo]; intros lo lo' v P Hi Hother Hv.
  { simpl. eapply hull_of_ext; [|exact Hv]. intros x. cbv beta. unfold meets, shifted.
    rewrite (covers_nil (x - offset)). tauto. }
  pose proof Hi as (Ha&Hb&Hc&Hi'). pose proof Hother as (Hd&He&Hf&Ho').
  cbn [overlap_loop].
  destruct (r_first o >? UINT64_MAX - offset) eqn:C1; bool_to_prop.
  { eapply hull_of_ext; [|exact Hv]. intros x. cbv beta. assert (~ meets (i :: iter) (o :: other) offset x); [|tauto].
    intros [_ Hx]. pose proof (shifted_ge (r_first o) _ _ _ (separated_tighten _ _ _ Hother) Hx). destruct Hx. lia. }
  destruct (r_last i <? r_first o + offset) eqn:C2; bool_to_prop.
  { eapply hull_of_ext; [|by eapply IH]. intros x. cbv beta. rewrite meets_cons_l.
    assert (~ (in_range i x /\ shifted (covers (o :: other)) offset x)); [|tauto].
    intros [[_ ?] Hx]. pose proof (shifted_ge _ _ _ _ (separated_tighten _ _ _ Hother) Hx). lia. }
  assert (Hone : forall x, shifted (in_range o) offset x <->
            r_first o + offset <= x <= shift_last (r_last o) offset)
    by (intros x; apply shifted_single; lia).
  assert (Hmax : shift_last (r_last o) offset <= r_last o + offset)
    by (unfold shift_last; case_bool; bool_to_prop; lia).
  destruct (shift_last (r_last o) offset <? r_first i) eqn:C3; bool_to_prop.
  { eapply hull_of_ext; [|by eapply IHo]. intros x. cbv beta. rewrite meets_cons_r, Hone.
    assert (~ (covers (i :: iter) x /\ r_first o + offset <= x <= shift_last (r_last o) offset)); [|tauto].
    intros [Hx ?]. pose proof (separated_covers_ge _ _ _ (separated_tighten _ _ _ Hi) Hx). lia. }
  assert (Hw := hull_of_widen P v (Z.max (r_first i) (r_first o + offset))
    (Z.min (r_last i) (shift_last (r_last o) offset)) Hv).
  assert (Hge : r_first o + offset <= shift_last (r_last o) offset)
    by (unfold shift_last; case_bool; bool_to_prop; lia).
  specialize (Hw ltac:(lia)).
  destruct (r_last i <? shift_last (r_last o) offset) eqn:C4; bool_to_prop.
  - eapply hull_of_ext; [|by eapply IH; [..|exact Hw]]. intros x. cbv beta.
    rewrite meets_cons_l. unfold in_range at 1.
    assert (r_first i <= x <= r_last i /\ shifted (covers (o :: other)) offset x <->
      r_first i <= x <= r_last i /\ r_first o + offset <= x <= shift_last (r_last o) offset) as ->; [|intuition lia].
    unfold shifted at 1. rewrite covers_cons. specialize (Hone x). unfold shifted in Hone.
    split; intros [? Hx]; (split; [done|]); [|tauto].
    destruct Hx as [? [?|Hx]]; [tauto|].
    pose proof (shifted_ge _ _ _ _ Ho' (conj H0 Hx)). lia.
  - eapply hull_of_ext; [|by eapply IHo; [..|exact Hw]]. intros x. cbv beta.
    rewrite meets_cons_r, covers_cons, Hone. unfold in_range.
    split; [intuition lia|]. intros [?|[[[?|Hx] ?]|?]]; [tauto|intuition lia| |tauto].
    pose proof (separated_covers_ge _ _ _ Hi' Hx). lia.
Qed.

Lemma overlap_bounds_miss self e offset x :
  separated 0 self -> separated 0 e -> e <> [] ->
  0 <= offset -> r_first (front e) + offset <= UINT64_MAX ->
  shift_last (r_last (back e)) offset < r_first (front self) \/
    r_first (front e) + offset > r_last (back self) ->
  ~ meets self e offset x.
Proof.
  intros Hs He Hne Ho Hf Hmiss [Hc [Hx Hx']].
  pose proof (separated_front _ _ _ Hs Hc). pose proof (separated_back _ _ _ Hs Hc).
  pose proof (separated_front _ _ _ He Hx'). pose proof (separated_back _ _ _ He Hx').
  unfold shift_last in Hmiss. destruct Hmiss as [Hm|Hm]; [|lia].
  destruct (r_last (back e) >? UINT64_MAX - offset) eqn:C; bool_to_prop; lia.
Qed.

Lemma overlap_hull_aux self e offset :
  wf self -> wf e -> 0 <= offset ->
  hull_of (meets (list_ self) (list_ e) offset) (overlap self e offset).
Proof.
  intros [Hs _] [He _] Ho. unfold overlap. rewrite !normalize_list.
  destruct (list_ e) as [|o other] eqn:Ee.
  { apply hull_of_empty. intros x [_ [_ Hx]]. by rewrite covers_nil in Hx. }
  destruct (list_ self) as [|i iter] eqn:Es.
  { apply hull_of_empty. intros x [Hx _]. by rewrite covers_nil in Hx. }
  case_bool; bool_to_prop.
  { apply hull_of_empty. intros x [_ Hx]. simpl in C.
    pose proof (shifted_ge _ _ _ _ (separated_tighten _ _ _ He) Hx). destruct Hx. lia. }
  case_bool.
  { apply hull_of_empty. intros x. apply overlap_bounds_miss; try done; [lia|].
    bool_to_prop. destruct C0; bool_to_prop; lia. }
  bool_to_prop.
  destruct (Nat.eqb (length (o :: other)) 1 && Nat.eqb (length (i :: iter)) 1) eqn:C1.
  - apply andb_true_iff in C1 as [E1 E2].
    apply length_one_inv in E1 as [o' [= -> ->]], E2 as [i' [= -> ->]].
    change (back [o']) with o' in *. change (back [i']) with i' in *. simpl front in *.
    destruct Hs as (_&?&?&_), He as (_&?&?&_).
    assert (r_first o' + offset <= shift_last (r_last o') offset)
      by (unfold shift_last; case_bool; bool_to_prop; lia).
    eapply hull_of_ext; [|apply hull_of_range; lia]. intros x. cbv beta. unfold meets.
    rewrite covers_single. unfold shifted. rewrite covers_single.
    pose proof (shifted_single o' offset x ltac:(lia)) as Hone. unfold shifted in Hone.
    rewrite Hone. unfold in_range. lia.
  - eapply hull_of_ext; [|eapply overlap_loop_spec; [done|exact Hs|exact He|apply hull_of_nothing]].
    intros x. cbv beta. tauto.
Qed.

(** ** The vector is canonical *)

Lemma separated_head_covers lo s l x : separated lo (s :: l) -> covers (s :: l) x -> r_first s <= x.
Proof. intros Hs Hc. apply (separated_covers_ge _ _ x (separated_tighten _ _ _ Hs) Hc). Qed.

(** the byte after a range is never covered *)
Lemma separated_gap lo s l : separated lo (s :: l) -> ~ covers (s :: l) (r_last s + 1).
Proof.
  intros (?&?&?&H). rewrite covers_cons. intros [[? ?]|Hc]; [lia|].
  pose proof (separated_covers_ge _ _ _ H Hc). lia.
Qed.

Lemma covers_head s l : r_first s <= r_last s -> covers (s :: l) (r_first s).
Proof. intros. apply covers_cons. left. unfold in_range. lia. Qed.

Lemma covers_in_head s l x : r_first s <= x <= r_last s -> covers (s :: l) x.
Proof. intros. apply covers_cons. by left. Qed.

Lemma separated_canonical l m lo lo' :
  separated lo l -> separated lo' m -> (forall x, covers l x <-> covers m x) -> l = m.
Proof.
  revert m lo lo'; induction l as [|s l IH]; intros m lo lo' Hl Hm Heq.
  - destruct m as [|u m]; [done|]. destruct Hm as (?&?&?&?).
    pose proof (proj2 (Heq _) (covers_head u m ltac:(done))) as C. by rewrite covers_nil in C.
  - destruct m as [|u m].
    { destruct Hl as (?&?&?&?).
      pose proof (proj1 (Heq _) (covers_head s l ltac:(done))) as C. by rewrite covers_nil in C. }
    pose proof Hl as (_&Hs1&Hs2&Hl'). pose proof Hm as (_&Hu1&Hu2&Hm').
    assert (r_first s = r_first u).
    { pose proof (separated_head_covers _ _ _ _ Hm (proj1 (Heq _) (covers_head s l Hs1))).
      pose proof (separated_head_covers _ _ _ _ Hl (proj2 (Heq _) (covers_head u m Hu1))). lia. }
    assert (r_last s = r_last u).
    { destruct (Z.lt_trichotomy (r_last s) (r_last u)) as [?|[?|?]]; [|done|]; exfalso.
      - apply (separated_gap _ _ _ Hl), Heq, covers_in_head. lia.
      - apply (separated_gap _ _ _ Hm), Heq, covers_in_head. lia. }
    assert (s = u) as -> by (destruct s, u; simpl in *; congruence).
    f_equal. apply (IH m _ _ Hl' Hm'). intros x. specialize (Heq x). rewrite !covers_cons in Heq.
    split; intros Hx.
    + pose proof (separated_covers_ge _ _ _ Hl' Hx). unfold in_range in Heq. intuition lia.
    + pose proof (separated_covers_ge _ _ _ Hm' Hx). unfold in_range in Heq. intuition lia.
Qed.

Lemma self_test_separated prev lo l :
  separated lo l -> (forall p, prev = Some p -> p < lo) -> self_test_loop prev l = true.
Proof.
  revert prev lo; induction l as [|s l IH]; intros prev lo; [done|]. intros (?&?&?&H) Hp.
  simpl. rewrite (IH _ _ H) by (intros p [= <-]; lia).
  destruct prev as [p|]; [specialize (Hp p eq_refl)|]; lia.
Qed.

(** ** The operations as a whole: refinement of a plain set of bytes *)

Inductive op :=
  | OpAdd (start end_ : Z)
  | OpFetch (start end_ : Z) (is_mapped : bool)
  | OpSelfTest
  | OpClear.

Definition valid_op (o : op) : Prop :=
  match o with
  | OpAdd start end_ | OpFetch start end_ _ => 0 <= start /\ start <= end_ /\ end_ <= UINT64_MAX
  | OpSelfTest | OpClear => True
  end.

Definition do_op (e : exposure) (o : op) : outcome exposure :=
  match o with
  | OpAdd start end_ => add e start end_
  | OpFetch start end_ is_mapped => let* p := fetch e start end_ is_mapped in Ok (snd p)
  | OpSelfTest => self_test e
  | OpClear => Ok (clear e)
  end.

Fixpoint run (e : exposure) (ops : list op) : outcome exposure :=
  match ops with
  | [] => Ok e
  | o :: ops' => let* e' := do_op e o in run e' ops'
  end.

(** the abstract machine: a set of byte positions *)
Definition set_op (P : Z -> Prop) (o : op) : Z -> Prop :=
  match o with
  | OpAdd start end_ => fun x => P x \/ start <= x <= end_
  | OpFetch start end_ is_mapped => if is_mapped then P else fun x => P x /\ ~ (start <= x <= end_)
  | OpSelfTest => P
  | OpClear => fun _ => False
  end.

Definition set_run (P : Z -> Prop) (ops : list op) : Z -> Prop := fold_left set_op ops P.

Lemma do_op_refines e o P :
  wf e -> valid_op o -> (forall x, contents e x <-> P x) ->
  exists e', do_op e o = Ok e' /\ wf e' /\ forall x, contents e' x <-> set_op P o x.
Proof.
  intros Hwf Hv HP. destruct o as [start end_|start end_ m| |]; simpl in *.
  - destruct Hv as (?&?&?). destruct (add_adds e start end_) as (e' & -> & Hwf' & _ & Hc); try done.
    exists e'. split; [done|]. split; [done|]. intros x. unfold contents. rewrite Hc. by rewrite <- HP.
  - destruct Hv as (?&?&?). destruct (fetch_spec e start end_ m) as (v & e' & -> & Hwf' & _ & _ & Hf); try done.
    exists e'. split; [done|]. split; [done|]. intros x. unfold contents. simpl in Hf.
    destruct m; simpl in Hf; [rewrite Hf; apply HP|]. rewrite (Hf x). by rewrite <- HP.
  - unfold self_test. rewrite normalize_list.
    rewrite (self_test_separated None 0); [|apply Hwf|done]. simpl.
    destruct (normalize_wf _ Hwf) as (?&Hl&_). exists (normalize e).
    split; [done|]. split; [done|]. intros x. unfold contents. by rewrite Hl, <- HP.
  - exists (Exposure [] false). split; [done|]. split; [by apply wf_sorted|]. intros x. by apply covers_nil.
Qed.

Lemma run_refines ops e P :
  wf e -> Forall valid_op ops -> (forall x, contents e x <-> P x) ->
  exists e', run e ops = Ok e' /\ wf e' /\ forall x, contents e' x <-> set_run P ops x.
Proof.
  intros Hwf Hops. revert e P Hwf. induction Hops as [|o ops Ho _ IH]; intros e P Hwf HP; simpl.
  - eauto.
  - destruct (do_op_refines e o P Hwf Ho HP) as (e1 & -> & Hwf1 & HP1). simpl. by apply IH.
Qed.

(** what [fetch] returns and what it leaves *)
Lemma fetch_ok (e : exposure) (start end_ : Z) (is_mapped : bool) :
  wf e -> 0 <= start -> start <= end_ ->
  exists v e', fetch e start end_ is_mapped = Ok (v, e') /\ wf e' /\
    hull_of (fun x => contents e x /\ start <= x <= end_) v /\
    (is_mapped = true -> list_ e' = list_ e) /\
    (is_mapped = false -> forall x, contents e' x <-> contents e x /\ ~ (start <= x <= end_)).
Proof.
  intros Hwf H0 Hse.
  destruct (fetch_spec e start end_ is_mapped Hwf H0 Hse) as (v & e' & Hf & Hwf' & Hh & _ & Hr).
  exists v, e'. split; [done|]. split; [done|]. simpl in *. split.
  - eapply hull_of_ext; [|exact Hh]. intros x. unfold inter, contents. tauto.
  - destruct is_mapped; split; done.
Qed.

(** ** Properties *)

(** C9: any sequence of [add], [fetch], [self_test] and [clear] on a fresh
    tracker runs without failing an assertion, keeps the vector well formed and
    leaves exactly the bytes that a plain set treated the same way would hold. *)
Theorem exposure_refines_set (ops : list op) (H : Forall valid_op ops) :
  exists e, run empty_exposure ops = Ok e /\ wf e /\
            forall x, contents e x <-> set_run (fun _ => False) ops x.
Proof.
  apply run_refines; [by apply wf_sorted|done|]. intros x. by apply covers_nil.
Qed.

Lemma exposure_refines_set_witness :
  exists e, run empty_exposure [OpAdd 10 19; OpAdd 0 4; OpFetch 3 12 false; OpAdd 5 UINT64_MAX] = Ok e /\
            wf e /\ forall x, contents e x <->
              set_run (fun _ => False) [OpAdd 10 19; OpAdd 0 4; OpFetch 3 12 false; OpAdd 5 UINT64_MAX] x.
Proof. apply exposure_refines_set. repeat constructor; vm_compute; discriminate. Defined.

(** [fetch] returns the smallest range that holds every tracked byte of the
    asked interval (the invalid range when there is none), removes the interval
    when the memory is not mapped and leaves the vector alone when it is. *)
Theorem fetch_hull_and_removal (e : exposure) (start end_ : Z) (is_mapped : bool)
    (Hwf : wf e) (H0 : 0 <= start) (Hse : start <= end_) :
  exists v e', fetch e start end_ is_mapped = Ok (v, e') /\ wf e' /\
    hull_of (fun x => contents e x /\ start <= x <= end_) v /\
    (is_mapped = true -> list_ e' = list_ e) /\
    (is_mapped = false -> forall x, contents e' x <-> contents e x /\ ~ (start <= x <= end_)).
Proof. by apply fetch_ok. Qed.

Lemma fetch_hull_and_removal_witness :
  exists v e', fetch (Exposure [Range 10 19; Range 30 39] false) 15 34 false = Ok (v, e') /\ wf e' /\
    hull_of (fun x => contents (Exposure [Range 10 19; Range 30 39] false) x /\ 15 <= x <= 34) v /\
    (false = true -> list_ e' = list_ (Exposure [Range 10 19; Range 30 39] false)) /\
    (false = false -> forall x, contents e' x <->
       contents (Exposure [Range 10 19; Range 30 39] false) x /\ ~ (15 <= x <= 34)).
Proof.
  apply fetch_hull_and_removal; [|lia|lia]. apply wf_sorted. simpl. u_lia.
Defined.

(** [overlap] returns the hull of the bytes tracked by both sides once the
    other side is moved up by [offset], without wrapping past the last address. *)
Theorem overlap_hull (self e : exposure) (offset : Z)
    (Hself : wf self) (He : wf e) (Ho : 0 <= offset) :
  hull_of (fun x => contents self x /\ x <= UINT64_MAX /\ contents e (x - offset))
          (overlap self e offset).
Proof. exact (overlap_hull_aux self e offset Hself He Ho). Qed.

Lemma overlap_hull_witness :
  hull_of (fun x => contents (Exposure [Range 50 60; Range 10 20] true) x /\ x <= UINT64_MAX /\
                    contents (Exposure [Range 0 5; Range 40 45] false) (x - 12))
          (overlap (Exposure [Range 50 60; Range 10 20] true) (Exposure [Range 0 5; Range 40 45] false) 12).
Proof.
  apply overlap_hull; [split; [vm_compute; intuition discriminate|simpl; lia]|apply wf_sorted; simpl; u_lia|lia].
Defined.

(** The representation is canonical: two runs that track the same bytes
    end with the same vector, whatever the order of their additions. *)
Theorem exposure_canonical (ops ops' : list op) (e e' : exposure)
    (H : Forall valid_op ops) (H' : Forall valid_op ops')
    (Hsame : forall x, set_run (fun _ => False) ops x <-> set_run (fun _ => False) ops' x)
    (He : run empty_exposure ops = Ok e) (He' : run empty_exposure ops' = Ok e') :
  list_ e = list_ e'.
Proof.
  destruct (run_refines ops empty_exposure (fun _ => False)) as (e1 & Hr & [Hs _] & Hc);
    [by apply wf_sorted|done|intros x; apply covers_nil|].
  destruct (run_refines ops' empty_exposure (fun _ => False)) as (e2 & Hr2 & [Hs2 _] & Hc2);
    [by apply wf_sorted|done|intros x; apply covers_nil|].
  replace e with e1 by congruence. replace e' with e2 by congruence.
  apply (separated_canonical _ _ 0 0 Hs Hs2). intros x. unfold contents in *.
  rewrite Hc, Hc2. apply Hsame.
Qed.

Lemma exposure_canonical_witness :
  list_ (Exposure [Range 0 9] false) = list_ (Exposure [Range 0 9] false).
Proof.
  apply (exposure_canonical [OpAdd 5 9; OpAdd 0 4] [OpAdd 0 4; OpAdd 3 9]);
    [repeat constructor; vm_compute; discriminate | repeat constructor; vm_compute; discriminate
    | simpl; intros x; lia | reflexivity | reflexivity].
Defined.
