(* ===== verification/Stream.v ===== *)
(** * Typed values on byte streams (src/filewriter.h, src/filereader.h)

    [file_writer] and [file_reader] move values through one primitive each:
    reserve space and copy bytes in, make bytes available and copy them out.
    Two classes state what those primitives promise ([ByteSink], [ByteSource]);
    the typed operations of both classes are written against them, and their
    round trips are proved against the laws alone. [FileWriter] and
    [FileReader] give the real instances, [Stream] the trivial ones on lists,
    which stand for the fixed input buffer of a packet decoded in isolation. *)

From Stdlib Require Import ZArith Lia Bool.
From Stdlib.Strings Require Import Byte.
From stdpp Require Import base numbers list.
From S2P Require Import Prelude.

#[local] Open Scope Z_scope.

(** ** Interfaces *)

Class ByteSource (S : Type) := {
  src_ok : S -> Prop;
  remaining : S -> list byte;
  next_bytes : nat -> S -> outcome (list byte * S);
  next_bytes_law : forall n s, src_ok s -> (n <= length (remaining s))%nat ->
    exists s', next_bytes n s = Ok (take n (remaining s), s') /\ src_ok s' /\
               remaining s' = drop n (remaining s)
}.

Class ByteSink (S : Type) := {
  sink_ok : S -> Prop;
  written : S -> list byte;
  emit : list byte -> S -> outcome S;
  emit_law : forall bs s, sink_ok s -> u32 (Z.of_nat (length bs)) ->
    exists s', emit bs s = Ok s' /\ sink_ok s' /\ written s' = written s ++ bs
}.

(** what a reading operation consumes and returns, what a writing one appends *)
Definition parses {S} `{ByteSource S} {A} (rd : S -> outcome (A * S)) (bs : list byte) (v : A) : Prop :=
  forall s rest, src_ok s -> remaining s = bs ++ rest ->
    exists s', rd s = Ok (v, s') /\ src_ok s' /\ remaining s' = rest.

Definition emits {S} `{ByteSink S} (wr : S -> outcome S) (bs : list byte) : Prop :=
  forall s, sink_ok s -> exists s', wr s = Ok s' /\ sink_ok s' /\ written s' = written s ++ bs.

(** ** Writing (file_writer) *)

Section Writing.
Context {S : Type} `{ByteSink S}.

(** [write_value] of an unsigned integer of [n] bytes *)
Definition write_value (n : nat) (value : Z) (s : S) : outcome S := emit (le_encode n value) s.

Definition write_uint8_t (value : Z) : S -> outcome S := write_value 1 value.
Definition write_uint16_t (value : Z) : S -> outcome S := write_value 2 value.
Definition write_uint32_t (value : Z) : S -> outcome S := write_value 4 value.
Definition write_uint64_t (value : Z) : S -> outcome S := write_value 8 value.
Definition write_int8_t (value : Z) : S -> outcome S := write_value 1 (wrap 8 value).
Definition write_int16_t (value : Z) : S -> outcome S := write_value 2 (wrap 16 value).
Definition write_int32_t (value : Z) : S -> outcome S := write_value 4 (wrap 32 value).
Definition write_int64_t (value : Z) : S -> outcome S := write_value 8 (wrap 64 value).

(** floating point values travel as the word with the same bits *)
Definition write_float (bits : Z) : S -> outcome S := write_uint32_t bits.
Definition write_double (bits : Z) : S -> outcome S := write_uint64_t bits.

(** [write_array]: nothing at all happens for an empty array *)
Definition write_array (values : list byte) (s : S) : outcome S :=
  if Nat.ltb 0 (length values) then emit values s else Ok s.

(** [write_string] of a C string; [None] is the null pointer *)
Definition write_string (text : option (list byte)) (s : S) : outcome S :=
  match text with
  | None => write_uint16_t 0 s
  | Some text =>
      let len := wrap16 (Z.of_nat (length text)) in
      let* s := write_uint16_t len s in
      write_array (take (Z.to_nat len) text) s
  end.

(** [write_string(const std::string&)] *)
Definition write_std_string (text : list byte) (s : S) : outcome S :=
  let* s := write_uint16_t (wrap16 (Z.of_nat (length text))) s in
  if Nat.ltb 0 (length text) then write_array text s else Ok s.

Fixpoint write_string_array (strs : list (option (list byte))) (s : S) : outcome S :=
  match strs with
  | [] => Ok s
  | str :: strs' => let* s := write_string str s in write_string_array strs' s
  end.
End Writing.

(** ** Reading (file_reader) *)

Section Reading.
Context {S : Type} `{ByteSource S}.

Definition read_value (n : nat) (s : S) : outcome (Z * S) :=
  let* (bs, s) := next_bytes n s in Ok (le_decode bs, s).

Definition read_uint8_t : S -> outcome (Z * S) := read_value 1.
Definition read_uint16_t : S -> outcome (Z * S) := read_value 2.
Definition read_uint32_t : S -> outcome (Z * S) := read_value 4.
Definition read_uint64_t : S -> outcome (Z * S) := read_value 8.

(** the two's complement reading of a [w]-bit word *)
Definition to_signed (w z : Z) : Z := if z <? 2 ^ (w - 1) then z else z - 2 ^ w.

Definition read_int8_t (s : S) : outcome (Z * S) :=
  let* (z, s) := read_value 1 s in Ok (to_signed 8 z, s).
Definition read_int16_t (s : S) : outcome (Z * S) :=
  let* (z, s) := read_value 2 s in Ok (to_signed 16 z, s).
Definition read_int32_t (s : S) : outcome (Z * S) :=
  let* (z, s) := read_value 4 s in Ok (to_signed 32 z, s).
Definition read_int64_t (s : S) : outcome (Z * S) :=
  let* (z, s) := read_value 8 s in Ok (to_signed 64 z, s).

Definition read_float : S -> outcome (Z * S) := read_uint32_t.
Definition read_double : S -> outcome (Z * S) := read_uint64_t.
Definition read_size_t : S -> outcome (Z * S) := read_uint64_t.
Definition read_int (s : S) : outcome (Z * S) :=
  let* (z, s) := read_value 4 s in Ok (to_signed 32 z, s).
Definition read_long (s : S) : outcome (Z * S) :=
  let* (z, s) := read_value 8 s in Ok (to_signed 64 z, s).

(** [read_array] into a destination of [count] bytes *)
Definition read_array (count : nat) (s : S) : outcome (list byte * S) := next_bytes count s.

(** [read_string]: an empty string comes back as the null pointer *)
Definition read_string (s : S) : outcome (option (list byte) * S) :=
  let* (len, s) := read_uint16_t s in
  if len >? 0 then
    let* (dst, s) := read_array (Z.to_nat len) s in Ok (Some dst, s)
  else Ok (None, s).

Fixpoint read_string_array (len : nat) (s : S) : outcome (list (option (list byte)) * S) :=
  match len with
  | O => Ok ([], s)
  | Datatypes.S len' =>
      let* (str, s) := read_string s in
      let* (strs, s) := read_string_array len' s in
      Ok (str :: strs, s)
  end.
End Reading.

(** ** Composition *)

Section Composition.
Context {R : Type} `{ByteSource R} {W : Type} `{ByteSink W}.

Lemma parses_ret {A} (v : A) : parses (fun s : R => Ok (v, s)) [] v.
Proof. intros s rest Hs Hr. by exists s. Qed.

Lemma parses_bind {A B} (rd : R -> outcome (A * R)) (k : A -> R -> outcome (B * R)) bs1 bs2 a b :
  parses rd bs1 a -> parses (k a) bs2 b ->
  parses (fun s => let* (x, s) := rd s in k x s) (bs1 ++ bs2) b.
Proof.
  intros H1 H2 s rest Hs Hr. rewrite <- app_assoc in Hr.
  destruct (H1 s _ Hs Hr) as (s1 & E1 & Hs1 & Hr1). rewrite E1. simpl. by apply H2.
Qed.

Lemma parses_map {A B} (rd : R -> outcome (A * R)) (f : A -> B) bs a :
  parses rd bs a -> parses (fun s => let* (x, s) := rd s in Ok (f x, s)) bs (f a).
Proof.
  intros H1 s rest Hs Hr. destruct (H1 s _ Hs Hr) as (s1 & E1 & Hs1 & Hr1).
  exists s1. by rewrite E1.
Qed.

Lemma parses_ext {A} (rd rd' : R -> outcome (A * R)) bs a :
  (forall s, rd s = rd' s) -> parses rd bs a -> parses rd' bs a.
Proof. intros He Hp s rest Hs Hr. rewrite <- He. by apply Hp. Qed.

Lemma parses_next n bs : length bs = n -> parses (next_bytes n) bs bs.
Proof.
  intros <- s rest Hs Hr.
  destruct (next_bytes_law (length bs) s Hs) as (s' & E & Hs' & Hr').
  { rewrite Hr, length_app. lia. }
  exists s'. rewrite E, Hr' , Hr, take_app_length, drop_app_length. done.
Qed.

Lemma parses_value n z : 0 <= z < 256 ^ Z.of_nat n -> parses (read_value n) (le_encode n z) z.
Proof.
  intros Hz. rewrite <- (le_decode_encode_small n z Hz) at 2.
  apply (parses_map (next_bytes n) le_decode). apply parses_next, length_le_encode.
Qed.

Lemma emits_ret : emits (fun s : W => Ok s) [].
Proof. intros s Hs. exists s. by rewrite app_nil_r. Qed.

Lemma emits_bind (w k : W -> outcome W) bs1 bs2 :
  emits w bs1 -> emits k bs2 -> emits (fun s => let* s := w s in k s) (bs1 ++ bs2).
Proof.
  intros H1 H2 s Hs. destruct (H1 s Hs) as (s1 & E1 & Hs1 & Hw1). rewrite E1. simpl.
  destruct (H2 s1 Hs1) as (s2 & E2 & Hs2 & Hw2). exists s2.
  split; [done|]. split; [done|]. by rewrite Hw2, Hw1, app_assoc.
Qed.

Lemma emits_emit bs : u32 (Z.of_nat (length bs)) -> emits (emit bs) bs.
Proof. intros Hu s Hs. by apply emit_law. Qed.

Lemma emits_value n z : (n <= 8)%nat -> emits (write_value n z) (le_encode n z).
Proof. intros Hn. apply emits_emit. rewrite length_le_encode. u_lia. Qed.

Lemma emits_array bs : u32 (Z.of_nat (length bs)) -> emits (write_array bs) bs.
Proof.
  intros Hu. unfold write_array. destruct bs; [apply emits_ret|]. simpl. by apply emits_emit.
Qed.

(** a signed value comes back from its two's complement word *)
Lemma to_signed_wrap w z : 0 < w -> - 2 ^ (w - 1) <= z < 2 ^ (w - 1) -> to_signed w (wrap w z) = z.
Proof.
  intros Hw Hz. unfold to_signed, wrap.
  assert (Hp : 2 ^ w = 2 * 2 ^ (w - 1)) by (rewrite <- Z.pow_succ_r by lia; f_equal; lia).
  destruct (Z.le_gt_cases 0 z).
  - rewrite Z.mod_small by lia. rewrite (proj2 (Z.ltb_lt _ _)) by lia. done.
  - rewrite <- (Z_mod_plus_full z 1), Z.mul_1_l, Z.mod_small by lia.
    rewrite (proj2 (Z.ltb_ge _ _)) by lia. lia.
Qed.

Lemma signed_roundtrip w n z :
  w = 8 * Z.of_nat n -> (0 < n <= 8)%nat -> - 2 ^ (w - 1) <= z < 2 ^ (w - 1) ->
  emits (write_value n (wrap w z)) (le_encode n (wrap w z)) /\
  parses (fun s => let* (z, s) := read_value n s in Ok (to_signed w z, s)) (le_encode n (wrap w z)) z.
Proof.
  intros Hw Hn Hz. split; [apply emits_value; lia|]. rewrite <- (to_signed_wrap w z) at 2 by lia.
  apply (parses_map (read_value n) (to_signed w)). apply parses_value. unfold wrap.
  replace (256 ^ Z.of_nat n) with (2 ^ w) by (rewrite Hw, Z.pow_mul_r by lia; done).
  apply Z.mod_pos_bound. apply Z.pow_pos_nonneg; lia.
Qed.

(** bytes a C string leaves in the stream *)
Definition encode_string (text : option (list byte)) : list byte :=
  match text with
  | None => le_encode 2 0
  | Some text =>
      let len := wrap16 (Z.of_nat (length text)) in
      le_encode 2 len ++ take (Z.to_nat len) text
  end.

(** what comes back from them *)
Definition string_seen (text : option (list byte)) : option (list byte) :=
  match text with
  | None => None
  | Some text =>
      let len := wrap16 (Z.of_nat (length text)) in
      if len >? 0 then Some (take (Z.to_nat len) text) else None
  end.

Lemma wrap16_range z : 0 <= wrap16 z < 2 ^ 16.
Proof. apply Z.mod_pos_bound. lia. Qed.

Lemma wrap_nat_le w z : 0 < w -> 0 <= z -> wrap w z <= z.
Proof. intros Hw ?. apply Z.mod_le; [done|]. apply Z.pow_pos_nonneg; lia. Qed.

Lemma length_take_wrap16 (text : list byte) :
  length (take (Z.to_nat (wrap16 (Z.of_nat (length text)))) text) =
  Z.to_nat (wrap16 (Z.of_nat (length text))).
Proof.
  rewrite length_take. pose proof (wrap_nat_le 16 (Z.of_nat (length text))). unfold wrap16. lia.
Qed.

Lemma emits_string text : emits (write_string text) (encode_string text).
Proof.
  destruct text as [text|]; [|apply emits_value; lia].
  apply (emits_bind (write_uint16_t _)); [apply emits_value; lia|].
  apply emits_array. rewrite length_take_wrap16.
  pose proof (wrap16_range (Z.of_nat (length text))). u_lia.
Qed.

Lemma parses_string text : parses read_string (encode_string text) (string_seen text).
Proof.
  destruct text as [text|].
  - unfold encode_string, string_seen, read_string, read_uint16_t. cbv zeta.
    set (len := wrap16 _). pose proof (wrap16_range (Z.of_nat (length text))) as Hr. fold len in Hr.
    eapply (parses_bind (read_value 2)); [apply parses_value; lia|]. case_bool.
    + apply (parses_map (read_array _)). apply parses_next, length_take_wrap16.
    + bool_to_prop. replace (Z.to_nat len) with 0%nat by lia. apply parses_ret.
  - rewrite <- (app_nil_r (encode_string None)).
    eapply (parses_bind (read_value 2)); [apply parses_value; simpl; lia|]. apply parses_ret.
Qed.

Lemma emits_string_array strs : emits (write_string_array strs) (concat (map encode_string strs)).
Proof.
  induction strs as [|str strs IH]; simpl; [apply emits_ret|].
  apply (emits_bind (write_string str)); [apply emits_string | exact IH].
Qed.

Lemma parses_string_array strs :
  parses (read_string_array (length strs)) (concat (map encode_string strs)) (map string_seen strs).
Proof.
  induction strs as [|str strs IH]; simpl; [apply parses_ret|].
  eapply (parses_bind read_string); [apply parses_string|].
  rewrite <- (app_nil_r (concat _)). eapply parses_bind; [exact IH|]. apply parses_ret.
Qed.
End Composition.

(** ** The trivial instances *)

#[export] Program Instance list_source : ByteSource (list byte) := {
  src_ok := fun _ => True;
  remaining := fun s => s;
  next_bytes := fun n s => if Nat.leb n (length s) then Ok (take n s, drop n s) else Fail AbortCall
}.
Next Obligation. intros n s _ Hn. simpl. apply Nat.leb_le in Hn. rewrite Hn. eauto. Qed.

#[export] Program Instance list_sink : ByteSink (list byte) := {
  sink_ok := fun _ => True;
  written := fun s => s;
  emit := fun bs s => Ok (s ++ bs)
}.
Next Obligation. intros bs s _ _. simpl. eauto. Qed.

#[export] Hint Resolve parses_value parses_next emits_value emits_array emits_string parses_string : lava.

(** ** Properties *)

Lemma string_seen_short text :
  Z.of_nat (length text) < 2 ^ 16 -> text <> [] -> string_seen (Some text) = Some text.
Proof.
  intros Hl Hne. unfold string_seen, wrap16. rewrite wrap_small by lia.
  destruct text; [done|]. simpl length. case_bool; [|bool_to_prop; lia].
  rewrite Nat2Z.id. by rewrite take_ge by (simpl; lia).
Qed.

(** An array of strings written to any stream is read back from any stream:
    each non-empty string under 64 KiB unchanged, the empty and the null string
    as null, whatever follows them in the stream. *)
Theorem string_array_roundtrip {R W} `{ByteSource R, ByteSink W}
    (strs : list (option (list byte))) (w : W) (r : R) (rest : list byte)
    (Hlen : Forall (fun o => match o with Some t => Z.of_nat (length t) < 2 ^ 16 | None => True end) strs)
    (Hw : sink_ok w) (Hr : src_ok r) :
  exists bs w', write_string_array strs w = Ok w' /\ sink_ok w' /\ written w' = written w ++ bs /\
    (remaining r = bs ++ rest ->
     exists r', read_string_array (length strs) r =
                  Ok (map (fun o => match o with Some [] => None | _ => o end) strs, r') /\
                src_ok r' /\ remaining r' = rest).
Proof.
  destruct (emits_string_array strs w Hw) as (w' & E & Hw' & Hb).
  exists (concat (map encode_string strs)), w'. split; [done|]. split; [done|]. split; [done|].
  intros Hrem. destruct (parses_string_array strs r rest Hr Hrem) as (r' & Er & Hr' & Hrest).
  exists r'. rewrite Er. split; [|done]. do 2 f_equal. apply map_ext_in. intros o Ho.
  apply List.Forall_forall with (x := o) in Hlen; [|done].
  destruct o as [[|b t]|]; [done| |done]. by apply string_seen_short.
Qed.

Lemma string_array_roundtrip_witness :
  exists bs w', write_string_array [Some [x41; x42]; None; Some []] ([] : list byte) = Ok w' /\
    sink_ok w' /\ written w' = written ([] : list byte) ++ bs /\
    (remaining [x02; x00; x41; x42; x00; x00; x00; x00; x07] = bs ++ [x07] ->
     exists r', read_string_array (length [Some [x41; x42]; None; Some []])
                  [x02; x00; x41; x42; x00; x00; x00; x00; x07] =
                  Ok (map (fun o => match o with Some [] => None | _ => o end)
                        [Some [x41; x42]; None; Some []], r') /\
                src_ok r' /\ remaining r' = [x07]).
Proof.
  apply string_array_roundtrip; [|exact I|exact I].
  repeat constructor; simpl; lia.
Defined.

(** The [std::string] overload stores the length in 16 bits but writes the
    whole text, so a text of 64 KiB or more leaves bytes behind that the reader
    takes for the next value. *)
Theorem write_std_string_overlong {R W} `{ByteSource R, ByteSink W}
    (text : list byte) (w : W) (r : R) (rest : list byte)
    (Hlong : 2 ^ 16 <= Z.of_nat (length text)) (Hmax : u32 (Z.of_nat (length text)))
    (Hw : sink_ok w) (Hr : src_ok r) :
  exists bs w', write_std_string text w = Ok w' /\ written w' = written w ++ bs /\
    (remaining r = bs ++ rest ->
     exists r' left, read_string r = Ok (string_seen (Some text), r') /\
                     remaining r' = left ++ rest /\ left <> []).
Proof.
  set (len := wrap16 (Z.of_nat (length text))).
  assert (He : emits (write_std_string text) (le_encode 2 len ++ text)).
  { apply (emits_bind (write_uint16_t len)); [apply emits_value; lia|].
    case_bool; [by apply emits_array|]. apply Nat.ltb_ge in C. lia. }
  destruct (He w Hw) as (w' & E & _ & Hb). exists (le_encode 2 len ++ text), w'.
  split; [done|]. split; [done|]. intros Hrem.
  pose proof (parses_string (Some text) r (drop (Z.to_nat len) text ++ rest) Hr) as Hp.
  unfold encode_string in Hp. cbv zeta in Hp. fold len in Hp. rewrite Hrem in Hp.
  destruct Hp as (r' & Er & _ & Hrest).
  { rewrite <- !app_assoc. f_equal. by rewrite app_assoc, take_drop. }
  exists r', (drop (Z.to_nat len) text). split; [done|]. split; [done|].
  pose proof (wrap16_range (Z.of_nat (length text))) as Hr16. fold len in Hr16.
  intros Hd. apply (f_equal length) in Hd. rewrite length_drop in Hd. simpl in Hd. lia.
Qed.

Lemma write_std_string_overlong_witness :
  exists bs w', write_std_string (repeat x41 (Z.to_nat 65537)) ([] : list byte) = Ok w' /\
    written w' = written ([] : list byte) ++ bs /\
    (remaining (le_encode 2 1 ++ repeat x41 (Z.to_nat 65537)) = bs ++ [] ->
     exists r' left, read_string (le_encode 2 1 ++ repeat x41 (Z.to_nat 65537)) =
                       Ok (string_seen (Some (repeat x41 (Z.to_nat 65537))), r') /\
                     remaining r' = left ++ [] /\ left <> []).
Proof.
  apply write_std_string_overlong; [| |exact I|exact I]; rewrite repeat_length, Z2Nat.id; u_lia.
Defined.
