(* ===== verification/Patch.v ===== *)
(** * Memory diffs (src/filewriter.cpp, src/filereader.h, src/hardcode_write.cpp)

    A memory update is stored as a patch: runs of changed bytes, each with its
    offset relative to the end of the run before and its length, ended by a pair
    of zeros. [write_patch] diffs a memory area against the clone kept from the
    last update and brings the clone up to date; [read_patch] applies the runs to
    the memory of the replayer. Memory areas are byte lists and positions in them
    natural numbers; the 32-bit offset and length fields wrap as the code's do. *)

From Stdlib Require Import ZArith Lia Bool.
From Stdlib.Strings Require Import Byte.
From stdpp Require Import base numbers list.
From S2P Require Import Prelude RangeTracking Stream.

#[local] Open Scope Z_scope.

(** [len] bytes from [pos] on *)
Definition slice (pos len : nat) (l : list byte) : list byte := take len (drop pos l).

(** [memcmp(...) == 0] on the [len] bytes from [pos] on *)
Definition memcmp_eq (orig chng : list byte) (pos len : nat) : bool :=
  bool_decide (slice pos len orig = slice pos len chng).

(** [memcpy] over a part of a memory area *)
Definition memcpy (buf : list byte) (pos : nat) (src : list byte) : list byte :=
  take pos buf ++ src ++ drop (pos + length src) buf.

(** ** Finding the first change *)

(** advance over equal blocks of [block] bytes while at least one fits *)
Fixpoint skip_equal (fuel block : nat) (orig chng : list byte) (pos size : nat) : nat :=
  match fuel with
  | O => pos
  | S fuel' =>
      if Nat.leb block (size - pos) && memcmp_eq orig chng pos block
      then skip_equal fuel' block orig chng (pos + block) size
      else pos
  end.

Definition find_patch_start (orig chng : list byte) (offset size : nat) : nat :=
  let orig := drop offset orig in
  let chng := drop offset chng in
  if Nat.leb 8 size && negb (memcmp_eq orig chng 0 8) then 0%nat
  else
    let pos := if Nat.leb 8 size then 8%nat else 0%nat in
    let pos := skip_equal size 256 orig chng pos size in
    let pos := skip_equal size 8 orig chng pos size in
    if Nat.leb 8 (size - pos) then pos
    else if Nat.ltb pos size && negb (memcmp_eq orig chng pos (size - pos)) then pos
    else size.

(** ** Writing a patch *)

(** length of the run of differing 8-byte words at the front *)
Fixpoint differing_words (fuel : nat) (orig chng : list byte) : nat :=
  match fuel with
  | O => 0%nat
  | S fuel' =>
      if Nat.leb 8 (length orig) && negb (memcmp_eq orig chng 0 8)
      then (8 + differing_words fuel' (drop 8 orig) (drop 8 chng))%nat
      else 0%nat
  end.

Record patch_step := PatchStep {
  ps_identical : nat;   (** bytes skipped *)
  ps_c : nat;           (** bytes of the run *)
  ps_left : nat         (** [total_left] after the step *)
}.

(** one round of the loop of [write_patch] on what is left of both areas *)
Definition scan_step (orig chng : list byte) : patch_step :=
  let total_left := length orig in
  let identical := find_patch_start orig chng 0 total_left in
  let orig1 := drop identical orig in
  let chng1 := drop identical chng in
  let c := differing_words total_left orig1 chng1 in
  let orig2 := drop c orig1 in
  let chng2 := drop c chng1 in
  let left := length orig2 in
  if Nat.ltb left 8 && bool_decide (chng2 = orig2) then PatchStep identical c 0
  else if Nat.ltb left 8 then PatchStep identical (c + left) 0
  else PatchStep identical c left.

(** the runs, the clone afterwards and the number of bytes in the runs;
    [None] when the fuel runs out *)
Fixpoint patch_runs (fuel : nat) (orig chng : list byte) (offset : Z)
  : option (list (Z * list byte) * list byte * Z) :=
  match orig with
  | [] => Some ([], [], 0)
  | _ =>
      match fuel with
      | O => None
      | S fuel' =>
          let st := scan_step orig chng in
          let offset := wrap32 (offset + Z.of_nat (ps_identical st)) in
          let done := (length orig - ps_left st)%nat in
          let payload := slice (ps_identical st) (ps_c st) chng in
          let clone := memcpy (take done orig) (ps_identical st) payload in
          let offset' := if Nat.ltb 0 (ps_c st) then 0 else offset in
          match patch_runs fuel' (drop done orig) (drop done chng) offset' with
          | None => None
          | Some (runs, clone', changed) =>
              if Nat.ltb 0 (ps_c st)
              then Some ((offset, payload) :: runs, clone ++ clone', wrap64 (Z.of_nat (ps_c st) + changed))
              else Some (runs, clone ++ clone', changed)
          end
      end
  end.

Definition encode_run (run : Z * list byte) : list byte :=
  le_encode 4 run.1 ++ le_encode 4 (wrap32 (Z.of_nat (length run.2))) ++ run.2.

Definition patch_terminator : list byte := le_encode 4 0 ++ le_encode 4 0.

Section Write.
Context {W : Type} `{ByteSink W}.

Fixpoint write_runs (runs : list (Z * list byte)) (w : W) : outcome W :=
  match runs with
  | [] => Ok w
  | run :: runs' => let* w := emit (encode_run run) w in write_runs runs' w
  end.

(** returns the bytes written, the updated clone and the writer *)
Definition write_patch (orig chng : list byte) (offset size : nat) (w : W)
  : outcome (Z * list byte * W) :=
  let o := slice offset size orig in
  let c := slice offset size chng in
  match patch_runs size o c (Z.of_nat offset) with
  | None => Fail OutOfFuel
  | Some (runs, clone, changed) =>
      let* w := write_runs runs w in
      let* w := write_uint32_t 0 w in
      let* w := write_uint32_t 0 w in
      Ok (changed, memcpy orig offset clone, w)
  end.

(** [write_memory_span]: one run with the whole area *)
Definition write_memory_span (data : list byte) (offset : nat) (w : W) : outcome W :=
  let* _ := require (Z.of_nat offset <=? UINT32_MAX) AssertFailed in
  let* _ := require (Z.of_nat (length data) <=? UINT32_MAX) AssertFailed in
  let* w := write_uint32_t (Z.of_nat offset) w in
  let* w := write_uint32_t (Z.of_nat (length data)) w in
  let* w := emit data w in
  let* w := write_uint32_t 0 w in
  write_uint32_t 0 w.

Definition write_memory (area : list byte) (offset size : nat) (w : W) : outcome W :=
  write_memory_span (slice offset size area) offset w.
End Write.

(** ** Reading a patch *)

Section Read.
Context {R : Type} `{ByteSource R}.

(** a run written past the end of the mapped memory is out of range *)
Definition patch_memory (buf : option (list byte)) (position : Z) (src : list byte)
  : outcome (option (list byte)) :=
  match buf with
  | None => Ok None
  | Some b =>
      if Nat.ltb 0 (length src) then
        let* _ := require (position + Z.of_nat (length src) <=? Z.of_nat (length b)) OutOfRange in
        Ok (Some (memcpy b (Z.to_nat position) src))
      else Ok buf
  end.

Definition within (maxsize position : Z) : bool := (maxsize =? 0) || (position <=? maxsize).

Fixpoint read_patch_loop (fuel : nat) (maxsize : Z) (buf : option (list byte)) (position changed : Z) (s : R)
  : outcome (Z * option (list byte) * R) :=
  match fuel with
  | O => Fail OutOfFuel
  | S fuel' =>
      let* (offset, s) := read_uint32_t s in
      let position := wrap64 (position + offset) in
      let* _ := require (within maxsize position) AssertFailed in
      let* (size, s) := read_uint32_t s in
      let* (src, s) := next_bytes (Z.to_nat size) s in
      let* buf := patch_memory buf position src in
      let position := wrap64 (position + size) in
      let changed := wrap64 (changed + size) in
      let* _ := require (within maxsize position) AssertFailed in
      if negb ((offset =? 0) && (size =? 0)) then read_patch_loop fuel' maxsize buf position changed s
      else Ok (wrap32 changed, buf, s)
  end.

(** every round consumes eight bytes or more, so the bytes left bound the rounds *)
Definition read_patch (buf : option (list byte)) (maxsize : Z) (s : R)
  : outcome (Z * option (list byte) * R) :=
  read_patch_loop (S (length (remaining s))) maxsize buf 0 0 s.
End Read.

(** ** Spans of changed bytes, for marked updates *)

(** advance over blocks of [n] bytes that are all equal ([want]) or all
    differing ([negb want]) while one fits *)
Fixpoint advance (want : bool) (n fuel : nat) (orig chng : list byte) (pos size : nat) : nat :=
  match fuel with
  | O => pos
  | S fuel' =>
      if Nat.leb (pos + n) size && Bool.eqb (memcmp_eq orig chng pos n) want
      then advance want n fuel' orig chng (pos + n) size
      else pos
  end.

Fixpoint collect_loop (fuel : nat) (orig chng : list byte) (offset pos size : nat) : outcome (list range * Z) :=
  match fuel with
  | O => if Nat.ltb pos size then Fail OutOfFuel else Ok ([], 0)
  | S fuel' =>
      if Nat.ltb pos size then
        let pos := advance true 8 size orig chng pos size in
        let pos := advance true 1 size orig chng pos size in
        if Nat.leb size pos then Ok ([], 0)
        else
          let start := pos in
          let pos := advance false 8 size orig chng pos size in
          let pos := advance false 1 size orig chng pos size in
          let* _ := require (Nat.ltb start pos) AssertFailed in
          let* (spans, changed) := collect_loop fuel' orig chng offset pos size in
          Ok (Range (Z.of_nat (offset + start)) (Z.of_nat (offset + pos) - 1) :: spans,
              Z.of_nat (pos - start) + changed)
      else Ok ([], 0)
  end.

Definition collect_patch_spans (orig chng : list byte) (offset size : nat) : outcome (list range * Z) :=
  collect_loop size (drop offset orig) (drop offset chng) offset 0 size.

Definition range_overlaps_any (first last : Z) (spans : list range) : bool :=
  existsb (fun span => (first <=? r_last span) && (r_first span <=? last)) spans.

(** ** Lemmas on memory areas *)

Definition agree (a b : list byte) (lo hi : nat) : Prop :=
  forall i, (lo <= i < hi)%nat -> a !! i = b !! i.

Lemma slice_lookup pos len l i :
  slice pos len l !! i = if decide (i < len)%nat then l !! (pos + i)%nat else None.
Proof. unfold slice. rewrite lookup_take. case_decide; [apply lookup_drop | done]. Qed.

Lemma slice_eq_iff pos len a b : slice pos len a = slice pos len b <-> agree a b pos (pos + len).
Proof.
  split.
  - intros He i Hi. apply (f_equal (.!! (i - pos)%nat)) in He. rewrite !slice_lookup in He.
    rewrite !decide_True in He by lia. replace (pos + (i - pos))%nat with i in He by lia. exact He.
  - intros Ha. apply list_eq. intros i. rewrite !slice_lookup. case_decide; [|done].
    apply Ha. lia.
Qed.

Lemma memcmp_eq_spec a b pos len : memcmp_eq a b pos len = true <-> agree a b pos (pos + len).
Proof. unfold memcmp_eq. rewrite bool_decide_eq_true. apply slice_eq_iff. Qed.

Lemma memcmp_eq_false a b pos len : memcmp_eq a b pos len = false <-> ~ agree a b pos (pos + len).
Proof. rewrite <- memcmp_eq_spec. by destruct (memcmp_eq a b pos len). Qed.

Lemma agree_app a b lo mid hi : agree a b lo mid -> agree a b mid hi -> agree a b lo hi.
Proof. intros H1 H2 i Hi. destruct (decide (i < mid)%nat); [apply H1 | apply H2]; lia. Qed.

Lemma agree_weaken a b lo hi lo' hi' : agree a b lo hi -> (lo <= lo')%nat -> (hi' <= hi)%nat -> agree a b lo' hi'.
Proof. intros H1 ? ? i Hi. apply H1. lia. Qed.

Lemma agree_empty a b lo hi : (hi <= lo)%nat -> agree a b lo hi.
Proof. intros ? i ?. lia. Qed.

Lemma agree_drop a b n lo hi : agree (drop n a) (drop n b) lo hi <-> agree a b (n + lo) (n + hi).
Proof.
  unfold agree. setoid_rewrite lookup_drop. split; intros H i Hi.
  - specialize (H (i - n)%nat ltac:(lia)). by replace (n + (i - n))%nat with i in H by lia.
  - apply H. lia.
Qed.

Lemma length_slice pos len l : length (slice pos len l) = Nat.min len (length l - pos).
Proof. unfold slice. by rewrite length_take, length_drop. Qed.

Lemma memcpy_app a b b' c : length b' = length b -> memcpy (a ++ b ++ c) (length a) b' = a ++ b' ++ c.
Proof.
  intros Hl. unfold memcpy. rewrite take_app_length. do 2 f_equal.
  rewrite app_assoc, Hl, <- length_app. apply drop_app_length.
Qed.

Lemma length_memcpy buf pos src :
  (pos + length src <= length buf)%nat -> length (memcpy buf pos src) = length buf.
Proof. intros ?. unfold memcpy. rewrite !length_app, length_take, length_drop. lia. Qed.

Lemma memcpy_lookup buf pos src i :
  (pos + length src <= length buf)%nat ->
  memcpy buf pos src !! i =
    if decide (pos <= i < pos + length src)%nat then src !! (i - pos)%nat else buf !! i.
Proof.
  intros Hl. unfold memcpy.
  assert (Ht : length (take pos buf) = pos) by (rewrite length_take; lia).
  destruct (decide (i < pos)%nat) as [Hi|Hi].
  { rewrite decide_False by lia. rewrite lookup_app_l by lia. by rewrite lookup_take_lt. }
  rewrite lookup_app_r, Ht by lia. case_decide.
  - by rewrite lookup_app_l by lia.
  - rewrite lookup_app_r, lookup_drop by lia. f_equal. lia.
Qed.

(** ** [find_patch_start] finds the 8-byte block of the first change *)

Lemma skip_equal_spec fuel block orig chng pos size :
  (0 < block)%nat -> (pos <= size)%nat -> (size - pos <= fuel)%nat ->
  let p := skip_equal fuel block orig chng pos size in
  (pos <= p <= size)%nat /\ Nat.divide block (p - pos) /\ agree orig chng pos p /\
  ((block <= size - p)%nat -> ~ agree orig chng p (p + block)).
Proof.
  intros Hb. revert pos; induction fuel as [|fuel IH]; intros pos Hp Hf; simpl.
  - repeat split; try lia. { by rewrite Nat.sub_diag; apply Nat.divide_0_r. } by apply agree_empty.
  - destruct (Nat.leb_spec block (size - pos)) as [Hle|Hgt]; simpl.
    + destruct (memcmp_eq orig chng pos block) eqn:E.
      * apply memcmp_eq_spec in E. destruct (IH (pos + block)%nat ltac:(lia) ltac:(lia)) as (H1&[k Hk]&H3&H4).
        set (p := skip_equal _ _ _ _ _ _) in *. repeat split; try lia; [|by eapply agree_app|done].
        exists (k + 1)%nat. lia.
      * apply memcmp_eq_false in E. repeat split; try lia; [|by apply agree_empty|done].
        rewrite Nat.sub_diag. apply Nat.divide_0_r.
    + repeat split; try lia; [|by apply agree_empty]. rewrite Nat.sub_diag. apply Nat.divide_0_r.
Qed.

Lemma find_patch_start_spec orig chng offset size :
  let p := find_patch_start orig chng offset size in
  (p <= size)%nat /\ agree orig chng offset (offset + p) /\
  ((p < size)%nat -> Nat.divide 8 p /\ ~ agree orig chng (offset + p) (offset + Nat.min (p + 8) size)).
Proof.
  unfold find_patch_start. set (o := drop offset orig). set (c := drop offset chng).
  assert (Hd : forall lo hi, agree o c lo hi <-> agree orig chng (offset + lo) (offset + hi))
    by (intros; apply agree_drop).
  case_bool.
  { apply andb_true_iff in C as [C1 C2]. apply Nat.leb_le in C1. apply negb_true_iff, memcmp_eq_false in C2.
    rewrite Hd, Nat.add_0_r in C2. split; [lia|]. split; [apply agree_empty; lia|]. intros _.
    split; [apply Nat.divide_0_r|]. rewrite Nat.add_0_r. by replace (Nat.min (0 + 8) size) with 8%nat by lia. }
  set (p0 := if Nat.leb 8 size then 8%nat else 0%nat).
  assert (H0 : (p0 <= size)%nat /\ Nat.divide 8 p0 /\ agree o c 0 p0).
  { subst p0. destruct (Nat.leb_spec 8 size); simpl in C.
    - apply negb_false_iff, memcmp_eq_spec in C. repeat split; [done|by exists 1%nat|done].
    - repeat split; [lia|apply Nat.divide_0_r|by apply agree_empty]. }
  destruct H0 as (H01&H02&H03).
  destruct (skip_equal_spec size 256 o c p0 size ltac:(lia) H01 ltac:(lia)) as (H11&[k Hk]&H13&_).
  set (p1 := skip_equal size 256 o c p0 size) in *.
  destruct (skip_equal_spec size 8 o c p1 size ltac:(lia) ltac:(lia) ltac:(lia)) as (H21&H22&H23&H24).
  set (p := skip_equal size 8 o c p1 size) in *.
  assert (Hp8 : Nat.divide 8 p).
  { replace p with (p0 + (k * 32) * 8 + (p - p1))%nat by lia.
    repeat apply Nat.divide_add_r; [done|by exists (k * 32)%nat|done]. }
  assert (Ha : agree o c 0 p) by (eapply agree_app; [exact H03|eapply agree_app; eauto]).
  destruct (Nat.leb_spec 8 (size - p)) as [Hl|Hl].
  { split; [lia|]. apply Hd in Ha. rewrite Nat.add_0_r in Ha. split; [done|]. intros _. split; [done|].
    rewrite <- Hd. replace (Nat.min (p + 8) size) with (p + 8)%nat by lia. by apply H24. }
  destruct (Nat.ltb_spec p size) as [Hlt|Hge]; simpl.
  - destruct (memcmp_eq o c p (size - p)) eqn:E; simpl.
    + apply memcmp_eq_spec in E. replace (p + (size - p))%nat with size in E by lia.
      split; [lia|]. split; [|lia]. rewrite <- (Nat.add_0_r offset) at 1. apply Hd. by eapply agree_app.
    + apply memcmp_eq_false in E. split; [lia|]. split; [rewrite <- (Nat.add_0_r offset) at 1; by apply Hd|].
      intros _. split; [done|]. rewrite <- Hd. by replace (Nat.min (p + 8) size) with (p + (size - p))%nat by lia.
  - split; [lia|]. split; [|lia]. rewrite <- (Nat.add_0_r offset) at 1. apply Hd.
    by replace size with p by lia.
Qed.

(** ** One scan step *)

Lemma differing_words_le fuel orig chng : (differing_words fuel orig chng <= length orig)%nat.
Proof.
  revert orig chng; induction fuel as [|fuel IH]; intros orig chng; cbn [differing_words]; [lia|].
  case_bool; [|lia]. apply andb_true_iff in C as [C _]. apply Nat.leb_le in C.
  specialize (IH (drop 8 orig) (drop 8 chng)). rewrite length_drop in IH. lia.
Qed.

Lemma differing_words_pos fuel orig chng :
  (0 < fuel)%nat -> (8 <= length orig)%nat -> ~ agree orig chng 0 8 ->
  (8 <= differing_words fuel orig chng)%nat.
Proof.
  destruct fuel; [lia|]. intros _ Hl Ha. cbn [differing_words].
  apply Nat.leb_le in Hl. rewrite Hl. apply (memcmp_eq_false orig chng 0 8) in Ha. rewrite Ha. cbn [andb negb]. lia.
Qed.

Lemma scan_step_spec orig chng :
  length orig = length chng -> (0 < length orig)%nat ->
  let st := scan_step orig chng in
  let done := (length orig - ps_left st)%nat in
  (ps_identical st + ps_c st <= done)%nat /\ (ps_left st < length orig)%nat /\
  agree orig chng 0 (ps_identical st) /\ agree orig chng (ps_identical st + ps_c st) done /\
  ((0 < ps_left st)%nat -> (0 < ps_c st)%nat /\ done = (ps_identical st + ps_c st)%nat).
Proof.
  intros Hlen Hpos. unfold scan_step.
  pose proof (find_patch_start_spec orig chng 0 (length orig)) as (Hp1&Hp2&Hp3). simpl in Hp2, Hp3.
  set (p := find_patch_start _ _ _ _) in *.
  pose proof (differing_words_le (length orig) (drop p orig) (drop p chng)) as Hn.
  rewrite length_drop in Hn.
  pose proof (differing_words_pos (length orig) (drop p orig) (drop p chng) ltac:(lia)) as Hn8.
  rewrite length_drop, agree_drop, Nat.add_0_r in Hn8.
  set (n := differing_words _ _ _) in *. rewrite !length_drop.
  assert (Hprog : (p < length orig)%nat -> (8 <= length orig - p - n)%nat -> (8 <= n)%nat).
  { intros Hlt Hr. apply Hn8; [lia|]. destruct (Hp3 Hlt) as [_ Hd].
    by replace (Nat.min (p + 8) (length orig)) with (p + 8)%nat in Hd by lia. }
  destruct (Nat.ltb_spec (length orig - p - n) 8) as [Hl|Hl]; simpl.
  - case_bool; simpl.
    + apply bool_decide_eq_true in C. repeat split; try lia; [done|].
      rewrite Nat.sub_0_r. intros i Hi. rewrite !drop_drop in C.
      apply (f_equal (.!! (i - (p + n))%nat)) in C. rewrite !lookup_drop in C.
      by replace (p + n + (i - (p + n)))%nat with i in C by lia.
    + repeat split; try lia; [done|]. apply agree_empty. lia.
  - repeat split; try lia; [done|apply agree_empty; lia].
Qed.

(** ** The runs of a patch *)

(** where the runs land when the patch is applied from position [p] on *)
Fixpoint apply_runs (runs : list (Z * list byte)) (p : nat) (b : list byte) : list byte :=
  match runs with
  | [] => b
  | (off, payload) :: runs' =>
      let q := (p + Z.to_nat off)%nat in
      apply_runs runs' (q + length payload) (memcpy b q payload)
  end.

Fixpoint runs_ok (p limit : nat) (runs : list (Z * list byte)) : Prop :=
  match runs with
  | [] => True
  | (off, payload) :: runs' =>
      u32 off /\ payload <> [] /\ (p + Z.to_nat off + length payload <= limit)%nat /\
      runs_ok (p + Z.to_nat off + length payload) limit runs'
  end.

Definition runs_bytes (runs : list (Z * list byte)) : Z :=
  Z.of_nat (list_sum (map (fun run => length run.2) runs)).

Lemma apply_runs_split (st : patch_step) orig chng pre post (d : nat) :
  length orig = length chng -> (d <= length orig)%nat ->
  (ps_identical st + ps_c st <= d)%nat ->
  agree orig chng 0 (ps_identical st) -> agree orig chng (ps_identical st + ps_c st) d ->
  memcpy (pre ++ orig ++ post) (length pre + ps_identical st) (slice (ps_identical st) (ps_c st) chng) =
  (pre ++ take d chng) ++ drop d orig ++ post.
Proof.
  intros Hlen Hd Hle Ha1 Ha2. set (id := ps_identical st) in *. set (c := ps_c st) in *.
  assert (Hpl : length (slice id c chng) = c) by (rewrite length_slice; lia).
  apply list_eq. intros i. rewrite memcpy_lookup by (rewrite !length_app, Hpl; lia).
  rewrite Hpl, <- app_assoc. case_decide as Hi.
  - rewrite slice_lookup, decide_True by lia. rewrite lookup_app_r by lia.
    rewrite lookup_app_l by (rewrite length_take; lia). rewrite lookup_take_lt by lia. f_equal. lia.
  - destruct (decide (i < length pre)%nat); [by rewrite !lookup_app_l by lia|].
    rewrite (lookup_app_r pre), (lookup_app_r pre) by lia. set (j := (i - length pre)%nat).
    destruct (decide (j < d)%nat) as [Hj|Hj].
    + rewrite lookup_app_l by lia. rewrite lookup_app_l by (rewrite length_take; lia).
      rewrite lookup_take_lt by lia. destruct (decide (j < id)%nat); [apply Ha1 | apply Ha2]; lia.
    + rewrite (lookup_app_r (take d chng)) by (rewrite length_take; lia). rewrite length_take.
      replace (Nat.min d (length chng)) with d by lia.
      destruct (decide (j < length orig)%nat).
      * rewrite !lookup_app_l by (rewrite ?length_drop; lia). rewrite lookup_drop. f_equal. lia.
      * rewrite !lookup_app_r by (rewrite ?length_drop; lia). rewrite length_drop. f_equal. lia.
Qed.

(** the clone after a step is the changed area as far as the step went *)
Lemma scan_step_clone st orig chng (d : nat) :
  length orig = length chng -> (d <= length orig)%nat -> (ps_identical st + ps_c st <= d)%nat ->
  agree orig chng 0 (ps_identical st) -> agree orig chng (ps_identical st + ps_c st) d ->
  memcpy (take d orig) (ps_identical st) (slice (ps_identical st) (ps_c st) chng) = take d chng.
Proof.
  intros Hlen Hd Hle Ha1 Ha2.
  assert (Hpl : length (slice (ps_identical st) (ps_c st) chng) = ps_c st) by (rewrite length_slice; lia).
  apply list_eq. intros i. rewrite memcpy_lookup by (rewrite Hpl, length_take; lia). rewrite Hpl, !lookup_take.
  case_decide as Hi.
  - rewrite decide_True by lia. rewrite slice_lookup, decide_True by lia. f_equal. lia.
  - case_decide; [|done]. destruct (decide (i < ps_identical st)%nat); [apply Ha1 | apply Ha2]; lia.
Qed.

Lemma length_payload st (orig chng : list byte) :
  length orig = length chng -> (ps_identical st + ps_c st <= length orig)%nat ->
  length (slice (ps_identical st) (ps_c st) chng) = ps_c st.
Proof. intros. rewrite length_slice. lia. Qed.

(** what [patch_runs] promises on areas [orig] and [chng] found after [pre],
    the last run having ended at [p] *)
Definition good_runs (orig chng : list byte) (p : nat) (pre : list byte)
    (res : option (list (Z * list byte) * list byte * Z)) : Prop :=
  exists runs changed, res = Some (runs, chng, changed) /\
    runs_ok p (length (pre ++ orig)) runs /\ changed = runs_bytes runs /\
    0 <= changed <= Z.of_nat (length orig) /\
    forall post, apply_runs runs p (pre ++ orig ++ post) = pre ++ chng ++ post.

Lemma good_runs_nil p pre : good_runs [] [] p pre (Some ([], [], 0)).
Proof. exists [], 0. unfold runs_bytes. simpl. by repeat split. Qed.

(** put a step in front of the runs of the rest *)
Lemma good_runs_step st orig chng (d p : nat) pre offset res :
  length orig = length chng -> (d <= length orig)%nat -> (ps_identical st + ps_c st <= d)%nat ->
  agree orig chng 0 (ps_identical st) -> agree orig chng (ps_identical st + ps_c st) d ->
  (0 < ps_c st)%nat -> 0 <= offset ->
  Z.of_nat p + offset = Z.of_nat (length pre) + Z.of_nat (ps_identical st) ->
  Z.of_nat (length (pre ++ orig)) <= UINT32_MAX ->
  good_runs (drop d orig) (drop d chng) (length pre + ps_identical st + ps_c st) (pre ++ take d chng) res ->
  good_runs orig chng p pre
    (match res with
     | None => None
     | Some (runs, clone', changed) =>
         Some ((offset, slice (ps_identical st) (ps_c st) chng) :: runs, take d chng ++ clone',
               wrap64 (Z.of_nat (ps_c st) + changed))
     end).
Proof.
  intros Hlen Hd Hle Ha1 Ha2 Hc Hoff Hp Hmax (runs & changed & -> & Hok & Hch & Hb & Happ).
  pose proof (length_payload st orig chng Hlen ltac:(lia)) as Hpl.
  rewrite length_app in Hmax. rewrite length_drop in Hb.
  assert (Hw : wrap64 (Z.of_nat (ps_c st) + changed) = Z.of_nat (ps_c st) + changed)
    by (apply wrap64_small; u_lia).
  eexists _, _. split; [by rewrite take_drop|].
  assert (Hq : (p + Z.to_nat offset)%nat = (length pre + ps_identical st)%nat) by lia.
  split; [|split; [|split]].
  - simpl. rewrite Hpl, length_app, Hq. split; [u_lia|]. split; [intros He; rewrite He in Hpl; simpl in Hpl; lia|].
    split; [lia|]. rewrite !length_app, length_take, length_drop in Hok.
    by replace (length pre + Nat.min d (length chng) + (length orig - d))%nat
      with (length pre + length orig)%nat in Hok by lia.
  - rewrite Hw, Hch. unfold runs_bytes. simpl. rewrite Hpl. lia.
  - rewrite Hw. lia.
  - intros post. simpl. rewrite Hpl, Hq.
    rewrite (apply_runs_split st orig chng pre post d Hlen Hd Hle Ha1 Ha2).
    by rewrite Happ, <- app_assoc, (app_assoc (take d chng)), take_drop.
Qed.

Lemma agree_all_eq a b : length a = length b -> agree a b 0 (length a) -> a = b.
Proof.
  intros Hl Ha. apply list_eq. intros i. destruct (decide (i < length a)%nat); [apply Ha; lia|].
  rewrite !(proj2 (lookup_ge_None _ _)) by lia. done.
Qed.

Lemma patch_runs_spec fuel orig chng offset p pre :
  length orig = length chng -> (length orig <= fuel)%nat ->
  0 <= offset -> (Z.of_nat p + offset = Z.of_nat (length pre)) ->
  Z.of_nat (length (pre ++ orig)) <= UINT32_MAX ->
  good_runs orig chng p pre (patch_runs fuel orig chng offset).
Proof.
  revert orig chng offset p pre. induction fuel as [|fuel IH];
    intros orig chng offset p pre Hlen Hfuel Hoff Hp Hmax.
  { destruct orig, chng; try (simpl in *; lia). apply good_runs_nil. }
  destruct orig as [|b orig]; [destruct chng; [apply good_runs_nil|done]|].
  cbn [patch_runs]. set (o := b :: orig) in *.
  pose proof (scan_step_spec o chng Hlen ltac:(simpl; lia)) as (S1&S2&S3&S4&S5).
  set (st := scan_step o chng) in *. set (d := (length o - ps_left st)%nat) in *.
  assert (Hd : (d <= length o)%nat) by lia.
  rewrite (scan_step_clone st o chng d Hlen Hd S1 S3 S4).
  assert (Hw : wrap32 (offset + Z.of_nat (ps_identical st)) = offset + Z.of_nat (ps_identical st))
    by (rewrite length_app in Hmax; apply wrap32_small; u_lia).
  rewrite Hw. destruct (decide (ps_left st = 0%nat)) as [Hl|Hl].
  - assert (Hdl : d = length o) by lia.
    assert (Hnil : forall off, patch_runs fuel (drop d o) (drop d chng) off = Some ([], [], 0)).
    { intros off. rewrite !drop_ge by lia. by destruct fuel. }
    rewrite Hnil. destruct (Nat.ltb_spec 0 (ps_c st)) as [Hc|Hc].
    + apply (good_runs_step st o chng d p pre _ (Some ([], [], 0))); auto; try lia.
      rewrite !drop_ge by lia. apply good_runs_nil.
    + rewrite app_nil_r, take_ge by lia.
      assert (o = chng) as <- by (apply agree_all_eq; [done|]; apply (agree_app _ _ _ (ps_identical st)); [done|];
        eapply agree_weaken; [exact S4|lia|lia]).
      exists [], 0. unfold runs_bytes. simpl. repeat split; lia.
  - destruct (S5 ltac:(lia)) as [Hc Hdd]. assert (Hc' : Nat.ltb 0 (ps_c st) = true) by (apply Nat.ltb_lt; lia).
    rewrite Hc'. apply (good_runs_step st o chng d p pre _ (patch_runs fuel (drop d o) (drop d chng) 0)); auto; try lia.
    apply IH; rewrite ?length_app, ?length_take, ?length_drop in *; lia.
Qed.

(** ** Writing and reading the runs *)

Lemma length_encode_run run : length (encode_run run) = (8 + length run.2)%nat.
Proof. unfold encode_run. rewrite !length_app, !length_le_encode. lia. Qed.

Lemma runs_ok_small p limit runs :
  runs_ok p limit runs -> Z.of_nat limit + 8 <= UINT32_MAX ->
  Forall (fun run => u32 (Z.of_nat (length (encode_run run)))) runs.
Proof.
  revert p; induction runs as [|[off payload] runs IH]; intros p; [constructor|].
  cbn [runs_ok]. intros (H1&H2&H3&H4) Hl. constructor; [|by eapply IH].
  rewrite length_encode_run. simpl. u_lia.
Qed.

Lemma within_le maxsize position : maxsize = 0 \/ position <= maxsize -> within maxsize position = true.
Proof.
  unfold within. intros H. apply orb_true_iff. rewrite Z.eqb_eq, Z.leb_le. exact H.
Qed.

Section Streams.
Context {R : Type} `{ByteSource R} {W : Type} `{ByteSink W}.

Lemma emits_runs runs :
  Forall (fun run => u32 (Z.of_nat (length (encode_run run)))) runs ->
  emits (write_runs runs) (concat (map encode_run runs)).
Proof.
  induction 1 as [|run runs Hr _ IH]; cbn [write_runs map concat]; [apply emits_ret|].
  apply (emits_bind (emit (encode_run run))); [by apply emits_emit | exact IH].
Qed.

Lemma emits_terminator :
  emits (fun w => let* w := write_uint32_t 0 w in write_uint32_t 0 w) patch_terminator.
Proof. apply (emits_bind (write_uint32_t 0)); apply emits_value; lia. Qed.

(** one round of the reader's loop on an encoded run *)
Lemma read_patch_step fuel maxsize b (p limit : nat) changed off payload s rest :
  src_ok s -> remaining s = encode_run (off, payload) ++ rest ->
  u32 off -> payload <> [] -> (p + Z.to_nat off + length payload <= limit)%nat ->
  Z.of_nat limit <= UINT32_MAX -> (limit <= length b)%nat ->
  maxsize = 0 \/ Z.of_nat limit <= maxsize ->
  exists s', src_ok s' /\ remaining s' = rest /\
    read_patch_loop (S fuel) maxsize (Some b) (Z.of_nat p) changed s =
    read_patch_loop fuel maxsize (Some (memcpy b (p + Z.to_nat off) payload))
      (Z.of_nat (p + Z.to_nat off + length payload)) (wrap64 (changed + Z.of_nat (length payload))) s'.
Proof.
  intros Hs Hr Hoff Hne Hle Hlim Hb Hmax. unfold encode_run in Hr. cbn [fst snd] in Hr. rewrite <- !app_assoc in Hr.
  assert (Hlen : 0 < Z.of_nat (length payload) <= UINT32_MAX) by (destruct payload; [done|simpl in *; lia]).
  rewrite wrap32_small in Hr by u_lia.
  destruct (parses_value 4 off ltac:(u_lia) s _ Hs Hr) as (s1 & E1 & Hs1 & Hr1).
  destruct (parses_value 4 (Z.of_nat (length payload)) ltac:(u_lia) s1 _ Hs1 Hr1) as (s2 & E2 & Hs2 & Hr2).
  destruct (parses_next (length payload) payload eq_refl s2 _ Hs2 Hr2) as (s3 & E3 & Hs3 & Hr3).
  exists s3. split; [done|]. split; [done|]. cbn [read_patch_loop].
  unfold read_uint32_t. rewrite E1. cbn [obind].
  assert (Hw : wrap64 (Z.of_nat p + off) = Z.of_nat (p + Z.to_nat off)) by (rewrite wrap64_small; u_lia).
  assert (Hw2 : wrap64 (Z.of_nat (p + Z.to_nat off) + Z.of_nat (length payload)) =
    Z.of_nat (p + Z.to_nat off + length payload)) by (rewrite wrap64_small; u_lia).
  rewrite Hw. assert (Hi1 : within maxsize (Z.of_nat (p + Z.to_nat off)) = true) by (apply within_le; lia).
  rewrite Hi1. cbn [obind require]. rewrite E2. cbn [obind].
  rewrite Nat2Z.id, E3. cbn [obind]. unfold patch_memory.
  replace (Nat.ltb 0 (length payload)) with true by (symmetry; apply Nat.ltb_lt; lia).
  rewrite (proj2 (Z.leb_le _ (Z.of_nat (length b)))) by lia. cbn [obind require].
  rewrite Hw2, Nat2Z.id. assert (Hi2 : within maxsize (Z.of_nat (p + Z.to_nat off + length payload)) = true)
    by (apply within_le; lia).
  rewrite Hi2. cbn [obind require].
  replace (Z.of_nat (length payload) =? 0) with false by lia. by rewrite andb_false_r.
Qed.

Lemma read_patch_runs runs fuel maxsize b (p limit : nat) changed s rest :
  src_ok s -> remaining s = concat (map encode_run runs) ++ patch_terminator ++ rest ->
  runs_ok p limit runs -> (length runs < fuel)%nat -> (p <= limit)%nat ->
  Z.of_nat limit <= UINT32_MAX -> (limit <= length b)%nat -> 0 <= changed ->
  changed + runs_bytes runs <= UINT32_MAX ->
  maxsize = 0 \/ Z.of_nat limit <= maxsize ->
  exists s', src_ok s' /\ remaining s' = rest /\
    read_patch_loop fuel maxsize (Some b) (Z.of_nat p) changed s =
      Ok (changed + runs_bytes runs, Some (apply_runs runs p b), s').
Proof.
  revert fuel b p changed s. induction runs as [|[off payload] runs IH];
    intros fuel b p changed s Hs Hr Hok Hfuel Hp Hlim Hb Hch Hsum Hmax; (destruct fuel as [|fuel]; [simpl in *; lia|]).
  - assert (Hrb : changed + runs_bytes [] = changed) by (unfold runs_bytes; simpl; lia).
    rewrite Hrb in *. cbn [map concat app] in Hr. unfold patch_terminator in Hr. rewrite <- app_assoc in Hr.
    destruct (parses_value 4 0 ltac:(simpl; lia) s _ Hs Hr) as (s1 & E1 & Hs1 & Hr1).
    destruct (parses_value 4 0 ltac:(simpl; lia) s1 _ Hs1 Hr1) as (s2 & E2 & Hs2 & Hr2).
    destruct (parses_next 0 [] eq_refl s2 _ Hs2 Hr2) as (s3 & E3 & Hs3 & Hr3).
    exists s3. split; [done|]. split; [done|]. cbn [read_patch_loop]. unfold read_uint32_t. rewrite E1. cbn [obind].
    rewrite Z.add_0_r, wrap64_small by u_lia.
    assert (Hi : within maxsize (Z.of_nat p) = true) by (apply within_le; lia).
    rewrite Hi. cbn [obind require]. rewrite E2. cbn [obind]. change (Z.to_nat 0) with 0%nat. rewrite E3. cbn [obind patch_memory length Nat.ltb Nat.leb].
    rewrite !Z.add_0_r, !wrap64_small by u_lia. rewrite Hi. cbn [obind require Z.eqb andb negb].
    rewrite wrap32_small by u_lia. done.
  - destruct Hok as (H1&H2&H3&H4). cbn [map concat] in Hr. rewrite <- app_assoc in Hr.
    assert (Hrb : runs_bytes ((off, payload) :: runs) = Z.of_nat (length payload) + runs_bytes runs)
      by (unfold runs_bytes; simpl; lia).
    destruct (read_patch_step fuel maxsize b p limit changed off payload s _ Hs Hr H1 H2 H3 Hlim Hb Hmax)
      as (s1 & Hs1 & Hr1 & E1).
    rewrite E1, Hrb. assert (0 <= runs_bytes runs) by (unfold runs_bytes; lia). rewrite wrap64_small by u_lia.
    destruct (IH fuel (memcpy b (p + Z.to_nat off) payload) (p + Z.to_nat off + length payload)%nat
      (changed + Z.of_nat (length payload)) s1) as (s2 & Hs2 & Hr2 & E2); auto; try lia.
    { simpl in Hfuel. lia. }
    { rewrite length_memcpy; lia. }
    exists s2. split; [done|]. split; [done|]. rewrite E2. simpl. by rewrite Z.add_assoc.
Qed.

Lemma length_concat_runs runs : (length runs <= length (concat (map encode_run runs)))%nat.
Proof.
  induction runs as [|run runs IH]; [done|]. cbn [map concat length].
  rewrite length_app, length_encode_run. lia.
Qed.

Lemma write_patch_spec orig chng (offset size : nat) w :
  sink_ok w -> (offset + size <= length orig)%nat -> (offset + size <= length chng)%nat ->
  Z.of_nat (offset + size) + 8 <= UINT32_MAX ->
  exists runs w', write_patch orig chng offset size w =
      Ok (runs_bytes runs, memcpy orig offset (slice offset size chng), w') /\ sink_ok w' /\
    written w' = written w ++ concat (map encode_run runs) ++ patch_terminator /\
    runs_ok 0 (offset + size) runs /\ runs_bytes runs <= Z.of_nat size /\
    forall pre post, length pre = offset ->
      apply_runs runs 0 (pre ++ slice offset size orig ++ post) = pre ++ slice offset size chng ++ post.
Proof.
  intros Hw Ho Hc Hmax. unfold write_patch.
  assert (Hlo : length (slice offset size orig) = size) by (rewrite length_slice; lia).
  assert (Hlc : length (slice offset size chng) = size) by (rewrite length_slice; lia).
  assert (Hgood : forall pre, length pre = offset ->
    good_runs (slice offset size orig) (slice offset size chng) 0 pre
      (patch_runs size (slice offset size orig) (slice offset size chng) (Z.of_nat offset)))
    by (intros pre Hpre; apply patch_runs_spec; rewrite ?length_app, ?Hpre; lia).
  destruct (Hgood (repeat x00 offset) (repeat_length _ _)) as (runs & changed & E & Hok & -> & Hb & _).
  rewrite E. rewrite length_app, repeat_length, Hlo in Hok. rewrite Hlo in Hb.
  pose proof (runs_ok_small _ _ _ Hok Hmax) as Hsmall.
  destruct (emits_runs runs Hsmall w Hw) as (w1 & E1 & Hw1 & Hb1). rewrite E1. cbn [obind].
  destruct (emits_terminator w1 Hw1) as (w2 & E2 & Hw2 & Hb2).
  destruct (write_uint32_t 0 w1) as [w1'|] eqn:Ew; [|discriminate]. cbn [obind] in *. rewrite E2. cbn [obind].
  exists runs, w2. split; [done|]. split; [done|]. split; [by rewrite Hb2, Hb1, app_assoc|].
  split; [done|]. split; [lia|]. intros pre post Hpre.
  destruct (Hgood pre Hpre) as (runs' & ? & E' & _ & _ & _ & Happ). rewrite E in E'. injection E' as <- <-. apply Happ.
Qed.

(** the runs of a patch, read over memory that holds the old bytes *)
Lemma runs_read_back runs orig chng mem (offset size : nat) maxsize r rest :
  src_ok r -> (offset + size <= length chng)%nat -> (offset + size <= length mem)%nat ->
  Z.of_nat (offset + size) + 8 <= UINT32_MAX -> maxsize = 0 \/ Z.of_nat (offset + size) <= maxsize ->
  slice offset size mem = slice offset size orig ->
  runs_ok 0 (offset + size) runs -> runs_bytes runs <= Z.of_nat size ->
  (forall pre post, length pre = offset ->
    apply_runs runs 0 (pre ++ slice offset size orig ++ post) = pre ++ slice offset size chng ++ post) ->
  remaining r = (concat (map encode_run runs) ++ patch_terminator) ++ rest ->
  exists r', read_patch (Some mem) maxsize r =
      Ok (runs_bytes runs, Some (memcpy mem offset (slice offset size chng)), r') /\
    src_ok r' /\ remaining r' = rest.
Proof.
  intros Hr Hc Hm Hmax Hlim Hold Hok Hrb Happ Hrem. rewrite <- app_assoc in Hrem.
  destruct (read_patch_runs runs (Datatypes.S (length (remaining r))) maxsize mem 0 (offset + size) 0 r rest)
    as (r' & Hr' & Hrest & E'); auto; try lia.
  { rewrite Hrem, length_app. pose proof (length_concat_runs runs). lia. }
  exists r'. split; [|done]. unfold read_patch. change (Z.of_nat 0) with 0 in E'. rewrite E'. do 4 f_equal.
  specialize (Happ (take offset mem) (drop (offset + size) mem) ltac:(rewrite length_take; lia)).
  rewrite <- Hold in Happ. unfold slice at 1 in Happ.
  assert (Hsplit : take offset mem ++ take size (drop offset mem) ++ drop (offset + size) mem = mem)
    by (rewrite <- (drop_drop mem size offset), take_drop; apply take_drop).
  rewrite Hsplit in Happ. rewrite Happ. unfold memcpy.
  rewrite length_slice. by replace (Nat.min size (length chng - offset)) with size by lia.
Qed.

(** every run carries a byte, so a patch is not much larger than the bytes it changes *)
Lemma length_runs limit runs : forall p, runs_ok p limit runs ->
  Z.of_nat (length (concat (map encode_run runs))) <= 9 * runs_bytes runs.
Proof.
  unfold runs_bytes. induction runs as [|[off payload] runs IH]; intros p Hok; [done|].
  destruct Hok as (_ & Hne & _ & Hok). specialize (IH _ Hok). cbn [map concat list_sum fold_right snd].
  rewrite length_app, length_encode_run. cbn [snd]. destruct payload; [done|]. cbn [length].
  change (fold_right Nat.add 0%nat (map (fun run : Z * list byte => length run.2) runs))
    with (list_sum (map (fun run : Z * list byte => length run.2) runs)). lia.
Qed.
End Streams.

(** ** Changed spans *)

Definition differs (orig chng : list byte) (i : nat) : Prop := orig !! i <> chng !! i.

Lemma advance_spec want n fuel orig chng pos size :
  (0 < n)%nat -> (pos <= size)%nat -> (size - pos <= fuel)%nat ->
  let p := advance want n fuel orig chng pos size in
  (pos <= p <= size)%nat /\ (want = true -> agree orig chng pos p) /\
  ((p + n <= size)%nat -> memcmp_eq orig chng p n = negb want).
Proof.
  intros Hn. revert pos; induction fuel as [|fuel IH]; intros pos Hp Hf; cbn [advance].
  { repeat split; try lia. intros _. by apply agree_empty. }
  destruct (Nat.leb_spec (pos + n) size) as [Hle|Hgt]; cbn [andb].
  - destruct (Bool.eqb (memcmp_eq orig chng pos n) want) eqn:E.
    + apply eqb_prop in E. destruct (IH (pos + n)%nat ltac:(lia) ltac:(lia)) as (H1&H2&H3).
      set (p := advance _ _ _ _ _ _ _) in *. repeat split; try lia; [|done].
      intros ->. apply memcmp_eq_spec in E. eapply agree_app; [exact E|auto].
    + apply eqb_false_iff in E. repeat split; try lia; [intros _; by apply agree_empty|].
      intros _. destruct (memcmp_eq orig chng pos n), want; done.
  - repeat split; try lia. intros _. by apply agree_empty.
Qed.

Lemma memcmp_eq_one orig chng p : memcmp_eq orig chng p 1 = true <-> orig !! p = chng !! p.
Proof.
  rewrite memcmp_eq_spec. split; [intros Ha; apply Ha; lia|].
  intros He i Hi. by replace i with p by lia.
Qed.

Definition spans_ok (orig chng : list byte) (offset pos size : nat) (spans : list range) : Prop :=
  separated (Z.of_nat (offset + pos)) spans /\
  (forall i, (pos <= i < size)%nat -> differs orig chng i -> covers spans (Z.of_nat (offset + i))) /\
  (forall x, covers spans x -> x < Z.of_nat (offset + size)) /\
  (orig !! pos = chng !! pos -> separated (Z.of_nat (offset + pos) + 1) spans) /\
  Forall (fun s => exists i, r_first s = Z.of_nat (offset + i) /\ differs orig chng i) spans.

Lemma spans_ok_nil orig chng offset pos size :
  agree orig chng pos size -> spans_ok orig chng offset pos size [].
Proof.
  intros Ha. split; [done|]. split; [intros i Hi Hd; by destruct Hd; apply Ha|].
  split; [intros x Hx; by apply covers_nil in Hx|]. split; [done|constructor].
Qed.

Lemma spans_ok_cons orig chng offset pos start stop size spans :
  (pos <= start)%nat -> (start < stop <= size)%nat -> agree orig chng pos start ->
  differs orig chng start -> ((stop < size)%nat -> orig !! stop = chng !! stop) ->
  Z.of_nat (offset + size) <= UINT64_MAX ->
  spans_ok orig chng offset stop size spans ->
  spans_ok orig chng offset pos size
    (Range (Z.of_nat (offset + start)) (Z.of_nat (offset + stop) - 1) :: spans).
Proof.
  intros H1 H2 Ha Hd Hstop Hmax (K1&K2&K3&K4&K5).
  assert (Hnext : separated (Z.of_nat (offset + stop) + 1) spans).
  { destruct (decide (stop < size)%nat) as [Hlt|Hge]; [by apply K4, Hstop|].
    destruct spans as [|s spans]; [done|]. exfalso.
    destruct K1 as (?&?&?&_). specialize (K3 (r_first s) (covers_head s spans ltac:(done))). lia. }
  assert (Hsep : separated (Z.of_nat (offset + start))
    (Range (Z.of_nat (offset + start)) (Z.of_nat (offset + stop) - 1) :: spans)).
  { simpl. repeat split; try lia. eapply separated_weaken; [|exact Hnext]. lia. }
  split; [eapply separated_weaken; [|exact Hsep]; lia|]. split; [|split; [|split]].
  - intros i Hi Hdi. apply covers_cons. destruct (decide (i < start)%nat); [destruct Hdi; apply Ha; lia|].
    destruct (decide (i < stop)%nat); [left; unfold in_range; simpl; lia|]. right. apply K2; [lia|done].
  - intros x [[_ Hx]|Hx]%covers_cons; simpl in *; [lia|by apply K3].
  - intros He. destruct (decide (pos = start)) as [->|?]; [by destruct Hd|].
    eapply separated_weaken; [|exact Hsep]. lia.
  - constructor; [by exists start|done].
Qed.

Lemma collect_loop_spec fuel orig chng offset pos size :
  (size - pos <= fuel)%nat -> (pos <= size)%nat -> Z.of_nat (offset + size) <= UINT64_MAX ->
  exists spans changed, collect_loop fuel orig chng offset pos size = Ok (spans, changed) /\
    spans_ok orig chng offset pos size spans /\
    changed = fold_right (fun s v => r_last s - r_first s + 1 + v) 0 spans.
Proof.
  revert pos; induction fuel as [|fuel IH]; intros pos Hf Hp Hmax; cbn [collect_loop];
    (destruct (Nat.ltb_spec pos size) as [Hlt|Hge]; [try lia|
      exists [], 0; split; [done|split; [apply spans_ok_nil, agree_empty; lia|done]]]).
  destruct (advance_spec true 8 size orig chng pos size ltac:(lia) Hp ltac:(lia)) as (A1&A2&_).
  set (p1 := advance true 8 _ _ _ _ _) in *.
  destruct (advance_spec true 1 size orig chng p1 size ltac:(lia) ltac:(lia) ltac:(lia)) as (B1&B2&B3).
  set (p2 := advance true 1 _ _ _ _ _) in *.
  assert (Ha : agree orig chng pos p2) by (eapply agree_app; [by apply A2|by apply B2]).
  destruct (Nat.leb_spec size p2) as [Hend|Hmore].
  { exists [], 0. split; [done|]. split; [|done]. apply spans_ok_nil. eapply agree_weaken; [exact Ha|lia|lia]. }
  assert (Hd : differs orig chng p2).
  { intros He. apply memcmp_eq_one in He. rewrite B3 in He by lia. done. }
  destruct (advance_spec false 8 size orig chng p2 size ltac:(lia) ltac:(lia) ltac:(lia)) as (C1&_&C3).
  set (p3 := advance false 8 _ _ _ _ _) in *.
  destruct (advance_spec false 1 size orig chng p3 size ltac:(lia) ltac:(lia) ltac:(lia)) as (D1&_&D3).
  set (p4 := advance false 1 _ _ _ _ _) in *.
  assert (Heq4 : (p4 < size)%nat -> orig !! p4 = chng !! p4) by (intros; apply memcmp_eq_one, D3; lia).
  assert (Hgt : (p2 < p4)%nat).
  { destruct (decide (p2 = p4)) as [He|]; [|lia]. rewrite <- He in Heq4. destruct Hd. apply Heq4. lia. }
  rewrite (proj2 (Nat.ltb_lt p2 p4)) by lia. cbn [obind require].
  destruct (IH p4 ltac:(lia) ltac:(lia) Hmax) as (spans & changed & -> & Hok & ->). cbn [obind].
  eexists _, _. split; [reflexivity|]. split; [apply spans_ok_cons; auto; lia|]. simpl. lia.
Qed.

(** ** Properties *)

(** [find_patch_start] returns the start of the 8-byte block that holds the
    first changed byte, and [size] exactly when nothing changed. *)
Theorem find_patch_start_first_change (orig chng : list byte) (offset size : nat) :
  let p := find_patch_start orig chng offset size in
  (p <= size)%nat /\
  (forall i, (i < p)%nat -> orig !! (offset + i)%nat = chng !! (offset + i)%nat) /\
  (p = size <-> forall i, (i < size)%nat -> orig !! (offset + i)%nat = chng !! (offset + i)%nat) /\
  ((p < size)%nat -> Nat.divide 8 p /\
     exists i, (p <= i < Nat.min (p + 8) size)%nat /\ orig !! (offset + i)%nat <> chng !! (offset + i)%nat).
Proof.
  destruct (find_patch_start_spec orig chng offset size) as (H1&H2&H3).
  set (p := find_patch_start _ _ _ _) in *. cbv zeta.
  assert (Hex : (p < size)%nat -> exists i, (p <= i < Nat.min (p + 8) size)%nat /\
    orig !! (offset + i)%nat <> chng !! (offset + i)%nat).
  { intros Hlt. destruct (H3 Hlt) as [_ Hn].
    destruct (existsb (fun i => negb (bool_decide (orig !! (offset + i)%nat = chng !! (offset + i)%nat)))
      (seq p (Nat.min (p + 8) size - p))) eqn:E.
    - apply existsb_exists in E as (i & Hi & Hd). apply in_seq in Hi. exists i.
      apply negb_true_iff, bool_decide_eq_false in Hd. split; [lia|done].
    - destruct Hn. intros i Hi. destruct (decide (orig !! i = chng !! i)) as [|Hd]; [done|].
      exfalso. apply not_true_iff_false in E. apply E, existsb_exists. exists (i - offset)%nat.
      split; [apply in_seq; lia|]. apply negb_true_iff, bool_decide_eq_false.
      by replace (offset + (i - offset))%nat with i by lia. }
  repeat split; [lia|intros i Hi; apply H2; lia|intros He i Hi; apply H2; lia| |by apply H3|by apply Hex].
  intros Hall. destruct (decide (p < size)%nat) as [Hlt|]; [|lia].
  destruct (Hex Hlt) as (i & Hi & Hd). destruct Hd. apply Hall. lia.
Qed.

(** C8: writing the diff of a memory area against its clone and applying it to
    any memory that still holds the old bytes there leaves exactly the new bytes
    there and nothing else changed, consumes exactly what was written, reports
    the same number of bytes on both sides, and brings the clone up to date. *)
Theorem patch_roundtrip {R W} `{ByteSource R, ByteSink W}
    (orig chng mem : list byte) (offset size : nat) (maxsize : Z) (w : W) (r : R) (rest : list byte)
    (Hw : sink_ok w) (Hr : src_ok r)
    (Ho : (offset + size <= length orig)%nat) (Hc : (offset + size <= length chng)%nat)
    (Hm : (offset + size <= length mem)%nat) (Hmax : Z.of_nat (offset + size) + 8 <= UINT32_MAX)
    (Hlim : maxsize = 0 \/ Z.of_nat (offset + size) <= maxsize)
    (Hold : slice offset size mem = slice offset size orig) :
  exists bs w' changed,
    write_patch orig chng offset size w = Ok (changed, memcpy orig offset (slice offset size chng), w') /\
    sink_ok w' /\ written w' = written w ++ bs /\
    (remaining r = bs ++ rest ->
     exists r', read_patch (Some mem) maxsize r =
                  Ok (changed, Some (memcpy mem offset (slice offset size chng)), r') /\
                src_ok r' /\ remaining r' = rest).
Proof.
  destruct (write_patch_spec orig chng offset size w Hw Ho Hc Hmax)
    as (runs & w' & E & Hw' & Hb & Hok & Hrb & Happ).
  exists (concat (map encode_run runs) ++ patch_terminator), w', (runs_bytes runs).
  split; [done|]. split; [done|]. split; [done|]. intros Hrem.
  by apply (runs_read_back runs orig chng mem offset size maxsize r rest).
Qed.

Definition demo_old : list byte := [x00; x01; x02; x03; x04; x05; x06; x07; x08; x09; x0a; x0b].
Definition demo_new : list byte := [x00; x01; x02; x03; x04; x05; x06; x07; x08; xff; x0a; xfe].

Lemma patch_roundtrip_witness :
  exists bs w' changed,
    write_patch demo_old demo_new 1 11 ([] : list byte) =
      Ok (changed, memcpy demo_old 1 (slice 1 11 demo_new), w') /\
    sink_ok w' /\ written w' = written ([] : list byte) ++ bs /\
    (remaining (match write_patch demo_old demo_new 1 11 ([] : list byte) with Ok (_, _, s) => s | _ => [] end ++ [x07])
       = bs ++ [x07] ->
     exists r', read_patch (Some demo_old) 12
         (match write_patch demo_old demo_new 1 11 ([] : list byte) with Ok (_, _, s) => s | _ => [] end ++ [x07]) =
         Ok (changed, Some (memcpy demo_old 1 (slice 1 11 demo_new)), r') /\
         src_ok r' /\ remaining r' = [x07]).
Proof.
  apply patch_roundtrip; try exact I; try (simpl; lia); [u_lia|reflexivity].
Defined.

(** no change is counted only when the areas agree *)
Lemma collect_patch_spans_none (orig chng : list byte) (offset size : nat) :
  Z.of_nat (offset + size) <= UINT64_MAX ->
  exists spans changed, collect_patch_spans orig chng offset size = Ok (spans, changed) /\ 0 <= changed /\
    (changed = 0 -> agree orig chng offset (offset + size)).
Proof.
  intros Hmax. destruct (collect_loop_spec size (drop offset orig) (drop offset chng) offset 0 size)
    as (spans & changed & E & (K1&K2&_&_&_) & Hch); [lia|lia|done|].
  rewrite Nat.add_0_r in K1. exists spans, changed. split; [exact E|].
  destruct spans as [|s spans]; cbn [fold_right] in Hch.
  - split; [lia|]. intros _ i Hi. destruct (decide (orig !! i = chng !! i)) as [|Hn]; [done|]. exfalso.
    replace i with (offset + (i - offset))%nat in Hn by lia. apply (covers_nil (Z.of_nat (offset + (i - offset)))).
    apply K2; [lia|]. unfold differs. by rewrite !lookup_drop.
  - destruct K1 as (_ & K1 & _ & K4).
    assert (0 <= fold_right (fun s v => r_last s - r_first s + 1 + v) 0 spans).
    { clear -K4. revert K4. generalize (r_last s + 2). induction spans as [|t spans IH]; intros lo K; simpl; [lia|].
      destruct K as (_ & ? & _ & K). apply IH in K. lia. }
    split; [lia|]. lia.
Qed.

(** The spans collected for a marked update are ascending, never touch, start
    at a changed byte, stay inside the area, cover every changed byte, and their
    total length is the number returned. *)
Theorem collect_patch_spans_cover (orig chng : list byte) (offset size : nat)
    (Hmax : Z.of_nat (offset + size) <= UINT64_MAX) :
  exists spans changed, collect_patch_spans orig chng offset size = Ok (spans, changed) /\
    separated (Z.of_nat offset) spans /\
    (forall i, (i < size)%nat -> orig !! (offset + i)%nat <> chng !! (offset + i)%nat ->
       covers spans (Z.of_nat (offset + i))) /\
    (forall x, covers spans x -> Z.of_nat offset <= x < Z.of_nat (offset + size)) /\
    Forall (fun s => orig !! Z.to_nat (r_first s) <> chng !! Z.to_nat (r_first s)) spans /\
    changed = fold_right (fun s v => r_last s - r_first s + 1 + v) 0 spans.
Proof.
  destruct (collect_loop_spec size (drop offset orig) (drop offset chng) offset 0 size)
    as (spans & changed & E & (K1&K2&K3&_&K5) & Hch); [lia|lia|done|].
  rewrite Nat.add_0_r in K1. exists spans, changed. split; [exact E|]. split; [done|].
  split; [|split; [|split; [|done]]].
  - intros i Hi Hd. apply K2; [lia|]. unfold differs. by rewrite !lookup_drop.
  - intros x Hx. specialize (K3 x Hx). pose proof (separated_covers_ge _ _ _ K1 Hx). lia.
  - eapply Forall_impl; [exact K5|]. simpl. intros s (i & -> & Hd). unfold differs in Hd.
    rewrite !lookup_drop in Hd. by rewrite Nat2Z.id.
Qed.

Lemma collect_patch_spans_cover_witness :
  exists spans changed, collect_patch_spans demo_old demo_new 2 10 = Ok (spans, changed) /\
    separated (Z.of_nat 2) spans /\
    (forall i, (i < 10)%nat -> demo_old !! (2 + i)%nat <> demo_new !! (2 + i)%nat ->
       covers spans (Z.of_nat (2 + i))) /\
    (forall x, covers spans x -> Z.of_nat 2 <= x < Z.of_nat (2 + 10)) /\
    Forall (fun s => demo_old !! Z.to_nat (r_first s) <> demo_new !! Z.to_nat (r_first s)) spans /\
    changed = fold_right (fun s v => r_last s - r_first s + 1 + v) 0 spans.
Proof. apply collect_patch_spans_cover. u_lia. Defined.
