(* ===== verification/FileWriter.v ===== *)
(** * The trace file writer (src/filewriter.h, src/filewriter.cpp)

    One [file_writer] per traced thread collects values in a memory chunk. Full
    chunks move through three queues: [held_chunks] while pointers into written
    memory must stay valid, [uncompressed_chunks] for the compressor thread and
    [compressed_chunks] for the serializer thread, which appends them to the file.
    A queue's front is the head of its list, the oldest chunk its last element.
    The main thread's operations and the locked sections of both workers are the
    atomic steps; [step] interleaves them freely. The compression library is a
    parameter. [std::list] is a list, [FILE*] the bytes written so far, and a
    pointer returned for a delayed write the allocation and offset it points at. *)

From Stdlib Require Import ZArith Lia Bool.
From Stdlib.Strings Require Import Byte.
From stdpp Require Import base numbers list.
From S2P Require Import Prelude Stream Patch.

#[local] Open Scope Z_scope.

(** ** Data *)

(** [buffer]: allocation, its length, the used length [mSize] of [shrink], and
    the bytes filled in so far *)
Record buffer := Buffer {
  b_ptr : nat;
  b_alloc : Z;
  b_size : Z;
  b_data : list byte
}.

Inductive lavatube_compression_type : Set :=
  | LAVATUBE_COMPRESSION_UNCOMPRESSED
  | LAVATUBE_COMPRESSION_DENSITY
  | LAVATUBE_COMPRESSION_LZ4.

Definition compression_code (t : lavatube_compression_type) : Z :=
  match t with
  | LAVATUBE_COMPRESSION_UNCOMPRESSED => 0
  | LAVATUBE_COMPRESSION_DENSITY => 1
  | LAVATUBE_COMPRESSION_LZ4 => 2
  end.

(** a worker thread: not joinable, between two rounds, with a stolen buffer, or
    returned from its function *)
Inductive worker (A : Type) : Type :=
  | NotStarted
  | Waiting
  | Busy (a : A)
  | Exited.
Arguments NotStarted {A}.
Arguments Waiting {A}.
Arguments Busy {A} a.
Arguments Exited {A}.

Record file_writer := FileWriter {
  multithreaded_compress : bool;
  multithreaded_write : bool;
  holding : bool;
  fp : option (list byte);
  uncompressed_chunk_size : Z;
  chunk : buffer;
  held_chunks : list buffer;
  uncompressed_chunks : list buffer;
  compressed_chunks : list (list byte);
  done_feeding : bool;
  done_compressing : bool;
  uncompressed_bytes : Z;
  sizes : list (Z * Z); (** [compressed_sizes] and [uncompressed_sizes], newest last *)
  compressor_thread : worker buffer;
  serializer_thread : worker (list byte);
  next_ptr : nat
}.

(** [uidx], the fill level of the current chunk *)
Definition uidx (w : file_writer) : Z := Z.of_nat (length (b_data (chunk w))).

Definition malloc_buffer (ptr : nat) (size : Z) : buffer := Buffer ptr size size [].

Definition shrink (b : buffer) (size : Z) : buffer := Buffer (b_ptr b) (b_alloc b) size (b_data b).

(** *** Field updates *)

Definition with_chunk (w : file_writer) (c : buffer) (next : nat) (bytes : Z) : file_writer :=
  FileWriter (multithreaded_compress w) (multithreaded_write w) (holding w) (fp w)
    (uncompressed_chunk_size w) c (held_chunks w) (uncompressed_chunks w) (compressed_chunks w)
    (done_feeding w) (done_compressing w) bytes (sizes w) (compressor_thread w) (serializer_thread w) next.

Definition with_queues (w : file_writer) (hold : bool) (held unc : list buffer) (comp : list (list byte))
    (file : option (list byte)) (szs : list (Z * Z)) : file_writer :=
  FileWriter (multithreaded_compress w) (multithreaded_write w) hold file
    (uncompressed_chunk_size w) (chunk w) held unc comp
    (done_feeding w) (done_compressing w) (uncompressed_bytes w) szs
    (compressor_thread w) (serializer_thread w) (next_ptr w).

Definition with_threads (w : file_writer) (feeding compressing : bool) (c : worker buffer)
    (s : worker (list byte)) : file_writer :=
  FileWriter (multithreaded_compress w) (multithreaded_write w) (holding w) (fp w)
    (uncompressed_chunk_size w) (chunk w) (held_chunks w) (uncompressed_chunks w) (compressed_chunks w)
    feeding compressing (uncompressed_bytes w) (sizes w) c s (next_ptr w).

Definition with_modes (w : file_writer) (mc mw : bool) (cs : Z) (c : buffer) : file_writer :=
  FileWriter mc mw (holding w) (fp w) cs c (held_chunks w) (uncompressed_chunks w) (compressed_chunks w)
    (done_feeding w) (done_compressing w) (uncompressed_bytes w) (sizes w)
    (compressor_thread w) (serializer_thread w) (next_ptr w).

(** ** Operations *)

Section Writer.

(** [p__compression_type], the compression library's compressor at the chosen
    level ([None] is its failure) and the bytes the heap holds after a buffer *)
Context (p__compression_type : lavatube_compression_type).
Context (codec : list byte -> option (list byte)).
Context (heap_after : list byte).

Definition new_file_writer (p__chunksize : Z) : file_writer :=
  FileWriter true true false None p__chunksize (malloc_buffer 0 p__chunksize) [] [] []
    false false 0 [] NotStarted NotStarted 1.

Definition file_header : list byte :=
  [x4c; x41; x56; x41; x42; x49; x4e] ++
  le_encode 1 3 ++ le_encode 1 (compression_code p__compression_type) ++ repeat x00 30.

(** [fwrite] of the whole buffer *)
Definition write_chunk (file : option (list byte)) (active : list byte) : option (list byte) :=
  match file with
  | Some f => Some (f ++ active)
  | None => None
  end.

(** The compressed buffer with its two-word header. In the uncompressed case the
    size taken for the payload already counts the header, and the buffer is then
    set 16 bytes longer than its allocation. *)
Definition compress_chunk (uncompressed : list byte) : outcome (list byte * (Z * Z)) :=
  let n := Z.of_nat (length uncompressed) in
  let* (payload, was_written) :=
    match p__compression_type with
    | LAVATUBE_COMPRESSION_UNCOMPRESSED => Ok (uncompressed ++ heap_after, n + 16)
    | _ =>
        match codec uncompressed with
        | None => Fail AbortCall
        | Some z => Ok (z, Z.of_nat (length z))
        end
    end in
  Ok (le_encode 8 was_written ++ le_encode 8 n ++ payload, (was_written, n)).

(** *** Main thread *)

Definition set (w : file_writer) : file_writer :=
  let file := write_chunk (Some []) file_header in
  let w := with_queues w (holding w) (held_chunks w) (uncompressed_chunks w) (compressed_chunks w) file (sizes w) in
  with_threads w (done_feeding w) (done_compressing w)
    (match compressor_thread w with NotStarted => Waiting | t => t end)
    (match serializer_thread w with NotStarted => Waiting | t => t end).

(** the first half of [make_space]: hand the full chunk on *)
Definition queue_chunk (w : file_writer) : outcome file_writer :=
  let full := shrink (chunk w) (uidx w) in
  if holding w then
    Ok (with_queues w true (full :: held_chunks w) (uncompressed_chunks w) (compressed_chunks w) (fp w) (sizes w))
  else if multithreaded_compress w then
    Ok (with_queues w false (held_chunks w) (full :: uncompressed_chunks w) (compressed_chunks w) (fp w) (sizes w))
  else
    let* (compressed, sz) := compress_chunk (b_data full) in
    if multithreaded_write w then
      Ok (with_queues w false (held_chunks w) (uncompressed_chunks w) (compressed :: compressed_chunks w)
            (fp w) (sizes w ++ [sz]))
    else
      Ok (with_queues w false (held_chunks w) (uncompressed_chunks w) (compressed_chunks w)
            (write_chunk (fp w) compressed) (sizes w ++ [sz])).

Definition make_space (w : file_writer) (size : Z) : outcome file_writer :=
  let* w := queue_chunk w in
  let n := if size >? uncompressed_chunk_size w then size else uncompressed_chunk_size w in
  Ok (with_chunk w (malloc_buffer (next_ptr w) n) (Datatypes.S (next_ptr w)) (uncompressed_bytes w)).

Definition check_space (w : file_writer) (size : Z) : outcome file_writer :=
  if size >? b_size (chunk w) - uidx w then make_space w size else Ok w.

(** [check_space], the copy and the two counters; a copy past the allocation is
    out of range *)
Definition put (bytes : list byte) (w : file_writer) : outcome file_writer :=
  let n := Z.of_nat (length bytes) in
  let* w := check_space w n in
  let c := chunk w in
  let* _ := require (uidx w + n <=? b_alloc c) OutOfRange in
  let* _ := require (uidx w + n <=? b_size c) AssertFailed in
  Ok (with_chunk w (Buffer (b_ptr c) (b_alloc c) (b_size c) (b_data c ++ bytes)) (next_ptr w)
        (wrap64 (uncompressed_bytes w + n))).

Definition freeze (w : file_writer) : file_writer :=
  if holding w then w
  else with_queues w true (held_chunks w) (uncompressed_chunks w) (compressed_chunks w) (fp w) (sizes w).

Definition thaw (w : file_writer) : file_writer :=
  if negb (holding w) then w
  else with_queues w false [] (held_chunks w ++ uncompressed_chunks w) (compressed_chunks w) (fp w) (sizes w).

(** a pointer into chunk memory: allocation and offset *)
Definition pointer : Type := (nat * nat)%type.

Definition write_value_later (n : nat) (value : Z) (w : file_writer) : outcome (pointer * file_writer) :=
  let* w := check_space w (Z.of_nat n) in
  let w := freeze w in
  let p := (b_ptr (chunk w), length (b_data (chunk w))) in
  let* w := put (le_encode n value) w in
  Ok (p, w).

(** the store through such a pointer, valid while its chunk is current or held *)
Definition poke_buffer (p : pointer) (bytes : list byte) (b : buffer) : buffer :=
  if Nat.eqb (b_ptr b) p.1 then Buffer (b_ptr b) (b_alloc b) (b_size b) (memcpy (b_data b) p.2 bytes) else b.

Definition store (p : pointer) (bytes : list byte) (w : file_writer) : outcome file_writer :=
  let* _ := require (existsb (fun b => Nat.eqb (b_ptr b) p.1 && Nat.leb (p.2 + length bytes) (length (b_data b)))
                       (chunk w :: held_chunks w)) OutOfRange in
  let w' := with_queues w (holding w) (map (poke_buffer p bytes) (held_chunks w)) (uncompressed_chunks w)
              (compressed_chunks w) (fp w) (sizes w) in
  Ok (with_chunk w' (poke_buffer p bytes (chunk w)) (next_ptr w) (uncompressed_bytes w)).

Definition change_default_chunk_size (w : file_writer) (size : Z) : outcome file_writer :=
  let* _ := require (uidx w <? size) AssertFailed in
  Ok (with_modes w (multithreaded_compress w) (multithreaded_write w) size (shrink (chunk w) size)).

Definition current_chunk_uncompressed_offset (w : file_writer) : Z := wrap64 (uncompressed_bytes w - uidx w).

(** joining a worker that has been launched never returns: neither function
    sets the flag that worker waits for, and both hold the mutex it needs *)
Definition disable_multithreaded_compress (w : file_writer) : outcome file_writer :=
  match compressor_thread w with
  | NotStarted =>
      Ok (with_threads (with_modes w false (multithreaded_write w) (uncompressed_chunk_size w) (chunk w))
            (done_feeding w) false (compressor_thread w) (serializer_thread w))
  | _ => Fail Deadlock
  end.

Definition disable_multithreaded_writeout (w : file_writer) : outcome file_writer :=
  match serializer_thread w with
  | NotStarted =>
      Ok (with_threads (with_modes w (multithreaded_compress w) false (uncompressed_chunk_size w) (chunk w))
            false (done_compressing w) (compressor_thread w) (serializer_thread w))
  | _ => Fail Deadlock
  end.

Definition self_test (w : file_writer) : outcome unit :=
  let* _ := require (negb (done_compressing w) || done_feeding w) AssertFailed in
  require (holding w || Nat.eqb (length (held_chunks w)) 0) AssertFailed.

(** *** [finalize], in the four stretches between its waits *)

Definition finalize_begin (w : file_writer) : outcome file_writer :=
  match fp w with
  | None => Ok w
  | Some _ =>
      let* _ := require (Nat.eqb (length (held_chunks w)) 0) AssertFailed in
      let last := shrink (chunk w) (uidx w) in
      let* w :=
        if negb (multithreaded_compress w) then
          let* (compressed, sz) := compress_chunk (b_data last) in
          if multithreaded_write w then
            Ok (with_queues w (holding w) (held_chunks w) (uncompressed_chunks w)
                  (compressed :: compressed_chunks w) (fp w) (sizes w ++ [sz]))
          else Ok (with_queues w (holding w) (held_chunks w) (uncompressed_chunks w) (compressed_chunks w)
                     (write_chunk (fp w) compressed) (sizes w ++ [sz]))
        else Ok (with_queues w (holding w) (held_chunks w) (last :: uncompressed_chunks w)
                   (compressed_chunks w) (fp w) (sizes w)) in
      let w := with_chunk w (malloc_buffer (next_ptr w) (uncompressed_chunk_size w)) (Datatypes.S (next_ptr w))
                 (uncompressed_bytes w) in
      Ok (with_threads w true (done_compressing w) (compressor_thread w) (serializer_thread w))
  end.

(** after the compressor was joined *)
Definition finalize_compressed (w : file_writer) : file_writer :=
  with_threads w (done_feeding w) true (compressor_thread w) (serializer_thread w).

(** after the serializer was joined: the closed file *)
Definition finalize_close (w : file_writer) : outcome (list byte * file_writer) :=
  let* _ := require (Nat.eqb (length (uncompressed_chunks w)) 0) AssertFailed in
  let* _ := require (Nat.eqb (length (compressed_chunks w)) 0) AssertFailed in
  match fp w with
  | None => Fail NullPointer
  | Some file =>
      Ok (file, with_queues (with_threads w (done_feeding w) (done_compressing w) NotStarted NotStarted)
                  (holding w) (held_chunks w) (uncompressed_chunks w) (compressed_chunks w) None (sizes w))
  end.

(** *** Worker threads *)

(** the oldest element of a queue and the rest *)
Definition pop_back {A} (l : list A) : option (list A * A) :=
  match rev l with
  | [] => None
  | x :: r => Some (rev r, x)
  end.

(** one locked section or one unlocked stretch of [compressor] *)
Definition compressor_step (w : file_writer) : outcome file_writer :=
  match compressor_thread w with
  | Waiting =>
      match pop_back (uncompressed_chunks w) with
      | Some (rest, b) =>
          let w := with_queues w (holding w) (held_chunks w) rest (compressed_chunks w) (fp w) (sizes w) in
          Ok (with_threads w (done_feeding w) (done_compressing w)
                (if b_size b >? 0 then Busy b else Waiting) (serializer_thread w))
      | None =>
          if done_feeding w
          then Ok (with_threads w (done_feeding w) (done_compressing w) Exited (serializer_thread w))
          else Ok w
      end
  | Busy b =>
      let* (compressed, sz) := compress_chunk (b_data b) in
      let w :=
        if multithreaded_write w then
          with_queues w (holding w) (held_chunks w) (uncompressed_chunks w) (compressed :: compressed_chunks w)
            (fp w) (sizes w ++ [sz])
        else with_queues w (holding w) (held_chunks w) (uncompressed_chunks w) (compressed_chunks w)
               (write_chunk (fp w) compressed) (sizes w ++ [sz]) in
      Ok (with_threads w (done_feeding w) (done_compressing w) Waiting (serializer_thread w))
  | NotStarted | Exited => Ok w
  end.

Definition serializer_step (w : file_writer) : file_writer :=
  match serializer_thread w with
  | Waiting =>
      match pop_back (compressed_chunks w) with
      | Some (rest, active) =>
          let w := with_queues w (holding w) (held_chunks w) (uncompressed_chunks w) rest (fp w) (sizes w) in
          with_threads w (done_feeding w) (done_compressing w) (compressor_thread w)
            (if Nat.ltb 0 (length active) then Busy active else Waiting)
      | None =>
          if done_compressing w
          then with_threads w (done_feeding w) (done_compressing w) (compressor_thread w) Exited
          else w
      end
  | Busy active =>
      let w := with_queues w (holding w) (held_chunks w) (uncompressed_chunks w) (compressed_chunks w)
                 (write_chunk (fp w) active) (sizes w) in
      with_threads w (done_feeding w) (done_compressing w) (compressor_thread w) Waiting
  | NotStarted | Exited => w
  end.
End Writer.

(** ** The invariant of the pipeline *)

Section Pipeline.
Context (p__compression_type : lavatube_compression_type).
Context (codec : list byte -> option (list byte)).
Context (heap_after : list byte).

(** The compressor is given a destination of the size its library asks for, and
    then does not fail. *)
Hypothesis codec_total : forall d, exists z, codec d = Some z.

Abbreviation compress := (compress_chunk p__compression_type codec heap_after).

Definition encoded (d : list byte) : list byte :=
  match compress d with
  | Ok (c, _) => c
  | Fail _ => []
  end.

Lemma compress_ok d : exists sz, compress d = Ok (encoded d, sz).
Proof.
  unfold encoded, compress_chunk. destruct (codec_total d) as [z Hz].
  destruct p__compression_type; rewrite ?Hz; simpl; eauto.
Qed.

Lemma encoded_nonempty d : Nat.ltb 0 (length (encoded d)) = true.
Proof.
  unfold encoded, compress_chunk. destruct (codec_total d) as [z Hz].
  destruct p__compression_type; rewrite ?Hz; cbn [obind];
    rewrite !length_app, !length_le_encode; by apply Nat.ltb_lt; lia.
Qed.

Definition file_of (done : list (list byte)) : list byte :=
  file_header p__compression_type ++ concat (map encoded done).

Lemma file_of_snoc done d : file_of (done ++ [d]) = file_of done ++ encoded d.
Proof. unfold file_of. rewrite map_app, concat_app. cbn [map concat]. by rewrite app_nil_r, app_assoc. Qed.

(** payloads a busy worker holds *)
Definition serializer_holds (t : worker (list byte)) (l : list (list byte)) : Prop :=
  match t with
  | Busy a => exists d, l = [d] /\ a = encoded d
  | _ => l = []
  end.

Definition compressor_holds (t : worker buffer) : list (list byte) :=
  match t with
  | Busy b => [b_data b]
  | _ => []
  end.

Definition sized (b : buffer) : Prop := b_size b = Z.of_nat (length (b_data b)).

(** the memory chunks the main thread still owns, oldest first *)
Definition owned (w : file_writer) : list buffer := rev (held_chunks w) ++ [chunk w].

(** [s] is everything written so far; [done], [ser] and [comp] are the payloads in
    the file, with the serializer and in the compressed queue *)
Record pipeline (w : file_writer) (s : list byte) (done ser comp : list (list byte)) : Prop := {
  pl_mode : multithreaded_compress w = true;
  pl_file : match fp w with
            | Some f => f = file_of done
            | None => done = [] /\ serializer_thread w = NotStarted /\ compressor_thread w = NotStarted
            end;
  pl_ser : serializer_holds (serializer_thread w) ser;
  pl_comp : compressed_chunks w = rev (map encoded comp);
  pl_direct : multithreaded_write w = false -> ser = [] /\ comp = [];
  pl_nonempty : Forall (fun d => d <> []) (done ++ ser ++ comp ++ compressor_holds (compressor_thread w));
  pl_stream : s = concat (done ++ ser ++ comp ++ compressor_holds (compressor_thread w) ++
                          map b_data (rev (uncompressed_chunks w))) ++
                  concat (map b_data (owned w))
}.

(** facts about the buffers of the main thread *)
Record buffers_ok (w : file_writer) (s : list byte) : Prop := {
  bo_held : holding w = false -> held_chunks w = [];
  bo_chunk : uidx w <= b_size (chunk w) <= b_alloc (chunk w);
  bo_default : 0 <= uncompressed_chunk_size w;
  bo_sized : Forall sized (held_chunks w ++ uncompressed_chunks w);
  bo_busy : match compressor_thread w with Busy b => sized b | _ => True end;
  bo_fresh : Forall (fun p => (p < next_ptr w)%nat) (map b_ptr (owned w));
  bo_nodup : NoDup (map b_ptr (owned w));
  bo_count : uncompressed_bytes w = wrap64 (Z.of_nat (length s))
}.

Definition writer_inv (w : file_writer) (s : list byte) : Prop :=
  buffers_ok w s /\ exists done ser comp, pipeline w s done ser comp.

Lemma concat_app1 {A} (l : list (list A)) x : concat (l ++ [x]) = concat l ++ x.
Proof. rewrite concat_app. simpl. by rewrite app_nil_r. Qed.

Lemma new_writer_inv size : 0 <= size -> writer_inv (new_file_writer size) [].
Proof.
  intros Hs. split.
  - split; simpl; try done; [repeat constructor; simpl; lia|apply NoDup_singleton].
  - exists [], [], []. by split.
Qed.

Lemma set_inv w s : fp w = None -> writer_inv w s -> writer_inv (set p__compression_type w) s.
Proof.
  intros Hfp [Hb (done & ser & comp & Hp)]. destruct Hp as [P1 P2 P3 P4 P5 Pn P6].
  rewrite Hfp in P2. destruct P2 as (-> & Hst & Hct). rewrite Hst in P3. simpl in P3. subst ser.
  split.
  - destruct Hb. split; simpl; auto. by rewrite Hct.
  - exists [], [], comp. split; simpl; auto; rewrite ?Hst, ?Hct; simpl; auto.
    + rewrite Hct in Pn. exact Pn.
    + rewrite Hct in P6. exact P6.
Qed.

(** *** Main thread steps *)

Lemma freeze_inv w s : writer_inv w s -> writer_inv (freeze w) s.
Proof.
  unfold freeze. destruct (holding w) eqn:Eh; [done|].
  intros [Hb (done & ser & comp & Hp)]. split; [destruct Hb; by split|].
  exists done, ser, comp. destruct Hp. by split.
Qed.

Lemma thaw_inv w s : writer_inv w s -> writer_inv (thaw w) s.
Proof.
  unfold thaw. destruct (holding w) eqn:Eh; simpl; [|done].
  intros [Hb (done & ser & comp & Hp)]. split.
  - destruct Hb as [B1 B2 B3 B4 B5 B6 B7 B8]. split; simpl; auto.
    + unfold owned in *. simpl. rewrite map_app in B6. by apply Forall_app in B6 as [_ B6].
    + unfold owned in *. simpl. rewrite map_app in B7. apply NoDup_app in B7. tauto.
  - exists done, ser, comp. destruct Hp as [P1 P2 P3 P4 P5 Pn P6]. split; auto. simpl.
    rewrite P6. unfold owned. simpl. rewrite rev_app_distr, !map_app, !concat_app. simpl.
    by rewrite app_nil_r, <- !app_assoc.
Qed.

Lemma fresh_snoc (l : list nat) n :
  Forall (fun p => (p < n)%nat) l -> NoDup l ->
  Forall (fun p => (p < Datatypes.S n)%nat) (l ++ [n]) /\ NoDup (l ++ [n]).
Proof.
  intros Hf Hn. split.
  - apply Forall_app. split; [|repeat constructor; lia]. eapply Forall_impl; [exact Hf|]. simpl. lia.
  - apply NoDup_app. split; [done|]. split; [|apply NoDup_singleton].
    intros x Hx Hin. apply list_elem_of_singleton in Hin as ->.
    rewrite Forall_forall in Hf. specialize (Hf _ Hx). simpl in Hf. lia.
Qed.

Lemma queue_chunk_spec w s :
  writer_inv w s ->
  exists w', queue_chunk p__compression_type codec heap_after w = Ok w' /\
    forall n c, 0 <= n -> c = malloc_buffer (next_ptr w') n ->
      writer_inv (with_chunk w' c (Datatypes.S (next_ptr w')) (uncompressed_bytes w')) s.
Proof.
  intros [Hb (done & ser & comp & Hp)]. unfold queue_chunk. rewrite (pl_mode _ _ _ _ _ Hp).
  pose proof Hb as [B1 B2 B3 B4 B5 B6 B7 B8]. destruct Hp as [P1 P2 P3 P4 P5 Pn P6].
  assert (Hs : sized (shrink (chunk w) (uidx w))) by done.
  destruct (holding w) eqn:Eh; (eexists; split; [reflexivity|]); intros n c Hn ->.
  - assert (Hptrs : forall w' h, owned w' = rev (shrink (chunk w) (uidx w) :: held_chunks w) ++ [h] ->
      b_ptr h = next_ptr w -> map b_ptr (owned w') = map b_ptr (owned w) ++ [next_ptr w]).
    { intros w' h -> <-. unfold owned. simpl. by rewrite !map_app. }
    split.
    + split; simpl; auto; [discriminate|unfold uidx; simpl; lia| |].
      * erewrite Hptrs; [by apply fresh_snoc|reflexivity|reflexivity].
      * erewrite Hptrs; [by apply fresh_snoc|reflexivity|reflexivity].
    + exists done, ser, comp. split; auto. simpl. rewrite P6. unfold owned. simpl.
      rewrite !map_app, !concat_app. simpl. by rewrite !app_nil_r.
  - rewrite (B1 eq_refl) in *. split.
    + split; simpl; auto; [unfold uidx; simpl; lia|apply NoDup_singleton].
    + exists done, ser, comp. split; auto. simpl. rewrite P6. unfold owned. simpl. rewrite (B1 eq_refl). simpl.
      rewrite !map_app, !concat_app, ?map_app, ?concat_app. simpl. by rewrite !app_nil_r, <- ?app_assoc.
Qed.
Abbreviation check := (check_space p__compression_type codec heap_after).
Abbreviation fput := (put p__compression_type codec heap_after).

Lemma check_space_spec w s n :
  writer_inv w s -> 0 <= n ->
  exists w', check w n = Ok w' /\ writer_inv w' s /\ uidx w' + n <= b_size (chunk w').
Proof.
  intros Hi Hn. unfold check_space. destruct (n >? b_size (chunk w) - uidx w) eqn:E; bool_to_prop.
  - unfold make_space. destruct (queue_chunk_spec w s Hi) as (w1 & -> & H1). cbn [obind].
    set (m := if n >? _ then n else _).
    assert (Hm : 0 <= n <= m) by (subst m; destruct (n >? uncompressed_chunk_size w1) eqn:E2; bool_to_prop; lia).
    eexists. split; [reflexivity|]. split; [apply (H1 m); [lia|done]|]. unfold uidx. simpl. lia.
  - exists w. split; [done|]. split; [done|]. lia.
Qed.

Lemma append_inv w s bytes :
  writer_inv w s -> uidx w + Z.of_nat (length bytes) <= b_size (chunk w) ->
  let c := chunk w in
  writer_inv (with_chunk w (Buffer (b_ptr c) (b_alloc c) (b_size c) (b_data c ++ bytes)) (next_ptr w)
                (wrap64 (uncompressed_bytes w + Z.of_nat (length bytes)))) (s ++ bytes).
Proof.
  intros [[B1 B2 B3 B4 B5 B6 B7 B8] (done & ser & comp & [P1 P2 P3 P4 P5 Pn P6])] Hfit c. subst c.
  unfold owned in *. rewrite map_app in B6, B7. split.
  - split; simpl; auto; unfold owned; simpl; rewrite ?map_app; auto.
    + unfold uidx in *. simpl. rewrite length_app. lia.
    + rewrite B8, length_app, Nat2Z.inj_add. unfold wrap64, wrap. by rewrite Zplus_mod_idemp_l.
  - exists done, ser, comp. split; auto. simpl. unfold owned. simpl. rewrite P6, !map_app, !concat_app. simpl.
    by rewrite !app_nil_r, !app_assoc.
Qed.

Lemma put_inv w s bytes :
  writer_inv w s -> exists w', fput bytes w = Ok w' /\ writer_inv w' (s ++ bytes).
Proof.
  intros Hi. unfold put.
  destruct (check_space_spec w s (Z.of_nat (length bytes)) Hi ltac:(lia)) as (w1 & -> & H1 & Hfit). cbn [obind].
  pose proof (bo_chunk _ _ (proj1 H1)) as [_ Ha].
  rewrite (proj2 (Z.leb_le _ (b_alloc (chunk w1)))) by lia. cbn [obind require].
  rewrite (proj2 (Z.leb_le _ (b_size (chunk w1)))) by lia. cbn [obind require].
  eexists. split; [reflexivity|]. by apply append_inv.
Qed.

(** *** Worker steps *)

Lemma pop_back_spec {A} (l : list A) :
  match pop_back l with
  | Some (rest, x) => l = rest ++ [x]
  | None => l = []
  end.
Proof.
  unfold pop_back. destruct (rev l) as [|x r] eqn:E.
  - by rewrite <- (rev_involutive l), E.
  - rewrite <- (rev_involutive l), E. done.
Qed.

Abbreviation cstep := (compressor_step p__compression_type codec heap_after).

Lemma sized_empty b : sized b -> (b_size b >? 0) = false -> b_data b = [].
Proof. unfold sized. intros Hs Hz. bool_to_prop. destruct (b_data b); [done|simpl in Hs; lia]. Qed.

(** the compressor takes the oldest chunk *)
Lemma compressor_pop_inv w s rest b :
  compressor_thread w = Waiting -> uncompressed_chunks w = rest ++ [b] -> writer_inv w s ->
  writer_inv (with_threads (with_queues w (holding w) (held_chunks w) rest (compressed_chunks w) (fp w) (sizes w))
    (done_feeding w) (done_compressing w) (if b_size b >? 0 then Busy b else Waiting) (serializer_thread w)) s.
Proof.
  intros Ht Hu [[B1 B2 B3 B4 B5 B6 B7 B8] (done & ser & comp & [P1 P2 P3 P4 P5 Pn P6])].
  assert (Hsb : sized b).
  { rewrite Hu, app_assoc in B4. apply Forall_app in B4 as [_ B4]. by inversion B4. }
  assert (Hrest : Forall sized (held_chunks w ++ rest)).
  { rewrite Hu, app_assoc in B4. by apply Forall_app in B4 as [B4 _]. }
  split.
  - split; simpl; auto. by destruct (b_size b >? 0).
  - exists done, ser, comp. split; simpl; auto.
    + destruct (fp w); [done|]. destruct P2 as (_&_&P2). by rewrite Ht in P2.
    + rewrite Ht in Pn. simpl in Pn. rewrite app_nil_r in Pn. rewrite !app_assoc, Forall_app, <- app_assoc.
      split; [done|]. destruct (b_size b >? 0) eqn:E; simpl; constructor; [|constructor].
      unfold sized in Hsb. bool_to_prop. destruct (b_data b); [simpl in Hsb; lia|done].
    + rewrite P6, Ht, Hu, rev_app_distr. f_equal. simpl. rewrite !concat_app. do 3 f_equal.
      destruct (b_size b >? 0) eqn:E; simpl; [by rewrite app_nil_r|]. by rewrite (sized_empty b Hsb E).
Qed.

(** the compressor hands its chunk on *)
Lemma compressor_done_inv w s b :
  compressor_thread w = Busy b -> writer_inv w s ->
  let c := encoded (b_data b) in
  forall szs, writer_inv (with_threads
    (if multithreaded_write w then
       with_queues w (holding w) (held_chunks w) (uncompressed_chunks w) (c :: compressed_chunks w) (fp w) szs
     else with_queues w (holding w) (held_chunks w) (uncompressed_chunks w) (compressed_chunks w)
            (write_chunk (fp w) c) szs)
    (done_feeding w) (done_compressing w) Waiting (serializer_thread w)) s.
Proof.
  intros Ht [[B1 B2 B3 B4 B5 B6 B7 B8] (done & ser & comp & [P1 P2 P3 P4 P5 Pn P6])] c szs.
  destruct (fp w) as [f|] eqn:Ef; [|destruct P2 as (_&_&P2); by rewrite Ht in P2].
  rewrite Ht in P6, Pn. simpl in P6, Pn.
  destruct (multithreaded_write w) eqn:Em; (split; [by split|]).
  - exists done, ser, (comp ++ [b_data b]). split; simpl; auto; [by rewrite P4, map_app, rev_app_distr|by rewrite Em| |].
    + by rewrite app_nil_r.
    + by rewrite P6, <- !app_assoc.
  - destruct (P5 eq_refl) as [-> ->]. exists (done ++ [b_data b]), [], []. split; simpl; auto.
    + by rewrite file_of_snoc, P2.
    + by rewrite app_nil_r.
    + by rewrite P6, <- !app_assoc.
Qed.

Lemma compressor_step_inv w s :
  writer_inv w s -> exists w', cstep w = Ok w' /\ writer_inv w' s.
Proof.
  intros Hi. unfold compressor_step. destruct (compressor_thread w) as [| |b|] eqn:Et; try (exists w; by split).
  - pose proof (pop_back_spec (uncompressed_chunks w)) as Hp.
    destruct (pop_back (uncompressed_chunks w)) as [[rest b]|].
    + eexists. split; [reflexivity|]. exact (compressor_pop_inv w s rest b Et Hp Hi).
    + destruct (done_feeding w) eqn:Ed; [|exists w; by split]. eexists. split; [reflexivity|].
      destruct Hi as [[B1 B2 B3 B4 B5 B6 B7 B8] (done & ser & comp & [P1 P2 P3 P4 P5 Pn P6])].
      split; [by split|]. exists done, ser, comp. rewrite Et in *. split; simpl; auto.
      destruct (fp w); [done|]. destruct P2 as (_&_&P2). done.
  - destruct (compress_ok (b_data b)) as [sz ->]. cbn [obind]. eexists. split; [reflexivity|].
    pose proof (compressor_done_inv w s b Et Hi (sizes w ++ [sz])) as Hd. cbv zeta in Hd.
    by destruct (multithreaded_write w).
Qed.

Lemma serializer_step_inv w s : writer_inv w s -> writer_inv (serializer_step w) s.
Proof.
  intros [[B1 B2 B3 B4 B5 B6 B7 B8] (done & ser & comp & [P1 P2 P3 P4 P5 Pn P6])]. unfold serializer_step.
  destruct (serializer_thread w) as [| |a|] eqn:Et; simpl in P3;
    [split; [by split|]; exists done, ser, comp; split; rewrite ?Et; auto| | |
     split; [by split|]; exists done, ser, comp; split; rewrite ?Et; auto].
  - subst ser. pose proof (pop_back_spec (compressed_chunks w)) as Hp.
    destruct (pop_back (compressed_chunks w)) as [[rest a]|].
    + split; [by split|]. rewrite P4 in Hp. destruct comp as [|d comp]; simpl in Hp; [by destruct rest|].
      apply app_inj_tail in Hp as [Hr <-]. rewrite encoded_nonempty.
      exists done, [d], comp. split; simpl; auto.
      * destruct (fp w); [done|]. by destruct P2 as (_&?&_).
      * by exists d.
      * intros E. by destruct (P5 E).
    + destruct (done_compressing w) eqn:Ed.
      * split; [by split|]. exists done, [], comp. split; simpl; auto.
        destruct (fp w); [done|]. by destruct P2 as (_&?&_).
      * split; [by split|]. exists done, [], comp. split; rewrite ?Et; auto.
        destruct (fp w); [done|]. by destruct P2 as (_&?&_).
  - destruct P3 as (d & -> & ->). destruct (fp w) as [f|] eqn:Ef; [|by destruct P2 as (_&?&_)].
    split; [by split|]. exists (done ++ [d]), [], comp. split; simpl; auto.
    + by rewrite file_of_snoc, P2.
    + intros E. by destruct (P5 E).
    + by rewrite <- app_assoc.
    + by rewrite P6, <- !app_assoc.
Qed.

(** ** Whole runs *)

Inductive event :=
  | Put (bytes : list byte)
  | Freeze
  | Thaw
  | Compressor
  | Serializer.

Definition do_event (w : file_writer) (e : event) : outcome file_writer :=
  match e with
  | Put bytes => fput bytes w
  | Freeze => Ok (freeze w)
  | Thaw => Ok (thaw w)
  | Compressor => cstep w
  | Serializer => Ok (serializer_step w)
  end.

Fixpoint run (w : file_writer) (events : list event) : outcome file_writer :=
  match events with
  | [] => Ok w
  | e :: events' => let* w := do_event w e in run w events'
  end.

Definition bytes_put (events : list event) : list byte :=
  concat (map (fun e => match e with Put bytes => bytes | _ => [] end) events).

(** before [finalize]: no worker has been told to stop *)
Definition running (w : file_writer) : Prop :=
  done_feeding w = false /\ done_compressing w = false /\
  (compressor_thread w = Waiting \/ exists b, compressor_thread w = Busy b) /\
  (serializer_thread w = Waiting \/ exists a, serializer_thread w = Busy a).

(** the control state the main thread's operations leave alone *)
Definition same_control (w w' : file_writer) : Prop :=
  done_feeding w' = done_feeding w /\ done_compressing w' = done_compressing w /\
  compressor_thread w' = compressor_thread w /\ serializer_thread w' = serializer_thread w /\
  multithreaded_compress w' = multithreaded_compress w.

Lemma running_control w w' : same_control w w' -> running w -> running w'.
Proof. unfold same_control, running. by intros (-> & -> & -> & -> & _). Qed.

Lemma queue_chunk_control w w' :
  queue_chunk p__compression_type codec heap_after w = Ok w' -> same_control w w'.
Proof.
  unfold queue_chunk. destruct (holding w); [by intros [= <-]|].
  destruct (multithreaded_compress w) eqn:Em; [by intros [= <-]; repeat split|].
  intros H. apply obind_ok_inv in H as ([c sz] & _ & H).
  destruct (multithreaded_write w); injection H as <-; repeat split; by rewrite Em.
Qed.

Lemma check_space_control w n w' : check w n = Ok w' -> same_control w w'.
Proof.
  unfold check_space, make_space. case_bool; [|by intros [= <-]]. intros H.
  apply obind_ok_inv in H as (w1 & E & H). injection H as <-. by apply queue_chunk_control in E.
Qed.

Lemma put_control bytes w w' : fput bytes w = Ok w' -> same_control w w'.
Proof.
  unfold put. intros H. apply obind_ok_inv in H as (w1 & E & H). apply check_space_control in E.
  outcome_inv. subst. exact E.
Qed.

Lemma compressor_step_running w w' : cstep w = Ok w' -> running w -> running w'.
Proof.
  unfold compressor_step, running. intros H (Hf & Hc & Ht & Hs).
  destruct (compressor_thread w) as [| |b|] eqn:Et; [by destruct Ht as [?|[? ?]]| | |by destruct Ht as [?|[? ?]]].
  - destruct (pop_back _) as [[rest b]|]; [|rewrite Hf in H; injection H as <-; rewrite Et; auto].
    injection H as <-. simpl. repeat split; auto. destruct (b_size b >? 0); eauto.
  - outcome_inv. destruct v as [c sz]. injection H as <-. simpl.
    destruct (multithreaded_write w); simpl; auto.
Qed.

Lemma serializer_step_running w : running w -> running (serializer_step w).
Proof.
  unfold serializer_step, running. intros (Hf & Hc & Ht & Hs).
  destruct (serializer_thread w) as [| |a|] eqn:Et; [by destruct Hs as [?|[? ?]]| | |by destruct Hs as [?|[? ?]]].
  - destruct (pop_back _) as [[rest a]|]; [|rewrite Hc, Et; auto].
    simpl. repeat split; auto. destruct (Nat.ltb 0 (length a)); eauto.
  - simpl. auto.
Qed.

Lemma do_event_inv w s e :
  writer_inv w s -> running w ->
  exists w', do_event w e = Ok w' /\ writer_inv w' (s ++ bytes_put [e]) /\ running w'.
Proof.
  intros Hi Hr. unfold bytes_put. destruct e as [bytes| | | |]; simpl; rewrite ?app_nil_r.
  - destruct (put_inv w s bytes Hi) as (w' & E & Hi'). exists w'. split; [done|]. split; [done|].
    eapply running_control; [by eapply put_control|done].
  - eexists. split; [done|]. split; [by apply freeze_inv|].
    unfold freeze. destruct (holding w); exact Hr.
  - eexists. split; [done|]. split; [by apply thaw_inv|]. unfold thaw. destruct (negb _); exact Hr.
  - destruct (compressor_step_inv w s Hi) as (w' & E & Hi'). exists w'. split; [done|]. split; [done|].
    by eapply compressor_step_running.
  - eexists. split; [done|]. split; [by apply serializer_step_inv|by apply serializer_step_running].
Qed.

Lemma bytes_put_cons e events : bytes_put (e :: events) = bytes_put [e] ++ bytes_put events.
Proof. unfold bytes_put. simpl. by rewrite app_nil_r. Qed.

Lemma run_inv events w s :
  writer_inv w s -> running w ->
  exists w', run w events = Ok w' /\ writer_inv w' (s ++ bytes_put events) /\ running w'.
Proof.
  revert w s; induction events as [|e events IH]; intros w s Hi Hr.
  - exists w. rewrite app_nil_r. split; [done|]. by split.
  - destruct (do_event_inv w s e Hi Hr) as (w1 & E1 & Hi1 & Hr1).
    destruct (IH w1 _ Hi1 Hr1) as (w2 & E2 & Hi2 & Hr2). exists w2. cbn [run]. rewrite E1. cbn [obind].
    split; [done|]. by rewrite bytes_put_cons, app_assoc.
Qed.

(** ** Finalizing *)

(** rounds each worker still needs before it returns *)
Definition compressor_rounds (w : file_writer) : nat :=
  match compressor_thread w with
  | Waiting => 2 * length (uncompressed_chunks w) + 1
  | Busy _ => 2 * length (uncompressed_chunks w) + 2
  | NotStarted | Exited => 0
  end.

Definition serializer_rounds (w : file_writer) : nat :=
  match serializer_thread w with
  | Waiting => 2 * length (compressed_chunks w) + 1
  | Busy _ => 2 * length (compressed_chunks w) + 2
  | NotStarted | Exited => 0
  end.

Inductive turn := CompressorTurn | SerializerTurn.

Definition is_compressor (t : turn) : bool := match t with CompressorTurn => true | SerializerTurn => false end.

(** any schedule of the workers while the main thread waits *)
Fixpoint run_workers (w : file_writer) (schedule : list turn) : outcome file_writer :=
  match schedule with
  | [] => Ok w
  | CompressorTurn :: rest => let* w := cstep w in run_workers w rest
  | SerializerTurn :: rest => run_workers (serializer_step w) rest
  end.

Definition turns (which : bool) (schedule : list turn) : nat :=
  length (List.filter (fun t => Bool.eqb (is_compressor t) which) schedule).

(** [finalize] has fed the last chunk and the main thread only waits *)
Record draining (w : file_writer) (s : list byte) : Prop := {
  dr_inv : writer_inv w s;
  dr_feeding : done_feeding w = true;
  dr_owned : concat (map b_data (owned w)) = [];
  dr_file : fp w <> None;
  dr_exit : compressor_thread w = Exited -> uncompressed_chunks w = [];
  dr_started : compressor_thread w <> NotStarted /\ serializer_thread w <> NotStarted
}.

Lemma compressor_step_draining w w' s :
  draining w s -> cstep w = Ok w' ->
  draining w' s /\ (compressor_rounds w' <= compressor_rounds w - 1)%nat /\
  done_compressing w' = done_compressing w /\ serializer_thread w' = serializer_thread w.
Proof.
  intros [D1 D2 D3 D4 D5 D6] E. destruct (compressor_step_inv w s D1) as (w1 & E1 & Hi).
  rewrite E in E1. injection E1 as <-.
  unfold compressor_step in E. destruct (compressor_thread w) as [| |b|] eqn:Et; [by destruct D6| | |].
  - pose proof (pop_back_spec (uncompressed_chunks w)) as Hp.
    destruct (pop_back (uncompressed_chunks w)) as [[rest b]|].
    + injection E as <-. split; [split; simpl; auto; [by destruct (b_size b >? 0)|split; [by destruct (b_size b >? 0)|apply D6]]|].
      split; [|done]. unfold compressor_rounds. simpl. rewrite Et, Hp, length_app. simpl.
      destruct (b_size b >? 0); lia.
    + rewrite D2 in E. injection E as <-. split; [split; simpl; auto; split; try done; apply D6|].
      split; [|done]. unfold compressor_rounds. simpl. lia.
  - apply obind_ok_inv in E as ([c sz] & _ & E). injection E as <-.
    assert (Hr : (2 * length (uncompressed_chunks w) + 1 <= compressor_rounds w - 1)%nat)
      by (unfold compressor_rounds; rewrite Et; lia).
    destruct (multithreaded_write w); (split; [split; simpl; auto; try (split; [done|apply D6]); try done|split; [exact Hr|done]]).
    by destruct (fp w).
  - injection E as <-. split; [split; auto; by rewrite Et|]. split; [|done]. unfold compressor_rounds. rewrite Et. lia.
Qed.

Lemma serializer_step_draining w s :
  draining w s ->
  draining (serializer_step w) s /\
  compressor_rounds (serializer_step w) = compressor_rounds w /\
  compressor_thread (serializer_step w) = compressor_thread w /\
  done_compressing (serializer_step w) = done_compressing w /\
  (done_compressing w = true -> (serializer_rounds (serializer_step w) <= serializer_rounds w - 1)%nat).
Proof.
  intros [D1 D2 D3 D4 D5 D6]. pose proof (serializer_step_inv w s D1) as Hi. revert Hi.
  unfold serializer_step. destruct (serializer_thread w) as [| |a|] eqn:Et; intros Hi.
  - by destruct D6.
  - pose proof (pop_back_spec (compressed_chunks w)) as Hp.
    destruct (pop_back (compressed_chunks w)) as [[rest a]|].
    + split; [split; simpl; auto; split; [apply D6|by destruct (Nat.ltb 0 (length a))]|].
      do 3 (split; [done|]). intros _. unfold serializer_rounds. simpl. rewrite Et, Hp, length_app. simpl.
      destruct (Nat.ltb 0 (length a)); lia.
    + destruct (done_compressing w) eqn:Ed.
      * split; [split; simpl; auto; split; [apply D6|done]|]. do 3 (split; [done|]).
        intros _. unfold serializer_rounds. simpl. lia.
      * split; [split; auto; rewrite Et; split; [apply D6|done]|]. do 3 (split; [done|]). done.
  - split; [split; simpl; auto; [by destruct (fp w)|split; [apply D6|done]]|].
    do 3 (split; [done|]). intros _. unfold serializer_rounds. simpl. rewrite Et. lia.
  - split; [split; auto; rewrite Et; split; [apply D6|done]|]. do 3 (split; [done|]).
    intros _. unfold serializer_rounds. rewrite Et. lia.
Qed.

Lemma run_workers_compressor schedule w s :
  draining w s -> (compressor_rounds w <= turns true schedule)%nat ->
  exists w', run_workers w schedule = Ok w' /\ draining w' s /\ compressor_thread w' = Exited.
Proof.
  revert w; induction schedule as [|[|] schedule IH]; intros w Hd Hr; cbn [run_workers].
  - exists w. split; [done|]. split; [done|]. unfold compressor_rounds, turns in Hr. simpl in Hr.
    destruct (compressor_thread w) eqn:Et; try lia; [|done]. by destruct (dr_started _ _ Hd).
  - destruct (compressor_step_inv w s (dr_inv _ _ Hd)) as (w1 & E1 & _). rewrite E1. cbn [obind].
    destruct (compressor_step_draining w w1 s Hd E1) as (Hd1 & Hr1 & _).
    apply IH; [done|]. unfold turns in *. simpl in Hr. lia.
  - destruct (serializer_step_draining w s Hd) as (Hd1 & Hr1 & _).
    apply IH; [done|]. rewrite Hr1. unfold turns in *. simpl in Hr. lia.
Qed.

Lemma cstep_exited w : compressor_thread w = Exited -> cstep w = Ok w.
Proof. unfold compressor_step. by intros ->. Qed.

Lemma run_workers_serializer schedule w s :
  draining w s -> compressor_thread w = Exited -> done_compressing w = true ->
  (serializer_thread w = Exited -> compressed_chunks w = []) ->
  (serializer_rounds w <= turns false schedule)%nat ->
  exists w', run_workers w schedule = Ok w' /\ draining w' s /\ compressor_thread w' = Exited /\
    serializer_thread w' = Exited /\ compressed_chunks w' = [].
Proof.
  revert w; induction schedule as [|[|] schedule IH]; intros w Hd He Hc Hq Hr; cbn [run_workers].
  - exists w. unfold serializer_rounds, turns in Hr. simpl in Hr.
    destruct (serializer_thread w) eqn:Et; try lia; [by destruct (dr_started _ _ Hd)|].
    do 4 (split; [done|]). by apply Hq.
  - rewrite (cstep_exited w He). cbn [obind]. apply IH; auto.
  - destruct (serializer_step_draining w s Hd) as (Hd1 & _ & Ht & Hdc & Hr1). specialize (Hr1 Hc).
    apply IH; auto; try congruence; [|unfold turns in *; simpl in Hr; lia].
    revert Hq. clear. unfold serializer_step. destruct (serializer_thread w) eqn:Et; simpl; rewrite ?Et; auto; try done.
    pose proof (pop_back_spec (compressed_chunks w)) as Hp.
    destruct (pop_back (compressed_chunks w)) as [[rest a]|]; [simpl; by destruct (Nat.ltb 0 (length a))|].
    destruct (done_compressing w); simpl; [done|]. by rewrite Et.
Qed.

Lemma finalize_begin_draining w s :
  writer_inv w s -> running w -> holding w = false -> fp w <> None ->
  exists w', finalize_begin p__compression_type codec heap_after w = Ok w' /\ draining w' s /\
    done_compressing w' = false /\ serializer_thread w' <> Exited.
Proof.
  intros Hi (R1 & R2 & R3 & R4) Hh Hf. unfold finalize_begin. destruct (fp w) as [f|] eqn:Ef; [|done].
  pose proof (bo_held _ _ (proj1 Hi) Hh) as Hheld. rewrite Hheld. cbn [length Nat.eqb obind require].
  destruct (queue_chunk_spec w s Hi) as (w1 & E1 & H1).
  unfold queue_chunk in E1. rewrite Hh in E1.
  destruct Hi as [Hb (done & ser & comp & Hp)]. rewrite (pl_mode _ _ _ _ _ Hp) in *. cbn [negb obind].
  injection E1 as <-. rewrite Hh, <- Ef. eexists. split; [reflexivity|].
  specialize (H1 (uncompressed_chunk_size w) _ (bo_default _ _ Hb) eq_refl).
  split; [|split; [done|simpl; by destruct R4 as [->|[? ->]]]].
  rewrite Hheld in H1. split; simpl.
  - destruct H1 as [[] (d' & s' & c' & [])]. by split; [split|exists d', s', c'; split].
  - done.
  - unfold owned. by simpl.
  - by rewrite Ef.
  - by destruct R3 as [->|[? ->]].
  - by destruct R3 as [->|[? ->]], R4 as [->|[? ->]].
Qed.

(** ** Delayed writes *)

Definition view (b : buffer) : nat * list byte := (b_ptr b, b_data b).

(** the [n] bytes behind pointer [ptr] are those from position [p] of the stream on *)
Definition points_to (w : file_writer) (s : list byte) (ptr : pointer) (n p : nat) : Prop :=
  exists v1 c v2, map view (owned w) = v1 ++ c :: v2 /\ c.1 = ptr.1 /\
    (ptr.2 + n <= length c.2)%nat /\
    (p + length (concat (map snd (c :: v2))) = length s + ptr.2)%nat.

Lemma owned_data w : concat (map b_data (owned w)) = concat (map snd (map view (owned w))).
Proof. by rewrite map_map. Qed.

Lemma put_owned bytes w w' :
  holding w = true -> fput bytes w = Ok w' ->
  holding w' = true /\
  ((exists l c, map view (owned w) = l ++ [c] /\ map view (owned w') = l ++ [(c.1, c.2 ++ bytes)]) \/
   (exists k, map view (owned w') = map view (owned w) ++ [(k, bytes)])).
Proof.
  intros Hh. unfold put, check_space. case_bool.
  - unfold make_space, queue_chunk. rewrite Hh. cbn [obind]. intros H. outcome_inv. subst.
    split; [done|]. right. eexists. unfold owned. simpl. by rewrite !map_app.
  - cbn [obind]. intros H. outcome_inv. subst. split; [done|]. left.
    exists (map view (rev (held_chunks w))), (view (chunk w)). unfold owned. simpl. by rewrite !map_app.
Qed.

Lemma points_to_put w s ptr n p bytes w' :
  holding w = true -> fput bytes w = Ok w' -> points_to w s ptr n p ->
  holding w' = true /\ points_to w' (s ++ bytes) ptr n p.
Proof.
  intros Hh Hput (v1 & c & v2 & Hv & Hc & Hn & Hp).
  destruct (put_owned bytes w w' Hh Hput) as [Hh' [(l & d & H1 & H2)|(k & H2)]]; (split; [done|]).
  - rewrite Hv in H1. destruct (decide (v2 = [])) as [->|Hne].
    + apply app_inj_tail in H1 as [-> ->]. exists l, (d.1, d.2 ++ bytes), []. split; [done|]. split; [done|].
      simpl in *. rewrite !app_nil_r in *. rewrite !length_app in *. lia.
    + destruct (exists_last Hne) as (v2' & e & ->).
      rewrite app_comm_cons, app_assoc in H1. apply app_inj_tail in H1 as [<- ->].
      exists v1, c, (v2' ++ [(d.1, d.2 ++ bytes)]). split; [rewrite H2, <- app_assoc; done|].
      split; [done|]. split; [done|]. simpl in *. rewrite !map_app, !concat_app in *. simpl in *.
      rewrite !app_nil_r in *. rewrite !length_app in *. lia.
  - exists v1, c, (v2 ++ [(k, bytes)]). split; [by rewrite H2, Hv, <- app_assoc|].
    split; [done|]. split; [done|]. simpl in *. rewrite map_app, concat_app in *. simpl.
    rewrite !length_app in *. simpl. rewrite ?app_nil_r. lia.
Qed.

Lemma write_value_later_spec n value w s :
  writer_inv w s ->
  exists ptr w', write_value_later p__compression_type codec heap_after n value w = Ok (ptr, w') /\
    writer_inv w' (s ++ le_encode n value) /\ holding w' = true /\
    points_to w' (s ++ le_encode n value) ptr n (length s).
Proof.
  intros Hi. unfold write_value_later.
  destruct (check_space_spec w s (Z.of_nat n) Hi ltac:(lia)) as (w1 & -> & H1 & Hfit). cbn [obind].
  pose proof (freeze_inv w1 s H1) as H2.
  assert (Hf : chunk (freeze w1) = chunk w1 /\ holding (freeze w1) = true).
  { unfold freeze. destruct (holding w1) eqn:E; [done|]. by simpl. }
  destruct Hf as [Hfc Hfh]. destruct (put_inv (freeze w1) s (le_encode n value) H2) as (w2 & E2 & H3).
  rewrite E2. cbn [obind]. eexists _, _. split; [reflexivity|]. split; [done|].
  destruct (put_owned _ _ _ Hfh E2) as [Hh Hv]. split; [done|].
  assert (Hlast : exists l, map view (owned w2) = l ++ [(b_ptr (chunk w1), b_data (chunk w1) ++ le_encode n value)]).
  { revert E2. unfold put, check_space. rewrite length_le_encode.
    assert (Hno : (Z.of_nat n >? b_size (chunk (freeze w1)) - uidx (freeze w1)) = false).
    { unfold uidx in *. rewrite Hfc. rewrite Z.gtb_ltb. apply Z.ltb_ge. lia. }
    rewrite Hno. cbn [obind]. intros E2. outcome_inv. subst. exists (map view (rev (held_chunks (freeze w1)))).
    unfold owned. simpl. rewrite map_app, Hfc. done. }
  destruct Hlast as [l Hl]. exists l, (b_ptr (chunk w1), b_data (chunk w1) ++ le_encode n value), [].
  rewrite Hfc. split; [done|]. split; [done|]. simpl. rewrite app_nil_r, !length_app, length_le_encode.
  split; [lia|]. destruct H1 as [_ (d & se & co & Hp)]. rewrite (pl_stream _ _ _ _ _ Hp).
  unfold owned. rewrite map_app, !concat_app, !length_app. simpl. rewrite app_nil_r. lia.
Qed.

(** while chunks are held, a delayed write is a plain one that returns a pointer *)
Lemma later_put n value w s ptr w' :
  writer_inv w s -> holding w = true ->
  write_value_later p__compression_type codec heap_after n value w = Ok (ptr, w') -> fput (le_encode n value) w = Ok w'.
Proof.
  intros Hi Hh. unfold write_value_later.
  destruct (check_space_spec w s (Z.of_nat n) Hi ltac:(lia)) as (w1 & E1 & _ & Hfit). rewrite E1. cbn [obind].
  assert (Hh1 : holding w1 = true).
  { revert E1. unfold check_space. case_bool; [|by intros [= <-]]. unfold make_space, queue_chunk. rewrite Hh.
    cbn [obind]. intros E1. outcome_inv. subst. done. }
  assert (Hf : freeze w1 = w1) by (unfold freeze; by rewrite Hh1). rewrite Hf. unfold put. rewrite length_le_encode, E1.
  assert (E2 : check_space p__compression_type codec heap_after w1 (Z.of_nat n) = Ok w1).
  { unfold check_space. rewrite Z.gtb_ltb, (proj2 (Z.ltb_ge _ _)); [done|lia]. }
  rewrite E2. cbn [obind]. intros E. apply obind_ok_inv in E as (w2 & E & E3). injection E3 as <- <-. exact E.
Qed.

Lemma points_to_later n value w s ptr w' q m p :
  writer_inv w s -> holding w = true ->
  write_value_later p__compression_type codec heap_after n value w = Ok (ptr, w') ->
  points_to w s q m p -> points_to w' (s ++ le_encode n value) q m p.
Proof. intros Hi Hh E. exact (fun Hp => proj2 (points_to_put w s q m p _ w' Hh (later_put _ _ _ _ _ _ Hi Hh E) Hp)). Qed.

Lemma memcpy_inside (a b c bytes : list byte) off :
  (off + length bytes <= length b)%nat ->
  memcpy (a ++ b ++ c) (length a + off) bytes = a ++ memcpy b off bytes ++ c.
Proof.
  intros Hl. apply list_eq. intros i. rewrite memcpy_lookup by (rewrite !length_app; lia).
  destruct (decide (i < length a)%nat) as [Hi|Hi].
  { rewrite decide_False by lia. by rewrite !lookup_app_l by lia. }
  rewrite !(lookup_app_r a) by lia. set (j := (i - length a)%nat).
  destruct (decide (j < length b)%nat) as [Hj|Hj].
  - rewrite !lookup_app_l by (rewrite ?length_memcpy; lia). rewrite memcpy_lookup by lia.
    destruct (decide (off <= j < off + length bytes)%nat).
    + rewrite decide_True by lia. f_equal. lia.
    + rewrite decide_False by lia. done.
  - rewrite decide_False by lia. rewrite !lookup_app_r by (rewrite ?length_memcpy; lia).
    by rewrite length_memcpy by lia.
Qed.

Lemma poke_others ptr bytes bs : ~ In ptr.1 (map b_ptr bs) -> map (poke_buffer ptr bytes) bs = bs.
Proof.
  induction bs as [|b bs IH]; simpl; [done|]. intros Hn. unfold poke_buffer at 1.
  rewrite (proj2 (Nat.eqb_neq _ _)) by (intros E; apply Hn; by left).
  f_equal. apply IH. intros Hi. apply Hn. by right.
Qed.

Lemma poke_owned ptr bytes w w' :
  store ptr bytes w = Ok w' -> owned w' = map (poke_buffer ptr bytes) (owned w).
Proof.
  unfold store. intros H. outcome_inv. subst. unfold owned. simpl. by rewrite map_app, map_rev.
Qed.

Lemma poke_one ptr bytes l1 b l2 :
  NoDup (map b_ptr (l1 ++ b :: l2)) -> b_ptr b = ptr.1 ->
  map (poke_buffer ptr bytes) (l1 ++ b :: l2) = l1 ++ poke_buffer ptr bytes b :: l2.
Proof.
  intros Hnd Hb. rewrite map_app in *. simpl in *. rewrite Hb in Hnd.
  apply NoDup_app in Hnd as (_ & Hd & Hnd). apply NoDup_cons in Hnd as [Hnin _].
  rewrite !poke_others; [done| |].
  - intros Hin. by apply Hnin, list_elem_of_In.
  - intros Hin. apply (Hd ptr.1); [by apply list_elem_of_In|]. by left.
Qed.

Lemma sized_poke ptr bytes b :
  (b_ptr b = ptr.1 -> (ptr.2 + length bytes <= length (b_data b))%nat) -> sized b -> sized (poke_buffer ptr bytes b).
Proof.
  unfold sized, poke_buffer. intros Hf Hs. destruct (Nat.eqb_spec (b_ptr b) ptr.1); [|done].
  simpl. rewrite length_memcpy by auto. done.
Qed.

Lemma poke_same ptr bytes b : b_ptr (poke_buffer ptr bytes b) = b_ptr b /\
  b_size (poke_buffer ptr bytes b) = b_size b /\ b_alloc (poke_buffer ptr bytes b) = b_alloc b.
Proof. unfold poke_buffer. by destruct (Nat.eqb _ _). Qed.

Lemma length_poke ptr bytes b :
  (b_ptr b = ptr.1 -> (ptr.2 + length bytes <= length (b_data b))%nat) ->
  length (b_data (poke_buffer ptr bytes b)) = length (b_data b).
Proof.
  unfold poke_buffer. intros Hf. destruct (Nat.eqb_spec (b_ptr b) ptr.1); [|done].
  simpl. by rewrite length_memcpy by auto.
Qed.

(** the buffer a pointer of the main thread points into *)
Lemma points_to_buffer w s ptr n p :
  buffers_ok w s -> points_to w s ptr n p ->
  exists l1 b l2, owned w = l1 ++ b :: l2 /\ b_ptr b = ptr.1 /\
    (p + length (concat (map b_data (b :: l2))) = length s + ptr.2)%nat /\
    forall b', In b' (owned w) -> b_ptr b' = ptr.1 -> (ptr.2 + n <= length (b_data b'))%nat.
Proof.
  intros Hb (v1 & c & v2 & Hv & Hc & Hn & Hp). pose proof (bo_nodup _ _ Hb) as Hnd.
  apply map_eq_app in Hv as (l1 & l2' & Ho & <- & Hv). destruct l2' as [|b l2]; [done|].
  simpl in Hv. injection Hv as <- <-. simpl in Hc, Hn. exists l1, b, l2. split; [done|]. split; [done|].
  split; [by change (view b :: map view l2) with (map view (b :: l2)) in Hp; rewrite map_map in Hp|].
  intros b' Hin Hb'. rewrite Ho in Hin, Hnd. assert (b' = b) as ->; [|lia].
  rewrite map_app in Hnd. simpl in Hnd. apply NoDup_app in Hnd as (_ & Hd & Hnd). apply NoDup_cons in Hnd as [Hnin _].
  apply in_app_or in Hin as [Hin|[->|Hin]]; [exfalso|done|exfalso].
  - apply (Hd (b_ptr b)); [|by left]. apply list_elem_of_In, in_map_iff. exists b'. split; [congruence|done].
  - apply Hnin, list_elem_of_In, in_map_iff. exists b'. split; [congruence|done].
Qed.

Lemma store_ok ptr bytes w b :
  In b (owned w) -> b_ptr b = ptr.1 -> (ptr.2 + length bytes <= length (b_data b))%nat ->
  exists w', store ptr bytes w = Ok w'.
Proof.
  intros Hin Hb Hl. unfold store.
  assert (Hex : existsb (fun b => Nat.eqb (b_ptr b) ptr.1 && Nat.leb (ptr.2 + length bytes) (length (b_data b)))
    (chunk w :: held_chunks w) = true); [|rewrite Hex; eexists; reflexivity].
  apply existsb_exists. exists b. split.
  - unfold owned in Hin. apply in_app_or in Hin as [Hin|[<-|[]]]; [right; by apply in_rev|by left].
  - apply andb_true_iff. split; [by apply Nat.eqb_eq|by apply Nat.leb_le].
Qed.

Lemma store_buffers ptr bytes w w' s :
  store ptr bytes w = Ok w' -> buffers_ok w s ->
  (forall b', In b' (owned w) -> b_ptr b' = ptr.1 -> (ptr.2 + length bytes <= length (b_data b'))%nat) ->
  forall s', length s' = length s -> buffers_ok w' s'.
Proof.
  intros E [B1 B2 B3 B4 B5 B6 B7 B8] Hfit s' Hlen. pose proof (poke_owned _ _ _ _ E) as Hpo.
  unfold store in E. apply obind_ok_inv in E as (u & _ & E). injection E as <-.
  assert (Hptrs : map b_ptr (map (poke_buffer ptr bytes) (owned w)) = map b_ptr (owned w)).
  { rewrite map_map. apply map_ext. intros b. apply poke_same. }
  assert (Hin : forall b, In b (held_chunks w) \/ b = chunk w -> In b (owned w)).
  { intros b [Hb| ->]; unfold owned; apply in_or_app; [left; by apply in_rev in Hb|right; by left]. }
  split; try done.
  - simpl. intros Hh. by rewrite (B1 Hh).
  - unfold uidx in *. simpl. destruct (poke_same ptr bytes (chunk w)) as (_ & -> & ->).
    rewrite length_poke by (intros; apply Hfit; auto). done.
  - simpl. apply Forall_app in B4 as [B4a B4b]. apply Forall_app. split; [|done].
    apply List.Forall_forall. intros b Hb. apply in_map_iff in Hb as (b0 & <- & Hb0).
    apply sized_poke; [intros; apply Hfit; auto|]. by apply (proj1 (List.Forall_forall _ _) B4a).
  - by rewrite Hpo, Hptrs.
  - by rewrite Hpo, Hptrs.
  - simpl. by rewrite Hlen.
Qed.

Lemma store_spec ptr bytes w s p :
  writer_inv w s -> points_to w s ptr (length bytes) p ->
  exists w', store ptr bytes w = Ok w' /\ writer_inv w' (memcpy s p bytes).
Proof.
  intros [Hb (done & ser & comp & [P1 P2 P3 P4 P5 Pn P6])] Hpt.
  destruct (points_to_buffer w s ptr _ p Hb Hpt) as (l1 & b & l2 & Ho & Hc & Hp & Hfit).
  assert (Hin : In b (owned w)) by (rewrite Ho; apply in_or_app; right; by left).
  destruct (store_ok ptr bytes w b Hin Hc (Hfit b Hin Hc)) as [w' E]. exists w'. split; [exact E|].
  pose proof (poke_owned _ _ _ _ E) as Hpo. pose proof (bo_nodup _ _ Hb) as B7. rewrite Ho in B7.
  rewrite Ho, (poke_one ptr bytes l1 b l2 B7 Hc) in Hpo.
  set (X := concat (done ++ _)) in P6.
  assert (Hs : memcpy s p bytes = X ++ concat (map b_data (owned w'))).
  { assert (Hsplit : s = (X ++ concat (map b_data l1)) ++ b_data b ++ concat (map b_data l2))
      by (rewrite P6, Ho, map_app, concat_app; simpl; by rewrite app_assoc).
    rewrite Hpo, map_app, concat_app. simpl. unfold poke_buffer. rewrite (proj2 (Nat.eqb_eq _ _) Hc). simpl.
    simpl in Hp. rewrite length_app in Hp. rewrite Hsplit in Hp |- *. rewrite !length_app in Hp.
    replace p with (length (X ++ concat (map b_data l1)) + ptr.2)%nat by (rewrite length_app; lia).
    rewrite memcpy_inside by (apply Hfit; done). by rewrite <- !app_assoc. }
  split.
  - apply (store_buffers ptr bytes w w' s E Hb Hfit). apply length_memcpy. simpl in Hp. rewrite length_app in Hp.
    pose proof (Hfit b Hin Hc). lia.
  - exists done, ser, comp. unfold store in E. apply obind_ok_inv in E as (u & _ & E). injection E as <-. by split.
Qed.

(** a store moves nothing *)
Lemma points_to_store ptr bytes w s w' p q m i :
  writer_inv w s -> store ptr bytes w = Ok w' -> points_to w s ptr (length bytes) p -> points_to w s q m i ->
  holding w' = holding w /\ points_to w' (memcpy s p bytes) q m i.
Proof.
  intros [Hb _] E Hp (v1 & c & v2 & Hv & Hc & Hm & Hi).
  destruct (points_to_buffer w s ptr _ p Hb Hp) as (l1 & b & l2 & Ho & Hbp & Hlen & Hfit).
  pose proof (poke_owned _ _ _ _ E) as Hpo.
  assert (Hin : In b (owned w)) by (rewrite Ho; apply in_or_app; right; by left).
  assert (Hs : length (memcpy s p bytes) = length s).
  { apply length_memcpy. cbn [map concat] in Hlen. rewrite length_app in Hlen. pose proof (Hfit b Hin Hbp). lia. }
  split; [unfold store in E; apply obind_ok_inv in E as (u & _ & E); by injection E as <-|].
  set (f := fun c : nat * list byte => (c.1, if Nat.eqb c.1 ptr.1 then memcpy c.2 ptr.2 bytes else c.2)).
  assert (Hf : map view (owned w') = map f (map view (owned w))).
  { rewrite Hpo, !map_map. apply map_ext. intros x. unfold f, view, poke_buffer. simpl.
    by destruct (Nat.eqb (b_ptr x) ptr.1). }
  assert (Hl : forall x, In x (map view (owned w)) -> length (f x).2 = length x.2).
  { intros x (b' & <- & Hb')%in_map_iff. unfold f. simpl. destruct (Nat.eqb_spec (b_ptr b') ptr.1) as [He|]; [|done].
    apply length_memcpy. exact (Hfit b' Hb' He). }
  exists (map f v1), (f c), (map f v2). rewrite Hf, Hv, map_app. split; [done|]. split; [done|].
  assert (Hlc : forall l, incl l (map view (owned w)) -> length (concat (map snd (map f l))) = length (concat (map snd l))).
  { induction l as [|x l IH]; intros Hincl; [done|]. cbn [map concat]. rewrite !length_app.
    rewrite IH by (intros y Hy; apply Hincl; by right). rewrite Hl by (apply Hincl; by left). done. }
  change (f c :: map f v2) with (map f (c :: v2)).
  rewrite (Hl c) by (rewrite Hv; apply in_or_app; right; by left). split; [done|].
  rewrite Hlc, Hs; [done|]. intros y Hy. rewrite Hv. apply in_or_app. by right.
Qed.

(** a serializer not yet told to stop does not return *)
Definition alive (w : file_writer) : Prop := done_compressing w = false /\ serializer_thread w <> Exited.

Lemma compressor_step_alive w w' : cstep w = Ok w' -> alive w -> alive w'.
Proof.
  unfold compressor_step, alive. destruct (compressor_thread w); [by intros [= <-]| | |by intros [= <-]].
  - destruct (pop_back _) as [[r b]|]; [by intros [= <-]|]. by destruct (done_feeding w); intros [= <-].
  - intros E. apply obind_ok_inv in E as ([c sz] & _ & E). injection E as <-. simpl. by destruct (multithreaded_write w).
Qed.

Lemma serializer_step_alive w : alive w -> alive (serializer_step w).
Proof.
  unfold serializer_step, alive. intros [Hd Hs]. destruct (serializer_thread w) eqn:Et; [by rewrite Et| | |done].
  - destruct (pop_back (compressed_chunks w)) as [[r a]|]; [|by rewrite Hd, Et].
    simpl. by destruct (Nat.ltb 0 (length a)).
  - done.
Qed.

Lemma run_workers_alive schedule w w' : run_workers w schedule = Ok w' -> alive w -> alive w'.
Proof.
  revert w; induction schedule as [|[|] schedule IH]; intros w H Ha; cbn [run_workers] in H.
  - by injection H as <-.
  - apply obind_ok_inv in H as (w1 & E & H). eapply IH; [exact H|]. by eapply compressor_step_alive.
  - eapply IH; [exact H|]. by apply serializer_step_alive.
Qed.

Lemma finalize_close_file w s :
  draining w s -> compressor_thread w = Exited -> serializer_thread w = Exited -> compressed_chunks w = [] ->
  exists chunks w', finalize_close w = Ok (file_of chunks, w') /\ concat chunks = s /\
    Forall (fun d => d <> []) chunks.
Proof.
  intros [[_ (done & ser & comp & [P1 P2 P3 P4 P5 Pn P6])] D2 D3 D4 D5 D6] Hc Hs Hq.
  unfold finalize_close. rewrite (D5 Hc), Hq in *. rewrite Hs in P3. rewrite Hc in P6. simpl in P3. subst ser.
  destruct comp as [|d comp]; [|simpl in P4; by destruct (rev (map encoded comp))].
  destruct (fp w) as [f|]; [|done]. cbn [length Nat.eqb obind require]. subst f.
  rewrite Hc in Pn. simpl in Pn. rewrite app_nil_r in Pn.
  exists done. eexists. split; [reflexivity|]. split; [|done]. rewrite P6, D3. simpl. by rewrite !app_nil_r.
Qed.

(** ** The writer as a sink of bytes, its stream kept alongside *)

Definition logged : Type := (file_writer * list byte)%type.

Definition logged_emit (bytes : list byte) (l : logged) : outcome logged :=
  let* w := fput bytes l.1 in Ok (w, l.2 ++ bytes).

Lemma logged_emit_law bytes (l : logged) :
  writer_inv l.1 l.2 ->
  exists l', logged_emit bytes l = Ok l' /\ writer_inv l'.1 l'.2 /\ l'.2 = l.2 ++ bytes.
Proof.
  intros Hi. destruct (put_inv l.1 l.2 bytes Hi) as (w' & E & Hi'). exists (w', l.2 ++ bytes).
  unfold logged_emit. by rewrite E.
Qed.

Definition writer_sink : ByteSink logged := {|
  sink_ok := fun l => writer_inv l.1 l.2;
  written := snd;
  emit := logged_emit;
  emit_law := fun bytes l Hi _ => logged_emit_law bytes l Hi
|}.
End Pipeline.

(** ** Properties *)

Lemma set_new_running t size : running (set t (new_file_writer size)).
Proof. repeat split; by left. Qed.

Lemma running_fp t codec heap_after w s : running w -> writer_inv t codec heap_after w s -> fp w <> None.
Proof.
  intros (_ & _ & Hc & _) [_ (d & se & co & Hp)]. pose proof (pl_file _ _ _ _ _ _ _ _ Hp) as Hf.
  intros E. rewrite E in Hf. destruct Hf as (_ & _ & Hn). by destruct Hc as [Hc|[b Hc]]; rewrite Hn in Hc.
Qed.

(** what the interleaved run and the two joins leave in the file *)
Lemma writer_run_file (t : lavatube_compression_type) (codec : list byte -> option (list byte))
    (heap_after : list byte) (size : Z) (events : list event)
    (codec_total : forall d, exists z, codec d = Some z) (Hsize : 0 <= size) :
  exists w1, run t codec heap_after (set t (new_file_writer size)) events = Ok w1 /\
    (holding w1 = false ->
     exists w2, finalize_begin t codec heap_after w1 = Ok w2 /\
     forall schedule1, (compressor_rounds w2 <= turns true schedule1)%nat ->
     exists w3, run_workers t codec heap_after w2 schedule1 = Ok w3 /\ compressor_thread w3 = Exited /\
     forall schedule2, (serializer_rounds w3 <= turns false schedule2)%nat ->
     exists w4 chunks w5, run_workers t codec heap_after (finalize_compressed w3) schedule2 = Ok w4 /\
       serializer_thread w4 = Exited /\
       finalize_close w4 = Ok (file_of t codec heap_after chunks, w5) /\
       concat chunks = bytes_put events /\ Forall (fun d => d <> []) chunks).
Proof.
  pose proof (set_new_running t size) as Hr.
  pose proof (set_inv t codec heap_after (new_file_writer size) [] eq_refl (new_writer_inv t codec heap_after size Hsize)) as Hi.
  destruct (run_inv t codec heap_after codec_total events _ [] Hi Hr) as (w1 & E1 & Hi1 & Hr1).
  exists w1. split; [done|]. intros Hh.
  destruct (finalize_begin_draining t codec heap_after w1 _ Hi1 Hr1 Hh (running_fp _ _ _ _ _ Hr1 Hi1))
    as (w2 & E2 & Hd2 & Hdc2 & Hs2).
  exists w2. split; [done|]. intros schedule1 H1.
  destruct (run_workers_compressor t codec heap_after codec_total schedule1 w2 _ Hd2 H1) as (w3 & E3 & Hd3 & He3).
  exists w3. split; [done|]. split; [done|]. intros schedule2 H2.
  destruct (run_workers_alive t codec heap_after schedule1 w2 w3 E3 (conj Hdc2 Hs2)) as [_ Hs3].
  destruct (run_workers_serializer t codec heap_after codec_total schedule2 (finalize_compressed w3) ([] ++ bytes_put events))
    as (w4 & E4 & Hd4 & He4 & Hse4 & Hq4); auto.
  { destruct Hd3 as [[Hb (d & se & co & Hp)] D2 D3 D4 D5 D6].
    split; auto. split; [destruct Hb; by split|]. exists d, se, co. destruct Hp. by split. }
  { done. }
  destruct (finalize_close_file t codec heap_after w4 _ Hd4 He4 Hse4 Hq4) as (chunks & w5 & E5 & Hc).
  by exists w4, chunks, w5.
Qed.

(** C7: whatever the interleaving of the main thread with the compressor and the
    serializer, in the default mode the writer never fails, [finalize] ends as
    soon as each worker was given enough rounds, and the closed file is the file
    header followed by the encoded chunks whose contents, in file order, are
    exactly the bytes written, in the order they were written. *)
Theorem writer_file_in_order (t : lavatube_compression_type) (codec : list byte -> option (list byte))
    (heap_after : list byte) (size : Z) (events : list event)
    (codec_total : forall d, exists z, codec d = Some z) (Hsize : 0 <= size) :
  exists w1, run t codec heap_after (set t (new_file_writer size)) events = Ok w1 /\
    (holding w1 = false ->
     exists w2, finalize_begin t codec heap_after w1 = Ok w2 /\
     forall schedule1, (compressor_rounds w2 <= turns true schedule1)%nat ->
     exists w3, run_workers t codec heap_after w2 schedule1 = Ok w3 /\ compressor_thread w3 = Exited /\
     forall schedule2, (serializer_rounds w3 <= turns false schedule2)%nat ->
     exists w4 chunks w5, run_workers t codec heap_after (finalize_compressed w3) schedule2 = Ok w4 /\
       serializer_thread w4 = Exited /\
       finalize_close w4 = Ok (file_of t codec heap_after chunks, w5) /\
       concat chunks = bytes_put events).
Proof.
  destruct (writer_run_file t codec heap_after size events codec_total Hsize) as (w1 & E1 & H1).
  exists w1. split; [done|]. intros Hh. destruct (H1 Hh) as (w2 & E2 & H2). exists w2. split; [done|].
  intros sch1 Hs1. destruct (H2 sch1 Hs1) as (w3 & E3 & He3 & H3). exists w3. split; [done|]. split; [done|].
  intros sch2 Hs2. destruct (H3 sch2 Hs2) as (w4 & chunks & w5 & E4 & He4 & E5 & Hc & _).
  by exists w4, chunks, w5.
Qed.

Definition demo_codec (d : list byte) : option (list byte) := Some (rev d).

Lemma demo_codec_total d : exists z, demo_codec d = Some z.
Proof. by exists (rev d). Qed.

Definition demo_events : list event :=
  [Put [x01; x02; x03]; Put [x04; x05]; Compressor; Freeze; Put [x06; x07; x08]; Put [x09]; Compressor; Thaw;
   Serializer; Put [x0a]].

Lemma writer_file_in_order_witness :
  exists w1, run LAVATUBE_COMPRESSION_LZ4 demo_codec [] (set LAVATUBE_COMPRESSION_LZ4 (new_file_writer 4)) demo_events = Ok w1 /\
    (holding w1 = false ->
     exists w2, finalize_begin LAVATUBE_COMPRESSION_LZ4 demo_codec [] w1 = Ok w2 /\
     forall schedule1, (compressor_rounds w2 <= turns true schedule1)%nat ->
     exists w3, run_workers LAVATUBE_COMPRESSION_LZ4 demo_codec [] w2 schedule1 = Ok w3 /\ compressor_thread w3 = Exited /\
     forall schedule2, (serializer_rounds w3 <= turns false schedule2)%nat ->
     exists w4 chunks w5, run_workers LAVATUBE_COMPRESSION_LZ4 demo_codec [] (finalize_compressed w3) schedule2 = Ok w4 /\
       serializer_thread w4 = Exited /\
       finalize_close w4 = Ok (file_of LAVATUBE_COMPRESSION_LZ4 demo_codec [] chunks, w5) /\
       concat chunks = bytes_put demo_events).
Proof. apply writer_file_in_order; [exact demo_codec_total|lia]. Defined.

Definition not_thaw (e : event) : Prop := match e with Thaw => False | _ => True end.

Lemma run_keeps_pointer t codec heap events : forall w w' s ptr n p,
  Forall not_thaw events -> holding w = true -> run t codec heap w events = Ok w' ->
  points_to w s ptr n p -> points_to w' (s ++ bytes_put events) ptr n p.
Proof.
  induction events as [|e events IH]; intros w w' s ptr n p Hn Hh H Hp; cbn [run] in H.
  { injection H as <-. unfold bytes_put. simpl. by rewrite app_nil_r. }
  apply obind_ok_inv in H as (w1 & E & H). inversion Hn as [|? ? He Hn']; subst.
  assert (Hkeep : holding w1 = true /\ points_to w1 (s ++ bytes_put [e]) ptr n p).
  { unfold bytes_put. destruct e as [bytes| | | |]; simpl; rewrite ?app_nil_r; cbn [do_event] in E; [|injection E as <-|done| |injection E as <-].
    - by apply (points_to_put t codec heap w).
    - unfold freeze. rewrite Hh. done.
    - assert (Hsame : holding w1 = holding w /\ owned w1 = owned w).
      { revert E. unfold compressor_step. destruct (compressor_thread w); [by intros [= <-]| | |by intros [= <-]].
        - destruct (pop_back _) as [[r b]|]; [by intros [= <-]|]. by destruct (done_feeding w); intros [= <-].
        - intros E. apply obind_ok_inv in E as ([c sz] & _ & E). injection E as <-. simpl. by destruct (multithreaded_write w). }
      unfold points_to. by destruct Hsame as [-> ->].
    - assert (Hsame : holding (serializer_step w) = holding w /\ owned (serializer_step w) = owned w).
      { unfold serializer_step. destruct (serializer_thread w); try done.
        destruct (pop_back _) as [[r b]|]; [done|]. by destruct (done_compressing w). }
      unfold points_to. by destruct Hsame as [-> ->]. }
  destruct Hkeep as [Hh1 Hp1]. rewrite bytes_put_cons, app_assoc. by apply (IH w1).
Qed.

(** A value written with [write_value_later] can be overwritten through the
    returned pointer as long as the writer stays frozen, whatever was written
    since and whatever the workers did: the stream is then the one in which the
    final value had been written in the first place. *)
Theorem delayed_write (t : lavatube_compression_type) (codec : list byte -> option (list byte))
    (heap_after : list byte) (w : file_writer) (s : list byte) (n : nat) (value value' : Z) (events : list event)
    (codec_total : forall d, exists z, codec d = Some z)
    (Hi : writer_inv t codec heap_after w s) (Hr : running w) (Hn : Forall not_thaw events) :
  exists ptr w1 w2 w3,
    write_value_later t codec heap_after n value w = Ok (ptr, w1) /\
    run t codec heap_after w1 events = Ok w2 /\
    store ptr (le_encode n value') w2 = Ok w3 /\
    writer_inv t codec heap_after w3 (s ++ le_encode n value' ++ bytes_put events).
Proof.
  destruct (write_value_later_spec t codec heap_after n value w s Hi) as (ptr & w1 & E1 & Hi1 & Hh1 & Hp1).
  assert (Hr1 : running w1).
  { unfold write_value_later in E1. apply obind_ok_inv in E1 as (wa & Ea & E1). apply obind_ok_inv in E1 as (wb & Eb & E1).
    injection E1 as <- <-. eapply running_control; [by eapply put_control|].
    apply check_space_control in Ea. pose proof (running_control _ _ Ea Hr) as Hra.
    unfold freeze. destruct (holding wa); exact Hra. }
  destruct (run_inv t codec heap_after codec_total events w1 _ Hi1 Hr1) as (w2 & E2 & Hi2 & _).
  pose proof (run_keeps_pointer t codec heap_after events w1 w2 _ ptr n (length s) Hn Hh1 E2 Hp1) as Hp2.
  assert (Hp3 : points_to w2 ((s ++ le_encode n value) ++ bytes_put events) ptr (length (le_encode n value')) (length s))
    by (rewrite length_le_encode; exact Hp2).
  destruct (store_spec t codec heap_after ptr (le_encode n value') w2 _ _ Hi2 Hp3) as (w3 & E3 & Hi3).
  exists ptr, w1, w2, w3. split; [done|]. split; [done|]. split; [done|].
  rewrite <- app_assoc, memcpy_app in Hi3 by (by rewrite !length_le_encode). exact Hi3.
Qed.

Lemma delayed_write_witness :
  exists ptr w1 w2 w3,
    write_value_later LAVATUBE_COMPRESSION_LZ4 demo_codec [] 4 0 (set LAVATUBE_COMPRESSION_LZ4 (new_file_writer 6)) = Ok (ptr, w1) /\
    run LAVATUBE_COMPRESSION_LZ4 demo_codec [] w1 [Put [x01; x02; x03]; Compressor; Put [x04]] = Ok w2 /\
    store ptr (le_encode 4 77) w2 = Ok w3 /\
    writer_inv LAVATUBE_COMPRESSION_LZ4 demo_codec [] w3
      ([] ++ le_encode 4 77 ++ bytes_put [Put [x01; x02; x03]; Compressor; Put [x04]]).
Proof.
  apply delayed_write; [exact demo_codec_total| |apply set_new_running|repeat constructor].
  apply set_inv; [reflexivity|]. apply new_writer_inv. lia.
Defined.

(** With multi-threaded compression disabled, [thaw] still feeds the compressor
    thread while [finalize] compresses the last chunk itself: the last chunk can
    reach the file before chunks written earlier. *)
Theorem disabled_compress_reorders :
  (let* w := disable_multithreaded_compress (new_file_writer 2) in
   let* w := run LAVATUBE_COMPRESSION_LZ4 demo_codec [] (set LAVATUBE_COMPRESSION_LZ4 w)
               [Freeze; Put [x01; x02]; Put [x03]; Thaw] in
   let* w := finalize_begin LAVATUBE_COMPRESSION_LZ4 demo_codec [] w in
   let* w := run_workers LAVATUBE_COMPRESSION_LZ4 demo_codec [] w
               [SerializerTurn; SerializerTurn; CompressorTurn; CompressorTurn; CompressorTurn] in
   let* w := run_workers LAVATUBE_COMPRESSION_LZ4 demo_codec [] (finalize_compressed w)
               [SerializerTurn; SerializerTurn; SerializerTurn] in
   let* (file, _) := finalize_close w in Ok file) =
  Ok (file_of LAVATUBE_COMPRESSION_LZ4 demo_codec [] [[x03]; [x01; x02]]).
Proof. vm_compute. reflexivity. Qed.

(** Without compression the header counts itself as payload and the buffer handed
    to the serializer is 16 bytes longer than the memory allocated for it. *)
Theorem uncompressed_chunk_overrun (codec : list byte -> option (list byte)) (data heap_after : list byte)
    (Hheap : length heap_after = 16%nat) :
  exists c, compress_chunk LAVATUBE_COMPRESSION_UNCOMPRESSED codec heap_after data =
              Ok (c, (Z.of_nat (length data) + 16, Z.of_nat (length data))) /\
            length c = (16 + length data + 16)%nat.
Proof.
  eexists. split; [reflexivity|]. rewrite !length_app, !length_le_encode, Hheap. lia.
Qed.

(** Growing the default chunk size stretches the current chunk past its
    allocation, and the next write runs over its end. *)
Theorem change_default_chunk_size_overflows :
  exists w, change_default_chunk_size (new_file_writer 4) 8 = Ok w /\
    put LAVATUBE_COMPRESSION_LZ4 demo_codec [] [x01; x02; x03; x04; x05] w = Fail OutOfRange.
Proof. eexists. split; [reflexivity|]. reflexivity. Qed.
