(* ===== verification/FileReader.v ===== *)
(** * The trace file reader (src/filereader.h, src/filereader.cpp)

    A [file_reader] decompresses the chunks of one packet stream in order into
    one large anonymous mapping, either ahead of the replaying thread in a
    decompressor thread or on demand, and hands out values from it. Consumed
    pages are given back to the system behind a checkpoint. A reader can also sit
    on a fixed, uncompressed buffer. The decompressor of the compression library
    is a parameter; [debug] says whether assertions that a finished trace can
    trip are compiled in. Positions are offsets into the uncompressed stream. *)

From Stdlib Require Import ZArith Lia Bool.
From Stdlib.Strings Require Import Byte.
From stdpp Require Import base numbers list.
From S2P Require Import Prelude Stream Patch FileWriter.

#[local] Open Scope Z_scope.

Record file_reader := FileReader {
  multithreaded_read : bool;
  fixed_buffer : bool;
  done_decompressing : bool;
  preload_activated : bool;
  uncompressed_data : list byte;   (** everything up to [write_position] *)
  total_uncompressed : Z;
  uncompressed_wanted : Z;
  read_position : Z;
  checkpoint_position : Z;
  freed_position : Z;
  needed_write_position : Z;
  last_chunk_uncompressed_size : Z;
  compressed_data : list byte;     (** from the current position on *)
  compressed_offset : Z;           (** the current position relative to [fstart] *)
  compressed_mapping_released_bytes : Z;
  total_left : Z;
  compression_algorithm : Z;
  stream_version : Z;
  discarded : list (Z * Z)         (** uncompressed pages handed to [madvise]: start, length *)
}.

Definition write_position (r : file_reader) : Z := Z.of_nat (length (uncompressed_data r)).

(** *** Field updates *)

Definition set_read (r : file_reader) (pos : Z) : file_reader :=
  FileReader (multithreaded_read r) (fixed_buffer r) (done_decompressing r) (preload_activated r)
    (uncompressed_data r) (total_uncompressed r) (uncompressed_wanted r) pos (checkpoint_position r)
    (freed_position r) (needed_write_position r) (last_chunk_uncompressed_size r) (compressed_data r)
    (compressed_offset r) (compressed_mapping_released_bytes r) (total_left r) (compression_algorithm r)
    (stream_version r) (discarded r).

Definition set_needed (r : file_reader) (needed : Z) : file_reader :=
  FileReader (multithreaded_read r) (fixed_buffer r) (done_decompressing r) (preload_activated r)
    (uncompressed_data r) (total_uncompressed r) (uncompressed_wanted r) (read_position r) (checkpoint_position r)
    (freed_position r) needed (last_chunk_uncompressed_size r) (compressed_data r)
    (compressed_offset r) (compressed_mapping_released_bytes r) (total_left r) (compression_algorithm r)
    (stream_version r) (discarded r).

Definition set_marks (r : file_reader) (checkpoint freed : Z) (pages : list (Z * Z)) : file_reader :=
  FileReader (multithreaded_read r) (fixed_buffer r) (done_decompressing r) (preload_activated r)
    (uncompressed_data r) (total_uncompressed r) (uncompressed_wanted r) (read_position r) checkpoint
    freed (needed_write_position r) (last_chunk_uncompressed_size r) (compressed_data r)
    (compressed_offset r) (compressed_mapping_released_bytes r) (total_left r) (compression_algorithm r)
    (stream_version r) pages.

Definition set_modes (r : file_reader) (multithreaded finished preload : bool) : file_reader :=
  FileReader multithreaded (fixed_buffer r) finished preload
    (uncompressed_data r) (total_uncompressed r) (uncompressed_wanted r) (read_position r) (checkpoint_position r)
    (freed_position r) (needed_write_position r) (last_chunk_uncompressed_size r) (compressed_data r)
    (compressed_offset r) (compressed_mapping_released_bytes r) (total_left r) (compression_algorithm r)
    (stream_version r) (discarded r).

Section Reader.

(** the decompressor (given the payload and the size to produce), the length of
    a page and the address of the compressed mapping, [p__allow_stalls] and
    [p__preload] in bytes *)
Context (codec : list byte -> Z -> option (list byte)).
Context (debug : bool) (page_size fstart : Z) (p__allow_stalls : bool) (preload_bytes : Z).

(** [x & page_mask()] *)
Definition page_align (x : Z) : Z := Z.land x (Z.lnot (page_size - 1)).

(** ** Opening *)

Definition magic_word : list byte := [x4c; x41; x56; x41; x42; x49; x4e].

(** version, algorithm and the stream after the optional header *)
Definition parse_header (file : list byte) (total_left : Z) : outcome (Z * Z * list byte * Z) :=
  if bool_decide (take 7 file = magic_word) then
    let data := drop 7 file in
    let version := le_decode (take 1 data) in
    let algorithm := le_decode (take 1 (drop 1 data)) in
    let* _ := require ((algorithm =? 0) || (algorithm =? 1) || (algorithm =? 2)) AssertFailed in
    let header_bytes := 7 + 32 in
    let* _ := require (total_left >=? header_bytes) AssertFailed in
    Ok (version, algorithm, drop 32 data, total_left - header_bytes)
  else Ok (0, compression_code LAVATUBE_COMPRESSION_DENSITY, file, total_left).

(** [init] and [init_mapped], which differ in where the mapping starts: the
    stream begins [start] bytes into it *)
Definition init (file : list byte) (start : Z) (uncompressed_size uncompressed_target : Z) (preload_active : bool)
  : outcome file_reader :=
  let total := Z.of_nat (length file) in
  let* _ := require (negb (total =? 0)) AbortCall in
  let* _ := require (uncompressed_size >? 0) AssertFailed in
  let* (version, algorithm, data, remains) := parse_header file total in
  Ok (FileReader true false false preload_active [] uncompressed_size uncompressed_target
        0 0 0 0 0 data (start + (total - remains)) 0 remains algorithm version []).

Definition reset_fixed_buffer (r : file_reader) (data : list byte) (version : Z) : outcome file_reader :=
  let* _ := require (fixed_buffer r) AbortCall in
  let* _ := require (negb (Nat.eqb (length data) 0)) AbortCall in
  Ok (FileReader (multithreaded_read r) true true (preload_activated r) data (Z.of_nat (length data))
        (Z.of_nat (length data)) 0 UINT64_MAX 0 0 0 (compressed_data r) (compressed_offset r)
        (compressed_mapping_released_bytes r) (total_left r) (compression_algorithm r) version (discarded r)).

Definition new_fixed_buffer_reader (data : list byte) (version : Z) : outcome file_reader :=
  reset_fixed_buffer
    (FileReader false true false false [] 0 0 0 0 0 0 0 [] 0 0 0 1 0 []) data version.

(** ** Decompression *)

(** new value of [compressed_mapping_released_bytes] *)
Definition release_compressed_pages (offset released : Z) : Z :=
  let released_start := fstart + released in
  let released_end := page_align (fstart + offset) in
  if released_end <=? released_start then released
  else if released_end - released_start <=? page_size then released
  else released_end - fstart.

(** exactly [n] bytes of the destination, which starts out as zeros *)
Definition fit (n : Z) (out : list byte) : list byte :=
  take (Z.to_nat n) (out ++ repeat x00 (Z.to_nat n)).

Definition decompress_payload (algorithm : Z) (payload : list byte) (uncompressed_size : Z) (rest : list byte)
  : outcome (list byte) :=
  if algorithm =? 1 then
    match codec payload uncompressed_size with
    | None => Fail AbortCall
    | Some out => Ok (fit uncompressed_size out)
    end
  else if algorithm =? 2 then
    match codec payload uncompressed_size with
    | None => Fail AbortCall
    | Some out =>
        let* _ := require (Z.of_nat (length out) =? uncompressed_size) AbortCall in Ok out
    end
  else
    let* _ := require (algorithm =? 0) AssertFailed in
    let* _ := require (uncompressed_size <=? Z.of_nat (length rest)) OutOfRange in
    Ok (take (Z.to_nat uncompressed_size) rest).

Definition decompress_chunk (r : file_reader) : outcome file_reader :=
  let* _ := require (Nat.leb 16 (length (compressed_data r))) OutOfRange in
  let compressed_size := le_decode (take 8 (compressed_data r)) in
  let uncompressed_size := le_decode (take 8 (drop 8 (compressed_data r))) in
  let rest := drop 16 (compressed_data r) in
  let* _ := require (compressed_size <=? total_left r) AssertFailed in
  let* _ := require (write_position r + uncompressed_size <=? total_uncompressed r) AssertFailed in
  let* out := decompress_payload (compression_algorithm r) (take (Z.to_nat compressed_size) rest)
                uncompressed_size rest in
  let offset := compressed_offset r + 16 + compressed_size in
  let data := uncompressed_data r ++ out in
  let remains := wrap64 (total_left r - (compressed_size + 16)) in
  let finished := (remains =? 0) || (Z.of_nat (length data) >=? uncompressed_wanted r) in
  Ok (FileReader (multithreaded_read r) (fixed_buffer r) (done_decompressing r || finished) (preload_activated r)
        data (total_uncompressed r) (uncompressed_wanted r) (read_position r) (checkpoint_position r)
        (freed_position r) (needed_write_position r) uncompressed_size
        (drop (Z.to_nat compressed_size) rest) offset
        (release_compressed_pages offset (compressed_mapping_released_bytes r)) remains
        (compression_algorithm r) (stream_version r) (discarded r)).

(** the decompressor stays this far ahead, unless the replayer waits for data *)
Definition throttled (r : file_reader) : bool :=
  let active_preload := if preload_activated r then preload_bytes else 0 in
  let preload_size := if active_preload >? 0 then active_preload else last_chunk_uncompressed_size r in
  (preload_size >? 0) && (write_position r >? read_position r + preload_size) &&
  (write_position r >=? needed_write_position r).

(** one round of the decompressor thread; [None] when it has returned *)
Definition decompressor_step (r : file_reader) : outcome (option file_reader) :=
  if done_decompressing r then Ok None
  else if throttled r then Ok (Some r)
  else let* r := decompress_chunk r in Ok (Some r).

(** ** Reading *)

(** [write_position.wait]: the other thread runs until the position moves *)
Fixpoint wait_write (fuel : nat) (r : file_reader) : outcome file_reader :=
  match fuel with
  | O => Fail OutOfFuel
  | S fuel' =>
      let* next := decompressor_step r in
      match next with
      | None => Fail Deadlock
      | Some r' => if write_position r' =? write_position r then wait_write fuel' r' else Ok r'
      end
  end.

(** the distance the code compares with, in unsigned arithmetic *)
Definition available (r : file_reader) : Z := wrap64 (write_position r - read_position r).

Fixpoint fill (fuel : nat) (r : file_reader) (size : Z) : outcome file_reader :=
  match fuel with
  | O => Fail OutOfFuel
  | S fuel' =>
      if size >? available r then
        let* _ := assert_in debug (write_position r + size <? total_uncompressed r) in
        let* r := if multithreaded_read r then wait_write fuel' r else decompress_chunk r in
        let* _ := require (negb (negb p__allow_stalls && preload_activated r && (preload_bytes >? 0))) AbortCall in
        fill fuel' r size
      else Ok r
  end.

(** a round consumes at least a chunk header, which bounds the rounds *)
Definition rounds (r : file_reader) : nat := S (S (length (compressed_data r))).

Definition check_space (r : file_reader) (size : Z) : outcome file_reader :=
  if size >? available r then
    if fixed_buffer r then Fail AbortCall
    else
      let r := set_needed r (read_position r + size) in
      let* r := fill (rounds r) r size in
      Ok (set_needed r 0)
  else Ok r.

(** the anonymous mapping holds zeros until a chunk is decompressed into it *)
Definition mapping (r : file_reader) : list byte :=
  uncompressed_data r ++ repeat x00 (Z.to_nat (total_uncompressed r - write_position r)).

(** [check_space] and the copy out, the part shared by [read_value] and [read_array] *)
Definition take_bytes (n : nat) (r : file_reader) : outcome (list byte * file_reader) :=
  let* r := check_space r (Z.of_nat n) in
  Ok (slice (Z.to_nat (read_position r)) n (mapping r),
      set_read r (read_position r + Z.of_nat n)).

Definition done (r : file_reader) : bool :=
  done_decompressing r && (available r =? 0).

Definition disable_multithreaded_read (r : file_reader) : file_reader :=
  set_modes r false true (preload_activated r).

(** ** Checkpoints *)

Definition set_checkpoint (r : file_reader) : file_reader :=
  set_marks r (read_position r) (freed_position r) (discarded r).

Definition release_checkpoint (r : file_reader) : outcome file_reader :=
  if checkpoint_position r =? UINT64_MAX then Ok r
  else if fixed_buffer r then Ok (set_marks r UINT64_MAX (freed_position r) (discarded r))
  else
    let* _ := require (checkpoint_position r >=? freed_position r) AssertFailed in
    let pa_ptr := page_align (freed_position r) in
    let pa_size := page_align (checkpoint_position r - freed_position r) in
    let* _ := require (pa_size <=? total_uncompressed r) AssertFailed in
    if pa_size >? page_size then
      let freed := pa_ptr + pa_size in
      let* _ := require (freed <=? checkpoint_position r) AssertFailed in
      Ok (set_marks r UINT64_MAX freed (discarded r ++ [(pa_ptr, pa_size)]))
    else Ok (set_marks r UINT64_MAX (freed_position r) (discarded r)).

Definition self_test (r : file_reader) : outcome unit :=
  let write := write_position r in
  let* _ := require (uncompressed_wanted r <=? total_uncompressed r) AssertFailed in
  let* _ := require (read_position r <=? write) AssertFailed in
  let* _ := require (write <=? total_uncompressed r) AssertFailed in
  let* _ := require (freed_position r <=? read_position r) AssertFailed in
  let* _ := require (last_chunk_uncompressed_size r <=? total_uncompressed r) AssertFailed in
  let* _ :=
    if negb (checkpoint_position r =? UINT64_MAX) then
      let* _ := require (freed_position r <=? checkpoint_position r) AssertFailed in
      require (checkpoint_position r <=? read_position r) AssertFailed
    else Ok tt in
  if negb (needed_write_position r =? 0) then
    let* _ := require (needed_write_position r >=? read_position r) AssertFailed in
    require (needed_write_position r <=? total_uncompressed r) AssertFailed
  else Ok tt.
End Reader.

(** ** What is left to read *)

Section Source.
Context (codec : list byte -> Z -> option (list byte)).
Context (debug : bool) (page_size fstart : Z) (p__allow_stalls : bool) (preload_bytes : Z).

(** Assertions compiled out, and no abort when the reader catches up with the
    decompressor, as with [--allow-stalls] or without preloading. *)
Hypothesis release_build : debug = false.
Hypothesis stalls_allowed : p__allow_stalls = true \/ preload_bytes <= 0.

Abbreviation chunk_of := (decompress_payload codec).
Abbreviation decompress := (decompress_chunk codec page_size fstart).

Definition exhausted (left written wanted : Z) : bool := (left =? 0) || (written >=? wanted).

(** the chunks the decompressor will still produce *)
Fixpoint decode (fuel : nat) (algorithm wanted written : Z) (data : list byte) (left : Z) : list (list byte) :=
  match fuel with
  | O => []
  | S fuel' =>
      if exhausted left written wanted then []
      else
        let csize := le_decode (take 8 data) in
        let usize := le_decode (take 8 (drop 8 data)) in
        let rest := drop 16 data in
        match chunk_of algorithm (take (Z.to_nat csize) rest) usize rest with
        | Ok c => c :: decode fuel' algorithm wanted (written + Z.of_nat (length c))
                         (drop (Z.to_nat csize) rest) (left - (csize + 16))
        | Fail _ => []
        end
  end.

(** [chunks] is what [data] decompresses to *)
Fixpoint holds_chunks (algorithm wanted written : Z) (data : list byte) (left : Z) (chunks : list (list byte)) : Prop :=
  match chunks with
  | [] => exhausted left written wanted = true
  | c :: chunks' =>
      exhausted left written wanted = false /\ (16 <= length data)%nat /\
      let csize := le_decode (take 8 data) in
      let rest := drop 16 data in
      le_decode (take 8 (drop 8 data)) = Z.of_nat (length c) /\
      chunk_of algorithm (take (Z.to_nat csize) rest) (Z.of_nat (length c)) rest = Ok c /\
      csize + 16 <= left /\
      holds_chunks algorithm wanted (written + Z.of_nat (length c)) (drop (Z.to_nat csize) rest)
        (left - (csize + 16)) chunks'
  end.

Lemma decode_holds chunks : forall fuel algorithm wanted written data left,
  holds_chunks algorithm wanted written data left chunks -> (length data < fuel)%nat ->
  decode fuel algorithm wanted written data left = chunks.
Proof.
  induction chunks as [|c chunks IH]; intros fuel algorithm wanted written data left H Hf;
    (destruct fuel as [|fuel]; [lia|]); cbn [decode].
  - simpl in H. by rewrite H.
  - destruct H as (H1 & H2 & H3 & H4 & H5 & H6). rewrite H1, H3, H4. f_equal.
    apply IH; [exact H6|]. rewrite !length_drop. lia.
Qed.

Definition future (r : file_reader) : list (list byte) :=
  decode (S (length (compressed_data r))) (compression_algorithm r) (uncompressed_wanted r)
    (write_position r) (compressed_data r) (total_left r).

Record reader_inv (r : file_reader) (chunks : list (list byte)) : Prop := {
  ri_pos : 0 <= read_position r <= write_position r;
  ri_left : 0 <= total_left r <= UINT64_MAX;
  ri_chunks : holds_chunks (compression_algorithm r) (uncompressed_wanted r) (write_position r)
                (compressed_data r) (total_left r) chunks;
  ri_total : write_position r + Z.of_nat (length (concat chunks)) <= total_uncompressed r;
  ri_size : total_uncompressed r <= UINT64_MAX;
  ri_done : multithreaded_read r = true ->
            done_decompressing r = exhausted (total_left r) (write_position r) (uncompressed_wanted r);
  ri_fixed : fixed_buffer r = true -> chunks = []
}.

Definition reader_ok (r : file_reader) : Prop := exists chunks, reader_inv r chunks.

Definition reader_remaining (r : file_reader) : list byte :=
  drop (Z.to_nat (read_position r)) (uncompressed_data r ++ concat (future r)).

Lemma future_chunks r chunks : reader_inv r chunks -> future r = chunks.
Proof. intros Hi. unfold future. apply decode_holds; [apply Hi|lia]. Qed.

(** the checkpoint state, which only the replaying thread moves *)
Definition same_marks (r r' : file_reader) : Prop :=
  discarded r' = discarded r /\ freed_position r' = freed_position r /\
  checkpoint_position r' = checkpoint_position r /\ total_uncompressed r' = total_uncompressed r /\
  uncompressed_wanted r' = uncompressed_wanted r /\ multithreaded_read r' = multithreaded_read r.

(** what stays the same while data arrives *)
Definition same_reader (r r' : file_reader) : Prop :=
  read_position r' = read_position r /\ needed_write_position r' = needed_write_position r /\
  multithreaded_read r' = multithreaded_read r /\ fixed_buffer r' = fixed_buffer r /\
  same_marks r r'.

Lemma same_reader_trans r1 r2 r3 : same_reader r1 r2 -> same_reader r2 r3 -> same_reader r1 r3.
Proof. unfold same_reader, same_marks. intuition congruence. Qed.

Lemma decompress_chunk_ok r c chunks :
  reader_inv r (c :: chunks) ->
  exists r', decompress r = Ok r' /\ reader_inv r' chunks /\ same_reader r r' /\
    uncompressed_data r' = uncompressed_data r ++ c /\
    (length (compressed_data r') < length (compressed_data r))%nat.
Proof.
  intros [I1 I2 I3 I4 Is I5 I6]. destruct I3 as (H1 & H2 & H3 & H4 & H5 & H6).
  unfold decompress_chunk. rewrite (proj2 (Nat.leb_le 16 _)) by lia. cbn [obind require].
  pose proof (le_decode_range (take 8 (compressed_data r))) as Hc0.
  set (csize := le_decode (take 8 (compressed_data r))) in *.
  rewrite (proj2 (Z.leb_le csize _)) by lia. cbn [obind require]. rewrite H3.
  simpl in I4. rewrite length_app in I4. rewrite (proj2 (Z.leb_le (write_position r + _) _)) by lia.
  cbn [obind require]. rewrite H4. cbn [obind].
  assert (Hw : wrap64 (total_left r - (csize + 16)) = total_left r - (csize + 16)) by (apply wrap64_small; u_lia).
  rewrite Hw. eexists. split; [reflexivity|].
  assert (Hwp : Z.of_nat (length (uncompressed_data r ++ c)) = write_position r + Z.of_nat (length c))
    by (unfold write_position; rewrite length_app; lia).
  split; [|split; [done|split; [done|cbn; rewrite !length_drop; lia]]].
  split; unfold write_position in *; simpl; rewrite ?Hwp; try lia.
  - exact H6.
  - intros Hm. rewrite (I5 Hm). unfold write_position. rewrite H1. done.
  - intros Hf. by specialize (I6 Hf).
Qed.

(** ** The decompressor thread *)

Abbreviation dstep := (decompressor_step codec page_size fstart preload_bytes).

Lemma decompressor_step_ok r chunks :
  reader_inv r chunks -> multithreaded_read r = true ->
  exists o, dstep r = Ok o /\
    match o with
    | None => chunks = []
    | Some r' => same_reader r r' /\ exists chunks', reader_inv r' chunks' /\
        uncompressed_data r' ++ concat chunks' = uncompressed_data r ++ concat chunks /\
        (throttled preload_bytes r = false ->
           write_position r <= write_position r' /\
           (length (compressed_data r') < length (compressed_data r))%nat)
    end.
Proof.
  intros Hi Hm. unfold decompressor_step. rewrite (ri_done _ _ Hi Hm).
  destruct (exhausted _ _ _) eqn:Ex.
  - eexists. split; [reflexivity|]. destruct chunks as [|c chunks]; [done|].
    pose proof (ri_chunks _ _ Hi) as [He _]. congruence.
  - destruct (throttled preload_bytes r) eqn:Et.
    + eexists. split; [reflexivity|]. split; [done|]. exists chunks. by split.
    + destruct chunks as [|c chunks]; [pose proof (ri_chunks _ _ Hi) as He; simpl in He; congruence|].
      destruct (decompress_chunk_ok r c chunks Hi) as (r' & -> & Hi' & Hs & Hd & Hl). cbn [obind].
      eexists. split; [reflexivity|]. split; [done|]. exists chunks. split; [done|].
      split; [rewrite Hd; simpl; by rewrite app_assoc|]. intros _. split; [|done].
      unfold write_position. rewrite Hd, length_app. lia.
Qed.

Lemma available_inv r chunks : reader_inv r chunks -> available r = write_position r - read_position r.
Proof.
  intros [[P0 P1] _ _ P3 P4 _ _]. unfold available. apply wrap64_small. unfold u64. lia.
Qed.

Lemma waiting_not_throttled r chunks n :
  reader_inv r chunks -> needed_write_position r = read_position r + n -> (n >? available r) = true ->
  throttled preload_bytes r = false.
Proof.
  intros Hi Hn Hs. rewrite (available_inv r chunks Hi) in Hs. unfold throttled. bool_to_prop. apply andb_false_iff. right. rewrite Z.geb_leb.
  apply Z.leb_gt. lia.
Qed.

Abbreviation rwait := (wait_write codec page_size fstart preload_bytes).

Lemma wait_write_ok fuel r chunks n :
  reader_inv r chunks -> multithreaded_read r = true ->
  needed_write_position r = read_position r + n -> (n >? available r) = true ->
  (length (compressed_data r) < fuel)%nat ->
  read_position r + n <= write_position r + Z.of_nat (length (concat chunks)) ->
  exists r' chunks', rwait fuel r = Ok r' /\ reader_inv r' chunks' /\ same_reader r r' /\
    uncompressed_data r' ++ concat chunks' = uncompressed_data r ++ concat chunks /\
    (length (compressed_data r') < length (compressed_data r))%nat.
Proof.
  revert r chunks; induction fuel as [|fuel IH]; intros r chunks Hi Hm Hn Hs Hf Hr; [lia|].
  pose proof Hs as Hs'. rewrite (available_inv r chunks Hi) in Hs'.
  cbn [wait_write]. destruct (decompressor_step_ok r chunks Hi Hm) as (o & -> & Ho). cbn [obind].
  destruct o as [r'|]; [|subst chunks; simpl in Hr; bool_to_prop; lia].
  destruct Ho as (Hsame & chunks' & Hi' & Hd & Ht).
  destruct (Ht (waiting_not_throttled r chunks n Hi Hn Hs)) as [Hw Hl].
  destruct (write_position r' =? write_position r) eqn:E; bool_to_prop.
  - assert (Hlen : Z.of_nat (length (concat chunks')) = Z.of_nat (length (concat chunks))).
    { apply (f_equal length) in Hd. rewrite !length_app in Hd. unfold write_position in E. lia. }
    pose proof Hsame as (S1 & S2 & S3 & _).
    destruct (IH r' chunks' Hi' ltac:(congruence) ltac:(congruence) ltac:(rewrite (available_inv _ _ Hi'), E, S1, Z.gtb_ltb; apply Z.ltb_lt; exact Hs') ltac:(lia) ltac:(lia))
      as (r2 & ch2 & E2 & Hi2 & Hsame2 & Hd2 & Hl2).
    exists r2, ch2. split; [done|]. split; [done|]. split; [exact (same_reader_trans _ _ _ Hsame Hsame2)|].
    split; [congruence|lia].
  - exists r', chunks'. auto.
Qed.

Lemma assert_released b : assert_in debug b = Ok tt.
Proof. unfold assert_in. by rewrite release_build. Qed.

Abbreviation rfill := (fill codec debug page_size fstart p__allow_stalls preload_bytes).

Lemma fill_ok fuel r chunks n :
  reader_inv r chunks -> fixed_buffer r = false -> needed_write_position r = read_position r + n ->
  (S (length (compressed_data r)) < fuel)%nat ->
  read_position r + n <= write_position r + Z.of_nat (length (concat chunks)) ->
  exists r' chunks', rfill fuel r n = Ok r' /\ reader_inv r' chunks' /\ same_reader r r' /\
    uncompressed_data r' ++ concat chunks' = uncompressed_data r ++ concat chunks /\
    read_position r' + n <= write_position r'.
Proof.
  revert r chunks; induction fuel as [|fuel IH]; intros r chunks Hi Hx Hn Hf Hr; [lia|]. cbn [fill].
  rewrite (available_inv r chunks Hi). destruct (n >? write_position r - read_position r) eqn:Es.
  2:{ exists r, chunks. bool_to_prop. repeat split; try apply Hi; try done; lia. }
  rewrite assert_released. cbn [obind].
  assert (Hstep : exists r' chunks', (if multithreaded_read r then rwait fuel r else decompress r) = Ok r' /\
    reader_inv r' chunks' /\ same_reader r r' /\
    uncompressed_data r' ++ concat chunks' = uncompressed_data r ++ concat chunks /\
    (length (compressed_data r') < length (compressed_data r))%nat).
  { destruct (multithreaded_read r) eqn:Em; [apply (wait_write_ok fuel r chunks n); rewrite ?(available_inv r chunks Hi); auto; lia|].
    destruct chunks as [|c chunks]; [simpl in Hr; bool_to_prop; lia|].
    destruct (decompress_chunk_ok r c chunks Hi) as (r' & -> & Hi' & Hs & Hd & Hl).
    exists r', chunks. split; [done|]. split; [done|]. split; [done|]. split; [|done].
    rewrite Hd. simpl. by rewrite app_assoc. }
  destruct Hstep as (r' & chunks' & -> & Hi' & Hsame & Hd & Hl). cbn [obind].
  assert (Hstall : negb (negb p__allow_stalls && preload_activated r' && (preload_bytes >? 0)) = true).
  { destruct stalls_allowed as [->|Hp]; [done|]. rewrite Z.gtb_ltb, (proj2 (Z.ltb_ge _ _)) by lia.
    by rewrite andb_false_r. }
  rewrite Hstall. cbn [obind require]. pose proof Hsame as (S1 & S2 & S3 & S4 & _).
  assert (Hlen : (length (uncompressed_data r') + length (concat chunks') =
    length (uncompressed_data r) + length (concat chunks))%nat).
  { apply (f_equal length) in Hd. by rewrite !length_app in Hd. }
  destruct (IH r' chunks' Hi' ltac:(congruence) ltac:(congruence) ltac:(lia) ltac:(unfold write_position in *; lia))
    as (r2 & ch2 & E2 & Hi2 & Hsame2 & Hd2 & Hl2).
  exists r2, ch2. split; [done|]. split; [done|]. split; [exact (same_reader_trans _ _ _ Hsame Hsame2)|]. split; [congruence|done].
Qed.

(** ** Reading is taking bytes off the stream *)

Abbreviation rcheck := (check_space codec debug page_size fstart p__allow_stalls preload_bytes).
Abbreviation rtake := (take_bytes codec debug page_size fstart p__allow_stalls preload_bytes).

Lemma set_needed_inv r chunks n : reader_inv r chunks -> reader_inv (set_needed r n) chunks.
Proof. intros []. by split. Qed.

Lemma check_space_ok r chunks n :
  reader_inv r chunks -> 0 <= n ->
  read_position r + n <= write_position r + Z.of_nat (length (concat chunks)) ->
  exists r' chunks', rcheck r n = Ok r' /\ reader_inv r' chunks' /\ read_position r' = read_position r /\
    same_marks r r' /\
    uncompressed_data r' ++ concat chunks' = uncompressed_data r ++ concat chunks /\
    read_position r' + n <= write_position r'.
Proof.
  intros Hi Hn Hr. unfold check_space. rewrite (available_inv r chunks Hi).
  destruct (n >? write_position r - read_position r) eqn:Es; bool_to_prop.
  - destruct (fixed_buffer r) eqn:Ef.
    { rewrite (ri_fixed _ _ Hi Ef) in Hr. simpl in Hr. lia. }
    set (r1 := set_needed r (read_position r + n)).
    destruct (fill_ok (rounds r1) r1 chunks n (set_needed_inv r chunks _ Hi) Ef eq_refl
      ltac:(unfold rounds; lia) Hr) as (r2 & chunks2 & -> & Hi2 & (S1 & _ & _ & _ & S5) & Hd & Hw). cbn [obind].
    exists (set_needed r2 0), chunks2. split; [done|]. split; [by apply set_needed_inv|]. done.
  - exists r, chunks. do 5 (split; [done|]). lia.
Qed.

Lemma slice_app_l (a b : list byte) pos n :
  (pos + n <= length a)%nat -> slice pos n a = take n (drop pos (a ++ b)).
Proof.
  intros Hl. unfold slice. apply list_eq. intros i. rewrite !lookup_take. case_decide; [|done].
  rewrite !lookup_drop, lookup_app_l by lia. done.
Qed.

Lemma slice_app_prefix (a b : list byte) pos n : (pos + n <= length a)%nat -> slice pos n (a ++ b) = slice pos n a.
Proof. intros Hl. rewrite (slice_app_l a b) by done. reflexivity. Qed.

Lemma take_bytes_law n r :
  reader_ok r -> (n <= length (reader_remaining r))%nat ->
  exists r', rtake n r = Ok (take n (reader_remaining r), r') /\ reader_ok r' /\
    reader_remaining r' = drop n (reader_remaining r) /\
    read_position r' = read_position r + Z.of_nat n /\ same_marks r r'.
Proof.
  intros [chunks Hi] Hn. unfold reader_remaining in *. rewrite (future_chunks r chunks Hi) in *.
  pose proof (ri_pos _ _ Hi) as [Hp0 Hp1]. rewrite length_drop, length_app in Hn.
  destruct (check_space_ok r chunks (Z.of_nat n) Hi ltac:(lia) ltac:(unfold write_position in *; lia))
    as (r' & chunks' & E & Hi' & Hp & Hdis & Hd & Hw).
  unfold take_bytes. rewrite E. cbn [obind]. eexists. split.
  - unfold mapping. rewrite Hp, slice_app_prefix by (unfold write_position in Hw; lia).
    rewrite (slice_app_l _ (concat chunks')) by (unfold write_position in Hw; lia). rewrite Hd. reflexivity.
  - assert (Hi2 : reader_inv (set_read r' (read_position r + Z.of_nat n)) chunks').
    { destruct Hi' as [J1 J2 J3 J4 Js J5 J6]. split; auto. unfold write_position in *. simpl. lia. }
    split; [by exists chunks'|]. rewrite (future_chunks _ _ Hi2). split; [|by split].
    change (uncompressed_data (set_read r' (read_position r + Z.of_nat n))) with (uncompressed_data r').
    rewrite Hd, drop_drop. f_equal. simpl. lia.
Qed.

Lemma take_bytes_source_law n r :
  reader_ok r -> (n <= length (reader_remaining r))%nat ->
  exists r', rtake n r = Ok (take n (reader_remaining r), r') /\ reader_ok r' /\
    reader_remaining r' = drop n (reader_remaining r).
Proof. intros Hr Hn. destruct (take_bytes_law n r Hr Hn) as (r' & H1 & H2 & H3 & _). eauto. Qed.

(** The reader as a source of bytes. *)
Definition reader_source : ByteSource file_reader := {|
  src_ok := reader_ok;
  remaining := reader_remaining;
  next_bytes := rtake;
  next_bytes_law := take_bytes_source_law
|}.

(** any round of the decompressor thread leaves what the reader will see alone *)
Lemma decompressor_step_remaining r r' :
  reader_ok r -> multithreaded_read r = true -> dstep r = Ok (Some r') ->
  reader_ok r' /\ reader_remaining r' = reader_remaining r.
Proof.
  intros [chunks Hi] Hm E. destruct (decompressor_step_ok r chunks Hi Hm) as (o & E' & Ho).
  rewrite E in E'. injection E' as <-. destruct Ho as ((S1 & _) & chunks' & Hi' & Hd & _).
  split; [by exists chunks'|]. unfold reader_remaining.
  by rewrite (future_chunks _ _ Hi), (future_chunks _ _ Hi'), S1, Hd.
Qed.
End Source.

(** ** Reading what the writer wrote *)

Section Roundtrip.
Context (t : lavatube_compression_type).
Context (compressor : list byte -> option (list byte)) (decompressor : list byte -> Z -> option (list byte)).
Context (heap_after : list byte).

(** The library decompresses its own output, told the size of the original; the
    heap after a buffer is as long as the overrun. *)
Hypothesis library_roundtrip : forall d z, compressor d = Some z ->
  decompressor z (Z.of_nat (length d)) = Some d.
Hypothesis compressor_total : forall d, exists z, compressor d = Some z.
Hypothesis heap_length : length heap_after = 16%nat.

Abbreviation encode_chunk := (encoded t compressor heap_after).

Lemma fit_exact d : fit (Z.of_nat (length d)) d = d.
Proof. unfold fit. rewrite Nat2Z.id. apply take_app_length. Qed.

Lemma encoded_layout d :
  exists p, encode_chunk d = le_encode 8 (Z.of_nat (length p)) ++ le_encode 8 (Z.of_nat (length d)) ++ p /\
    forall rest, decompress_payload decompressor (compression_code t) p (Z.of_nat (length d)) (p ++ rest) = Ok d.
Proof.
  unfold encoded, compress_chunk. destruct (compressor_total d) as [z Hz].
  pose proof (library_roundtrip d z Hz) as Hd.
  destruct t; rewrite ?Hz; cbn [obind]; (eexists; split; [reflexivity||idtac|]).
  - f_equal. rewrite length_app, heap_length. f_equal. lia.
  - intros rest. unfold decompress_payload. cbn [compression_code Z.eqb obind require].
    rewrite (proj2 (Z.leb_le _ _)) by (rewrite !length_app; lia). cbn [obind require].
    by rewrite Nat2Z.id, <- app_assoc, take_app_length.
  - intros rest. unfold decompress_payload. cbn [compression_code Z.eqb obind Pos.eqb]. by rewrite Hd, fit_exact.
  - intros rest. unfold decompress_payload. cbn [compression_code Z.eqb obind Pos.eqb]. rewrite Hd.
    by rewrite Z.eqb_refl.
Qed.

Lemma take8_le z rest : take 8 (le_encode 8 z ++ rest) = le_encode 8 z.
Proof. by rewrite <- (length_le_encode 8 z) at 1; rewrite take_app_length. Qed.

Lemma drop8_le z rest : drop 8 (le_encode 8 z ++ rest) = rest.
Proof. by rewrite <- (length_le_encode 8 z) at 1; rewrite drop_app_length. Qed.

Lemma holds_encoded chunks : forall wanted written left,
  left = Z.of_nat (length (concat (map encode_chunk chunks))) -> left <= UINT64_MAX -> 0 <= written ->
  Z.of_nat (length (concat (map encode_chunk chunks))) <= UINT64_MAX ->
  wanted = written + Z.of_nat (length (concat chunks)) ->
  Z.of_nat (length (concat chunks)) <= UINT64_MAX ->
  Forall (fun d => d <> []) chunks ->
  holds_chunks decompressor (compression_code t) wanted written (concat (map encode_chunk chunks)) left chunks.
Proof.
  induction chunks as [|d chunks IH]; intros wanted written left Hl Hmax Hw Hlen Hwant Hsz Hne.
  - simpl in *. unfold exhausted. subst. by rewrite Z.eqb_refl.
  - inversion Hne as [|? ? Hd Hne']; subst. destruct (encoded_layout d) as (p & Hp & Hdec).
    cbn [map concat] in *. rewrite Hp in *. rewrite <- !app_assoc in *. cbn [holds_chunks].
    assert (Hlp : 0 < Z.of_nat (length d)) by (destruct d; [done|simpl; lia]).
    rewrite !length_app, !length_le_encode in *.
    assert (Hc : le_decode (take 8 (le_encode 8 (Z.of_nat (length p)) ++
       le_encode 8 (Z.of_nat (length d)) ++ p ++ concat (map encode_chunk chunks))) = Z.of_nat (length p))
      by (rewrite take8_le; apply le_decode_encode_small; u_lia).
    assert (Hdrop : drop 16 (le_encode 8 (Z.of_nat (length p)) ++
       le_encode 8 (Z.of_nat (length d)) ++ p ++ concat (map encode_chunk chunks)) =
       p ++ concat (map encode_chunk chunks)).
    { change 16%nat with (8 + 8)%nat. rewrite <- drop_drop, !drop8_le. done. }
    rewrite Hc, Hdrop, drop8_le, take8_le, Nat2Z.id, take_app_length, drop_app_length.
    split; [unfold exhausted; rewrite (proj2 (Z.eqb_neq _ 0)), Z.geb_leb, (proj2 (Z.leb_gt _ _)) by lia; done|].
    split; [lia|]. split; [apply le_decode_encode_small; u_lia|]. split; [apply Hdec|]. split; [lia|].
    apply IH; try lia; done.
Qed.

Lemma file_magic (chunks : list (list byte)) : take 7 (file_of t compressor heap_after chunks) = magic_word.
Proof. reflexivity. Qed.

Lemma init_file_of chunks start preload :
  Forall (fun d => d <> []) chunks -> chunks <> [] ->
  Z.of_nat (length (file_of t compressor heap_after chunks)) <= UINT64_MAX ->
  Z.of_nat (length (concat chunks)) <= UINT64_MAX ->
  let n := Z.of_nat (length (concat chunks)) in
  exists r, init (file_of t compressor heap_after chunks) start n n preload = Ok r /\
    reader_inv decompressor r chunks /\ read_position r = 0 /\ uncompressed_data r = [] /\ stream_version r = 3 /\
    checkpoint_position r = 0 /\ freed_position r = 0 /\ discarded r = [].
Proof.
  intros Hne Hnil Hmax Hsz n.
  assert (Hpos : 0 < n).
  { subst n. destruct chunks as [|d chunks]; [done|]. inversion Hne; subst. simpl. rewrite length_app.
    destruct d; [done|simpl; lia]. }
  unfold file_of in *. rewrite length_app in Hmax.
  assert (Hh : length (file_header t) = 39%nat) by (by destruct t).
  unfold init. rewrite length_app, Hh. rewrite (proj2 (Z.eqb_neq _ 0)) by lia. cbn [negb obind require].
  rewrite (proj2 (Z.gtb_lt n 0)) by lia. cbn [obind require]. unfold parse_header.
  rewrite bool_decide_eq_true_2 by reflexivity.
  set (body := concat (map encode_chunk chunks)) in *.
  assert (Hv : le_decode (take 1 (drop 7 (file_header t ++ body))) = 3) by (by destruct t).
  assert (Ha : le_decode (take 1 (drop 1 (drop 7 (file_header t ++ body)))) = compression_code t) by (by destruct t).
  assert (Hb : drop 32 (drop 7 (file_header t ++ body)) = body) by (by destruct t).
  rewrite Hv, Ha, Hb.
  assert (Hc : (compression_code t =? 0) || (compression_code t =? 1) || (compression_code t =? 2) = true) by (by destruct t).
  rewrite Hc. cbn [obind require]. rewrite Z.geb_leb, (proj2 (Z.leb_le _ _)) by lia. cbn [obind require].
  eexists. split; [reflexivity|]. split; [|done].
  assert (Hleft : Z.of_nat (39 + length body) - (7 + 32) = Z.of_nat (length body)) by lia.
  rewrite Hleft.
  assert (Hholds : holds_chunks decompressor (compression_code t) n 0 body (Z.of_nat (length body)) chunks)
    by (apply holds_encoded; try done; subst n body; lia).
  split; simpl; auto; unfold write_position; simpl; try lia; try discriminate.
  intros _. destruct chunks as [|d chunks]; [done|]. change (Z.of_nat 0) with 0. by destruct Hholds as [-> _].
Qed.
End Roundtrip.

(** ** Checkpoints never give up bytes that are still needed *)

Section Checkpoints.
Context (codec : list byte -> Z -> option (list byte)).
Context (debug : bool) (k fstart : Z) (p__allow_stalls : bool) (preload_bytes : Z).
Hypothesis release_build : debug = false.
Hypothesis stalls_allowed : p__allow_stalls = true \/ preload_bytes <= 0.
Hypothesis page_bits : 0 <= k.

Abbreviation page := (2 ^ k).

Lemma page_align_mod x : page_align page x = x - x mod page.
Proof.
  unfold page_align. replace (page - 1) with (Z.ones k) by (rewrite Z.ones_equiv; lia).
  rewrite <- Z.ldiff_land, Z.ldiff_ones_r by done.
  rewrite Z.shiftr_div_pow2, Z.shiftl_mul_pow2 by done.
  pose proof (Z.div_mod x page ltac:(apply Z.pow_nonzero; lia)). lia.
Qed.

Lemma page_align_range x : 0 <= x -> 0 <= page_align page x <= x.
Proof.
  intros Hx. rewrite page_align_mod. pose proof (Z.pow_pos_nonneg 2 k ltac:(lia) page_bits).
  pose proof (Z.mod_pos_bound x page ltac:(lia)). pose proof (Z.mod_le x page Hx ltac:(lia)). lia.
Qed.

(** no page behind [limit] has been given up *)
Definition kept_from (limit : Z) (pages : list (Z * Z)) : Prop :=
  Forall (fun p => 0 <= p.1 /\ p.1 + p.2 <= limit) pages.

Record marks_ok (r : file_reader) : Prop := {
  mk_freed : 0 <= freed_position r;
  mk_checkpoint : if checkpoint_position r =? UINT64_MAX then freed_position r <= read_position r
                  else freed_position r <= checkpoint_position r <= read_position r;
  mk_pages : kept_from (freed_position r) (discarded r)
}.

Inductive op :=
  | Take (n : nat)
  | SetCheckpoint
  | ReleaseCheckpoint
  | Decompress.

Definition do_op (r : file_reader) (o : op) : outcome file_reader :=
  match o with
  | Take n => let* (_, r) := take_bytes codec debug page fstart p__allow_stalls preload_bytes n r in Ok r
  | SetCheckpoint => Ok (set_checkpoint r)
  | ReleaseCheckpoint => release_checkpoint page r
  | Decompress =>
      if multithreaded_read r then
        let* next := decompressor_step codec page fstart preload_bytes r in
        Ok (match next with Some r' => r' | None => r end)
      else Ok r
  end.

Fixpoint run (r : file_reader) (ops : list op) : outcome file_reader :=
  match ops with
  | [] => Ok r
  | o :: ops' => let* r := do_op r o in run r ops'
  end.

(** the bytes that the reads among them return *)
Fixpoint reads (r : file_reader) (ops : list op) : outcome (list byte * file_reader) :=
  match ops with
  | [] => Ok ([], r)
  | Take n :: ops' =>
      let* (bytes, r) := take_bytes codec debug page fstart p__allow_stalls preload_bytes n r in
      let* (rest, r) := reads r ops' in
      Ok (bytes ++ rest, r)
  | o :: ops' => let* r := do_op r o in reads r ops'
  end.

Definition bytes_taken (ops : list op) : nat :=
  list_sum (map (fun o => match o with Take n => n | _ => 0%nat end) ops).

Definition reading (r : file_reader) : Prop :=
  reader_ok codec r /\ marks_ok r /\ total_uncompressed r <= UINT64_MAX.

Lemma set_marks_ok r cp freed pages :
  reader_ok codec r -> reader_ok codec (set_marks r cp freed pages) /\
  reader_remaining codec (set_marks r cp freed pages) = reader_remaining codec r.
Proof. intros [chunks []]. split; [by exists chunks; split|done]. Qed.

Lemma release_checkpoint_ok r :
  reading r -> exists r', release_checkpoint page r = Ok r' /\ reading r' /\
    reader_remaining codec r' = reader_remaining codec r /\ read_position r' = read_position r.
Proof.
  intros (Hr & [M1 M2 M3] & Ht). pose proof Hr as [chunks Hi]. unfold release_checkpoint.
  destruct (checkpoint_position r =? UINT64_MAX) eqn:E0.
  { exists r. split; [done|]. split; [|done]. split; [done|]. split; [split; rewrite ?E0; done|done]. }
  assert (Hmark : forall freed pages, 0 <= freed -> freed <= checkpoint_position r -> kept_from freed pages ->
    reading (set_marks r UINT64_MAX freed pages)).
  { intros freed pages H1 H2 H3. split; [by apply set_marks_ok|]. split; [|done].
    split; simpl; auto. lia. }
  destruct (fixed_buffer r).
  { eexists. split; [reflexivity|]. split; [apply Hmark; try done; lia|done]. }
  rewrite Z.geb_leb, (proj2 (Z.leb_le _ _)) by lia. cbn [obind require].
  pose proof (page_align_range (freed_position r) ltac:(lia)) as Hp.
  pose proof (page_align_range (checkpoint_position r - freed_position r) ltac:(lia)) as Hq.
  pose proof (ri_pos _ _ _ Hi). pose proof (ri_total _ _ _ Hi).
  rewrite (proj2 (Z.leb_le _ (total_uncompressed r))) by lia. cbn [obind require].
  case_bool.
  - rewrite (proj2 (Z.leb_le _ (checkpoint_position r))) by lia. cbn [obind require].
    eexists. split; [reflexivity|]. split; [|done]. bool_to_prop. apply Hmark; try lia.
    apply Forall_app. split; [|repeat constructor; simpl; lia].
    eapply Forall_impl; [exact M3|]. simpl. intros p [? Hle]. split; [done|].
    pose proof (Z.pow_pos_nonneg 2 k ltac:(lia) page_bits).
    assert (freed_position r < page_align page (freed_position r) + page).
    { rewrite page_align_mod. pose proof (Z.mod_pos_bound (freed_position r) page ltac:(lia)). lia. }
    lia.
  - eexists. split; [reflexivity|]. split; [apply Hmark; try done; lia|done].
Qed.

Lemma release_checkpoint_marks r r' :
  release_checkpoint page r = Ok r' -> exists cp freed pages, r' = set_marks r cp freed pages.
Proof.
  unfold release_checkpoint. destruct (checkpoint_position r =? UINT64_MAX).
  { intros [= <-]. exists (checkpoint_position r), (freed_position r), (discarded r). by destruct r. }
  destruct (fixed_buffer r); [intros [= <-]; eauto|]. intros E. outcome_inv.
  destruct (_ >? _); outcome_inv; subst; eauto.
Qed.

Lemma marks_ok_moved r r' :
  same_marks r r' -> read_position r <= read_position r' -> marks_ok r -> marks_ok r'.
Proof.
  intros (E1 & E2 & E3 & _) Hp [M1 M2 M3]. split; rewrite ?E1, ?E2, ?E3; auto.
  destruct (checkpoint_position r =? UINT64_MAX); lia.
Qed.

Lemma do_op_ok r o :
  reading r -> (bytes_taken [o] <= length (reader_remaining codec r))%nat ->
  exists r', do_op r o = Ok r' /\ reading r' /\
    reader_remaining codec r' = drop (bytes_taken [o]) (reader_remaining codec r) /\
    read_position r <= read_position r'.
Proof.
  intros Hrd Hn. pose proof Hrd as (Hr & Hm & Ht).
  destruct o as [n| | |]; unfold bytes_taken in *; simpl in Hn |- *; rewrite ?Nat.add_0_r in *.
  - destruct (take_bytes_law codec debug page fstart p__allow_stalls preload_bytes release_build stalls_allowed n r Hr Hn)
      as (r' & -> & Hr' & Hrem & Hp & Hs). cbn [obind]. exists r'. split; [done|].
    split; [|split; [done|lia]]. split; [done|]. split; [eapply marks_ok_moved; [exact Hs|lia|done]|].
    destruct Hs as (_ & _ & _ & -> & _). done.
  - eexists. split; [reflexivity|]. destruct (set_marks_ok r (read_position r) (freed_position r) (discarded r) Hr) as [H1 H2].
    split; [|split; [done|simpl; lia]]. split; [done|]. split; [|done].
    destruct Hm as [M1 M2 M3]. split; simpl; auto.
    assert (freed_position r <= read_position r) by (destruct (checkpoint_position r =? UINT64_MAX); lia).
    by destruct (read_position r =? UINT64_MAX).
  - destruct (release_checkpoint_ok r Hrd) as (r' & E & Hr' & Hrem & Hp). exists r'. split; [done|].
    split; [done|]. split; [done|lia].
  - destruct (multithreaded_read r) eqn:Em; [|exists r; split; [done|split; [done|split; [done|lia]]]].
    pose proof Hr as [chunks Hi].
    destruct (decompressor_step_ok codec page fstart preload_bytes r chunks Hi Em) as (o & E & Ho).
    rewrite E. cbn [obind]. eexists. split; [reflexivity|]. destruct o as [r'|]; [|split; [done|split; [done|lia]]].
    destruct (decompressor_step_remaining codec page fstart preload_bytes r r' Hr Em E) as [Hr' Hrem].
    destruct Ho as ((S1 & _ & _ & _ & S5) & _). split; [|split; [done|lia]]. split; [done|].
    split; [eapply marks_ok_moved; [exact S5|lia|done]|]. destruct S5 as (_ & _ & _ & -> & _). done.
Qed.

Lemma run_ok ops r :
  reading r -> (bytes_taken ops <= length (reader_remaining codec r))%nat ->
  exists r', run r ops = Ok r' /\ reading r' /\
    reader_remaining codec r' = drop (bytes_taken ops) (reader_remaining codec r).
Proof.
  revert r; induction ops as [|o ops IH]; intros r Hr Hn; [by exists r|].
  assert (Hsplit : bytes_taken (o :: ops) = (bytes_taken [o] + bytes_taken ops)%nat)
    by (unfold bytes_taken; simpl; lia).
  rewrite Hsplit in *. destruct (do_op_ok r o Hr ltac:(lia)) as (r1 & E1 & Hr1 & Hrem1 & _).
  destruct (IH r1 Hr1) as (r2 & E2 & Hr2 & Hrem2); [rewrite Hrem1, length_drop; lia|].
  exists r2. cbn [run]. rewrite E1. cbn [obind]. split; [done|]. split; [done|].
  by rewrite Hrem2, Hrem1, drop_drop.
Qed.

Lemma reads_ok ops : forall r, reading r -> (bytes_taken ops <= length (reader_remaining codec r))%nat ->
  exists r', reads r ops = Ok (take (bytes_taken ops) (reader_remaining codec r), r').
Proof.
  induction ops as [|o ops IH]; intros r Hr Hn; [by exists r|].
  assert (Hsplit : bytes_taken (o :: ops) = (bytes_taken [o] + bytes_taken ops)%nat) by (unfold bytes_taken; simpl; lia).
  rewrite Hsplit in *. destruct (do_op_ok r o Hr ltac:(lia)) as (r1 & E1 & Hr1 & Hrem1 & _).
  destruct (IH r1 Hr1) as (r2 & E2); [rewrite Hrem1, length_drop; lia|]. exists r2. rewrite Hrem1 in E2.
  destruct o as [n| | |]; cbn [reads]; try (rewrite E1; cbn [obind]; exact E2).
  replace (bytes_taken [Take n]) with n in * by (unfold bytes_taken; simpl; lia). cbn [do_op] in E1. destruct Hr as (Hr & _).
  destruct (take_bytes_law codec debug page fstart p__allow_stalls preload_bytes release_build stalls_allowed n r Hr ltac:(lia)) as (r1' & E & _).
  rewrite E in E1 |- *. cbn [obind] in E1 |- *. injection E1 as ->. rewrite E2. cbn [obind]. do 2 f_equal.
  by rewrite <- take_take_drop.
Qed.

(** a reader that has just been opened, with the decompressor's thread or without *)
Lemma opened_reading (threaded : bool) r chunks : reader_inv codec r chunks ->
  checkpoint_position r = 0 /\ freed_position r = 0 /\ discarded r = [] ->
  reading (if threaded then r else disable_multithreaded_read r) /\
  reader_remaining codec (if threaded then r else disable_multithreaded_read r) = reader_remaining codec r.
Proof.
  intros Hi (Hc & Hf & Hd). pose proof Hi as [J1 J2 J3 J4 J5 J6 J7].
  assert (Hm : marks_ok r). { split; rewrite ?Hc, ?Hf, ?Hd; [done| |constructor]. change (0 =? UINT64_MAX) with false. cbv iota. lia. }
  destruct threaded; [split; [split; [by exists chunks|done]|done]|]. split; [|done]. split; [|split; [|done]].
  - exists chunks. by split.
  - by destruct Hm.
Qed.

Lemma pages_behind_reader r :
  reading r -> Forall (fun p => 0 <= p.1 /\ p.1 + p.2 <= read_position r) (discarded r).
Proof.
  intros (_ & [M1 M2 M3] & _). eapply Forall_impl; [exact M3|]. simpl. intros p [? ?]. split; [done|].
  destruct (checkpoint_position r =? UINT64_MAX); lia.
Qed.
End Checkpoints.

(** ** Properties *)

(** Reading takes exactly the next bytes of the stream, whatever the
    decompressor did before: a read within the stream neither fails nor waits for
    ever, in threaded, on-demand and fixed-buffer mode. *)
Theorem reader_takes_prefix (codec : list byte -> Z -> option (list byte)) (debug : bool)
    (page_size fstart : Z) (p__allow_stalls : bool) (preload_bytes : Z) (r : file_reader) (n : nat)
    (Hrelease : debug = false) (Hstall : p__allow_stalls = true \/ preload_bytes <= 0)
    (Hr : reader_ok codec r) (Hn : (n <= length (reader_remaining codec r))%nat) :
  exists r', take_bytes codec debug page_size fstart p__allow_stalls preload_bytes n r =
               Ok (take n (reader_remaining codec r), r') /\
    reader_ok codec r' /\ reader_remaining codec r' = drop n (reader_remaining codec r).
Proof.
  by apply take_bytes_source_law.
Qed.

Definition demo_decoder (z : list byte) (_ : Z) : option (list byte) := Some (rev z).

Definition demo_reader : file_reader :=
  FileReader true false false false [x01] 6 6 0 0 0 0 1
    (encoded LAVATUBE_COMPRESSION_LZ4 demo_codec [] [x02; x03; x04] ++
     encoded LAVATUBE_COMPRESSION_LZ4 demo_codec [] [x05; x06]) 0 0 37 2 3 [].

Lemma demo_reader_inv : reader_inv demo_decoder demo_reader [[x02; x03; x04]; [x05; x06]].
Proof.
  split; [by vm_compute|by vm_compute| |by vm_compute|by vm_compute|reflexivity|discriminate].
  repeat split; try reflexivity; try (by vm_compute); apply Nat.leb_le; reflexivity.
Qed.

Lemma reader_takes_prefix_witness :
  exists r', take_bytes demo_decoder false 4096 0 true 0 5 demo_reader =
               Ok (take 5 (reader_remaining demo_decoder demo_reader), r') /\
    reader_ok demo_decoder r' /\
    reader_remaining demo_decoder r' = drop 5 (reader_remaining demo_decoder demo_reader).
Proof.
  apply reader_takes_prefix; [done|by left|by exists [[x02; x03; x04]; [x05; x06]]; apply demo_reader_inv|].
  vm_compute. lia.
Defined.

(** However reads, checkpoints, releases and decompressor rounds interleave,
    no assertion fails, the stream seen is the same, and every page handed back
    to the system lies wholly before the position of the next read. *)
Theorem checkpoints_keep_unread (codec : list byte -> Z -> option (list byte)) (debug : bool)
    (k fstart : Z) (p__allow_stalls : bool) (preload_bytes : Z) (r : file_reader) (ops : list op)
    (Hrelease : debug = false) (Hstall : p__allow_stalls = true \/ preload_bytes <= 0) (Hk : 0 <= k)
    (Hr : reading codec r) (Hn : (bytes_taken ops <= length (reader_remaining codec r))%nat) :
  exists r', run codec debug k fstart p__allow_stalls preload_bytes r ops = Ok r' /\
    reader_remaining codec r' = drop (bytes_taken ops) (reader_remaining codec r) /\
    Forall (fun p => 0 <= p.1 /\ p.1 + p.2 <= read_position r') (discarded r').
Proof.
  destruct (run_ok codec debug k fstart p__allow_stalls preload_bytes Hrelease Hstall Hk ops r Hr Hn)
    as (r' & E & Hr' & Hrem).
  exists r'. split; [done|]. split; [done|]. by apply (pages_behind_reader codec).
Qed.

Lemma checkpoints_keep_unread_witness :
  exists r', run demo_decoder false 0 0 true 0 demo_reader
      [Take 3; SetCheckpoint; Take 2; ReleaseCheckpoint; Decompress; Take 1] = Ok r' /\
    reader_remaining demo_decoder r' =
      drop (bytes_taken [Take 3; SetCheckpoint; Take 2; ReleaseCheckpoint; Decompress; Take 1])
        (reader_remaining demo_decoder demo_reader) /\
    Forall (fun p => 0 <= p.1 /\ p.1 + p.2 <= read_position r') (discarded r').
Proof.
  apply checkpoints_keep_unread; [done|by left|lia| |vm_compute; lia].
  split; [by exists [[x02; x03; x04]; [x05; x06]]; apply demo_reader_inv|].
  split; [split; [vm_compute; discriminate|vm_compute; intuition discriminate|constructor]|vm_compute; discriminate].
Defined.

(** C1: for every compression type, a trace file produced by any interleaving of
    the writer's threads opens in the reader, and reads return exactly the sequence of
    bytes that was written: however reads of any sizes, checkpoints, releases of pages
    and rounds of the decompressor follow each other, with its thread or on demand, no
    read within the stream fails or waits for ever. This is for release builds, since a
    debug build fails an assertion on the last read ([last_read_trips_assertion]), and for
    readers that may stall or do not preload, since the others abort where they would
    have to wait. *)
Theorem trace_file_roundtrip (t : lavatube_compression_type)
    (compressor : list byte -> option (list byte)) (decompressor : list byte -> Z -> option (list byte))
    (heap_after : list byte) (size start : Z) (preload : bool) (events : list event)
    (Htotal : forall d, exists z, compressor d = Some z)
    (Hlib : forall d z, compressor d = Some z -> decompressor z (Z.of_nat (length d)) = Some d)
    (Hheap : length heap_after = 16%nat) (Hsize : 0 <= size)
    (Hsome : bytes_put events <> []) (Hmax : Z.of_nat (length (bytes_put events)) <= UINT64_MAX)
    (k fstart : Z) (p__allow_stalls : bool) (preload_bytes : Z)
    (Hk : 0 <= k) (Hstall : p__allow_stalls = true \/ preload_bytes <= 0) :
  exists w1, FileWriter.run t compressor heap_after (set t (new_file_writer size)) events = Ok w1 /\
    (holding w1 = false ->
     exists w2, finalize_begin t compressor heap_after w1 = Ok w2 /\
     forall schedule1, (compressor_rounds w2 <= turns true schedule1)%nat ->
     exists w3, run_workers t compressor heap_after w2 schedule1 = Ok w3 /\
     forall schedule2, (serializer_rounds w3 <= turns false schedule2)%nat ->
     exists w4 file w5, run_workers t compressor heap_after (finalize_compressed w3) schedule2 = Ok w4 /\
       finalize_close w4 = Ok (file, w5) /\
       (Z.of_nat (length file) <= UINT64_MAX ->
        let n := Z.of_nat (length (bytes_put events)) in
        exists r, init file start n n preload = Ok r /\ reader_ok decompressor r /\
                  reader_remaining decompressor r = bytes_put events /\
        forall (threaded : bool) (ops : list op), (bytes_taken ops <= length (bytes_put events))%nat ->
        exists r', reads decompressor false k fstart p__allow_stalls preload_bytes
                     (if threaded then r else disable_multithreaded_read r) ops =
                   Ok (take (bytes_taken ops) (bytes_put events), r'))).
Proof.
  destruct (writer_run_file t compressor heap_after size events Htotal Hsize) as (w1 & E1 & H1).
  exists w1. split; [done|]. intros Hh. destruct (H1 Hh) as (w2 & E2 & H2). exists w2. split; [done|].
  intros sch1 Hs1. destruct (H2 sch1 Hs1) as (w3 & E3 & _ & H3). exists w3. split; [done|].
  intros sch2 Hs2. destruct (H3 sch2 Hs2) as (w4 & chunks & w5 & E4 & _ & E5 & Hc & Hne).
  exists w4, (file_of t compressor heap_after chunks), w5. split; [done|]. split; [done|]. intros Hfile.
  rewrite <- Hc in *. assert (Hnil : chunks <> []) by (intros ->; by apply Hsome).
  destruct (init_file_of t compressor decompressor heap_after Hlib Htotal Hheap chunks start preload Hne Hnil Hfile Hmax)
    as (r & E & Hi & Hp & Hd & _ & Hm).
  assert (Hrem : reader_remaining decompressor r = concat chunks).
  { unfold reader_remaining. by rewrite (future_chunks _ _ _ Hi), Hp, Hd. }
  exists r. split; [done|]. split; [by exists chunks|]. split; [done|]. intros threaded ops Hops.
  pose proof (opened_reading decompressor threaded r chunks Hi Hm) as [Hrd Hsame].
  destruct (reads_ok decompressor false k fstart p__allow_stalls preload_bytes eq_refl Hstall Hk ops _ Hrd) as (r' & Er);
    [by rewrite Hsame, Hrem|]. exists r'. by rewrite Er, Hsame, Hrem.
Qed.

Lemma trace_file_roundtrip_witness :
  exists w1, FileWriter.run LAVATUBE_COMPRESSION_LZ4 demo_codec (repeat x00 16)
      (set LAVATUBE_COMPRESSION_LZ4 (new_file_writer 4)) demo_events = Ok w1 /\
    (holding w1 = false ->
     exists w2, finalize_begin LAVATUBE_COMPRESSION_LZ4 demo_codec (repeat x00 16) w1 = Ok w2 /\
     forall schedule1, (compressor_rounds w2 <= turns true schedule1)%nat ->
     exists w3, run_workers LAVATUBE_COMPRESSION_LZ4 demo_codec (repeat x00 16) w2 schedule1 = Ok w3 /\
     forall schedule2, (serializer_rounds w3 <= turns false schedule2)%nat ->
     exists w4 file w5, run_workers LAVATUBE_COMPRESSION_LZ4 demo_codec (repeat x00 16) (finalize_compressed w3) schedule2 = Ok w4 /\
       finalize_close w4 = Ok (file, w5) /\
       (Z.of_nat (length file) <= UINT64_MAX ->
        let n := Z.of_nat (length (bytes_put demo_events)) in
        exists r, init file 0 n n true = Ok r /\ reader_ok demo_decoder r /\
                  reader_remaining demo_decoder r = bytes_put demo_events /\
        forall (threaded : bool) (ops : list op), (bytes_taken ops <= length (bytes_put demo_events))%nat ->
        exists r', reads demo_decoder false 12 0 true 0 (if threaded then r else disable_multithreaded_read r) ops =
                   Ok (take (bytes_taken ops) (bytes_put demo_events), r'))).
Proof.
  apply trace_file_roundtrip; [exact demo_codec_total| |reflexivity|lia|discriminate|vm_compute; discriminate|lia|by left].
  intros d z [= <-]. unfold demo_decoder. by rewrite rev_involutive.
Defined.

(** With assertions compiled in, a read that needs the last bytes of a stream
    while they are still being decompressed fails the assertion that more than
    the requested size remains beyond the decompressed part. *)
Theorem last_read_trips_assertion :
  take_bytes demo_decoder true 4096 0 true 0 5 demo_reader = Fail AssertFailed /\
  exists r', take_bytes demo_decoder false 4096 0 true 0 5 demo_reader =
               Ok ([x01; x02; x03; x04; x05], r').
Proof. split; [vm_compute; reflexivity|]. eexists. vm_compute. reflexivity. Qed.
