(* ===== verification/RandomAccess.v ===== *)
(** * The seekable trace reader (src/random_access_file_reader.h, .cpp)

    Opens a chunk-compressed stream by scanning the chunk headers only, and
    serves reads at any position by decompressing the one chunk that holds it.
    Every [ABORT] of the code is a fault of the model. The JSON value that
    [load_packet_checkpoints] walks is given by its shape: absent, not an array,
    or an array of entries that are either a well-formed pair or not. *)

From Stdlib Require Import ZArith Lia Bool.
From Stdlib.Strings Require Import Byte.
From stdpp Require Import base numbers list.
From S2P Require Import Prelude Stream Patch FileWriter FileReader.

#[local] Open Scope Z_scope.

Record random_access_chunk_info := ChunkInfo {
  ci_compressed_offset : Z;
  ci_compressed_size : Z;
  ci_uncompressed_offset : Z;
  ci_uncompressed_size : Z
}.

Record packet_checkpoint := PacketCheckpoint {
  cp_packet : Z;
  cp_position : Z
}.

Record random_access_file_reader := RandomAccessReader {
  mMappedData : list byte;
  mChunks : list random_access_chunk_info;
  mPacketCheckpoints : list packet_checkpoint;
  mChunkData : list byte;
  mTotalUncompressed : Z;
  mPosition : Z;
  mLoadedChunk : option nat;    (** [None] is [SIZE_MAX] *)
  mDecompressionCount : Z;
  mCompressionAlgorithm : Z;
  mStreamVersion : Z
}.

Definition INT_MAX : Z := 2 ^ 31 - 1.

Section RandomAccess.
Context (codec : list byte -> Z -> option (list byte)).

(** ** Opening *)

Definition word_at (data : list byte) (offset : Z) : Z := le_decode (slice (Z.to_nat offset) 8 data).

(** the scan of the chunk headers from [stream_offset] on *)
Fixpoint scan_chunks (fuel : nat) (data : list byte) (stream_offset uncompressed_offset : Z)
  : outcome (list random_access_chunk_info * Z) :=
  let size := Z.of_nat (length data) in
  if stream_offset <? size then
    match fuel with
    | O => Fail OutOfFuel
    | S fuel' =>
        let* _ := require (16 <=? size - stream_offset) AbortCall in
        let compressed_size := word_at data stream_offset in
        let uncompressed_size := word_at data (stream_offset + 8) in
        let stream_offset := stream_offset + 16 in
        let* _ := require (negb ((compressed_size =? 0) || (uncompressed_size =? 0))) AbortCall in
        let* _ := require (compressed_size <=? size - stream_offset) AbortCall in
        let* _ := require (uncompressed_size <=? UINT64_MAX - uncompressed_offset) AbortCall in
        let info := ChunkInfo stream_offset compressed_size uncompressed_offset uncompressed_size in
        let* (chunks, total) := scan_chunks fuel' data (stream_offset + compressed_size)
                                  (uncompressed_offset + uncompressed_size) in
        Ok (info :: chunks, total)
    end
  else Ok ([], uncompressed_offset).

Definition initialize (data : list byte) : outcome random_access_file_reader :=
  let size := Z.of_nat (length data) in
  let* (version, algorithm, stream_offset) :=
    if (7 <=? size) && bool_decide (take 7 data = magic_word) then
      let* _ := require (39 <=? size) AbortCall in
      Ok (le_decode (slice 7 1 data), le_decode (slice 8 1 data), 39)
    else Ok (0, compression_code LAVATUBE_COMPRESSION_DENSITY, 0) in
  let* _ := require ((algorithm =? 1) || (algorithm =? 2) || (algorithm =? 0)) AbortCall in
  let* (chunks, total) := scan_chunks (S (length data)) data stream_offset 0 in
  let* _ := require (negb (Nat.eqb (length chunks) 0)) AbortCall in
  Ok (RandomAccessReader data chunks [] [] total 0 None 0 algorithm version).

(** both constructors refuse an empty file before they scan it *)
Definition open_random_access (data : list byte) : outcome random_access_file_reader :=
  let* _ := require (negb (Nat.eqb (length data) 0)) AbortCall in
  initialize data.

(** ** Looking positions up *)

(** the binary search shared by [find_chunk] and [seek_to_packet]: the first
    index whose key is above [limit] *)
Fixpoint upper_bound (fuel : nat) (keys : list Z) (limit : Z) (first last : nat) : nat :=
  match fuel with
  | O => first
  | S fuel' =>
      if Nat.ltb first last then
        let middle := (first + (last - first) / 2)%nat in
        if nth middle keys 0 <=? limit then upper_bound fuel' keys limit (S middle) last
        else upper_bound fuel' keys limit first middle
      else first
  end.

Definition find_chunk (r : random_access_file_reader) (position : Z) : outcome nat :=
  let* _ := require (position <? mTotalUncompressed r) AssertFailed in
  let n := length (mChunks r) in
  let first := upper_bound n (map ci_uncompressed_offset (mChunks r)) position 0 n in
  let* _ := require (Nat.ltb 0 first) AssertFailed in
  Ok (first - 1)%nat.

Definition decompress_at (data : list byte) (algorithm : Z) (info : random_access_chunk_info) : outcome (list byte) :=
  let n := Z.to_nat (ci_compressed_size info) in
  let source := slice (Z.to_nat (ci_compressed_offset info)) n data in
  let usize := ci_uncompressed_size info in
  if algorithm =? 1 then
    match codec source usize with
    | None => Fail AbortCall
    | Some out => let* _ := require (Z.of_nat (length out) =? usize) AbortCall in Ok out
    end
  else if algorithm =? 2 then
    let* _ := require ((ci_compressed_size info <=? INT_MAX) && (usize <=? INT_MAX)) AbortCall in
    match codec source usize with
    | None => Fail AbortCall
    | Some out => let* _ := require (Z.of_nat (length out) =? usize) AbortCall in Ok out
    end
  else
    let legacy_size_valid := (usize <=? UINT64_MAX - 16) && (ci_compressed_size info =? usize + 16) in
    let* _ := require ((ci_compressed_size info =? usize) || legacy_size_valid) AbortCall in
    Ok (take (Z.to_nat usize) source).

Definition load_chunk (r : random_access_file_reader) (chunk_index : nat) : outcome random_access_file_reader :=
  if bool_decide (mLoadedChunk r = Some chunk_index) then Ok r
  else
    match nth_error (mChunks r) chunk_index with
    | None => Fail OutOfRange
    | Some info =>
        let* data := decompress_at (mMappedData r) (mCompressionAlgorithm r) info in
        Ok (RandomAccessReader (mMappedData r) (mChunks r) (mPacketCheckpoints r) data
              (mTotalUncompressed r) (mPosition r) (Some chunk_index) (mDecompressionCount r + 1)
              (mCompressionAlgorithm r) (mStreamVersion r))
    end.

Definition move_to (r : random_access_file_reader) (position : Z) : random_access_file_reader :=
  RandomAccessReader (mMappedData r) (mChunks r) (mPacketCheckpoints r) (mChunkData r)
    (mTotalUncompressed r) position (mLoadedChunk r) (mDecompressionCount r)
    (mCompressionAlgorithm r) (mStreamVersion r).

Definition seek (r : random_access_file_reader) (position : Z) : outcome random_access_file_reader :=
  let* _ := require (position <=? mTotalUncompressed r) AbortCall in
  Ok (move_to r position).

(** ** Packet checkpoints *)

Inductive json_checkpoints :=
  | JsonMissing
  | JsonNotArray
  | JsonArray (values : list (option (Z * Z))).

Definition previous_ok (checkpoints : list packet_checkpoint) (packet position : Z) : bool :=
  match last checkpoints with
  | None => true
  | Some previous => negb ((packet <=? cp_packet previous) || (position <=? cp_position previous))
  end.

(** the loop of [load_packet_checkpoints]; [first] holds in its first round *)
Fixpoint load_loop (total : Z) (first : bool) (acc : list packet_checkpoint) (values : list (option (Z * Z)))
  : outcome (list packet_checkpoint) :=
  match values with
  | [] => Ok acc
  | None :: _ => Fail AbortCall
  | Some (packet, position) :: rest =>
      let* _ := require (negb (position >=? total)) AbortCall in
      let* _ := require (negb (first && (negb (packet =? 0) || negb (position =? 0)))) AbortCall in
      let* _ := require (previous_ok acc packet position) AbortCall in
      load_loop total false (acc ++ [PacketCheckpoint packet position]) rest
  end.

Definition with_checkpoints (r : random_access_file_reader) (l : list packet_checkpoint) : random_access_file_reader :=
  RandomAccessReader (mMappedData r) (mChunks r) l (mChunkData r) (mTotalUncompressed r) (mPosition r)
    (mLoadedChunk r) (mDecompressionCount r) (mCompressionAlgorithm r) (mStreamVersion r).

Definition load_packet_checkpoints (r : random_access_file_reader) (frame_info : json_checkpoints)
  : outcome random_access_file_reader :=
  match frame_info with
  | JsonMissing => Ok (with_checkpoints r [])
  | JsonNotArray => Fail AbortCall
  | JsonArray values =>
      let* l := load_loop (mTotalUncompressed r) true [] values in
      Ok (with_checkpoints r l)
  end.

Definition seek_to_packet (r : random_access_file_reader) (packet : Z)
  : outcome (Z * random_access_file_reader) :=
  match mPacketCheckpoints r with
  | [] => let* r := seek r 0 in Ok (0, r)
  | l =>
      let n := length l in
      let first := upper_bound n (map cp_packet l) packet 0 n in
      let* _ := require (Nat.ltb 0 first) AssertFailed in
      match nth_error l (first - 1) with
      | None => Fail OutOfRange
      | Some checkpoint =>
          let* r := seek r (cp_position checkpoint) in Ok (cp_packet checkpoint, r)
      end
  end.

(** ** Reading *)

Definition remaining_bytes (r : random_access_file_reader) : Z := mTotalUncompressed r - mPosition r.

Fixpoint read_loop (fuel : nat) (r : random_access_file_reader) (byte_count : Z) (output : list byte)
  : outcome (list byte * random_access_file_reader) :=
  if byte_count >? 0 then
    match fuel with
    | O => Fail OutOfFuel
    | S fuel' =>
        let* chunk_index := find_chunk r (mPosition r) in
        let* r := load_chunk r chunk_index in
        match nth_error (mChunks r) chunk_index with
        | None => Fail OutOfRange
        | Some info =>
            let offset := mPosition r - ci_uncompressed_offset info in
            let available := ci_uncompressed_size info - offset in
            let copy_size := Z.min byte_count available in
            let piece := slice (Z.to_nat offset) (Z.to_nat copy_size) (mChunkData r) in
            read_loop fuel' (move_to r (mPosition r + copy_size)) (byte_count - copy_size) (output ++ piece)
        end
    end
  else Ok (output, r).

(** the destination is not null; a round copies a byte or more *)
Definition read_bytes (n : nat) (r : random_access_file_reader)
  : outcome (list byte * random_access_file_reader) :=
  let* _ := require (negb (Z.of_nat n >? remaining_bytes r)) AbortCall in
  read_loop n r (Z.of_nat n) [].

Definition ra_read_uint16_t (r : random_access_file_reader) : outcome (Z * random_access_file_reader) :=
  let* (bs, r) := read_bytes 2 r in Ok (le_decode bs, r).

Definition ra_read_string (r : random_access_file_reader) : outcome (list byte * random_access_file_reader) :=
  let* (len, r) := ra_read_uint16_t r in
  if len >? 0 then read_bytes (Z.to_nat len) r else Ok ([], r).
End RandomAccess.

(** ** The binary search *)

Definition ascending (keys : list Z) : Prop :=
  forall i j, (i <= j < length keys)%nat -> nth i keys 0 <= nth j keys 0.

Lemma upper_bound_spec fuel keys limit first last :
  ascending keys -> (first <= last <= length keys)%nat -> (last - first <= fuel)%nat ->
  (forall i, (i < first)%nat -> nth i keys 0 <= limit) ->
  (forall i, (last <= i < length keys)%nat -> limit < nth i keys 0) ->
  let k := upper_bound fuel keys limit first last in
  (first <= k <= last)%nat /\ (forall i, (i < k)%nat -> nth i keys 0 <= limit) /\
  (forall i, (k <= i < length keys)%nat -> limit < nth i keys 0).
Proof.
  intros Hasc. revert first last; induction fuel as [|fuel IH]; intros first last Hb Hf Hlo Hhi; cbn [upper_bound].
  - replace last with first in * by lia. auto.
  - destruct (Nat.ltb_spec first last) as [Hlt|Hge].
    + set (middle := (first + (last - first) / 2)%nat).
      assert (Hm : (first <= middle < last)%nat).
      { subst middle. pose proof (Nat.div_lt (last - first) 2 ltac:(lia) ltac:(lia)). lia. }
      destruct (nth middle keys 0 <=? limit) eqn:E; bool_to_prop.
      * destruct (IH (S middle) last ltac:(lia) ltac:(lia)) as (H1 & H2 & H3); [|done|].
        { intros i Hi. specialize (Hasc i middle ltac:(lia)). lia. }
        set (k := upper_bound _ _ _ _ _) in *. split; [lia|]. by split.
      * destruct (IH first middle ltac:(lia) ltac:(lia)) as (H1 & H2 & H3); [done| |].
        { intros i Hi. specialize (Hasc middle i ltac:(lia)). lia. }
        set (k := upper_bound _ _ _ _ _) in *. split; [lia|]. by split.
    + replace last with first in * by lia. auto.
Qed.

(** ** What an open reader holds *)

Section Contents.
Context (codec : list byte -> Z -> option (list byte)).

Abbreviation decomp := (decompress_at codec).

Fixpoint described (data : list byte) (algorithm : Z) (offset : Z)
    (infos : list random_access_chunk_info) (chunks : list (list byte)) : Prop :=
  match infos, chunks with
  | [], [] => True
  | info :: infos', c :: chunks' =>
      ci_uncompressed_offset info = offset /\ ci_uncompressed_size info = Z.of_nat (length c) /\ c <> [] /\
      decomp data algorithm info = Ok c /\
      described data algorithm (offset + Z.of_nat (length c)) infos' chunks'
  | _, _ => False
  end.

Lemma described_nth data algorithm infos : forall offset chunks i info,
  described data algorithm offset infos chunks -> nth_error infos i = Some info ->
  exists c, nth_error chunks i = Some c /\
    ci_uncompressed_offset info = offset + Z.of_nat (length (concat (take i chunks))) /\
    ci_uncompressed_size info = Z.of_nat (length c) /\ c <> [] /\ decomp data algorithm info = Ok c.
Proof.
  induction infos as [|info0 infos IH]; intros offset chunks i info Hd Hn; [by destruct i|].
  destruct chunks as [|c chunks]; [done|]. destruct Hd as (H1 & H2 & H3 & H4 & H5). destruct i as [|i]; simpl in *.
  - injection Hn as <-. exists c. simpl. split; [done|]. split; [lia|]. done.
  - destruct (IH _ _ _ _ H5 Hn) as (c' & E1 & E2 & E3). exists c'. split; [done|].
    split; [rewrite E2, length_app; lia|done].
Qed.

Lemma described_length data algorithm infos : forall offset chunks,
  described data algorithm offset infos chunks -> length infos = length chunks.
Proof.
  induction infos as [|info infos IH]; intros offset [|c chunks] Hd; simpl in *; try done.
  f_equal. eapply IH, Hd.
Qed.

Lemma concat_take_le {A} (l : list (list A)) i j :
  (i <= j)%nat -> (length (concat (take i l)) <= length (concat (take j l)))%nat.
Proof.
  intros Hij. replace j with (i + (j - i))%nat by lia. generalize (j - i)%nat as k. clear Hij j. intros k.
  revert l; induction i as [|i IH]; intros l; simpl; [lia|].
  destruct l as [|x l]; simpl; [lia|]. rewrite !length_app. specialize (IH l). lia.
Qed.

Record holds (r : random_access_file_reader) (chunks : list (list byte)) : Prop := {
  ho_described : described (mMappedData r) (mCompressionAlgorithm r) 0 (mChunks r) chunks;
  ho_total : mTotalUncompressed r = Z.of_nat (length (concat chunks));
  ho_position : 0 <= mPosition r <= mTotalUncompressed r;
  ho_loaded : match mLoadedChunk r with
              | None => True
              | Some i => nth_error chunks i = Some (mChunkData r)
              end
}.

Definition content (chunks : list (list byte)) : list byte := concat chunks.

Lemma offsets_nth r chunks i :
  holds r chunks -> (i < length (mChunks r))%nat ->
  nth i (map ci_uncompressed_offset (mChunks r)) 0 = Z.of_nat (length (concat (take i chunks))).
Proof.
  intros Hh Hi. destruct (nth_error (mChunks r) i) as [info|] eqn:E.
  - destruct (described_nth _ _ _ _ _ _ _ (ho_described _ _ Hh) E) as (c & _ & Ho & _).
    rewrite (nth_error_nth _ _ 0 (map_nth_error ci_uncompressed_offset _ _ E)). lia.
  - apply nth_error_None in E. lia.
Qed.

Lemma offsets_ascending r chunks : holds r chunks -> ascending (map ci_uncompressed_offset (mChunks r)).
Proof.
  intros Hh i j Hij. rewrite length_map in Hij. rewrite !(offsets_nth r chunks) by (done || lia).
  pose proof (concat_take_le chunks i j ltac:(lia)). lia.
Qed.

Lemma find_chunk_spec r chunks position :
  holds r chunks -> 0 <= position < mTotalUncompressed r ->
  exists i info c, find_chunk r position = Ok i /\ nth_error (mChunks r) i = Some info /\
    nth_error chunks i = Some c /\ ci_uncompressed_size info = Z.of_nat (length c) /\
    ci_uncompressed_offset info = Z.of_nat (length (concat (take i chunks))) /\
    decomp (mMappedData r) (mCompressionAlgorithm r) info = Ok c /\
    ci_uncompressed_offset info <= position < ci_uncompressed_offset info + ci_uncompressed_size info.
Proof.
  intros Hh Hp. pose proof (described_length _ _ _ _ _ (ho_described _ _ Hh)) as Hlen.
  unfold find_chunk. rewrite (proj2 (Z.ltb_lt _ _)) by lia. cbn [obind require].
  set (n := length (mChunks r)). set (keys := map ci_uncompressed_offset (mChunks r)).
  assert (Hk : length keys = n) by (apply length_map).
  destruct (upper_bound_spec n keys position 0 n (offsets_ascending r chunks Hh)) as (H1 & H2 & H3); try lia.
  set (k := upper_bound n keys position 0 n) in *.
  assert (Hpos : (0 < n)%nat).
  { pose proof (ho_total _ _ Hh) as Ht. subst n. rewrite Hlen. destruct chunks; simpl in *; lia. }
  assert (Hk0 : (0 < k)%nat).
  { destruct (decide (k = 0)%nat) as [E|]; [|lia]. specialize (H3 0%nat ltac:(lia)).
    unfold keys in H3. rewrite (offsets_nth r chunks) in H3 by (done || lia). simpl in H3. lia. }
  rewrite (proj2 (Nat.ltb_lt 0 k)) by done. cbn [obind require].
  destruct (nth_error (mChunks r) (k - 1)) as [info|] eqn:E; [|apply nth_error_None in E; lia].
  destruct (described_nth _ _ _ _ _ _ _ (ho_described _ _ Hh) E) as (c & Ec & Ho & Hs & Hc & Hd).
  exists (k - 1)%nat, info, c. do 5 (split; [done || lia|]). split; [done|].
  specialize (H2 (k - 1)%nat ltac:(lia)). unfold keys in H2. rewrite (offsets_nth r chunks) in H2 by (done || lia).
  split; [lia|]. rewrite Ho, Hs.
  assert (Hnext : Z.of_nat (length (concat (take k chunks))) =
    Z.of_nat (length (concat (take (k - 1) chunks))) + Z.of_nat (length c)).
  { replace k with (S (k - 1)) at 1 by lia. rewrite (take_S_r _ _ c) by (by rewrite <- nth_error_lookup).
    rewrite concat_app, length_app. simpl. rewrite app_nil_r. lia. }
  destruct (decide (k < n)%nat) as [Hlt|Hge].
  - specialize (H3 k ltac:(lia)). unfold keys in H3. rewrite (offsets_nth r chunks) in H3 by (done || lia). lia.
  - rewrite (ho_total _ _ Hh) in Hp. rewrite (take_ge chunks k) in Hnext by lia. lia.
Qed.

(** ** Reading is slicing the contents *)

Lemma slice_inside (a b c : list byte) off n :
  (off + n <= length b)%nat -> slice (length a + off) n (a ++ b ++ c) = slice off n b.
Proof.
  intros Hl. apply list_eq. intros i. rewrite !slice_lookup. case_decide; [|done].
  rewrite lookup_app_r by lia. rewrite lookup_app_l by lia. f_equal. lia.
Qed.

Lemma slice_slice_app (l : list byte) p a b :
  (p + a + b <= length l)%nat -> slice p a l ++ slice (p + a) b l = slice p (a + b) l.
Proof.
  intros Hl. apply list_eq. intros i. rewrite slice_lookup.
  destruct (decide (i < a)%nat).
  - rewrite lookup_app_l by (rewrite length_slice; lia). rewrite slice_lookup, !decide_True by lia. done.
  - rewrite lookup_app_r by (rewrite length_slice; lia). rewrite length_slice, slice_lookup.
    replace (Nat.min a (length l - p)) with a by lia.
    destruct (decide (i < a + b)%nat).
    + rewrite decide_True by lia. f_equal. lia.
    + rewrite decide_False by lia. done.
Qed.

Lemma load_chunk_spec r chunks i info c :
  holds r chunks -> nth_error (mChunks r) i = Some info -> nth_error chunks i = Some c ->
  decomp (mMappedData r) (mCompressionAlgorithm r) info = Ok c ->
  exists r', load_chunk codec r i = Ok r' /\ holds r' chunks /\ mChunkData r' = c /\
    mPosition r' = mPosition r /\ mChunks r' = mChunks r /\ mTotalUncompressed r' = mTotalUncompressed r /\
    mLoadedChunk r' = Some i.
Proof.
  intros Hh Hi Hc Hd. unfold load_chunk. case_bool_decide as Hl.
  - exists r. split; [done|]. split; [done|]. pose proof (ho_loaded _ _ Hh) as Hload. rewrite Hl, Hc in Hload.
    injection Hload as ->. done.
  - rewrite Hi, Hd. cbn [obind]. eexists. split; [reflexivity|]. destruct Hh. split; [by split|done].
Qed.

Lemma move_holds r chunks p :
  holds r chunks -> 0 <= p <= mTotalUncompressed r -> holds (move_to r p) chunks.
Proof. intros [] Hp. by split. Qed.

Lemma read_loop_spec chunks fuel : forall r n output,
  holds r chunks -> (n <= fuel)%nat -> mPosition r + Z.of_nat n <= mTotalUncompressed r ->
  exists r', read_loop codec fuel r (Z.of_nat n) output =
      Ok (output ++ slice (Z.to_nat (mPosition r)) n (content chunks), r') /\ holds r' chunks /\
    mPosition r' = mPosition r + Z.of_nat n /\ mTotalUncompressed r' = mTotalUncompressed r.
Proof.
  induction fuel as [|fuel IH]; intros r n output Hh Hn Hp; cbn [read_loop];
    (destruct (Z.of_nat n >? 0) eqn:En; bool_to_prop;
     [|replace n with 0%nat by lia; exists r; unfold slice; simpl; rewrite app_nil_r; repeat split; auto; try apply Hh; lia]).
  { lia. }
  pose proof (ho_position _ _ Hh) as Hpos.
  destruct (find_chunk_spec r chunks (mPosition r) Hh ltac:(lia)) as (i & info & c & -> & Hi & Hc & Hs & Ho & Hd & Hin).
  cbn [obind]. destruct (load_chunk_spec r chunks i info c Hh Hi Hc Hd) as (r1 & -> & Hh1 & Hd1 & Hp1 & Hch & Ht1 & _).
  cbn [obind]. rewrite Hch, Hi, Hp1, Hd1.
  set (off := mPosition r - ci_uncompressed_offset info) in *.
  set (copy := Z.min (Z.of_nat n) (ci_uncompressed_size info - off)).
  assert (Hcopy : 0 < copy <= Z.of_nat n /\ off + copy <= Z.of_nat (length c) /\ 0 <= off) by lia.
  assert (Hpiece : slice (Z.to_nat off) (Z.to_nat copy) c = slice (Z.to_nat (mPosition r)) (Z.to_nat copy) (content chunks)).
  { unfold content. rewrite nth_error_lookup in Hc. rewrite <- (take_drop_middle _ _ _ Hc), concat_app. simpl.
    replace (Z.to_nat (mPosition r)) with (length (concat (take i chunks)) + Z.to_nat off)%nat by lia.
    by rewrite slice_inside by lia. }
  rewrite Hpiece.
  replace (Z.of_nat n - copy) with (Z.of_nat (n - Z.to_nat copy)) by lia.
  destruct (IH (move_to r1 (mPosition r + copy)) (n - Z.to_nat copy)%nat
    (output ++ slice (Z.to_nat (mPosition r)) (Z.to_nat copy) (content chunks)))
    as (r2 & E2 & Hh2 & Hp2 & Ht2); [apply move_holds; [done|lia]|lia|simpl; lia|].
  exists r2. rewrite E2. split; [|split; [done|simpl in *; split; [lia|congruence]]].
  do 2 f_equal. rewrite <- app_assoc. f_equal. simpl.
  replace (Z.to_nat (mPosition r + copy)) with (Z.to_nat (mPosition r) + Z.to_nat copy)%nat by lia.
  rewrite slice_slice_app; [f_equal; lia|]. pose proof (ho_total _ _ Hh) as Ht. unfold content. lia.
Qed.

Lemma read_bytes_spec r chunks n :
  holds r chunks ->
  if Z.of_nat n <=? remaining_bytes r then
    exists r', read_bytes codec n r = Ok (slice (Z.to_nat (mPosition r)) n (content chunks), r') /\ holds r' chunks /\
      mPosition r' = mPosition r + Z.of_nat n /\ mTotalUncompressed r' = mTotalUncompressed r
  else read_bytes codec n r = Fail AbortCall.
Proof.
  intros Hh. unfold read_bytes. case_bool; rewrite Z.gtb_ltb.
  - rewrite (proj2 (Z.ltb_ge _ _)) by (bool_to_prop; lia). cbn [negb obind require].
    unfold remaining_bytes in C. bool_to_prop.
    exact (read_loop_spec chunks n r n [] Hh ltac:(lia) ltac:(lia)).
  - rewrite (proj2 (Z.ltb_lt _ _)) by (bool_to_prop; lia). done.
Qed.

(** ** Scanning a sequence of chunks *)

(** a chunk as it lies in the stream: compressed payload and contents *)
Definition frame (f : list byte * list byte) : list byte :=
  le_encode 8 (Z.of_nat (length f.1)) ++ le_encode 8 (Z.of_nat (length f.2)) ++ f.1.

Definition decodes (whole : list byte) (algorithm : Z) (f : list byte * list byte) : Prop :=
  f.1 <> [] /\ f.2 <> [] /\
  forall off uo, slice (Z.to_nat off) (length f.1) whole = f.1 ->
    decomp whole algorithm (ChunkInfo off (Z.of_nat (length f.1)) uo (Z.of_nat (length f.2))) = Ok f.2.

Lemma slice_here (pre a post : list byte) n : n = length a -> slice (length pre) n (pre ++ a ++ post) = a.
Proof. intros ->. unfold slice. by rewrite drop_app_length, take_app_length. Qed.

Lemma length_frame f : length (frame f) = (16 + length f.1)%nat.
Proof. unfold frame. rewrite !length_app, !length_le_encode. lia. Qed.

Lemma word_at_here (pre post : list byte) z off :
  Z.to_nat off = length pre -> 0 <= z <= UINT64_MAX -> word_at (pre ++ le_encode 8 z ++ post) off = z.
Proof.
  intros Ho Hz. unfold word_at. rewrite Ho, slice_here by (by rewrite length_le_encode).
  apply le_decode_encode_small. u_lia.
Qed.

Lemma frame_words pre f post :
  Z.of_nat (length f.1) <= UINT64_MAX -> Z.of_nat (length f.2) <= UINT64_MAX ->
  let whole := pre ++ frame f ++ post in
  word_at whole (Z.of_nat (length pre)) = Z.of_nat (length f.1) /\
  word_at whole (Z.of_nat (length pre) + 8) = Z.of_nat (length f.2) /\
  slice (Z.to_nat (Z.of_nat (length pre) + 16)) (length f.1) whole = f.1.
Proof.
  intros H1 H2 whole. subst whole. unfold frame. rewrite <- !app_assoc. split; [apply word_at_here; lia|]. split.
  - rewrite (app_assoc pre). apply word_at_here; [rewrite length_app, length_le_encode|]; lia.
  - rewrite (app_assoc pre), (app_assoc (pre ++ _)).
    replace (Z.to_nat (Z.of_nat (length pre) + 16))
      with (length ((pre ++ le_encode 8 (Z.of_nat (length f.1))) ++ le_encode 8 (Z.of_nat (length f.2))))
      by (rewrite !length_app, !length_le_encode; lia).
    by apply slice_here.
Qed.

Lemma scan_frames whole algorithm fuel : forall frames pre uoff,
  whole = pre ++ concat (map frame frames) -> Z.of_nat (length whole) <= UINT64_MAX ->
  (length whole - length pre < fuel)%nat -> 0 <= uoff ->
  uoff + Z.of_nat (length (concat (map snd frames))) <= UINT64_MAX ->
  Forall (decodes whole algorithm) frames ->
  exists infos, scan_chunks fuel whole (Z.of_nat (length pre)) uoff =
      Ok (infos, uoff + Z.of_nat (length (concat (map snd frames)))) /\
    described whole algorithm uoff infos (map snd frames) /\ length infos = length frames.
Proof.
  induction fuel as [|fuel IH]; intros frames pre uoff Hw Hmax Hf Hu Hsz Hdec; [lia|].
  destruct frames as [|[p d] frames]; cbn [map concat snd] in *.
  - exists []. cbn [scan_chunks]. rewrite app_nil_r in Hw. subst pre.
    rewrite (proj2 (Z.ltb_ge _ _)) by lia. simpl. by rewrite Z.add_0_r.
  - inversion Hdec as [|? ? Hd Hdec']; subst x l. destruct Hd as (Hp & Hd & Hok). simpl in Hp, Hd, Hok.
    assert (Hlen : length whole = (length pre + (16 + length p) + length (concat (map frame frames)))%nat).
    { rewrite Hw, !length_app, length_frame. simpl. lia. }
    assert (Hlp : 0 < Z.of_nat (length p)) by (destruct p; [done|simpl; lia]).
    assert (Hld : 0 < Z.of_nat (length d)) by (destruct d; [done|simpl; lia]).
    rewrite length_app in Hsz.
    cbn [scan_chunks]. rewrite (proj2 (Z.ltb_lt _ _)) by lia.
    rewrite (proj2 (Z.leb_le 16 _)) by lia. cbn [obind require].
    destruct (frame_words pre (p, d) (concat (map frame frames)) ltac:(simpl; lia) ltac:(simpl; lia)) as (E1 & E2 & E3).
    rewrite <- Hw in E1, E2, E3. simpl in E1, E2, E3.
    rewrite E1, E2. rewrite (proj2 (Z.eqb_neq _ 0)), (proj2 (Z.eqb_neq (Z.of_nat (length d)) 0)) by lia.
    cbn [orb negb obind require].
    rewrite (proj2 (Z.leb_le (Z.of_nat (length p)) _)) by lia. cbn [obind require].
    rewrite (proj2 (Z.leb_le (Z.of_nat (length d)) _)) by lia. cbn [obind require].
    destruct (IH frames (pre ++ frame (p, d)) (uoff + Z.of_nat (length d))) as (infos & E & Hds & Hl); try done; try lia.
    { by rewrite <- app_assoc. }
    { rewrite length_app, length_frame. simpl. lia. }
    replace (Z.of_nat (length pre) + 16 + Z.of_nat (length p)) with (Z.of_nat (length (pre ++ frame (p, d))))
      by (rewrite length_app, length_frame; simpl; lia).
    rewrite E. cbn [obind]. eexists. split; [rewrite length_app; do 2 f_equal; lia|].
    split; [|simpl; lia]. simpl. split; [done|]. split; [done|]. split; [done|]. split; [by apply Hok|exact Hds].
Qed.
End Contents.

(** ** Files of the writer *)

Section Written.
Context (t : lavatube_compression_type).
Context (compressor : list byte -> option (list byte)) (decompressor : list byte -> Z -> option (list byte)).
Context (heap_after : list byte).

Hypothesis library_roundtrip : forall d z, compressor d = Some z ->
  decompressor z (Z.of_nat (length d)) = Some d.
(** Compressed data is never empty. *)
Hypothesis compressor_output : forall d, exists z, compressor d = Some z /\ z <> [].
Hypothesis heap_length : length heap_after = 16%nat.

Abbreviation encode_chunk := (encoded t compressor heap_after).

(** LZ4 chunks must stay within the [int] sizes of its interface *)
Definition lz4_sized (d : list byte) : Prop :=
  t = LAVATUBE_COMPRESSION_LZ4 -> Z.of_nat (length d) <= INT_MAX /\ Z.of_nat (length (encode_chunk d)) <= INT_MAX.

Lemma encoded_frame whole d :
  d <> [] -> lz4_sized d -> Z.of_nat (length d) + 16 <= UINT64_MAX ->
  exists p, encode_chunk d = frame (p, d) /\ decodes decompressor whole (compression_code t) (p, d).
Proof.
  intros Hd Hsz Hmax. destruct (compressor_output d) as (z & Hz & Hne). pose proof (library_roundtrip d z Hz) as Hdec.
  unfold lz4_sized in Hsz. unfold encoded, compress_chunk in *.
  destruct t; rewrite ?Hz in *; cbn [obind] in *.
  - exists (d ++ heap_after). split.
    { unfold frame. cbn [fst snd]. do 2 f_equal. rewrite length_app, heap_length. lia. }
    split; [by destruct d|split; [done|]]. cbn [fst snd]. intros off uo Hs. unfold decompress_at.
    cbn [ci_compressed_size ci_compressed_offset ci_uncompressed_size].
    change (compression_code LAVATUBE_COMPRESSION_UNCOMPRESSED =? 1) with false.
    change (compression_code LAVATUBE_COMPRESSION_UNCOMPRESSED =? 2) with false. cbv iota zeta.
    rewrite !Nat2Z.id, Hs, length_app, heap_length.
    rewrite (proj2 (Z.leb_le _ (UINT64_MAX - 16))), (proj2 (Z.eqb_eq _ (Z.of_nat (length d) + 16))) by lia.
    rewrite orb_true_r. cbn [obind require]. by rewrite take_app_length.
  - exists z. split; [done|]. split; [done|split; [done|]]. cbn [fst snd]. intros off uo Hs.
    unfold decompress_at. simpl. by rewrite Nat2Z.id, Hs, Hdec, Z.eqb_refl.
  - exists z. split; [done|]. split; [done|split; [done|]]. cbn [fst snd]. intros off uo Hs.
    destruct (Hsz eq_refl) as [H1 H2]. rewrite !length_app, !length_le_encode in H2.
    unfold decompress_at. simpl. rewrite (proj2 (Z.leb_le _ INT_MAX)), (proj2 (Z.leb_le _ INT_MAX)) by lia.
    cbn [andb obind require]. by rewrite Nat2Z.id, Hs, Hdec, Z.eqb_refl.
Qed.

Lemma encoded_frames whole chunks :
  Forall (fun d => d <> []) chunks -> Forall lz4_sized chunks ->
  Z.of_nat (length (concat chunks)) + 16 <= UINT64_MAX ->
  exists frames, map snd frames = chunks /\ map encode_chunk chunks = map frame frames /\
    Forall (decodes decompressor whole (compression_code t)) frames.
Proof.
  induction chunks as [|d chunks IH]; intros Hne Hsz Hmax; [by exists []|].
  inversion Hne; subst. inversion Hsz; subst. simpl in Hmax. rewrite length_app in Hmax.
  destruct (encoded_frame whole d) as (p & Hp & Hdec); try done; [lia|].
  destruct IH as (frames & E1 & E2 & E3); try done; [lia|].
  exists ((p, d) :: frames). cbn [map snd]. rewrite E1, E2, Hp. split; [done|]. split; [done|by constructor].
Qed.

Lemma open_file_of chunks :
  Forall (fun d => d <> []) chunks -> chunks <> [] -> Forall lz4_sized chunks ->
  Z.of_nat (length (file_of t compressor heap_after chunks)) <= UINT64_MAX ->
  Z.of_nat (length (concat chunks)) + 16 <= UINT64_MAX ->
  exists r, open_random_access (file_of t compressor heap_after chunks) = Ok r /\
    holds decompressor r chunks /\ mPosition r = 0 /\ mPacketCheckpoints r = [] /\ mStreamVersion r = 3.
Proof.
  intros Hne Hnil Hsz Hmax Htot. unfold file_of in *.
  set (whole := file_header t ++ concat (map encode_chunk chunks)) in *.
  destruct (encoded_frames whole chunks Hne Hsz Htot) as (frames & E1 & E2 & E3).
  assert (Hh : length (file_header t) = 39%nat) by (by destruct t).
  assert (Hlen : length whole = (39 + length (concat (map frame frames)))%nat)
    by (subst whole; rewrite length_app, Hh, E2; done).
  destruct (scan_frames decompressor whole (compression_code t) (S (length whole)) frames (file_header t) 0)
    as (infos & Es & Hd & Hl); try done; try lia; [subst whole; by rewrite E2|rewrite E1; lia|].
  rewrite Hh, E1 in *. unfold open_random_access. rewrite (proj2 (Nat.eqb_neq (length whole) 0)) by lia.
  cbn [negb obind require]. unfold initialize. rewrite (proj2 (Z.leb_le 7 _)) by lia.
  assert (Hm : take 7 whole = magic_word) by reflexivity. rewrite bool_decide_eq_true_2 by exact Hm. cbn [andb].
  rewrite (proj2 (Z.leb_le 39 _)) by lia. cbn [obind require].
  assert (Hv : le_decode (slice 7 1 whole) = 3) by (by destruct t).
  assert (Ha : le_decode (slice 8 1 whole) = compression_code t) by (by destruct t).
  rewrite Hv, Ha.
  assert (Hc : (compression_code t =? 1) || (compression_code t =? 2) || (compression_code t =? 0) = true) by (by destruct t).
  rewrite Hc. cbn [obind require]. change 39 with (Z.of_nat 39). rewrite Es. cbn [obind].
  rewrite (proj2 (Nat.eqb_neq (length infos) 0)).
  2:{ rewrite Hl. destruct frames; [by subst chunks|done]. }
  cbn [negb obind require]. eexists. split; [reflexivity|]. split; [split; simpl; auto; lia|done].
Qed.
End Written.

(** ** Checkpoints *)

Definition increasing (l : list packet_checkpoint) : Prop :=
  forall i j a b, (i < j)%nat -> l !! i = Some a -> l !! j = Some b ->
    cp_packet a < cp_packet b /\ cp_position a < cp_position b.

Definition checkpoints_ok (total : Z) (l : list packet_checkpoint) : Prop :=
  increasing l /\ Forall (fun c => cp_position c < total) l /\
  match l with [] => True | c :: _ => cp_packet c = 0 /\ cp_position c = 0 end.

Lemma increasing_snoc l c :
  increasing l -> previous_ok l (cp_packet c) (cp_position c) = true -> increasing (l ++ [c]).
Proof.
  intros Hl Hp i j a b Hij Ha Hb.
  assert (Hi : (i < length l)%nat).
  { apply lookup_lt_Some in Hb. rewrite length_app in Hb. simpl in Hb. lia. }
  rewrite lookup_app_l in Ha by done. destruct (decide (j < length l)%nat).
  - rewrite lookup_app_l in Hb by done. by apply (Hl i j).
  - rewrite lookup_app_r in Hb by lia. replace (j - length l)%nat with 0%nat in Hb.
    2:{ apply lookup_lt_Some in Hb. simpl in Hb. lia. }
    simpl in Hb. injection Hb as <-. unfold previous_ok in Hp.
    destruct (last l) as [p|] eqn:El; [|apply last_None in El; subst l; simpl in Hi; lia].
    bool_to_prop. assert (cp_packet a <= cp_packet p /\ cp_position a <= cp_position p); [|lia].
    rewrite last_lookup in El. destruct (decide (i = pred (length l))) as [->|].
    + rewrite Ha in El. injection El as ->. lia.
    + destruct (Hl i (pred (length l)) a p); try done; lia.
Qed.

Lemma load_loop_ok total values : forall first acc l,
  load_loop total first acc values = Ok l -> (first = true <-> acc = []) -> checkpoints_ok total acc ->
  checkpoints_ok total l.
Proof.
  induction values as [|[[packet position]|] values IH]; intros first acc l H Hf Hok; cbn [load_loop] in H;
    [by injection H as <-| |done].
  apply obind_ok_inv in H as (u1 & R1 & H). apply obind_ok_inv in H as (u2 & R2 & H).
  apply obind_ok_inv in H as (u3 & R3 & H). apply require_ok_inv in R1, R2, R3.
  apply (IH _ _ _ H); [split; [done|by destruct acc]|].
  destruct Hok as (O1 & O2 & O3). split; [by apply increasing_snoc|]. split.
  - apply Forall_app. split; [done|]. repeat constructor. simpl. bool_to_prop. lia.
  - destruct acc as [|c acc]; [|done]. simpl. rewrite (proj2 Hf eq_refl) in R2.
    apply negb_true_iff in R2. cbn [andb] in R2. apply orb_false_iff in R2 as [R2a R2b].
    apply negb_false_iff, Z.eqb_eq in R2a. apply negb_false_iff, Z.eqb_eq in R2b. done.
Qed.

Lemma load_loop_nonempty total values : forall first acc l,
  load_loop total first acc values = Ok l -> values <> [] -> l <> [].
Proof.
  assert (Hlen : forall first acc l, load_loop total first acc values = Ok l -> length l = (length acc + length values)%nat).
  { induction values as [|[[packet position]|] values IH]; intros first acc l H; cbn [load_loop] in H;
      [injection H as <-; simpl; lia| |done].
    outcome_inv. rewrite (IH _ _ _ H), length_app. simpl. lia. }
  intros first acc l H Hv ->. specialize (Hlen _ _ _ H). destruct values; simpl in Hlen; [done|lia].
Qed.

Lemma seek_to_packet_spec codec r chunks packet :
  holds codec r chunks -> checkpoints_ok (mTotalUncompressed r) (mPacketCheckpoints r) ->
  mPacketCheckpoints r <> [] -> 0 <= packet -> Forall (fun c => 0 <= cp_position c) (mPacketCheckpoints r) ->
  exists c r', seek_to_packet r packet = Ok (cp_packet c, r') /\ In c (mPacketCheckpoints r) /\
    cp_packet c <= packet /\
    (forall c', In c' (mPacketCheckpoints r) -> cp_packet c' <= packet -> cp_packet c' <= cp_packet c) /\
    mPosition r' = cp_position c /\ holds codec r' chunks.
Proof.
  intros Hh (O1 & O2 & O3) Hne Hp Hpos0. unfold seek_to_packet.
  destruct (mPacketCheckpoints r) as [|c0 l0] eqn:El; [done|]. set (l := c0 :: l0) in *. clear Hne.
  assert (Hnth : forall i c, l !! i = Some c -> nth i (map cp_packet l) 0 = cp_packet c).
  { intros i c Hi. apply nth_error_nth, map_nth_error. by rewrite nth_error_lookup. }
  assert (Hasc : ascending (map cp_packet l)).
  { intros i j Hij. rewrite length_map in Hij.
    destruct (lookup_lt_is_Some_2 l i ltac:(lia)) as [a Ha], (lookup_lt_is_Some_2 l j ltac:(lia)) as [b Hb].
    rewrite (Hnth _ _ Ha), (Hnth _ _ Hb). destruct (decide (i = j)) as [->|]; [rewrite Ha in Hb; injection Hb as ->; lia|].
    pose proof (O1 i j a b ltac:(lia) Ha Hb). lia. }
  destruct (upper_bound_spec (length l) (map cp_packet l) packet 0 (length l) Hasc) as (K1 & K2 & K3);
    rewrite ?length_map; try lia.
  set (k := upper_bound _ _ _ _ _) in *.
  assert (Hk : (0 < k)%nat).
  { destruct (decide (k = 0)%nat) as [E|]; [|lia]. specialize (K3 0%nat). rewrite length_map in K3.
    specialize (K3 ltac:(simpl; lia)). rewrite (Hnth 0%nat c0 eq_refl) in K3. destruct O3 as [O3 _]. simpl in O3. lia. }
  rewrite (proj2 (Nat.ltb_lt 0 k)) by done. cbn [obind require]. rewrite nth_error_lookup.
  destruct (lookup_lt_is_Some_2 l (k - 1) ltac:(lia)) as [c Hc]. rewrite Hc. unfold seek.
  assert (Hin : In c l) by (apply list_elem_of_In; by eapply list_elem_of_lookup_2).
  rewrite List.Forall_forall in O2. specialize (O2 c Hin).
  rewrite (proj2 (Z.leb_le _ _)) by lia. cbn [obind require].
  exists c. eexists. split; [reflexivity|]. split; [done|]. specialize (K2 (k - 1)%nat ltac:(lia)).
  rewrite (Hnth _ _ Hc) in K2. split; [done|]. rewrite List.Forall_forall in Hpos0. specialize (Hpos0 c Hin).
  split; [|split; [done|apply move_holds; [done|lia]]].
  intros c' Hin' Hle. apply list_elem_of_In, list_elem_of_lookup_1 in Hin' as [j Hj].
  destruct (decide (j < k)%nat) as [Hjk|Hjk].
  - destruct (decide (j = k - 1)%nat) as [->|]; [rewrite Hc in Hj; injection Hj as ->; lia|].
    pose proof (O1 j (k - 1)%nat c' c ltac:(lia) Hj Hc). lia.
  - specialize (K3 j). rewrite length_map, (Hnth _ _ Hj) in K3. apply lookup_lt_Some in Hj. lia.
Qed.

(** ** A cursor over the contents, as the reference *)

Inductive access :=
  | SeekTo (position : N)
  | ReadBytes (byte_count : nat).

Fixpoint run_accesses (codec : list byte -> Z -> option (list byte)) (r : random_access_file_reader)
    (ops : list access) : outcome (list (list byte)) :=
  match ops with
  | [] => Ok []
  | SeekTo p :: rest => let* r := seek r (Z.of_N p) in run_accesses codec r rest
  | ReadBytes n :: rest =>
      let* (bs, r) := read_bytes codec n r in
      let* out := run_accesses codec r rest in Ok (bs :: out)
  end.

Fixpoint cursor_accesses (contents : list byte) (position : Z) (ops : list access) : outcome (list (list byte)) :=
  match ops with
  | [] => Ok []
  | SeekTo p :: rest =>
      let* _ := require (Z.of_N p <=? Z.of_nat (length contents)) AbortCall in
      cursor_accesses contents (Z.of_N p) rest
  | ReadBytes n :: rest =>
      let* _ := require (position + Z.of_nat n <=? Z.of_nat (length contents)) AbortCall in
      let* out := cursor_accesses contents (position + Z.of_nat n) rest in
      Ok (slice (Z.to_nat position) n contents :: out)
  end.

Lemma run_accesses_spec codec chunks ops : forall r,
  holds codec r chunks -> run_accesses codec r ops = cursor_accesses (concat chunks) (mPosition r) ops.
Proof.
  induction ops as [|[p|n] ops IH]; intros r Hh; cbn [run_accesses cursor_accesses]; [done| |].
  - unfold seek. rewrite (ho_total _ _ _ Hh). destruct (Z.of_N p <=? _) eqn:E; [|done]. cbn [obind require].
    rewrite (IH (move_to r (Z.of_N p))); [done|]. apply move_holds; [done|]. rewrite (ho_total _ _ _ Hh). bool_to_prop. lia.
  - pose proof (read_bytes_spec codec r chunks n Hh) as H. unfold remaining_bytes in H. rewrite (ho_total _ _ _ Hh) in H.
    destruct (mPosition r + Z.of_nat n <=? _) eqn:E; cbn [obind require]; bool_to_prop.
    + rewrite (proj2 (Z.leb_le _ _)) in H by lia. destruct H as (r' & -> & Hh' & Hp & _). cbn [obind].
      by rewrite (IH r' Hh'), Hp.
    + rewrite (proj2 (Z.leb_gt _ _)) in H by lia. by rewrite H.
Qed.

(** ** Hostile files *)

Definition inside (data : list byte) (c : random_access_chunk_info) : Prop :=
  16 <= ci_compressed_offset c /\ 0 < ci_compressed_size c /\ 0 < ci_uncompressed_size c /\
  ci_compressed_offset c + ci_compressed_size c <= Z.of_nat (length data).

(** chunks follow one another in the logical stream *)
Fixpoint contiguous (offset : Z) (infos : list random_access_chunk_info) (total : Z) : Prop :=
  match infos with
  | [] => offset = total
  | c :: rest => ci_uncompressed_offset c = offset /\ contiguous (offset + ci_uncompressed_size c) rest total
  end.

Lemma scan_chunks_safe data fuel : forall stream_offset uoff,
  (Z.to_nat (Z.of_nat (length data) - stream_offset) < fuel)%nat -> 0 <= stream_offset -> 0 <= uoff <= UINT64_MAX ->
  match scan_chunks fuel data stream_offset uoff with
  | Ok (infos, total) => Forall (inside data) infos /\ contiguous uoff infos total /\ total <= UINT64_MAX
  | Fail f => f = AbortCall
  end.
Proof.
  induction fuel as [|fuel IH]; intros so uoff Hf Hs Hu; [lia|]. cbn [scan_chunks].
  destruct (so <? Z.of_nat (length data)) eqn:E1; bool_to_prop; [|simpl; repeat split; [constructor|lia]].
  destruct (16 <=? _) eqn:E2; [|done]. cbn [obind require].
  destruct ((_ =? 0) || _) eqn:E3; [done|]. cbn [negb obind require].
  destruct (word_at data so <=? _) eqn:E4; [|done]. cbn [obind require].
  destruct (word_at data (so + 8) <=? _) eqn:E5; [|done]. cbn [obind require]. bool_to_prop.
  destruct (le_decode_range (slice (Z.to_nat so) 8 data)) as [Hw1 _].
  destruct (le_decode_range (slice (Z.to_nat (so + 8)) 8 data)) as [Hw2 _].
  change (0 <= word_at data so) in Hw1. change (0 <= word_at data (so + 8)) in Hw2.
  specialize (IH (so + 16 + word_at data so) (uoff + word_at data (so + 8)) ltac:(lia) ltac:(lia) ltac:(lia)).
  destruct (scan_chunks fuel data _ _) as [[infos total]|f]; cbn [obind]; [|done].
  destruct IH as (I1 & I2 & I3). split; [|split; [split; [done|exact I2]|done]].
  constructor; [|done]. unfold inside. simpl. lia.
Qed.

(** ** Properties *)

(** C11: on a stream the writer produced, for every compression type, any sequence
    of seeks and reads behaves as a cursor over the bytes that were written: it
    returns the same slices, across chunk boundaries, and aborts exactly when a
    seek or a read leaves the stream. *)
Theorem random_access_refines_cursor (t : lavatube_compression_type)
    (compressor : list byte -> option (list byte)) (decompressor : list byte -> Z -> option (list byte))
    (heap_after : list byte) (chunks : list (list byte)) (ops : list access)
    (Hlib : forall d z, compressor d = Some z -> decompressor z (Z.of_nat (length d)) = Some d)
    (Hout : forall d, exists z, compressor d = Some z /\ z <> [])
    (Hheap : length heap_after = 16%nat)
    (Hne : Forall (fun d => d <> []) chunks) (Hnil : chunks <> [])
    (Hlz4 : Forall (lz4_sized t compressor heap_after) chunks)
    (Hfile : Z.of_nat (length (file_of t compressor heap_after chunks)) <= UINT64_MAX)
    (Htotal : Z.of_nat (length (concat chunks)) + 16 <= UINT64_MAX) :
  exists r, open_random_access (file_of t compressor heap_after chunks) = Ok r /\
    run_accesses decompressor r ops = cursor_accesses (concat chunks) 0 ops.
Proof.
  destruct (open_file_of t compressor decompressor heap_after Hlib Hout Hheap chunks Hne Hnil Hlz4 Hfile Htotal)
    as (r & E & Hh & Hp & _).
  exists r. split; [done|]. by rewrite (run_accesses_spec _ chunks), Hp.
Qed.

(** the codec of the examples: a leading tag byte, then the data reversed *)
Definition tag_codec (d : list byte) : option (list byte) := Some (x2a :: rev d).
Definition tag_decoder (z : list byte) (n : Z) : option (list byte) := Some (rev (tl z)).

Lemma random_access_refines_cursor_witness :
  let chunks := [[x01; x02; x03]; [x04]; [x05; x06]] in
  let ops := [ReadBytes 2; ReadBytes 3; SeekTo 3; ReadBytes 3; SeekTo 6; ReadBytes 0] in
  (exists r, open_random_access (file_of LAVATUBE_COMPRESSION_LZ4 tag_codec (repeat x00 16) chunks) = Ok r /\
    run_accesses tag_decoder r ops = cursor_accesses (concat chunks) 0 ops) /\
  cursor_accesses (concat chunks) 0 ops = Ok [[x01; x02]; [x03; x04; x05]; [x04; x05; x06]; []].
Proof.
  intros chunks ops. split; [|vm_compute; reflexivity].
  apply random_access_refines_cursor;
    [|by eexists|reflexivity|by repeat constructor|done|repeat constructor; by vm_compute|by vm_compute|by vm_compute].
  intros d z [= <-]. unfold tag_decoder. simpl. by rewrite rev_involutive.
Defined.

(** Opening any file, however it is damaged, ends with a reader or in an
    [ABORT]; every chunk of the reader lies inside the mapped file behind its
    header, and the chunks cover the logical stream without gap or overlap and
    without 64-bit overflow. *)
Theorem open_random_access_safe (data : list byte) :
  match open_random_access data with
  | Ok r => mMappedData r = data /\ mChunks r <> [] /\ Forall (inside data) (mChunks r) /\
      contiguous 0 (mChunks r) (mTotalUncompressed r) /\ mTotalUncompressed r <= UINT64_MAX
  | Fail f => f = AbortCall
  end.
Proof.
  unfold open_random_access. destruct (Nat.eqb (length data) 0) eqn:E0; [done|]. cbn [negb obind require].
  unfold initialize. destruct (if _ && _ then _ else _) as [[[v a] so]|f] eqn:E1; cbn [obind].
  2:{ destruct (_ && _) in E1; [|done]. destruct (39 <=? _); [done|]. by injection E1 as <-. }
  assert (Hso : 0 <= so).
  { destruct (_ && _) in E1; [|injection E1 as <- <- <-; lia]. destruct (39 <=? _); [|done]. injection E1 as <- <- <-. lia. }
  destruct ((a =? 1) || _ || _); [|done]. cbn [obind require].
  pose proof (scan_chunks_safe data (S (length data)) so 0 ltac:(lia) Hso ltac:(u_lia)) as Hs.
  destruct (scan_chunks _ _ _ _) as [[infos total]|f]; cbn [obind]; [|done]. destruct Hs as (S1 & S2 & S3).
  destruct (Nat.eqb (length infos) 0) eqn:E2; [done|]. cbn [negb obind require]. simpl.
  split; [done|]. split; [by intros ->|]. done.
Qed.

Lemma checkpoints_nonnegative total l : checkpoints_ok total l -> Forall (fun c => 0 <= cp_position c) l.
Proof.
  intros (O1 & _ & O3). apply List.Forall_forall. intros c Hin.
  apply list_elem_of_In, list_elem_of_lookup_1 in Hin as [i Hi].
  destruct l as [|c0 l]; [done|]. destruct O3 as [_ O3].
  destruct i as [|i]; [injection Hi as <-; lia|]. pose proof (O1 0%nat (S i) c0 c ltac:(lia) eq_refl Hi). lia.
Qed.

Lemma with_checkpoints_holds codec r chunks l : holds codec r chunks -> holds codec (with_checkpoints r l) chunks.
Proof. intros []. by split. Qed.

(** A list of packet checkpoints that [load_packet_checkpoints] accepts is
    searched correctly: [seek_to_packet] never fails, moves to the last checkpoint
    at or before the packet, and the following read returns the stream from that
    checkpoint on. *)
Theorem seek_to_packet_closest (codec : list byte -> Z -> option (list byte)) (r r1 : random_access_file_reader)
    (chunks : list (list byte)) (values : list (option (Z * Z))) (packet : Z) (n : nat)
    (Hr : holds codec r chunks) (Hload : load_packet_checkpoints r (JsonArray values) = Ok r1)
    (Hvalues : values <> []) (Hpacket : 0 <= packet) :
  exists c r2, seek_to_packet r1 packet = Ok (cp_packet c, r2) /\ In c (mPacketCheckpoints r1) /\
    cp_packet c <= packet /\
    (forall c', In c' (mPacketCheckpoints r1) -> cp_packet c' <= packet -> cp_packet c' <= cp_packet c) /\
    (cp_position c + Z.of_nat n <= mTotalUncompressed r ->
     exists r3, read_bytes codec n r2 = Ok (slice (Z.to_nat (cp_position c)) n (concat chunks), r3)).
Proof.
  cbn [load_packet_checkpoints] in Hload. apply obind_ok_inv in Hload as (l & Hl & [= <-]).
  pose proof (load_loop_ok _ _ _ _ _ Hl (conj (fun _ => eq_refl) (fun _ => eq_refl))) as Hok.
  assert (Hchk : checkpoints_ok (mTotalUncompressed r) l).
  { apply Hok. split; [intros i j a b _ Ha; by rewrite lookup_nil in Ha|]. split; [constructor|done]. }
  assert (Hl0 : l <> []) by (by eapply load_loop_nonempty).
  destruct (seek_to_packet_spec codec (with_checkpoints r l) chunks packet) as (c & r2 & E & Hin & Hle & Hmax & Hp & Hh);
    [by apply with_checkpoints_holds|exact Hchk|done|done|by eapply checkpoints_nonnegative|].
  exists c, r2. split; [done|]. split; [done|]. split; [done|]. split; [done|]. intros Hn.
  pose proof (read_bytes_spec codec r2 chunks n Hh) as Hr2. unfold remaining_bytes in Hr2.
  rewrite (ho_total _ _ _ Hh), <- (ho_total _ _ _ Hr), (proj2 (Z.leb_le _ _)) in Hr2 by lia.
  destruct Hr2 as (r3 & E3 & _). exists r3. by rewrite E3, Hp.
Qed.

Definition demo_ra : random_access_file_reader :=
  RandomAccessReader [x01; x02; x03; x04; x05; x06] [ChunkInfo 0 4 0 4; ChunkInfo 4 2 4 2] [] [] 6 0 None 0 0 3.

Lemma demo_ra_holds : holds tag_decoder demo_ra [[x01; x02; x03; x04]; [x05; x06]].
Proof. split; [repeat split; by vm_compute|done|by vm_compute|done]. Qed.

Lemma seek_to_packet_closest_witness :
  let r1 := with_checkpoints demo_ra [PacketCheckpoint 0 0; PacketCheckpoint 10 3; PacketCheckpoint 20 5] in
  exists c r2, seek_to_packet r1 15 = Ok (cp_packet c, r2) /\ In c (mPacketCheckpoints r1) /\ cp_packet c <= 15 /\
    (forall c', In c' (mPacketCheckpoints r1) -> cp_packet c' <= 15 -> cp_packet c' <= cp_packet c) /\
    (cp_position c + Z.of_nat 3 <= mTotalUncompressed demo_ra ->
     exists r3, read_bytes tag_decoder 3 r2 =
       Ok (slice (Z.to_nat (cp_position c)) 3 (concat [[x01; x02; x03; x04]; [x05; x06]]), r3)).
Proof.
  intros r1. apply (seek_to_packet_closest tag_decoder demo_ra r1 [[x01; x02; x03; x04]; [x05; x06]]
    [Some (0, 0); Some (10, 3); Some (20, 5)]); [exact demo_ra_holds|reflexivity|discriminate|lia].
Defined.
