(* ===== verification/Memory.v ===== *)
(** * Memory requirements of tracked objects (src/memory.h, src/memory.cpp; src/lavatube.h)

    The part of the tracked objects the memory side of the replayer reads, the
    requirements they carry, and how the requirements of aliased objects merge. *)

From Stdlib Require Import ZArith Lia Bool.
From stdpp Require Import base numbers list.
From S2P Require Import Prelude.

#[local] Open Scope Z_scope.

(** Values of the Vulkan registry. *)
Definition VK_MEMORY_PROPERTY_DEVICE_LOCAL_BIT : Z := 1.
Definition VK_MEMORY_PROPERTY_HOST_VISIBLE_BIT : Z := 2.
Definition VK_MEMORY_PROPERTY_HOST_COHERENT_BIT : Z := 4.
Definition VK_MEMORY_PROPERTY_HOST_CACHED_BIT : Z := 8.
Definition VK_MEMORY_PROPERTY_LAZILY_ALLOCATED_BIT : Z := 16.
Definition VK_MEMORY_ALLOCATE_DEVICE_ADDRESS_BIT : Z := 2.
Definition VK_BUFFER_USAGE_SHADER_DEVICE_ADDRESS_BIT : Z := 131072.

(** the object types that own memory, in the order of their registry values *)
Inductive VkObjectType :=
  | VK_OBJECT_TYPE_UNKNOWN
  | VK_OBJECT_TYPE_BUFFER
  | VK_OBJECT_TYPE_IMAGE
  | VK_OBJECT_TYPE_TENSOR_ARM
  | VK_OBJECT_TYPE_DATA_GRAPH_PIPELINE_SESSION_ARM.

#[export] Instance VkObjectType_eq_dec : EqDecision VkObjectType.
Proof. solve_decision. Defined.

Definition object_type_code (t : VkObjectType) : Z :=
  match t with
  | VK_OBJECT_TYPE_UNKNOWN => 0
  | VK_OBJECT_TYPE_BUFFER => 9
  | VK_OBJECT_TYPE_IMAGE => 10
  | VK_OBJECT_TYPE_TENSOR_ARM => 1000460000
  | VK_OBJECT_TYPE_DATA_GRAPH_PIPELINE_SESSION_ARM => 1000507000
  end.

(** CONTAINER_INVALID_INDEX and CONTAINER_NULL_VALUE of src/containers.h *)
Definition CONTAINER_INVALID_INDEX : N := 4294967295%N.
Definition CONTAINER_NULL_VALUE : N := 4294967294%N.

Inductive lava_tiling := TILING_OPTIMAL | TILING_LINEAR | TILING_DRM.

#[export] Instance lava_tiling_eq_dec : EqDecision lava_tiling.
Proof. solve_decision. Defined.

Record memory_requirements := MemoryRequirements {
  req_size : Z;
  req_alignment : Z;
  req_memoryTypeBits : Z;
  memory_flags : Z;
  prefersDedicatedAllocation : bool;
  requiresDedicatedAllocation : bool;
  allocate_flags : Z
}.

Definition no_requirements : memory_requirements := MemoryRequirements 0 0 0 0 false false 0.

(** the fields of [trackedobject] (and of [trackedimage] and [trackedbuffer])
    that the suballocator uses *)
Record trackedobject := TrackedObject {
  object_type : VkObjectType;
  obj_index : N;
  parent_device_index : Z;
  backing_index : Z;
  capture_size : Z;            (** [req.size] *)
  obj_size : Z;
  obj_offset : Z;
  reqs : memory_requirements;
  dedicated_allocation : bool;
  obj_memory_flags : Z;
  tiling : lava_tiling;
  is_swapchain_image : bool;
  usage : Z
}.

Definition set_reqs (o : trackedobject) (r : memory_requirements) : trackedobject :=
  TrackedObject (object_type o) (obj_index o) (parent_device_index o) (backing_index o) (capture_size o)
    (obj_size o) (obj_offset o) r (dedicated_allocation o) (obj_memory_flags o) (tiling o) (is_swapchain_image o) (usage o).

Definition set_dedicated (o : trackedobject) : trackedobject :=
  TrackedObject (object_type o) (obj_index o) (parent_device_index o) (backing_index o) (capture_size o)
    (obj_size o) (obj_offset o) (reqs o) true (obj_memory_flags o) (tiling o) (is_swapchain_image o) (usage o).

Definition merge_memory_requirements (req1 req2 : memory_requirements) : memory_requirements :=
  MemoryRequirements
    (Z.max (req_size req1) (req_size req2))
    (Z.max (req_alignment req1) (req_alignment req2))
    (Z.land (req_memoryTypeBits req1) (req_memoryTypeBits req2))
    (Z.lor (memory_flags req1) (memory_flags req2))
    (prefersDedicatedAllocation req1 || prefersDedicatedAllocation req2)
    (requiresDedicatedAllocation req1 || requiresDedicatedAllocation req2)
    (Z.lor (allocate_flags req1) (allocate_flags req2)).

Definition get_fake_memory_requirements (data : trackedobject) : memory_requirements :=
  let addressable := bool_decide (object_type data = VK_OBJECT_TYPE_BUFFER) &&
    negb (Z.land (usage data) VK_BUFFER_USAGE_SHADER_DEVICE_ADDRESS_BIT =? 0) in
  MemoryRequirements (obj_size data) 1 1 (obj_memory_flags data) addressable false
    (if addressable then VK_MEMORY_ALLOCATE_DEVICE_ADDRESS_BIT else 0).

(** ** Powers of two *)

Definition is_pow2 (a : Z) : Prop := exists k, 0 <= k /\ a = 2 ^ k.

(** rounding up to a multiple of [a] *)
Definition round_up (a x : Z) : Z := (x + a - 1) / a * a.

Lemma round_up_spec a x : 0 < a -> x <= round_up a x < x + a /\ (a | round_up a x).
Proof.
  intros Ha. unfold round_up. split; [|by exists ((x + a - 1) / a)].
  pose proof (Z.div_mod (x + a - 1) a ltac:(lia)). pose proof (Z.mod_pos_bound (x + a - 1) a Ha). nia.
Qed.

Lemma round_up_least a x y : 0 < a -> x <= y -> (a | y) -> round_up a x <= y.
Proof.
  intros Ha Hx [k ->]. unfold round_up. apply Z.mul_le_mono_nonneg_r; [lia|].
  apply Z.lt_succ_r, Z.div_lt_upper_bound; lia.
Qed.

Lemma land_neg_pow2 k x : 0 <= k -> Z.land x (- 2 ^ k) = x / 2 ^ k * 2 ^ k.
Proof.
  intros Hk. replace (- 2 ^ k) with (Z.lnot (Z.ones k)).
  - rewrite <- Z.ldiff_land, Z.ldiff_ones_r by done. by rewrite Z.shiftl_mul_pow2, Z.shiftr_div_pow2.
  - rewrite Z.ones_equiv. unfold Z.lnot. lia.
Qed.

(** the masking of [std::align] and of the page arithmetic rounds up *)
Lemma land_round_up a x : is_pow2 a -> Z.land (x - 1 + a) (- a) = round_up a x.
Proof. intros (k & Hk & ->). rewrite land_neg_pow2 by done. unfold round_up. do 2 f_equal. lia. Qed.

Lemma is_pow2_pos a : is_pow2 a -> 0 < a.
Proof. intros (k & Hk & ->). by apply Z.pow_pos_nonneg. Qed.

Lemma is_pow2_max a b : is_pow2 a -> is_pow2 b -> is_pow2 (Z.max a b) /\ (a | Z.max a b) /\ (b | Z.max a b).
Proof.
  intros (j & Hj & ->) (k & Hk & ->).
  assert (Hd : forall m n, 0 <= m <= n -> (2 ^ m | 2 ^ n)).
  { intros m n Hmn. exists (2 ^ (n - m)). rewrite <- Z.pow_add_r by lia. f_equal. lia. }
  destruct (Z.le_ge_cases j k) as [H|H].
  - rewrite Z.max_r by (apply Z.pow_le_mono_r; lia). split; [by exists k|]. split; [apply Hd; lia|done].
  - rewrite Z.max_l by (apply Z.pow_le_mono_r; lia). split; [by exists j|]. split; [done|apply Hd; lia].
Qed.

Definition is_pow2b (a : Z) : bool := (0 <? a) && (2 ^ Z.log2 a =? a).

Lemma is_pow2b_spec a : is_pow2b a = true -> is_pow2 a.
Proof. unfold is_pow2b. intros H. bool_to_prop. exists (Z.log2 a). split; [apply Z.log2_nonneg|done]. Qed.
