(* ===== verification/Heap.v ===== *)
(** * The heaps of the memory suballocator (struct heap of src/suballocator.cpp)

    One heap is one device allocation with the list of the objects placed in
    it, in address order. This file holds what [suballocate] does to a single
    heap: draining the queued deletes, deciding whether the heap is suitable,
    and searching a free, aligned place; and the invariant of a heap. *)

From Stdlib Require Import ZArith Lia Bool.
From stdpp Require Import base numbers list sets.
From S2P Require Import Prelude Memory.

#[local] Open Scope Z_scope.

Record suballocation := Suballocation {
  s_type : VkObjectType;
  s_handle : Z;
  s_size : Z;
  s_offset : Z;
  s_alignment : Z;
  s_index : N;
  s_bind_point : Z;
  s_object_index : N;
  s_alias_member : bool
}.

#[export] Instance suballocation_eq_dec : EqDecision suballocation.
Proof. solve_decision. Defined.

Definition at_offset (s : suballocation) (offset : Z) : suballocation :=
  Suballocation (s_type s) (s_handle s) (s_size s) offset (s_alignment s) (s_index s) (s_bind_point s)
    (s_object_index s) (s_alias_member s).

Record heap := Heap {
  h_tid : nat;
  h_memoryTypeIndex : nat;
  h_mem : Z;                  (** 0 is VK_NULL_HANDLE *)
  h_free : Z;
  h_total : Z;
  h_flags : Z;
  h_allocflags : Z;
  h_dedicated : bool;
  h_alias_group : bool;
  h_subs : list suballocation;
  h_deletes : list Z;         (** 32-bit offsets *)
  h_tiling : lava_tiling;
  h_mapped : Z                (** 0 is nullptr *)
}.

(** the host address of a place in the heap, null when it is not mapped *)
Definition mapped_at (h : heap) (offset : Z) : Z := if h_mapped h =? 0 then 0 else h_mapped h + offset.

(** ** Queued deletes *)

Definition with_deletes (h : heap) (l : list Z) : heap :=
  Heap (h_tid h) (h_memoryTypeIndex h) (h_mem h) (h_free h) (h_total h) (h_flags h) (h_allocflags h)
    (h_dedicated h) (h_alias_group h) (h_subs h) l (h_tiling h) (h_mapped h).

(** the parameter of [queue_delete] is a [uint32_t] *)
Definition queue_delete (h : heap) (offset : Z) : heap := with_deletes h (h_deletes h ++ [wrap32 offset]).

Definition take_pending_deletes (h : heap) : list Z * heap := (h_deletes h, with_deletes h []).

Definition has_pending_delete (h : heap) (offset : Z) : bool :=
  bool_decide (wrap32 offset ∈ h_deletes h).

Definition with_subs (h : heap) (subs : list suballocation) (free : Z) : heap :=
  Heap (h_tid h) (h_memoryTypeIndex h) (h_mem h) free (h_total h) (h_flags h) (h_allocflags h)
    (h_dedicated h) (h_alias_group h) subs (h_deletes h) (h_tiling h) (h_mapped h).

(** the loop over the placed objects: each one with a queued offset is erased *)
Fixpoint erase_deleted (deletes : list Z) (subs : list suballocation) (free : Z) : list suballocation * Z :=
  match subs with
  | [] => ([], free)
  | s :: rest =>
      if bool_decide (s_offset s ∈ deletes) then erase_deleted deletes rest (free + s_size s)
      else let (subs, free) := erase_deleted deletes rest free in (s :: subs, free)
  end.

(** calls to the driver that the suballocator makes, in order *)
Inductive device_call :=
  | AllocateMemory (mem size : Z) (type : nat)
  | MapMemory (mem : Z)
  | UnmapMemory (mem : Z)
  | FreeMemory (mem : Z).

(** giving a heap's memory back: [vkUnmapMemory] and [vkFreeMemory], or [free] *)
Definition release_calls (run : bool) (h : heap) : list device_call :=
  (if run && negb (h_mapped h =? 0) then [UnmapMemory (h_mem h)] else []) ++ [FreeMemory (h_mem h)].

Definition retire (h : heap) : heap :=
  Heap (h_tid h) (h_memoryTypeIndex h) 0 0 0 (h_flags h) (h_allocflags h) (h_dedicated h) (h_alias_group h)
    (h_subs h) (h_deletes h) (h_tiling h) 0.

Definition drain (run : bool) (h : heap) : heap * list device_call :=
  let (deletes, h) := take_pending_deletes h in
  match deletes with
  | [] => (h, [])
  | _ =>
      let (subs, free) := erase_deleted deletes (h_subs h) (h_free h) in
      let h := with_subs h subs free in
      if h_dedicated h && bool_decide (h_subs h = []) && negb (h_mem h =? 0)
      then (retire h, release_calls run h)
      else (h, [])
  end.

(** ** Suitability and placement *)

Definition suitable (allow_mixed_tiling : bool) (h : heap) (tid type : nat) (s : suballocation) (flags : Z)
    (tiling : lava_tiling) (allocflags : Z) : bool :=
  let requires_device_address := negb (Z.land allocflags VK_MEMORY_ALLOCATE_DEVICE_ADDRESS_BIT =? 0) in
  let heap_has_device_address := negb (Z.land (h_allocflags h) VK_MEMORY_ALLOCATE_DEVICE_ADDRESS_BIT =? 0) in
  negb (h_mem h =? 0) && negb (h_dedicated h) && negb (h_alias_group h) &&
  Nat.eqb (h_tid h) tid && (Z.land flags (h_flags h) =? flags) &&
  (negb requires_device_address || heap_has_device_address) &&
  (h_free h >=? s_size s) && Nat.eqb (h_memoryTypeIndex h) type &&
  (bool_decide (h_tiling h = tiling) || allow_mixed_tiling).

(** [std::align] on 64-bit pointers: the aligned pointer, or null *)
Definition std_align (alignment size start space : Z) : Z :=
  if space <? size then 0
  else
    let aligned := Z.land (wrap64 (start - 1 + alignment)) (wrap64 (- alignment)) in
    let diff := wrap64 (aligned - start) in
    if diff >? space - size then 0 else aligned.

Definition sub_end (s : suballocation) : Z := wrap64 (s_offset s + s_size s).

(** the third case of the search: the gaps behind the placed objects; the list
    result holds the object at its place *)
Fixpoint scan_holes (total : Z) (s : suballocation) (subs : list suballocation)
  : option (Z * list suballocation) :=
  match subs with
  | [] => None
  | it :: rest =>
      let start := sub_end it in
      match rest with
      | [] =>
          let p := std_align (s_alignment s) (s_size s) start (wrap64 (total - start)) in
          if p =? 0 then None else Some (p, [it; at_offset s p])
      | next :: _ =>
          let p := std_align (s_alignment s) (s_size s) start (wrap64 (s_offset next - start)) in
          if p =? 0 then
            match scan_holes total s rest with
            | None => None
            | Some (p, l) => Some (p, it :: l)
            end
          else Some (p, it :: at_offset s p :: rest)
      end
  end.

(** where [suballocate] puts an object in a heap, if it finds room *)
Definition find_place (h : heap) (s : suballocation) : option (Z * list suballocation) :=
  match h_subs h with
  | [] => Some (0, [at_offset s 0])
  | front :: _ =>
      if s_offset front >=? s_size s then Some (0, at_offset s 0 :: h_subs h)
      else scan_holes (h_total h) s (h_subs h)
  end.

(** ** The invariant of a heap *)

(** the objects lie behind one another from [from] on, none reaching past [total] *)
Fixpoint laid_out (from total : Z) (subs : list suballocation) : Prop :=
  match subs with
  | [] => from <= total
  | s :: rest => from <= s_offset s /\ 0 < s_size s /\ laid_out (s_offset s + s_size s) total rest
  end.

Definition total_size (subs : list suballocation) : Z := foldr (fun s acc => s_size s + acc) 0 subs.

Definition aligned (s : suballocation) : Prop := is_pow2 (s_alignment s) /\ (s_alignment s | s_offset s).

(** the largest allocation the suballocator makes, one GiB *)
Definition MAX_ALLOCATION : Z := 1024 * 1024 * 1024.

Record heap_ok (h : heap) : Prop := {
  ho_layout : laid_out 0 (h_total h) (h_subs h);
  ho_free : h_free h + total_size (h_subs h) = h_total h;
  ho_aligned : Forall aligned (h_subs h);
  ho_total : h_total h < MAX_ALLOCATION;
  ho_retired : h_mem h = 0 -> h_subs h = []
}.

Lemma laid_out_le subs : forall from total, laid_out from total subs -> from <= total.
Proof. induction subs as [|s subs IH]; intros from total; simpl; [done|]. intros (H1 & H2 & H3). apply IH in H3. lia. Qed.

Lemma laid_out_weaken subs from from' total :
  laid_out from total subs -> from' <= from -> laid_out from' total subs.
Proof. destruct subs as [|s subs]; simpl; [lia|]. intros (H1 & H2 & H3) Hf. split; [lia|done]. Qed.

Lemma laid_out_in subs : forall from total s,
  laid_out from total subs -> s ∈ subs -> from <= s_offset s /\ 0 < s_size s /\ s_offset s + s_size s <= total.
Proof.
  induction subs as [|a subs IH]; intros from total s; [by intros _ Hin%elem_of_nil|].
  intros (H1 & H2 & H3) [->|Hin]%elem_of_cons; [apply laid_out_le in H3; lia|].
  destruct (IH _ _ _ H3 Hin). lia.
Qed.

(** objects of one heap never overlap *)
Lemma laid_out_disjoint subs : forall from total i j s t,
  laid_out from total subs -> (i < j)%nat -> subs !! i = Some s -> subs !! j = Some t ->
  s_offset s + s_size s <= s_offset t.
Proof.
  induction subs as [|a subs IH]; intros from total i j s t; [done|].
  intros (H1 & H2 & H3) Hij Hs Ht. destruct j as [|j]; [lia|]. simpl in Ht.
  apply list_elem_of_lookup_2 in Ht as Hin. destruct (laid_out_in _ _ _ _ H3 Hin) as [? _].
  destruct i as [|i]; simpl in Hs; [injection Hs as ->; lia|]. eapply (IH _ _ i j); try done; lia.
Qed.

Lemma laid_out_offset_inj subs from total s t :
  laid_out from total subs -> s ∈ subs -> t ∈ subs -> s_offset s = s_offset t -> s = t.
Proof.
  intros Hl [i Hi]%list_elem_of_lookup_1 [j Hj]%list_elem_of_lookup_1 E.
  destruct (laid_out_in _ _ _ s Hl ltac:(by eapply list_elem_of_lookup_2)).
  destruct (laid_out_in _ _ _ t Hl ltac:(by eapply list_elem_of_lookup_2)).
  destruct (Nat.lt_trichotomy i j) as [Hij|[->|Hij]].
  - pose proof (laid_out_disjoint _ _ _ _ _ _ _ Hl Hij Hi Hj). lia.
  - rewrite Hi in Hj. by injection Hj.
  - pose proof (laid_out_disjoint _ _ _ _ _ _ _ Hl Hij Hj Hi). lia.
Qed.

(** ** [std::align] rounds up and checks the room *)

Lemma wrap64_ones x : wrap64 x = Z.land x (Z.ones 64).
Proof. unfold wrap64, wrap. by rewrite Z.land_ones. Qed.

Lemma land_wrap64_neg x y : 0 <= x <= UINT64_MAX -> Z.land x (wrap64 y) = Z.land x y.
Proof.
  intros Hx. rewrite wrap64_ones, (Z.land_comm y), Z.land_assoc, Z.land_ones by lia.
  by rewrite Z.mod_small by u_lia.
Qed.

(** room for [size] bytes at an aligned place in [start, start + space) *)
Lemma std_align_wide a size start space :
  is_pow2 a -> a <= 2 ^ 63 -> 0 < size -> 0 < start < 2 ^ 62 -> 0 <= space < 2 ^ 62 ->
  std_align a size start space = (if round_up a start + size <=? start + space then round_up a start else 0).
Proof.
  intros Ha Hmax Hsz Hst Hsp. pose proof (is_pow2_pos a Ha).
  destruct (round_up_spec a start ltac:(lia)) as [Hr _].
  unfold std_align. destruct (space <? size) eqn:E1; bool_to_prop.
  { by rewrite (proj2 (Z.leb_gt _ _)) by lia. }
  rewrite (wrap64_small (start - 1 + a)), land_wrap64_neg, land_round_up by (try done; u_lia).
  rewrite (wrap64_small (round_up a start - start)) by u_lia.
  destruct (round_up a start - start >? space - size) eqn:E2; bool_to_prop.
  - by rewrite (proj2 (Z.leb_gt _ _)) by lia.
  - by rewrite (proj2 (Z.leb_le _ _)) by lia.
Qed.

Lemma std_align_spec a size start space :
  is_pow2 a -> a <= 2 ^ 63 -> 0 < size -> 0 < start < MAX_ALLOCATION -> 0 <= space < MAX_ALLOCATION ->
  std_align a size start space = (if round_up a start + size <=? start + space then round_up a start else 0).
Proof. unfold MAX_ALLOCATION. intros Ha Hmax Hsz Hst Hsp. apply std_align_wide; try done; lia. Qed.

(** ** The search *)

(** the object lies at [p] without touching any of [subs] *)
Definition place_free (total : Z) (s : suballocation) (subs : list suballocation) (p : Z) : Prop :=
  0 <= p /\ p + s_size s <= total /\ (s_alignment s | p) /\
  forall t, t ∈ subs -> s_offset t + s_size t <= p \/ p + s_size s <= s_offset t.

Definition request_ok (s : suballocation) : Prop :=
  0 < s_size s < MAX_ALLOCATION /\ is_pow2 (s_alignment s) /\ s_alignment s <= 2 ^ 63.

(** [l] is [subs] with the object inserted at [p] *)
Definition inserted (s : suballocation) (p : Z) (subs l : list suballocation) : Prop :=
  exists before after, subs = before ++ after /\ l = before ++ at_offset s p :: after.

Lemma sub_end_small from total s : 0 <= from -> total < MAX_ALLOCATION ->
  from <= s_offset s -> 0 < s_size s -> s_offset s + s_size s <= total -> sub_end s = s_offset s + s_size s.
Proof. unfold MAX_ALLOCATION, sub_end. intros. apply wrap64_small. u_lia. Qed.

(** the gap test of one round of [scan_holes] *)
Lemma gap_test total s it upto :
  request_ok s -> 0 <= s_offset it -> 0 < s_size it -> s_offset it + s_size it <= upto -> upto <= total ->
  total < MAX_ALLOCATION ->
  let p := std_align (s_alignment s) (s_size s) (sub_end it) (wrap64 (upto - sub_end it)) in
  if p =? 0 then forall q, s_offset it + s_size it <= q -> (s_alignment s | q) -> q + s_size s <= upto -> False
  else (s_alignment s | p) /\ s_offset it + s_size it <= p /\ p + s_size s <= upto.
Proof.
  intros ((Hs & Hm) & Ha & Hmax) H1 H2 H3 H4 H5. pose proof (is_pow2_pos _ Ha).
  rewrite (sub_end_small 0 total) by lia. unfold MAX_ALLOCATION in *.
  rewrite wrap64_small by u_lia. cbv zeta. rewrite std_align_spec by (done || unfold MAX_ALLOCATION; lia).
  destruct (round_up_spec (s_alignment s) (s_offset it + s_size it) ltac:(lia)) as [Hr Hd].
  destruct (_ <=? _) eqn:E; bool_to_prop.
  - rewrite (proj2 (Z.eqb_neq _ 0)) by lia. split; [done|]. lia.
  - simpl. intros q Hq1 Hq2 Hq3. pose proof (round_up_least _ _ _ (is_pow2_pos _ Ha) Hq1 Hq2). lia.
Qed.

Lemma scan_holes_cons total s it next rest :
  scan_holes total s (it :: next :: rest) =
  let p := std_align (s_alignment s) (s_size s) (sub_end it) (wrap64 (s_offset next - sub_end it)) in
  if p =? 0 then
    match scan_holes total s (next :: rest) with
    | None => None
    | Some (p, l) => Some (p, it :: l)
    end
  else Some (p, it :: at_offset s p :: next :: rest).
Proof. reflexivity. Qed.

Lemma scan_holes_spec total s subs : forall from,
  request_ok s -> 0 <= from -> total < MAX_ALLOCATION -> laid_out from total subs ->
  match scan_holes total s subs with
  | Some (p, l) => inserted s p subs l /\ laid_out from total l /\ (s_alignment s | p) /\ from <= p
  | None => forall it rest, subs = it :: rest -> forall p, s_offset it <= p -> ~ place_free total s subs p
  end.
Proof.
  induction subs as [|it subs IH]; intros from Hs Hf Ht Hl; [done|]. destruct Hl as (H1 & H2 & H3).
  pose proof (laid_out_le _ _ _ H3) as Hle. destruct subs as [|next subs].
  - cbn [scan_holes]. pose proof (gap_test total s it total Hs ltac:(lia) H2 ltac:(lia) ltac:(lia) Ht) as Hg. cbv zeta in Hg.
    destruct (_ =? 0).
    + intros ? ? [= <- <-] p Hp (F1 & F2 & F3 & F4). destruct (F4 it ltac:(by left)) as [F|F]; [|destruct Hs as ((? & ?) & ?); lia].
      by apply (Hg p).
    + destruct Hg as (G1 & G2 & G3). split; [by exists [it], []|]. simpl. split; [|split; [done|lia]].
      repeat split; try lia. apply Hs.
  - rewrite scan_holes_cons. cbv zeta. destruct H3 as (H4 & H5 & H6). pose proof (laid_out_le _ _ _ H6).
    pose proof (gap_test total s it (s_offset next) Hs ltac:(lia) H2 ltac:(lia) ltac:(lia) Ht) as Hg. cbv zeta in Hg.
    destruct (std_align _ _ _ _ =? 0).
    + specialize (IH (s_offset it + s_size it) Hs ltac:(lia) Ht (conj H4 (conj H5 H6))).
      destruct (scan_holes total s (next :: subs)) as [[p l]|].
      * destruct IH as ((b & a & I1 & ->) & I2 & I3 & I4). split; [exists (it :: b), a; by rewrite I1|].
        split; [done|]. split; [done|lia].
      * intros ? ? [= <- <-] p Hp (F1 & F2 & F3 & F4). destruct (F4 it ltac:(by left)) as [F|F]; [|destruct Hs as ((? & ?) & ?); lia].
        destruct (F4 next ltac:(by right; left)) as [F'|F']; [|by apply (Hg p)].
        apply (IH next subs eq_refl p ltac:(lia)). split; [done|]. split; [done|]. split; [done|].
        intros t Ht'. apply F4. by right.
    + destruct Hg as (G1 & G2 & G3). split; [by exists [it], (next :: subs)|].
      destruct Hs as ((Hs & _) & _). simpl. repeat split; try done; lia.
Qed.

(** the search finds a free aligned place exactly when the heap has one *)
Lemma find_place_spec h s :
  heap_ok h -> request_ok s -> s_size s <= h_free h ->
  match find_place h s with
  | Some (p, l) => inserted s p (h_subs h) l /\ laid_out 0 (h_total h) l /\ (s_alignment s | p) /\ 0 <= p
  | None => forall p, ~ place_free (h_total h) s (h_subs h) p
  end.
Proof.
  intros Hh Hs Hf. pose proof (ho_layout _ Hh) as Hl. pose proof (ho_free _ Hh) as Hfree.
  pose proof Hs as ((Hsz & Hsm) & Ha & _). unfold find_place.
  destruct (h_subs h) as [|front rest] eqn:El.
  - split; [by exists [], []|]. simpl in Hfree. split; [simpl; lia|]. split; [apply Z.divide_0_r|lia].
  - destruct (s_offset front >=? s_size s) eqn:E; bool_to_prop.
    + split; [by exists [], (front :: rest)|]. destruct Hl as (H1 & H2 & H3).
      split; [simpl; repeat split; try done; lia|]. split; [apply Z.divide_0_r|lia].
    + pose proof (scan_holes_spec _ s _ 0 Hs ltac:(lia) (ho_total _ Hh) Hl) as Hsc.
      destruct (scan_holes _ _ _) as [[p l]|]; [done|]. intros p Hp.
      destruct (Z.le_gt_cases (s_offset front) p) as [H|H]; [by apply (Hsc front rest eq_refl p)|].
      destruct Hp as (F1 & F2 & F3 & F4). destruct Hl as (H1 & H2 & H3).
      destruct (F4 front ltac:(by left)); lia.
Qed.

(** ** Draining and inserting keep the invariant *)

Definition kept (deletes : list Z) (subs : list suballocation) : list suballocation :=
  filter (fun s => s_offset s ∉ deletes) subs.

Lemma erase_deleted_spec deletes subs : forall free,
  erase_deleted deletes subs free = (kept deletes subs, free + total_size subs - total_size (kept deletes subs)).
Proof.
  induction subs as [|s subs IH]; intros free; cbn [erase_deleted kept].
  - unfold kept. simpl. f_equal. lia.
  - unfold kept. rewrite filter_cons. case_bool_decide.
    + rewrite decide_False by (intros Hn; by apply Hn). rewrite IH. unfold kept. simpl. f_equal. lia.
    + rewrite decide_True by done. rewrite IH. unfold kept. simpl. f_equal. lia.
Qed.

Lemma kept_nil subs : kept [] subs = subs.
Proof.
  unfold kept. induction subs as [|s subs IH]; [done|].
  rewrite filter_cons, decide_True by apply not_elem_of_nil. by rewrite IH.
Qed.

Lemma elem_of_kept deletes subs s : s ∈ kept deletes subs <-> s ∈ subs /\ s_offset s ∉ deletes.
Proof. unfold kept. rewrite list_elem_of_filter. tauto. Qed.

Lemma kept_laid_out deletes subs : forall from total, laid_out from total subs -> laid_out from total (kept deletes subs).
Proof.
  unfold kept. induction subs as [|s subs IH]; intros from total Hl; [done|]. destruct Hl as (H1 & H2 & H3).
  rewrite filter_cons. case_decide; [simpl; auto|]. eapply laid_out_weaken; [by apply IH|lia].
Qed.

Lemma with_deletes_ok h l : heap_ok h -> heap_ok (with_deletes h l).
Proof. intros []. by split. Qed.

(** what one visit of [suballocate] leaves of a heap *)
Record drained (run : bool) (h h' : heap) (calls : list device_call) : Prop := {
  dr_ok : heap_ok h';
  dr_subs : h_subs h' = kept (h_deletes h) (h_subs h);
  dr_deletes : h_deletes h' = [];
  dr_tid : h_tid h' = h_tid h;
  dr_type : h_memoryTypeIndex h' = h_memoryTypeIndex h;
  dr_alias : h_alias_group h' = h_alias_group h;
  dr_mem : (h_mem h' = h_mem h /\ h_mapped h' = h_mapped h /\ h_total h' = h_total h /\ calls = []) \/
           (h_mem h <> 0 /\ h_mem h' = 0 /\ h_subs h' = [] /\ h_dedicated h = true /\ calls = release_calls run h)
}.

Lemma drain_spec run h : heap_ok h -> drained run h (drain run h).1 (drain run h).2.
Proof.
  intros Hh. unfold drain, take_pending_deletes.
  destruct (h_deletes h) as [|d ds] eqn:Ed.
  { split; simpl; rewrite ?Ed, ?kept_nil; auto. by apply with_deletes_ok. }
  cbn [h_subs h_free with_deletes]. rewrite erase_deleted_spec.
  assert (Hok : heap_ok (with_subs (with_deletes h []) (kept (d :: ds) (h_subs h))
      (h_free h + total_size (h_subs h) - total_size (kept (d :: ds) (h_subs h))))).
  { pose proof Hh as [H1 H2 H3 H4 H5]. split; simpl; [by apply kept_laid_out|lia| |done|].
    - apply List.Forall_forall. intros s Hs%list_elem_of_In%elem_of_kept. rewrite List.Forall_forall in H3.
      apply H3, list_elem_of_In, Hs.
    - intros Hm. by rewrite (H5 Hm). }
  destruct (_ && _ && _) eqn:E; simpl; [|split; simpl; rewrite ?Ed; auto].
  bool_to_prop. apply bool_decide_eq_true in H1. simpl in *.
  split; simpl; rewrite ?Ed; auto.
  - split; simpl; auto; rewrite ?H1; simpl; auto; unfold MAX_ALLOCATION; lia.
  - right. by repeat split.
Qed.

Lemma total_size_app l1 l2 : total_size (l1 ++ l2) = total_size l1 + total_size l2.
Proof. unfold total_size. induction l1 as [|s l1 IH]; simpl; lia. Qed.

Lemma elem_of_inserted s p subs l t : inserted s p subs l -> t ∈ l <-> t ∈ subs \/ t = at_offset s p.
Proof. intros (b & a & -> & ->). rewrite !elem_of_app, elem_of_cons. tauto. Qed.

Definition place (h : heap) (s : suballocation) (l : list suballocation) : heap :=
  with_subs h l (h_free h - s_size s).

Lemma place_ok h s p l :
  heap_ok h -> request_ok s -> h_mem h <> 0 ->
  inserted s p (h_subs h) l -> laid_out 0 (h_total h) l -> (s_alignment s | p) -> heap_ok (place h s l).
Proof.
  intros [H1 H2 H3 H4 H5] (Hs & Ha & _) Hm Hi Hl Hd. split; simpl; auto; [| |by intros].
  - destruct Hi as (b & a & E & ->). rewrite E in H2. rewrite total_size_app in *. simpl. lia.
  - apply List.Forall_forall. intros t Ht%list_elem_of_In. apply (elem_of_inserted _ _ _ _ _ Hi) in Ht as [Ht| ->].
    + rewrite List.Forall_forall in H3. by apply H3, list_elem_of_In.
    + by split.
Qed.

(** ** Properties *)

(** C37: the search of a heap is exact: for a heap that keeps its invariant and has
    enough free bytes in total, [find_place] returns an aligned place that touches
    no other object and keeps the list in address order, and it fails only when
    no aligned free place of the size exists anywhere in the heap. *)
Theorem find_place_exact (h : heap) (s : suballocation) (Hheap : heap_ok h) (Hrequest : request_ok s)
    (Hfree : s_size s <= h_free h) :
  match find_place h s with
  | Some (p, l) =>
      place_free (h_total h) s (h_subs h) p /\ (h_mem h <> 0 -> heap_ok (place h s l)) /\
      forall t, t ∈ l <-> t ∈ h_subs h \/ t = at_offset s p
  | None => forall p, ~ place_free (h_total h) s (h_subs h) p
  end.
Proof.
  pose proof (find_place_spec h s Hheap Hrequest Hfree) as H. destruct (find_place h s) as [[p l]|]; [|done].
  destruct H as (Hi & Hl & Hd & Hp). split; [|split; [intros Hm; by apply place_ok with (p := p)|by intros t; apply elem_of_inserted]].
  destruct Hi as (b & a & E & ->).
  assert (Hat : (b ++ at_offset s p :: a) !! length b = Some (at_offset s p)) by (by rewrite lookup_app_r, Nat.sub_diag by lia).
  destruct (laid_out_in _ _ _ _ Hl ltac:(by eapply list_elem_of_lookup_2)) as (L1 & L2 & L3). simpl in L1, L2, L3.
  split; [done|]. split; [done|]. split; [done|]. intros t Ht. rewrite E in Ht. apply elem_of_app in Ht as [Ht|Ht].
  - left. apply list_elem_of_lookup_1 in Ht as [i Hi]. pose proof (lookup_lt_Some _ _ _ Hi) as Hlt.
    apply (laid_out_disjoint _ _ _ i (length b) t (at_offset s p) Hl Hlt); [by rewrite lookup_app_l|done].
  - right. apply list_elem_of_lookup_1 in Ht as [i Hi].
    apply (laid_out_disjoint _ _ _ (length b) (S (length b + i)) (at_offset s p) t Hl ltac:(lia) Hat).
    rewrite lookup_app_r by lia. replace (S (length b + i) - length b)%nat with (S i) by lia. done.
Qed.

Definition demo_sub (offset size : Z) : suballocation :=
  Suballocation VK_OBJECT_TYPE_BUFFER 1 size offset 16 0 0 CONTAINER_INVALID_INDEX false.

(** a hole of 28 bytes whose aligned part holds 16 bytes but not 17 *)
Definition demo_heap : heap :=
  Heap 0 0 1 44 256 6 0 false false [demo_sub 0 20; demo_sub 48 192] [] TILING_LINEAR 0.

Lemma demo_heap_ok : heap_ok demo_heap.
Proof.
  split; simpl; try lia; [|unfold MAX_ALLOCATION; lia].
  assert (is_pow2 16) by (by apply is_pow2b_spec). repeat constructor; try done; simpl; [by exists 0|by exists 3].
Qed.

Lemma find_place_exact_witness :
  match find_place demo_heap (demo_sub 0 16) with
  | Some (p, l) => place_free (h_total demo_heap) (demo_sub 0 16) (h_subs demo_heap) p /\
      (h_mem demo_heap <> 0 -> heap_ok (place demo_heap (demo_sub 0 16) l)) /\
      forall t, t ∈ l <-> t ∈ h_subs demo_heap \/ t = at_offset (demo_sub 0 16) p
  | None => forall p, ~ place_free (h_total demo_heap) (demo_sub 0 16) (h_subs demo_heap) p
  end /\ find_place demo_heap (demo_sub 0 16) = Some (32, [demo_sub 0 20; demo_sub 32 16; demo_sub 48 192]) /\
  find_place demo_heap (demo_sub 0 17) = None.
Proof.
  split; [|split; vm_compute; reflexivity].
  apply find_place_exact; [exact demo_heap_ok| |simpl; lia].
  split; [unfold MAX_ALLOCATION; simpl; lia|]. split; [by apply is_pow2b_spec|simpl; lia].
Defined.
