(* ===== verification/Suballocator.v ===== *)
(** * The memory suballocator of the replayer (src/suballocator.h, src/suballocator.cpp)

    Each thread owns a list of heaps; lookup tables map every bound object to
    its heap and place. A [heap*] of the code is the pair of thread and position
    in the thread's list, which never shrinks before [destroy]. An operation of
    the model is atomic: the heaps of a thread are used by that thread only, and
    the queue of deletes is guarded by its mutex. The calls made to the driver are
    kept in order in [device_calls]; [malloc] and [free] of the mode that fakes the
    device count as allocation and release. *)

From Stdlib Require Import ZArith Lia Bool.
From stdpp Require Import base numbers list sets.
From S2P Require Import Prelude Memory Heap.

#[local] Open Scope Z_scope.

(** ** State *)

Definition heap_ptr : Type := nat * nat.

Record lookup := Lookup {
  home : option heap_ptr;
  l_offset : Z;
  l_size : Z;
  initialized : bool;
  l_alias_member : bool
}.

Record datagraph_lookup := DatagraphLookup {
  d_bind_point : Z;
  d_object_index : N;
  loc : lookup
}.

Record alias_group := AliasGroup {
  capture_memory_index : Z;
  capture_offset : Z;
  group_size : Z;
  group_alignment : Z;
  group_reqs : memory_requirements;
  group_tiling : lava_tiling;
  group_home : option heap_ptr
}.

Record alias_lookup := AliasLookup {
  group : option nat;      (** position in [alias_groups] *)
  alias_offset : Z
}.

Record lookup_tables := LookupTables {
  image_lookup : list lookup;
  buffer_lookup : list lookup;
  tensor_lookup : list lookup;
  datagraphpipelinesession_lookup : list (list datagraph_lookup)
}.

Record alias_tables := AliasTables {
  image_alias_lookup : list alias_lookup;
  buffer_alias_lookup : list alias_lookup;
  tensor_alias_lookup : list alias_lookup;
  alias_groups : list alias_group
}.

Record counters := Counters {
  used_bytes : Z;
  used_count : Z;
  allocated_bytes : Z;
  allocated_heaps : Z
}.

Record device_config := DeviceConfig {
  min_heap_size : Z;
  run : bool;
  memory_types : list Z;            (** [propertyFlags] of each memory type *)
  allow_mixed_tiling : bool;
  max_allocations : Z
}.

Record suballocator_private := SuballocatorPrivate {
  config : device_config;
  heaps_by_thread : list (list heap);
  tables : lookup_tables;
  aliases : alias_tables;
  metrics : counters;
  virtualswapmemory : list Z;
  device_calls : list device_call
}.

Record suballoc_location := SuballocLocation {
  loc_memory : Z;
  loc_offset : Z;
  loc_size : Z;
  needs_init : bool;
  loc_needs_flush : bool;
  loc_mapped : Z
}.

Definition set_heaps p hs := SuballocatorPrivate (config p) hs (tables p) (aliases p) (metrics p) (virtualswapmemory p) (device_calls p).
Definition set_tables p t := SuballocatorPrivate (config p) (heaps_by_thread p) t (aliases p) (metrics p) (virtualswapmemory p) (device_calls p).
Definition set_aliases p a := SuballocatorPrivate (config p) (heaps_by_thread p) (tables p) a (metrics p) (virtualswapmemory p) (device_calls p).
Definition set_metrics p m := SuballocatorPrivate (config p) (heaps_by_thread p) (tables p) (aliases p) m (virtualswapmemory p) (device_calls p).
Definition add_calls p l := SuballocatorPrivate (config p) (heaps_by_thread p) (tables p) (aliases p) (metrics p) (virtualswapmemory p) (device_calls p ++ l).
Definition add_virtualswap p m := SuballocatorPrivate (config p) (heaps_by_thread p) (tables p) (aliases p) (metrics p) (virtualswapmemory p ++ [m]) (device_calls p).

(** ** Access by index *)

Definition at_index {A} (l : list A) (i : N) : option A :=
  if (i <? N.of_nat (length l))%N then l !! N.to_nat i else None.

Definition set_at {A} (l : list A) (i : N) (x : A) : list A := <[N.to_nat i := x]> l.

Definition heap_at (p : suballocator_private) (a : heap_ptr) : option heap :=
  match heaps_by_thread p !! a.1 with
  | Some hs => hs !! a.2
  | None => None
  end.

Definition set_heap (p : suballocator_private) (a : heap_ptr) (h : heap) : suballocator_private :=
  set_heaps p (alter (fun hs => <[a.2 := h]> hs) a.1 (heaps_by_thread p)).

(** [thread_heaps], which aborts on an unknown thread *)
Definition thread_heaps (p : suballocator_private) (tid : nat) : outcome (list heap) :=
  match heaps_by_thread p !! tid with
  | Some hs => Ok hs
  | None => Fail AbortCall
  end.

(** the lookup vector of an object type *)
Definition vec (t : lookup_tables) (ty : VkObjectType) : list lookup :=
  match ty with
  | VK_OBJECT_TYPE_IMAGE => image_lookup t
  | VK_OBJECT_TYPE_TENSOR_ARM => tensor_lookup t
  | VK_OBJECT_TYPE_BUFFER => buffer_lookup t
  | _ => []
  end.

Definition set_vec (t : lookup_tables) (ty : VkObjectType) (l : list lookup) : lookup_tables :=
  match ty with
  | VK_OBJECT_TYPE_IMAGE => LookupTables l (buffer_lookup t) (tensor_lookup t) (datagraphpipelinesession_lookup t)
  | VK_OBJECT_TYPE_TENSOR_ARM => LookupTables (image_lookup t) (buffer_lookup t) l (datagraphpipelinesession_lookup t)
  | VK_OBJECT_TYPE_BUFFER => LookupTables (image_lookup t) l (tensor_lookup t) (datagraphpipelinesession_lookup t)
  | _ => t
  end.

Definition set_sessions (t : lookup_tables) (l : list (list datagraph_lookup)) : lookup_tables :=
  LookupTables (image_lookup t) (buffer_lookup t) (tensor_lookup t) l.

(** ** Helpers *)

Definition prune_memory_flags (flags : Z) : Z :=
  if negb (Z.land flags VK_MEMORY_PROPERTY_HOST_COHERENT_BIT =? 0)
     || negb (Z.land flags VK_MEMORY_PROPERTY_HOST_CACHED_BIT =? 0)
  then Z.ldiff flags VK_MEMORY_PROPERTY_DEVICE_LOCAL_BIT
  else flags.

(** one pass over the memory types from index [i] on *)
Fixpoint find_memory_type (types : list Z) (type_filter properties : Z) (i : nat) : option nat :=
  match types with
  | [] => None
  | flags :: rest =>
      if Z.testbit type_filter (Z.of_nat i) && (Z.land flags properties =? properties) then Some i
      else find_memory_type rest type_filter properties (S i)
  end.

Definition get_device_memory_type (p : suballocator_private) (type_filter properties : Z) : outcome nat :=
  match find_memory_type (memory_types (config p)) type_filter properties 0 with
  | Some i => Ok i
  | None =>
      let properties := Z.ldiff properties
        (Z.lor VK_MEMORY_PROPERTY_HOST_CACHED_BIT VK_MEMORY_PROPERTY_LAZILY_ALLOCATED_BIT) in
      match find_memory_type (memory_types (config p)) type_filter properties 0 with
      | Some i => Ok i
      | None => Fail AbortCall
      end
  end.

Definition type_flags (p : suballocator_private) (type : nat) : Z := nth type (memory_types (config p)) 0.

Definition needs_flush (p : suballocator_private) (type : nat) : bool :=
  Z.land (type_flags p type) VK_MEMORY_PROPERTY_HOST_COHERENT_BIT =? 0.

Definition get_alias_lookup (a : alias_tables) (ty : VkObjectType) (index : N) : outcome (option alias_lookup) :=
  let get l := match at_index l index with Some x => Ok (Some x) | None => Fail AbortCall end in
  match ty with
  | VK_OBJECT_TYPE_IMAGE => get (image_alias_lookup a)
  | VK_OBJECT_TYPE_TENSOR_ARM => get (tensor_alias_lookup a)
  | VK_OBJECT_TYPE_BUFFER => get (buffer_alias_lookup a)
  | _ => Ok None
  end.

(** the answer of [find_*_memory] for a lookup whose home is [h] *)
Definition location_of (p : suballocator_private) (h : heap) (offset size : Z) (init : bool) : suballoc_location :=
  SuballocLocation (h_mem h) offset size init (needs_flush p (h_memoryTypeIndex h)) (mapped_at h offset).

(** ** Binding *)

Definition same_binding (bind_point : Z) (object_index : N) (e : datagraph_lookup) : bool :=
  (d_bind_point e =? bind_point) && (d_object_index e =? object_index)%N.

(** the table update of [bind]; [a] is the heap *)
Definition bind_tables (t : lookup_tables) (a : heap_ptr) (s : suballocation) : outcome lookup_tables :=
  match s_type s with
  | VK_OBJECT_TYPE_DATA_GRAPH_PIPELINE_SESSION_ARM =>
      match at_index (datagraphpipelinesession_lookup t) (s_index s) with
      | None => Fail AbortCall
      | Some session_lookup =>
          let* _ := require (negb (existsb (same_binding (s_bind_point s) (s_object_index s)) session_lookup)) AbortCall in
          let entry := DatagraphLookup (s_bind_point s) (s_object_index s)
                         (Lookup (Some a) (s_offset s) (s_size s) false false) in
          Ok (set_sessions t (set_at (datagraphpipelinesession_lookup t) (s_index s) (session_lookup ++ [entry])))
      end
  | VK_OBJECT_TYPE_UNKNOWN => Fail AssertFailed
  | ty =>
      match at_index (vec t ty) (s_index s) with
      | None => Fail AbortCall
      | Some _ =>
          Ok (set_vec t ty (set_at (vec t ty) (s_index s)
                (Lookup (Some a) (s_offset s) (s_size s) (s_alias_member s) (s_alias_member s))))
      end
  end.

Definition bind (p : suballocator_private) (a : heap_ptr) (s : suballocation) : outcome suballocator_private :=
  match heap_at p a with
  | None => Fail NullPointer
  | Some h =>
      let* _ := require (negb (h_mem h =? 0)) AssertFailed in
      let* _ := require (negb (s_alignment s =? 0)) AssertFailed in
      let* t := bind_tables (tables p) a s in
      let* _ := require (s_offset s + s_size s <=? h_total h) AssertFailed in
      Ok (set_tables p t)
  end.

(** ** The device

    What the driver and [malloc] answer, as functions of the calls made so far. *)

Class Device := {
  vkAllocateMemory : list device_call -> Z -> nat -> option Z;
  vkMapMemory : list device_call -> Z -> option Z;
  malloc : list device_call -> Z -> Z
}.

(** successful allocations return a non-null handle; the host is not out of memory *)
Class DeviceLaws (D : Device) : Prop := {
  allocate_nonnull : forall calls size type m, vkAllocateMemory calls size type = Some m -> m <> 0;
  malloc_nonnull : forall calls size, malloc calls size <> 0
}.

Section Operations.
Context {D : Device}.

(** ** Allocation *)

Definition count_used (p : suballocator_private) (size : Z) : suballocator_private :=
  let m := metrics p in
  set_metrics p (Counters (wrap64 (used_bytes m + size)) (wrap32 (used_count m + 1)) (allocated_bytes m) (allocated_heaps m)).

Definition count_allocated (p : suballocator_private) (size : Z) : suballocator_private :=
  let m := metrics p in
  set_metrics p (Counters (used_bytes m) (used_count m) (wrap64 (allocated_bytes m + size)) (wrap32 (allocated_heaps m + 1))).

(** the memory of a new heap, its host mapping and the calls made for it *)
Definition device_memory (p : suballocator_private) (size : Z) (type : nat) : outcome (Z * Z * list device_call) :=
  let calls := device_calls p in
  if run (config p) then
    match vkAllocateMemory calls size type with
    | None => Fail AbortCall
    | Some mem =>
        if negb (Z.land (type_flags p type) VK_MEMORY_PROPERTY_HOST_VISIBLE_BIT =? 0) then
          match vkMapMemory (calls ++ [AllocateMemory mem size type]) mem with
          | None => Fail AbortCall
          | Some mapped => Ok (mem, mapped, [AllocateMemory mem size type; MapMemory mem])
          end
        else Ok (mem, 0, [AllocateMemory mem size type])
    end
  else
    let mem := malloc calls size in Ok (mem, mem, [AllocateMemory mem size type]).

Definition push_heap (p : suballocator_private) (tid : nat) (h : heap) : suballocator_private :=
  set_heaps p (alter (fun hs => hs ++ [h]) tid (heaps_by_thread p)).

Definition allocate (p : suballocator_private) (tid type : nat) (s : suballocation) (flags : Z) (tiling : lava_tiling)
    (dedicated : bool) (allocflags : Z) (alias_group : bool) : outcome (suballoc_location * suballocator_private) :=
  let* _ := require (negb (dedicated && bool_decide (s_type s = VK_OBJECT_TYPE_UNKNOWN))) AssertFailed in
  let size := if dedicated || alias_group then s_size s else Z.max (min_heap_size (config p)) (s_size s) in
  let* _ := require (size <? MAX_ALLOCATION) AssertFailed in
  let* (mem, mapped, calls) := device_memory p size type in
  let p := count_allocated (add_calls p calls) size in
  let h := Heap tid type mem (size - s_size s) size flags allocflags dedicated alias_group [s] [] tiling mapped in
  let* hs := thread_heaps p tid in
  let a := (tid, length hs) in
  let p := push_heap p tid h in
  let* p := if alias_group then Ok p else bind p a (at_offset s 0) in
  Ok (SuballocLocation mem 0 (s_size s) true (needs_flush p type) mapped, p).

(** the search over the heaps of the thread; [n] heaps from index [i] on are left *)
Fixpoint suballocate_loop (n : nat) (p : suballocator_private) (i tid type : nat) (s : suballocation) (flags : Z)
    (tiling : lava_tiling) (allocflags : Z) : outcome (suballoc_location * suballocator_private) :=
  match n with
  | O => allocate p tid type s flags tiling false allocflags false
  | S n' =>
      match heap_at p (tid, i) with
      | None => Fail OutOfRange
      | Some h =>
          let (h, calls) := drain (run (config p)) h in
          let p := add_calls (set_heap p (tid, i) h) calls in
          let next := suballocate_loop n' p (S i) tid type s flags tiling allocflags in
          if suitable (allow_mixed_tiling (config p)) h tid type s flags tiling allocflags then
            match find_place h s with
            | None => next
            | Some (offset, subs) =>
                let* p := bind p (tid, i) (at_offset s offset) in
                let p := set_heap p (tid, i) (place h s subs) in
                Ok (location_of p h offset (s_size s) true, p)
            end
          else next
      end
  end.

Definition suballocate (p : suballocator_private) (tid type : nat) (s : suballocation) (flags : Z)
    (tiling : lava_tiling) (allocflags : Z) : outcome (suballoc_location * suballocator_private) :=
  let p := count_used p (s_size s) in
  let* _ := require (negb (s_alignment s =? 0)) AssertFailed in
  let* hs := thread_heaps p tid in
  suballocate_loop (length hs) p 0 tid type s flags tiling allocflags.

(** ** Adding objects *)

Definition set_group (p : suballocator_private) (g : nat) (x : alias_group) : suballocator_private :=
  let a := aliases p in
  set_aliases p (AliasTables (image_alias_lookup a) (buffer_alias_lookup a) (tensor_alias_lookup a)
    (<[g := x]> (alias_groups a))).

Definition settle (x : alias_group) (a : heap_ptr) : alias_group :=
  AliasGroup (capture_memory_index x) (capture_offset x) (group_size x) (group_alignment x) (group_reqs x)
    (group_tiling x) (Some a).

(** the reserved memory of a group, allocated by the first member that is added *)
Definition group_memory (p : suballocator_private) (tid g : nat) (x : alias_group)
  : outcome (heap_ptr * suballocator_private) :=
  match group_home x with
  | Some a => Ok (a, p)
  | None =>
      let flags := prune_memory_flags (memory_flags (group_reqs x)) in
      let* type := get_device_memory_type p (req_memoryTypeBits (group_reqs x)) flags in
      let reservation := Suballocation VK_OBJECT_TYPE_UNKNOWN 0 (group_size x) 0 (group_alignment x)
        (Z.to_N (capture_memory_index x)) 0 CONTAINER_INVALID_INDEX false in
      let p := count_used p (group_size x) in
      let* (_, p) := allocate p tid type reservation flags (group_tiling x) false (allocate_flags (group_reqs x)) true in
      let* hs := thread_heaps p tid in
      let a := (tid, length hs - 1)%nat in
      let p := set_group p g (settle x a) in
      match heap_at p a with
      | None => Fail OutOfRange
      | Some h => let* _ := require (h_alias_group h) AssertFailed in Ok (a, p)
      end
  end.

Definition object_suballocation (native : Z) (data : trackedobject) (offset : Z) (member : bool) : suballocation :=
  Suballocation (object_type data) native (req_size (reqs data)) offset (req_alignment (reqs data)) (obj_index data)
    0 CONTAINER_INVALID_INDEX member.

Definition add_trackedobject (p : suballocator_private) (tid : nat) (native : Z) (data : trackedobject)
  : outcome (suballoc_location * suballocator_private) :=
  let* _ := require (negb (req_alignment (reqs data) =? 0)) AssertFailed in
  let* alias := get_alias_lookup (aliases p) (object_type data) (obj_index data) in
  match alias with
  | Some (AliasLookup (Some g) offset) =>
      match alias_groups (aliases p) !! g with
      | None => Fail OutOfRange
      | Some x =>
          let* (a, p) := group_memory p tid g x in
          let* p := bind p a (object_suballocation native data offset true) in
          match heap_at p a with
          | None => Fail OutOfRange
          | Some h => Ok (location_of p h offset (req_size (reqs data)) true, p)
          end
      end
  | _ =>
      let flags := prune_memory_flags (obj_memory_flags data) in
      let* type := get_device_memory_type p (req_memoryTypeBits (reqs data)) flags in
      let s := object_suballocation native data 0 false in
      if dedicated_allocation data
      then allocate p tid type s flags (tiling data) true (allocate_flags (reqs data)) false
      else suballocate p tid type s flags (tiling data) (allocate_flags (reqs data))
  end.

(** a binding of a data graph pipeline session ([datagraph_pipeline_session_binding]
    of src/lavatube.h) with its own requirements *)
Record datagraph_binding := DatagraphBinding {
  b_bind_point : Z;
  b_object_index : N;
  b_reqs : memory_requirements;
  b_memory_flags : Z;
  b_dedicated_allocation : bool
}.

(** the caller looks the binding up with [get_binding]; [index] is the session.
    The binding is updated in place. *)
Definition add_datagraphpipelinesession (p : suballocator_private) (tid : nat) (native : Z) (index : N)
    (binding : datagraph_binding) : outcome (suballoc_location * datagraph_binding * suballocator_private) :=
  let r := b_reqs binding in
  let* _ := require (negb (req_alignment r =? 0)) AbortCall in
  let dedicated := b_dedicated_allocation binding || requiresDedicatedAllocation r in
  let flags := prune_memory_flags (b_memory_flags binding) in
  let r := MemoryRequirements (req_size r) (req_alignment r) (req_memoryTypeBits r) (b_memory_flags binding)
             (prefersDedicatedAllocation r) (requiresDedicatedAllocation r) (allocate_flags r) in
  let binding := DatagraphBinding (b_bind_point binding) (b_object_index binding) r (b_memory_flags binding) dedicated in
  let* type := get_device_memory_type p (req_memoryTypeBits r) flags in
  let s := Suballocation VK_OBJECT_TYPE_DATA_GRAPH_PIPELINE_SESSION_ARM native (req_size r) 0 (req_alignment r) index
             (b_bind_point binding) (b_object_index binding) false in
  let* (loc, p) :=
    if dedicated
    then allocate p tid type s flags TILING_LINEAR true (allocate_flags r) false
    else suballocate p tid type s flags TILING_LINEAR (allocate_flags r) in
  Ok (loc, binding, p).

(** one dedicated allocation per image, all of the size of the first *)
Fixpoint virtualswap_loop (p : suballocator_private) (images : nat) (type : nat) (image_size : Z)
  : outcome suballocator_private :=
  match images with
  | O => Ok p
  | S n =>
      match vkAllocateMemory (device_calls p) image_size type with
      | None => Fail AbortCall
      | Some mem => virtualswap_loop (add_virtualswap (add_calls p [AllocateMemory mem image_size type]) mem) n type image_size
      end
  end.

(** [req] is what the driver requires for the first image *)
Definition virtualswap_images (p : suballocator_private) (images : nat) (req : memory_requirements) (flags : Z)
  : outcome suballocator_private :=
  let* _ := require (run (config p)) AssertFailed in
  let flags := prune_memory_flags flags in
  let* _ := require (negb (Nat.eqb images 0)) OutOfRange in
  let* type := get_device_memory_type p (req_memoryTypeBits req) flags in
  virtualswap_loop p images type (req_size req).

(** ** Removing and finding objects *)

Definition unbound (l : lookup) : lookup := Lookup None (l_offset l) (l_size l) (initialized l) (l_alias_member l).
Definition with_initialized (l : lookup) : lookup := Lookup (home l) (l_offset l) (l_size l) true (l_alias_member l).

Definition queue_delete_at (p : suballocator_private) (a : heap_ptr) (offset : Z) : suballocator_private :=
  match heap_at p a with
  | Some h => set_heap p a (queue_delete h offset)
  | None => p
  end.

(** [free_image], [free_buffer] and [free_tensor] *)
Definition free_object (p : suballocator_private) (ty : VkObjectType) (index : N) : outcome suballocator_private :=
  if (index =? CONTAINER_NULL_VALUE)%N then Ok p
  else
    match at_index (vec (tables p) ty) index with
    | None => Fail OutOfRange
    | Some l =>
        match home l with
        | None => Ok p
        | Some a =>
            let p := if l_alias_member l then p else queue_delete_at p a (l_offset l) in
            Ok (set_tables p (set_vec (tables p) ty (set_at (vec (tables p) ty) index (unbound l))))
        end
    end.

Definition free_datagraphpipelinesession (p : suballocator_private) (session_index : N) : outcome suballocator_private :=
  if (session_index =? CONTAINER_NULL_VALUE)%N then Ok p
  else
    match at_index (datagraphpipelinesession_lookup (tables p)) session_index with
    | None => Fail OutOfRange
    | Some entries =>
        let p := foldl (fun p e => match home (loc e) with
                                   | Some a => queue_delete_at p a (l_offset (loc e))
                                   | None => p
                                   end) p entries in
        Ok (set_tables p (set_sessions (tables p) (set_at (datagraphpipelinesession_lookup (tables p)) session_index [])))
    end.

(** [find_image_memory], [find_buffer_memory] and [find_tensor_memory]; the
    table is changed although the methods are [const] *)
Definition find_memory (p : suballocator_private) (ty : VkObjectType) (index : N)
  : outcome (suballoc_location * suballocator_private) :=
  match at_index (vec (tables p) ty) index with
  | None => Fail OutOfRange
  | Some l =>
      match home l with
      | None => Fail AbortCall
      | Some a =>
          match heap_at p a with
          | None => Fail NullPointer
          | Some h =>
              Ok (location_of p h (l_offset l) (l_size l) (negb (initialized l)),
                  set_tables p (set_vec (tables p) ty (set_at (vec (tables p) ty) index (with_initialized l))))
          end
      end
  end.

(** the first entry of a session with the binding, and its position *)
Fixpoint find_entry (bind_point : Z) (object_index : N) (entries : list datagraph_lookup) : option (nat * datagraph_lookup) :=
  match entries with
  | [] => None
  | e :: rest =>
      if same_binding bind_point object_index e then Some (0%nat, e)
      else match find_entry bind_point object_index rest with
           | Some (i, e) => Some (S i, e)
           | None => None
           end
  end.

Definition find_datagraphpipelinesession_memory (p : suballocator_private) (session_index : N) (bind_point : Z)
    (object_index : N) : outcome (suballoc_location * suballocator_private) :=
  let sessions := datagraphpipelinesession_lookup (tables p) in
  match at_index sessions session_index with
  | None => Fail OutOfRange
  | Some entries =>
      match find_entry bind_point object_index entries with
      | None => Fail AbortCall
      | Some (i, e) =>
          match home (loc e) with
          | None => Fail AbortCall
          | Some a =>
              match heap_at p a with
              | None => Fail NullPointer
              | Some h =>
                  let e' := DatagraphLookup (d_bind_point e) (d_object_index e) (with_initialized (loc e)) in
                  Ok (location_of p h (l_offset (loc e)) (l_size (loc e)) (negb (initialized (loc e))),
                      set_tables p (set_sessions (tables p) (set_at sessions session_index (<[i := e']> entries))))
              end
          end
      end
  end.

(** ** Teardown *)

Definition release_heap (run : bool) (h : heap) : list device_call :=
  if h_mem h =? 0 then [] else release_calls run h.

Definition destroy (p : suballocator_private) : suballocator_private :=
  let calls := concat (map (release_heap (run (config p))) (concat (heaps_by_thread p))) in
  SuballocatorPrivate (config p) (map (fun _ => []) (heaps_by_thread p)) (LookupTables [] [] [] []) (AliasTables [] [] [] [])
    (metrics p) [] (device_calls p ++ calls ++ map FreeMemory (virtualswapmemory p)).

(** ** Consistency checks *)

Definition same_place (l : lookup) (s : suballocation) : bool :=
  (s_offset s =? l_offset l) && (s_size s =? l_size l).

(** a lookup of the object vectors must be found in its heap *)
Definition check_lookup (p : suballocator_private) (l : lookup) : bool :=
  match home l with
  | None => true
  | Some a =>
      match heap_at p a with
      | None => false
      | Some h =>
          negb (l_size l =? 0) &&
          if l_alias_member l then h_alias_group h && (l_offset l + l_size l <=? h_total h)
          else existsb (same_place l) (h_subs h)
      end
  end.

Definition check_entry (p : suballocator_private) (e : datagraph_lookup) : bool :=
  match home (loc e) with
  | None => true
  | Some a =>
      match heap_at p a with
      | None => false
      | Some h =>
          negb (l_size (loc e) =? 0) &&
          existsb (fun s => same_place (loc e) s &&
            bool_decide (s_type s = VK_OBJECT_TYPE_DATA_GRAPH_PIPELINE_SESSION_ARM) &&
            (s_bind_point s =? d_bind_point e) && (s_object_index s =? d_object_index e)%N) (h_subs h)
      end
  end.

(** [suballocator_private::self_test] *)
Definition self_test_tables (p : suballocator_private) : bool :=
  let t := tables p in
  forallb (check_lookup p) (image_lookup t) && forallb (check_lookup p) (buffer_lookup t) &&
  forallb (check_lookup p) (tensor_lookup t) &&
  forallb (forallb (check_entry p)) (datagraphpipelinesession_lookup t).

(** the lookup of a placed object, which marks it as initialized *)
Definition find_suballocation (p : suballocator_private) (s : suballocation)
  : outcome (suballoc_location * suballocator_private) :=
  match s_type s with
  | VK_OBJECT_TYPE_DATA_GRAPH_PIPELINE_SESSION_ARM =>
      find_datagraphpipelinesession_memory p (s_index s) (s_bind_point s) (s_object_index s)
  | ty => find_memory p ty (s_index s)
  end.

Definition same_location (h : heap) (s : suballocation) (l : suballoc_location) : bool :=
  (loc_memory l =? h_mem h) && (loc_offset l =? s_offset s) && (loc_size l =? s_size s).

Fixpoint walk_subs (p : suballocator_private) (h : heap) (subs : list suballocation) (prev_end freed used : Z) (count : nat)
  : outcome (Z * Z * Z * nat * suballocator_private) :=
  match subs with
  | [] => Ok (prev_end, freed, used, count, p)
  | s :: rest =>
      let* _ := require (s_offset s >=? prev_end) AssertFailed in
      let freed := if prev_end >=? 0 then freed + (s_offset s - prev_end) else freed in
      let used := used + s_size s in
      let prev_end := s_offset s + s_size s in
      let* _ := require (negb (bool_decide (s_type s = VK_OBJECT_TYPE_UNKNOWN))) AssertFailed in
      if has_pending_delete h (s_offset s) then walk_subs p h rest prev_end freed used count
      else
        let* (l, p) := find_suballocation p s in
        let* _ := require (same_location h s l) AssertFailed in
        walk_subs p h rest prev_end freed used (S count)
  end.

Definition walk_heap (p : suballocator_private) (h : heap) (count : nat) : outcome (nat * suballocator_private) :=
  let* _ := require (h_free h <=? h_total h) AssertFailed in
  if h_alias_group h then
    match h_subs h with
    | [s] =>
        let* _ := require ((s_offset s =? 0) && (s_size s =? h_total h) && (h_free h =? 0)) AssertFailed in
        Ok (S count, p)
    | _ => Fail AssertFailed
    end
  else
    let freed := match h_subs h with [] => 0 | front :: _ => s_offset front end in
    let* (prev_end, freed, used, count, p) := walk_subs p h (h_subs h) (-1) freed 0 count in
    let freed := if prev_end >=? 0 then freed + (h_total h - prev_end) else h_total h in
    let* _ := require ((h_free h =? freed) && (freed + used =? h_total h)) AssertFailed in
    Ok (count, p).

Fixpoint walk_heaps (p : suballocator_private) (heaps : list heap) (count : nat) : outcome (nat * suballocator_private) :=
  match heaps with
  | [] => Ok (count, p)
  | h :: rest => let* (count, p) := walk_heap p h count in walk_heaps p rest count
  end.

(** [suballocator::self_test]: the number of live objects *)
Definition self_test (p : suballocator_private) : outcome (nat * suballocator_private) :=
  let* _ := require (self_test_tables p) AssertFailed in
  walk_heaps p (concat (heaps_by_thread p)) 0.

Definition performance (p : suballocator_private) : Z * Z * Z * Z :=
  let m := metrics p in (used_bytes m, used_count m, allocated_heaps m, allocated_bytes m).
End Operations.

(** ** Indexing lemmas *)

Lemma at_index_lookup {A} (l : list A) i : at_index l i = l !! N.to_nat i.
Proof.
  unfold at_index. destruct (_ <? _)%N eqn:E; [done|]. apply N.ltb_ge in E.
  symmetry. apply lookup_ge_None. lia.
Qed.

Lemma at_index_set_at {A} (l : list A) i j x :
  at_index (set_at l i x) j = match at_index l j with Some y => Some (if decide (i = j) then x else y) | None => None end.
Proof.
  rewrite !at_index_lookup. unfold set_at. destruct (decide (i = j)) as [->|Hn].
  - destruct (l !! N.to_nat j) eqn:E.
    + apply list_lookup_insert_eq. by eapply lookup_lt_Some.
    + apply lookup_ge_None in E. apply lookup_ge_None. by rewrite length_insert.
  - rewrite list_lookup_insert_ne by lia. by destruct (l !! N.to_nat j).
Qed.

(** the object vectors *)
Definition tracked (ty : VkObjectType) : bool :=
  match ty with
  | VK_OBJECT_TYPE_IMAGE | VK_OBJECT_TYPE_BUFFER | VK_OBJECT_TYPE_TENSOR_ARM => true
  | _ => false
  end.

Lemma vec_set_vec_eq t ty l : tracked ty = true -> vec (set_vec t ty l) ty = l.
Proof. by destruct ty. Qed.

Lemma vec_set_vec_ne t ty ty' l : ty' <> ty -> vec (set_vec t ty l) ty' = vec t ty'.
Proof. by destruct ty, ty'. Qed.

Lemma sessions_set_vec t ty l : datagraphpipelinesession_lookup (set_vec t ty l) = datagraphpipelinesession_lookup t.
Proof. by destruct ty. Qed.

Lemma vec_set_sessions t l ty : vec (set_sessions t l) ty = vec t ty.
Proof. by destruct ty. Qed.

Lemma vec_tracked t ty i l : at_index (vec t ty) i = Some l -> tracked ty = true.
Proof. rewrite at_index_lookup. by destruct ty. Qed.

Lemma heap_at_set_heap p a h0 h b :
  heap_at p a = Some h0 -> heap_at (set_heap p a h) b = if decide (b = a) then Some h else heap_at p b.
Proof.
  unfold heap_at, set_heap. cbn [heaps_by_thread set_heaps]. intros Ha.
  destruct (heaps_by_thread p !! a.1) as [hs|] eqn:Et; [|done].
  destruct (decide (b.1 = a.1)) as [E1|E1].
  - rewrite E1, list_lookup_alter_eq, Et. simpl. destruct (decide (b = a)) as [->|Hn].
    + apply list_lookup_insert_eq. by eapply lookup_lt_Some.
    + rewrite list_lookup_insert_ne; [done|]. intros E2. apply Hn. destruct a, b. by f_equal.
  - rewrite list_lookup_alter_ne by congruence. rewrite decide_False; [done|]. by intros ->.
Qed.

Lemma heap_at_push_heap p tid hs h b :
  heaps_by_thread p !! tid = Some hs ->
  heap_at (push_heap p tid h) b = if decide (b = (tid, length hs)) then Some h else heap_at p b.
Proof.
  unfold heap_at, push_heap. cbn [heaps_by_thread set_heaps]. intros Et.
  destruct (decide (b.1 = tid)) as [E1|E1].
  - rewrite E1, list_lookup_alter_eq, Et. simpl. destruct (decide (b = (tid, length hs))) as [->|Hn].
    + simpl. by rewrite lookup_app_r, Nat.sub_diag by lia.
    + assert (b.2 <> length hs) by (intros E2; apply Hn; destruct b; simpl in *; by subst).
      rewrite lookup_app. destruct (hs !! b.2) eqn:E; [done|]. apply lookup_ge_None in E.
      apply lookup_ge_None. simpl. lia.
  - rewrite list_lookup_alter_ne by congruence. rewrite decide_False; [done|]. by intros ->.
Qed.

(** ** The lookup tables as a map from objects *)

Inductive key :=
  | TrackedKey (ty : VkObjectType) (index : N)
  | SessionKey (index : N) (bind_point : Z) (object_index : N).

#[export] Instance key_eq_dec : EqDecision key.
Proof. solve_decision. Defined.

Definition key_of (s : suballocation) : key :=
  match s_type s with
  | VK_OBJECT_TYPE_DATA_GRAPH_PIPELINE_SESSION_ARM => SessionKey (s_index s) (s_bind_point s) (s_object_index s)
  | ty => TrackedKey ty (s_index s)
  end.

Definition live (l : lookup) : option lookup := match home l with Some _ => Some l | None => None end.

(** the lookup of a bound object *)
Definition bound (t : lookup_tables) (k : key) : option lookup :=
  match k with
  | TrackedKey ty i => match at_index (vec t ty) i with Some l => live l | None => None end
  | SessionKey i bp oi =>
      match at_index (datagraphpipelinesession_lookup t) i with
      | Some entries => match find_entry bp oi entries with Some (_, e) => live (loc e) | None => None end
      | None => None
      end
  end.

(** entries of a session have distinct bindings and are bound *)
Definition session_ok (entries : list datagraph_lookup) : Prop :=
  NoDup (map (fun e => (d_bind_point e, d_object_index e)) entries) /\
  Forall (fun e => home (loc e) <> None /\ l_alias_member (loc e) = false) entries.

Definition sessions_ok (t : lookup_tables) : Prop := Forall session_ok (datagraphpipelinesession_lookup t).

Lemma same_binding_spec bp oi e : same_binding bp oi e = true <-> d_bind_point e = bp /\ d_object_index e = oi.
Proof. unfold same_binding. rewrite andb_true_iff, Z.eqb_eq, N.eqb_eq. done. Qed.

Lemma find_entry_spec bp oi entries :
  match find_entry bp oi entries with
  | Some (i, e) => entries !! i = Some e /\ same_binding bp oi e = true
  | None => existsb (same_binding bp oi) entries = false
  end.
Proof.
  induction entries as [|e entries IH]; simpl; [done|]. destruct (same_binding bp oi e) eqn:E; [done|].
  by destruct (find_entry bp oi entries) as [[i e']|].
Qed.

Lemma find_entry_app bp oi l1 l2 :
  find_entry bp oi (l1 ++ l2) =
  match find_entry bp oi l1 with
  | Some x => Some x
  | None => match find_entry bp oi l2 with Some (i, e) => Some (length l1 + i, e)%nat | None => None end
  end.
Proof.
  induction l1 as [|e l1 IH]; simpl; [by destruct (find_entry bp oi l2) as [[]|]|].
  destruct (same_binding bp oi e); [done|]. rewrite IH.
  destruct (find_entry bp oi l1) as [[]|]; [done|]. by destruct (find_entry bp oi l2) as [[]|].
Qed.

(** with distinct bindings every entry is the one its binding finds *)
Lemma find_entry_at entries i e :
  session_ok entries -> entries !! i = Some e -> find_entry (d_bind_point e) (d_object_index e) entries = Some (i, e).
Proof.
  intros [Hnd _]. revert i; induction entries as [|x entries IH]; intros i Hi; [done|].
  cbn [map] in Hnd. apply NoDup_cons in Hnd as [Hx Hnd]. simpl. destruct i as [|i].
  - injection Hi as ->. by rewrite (proj2 (same_binding_spec _ _ e) (conj eq_refl eq_refl)).
  - simpl in Hi. destruct (same_binding _ _ x) eqn:E; [|by rewrite (IH Hnd i Hi)].
    apply same_binding_spec in E as [E1 E2]. exfalso. apply Hx. rewrite E1, E2.
    apply list_elem_of_fmap. exists e. split; [done|]. by eapply list_elem_of_lookup_2.
Qed.

(** ** How the operations change the map *)

Lemma bound_set_vec t ty i l x k :
  at_index (vec t ty) i = Some x ->
  bound (set_vec t ty (set_at (vec t ty) i l)) k = if decide (k = TrackedKey ty i) then live l else bound t k.
Proof.
  intros Hx. pose proof (vec_tracked _ _ _ _ Hx) as Ht. destruct k as [ty' j|j bp oi]; cbn [bound].
  - destruct (decide (ty' = ty)) as [->|Hn].
    + rewrite vec_set_vec_eq, at_index_set_at by done. destruct (decide (i = j)) as [->|Hij].
      * by rewrite Hx, decide_True.
      * rewrite (decide_False (P := TrackedKey ty j = _)) by congruence.
        by destruct (at_index (vec t ty) j).
    + by rewrite vec_set_vec_ne, decide_False by congruence.
  - by rewrite sessions_set_vec.
Qed.

Lemma bound_set_sessions_tracked t l ty i : bound (set_sessions t l) (TrackedKey ty i) = bound t (TrackedKey ty i).
Proof. cbn [bound]. by rewrite vec_set_sessions. Qed.

Lemma bound_set_session t i es k old :
  at_index (datagraphpipelinesession_lookup t) i = Some old ->
  bound (set_sessions t (set_at (datagraphpipelinesession_lookup t) i es)) k =
    match k with
    | SessionKey j bp oi =>
        if decide (j = i) then match find_entry bp oi es with Some (_, e) => live (loc e) | None => None end else bound t k
    | _ => bound t k
    end.
Proof.
  intros Ho. destruct k as [ty j|j bp oi]; [apply bound_set_sessions_tracked|]. cbn [bound set_sessions datagraphpipelinesession_lookup].
  rewrite at_index_set_at. destruct (decide (j = i)) as [->|Hn].
  - by rewrite Ho, decide_True.
  - destruct (at_index _ j); [|done]. by rewrite decide_False by congruence.
Qed.

(** the lookup that [bind] stores *)
Definition new_lookup (a : heap_ptr) (s : suballocation) : lookup :=
  let m := match s_type s with VK_OBJECT_TYPE_DATA_GRAPH_PIPELINE_SESSION_ARM => false | _ => s_alias_member s end in
  Lookup (Some a) (s_offset s) (s_size s) m m.

Lemma sessions_ok_set t i es : sessions_ok t -> session_ok es ->
  sessions_ok (set_sessions t (set_at (datagraphpipelinesession_lookup t) i es)).
Proof. intros H1 H2. unfold sessions_ok, set_sessions, set_at. simpl. by apply Forall_insert. Qed.

Lemma session_at t i es : sessions_ok t -> at_index (datagraphpipelinesession_lookup t) i = Some es -> session_ok es.
Proof. rewrite at_index_lookup. intros H Hi. unfold sessions_ok in H. by eapply Forall_lookup_1 in H. Qed.

Lemma session_snoc es e :
  session_ok es -> existsb (same_binding (d_bind_point e) (d_object_index e)) es = false ->
  home (loc e) <> None -> l_alias_member (loc e) = false -> session_ok (es ++ [e]).
Proof.
  intros [H1 H2] He Hh Ha. split; [|apply Forall_app; split; [done|by repeat constructor]].
  rewrite map_app. apply NoDup_app. split; [done|]. split; [|simpl; apply NoDup_singleton].
  intros x Hx Hx'. simpl in Hx'. apply list_elem_of_singleton in Hx'. subst x.
  apply list_elem_of_fmap in Hx as (e' & [= E1 E2] & Hin). apply list_elem_of_In in Hin.
  assert (existsb (same_binding (d_bind_point e) (d_object_index e)) es = true); [|congruence].
  apply existsb_exists. exists e'. split; [done|]. by apply same_binding_spec.
Qed.

Lemma bind_tables_tracked t a s :
  tracked (s_type s) = true ->
  bind_tables t a s = match at_index (vec t (s_type s)) (s_index s) with
    | None => Fail AbortCall
    | Some _ => Ok (set_vec t (s_type s) (set_at (vec t (s_type s)) (s_index s) (new_lookup a s)))
    end /\ key_of s = TrackedKey (s_type s) (s_index s).
Proof. unfold bind_tables, key_of, new_lookup. by destruct (s_type s). Qed.

Lemma bind_tables_session t a s :
  s_type s = VK_OBJECT_TYPE_DATA_GRAPH_PIPELINE_SESSION_ARM ->
  bind_tables t a s = match at_index (datagraphpipelinesession_lookup t) (s_index s) with
    | None => Fail AbortCall
    | Some es =>
        let* _ := require (negb (existsb (same_binding (s_bind_point s) (s_object_index s)) es)) AbortCall in
        Ok (set_sessions t (set_at (datagraphpipelinesession_lookup t) (s_index s)
             (es ++ [DatagraphLookup (s_bind_point s) (s_object_index s) (new_lookup a s)])))
    end /\ key_of s = SessionKey (s_index s) (s_bind_point s) (s_object_index s).
Proof. unfold bind_tables, key_of, new_lookup. by intros ->. Qed.

Lemma find_entry_snoc bp oi es e :
  existsb (same_binding (d_bind_point e) (d_object_index e)) es = false ->
  match find_entry bp oi (es ++ [e]) with
  | Some (_, x) => Some x
  | None => None
  end = if same_binding bp oi e then Some e else match find_entry bp oi es with Some (_, x) => Some x | None => None end.
Proof.
  intros He. rewrite find_entry_app. pose proof (find_entry_spec bp oi es) as Hf. simpl.
  destruct (find_entry bp oi es) as [[i x]|]; [|by destruct (same_binding bp oi e)].
  destruct Hf as [Hi Hb]. destruct (same_binding bp oi e) eqn:Eb; [|done].
  apply same_binding_spec in Eb as [E1 E2]. subst.
  assert (existsb (same_binding (d_bind_point e) (d_object_index e)) es = true); [|congruence].
  apply existsb_exists. exists x. split; [|done]. apply list_elem_of_In. by eapply list_elem_of_lookup_2.
Qed.

Lemma bind_tables_bound t a s t' :
  bind_tables t a s = Ok t' -> sessions_ok t ->
  sessions_ok t' /\ s_type s <> VK_OBJECT_TYPE_UNKNOWN /\
  forall k, bound t' k = if decide (k = key_of s) then Some (new_lookup a s) else bound t k.
Proof.
  intros H Hs. destruct (tracked (s_type s)) eqn:Et.
  - destruct (bind_tables_tracked t a s Et) as [E Ek]. rewrite E in H.
    destruct (at_index _ _) as [x|] eqn:Ex; [|done]. injection H as <-.
    split; [unfold sessions_ok; by rewrite sessions_set_vec|]. split; [intros Eu; by rewrite Eu in Et|].
    intros k. by rewrite Ek, (bound_set_vec _ _ _ _ x).
  - destruct (s_type s) eqn:Es; try done; [unfold bind_tables in H; by rewrite Es in H|]. destruct (bind_tables_session t a s Es) as [E Ek]. rewrite E in H.
    destruct (at_index _ _) as [x|] eqn:Ex; [|done]. outcome_inv. apply negb_true_iff in E0.
    assert (Hn : l_alias_member (new_lookup a s) = false) by (unfold new_lookup; by rewrite Es).
    split; [apply sessions_ok_set; [done|]; apply session_snoc; simpl; try done; by eapply session_at|].
    split; [done|]. intros k. rewrite (bound_set_session _ _ _ _ x), Ek by done.
    destruct k as [ty j|j bp oi]; [done|].
    destruct (decide (j = s_index s)) as [->|Hj]; [|by rewrite decide_False by congruence].
    pose proof (find_entry_snoc bp oi x (DatagraphLookup (s_bind_point s) (s_object_index s) (new_lookup a s)) E0) as Hf.
    cbn [bound]. rewrite Ex. destruct (same_binding bp oi _) eqn:Eb.
    + apply same_binding_spec in Eb as [E1 E2]. simpl in E1, E2. subst bp oi. rewrite decide_True by done.
      destruct (find_entry _ _ (x ++ _)) as [[i e]|]; [|done]. by injection Hf as ->.
    + rewrite decide_False by (intros [= -> ->]; unfold same_binding in Eb; simpl in Eb; by rewrite Z.eqb_refl, N.eqb_refl in Eb).
      destruct (find_entry _ _ (x ++ _)) as [[i e]|]; destruct (find_entry _ _ x) as [[i' e']|]; congruence.
Qed.

(** whether [bind_tables] succeeds depends on the tables alone *)
Lemma bind_tables_fault t a s f : bind_tables t a s = Fail f -> s_type s <> VK_OBJECT_TYPE_UNKNOWN -> f = AbortCall.
Proof.
  unfold bind_tables. intros H Hn.
  destruct (s_type s); try done; destruct (at_index _ _) as [es|]; try done; try (by injection H as <-).
  destruct (negb _); simpl in H; [done|by injection H as <-].
Qed.
