(* ===== verification/SuballocatorInv.v ===== *)
(** * The invariant of the suballocator

    Heaps and lookup tables describe the same set of placed objects, every heap
    is laid out without overlap, and the memory allocated from the driver is the
    memory given back plus the memory still held. Every operation of
    [Suballocator] keeps it and never fails an assertion. *)

From Stdlib Require Import ZArith Lia Bool.
From stdpp Require Import base numbers list sets.
From S2P Require Import Prelude Memory Heap Suballocator.

#[local] Open Scope Z_scope.

(** the place [l] of object [k] is one of the objects in [h] that stay *)
Definition sub_of (h : heap) (k : key) (l : lookup) : Prop :=
  h_alias_group h = false /\
  exists s, s ∈ h_subs h /\ key_of s = k /\ s_offset s = l_offset l /\ s_size s = l_size l /\ s_offset s ∉ h_deletes h.

(** the place [l] lies in the reserved memory of an alias group *)
Definition member_of (h : heap) (l : lookup) : Prop :=
  h_alias_group h = true /\ 0 <= l_offset l /\ 0 < l_size l /\ l_offset l + l_size l <= h_total h.

Definition lookup_ok (p : suballocator_private) (k : key) (l : lookup) : Prop :=
  exists a h, home l = Some a /\ heap_at p a = Some h /\
    if l_alias_member l then member_of h l else sub_of h k l.

(** the object [s] of the heap at [a] is queued for deletion or is in the tables *)
Definition sub_ok (t : lookup_tables) (a : heap_ptr) (h : heap) (s : suballocation) : Prop :=
  s_type s <> VK_OBJECT_TYPE_UNKNOWN /\
  (s_offset s ∉ h_deletes h ->
   exists l, bound t (key_of s) = Some l /\ home l = Some a /\ l_offset l = s_offset s /\ l_size l = s_size s /\
     l_alias_member l = false).

Definition reserved (h : heap) : Prop :=
  exists s, h_subs h = [s] /\ s_offset s = 0 /\ s_size s = h_total h /\ h_free h = 0 /\ h_mem h <> 0 /\ h_deletes h = [].

Definition handle_of (h : heap) : list Z := if h_mem h =? 0 then [] else [h_mem h].
Definition held (p : suballocator_private) : list Z := concat (map handle_of (concat (heaps_by_thread p))).

Definition allocated_by (c : device_call) : list Z := match c with AllocateMemory m _ _ => [m] | _ => [] end.
Definition freed_by (c : device_call) : list Z := match c with FreeMemory m => [m] | _ => [] end.
Definition allocated (l : list device_call) : list Z := concat (map allocated_by l).
Definition freed (l : list device_call) : list Z := concat (map freed_by l).

Record inv (p : suballocator_private) : Prop := {
  inv_config : 0 <= min_heap_size (config p) < MAX_ALLOCATION;
  inv_heaps : forall a h, heap_at p a = Some h -> heap_ok h;
  inv_reserved : forall a h, heap_at p a = Some h -> h_alias_group h = true -> reserved h;
  inv_bound : forall k l, bound (tables p) k = Some l -> lookup_ok p k l;
  inv_subs : forall a h s, heap_at p a = Some h -> h_alias_group h = false -> s ∈ h_subs h -> sub_ok (tables p) a h s;
  inv_sessions : sessions_ok (tables p);
  inv_groups : forall g x a, alias_groups (aliases p) !! g = Some x -> group_home x = Some a ->
    exists h, heap_at p a = Some h /\ h_alias_group h = true /\ h_total h = group_size x;
  inv_memory : Permutation (allocated (device_calls p)) (freed (device_calls p) ++ held p ++ virtualswapmemory p)
}.

(** ** Permutations of handles *)

Lemma alter_middle {A} (f : A -> A) l i x :
  l !! i = Some x -> alter f i l = take i l ++ f x :: drop (S i) l.
Proof.
  revert i; induction l as [|y l IH]; intros i Hi; [done|]. destruct i as [|i]; simpl in *.
  - injection Hi as ->. unfold alter. simpl. by rewrite drop_0.
  - f_equal. by apply IH.
Qed.

Lemma allocated_app l1 l2 : allocated (l1 ++ l2) = allocated l1 ++ allocated l2.
Proof. unfold allocated. by rewrite map_app, concat_app. Qed.

Lemma freed_app l1 l2 : freed (l1 ++ l2) = freed l1 ++ freed l2.
Proof. unfold freed. by rewrite map_app, concat_app. Qed.

Lemma held_lookup p a h :
  heap_at p a = Some h ->
  exists before after, held p = before ++ handle_of h ++ after /\
    forall h', held (set_heap p a h') = before ++ handle_of h' ++ after.
Proof.
  unfold heap_at, held, set_heap. cbn [heaps_by_thread set_heaps]. intros Ha.
  destruct (heaps_by_thread p !! a.1) as [hs|] eqn:Et; [|done].
  pose proof (take_drop_middle _ _ _ Et) as Es. pose proof (take_drop_middle _ _ _ Ha) as Eh.
  set (f := fun hs : list heap => concat (map handle_of hs)).
  exists (f (concat (take a.1 (heaps_by_thread p))) ++ f (take a.2 hs)), (f (drop (S a.2) hs) ++ f (concat (drop (S a.1) (heaps_by_thread p)))).
  assert (Hf : forall l1 l2, f (l1 ++ l2) = f l1 ++ f l2) by (intros; unfold f; by rewrite map_app, concat_app).
  split.
  - change (concat (map handle_of (concat (heaps_by_thread p)))) with (f (concat (heaps_by_thread p))).
    rewrite <- Es at 1. rewrite concat_app. cbn [concat]. rewrite !Hf. rewrite <- Eh at 1. rewrite Hf.
    change (f (h :: drop (S a.2) hs)) with (handle_of h ++ f (drop (S a.2) hs)). by rewrite <- !app_assoc.
  - intros h'. set (g := fun hs0 : list heap => <[a.2:=h']> hs0).
    change (concat (map handle_of (concat (alter g a.1 (heaps_by_thread p))))) with (f (concat (alter g a.1 (heaps_by_thread p)))).
    rewrite (alter_middle g _ _ _ Et), concat_app. cbn [concat]. rewrite !Hf. unfold g.
    rewrite insert_take_drop by (by eapply lookup_lt_Some). rewrite Hf.
    change (f (h' :: drop (S a.2) hs)) with (handle_of h' ++ f (drop (S a.2) hs)). by rewrite <- !app_assoc.
Qed.

Lemma held_push p tid hs h :
  heaps_by_thread p !! tid = Some hs -> Permutation (held (push_heap p tid h)) (handle_of h ++ held p).
Proof.
  unfold held, push_heap. cbn [heaps_by_thread set_heaps]. intros Et.
  pose proof (take_drop_middle _ _ _ Et) as Es.
  rewrite (alter_middle _ _ _ _ Et). rewrite <- Es at 3. rewrite !concat_app. cbn [concat]. rewrite !map_app, !concat_app. cbn [map concat].
  rewrite app_nil_r. solve_Permutation.
Qed.

(** ** Changing one heap *)

Lemma sub_of_mono h h' k l :
  sub_of h k l -> h_alias_group h' = false ->
  (forall s, s ∈ h_subs h -> s_offset s ∉ h_deletes h -> s ∈ h_subs h' /\ s_offset s ∉ h_deletes h') -> sub_of h' k l.
Proof.
  intros (_ & s & H1 & H2 & H3 & H4 & H5) Ha Hsub. destruct (Hsub s H1 H5) as [H6 H7].
  split; [done|]. by exists s.
Qed.

Lemma sub_ok_weaken t a h h' s :
  sub_ok t a h s -> (s_offset s ∉ h_deletes h' -> s_offset s ∉ h_deletes h) -> sub_ok t a h' s.
Proof. intros [H1 H2] H. split; [done|]. intros H'. by apply H2, H. Qed.

Lemma inv_set_heap p a h h' calls :
  inv p -> heap_at p a = Some h -> heap_ok h' -> h_alias_group h' = h_alias_group h ->
  (h_alias_group h = true -> reserved h' /\ h_total h' = h_total h) ->
  (h_alias_group h = false -> forall s, s ∈ h_subs h -> s_offset s ∉ h_deletes h ->
     s ∈ h_subs h' /\ s_offset s ∉ h_deletes h') ->
  (h_alias_group h = false -> forall s, s ∈ h_subs h' -> sub_ok (tables p) a h' s) ->
  Permutation (allocated calls ++ handle_of h) (freed calls ++ handle_of h') ->
  inv (add_calls (set_heap p a h') calls).
Proof.
  intros Hi Ha Hok Hal Hres Hsub Hsubs Hperm.
  assert (Hat : forall b, heap_at (set_heap p a h') b = if decide (b = a) then Some h' else heap_at p b)
    by (intros b; by apply (heap_at_set_heap p a h)).
  split; try apply Hi; change (heap_at (add_calls (set_heap p a h') calls)) with (heap_at (set_heap p a h')).
  - intros b hb. rewrite Hat. case_decide; [by intros [= <-]|apply (inv_heaps _ Hi)].
  - intros b hb. rewrite Hat. case_decide; [|apply (inv_reserved _ Hi)]. intros [= <-] Hb. apply Hres. congruence.
  - intros k l Hk. destruct (inv_bound _ Hi k l Hk) as (b & hb & H1 & H2 & H3).
    unfold lookup_ok. change (heap_at (add_calls (set_heap p a h') calls)) with (heap_at (set_heap p a h')).
    destruct (decide (b = a)) as [->|Hn].
    + exists a, h'. split; [done|]. split; [by rewrite Hat, decide_True|]. rewrite Ha in H2. injection H2 as <-.
      destruct (l_alias_member l).
      * destruct H3 as (M1 & M2 & M3 & M4). destruct (Hres M1) as [_ Ht]. unfold member_of. rewrite Hal, Ht. done.
      * eapply sub_of_mono; [exact H3|rewrite Hal; apply H3|apply Hsub, H3].
    + exists b, hb. split; [done|]. by rewrite Hat, decide_False.
  - intros b hb s. rewrite Hat. case_decide as Hb; [|apply (inv_subs _ Hi)].
    subst b. intros [= <-] Hf Hs. apply Hsubs; [congruence|done].
  - intros g x b Hg Hb. destruct (inv_groups _ Hi g x b Hg Hb) as (hb & H1 & H2 & H3). rewrite Hat.
    case_decide as Hd; [|by exists hb]. subst b. rewrite Ha in H1. injection H1 as <-.
    exists h'. split; [done|]. destruct (Hres H2) as [_ Ht]. rewrite Hal, Ht. done.
  - destruct (held_lookup p a h Ha) as (b & c & E1 & E2). pose proof (inv_memory _ Hi) as Hm.
    cbn [add_calls device_calls virtualswapmemory]. change (held (add_calls (set_heap p a h') calls)) with (held (set_heap p a h')).
    rewrite allocated_app, freed_app, E2. cbn [device_calls set_heap set_heaps virtualswapmemory].
    rewrite Hm, E1. rewrite <- !app_assoc.
    transitivity (freed (device_calls p) ++ (allocated calls ++ handle_of h) ++ b ++ c ++ virtualswapmemory p); [solve_Permutation|].
    rewrite Hperm. solve_Permutation.
Qed.

Lemma drain_inv p a h :
  inv p -> heap_at p a = Some h ->
  inv (add_calls (set_heap p a (drain (run (config p)) h).1) (drain (run (config p)) h).2).
Proof.
  intros Hi Ha. pose proof (drain_spec (run (config p)) h (inv_heaps _ Hi a h Ha)) as Hd.
  destruct (decide (h_alias_group h = true)) as [Hal|Hal].
  - pose proof (inv_reserved _ Hi a h Ha Hal) as (s & R1 & R2 & R3 & R4 & R5 & R6).
    assert (Edr : drain (run (config p)) h = (with_deletes h [], [])) by (unfold drain, take_pending_deletes; by rewrite R6).
    rewrite Edr. apply (inv_set_heap p a h); try done.
    + by apply with_deletes_ok, (inv_heaps _ Hi a).
    + intros _. split; [|done]. by exists s.
    + intros Hf. congruence.
    + intros Hf. congruence.
  - apply not_true_is_false in Hal. apply (inv_set_heap p a h); try done; try apply Hd; rewrite ?Hal; try done.
    + intros _ s Hs Hn. rewrite (dr_subs _ _ _ _ Hd), (dr_deletes _ _ _ _ Hd).
      split; [by apply elem_of_kept|apply not_elem_of_nil].
    + intros _ s Hs. rewrite (dr_subs _ _ _ _ Hd) in Hs. apply elem_of_kept in Hs as [Hs Hn].
      eapply sub_ok_weaken; [by apply (inv_subs _ Hi a h)|done].
    + destruct (dr_mem _ _ _ _ Hd) as [(M1 & _ & _ & ->)|(M1 & M2 & _ & _ & ->)]; [unfold handle_of; by rewrite M1|].
      assert (E0 : handle_of (drain (run (config p)) h).1 = []) by (unfold handle_of; by rewrite M2).
      rewrite E0. unfold handle_of. rewrite (proj2 (Z.eqb_neq _ 0)) by done.
      unfold release_calls. by destruct (_ && _).
Qed.

(** ** Adding an object *)

(** the old objects of the heap at [a], if there is one, stay beside [s] *)
Definition extends (old : option heap) (h : heap) (s : suballocation) : Prop :=
  match old with
  | None => forall x, x ∈ h_subs h -> x = s
  | Some h0 => h_alias_group h0 = false /\ h_deletes h = h_deletes h0 /\
      (forall x, x ∈ h_subs h0 -> x ∈ h_subs h) /\ (forall x, x ∈ h_subs h -> x = s \/ x ∈ h_subs h0)
  end.

Lemma inv_add p p' a s h :
  inv p -> bound (tables p) (key_of s) = None ->
  (forall b, heap_at p' b = if decide (b = a) then Some h else heap_at p b) ->
  config p' = config p -> alias_groups (aliases p') = alias_groups (aliases p) -> sessions_ok (tables p') ->
  (forall k, bound (tables p') k = if decide (k = key_of s) then Some (new_lookup a s) else bound (tables p) k) ->
  s_alias_member s = false -> s_type s <> VK_OBJECT_TYPE_UNKNOWN ->
  heap_ok h -> h_alias_group h = false -> s ∈ h_subs h -> s_offset s ∉ h_deletes h -> extends (heap_at p a) h s ->
  Permutation (allocated (device_calls p')) (freed (device_calls p') ++ held p' ++ virtualswapmemory p') ->
  inv p'.
Proof.
  intros Hi Hfresh Hat Hcfg Hgr Hses Hbound Hm Hty Hok Hal Hin Hdel Hext Hperm.
  assert (Hnm : l_alias_member (new_lookup a s) = false) by (unfold new_lookup; simpl; rewrite Hm; by destruct (s_type s)).
  split; [by rewrite Hcfg; apply Hi| | | | |done| |done].
  - intros b hb. rewrite Hat. case_decide; [by intros [= <-]|apply (inv_heaps _ Hi)].
  - intros b hb. rewrite Hat. case_decide; [intros [= <-]; congruence|apply (inv_reserved _ Hi)].
  - intros k l. rewrite Hbound. case_decide as Hk.
    + intros [= <-]. exists a, h. split; [done|]. split; [by rewrite Hat, decide_True|]. rewrite Hnm.
      split; [done|]. by exists s.
    + intros Hb. destruct (inv_bound _ Hi k l Hb) as (b & hb & H1 & H2 & H3). destruct (decide (b = a)) as [->|Hn].
      * exists a, h. split; [done|]. split; [by rewrite Hat, decide_True|]. rewrite H2 in Hext.
        destruct Hext as (X1 & X2 & X3 & X4). destruct (l_alias_member l); [destruct H3; congruence|].
        eapply sub_of_mono; [exact H3|done|]. intros x Hx Hd. rewrite X2. auto.
      * exists b, hb. split; [done|]. by rewrite Hat, decide_False.
  - intros b hb x. rewrite Hat. case_decide as Hb.
    + subst b. intros [= <-] _ Hx. destruct (decide (x = s)) as [->|Hxs].
      * split; [done|]. intros _. exists (new_lookup a s). rewrite Hbound, decide_True by done. done.
      * destruct (heap_at p a) as [h0|] eqn:Ha; [|by specialize (Hext x Hx)]. destruct Hext as (X1 & X2 & X3 & X4).
        destruct (X4 x Hx) as [->|Hx0]; [done|]. destruct (inv_subs _ Hi a h0 x Ha X1 Hx0) as [Y1 Y2].
        split; [done|]. rewrite X2. intros Hd. destruct (Y2 Hd) as (l & Hl & Y3). exists l. split; [|done].
        rewrite Hbound, decide_False by congruence. done.
    + intros Hb' Hf Hx. destruct (inv_subs _ Hi b hb x Hb' Hf Hx) as [Y1 Y2]. split; [done|]. intros Hd.
      destruct (Y2 Hd) as (l & Hl & Y3). exists l. split; [|done]. rewrite Hbound, decide_False by congruence. done.
  - intros g x b. rewrite Hgr. intros Hg Hb. destruct (inv_groups _ Hi g x b Hg Hb) as (hb & H1 & H2 & H3). rewrite Hat.
    case_decide as Hd; [|by exists hb]. subst b. rewrite H1 in Hext. destruct Hext. congruence.
Qed.

(** the key of a new session binding is fresh; the others are by the caller's rule *)
Definition fresh (t : lookup_tables) (s : suballocation) : Prop :=
  s_type s = VK_OBJECT_TYPE_DATA_GRAPH_PIPELINE_SESSION_ARM \/ bound t (key_of s) = None.

Lemma bind_fresh t a s t' : bind_tables t a s = Ok t' -> fresh t s -> bound t (key_of s) = None.
Proof.
  intros H [Hs|Hs]; [|done]. destruct (bind_tables_session t a s Hs) as [E Ek]. rewrite E in H. rewrite Ek. cbn [bound].
  destruct (at_index _ _) as [es|]; [|done]. outcome_inv. apply negb_true_iff in E0.
  pose proof (find_entry_spec (s_bind_point s) (s_object_index s) es) as Hf.
  destruct (find_entry _ _ es) as [[i e]|]; [|done]. destruct Hf as [Hf1 Hf2].
  assert (existsb (same_binding (s_bind_point s) (s_object_index s)) es = true); [|congruence].
  apply existsb_exists. exists e. split; [|done]. apply list_elem_of_In. by eapply list_elem_of_lookup_2.
Qed.

(** ** Binding a member of an alias group *)

Lemma inv_bind_member p a h s t :
  inv p -> heap_at p a = Some h -> h_alias_group h = true -> bound (tables p) (key_of s) = None ->
  tracked (s_type s) = true -> s_alias_member s = true -> 0 <= s_offset s -> 0 < s_size s ->
  s_offset s + s_size s <= h_total h -> bind_tables (tables p) a s = Ok t -> inv (set_tables p t).
Proof.
  intros Hi Ha Hal Hfresh Hty Hm H1 H2 H3 Hb.
  destruct (bind_tables_bound _ _ _ _ Hb (inv_sessions _ Hi)) as (Hs & _ & Hbound).
  assert (Hnm : l_alias_member (new_lookup a s) = true) by (unfold new_lookup; simpl; rewrite Hm; by destruct (s_type s)).
  split; try apply Hi; [| |done].
  - intros k l Hk. simpl in Hk. rewrite Hbound in Hk. unfold lookup_ok.
    change (heap_at (set_tables p t)) with (heap_at p). case_decide; [|by apply (inv_bound _ Hi)].
    injection Hk as <-. exists a, h. split; [done|]. split; [done|]. rewrite Hnm. done.
  - intros b hb x Hhb Hf Hx. destruct (inv_subs _ Hi b hb x Hhb Hf Hx) as [Y1 Y2]. split; [done|].
    intros Hd. destruct (Y2 Hd) as (l & Hl & Y3). exists l. split; [|done]. simpl. rewrite Hbound, decide_False; [done|congruence].
Qed.

(** ** Unbinding *)

Lemma inv_unbind p p' K l a :
  inv p -> bound (tables p) K = Some l -> home l = Some a -> sessions_ok (tables p') ->
  (forall k, bound (tables p') k = if decide (k = K) then None else bound (tables p) k) ->
  heaps_by_thread p' = heaps_by_thread (if l_alias_member l then p else queue_delete_at p a (l_offset l)) ->
  config p' = config p -> aliases p' = aliases p -> device_calls p' = device_calls p ->
  virtualswapmemory p' = virtualswapmemory p -> inv p'.
Proof.
  intros Hi HK Hhome Hses Hbound Hheaps Hcfg Hali Hcalls Hvs.
  destruct (inv_bound _ Hi K l HK) as (a' & h & E1 & Ha & Hl). rewrite Hhome in E1. injection E1 as <-.
  assert (Hat0 : forall b, heap_at p' b = heap_at (if l_alias_member l then p else queue_delete_at p a (l_offset l)) b)
    by (intros b; unfold heap_at; by rewrite Hheaps).
  destruct (l_alias_member l).
  - split; rewrite ?Hcfg, ?Hali; try apply Hi; try done.
    + intros b hb. rewrite Hat0. apply (inv_heaps _ Hi).
    + intros b hb. rewrite Hat0. apply (inv_reserved _ Hi).
    + intros k l'. rewrite Hbound. case_decide; [done|]. intros Hk. destruct (inv_bound _ Hi k l' Hk) as (b & hb & H1 & H2 & H3).
      exists b, hb. by rewrite Hat0.
    + intros b hb s. rewrite Hat0. intros H1 H2 H3. destruct (inv_subs _ Hi b hb s H1 H2 H3) as [Y1 Y2]. split; [done|].
      intros Hd. destruct (Y2 Hd) as (l' & X1 & X2 & X3 & X4 & X5). exists l'. split; [|done]. rewrite Hbound, decide_False; [done|].
      intros Ek. rewrite Ek, HK in X1. injection X1 as <-. rewrite Hhome in X2. injection X2 as <-.
      rewrite Ha in H1. injection H1 as <-. destruct Hl. congruence.
    + intros g x b Hg Hb. rewrite Hat0. by apply (inv_groups _ Hi g).
    + rewrite Hcalls, Hvs. unfold held. rewrite Hheaps. apply (inv_memory _ Hi).
  - unfold queue_delete_at in Hheaps, Hat0. rewrite Ha in Hheaps, Hat0. destruct Hl as (Hal & s & S1 & S2 & S3 & S4 & S5).
    pose proof (inv_heaps _ Hi a h Ha) as Hok. pose proof (ho_layout _ Hok) as Hlay.
    destruct (laid_out_in _ _ _ _ Hlay S1) as (L1 & L2 & L3). pose proof (ho_total _ Hok) as Ht. unfold MAX_ALLOCATION in Ht.
    assert (Hw : wrap32 (l_offset l) = s_offset s) by (rewrite <- S3; apply wrap32_small; u_lia).
    set (h' := queue_delete h (l_offset l)) in *.
    assert (Hat : forall b, heap_at p' b = if decide (b = a) then Some h' else heap_at p b)
      by (intros b; rewrite Hat0; by apply (heap_at_set_heap p a h)).
    assert (Hdel : forall x, x ∈ h_deletes h' <-> x ∈ h_deletes h \/ x = s_offset s).
    { intros x. unfold h', queue_delete. cbn [h_deletes with_deletes]. rewrite elem_of_app, list_elem_of_singleton, Hw. done. }
    split; rewrite ?Hcfg, ?Hali; try apply Hi; try done.
    + intros b hb. rewrite Hat. case_decide; [intros [= <-]; by apply with_deletes_ok|apply (inv_heaps _ Hi)].
    + intros b hb. rewrite Hat. case_decide; [intros [= <-] Hx; simpl in Hx; congruence|apply (inv_reserved _ Hi)].
    + intros k l'. rewrite Hbound. case_decide as Hk; [done|]. intros Hk'.
      destruct (inv_bound _ Hi k l' Hk') as (b & hb & H1 & H2 & H3). destruct (decide (b = a)) as [->|Hn].
      * exists a, h'. split; [done|]. split; [by rewrite Hat, decide_True|]. rewrite Ha in H2. injection H2 as <-.
        destruct (l_alias_member l'); [destruct H3; congruence|]. destruct H3 as (_ & s' & T1 & T2 & T3 & T4 & T5).
        split; [done|]. exists s'. do 4 (split; [done|]). rewrite Hdel. intros [Hx|Hx]; [done|].
        apply Hk. rewrite <- T2, <- S2. f_equal. by eapply laid_out_offset_inj.
      * exists b, hb. split; [done|]. by rewrite Hat, decide_False.
    + intros b hb s'. rewrite Hat. case_decide as Hb.
      * subst b. intros [= <-] _ Hs'. destruct (inv_subs _ Hi a h s' Ha Hal Hs') as [Y1 Y2]. split; [done|].
        rewrite Hdel. intros Hd. destruct Y2 as (l' & X1 & X2 & X3 & X4 & X5); [tauto|]. exists l'. split; [|done].
        rewrite Hbound, decide_False; [done|]. intros Ek. rewrite Ek, HK in X1. injection X1 as <-. apply Hd. right. congruence.
      * intros H1 H2 H3. destruct (inv_subs _ Hi b hb s' H1 H2 H3) as [Y1 Y2]. split; [done|]. intros Hd.
        destruct (Y2 Hd) as (l' & X1 & X2 & X3 & X4 & X5). exists l'. split; [|done]. rewrite Hbound, decide_False; [done|].
        intros Ek. rewrite Ek, HK in X1. injection X1 as <-. congruence.
    + intros g x b Hg Hb. destruct (inv_groups _ Hi g x b Hg Hb) as (hb & H1 & H2 & H3). rewrite Hat.
      case_decide as Hd; [|by exists hb]. subst b. rewrite Ha in H1. injection H1 as <-. congruence.
    + rewrite Hcalls, Hvs. unfold held. rewrite Hheaps. destruct (held_lookup p a h Ha) as (x & y & E1 & E2).
      change (concat (map handle_of (concat (heaps_by_thread (set_heap p a h'))))) with (held (set_heap p a h')).
      rewrite E2. change (handle_of h') with (handle_of h). rewrite <- E1. apply (inv_memory _ Hi).
Qed.

(** ** Allocating and suballocating *)

Lemma bind_spec p a h s :
  heap_at p a = Some h -> h_mem h <> 0 -> s_alignment s <> 0 -> s_offset s + s_size s <= h_total h ->
  s_type s <> VK_OBJECT_TYPE_UNKNOWN ->
  match bind p a s with
  | Ok p' => exists t, bind_tables (tables p) a s = Ok t /\ p' = set_tables p t
  | Fail f => f = AbortCall
  end.
Proof.
  intros Ha Hm Hal Hle Hty. unfold bind. rewrite Ha, (proj2 (Z.eqb_neq _ 0)) by done. cbn [negb obind require].
  rewrite (proj2 (Z.eqb_neq _ 0)) by done. cbn [negb obind require].
  destruct (bind_tables (tables p) a s) as [t|f] eqn:E; cbn [obind]; [|by eapply bind_tables_fault].
  rewrite (proj2 (Z.leb_le _ _)) by done. by exists t.
Qed.

(** the returned location is the place the tables hold for [k] *)
Definition located (p : suballocator_private) (k : key) (l : suballoc_location) : Prop :=
  exists x a h, bound (tables p) k = Some x /\ home x = Some a /\ heap_at p a = Some h /\
    loc_memory l = h_mem h /\ loc_offset l = l_offset x /\ loc_size l = l_size x /\ loc_mapped l = mapped_at h (l_offset x).

(** heaps stay where they are and keep their memory until it is given back *)
Definition framed (p p' : suballocator_private) : Prop :=
  forall a h, heap_at p a = Some h -> exists h', heap_at p' a = Some h' /\ (h_mem h' = h_mem h \/ h_mem h' = 0).

Lemma framed_refl p p' : heaps_by_thread p' = heaps_by_thread p -> framed p p'.
Proof. intros E a h Ha. exists h. unfold heap_at in *. rewrite E. auto. Qed.

Lemma framed_trans p q r : framed p q -> framed q r -> framed p r.
Proof.
  intros H1 H2 a h Ha. destruct (H1 a h Ha) as (h1 & A1 & M1). destruct (H2 a h1 A1) as (h2 & A2 & M2).
  exists h2. split; [done|]. destruct M2 as [-> | ->]; auto.
Qed.

(** one heap changed or added *)
Lemma framed_one p p' a h :
  (forall b, heap_at p' b = if decide (b = a) then Some h else heap_at p b) ->
  (forall h0, heap_at p a = Some h0 -> h_mem h = h_mem h0 \/ h_mem h = 0) -> framed p p'.
Proof.
  intros Hat Hm b hb Hb. rewrite Hat. case_decide as Hd; [|by exists hb; auto]. subst b. exists h. auto.
Qed.

(** what a successful addition of [s] leaves *)
Record added (p p' : suballocator_private) (s : suballocation) (l : suballoc_location) : Prop := {
  ad_inv : inv p';
  ad_config : config p' = config p;
  ad_located : located p' (key_of s) l;
  ad_aligned : (s_alignment s | loc_offset l);
  ad_size : loc_size l = s_size s;
  ad_frame : framed p p';
  ad_fresh : bound (tables p) (key_of s) = None;
  ad_others : forall k, k <> key_of s -> bound (tables p') k = bound (tables p) k
}.

(** an object that may be added without aliasing *)
Definition addable (p : suballocator_private) (s : suballocation) : Prop :=
  request_ok s /\ s_offset s = 0 /\ s_alias_member s = false /\ s_type s <> VK_OBJECT_TYPE_UNKNOWN /\ fresh (tables p) s.

Lemma request_alignment s : request_ok s -> s_alignment s <> 0.
Proof. intros (_ & H & _). apply is_pow2_pos in H. lia. Qed.

Section WithDevice.
Context {D : Device} {laws : DeviceLaws D}.

Lemma device_memory_spec p size type :
  match device_memory p size type with
  | Ok (mem, mapped, calls) => mem <> 0 /\ allocated calls = [mem] /\ freed calls = []
  | Fail f => f = AbortCall
  end.
Proof.
  unfold device_memory. destruct (run (config p)).
  - destruct (vkAllocateMemory _ _ _) as [mem|] eqn:E; [|done]. apply allocate_nonnull in E.
    destruct (negb _); [|done]. by destruct (vkMapMemory _ _).
  - split; [apply malloc_nonnull|done].
Qed.

(** the state of [allocate] before it binds *)
Definition grown (p : suballocator_private) (calls : list device_call) (size : Z) (tid : nat) (h : heap) : suballocator_private :=
  push_heap (count_allocated (add_calls p calls) size) tid h.

Lemma grown_memory p calls size tid hs h :
  heaps_by_thread p !! tid = Some hs -> inv p -> allocated calls = handle_of h -> freed calls = [] ->
  let p' := grown p calls size tid h in
  Permutation (allocated (device_calls p')) (freed (device_calls p') ++ held p' ++ virtualswapmemory p').
Proof.
  intros Et Hi Hc Hf. cbv zeta. unfold grown. cbn [device_calls virtualswapmemory push_heap set_heaps count_allocated set_metrics add_calls].
  rewrite allocated_app, freed_app, Hc, Hf, app_nil_r.
  rewrite (held_push (count_allocated (add_calls p calls) size) tid hs h) by done.
  change (held (count_allocated (add_calls p calls) size)) with (held p). rewrite (inv_memory _ Hi). solve_Permutation.
Qed.

Lemma handle_nonnull h : h_mem h <> 0 -> handle_of h = [h_mem h].
Proof. intros H. unfold handle_of. by rewrite (proj2 (Z.eqb_neq _ 0)). Qed.

Lemma heap_at_length p tid hs : heaps_by_thread p !! tid = Some hs -> heap_at p (tid, length hs) = None.
Proof. intros H. unfold heap_at. simpl. rewrite H. apply lookup_ge_None. lia. Qed.

Lemma allocate_spec p tid type s flags tiling dedicated allocflags :
  inv p -> addable p s ->
  match allocate p tid type s flags tiling dedicated allocflags false with
  | Ok (l, p') => added p p' s l
  | Fail f => f = AbortCall
  end.
Proof.
  intros Hi (Hreq & Hoff & Hm & Hty & Hfresh). pose proof Hreq as ((Hs1 & Hs2) & Hpow & _). pose proof (inv_config _ Hi) as Hcfg.
  unfold allocate. rewrite bool_decide_eq_false_2 by done. rewrite andb_false_r, orb_false_r. cbn [negb obind require].
  set (size := if dedicated then s_size s else Z.max (min_heap_size (config p)) (s_size s)).
  assert (Hsize : s_size s <= size < MAX_ALLOCATION) by (subst size; destruct dedicated; lia).
  rewrite (proj2 (Z.ltb_lt _ _)) by lia. cbn [obind require].
  pose proof (device_memory_spec p size type) as Hdev.
  destruct (device_memory p size type) as [[[mem mapped] calls]|f]; cbn [obind]; [|done]. destruct Hdev as (M1 & M2 & M3).
  unfold thread_heaps. cbn [heaps_by_thread count_allocated set_metrics add_calls].
  destruct (heaps_by_thread p !! tid) as [hs|] eqn:Et; cbn [obind]; [|done].
  set (h := Heap tid type mem (size - s_size s) size flags allocflags dedicated false [s] [] tiling mapped).
  change (push_heap (count_allocated (add_calls p calls) size) tid h) with (grown p calls size tid h).
  set (p1 := grown p calls size tid h). set (a := (tid, length hs)).
  assert (Hat : forall b, heap_at p1 b = if decide (b = a) then Some h else heap_at p b)
    by (intros b; by apply (heap_at_push_heap (count_allocated (add_calls p calls) size))).
  assert (Ha : heap_at p1 a = Some h) by (by rewrite Hat, decide_True).
  pose proof (bind_spec p1 a h (at_offset s 0) Ha M1 (request_alignment _ Hreq) ltac:(simpl; lia) Hty) as Hb.
  destruct (bind p1 a (at_offset s 0)) as [p2|f]; cbn [obind]; [|done]. destruct Hb as (t & Hb & ->).
  assert (Hat0 : at_offset s 0 = s) by (destruct s; simpl in *; by rewrite Hoff).
  rewrite Hat0 in Hb. change (tables p1) with (tables p) in Hb.
  destruct (bind_tables_bound _ _ _ _ Hb (inv_sessions _ Hi)) as (Hses & _ & Hbound).
  assert (Hok : heap_ok h).
  { split; simpl; [lia|lia| |lia|done]. repeat constructor; [done|]. rewrite Hoff. apply Z.divide_0_r. }
  assert (Hinv : inv (set_tables p1 t)).
  { apply (inv_add p (set_tables p1 t) a s h); try done; try (by eapply bind_fresh).
    - by left.
    - apply not_elem_of_nil.
    - unfold a. rewrite heap_at_length by done. intros x. apply list_elem_of_singleton.
    - apply (grown_memory p calls size tid hs h Et Hi); [by rewrite M2, handle_nonnull|done]. }
  split; try done.
  - exists (new_lookup a s), a, h. rewrite Hbound, decide_True by done. split; [done|]. split; [done|]. split; [done|].
    simpl. split; [done|]. split; [by rewrite Hoff|]. split; [done|]. rewrite Hoff. unfold mapped_at. simpl.
    destruct (Z.eqb_spec mapped 0); lia.
  - apply Z.divide_0_r.
  - apply (framed_one p _ a h); [done|]. intros h0. unfold a. by rewrite heap_at_length.
  - by eapply bind_fresh.
  - intros k Hk. simpl. by rewrite Hbound, decide_False.
Qed.

Lemma suitable_spec mixed h tid type s flags tiling allocflags :
  suitable mixed h tid type s flags tiling allocflags = true ->
  h_mem h <> 0 /\ h_alias_group h = false /\ h_dedicated h = false /\ h_tid h = tid /\ s_size s <= h_free h.
Proof.
  unfold suitable. intros H. repeat match goal with H : _ && _ = true |- _ => apply andb_true_iff in H as [? ?] end.
  bool_to_prop. repeat split; try done; try lia. by apply Nat.eqb_eq.
Qed.

Lemma at_offset_same s p : s_type (at_offset s p) = s_type s /\ key_of (at_offset s p) = key_of s.
Proof. done. Qed.

Lemma place_spec p tid i h s offset subs :
  inv p -> heap_at p (tid, i) = Some h -> addable p s -> h_deletes h = [] -> h_mem h <> 0 -> h_alias_group h = false ->
  s_size s <= h_free h -> find_place h s = Some (offset, subs) ->
  match (let* p := bind p (tid, i) (at_offset s offset) in
         Ok (location_of p h offset (s_size s) true, set_heap p (tid, i) (place h s subs))) with
  | Ok (l, p') => added p p' s l
  | Fail f => f = AbortCall
  end.
Proof.
  intros Hi Ha (Hreq & Hoff & Hm & Hty & Hfresh) Hdel Hmem Hal Hfree Hplace.
  pose proof (inv_heaps _ Hi _ _ Ha) as Hok. pose proof (find_place_spec h s Hok Hreq Hfree) as Hfp.
  rewrite Hplace in Hfp. destruct Hfp as (Hins & Hlay & Hdiv & Hpos).
  assert (Hin : at_offset s offset ∈ subs) by (apply (elem_of_inserted _ _ _ _ _ Hins); by right).
  destruct (laid_out_in _ _ _ _ Hlay Hin) as (L1 & L2 & L3). simpl in L1, L2, L3.
  pose proof (bind_spec p (tid, i) h (at_offset s offset) Ha Hmem (request_alignment _ Hreq) ltac:(simpl; lia) Hty) as Hb.
  destruct (bind p (tid, i) (at_offset s offset)) as [p1|f]; cbn [obind]; [|done]. destruct Hb as (t & Hb & ->).
  destruct (bind_tables_bound _ _ _ _ Hb (inv_sessions _ Hi)) as (Hses & _ & Hbound).
  set (p2 := set_heap (set_tables p t) (tid, i) (place h s subs)).
  assert (Hat : forall b, heap_at p2 b = if decide (b = (tid, i)) then Some (place h s subs) else heap_at p b)
    by (intros b; by apply (heap_at_set_heap (set_tables p t) (tid, i) h)).
  assert (Hinv : inv p2).
  { apply (inv_add p p2 (tid, i) (at_offset s offset) (place h s subs)); try done.
    - by eapply bind_fresh.
    - by apply place_ok with (p := offset).
    - simpl. rewrite Hdel. apply not_elem_of_nil.
    - rewrite Ha. split; [done|]. split; [done|]. split; intros x Hx.
      + apply (elem_of_inserted _ _ _ _ _ Hins). by left.
      + apply (elem_of_inserted _ _ _ _ _ Hins) in Hx. tauto.
    - destruct (held_lookup p (tid, i) h Ha) as (x & y & E1 & E2).
      change (held p2) with (held (set_heap p (tid, i) (place h s subs))). rewrite E2.
      change (handle_of (place h s subs)) with (handle_of h). rewrite <- E1. apply (inv_memory _ Hi). }
  split; try done.
  - exists (new_lookup (tid, i) (at_offset s offset)), (tid, i), (place h s subs).
    split; [change (tables p2) with t; by rewrite Hbound, decide_True|]. split; [done|]. split; [by rewrite Hat, decide_True|]. done.
  - apply (framed_one p _ (tid, i) (place h s subs)); [done|]. intros h0. rewrite Ha. intros [= <-]. left. reflexivity.
  - exact (bind_fresh _ _ _ _ Hb Hfresh).
  - intros k Hk. change (tables p2) with t. by rewrite Hbound, decide_False.
Qed.

Lemma suballocate_loop_spec n : forall p i tid type s flags tiling allocflags hs,
  inv p -> addable p s -> heaps_by_thread p !! tid = Some hs -> length hs = (i + n)%nat ->
  match suballocate_loop n p i tid type s flags tiling allocflags with
  | Ok (l, p') => added p p' s l
  | Fail f => f = AbortCall
  end.
Proof.
  induction n as [|n IH]; intros p i tid type s flags tiling allocflags hs Hi Hs Ht Hlen; cbn [suballocate_loop].
  { by apply allocate_spec. }
  destruct (heap_at p (tid, i)) as [h|] eqn:Ha.
  2:{ unfold heap_at in Ha. simpl in Ha. rewrite Ht in Ha. apply lookup_ge_None in Ha. lia. }
  pose proof (drain_inv p (tid, i) h Hi Ha) as Hd. pose proof (drain_spec (run (config p)) h (inv_heaps _ Hi _ _ Ha)) as Hds.
  destruct (drain (run (config p)) h) as [h' calls]. simpl in Hd, Hds.
  set (p1 := add_calls (set_heap p (tid, i) h') calls) in *.
  assert (Ha1 : heap_at p1 (tid, i) = Some h').
  { change (heap_at p1) with (heap_at (set_heap p (tid, i) h')). rewrite (heap_at_set_heap p _ h) by done. by rewrite decide_True. }
  assert (Hs1 : addable p1 s) by exact Hs.
  assert (Hfr : framed p p1).
  { apply (framed_one p _ (tid, i) h'); [intros b; by apply (heap_at_set_heap p _ h)|]. intros h0. rewrite Ha. intros [= <-].
    destruct (dr_mem _ _ _ _ Hds) as [(-> & _)|(_ & -> & _)]; auto. }
  assert (Hback : forall l p', added p1 p' s l -> added p p' s l)
    by (intros l p' []; split; try done; by eapply framed_trans).
  assert (Hnext : match suballocate_loop n p1 (S i) tid type s flags tiling allocflags with
                  | Ok (l, p') => added p p' s l | Fail f => f = AbortCall end).
  { specialize (IH p1 (S i) tid type s flags tiling allocflags (<[i := h']> hs) Hd Hs1).
    destruct (suballocate_loop n p1 _ _ _ _ _ _ _) as [[l p']|f]; [apply Hback|]; apply IH;
      try (rewrite length_insert; lia); unfold p1, set_heap; simpl; by rewrite list_lookup_alter_eq, Ht. }
  destruct (suitable _ _ _ _ _ _ _ _) eqn:Esu; [|done]. apply suitable_spec in Esu as (S1 & S2 & _ & _ & S5).
  destruct (find_place h' s) as [[offset subs]|] eqn:Ef; [|done].
  pose proof (place_spec p1 tid i h' s offset subs Hd Ha1 Hs1 (dr_deletes _ _ _ _ Hds) S1 S2 S5 Ef) as Hp.
  destruct (bind p1 (tid, i) (at_offset s offset)) as [p2|f]; cbn [obind] in Hp |- *; [by apply Hback|done].
Qed.

Lemma count_used_inv p size : inv p -> inv (count_used p size).
Proof. intros []. by split. Qed.

Lemma suballocate_spec p tid type s flags tiling allocflags :
  inv p -> addable p s ->
  match suballocate p tid type s flags tiling allocflags with
  | Ok (l, p') => added p p' s l
  | Fail f => f = AbortCall
  end.
Proof.
  intros Hi Hs. unfold suballocate. rewrite (proj2 (Z.eqb_neq _ 0)) by (by apply request_alignment, Hs).
  cbn [negb obind require]. unfold thread_heaps. cbn [heaps_by_thread count_used set_metrics].
  destruct (heaps_by_thread p !! tid) as [hs|] eqn:Et; cbn [obind]; [|done].
  pose proof (suballocate_loop_spec (length hs) (count_used p (s_size s)) 0 tid type s flags tiling allocflags hs
    (count_used_inv _ _ Hi) Hs Et eq_refl) as H.
  destruct (suballocate_loop _ _ _ _ _ _ _ _ _) as [[l p']|f]; [|done]. destruct H. by split.
Qed.

(** ** Alias groups *)

Definition group_ok (x : alias_group) : Prop := 0 < group_size x < MAX_ALLOCATION /\ is_pow2 (group_alignment x).

(** a new reserved heap that becomes the home of group [g] *)
Lemma inv_reserve p p' g x a h :
  inv p -> alias_groups (aliases p) !! g = Some x -> heap_at p a = None ->
  (forall b, heap_at p' b = if decide (b = a) then Some h else heap_at p b) ->
  config p' = config p -> tables p' = tables p -> alias_groups (aliases p') = <[g := settle x a]> (alias_groups (aliases p)) ->
  heap_ok h -> h_alias_group h = true -> reserved h -> h_total h = group_size x ->
  Permutation (allocated (device_calls p')) (freed (device_calls p') ++ held p' ++ virtualswapmemory p') ->
  inv p'.
Proof.
  intros Hi Hg Hnew Hat Hcfg Htab Hgr Hok Hal Hres Htot Hperm.
  assert (Hold : forall b hb, heap_at p b = Some hb -> heap_at p' b = Some hb)
    by (intros b hb Hb; rewrite Hat, decide_False; [done|congruence]).
  split; rewrite ?Hcfg, ?Htab; try apply Hi; try done.
  - intros b hb. rewrite Hat. case_decide; [by intros [= <-]|apply (inv_heaps _ Hi)].
  - intros b hb. rewrite Hat. case_decide; [by intros [= <-]|apply (inv_reserved _ Hi)].
  - intros k l Hk. destruct (inv_bound _ Hi k l Hk) as (b & hb & H1 & H2 & H3). exists b, hb. auto.
  - intros b hb s. rewrite Hat. case_decide; [intros [= <-]; congruence|apply (inv_subs _ Hi)].
  - intros g' x' b. rewrite Hgr. destruct (decide (g' = g)) as [->|Hn].
    + rewrite list_lookup_insert_eq by (by eapply lookup_lt_Some). intros [= <-] [= <-].
      exists h. by rewrite Hat, decide_True.
    + rewrite list_lookup_insert_ne by done. intros H1 H2. destruct (inv_groups _ Hi g' x' b H1 H2) as (hb & H3 & H4).
      exists hb. auto.
Qed.

Lemma group_memory_spec p tid g x :
  inv p -> alias_groups (aliases p) !! g = Some x -> group_ok x ->
  match group_memory p tid g x with
  | Ok (a, p') => inv p' /\ tables p' = tables p /\ config p' = config p /\ framed p p' /\
      exists h, heap_at p' a = Some h /\ h_alias_group h = true /\ h_total h = group_size x
  | Fail f => f = AbortCall
  end.
Proof.
  intros Hi Hg ((Hx1 & Hx2) & Hpow). unfold group_memory. destruct (group_home x) as [a|] eqn:Eh.
  { do 3 (split; [done|]). split; [by apply framed_refl|]. by apply (inv_groups _ Hi g x a). }
  destruct (get_device_memory_type _ _ _) as [type|f] eqn:Ety; cbn [obind].
  2:{ unfold get_device_memory_type in Ety. destruct (find_memory_type _ _ _ _); [done|].
      destruct (find_memory_type _ _ _ _); [done|by injection Ety]. }
  unfold allocate. set (s := Suballocation _ _ _ _ _ _ _ _ _). set (p0 := count_used p (group_size x)).
  cbn [andb orb negb obind require]. rewrite (proj2 (Z.ltb_lt _ _)) by done. cbn [obind require].
  pose proof (device_memory_spec p0 (s_size s) type) as Hdev.
  destruct (device_memory p0 (s_size s) type) as [[[mem mapped] calls]|f]; cbn [obind]; [|done]. destruct Hdev as (M1 & M2 & M3).
  set (h := Heap _ _ _ _ _ _ _ _ _ _ _ _ _).
  change (push_heap (count_allocated (add_calls p0 calls) (s_size s)) tid h) with (grown p0 calls (s_size s) tid h).
  set (p1 := grown p0 calls (s_size s) tid h).
  unfold thread_heaps. cbn [heaps_by_thread count_allocated set_metrics add_calls].
  change (heaps_by_thread p0) with (heaps_by_thread p).
  destruct (heaps_by_thread p !! tid) as [hs|] eqn:Et; cbn [obind]; [|done].
  assert (Eh1 : heaps_by_thread p1 !! tid = Some (hs ++ [h])).
  { unfold p1, grown, push_heap. cbn [heaps_by_thread set_heaps]. rewrite list_lookup_alter_eq.
    cbn [count_allocated set_metrics heaps_by_thread add_calls]. change (heaps_by_thread p0) with (heaps_by_thread p). by rewrite Et. }
  rewrite Eh1. cbn [obind]. rewrite length_app. cbn [length]. rewrite Nat.add_sub. set (a := (tid, length hs)).
  assert (Hat : forall b, heap_at (set_group p1 g (settle x a)) b = if decide (b = a) then Some h else heap_at p b).
  { intros b. change (heap_at (set_group p1 g (settle x a)) b) with (heap_at p1 b).
    exact (heap_at_push_heap (count_allocated (add_calls p0 calls) (s_size s)) tid hs h b Et). }
  rewrite Hat, decide_True by done. cbn [obind require h_alias_group h].
  split; [|do 2 (split; [done|]); split; [|exists h; by rewrite Hat, decide_True]].
  2:{ apply (framed_one p _ a h); [done|]. intros h0. unfold a. by rewrite heap_at_length. }
  apply (inv_reserve p (set_group p1 g (settle x a)) g x a h); try done.
  - by apply heap_at_length.
  - split; simpl; [lia|lia| |done|done]. repeat constructor; [done|]. apply Z.divide_0_r.
  - exists s. simpl. repeat split; try done. lia.
  - exact (grown_memory p0 calls (s_size s) tid hs h Et (count_used_inv _ _ Hi)
      ltac:(by rewrite M2, handle_nonnull) M3).
Qed.

(** ** The operations of the interface *)

Lemma get_device_memory_type_fault p filter props f : get_device_memory_type p filter props = Fail f -> f = AbortCall.
Proof.
  unfold get_device_memory_type. destruct (find_memory_type _ _ _ _); [done|].
  destruct (find_memory_type _ _ _ _); [done|by intros [= <-]].
Qed.

Definition unbound_key (t : lookup_tables) (k : key) : bool :=
  match bound t k with None => true | Some _ => false end.

Definition request_okb (size alignment : Z) : bool :=
  (0 <? size) && (size <? MAX_ALLOCATION) && is_pow2b alignment && (alignment <=? 2 ^ 63).

(** the object fits the place its alias group keeps for it *)
Definition member_okb (p : suballocator_private) (data : trackedobject) : bool :=
  match get_alias_lookup (aliases p) (object_type data) (obj_index data) with
  | Ok (Some (AliasLookup (Some g) offset)) =>
      match alias_groups (aliases p) !! g with
      | Some x => (0 <=? offset) && (offset + req_size (reqs data) <=? group_size x) &&
          (group_size x <? MAX_ALLOCATION) && is_pow2b (group_alignment x)
      | None => false
      end
  | _ => true
  end.

(** what the caller owes when it adds an object: requirements as Vulkan gives
    them, an object that is not bound yet, groups as they were prepared *)
Definition legal_add (p : suballocator_private) (data : trackedobject) : bool :=
  tracked (object_type data) && request_okb (req_size (reqs data)) (req_alignment (reqs data)) &&
  unbound_key (tables p) (TrackedKey (object_type data) (obj_index data)) && member_okb p data.

Lemma request_okb_spec s : request_okb (s_size s) (s_alignment s) = true -> request_ok s.
Proof. unfold request_okb, request_ok. intros H. bool_to_prop. repeat split; try done. by apply is_pow2b_spec. Qed.

Lemma tracked_known ty : tracked ty = true -> ty <> VK_OBJECT_TYPE_UNKNOWN.
Proof. by destruct ty. Qed.

Lemma tracked_key native data offset member :
  tracked (object_type data) = true ->
  key_of (object_suballocation native data offset member) = TrackedKey (object_type data) (obj_index data).
Proof. unfold key_of. simpl. by destruct (object_type data). Qed.

Lemma legal_add_parts p data :
  legal_add p data = true ->
  tracked (object_type data) = true /\ request_okb (req_size (reqs data)) (req_alignment (reqs data)) = true /\
  bound (tables p) (TrackedKey (object_type data) (obj_index data)) = None /\ member_okb p data = true.
Proof.
  unfold legal_add, unbound_key. intros H. repeat match goal with H : _ && _ = true |- _ => apply andb_true_iff in H as [? ?] end.
  by destruct (bound _ _).
Qed.

(** the suballocation of an object that is not in an alias group *)
Lemma legal_addable p data native :
  legal_add p data = true -> addable p (object_suballocation native data 0 false).
Proof.
  intros (H1 & H2 & H3 & _)%legal_add_parts.
  split; [by apply request_okb_spec|]. split; [done|]. split; [done|]. split; [by apply tracked_known|]. right.
  by rewrite tracked_key.
Qed.

Lemma get_alias_lookup_fault a ty i f : get_alias_lookup a ty i = Fail f -> f = AbortCall.
Proof.
  unfold get_alias_lookup. destruct ty; try done; destruct (at_index _ _); try done; by intros [= <-].
Qed.

Lemma plain_add_spec p tid native data :
  inv p -> legal_add p data = true ->
  match (let flags := prune_memory_flags (obj_memory_flags data) in
         let* type := get_device_memory_type p (req_memoryTypeBits (reqs data)) flags in
         let s := object_suballocation native data 0 false in
         if dedicated_allocation data
         then allocate p tid type s flags (tiling data) true (allocate_flags (reqs data)) false
         else suballocate p tid type s flags (tiling data) (allocate_flags (reqs data))) with
  | Ok (l, p') => added p p' (object_suballocation native data 0 false) l
  | Fail f => f = AbortCall
  end.
Proof.
  intros Hi Hl. pose proof (legal_addable p data native Hl) as Hadd. cbv zeta.
  destruct (get_device_memory_type _ _ _) as [type|f] eqn:Ety; cbn [obind]; [|by eapply get_device_memory_type_fault].
  destruct (dedicated_allocation data); [by apply allocate_spec|by apply suballocate_spec].
Qed.

Lemma add_trackedobject_spec p tid native data :
  inv p -> legal_add p data = true ->
  match add_trackedobject p tid native data with
  | Ok (l, p') => inv p' /\ config p' = config p /\ loc_size l = req_size (reqs data) /\
      located p' (TrackedKey (object_type data) (obj_index data)) l /\ framed p p' /\
      (forall k, k <> TrackedKey (object_type data) (obj_index data) -> bound (tables p') k = bound (tables p) k)
  | Fail f => f = AbortCall
  end.
Proof.
  intros Hi Hl. pose proof (plain_add_spec p tid native data Hi Hl) as Hplain. pose proof Hl as Hl0.
  apply legal_add_parts in Hl as (H & H1 & H2 & H0).
  pose proof (request_okb_spec (object_suballocation native data 0 false) H1) as Hreq. pose proof (request_alignment _ Hreq) as Hal.
  assert (Hdone : match (let flags := prune_memory_flags (obj_memory_flags data) in
      let* type := get_device_memory_type p (req_memoryTypeBits (reqs data)) flags in
      let s := object_suballocation native data 0 false in
      if dedicated_allocation data
      then allocate p tid type s flags (tiling data) true (allocate_flags (reqs data)) false
      else suballocate p tid type s flags (tiling data) (allocate_flags (reqs data))) with
    | Ok (l, p') => inv p' /\ config p' = config p /\ loc_size l = req_size (reqs data) /\
      located p' (TrackedKey (object_type data) (obj_index data)) l /\ framed p p' /\
      (forall k, k <> TrackedKey (object_type data) (obj_index data) -> bound (tables p') k = bound (tables p) k)
    | Fail f => f = AbortCall end).
  { cbv zeta in *. destruct (let* _ := _ in _) as [[l p']|f]; [|done]. rewrite <- (tracked_key native data 0 false) by done.
    destruct Hplain; by repeat (split; [done|]). }
  unfold add_trackedobject. simpl in Hal. rewrite (proj2 (Z.eqb_neq _ 0)) by done. cbn [negb obind require].
  unfold member_okb in H0. destruct (get_alias_lookup _ _ _) as [[[[g|] offset]|]|f] eqn:Eal; cbn [obind]; try exact Hdone;
    [|by eapply get_alias_lookup_fault].
  destruct (alias_groups (aliases p) !! g) as [x|] eqn:Eg; [|done]. bool_to_prop.
  assert (Hgok : group_ok x) by (split; [destruct Hreq as ((? & ?) & ?); simpl in *; lia|by apply is_pow2b_spec]).
  pose proof (group_memory_spec p tid g x Hi Eg Hgok) as Hgm.
  destruct (group_memory p tid g x) as [[a p1]|f]; cbn [obind]; [|done]. destruct Hgm as (Hi1 & Ht1 & Hc1 & Hfr1 & h & Ha & Halg & Htot).
  destruct (inv_reserved _ Hi1 a h Ha Halg) as (_ & _ & _ & _ & _ & Hmem & _).
  set (s := object_suballocation native data offset true).
  pose proof (bind_spec p1 a h s Ha Hmem Hal ltac:(simpl; lia) (tracked_known _ H)) as Hb.
  destruct (bind p1 a s) as [p2|f] eqn:Eb; cbn [obind]; [|done]. destruct Hb as (t & Hb & ->).
  pose proof (tracked_key native data offset true H) as Hk. fold s in Hk.
  assert (Hfr : bound (tables p1) (key_of s) = None).
  { by rewrite Hk, Ht1. }
  destruct (bind_tables_bound _ _ _ _ Hb (inv_sessions _ Hi1)) as (_ & _ & Hbound).
  change (heap_at (set_tables p1 t)) with (heap_at p1). rewrite Ha.
  destruct Hreq as ((Hs1 & Hs2) & _). simpl in Hs1.
  split; [by eapply (inv_bind_member p1 a h s t); try done; simpl; lia|]. split; [done|]. split; [done|]. split.
  - exists (new_lookup a s), a, h. change (tables (set_tables p1 t)) with t. by rewrite Hbound, Hk, decide_True.
  - split; [by eapply framed_trans, framed_refl|].
    intros k Hn. change (tables (set_tables p1 t)) with t. by rewrite Hbound, Hk, decide_False, Ht1.
Qed.

Definition legal_session (binding : datagraph_binding) : bool :=
  (req_alignment (b_reqs binding) =? 0) || request_okb (req_size (b_reqs binding)) (req_alignment (b_reqs binding)).

Lemma add_session_spec p tid native index binding :
  inv p -> legal_session binding = true ->
  match add_datagraphpipelinesession p tid native index binding with
  | Ok (l, b, p') => inv p' /\ config p' = config p /\ loc_size l = req_size (b_reqs binding) /\
      located p' (SessionKey index (b_bind_point binding) (b_object_index binding)) l /\ framed p p' /\
      (forall k x, bound (tables p) k = Some x -> bound (tables p') k = Some x)
  | Fail f => f = AbortCall
  end.
Proof.
  intros Hi Hl. unfold add_datagraphpipelinesession. destruct (req_alignment (b_reqs binding) =? 0) eqn:E0; [done|].
  cbn [negb obind require]. unfold legal_session in Hl. rewrite E0 in Hl. cbn [orb] in Hl.
  cbn [req_size req_alignment req_memoryTypeBits allocate_flags b_bind_point b_object_index].
  destruct (get_device_memory_type _ _ _) as [type|f] eqn:Ety; cbn [obind]; [|by eapply get_device_memory_type_fault].
  set (s := Suballocation VK_OBJECT_TYPE_DATA_GRAPH_PIPELINE_SESSION_ARM _ _ _ _ _ _ _ _).
  assert (Hadd : addable p s) by (split; [by apply request_okb_spec|]; repeat split; try done; by left).
  assert (Hdone : forall l p', added p p' s l -> inv p' /\ config p' = config p /\ loc_size l = req_size (b_reqs binding) /\
      located p' (SessionKey index (b_bind_point binding) (b_object_index binding)) l /\ framed p p' /\
      (forall k x, bound (tables p) k = Some x -> bound (tables p') k = Some x)).
  { intros l p' []. do 5 (split; [done|]). intros k x Hk. rewrite ad_others0; [done|]. intros ->. congruence. }
  destruct (_ || _).
  - pose proof (allocate_spec p tid type s (prune_memory_flags (b_memory_flags binding)) TILING_LINEAR true
      (allocate_flags (b_reqs binding)) Hi Hadd) as H.
    destruct (allocate _ _ _ _ _ _ _ _ _) as [[l p']|f]; cbn [obind]; [|done]. by apply Hdone.
  - pose proof (suballocate_spec p tid type s (prune_memory_flags (b_memory_flags binding)) TILING_LINEAR
      (allocate_flags (b_reqs binding)) Hi Hadd) as H.
    destruct (suballocate _ _ _ _ _ _ _) as [[l p']|f]; cbn [obind]; [|done]. by apply Hdone.
Qed.

Lemma virtualswap_loop_inv images : forall p type size,
  inv p ->
  match virtualswap_loop p images type size with
  | Ok p' => inv p'
  | Fail f => f = AbortCall
  end.
Proof.
  induction images as [|n IH]; intros p type size Hi; cbn [virtualswap_loop]; [done|].
  destruct (vkAllocateMemory _ _ _) as [mem|] eqn:E; [|done]. apply IH. destruct Hi. split; try done.
  cbn [device_calls virtualswapmemory add_virtualswap add_calls]. rewrite allocated_app, freed_app.
  change (held (add_virtualswap _ _)) with (held p). rewrite inv_memory0. simpl. rewrite app_nil_r. solve_Permutation.
Qed.

(** ** Freeing *)

Lemma free_object_inv p ty index :
  inv p ->
  match free_object p ty index with
  | Ok p' => inv p'
  | Fail f => f = OutOfRange
  end.
Proof.
  intros Hi. unfold free_object. destruct (index =? CONTAINER_NULL_VALUE)%N; [done|].
  destruct (at_index (vec (tables p) ty) index) as [l|] eqn:El; [|done].
  destruct (home l) as [a|] eqn:Eh; [|done].
  set (q := if l_alias_member l then p else queue_delete_at p a (l_offset l)).
  assert (Hq : tables q = tables p /\ config q = config p /\ aliases q = aliases p /\ device_calls q = device_calls p /\
    virtualswapmemory q = virtualswapmemory p).
  { subst q. destruct (l_alias_member l); [done|]. unfold queue_delete_at. by destruct (heap_at p a). }
  destruct Hq as (Q1 & Q2 & Q3 & Q4 & Q5). rewrite Q1.
  apply (inv_unbind p _ (TrackedKey ty index) l a); try done.
  - cbn [bound]. rewrite El. unfold live. by rewrite Eh.
  - unfold sessions_ok. cbn [tables set_tables]. rewrite sessions_set_vec. apply (inv_sessions _ Hi).
  - intros k. cbn [tables set_tables]. by rewrite (bound_set_vec _ _ _ _ l).
Qed.

Definition drop_entries (p : suballocator_private) (i : N) (entries : list datagraph_lookup) : suballocator_private :=
  set_tables p (set_sessions (tables p) (set_at (datagraphpipelinesession_lookup (tables p)) i entries)).

Definition free_entry (p : suballocator_private) (e : datagraph_lookup) : suballocator_private :=
  match home (loc e) with Some a => queue_delete_at p a (l_offset (loc e)) | None => p end.

Lemma free_entry_tables p e : tables (free_entry p e) = tables p.
Proof. unfold free_entry, queue_delete_at. destruct (home (loc e)) as [a|]; [|done]. by destruct (heap_at p a). Qed.

Lemma drop_drop p i l1 l2 : drop_entries (drop_entries p i l1) i l2 = drop_entries p i l2.
Proof.
  unfold drop_entries, set_tables. cbn -[set_at]. f_equal. unfold set_sessions, set_at. cbn. f_equal. apply list_insert_insert_eq.
Qed.

Lemma drop_free p i l e : drop_entries (free_entry p e) i l = free_entry (drop_entries p i l) e.
Proof.
  unfold free_entry. destruct (home (loc e)) as [a|]; [|done]. unfold queue_delete_at.
  change (heap_at (drop_entries p i l)) with (heap_at p). by destruct (heap_at p a).
Qed.

(** freeing the first entry of a session *)
Lemma free_first_inv p i e rest :
  inv p -> at_index (datagraphpipelinesession_lookup (tables p)) i = Some (e :: rest) ->
  inv (drop_entries (free_entry p e) i rest).
Proof.
  intros Hi He. pose proof (session_at _ _ _ (inv_sessions _ Hi) He) as Hso.
  pose proof Hso as [Hnd Hall]. inversion Hall as [|? ? [Hh Hm] Hall']; subst.
  cbn [map] in Hnd. apply NoDup_cons in Hnd as [Hnin Hnd].
  destruct (home (loc e)) as [a|] eqn:Eh; [|done].
  rewrite drop_free. unfold free_entry. rewrite Eh.
  assert (Hq : tables (queue_delete_at (drop_entries p i rest) a (l_offset (loc e))) =
    set_sessions (tables p) (set_at (datagraphpipelinesession_lookup (tables p)) i rest) /\
    config (queue_delete_at (drop_entries p i rest) a (l_offset (loc e))) = config p /\
    aliases (queue_delete_at (drop_entries p i rest) a (l_offset (loc e))) = aliases p /\
    device_calls (queue_delete_at (drop_entries p i rest) a (l_offset (loc e))) = device_calls p /\
    virtualswapmemory (queue_delete_at (drop_entries p i rest) a (l_offset (loc e))) = virtualswapmemory p).
  { unfold queue_delete_at. by destruct (heap_at _ _). }
  destruct Hq as (Q1 & Q2 & Q3 & Q4 & Q5).
  apply (inv_unbind p _ (SessionKey i (d_bind_point e) (d_object_index e)) (loc e) a); try done.
  - cbn [bound]. rewrite He. rewrite (find_entry_at _ 0%nat e Hso eq_refl). unfold live. by rewrite Eh.
  - rewrite Q1. apply sessions_ok_set; [apply Hi|done].
  - intros k. rewrite Q1, (bound_set_session _ _ _ _ (e :: rest)) by done. destruct k as [ty j|j bp oi]; [done|].
    destruct (decide (j = i)) as [->|Hn]; [|by rewrite decide_False by congruence].
    cbn [bound]. rewrite He. cbn [find_entry]. destruct (same_binding bp oi e) eqn:Eb.
    + apply same_binding_spec in Eb as [<- <-]. rewrite decide_True by done.
      pose proof (find_entry_spec (d_bind_point e) (d_object_index e) rest) as Hf.
      destruct (find_entry _ _ rest) as [[j x]|]; [|done]. destruct Hf as [Hf1 Hf2]. exfalso. apply Hnin.
      apply same_binding_spec in Hf2 as [E1 E2]. apply list_elem_of_fmap. exists x. rewrite E1, E2.
      split; [done|]. by eapply list_elem_of_lookup_2.
    + rewrite decide_False; [by destruct (find_entry bp oi rest) as [[]|]|]. intros [= -> ->].
      by rewrite (proj2 (same_binding_spec _ _ e) (conj eq_refl eq_refl)) in Eb.
  - rewrite Hm. unfold queue_delete_at. change (heap_at (drop_entries p i rest) a) with (heap_at p a). by destruct (heap_at p a).
Qed.

Lemma free_entries_inv entries : forall p i,
  inv p -> at_index (datagraphpipelinesession_lookup (tables p)) i = Some entries ->
  inv (drop_entries (foldl free_entry p entries) i []).
Proof.
  induction entries as [|e rest IH]; intros p i Hi He; cbn [foldl].
  - assert (E : drop_entries p i [] = p); [|by rewrite E].
    unfold drop_entries, set_tables, set_sessions, set_at. rewrite at_index_lookup in He. rewrite list_insert_id by done.
    by destruct p as [? ? [] ? ? ? ?].
  - pose proof (free_first_inv p i e rest Hi He) as H1.
    assert (E : forall es q, drop_entries (foldl free_entry q es) i [] = foldl free_entry (drop_entries q i []) es).
    { induction es as [|x es IHes]; intros q; cbn [foldl]; [done|]. by rewrite IHes, drop_free. }
    specialize (IH (drop_entries (free_entry p e) i rest) i H1). rewrite E in IH |- *. rewrite drop_drop in IH. apply IH.
    unfold drop_entries. cbn [tables set_tables set_sessions datagraphpipelinesession_lookup].
    rewrite free_entry_tables, at_index_set_at, He. by rewrite decide_True.
Qed.

Lemma free_session_inv p i :
  inv p ->
  match free_datagraphpipelinesession p i with
  | Ok p' => inv p'
  | Fail f => f = OutOfRange
  end.
Proof.
  intros Hi. unfold free_datagraphpipelinesession. destruct (i =? CONTAINER_NULL_VALUE)%N; [done|].
  destruct (at_index (datagraphpipelinesession_lookup (tables p)) i) as [entries|] eqn:E; [|done].
  exact (free_entries_inv entries p i Hi E).
Qed.

(** ** Finding *)

Definition marked (t t' : lookup_tables) (K : key) (x : lookup) : Prop :=
  sessions_ok t' /\ forall k, bound t' k = if decide (k = K) then Some (with_initialized x) else bound t k.

Lemma inv_mark p t K x : inv p -> bound (tables p) K = Some x -> marked (tables p) t K x -> inv (set_tables p t).
Proof.
  intros Hi HK [Hs Hb]. split; try apply Hi; [| |done].
  - intros k l. change (tables (set_tables p t)) with t. rewrite Hb. case_decide as Hk; [|apply (inv_bound _ Hi)].
    subst k. intros [= <-]. exact (inv_bound _ Hi K x HK).
  - intros a h s Ha Hf Hin. destruct (inv_subs _ Hi a h s Ha Hf Hin) as [Y1 Y2]. split; [done|]. intros Hd.
    destruct (Y2 Hd) as (l & Hl & Y3). change (tables (set_tables p t)) with t.
    destruct (decide (key_of s = K)) as [Hk|Hk].
    + exists (with_initialized x). rewrite Hb, decide_True by done. split; [done|]. rewrite Hk, HK in Hl. by injection Hl as <-.
    + exists l. by rewrite Hb, decide_False.
Qed.

(** the answer of a find for the bound place [x] *)
Definition found (p p' : suballocator_private) (K : key) (x : lookup) (l : suballoc_location) : Prop :=
  inv p' /\ heaps_by_thread p' = heaps_by_thread p /\ config p' = config p /\ marked (tables p) (tables p') K x /\
  needs_init l = negb (initialized x) /\
  exists a h, home x = Some a /\ heap_at p a = Some h /\ loc_memory l = h_mem h /\ loc_offset l = l_offset x /\
    loc_size l = l_size x.

Lemma find_memory_found p ty i x :
  inv p -> bound (tables p) (TrackedKey ty i) = Some x ->
  exists l p', find_memory p ty i = Ok (l, p') /\ found p p' (TrackedKey ty i) x l.
Proof.
  intros Hi Hb. pose proof Hb as Hb0. cbn [bound] in Hb0. unfold find_memory. destruct (at_index (vec (tables p) ty) i) as [l|] eqn:El; [|done].
  unfold live in Hb0. destruct (home l) as [a|] eqn:Eh; [|done]. injection Hb0 as ->.
  destruct (inv_bound _ Hi _ x Hb) as (a' & h & H1 & H2 & _). rewrite Eh in H1. injection H1 as <-. rewrite H2.
  eexists _, _. split; [reflexivity|].
  assert (Hmark : marked (tables p) (set_vec (tables p) ty (set_at (vec (tables p) ty) i (with_initialized x))) (TrackedKey ty i) x).
  { split; [unfold sessions_ok; rewrite sessions_set_vec; apply (inv_sessions _ Hi)|].
    intros k. rewrite (bound_set_vec _ _ _ _ x) by done. case_decide; [|done]. unfold live, with_initialized. simpl. by rewrite Eh. }
  split; [by eapply inv_mark|]. do 2 (split; [done|]). split; [exact Hmark|]. split; [done|]. by exists a, h.
Qed.

Lemma find_entry_mark entries i e bp oi :
  find_entry bp oi entries = Some (i, e) ->
  let e' := DatagraphLookup (d_bind_point e) (d_object_index e) (with_initialized (loc e)) in
  forall bp' oi', match find_entry bp' oi' (<[i := e']> entries) with Some (_, y) => Some y | None => None end =
    if decide (bp' = bp /\ oi' = oi) then Some e' else match find_entry bp' oi' entries with Some (_, y) => Some y | None => None end.
Proof.
  revert i; induction entries as [|y entries IH]; intros i H; [done|]. cbn [find_entry] in H. cbv zeta in *. intros bp' oi'.
  destruct (same_binding bp oi y) eqn:Ey.
  - injection H as <- <-. apply same_binding_spec in Ey as [E1 E2]. simpl. unfold same_binding.
    cbn [d_bind_point d_object_index]. case_decide as Hd.
    + destruct Hd as [-> ->]. by rewrite E1, E2, Z.eqb_refl, N.eqb_refl.
    + assert (Hf : (d_bind_point y =? bp') && (d_object_index y =? oi')%N = false).
      { apply not_true_is_false. intros [Ha%Z.eqb_eq Hb%N.eqb_eq]%andb_true_iff. apply Hd. by subst. }
      rewrite !Hf. by destruct (find_entry bp' oi' entries) as [[]|].
  - destruct (find_entry bp oi entries) as [[j z]|] eqn:Ef; [|done]. injection H as <- <-. simpl.
    specialize (IH j eq_refl bp' oi'). destruct (same_binding bp' oi' y) eqn:Ey'.
    + rewrite decide_False; [done|]. intros [-> ->]. congruence.
    + destruct (find_entry bp' oi' (<[j:=_]> entries)) as [[]|]; destruct (find_entry bp' oi' entries) as [[]|]; exact IH.
Qed.

Lemma find_session_found p i bp oi x :
  inv p -> bound (tables p) (SessionKey i bp oi) = Some x ->
  exists l p', find_datagraphpipelinesession_memory p i bp oi = Ok (l, p') /\ found p p' (SessionKey i bp oi) x l.
Proof.
  intros Hi Hb. pose proof Hb as Hb0. cbn [bound] in Hb0. unfold find_datagraphpipelinesession_memory.
  destruct (at_index (datagraphpipelinesession_lookup (tables p)) i) as [es|] eqn:Ees; [|done].
  pose proof (session_at _ _ _ (inv_sessions _ Hi) Ees) as [Hnd Hall].
  destruct (find_entry bp oi es) as [[n e]|] eqn:Ef; [|done].
  unfold live in Hb0. destruct (home (loc e)) as [a|] eqn:Eh; [|done]. injection Hb0 as <-.
  destruct (inv_bound _ Hi _ _ Hb) as (a' & h & H1 & H2 & _). rewrite Eh in H1. injection H1 as <-. rewrite H2.
  eexists _, _. split; [reflexivity|]. cbv zeta.
  set (e' := DatagraphLookup (d_bind_point e) (d_object_index e) (with_initialized (loc e))).
  pose proof (find_entry_spec bp oi es) as Hfs. rewrite Ef in Hfs. destruct Hfs as [Hn Hbind].
  assert (Hmark : marked (tables p) (set_sessions (tables p) (set_at (datagraphpipelinesession_lookup (tables p)) i (<[n := e']> es)))
    (SessionKey i bp oi) (loc e)).
  { split.
    - apply sessions_ok_set; [apply Hi|]. split.
      + assert (E : map (fun e => (d_bind_point e, d_object_index e)) (<[n:=e']> es) = map (fun e => (d_bind_point e, d_object_index e)) es); [|by rewrite E].
        rewrite list_fmap_insert. apply list_insert_id. by rewrite list_lookup_fmap, Hn.
      + apply Forall_insert; [done|]. eapply Forall_lookup_1 in Hall; [|exact Hn]. exact Hall.
    - intros k. rewrite (bound_set_session _ _ _ _ es) by done. destruct k as [ty j|j bp' oi']; [done|].
      destruct (decide (j = i)) as [->|Hj]; [|by rewrite decide_False by congruence].
      pose proof (find_entry_mark es n e bp oi Ef bp' oi') as Hm. cbv zeta in Hm. fold e' in Hm.
      cbn [bound]. rewrite Ees. destruct (decide (bp' = bp /\ oi' = oi)) as [[-> ->]|Hd].
      + rewrite decide_True by done. destruct (find_entry _ _ (<[n:=e']> es)) as [[? y]|]; [|done]. injection Hm as ->.
        unfold live. simpl. by rewrite Eh.
      + rewrite decide_False by (intros [= -> ->]; by apply Hd).
        destruct (find_entry bp' oi' (<[n:=e']> es)) as [[? y]|]; destruct (find_entry bp' oi' es) as [[? y']|]; try done;
          by injection Hm as ->. }
  split; [by eapply inv_mark|]. do 2 (split; [done|]). split; [exact Hmark|]. split; [done|]. by exists a, h.
Qed.

(** a place that did not move *)
Definition same_spot (l l' : lookup) : Prop :=
  home l' = home l /\ l_offset l' = l_offset l /\ l_size l' = l_size l /\ l_alias_member l' = l_alias_member l.

(** every bound object keeps its place, those [except] excepted *)
Definition places (except : key -> Prop) (p p' : suballocator_private) : Prop :=
  forall k l, bound (tables p) k = Some l -> except k \/ exists l', bound (tables p') k = Some l' /\ same_spot l l'.

Lemma places_refl p : places (fun _ => False) p p.
Proof. intros k l Hk. right. by exists l. Qed.

Lemma places_trans p q r : places (fun _ => False) p q -> places (fun _ => False) q r -> places (fun _ => False) p r.
Proof.
  intros H1 H2 k l Hk. destruct (H1 k l Hk) as [[]|(l1 & K1 & S1)]. destruct (H2 k l1 K1) as [[]|(l2 & K2 & S2)].
  right. exists l2. split; [done|]. unfold same_spot in *. intuition congruence.
Qed.

Lemma found_places p p' K x l : bound (tables p) K = Some x -> found p p' K x l -> places (fun _ => False) p p'.
Proof.
  intros HK (_ & _ & _ & [_ Hb] & _) k y Hk. right. rewrite Hb. case_decide as Hd; [|by exists y].
  subst k. rewrite HK in Hk. injection Hk as <-. by exists (with_initialized x).
Qed.

(** ** The consistency checks succeed *)

Lemma check_lookup_ok p k l : lookup_ok p k l -> inv p -> check_lookup p l = true.
Proof.
  intros (a & h & H1 & H2 & H3) Hi. unfold check_lookup. rewrite H1, H2. destruct (l_alias_member l).
  - destruct H3 as (M1 & M2 & M3 & M4). rewrite M1, (proj2 (Z.eqb_neq _ _)), (proj2 (Z.leb_le _ _)) by lia. done.
  - destruct H3 as (_ & s & S1 & S2 & S3 & S4 & S5).
    destruct (laid_out_in _ _ _ _ (ho_layout _ (inv_heaps _ Hi _ _ H2)) S1) as (L1 & L2 & L3).
    rewrite (proj2 (Z.eqb_neq _ _)) by lia. apply existsb_exists. exists s. split; [by apply list_elem_of_In|].
    unfold same_place. rewrite S3, S4, !Z.eqb_refl. done.
Qed.

Lemma check_vec p ty : inv p -> forallb (check_lookup p) (vec (tables p) ty) = true.
Proof.
  intros Hi. apply forallb_forall. intros l Hl. apply list_elem_of_In, list_elem_of_lookup_1 in Hl as [i Hl].
  destruct (home l) as [a|] eqn:Eh; [|unfold check_lookup; by rewrite Eh].
  apply (check_lookup_ok p (TrackedKey ty (N.of_nat i))); [|done]. apply (inv_bound _ Hi). cbn [bound].
  rewrite at_index_lookup, Nat2N.id, Hl. unfold live. by rewrite Eh.
Qed.

Lemma self_test_tables_ok p : inv p -> self_test_tables p = true.
Proof.
  intros Hi. unfold self_test_tables. pose proof (check_vec p VK_OBJECT_TYPE_IMAGE Hi) as H1. pose proof (check_vec p VK_OBJECT_TYPE_BUFFER Hi) as H2.
  pose proof (check_vec p VK_OBJECT_TYPE_TENSOR_ARM Hi) as H3. cbn [vec] in *. rewrite H1, H2, H3. cbn [andb].
  apply forallb_forall. intros es Hes. apply list_elem_of_In, list_elem_of_lookup_1 in Hes as [i Hes].
  assert (Hat : at_index (datagraphpipelinesession_lookup (tables p)) (N.of_nat i) = Some es) by (by rewrite at_index_lookup, Nat2N.id).
  pose proof (session_at _ _ _ (inv_sessions _ Hi) Hat) as Hso.
  apply forallb_forall. intros e He. apply list_elem_of_In, list_elem_of_lookup_1 in He as [n He].
  pose proof Hso as [_ Hall]. eapply Forall_lookup_1 in Hall as [Hh Hm]; [|exact He].
  destruct (home (loc e)) as [a|] eqn:Eh; [|done].
  assert (Hb : bound (tables p) (SessionKey (N.of_nat i) (d_bind_point e) (d_object_index e)) = Some (loc e)).
  { cbn [bound]. rewrite Hat, (find_entry_at _ _ _ Hso He). unfold live. by rewrite Eh. }
  destruct (inv_bound _ Hi _ _ Hb) as (b & h & X1 & X2 & X3). rewrite Eh in X1. injection X1 as <-.
  unfold check_entry. rewrite Eh, X2. rewrite Hm in X3. destruct X3 as (_ & s & S1 & S2 & S3 & S4 & S5).
  destruct (laid_out_in _ _ _ _ (ho_layout _ (inv_heaps _ Hi _ _ X2)) S1) as (L1 & L2 & L3).
  rewrite (proj2 (Z.eqb_neq _ _)) by lia. apply existsb_exists. exists s. split; [by apply list_elem_of_In|].
  unfold same_place, key_of in *. rewrite S3, S4, !Z.eqb_refl. destruct (s_type s); try done.
  injection S2 as _ E1 E2. by rewrite E1, E2, Z.eqb_refl, N.eqb_refl.
Qed.

Lemma find_suballocation_ok p a h s :
  inv p -> heap_at p a = Some h -> h_alias_group h = false -> s ∈ h_subs h -> has_pending_delete h (s_offset s) = false ->
  exists l p', find_suballocation p s = Ok (l, p') /\ inv p' /\ heaps_by_thread p' = heaps_by_thread p /\
    places (fun _ => False) p p' /\ same_location h s l = true.
Proof.
  intros Hi Ha Hal Hin Hd. destruct (inv_subs _ Hi a h s Ha Hal Hin) as [Hty Hsub].
  pose proof (inv_heaps _ Hi _ _ Ha) as Hok. destruct (laid_out_in _ _ _ _ (ho_layout _ Hok) Hin) as (L1 & L2 & L3).
  pose proof (ho_total _ Hok) as Ht. unfold MAX_ALLOCATION in Ht.
  unfold has_pending_delete in Hd. apply bool_decide_eq_false in Hd. rewrite wrap32_small in Hd by u_lia.
  destruct (Hsub Hd) as (x & Hx & X1 & X2 & X3 & X4).
  assert (Hf : forall l p' K, bound (tables p) K = Some x -> found p p' K x l -> inv p' /\
      heaps_by_thread p' = heaps_by_thread p /\ places (fun _ => False) p p' /\ same_location h s l = true).
  { intros l p' K HK Hfound. pose proof Hfound as (F1 & F2 & _ & _ & _ & b & hb & F3 & F4 & F5 & F6 & F7).
    split; [done|]. split; [done|]. split; [by eapply found_places|].
    rewrite X1 in F3. injection F3 as <-. rewrite Ha in F4. injection F4 as <-.
    unfold same_location. by rewrite F5, F6, F7, X2, X3, !Z.eqb_refl. }
  unfold find_suballocation, key_of in *. destruct (s_type s) eqn:Es; try done;
    try (destruct (find_memory_found p _ _ x Hi Hx) as (l & p' & E & F)); try (destruct (find_session_found p _ _ _ x Hi Hx) as (l & p' & E & F));
    exists l, p'; (split; [exact E|]); by eapply Hf.
Qed.

Lemma walk_subs_ok h a subs : forall p prev freed used count,
  inv p -> heap_at p a = Some h -> h_alias_group h = false -> (forall s, s ∈ subs -> s ∈ h_subs h) ->
  laid_out prev (h_total h) subs -> 0 <= prev ->
  exists prev' freed' used' count' p', walk_subs p h subs prev freed used count = Ok (prev', freed', used', count', p') /\
    inv p' /\ heaps_by_thread p' = heaps_by_thread p /\ places (fun _ => False) p p' /\ 0 <= prev' /\ used' = used + total_size subs /\
    freed' = freed + (prev' - prev) - total_size subs.
Proof.
  induction subs as [|s subs IH]; intros p prev freed used count Hi Ha Hal Hin Hl Hp; cbn [walk_subs].
  { exists prev, freed, used, count, p. simpl. pose proof (places_refl p). repeat (split; [done || lia|]). lia. }
  destruct Hl as (L1 & L2 & L3). rewrite Z.geb_leb, (proj2 (Z.leb_le _ _)) by done. cbn [obind require].
  rewrite Z.geb_leb, (proj2 (Z.leb_le 0 prev)) by done.
  destruct (inv_subs _ Hi a h s Ha Hal (Hin s ltac:(by left))) as [Hty _]. rewrite bool_decide_eq_false_2 by done.
  cbn [negb obind require].
  assert (Hstep : forall q c, inv q -> heaps_by_thread q = heaps_by_thread p -> places (fun _ => False) p q ->
    exists prev' freed' used' count' p',
      walk_subs q h subs (s_offset s + s_size s) (freed + (s_offset s - prev)) (used + s_size s) c = Ok (prev', freed', used', count', p') /\
      inv p' /\ heaps_by_thread p' = heaps_by_thread p /\ places (fun _ => False) p p' /\ 0 <= prev' /\ used' = used + total_size (s :: subs) /\
      freed' = freed + (prev' - prev) - total_size (s :: subs)).
  { intros q c Hq Eq Hpl. destruct (IH q (s_offset s + s_size s) (freed + (s_offset s - prev)) (used + s_size s) c)
      as (v & f & u & n & p' & E & R1 & R2 & R6 & R3 & R4 & R5); try done; try lia.
    - unfold heap_at. by rewrite Eq.
    - intros x Hx. apply Hin. by right.
    - exists v, f, u, n, p'. split; [done|]. split; [done|]. split; [congruence|].
      split; [by eapply places_trans|]. simpl. lia. }
  destruct (has_pending_delete h (s_offset s)) eqn:Ed; [apply Hstep; try done; apply places_refl|].
  destruct (find_suballocation_ok p a h s Hi Ha Hal (Hin s ltac:(by left)) Ed) as (l & q & -> & Hq & Eq & Hpl & Hs).
  cbn [obind]. rewrite Hs. cbn [obind require]. by apply Hstep.
Qed.

Lemma walk_subs_first p h s rest freed used count :
  0 <= s_offset s ->
  walk_subs p h (s :: rest) (-1) freed used count = walk_subs p h (s :: rest) (s_offset s) freed used count.
Proof.
  intros H. cbn [walk_subs]. rewrite !Z.geb_leb, (proj2 (Z.leb_le (-1) _)), (proj2 (Z.leb_le (s_offset s) _)) by lia.
  rewrite (proj2 (Z.leb_le 0 (s_offset s))) by done. cbn [obind require Z.leb Z.compare].
  by rewrite Z.sub_diag, Z.add_0_r.
Qed.

Lemma walk_heap_ok p a h count :
  inv p -> heap_at p a = Some h ->
  exists count' p', walk_heap p h count = Ok (count', p') /\ inv p' /\ heaps_by_thread p' = heaps_by_thread p /\
    places (fun _ => False) p p'.
Proof.
  intros Hi Ha. pose proof (inv_heaps _ Hi _ _ Ha) as Hok. pose proof (ho_free _ Hok) as Hf. pose proof (ho_layout _ Hok) as Hl.
  assert (Hts : 0 <= total_size (h_subs h)).
  { clear Hf. revert Hl. generalize 0 at 1. induction (h_subs h) as [|s subs IH]; intros z; simpl; [lia|].
    intros (H1 & H2 & H3). specialize (IH _ H3). lia. }
  pose proof (places_refl p) as Hrefl.
  unfold walk_heap. rewrite (proj2 (Z.leb_le _ _)) by lia. cbn [obind require].
  destruct (h_alias_group h) eqn:Eal.
  - destruct (inv_reserved _ Hi a h Ha Eal) as (s & -> & -> & -> & -> & _). rewrite !Z.eqb_refl. simpl. by eexists _, _.
  - destruct (h_subs h) as [|s rest] eqn:Es.
    + simpl in Hf |- *. rewrite (proj2 (Z.eqb_eq _ _)) by lia. rewrite Z.add_0_r, Z.eqb_refl. simpl. by eexists _, _.
    + destruct Hl as (L1 & L2 & L3). rewrite walk_subs_first by done.
      destruct (walk_subs_ok h a (s :: rest) p (s_offset s) (s_offset s) 0 count Hi Ha Eal) as
        (v & f & u & n & p' & E & R1 & R2 & R6 & R3 & R4 & R5); [by rewrite Es|simpl; repeat split; lia || done|done|].
      rewrite E. cbn [obind]. rewrite Z.geb_leb, (proj2 (Z.leb_le 0 v)) by done.
      rewrite (proj2 (Z.eqb_eq _ _)), (proj2 (Z.eqb_eq _ _)) by lia. cbn [andb obind require]. by eexists _, _.
Qed.

Lemma elem_heap_at p h : h ∈ concat (heaps_by_thread p) -> exists a, heap_at p a = Some h.
Proof.
  intros Hin. apply list_elem_of_In, in_concat in Hin as (hs & H1 & H2).
  apply list_elem_of_In, list_elem_of_lookup_1 in H1 as [t H1], H2 as [i H2]. exists (t, i). unfold heap_at. simpl. by rewrite H1.
Qed.

Lemma walk_heaps_ok heaps : forall p count,
  inv p -> (forall h, h ∈ heaps -> exists a, heap_at p a = Some h) ->
  exists count' p', walk_heaps p heaps count = Ok (count', p') /\ inv p' /\ heaps_by_thread p' = heaps_by_thread p /\
    places (fun _ => False) p p'.
Proof.
  induction heaps as [|h heaps IH]; intros p count Hi Hh; cbn [walk_heaps].
  { exists count, p. pose proof (places_refl p). done. }
  destruct (Hh h ltac:(by left)) as [a Ha]. destruct (walk_heap_ok p a h count Hi Ha) as (n & q & -> & Hq & Eq & Hpl). cbn [obind].
  destruct (IH q n Hq) as (n' & q' & E & R1 & R2 & R3).
  - intros x Hx. destruct (Hh x ltac:(by right)) as [b Hb]. exists b. unfold heap_at. by rewrite Eq.
  - exists n', q'. split; [done|]. split; [done|]. split; [congruence|by eapply places_trans].
Qed.

Lemma self_test_ok p :
  inv p -> exists n p', self_test p = Ok (n, p') /\ inv p' /\ heaps_by_thread p' = heaps_by_thread p /\
    places (fun _ => False) p p'.
Proof.
  intros Hi. unfold self_test. rewrite self_test_tables_ok by done. cbn [obind require].
  apply walk_heaps_ok; [done|]. intros h. apply elem_heap_at.
Qed.

Lemma queue_delete_framed p a offset : framed p (queue_delete_at p a offset).
Proof.
  unfold queue_delete_at. destruct (heap_at p a) as [h|] eqn:Ha; [|by apply framed_refl].
  apply (framed_one p _ a (queue_delete h offset)); [intros b; by apply (heap_at_set_heap p a h)|].
  intros h0. rewrite Ha. intros [= <-]. by left.
Qed.

Lemma free_object_frame p ty index p' :
  free_object p ty index = Ok p' -> framed p p' /\ places (fun k => k = TrackedKey ty index) p p'.
Proof.
  unfold free_object. intros H. destruct (index =? CONTAINER_NULL_VALUE)%N.
  { injection H as <-. split; [by apply framed_refl|]. intros k l Hk. right. by exists l. }
  destruct (at_index (vec (tables p) ty) index) as [l|] eqn:El; [|done]. destruct (home l) as [a|] eqn:Eh.
  2:{ injection H as <-. split; [by apply framed_refl|]. intros k l' Hk. right. by exists l'. }
  set (q := if l_alias_member l then p else queue_delete_at p a (l_offset l)) in *.
  assert (Hq : framed p q /\ tables q = tables p).
  { subst q. destruct (l_alias_member l); [split; [by apply framed_refl|done]|]. split; [apply queue_delete_framed|].
    unfold queue_delete_at. by destruct (heap_at p a). }
  destruct Hq as [Hq1 Hq2]. injection H as <-. split; [by eapply framed_trans, framed_refl|].
  intros k x Hk. cbn [tables set_tables]. rewrite Hq2, (bound_set_vec _ _ _ _ l) by done. case_decide; [by left|].
  right. by exists x.
Qed.

Lemma free_entries_frame entries : forall p, framed p (foldl free_entry p entries) /\ tables (foldl free_entry p entries) = tables p.
Proof.
  induction entries as [|e rest IH]; intros p; cbn [foldl]; [split; [by apply framed_refl|done]|].
  destruct (IH (free_entry p e)) as [H1 H2]. rewrite H2, free_entry_tables. split; [|done].
  eapply framed_trans; [|exact H1]. unfold free_entry. destruct (home (loc e)); [apply queue_delete_framed|by apply framed_refl].
Qed.

Lemma free_session_frame p i p' :
  free_datagraphpipelinesession p i = Ok p' ->
  framed p p' /\ places (fun k => exists bp oi, k = SessionKey i bp oi) p p'.
Proof.
  unfold free_datagraphpipelinesession. intros H. destruct (i =? CONTAINER_NULL_VALUE)%N.
  { injection H as <-. split; [by apply framed_refl|]. intros k l Hk. right. by exists l. }
  destruct (at_index (datagraphpipelinesession_lookup (tables p)) i) as [entries|] eqn:E; [|done]. injection H as <-.
  destruct (free_entries_frame entries p) as [H1 H2]. split; [by eapply framed_trans, framed_refl|].
  intros k x Hk. cbn [tables set_tables].
  change (foldl _ p entries) with (foldl free_entry p entries). rewrite H2, (bound_set_session _ _ _ _ entries) by done.
  destruct k as [ty j|j bp oi]; [right; by exists x|]. case_decide as Hd; [subst j; left; by exists bp, oi|right; by exists x].
Qed.

(** ** Sequences of operations *)

Inductive operation :=
  | AddObject (tid : nat) (native : Z) (data : trackedobject)
  | AddSession (tid : nat) (native : Z) (index : N) (binding : datagraph_binding)
  | VirtualSwap (images : nat) (req : memory_requirements) (flags : Z)
  | FreeObject (ty : VkObjectType) (index : N)
  | FreeSession (index : N)
  | FindObject (ty : VkObjectType) (index : N)
  | FindSession (index : N) (bind_point : Z) (object_index : N)
  | SelfTest.

Definition step (p : suballocator_private) (op : operation) : outcome suballocator_private :=
  match op with
  | AddObject tid native data => let* (_, p) := add_trackedobject p tid native data in Ok p
  | AddSession tid native index binding => let* (_, p) := add_datagraphpipelinesession p tid native index binding in Ok p
  | VirtualSwap images req flags => virtualswap_images p images req flags
  | FreeObject ty index => free_object p ty index
  | FreeSession index => free_datagraphpipelinesession p index
  | FindObject ty index => let* (_, p) := find_memory p ty index in Ok p
  | FindSession index bp oi => let* (_, p) := find_datagraphpipelinesession_memory p index bp oi in Ok p
  | SelfTest => let* (_, p) := self_test p in Ok p
  end.

(** what the caller owes; frees and finds of any index are allowed *)
Definition legal (p : suballocator_private) (op : operation) : bool :=
  match op with
  | AddObject _ _ data => legal_add p data
  | AddSession _ _ _ binding => legal_session binding
  | VirtualSwap _ _ _ => run (config p)
  | _ => true
  end.

Definition frees (op : operation) (k : key) : Prop :=
  match op with
  | FreeObject ty index => k = TrackedKey ty index
  | FreeSession index => exists bp oi, k = SessionKey index bp oi
  | _ => False
  end.

Fixpoint run_ops (p : suballocator_private) (ops : list operation) : outcome suballocator_private :=
  match ops with
  | [] => Ok p
  | op :: rest => let* p := step p op in run_ops p rest
  end.

Fixpoint legal_ops (p : suballocator_private) (ops : list operation) : bool :=
  match ops with
  | [] => true
  | op :: rest => legal p op && match step p op with Ok p => legal_ops p rest | Fail _ => true end
  end.

Lemma virtualswap_loop_frame images : forall p type size p',
  virtualswap_loop p images type size = Ok p' -> heaps_by_thread p' = heaps_by_thread p /\ tables p' = tables p.
Proof.
  induction images as [|n IH]; intros p type size p' H; cbn [virtualswap_loop] in H; [by injection H as <-|].
  destruct (vkAllocateMemory _ _ _); [|done]. by apply IH in H.
Qed.

Lemma find_memory_bound p ty i l p' : inv p -> find_memory p ty i = Ok (l, p') -> exists x, bound (tables p) (TrackedKey ty i) = Some x.
Proof.
  intros Hi H. unfold find_memory in H. cbn [bound]. destruct (at_index _ _) as [x|]; [|done]. unfold live.
  destruct (home x); [by exists x|done].
Qed.

Lemma find_session_bound p i bp oi l p' : inv p ->
  find_datagraphpipelinesession_memory p i bp oi = Ok (l, p') -> exists x, bound (tables p) (SessionKey i bp oi) = Some x.
Proof.
  intros Hi H. unfold find_datagraphpipelinesession_memory in H. cbn [bound]. destruct (at_index _ _) as [es|]; [|done].
  destruct (find_entry bp oi es) as [[n e]|]; [|done]. unfold live. destruct (home (loc e)); [by eexists|done].
Qed.

(** a fault of a find is never an assertion *)
Lemma find_memory_fault p ty i f : inv p -> find_memory p ty i = Fail f -> f = AbortCall \/ f = OutOfRange.
Proof.
  intros Hi H. unfold find_memory in H. destruct (at_index (vec (tables p) ty) i) as [x|] eqn:Ex; [|injection H as <-; by right].
  destruct (home x) as [a|] eqn:Eh; [|injection H as <-; by left].
  destruct (inv_bound _ Hi (TrackedKey ty i) x) as (b & h & X1 & X2 & _); [cbn [bound]; rewrite Ex; unfold live; by rewrite Eh|].
  rewrite Eh in X1. injection X1 as <-. by rewrite X2 in H.
Qed.

Lemma find_session_fault p i bp oi f :
  inv p -> find_datagraphpipelinesession_memory p i bp oi = Fail f -> f = AbortCall \/ f = OutOfRange.
Proof.
  intros Hi H. unfold find_datagraphpipelinesession_memory in H. destruct (at_index _ i) as [es|] eqn:Ees; [|injection H as <-; by right].
  destruct (find_entry bp oi es) as [[n e]|] eqn:Ef; [|injection H as <-; by left].
  destruct (home (loc e)) as [a|] eqn:Eh; [|injection H as <-; by left].
  destruct (inv_bound _ Hi (SessionKey i bp oi) (loc e)) as (b & h & X1 & X2 & _);
    [cbn [bound]; rewrite Ees, Ef; unfold live; by rewrite Eh|].
  rewrite Eh in X1. injection X1 as <-. by rewrite X2 in H.
Qed.

Definition step_post (p : suballocator_private) (op : operation) (o : outcome suballocator_private) : Prop :=
  match o with
  | Ok p' => inv p' /\ framed p p' /\ places (frees op) p p'
  | Fail f => f = AbortCall \/ f = OutOfRange
  end.

Lemma step_find p K x l p' op :
  bound (tables p) K = Some x -> found p p' K x l -> step_post p op (Ok p').
Proof.
  intros HK Hf. pose proof (found_places _ _ _ _ _ HK Hf) as Hpl. destruct Hf as (F1 & F2 & _). split; [done|].
  split; [by apply framed_refl|]. intros k y Hk. destruct (Hpl k y Hk) as [[]|H]. by right.
Qed.

Lemma step_spec p op : inv p -> legal p op = true -> step_post p op (step p op).
Proof.
  intros Hi Hl. destruct op as [tid native data|tid native index b|images req flags|ty index|index|ty index|index bp oi|]; cbn [step].
  - pose proof (add_trackedobject_spec p tid native data Hi Hl) as H. apply legal_add_parts in Hl as (_ & _ & Hn & _).
    destruct (add_trackedobject _ _ _ _) as [[l p']|f]; cbn [obind]; [|by left]. destruct H as (H1 & _ & _ & _ & H2 & H3).
    split; [done|]. split; [done|]. intros k x Hk. right. exists x. by rewrite H3 by congruence.
  - pose proof (add_session_spec p tid native index b Hi Hl) as H.
    destruct (add_datagraphpipelinesession _ _ _ _ _) as [[[l b'] p']|f]; cbn [obind]; [|by left].
    destruct H as (H1 & _ & _ & _ & H2 & H3). split; [done|]. split; [done|]. intros k x Hk. right. exists x. by rewrite (H3 k x).
  - unfold virtualswap_images. cbn [legal] in Hl. rewrite Hl. cbn [obind require].
    destruct (negb (Nat.eqb images 0)); cbn [obind require]; [|by right].
    destruct (get_device_memory_type _ _ _) as [type|f] eqn:Ety; cbn [obind]; [|left; by eapply get_device_memory_type_fault].
    pose proof (virtualswap_loop_inv images p type (req_size req) Hi) as H.
    destruct (virtualswap_loop _ _ _ _) as [p'|f] eqn:E; [|by left]. apply virtualswap_loop_frame in E as [E1 E2].
    split; [done|]. split; [by apply framed_refl|]. intros k x Hk. right. exists x. by rewrite E2.
  - pose proof (free_object_inv p ty index Hi) as H. destruct (free_object _ _ _) as [p'|f] eqn:E; [|by right].
    apply free_object_frame in E as [E1 E2]. done.
  - pose proof (free_session_inv p index Hi) as H. destruct (free_datagraphpipelinesession _ _) as [p'|f] eqn:E; [|by right].
    apply free_session_frame in E as [E1 E2]. done.
  - destruct (find_memory p ty index) as [[l p']|f] eqn:E; cbn [obind]; [|by eapply find_memory_fault].
    destruct (find_memory_bound _ _ _ _ _ Hi E) as [x Hx]. destruct (find_memory_found p ty index x Hi Hx) as (l' & q & E' & Hf).
    rewrite E in E'. injection E' as <- <-. by eapply step_find.
  - destruct (find_datagraphpipelinesession_memory _ _ _ _) as [[l p']|f] eqn:E; cbn [obind]; [|by eapply find_session_fault].
    destruct (find_session_bound _ _ _ _ _ _ Hi E) as [x Hx]. destruct (find_session_found p index bp oi x Hi Hx) as (l' & q & E' & Hf).
    rewrite E in E'. injection E' as <- <-. by eapply step_find.
  - destruct (self_test_ok p Hi) as (n & p' & -> & H1 & H2 & H3). cbn [obind]. split; [done|].
    split; [by apply framed_refl|]. intros k x Hk. destruct (H3 k x Hk) as [[]|H]. by right.
Qed.

Lemma run_ops_inv ops : forall p,
  inv p -> legal_ops p ops = true ->
  match run_ops p ops with
  | Ok p' => inv p'
  | Fail f => f = AbortCall \/ f = OutOfRange
  end.
Proof.
  induction ops as [|op ops IH]; intros p Hi Hl; cbn [run_ops legal_ops] in *; [done|].
  apply andb_true_iff in Hl as [Hl1 Hl2]. pose proof (step_spec p op Hi Hl1) as Hs.
  destruct (step p op) as [q|f]; cbn [obind]; [|done]. by apply IH; [apply Hs|].
Qed.

(** an operation leaves the memory of every object it does not free where it is *)
Definition stays (p p' : suballocator_private) (k : key) : Prop :=
  forall l a h, bound (tables p) k = Some l -> home l = Some a -> heap_at p a = Some h ->
  exists l' h', bound (tables p') k = Some l' /\ home l' = Some a /\ heap_at p' a = Some h' /\
    h_mem h' = h_mem h /\ l_offset l' = l_offset l /\ l_size l' = l_size l.

Lemma bound_memory p k l a h : inv p -> bound (tables p) k = Some l -> home l = Some a -> heap_at p a = Some h -> h_mem h <> 0.
Proof.
  intros Hi Hk Hh Ha. destruct (inv_bound _ Hi k l Hk) as (b & hb & H1 & H2 & H3). rewrite Hh in H1. injection H1 as <-.
  rewrite Ha in H2. injection H2 as <-. destruct (l_alias_member l).
  - destruct H3 as [H3 _]. destruct (inv_reserved _ Hi a h Ha H3) as (s & _ & _ & _ & _ & Hm & _). done.
  - destruct H3 as (_ & s & Hs & _). intros Hm. rewrite (ho_retired _ (inv_heaps _ Hi a h Ha) Hm) in Hs. by apply elem_of_nil in Hs.
Qed.

Lemma step_stays p op p' k : inv p -> legal p op = true -> step p op = Ok p' -> ~ frees op k -> stays p p' k.
Proof.
  intros Hi Hl Hs Hf l a h Hk Hh Ha. pose proof (step_spec p op Hi Hl) as Hp. rewrite Hs in Hp. destruct Hp as (Hi' & Hfr & Hpl).
  destruct (Hpl k l Hk) as [H|(l' & H1 & H2 & H3 & H4 & H5)]; [done|]. destruct (Hfr a h Ha) as (h' & A1 & A2).
  exists l', h'. split; [done|]. split; [congruence|]. split; [done|]. split; [|done].
  destruct A2 as [A2|A2]; [done|]. pose proof (bound_memory p' k l' a h' Hi' H1 ltac:(congruence) A1). done.
Qed.

(** two objects that do not alias never share a byte *)
Lemma bound_disjoint p k1 k2 l1 l2 :
  inv p -> k1 <> k2 -> bound (tables p) k1 = Some l1 -> bound (tables p) k2 = Some l2 ->
  l_alias_member l1 = false -> home l1 = home l2 ->
  l_alias_member l2 = false /\ (l_offset l1 + l_size l1 <= l_offset l2 \/ l_offset l2 + l_size l2 <= l_offset l1).
Proof.
  intros Hi Hk H1 H2 A1 Hh. destruct (inv_bound _ Hi k1 l1 H1) as (a & h & B1 & B2 & B3).
  destruct (inv_bound _ Hi k2 l2 H2) as (b & h2 & C1 & C2 & C3). rewrite A1 in B3. rewrite Hh, C1 in B1. injection B1 as ->.
  rewrite B2 in C2. injection C2 as <-. destruct B3 as (D0 & s & D1 & D2 & D3 & D4 & _).
  destruct (l_alias_member l2); [destruct C3; congruence|]. split; [done|]. destruct C3 as (_ & t & E1 & E2 & E3 & E4 & _).
  pose proof (ho_layout _ (inv_heaps _ Hi _ _ B2)) as Hl.
  apply list_elem_of_lookup_1 in D1 as [i D1], E1 as [j E1]. rewrite <- D3, <- D4, <- E3, <- E4.
  destruct (Nat.lt_trichotomy i j) as [Hij|[->|Hij]].
  - left. by eapply laid_out_disjoint.
  - rewrite D1 in E1. injection E1 as ->. congruence.
  - right. by eapply laid_out_disjoint.
Qed.

(** the place of an object that does not alias is aligned and inside the allocation *)
Lemma bound_inside p k l :
  inv p -> bound (tables p) k = Some l ->
  exists a h, home l = Some a /\ heap_at p a = Some h /\ h_mem h <> 0 /\
    0 <= l_offset l /\ 0 < l_size l /\ l_offset l + l_size l <= h_total h < MAX_ALLOCATION.
Proof.
  intros Hi Hk. destruct (inv_bound _ Hi k l Hk) as (a & h & H1 & H2 & H3). exists a, h. do 2 (split; [done|]).
  split; [by eapply bound_memory|]. pose proof (inv_heaps _ Hi _ _ H2) as Hok. pose proof (ho_total _ Hok).
  destruct (l_alias_member l).
  - destruct H3 as (M1 & M2 & M3 & M4). lia.
  - destruct H3 as (_ & s & S1 & S2 & S3 & S4 & S5). destruct (laid_out_in _ _ _ _ (ho_layout _ Hok) S1). lia.
Qed.

(** ** Teardown gives back exactly what was allocated *)

Lemma release_heap_calls r h : allocated (release_heap r h) = [] /\ freed (release_heap r h) = handle_of h.
Proof. unfold release_heap, handle_of, release_calls. destruct (h_mem h =? 0); [done|]. by destruct (_ && _). Qed.

Lemma release_heaps_calls r hs :
  allocated (concat (map (release_heap r) hs)) = [] /\ freed (concat (map (release_heap r) hs)) = concat (map handle_of hs).
Proof.
  induction hs as [|h hs [IH1 IH2]]; [done|]. cbn [map concat]. rewrite allocated_app, freed_app, IH1, IH2.
  by destruct (release_heap_calls r h) as [-> ->].
Qed.

Lemma freed_virtualswap l : allocated (map FreeMemory l) = [] /\ freed (map FreeMemory l) = l.
Proof. induction l as [|m l [IH1 IH2]]; [done|]. split; [exact IH1|]. unfold freed in *. simpl. by f_equal. Qed.

Lemma destroy_balanced p :
  inv p -> Permutation (allocated (device_calls (destroy p))) (freed (device_calls (destroy p))).
Proof.
  intros Hi. unfold destroy. cbn [device_calls]. rewrite !allocated_app, !freed_app.
  destruct (release_heaps_calls (run (config p)) (concat (heaps_by_thread p))) as [-> ->].
  destruct (freed_virtualswap (virtualswapmemory p)) as [-> ->]. rewrite app_nil_r. simpl. rewrite ?app_nil_r. apply (inv_memory _ Hi).
Qed.

Lemma destroy_empty p : self_test (destroy p) = Ok (0%nat, destroy p).
Proof.
  unfold self_test. simpl. assert (E : concat (map (fun _ : list heap => @nil heap) (heaps_by_thread p)) = []).
  { induction (heaps_by_thread p) as [|hs l IH]; [done|exact IH]. }
  by rewrite E.
Qed.
End WithDevice.
