(* ===== verification/AliasGroups.v ===== *)
(** * Planning memory aliasing and dedicated allocations (suballocator::create of src/suballocator.cpp)

    When the device is created the suballocator groups the captured objects that
    overlapped in their captured memory, so that they overlap again on replay at
    the same relative offsets, and decides which of the others get an allocation
    of their own. The requirements that the driver reports for an object are a
    parameter. *)

From Stdlib Require Import ZArith Lia Bool Sorting.Sorted.
From stdpp Require Import base numbers list sets.
From S2P Require Import Prelude Memory Heap Suballocator SuballocatorInv.

#[local] Open Scope Z_scope.

(** ** Objects by captured memory *)

Definition selected (device_index : Z) (o : trackedobject) : bool :=
  (parent_device_index o =? device_index) && negb (backing_index o =? UINT32_MAX) && (0 <? capture_size o).

(** [memory_objects\[k\].push_back(o)] on a map kept in key order *)
Fixpoint push_object (m : list (Z * list trackedobject)) (k : Z) (o : trackedobject) : list (Z * list trackedobject) :=
  match m with
  | [] => [(k, [o])]
  | (k', l) :: rest =>
      if k <? k' then (k, [o]) :: m
      else if k =? k' then (k', l ++ [o]) :: rest
      else (k', l) :: push_object rest k o
  end.

Definition memory_objects (device_index : Z) (images buffers tensors : list trackedobject) : list (Z * list trackedobject) :=
  foldl (fun m o => push_object m (backing_index o) o) []
    (filter (fun o => selected device_index o = true) (images ++ buffers ++ tensors)).

Definition capture_offset_less (l r : trackedobject) : bool :=
  if negb (obj_offset l =? obj_offset r) then obj_offset l <? obj_offset r
  else if negb (object_type_code (object_type l) =? object_type_code (object_type r))
  then object_type_code (object_type l) <? object_type_code (object_type r)
  else (obj_index l <? obj_index r)%N.

(** [std::sort] by [capture_offset_less]; objects differ in type or index, so
    the order it produces is unique *)
Fixpoint insert_object (o : trackedobject) (l : list trackedobject) : list trackedobject :=
  match l with
  | [] => [o]
  | x :: rest => if capture_offset_less x o then x :: insert_object o rest else o :: l
  end.

Definition sort_objects (l : list trackedobject) : list trackedobject := foldr insert_object [] l.

(** ** Overlap groups *)

Definition capture_end_of (o : trackedobject) : Z := obj_offset o + capture_size o.

(** the objects that follow as long as they start below [capture_end] *)
Fixpoint overlap_run (capture_end : Z) (l : list trackedobject) : outcome (list trackedobject * list trackedobject) :=
  match l with
  | [] => Ok ([], [])
  | o :: rest =>
      if obj_offset o <? capture_end then
        let* _ := require (obj_offset o <=? UINT64_MAX - capture_size o) AbortCall in
        let* (run, remaining) := overlap_run (Z.max capture_end (capture_end_of o)) rest in
        Ok (o :: run, remaining)
      else Ok ([], l)
  end.

(** the part of a group that grows with its members: size, alignment, requirements *)
Record group_state := GroupState {
  gs_size : Z;
  gs_alignment : Z;
  gs_reqs : option memory_requirements    (** [have_requirements] *)
}.

Definition set_alias (a : alias_tables) (ty : VkObjectType) (index : N) (x : alias_lookup) : alias_tables :=
  match ty with
  | VK_OBJECT_TYPE_IMAGE =>
      AliasTables (set_at (image_alias_lookup a) index x) (buffer_alias_lookup a) (tensor_alias_lookup a) (alias_groups a)
  | VK_OBJECT_TYPE_BUFFER =>
      AliasTables (image_alias_lookup a) (set_at (buffer_alias_lookup a) index x) (tensor_alias_lookup a) (alias_groups a)
  | VK_OBJECT_TYPE_TENSOR_ARM =>
      AliasTables (image_alias_lookup a) (buffer_alias_lookup a) (set_at (tensor_alias_lookup a) index x) (alias_groups a)
  | _ => a
  end.

(** one member: its replay place in group number [g], which starts at [start] of the captured memory *)
Definition add_member (g : nat) (start : Z) (st : group_state * alias_tables) (o : trackedobject)
  : outcome (group_state * alias_tables) :=
  let (s, a) := st in
  let relative_offset := obj_offset o - start in
  let alignment := req_alignment (reqs o) in
  let* _ := require (negb ((alignment =? 0) || negb (relative_offset mod alignment =? 0))) AbortCall in
  let* _ := require (relative_offset <=? UINT64_MAX - req_size (reqs o)) AbortCall in
  let s := GroupState (Z.max (gs_size s) (relative_offset + req_size (reqs o))) (Z.max (gs_alignment s) alignment)
             (Some (match gs_reqs s with Some r => merge_memory_requirements r (reqs o) | None => reqs o end)) in
  let* alias := get_alias_lookup a (object_type o) (obj_index o) in
  match alias with
  | Some (AliasLookup None _) => Ok (s, set_alias a (object_type o) (obj_index o) (AliasLookup (Some g) relative_offset))
  | _ => Fail AssertFailed
  end.

Fixpoint add_members (g : nat) (start : Z) (st : group_state * alias_tables) (l : list trackedobject)
  : outcome (group_state * alias_tables) :=
  match l with
  | [] => Ok st
  | o :: rest => let* st := add_member g start st o in add_members g start st rest
  end.

Definition push_group (a : alias_tables) (x : alias_group) : alias_tables :=
  AliasTables (image_alias_lookup a) (buffer_alias_lookup a) (tensor_alias_lookup a) (alias_groups a ++ [x]).

Definition make_group (a : alias_tables) (memory_index : Z) (first : trackedobject) (run : list trackedobject)
  : outcome alias_tables :=
  let start := obj_offset first in
  let* (s, a) := add_members (length (alias_groups a)) start (GroupState 0 1 None, a) (first :: run) in
  let r := match gs_reqs s with Some r => r | None => no_requirements end in
  let r := MemoryRequirements (gs_size s) (gs_alignment s) (req_memoryTypeBits r) (memory_flags r)
             (prefersDedicatedAllocation r) (requiresDedicatedAllocation r) (allocate_flags r) in
  let* _ := require (negb (req_memoryTypeBits r =? 0)) AbortCall in
  let* _ := require (negb (requiresDedicatedAllocation r)) AbortCall in
  Ok (push_group a (AliasGroup memory_index start (gs_size s) (gs_alignment s) r (tiling first) None)).

(** the loop over the sorted objects of one captured memory *)
Fixpoint group_objects (fuel : nat) (a : alias_tables) (memory_index : Z) (l : list trackedobject) : outcome alias_tables :=
  match l with
  | [] => Ok a
  | first :: rest =>
      match fuel with
      | O => Fail OutOfFuel
      | S fuel' =>
          let* _ := require (obj_offset first <=? UINT64_MAX - capture_size first) AbortCall in
          let* (run, remaining) := overlap_run (capture_end_of first) rest in
          let* a := match run with [] => Ok a | _ => make_group a memory_index first run end in
          group_objects fuel' a memory_index remaining
      end
  end.

Fixpoint group_memories (a : alias_tables) (m : list (Z * list trackedobject)) : outcome alias_tables :=
  match m with
  | [] => Ok a
  | (k, l) :: rest =>
      let* a := group_objects (length l) a k (sort_objects l) in group_memories a rest
  end.

Definition prepare_alias_groups (a : alias_tables) (device_index : Z) (images buffers tensors : list trackedobject)
  : outcome alias_tables :=
  group_memories a (memory_objects device_index images buffers tensors).

(** ** Dedicated allocations *)

(** is the object in an alias group? *)
Definition in_group (a : alias_tables) (o : trackedobject) (ty : VkObjectType) : outcome bool :=
  let l := match ty with
           | VK_OBJECT_TYPE_IMAGE => image_alias_lookup a
           | VK_OBJECT_TYPE_BUFFER => buffer_alias_lookup a
           | _ => tensor_alias_lookup a
           end in
  match at_index l (obj_index o) with
  | None => Fail OutOfRange
  | Some x => Ok (match group x with Some _ => true | None => false end)
  end.

(** the objects of this device outside the alias groups; swapchain images are left out *)
Definition candidate (a : alias_tables) (device_index : Z) (ty : VkObjectType) (o : trackedobject) : outcome bool :=
  if negb (parent_device_index o =? device_index) || (bool_decide (ty = VK_OBJECT_TYPE_IMAGE) && is_swapchain_image o) then Ok false
  else let* b := in_group a o ty in Ok (negb b).

Fixpoint dedicate_required (a : alias_tables) (device_index : Z) (ty : VkObjectType) (budget : Z) (l : list trackedobject)
  : outcome (Z * list trackedobject) :=
  match l with
  | [] => Ok (budget, [])
  | o :: rest =>
      let* c := candidate a device_index ty o in
      let take := c && requiresDedicatedAllocation (reqs o) in
      let budget := if take && negb (budget =? 0) then budget - 1 else budget in
      let* (budget, rest) := dedicate_required a device_index ty budget rest in
      Ok (budget, (if take then set_dedicated o else o) :: rest)
  end.

Fixpoint dedicate_preferred (a : alias_tables) (device_index : Z) (ty : VkObjectType) (budget : Z) (l : list trackedobject)
  : outcome (Z * list trackedobject) :=
  match l with
  | [] => Ok (budget, [])
  | o :: rest =>
      let* c := candidate a device_index ty o in
      let take := c && negb (dedicated_allocation o) && prefersDedicatedAllocation (reqs o) && negb (budget =? 0) in
      let budget := if take then budget - 1 else budget in
      let* (budget, rest) := dedicate_preferred a device_index ty budget rest in
      Ok (budget, (if take then set_dedicated o else o) :: rest)
  end.

(** post-processing gives every object outside the groups its own allocation *)
Fixpoint dedicate_all (a : alias_tables) (device_index : Z) (ty : VkObjectType) (l : list trackedobject)
  : outcome (list trackedobject) :=
  match l with
  | [] => Ok []
  | o :: rest =>
      let* take := if parent_device_index o =? device_index then let* b := in_group a o ty in Ok (negb b) else Ok false in
      let* rest := dedicate_all a device_index ty rest in
      Ok ((if take then set_dedicated o else o) :: rest)
  end.

(** ** Creation *)

(** what the physical device reports, and the heap size of the environment (-1 for none) *)
Record device_limits := DeviceLimits {
  reported_memory_types : list Z;
  bufferImageGranularity : Z;
  maxMemoryAllocationCount : Z;
  heap_size_setting : Z
}.

Definition default_heap_size : Z := 1024 * 1024 * 32.

Section Create.
(** requirements reported by the driver *)
Context (query : trackedobject -> memory_requirements).

Definition query_owned (device_index : Z) (ty : VkObjectType) (o : trackedobject) : trackedobject :=
  if negb (parent_device_index o =? device_index) || (bool_decide (ty = VK_OBJECT_TYPE_IMAGE) && is_swapchain_image o) then o
  else set_reqs o (query o).

Definition fake_owned (device_index : Z) (o : trackedobject) : trackedobject :=
  if parent_device_index o =? device_index then set_reqs o (get_fake_memory_requirements o) else o.

Definition no_alias : alias_lookup := AliasLookup None 0.
Definition no_lookup : lookup := Lookup None 0 0 false false.

Definition empty_aliases (images buffers tensors : list trackedobject) : alias_tables :=
  AliasTables (map (fun _ => no_alias) images) (map (fun _ => no_alias) buffers) (map (fun _ => no_alias) tensors) [].

Definition empty_tables (images buffers tensors : list trackedobject) (sessions : nat) : lookup_tables :=
  LookupTables (map (fun _ => no_lookup) images) (map (fun _ => no_lookup) buffers) (map (fun _ => no_lookup) tensors)
    (repeat [] sessions).

(** the allocation budget left after the alias groups *)
Definition reserve_groups (max_allocations groups : Z) : Z :=
  if groups >=? max_allocations then 0 else max_allocations - groups.

Definition create (limits : device_limits) (device_index : Z) (images buffers tensors : list trackedobject)
    (sessions threads : nat) (run : bool)
  : outcome (suballocator_private * list trackedobject * list trackedobject * list trackedobject) :=
  let heap_size := if heap_size_setting limits =? -1 then default_heap_size else wrap64 (heap_size_setting limits) in
  let types := if run then reported_memory_types limits else [Z.ones 31] in
  let mixed := if run then bufferImageGranularity limits =? 1 else true in
  let budget := if run then wrap32 (maxMemoryAllocationCount limits - 64) else UINT32_MAX in
  let* _ := require (negb (Nat.eqb (length types) 0)) AssertFailed in
  let t := empty_tables images buffers tensors sessions in
  let a := empty_aliases images buffers tensors in
  let result a budget images buffers tensors :=
    (SuballocatorPrivate (DeviceConfig heap_size run types mixed budget) (repeat [] threads) t a (Counters 0 0 0 0) [] [],
     images, buffers, tensors) in
  if run then
    let images := map (query_owned device_index VK_OBJECT_TYPE_IMAGE) images in
    let buffers := map (query_owned device_index VK_OBJECT_TYPE_BUFFER) buffers in
    let tensors := map (query_owned device_index VK_OBJECT_TYPE_TENSOR_ARM) tensors in
    let* a := prepare_alias_groups a device_index images buffers tensors in
    let budget := reserve_groups budget (Z.of_nat (length (alias_groups a))) in
    let* (budget, images) := dedicate_required a device_index VK_OBJECT_TYPE_IMAGE budget images in
    let* (budget, buffers) := dedicate_required a device_index VK_OBJECT_TYPE_BUFFER budget buffers in
    let* (budget, tensors) := dedicate_required a device_index VK_OBJECT_TYPE_TENSOR_ARM budget tensors in
    let* (budget, images) := dedicate_preferred a device_index VK_OBJECT_TYPE_IMAGE budget images in
    let* (budget, buffers) := dedicate_preferred a device_index VK_OBJECT_TYPE_BUFFER budget buffers in
    let* (budget, tensors) := dedicate_preferred a device_index VK_OBJECT_TYPE_TENSOR_ARM budget tensors in
    Ok (result a budget images buffers tensors)
  else
    let images := map (fake_owned device_index) images in
    let buffers := map (fake_owned device_index) buffers in
    let tensors := map (fake_owned device_index) tensors in
    let* a := prepare_alias_groups a device_index images buffers tensors in
    let* images := dedicate_all a device_index VK_OBJECT_TYPE_IMAGE images in
    let* buffers := dedicate_all a device_index VK_OBJECT_TYPE_BUFFER buffers in
    let* tensors := dedicate_all a device_index VK_OBJECT_TYPE_TENSOR_ARM tensors in
    Ok (result a budget images buffers tensors).
End Create.

(** ** Sorting *)

Definition by_offset (l : list trackedobject) : Prop := StronglySorted (fun x y => obj_offset x <= obj_offset y) l.

Lemma capture_offset_less_offset x y :
  (capture_offset_less x y = true -> obj_offset x <= obj_offset y) /\
  (capture_offset_less x y = false -> obj_offset y <= obj_offset x).
Proof. unfold capture_offset_less. destruct (obj_offset x =? obj_offset y) eqn:E; cbn [negb]; split; intros H; bool_to_prop; lia. Qed.

Lemma elem_of_insert_object o l x : x ∈ insert_object o l <-> x = o \/ x ∈ l.
Proof.
  induction l as [|y l IH]; cbn [insert_object]; [rewrite list_elem_of_singleton, elem_of_nil; tauto|].
  destruct (capture_offset_less y o); rewrite !elem_of_cons; [rewrite IH; tauto|tauto].
Qed.

Lemma insert_object_sorted o l : by_offset l -> by_offset (insert_object o l).
Proof.
  induction l as [|y l IH]; intros Hs; cbn [insert_object]; [repeat constructor|].
  inversion Hs as [|? ? Hs' Hy]; subst. destruct (capture_offset_less y o) eqn:E; apply capture_offset_less_offset in E.
  - constructor; [by apply IH|]. apply List.Forall_forall. intros x Hx%list_elem_of_In%elem_of_insert_object.
    rewrite List.Forall_forall in Hy. destruct Hx as [->|Hx]; [done|by apply Hy, list_elem_of_In].
  - constructor; [done|]. constructor; [done|]. eapply Forall_impl; [exact Hy|]. simpl. lia.
Qed.

Lemma sort_objects_spec l : by_offset (sort_objects l) /\ forall x, x ∈ sort_objects l <-> x ∈ l.
Proof.
  unfold sort_objects. induction l as [|y l [IH1 IH2]]; simpl; [split; [constructor|done]|].
  split; [by apply insert_object_sorted|]. intros x. rewrite elem_of_insert_object, elem_of_cons, IH2. done.
Qed.

Lemma length_sort_objects l : length (sort_objects l) = length l.
Proof.
  assert (Hi : forall o l, length (insert_object o l) = S (length l)).
  { intros o l'. induction l' as [|y l' IH]; simpl; [done|]. destruct (capture_offset_less y o); simpl; auto. }
  unfold sort_objects. induction l as [|y l IH]; simpl; [done|]. by rewrite Hi, IH.
Qed.

(** ** The map of captured memories *)

Fixpoint assoc (m : list (Z * list trackedobject)) (k : Z) : list trackedobject :=
  match m with
  | [] => []
  | (k', l) :: rest => if k =? k' then l else assoc rest k
  end.

Definition keys_ascend (m : list (Z * list trackedobject)) : Prop := StronglySorted Z.lt (map fst m).

Lemma push_object_keys m k o x : x ∈ map fst (push_object m k o) <-> x = k \/ x ∈ map fst m.
Proof.
  induction m as [|[k' l] m IH]; cbn [push_object]; [simpl; rewrite list_elem_of_singleton, elem_of_nil; tauto|].
  destruct (k <? k'); [simpl; rewrite !elem_of_cons; tauto|].
  destruct (k =? k') eqn:E; simpl; rewrite !elem_of_cons; [bool_to_prop; subst; tauto|]. rewrite IH. tauto.
Qed.

Lemma assoc_missing m k : k ∉ map fst m -> assoc m k = [].
Proof.
  induction m as [|[k' l] m IH]; simpl; [done|]. intros [H1 H2]%not_elem_of_cons.
  rewrite (proj2 (Z.eqb_neq _ _)) by done. by apply IH.
Qed.

Lemma push_object_spec m k o :
  keys_ascend m -> keys_ascend (push_object m k o) /\
  forall k', assoc (push_object m k o) k' = if decide (k' = k) then assoc m k ++ [o] else assoc m k'.
Proof.
  unfold keys_ascend. induction m as [|[k0 l] m IH]; cbn [push_object]; intros Hs.
  - split; [repeat constructor|]. intros k'. simpl. case_decide as E; [subst; by rewrite Z.eqb_refl|].
    by rewrite (proj2 (Z.eqb_neq _ _)).
  - inversion Hs as [|? ? Hs' Hk]; subst. simpl in Hs', Hk. rewrite List.Forall_forall in Hk. destruct (k <? k0) eqn:E; bool_to_prop.
    + split.
      * constructor; [done|]. simpl. constructor; [done|]. apply List.Forall_forall. intros x Hx. specialize (Hk x Hx). lia.
      * intros k'. cbn [assoc]. case_decide as Ek.
        -- subst k'. rewrite Z.eqb_refl, (proj2 (Z.eqb_neq k k0)) by lia. rewrite assoc_missing; [done|].
           intros Hin%list_elem_of_In. specialize (Hk k Hin). lia.
        -- by rewrite (proj2 (Z.eqb_neq k' k)).
    + destruct (k =? k0) eqn:E2; bool_to_prop.
      * subst k0. split; [constructor; [done|]; by apply List.Forall_forall|]. intros k'. cbn [assoc]. rewrite Z.eqb_refl.
        case_decide as Ek; [subst; by rewrite Z.eqb_refl|]. by rewrite (proj2 (Z.eqb_neq k' k)).
      * destruct (IH Hs') as [I1 I2]. split.
        -- simpl. constructor; [done|]. apply List.Forall_forall. intros x Hx.
           apply list_elem_of_In, push_object_keys in Hx as [->|Hx]; [lia|]. by apply Hk, list_elem_of_In.
        -- intros k'. cbn [assoc]. rewrite I2. rewrite (proj2 (Z.eqb_neq k k0)) by done.
           destruct (k' =? k0) eqn:E3; bool_to_prop; [|done]. rewrite decide_False; [done|]. by subst.
Qed.

Lemma assoc_in m k o : o ∈ assoc m k -> In (k, assoc m k) m.
Proof.
  induction m as [|[k' l] m IH]; simpl; [by intros ?%elem_of_nil|].
  destruct (k =? k') eqn:E; bool_to_prop; [subst; by left|]. right. by apply IH.
Qed.

Lemma memory_objects_spec device_index images buffers tensors o :
  o ∈ images ++ buffers ++ tensors -> selected device_index o = true ->
  o ∈ assoc (memory_objects device_index images buffers tensors) (backing_index o).
Proof.
  intros Hin Hsel. unfold memory_objects.
  assert (Hf : o ∈ filter (fun o => selected device_index o = true) (images ++ buffers ++ tensors)) by (by apply list_elem_of_filter).
  revert Hf. generalize (filter (fun o => selected device_index o = true) (images ++ buffers ++ tensors)). intros l.
  assert (Hg : forall m, keys_ascend m -> o ∈ l \/ o ∈ assoc m (backing_index o) ->
    o ∈ assoc (foldl (fun m o => push_object m (backing_index o) o) m l) (backing_index o)).
  { induction l as [|x l IH]; intros m Hm H; simpl; [destruct H as [H|H]; [by apply elem_of_nil in H|done]|].
    destruct (push_object_spec m (backing_index x) x Hm) as [P1 P2]. apply IH; [done|].
    destruct H as [H|H].
    - apply elem_of_cons in H as [<-|H]; [|by left]. right. rewrite P2, decide_True by done. apply elem_of_app. right. by left.
    - right. rewrite P2. case_decide as E; [|done]. rewrite <- E. apply elem_of_app. by left. }
  intros Hf. apply Hg; [constructor|by left].
Qed.

(** ** Groups *)

(** the alias tables record member [o] at [off] in group [g] *)
Definition placed (a : alias_tables) (o : trackedobject) (g : nat) (off : Z) : Prop :=
  get_alias_lookup a (object_type o) (obj_index o) = Ok (Some (AliasLookup (Some g) off)).

Definition grows (a a' : alias_tables) : Prop :=
  (forall o g off, placed a o g off -> placed a' o g off) /\ exists more, alias_groups a' = alias_groups a ++ more.

Lemma grows_refl a : grows a a.
Proof. split; [done|]. exists []. by rewrite app_nil_r. Qed.

Lemma grows_trans a b c : grows a b -> grows b c -> grows a c.
Proof.
  intros [H1 [m1 E1]] [H2 [m2 E2]]. split; [auto|]. exists (m1 ++ m2). by rewrite E2, E1, app_assoc.
Qed.

Lemma grows_group a a' g x : grows a a' -> alias_groups a !! g = Some x -> alias_groups a' !! g = Some x.
Proof. intros [_ [m ->]] H. rewrite lookup_app_l; [done|]. by eapply lookup_lt_Some. Qed.

Lemma get_set_alias a ty i x ty' i' old :
  get_alias_lookup a ty i = Ok (Some old) ->
  get_alias_lookup (set_alias a ty i x) ty' i' = if decide (ty' = ty /\ i' = i) then Ok (Some x) else get_alias_lookup a ty' i'.
Proof.
  intros H. assert (Hl : forall (l : list alias_lookup), at_index (set_at l i x) i' =
    match at_index l i' with Some y => Some (if decide (i = i') then x else y) | None => None end) by (intros; apply at_index_set_at).
  destruct ty; try done; destruct ty'; cbn [set_alias get_alias_lookup image_alias_lookup buffer_alias_lookup tensor_alias_lookup] in *;
    try (rewrite decide_False by (by intros [? ?])); try done; rewrite Hl;
    (destruct (decide (i = i')) as [<-|Hn];
      [rewrite decide_True by done; by destruct (at_index _ i)
      |rewrite decide_False by (intros [_ E]; by apply Hn); by destruct (at_index _ i')]).
Qed.

Lemma set_alias_groups a ty i x : alias_groups (set_alias a ty i x) = alias_groups a.
Proof. by destruct ty. Qed.

(** a member of group [g], which starts at [start] and has grown to [s] *)
Definition fits (start size : Z) (o : trackedobject) : Prop :=
  (req_alignment (reqs o) | obj_offset o - start) /\ obj_offset o - start + req_size (reqs o) <= size.

Lemma add_member_spec g start s a o s' a' :
  add_member g start (s, a) o = Ok (s', a') ->
  grows a a' /\ alias_groups a' = alias_groups a /\ placed a' o g (obj_offset o - start) /\ fits start (gs_size s') o /\
  gs_size s <= gs_size s'.
Proof.
  unfold add_member. intros H. apply obind_ok_inv in H as (u & R1 & H). apply obind_ok_inv in H as (u2 & R2 & H).
  apply obind_ok_inv in H as (alias & Eal & H). apply require_ok_inv in R1. destruct alias as [[[g0|] off]|]; try done.
  injection H as <- <-. pose proof (get_set_alias a (object_type o) (obj_index o) (AliasLookup (Some g) (obj_offset o - start))) as Hset.
  split; [|split; [apply set_alias_groups|split; [|split]]].
  - split; [|exists []; by rewrite set_alias_groups, app_nil_r]. unfold placed. intros o' g' off' Hp.
    rewrite (Hset _ _ _ Eal). case_decide as Hd; [|done]. destruct Hd as [Hd1 Hd2]. rewrite Hd1, Hd2, Eal in Hp. discriminate.
  - unfold placed. by rewrite (Hset _ _ _ Eal), decide_True.
  - unfold fits. simpl. bool_to_prop. split; [|lia]. apply Z.mod_divide; [done|]. done.
  - simpl. lia.
Qed.

Lemma add_members_spec g start l : forall s a s' a',
  add_members g start (s, a) l = Ok (s', a') ->
  grows a a' /\ alias_groups a' = alias_groups a /\ gs_size s <= gs_size s' /\
  forall o, o ∈ l -> placed a' o g (obj_offset o - start) /\ fits start (gs_size s') o.
Proof.
  induction l as [|o l IH]; intros s a s' a' H; cbn [add_members] in H.
  { injection H as <- <-. split; [apply grows_refl|]. split; [done|]. split; [lia|]. by intros o ?%elem_of_nil. }
  apply obind_ok_inv in H as ([s1 a1] & H1 & H2). destruct (add_member_spec _ _ _ _ _ _ _ H1) as (A1 & A2 & A3 & A4 & A5).
  destruct (IH _ _ _ _ H2) as (B1 & B2 & B3 & B4). split; [by eapply grows_trans|]. split; [congruence|]. split; [lia|].
  intros o' [->|Ho]%elem_of_cons; [|by apply B4]. split; [by apply B1|]. destruct A4 as [A4 A6]. split; [done|lia].
Qed.

(** two objects share a group and keep their relative displacement *)
Definition grouped (a : alias_tables) (o : trackedobject) (g : nat) (x : alias_group) : Prop :=
  alias_groups a !! g = Some x /\ placed a o g (obj_offset o - capture_offset x) /\ fits (capture_offset x) (group_size x) o.

Definition together (a : alias_tables) (o1 o2 : trackedobject) : Prop :=
  exists g x, grouped a o1 g x /\ grouped a o2 g x.

Lemma grouped_grows a a' o g x : grows a a' -> grouped a o g x -> grouped a' o g x.
Proof. intros Hg (H1 & H2 & H3). split; [by eapply grows_group|]. split; [by apply Hg|done]. Qed.

Lemma together_grows a a' o1 o2 : grows a a' -> together a o1 o2 -> together a' o1 o2.
Proof. intros Hg (g & x & H1 & H2). exists g, x. split; by eapply grouped_grows. Qed.

Lemma make_group_spec a k first run a' :
  make_group a k first run = Ok a' ->
  grows a a' /\ (Forall (fun x => group_home x = None) (alias_groups a) -> Forall (fun x => group_home x = None) (alias_groups a')) /\
  forall o1 o2, o1 ∈ first :: run -> o2 ∈ first :: run -> together a' o1 o2.
Proof.
  unfold make_group. intros H. apply obind_ok_inv in H as ([s a1] & Hm & H). outcome_inv.
  destruct (add_members_spec _ _ _ _ _ _ _ Hm) as (A1 & A2 & A3 & A4). set (r := MemoryRequirements _ _ _ _ _ _ _).
  set (x := AliasGroup k (obj_offset first) (gs_size s) (gs_alignment s) r (tiling first) None).
  assert (Hpush : grows a1 (push_group a1 x)) by (split; [done|by exists [x]]).
  split; [by eapply grows_trans|]. split.
  { intros Hall. simpl. apply Forall_app. split; [by rewrite A2|by repeat constructor]. }
  intros o1 o2 H1 H2. exists (length (alias_groups a)), x.
  assert (Hx : alias_groups (push_group a1 x) !! length (alias_groups a) = Some x).
  { simpl. rewrite <- A2, lookup_app_r, Nat.sub_diag by lia. done. }
  destruct (A4 o1 H1) as [P1 F1], (A4 o2 H2) as [P2 F2]. by split.
Qed.

Lemma overlap_run_spec l : forall e run remaining,
  by_offset l -> overlap_run e l = Ok (run, remaining) ->
  l = run ++ remaining /\ exists e', e <= e' /\ (forall o, o ∈ run -> capture_end_of o <= e') /\
    (forall o, o ∈ remaining -> e' <= obj_offset o).
Proof.
  induction l as [|o l IH]; intros e run remaining Hs H; cbn [overlap_run] in H.
  { injection H as <- <-. split; [done|]. exists e. split; [lia|]. split; by intros x ?%elem_of_nil. }
  inversion Hs as [|? ? Hs' Ho]; subst. destruct (obj_offset o <? e) eqn:E; bool_to_prop.
  - apply obind_ok_inv in H as (u & R & H). apply obind_ok_inv in H as ([run' rem'] & H1 & H2). injection H2 as <- <-.
    destruct (IH _ _ _ Hs' H1) as (-> & e' & I1 & I2 & I3). split; [done|]. exists e'. split; [lia|]. split; [|done].
    intros x [->|Hx]%elem_of_cons; [lia|by apply I2].
  - injection H as <- <-. split; [done|]. exists e. split; [lia|]. split; [by intros x ?%elem_of_nil|].
    intros x [->|Hx]%elem_of_cons; [done|]. rewrite List.Forall_forall in Ho. apply list_elem_of_In in Hx. specialize (Ho x Hx). lia.
Qed.

Lemma by_offset_app l1 l2 : by_offset (l1 ++ l2) -> by_offset l2.
Proof. induction l1 as [|x l1 IH]; [done|]. intros Hs. inversion Hs; subst. by apply IH. Qed.

Lemma group_objects_spec fuel : forall a k l a',
  by_offset l -> group_objects fuel a k l = Ok a' ->
  grows a a' /\ (Forall (fun x => group_home x = None) (alias_groups a) -> Forall (fun x => group_home x = None) (alias_groups a')) /\
  forall i j o1 o2, (i < j)%nat -> l !! i = Some o1 -> l !! j = Some o2 -> obj_offset o2 < capture_end_of o1 -> together a' o1 o2.
Proof.
  induction fuel as [|fuel IH]; intros a k l a' Hs H; destruct l as [|first rest]; cbn [group_objects] in H; try done;
    try (injection H as <-; split; [apply grows_refl|split; [done|intros i j o1 o2 _ Hi; done]]).
  apply obind_ok_inv in H as (u & R & H). apply obind_ok_inv in H as ([run rem] & Hrun & H).
  apply obind_ok_inv in H as (a1 & Hgrp & H). inversion Hs as [|? ? Hs' Hfirst]; subst.
  destruct (overlap_run_spec _ _ _ _ Hs' Hrun) as (-> & e & I1 & I2 & I3).
  destruct (IH _ _ _ _ (by_offset_app _ _ Hs') H) as (B1 & B2 & B3).
  assert (Hgrp' : grows a a1 /\ (Forall (fun x => group_home x = None) (alias_groups a) -> Forall (fun x => group_home x = None) (alias_groups a1)) /\
    (run <> [] -> forall o1 o2, o1 ∈ first :: run -> o2 ∈ first :: run -> together a1 o1 o2)).
  { destruct run as [|r run]; [injection Hgrp as <-; split; [apply grows_refl|done]|].
    destruct (make_group_spec _ _ _ _ _ Hgrp) as (G1 & G2 & G3). split; [done|]. split; [done|]. intros _. exact G3. }
  destruct Hgrp' as (G1 & G2 & G3). split; [by eapply grows_trans|]. split; [auto|].
  intros i j o1 o2 Hij H1 H2 Hov. change (first :: run ++ rem) with ((first :: run) ++ rem) in H1, H2.
  assert (Hends : forall o, o ∈ first :: run -> capture_end_of o <= e) by (intros o [->|Ho]%elem_of_cons; [lia|by apply I2]).
  destruct (decide (i < length (first :: run))%nat) as [Hi|Hi].
  - rewrite lookup_app_l in H1 by done. destruct (decide (j < length (first :: run))%nat) as [Hj|Hj].
    + rewrite lookup_app_l in H2 by done. eapply together_grows; [exact B1|]. apply G3; try (by eapply list_elem_of_lookup_2).
      intros ->. simpl in *. lia.
    + rewrite lookup_app_r in H2 by lia. apply list_elem_of_lookup_2 in H2. specialize (I3 _ H2).
      apply list_elem_of_lookup_2 in H1. specialize (Hends _ H1). lia.
  - rewrite lookup_app_r in H1, H2 by lia. eapply (B3 (i - length (first :: run))%nat (j - length (first :: run))%nat); try done. lia.
Qed.

Lemma group_memories_spec m : forall a a',
  group_memories a m = Ok a' ->
  grows a a' /\ (Forall (fun x => group_home x = None) (alias_groups a) -> Forall (fun x => group_home x = None) (alias_groups a')) /\
  forall k l i j o1 o2, In (k, l) m -> (i < j)%nat -> sort_objects l !! i = Some o1 -> sort_objects l !! j = Some o2 ->
    obj_offset o2 < capture_end_of o1 -> together a' o1 o2.
Proof.
  induction m as [|[k l] m IH]; intros a a' H; cbn [group_memories] in H.
  { injection H as <-. split; [apply grows_refl|]. split; [done|]. by intros ? ? ? ? ? ? []. }
  apply obind_ok_inv in H as (a1 & H1 & H2).
  destruct (group_objects_spec _ _ _ _ _ (proj1 (sort_objects_spec l)) H1) as (A1 & A2 & A3). destruct (IH _ _ H2) as (B1 & B2 & B3).
  split; [by eapply grows_trans|]. split; [auto|]. intros k' l' i j o1 o2 [[= <- <-]|Hin] Hij Hi Hj Hov.
  - eapply together_grows; [exact B1|]. by eapply A3.
  - by eapply B3.
Qed.

(** ** Termination: the fuel is the number of objects *)

Lemma overlap_run_length l : forall e run rem, overlap_run e l = Ok (run, rem) -> (length rem <= length l)%nat.
Proof.
  induction l as [|o l IH]; intros e run rem H; cbn [overlap_run] in H; [by injection H as <- <-|].
  destruct (obj_offset o <? e); [|injection H as <- <-; simpl; lia].
  apply obind_ok_inv in H as (u & R & H). apply obind_ok_inv in H as ([r1 r2] & H1 & H2). injection H2 as <- <-.
  apply IH in H1. simpl. lia.
Qed.

Lemma overlap_run_fault l : forall e f, overlap_run e l = Fail f -> f = AbortCall.
Proof.
  induction l as [|o l IH]; intros e f H; cbn [overlap_run] in H; [done|]. destruct (obj_offset o <? e); [|done].
  apply obind_fault in H as [H|(u & _ & H)]; [by apply require_fault in H|].
  apply obind_fault in H as [H|([r1 r2] & _ & H)]; [by apply IH in H|done].
Qed.

Lemma add_members_fault g start l : forall st f, add_members g start st l = Fail f -> f = AbortCall \/ f = AssertFailed.
Proof.
  induction l as [|o l IH]; intros [s a] f H; cbn [add_members] in H; [done|].
  apply obind_fault in H as [H|(st & _ & H)]; [|by apply IH in H]. unfold add_member in H.
  apply obind_fault in H as [H|(u & _ & H)]; [left; by apply require_fault in H|].
  apply obind_fault in H as [H|(u' & _ & H)]; [left; by apply require_fault in H|].
  apply obind_fault in H as [H|(alias & _ & H)]; [left; by eapply get_alias_lookup_fault|].
  destruct alias as [[[g0|] off]|]; [injection H as <-; by right|done|injection H as <-; by right].
Qed.

Lemma group_objects_fault fuel : forall a k l f,
  (length l <= fuel)%nat -> group_objects fuel a k l = Fail f -> f = AbortCall \/ f = AssertFailed.
Proof.
  induction fuel as [|fuel IH]; intros a k l f Hl H; destruct l as [|first rest]; cbn [group_objects] in H; try done; simpl in Hl; [lia|].
  apply obind_fault in H as [H|(u & _ & H)]; [left; by apply require_fault in H|].
  apply obind_fault in H as [H|([run rem] & Hr & H)]; [left; by eapply overlap_run_fault|].
  apply obind_fault in H as [H|(a1 & _ & H)].
  - destruct run as [|r run]; [done|]. unfold make_group in H.
    apply obind_fault in H as [H|([s a1] & _ & H)]; [by eapply add_members_fault|].
    apply obind_fault in H as [H|(u' & _ & H)]; [left; by apply require_fault in H|].
    apply obind_fault in H as [H|(u'' & _ & H)]; [left; by apply require_fault in H|done].
  - apply overlap_run_length in Hr. eapply IH; [|exact H]. lia.
Qed.

Lemma prepare_fault a d images buffers tensors f :
  prepare_alias_groups a d images buffers tensors = Fail f -> f = AbortCall \/ f = AssertFailed.
Proof.
  unfold prepare_alias_groups. generalize (memory_objects d images buffers tensors). intros m. revert a.
  induction m as [|[k l] m IH]; intros a H; cbn [group_memories] in H; [done|].
  apply obind_fault in H as [H|(a1 & _ & H)]; [|by eapply IH].
  eapply group_objects_fault; [|exact H]. by rewrite length_sort_objects.
Qed.

Lemma prepare_together a d images buffers tensors a' o1 o2 :
  prepare_alias_groups a d images buffers tensors = Ok a' ->
  o1 ∈ images ++ buffers ++ tensors -> o2 ∈ images ++ buffers ++ tensors ->
  selected d o1 = true -> selected d o2 = true -> backing_index o1 = backing_index o2 -> o1 <> o2 ->
  obj_offset o1 < capture_end_of o2 -> obj_offset o2 < capture_end_of o1 -> together a' o1 o2.
Proof.
  intros H I1 I2 S1 S2 Hb Hne O1 O2. destruct (group_memories_spec _ _ _ H) as (_ & _ & Hm).
  pose proof (memory_objects_spec d images buffers tensors o1 I1 S1) as M1.
  pose proof (memory_objects_spec d images buffers tensors o2 I2 S2) as M2. rewrite <- Hb in M2.
  set (l := assoc (memory_objects d images buffers tensors) (backing_index o1)) in *.
  pose proof (assoc_in _ _ _ M1) as Hin. fold l in Hin. destruct (sort_objects_spec l) as [_ Hs].
  apply Hs, list_elem_of_lookup_1 in M1 as [i Hi]. apply Hs, list_elem_of_lookup_1 in M2 as [j Hj].
  destruct (Nat.lt_trichotomy i j) as [Hij|[->|Hij]].
  - by eapply Hm.
  - rewrite Hi in Hj. by injection Hj.
  - destruct (Hm _ _ j i o2 o1 Hin Hij Hj Hi O1) as (g & x & G1 & G2). by exists g, x.
Qed.

(** ** The state after creation *)

Lemma bound_empty images buffers tensors sessions k : bound (empty_tables images buffers tensors sessions) k = None.
Proof.
  assert (Hl : forall A (l : list A) i x, at_index (map (fun _ => no_lookup) l) i = Some x -> x = no_lookup).
  { intros A l i x. rewrite at_index_lookup, list_lookup_fmap. destruct (l !! _); simpl; [by intros [= <-]|done]. }
  destruct k as [ty i|i bp oi]; cbn [bound].
  - destruct (at_index _ i) as [x|] eqn:E; [|done]. assert (x = no_lookup); [|by subst].
    destruct ty; cbn [vec empty_tables image_lookup buffer_lookup tensor_lookup] in E; try (by eapply Hl);
      rewrite at_index_lookup in E; done.
  - cbn [empty_tables datagraphpipelinesession_lookup]. destruct (at_index _ i) as [x|] eqn:E; [|done].
    rewrite at_index_lookup in E.
    assert (x = []); [|by subst]. apply list_elem_of_lookup_2, list_elem_of_In, repeat_spec in E. done.
Qed.

(** the heap size stays below the largest allocation *)
Definition heap_size_ok (limits : device_limits) : Prop :=
  heap_size_setting limits = -1 \/ 0 <= heap_size_setting limits < MAX_ALLOCATION.

Lemma fresh_inv cfg threads images buffers tensors sessions a :
  0 <= min_heap_size cfg < MAX_ALLOCATION -> Forall (fun x => group_home x = None) (alias_groups a) ->
  inv (SuballocatorPrivate cfg (repeat [] threads) (empty_tables images buffers tensors sessions) a (Counters 0 0 0 0) [] []).
Proof.
  intros Hc Hg. set (p := SuballocatorPrivate _ _ _ _ _ _ _).
  assert (Hat : forall b, heap_at p b = None).
  { intros b. unfold heap_at. cbn [heaps_by_thread p]. destruct (repeat [] threads !! b.1) as [hs|] eqn:E; [|done].
    apply list_elem_of_lookup_2, list_elem_of_In, repeat_spec in E. by subst hs. }
  split; try (intros b h Hb; by rewrite Hat in Hb); try done.
  - intros k l Hk. change (tables p) with (empty_tables images buffers tensors sessions) in Hk. by rewrite bound_empty in Hk.
  - intros b h s Hb. by rewrite Hat in Hb.
  - unfold sessions_ok. cbn. apply List.Forall_forall. intros es ->%repeat_spec. split; [constructor|constructor].
  - intros g x b Hx Hb. rewrite List.Forall_forall in Hg. apply list_elem_of_lookup_2, list_elem_of_In in Hx. by rewrite (Hg x Hx) in Hb.
  - assert (E : held p = []); [|cbn [device_calls virtualswapmemory p]; by rewrite E]. unfold held. cbn [heaps_by_thread p].
    clear. induction threads as [|n IH]; [done|exact IH].
Qed.

Lemma prepare_homes images buffers tensors d l1 l2 l3 a' :
  prepare_alias_groups (empty_aliases images buffers tensors) d l1 l2 l3 = Ok a' ->
  Forall (fun x => group_home x = None) (alias_groups a').
Proof. intros H. destruct (group_memories_spec _ _ _ H) as (_ & Hf & _). by apply Hf. Qed.

Lemma create_inv query limits d images buffers tensors sessions threads run p i b t :
  create query limits d images buffers tensors sessions threads run = Ok (p, i, b, t) -> heap_size_ok limits -> inv p.
Proof.
  intros H Hh. unfold create in H. apply obind_ok_inv in H as (u & _ & H).
  assert (Hsize : 0 <= (if heap_size_setting limits =? -1 then default_heap_size else wrap64 (heap_size_setting limits)) < MAX_ALLOCATION).
  { destruct Hh as [->|Hh]; [done|]. rewrite (proj2 (Z.eqb_neq _ _)) by lia. unfold MAX_ALLOCATION in *.
    rewrite wrap64_small by u_lia. done. }
  destruct run; apply obind_ok_inv in H as (a & Ha & H); apply prepare_homes in Ha;
    repeat (let x := fresh "x" in apply obind_ok_inv in H as ((? & ?) & _ & H) || apply obind_ok_inv in H as (x & _ & H));
    injection H as <- <- <- <-; by apply fresh_inv.
Qed.

(** ** The allocation budget *)

Definition count (f : trackedobject -> bool) (l : list trackedobject) : Z := Z.of_nat (length (List.filter f l)).
Definition must (o : trackedobject) : bool := dedicated_allocation o && requiresDedicatedAllocation (reqs o).
Definition may (o : trackedobject) : bool := dedicated_allocation o && negb (requiresDedicatedAllocation (reqs o)).

Lemma count_cons f o l : count f (o :: l) = (if f o then 1 else 0) + count f l.
Proof. unfold count. simpl. destruct (f o); simpl; lia. Qed.

Lemma count_nonneg f l : 0 <= count f l.
Proof. unfold count. lia. Qed.

(** every object that requires an allocation of its own has one *)
Definition required_done (a : alias_tables) (d : Z) (ty : VkObjectType) (l : list trackedobject) : Prop :=
  forall o, In o l -> candidate a d ty o = Ok true -> requiresDedicatedAllocation (reqs o) = true -> dedicated_allocation o = true.

Lemma dedicate_required_spec a d ty l : forall budget budget' l',
  dedicate_required a d ty budget l = Ok (budget', l') -> 0 <= budget ->
  Forall (fun o => dedicated_allocation o = false) l ->
  budget' = Z.max 0 (budget - count must l') /\ count may l' = 0 /\ required_done a d ty l' /\
  Forall2 (fun o o' => o' = o \/ o' = set_dedicated o) l l'.
Proof.
  induction l as [|o l IH]; intros budget budget' l' H Hb Hall; cbn [dedicate_required] in H.
  { injection H as <- <-. unfold count. simpl. split; [lia|]. split; [done|]. split; [by intros o []|constructor]. }
  apply obind_ok_inv in H as (c & Hc & H). apply obind_ok_inv in H as ([b1 l1] & H1 & [= <- <-]).
  inversion Hall as [|? ? Ho Hall']; subst.
  set (take := c && requiresDedicatedAllocation (reqs o)) in *.
  destruct (IH _ _ _ H1 ltac:(destruct take, (budget =? 0) eqn:E; cbn [andb negb]; bool_to_prop; lia) Hall') as (I1 & I2 & I3 & I4).
  rewrite !count_cons. pose proof (count_nonneg must l1).
  assert (Hm : must (if take then set_dedicated o else o) = take).
  { unfold must. destruct take eqn:Et; simpl; [|by rewrite Ho]. unfold take in Et. by apply andb_true_iff in Et as [_ ->]. }
  assert (Hy : may (if take then set_dedicated o else o) = false).
  { unfold may. destruct take eqn:Et; simpl; [|by rewrite Ho]. unfold take in Et. by apply andb_true_iff in Et as [_ ->]. }
  rewrite Hm, Hy, I2. split; [|split; [done|split]].
  - rewrite I1. destruct take, (budget =? 0) eqn:E; cbn [andb negb]; bool_to_prop; lia.
  - intros x [<-|Hx] Hcand Hreq; [|by apply (I3 x)].
    assert (Hcand' : candidate a d ty o = Ok true) by (destruct take; exact Hcand).
    rewrite Hc in Hcand'. injection Hcand' as ->. unfold take in *. cbn [andb] in *.
    destruct (requiresDedicatedAllocation (reqs o)) eqn:Er; [done|congruence].
  - constructor; [destruct take; auto|done].
Qed.

Lemma dedicate_preferred_spec a d ty l : forall budget budget' l',
  dedicate_preferred a d ty budget l = Ok (budget', l') -> 0 <= budget -> required_done a d ty l ->
  0 <= budget' /\ budget' = budget - (count may l' - count may l) /\ count must l' = count must l /\
  required_done a d ty l' /\ count may l <= count may l'.
Proof.
  induction l as [|o l IH]; intros budget budget' l' H Hb Hreq; cbn [dedicate_preferred] in H.
  { injection H as <- <-. split; [lia|]. split; [lia|]. split; [done|]. split; [done|lia]. }
  apply obind_ok_inv in H as (c & Hc & H). apply obind_ok_inv in H as ([b1 l1] & H1 & [= <- <-]).
  set (take := c && negb (dedicated_allocation o) && prefersDedicatedAllocation (reqs o) && negb (budget =? 0)) in *.
  assert (Ht : take = true -> dedicated_allocation o = false /\ requiresDedicatedAllocation (reqs o) = false /\ budget <> 0).
  { unfold take. intros E. apply andb_true_iff in E as [E E4]. apply andb_true_iff in E as [E E3]. apply andb_true_iff in E as [E1 E2].
    bool_to_prop. split; [done|]. split; [|done]. destruct (requiresDedicatedAllocation (reqs o)) eqn:Er; [|done].
    rewrite (Hreq o ltac:(by left)) in E2; [done|by rewrite Hc, E1|done]. }
  destruct (IH _ _ _ H1 ltac:(destruct take; [destruct (Ht eq_refl) as (? & ? & ?)|]; lia) ltac:(intros x Hx; apply Hreq; by right))
    as (I1 & I2 & I3 & I4 & I5).
  rewrite !count_cons. destruct take.
  - destruct (Ht eq_refl) as (T1 & T2 & T3). unfold must, may in *. simpl. rewrite T1, T2. simpl.
    split; [done|]. split; [lia|]. split; [lia|]. split; [|lia].
    intros x [<-|Hx] Hcand Hr; [done|by apply (I4 x)].
  - split; [done|]. split; [lia|]. split; [lia|]. split; [|lia].
    intros x [<-|Hx] Hcand Hr; [apply Hreq; try done; by left|by apply (I4 x)].
Qed.

Lemma count_app f l1 l2 : count f (l1 ++ l2) = count f l1 + count f l2.
Proof. unfold count. rewrite List.filter_app, length_app. lia. Qed.

(** ** A device and a trace for the examples *)

#[export] Instance demo_device : Device := {
  vkAllocateMemory calls size type := Some (1000 + Z.of_nat (length calls));
  vkMapMemory calls mem := Some (mem * 65536);
  malloc calls size := 1 + Z.of_nat (length calls)
}.

#[export] Instance demo_device_laws : DeviceLaws demo_device.
Proof. split; simpl; intros; simplify_eq; lia. Qed.

Definition demo_reqs (size align : Z) : memory_requirements := MemoryRequirements size align 1 6 false false 0.
Definition demo_object (ty : VkObjectType) (index : N) (backing offset size : Z) : trackedobject :=
  TrackedObject ty index 0 backing size size offset no_requirements false 6 TILING_LINEAR false 0.

(** buffers 0 and 1 overlap in captured memory 7; image 0 lies behind them and
    buffer 2 has memory of its own *)
Definition demo_images := [demo_object VK_OBJECT_TYPE_IMAGE 0 7 512 256].
Definition demo_buffers :=
  [demo_object VK_OBJECT_TYPE_BUFFER 0 7 0 128; demo_object VK_OBJECT_TYPE_BUFFER 1 7 64 100; demo_object VK_OBJECT_TYPE_BUFFER 2 8 0 64].
Definition demo_query (o : trackedobject) : memory_requirements := demo_reqs (obj_size o) 64.
Definition demo_limits : device_limits := DeviceLimits [7] 1 4096 1024.

Definition demo_create := create demo_query demo_limits 0 demo_images demo_buffers [] 1 2 true.

Definition demo_state : suballocator_private :=
  match demo_create with
  | Ok (p, _, _, _) => p
  | Fail _ => SuballocatorPrivate (DeviceConfig 0 true [] true 0) [] (LookupTables [] [] [] []) (AliasTables [] [] [] []) (Counters 0 0 0 0) [] []
  end.

Definition demo_data (o : trackedobject) : trackedobject := set_reqs o (demo_query o).
Definition demo_image := demo_data (demo_object VK_OBJECT_TYPE_IMAGE 0 7 512 256).
Definition demo_buffer (i : N) (offset size : Z) := demo_data (demo_object VK_OBJECT_TYPE_BUFFER i 7 offset size).
Definition demo_binding : datagraph_binding := DatagraphBinding 1 0 (demo_reqs 100 32) 6 false.

Definition demo_ops : list operation :=
  [AddObject 0 11 demo_image; AddObject 1 12 (demo_buffer 0 0 128); AddObject 0 13 (demo_buffer 1 64 100);
   AddObject 0 14 (demo_buffer 2 0 64); AddSession 0 15 0 demo_binding; SelfTest; FindObject VK_OBJECT_TYPE_IMAGE 0;
   FreeObject VK_OBJECT_TYPE_IMAGE 0; FreeSession 0; VirtualSwap 2 (demo_reqs 4096 64) 1; AddSession 0 16 0 demo_binding].

Definition demo_after : suballocator_private := match run_ops demo_state demo_ops with Ok p => p | Fail _ => demo_state end.

(** ** Properties *)

(** no two objects that were not meant to alias share memory, and every place
    lies inside one live allocation *)
Definition memory_separated (p : suballocator_private) : Prop :=
  forall k1 k2 l1 l2, k1 <> k2 -> bound (tables p) k1 = Some l1 -> bound (tables p) k2 = Some l2 ->
    l_alias_member l1 = false -> home l1 = home l2 ->
    l_alias_member l2 = false /\ (l_offset l1 + l_size l1 <= l_offset l2 \/ l_offset l2 + l_size l2 <= l_offset l1).

Definition memory_inside (p : suballocator_private) : Prop :=
  forall k l, bound (tables p) k = Some l ->
    exists a h, home l = Some a /\ heap_at p a = Some h /\ h_mem h <> 0 /\
      0 <= l_offset l /\ 0 < l_size l /\ l_offset l + l_size l <= h_total h < MAX_ALLOCATION.

(** C6: from the state [create] makes, any sequence of additions, frees, lookups,
    virtual swapchains and self tests over any threads keeps the suballocator
    sound: no assertion fails, the full self test passes, objects that do not
    alias never share memory, and every object lies inside a live allocation. *)
Theorem suballocator_sound {D : Device} {laws : DeviceLaws D} (query : trackedobject -> memory_requirements)
    (limits : device_limits) (device_index : Z) (images buffers tensors : list trackedobject) (sessions threads : nat)
    (run : bool) (p : suballocator_private) (i b t : list trackedobject) (ops : list operation)
    (Hcreate : create query limits device_index images buffers tensors sessions threads run = Ok (p, i, b, t))
    (Hsize : heap_size_ok limits) (Hlegal : legal_ops p ops = true) :
  match run_ops p ops with
  | Ok p' => (exists n p'', self_test p' = Ok (n, p'')) /\ memory_separated p' /\ memory_inside p'
  | Fail f => f = AbortCall \/ f = OutOfRange
  end.
Proof.
  pose proof (create_inv _ _ _ _ _ _ _ _ _ _ _ _ _ Hcreate Hsize) as Hi. pose proof (run_ops_inv ops p Hi Hlegal) as Hr.
  destruct (run_ops p ops) as [p'|f]; [|done]. split; [|split].
  - destruct (self_test_ok p' Hr) as (n & q & E & _). by exists n, q.
  - intros k1 k2 l1 l2. by apply bound_disjoint.
  - intros k l. by apply bound_inside.
Qed.

Lemma suballocator_sound_witness :
  match run_ops demo_state demo_ops with
  | Ok p' => (exists n p'', self_test p' = Ok (n, p'')) /\ memory_separated p' /\ memory_inside p'
  | Fail f => f = AbortCall \/ f = OutOfRange
  end /\ run_ops demo_state demo_ops = Ok demo_after.
Proof.
  split; [|vm_compute; reflexivity].
  apply (suballocator_sound demo_query demo_limits 0 demo_images demo_buffers [] 1 2 true demo_state
    (match demo_create with Ok (_, i, _, _) => i | _ => [] end) (match demo_create with Ok (_, _, b, _) => b | _ => [] end) []);
    [vm_compute; reflexivity|right; unfold MAX_ALLOCATION; simpl; lia|vm_compute; reflexivity].
Defined.

(** Tearing the device down after any such sequence gives every allocation
    back to the driver exactly as often as it was made, those of retired
    dedicated heaps and virtual swapchain images included, and leaves nothing. *)
Theorem device_memory_balanced {D : Device} {laws : DeviceLaws D} (query : trackedobject -> memory_requirements)
    (limits : device_limits) (device_index : Z) (images buffers tensors : list trackedobject) (sessions threads : nat)
    (run : bool) (p p' : suballocator_private) (i b t : list trackedobject) (ops : list operation)
    (Hcreate : create query limits device_index images buffers tensors sessions threads run = Ok (p, i, b, t))
    (Hsize : heap_size_ok limits) (Hlegal : legal_ops p ops = true) (Hrun : run_ops p ops = Ok p') :
  Permutation (allocated (device_calls (destroy p'))) (freed (device_calls (destroy p'))) /\
  self_test (destroy p') = Ok (0%nat, destroy p').
Proof.
  pose proof (create_inv _ _ _ _ _ _ _ _ _ _ _ _ _ Hcreate Hsize) as Hi. pose proof (run_ops_inv ops p Hi Hlegal) as Hr.
  rewrite Hrun in Hr. split; [by apply destroy_balanced|apply destroy_empty].
Qed.

Lemma device_memory_balanced_witness :
  (Permutation (allocated (device_calls (destroy demo_after))) (freed (device_calls (destroy demo_after))) /\
   self_test (destroy demo_after) = Ok (0%nat, destroy demo_after)) /\
  length (allocated (device_calls (destroy demo_after))) = 4%nat.
Proof.
  split; [|vm_compute; reflexivity].
  apply (device_memory_balanced demo_query demo_limits 0 demo_images demo_buffers [] 1 2 true demo_state demo_after
    (match demo_create with Ok (_, i, _, _) => i | _ => [] end) (match demo_create with Ok (_, _, b, _) => b | _ => [] end) [] demo_ops);
    [vm_compute; reflexivity|right; unfold MAX_ALLOCATION; simpl; lia|vm_compute; reflexivity|vm_compute; reflexivity].
Defined.

(** Objects never move: an operation that does not free an object leaves the
    device memory, the offset and the size it is bound to as they are, whatever
    heaps the operation drains, retires or adds. *)
Theorem objects_never_move {D : Device} {laws : DeviceLaws D} (query : trackedobject -> memory_requirements)
    (limits : device_limits) (device_index : Z) (images buffers tensors : list trackedobject) (sessions threads : nat)
    (run : bool) (p q q' : suballocator_private) (i b t : list trackedobject) (ops : list operation) (op : operation) (k : key)
    (Hcreate : create query limits device_index images buffers tensors sessions threads run = Ok (p, i, b, t))
    (Hsize : heap_size_ok limits) (Hlegal : legal_ops p ops = true) (Hrun : run_ops p ops = Ok q)
    (Hop : legal q op = true) (Hstep : step q op = Ok q') (Hfree : ~ frees op k) :
  stays q q' k.
Proof.
  pose proof (create_inv _ _ _ _ _ _ _ _ _ _ _ _ _ Hcreate Hsize) as Hi. pose proof (run_ops_inv ops p Hi Hlegal) as Hr.
  rewrite Hrun in Hr. by eapply step_stays.
Qed.

Lemma objects_never_move_witness :
  let op := AddObject 0 17 demo_image in
  stays demo_after (match step demo_after op with Ok q => q | Fail _ => demo_after end) (TrackedKey VK_OBJECT_TYPE_BUFFER 2) /\
  bound (tables demo_after) (TrackedKey VK_OBJECT_TYPE_BUFFER 2) <> None.
Proof.
  intros op. split; [|vm_compute; discriminate].
  apply (objects_never_move demo_query demo_limits 0 demo_images demo_buffers [] 1 2 true demo_state demo_after _
    (match demo_create with Ok (_, i, _, _) => i | _ => [] end) (match demo_create with Ok (_, _, b, _) => b | _ => [] end) [] demo_ops op);
    [vm_compute; reflexivity|right; unfold MAX_ALLOCATION; simpl; lia|vm_compute; reflexivity|vm_compute; reflexivity
    |vm_compute; reflexivity|vm_compute; reflexivity|intros []].
Defined.

(** After an object was added, looking it up gives the memory, offset and
    size that the addition returned. *)
Theorem find_after_add {D : Device} {laws : DeviceLaws D} (query : trackedobject -> memory_requirements)
    (limits : device_limits) (device_index : Z) (images buffers tensors : list trackedobject) (sessions threads : nat)
    (run : bool) (p q q' : suballocator_private) (i b t : list trackedobject) (ops : list operation)
    (tid : nat) (native : Z) (data : trackedobject) (l : suballoc_location)
    (Hcreate : create query limits device_index images buffers tensors sessions threads run = Ok (p, i, b, t))
    (Hsize : heap_size_ok limits) (Hlegal : legal_ops p ops = true) (Hrun : run_ops p ops = Ok q)
    (Hdata : legal_add q data = true) (Hadd : add_trackedobject q tid native data = Ok (l, q')) :
  loc_size l = req_size (reqs data) /\
  exists l' q'', find_memory q' (object_type data) (obj_index data) = Ok (l', q'') /\
    loc_memory l' = loc_memory l /\ loc_offset l' = loc_offset l /\ loc_size l' = loc_size l.
Proof.
  pose proof (create_inv _ _ _ _ _ _ _ _ _ _ _ _ _ Hcreate Hsize) as Hi. pose proof (run_ops_inv ops p Hi Hlegal) as Hr.
  rewrite Hrun in Hr. pose proof (add_trackedobject_spec q tid native data Hr Hdata) as Ha. rewrite Hadd in Ha.
  destruct Ha as (A1 & _ & A2 & (x & a & h & A3 & A4 & A5 & A6 & A7 & A8 & _) & _). split; [done|].
  destruct (find_memory_found q' (object_type data) (obj_index data) x A1 A3) as (l' & q'' & E & _ & _ & _ & _ & _ & a' & h' & F1 & F2 & F3 & F4 & F5).
  exists l', q''. split; [done|]. rewrite A4 in F1. injection F1 as <-. rewrite A5 in F2. injection F2 as <-.
  repeat split; congruence.
Qed.

Lemma find_after_add_witness :
  let r := add_trackedobject demo_after 0 17 demo_image in
  let l := match r with Ok (l, _) => l | Fail _ => SuballocLocation 0 0 0 false false 0 end in
  let q' := match r with Ok (_, q) => q | Fail _ => demo_after end in
  loc_size l = req_size (reqs demo_image) /\
  exists l' q'', find_memory q' VK_OBJECT_TYPE_IMAGE 0 = Ok (l', q'') /\
    loc_memory l' = loc_memory l /\ loc_offset l' = loc_offset l /\ loc_size l' = loc_size l.
Proof.
  intros r l q'.
  apply (find_after_add demo_query demo_limits 0 demo_images demo_buffers [] 1 2 true demo_state demo_after q'
    (match demo_create with Ok (_, i, _, _) => i | _ => [] end) (match demo_create with Ok (_, _, b, _) => b | _ => [] end) [] demo_ops
    0%nat 17 demo_image l);
    [vm_compute; reflexivity|right; unfold MAX_ALLOCATION; simpl; lia|vm_compute; reflexivity|vm_compute; reflexivity
    |vm_compute; reflexivity|vm_compute; reflexivity].
Defined.

(** C38: objects that overlapped in the same captured memory are planned into one
    alias group at the same relative offsets: each place is aligned for the
    object on the replay device and lies inside the group's reservation. The
    planning always ends, in a plan or in an abort or assertion. *)
Theorem prepare_preserves_overlap (a : alias_tables) (device_index : Z) (images buffers tensors : list trackedobject) :
  match prepare_alias_groups a device_index images buffers tensors with
  | Ok a' =>
      forall o1 o2, o1 ∈ images ++ buffers ++ tensors -> o2 ∈ images ++ buffers ++ tensors -> o1 <> o2 ->
        selected device_index o1 = true -> selected device_index o2 = true -> backing_index o1 = backing_index o2 ->
        obj_offset o1 < capture_end_of o2 -> obj_offset o2 < capture_end_of o1 ->
        exists g x off1 off2, alias_groups a' !! g = Some x /\
          get_alias_lookup a' (object_type o1) (obj_index o1) = Ok (Some (AliasLookup (Some g) off1)) /\
          get_alias_lookup a' (object_type o2) (obj_index o2) = Ok (Some (AliasLookup (Some g) off2)) /\
          off2 - off1 = obj_offset o2 - obj_offset o1 /\
          off1 + req_size (reqs o1) <= group_size x /\ off2 + req_size (reqs o2) <= group_size x /\
          (req_alignment (reqs o1) | off1) /\ (req_alignment (reqs o2) | off2)
  | Fail f => f = AbortCall \/ f = AssertFailed
  end.
Proof.
  destruct (prepare_alias_groups a device_index images buffers tensors) as [a'|f] eqn:E; [|by eapply prepare_fault].
  intros o1 o2 I1 I2 Hne S1 S2 Hb O1 O2.
  destruct (prepare_together _ _ _ _ _ _ o1 o2 E I1 I2 S1 S2 Hb Hne O1 O2) as (g & x & (G1 & P1 & D1 & F1) & (_ & P2 & D2 & F2)).
  exists g, x, (obj_offset o1 - capture_offset x), (obj_offset o2 - capture_offset x).
  do 3 (split; [done|]). split; [lia|]. done.
Qed.

(** Dedicated allocations respect the device's limit: every object outside
    the groups that requires one gets one, and those that only prefer one share
    what the groups and the required ones leave of the limit less 64. *)
Theorem create_budget (query : trackedobject -> memory_requirements) (limits : device_limits) (device_index : Z)
    (images buffers tensors : list trackedobject) (sessions threads : nat) (p : suballocator_private)
    (i b t : list trackedobject)
    (Hcreate : create query limits device_index images buffers tensors sessions threads true = Ok (p, i, b, t))
    (Hnew : Forall (fun o => dedicated_allocation o = false) (images ++ buffers ++ tensors)) :
  let budget := reserve_groups (wrap32 (maxMemoryAllocationCount limits - 64)) (Z.of_nat (length (alias_groups (aliases p)))) in
  let objects := i ++ b ++ t in
  max_allocations (config p) = Z.max 0 (budget - count must objects) - count may objects /\
  0 <= max_allocations (config p) /\
  required_done (aliases p) device_index VK_OBJECT_TYPE_IMAGE i /\
  required_done (aliases p) device_index VK_OBJECT_TYPE_BUFFER b /\
  required_done (aliases p) device_index VK_OBJECT_TYPE_TENSOR_ARM t.
Proof.
  unfold create in Hcreate. apply obind_ok_inv in Hcreate as (u & _ & H). apply obind_ok_inv in H as (a & _ & H).
  apply obind_ok_inv in H as ([b1 i1] & R1 & H). apply obind_ok_inv in H as ([b2 bf1] & R2 & H).
  apply obind_ok_inv in H as ([b3 t1] & R3 & H). apply obind_ok_inv in H as ([b4 i2] & P1 & H).
  apply obind_ok_inv in H as ([b5 bf2] & P2 & H). apply obind_ok_inv in H as ([b6 t2] & P3 & H). injection H as <- <- <- <-.
  apply Forall_app in Hnew as [N1 Hnew]. apply Forall_app in Hnew as [N2 N3].
  assert (Hq : forall ty l, Forall (fun o => dedicated_allocation o = false) l ->
    Forall (fun o => dedicated_allocation o = false) (map (query_owned query device_index ty) l)).
  { intros ty l Hl. apply List.Forall_map. eapply Forall_impl; [exact Hl|]. intros o Ho. unfold query_owned. by destruct (_ || _). }
  assert (HB : 0 <= reserve_groups (wrap32 (maxMemoryAllocationCount limits - 64)) (Z.of_nat (length (alias_groups a)))).
  { unfold reserve_groups. pose proof (wrap32_range (maxMemoryAllocationCount limits - 64)). destruct (_ >=? _) eqn:E; bool_to_prop; u_lia. }
  destruct (dedicate_required_spec _ _ _ _ _ _ _ R1 HB (Hq _ _ N1)) as (A1 & A2 & A3 & _).
  destruct (dedicate_required_spec _ _ _ _ _ _ _ R2 ltac:(lia) (Hq _ _ N2)) as (B1 & B2 & B3 & _).
  destruct (dedicate_required_spec _ _ _ _ _ _ _ R3 ltac:(lia) (Hq _ _ N3)) as (C1 & C2 & C3 & _).
  destruct (dedicate_preferred_spec _ _ _ _ _ _ _ P1 ltac:(lia) A3) as (D1 & D2 & D3 & D4 & D5).
  destruct (dedicate_preferred_spec _ _ _ _ _ _ _ P2 ltac:(lia) B3) as (E1 & E2 & E3 & E4 & E5).
  destruct (dedicate_preferred_spec _ _ _ _ _ _ _ P3 ltac:(lia) C3) as (F1 & F2 & F3 & F4 & F5).
  cbn [config max_allocations aliases]. rewrite !count_app.
  pose proof (count_nonneg must i1). pose proof (count_nonneg must bf1). pose proof (count_nonneg must t1).
  split; [lia|]. split; [lia|]. done.
Qed.

Definition picky_query (o : trackedobject) : memory_requirements :=
  MemoryRequirements (obj_size o) 64 1 6 true (obj_index o =? 2)%N 0.

Lemma create_budget_witness :
  let r := create picky_query demo_limits 0 demo_images demo_buffers [] 1 2 true in
  let p := match r with Ok (p, _, _, _) => p | Fail _ => demo_state end in
  let i := match r with Ok (_, i, _, _) => i | Fail _ => [] end in
  let b := match r with Ok (_, _, b, _) => b | Fail _ => [] end in
  let budget := reserve_groups (wrap32 (4096 - 64)) (Z.of_nat (length (alias_groups (aliases p)))) in
  let objects := i ++ b ++ [] in
  (max_allocations (config p) = Z.max 0 (budget - count must objects) - count may objects /\
   0 <= max_allocations (config p) /\
   required_done (aliases p) 0 VK_OBJECT_TYPE_IMAGE i /\ required_done (aliases p) 0 VK_OBJECT_TYPE_BUFFER b /\
   required_done (aliases p) 0 VK_OBJECT_TYPE_TENSOR_ARM []) /\
  (count must objects, count may objects, budget) = (1, 1, 4031).
Proof.
  intros r p i b budget objects. split; [|vm_compute; reflexivity].
  apply (create_budget picky_query demo_limits 0 demo_images demo_buffers [] 1 2 p i b []);
    [vm_compute; reflexivity|by repeat constructor].
Defined.

(** The self test is declared [const] but marks every object it visits as
    initialized, so a lookup that would have reported a place in need of
    initialization no longer does. *)
Theorem self_test_marks_initialized :
  let added := match add_trackedobject demo_state 0 11 demo_image with Ok (_, p) => p | Fail _ => demo_state end in
  let tested := match self_test added with Ok (_, p) => p | Fail _ => demo_state end in
  let asks p := match find_memory p VK_OBJECT_TYPE_IMAGE 0 with Ok (l, _) => Some (needs_init l) | Fail _ => None end in
  asks added = Some true /\ asks tested = Some false.
Proof. split; vm_compute; reflexivity. Qed.
