(* ===== verification/Packets.v ===== *)
(** * Packets: the framing of one thread's stream (src/write.h, src/write.cpp,
    src/read.h, src/read.cpp)

    A [lava_file_writer] cuts the stream of its [file_writer] into packets: a type
    byte, the size of the whole packet, which is only known and stored when the
    packet ends, and a body. It notes a checkpoint at the first packet that begins
    in each chunk. A [lava_file_reader] steps from packet to packet, skips what a
    body leaves unread and refuses a body that reads on. The writer is written
    against what it needs of the stream below ([PacketSink]); [file_writer] is
    shown to provide it. *)

From Stdlib Require Import ZArith Lia Bool.
From Stdlib.Strings Require Import Byte.
From stdpp Require Import base numbers list.
From S2P Require Import Prelude Stream Patch FileWriter FileReader RandomAccess.

#[local] Open Scope Z_scope.

(** ** The stream a packet writer needs *)

Class PacketSink (S : Type) := {
  packet_sink :: ByteSink S;
  place : Type;
  write_later : nat -> Z -> S -> outcome (place * S);  (** [write_later_*] of an integer of that many bytes *)
  store_at : place -> list byte -> S -> outcome S;     (** [*ptr = value] *)
  thaw_sink : S -> S;
  position : S -> Z;                                   (** [uncompressed_bytes] *)
  chunk_offset : S -> Z;                               (** [current_chunk_uncompressed_offset] *)
  sink_self_test : S -> outcome unit;                  (** [file_writer::self_test] *)
  refers : S -> place -> nat -> nat -> Prop;           (** the place is that many bytes at this stream position *)
  position_law s : sink_ok s -> position s = wrap64 (Z.of_nat (length (written s)));
  later_law n v s : sink_ok s -> exists p s', write_later n v s = Ok (p, s') /\ sink_ok s' /\
    written s' = written s ++ le_encode n v /\ refers s' p n (length (written s)) /\
    forall q m i, refers s q m i -> refers s' q m i;
  refers_law bs s s' p m n : sink_ok s -> refers s p m n -> emit bs s = Ok s' -> refers s' p m n;
  store_law s p m n bs : sink_ok s -> refers s p m n -> length bs = m ->
    exists s', store_at p bs s = Ok s' /\ sink_ok s' /\ written s' = memcpy (written s) n bs /\
      forall q m' i, refers s q m' i -> refers s' q m' i;
  thaw_law s : sink_ok s -> sink_ok (thaw_sink s) /\ written (thaw_sink s) = written s
}.

Definition write_later_uint32_t {S} `{PacketSink S} : Z -> S -> outcome (place * S) := write_later 4.
Definition write_later_uint64_t {S} `{PacketSink S} : Z -> S -> outcome (place * S) := write_later 8.

(** A stream all of whose writes keep some fact, such as where a delayed value is. *)
Program Definition framed_sink {S} `{PacketSink S} (F : S -> Prop)
    (keep : forall bs s s', sink_ok s -> F s -> emit bs s = Ok s' -> F s') : ByteSink S := {|
  sink_ok s := sink_ok s /\ F s;
  written := written;
  emit := emit
|}.
Next Obligation.
  intros S H F keep bs s [Hs Hr] Hb. destruct (emit_law bs s Hs Hb) as (s' & E & Hs' & Hw).
  exists s'. split; [done|]. split; [|done]. split; [done|]. exact (keep bs s s' Hs Hr E).
Qed.

(** While a packet is open every write keeps its size field reachable. *)
Definition open_sink {S} `{PacketSink S} (p : place) (n : nat) : ByteSink S :=
  framed_sink (fun s => refers s p 4 n) (fun bs s s' Hs Hr => refers_law bs s s' p 4 n Hs Hr).

(** ** Constants (lavatube.h, containers.h) *)

Definition PACKET_VULKAN_API_CALL : Z := 2.
Definition PACKET_THREAD_BARRIER : Z := 3.
Definition CONTAINER_NULL_VALUE : Z := UINT32_MAX - 1.

Record change_source := ChangeSource {
  cs_packet : Z;
  cs_frame : Z;
  cs_thread : Z;
  cs_packet_type : Z;
  cs_call_id : Z
}.

Definition no_change : change_source := ChangeSource UINT32_MAX UINT32_MAX UINT8_MAX UINT8_MAX UINT16_MAX.

(** [change_source::self_test] *)
Definition change_source_self_test (c : change_source) : bool :=
  negb (cs_packet c =? UINT32_MAX) && negb (cs_thread c =? UINT8_MAX) &&
  (negb (cs_packet_type c =? PACKET_VULKAN_API_CALL) || negb (cs_call_id c =? UINT16_MAX)) &&
  negb (cs_frame c =? UINT32_MAX).

(** the states of a [trackable] and the one [trackedobject] adds *)
Inductive states : Set := uninitialized | initialized | created | destroyed | bound.

#[export] Instance states_eq_dec : EqDecision states.
Proof. solve_decision. Defined.

(** the part of a [trackable] that a handle carries *)
Record trackable := Trackable {
  t_index : Z;
  t_state : states;
  t_last_modified : change_source
}.

(** [framedata] *)
Record framedata := FrameData {
  start_pos : Z;
  packet_index : Z;
  global_frame : Z;
  local_frame : Z
}.

Section Bodies.
Context {S : Type} `{ByteSink S}.

Definition write_handle (t : option trackable) (s : S) : outcome S :=
  match t with
  | Some t =>
      let* _ := require (negb (bool_decide (t_state t = uninitialized)) && negb (bool_decide (t_state t = destroyed)))
                  AssertFailed in
      let* s := write_uint32_t (t_index t) s in
      let* s := write_int8_t (cs_thread (t_last_modified t)) s in
      write_uint32_t (cs_packet (t_last_modified t)) s
  | None =>
      let* s := write_uint32_t CONTAINER_NULL_VALUE s in
      let* s := write_int8_t (-1) s in
      write_uint32_t 0 s
  end.

(** the indices of a barrier, after their number *)
Fixpoint write_targets (packet_indices : list Z) (s : S) : outcome S :=
  match packet_indices with
  | [] => Ok s
  | i :: rest =>
      let* _ := require (negb (i =? UINT32_MAX)) AssertFailed in
      let* s := write_uint32_t i s in
      write_targets rest s
  end.

End Bodies.

(** ** The writer of one thread (lava_file_writer) *)

Section Writer.
Context {S : Type} `{PacketSink S}.

Record lava_file_writer := LavaFileWriter {
  stream : S;
  current : change_source;
  packet_checkpoints : list packet_checkpoint;
  checkpoint_chunk_offset : Z;
  packet_start : Z;
  packet_size : option place;
  packet_open : bool;
  frames : list framedata;
  pending_barrier : bool;
  write_output : bool
}.

Definition with_stream (w : lava_file_writer) (s : S) : lava_file_writer :=
  LavaFileWriter s (current w) (packet_checkpoints w) (checkpoint_chunk_offset w) (packet_start w) (packet_size w)
    (packet_open w) (frames w) (pending_barrier w) (write_output w).

Definition with_current (w : lava_file_writer) (c : change_source) : lava_file_writer :=
  LavaFileWriter (stream w) c (packet_checkpoints w) (checkpoint_chunk_offset w) (packet_start w) (packet_size w)
    (packet_open w) (frames w) (pending_barrier w) (write_output w).

Definition with_open (w : lava_file_writer) (start : Z) (size : option place) (is_open : bool) : lava_file_writer :=
  LavaFileWriter (stream w) (current w) (packet_checkpoints w) (checkpoint_chunk_offset w) start size
    is_open (frames w) (pending_barrier w) (write_output w).

Definition with_checkpoint (w : lava_file_writer) (c : packet_checkpoint) (offset : Z) : lava_file_writer :=
  LavaFileWriter (stream w) (current w) (packet_checkpoints w ++ [c]) offset (packet_start w) (packet_size w)
    (packet_open w) (frames w) (pending_barrier w) (write_output w).

Definition with_frames (w : lava_file_writer) (l : list framedata) : lava_file_writer :=
  LavaFileWriter (stream w) (current w) (packet_checkpoints w) (checkpoint_chunk_offset w) (packet_start w)
    (packet_size w) (packet_open w) l (pending_barrier w) (write_output w).

Definition with_pending (w : lava_file_writer) (b : bool) : lava_file_writer :=
  LavaFileWriter (stream w) (current w) (packet_checkpoints w) (checkpoint_chunk_offset w) (packet_start w)
    (packet_size w) (packet_open w) (frames w) b (write_output w).

Definition next_packet (c : change_source) : change_source :=
  ChangeSource (wrap32 (cs_packet c + 1)) (cs_frame c) (cs_thread c) (cs_packet_type c) (cs_call_id c).

Definition in_packet (c : change_source) (type : Z) : change_source :=
  ChangeSource (cs_packet c) (cs_frame c) (cs_thread c) type
    (if type =? PACKET_VULKAN_API_CALL then cs_call_id c else UINT16_MAX).

(** a thread number is narrowed to the byte [change_source::thread] *)
Definition new_lava_file_writer (s : S) (tid : Z) (output : bool) : lava_file_writer :=
  LavaFileWriter s (ChangeSource 0 UINT32_MAX (wrap 8 tid) UINT8_MAX UINT16_MAX) [] 0 0 None false [] false output.

(** a write of the base class *)
Definition writing (wr : S -> outcome S) (w : lava_file_writer) : outcome lava_file_writer :=
  let* s := wr (stream w) in Ok (with_stream w s).

Definition end_packet (w : lava_file_writer) : outcome lava_file_writer :=
  if negb (packet_open w) then Ok w
  else match packet_size w with
  | None => Fail AssertFailed
  | Some p =>
      let size := wrap64 (position (stream w) - packet_start w) in
      let* _ := require (negb (size >? UINT32_MAX)) AbortCall in
      let* s := store_at p (le_encode 4 (wrap32 size)) (stream w) in
      let w := with_open (with_stream w (thaw_sink s)) (packet_start w) None false in
      Ok (with_current w (next_packet (current w)))
  end.

Definition begin_packet (type : Z) (w : lava_file_writer) : outcome lava_file_writer :=
  let* w := end_packet w in
  let offset := chunk_offset (stream w) in
  let w :=
    if Nat.eqb (length (packet_checkpoints w)) 0 || (offset >? checkpoint_chunk_offset w) then
      with_checkpoint w (PacketCheckpoint (cs_packet (current w)) (position (stream w))) offset
    else w in
  let w := with_current w (in_packet (current w) type) in
  let start := position (stream w) in
  let* w := writing (write_uint8_t type) w in
  let* (p, s) := write_later_uint32_t 0 (stream w) in
  Ok (with_open (with_stream w s) start (Some p) true).

Definition write_thread_barrier (packet_indices : list Z) (w : lava_file_writer) : outcome lava_file_writer :=
  let n := Z.of_nat (length packet_indices) in
  let* _ := require (n <=? UINT8_MAX) AssertFailed in
  let* w := begin_packet PACKET_THREAD_BARRIER w in
  let* w := writing (write_uint8_t n) w in
  let* w := writing (write_targets packet_indices) w in
  end_packet w.

(** [thread_streams] stands for the current packets of all writers *)
Definition inject_thread_barrier (thread_streams : list Z) (w : lava_file_writer) : outcome lava_file_writer :=
  write_thread_barrier thread_streams w.

Definition write_api_command (output_thread_barriers : bool) (thread_streams : list Z) (id : Z)
    (w : lava_file_writer) : outcome lava_file_writer :=
  let* w :=
    if (negb (write_output w) || output_thread_barriers) && pending_barrier w then
      let* w := inject_thread_barrier thread_streams w in
      Ok (with_pending w false)
    else Ok w in
  let* w := begin_packet PACKET_VULKAN_API_CALL w in
  let* w := writing (write_uint16_t id) w in
  writing (write_uint32_t 0) w.

(** [streams_then] are the current packets when the command itself is written *)
Definition write_header (output_thread_barriers : bool) (streams_first streams_then : list Z) (thread_barrier : bool)
    (id frame : Z) (w : lava_file_writer) : outcome lava_file_writer :=
  let* w :=
    if thread_barrier && (negb (write_output w) || output_thread_barriers) then inject_thread_barrier streams_first w
    else Ok w in
  let* w := write_api_command output_thread_barriers streams_then id w in
  let c := current w in
  Ok (with_current w (ChangeSource (cs_packet c) frame (cs_thread c) (cs_packet_type c) id)).

Definition new_frame (global : Z) (w : lava_file_writer) : outcome lava_file_writer :=
  let c := current w in
  let data := FrameData (position (stream w)) (cs_packet c) global (cs_frame c) in
  let* _ := require (to_signed 32 (cs_frame c) <=? global) AssertFailed in
  let c' := ChangeSource (cs_packet c) (wrap32 (cs_frame c + 1)) (cs_thread c) (cs_packet_type c) (cs_call_id c) in
  let w := with_current (with_frames w (frames w ++ [data])) c' in
  let* _ := sink_self_test (stream w) in
  Ok w.

End Writer.
Arguments lava_file_writer S {_}.

(** ** What the stream holds *)

Definition packet : Type := (Z * list byte)%type.

Definition packet_bytes (p : packet) : list byte :=
  le_encode 1 p.1 ++ le_encode 4 (5 + Z.of_nat (length p.2)) ++ p.2.

Definition stream_of (l : list packet) : list byte := concat (map packet_bytes l).

Definition close (done : list packet) (open : option packet) : list packet :=
  match open with Some p => done ++ [p] | None => done end.

Definition open_bytes (open : option packet) : list byte :=
  match open with Some p => le_encode 1 p.1 ++ le_encode 4 0 ++ p.2 | None => [] end.

(** sizes and counters stay within their width *)
Definition fits (l : list packet) : Prop :=
  Forall (fun p => 5 + Z.of_nat (length p.2) <= UINT32_MAX) l /\
  Z.of_nat (length (stream_of l)) <= UINT64_MAX /\ Z.of_nat (length l) <= UINT32_MAX.

Lemma stream_of_app l1 l2 : stream_of (l1 ++ l2) = stream_of l1 ++ stream_of l2.
Proof. unfold stream_of. by rewrite map_app, concat_app. Qed.

Lemma stream_of_one p : stream_of [p] = packet_bytes p.
Proof. unfold stream_of. cbn [map concat]. apply app_nil_r. Qed.

Lemma length_packet_bytes p : length (packet_bytes p) = (5 + length p.2)%nat.
Proof. unfold packet_bytes. rewrite !length_app, !length_le_encode. lia. Qed.

Lemma length_stream_take l i j :
  (i < j)%nat -> (i < length l)%nat -> (length (stream_of (take i l)) < length (stream_of (take j l)))%nat.
Proof.
  revert i j; induction l as [|p l IH]; intros i j Hij Hi; simpl in Hi; [lia|].
  destruct j as [|j]; [lia|].
  destruct i as [|i]; unfold stream_of; cbn [map concat take firstn length]; rewrite ?length_app, ?length_packet_bytes; [lia|].
  specialize (IH i j ltac:(lia) ltac:(lia)). unfold stream_of in IH. lia.
Qed.

Lemma length_stream_take_le l i : (length (stream_of (take i l)) <= length (stream_of l))%nat.
Proof.
  rewrite <- (take_drop i l) at 2. rewrite stream_of_app, length_app. lia.
Qed.

Lemma fits_prefix l1 l2 : fits (l1 ++ l2) -> fits l1.
Proof.
  intros (H1 & H2 & H3). rewrite stream_of_app, length_app in H2. rewrite length_app in H3.
  apply Forall_app in H1 as [H1 _]. split; [done|lia].
Qed.

(** a checkpoint names a packet and the position it starts at *)
Definition starts_packet (l : list packet) (c : packet_checkpoint) : Prop :=
  exists k, (k < length l)%nat /\ cp_packet c = Z.of_nat k /\
    cp_position c = Z.of_nat (length (stream_of (take k l))).

Lemma starts_packet_app l l' c : starts_packet l c -> starts_packet (l ++ l') c.
Proof.
  intros (k & Hk & Hp & Hs). exists k. rewrite length_app, take_app_le by lia. split; [lia|done].
Qed.

Lemma starts_packet_total l c : starts_packet l c -> 0 <= cp_position c < Z.of_nat (length (stream_of l)).
Proof.
  intros (k & Hk & _ & ->). pose proof (length_stream_take l k (length l) Hk Hk) as H.
  rewrite (firstn_all l) in H. lia.
Qed.

Section WriterInvariant.
Context {S : Type} `{PacketSink S}.

Record packet_inv (w : lava_file_writer S) (done : list packet) (open : option packet) : Prop := {
  pi_ok : sink_ok (stream w);
  pi_stream : written (stream w) = stream_of done ++ open_bytes open;
  pi_packet : cs_packet (current w) = wrap32 (Z.of_nat (length done));
  pi_open : match open with
            | None => packet_open w = false
            | Some p => packet_open w = true /\ packet_start w = Z.of_nat (length (stream_of done)) /\
                exists pl, packet_size w = Some pl /\ refers (stream w) pl 4 (length (stream_of done) + 1)
            end;
  pi_increasing : increasing (packet_checkpoints w);
  pi_starts : Forall (starts_packet (close done open)) (packet_checkpoints w);
  pi_first : match packet_checkpoints w with
             | [] => close done open = []
             | c :: _ => cp_packet c = 0 /\ cp_position c = 0
             end
}.

Lemma new_lava_writer_inv s tid output :
  sink_ok s -> written s = [] -> packet_inv (new_lava_file_writer s tid output) [] None.
Proof. intros Hs Hw. split; simpl; try done. Qed.

(** what an operation on the packets leaves alone *)
Definition same_settings (w w' : lava_file_writer S) : Prop :=
  pending_barrier w' = pending_barrier w /\ write_output w' = write_output w /\ frames w' = frames w /\
  cs_thread (current w') = cs_thread (current w) /\ cs_frame (current w') = cs_frame (current w).

Lemma memcpy_size_field (a b c : list byte) (bytes : list byte) :
  length bytes = length b -> memcpy (a ++ b ++ c) (length a) bytes = a ++ bytes ++ c.
Proof.
  intros Hl. replace (length a) with (length a + 0)%nat by lia.
  rewrite (memcpy_inside a b c bytes 0) by lia. do 2 f_equal.
  apply list_eq. intros i. rewrite memcpy_lookup by lia. case_decide as Hi.
  - f_equal. lia.
  - rewrite !(proj2 (lookup_ge_None _ _)) by lia. done.
Qed.

Lemma end_packet_spec w done open :
  packet_inv w done open -> fits (close done open) ->
  exists w', end_packet w = Ok w' /\ packet_inv w' (close done open) None /\ same_settings w w'.
Proof.
  intros Hi Hf. destruct open as [[ty body]|].
  2:{ exists w. unfold end_packet. rewrite (pi_open _ _ _ Hi). by split. }
  destruct Hi as [I1 I2 I3 (I4 & I5 & pl & I6 & I7) I8 I9 I10]. cbn [open_bytes close fst snd] in *.
  destruct Hf as (F1 & F2 & F3). apply Forall_app in F1 as [_ F1]. inversion F1 as [|? ? F1' _]; subst. cbn [snd] in F1'.
  unfold end_packet. rewrite I4, I6. cbn [negb].
  assert (Hlen : length (written (stream w)) = (length (stream_of done) + (5 + length body))%nat)
    by (rewrite I2, !length_app, !length_le_encode; lia).
  rewrite stream_of_app, stream_of_one, length_app, length_packet_bytes in F2. cbn [snd] in F2.
  assert (Hsize : wrap64 (position (stream w) - packet_start w) = 5 + Z.of_nat (length body)).
  { rewrite (position_law _ I1), Hlen, I5. rewrite (wrap64_small (Z.of_nat _)) by u_lia. rewrite wrap64_small by u_lia. lia. }
  rewrite Hsize, Z.gtb_ltb, (proj2 (Z.ltb_ge _ _)) by lia. cbn [negb obind require].
  destruct (store_law _ pl 4 _ (le_encode 4 (wrap32 (5 + Z.of_nat (length body)))) I1 I7 (length_le_encode _ _))
    as (s & E & Hs & Hw & _). rewrite E. cbn [obind]. eexists. split; [reflexivity|]. split; [|done].
  destruct (thaw_law s Hs) as [Ht1 Ht2].
  split; try done; simpl.
  - rewrite Ht2, Hw, I2. rewrite stream_of_app, stream_of_one, app_nil_r. unfold packet_bytes. cbn [fst snd].
    rewrite (app_assoc (stream_of done)).
    replace (length (stream_of done) + 1)%nat with (length (stream_of done ++ le_encode 1 ty))
      by (rewrite length_app, length_le_encode; done).
    rewrite memcpy_size_field by (by rewrite !length_le_encode). rewrite <- app_assoc.
    rewrite wrap32_small by u_lia. done.
  - rewrite I3, length_app. simpl. unfold wrap32, wrap. rewrite Zplus_mod_idemp_l. f_equal. lia.
Qed.

Lemma begin_packet_spec w done open ty :
  packet_inv w done open -> fits (close done open) ->
  exists w', begin_packet ty w = Ok w' /\ packet_inv w' (close done open) (Some (ty, [])) /\ same_settings w w'.
Proof.
  intros Hi Hf. destruct (end_packet_spec w done open Hi Hf) as (w1 & E & Hi1 & Hset).
  unfold begin_packet. rewrite E. cbn [obind]. set (l := close done open) in *.
  destruct Hf as (F1 & F2 & F3). destruct Hi1 as [I1 I2 I3 I4 I5 I6 I7]. simpl in I2, I6, I7.
  rewrite app_nil_r in I2.
  assert (Hpos : position (stream w1) = Z.of_nat (length (stream_of l)))
    by (rewrite (position_law _ I1), I2; apply wrap64_small; u_lia).
  set (w2 := if Nat.eqb _ _ || _ then _ else w1).
  assert (Hw2 : stream w2 = stream w1 /\ current w2 = current w1 /\ same_settings w1 w2 /\
    increasing (packet_checkpoints w2) /\
    (forall body, Forall (starts_packet (l ++ [(ty, body)])) (packet_checkpoints w2)) /\
    match packet_checkpoints w2 with [] => False | c :: _ => cp_packet c = 0 /\ cp_position c = 0 end).
  { assert (Hmore : forall body, Forall (starts_packet (l ++ [(ty, body)])) (packet_checkpoints w1))
      by (intros body; eapply Forall_impl; [exact I6|]; intros c; apply starts_packet_app).
    unfold w2. destruct (Nat.eqb (length (packet_checkpoints w1)) 0 || _) eqn:Ecp.
    2:{ do 3 (split; [done|]). split; [done|]. split; [done|]. destruct (packet_checkpoints w1); [|done].
        by simpl in Ecp. }
    set (c := PacketCheckpoint (cs_packet (current w1)) (position (stream w1))).
    assert (Hc : cp_packet c = Z.of_nat (length l) /\ cp_position c = Z.of_nat (length (stream_of l))).
    { simpl. rewrite Hpos, I3, wrap32_small by u_lia. done. }
    clearbody c. do 3 (split; [done|]). simpl. split; [|split].
    - apply increasing_snoc; [done|]. unfold previous_ok.
      destruct (last (packet_checkpoints w1)) as [c0|] eqn:El; [|done].
      apply last_Some_elem_of, list_elem_of_In in El. rewrite Forall_forall in I6.
      destruct (I6 c0 ltac:(by apply list_elem_of_In)) as (k & Hk & Hp & Hs).
      pose proof (length_stream_take l k (length l) Hk Hk) as Hlt. rewrite (firstn_all l) in Hlt.
      destruct Hc as [-> ->]. rewrite Hp, Hs. rewrite !(proj2 (Z.leb_gt _ _)) by lia. done.
    - intros body. apply Forall_app. split; [done|]. repeat constructor.
      exists (length l). destruct Hc as [-> ->]. rewrite length_app, take_app_length. simpl. split; [lia|done].
    - destruct (packet_checkpoints w1) as [|c0 cps]; [|done]. simpl. destruct Hc as [-> ->].
      rewrite I7. done. }
  clearbody w2. destruct Hw2 as (W1 & W2 & W3 & W4 & W5 & W6).
  unfold writing, write_uint8_t, write_value. cbn [stream with_current]. rewrite W1, Hpos.
  destruct (emit_law (le_encode 1 ty) (stream w1) I1) as (s1 & E1 & Hs1 & Hwr1).
  { rewrite length_le_encode. u_lia. }
  rewrite E1. cbn [obind stream with_stream].
  unfold write_later_uint32_t.
  destruct (later_law 4 0 s1 Hs1) as (pl & s2 & E2 & Hs2 & Hwr2 & Href & _). rewrite E2. cbn [obind].
  eexists. split; [reflexivity|]. split.
  - split; simpl; try done.
    + rewrite Hwr2, Hwr1, I2, <- app_assoc. done.
    + by rewrite W2.
    + split; [done|]. split; [done|]. exists pl. split; [done|].
      rewrite Hwr1, I2, length_app, length_le_encode in Href. exact Href.
    + by destruct (packet_checkpoints w2).
  - destruct Hset as (S1 & S2 & S3 & S4 & S5), W3 as (T1 & T2 & T3 & T4 & T5).
    repeat split; simpl; rewrite ?W2; congruence.
Qed.

(** bytes appended to the stream while a packet is open belong to its body *)
Lemma appended_inv w done ty body bs s :
  packet_inv w done (Some (ty, body)) -> sink_ok s -> written s = written (stream w) ++ bs ->
  (forall pl n, packet_size w = Some pl -> refers (stream w) pl 4 n -> refers s pl 4 n) ->
  packet_inv (with_stream w s) done (Some (ty, body ++ bs)).
Proof.
  intros [I1 I2 I3 (I4 & I5 & pl & I6 & I7) I8 I9 I10] Hs Hw Hr. split; simpl; try done.
  - rewrite Hw, I2. simpl. by rewrite <- !app_assoc.
  - split; [done|]. split; [done|]. exists pl. auto.
  - eapply Forall_impl; [exact I9|]. intros c (k & Hk & Hp & Hs'). exists k. simpl in *.
    rewrite length_app in *. simpl in *. rewrite take_app_le in Hs' |- * by lia. done.
  - destruct (packet_checkpoints w); [|done]. by destruct done.
Qed.

Lemma writing_spec w done ty body wr bs :
  packet_inv w done (Some (ty, body)) -> (forall p n, emits (H := open_sink p n) wr bs) ->
  exists w', writing wr w = Ok w' /\ packet_inv w' done (Some (ty, body ++ bs)) /\ same_settings w w'.
Proof.
  intros Hi Hwr. pose proof Hi as [I1 I2 I3 (I4 & I5 & pl & I6 & I7) I8 I9 I10].
  destruct (Hwr pl _ (stream w) (conj I1 I7)) as (s & E & [Hs1 Hs2] & Hw). unfold writing. rewrite E. cbn [obind].
  eexists. split; [reflexivity|]. split; [|done]. apply appended_inv; [done|done|done|].
  intros pl' n Hpl Hn. rewrite I6 in Hpl. injection Hpl as <-.
  destruct (Hwr pl n (stream w) (conj I1 Hn)) as (s' & E' & [_ Hs'] & _). congruence.
Qed.
End WriterInvariant.

(** ** Packet contents *)

Definition encode_handle (t : option trackable) : list byte :=
  match t with
  | Some t => le_encode 4 (t_index t) ++ le_encode 1 (wrap 8 (cs_thread (t_last_modified t))) ++
              le_encode 4 (cs_packet (t_last_modified t))
  | None => le_encode 4 CONTAINER_NULL_VALUE ++ le_encode 1 (wrap 8 (-1)) ++ le_encode 4 0
  end.

Definition usable (t : option trackable) : bool :=
  match t with
  | Some t => negb (bool_decide (t_state t = uninitialized)) && negb (bool_decide (t_state t = destroyed))
  | None => true
  end.

Lemma emits_require {S} `{ByteSink S} b f : b = true -> emits (fun s : S => let* _ := require b f in Ok s) [].
Proof. intros ->. apply emits_ret. Qed.

Lemma emits_handle {S} `{ByteSink S} t : usable t = true -> emits (write_handle t) (encode_handle t).
Proof.
  intros Hu. destruct t as [t|]; unfold write_handle, encode_handle.
  - simpl in Hu. rewrite Hu. cbn [obind require].
    apply emits_bind; [apply emits_value; lia|]. apply emits_bind; apply emits_value; lia.
  - apply emits_bind; [apply emits_value; lia|]. apply emits_bind; apply emits_value; lia.
Qed.

Definition encode_targets (l : list Z) : list byte := concat (map (le_encode 4) l).

Definition barrier_packet (l : list Z) : packet :=
  (PACKET_THREAD_BARRIER, le_encode 1 (Z.of_nat (length l)) ++ encode_targets l).

Definition valid_targets (l : list Z) : Prop :=
  Z.of_nat (length l) <= UINT8_MAX /\ Forall (fun i => 0 <= i < UINT32_MAX) l.

Lemma emits_targets {S} `{ByteSink S} l :
  Forall (fun i => 0 <= i < UINT32_MAX) l -> emits (write_targets l) (encode_targets l).
Proof.
  induction l as [|i l IH]; intros Hl; [apply emits_ret|]. inversion Hl; subst. cbn [write_targets].
  rewrite (proj2 (Z.eqb_neq i UINT32_MAX)) by lia. cbn [negb obind require].
  unfold encode_targets. cbn [map concat]. apply emits_bind; [apply emits_value; lia|by apply IH].
Qed.

(** ** Scripts of a thread: what it writes and the packets it should have written *)

Section Script.
Context {S : Type} `{PacketSink S}.

Inductive packet_op :=
  | Begin (type : Z) (wr : S -> outcome S) (bs : list byte)
  | Command (thread_barrier : bool) (streams_first streams_then : list Z) (id frame : Z)
      (wr : S -> outcome S) (bs : list byte)
  | Append (wr : S -> outcome S) (bs : list byte)
  | End
  | Pushed.   (** another thread's [push_thread_barriers] *)

Definition do_packet_op (w : lava_file_writer S) (o : packet_op) : outcome (lava_file_writer S) :=
  match o with
  | Begin type wr _ => let* w := begin_packet type w in writing wr w
  | Command tb s1 s2 id frame wr _ => let* w := write_header false s1 s2 tb id frame w in writing wr w
  | Append wr _ => writing wr w
  | End => end_packet w
  | Pushed => Ok (with_pending w true)
  end.

Fixpoint run_script (ops : list packet_op) (w : lava_file_writer S) : outcome (lava_file_writer S) :=
  match ops with
  | [] => Ok w
  | o :: ops' => let* w := do_packet_op w o in run_script ops' w
  end.

(** finished packets, the open one, and whether a barrier is due *)
Definition progress : Type := (list packet * option packet * bool)%type.

Definition all_packets (st : progress) : list packet := close st.1.1 st.1.2.

Definition api_packet (id : Z) (bs : list byte) : packet :=
  (PACKET_VULKAN_API_CALL, le_encode 2 id ++ le_encode 4 0 ++ bs).

Definition spec_op (o : packet_op) (st : progress) : progress :=
  let '(done, open, due) := st in
  match o with
  | Begin type _ bs => (close done open, Some (type, bs), due)
  | Command tb s1 s2 id _ _ bs =>
      (close done open ++ (if tb then [barrier_packet s1] else []) ++ (if due then [barrier_packet s2] else []),
       Some (api_packet id bs), false)
  | Append _ bs => (done, option_map (fun p => (p.1, p.2 ++ bs)) open, due)
  | End => (close done open, None, due)
  | Pushed => (done, open, true)
  end.

Definition script_packets (ops : list packet_op) : list packet :=
  all_packets (foldl (fun st o => spec_op o st) ([], None, false) ops).

(** a body writer appends its bytes to whatever packet is open *)
Definition body_writer (wr : S -> outcome S) (bs : list byte) : Prop :=
  forall p n, emits (H := open_sink p n) wr bs.

Definition op_ok (o : packet_op) (st : progress) : Prop :=
  match o with
  | Begin type wr bs => body_writer wr bs
  | Command tb s1 s2 _ _ wr bs => valid_targets s1 /\ valid_targets s2 /\ body_writer wr bs
  | Append wr bs => body_writer wr bs /\ st.1.2 <> None
  | End | Pushed => True
  end.

Fixpoint legal (ops : list packet_op) (st : progress) : Prop :=
  fits (all_packets st) /\
  match ops with
  | [] => True
  | o :: ops' => op_ok o st /\ legal ops' (spec_op o st)
  end.

Lemma writing_value n z w done ty body :
  packet_inv w done (Some (ty, body)) -> (n <= 8)%nat ->
  exists w', writing (write_value n z) w = Ok w' /\ packet_inv w' done (Some (ty, body ++ le_encode n z)) /\
    same_settings w w'.
Proof.
  intros Hi Hn. apply (writing_spec w done ty body _ _ Hi). intros p k. exact (@emits_value _ (open_sink p k) n z Hn).
Qed.

Lemma writing_targets l w done ty body :
  packet_inv w done (Some (ty, body)) -> Forall (fun i => 0 <= i < UINT32_MAX) l ->
  exists w', writing (write_targets l) w = Ok w' /\ packet_inv w' done (Some (ty, body ++ encode_targets l)) /\
    same_settings w w'.
Proof.
  intros Hi Hl. apply (writing_spec w done ty body _ _ Hi). intros p k. exact (@emits_targets _ (open_sink p k) l Hl).
Qed.

Lemma thread_barrier_spec l w done open :
  packet_inv w done open -> valid_targets l -> fits (close done open ++ [barrier_packet l]) ->
  exists w', write_thread_barrier l w = Ok w' /\ packet_inv w' (close done open ++ [barrier_packet l]) None /\
    same_settings w w'.
Proof.
  intros Hi [Hn Hl] Hf. unfold write_thread_barrier, write_uint8_t. rewrite (proj2 (Z.leb_le _ _)) by done. cbn [obind require].
  destruct (begin_packet_spec w done open PACKET_THREAD_BARRIER Hi (fits_prefix _ _ Hf)) as (w1 & -> & Hi1 & S1).
  cbn [obind].
  destruct (writing_value 1 (Z.of_nat (length l)) w1 _ _ _ Hi1 ltac:(lia)) as (w2 & -> & Hi2 & S2). cbn [obind].
  destruct (writing_targets l w2 _ _ _ Hi2 Hl) as (w3 & -> & Hi3 & S3). cbn [obind].
  destruct (end_packet_spec w3 _ _ Hi3 Hf) as (w4 & -> & Hi4 & S4). exists w4. split; [done|]. split; [done|].
  unfold same_settings in *. intuition (simpl in *; congruence).
Qed.

Lemma with_pending_inv w done open b : packet_inv w done open -> packet_inv (with_pending w b) done open.
Proof. intros []. by split. Qed.

Lemma with_current_inv w done open c :
  packet_inv w done open -> cs_packet c = cs_packet (current w) -> packet_inv (with_current w c) done open.
Proof. intros [] Hc. split; auto. simpl. congruence. Qed.

Lemma api_command_spec s2 id w done open :
  packet_inv w done open -> write_output w = false -> valid_targets s2 ->
  let done' := close done open ++ (if pending_barrier w then [barrier_packet s2] else []) in
  fits done' ->
  exists w', write_api_command false s2 id w = Ok w' /\ packet_inv w' done' (Some (api_packet id [])) /\
    pending_barrier w' = false /\ write_output w' = false.
Proof.
  intros Hi Ho Hs done' Hf. unfold write_api_command, write_uint16_t, write_uint32_t. rewrite Ho. cbn [negb orb andb].
  assert (Hbar : exists w1 open1, (if pending_barrier w then
      let* w := inject_thread_barrier s2 w in Ok (with_pending w false) else Ok w) = Ok w1 /\
    packet_inv w1 (if pending_barrier w then done' else done) open1 /\
    close (if pending_barrier w then done' else done) open1 = done' /\
    pending_barrier w1 = false /\ write_output w1 = false).
  { unfold done' in *. destruct (pending_barrier w) eqn:Ep.
    - destruct (thread_barrier_spec s2 w done open Hi Hs Hf) as (w1 & E & Hi1 & S1). unfold inject_thread_barrier.
      rewrite E. cbn [obind]. exists (with_pending w1 false), None. split; [done|].
      split; [by apply with_pending_inv|]. split; [done|]. split; [done|]. destruct S1 as (_ & S1 & _). simpl. congruence.
    - exists w, open. rewrite app_nil_r. auto. }
  destruct Hbar as (w1 & open1 & -> & Hi1 & Hc & Hp1 & Ho1). cbn [obind].
  destruct (begin_packet_spec w1 _ open1 PACKET_VULKAN_API_CALL Hi1 ltac:(by rewrite Hc)) as (w2 & -> & Hi2 & S2).
  rewrite Hc in Hi2. cbn [obind].
  destruct (writing_value 2 id w2 _ _ _ Hi2 ltac:(lia)) as (w3 & -> & Hi3 & S3). cbn [obind].
  destruct (writing_value 4 0 w3 _ _ _ Hi3 ltac:(lia)) as (w4 & -> & Hi4 & S4).
  exists w4. split; [done|]. split; [exact Hi4|]. unfold same_settings in *. intuition (simpl in *; congruence).
Qed.

Lemma fits_all_done st : fits (all_packets st) -> fits st.1.1.
Proof. destruct st as [[dn [p|]] due]; [apply fits_prefix|done]. Qed.

Lemma packet_op_spec o st w :
  packet_inv w st.1.1 st.1.2 -> pending_barrier w = st.2 -> write_output w = false ->
  fits (all_packets st) -> op_ok o st -> fits (all_packets (spec_op o st)) ->
  exists w', do_packet_op w o = Ok w' /\ packet_inv w' (spec_op o st).1.1 (spec_op o st).1.2 /\
    pending_barrier w' = (spec_op o st).2 /\ write_output w' = false.
Proof.
  destruct st as [[done open] due]. intros Hi Hp Ho Hf Hok Hf'. cbn [fst snd] in *.
  destruct o as [type wr bs|tb s1 s2 id frame wr bs|wr bs| |]; cbn [do_packet_op spec_op fst snd op_ok] in *.
  - destruct (begin_packet_spec w done open type Hi Hf) as (w1 & -> & Hi1 & S1). cbn [obind].
    destruct (writing_spec w1 _ _ _ wr bs Hi1 Hok) as (w2 & -> & Hi2 & S2). exists w2. split; [done|].
    split; [done|]. unfold same_settings in *. intuition (simpl in *; congruence).
  - destruct Hok as (V1 & V2 & Hwr). apply fits_all_done in Hf'. cbn [fst] in Hf'. unfold write_header. rewrite Ho.
    cbn [negb orb]. rewrite andb_true_r.
    assert (Hbar : exists w1 done1 open1, (if tb then inject_thread_barrier s1 w else Ok w) = Ok w1 /\
      packet_inv w1 done1 open1 /\ close done1 open1 = close done open ++ (if tb then [barrier_packet s1] else []) /\
      pending_barrier w1 = due /\ write_output w1 = false).
    { destruct tb.
      - destruct (thread_barrier_spec s1 w done open Hi V1) as (w1 & E & Hi1 & S1).
        { rewrite app_assoc in Hf'. by apply fits_prefix in Hf'. }
        exists w1, (close done open ++ [barrier_packet s1]), None. split; [exact E|]. split; [done|]. split; [done|].
        unfold same_settings in S1. intuition (simpl in *; congruence).
      - exists w, done, open. rewrite app_nil_r. auto. }
    destruct Hbar as (w1 & done1 & open1 & -> & Hi1 & Hc1 & Hp1 & Ho1). cbn [obind].
    rewrite app_assoc, <- Hc1, <- Hp1 in Hf'.
    destruct (api_command_spec s2 id w1 done1 open1 Hi1 Ho1 V2 Hf') as (w2 & -> & Hi2 & Hp2 & Ho2). cbn [obind].
    rewrite Hc1, Hp1, <- app_assoc in Hi2.
    destruct (writing_spec _ _ _ _ wr bs (with_current_inv w2 _ _
      (ChangeSource (cs_packet (current w2)) frame (cs_thread (current w2)) (cs_packet_type (current w2)) id) Hi2 eq_refl)
      Hwr) as (w3 & -> & Hi3 & S3).
    exists w3. split; [done|]. split; [|unfold same_settings in S3; simpl in S3; intuition (simpl in *; congruence)].
    rewrite <- !app_assoc in Hi3. exact Hi3.
  - destruct Hok as [Hwr Hne]. destruct open as [[ty body]|]; [|done].
    destruct (writing_spec w _ _ _ wr bs Hi Hwr) as (w2 & -> & Hi2 & S2). exists w2. split; [done|].
    split; [done|]. unfold same_settings in *. intuition (simpl in *; congruence).
  - destruct (end_packet_spec w done open Hi Hf) as (w1 & -> & Hi1 & S1). exists w1. split; [done|].
    split; [done|]. unfold same_settings in *. intuition (simpl in *; congruence).
  - exists (with_pending w true). split; [done|]. split; [by apply with_pending_inv|done].
Qed.

Lemma run_script_spec ops st w :
  packet_inv w st.1.1 st.1.2 -> pending_barrier w = st.2 -> write_output w = false -> legal ops st ->
  exists w', run_script ops w = Ok w' /\
    packet_inv w' (foldl (fun st o => spec_op o st) st ops).1.1 (foldl (fun st o => spec_op o st) st ops).1.2 /\
    fits (all_packets (foldl (fun st o => spec_op o st) st ops)).
Proof.
  revert st w; induction ops as [|o ops IH]; intros st w Hi Hp Ho [Hf Hl]; [by exists w|].
  destruct Hl as [Hok Hl]. assert (Hf' : fits (all_packets (spec_op o st))) by (by destruct ops; apply Hl).
  destruct (packet_op_spec o st w Hi Hp Ho Hf Hok Hf') as (w1 & E & Hi1 & Hp1 & Ho1).
  cbn [run_script]. rewrite E. cbn [obind foldl]. by apply IH.
Qed.
End Script.
Arguments packet_op S : clear implicits.

(** ** [file_writer] provides the stream *)

Section FileWriterSink.
Context (t : lavatube_compression_type) (codec : list byte -> option (list byte)) (heap_after : list byte).
(** a pointer and the position of the stream it was handed out for *)
Definition fw_place : Type := (pointer * nat)%type.

Definition fw_later (n : nat) (v : Z) (l : logged) : outcome (fw_place * logged) :=
  let* (p, w) := write_value_later t codec heap_after n v l.1 in
  Ok ((p, length l.2), (w, l.2 ++ le_encode n v)).

Definition fw_store (p : fw_place) (bs : list byte) (l : logged) : outcome logged :=
  let* w := store p.1 bs l.1 in Ok (w, memcpy l.2 p.2 bs).

Definition fw_refers (l : logged) (p : fw_place) (m n : nat) : Prop :=
  holding l.1 = true /\ p.2 = n /\ points_to l.1 l.2 p.1 m n.

#[local] Obligation Tactic := idtac.

#[program] Definition file_packets : PacketSink logged := {|
  packet_sink := writer_sink t codec heap_after;
  place := fw_place;
  write_later := fw_later;
  store_at := fw_store;
  thaw_sink l := (thaw l.1, l.2);
  position l := uncompressed_bytes l.1;
  chunk_offset l := current_chunk_uncompressed_offset l.1;
  sink_self_test l := FileWriter.self_test l.1;
  refers := fw_refers
|}.
Next Obligation. intros [w l] Hi. exact (bo_count _ _ (proj1 Hi)). Qed.
Next Obligation.
  intros n v [w l] Hi. simpl in Hi.
  destruct (write_value_later_spec t codec heap_after n v w l Hi) as (p & w' & E & Hi' & Hh & Hp).
  exists (p, length l), (w', l ++ le_encode n v). unfold fw_later. cbn [fst snd]. rewrite E. cbn [obind].
  split; [done|]. split; [exact Hi'|]. split; [done|]. split; [by split|].
  intros [q k] m i (Hq & Hk & Hpt). split; [done|]. split; [done|].
  exact (points_to_later t codec heap_after n v w l p w' q m i Hi Hq E Hpt).
Qed.
Next Obligation.
  intros bs [w l] [w' l'] [p q] m n Hi (Hh & Hq & Hp) E. simpl in *. unfold logged_emit in E. cbn [fst snd] in E.
  apply obind_ok_inv in E as (w1 & E & E1). injection E1 as <- <-.
  destruct (points_to_put t codec heap_after w l p m n bs w1 Hh E Hp) as [H1 H2]. by split.
Qed.
Next Obligation.
  intros [w l] [p q] m n bs Hi (Hh & Hq & Hp) Hb. simpl in *. subst q. rewrite <- Hb in Hp.
  destruct (store_spec t codec heap_after p bs w l n Hi Hp) as (w' & E & Hi').
  exists (w', memcpy l n bs). unfold fw_store. cbn [fst snd]. rewrite E. cbn [obind]. split; [done|]. split; [done|].
  split; [done|]. intros [q k] m' i (Hq & Hk & Hpt).
  destruct (points_to_store t codec heap_after p bs w l w' n q m' i Hi E Hp Hpt) as [H1 H2].
  split; [exact (eq_trans H1 Hq)|]. split; [done|exact H2].
Qed.
Next Obligation. intros [w l] Hi. split; [|done]. by apply thaw_inv. Qed.
End FileWriterSink.

(** ** Saved checkpoints are accepted again *)

Definition saved_checkpoints (l : list packet_checkpoint) : list (option (Z * Z)) :=
  map (fun c => Some (cp_packet c, cp_position c)) l.

Lemma load_loop_accepts total l : forall first acc,
  (first = true <-> acc = []) -> checkpoints_ok total (acc ++ l) ->
  load_loop total first acc (saved_checkpoints l) = Ok (acc ++ l).
Proof.
  induction l as [|c l IH]; intros first acc Hf Hok; [by rewrite app_nil_r|].
  pose proof Hok as (O1 & O2 & O3). cbn [saved_checkpoints map load_loop].
  apply Forall_app in O2 as [_ O2]. inversion O2; subst.
  rewrite Z.geb_leb, (proj2 (Z.leb_gt _ _)) by lia. cbn [negb obind require].
  assert (Hfirst : negb (first && (negb (cp_packet c =? 0) || negb (cp_position c =? 0))) = true).
  { destruct first; [|done]. rewrite (proj1 Hf eq_refl) in O3. destruct O3 as [-> ->]. done. }
  rewrite Hfirst. cbn [obind require].
  assert (Hprev : previous_ok acc (cp_packet c) (cp_position c) = true).
  { unfold previous_ok. destruct (last acc) as [p|] eqn:El; [|done].
    assert (Hne : acc <> []) by (intros ->; done). rewrite last_lookup in El.
    destruct (O1 (pred (length acc)) (length acc) p c) as [H1' H2'].
    - destruct acc; [done|simpl; lia].
    - rewrite lookup_app_l by (destruct acc; [done|simpl; lia]). done.
    - rewrite lookup_app_r by lia. by rewrite Nat.sub_diag.
    - rewrite !(proj2 (Z.leb_gt _ _)) by lia. done. }
  rewrite Hprev. cbn [obind require]. destruct c as [cp ps]. cbn [cp_packet cp_position].
  assert (Hcons : acc ++ PacketCheckpoint cp ps :: l = (acc ++ [PacketCheckpoint cp ps]) ++ l) by (by rewrite <- app_assoc).
  rewrite Hcons in *. apply IH; [|done]. split; [done|]. by destruct acc.
Qed.

(** ** The reader of one thread (lava_file_reader) *)

Record lava_file_reader := LavaFileReader {
  base : file_reader;
  r_current : change_source;
  current_packet_open : bool;
  current_packet_start : Z;
  current_packet_end : Z;
  current_packet_size : Z;
  terminated : bool;
  completed_packets : Z;       (** this thread's entry of [thread_packet_numbers] *)
  current_barrier_packet_indices : list Z
}.

Definition with_base (r : lava_file_reader) (b : file_reader) : lava_file_reader :=
  LavaFileReader b (r_current r) (current_packet_open r) (current_packet_start r) (current_packet_end r)
    (current_packet_size r) (terminated r) (completed_packets r) (current_barrier_packet_indices r).

Definition terminate (r : lava_file_reader) : lava_file_reader :=
  LavaFileReader (base r) (r_current r) (current_packet_open r) (current_packet_start r) (current_packet_end r)
    (current_packet_size r) true (completed_packets r) (current_barrier_packet_indices r).

Section Reader.
Context (codec : list byte -> Z -> option (list byte)).
Context (debug : bool) (page_size fstart : Z) (p__allow_stalls : bool) (preload_bytes : Z).

Abbreviation rtake := (take_bytes codec debug page_size fstart p__allow_stalls preload_bytes).

Definition new_lava_file_reader (b : file_reader) (mytid : Z) : lava_file_reader :=
  LavaFileReader b (ChangeSource 0 0 (wrap 8 mytid) UINT8_MAX UINT16_MAX) false 0 0 0 false 0 [].

(** read of an unsigned integer of [n] bytes *)
Definition rread (n : nat) (r : lava_file_reader) : outcome (Z * lava_file_reader) :=
  let* (bs, b) := rtake n (base r) in Ok (le_decode bs, with_base r b).

Definition complete_packet (r : lava_file_reader) : outcome lava_file_reader :=
  if negb (current_packet_open r) then Ok r
  else
    let* _ := require (negb (read_position (base r) >? current_packet_end r)) AbortCall in
    let b := if read_position (base r) <? current_packet_end r then set_read (base r) (current_packet_end r)
             else base r in
    Ok (LavaFileReader b (next_packet (r_current r)) false (current_packet_start r) (current_packet_end r)
          (current_packet_size r) (terminated r) (wrap64 (completed_packets r + 1))
          (current_barrier_packet_indices r)).

(** [stop] is what [stop_requested] answers; 0 means the end *)
Definition step (stop : bool) (r : lava_file_reader) : outcome (Z * lava_file_reader) :=
  let* r := complete_packet r in
  if stop then Ok (0, terminate r)
  else if done (base r) then Ok (0, terminate r)
  else
    let* b := release_checkpoint page_size (base r) in
    let r := with_base r b in
    let start := read_position b in
    let* (type, r) := rread 1 r in
    let* _ := assert_in debug (negb (type =? 0)) in
    let* (size, r) := rread 4 r in
    let* _ := require (negb (size <? 1 + 4)) AbortCall in
    Ok (type, LavaFileReader (base r) (in_packet (r_current r) type) true start (wrap64 (start + size)) size
                (terminated r) (completed_packets r) (current_barrier_packet_indices r)).

(** replacing the packet of a reader on a fixed buffer *)
Definition reset_fixed_packet (data : list byte) (packet_index frame version : Z) (r : lava_file_reader)
  : outcome lava_file_reader :=
  let* _ := require (negb (current_packet_open r)) AbortCall in
  let* b := reset_fixed_buffer (base r) data version in
  Ok (LavaFileReader b (ChangeSource packet_index frame (cs_thread (r_current r)) UINT8_MAX UINT16_MAX) false
        (current_packet_start r) (current_packet_end r) (current_packet_size r) false (completed_packets r) []).

Fixpoint read_targets (n : nat) (r : lava_file_reader) : outcome (list Z * lava_file_reader) :=
  match n with
  | O => Ok ([], r)
  | Datatypes.S n' =>
      let* (i, r) := rread 4 r in
      let* _ := assert_in debug (negb (i =? UINT32_MAX)) in
      let* (l, r) := read_targets n' r in
      Ok (i :: l, r)
  end.

(** [read_barrier] up to its waits: the packet is complete before them *)
Definition read_barrier (r : lava_file_reader) : outcome (list Z * lava_file_reader) :=
  let* (n, r) := rread 1 r in
  let* (l, r) := read_targets (Z.to_nat n) r in
  let r := LavaFileReader (base r) (r_current r) (current_packet_open r) (current_packet_start r)
    (current_packet_end r) (current_packet_size r) (terminated r) (completed_packets r) l in
  let* r := complete_packet r in
  Ok (l, r).

(** [read_handle] up to its wait: the index, and the packet of another thread to wait for *)
Definition read_handle (isolated : bool) (r : lava_file_reader) : outcome (Z * option (Z * Z) * lava_file_reader) :=
  let* (index, r) := rread 4 r in
  let* (thread, r) := rread 1 r in
  let req_thread := to_signed 8 thread in
  let* (req_packet, r) := rread 4 r in
  if isolated || (req_thread <? 0) || (req_thread =? cs_thread (r_current r)) then Ok (index, None, r)
  else Ok (index, Some (req_thread, req_packet), r).

(** the dispatch of a replayed call: the id is mapped by [dictionary], 32 reserved bits follow *)
Definition read_apicall (dictionary : Z -> option Z) (r : lava_file_reader) : outcome (Z * lava_file_reader) :=
  let r := with_base r (set_checkpoint (base r)) in
  let* (id, r) := rread 2 r in
  match dictionary id with
  | None => Fail OutOfRange
  | Some apicall =>
      let* (_, r) := rread 4 r in
      let c := r_current r in
      Ok (apicall, LavaFileReader (base r)
        (ChangeSource (cs_packet c) (cs_frame c) (cs_thread c) PACKET_VULKAN_API_CALL apicall)
        (current_packet_open r) (current_packet_start r) (current_packet_end r) (current_packet_size r)
        (terminated r) (completed_packets r) (current_barrier_packet_indices r))
  end.

(** a consumer that reads every body to its end *)
Fixpoint read_packets (fuel : nat) (r : lava_file_reader) : outcome (list packet * lava_file_reader) :=
  match fuel with
  | O => Fail OutOfFuel
  | Datatypes.S fuel' =>
      let* (type, r) := step false r in
      if type =? 0 then Ok ([], r)
      else
        let* (body, b) := rtake (Z.to_nat (current_packet_size r - 5)) (base r) in
        let* (l, r) := read_packets fuel' (with_base r b) in
        Ok ((type, body) :: l, r)
  end.
End Reader.

Section ReaderProofs.
Context (codec : list byte -> Z -> option (list byte)).
Context (debug : bool) (k fstart : Z) (p__allow_stalls : bool) (preload_bytes : Z).
Hypothesis release_build : debug = false.
Hypothesis stalls_allowed : p__allow_stalls = true \/ preload_bytes <= 0.
Hypothesis page_bits : 0 <= k.

Abbreviation rtake := (take_bytes codec debug (2 ^ k) fstart p__allow_stalls preload_bytes).
Abbreviation rest_of b := (reader_remaining codec b).
Abbreviation rstep := (step codec debug (2 ^ k) fstart p__allow_stalls preload_bytes).

(** a threaded reader of a stream at least as long as what the replay wants of it *)
Definition following (b : file_reader) : Prop :=
  reading codec b /\ multithreaded_read b = true /\
  uncompressed_wanted b <= read_position b + Z.of_nat (length (rest_of b)).

Lemma following_take n b :
  following b -> (n <= length (rest_of b))%nat ->
  exists b', rtake n b = Ok (take n (rest_of b), b') /\ following b' /\ rest_of b' = drop n (rest_of b) /\
    read_position b' = read_position b + Z.of_nat n.
Proof.
  intros ((Hr & Hm & Ht) & Hmt & Hw) Hn.
  destruct (take_bytes_law codec debug (2 ^ k) fstart p__allow_stalls preload_bytes release_build stalls_allowed n b Hr Hn)
    as (b' & E & Hr' & Hrem & Hp & Hs).
  exists b'. split; [done|]. split; [|done]. pose proof Hs as (_ & _ & _ & S1 & S2 & S3).
  split; [split; [done|split; [apply (marks_ok_moved b b' Hs ltac:(lia) Hm)|lia]]|].
  split; [congruence|]. rewrite S2, Hp, Hrem, length_drop. lia.
Qed.

Lemma following_release b :
  following b -> exists b', release_checkpoint (2 ^ k) b = Ok b' /\ following b' /\ rest_of b' = rest_of b /\
    read_position b' = read_position b.
Proof.
  intros (Hr & Hmt & Hw). destruct (release_checkpoint_ok codec k page_bits b Hr) as (b' & E & Hr' & Hrem & Hp).
  exists b'. split; [done|]. split; [|done]. destruct (release_checkpoint_marks k b b' E) as (cp & fr & pg & ->).
  split; [done|]. split; [done|]. rewrite Hrem, Hp. done.
Qed.

Lemma following_end b : following b -> read_position b + Z.of_nat (length (rest_of b)) <= UINT64_MAX.
Proof.
  intros (([chunks Hi] & _ & Ht) & _ & _). unfold reader_remaining. rewrite (future_chunks _ _ _ Hi).
  pose proof (ri_pos _ _ _ Hi). pose proof (ri_total _ _ _ Hi).
  rewrite length_drop, length_app. unfold write_position in *. lia.
Qed.

Lemma following_done b : following b -> done b = bool_decide (rest_of b = []).
Proof.
  intros (([chunks Hi] & _ & Ht) & Hmt & Hw). unfold done. rewrite (available_inv _ _ _ Hi), (ri_done _ _ _ Hi Hmt).
  pose proof (ri_pos _ _ _ Hi) as Hp. revert Hw. unfold reader_remaining. rewrite (future_chunks _ _ _ Hi).
  intros Hw. rewrite length_drop, length_app in Hw. unfold write_position in *. apply Bool.eq_iff_eq_true. split.
  - intros Hd. apply andb_true_iff in Hd as [Hx Hz]. apply bool_decide_eq_true_2.
    destruct chunks as [|c chunks]; [|pose proof (ri_chunks _ _ _ Hi) as [He _]; unfold write_position in He; congruence].
    apply drop_ge. rewrite length_app. simpl. bool_to_prop. lia.
  - intros Hn. apply bool_decide_eq_true_1 in Hn. apply (f_equal length) in Hn.
    rewrite length_drop, length_app in Hn. simpl in Hn. apply andb_true_iff. split; [|apply Z.eqb_eq; lia].
    unfold exhausted. apply orb_true_iff. right. rewrite Z.geb_leb. apply Z.leb_le. lia.
Qed.

Lemma following_seek b pos :
  following b -> read_position b <= pos <= write_position b ->
  following (set_read b pos) /\ rest_of (set_read b pos) = drop (Z.to_nat (pos - read_position b)) (rest_of b).
Proof.
  intros (([chunks Hi] & Hm & Ht) & Hmt & Hw) Hp. pose proof (ri_pos _ _ _ Hi) as H0.
  assert (Hi' : reader_inv codec (set_read b pos) chunks).
  { destruct Hi as [J1 J2 J3 J4 Js J5 J6]. split; auto. unfold write_position in *. simpl. lia. }
  assert (Hrem : rest_of (set_read b pos) = drop (Z.to_nat (pos - read_position b)) (rest_of b)).
  { unfold reader_remaining. rewrite (future_chunks _ _ _ Hi), (future_chunks _ _ _ Hi'). simpl.
    rewrite drop_drop. f_equal. lia. }
  split; [|done]. split; [split; [by exists chunks|split; [|done]]|split; [done|]].
  - apply (marks_ok_moved b); [by repeat split|simpl; lia|done].
  - rewrite Hrem, length_drop. simpl. assert (pos - read_position b <= Z.of_nat (length (rest_of b))); [|lia].
    unfold reader_remaining. rewrite (future_chunks _ _ _ Hi), length_drop, length_app. unfold write_position in *. lia.
Qed.

(** The reader is inside a packet of which [tail] is unread, or between packets
    with nothing to skip; what is skipped is already decompressed. *)
Definition at_tail (r : lava_file_reader) (tail : list byte) : Prop :=
  if current_packet_open r then
    current_packet_end r = read_position (base r) + Z.of_nat (length tail) /\
    (tail = [] \/ current_packet_end r <= write_position (base r))
  else tail = [].

Definition open_count (r : lava_file_reader) : Z := if current_packet_open r then 1 else 0.

Lemma complete_packet_ok r tail rest :
  following (base r) -> at_tail r tail -> rest_of (base r) = tail ++ rest ->
  exists r', complete_packet r = Ok r' /\ following (base r') /\ rest_of (base r') = rest /\
    current_packet_open r' = false /\
    wrap64 (completed_packets r') = wrap64 (completed_packets r + open_count r).
Proof.
  intros Hf Ht Hrem. unfold complete_packet, at_tail, open_count in *. destruct (current_packet_open r) eqn:Eo.
  2:{ subst tail. exists r. rewrite Z.add_0_r. auto. }
  destruct Ht as [He Ht]. cbn [negb]. rewrite Z.gtb_ltb, (proj2 (Z.ltb_ge _ _)) by lia. cbn [negb obind require].
  eexists. split; [reflexivity|]. cbn [base current_packet_open completed_packets].
  assert (Hcount : wrap64 (wrap64 (completed_packets r + 1)) = wrap64 (completed_packets r + 1))
    by (unfold wrap64, wrap; apply Zmod_mod).
  destruct (read_position (base r) <? current_packet_end r) eqn:E; bool_to_prop.
  - destruct Ht as [->|Ht]; [simpl in He; lia|].
    destruct (following_seek (base r) (current_packet_end r) Hf ltac:(lia)) as [H1 H2].
    split; [done|]. split; [|done]. rewrite H2, Hrem, He.
    replace (Z.to_nat _) with (length tail) by lia. by rewrite drop_app_length.
  - split; [done|]. split; [|done]. destruct tail; [done|simpl in He; lia].
Qed.

Lemma rread_le n z r rest :
  following (base r) -> 0 <= z < 256 ^ Z.of_nat n -> rest_of (base r) = le_encode n z ++ rest ->
  exists b, rread codec debug (2 ^ k) fstart p__allow_stalls preload_bytes n r = Ok (z, with_base r b) /\
    following b /\ rest_of b = rest /\ read_position b = read_position (base r) + Z.of_nat n.
Proof.
  intros Hf Hz Hrem. destruct (following_take n (base r) Hf) as (b & E & Hf' & Hr & Hp).
  { rewrite Hrem, length_app, length_le_encode. lia. }
  exists b. unfold rread. rewrite E. cbn [obind]. rewrite Hrem in Hr |- *.
  rewrite take_app_le, take_ge, le_decode_encode_small by (rewrite ?length_le_encode; lia || done).
  split; [done|]. split; [done|]. split; [|done].
  rewrite Hr, drop_app_le, drop_ge by (rewrite length_le_encode; lia). done.
Qed.

Lemma step_ok r tail ty body rest :
  following (base r) -> at_tail r tail -> rest_of (base r) = tail ++ packet_bytes (ty, body) ++ rest ->
  0 < ty < 256 -> 5 + Z.of_nat (length body) <= UINT32_MAX ->
  exists r', rstep false r = Ok (ty, r') /\ following (base r') /\ rest_of (base r') = body ++ rest /\
    current_packet_open r' = true /\ current_packet_size r' = 5 + Z.of_nat (length body) /\
    current_packet_end r' = read_position (base r') + Z.of_nat (length body) /\
    wrap64 (completed_packets r') = wrap64 (completed_packets r + open_count r).
Proof.
  intros Hf Ht Hrem Hty Hsz.
  destruct (complete_packet_ok r tail _ Hf Ht Hrem) as (r1 & E1 & Hf1 & Hr1 & Ho1 & Hc1).
  unfold step. rewrite E1. cbn [obind]. rewrite (following_done _ Hf1), bool_decide_eq_false_2.
  2:{ rewrite Hr1. intros Hn. apply (f_equal length) in Hn. rewrite length_app, length_packet_bytes in Hn. simpl in Hn. lia. }
  destruct (following_release _ Hf1) as (b2 & E2 & Hf2 & Hr2 & Hp2). rewrite E2. cbn [obind].
  rewrite Hr1 in Hr2. unfold packet_bytes in Hr2. cbn [fst snd] in Hr2. rewrite <- !app_assoc in Hr2.
  destruct (rread_le 1 ty (with_base r1 b2) _ Hf2 ltac:(simpl; lia) Hr2) as (b3 & -> & Hf3 & Hr3 & Hp3). cbn [obind].
  rewrite (assert_released debug release_build). cbn [obind].
  destruct (rread_le 4 (5 + Z.of_nat (length body)) (with_base (with_base r1 b2) b3) _ Hf3
    ltac:(unfold UINT32_MAX in Hsz; split; [lia|change (256 ^ Z.of_nat 4) with (2 ^ 32); lia]) Hr3)
    as (b4 & -> & Hf4 & Hr4 & Hp4). cbn [obind base with_base] in Hp3, Hp4 |- *.
  rewrite (proj2 (Z.ltb_ge _ _)) by lia. cbn [negb obind require].
  eexists. split; [reflexivity|]. cbn [base current_packet_open current_packet_size current_packet_end completed_packets
    r_current terminated with_base].
  split; [done|]. split; [done|]. split; [done|]. split; [done|]. split; [|done].
  pose proof (following_end _ Hf4) as Hend. rewrite Hr4, length_app in Hend.
  pose proof (ri_pos) as _. rewrite wrap64_small; [lia|].
  assert (0 <= read_position b2) by (destruct Hf2 as (([ch Hi] & _) & _); apply Hi). u_lia.
Qed.

Lemma step_end r tail :
  following (base r) -> at_tail r tail -> rest_of (base r) = tail ->
  exists r', rstep false r = Ok (0, r') /\ terminated r' = true /\ rest_of (base r') = [] /\
    wrap64 (completed_packets r') = wrap64 (completed_packets r + open_count r).
Proof.
  intros Hf Ht Hrem. rewrite <- (app_nil_r tail) in Hrem.
  destruct (complete_packet_ok r tail _ Hf Ht Hrem) as (r1 & E1 & Hf1 & Hr1 & Ho1 & Hc1).
  unfold step. rewrite E1. cbn [obind]. rewrite (following_done _ Hf1), Hr1, bool_decide_eq_true_2 by done.
  eexists. split; [reflexivity|]. by split.
Qed.

Lemma wrap64_add_congr a b c : wrap64 a = wrap64 b -> wrap64 (a + c) = wrap64 (b + c).
Proof.
  unfold wrap64, wrap. intros E. rewrite <- (Zplus_mod_idemp_l a), <- (Zplus_mod_idemp_l b). by rewrite E.
Qed.

Lemma read_packets_S fuel r :
  read_packets codec debug (2 ^ k) fstart p__allow_stalls preload_bytes (S fuel) r =
  let* (type, r) := rstep false r in
  if type =? 0 then Ok ([], r)
  else
    let* (body, b) := rtake (Z.to_nat (current_packet_size r - 5)) (base r) in
    let* (l, r) := read_packets codec debug (2 ^ k) fstart p__allow_stalls preload_bytes fuel (with_base r b) in
    Ok ((type, body) :: l, r).
Proof. reflexivity. Qed.

Lemma read_packets_ok l : forall r,
  following (base r) -> at_tail r [] -> rest_of (base r) = stream_of l ->
  Forall (fun p => 0 < p.1 < 256 /\ 5 + Z.of_nat (length p.2) <= UINT32_MAX) l ->
  exists r', read_packets codec debug (2 ^ k) fstart p__allow_stalls preload_bytes (S (length l)) r = Ok (l, r') /\
    terminated r' = true /\ rest_of (base r') = [] /\
    wrap64 (completed_packets r') = wrap64 (completed_packets r + open_count r + Z.of_nat (length l)).
Proof.
  induction l as [|[ty body] l IH]; intros r Hf Ht Hrem Hl; cbn [length].
  - destruct (step_end r [] Hf Ht Hrem) as (r1 & E & H1 & H2 & H3). exists r1. cbn [read_packets]. rewrite E.
    cbn [obind Z.eqb]. split; [done|]. split; [done|]. split; [done|]. rewrite H3. f_equal. simpl. lia.
  - apply Forall_cons in Hl as [[Hty Hsz] Hl']. cbn [fst snd] in Hty, Hsz.
    destruct (step_ok r [] ty body (stream_of l) Hf Ht Hrem Hty Hsz)
      as (r1 & E1 & Hf1 & Hr1 & Ho1 & Hs1 & He1 & Hc1).
    rewrite read_packets_S, E1. cbn [obind]. rewrite (proj2 (Z.eqb_neq ty 0)) by lia.
    rewrite Hs1. replace (Z.to_nat (5 + Z.of_nat (length body) - 5)) with (length body) by lia.
    destruct (following_take (length body) (base r1) Hf1 ltac:(rewrite Hr1, length_app; lia))
      as (b2 & -> & Hf2 & Hr2 & Hp2). cbn [obind]. rewrite Hr1 in Hr2 |- *.
    rewrite take_app_length in *. rewrite drop_app_length in Hr2.
    destruct (IH (with_base r1 b2) Hf2) as (r3 & E3 & T3 & R3 & C3); [|done|done|].
    { unfold at_tail. cbn [current_packet_open with_base base current_packet_end]. rewrite Ho1. simpl. split; [lia|by left]. }
    exists r3. rewrite E3. cbn [obind]. split; [done|]. split; [done|]. split; [done|]. rewrite C3.
    unfold open_count at 1. cbn [current_packet_open with_base completed_packets]. rewrite Ho1.
    rewrite <- Z.add_assoc, (wrap64_add_congr _ _ _ Hc1). f_equal. lia.
Qed.
End ReaderProofs.

(** ** Properties *)

Lemma script_start {S} `{PacketSink S} (s : S) tid ops :
  sink_ok s -> written s = [] -> legal ops ([], None, false) ->
  exists w w', run_script ops (new_lava_file_writer s tid false) = Ok w /\ end_packet w = Ok w' /\
    packet_inv w' (script_packets ops) None /\ fits (script_packets ops).
Proof.
  intros Hs Hw Hl.
  destruct (run_script_spec ops ([], None, false) _ (new_lava_writer_inv s tid false Hs Hw) eq_refl eq_refl Hl)
    as (w & E & Hi & Hf).
  destruct (end_packet_spec w _ _ Hi Hf) as (w' & E' & Hi' & _). exists w, w'. auto.
Qed.

(** What a thread writes is the concatenation of its packets, each with its
    type, its size and its body in order, with the barriers that other threads or
    the command itself asked for in front of the command; the checkpoints noted
    on the way are packet starts and are accepted when the trace is opened. *)
Theorem packets_framed {S} `{PacketSink S} (s : S) (tid : Z) (ops : list (packet_op S))
    (Hs : sink_ok s) (Hempty : written s = []) (Hlegal : legal ops ([], None, false)) :
  exists w w', run_script ops (new_lava_file_writer s tid false) = Ok w /\ end_packet w = Ok w' /\
    written (stream w') = stream_of (script_packets ops) /\
    cs_packet (current w') = Z.of_nat (length (script_packets ops)) /\
    Forall (starts_packet (script_packets ops)) (packet_checkpoints w') /\
    load_loop (Z.of_nat (length (written (stream w')))) true [] (saved_checkpoints (packet_checkpoints w')) =
      Ok (packet_checkpoints w').
Proof.
  destruct (script_start s tid ops Hs Hempty Hlegal) as (w & w' & E & E' & Hi & Hf).
  exists w, w'. split; [done|]. split; [done|]. pose proof (pi_stream _ _ _ Hi) as Hw. rewrite app_nil_r in Hw.
  split; [done|]. split.
  { rewrite (pi_packet _ _ _ Hi). destruct Hf as (_ & _ & Hf). apply wrap32_small. u_lia. }
  split; [exact (pi_starts _ _ _ Hi)|]. rewrite Hw. apply (load_loop_accepts _ _ true []); [done|].
  split; [apply Hi|]. split.
  - eapply Forall_impl; [exact (pi_starts _ _ _ Hi)|]. intros c Hc. exact (proj2 (starts_packet_total _ _ Hc)).
  - pose proof (pi_first _ _ _ Hi). by destruct (packet_checkpoints w').
Qed.

Definition demo_sink : PacketSink logged := file_packets LAVATUBE_COMPRESSION_LZ4 demo_codec [].
Definition demo_stream : logged := (set LAVATUBE_COMPRESSION_LZ4 (new_file_writer 6), []).

Definition demo_script : list (packet_op logged) :=
  [Begin 5 (emit (ByteSink := @packet_sink _ demo_sink) [xaa; xbb; xcc]) [xaa; xbb; xcc];
   Pushed;
   Command true [1; 0] [2; 7] 9 0 (emit (ByteSink := @packet_sink _ demo_sink) [xdd]) [xdd];
   Append (emit (ByteSink := @packet_sink _ demo_sink) [xee]) [xee]].

Lemma demo_body bs : u32 (Z.of_nat (length bs)) ->
  body_writer (H := demo_sink) (emit (ByteSink := @packet_sink _ demo_sink) bs) bs.
Proof. intros Hb p n. exact (@emits_emit _ (open_sink (H := demo_sink) p n) bs Hb). Qed.

Lemma demo_legal : legal (H := demo_sink) demo_script ([], None, false).
Proof.
  repeat split; try (apply demo_body; by vm_compute); repeat constructor; try (by vm_compute).
Qed.

Lemma demo_stream_ok : sink_ok (ByteSink := @packet_sink _ demo_sink) demo_stream.
Proof. apply set_inv; [done|]. by apply FileWriter.new_writer_inv. Qed.

Lemma packets_framed_witness :
  exists w w', run_script (H := demo_sink) demo_script (new_lava_file_writer (H := demo_sink) demo_stream 0 false) = Ok w /\
    end_packet (H := demo_sink) w = Ok w' /\
    written (ByteSink := @packet_sink _ demo_sink) (stream (H := demo_sink) w') = stream_of (script_packets demo_script) /\
    cs_packet (current w') = Z.of_nat (length (script_packets demo_script)) /\
    Forall (starts_packet (script_packets demo_script)) (packet_checkpoints w') /\
    load_loop (Z.of_nat (length (written (ByteSink := @packet_sink _ demo_sink) (stream w')))) true []
      (saved_checkpoints (packet_checkpoints w')) = Ok (packet_checkpoints w').
Proof. exact (packets_framed (H := demo_sink) demo_stream 0 demo_script demo_stream_ok eq_refl demo_legal). Defined.

(** C2: a reader whose stream is what a thread wrote steps through exactly the
    packets that thread wrote, types and bodies, then reports the end; it has then
    counted every packet as completed. *)
Theorem packets_roundtrip {S} `{PacketSink S} (s : S) (tid : Z) (ops : list (packet_op S))
    (codec : list byte -> Z -> option (list byte)) (debug : bool) (k fstart : Z) (p__allow_stalls : bool)
    (preload_bytes : Z) (r : lava_file_reader)
    (Hs : sink_ok s) (Hempty : written s = []) (Hlegal : legal ops ([], None, false))
    (Htypes : Forall (fun p => 0 < p.1 < 256) (script_packets ops))
    (Hrelease : debug = false) (Hstall : p__allow_stalls = true \/ preload_bytes <= 0) (Hk : 0 <= k)
    (Hr : following codec (base r)) (Hfresh : current_packet_open r = false) (Hcount : completed_packets r = 0) :
  exists w w', run_script ops (new_lava_file_writer s tid false) = Ok w /\ end_packet w = Ok w' /\
    (reader_remaining codec (base r) = written (stream w') ->
     exists r', read_packets codec debug (2 ^ k) fstart p__allow_stalls preload_bytes
         (Datatypes.S (length (script_packets ops))) r = Ok (script_packets ops, r') /\
       terminated r' = true /\
       wrap64 (completed_packets r') = cs_packet (current w')).
Proof.
  destruct (script_start s tid ops Hs Hempty Hlegal) as (w & w' & E & E' & Hi & Hf).
  exists w, w'. split; [done|]. split; [done|]. pose proof (pi_stream _ _ _ Hi) as Hw. rewrite app_nil_r in Hw.
  rewrite Hw. intros Hrem. pose proof Hf as (F1 & _ & F3).
  destruct (read_packets_ok codec debug k fstart p__allow_stalls preload_bytes Hrelease Hstall Hk (script_packets ops) r Hr)
    as (r' & Er & Ht & _ & Hc).
  - unfold at_tail. by rewrite Hfresh.
  - done.
  - by apply Forall_and.
  - exists r'. split; [done|]. split; [done|]. rewrite Hc, Hcount. unfold open_count. rewrite Hfresh.
    rewrite (pi_packet _ _ _ Hi), wrap64_small, wrap32_small by u_lia. lia.
Qed.

Definition two_packets : list packet := [(5, [xaa; xbb; xcc]); (6, [xdd])].

Definition split_reader : file_reader :=
  FileReader true false false false (take 6 (stream_of two_packets)) 14 14 0 UINT64_MAX 0 0 6
    (encoded LAVATUBE_COMPRESSION_LZ4 demo_codec [] (drop 6 (stream_of two_packets))) 0 0 24 2 3 [].

Lemma split_reader_following : following demo_decoder split_reader.
Proof.
  split; [|split; [reflexivity|by vm_compute]]. split; [|split; [|by vm_compute]].
  - exists [drop 6 (stream_of two_packets)].
    split; [by vm_compute|by vm_compute| |by vm_compute|by vm_compute|reflexivity|discriminate].
    repeat split; try reflexivity; try (by vm_compute); apply Nat.leb_le; reflexivity.
  - split; [by vm_compute|by vm_compute|constructor].
Qed.

Definition two_script : list (packet_op logged) :=
  [Begin 5 (emit (ByteSink := @packet_sink _ demo_sink) [xaa; xbb; xcc]) [xaa; xbb; xcc];
   End; Begin 6 (emit (ByteSink := @packet_sink _ demo_sink) [xdd]) [xdd]].

Lemma two_legal : legal (H := demo_sink) two_script ([], None, false).
Proof. repeat split; try (apply demo_body; by vm_compute); repeat constructor; try (by vm_compute). Qed.

Lemma packets_roundtrip_witness :
  exists w w', run_script (H := demo_sink) two_script (new_lava_file_writer (H := demo_sink) demo_stream 0 false) = Ok w /\
    end_packet (H := demo_sink) w = Ok w' /\
    (reader_remaining demo_decoder (base (new_lava_file_reader split_reader 0)) =
       written (ByteSink := @packet_sink _ demo_sink) (stream (H := demo_sink) w') ->
     exists r', read_packets demo_decoder false 4096 0 true 0 (Datatypes.S (length (script_packets two_script)))
         (new_lava_file_reader split_reader 0) = Ok (script_packets two_script, r') /\
       terminated r' = true /\ wrap64 (completed_packets r') = cs_packet (current w')).
Proof.
  apply (packets_roundtrip (H := demo_sink) demo_stream 0 two_script demo_decoder false 12 0 true 0);
    [exact demo_stream_ok|reflexivity|exact two_legal|repeat constructor; by vm_compute|reflexivity|by left|lia|
     exact split_reader_following|reflexivity|reflexivity].
Defined.

(** What a body leaves unread is skipped, provided it is decompressed: the
    next step returns the next packet, whose body is then next in the stream. *)
Theorem unread_tail_skipped (codec : list byte -> Z -> option (list byte)) (debug : bool) (k fstart : Z)
    (p__allow_stalls : bool) (preload_bytes : Z) (r : lava_file_reader) (tail body rest : list byte) (ty : Z)
    (Hrelease : debug = false) (Hstall : p__allow_stalls = true \/ preload_bytes <= 0) (Hk : 0 <= k)
    (Hr : following codec (base r)) (Htail : at_tail r tail)
    (Hnext : reader_remaining codec (base r) = tail ++ packet_bytes (ty, body) ++ rest)
    (Hty : 0 < ty < 256) (Hsize : 5 + Z.of_nat (length body) <= UINT32_MAX) :
  exists r', step codec debug (2 ^ k) fstart p__allow_stalls preload_bytes false r = Ok (ty, r') /\
    following codec (base r') /\ reader_remaining codec (base r') = body ++ rest /\
    current_packet_end r' = read_position (base r') + Z.of_nat (length body) /\
    wrap64 (completed_packets r') = wrap64 (completed_packets r + open_count r).
Proof.
  destruct (step_ok codec debug k fstart p__allow_stalls preload_bytes Hrelease Hstall Hk r tail ty body rest
    Hr Htail Hnext Hty Hsize) as (r' & E & H1 & H2 & _ & _ & H3 & H4).
  by exists r'.
Qed.

Definition whole_reader : file_reader :=
  FileReader true false true false (stream_of two_packets) 14 14 5 UINT64_MAX 0 0 6 [] 0 0 0 2 3 [].

Definition inside_packet : lava_file_reader :=
  LavaFileReader whole_reader (ChangeSource 0 0 0 5 UINT16_MAX) true 0 8 8 false 0 [].

Lemma unread_tail_skipped_witness :
  exists r', step demo_decoder false 4096 0 true 0 false inside_packet = Ok (6, r') /\
    following demo_decoder (base r') /\ reader_remaining demo_decoder (base r') = [xdd] ++ [] /\
    current_packet_end r' = read_position (base r') + Z.of_nat (length [xdd]) /\
    wrap64 (completed_packets r') = wrap64 (completed_packets inside_packet + open_count inside_packet).
Proof.
  apply (unread_tail_skipped demo_decoder false 12 0 true 0 inside_packet [xaa; xbb; xcc] [xdd] [] 6);
    [reflexivity|by left|lia| |split; [reflexivity|right; by vm_compute]|reflexivity|lia|by vm_compute].
  split; [|split; [reflexivity|by vm_compute]]. split; [|split; [|by vm_compute]].
  - exists []. split; try reflexivity; try (by vm_compute).
  - split; [by vm_compute|by vm_compute|constructor].
Defined.

(** A tail that is not decompressed yet is skipped all the same, after which
    the distance to the write position wraps around and the next packet is read
    from memory nothing was decompressed into: the same stream steps on normally
    when the body was read first. *)
Theorem skip_past_decompressed :
  exists r1, step demo_decoder false 4096 0 true 0 false (new_lava_file_reader split_reader 0) = Ok (5, r1) /\
    step demo_decoder false 4096 0 true 0 false r1 = Fail AbortCall /\
    exists r2 r3, rread demo_decoder false 4096 0 true 0 3 r1 = Ok (le_decode [xaa; xbb; xcc], r2) /\
      step demo_decoder false 4096 0 true 0 false r2 = Ok (6, r3).
Proof.
  eexists. split; [vm_compute; reflexivity|]. split; [vm_compute; reflexivity|].
  eexists _, _. split; [vm_compute; reflexivity|]. vm_compute. reflexivity.
Qed.

(** C39: a body read beyond its packet stops the replay at the next step, and a
    packet of more than 32 bits of size stops the capture when it ends. *)
Theorem packet_bounds_enforced {S} `{PacketSink S} (codec : list byte -> Z -> option (list byte)) (debug : bool)
    (page_size fstart : Z) (p__allow_stalls : bool) (preload_bytes : Z) (r : lava_file_reader) (stop : bool)
    (w : lava_file_writer S) (done : list packet) (type : Z) (body : list byte) (next : Z)
    (Hopen : current_packet_open r = true) (Hover : current_packet_end r < read_position (base r))
    (Hw : packet_inv w done (Some (type, body)))
    (Hlarge : UINT32_MAX < 5 + Z.of_nat (length body)) (Htotal : Z.of_nat (length (written (stream w))) <= UINT64_MAX) :
  step codec debug page_size fstart p__allow_stalls preload_bytes stop r = Fail AbortCall /\
  end_packet w = Fail AbortCall /\ begin_packet next w = Fail AbortCall.
Proof.
  assert (Hend : end_packet w = Fail AbortCall).
  { destruct Hw as [I1 I2 I3 (I4 & I5 & pl & I6 & I7) I8 I9 I10]. unfold end_packet. rewrite I4, I6. cbn [negb].
    rewrite (position_law _ I1), (wrap64_small (Z.of_nat _)) by u_lia.
    rewrite I2 in *. cbn [open_bytes fst snd] in *. rewrite !length_app, !length_le_encode in *.
    rewrite I5, wrap64_small by u_lia. rewrite Z.gtb_ltb, (proj2 (Z.ltb_lt _ _)) by lia. done. }
  split; [|split; [done|unfold begin_packet; by rewrite Hend]].
  unfold step, complete_packet. rewrite Hopen. cbn [negb]. rewrite Z.gtb_ltb, (proj2 (Z.ltb_lt _ _)) by lia. done.
Qed.

Definition overread_packet : lava_file_reader :=
  LavaFileReader whole_reader (ChangeSource 0 0 0 5 UINT16_MAX) true 0 4 4 false 0 [].

Lemma packet_bounds_enforced_witness :
  exists w body, packet_inv (H := demo_sink) w [] (Some (5, body)) /\
    step demo_decoder false 4096 0 true 0 false overread_packet = Fail AbortCall /\
    end_packet (H := demo_sink) w = Fail AbortCall /\ begin_packet (H := demo_sink) 6 w = Fail AbortCall.
Proof.
  set (body := repeat x00 (Z.to_nat UINT32_MAX)).
  assert (Hlen : Z.of_nat (length body) = UINT32_MAX) by (unfold body; rewrite repeat_length; u_lia).
  clearbody body.
  destruct (begin_packet_spec (H := demo_sink) (new_lava_file_writer (H := demo_sink) demo_stream 0 false) [] None 5)
    as (w1 & _ & H1 & _).
  { apply (new_lava_writer_inv (H := demo_sink)); [exact demo_stream_ok|reflexivity]. }
  { repeat split; [constructor|by vm_compute|by vm_compute]. }
  destruct (writing_spec (H := demo_sink) w1 [] 5 [] (emit (ByteSink := @packet_sink _ demo_sink) body) body H1)
    as (w2 & _ & H2 & _).
  { apply demo_body. rewrite Hlen. by vm_compute. }
  exists w2, body. split; [exact H2|].
  apply (packet_bounds_enforced (H := demo_sink) demo_decoder false 4096 0 true 0 overread_packet false w2 [] 5 body 6);
    [reflexivity|by vm_compute|exact H2|lia|].
  rewrite (pi_stream (H := demo_sink) _ _ _ H2). cbn [open_bytes fst snd]. rewrite !length_app, !length_le_encode.
  change (length (stream_of [])) with 0%nat. cbn [length]. u_lia.
Defined.

(** A handle is read back with its object's index and the packet that last
    modified the object, except where no wait is needed: in isolated decoding, on
    the thread that modified it itself, and, since the thread is written as a
    signed byte, for every thread from 128 on, whose modifications nobody waits for. *)
Theorem handle_dependency (codec : list byte -> Z -> option (list byte)) (debug : bool) (k fstart : Z)
    (p__allow_stalls : bool) (preload_bytes : Z) (r : lava_file_reader) (t : trackable) (isolated : bool)
    (rest : list byte)
    (Hrelease : debug = false) (Hstall : p__allow_stalls = true \/ preload_bytes <= 0) (Hk : 0 <= k)
    (Hr : following codec (base r)) (Hindex : u32 (t_index t))
    (Hthread : u8 (cs_thread (t_last_modified t))) (Hpacket : u32 (cs_packet (t_last_modified t)))
    (Hnext : reader_remaining codec (base r) = encode_handle (Some t) ++ rest) :
  exists r', read_handle codec debug (2 ^ k) fstart p__allow_stalls preload_bytes isolated r =
      Ok (t_index t,
          if isolated || (128 <=? cs_thread (t_last_modified t)) ||
             (cs_thread (t_last_modified t) =? cs_thread (r_current r)) then None
          else Some (cs_thread (t_last_modified t), cs_packet (t_last_modified t)), r') /\
    following codec (base r') /\ reader_remaining codec (base r') = rest.
Proof.
  unfold encode_handle in Hnext. rewrite <- !app_assoc in Hnext. unfold read_handle.
  set (th := cs_thread (t_last_modified t)) in *.
  assert (Hth : wrap 8 th = th) by (apply wrap_small; u_lia). rewrite Hth in Hnext.
  destruct (rread_le codec debug k fstart p__allow_stalls preload_bytes Hrelease Hstall Hk 4 (t_index t) r _ Hr
    ltac:(change (256 ^ Z.of_nat 4) with (2 ^ 32); u_lia) Hnext) as (b1 & -> & F1 & R1 & _). cbn [obind].
  destruct (rread_le codec debug k fstart p__allow_stalls preload_bytes Hrelease Hstall Hk 1 th (with_base r b1) _ F1
    ltac:(change (256 ^ Z.of_nat 1) with 256; u_lia) R1) as (b2 & -> & F2 & R2 & _). cbn [obind].
  destruct (rread_le codec debug k fstart p__allow_stalls preload_bytes Hrelease Hstall Hk 4 (cs_packet (t_last_modified t))
    (with_base (with_base r b1) b2) _ F2
    ltac:(change (256 ^ Z.of_nat 4) with (2 ^ 32); u_lia) R2) as (b3 & -> & F3 & R3 & _). cbn [obind].
  cbn [with_base r_current]. unfold to_signed. change (2 ^ (8 - 1)) with 128. change (2 ^ 8) with 256.
  assert (Hb : u8 th) by done. unfold u8, UINT8_MAX in Hb.
  destruct (th <? 128) eqn:E; bool_to_prop.
  - rewrite (proj2 (Z.ltb_ge th 0)), (proj2 (Z.leb_gt 128 th)) by lia.
    destruct (isolated || false || (th =? cs_thread (r_current r))); eexists; (split; [reflexivity|done]).
  - rewrite (proj2 (Z.ltb_lt (th - 256) 0)), (proj2 (Z.leb_le 128 th)) by lia.
    rewrite orb_true_r. cbn [orb]. eexists. split; [reflexivity|done].
Qed.

Definition late_thread_handle : trackable := Trackable 7 created (ChangeSource 3 0 200 2 1).

Definition handle_reader : file_reader :=
  FileReader true false true false (encode_handle (Some late_thread_handle)) 9 9 0 UINT64_MAX 0 0 6 [] 0 0 0 2 3 [].

Lemma handle_dependency_witness :
  exists r', read_handle demo_decoder false 4096 0 true 0 false (new_lava_file_reader handle_reader 1) =
      Ok (7, None, r') /\ following demo_decoder (base r') /\ reader_remaining demo_decoder (base r') = [].
Proof.
  apply (handle_dependency demo_decoder false 12 0 true 0 (new_lava_file_reader handle_reader 1) late_thread_handle false []);
    [reflexivity|by left|lia| |by vm_compute|by vm_compute|by vm_compute|reflexivity].
  split; [|split; [reflexivity|by vm_compute]]. split; [|split; [|by vm_compute]].
  - exists []. split; try reflexivity; try (by vm_compute).
  - split; [by vm_compute|by vm_compute|constructor].
Defined.

Lemma read_targets_ok codec debug k fstart stalls preload (Hrelease : debug = false)
    (Hstall : stalls = true \/ preload <= 0) (Hk : 0 <= k) l : forall r rest,
  following codec (base r) -> Forall (fun i => 0 <= i < UINT32_MAX) l ->
  reader_remaining codec (base r) = encode_targets l ++ rest ->
  exists b, read_targets codec debug (2 ^ k) fstart stalls preload (length l) r = Ok (l, with_base r b) /\
    following codec b /\ reader_remaining codec b = rest /\
    read_position b = read_position (base r) + Z.of_nat (length (encode_targets l)).
Proof.
  induction l as [|i l IH]; intros r rest Hf Hl Hr.
  - exists (base r). simpl in *. split; [by destruct r|]. split; [done|]. split; [done|lia].
  - apply Forall_cons in Hl as [Hi Hl]. unfold encode_targets in Hr. cbn [map concat] in Hr. rewrite <- app_assoc in Hr.
    destruct (rread_le codec debug k fstart stalls preload Hrelease Hstall Hk 4 i r _ Hf
      ltac:(change (256 ^ Z.of_nat 4) with (2 ^ 32); u_lia) Hr) as (b1 & E1 & F1 & R1 & P1).
    destruct (IH (with_base r b1) rest F1 Hl R1) as (b2 & E2 & F2 & R2 & P2).
    exists b2. cbn [length read_targets]. rewrite E1. cbn [obind].
    unfold assert_in. rewrite (proj2 (Z.eqb_neq i UINT32_MAX)) by lia. rewrite andb_false_r. cbn [obind].
    rewrite E2. cbn [obind]. split; [done|]. split; [done|]. split; [done|].
    rewrite P2. cbn [base with_base]. rewrite P1. unfold encode_targets. cbn [map concat].
    rewrite length_app, length_le_encode. lia.
Qed.

(** A replayed barrier finds the packet indices the capture wrote, in thread
    order, and its packet counts as completed before any of its waits begin. *)
Theorem barrier_read_back (codec : list byte -> Z -> option (list byte)) (debug : bool) (k fstart : Z)
    (p__allow_stalls : bool) (preload_bytes : Z) (r : lava_file_reader) (l : list Z) (rest : list byte)
    (Hrelease : debug = false) (Hstall : p__allow_stalls = true \/ preload_bytes <= 0) (Hk : 0 <= k)
    (Hr : following codec (base r)) (Hl : valid_targets l) (Hopen : current_packet_open r = true)
    (Hend : current_packet_end r = read_position (base r) + Z.of_nat (length (barrier_packet l).2))
    (Hnext : reader_remaining codec (base r) = (barrier_packet l).2 ++ rest) :
  exists r', read_barrier codec debug (2 ^ k) fstart p__allow_stalls preload_bytes r = Ok (l, r') /\
    current_barrier_packet_indices r' = l /\ current_packet_open r' = false /\
    completed_packets r' = wrap64 (completed_packets r + 1) /\
    following codec (base r') /\ reader_remaining codec (base r') = rest.
Proof.
  destruct Hl as [Hn Hl]. unfold barrier_packet in Hnext, Hend. cbn [snd] in Hnext, Hend. rewrite <- app_assoc in Hnext.
  destruct (rread_le codec debug k fstart p__allow_stalls preload_bytes Hrelease Hstall Hk 1 (Z.of_nat (length l)) r _ Hr
    ltac:(change (256 ^ Z.of_nat 1) with 256; unfold UINT8_MAX in Hn; lia) Hnext) as (b1 & E1 & F1 & R1 & P1).
  destruct (read_targets_ok codec debug k fstart p__allow_stalls preload_bytes Hrelease Hstall Hk l (with_base r b1) rest
    F1 Hl R1) as (b2 & E2 & F2 & R2 & P2).
  unfold read_barrier. rewrite E1. cbn [obind]. rewrite Nat2Z.id, E2. cbn [obind].
  rewrite length_app, length_le_encode in Hend. cbn [base with_base] in P2.
  unfold complete_packet. cbn [current_packet_open base with_base current_packet_end]. rewrite Hopen. cbn [negb].
  rewrite Z.gtb_ltb, (proj2 (Z.ltb_ge _ _)) by lia. cbn [negb obind require].
  rewrite (proj2 (Z.ltb_ge _ _)) by lia. eexists. split; [reflexivity|].
  cbn [current_barrier_packet_indices current_packet_open completed_packets base]. done.
Qed.

Definition barrier_reader : lava_file_reader :=
  LavaFileReader
    (FileReader true false true false (packet_bytes (barrier_packet [4; 0])) 14 14 5 UINT64_MAX 0 0 6 [] 0 0 0 2 3 [])
    (ChangeSource 0 0 1 3 UINT16_MAX) true 0 14 14 false 0 [].

Lemma barrier_read_back_witness :
  exists r', read_barrier demo_decoder false 4096 0 true 0 barrier_reader = Ok ([4; 0], r') /\
    current_barrier_packet_indices r' = [4; 0] /\ current_packet_open r' = false /\
    completed_packets r' = wrap64 (completed_packets barrier_reader + 1) /\
    following demo_decoder (base r') /\ reader_remaining demo_decoder (base r') = [].
Proof.
  apply (barrier_read_back demo_decoder false 12 0 true 0 barrier_reader [4; 0] []);
    [reflexivity|by left|lia| |split; [by vm_compute|repeat constructor; by vm_compute]|reflexivity|reflexivity|reflexivity].
  split; [|split; [reflexivity|by vm_compute]]. split; [|split; [|by vm_compute]].
  - exists []. split; try reflexivity; try (by vm_compute).
  - split; [by vm_compute|by vm_compute|constructor].
Defined.
