(* ===== verification/Sync.v ===== *)
(** * Ordering between threads: what is recorded and how it is replayed
    (src/write.h, src/write.cpp, src/read.h, doc/Multithreading.md)

    Every thread of the application records into a stream of its own. Order
    between threads is kept in two ways: a handle in a packet names the thread and
    the packet that last modified its object, and a barrier packet holds the
    current packet of every thread. A replayed thread waits until the others have
    completed that many packets. This file models the recording of all threads as
    a state with one operation per event, and the replay as a step function under
    an arbitrary schedule. Packets are reduced to what they wait for; [Packets]
    has their bytes. *)

From Stdlib Require Import ZArith Lia Bool.
From stdpp Require Import base numbers list.
From S2P Require Import Prelude.

#[local] Open Scope Z_scope.

(** ** Recording *)

(** a thread and the number of its packets that must be complete *)
Definition wait : Type := (nat * nat)%type.

Inductive recorded :=
  | Call (waits : list wait)
  | Barrier (targets : list nat).

#[export] Instance recorded_eq_dec : EqDecision recorded.
Proof. solve_decision. Defined.

Record thread_stream := ThreadStream {
  ended : list recorded;
  opened : option (list wait);     (** the waits of the packet being written *)
  pending : bool;                  (** [pending_barrier] *)
  active : bool                    (** [thread_barriers_active] *)
}.

Definition current_packet (s : thread_stream) : nat := length (ended s).

(** the capture: [thread_streams], the objects' [last_modified], and, kept only for
    the proofs, the order in which packets of all threads ended *)
Record recorder := Recorder {
  streams : list thread_stream;
  last_modified : nat -> option (nat * nat);
  ends : list nat
}.

Definition nothing_recorded : recorder := Recorder [] (fun _ => None) [].

Definition with_streams (r : recorder) (l : list thread_stream) : recorder := Recorder l (last_modified r) (ends r).

Definition current_packets (r : recorder) : list nat := map current_packet (streams r).

Definition stream_at (r : recorder) (t : nat) : outcome thread_stream :=
  match streams r !! t with Some s => Ok s | None => Fail OutOfRange end.

Definition set_stream (r : recorder) (t : nat) (s : thread_stream) : recorder :=
  with_streams r (<[t := s]> (streams r)).

(** a packet is appended to the stream of a thread *)
Definition add_ended (r : recorder) (t : nat) (s : thread_stream) (p : recorded) : recorder :=
  Recorder (<[t := ThreadStream (ended s ++ [p]) None (pending s) (active s)]> (streams r)) (last_modified r)
    (ends r ++ [t]).

Definition end_open (t : nat) (r : recorder) : outcome recorder :=
  let* s := stream_at r t in
  match opened s with
  | None => Ok r
  | Some ws => Ok (add_ended r t s (Call ws))
  end.

Definition begin_open (t : nat) (r : recorder) : outcome recorder :=
  let* r := end_open t r in
  let* s := stream_at r t in
  Ok (set_stream r t (ThreadStream (ended s) (Some []) (pending s) (active s))).

(** the assertions of [write_thread_barrier] *)
Definition writable (targets : list nat) : bool :=
  (Z.of_nat (length targets) <=? UINT8_MAX) &&
  forallb (fun i => negb (Z.of_nat i =? UINT32_MAX)) targets.

Definition inject_barrier (t : nat) (r : recorder) : outcome recorder :=
  let packet_indices := current_packets r in
  let* _ := require (writable packet_indices) AssertFailed in
  let* r := end_open t r in
  let* s := stream_at r t in
  Ok (add_ended r t s (Barrier packet_indices)).

Definition clear_pending (t : nat) (r : recorder) : outcome recorder :=
  let* s := stream_at r t in
  Ok (set_stream r t (ThreadStream (ended s) (opened s) false (active s))).

(** the start of a command while capturing: [write_header] *)
Definition start_command (thread_barrier : bool) (t : nat) (r : recorder) : outcome recorder :=
  let* r := if thread_barrier then inject_barrier t r else Ok r in
  let* s := stream_at r t in
  let* r := if pending s then let* r := inject_barrier t r in clear_pending t r else Ok r in
  begin_open t r.

Definition push_thread_barriers (t : nat) (r : recorder) : outcome recorder :=
  let* _ := stream_at r t in
  Ok (with_streams r
        (imap (fun i s => if Nat.eqb i t || negb (active s) then s
                          else ThreadStream (ended s) (opened s) true (active s)) (streams r))).

(** The thread field of a handle is a signed byte; from 128 on it reads as negative. *)
Definition handle_waits (t : nat) (source : option (nat * nat)) : list wait :=
  match source with
  | None => []
  | Some (u, p) => if Nat.eqb u t || Nat.leb 128 u then [] else [(u, S p)]
  end.

(** [write_handle] of an object, and [last_modified = writer.current] where the
    command modifies it *)
Definition use_object (modifies : bool) (t o : nat) (r : recorder) : outcome recorder :=
  let* s := stream_at r t in
  match opened s with
  | None => Fail AssertFailed
  | Some ws =>
      let r := set_stream r t
        (ThreadStream (ended s) (Some (ws ++ handle_waits t (last_modified r o))) (pending s) (active s)) in
      if modifies then
        Ok (Recorder (streams r) (fun o' => if Nat.eqb o' o then Some (t, current_packet s) else last_modified r o')
              (ends r))
      else Ok r
  end.

(** a thread's first traced command: its stream starts with a barrier *)
Definition make_writer (r : recorder) : outcome recorder :=
  let packet_indices := current_packets r in
  let* _ := require (writable packet_indices) AssertFailed in
  Ok (Recorder (streams r ++ [ThreadStream [Barrier packet_indices] None false true]) (last_modified r)
        (ends r ++ [length (streams r)])).

Inductive action :=
  | NewThread
  | StartCommand (thread_barrier : bool) (t : nat)
  | UseObject (modifies : bool) (t o : nat)
  | Push (t : nat)
  | EndPacket (t : nat).

Definition do_action (a : action) (r : recorder) : outcome recorder :=
  match a with
  | NewThread => make_writer r
  | StartCommand tb t => start_command tb t r
  | UseObject m t o => use_object m t o r
  | Push t => push_thread_barriers t r
  | EndPacket t => end_open t r
  end.

Fixpoint record (acts : list action) (r : recorder) : outcome recorder :=
  match acts with
  | [] => Ok r
  | a :: acts' => let* r := do_action a r in record acts' r
  end.

(** Vulkan's external synchronization: a command gets an object only after the
    command that last modified it on another thread has returned. *)
Definition synchronized (a : action) (r : recorder) : Prop :=
  match a with
  | UseObject _ t o =>
      match last_modified r o with
      | Some (u, p) => u = t \/ exists s, streams r !! u = Some s /\ (p < current_packet s)%nat
      | None => True
      end
  | _ => True
  end.

Fixpoint all_synchronized (acts : list action) (r : recorder) : Prop :=
  match acts with
  | [] => True
  | a :: acts' => synchronized a r /\ forall r', do_action a r = Ok r' -> all_synchronized acts' r'
  end.

(** ** Replay *)

Definition trace : Type := list (list recorded).

Definition trace_of (r : recorder) : trace := map ended (streams r).

Inductive phase :=
  | Between
  | InCall (waits : list wait)           (** in [read_handle], before the packet completes *)
  | AfterBarrier (waits : list wait).    (** in [read_barrier], its packet completed *)

Record replay_thread := ReplayThread {
  completed : nat;      (** the entry of [thread_packet_numbers] *)
  at_phase : phase
}.

(** own entries are skipped *)
Definition waits_of (t : nat) (p : recorded) : list wait :=
  match p with
  | Call ws => ws
  | Barrier targets => filter (fun w => w.1 <> t) (imap pair targets)
  end.

Definition completed_of (st : list replay_thread) (u : nat) : nat :=
  match st !! u with Some r => completed r | None => 0%nat end.

Definition satisfied (st : list replay_thread) (w : wait) : bool := Nat.leb w.2 (completed_of st w.1).

(** one step of thread [t]; [None] when it has to wait or has ended *)
Definition replay_step (tr : trace) (t : nat) (st : list replay_thread) : option (list replay_thread) :=
  match st !! t, tr !! t with
  | Some r, Some packets =>
      match at_phase r with
      | Between =>
          match packets !! completed r with
          | None => None
          | Some (Call ws) => Some (<[t := ReplayThread (completed r) (InCall ws)]> st)
          | Some (Barrier targets) =>
              Some (<[t := ReplayThread (S (completed r)) (AfterBarrier (waits_of t (Barrier targets)))]> st)
          end
      | InCall [] => Some (<[t := ReplayThread (S (completed r)) Between]> st)
      | AfterBarrier [] => Some (<[t := ReplayThread (completed r) Between]> st)
      | InCall (w :: ws) =>
          if satisfied st w then Some (<[t := ReplayThread (completed r) (InCall ws)]> st) else None
      | AfterBarrier (w :: ws) =>
          if satisfied st w then Some (<[t := ReplayThread (completed r) (AfterBarrier ws)]> st) else None
      end
  | _, _ => None
  end.

Definition replay_start (tr : trace) : list replay_thread := map (fun _ => ReplayThread 0 Between) tr.

(** a schedule names the threads that make progress, in order *)
Fixpoint replay (tr : trace) (schedule : list nat) (st : list replay_thread) : option (list replay_thread) :=
  match schedule with
  | [] => Some st
  | t :: rest =>
      match replay_step tr t st with
      | Some st' => replay tr rest st'
      | None => None
      end
  end.

Definition finished (tr : trace) (st : list replay_thread) : Prop :=
  forall t packets, tr !! t = Some packets -> st !! t = Some (ReplayThread (length packets) Between).

(** ** The order of the recording *)

Abbreviation count := (count_occ Nat.eq_dec).

Record ordered (r : recorder) : Prop := {
  od_count : forall t s, streams r !! t = Some s -> count (ends r) t = current_packet s;
  od_none : forall t, streams r !! t = None -> count (ends r) t = 0%nat;
  od_ended : forall t s j p w, streams r !! t = Some s -> ended s !! j = Some p -> In w (waits_of t p) ->
    w.1 <> t /\ forall l l', ends r = l ++ l' -> (j < count l t)%nat -> (w.2 <= count l w.1)%nat;
  od_open : forall t s ws w, streams r !! t = Some s -> opened s = Some ws -> In w ws ->
    w.1 <> t /\ (w.2 <= count (ends r) w.1)%nat
}.

(** what the recording holds only grows *)
Definition extends (r r' : recorder) : Prop :=
  ends r `prefix_of` ends r' /\
  forall t s, streams r !! t = Some s -> exists s', streams r' !! t = Some s' /\ ended s `prefix_of` ended s'.

Lemma extends_refl r : extends r r.
Proof. split; [done|]. intros t s H. by exists s. Qed.

Lemma extends_trans r1 r2 r3 : extends r1 r2 -> extends r2 r3 -> extends r1 r3.
Proof.
  intros [E1 H1] [E2 H2]. split; [by etrans|]. intros t s Hs. destruct (H1 t s Hs) as (s2 & Hs2 & P1).
  destruct (H2 t s2 Hs2) as (s3 & Hs3 & P2). exists s3. split; [done|]. by etrans.
Qed.

Lemma nothing_ordered : ordered nothing_recorded.
Proof. split; try done. Qed.

Lemma stream_at_ok r t s : stream_at r t = Ok s -> streams r !! t = Some s.
Proof. unfold stream_at. destruct (streams r !! t); congruence. Qed.

Lemma count_app_le u l l' : (count l u <= count (l ++ l') u)%nat.
Proof. rewrite count_occ_app. lia. Qed.

Lemma count_prefix u l l' : l `prefix_of` l' -> (count l u <= count l' u)%nat.
Proof. intros [k ->]. apply count_app_le. Qed.

Lemma set_stream_ordered r t s s' :
  ordered r -> streams r !! t = Some s -> ended s' = ended s ->
  (forall ws w, opened s' = Some ws -> In w ws -> w.1 <> t /\ (w.2 <= count (ends r) w.1)%nat) ->
  ordered (set_stream r t s') /\ extends r (set_stream r t s').
Proof.
  intros [O1 O2 O3 O4] Hs He Ho.
  assert (Hlook : forall t' x, streams (set_stream r t s') !! t' = Some x ->
    (t' = t /\ x = s') \/ (t' <> t /\ streams r !! t' = Some x)).
  { intros t' x H. simpl in H. destruct (decide (t' = t)) as [->|Hn].
    - left. rewrite list_lookup_insert_eq in H by (by eapply lookup_lt_Some). by injection H as <-.
    - right. rewrite list_lookup_insert_ne in H by done. done. }
  split.
  - split; simpl.
    + intros t' x H. destruct (Hlook t' x H) as [[-> ->]|[_ H']]; [|by apply O1].
      unfold current_packet. rewrite He. by apply O1.
    + intros t' H. apply O2. rewrite lookup_ge_None in *. by rewrite length_insert in H.
    + intros t' x j p w H Hj Hw. destruct (Hlook t' x H) as [[-> ->]|[_ H']]; [|by eapply O3].
      rewrite He in Hj. by eapply O3.
    + intros t' x ws w H Hx Hw. destruct (Hlook t' x H) as [[-> ->]|[_ H']]; [by eapply Ho|by eapply O4].
  - split; [done|]. intros t' x H. simpl. destruct (decide (t' = t)) as [->|Hn].
    + exists s'. rewrite list_lookup_insert_eq by (by eapply lookup_lt_Some). split; [done|].
      rewrite He. rewrite Hs in H. by injection H as <-.
    + exists x. by rewrite list_lookup_insert_ne.
Qed.

Lemma add_ended_ordered r t s p :
  ordered r -> streams r !! t = Some s ->
  (forall w, In w (waits_of t p) -> w.1 <> t /\ (w.2 <= count (ends r) w.1)%nat) ->
  ordered (add_ended r t s p) /\ extends r (add_ended r t s p).
Proof.
  intros [O1 O2 O3 O4] Hs Hp. set (s' := ThreadStream (ended s ++ [p]) None (pending s) (active s)).
  assert (Hlook : forall t' x, <[t := s']> (streams r) !! t' = Some x ->
    (t' = t /\ x = s') \/ (t' <> t /\ streams r !! t' = Some x)).
  { intros t' x H. destruct (decide (t' = t)) as [->|Hn].
    - left. rewrite list_lookup_insert_eq in H by (by eapply lookup_lt_Some). by injection H as <-.
    - right. rewrite list_lookup_insert_ne in H by done. done. }
  assert (Hone : forall u, count [t] u = if decide (t = u) then 1%nat else 0%nat).
  { intros u. simpl. destruct (Nat.eq_dec t u), (decide (t = u)); done. }
  assert (Hcut : forall t' j w l l', t' <> t \/ (j < length (ended s))%nat ->
    (forall l l', ends r = l ++ l' -> (j < count l t')%nat -> (w.2 <= count l w.1)%nat) ->
    ends r ++ [t] = l ++ l' -> (j < count l t')%nat -> (t' = t -> count (ends r) t = length (ended s)) ->
    (w.2 <= count l w.1)%nat).
  { intros t' j w l l' Hj H El Hc Hcnt. destruct l' as [|y l' _] using rev_ind.
    - rewrite app_nil_r in El. subst l. rewrite count_occ_app, Hone in Hc.
      etrans; [|apply count_app_le]. apply (H (ends r) []); [by rewrite app_nil_r|].
      destruct (decide (t = t')) as [<-|]; [|lia]. rewrite Hcnt by done. destruct Hj as [?|?]; [done|lia].
    - rewrite app_assoc in El. apply app_inj_tail in El as [El <-]. by apply (H l l'). }
  split.
  - split; simpl.
    + intros t' x H. rewrite count_occ_app, Hone. destruct (Hlook t' x H) as [[-> ->]|[Hn H']].
      * rewrite (O1 t s Hs), decide_True by done. unfold current_packet, s'. simpl. rewrite length_app. done.
      * rewrite decide_False by done. rewrite (O1 t' x H'). lia.
    + intros t' H. rewrite count_occ_app, Hone. rewrite lookup_ge_None, length_insert in H.
      rewrite O2 by (by apply lookup_ge_None). rewrite decide_False; [done|].
      intros <-. apply lookup_lt_Some in Hs. lia.
    + intros t' x j q w H Hj Hw. destruct (Hlook t' x H) as [[-> ->]|[Hn H']].
      * simpl in Hj. destruct (decide (j < length (ended s))%nat) as [Hlt|Hge].
        -- rewrite lookup_app_l in Hj by done. destruct (O3 t s j q w Hs Hj Hw) as [W1 W2]. split; [done|].
           intros l l' El Hc. apply (Hcut t j w l l'); auto. intros _. by apply O1.
        -- rewrite lookup_app_r in Hj by lia. pose proof Hj as Hj'. apply lookup_lt_Some in Hj'. simpl in Hj'.
           replace (j - length (ended s))%nat with 0%nat in Hj by lia. injection Hj as <-.
           destruct (Hp w Hw) as [W1 W2]. split; [done|]. intros l l' El Hc.
           destruct l' as [|y l' _] using rev_ind.
           ++ rewrite app_nil_r in El. subst l. etrans; [exact W2|apply count_app_le].
           ++ rewrite app_assoc in El. apply app_inj_tail in El as [El <-].
              pose proof (count_prefix t l (ends r) ltac:(rewrite El; by apply prefix_app_r)) as Hle.
              rewrite (O1 t s Hs) in Hle. unfold current_packet in Hle. lia.
      * destruct (O3 t' x j q w H' Hj Hw) as [W1 W2]. split; [done|].
        intros l l' El Hc. apply (Hcut t' j w l l'); auto. intros ->. done.
    + intros t' x ws w H Hx Hw. destruct (Hlook t' x H) as [[-> ->]|[Hn H']]; [done|].
      destruct (O4 t' x ws w H' Hx Hw) as [W1 W2]. split; [done|]. etrans; [exact W2|apply count_app_le].
  - split; [by apply prefix_app_r|]. intros t' x H. simpl. destruct (decide (t' = t)) as [->|Hn].
    + exists s'. rewrite list_lookup_insert_eq by (by eapply lookup_lt_Some). split; [done|].
      rewrite Hs in H. injection H as <-. by apply prefix_app_r.
    + exists x. by rewrite list_lookup_insert_ne.
Qed.

Lemma end_open_ordered t r r' : end_open t r = Ok r' -> ordered r -> ordered r' /\ extends r r'.
Proof.
  unfold end_open. intros E Ho. apply obind_ok_inv in E as (s & Es & E). apply stream_at_ok in Es.
  destruct (opened s) as [ws|] eqn:Eo; [|injection E as <-; split; [done|apply extends_refl]].
  injection E as <-. apply add_ended_ordered; [done|done|]. intros w Hw. exact (od_open r Ho t s ws w Es Eo Hw).
Qed.

(** the barrier of the current packets asks for nothing that is not recorded *)
Lemma snapshot_waits t r w :
  ordered r -> In w (waits_of t (Barrier (current_packets r))) ->
  w.1 <> t /\ (w.2 <= count (ends r) w.1)%nat.
Proof.
  intros Ho Hw. simpl in Hw. apply list_elem_of_In, list_elem_of_filter in Hw as [Hn Hw]. split; [done|].
  apply list_elem_of_lookup_1 in Hw as [i Hi]. rewrite list_lookup_imap in Hi.
  destruct (current_packets r !! i) as [c|] eqn:Ec; [|done]. injection Hi as <-. simpl.
  unfold current_packets in Ec. rewrite list_lookup_fmap in Ec.
  destruct (streams r !! i) as [s|] eqn:Es; [|done]. injection Ec as <-. by rewrite (od_count r Ho i s Es).
Qed.

Lemma inject_ordered t r r' : inject_barrier t r = Ok r' -> ordered r -> ordered r' /\ extends r r'.
Proof.
  unfold inject_barrier. intros E Ho. apply obind_ok_inv in E as (u & _ & E).
  apply obind_ok_inv in E as (r1 & E1 & E). apply obind_ok_inv in E as (s & Es & E). injection E as <-.
  destruct (end_open_ordered t r r1 E1 Ho) as [O1 X1]. apply stream_at_ok in Es.
  destruct (add_ended_ordered r1 t s (Barrier (current_packets r)) O1 Es) as [O2 X2].
  - intros w Hw. destruct (snapshot_waits t r w Ho Hw) as [W1 W2]. split; [done|]. etrans; [exact W2|].
    apply count_prefix, X1.
  - split; [done|]. by eapply extends_trans.
Qed.

Lemma begin_ordered t r r' : begin_open t r = Ok r' -> ordered r -> ordered r' /\ extends r r'.
Proof.
  unfold begin_open. intros E Ho. apply obind_ok_inv in E as (r1 & E1 & E).
  apply obind_ok_inv in E as (s & Es & E). injection E as <-. apply stream_at_ok in Es.
  destruct (end_open_ordered t r r1 E1 Ho) as [O1 X1].
  destruct (set_stream_ordered r1 t s (ThreadStream (ended s) (Some []) (pending s) (active s)) O1 Es eq_refl)
    as [O2 X2]; [by intros ws w [= <-]|].
  split; [done|]. by eapply extends_trans.
Qed.

Lemma start_command_ordered tb t r r' : start_command tb t r = Ok r' -> ordered r -> ordered r' /\ extends r r'.
Proof.
  unfold start_command. intros E Ho. apply obind_ok_inv in E as (r1 & E1 & E).
  apply obind_ok_inv in E as (s & Es & E). apply obind_ok_inv in E as (r2 & E2 & E). apply stream_at_ok in Es.
  assert (H1 : ordered r1 /\ extends r r1).
  { destruct tb; [by eapply inject_ordered|]. injection E1 as <-. split; [done|apply extends_refl]. }
  destruct H1 as [O1 X1].
  assert (H2 : ordered r2 /\ extends r1 r2).
  { destruct (pending s); [|injection E2 as <-; split; [done|apply extends_refl]].
    apply obind_ok_inv in E2 as (r3 & E3 & E2). destruct (inject_ordered t r1 r3 E3 O1) as [O3 X3].
    unfold clear_pending in E2. apply obind_ok_inv in E2 as (s3 & Es3 & E2). injection E2 as <-.
    apply stream_at_ok in Es3.
    destruct (set_stream_ordered r3 t s3 (ThreadStream (ended s3) (opened s3) false (active s3)) O3 Es3 eq_refl)
      as [O4 X4]; [intros ws w; by apply (od_open r3 O3 t s3)|].
    split; [done|]. by eapply extends_trans. }
  destruct H2 as [O2 X2]. destruct (begin_ordered t r2 r' E O2) as [O3 X3].
  split; [done|]. eapply extends_trans; [exact X1|]. by eapply extends_trans.
Qed.

(** an update that leaves what is recorded alone *)
Lemma same_record_ordered r l m :
  ordered r ->
  (forall t, l !! t = None <-> streams r !! t = None) ->
  (forall t s', l !! t = Some s' -> exists s, streams r !! t = Some s /\ ended s' = ended s /\ opened s' = opened s) ->
  ordered (Recorder l m (ends r)) /\ extends r (Recorder l m (ends r)).
Proof.
  intros [O1 O2 O3 O4] Hn Hs. split.
  - split; simpl.
    + intros t s' H. destruct (Hs t s' H) as (s & E & Ee & _). unfold current_packet. rewrite Ee. by apply O1.
    + intros t H. by apply O2, Hn.
    + intros t s' j p w H Hj. destruct (Hs t s' H) as (s & E & Ee & _). rewrite Ee in Hj. by eapply O3.
    + intros t s' ws w H Ho. destruct (Hs t s' H) as (s & E & _ & Eo). rewrite Eo in Ho. by eapply O4.
  - split; [done|]. intros t s H. simpl. destruct (l !! t) as [s'|] eqn:E.
    + exists s'. split; [done|]. destruct (Hs t s' E) as (s2 & E2 & Ee & _). rewrite Ee.
      rewrite H in E2. by injection E2 as <-.
    + apply Hn in E. congruence.
Qed.

Lemma push_ordered t r r' : push_thread_barriers t r = Ok r' -> ordered r -> ordered r' /\ extends r r'.
Proof.
  unfold push_thread_barriers. intros E Ho. apply obind_ok_inv in E as (s & _ & E). injection E as <-.
  apply same_record_ordered; [done| |]; intros t'; rewrite list_lookup_imap.
  - by destruct (streams r !! t').
  - intros s' H. destruct (streams r !! t') as [x|]; [|done]. simpl in H. exists x. split; [done|].
    destruct (Nat.eqb t' t || negb (active x)); injection H as <-; done.
Qed.

Lemma use_object_ordered m t o r r' :
  use_object m t o r = Ok r' -> synchronized (UseObject m t o) r -> ordered r -> ordered r' /\ extends r r'.
Proof.
  unfold use_object. intros E Hsync Ho. apply obind_ok_inv in E as (s & Es & E). apply stream_at_ok in Es.
  destruct (opened s) as [ws|] eqn:Eo; [|done].
  set (s' := ThreadStream (ended s) (Some (ws ++ handle_waits t (last_modified r o))) (pending s) (active s)) in *.
  destruct (set_stream_ordered r t s s' Ho Es eq_refl) as [O1 X1].
  { intros ws' w [= <-] Hw. apply in_app_or in Hw as [Hw|Hw]; [by apply (od_open r Ho t s ws)|].
    simpl in Hsync. unfold handle_waits in Hw. destruct (last_modified r o) as [[u p]|]; [|done].
    destruct (Nat.eqb u t) eqn:Eu; [done|]. destruct (Nat.leb 128 u); [done|].
    simpl in Hw. destruct Hw as [<-|[]]. apply Nat.eqb_neq in Eu. simpl. split; [done|].
    destruct Hsync as [?|(su & Hsu & Hp)]; [done|]. rewrite (od_count r Ho u su Hsu). lia. }
  destruct m; injection E as <-; [|by split].
  destruct (same_record_ordered _ (streams (set_stream r t s')) (fun o' => if Nat.eqb o' o then Some (t, current_packet s)
    else last_modified (set_stream r t s') o') O1) as [O2 X2]; [done|intros t' x H; by exists x|].
  split; [exact O2|]. eapply extends_trans; [exact X1|exact X2].
Qed.

Lemma make_writer_ordered r r' : make_writer r = Ok r' -> ordered r -> ordered r' /\ extends r r'.
Proof.
  unfold make_writer. intros E Ho. apply obind_ok_inv in E as (u & _ & E). injection E as <-.
  set (n := length (streams r)).
  (* first a stream without packets, then its barrier *)
  set (r1 := Recorder (streams r ++ [ThreadStream [] None false true]) (last_modified r) (ends r)).
  assert (Hlook : forall t s, streams r1 !! t = Some s ->
    streams r !! t = Some s \/ (t = n /\ s = ThreadStream [] None false true)).
  { intros t s H. simpl in H. destruct (decide (t < n)%nat).
    - left. by rewrite lookup_app_l in H by done.
    - rewrite lookup_app_r in H by (unfold n in *; lia). pose proof H as H'. apply lookup_lt_Some in H'. simpl in H'.
      right. fold n in H. split; [unfold n in *; lia|]. replace (t - n)%nat with 0%nat in H by (unfold n in *; lia).
      by injection H as <-. }
  assert (O1 : ordered r1).
  { destruct Ho as [O1 O2 O3 O4]. split.
    - intros t s H. destruct (Hlook t s H) as [H'|[-> ->]]; [by apply O1|]. apply O2, lookup_ge_None. done.
    - intros t H. apply O2. simpl in H. rewrite lookup_ge_None, length_app in *. lia.
    - intros t s j p w H. destruct (Hlook t s H) as [H'|[-> ->]]; [by eapply O3|done].
    - intros t s ws w H. destruct (Hlook t s H) as [H'|[-> ->]]; [by eapply O4|done]. }
  assert (Hn : streams r1 !! n = Some (ThreadStream [] None false true)).
  { simpl. rewrite lookup_app_r by (unfold n; lia). unfold n. by rewrite Nat.sub_diag. }
  destruct (add_ended_ordered r1 n _ (Barrier (current_packets r)) O1 Hn) as [O2 X2].
  { intros w Hw. exact (snapshot_waits n r w Ho Hw). }
  assert (Heq : add_ended r1 n (ThreadStream [] None false true) (Barrier (current_packets r)) =
    Recorder (streams r ++ [ThreadStream [Barrier (current_packets r)] None false true]) (last_modified r) (ends r ++ [n])).
  { unfold add_ended, r1. simpl. f_equal. rewrite insert_app_r_alt by (unfold n; lia). unfold n. by rewrite Nat.sub_diag. }
  rewrite Heq in O2, X2. split; [exact O2|]. eapply extends_trans; [|exact X2].
  split; [done|]. intros t s H. exists s. split; [|done]. simpl. rewrite lookup_app_l; [done|]. by eapply lookup_lt_Some.
Qed.

Lemma do_action_ordered a r r' :
  do_action a r = Ok r' -> synchronized a r -> ordered r -> ordered r' /\ extends r r'.
Proof.
  destruct a as [|tb t|m t o|t|t]; simpl; intros E Hs Ho.
  - by apply make_writer_ordered.
  - by eapply start_command_ordered.
  - by eapply (use_object_ordered m t o).
  - by eapply push_ordered.
  - by eapply end_open_ordered.
Qed.

Lemma record_ordered acts r r' :
  record acts r = Ok r' -> all_synchronized acts r -> ordered r -> ordered r' /\ extends r r'.
Proof.
  revert r; induction acts as [|a acts IH]; intros r E Hs Ho.
  - injection E as <-. split; [done|apply extends_refl].
  - simpl in E. apply obind_ok_inv in E as (r1 & E1 & E). destruct Hs as [Ha Hs].
    destruct (do_action_ordered a r r1 E1 Ha Ho) as [O1 X1].
    destruct (IH r1 E (Hs r1 E1) O1) as [O2 X2]. split; [done|]. by eapply extends_trans.
Qed.

(** ** The replay *)

Section Replay.
Variable tr : trace.

Abbreviation stepr := (replay_step tr).

Definition satisfied_by (st : list replay_thread) (w : wait) : Prop := (w.2 <= completed_of st w.1)%nat.

Definition done_upto (st : list replay_thread) (t : nat) (packets : list recorded) (n : nat) : Prop :=
  forall j p, (j < n)%nat -> packets !! j = Some p -> Forall (satisfied_by st) (waits_of t p).

(** what a replayed thread has waited for so far *)
Definition thread_ok (st : list replay_thread) (t : nat) (rt : replay_thread) (packets : list recorded) : Prop :=
  (completed rt <= length packets)%nat /\
  match at_phase rt with
  | Between => done_upto st t packets (completed rt)
  | InCall ws => done_upto st t packets (completed rt) /\
      exists pre, packets !! completed rt = Some (Call (pre ++ ws)) /\ Forall (satisfied_by st) pre
  | AfterBarrier ws => exists j targets pre, completed rt = S j /\ packets !! j = Some (Barrier targets) /\
      waits_of t (Barrier targets) = pre ++ ws /\ Forall (satisfied_by st) pre /\ done_upto st t packets j
  end.

Definition replay_ok (st : list replay_thread) : Prop :=
  length st = length tr /\
  forall t rt packets, st !! t = Some rt -> tr !! t = Some packets -> thread_ok st t rt packets.

Definition no_less (st st' : list replay_thread) : Prop := forall u, (completed_of st u <= completed_of st' u)%nat.

Lemma satisfied_mono st st' ws :
  no_less st st' -> Forall (satisfied_by st) ws -> Forall (satisfied_by st') ws.
Proof. intros Hn H. eapply Forall_impl; [exact H|]. intros w Hw. unfold satisfied_by in *. specialize (Hn w.1). lia. Qed.

Lemma done_upto_mono st st' t packets n :
  no_less st st' -> done_upto st t packets n -> done_upto st' t packets n.
Proof. intros Hn H j p Hj Hp. eapply satisfied_mono; [exact Hn|]. by eapply H. Qed.

Lemma thread_ok_mono st st' t rt packets :
  no_less st st' -> thread_ok st t rt packets -> thread_ok st' t rt packets.
Proof.
  intros Hn [Hc H]. split; [done|]. destruct (at_phase rt) as [|ws|ws].
  - by eapply done_upto_mono.
  - destruct H as [H (pre & Hp & Hs)]. split; [by eapply done_upto_mono|]. exists pre. split; [done|].
    by eapply satisfied_mono.
  - destruct H as (j & targets & pre & H1 & H2 & H3 & H4 & H5). exists j, targets, pre.
    do 3 (split; [done|]). split; [by eapply satisfied_mono|by eapply done_upto_mono].
Qed.

Lemma insert_no_less st t rt rt' :
  st !! t = Some rt -> (completed rt <= completed rt')%nat -> no_less st (<[t := rt']> st).
Proof.
  intros Ht Hc u. unfold completed_of. destruct (decide (u = t)) as [->|Hn].
  - rewrite Ht, list_lookup_insert_eq by (by eapply lookup_lt_Some). done.
  - by rewrite list_lookup_insert_ne.
Qed.

Lemma insert_ok st t rt rt' packets :
  replay_ok st -> st !! t = Some rt -> tr !! t = Some packets -> (completed rt <= completed rt')%nat ->
  (no_less st (<[t := rt']> st) -> thread_ok (<[t := rt']> st) t rt' packets) ->
  replay_ok (<[t := rt']> st) /\ no_less st (<[t := rt']> st).
Proof.
  intros [Hl Hok] Ht Hp Hc Hnew. pose proof (insert_no_less st t rt rt' Ht Hc) as Hn.
  split; [|done]. split; [by rewrite length_insert|]. intros t' x ps Hx Hps.
  destruct (decide (t' = t)) as [->|Hne].
  - rewrite list_lookup_insert_eq in Hx by (by eapply lookup_lt_Some). injection Hx as <-.
    rewrite Hp in Hps. injection Hps as <-. by apply Hnew.
  - rewrite list_lookup_insert_ne in Hx by done. eapply thread_ok_mono; [exact Hn|]. by apply Hok.
Qed.

Lemma done_upto_S st t packets n p :
  done_upto st t packets n -> packets !! n = Some p -> Forall (satisfied_by st) (waits_of t p) ->
  done_upto st t packets (S n).
Proof.
  intros H Hn Hw j q Hj Hq. destruct (decide (j = n)) as [->|]; [by rewrite Hn in Hq; injection Hq as <-|].
  apply (H j); [lia|done].
Qed.

Lemma replay_step_ok st t st' : replay_ok st -> stepr t st = Some st' -> replay_ok st' /\ no_less st st'.
Proof.
  intros Hr E. pose proof Hr as [Hl Hok]. unfold replay_step in E.
  destruct (st !! t) as [rt|] eqn:Et; [|done]. destruct (tr !! t) as [packets|] eqn:Ep; [|done].
  destruct (Hok t rt packets Et Ep) as [Hc H]. destruct (at_phase rt) as [|[|w ws]|[|w ws]] eqn:Eph.
  - destruct (packets !! completed rt) as [[ws|targets]|] eqn:Ek; [| |done]; injection E as <-;
      (apply (insert_ok st t rt _ packets Hr Et Ep); [simpl; lia|]); intros Hn; split; simpl.
    + done.
    + split; [by eapply done_upto_mono|]. by exists [].
    + apply lookup_lt_Some in Ek. lia.
    + exists (completed rt), targets, []. do 4 (split; [done|]). by eapply done_upto_mono.
  - injection E as <-. destruct H as [Hd (pre & Hp & Hs)]. rewrite app_nil_r in Hp.
    apply (insert_ok st t rt _ packets Hr Et Ep); [simpl; lia|]. intros Hn. split; simpl.
    + apply lookup_lt_Some in Hp. lia.
    + eapply done_upto_S; [by eapply done_upto_mono|exact Hp|]. by eapply satisfied_mono.
  - destruct (satisfied st w) eqn:Es; [|done]. injection E as <-. destruct H as [Hd (pre & Hp & Hs)].
    apply (insert_ok st t rt _ packets Hr Et Ep); [simpl; lia|]. intros Hn. split; simpl; [done|].
    split; [by eapply done_upto_mono|]. exists (pre ++ [w]). rewrite <- app_assoc. split; [done|].
    apply Forall_app. split; [by eapply satisfied_mono|]. constructor; [|done].
    apply Nat.leb_le in Es. unfold satisfied_by. specialize (Hn w.1). lia.
  - injection E as <-. destruct H as (j & targets & pre & H1 & H2 & H3 & H4 & H5). rewrite app_nil_r in H3.
    apply (insert_ok st t rt _ packets Hr Et Ep); [simpl; lia|]. intros Hn. split; simpl; [done|].
    rewrite H1 in Hn |- *. eapply done_upto_S; [by eapply done_upto_mono|exact H2|]. rewrite H3. by eapply satisfied_mono.
  - destruct (satisfied st w) eqn:Es; [|done]. injection E as <-.
    destruct H as (j & targets & pre & H1 & H2 & H3 & H4 & H5).
    apply (insert_ok st t rt _ packets Hr Et Ep); [simpl; lia|]. intros Hn. split; simpl; [done|].
    exists j, targets, (pre ++ [w]). rewrite <- app_assoc. do 3 (split; [done|]).
    split; [|by eapply done_upto_mono].
    apply Forall_app. split; [by eapply satisfied_mono|]. constructor; [|done].
    apply Nat.leb_le in Es. unfold satisfied_by. specialize (Hn w.1). lia.
Qed.

Lemma replay_start_ok : replay_ok (replay_start tr).
Proof.
  split; [unfold replay_start; by rewrite length_map|]. intros t rt packets Ht _.
  unfold replay_start in Ht. rewrite list_lookup_fmap in Ht. apply fmap_Some in Ht as (x & _ & ->).
  split; simpl; [lia|]. intros j p Hj. lia.
Qed.

Lemma replay_ok_run schedule st st' : replay tr schedule st = Some st' -> replay_ok st -> replay_ok st' /\ no_less st st'.
Proof.
  revert st; induction schedule as [|t schedule IH]; intros st E Hr; simpl in E.
  - injection E as <-. split; [done|]. intros u. done.
  - destruct (stepr t st) as [st1|] eqn:E1; [|done]. destruct (replay_step_ok st t st1 Hr E1) as [H1 N1].
    destruct (IH st1 E H1) as [H2 N2]. split; [done|]. intros u. specialize (N1 u). specialize (N2 u). lia.
Qed.

(** every step uses up some of what is left to do *)
Definition packet_work (p : recorded) : nat :=
  (2 + match p with Call ws => length ws | Barrier targets => length targets end)%nat.

Definition thread_work (packets : list recorded) (rt : replay_thread) : nat :=
  match at_phase rt with
  | Between => list_sum (map packet_work (drop (completed rt) packets))
  | InCall ws => (list_sum (map packet_work (drop (S (completed rt)) packets)) + 1 + length ws)%nat
  | AfterBarrier ws => (list_sum (map packet_work (drop (completed rt) packets)) + 1 + length ws)%nat
  end.

Definition work (st : list replay_thread) : nat :=
  list_sum (imap (fun t rt => thread_work (default [] (tr !! t)) rt) st).

Lemma sum_insert (f : nat -> replay_thread -> nat) st t rt rt' :
  st !! t = Some rt ->
  (list_sum (imap f (<[t := rt']> st)) + f t rt = list_sum (imap f st) + f t rt')%nat.
Proof.
  revert f t; induction st as [|x st IH]; intros f t H; [done|]. destruct t as [|t]; simpl in H |- *.
  - injection H as ->. lia.
  - specialize (IH (f ∘ S) t H). unfold compose in IH. simpl in IH. unfold compose. lia.
Qed.

Lemma work_cons p l : list_sum (map packet_work (p :: l)) = (packet_work p + list_sum (map packet_work l))%nat.
Proof. done. Qed.

Lemma length_barrier_waits t targets : (length (waits_of t (Barrier targets)) <= length targets)%nat.
Proof. simpl. etrans; [apply length_filter|]. by rewrite length_imap. Qed.

Lemma replay_step_work st t st' : replay_ok st -> stepr t st = Some st' -> (work st' < work st)%nat.
Proof.
  intros Hr E. unfold replay_step in E.
  destruct (st !! t) as [rt|] eqn:Et; [|done]. destruct (tr !! t) as [packets|] eqn:Ep; [|done].
  assert (Hlt : forall rt', st' = <[t := rt']> st -> (thread_work packets rt' < thread_work packets rt)%nat ->
    (work st' < work st)%nat).
  { intros rt' -> H. pose proof (sum_insert (fun t rt => thread_work (default [] (tr !! t)) rt) st t rt rt' Et) as Hs.
    simpl in Hs. rewrite Ep in Hs. simpl in Hs. unfold work. lia. }
  destruct (at_phase rt) as [|[|w ws]|[|w ws]] eqn:Eph.
  - destruct (packets !! completed rt) as [p|] eqn:Ek; [|done].
    pose proof (drop_S packets p (completed rt) Ek) as Hd.
    destruct p as [ws|targets]; injection E as <-; (eapply Hlt; [reflexivity|]);
      unfold thread_work; rewrite Eph, Hd, work_cons; cbn [at_phase completed].
    + change (packet_work (Call ws)) with (2 + length ws)%nat. lia.
    + change (packet_work (Barrier targets)) with (2 + length targets)%nat.
      pose proof (length_barrier_waits t targets) as Hb. simpl in Hb |- *. lia.
  - injection E as <-. eapply Hlt; [reflexivity|]. unfold thread_work. rewrite Eph. simpl. lia.
  - destruct (satisfied st w); [|done]. injection E as <-. eapply Hlt; [reflexivity|].
    unfold thread_work. rewrite Eph. simpl. lia.
  - injection E as <-. eapply Hlt; [reflexivity|]. unfold thread_work. rewrite Eph. simpl. lia.
  - destruct (satisfied st w); [|done]. injection E as <-. eapply Hlt; [reflexivity|].
    unfold thread_work. rewrite Eph. simpl. lia.
Qed.
End Replay.

(** ** The replay of a recording *)

(** the recorded order up to the first packet a replay has not completed *)
Lemma first_incomplete (comp : nat -> nat) rest : forall l,
  (forall u, (count l u <= comp u)%nat) ->
  (forall u, (count (l ++ rest) u <= comp u)%nat) \/
  exists l1 t l2, l ++ rest = l1 ++ t :: l2 /\ (forall u, (count l1 u <= comp u)%nat) /\ comp t = count l1 t.
Proof.
  induction rest as [|t rest IH]; intros l H; [left; by rewrite app_nil_r|].
  destruct (decide (count l t < comp t)%nat) as [Hlt|Hge].
  - destruct (IH (l ++ [t])) as [H1|(l1 & t1 & l2 & E & H1 & H2)].
    + intros u. rewrite count_occ_app. simpl. specialize (H u). destruct (Nat.eq_dec t u) as [<-|]; lia.
    + left. intros u. specialize (H1 u). by rewrite <- app_assoc in H1.
    + right. exists l1, t1, l2. rewrite <- app_assoc in E. by split.
  - right. exists l, t, rest. split; [done|]. split; [done|]. specialize (H t). lia.
Qed.

Definition is_between (rt : replay_thread) : bool := match at_phase rt with Between => true | _ => false end.

Section Progress.
Variable r : recorder.
Hypothesis recorded_in_order : ordered r.

Lemma trace_at t : trace_of r !! t = ended <$> streams r !! t.
Proof. exact (list_lookup_fmap ended (streams r) t). Qed.

Lemma trace_lookup t packets :
  trace_of r !! t = Some packets ->
  count (ends r) t = length packets /\
  forall j p w, packets !! j = Some p -> In w (waits_of t p) ->
    w.1 <> t /\ forall l l', ends r = l ++ l' -> (j < count l t)%nat -> (w.2 <= count l w.1)%nat.
Proof.
  rewrite trace_at. intros H. apply fmap_Some in H as (s & Hs & ->).
  split; [exact (od_count r recorded_in_order t s Hs)|]. intros j p w. exact (od_ended r recorded_in_order t s j p w Hs).
Qed.

Lemma replay_lookup st t : replay_ok (trace_of r) st -> (0 < count (ends r) t)%nat ->
  exists rt packets, st !! t = Some rt /\ trace_of r !! t = Some packets.
Proof.
  intros [Hl _] Hc. destruct (trace_of r !! t) as [packets|] eqn:Ep.
  - destruct (st !! t) as [rt|] eqn:Et; [by eauto|]. apply lookup_ge_None in Et. apply lookup_lt_Some in Ep. lia.
  - rewrite trace_at in Ep. apply fmap_None in Ep.
    rewrite (od_none r recorded_in_order t Ep) in Hc. lia.
Qed.

(** a thread after a barrier can go on once the order up to its packet is complete *)
Lemma after_barrier_step st t rt packets ws l l' :
  replay_ok (trace_of r) st -> st !! t = Some rt -> trace_of r !! t = Some packets ->
  at_phase rt = AfterBarrier ws -> ends r = l ++ l' -> (completed rt <= count l t)%nat ->
  (forall u, (count l u <= completed_of st u)%nat) -> exists st', replay_step (trace_of r) t st = Some st'.
Proof.
  intros [_ Hok] Et Ep Eph El Hc Hall. destruct (Hok t rt packets Et Ep) as [_ H]. rewrite Eph in H.
  destruct H as (j & targets & pre & H1 & H2 & H3 & _). unfold replay_step. rewrite Et, Ep, Eph.
  destruct ws as [|w ws]; [by eauto|]. destruct (trace_lookup t packets Ep) as [_ Hw].
  destruct (Hw j _ w H2) as [_ Hsat]; [rewrite H3; apply in_or_app; right; by left|].
  specialize (Hsat l l' El ltac:(lia)). specialize (Hall w.1).
  unfold satisfied. rewrite (proj2 (Nat.leb_le _ _)) by lia. eauto.
Qed.

Lemma replay_progress st :
  replay_ok (trace_of r) st ->
  finished (trace_of r) st \/ exists t st', replay_step (trace_of r) t st = Some st'.
Proof.
  intros Hr. pose proof Hr as [Hlen Hok].
  destruct (first_incomplete (completed_of st) (ends r) [] (fun u => le_0_n _)) as [Hall|(l1 & t & l2 & El & Hl & Hc)].
  - simpl in Hall. destruct (decide (Forall (fun rt => is_between rt = true) st)) as [Hb|Hb].
    + left. intros t packets Ep. destruct (st !! t) as [rt|] eqn:Et.
      2:{ apply lookup_ge_None in Et. apply lookup_lt_Some in Ep. lia. }
      rewrite Forall_lookup in Hb. specialize (Hb t rt Et). destruct (Hok t rt packets Et Ep) as [Hc _].
      specialize (Hall t). unfold completed_of in Hall. rewrite Et in Hall.
      destruct (trace_lookup t packets Ep) as [Hcount _]. destruct rt as [c ph]. unfold is_between in Hb. simpl in *.
      destruct ph; [|done|done]. do 2 f_equal. lia.
    + right. apply not_Forall_Exists, Exists_exists in Hb as (rt & Hin & Hb); [|solve_decision].
      apply list_elem_of_lookup_1 in Hin as [t Et].
      assert (Ht : exists packets, trace_of r !! t = Some packets).
      { apply lookup_lt_Some in Et. rewrite Hlen in Et. by apply lookup_lt_is_Some_2 in Et as [x Hx]; exists x. }
      destruct Ht as [packets Ep]. exists t. destruct (trace_lookup t packets Ep) as [Hcount _].
      destruct (Hok t rt packets Et Ep) as [Hc H].
      pose proof (Hall t) as Ht. unfold completed_of in Ht. rewrite Et in Ht.
      destruct (at_phase rt) as [|ws|ws] eqn:Eph.
      * exfalso. apply Hb. unfold is_between. by rewrite Eph.
      * destruct H as [_ (pre & Hp & _)]. apply lookup_lt_Some in Hp. lia.
      * apply (after_barrier_step st t rt packets ws (ends r) [] Hr Et Ep Eph); [by rewrite app_nil_r|lia|done].
  - right. exists t. simpl in El.
    destruct (replay_lookup st t Hr) as (rt & packets & Et & Ep).
    { rewrite El, count_occ_app. simpl. destruct (Nat.eq_dec t t); [lia|done]. }
    unfold completed_of in Hc. rewrite Et in Hc. destruct (trace_lookup t packets Ep) as [Hcount Hw].
    assert (Hlt : (completed rt < length packets)%nat).
    { rewrite <- Hcount, El, count_occ_app, Hc. simpl. destruct (Nat.eq_dec t t); [lia|done]. }
    destruct (at_phase rt) as [|ws|ws] eqn:Eph.
    + unfold replay_step. rewrite Et, Ep, Eph. apply lookup_lt_is_Some_2 in Hlt as [p Hp]. rewrite Hp.
      destruct p; eauto.
    + destruct (Hok t rt packets Et Ep) as [_ H]. rewrite Eph in H. destruct H as [_ (pre & Hp & _)].
      unfold replay_step. rewrite Et, Ep, Eph. destruct ws as [|w ws]; [by eauto|].
      destruct (Hw _ _ w Hp) as [Hn Hsat]; [simpl; apply in_or_app; right; by left|].
      assert (Hone : forall u, count (l1 ++ [t]) u = (count l1 u + if decide (t = u) then 1 else 0)%nat).
      { intros u. rewrite count_occ_app. simpl. destruct (Nat.eq_dec t u), (decide (t = u)); done. }
      specialize (Hsat (l1 ++ [t]) l2 ltac:(by rewrite <- app_assoc)). rewrite !Hone in Hsat.
      rewrite decide_True, decide_False in Hsat by done. specialize (Hsat ltac:(lia)). specialize (Hl w.1).
      unfold satisfied. rewrite (proj2 (Nat.leb_le _ _)) by lia. eauto.
    + apply (after_barrier_step st t rt packets ws l1 (t :: l2) Hr Et Ep Eph El); [lia|done].
Qed.

Lemma replay_completes n : forall st,
  (work (trace_of r) st < n)%nat -> replay_ok (trace_of r) st ->
  exists schedule st', replay (trace_of r) schedule st = Some st' /\ finished (trace_of r) st'.
Proof.
  induction n as [|n IH]; intros st Hn Hr; [lia|].
  destruct (replay_progress st Hr) as [Hf|(t & st1 & E)]; [by exists [], st|].
  pose proof (replay_step_work _ _ _ _ Hr E) as Hw. destruct (replay_step_ok _ _ _ _ Hr E) as [H1 _].
  destruct (IH st1 ltac:(lia) H1) as (schedule & st' & E' & Hf). exists (t :: schedule), st'. simpl. by rewrite E.
Qed.
End Progress.

Lemma replay_run_work tr schedule st st' :
  replay tr schedule st = Some st' -> replay_ok tr st -> (length schedule + work tr st' <= work tr st)%nat.
Proof.
  revert st; induction schedule as [|t schedule IH]; intros st E Hr; simpl in E; [injection E as <-; done|].
  destruct (replay_step tr t st) as [st1|] eqn:E1; [|done]. pose proof (replay_step_work _ _ _ _ Hr E1).
  destruct (replay_step_ok _ _ _ _ Hr E1) as [H1 _]. specialize (IH st1 E H1). simpl. lia.
Qed.

(** ** What a barrier orders *)

Lemma end_open_stream t u r r' s :
  end_open t r = Ok r' -> streams r !! u = Some s ->
  exists s', streams r' !! u = Some s' /\ pending s' = pending s /\ (u <> t -> s' = s) /\
    (u = t -> opened s' = None).
Proof.
  unfold end_open. intros E Hu. apply obind_ok_inv in E as (x & Ex & E). apply stream_at_ok in Ex.
  destruct (opened x) as [ws|] eqn:Eo; injection E as <-.
  - simpl. destruct (decide (u = t)) as [->|Hn].
    + rewrite list_lookup_insert_eq by (by eapply lookup_lt_Some). eexists. split; [reflexivity|].
      rewrite Hu in Ex. injection Ex as ->. done.
    + exists s. rewrite list_lookup_insert_ne by done. done.
  - exists s. split; [done|]. split; [done|]. split; [done|]. intros ->. rewrite Hu in Ex. by injection Ex as ->.
Qed.

Lemma inject_stream t u r r' s :
  inject_barrier t r = Ok r' -> streams r !! u = Some s ->
  exists s', streams r' !! u = Some s' /\ pending s' = pending s /\ (u <> t -> s' = s) /\
    (u = t -> opened s' = None /\ ended s' !! pred (current_packet s') = Some (Barrier (current_packets r))).
Proof.
  unfold inject_barrier. intros E Hu. apply obind_ok_inv in E as (u0 & _ & E).
  apply obind_ok_inv in E as (r1 & E1 & E). apply obind_ok_inv in E as (x & Ex & E). injection E as <-.
  apply stream_at_ok in Ex. destruct (end_open_stream t u r r1 s E1 Hu) as (s1 & Hs1 & P1 & N1 & _). simpl.
  destruct (decide (u = t)) as [->|Hn].
  - rewrite list_lookup_insert_eq by (by eapply lookup_lt_Some). eexists. split; [reflexivity|].
    rewrite Hs1 in Ex. injection Ex as ->. split; [done|]. split; [done|]. intros _. split; [done|].
    unfold current_packet. simpl. rewrite length_app. simpl. rewrite lookup_app_r by lia.
    by replace (pred _ - _)%nat with 0%nat by lia.
  - exists s1. rewrite list_lookup_insert_ne by done. split; [done|]. split; [done|]. split; [done|]. done.
Qed.

Lemma set_stream_at r t s s' : streams r !! t = Some s -> streams (set_stream r t s') !! t = Some s'.
Proof. intros H. simpl. apply list_lookup_insert_eq. by eapply lookup_lt_Some. Qed.

Lemma clear_pending_stream t r r' s :
  clear_pending t r = Ok r' -> streams r !! t = Some s ->
  exists s', streams r' !! t = Some s' /\ ended s' = ended s /\ opened s' = opened s.
Proof.
  unfold clear_pending, stream_at. intros E Hs. rewrite Hs in E. cbn [obind] in E. injection E as <-.
  eexists. split; [by eapply set_stream_at|done].
Qed.

Lemma begin_open_stream t r r' s :
  begin_open t r = Ok r' -> streams r !! t = Some s -> opened s = None ->
  exists s', streams r' !! t = Some s' /\ ended s' = ended s /\ opened s' = Some [].
Proof.
  unfold begin_open, end_open, stream_at. intros E Hs Ho. rewrite Hs in E. cbn [obind] in E. rewrite Ho in E.
  cbn [obind] in E. rewrite Hs in E. cbn [obind] in E. injection E as <-.
  eexists. split; [by eapply set_stream_at|done].
Qed.

(** a command that starts with a barrier due finds that barrier in front of it *)
Lemma start_command_barrier tb t u r r' s su :
  start_command tb t r = Ok r' -> streams r !! t = Some s -> pending s = true ->
  streams r !! u = Some su -> u <> t ->
  exists s' targets, streams r' !! t = Some s' /\ opened s' = Some [] /\ (0 < current_packet s')%nat /\
    ended s' !! pred (current_packet s') = Some (Barrier targets) /\ targets !! u = Some (current_packet su).
Proof.
  intros E Ht Hp Hu Hne. unfold start_command in E. apply obind_ok_inv in E as (r1 & E1 & E).
  assert (H1 : (exists s1, streams r1 !! t = Some s1 /\ pending s1 = true) /\ streams r1 !! u = Some su).
  { destruct tb; [|injection E1 as <-; eauto].
    destruct (inject_stream t t r r1 s E1 Ht) as (s1 & Hs1 & P1 & _).
    destruct (inject_stream t u r r1 su E1 Hu) as (s2 & Hs2 & _ & N2 & _). rewrite <- (N2 Hne).
    split; [|done]. exists s1. split; [done|congruence]. }
  destruct H1 as [(s1 & Hs1 & Hp1) Hu1]. unfold stream_at at 1 in E. rewrite Hs1 in E. cbn [obind] in E.
  rewrite Hp1 in E. apply obind_ok_inv in E as (r3 & E3 & E). apply obind_ok_inv in E3 as (r2 & E2 & E3).
  destruct (inject_stream t t r1 r2 s1 E2 Hs1) as (s2 & Hs2 & _ & _ & H2). destruct (H2 eq_refl) as [Ho2 Hb2].
  destruct (clear_pending_stream t r2 r3 s2 E3 Hs2) as (s3 & Hs3 & He3 & Ho3).
  destruct (begin_open_stream t r3 r' s3 E Hs3 ltac:(congruence)) as (s4 & Hs4 & He4 & Ho4).
  exists s4, (current_packets r1). split; [done|]. split; [done|].
  unfold current_packet in *. rewrite He4, He3. pose proof (lookup_lt_Some _ _ _ Hb2).
  split; [lia|]. split; [done|]. unfold current_packets. rewrite list_lookup_fmap, Hu1. done.
Qed.

Lemma barrier_honoured tr st t rt packets b targets u c q :
  replay_ok tr st -> st !! t = Some rt -> tr !! t = Some packets ->
  packets !! b = Some (Barrier targets) -> targets !! u = Some c -> u <> t -> (b < q)%nat ->
  ((q < completed rt)%nat \/ (completed rt = q /\ exists ws, at_phase rt = InCall ws)) ->
  (c <= completed_of st u)%nat.
Proof.
  intros [_ Hok] Et Ep Hb Hc Hn Hbq Hq. destruct (Hok t rt packets Et Ep) as [_ H].
  assert (Hd : exists n, (b < n)%nat /\ done_upto st t packets n).
  { destruct (at_phase rt) as [|ws|ws].
    - exists (completed rt). split; [|done]. destruct Hq as [?|[_ [? ?]]]; [lia|done].
    - exists (completed rt). split; [lia|apply H].
    - destruct H as (j & ? & ? & Hj & _ & _ & _ & Hd). exists j. split; [|done].
      destruct Hq as [?|[_ [? ?]]]; [lia|done]. }
  destruct Hd as (n & Hbn & Hd). specialize (Hd b _ Hbn Hb). rewrite Forall_forall in Hd.
  apply (Hd (u, c)). simpl. apply list_elem_of_filter. split; [done|].
  apply (list_elem_of_lookup_2 _ u). rewrite list_lookup_imap, Hc. done.
Qed.

(** ** Properties *)

(** C5: replay cannot deadlock. For every recording of any number of threads whose
    commands use objects only after the commands that modified them have returned,
    and every state any schedule of the replay reaches, the remaining packets can
    be replayed to the end, and no schedule goes on for ever. *)
Theorem replay_never_deadlocks (acts : list action) (r : recorder) (schedule : list nat) (st : list replay_thread)
    (Hrec : record acts nothing_recorded = Ok r) (Hsync : all_synchronized acts nothing_recorded)
    (Hst : replay (trace_of r) schedule (replay_start (trace_of r)) = Some st) :
  (exists rest st', replay (trace_of r) rest st = Some st' /\ finished (trace_of r) st') /\
  (length schedule <= work (trace_of r) (replay_start (trace_of r)))%nat.
Proof.
  destruct (record_ordered acts _ r Hrec Hsync nothing_ordered) as [Ho _].
  pose proof (replay_start_ok (trace_of r)) as H0.
  destruct (replay_ok_run _ schedule _ st Hst H0) as [Hr _]. split.
  - apply (replay_completes r Ho (S (work (trace_of r) st))); [lia|done].
  - pose proof (replay_run_work _ schedule _ st Hst H0). lia.
Qed.

Definition demo_acts : list action :=
  [NewThread; NewThread; StartCommand false 0; UseObject true 0 7; EndPacket 0; Push 0;
   StartCommand false 1; UseObject false 1 7; EndPacket 1; StartCommand true 0; UseObject true 0 7; EndPacket 0].

Definition recorded_of (acts : list action) : recorder :=
  match record acts nothing_recorded with Ok r => r | Fail _ => nothing_recorded end.

Lemma replay_never_deadlocks_witness :
  exists st, replay (trace_of (recorded_of demo_acts)) [1; 0; 1; 0; 1]%nat
      (replay_start (trace_of (recorded_of demo_acts))) = Some st /\
    (exists rest st', replay (trace_of (recorded_of demo_acts)) rest st = Some st' /\
       finished (trace_of (recorded_of demo_acts)) st') /\
    (length [1; 0; 1; 0; 1]%nat <= work (trace_of (recorded_of demo_acts)) (replay_start (trace_of (recorded_of demo_acts))))%nat.
Proof.
  eexists. split; [vm_compute; reflexivity|].
  refine (replay_never_deadlocks demo_acts (recorded_of demo_acts) [1; 0; 1; 0; 1]%nat _ _ _ _);
    [vm_compute; reflexivity| |vm_compute; reflexivity].
  repeat (split; [first [exact I|by vm_compute|by left|
    right; eexists; split; [reflexivity|vm_compute; lia]]|intros ? [= <-]]). exact I.
Defined.

(** C10: a pushed barrier orders the replay. If thread [u] has ended [c] packets and
    a barrier is due on thread [t] when [t] starts a command, then in every replay
    of the whole trace, by the time [t] replays that command (or anything after
    it), [u] has completed those [c] packets. *)
Theorem pushed_barrier_orders_replay (before after : list action) (tb : bool) (t u : nat) (r1 r2 r3 : recorder)
    (s su s2 : thread_stream) (schedule : list nat) (st : list replay_thread) (rt : replay_thread)
    (Hsync : all_synchronized (before ++ StartCommand tb t :: after) nothing_recorded)
    (Hbefore : record before nothing_recorded = Ok r1)
    (Ht : streams r1 !! t = Some s) (Hdue : pending s = true) (Hu : streams r1 !! u = Some su) (Hother : u <> t)
    (Hcommand : do_action (StartCommand tb t) r1 = Ok r2) (Ht2 : streams r2 !! t = Some s2)
    (Hafter : record after r2 = Ok r3)
    (Hst : replay (trace_of r3) schedule (replay_start (trace_of r3)) = Some st) (Hrt : st !! t = Some rt)
    (Hreached : (current_packet s2 < completed rt)%nat \/
                (completed rt = current_packet s2 /\ exists ws, at_phase rt = InCall ws)) :
  (current_packet su <= completed_of st u)%nat.
Proof.
  destruct (start_command_barrier tb t u r1 r2 s su Hcommand Ht Hdue Hu Hother)
    as (s2' & targets & E2 & _ & Hpos & Hb & Hc). rewrite Ht2 in E2. injection E2 as <-.
  assert (Hrest : all_synchronized (StartCommand tb t :: after) r1).
  { clear - Hsync Hbefore. revert Hsync Hbefore. generalize nothing_recorded as r0.
    induction before as [|a l IH]; intros r0 Hs Hb; [by injection Hb as <-|].
    simpl in Hb. apply obind_ok_inv in Hb as (r' & E & Hb). destruct Hs as [_ Hs]. exact (IH r' (Hs r' E) Hb). }
  assert (Hfirst : all_synchronized before nothing_recorded).
  { clear - Hsync. revert Hsync. generalize nothing_recorded as r0.
    induction before as [|a l IH]; intros r0 Hs; [done|]. destruct Hs as [Ha Hs]. split; [done|].
    intros r' E. exact (IH r' (Hs r' E)). }
  destruct (record_ordered before _ r1 Hbefore Hfirst nothing_ordered) as [O1 _].
  destruct (do_action_ordered _ r1 r2 Hcommand (proj1 Hrest) O1) as [O2 _].
  destruct (record_ordered after r2 r3 Hafter (proj2 Hrest r2 Hcommand) O2) as [_ [_ X]].
  destruct (X t s2 Ht2) as (s3 & Hs3 & [more Hmore]).
  destruct (replay_ok_run _ schedule _ st Hst (replay_start_ok _)) as [Hr _].
  apply (barrier_honoured (trace_of r3) st t rt (ended s3) (pred (current_packet s2)) targets u _ (current_packet s2) Hr Hrt);
    [by rewrite trace_at, Hs3| |done|done|lia|done].
  rewrite Hmore, lookup_app_l; [done|]. by eapply lookup_lt_Some.
Qed.

Definition pushed_before : list action := [NewThread; NewThread; StartCommand false 0; EndPacket 0; Push 0].
Definition pushed_acts : list action := pushed_before ++ [StartCommand false 1; EndPacket 1].
Definition first_then_second : list nat := [0; 0; 0; 0; 1; 1; 1; 1; 1; 1; 1; 1]%nat.

Definition replayed (acts : list action) (schedule : list nat) : list replay_thread :=
  default [] (replay (trace_of (recorded_of acts)) schedule (replay_start (trace_of (recorded_of acts)))).

Lemma pushed_barrier_orders_replay_witness :
  (2 <= completed_of (replayed pushed_acts first_then_second) 0)%nat.
Proof.
  assert (Hsync : all_synchronized pushed_acts nothing_recorded).
  { repeat (split; [exact I|intros ? [= <-]]). exact I. }
  refine (pushed_barrier_orders_replay pushed_before [EndPacket 1] false 1 0 (recorded_of pushed_before)
    (recorded_of (pushed_before ++ [StartCommand false 1])) (recorded_of pushed_acts)
    (ThreadStream [Barrier [1%nat]] None true true) (ThreadStream [Barrier []; Call []] None false true)
    (ThreadStream [Barrier [1%nat]; Barrier [2; 1]%nat] (Some []) false true) first_then_second
    (replayed pushed_acts first_then_second) (ReplayThread 3 Between) Hsync _ _ _ _ _ _ _ _ _ _ _);
    try (vm_compute; reflexivity); [lia|left; vm_compute; lia].
Defined.

(** Handles order the replay too: whenever a replayed thread has completed a
    packet, every packet it was recorded to depend on is complete, and before
    that it is never past a wait that does not hold. *)
Theorem completed_packets_waited (acts : list action) (r : recorder) (schedule : list nat) (st : list replay_thread)
    (t : nat) (rt : replay_thread) (packets : list recorded) (j : nat) (waits : list wait) (w : wait)
    (Hrec : record acts nothing_recorded = Ok r)
    (Hst : replay (trace_of r) schedule (replay_start (trace_of r)) = Some st)
    (Hrt : st !! t = Some rt) (Hpackets : trace_of r !! t = Some packets)
    (Hj : packets !! j = Some (Call waits)) (Hw : In w waits) (Hdone : (j < completed rt)%nat) :
  (w.2 <= completed_of st w.1)%nat.
Proof.
  destruct (replay_ok_run _ schedule _ st Hst (replay_start_ok _)) as [[_ Hok] _].
  destruct (Hok t rt packets Hrt Hpackets) as [_ H].
  assert (Hd : exists n, (j < n)%nat /\ done_upto st t packets n).
  { destruct (at_phase rt) as [|ws|ws].
    - by exists (completed rt).
    - exists (completed rt). split; [done|apply H].
    - destruct H as (b & targets & pre & Hb & Hp & _ & _ & Hd). exists b. split; [|done].
      destruct (decide (j = b)) as [->|]; [congruence|lia]. }
  destruct Hd as (n & Hn & Hd). specialize (Hd j _ Hn Hj). rewrite Forall_forall in Hd. apply Hd.
  by apply list_elem_of_In.
Qed.

Definition handle_schedule : list nat := [0; 0; 0; 0; 1; 1; 1; 1; 1; 1; 1; 1; 1]%nat.

Lemma completed_packets_waited_witness :
  (2 <= completed_of (replayed demo_acts handle_schedule) 0)%nat.
Proof.
  refine (completed_packets_waited demo_acts (recorded_of demo_acts) handle_schedule (replayed demo_acts handle_schedule)
    1 (ReplayThread 3 Between) [Barrier [1%nat]; Barrier [2; 1]%nat; Call [(0, 2)%nat]] 2 [(0, 2)%nat] (0, 2)%nat
    _ _ _ _ _ _ _); try (vm_compute; reflexivity); by left.
Defined.

(** The code pushes barriers before it ends the packet of the command that
    pushes. A command another thread starts in between takes the barrier, which
    does not cover that packet, and its later commands have none: they can be
    replayed while the pushing command, which had returned before them, is not
    complete. Ending the packet first would have covered it. *)
Theorem push_before_end_loses_order :
  let lost := [NewThread; NewThread; StartCommand false 0; Push 0;
               StartCommand false 1; EndPacket 1; EndPacket 0; StartCommand false 1; EndPacket 1] in
  let kept := [NewThread; NewThread; StartCommand false 0; EndPacket 0; Push 0;
               StartCommand false 1; EndPacket 1; StartCommand false 1; EndPacket 1] in
  (exists st, replay (trace_of (recorded_of lost)) [0; 0; 1; 1; 1; 1; 1; 1; 1; 1; 1; 1]%nat
        (replay_start (trace_of (recorded_of lost))) = Some st /\
     st !! 1%nat = Some (ReplayThread 4 Between) /\ completed_of st 0 = 1%nat) /\
  (forall rest, trace_of (recorded_of lost) !! 0%nat = Some rest -> length rest = 2%nat) /\
  trace_of (recorded_of kept) !! 1%nat = Some [Barrier [1]; Barrier [2; 1]; Call []; Call []]%nat.
Proof.
  split; [eexists; repeat split; vm_compute; reflexivity|]. split; [|reflexivity].
  intros rest H. vm_compute in H. by injection H as <-.
Qed.
