(* ===== verification/Containers.v ===== *)
(** * Containers shared by capture and replay (src/containers.h)

    The bump allocator for decoded arguments ([memory_pool]), the vector that other
    threads read while one appends to it ([trace_data]), the maps between handles
    and object indices of the two sides ([replay_remap], [trace_remap]) and the map
    from captured device addresses to replayed ones ([address_remapper]). Their
    mutexes make each operation one step. A pointer to an object is its number in
    the list of allocated objects. *)

From Stdlib Require Import ZArith Lia Bool.
From stdpp Require Import base numbers list gmap sorting.
From S2P Require Import Prelude Memory Heap Packets.

#[local] Open Scope Z_scope.

Definition CONTAINER_INVALID_INDEX : Z := UINT32_MAX.

(** ** memory_pool *)

Record memory_pool := MemoryPool {
  pool_size : Z;       (** [pool.size()] *)
  pool_index : Z
}.

Definition new_memory_pool (mbs : Z) : memory_pool := MemoryPool (wrap 32 (mbs * 1024 * 1024)) 0.

Section Pool.
Variable pool_data : Z.     (** the address of the pool *)

(** the common part of [allocate] and [allocate_aligned]; [None] is a null pointer *)
Definition pool_take (count size_of alignment : Z) (p : memory_pool) : option Z * memory_pool :=
  if count =? 0 then (None, p)
  else
    let allocsize := wrap64 (count * size_of) in
    if wrap64 (pool_index p + allocsize) >? pool_size p then (None, p)
    else
      let space := wrap64 (pool_size p - (pool_index p + allocsize)) in
      let start := pool_data + pool_index p in
      let retval := std_align alignment allocsize start space in
      if retval =? 0 then (None, p)
      else (Some retval, MemoryPool (pool_size p) (wrap64 (pool_size p - (space - (retval - start))))).

Definition pool_allocate (count size_of align_of : Z) (p : memory_pool) : option Z * memory_pool :=
  pool_take count size_of (Z.max align_of 2) p.

Definition pool_allocate_aligned (count size_of alignment : Z) (p : memory_pool) : option Z * memory_pool :=
  pool_take count size_of alignment p.

Definition pool_pointer (p : memory_pool) : Z := pool_data + pool_index p.
Definition pool_spend (count : Z) (p : memory_pool) : memory_pool :=
  MemoryPool (pool_size p) (wrap64 (pool_index p + count)).
Definition pool_reset (p : memory_pool) : memory_pool := MemoryPool (pool_size p) 0.

(** a request: number and size of the elements, alignment; what it was given *)
Fixpoint pool_run (requests : list (Z * Z * Z)) (p : memory_pool) : list (Z * Z) * memory_pool :=
  match requests with
  | [] => ([], p)
  | (count, size_of, alignment) :: rest =>
      let '(a, p) := pool_allocate count size_of alignment p in
      let '(l, p) := pool_run rest p in
      (match a with Some ptr => (ptr, count * size_of) :: l | None => l end, p)
  end.
End Pool.

(** ** trace_data *)

Section TraceData.
Context {A : Type}.

Record trace_data := TraceData {
  msize : Z;
  current_vector : list (option nat);       (** slots, null or a pointer *)
  old_vectors : list (list (option nat));
  allocated : list (option A)               (** the objects; [None] once deleted *)
}.

Definition new_trace_data : trace_data := TraceData 0 (replicate 64 None) [] [].

(** [at] through a vector a reader has loaded *)
Definition vector_at (objects : list (option A)) (vec : list (option nat)) (index : Z) : outcome A :=
  match vec !! Z.to_nat index with
  | None => Fail OutOfRange
  | Some None => Fail NullPointer
  | Some (Some p) => match objects !! p with Some (Some a) => Ok a | _ => Fail NullPointer end
  end.

Definition trace_data_at (d : trace_data) (index : Z) : outcome A := vector_at (allocated d) (current_vector d) index.

Definition emplace_back (a : A) (d : trace_data) : outcome trace_data :=
  let vec := current_vector d in
  let p := length (allocated d) in
  let grow := Z.of_nat (length vec) =? msize d in
  let target := if grow then vec ++ replicate (length vec) None else vec in
  let* _ := require (msize d <? Z.of_nat (length target)) OutOfRange in
  Ok (TraceData (wrap32 (msize d + 1)) (<[Z.to_nat (msize d) := Some p]> target)
        (if grow then old_vectors d ++ [vec] else old_vectors d) (allocated d ++ [Some a])).

(** every object is deleted, the slots of the current vector stay as they are *)
Definition trace_data_clear (d : trace_data) : trace_data :=
  TraceData 0 (current_vector d) []
    (imap (fun p a => if existsb (fun s => bool_decide (s = Some p)) (take (Z.to_nat (msize d)) (current_vector d))
                      then None else a) (allocated d)).

Fixpoint push_all (l : list A) (d : trace_data) : outcome trace_data :=
  match l with
  | [] => Ok d
  | a :: l' => let* d := emplace_back a d in push_all l' d
  end.
End TraceData.
Arguments trace_data A : clear implicits.

(** ** replay_remap *)

Record replay_remap := ReplayRemap {
  remapping : list Z;         (** index to handle, 0 when there is none *)
  reverse : gmap Z Z
}.

Definition remap_resize (size : nat) (r : replay_remap) : replay_remap :=
  ReplayRemap (take size (remapping r) ++ replicate (size - length (remapping r)) 0) (reverse r).

(** [remapping.at(index)] *)
Definition remapping_at (r : replay_remap) (index : Z) : outcome Z :=
  match remapping r !! Z.to_nat index with Some v => Ok v | None => Fail OutOfRange end.

Definition store_remap (index handle : Z) (r : replay_remap) : replay_remap :=
  ReplayRemap (<[Z.to_nat index := handle]> (remapping r)) (<[handle := index]> (reverse r)).

Definition remap_set (index handle : Z) (r : replay_remap) : outcome replay_remap :=
  let* v := remapping_at r index in
  let* _ := require (v =? 0) AssertFailed in
  let* _ := require (negb (handle =? 0)) AssertFailed in
  Ok (store_remap index handle r).

(** no bounds check *)
Definition remap_replace (index handle : Z) (r : replay_remap) : outcome replay_remap :=
  let* _ := require (index <? Z.of_nat (length (remapping r))) OutOfRange in
  Ok (store_remap index handle r).

Definition remap_at (r : replay_remap) (index : Z) : outcome Z :=
  if index =? CONTAINER_NULL_VALUE then Ok 0
  else
    let* v := remapping_at r index in
    let* _ := require (negb (v =? 0)) AssertFailed in
    Ok v.

Definition remap_index (r : replay_remap) (handle : Z) : outcome Z :=
  if handle =? 0 then Ok 0
  else match reverse r !! handle with Some i => Ok i | None => Fail OutOfRange end.

Definition remap_index_or_invalid (r : replay_remap) (handle : Z) : Z :=
  if handle =? 0 then CONTAINER_NULL_VALUE
  else default CONTAINER_INVALID_INDEX (reverse r !! handle).

Definition remap_contains (r : replay_remap) (index : Z) : outcome bool :=
  if index =? CONTAINER_NULL_VALUE then Ok false
  else let* v := remapping_at r index in Ok (negb (v =? 0)).

Definition remap_unset (index : Z) (r : replay_remap) : outcome replay_remap :=
  if index =? CONTAINER_NULL_VALUE then Ok r
  else
    let* v := remapping_at r index in
    let* _ := require (negb (v =? 0)) AssertFailed in
    Ok (ReplayRemap (<[Z.to_nat index := 0]> (remapping r)) (<[v := 0]> (reverse r))).

Definition remap_clear (r : replay_remap) : replay_remap := ReplayRemap [] ∅.

Definition remap_size (r : replay_remap) : Z := Z.of_nat (size (reverse r)).

(** ** trace_remap *)

Inductive index_mode : Set := mode_unknown | mode_automatic | mode_desired.

#[export] Instance index_mode_eq_dec : EqDecision index_mode.
Proof. solve_decision. Defined.

(** the fields of the tracked object that the map sets *)
Record tracked := Tracked {
  tk_index : Z;
  tk_creation : change_source;
  tk_last_modified : change_source;
  tk_destroyed : change_source
}.

Record trace_remap := TraceRemap {
  remap_count : Z;                    (** [_size] *)
  remap_mode : index_mode;
  remap_lookup : gmap Z (option nat); (** key to object, or to null *)
  storage : list nat;
  objects : list tracked
}.

Definition new_trace_remap : trace_remap := TraceRemap 0 mode_unknown {[ 0 := None ]} [] [].

Definition object_index (m : list tracked) (p : nat) : Z :=
  match m !! p with Some o => tk_index o | None => 0 end.

Definition trace_remap_add (key : Z) (current : change_source) (desired_index : Z) (r : trace_remap)
  : outcome (nat * trace_remap) :=
  let* _ := require (negb (key =? 0)) AssertFailed in
  let uses_desired_index := negb (desired_index =? CONTAINER_INVALID_INDEX) in
  let requested_mode := if uses_desired_index then mode_desired else mode_automatic in
  let mode := if bool_decide (remap_mode r = mode_unknown) then requested_mode else remap_mode r in
  let* _ := require (bool_decide (mode = requested_mode)) AssertFailed in
  let index := if uses_desired_index then desired_index else remap_count r in
  let count := if uses_desired_index then remap_count r else wrap32 (remap_count r + 1) in
  let p := length (objects r) in
  let objs := objects r ++ [Tracked index current current no_change] in
  let '(before, after) := lower_bound (fun q => object_index objs q <? index) (storage r) in
  let* _ := require (match after with [] => true | q :: _ => negb (object_index objs q =? index) end) AssertFailed in
  Ok (p, TraceRemap (if uses_desired_index then Z.max count (wrap32 (desired_index + 1)) else count) mode
           (<[key := Some p]> (remap_lookup r)) (before ++ p :: after) objs).

Definition trace_remap_unset (key : Z) (current : change_source) (r : trace_remap)
  : outcome (option nat * trace_remap) :=
  if key =? 0 then Ok (None, r)
  else match remap_lookup r !! key with
  | None => Fail OutOfRange
  | Some None => Fail NullPointer
  | Some (Some p) =>
      Ok (Some p, TraceRemap (remap_count r) (remap_mode r) (<[key := None]> (remap_lookup r)) (storage r)
                    (alter (fun o => Tracked (tk_index o) (tk_creation o) (tk_last_modified o) current) p (objects r)))
  end.

Definition trace_remap_at (r : trace_remap) (key : Z) : outcome (option nat) :=
  match remap_lookup r !! key with Some p => Ok p | None => Fail OutOfRange end.

Definition index_or_null (r : trace_remap) (key : Z) : outcome Z :=
  if key =? 0 then Ok CONTAINER_NULL_VALUE
  else
    let* p := trace_remap_at r key in
    match p with None => Fail AssertFailed | Some p => Ok (object_index (objects r) p) end.

Definition trace_remap_contains (r : trace_remap) (key : Z) : bool :=
  negb (key =? 0) && match remap_lookup r !! key with Some (Some _) => true | _ => false end.

Definition trace_remap_clear (r : trace_remap) : trace_remap := new_trace_remap.

Inductive remap_op :=
  | Add (key : Z) (current : change_source) (desired_index : Z)
  | Unset (key : Z) (current : change_source).

Definition do_remap_op (o : remap_op) (r : trace_remap) : outcome trace_remap :=
  match o with
  | Add key current desired => let* (_, r) := trace_remap_add key current desired r in Ok r
  | Unset key current => let* (_, r) := trace_remap_unset key current r in Ok r
  end.

Fixpoint run_remap (ops : list remap_op) (r : trace_remap) : outcome trace_remap :=
  match ops with
  | [] => Ok r
  | o :: ops' => let* r := do_remap_op o r in run_remap ops' r
  end.

(** ** address_remapper *)

Inductive object_state : Set := state_uninitialized | state_initialized | state_created | state_destroyed | state_bound.

#[export] Instance object_state_eq_dec : EqDecision object_state.
Proof. solve_decision. Defined.

(** what the remapper looks at in an object *)
Record mapped := Mapped {
  mp_size : Z;
  mp_device_address : Z;
  mp_state : object_state;
  mp_acceleration : bool      (** an acceleration structure, usable once destroyed *)
}.

(** [std::map], in the order of its keys *)
Definition remapper : Type := list (Z * list nat).

Section AddressRemapper.
Variable object_at : nat -> mapped.

Definition is_bound (o : mapped) : bool := match mp_state o with state_bound => true | _ => false end.
Definition is_destroyed (o : mapped) : bool := match mp_state o with state_destroyed => true | _ => false end.
Definition has_addr (o : mapped) : bool := negb (mp_device_address o =? 0).

(** an entry that the loop of [choose_best] does not pass over *)
Definition covers (base stored : Z) (o : mapped) : bool :=
  negb (is_destroyed o && negb (mp_acceleration o)) && negb (mp_size o =? 0) &&
  (wrap64 (stored - base) <? mp_size o).

(** the condition under which [o] replaces [best] *)
Definition replaces (o best : mapped) : bool :=
  (has_addr o && negb (has_addr best)) ||
  (Bool.eqb (has_addr o) (has_addr best) && negb (is_destroyed o) && is_destroyed best) ||
  (Bool.eqb (has_addr o) (has_addr best) && is_bound o && negb (is_bound best)) ||
  (Bool.eqb (has_addr o) (has_addr best) && Bool.eqb (is_destroyed o) (is_destroyed best) &&
   Bool.eqb (is_bound o) (is_bound best) && ((mp_size o >? mp_size best) || (mp_size o =? mp_size best))).

Definition choose_step (base stored : Z) (best : option nat) (p : nat) : option nat :=
  if covers base stored (object_at p) then
    match best with
    | None => Some p
    | Some b => if replaces (object_at p) (object_at b) then Some p else Some b
    end
  else best.

Definition choose_best (entries : list nat) (base stored : Z) : option nat :=
  foldl (choose_step base stored) None entries.

(** from the last key not above [stored] downwards *)
Fixpoint search_down (l : remapper) (stored : Z) : option (nat * Z) :=
  match l with
  | [] => None
  | (base, entries) :: rest =>
      match choose_best entries base stored with
      | Some p => Some (p, base)
      | None => search_down rest stored
      end
  end.

Definition find_candidate (m : remapper) (stored : Z) : option (nat * Z) :=
  search_down (rev (lower_bound (fun e => e.1 <=? stored) m).1) stored.

Definition get_by_address (m : remapper) (stored : Z) : option nat := option_map fst (find_candidate m stored).

Definition translate_address (m : remapper) (stored : Z) : Z :=
  match find_candidate m stored with
  | None => 0
  | Some (p, base) =>
      if mp_device_address (object_at p) =? 0 then 0
      else wrap64 (mp_device_address (object_at p) + (stored - base))
  end.

Definition is_candidate (m : remapper) (stored : Z) : bool :=
  negb (translate_address m stored =? 0) ||
  negb (translate_address m (Z.lor (Z.shiftr stored 32) (wrap64 (Z.shiftl stored 32))) =? 0).

End AddressRemapper.

Definition remapper_add (addr : Z) (obj : option nat) (m : remapper) : remapper :=
  match obj with
  | None => m
  | Some p =>
      if addr =? 0 then m
      else
        let '(before, after) := lower_bound (fun e => e.1 <? addr) m in
        match after with
        | (a, entries) :: rest =>
            if a =? addr then before ++ (a, if bool_decide (p ∈ entries) then entries else entries ++ [p]) :: rest
            else before ++ (addr, [p]) :: after
        | [] => before ++ [(addr, [p])]
        end
  end.

Definition remapper_remove (addr : Z) (obj : option nat) (m : remapper) : remapper :=
  match obj with
  | None => m
  | Some p =>
      if addr =? 0 then m
      else
        let '(before, after) := lower_bound (fun e => e.1 <? addr) m in
        match after with
        | (a, entries) :: rest =>
            if a =? addr then
              let entries := filter (fun q => q <> p) entries in
              before ++ (if Nat.eqb (length entries) 0 then rest else (a, entries) :: rest)
            else m
        | [] => m
        end
  end.

Inductive remapper_op :=
  | AddAddress (addr : Z) (obj : option nat)
  | RemoveAddress (addr : Z) (obj : option nat).

Definition do_remapper_op (m : remapper) (o : remapper_op) : remapper :=
  match o with
  | AddAddress addr obj => remapper_add addr obj m
  | RemoveAddress addr obj => remapper_remove addr obj m
  end.

(** ** memory_pool: what is handed out *)

Definition pool_ok (base : Z) (p : memory_pool) : Prop :=
  0 < base /\ 0 <= pool_index p <= pool_size p /\ base + pool_size p < 2 ^ 62.

Lemma pool_take_exact base count size_of alignment p :
  pool_ok base p -> 0 < count -> 0 < size_of -> count * size_of < 2 ^ 62 ->
  is_pow2 alignment -> alignment <= 2 ^ 63 ->
  pool_take base count size_of alignment p =
  let n := count * size_of in
  let start := base + pool_index p in
  let ptr := round_up alignment start in
  if (pool_index p + n <=? pool_size p) && (ptr - start + n <=? pool_size p - (pool_index p + n))
  then (Some ptr, MemoryPool (pool_size p) (ptr - base + n)) else (None, p).
Proof.
  intros (Hb & Hi & Hs) Hc Hz Hn Ha Hmax. unfold pool_take. rewrite (proj2 (Z.eqb_neq _ _)) by lia.
  pose proof (is_pow2_pos _ Ha) as Hpos. assert (Hprod : 0 < count * size_of) by nia.
  rewrite (wrap64_small (count * size_of)) by u_lia. cbv zeta. set (n := count * size_of) in *.
  rewrite (wrap64_small (pool_index p + n)) by u_lia. rewrite Z.gtb_ltb.
  destruct (pool_index p + n <=? pool_size p) eqn:E1; bool_to_prop.
  2:{ by rewrite (proj2 (Z.ltb_lt _ _)) by lia. }
  rewrite (proj2 (Z.ltb_ge _ _)) by lia. rewrite (wrap64_small (pool_size p - _)) by u_lia. cbn [andb].
  rewrite std_align_wide by (try done; lia).
  destruct (round_up_spec alignment (base + pool_index p) Hpos) as [Hr _].
  destruct (round_up alignment (base + pool_index p) - (base + pool_index p) + n <=? _) eqn:E2; bool_to_prop.
  - rewrite (proj2 (Z.leb_le _ _)) by lia. rewrite (proj2 (Z.eqb_neq _ _)) by lia.
    rewrite wrap64_small by u_lia. do 2 f_equal. lia.
  - by rewrite (proj2 (Z.leb_gt _ _)) by lia.
Qed.

Definition request_valid (r : Z * Z * Z) : Prop :=
  let '(count, size_of, alignment) := r in
  0 < count /\ 0 < size_of /\ count * size_of < 2 ^ 62 /\ is_pow2 alignment /\ alignment <= 2 ^ 63.

(** allocations in the order they were made, from an address on *)
Fixpoint laid_from (from limit : Z) (l : list (Z * Z)) : Prop :=
  match l with
  | [] => from <= limit
  | (ptr, n) :: l' => from <= ptr /\ 0 < n /\ laid_from (ptr + n) limit l'
  end.

Lemma laid_from_weaken from from' limit l : from' <= from -> laid_from from limit l -> laid_from from' limit l.
Proof. destruct l as [|[ptr n] l]; simpl; [lia|]. intros H (H1 & H2 & H3). split; [lia|done]. Qed.

Lemma laid_from_limit from limit l : laid_from from limit l -> from <= limit.
Proof.
  revert from; induction l as [|[ptr n] l IH]; intros from; simpl; [done|].
  intros (H1 & H2 & H3). apply IH in H3. lia.
Qed.

Lemma laid_from_in from limit l ptr n : laid_from from limit l -> In (ptr, n) l -> from <= ptr /\ ptr + n <= limit.
Proof.
  revert from; induction l as [|[q m] l IH]; intros from; simpl; [done|].
  intros (H1 & H2 & H3) [[= -> ->]|Hin].
  - apply laid_from_limit in H3. lia.
  - destruct (IH _ H3 Hin). lia.
Qed.

Lemma laid_from_pairs from limit l : laid_from from limit l ->
  forall i j a b, (i < j)%nat -> l !! i = Some a -> l !! j = Some b -> a.1 + a.2 <= b.1.
Proof.
  revert from; induction l as [|[q m] l IH]; intros from Hl i j a b Hij Ha Hb; [done|].
  destruct Hl as (H1 & H2 & H3). destruct j as [|j]; [lia|]. simpl in Hb.
  destruct i as [|i]; simpl in Ha.
  - injection Ha as <-. destruct b as [ptr n]. simpl.
    destruct (laid_from_in _ _ _ ptr n H3); [|done]. apply list_elem_of_In. by eapply list_elem_of_lookup_2.
  - apply (IH _ H3 i j); [lia|done|done].
Qed.

Lemma pool_run_laid base requests : forall p l p',
  pool_ok base p -> Forall request_valid requests -> pool_run base requests p = (l, p') ->
  pool_ok base p' /\ pool_size p' = pool_size p /\ laid_from (base + pool_index p) (base + pool_index p') l.
Proof.
  induction requests as [|[[count size_of] al] requests IH]; intros p l p' Hp Hr E; cbn [pool_run] in E.
  - injection E as <- <-. split; [done|]. split; [done|]. simpl. lia.
  - apply Forall_cons in Hr as [(R1 & R2 & R3 & R4 & R5) Hr].
    destruct (is_pow2_max al 2 R4) as (R6 & _); [by exists 1|].
    unfold pool_allocate in E. rewrite pool_take_exact in E by (try done; lia). cbv zeta in E.
    set (ptr := round_up _ _) in E.
    destruct (round_up_spec (Z.max al 2) (base + pool_index p) ltac:(lia)) as [Hru _]. fold ptr in Hru.
    destruct ((_ <=? _) && _) eqn:Eb.
    + apply andb_true_iff in Eb as [E1 E2]. bool_to_prop.
      destruct (pool_run base requests _) as [l0 p0] eqn:Er. injection E as <- <-.
      set (p1 := MemoryPool _ _) in Er.
      assert (Hp1 : pool_ok base p1) by (destruct Hp as (B1 & B2 & B3); unfold pool_ok, p1; simpl; nia).
      destruct (IH p1 l0 p0 Hp1 Hr Er) as (K1 & K2 & K3). split; [done|]. split; [done|]. simpl. split; [lia|].
      split; [nia|]. eapply laid_from_weaken; [|exact K3]. unfold p1. simpl. lia.
    + destruct (pool_run base requests p) as [l0 p0] eqn:Er. injection E as <- <-. by eapply IH.
Qed.

(** ** trace_data: what readers see *)

Section TraceDataProofs.
Context {A : Type}.

(** [pushed] are the values added since the container was created *)
Record trace_data_inv (d : trace_data A) (pushed : list A) : Prop := {
  td_size : msize d = Z.of_nat (length pushed);
  td_objects : allocated d = map Some pushed;
  td_room : (length pushed <= length (current_vector d))%nat;
  td_full : (0 < length (current_vector d))%nat;
  td_slots : forall i, (i < length pushed)%nat -> current_vector d !! i = Some (Some i);
  td_old : forall v, In v (old_vectors d) -> (length v <= length pushed)%nat /\
           forall i, (i < length v)%nat -> v !! i = Some (Some i)
}.

Lemma new_trace_data_inv : trace_data_inv new_trace_data [].
Proof. split; simpl; try done; lia. Qed.

Lemma emplace_back_inv d pushed a :
  trace_data_inv d pushed -> Z.of_nat (length pushed) < UINT32_MAX ->
  exists d', emplace_back a d = Ok d' /\ trace_data_inv d' (pushed ++ [a]).
Proof.
  intros [I1 I2 I3 I4 I5 I6] Hmax. unfold emplace_back.
  set (grow := _ =? _). set (target := if grow then _ else _).
  assert (Ht : (length pushed < length target)%nat /\
    (forall i, (i < length pushed)%nat -> target !! i = Some (Some i)) /\ (0 < length target)%nat).
  { unfold target, grow. destruct (Z.of_nat (length (current_vector d)) =? msize d) eqn:E; bool_to_prop.
    - rewrite length_app, length_replicate. split; [lia|]. split; [|lia]. intros i Hi.
      rewrite lookup_app_l by lia. by apply I5.
    - split; [lia|]. done. }
  destruct Ht as (T1 & T2 & T3). rewrite (proj2 (Z.ltb_lt _ _)) by lia. cbn [obind require].
  eexists. split; [reflexivity|]. rewrite I1, Nat2Z.id, I2, length_map. split; simpl.
  - rewrite wrap32_small by u_lia. rewrite length_app. simpl. lia.
  - by rewrite map_app.
  - rewrite length_insert, length_app. simpl. lia.
  - by rewrite length_insert.
  - intros i Hi. rewrite length_app in Hi. simpl in Hi. destruct (decide (i = length pushed)) as [->|].
    + by rewrite list_lookup_insert_eq by lia.
    + rewrite list_lookup_insert_ne by lia. apply T2. lia.
  - intros v Hv. rewrite length_app. simpl. destruct grow eqn:Eg.
    + apply in_app_or in Hv as [Hv|[<-|[]]].
      * destruct (I6 v Hv) as [H1 H2]. split; [lia|done].
      * unfold grow in Eg. bool_to_prop. split; [lia|]. intros i Hi. apply I5. lia.
    + destruct (I6 v Hv) as [H1 H2]. split; [lia|done].
Qed.

Lemma push_all_inv l : forall d pushed,
  trace_data_inv d pushed -> Z.of_nat (length (pushed ++ l)) <= UINT32_MAX ->
  exists d', push_all l d = Ok d' /\ trace_data_inv d' (pushed ++ l).
Proof.
  induction l as [|a l IH]; intros d pushed Hi Hm; cbn [push_all].
  - exists d. by rewrite app_nil_r.
  - destruct (emplace_back_inv d pushed a Hi) as (d1 & E & H1).
    { rewrite length_app in Hm. simpl in Hm. lia. }
    rewrite E. cbn [obind]. destruct (IH d1 (pushed ++ [a]) H1) as (d2 & E2 & H2); [by rewrite <- app_assoc|].
    exists d2. by rewrite <- app_assoc in H2.
Qed.

(** a vector published at some time holds what had been added by then *)
Lemma published_read d pushed v i a :
  trace_data_inv d pushed -> In v (current_vector d :: old_vectors d) -> pushed !! i = Some a ->
  (i < length v)%nat -> vector_at (allocated d) v (Z.of_nat i) = Ok a.
Proof.
  intros [I1 I2 I3 I4 I5 I6] Hv Ha Hi. pose proof (lookup_lt_Some _ _ _ Ha) as Hlt.
  unfold vector_at. rewrite Nat2Z.id.
  assert (Hs : v !! i = Some (Some i)).
  { destruct Hv as [<-|Hv]; [by apply I5|]. destruct (I6 v Hv) as [_ H]. by apply H. }
  rewrite Hs, I2, list_lookup_fmap, Ha. done.
Qed.
End TraceDataProofs.

(** ** trace_remap: the objects in index order *)

Definition by_index (m : list tracked) (p q : nat) : Prop := object_index m p < object_index m q.

Lemma sorted_ext {A} (R S : A -> A -> Prop) l :
  (forall x y, x ∈ l -> y ∈ l -> R x y -> S x y) -> StronglySorted R l -> StronglySorted S l.
Proof.
  intros H. induction 1 as [|a l Hl IH Hf]; [constructor|]. constructor.
  - apply IH. intros x y Hx Hy. apply H; by right.
  - rewrite Forall_forall in *. intros y Hy. apply H; [by left|by right|by apply Hf].
Qed.

Record trace_remap_inv (r : trace_remap) : Prop := {
  tr_sorted : StronglySorted (by_index (objects r)) (storage r);
  tr_all : storage r ≡ₚ seq 0 (length (objects r));
  tr_live : forall key p, remap_lookup r !! key = Some (Some p) -> (p < length (objects r))%nat;
  tr_index : forall p o, objects r !! p = Some o -> 0 <= tk_index o < remap_count r;
  tr_count : 0 <= remap_count r;
  tr_mode : match remap_mode r with
            | mode_unknown => objects r = [] /\ remap_count r = 0
            | mode_automatic => remap_count r = Z.of_nat (length (objects r)) /\
                forall p o, objects r !! p = Some o -> tk_index o = Z.of_nat p
            | mode_desired => True
            end
}.

Lemma new_trace_remap_inv : trace_remap_inv new_trace_remap.
Proof.
  split; simpl; try done; [constructor|].
  intros key p H. apply lookup_singleton_Some in H as [_ H]. done.
Qed.

Lemma object_index_lookup m p o : m !! p = Some o -> object_index m p = tk_index o.
Proof. unfold object_index. by intros ->. Qed.

Lemma object_index_app m o p : (p < length m)%nat -> object_index (m ++ [o]) p = object_index m p.
Proof. intros H. unfold object_index. by rewrite lookup_app_l. Qed.

(** placing a new object, the last allocated, by its index *)
Lemma insert_sorted m o l before after :
  StronglySorted (by_index m) l -> l ≡ₚ seq 0 (length m) ->
  lower_bound (fun q => object_index (m ++ [o]) q <? tk_index o) l = (before, after) ->
  match after with [] => True | q :: _ => object_index (m ++ [o]) q <> tk_index o end ->
  StronglySorted (by_index (m ++ [o])) (before ++ length m :: after) /\
  before ++ length m :: after ≡ₚ seq 0 (length (m ++ [o])).
Proof.
  intros Hs Hp Hl Hne. pose proof (lower_bound_app _ _ _ _ Hl) as ->.
  assert (Hin : forall q, q ∈ before ++ after -> (q < length m)%nat).
  { intros q Hq. rewrite Hp in Hq. apply elem_of_seq in Hq. lia. }
  assert (Hlast : object_index (m ++ [o]) (length m) = tk_index o).
  { unfold object_index. by rewrite list_lookup_middle. }
  assert (Hext : StronglySorted (by_index (m ++ [o])) (before ++ after)).
  { eapply sorted_ext; [|exact Hs]. intros x y Hx Hy. unfold by_index.
    rewrite !object_index_app by auto. done. }
  pose proof (lower_bound_holds _ _ _ _ Hl) as Hb. rewrite Forall_forall in Hb.
  split.
  - apply StronglySorted_app_2; [|by apply StronglySorted_app_1_l in Hext|].
    2:{ pose proof (StronglySorted_app_1_r _ _ _ Hext) as Ha. apply SSorted_cons; [done|].
      destruct after as [|q after]; [constructor|]. pose proof (lower_bound_stops _ _ _ _ _ Hl) as Hq. simpl in Hq.
      bool_to_prop. apply StronglySorted_cons in Ha as [Fa _].
      assert (Hlt : by_index (m ++ [o]) (length m) q) by (unfold by_index; lia).
      constructor; [done|]. eapply Forall_impl; [exact Fa|]. intros y Hy. unfold by_index in *. lia. }
    intros x y Hx Hy. specialize (Hb x Hx). simpl in Hb. bool_to_prop.
    apply elem_of_cons in Hy as [->|Hy]; [unfold by_index; lia|].
    by apply (StronglySorted_app_1_elem_of _ _ _ _ _ Hext).
  - rewrite length_app. simpl. rewrite Nat.add_1_r, seq_S, <- Hp. simpl. solve_Permutation.
Qed.

Definition desired_ok (o : remap_op) : Prop :=
  match o with Add _ _ d => 0 <= d <= UINT32_MAX | Unset _ _ => True end.

Lemma trace_remap_add_inv key c d r p r' :
  trace_remap_inv r -> 0 <= d <= UINT32_MAX -> Z.of_nat (length (objects r)) < UINT32_MAX ->
  trace_remap_add key c d r = Ok (p, r') ->
  trace_remap_inv r' /\ p = length (objects r) /\ length (objects r') = S (length (objects r)) /\
  remap_lookup r' = <[key := Some p]> (remap_lookup r) /\
  object_index (objects r') p = (if d =? CONTAINER_INVALID_INDEX then remap_count r else d).
Proof.
  intros [T1 T2 T3 T4 T6 T5] Hd Hn E. unfold trace_remap_add in E.
  set (uses := negb (d =? CONTAINER_INVALID_INDEX)) in *.
  set (mode := if bool_decide _ then _ else _) in *.
  set (index := if uses then d else remap_count r) in *.
  set (o := Tracked index c c no_change) in *.
  set (count := if uses then Z.max _ _ else _) in *.
  apply obind_ok_inv in E as (u1 & _ & E). apply obind_ok_inv in E as (u2 & Em & E).
  apply require_ok_inv, bool_decide_eq_true_1 in Em.
  destruct (lower_bound _ (storage r)) as [before after] eqn:El. apply obind_ok_inv in E as (u3 & Ed & E).
  apply require_ok_inv in Ed. injection E as <- <-. cbn [objects remap_lookup].
  assert (Hne : match after with [] => True | q :: _ => object_index (objects r ++ [o]) q <> tk_index o end).
  { destruct after as [|q after]; [done|]. apply negb_true_iff, Z.eqb_neq in Ed. exact Ed. }
  destruct (insert_sorted (objects r) o (storage r) before after T1 T2 El Hne) as [S1 S2].
  assert (Hcase : (d <> UINT32_MAX /\ index = d /\ count = Z.max (remap_count r) (d + 1) /\ mode = mode_desired) \/
    (d = UINT32_MAX /\ index = remap_count r /\ count = remap_count r + 1 /\ mode = mode_automatic /\
     remap_count r = Z.of_nat (length (objects r)) /\
     forall q x, objects r !! q = Some x -> tk_index x = Z.of_nat q)).
  { unfold count, index, uses, CONTAINER_INVALID_INDEX in *. clear - T5 Hd Hn Em.
    destruct (d =? UINT32_MAX) eqn:Eu; bool_to_prop; simpl in *.
    - right. subst d. split; [done|]. split; [done|].
      assert (Hm : remap_count r = Z.of_nat (length (objects r)) /\
        forall q x, objects r !! q = Some x -> tk_index x = Z.of_nat q).
      { unfold mode in Em. destruct (remap_mode r).
        - destruct T5 as [T5 ->]. by rewrite T5.
        - exact T5.
        - rewrite bool_decide_eq_false_2 in Em by done. done. }
      rewrite wrap32_small by u_lia. done.
    - left. rewrite wrap32_small by u_lia. done. }
  split; [|split; [done|split; [rewrite length_app; simpl; lia|split; [done|]]]].
  2:{ unfold object_index. rewrite list_lookup_middle by done. simpl. unfold index, uses.
      by destruct (d =? CONTAINER_INVALID_INDEX). }
  assert (Hold : forall q x, (objects r ++ [o]) !! q = Some x ->
    objects r !! q = Some x \/ (q = length (objects r) /\ x = o)).
  { intros q x Hq. destruct (decide (q < length (objects r))%nat); [left; by rewrite lookup_app_l in Hq|].
    apply lookup_snoc_Some in Hq as [[? ?]|[-> <-]]; [by left|by right]. }
  split; cbn [objects storage remap_lookup remap_count remap_mode]; [exact S1|exact S2| | | |].
  - intros k q Hk. rewrite length_app. simpl. apply lookup_insert_Some in Hk as [[_ [= <-]]|[_ Hk]]; [lia|].
    specialize (T3 k q Hk). lia.
  - intros q x Hq. destruct (Hold q x Hq) as [Hq'|[-> ->]].
    + specialize (T4 q x Hq'). destruct Hcase as [(_ & _ & -> & _)|(_ & _ & -> & _)]; lia.
    + cbn [tk_index o]. destruct Hcase as [(_ & -> & -> & _)|(_ & -> & -> & _)]; lia.
  - destruct Hcase as [(_ & _ & -> & _)|(_ & _ & -> & _)]; lia.
  - destruct Hcase as [(_ & _ & _ & ->)|(_ & Hi & -> & -> & Hc & Hx)]; [done|].
    rewrite length_app. simpl. split; [lia|]. intros q x Hq. destruct (Hold q x Hq) as [Hq'|[-> ->]]; [by apply Hx|].
    cbn [tk_index o]. lia.
Qed.

Lemma alter_index m p c q :
  object_index (alter (fun o => Tracked (tk_index o) (tk_creation o) (tk_last_modified o) c) p m) q = object_index m q.
Proof.
  unfold object_index. destruct (decide (q = p)) as [->|].
  - rewrite list_lookup_alter_eq. by destruct (m !! p).
  - by rewrite list_lookup_alter_ne.
Qed.

Lemma trace_remap_unset_inv key c r p r' :
  trace_remap_inv r -> trace_remap_unset key c r = Ok (p, r') ->
  trace_remap_inv r' /\ length (objects r') = length (objects r) /\ remap_mode r' = remap_mode r.
Proof.
  intros Hi E. unfold trace_remap_unset in E. destruct (key =? 0); [by injection E as <- <-|].
  destruct (remap_lookup r !! key) as [[q|]|] eqn:Ek; [|done|done]. injection E as <- <-.
  destruct Hi as [T1 T2 T3 T4 T6 T5]. split; [|cbn [objects remap_mode]; by rewrite length_alter].
  assert (Hold : forall q' x, alter (fun o => Tracked (tk_index o) (tk_creation o) (tk_last_modified o) c) q (objects r) !! q' = Some x ->
    exists y, objects r !! q' = Some y /\ tk_index x = tk_index y).
  { intros q' x Hx. destruct (decide (q' = q)) as [->|].
    - rewrite list_lookup_alter_eq in Hx. destruct (objects r !! q) as [y|]; [|done]. exists y. by injection Hx as <-.
    - rewrite list_lookup_alter_ne in Hx by done. by exists x. }
  split; cbn [objects storage remap_lookup remap_count remap_mode]; rewrite ?length_alter; auto.
  - eapply sorted_ext; [|exact T1]. intros x y _ _. unfold by_index. by rewrite !alter_index.
  - intros k q' Hk. apply lookup_insert_Some in Hk as [[_ [=]]|[_ Hk]]. by apply (T3 k).
  - intros q' x Hx. destruct (Hold q' x Hx) as (y & Hy & ->). by apply (T4 q').
  - destruct (remap_mode r); [|split; [by destruct T5|]|done].
    + destruct T5 as [-> ->]. done.
    + intros q' x Hx. destruct (Hold q' x Hx) as (y & Hy & ->). by apply T5.
Qed.

Lemma run_remap_inv ops : forall r r',
  trace_remap_inv r -> Forall desired_ok ops -> Z.of_nat (length (objects r) + length ops) <= UINT32_MAX ->
  run_remap ops r = Ok r' -> trace_remap_inv r'.
Proof.
  induction ops as [|o ops IH]; intros r r' Hi Hf Hn E; cbn [run_remap] in E; [by injection E as <-|].
  apply Forall_cons in Hf as [Ho Hf]. apply obind_ok_inv in E as (r1 & E1 & E). simpl in Hn.
  destruct o as [key c d|key c]; cbn [do_remap_op] in E1; apply obind_ok_inv in E1 as ([p r2] & E2 & E1); injection E1 as <-.
  - destruct (trace_remap_add_inv key c d r p r2 Hi Ho ltac:(lia) E2) as (H1 & _ & H2 & _).
    apply (IH r2 r' H1 Hf ltac:(lia) E).
  - destruct (trace_remap_unset_inv key c r p r2 Hi E2) as (H1 & H2 & _). apply (IH r2 r' H1 Hf ltac:(lia) E).
Qed.

Lemma automatic_storage r : trace_remap_inv r -> remap_mode r = mode_automatic -> storage r = seq 0 (length (objects r)).
Proof.
  intros [T1 T2 T3 T4 T6 T5] Hm. rewrite Hm in T5. destruct T5 as [_ T5].
  assert (Hlt : forall l1 l2, l1 ≡ₚ l2 -> StronglySorted lt l1 -> StronglySorted lt l2 -> l1 = l2).
  { intros l1 l2 Hp H1 H2. apply (StronglySorted_unique le); [| |exact Hp];
      (eapply sorted_ext; [|eassumption]; intros; lia). }
  apply Hlt; [done| |].
  - eapply sorted_ext; [|exact T1]. intros x y Hx Hy. unfold by_index. rewrite T2 in Hx, Hy.
    apply elem_of_seq in Hx, Hy.
    destruct (lookup_lt_is_Some_2 (objects r) x ltac:(lia)) as [ox Ex].
    destruct (lookup_lt_is_Some_2 (objects r) y ltac:(lia)) as [oy Ey].
    rewrite (object_index_lookup _ _ _ Ex), (object_index_lookup _ _ _ Ey), (T5 x ox Ex), (T5 y oy Ey). lia.
  - clear. generalize 0%nat as n. induction (length (objects r)) as [|k IH]; intros n; [constructor|]. simpl.
    constructor; [apply IH|]. apply Forall_forall. intros y Hy. apply elem_of_seq in Hy. lia.
Qed.

(** ** address_remapper: the best object at the nearest base *)

Definition state_rank (o : mapped) : Z := if is_destroyed o then 0 else if is_bound o then 2 else 1.

(** addresses count before states and states before sizes *)
Definition rank (o : mapped) : Z :=
  (if has_addr o then 1 else 0) * 2 ^ 66 + state_rank o * 2 ^ 64 + mp_size o.

Lemma replaces_rank o b : u64 (mp_size o) -> u64 (mp_size b) -> replaces o b = (rank b <=? rank o).
Proof.
  intros Ho Hb. unfold u64, UINT64_MAX in *. unfold replaces, rank, state_rank, is_bound, is_destroyed.
  destruct (has_addr o), (has_addr b), (mp_state o) eqn:Eo, (mp_state b) eqn:Eb; cbn [andb orb negb Bool.eqb];
    symmetry; rewrite ?orb_true_r;
    rewrite ?Z.gtb_ltb;
    repeat match goal with
    | |- context [?x <? ?y] => destruct (Z.ltb_spec x y)
    | |- context [?x =? ?y] => destruct (Z.eqb_spec x y)
    | |- context [?x <=? ?y] => destruct (Z.leb_spec x y)
    end; cbn [orb]; try reflexivity; lia.
Qed.

Section RemapperProofs.
Variable object_at : nat -> mapped.
Hypothesis sizes : forall p, u64 (mp_size (object_at p)).

Lemma choose_fold base stored l : forall best,
  let r := foldl (choose_step object_at base stored) best l in
  (forall b, best = Some b -> covers base stored (object_at b) = true) ->
  match r with
  | None => best = None /\ Forall (fun p => covers base stored (object_at p) = false) l
  | Some p => covers base stored (object_at p) = true /\ (best = Some p \/ p ∈ l) /\
      (forall b, best = Some b -> rank (object_at b) <= rank (object_at p)) /\
      Forall (fun q => covers base stored (object_at q) = true -> rank (object_at q) <= rank (object_at p)) l
  end.
Proof.
  induction l as [|q l IH]; intros best r Hb; subst r; cbn [foldl].
  - destruct best as [b|]; [|done]. split; [by apply Hb|]. split; [by left|]. split; [|constructor]. by intros b' [= ->].
  - specialize (IH (choose_step object_at base stored best q)). cbv zeta in IH.
    assert (E : choose_step object_at base stored best q =
      if covers base stored (object_at q) then
        match best with
        | None => Some q
        | Some b => if rank (object_at b) <=? rank (object_at q) then Some q else Some b
        end
      else best).
    { unfold choose_step. destruct (covers _ _ _), best; try done. by rewrite replaces_rank by apply sizes. }
    rewrite E in IH |- *. clear E. destruct (covers base stored (object_at q)) eqn:Ec.
    + destruct best as [b|].
      * destruct (rank (object_at b) <=? rank (object_at q)) eqn:Er; bool_to_prop.
        -- specialize (IH ltac:(by intros ? [= <-])). destruct (foldl _ (Some q) l) as [p|]; [|by destruct IH].
           destruct IH as (I1 & I2 & I3 & I4). specialize (I3 q eq_refl). split; [done|].
           split; [right; destruct I2 as [[= ->]|?]; [by left|by right]|]. split; [intros b' [= <-]; lia|].
           constructor; [done|done].
        -- specialize (IH ltac:(intros ? [= <-]; by apply Hb)). destruct (foldl _ (Some b) l) as [p|]; [|by destruct IH].
           destruct IH as (I1 & I2 & I3 & I4). specialize (I3 b eq_refl). split; [done|].
           split; [destruct I2 as [[= ->]|?]; [by left|right; by right]|]. split; [by intros b' [= <-]|].
           constructor; [intros _; lia|done].
      * specialize (IH ltac:(by intros ? [= <-])). destruct (foldl _ (Some q) l) as [p|]; [|by destruct IH].
        destruct IH as (I1 & I2 & I3 & I4). specialize (I3 q eq_refl). split; [done|].
        split; [right; destruct I2 as [[= ->]|?]; [by left|by right]|]. split; [done|]. constructor; [done|done].
    + specialize (IH Hb). destruct (foldl _ best l) as [p|].
      * destruct IH as (I1 & I2 & I3 & I4). split; [done|].
        split; [destruct I2 as [?|?]; [by left|right; by right]|]. split; [done|]. constructor; [congruence|done].
      * destruct IH as [I1 I2]. split; [done|]. by constructor.
Qed.

Lemma choose_best_spec base stored l :
  match choose_best object_at l base stored with
  | None => Forall (fun p => covers base stored (object_at p) = false) l
  | Some p => p ∈ l /\ covers base stored (object_at p) = true /\
      Forall (fun q => covers base stored (object_at q) = true -> rank (object_at q) <= rank (object_at p)) l
  end.
Proof.
  pose proof (choose_fold base stored l None) as H. cbv zeta in H. unfold choose_best.
  destruct (foldl _ None l) as [p|]; specialize (H ltac:(done)).
  - destruct H as (H1 & H2 & _ & H4). destruct H2 as [?|H2]; [done|]. done.
  - apply H.
Qed.

Lemma search_down_spec stored l :
  match search_down object_at l stored with
  | None => Forall (fun e => Forall (fun p => covers e.1 stored (object_at p) = false) e.2) l
  | Some (p, base) => exists above entries below, l = above ++ (base, entries) :: below /\ p ∈ entries /\
      covers base stored (object_at p) = true /\
      Forall (fun q => covers base stored (object_at q) = true -> rank (object_at q) <= rank (object_at p)) entries /\
      Forall (fun e => Forall (fun q => covers e.1 stored (object_at q) = false) e.2) above
  end.
Proof.
  induction l as [|[base entries] l IH]; simpl; [constructor|].
  pose proof (choose_best_spec base stored entries) as H. destruct (choose_best object_at entries base stored) as [p|].
  - destruct H as (H1 & H2 & H3). by exists [], entries, l.
  - destruct (search_down object_at l stored) as [[p b]|].
    + destruct IH as (above & es & below & -> & H1 & H2 & H3 & H4).
      exists ((base, entries) :: above), es, below. split; [done|]. do 3 (split; [done|]). by constructor.
    + by constructor.
Qed.
End RemapperProofs.

Definition registered (m : remapper) (addr : Z) (p : nat) : Prop := exists entries, (addr, entries) ∈ m /\ p ∈ entries.

Definition keys_sorted (m : remapper) : Prop := StronglySorted (fun a b => a.1 < b.1) m.

Lemma keys_split (m : remapper) addr before after :
  keys_sorted m -> lower_bound (fun e => e.1 <? addr) m = (before, after) ->
  m = before ++ after /\ Forall (fun e => e.1 < addr) before /\
  match after with [] => True | e :: rest => addr <= e.1 /\ Forall (fun x => addr < x.1) rest end.
Proof.
  intros Hs Hl. pose proof (lower_bound_app _ _ _ _ Hl) as ->. split; [done|]. split.
  - eapply Forall_impl; [exact (lower_bound_holds _ _ _ _ Hl)|]. simpl. intros x Hx. by bool_to_prop.
  - destruct after as [|e rest]; [done|]. pose proof (lower_bound_stops _ _ _ _ _ Hl) as He. simpl in He.
    bool_to_prop. split; [done|]. apply StronglySorted_app_1_r, StronglySorted_cons in Hs as [Hf _].
    eapply Forall_impl; [exact Hf|]. simpl. intros x Hx. lia.
Qed.

Lemma keys_sorted_replace (before : remapper) e e' rest :
  e'.1 = e.1 -> keys_sorted (before ++ e :: rest) -> keys_sorted (before ++ e' :: rest).
Proof.
  intros He Hs. pose proof (StronglySorted_app_1_r _ _ _ Hs) as Hr. apply StronglySorted_cons in Hr as [Hf Hr].
  apply StronglySorted_app_2; [|by apply StronglySorted_app_1_l in Hs|].
  - intros x y Hx Hy. apply elem_of_cons in Hy as [->|Hy].
    + rewrite He. apply (StronglySorted_app_1_elem_of _ _ _ _ _ Hs Hx). by left.
    + apply (StronglySorted_app_1_elem_of _ _ _ _ _ Hs Hx). by right.
  - apply SSorted_cons; [done|]. by rewrite He.
Qed.

Lemma keys_sorted_insert (before after : remapper) addr es :
  keys_sorted (before ++ after) -> Forall (fun e => e.1 < addr) before -> Forall (fun e => addr < e.1) after ->
  keys_sorted (before ++ (addr, es) :: after).
Proof.
  intros Hs Hb Ha. apply StronglySorted_app_2; [|by apply StronglySorted_app_1_l in Hs|].
  - intros x y Hx Hy. rewrite Forall_forall in Hb. apply elem_of_cons in Hy as [->|Hy]; [by apply Hb|].
    by apply (StronglySorted_app_1_elem_of _ _ _ _ _ Hs).
  - apply SSorted_cons; [by apply StronglySorted_app_1_r in Hs|done].
Qed.

Lemma registered_at (before rest : remapper) addr es a q :
  Forall (fun e => e.1 < addr) before -> Forall (fun e => addr < e.1) rest ->
  registered (before ++ (addr, es) :: rest) a q <->
  (a = addr /\ q ∈ es) \/ (a <> addr /\ registered (before ++ rest) a q).
Proof.
  intros Hb Hr. rewrite Forall_forall in Hb, Hr. unfold registered. split.
  - intros (es' & Hin & Hq). apply elem_of_app in Hin as [Hin|Hin].
    + right. pose proof (Hb _ Hin). simpl in *. split; [lia|]. exists es'. split; [|done]. apply elem_of_app. by left.
    + apply elem_of_cons in Hin as [[= -> ->]|Hin]; [by left|].
      right. pose proof (Hr _ Hin). simpl in *. split; [lia|]. exists es'. split; [|done]. apply elem_of_app. by right.
  - intros [[-> Hq]|(_ & es' & Hin & Hq)].
    + exists es. split; [|done]. apply elem_of_app. right. by left.
    + exists es'. split; [|done]. apply elem_of_app in Hin as [?|?]; apply elem_of_app; [by left|right; by right].
Qed.

Lemma registered_none (before rest : remapper) addr q :
  Forall (fun e => e.1 < addr) before -> Forall (fun e => addr < e.1) rest -> ~ registered (before ++ rest) addr q.
Proof.
  intros Hb Hr (es & Hin & _). rewrite Forall_forall in Hb, Hr.
  apply elem_of_app in Hin as [Hin|Hin]; [apply Hb in Hin|apply Hr in Hin]; simpl in Hin; lia.
Qed.

Lemma remapper_add_spec addr p m :
  keys_sorted m -> addr <> 0 ->
  keys_sorted (remapper_add addr (Some p) m) /\
  forall a q, registered (remapper_add addr (Some p) m) a q <-> registered m a q \/ (a = addr /\ q = p).
Proof.
  intros Hs Hz. unfold remapper_add. rewrite (proj2 (Z.eqb_neq _ _) Hz).
  destruct (lower_bound (fun e => e.1 <? addr) m) as [before after] eqn:El.
  destruct (keys_split m addr before after Hs El) as (-> & Hb & Ha).
  assert (Hnew : Forall (fun x => addr < x.1) after ->
    keys_sorted (before ++ (addr, [p]) :: after) /\
    forall a q, registered (before ++ (addr, [p]) :: after) a q <-> registered (before ++ after) a q \/ (a = addr /\ q = p)).
  { intros Hf. split; [by apply keys_sorted_insert|]. intros a q. rewrite registered_at by done.
    rewrite list_elem_of_singleton. pose proof (registered_none before after addr q Hb Hf).
    destruct (decide (a = addr)) as [->|]; tauto. }
  destruct after as [|[a0 es] rest]; [by apply Hnew|]. destruct Ha as [Ha Hf]. simpl in Ha.
  destruct (a0 =? addr) eqn:E; bool_to_prop.
  - subst a0. split; [by eapply keys_sorted_replace; [|exact Hs]|]. intros a q.
    rewrite !registered_at by done. case_bool_decide as Hin.
    + split; [tauto|]. intros [H|[-> ->]]; [done|by left].
    + rewrite elem_of_app, list_elem_of_singleton. destruct (decide (a = addr)); tauto.
  - apply Hnew. constructor; [simpl; lia|done].
Qed.

Lemma remapper_remove_spec addr p m :
  keys_sorted m -> addr <> 0 ->
  keys_sorted (remapper_remove addr (Some p) m) /\
  forall a q, registered (remapper_remove addr (Some p) m) a q <-> registered m a q /\ ~ (a = addr /\ q = p).
Proof.
  intros Hs Hz. unfold remapper_remove. rewrite (proj2 (Z.eqb_neq _ _) Hz).
  destruct (lower_bound (fun e => e.1 <? addr) m) as [before after] eqn:El.
  destruct (keys_split m addr before after Hs El) as (-> & Hb & Ha).
  assert (Hsame : Forall (fun x => addr < x.1) after -> keys_sorted (before ++ after) /\
    forall a q, registered (before ++ after) a q <-> registered (before ++ after) a q /\ ~ (a = addr /\ q = p)).
  { intros Hf. split; [done|]. intros a q. split; [|tauto]. intros H. split; [done|]. intros [-> ->].
    by apply (registered_none before after addr p Hb Hf). }
  destruct after as [|[a0 es] rest]; [by apply Hsame|]. destruct Ha as [Ha Hf]. simpl in Ha.
  destruct (a0 =? addr) eqn:E; bool_to_prop.
  2:{ apply Hsame. constructor; [simpl; lia|done]. }
  subst a0. destruct (Nat.eqb (length (filter (fun q => q <> p) es)) 0) eqn:Elen.
  - apply Nat.eqb_eq, nil_length_inv in Elen. split.
    + apply StronglySorted_app_2; [|by apply StronglySorted_app_1_l in Hs|].
      * intros x y Hx Hy. apply (StronglySorted_app_1_elem_of _ _ _ _ _ Hs Hx). by right.
      * by apply StronglySorted_app_1_r, StronglySorted_cons in Hs as [_ Hs].
    + intros a q. rewrite registered_at by done. pose proof (registered_none before rest addr q Hb Hf).
      assert (Hq : q ∈ es -> q = p).
      { intros Hin. destruct (decide (q = p)); [done|].
        assert (q ∈ filter (fun q => q <> p) es) by (apply list_elem_of_filter; done). rewrite Elen in *.
        by apply not_elem_of_nil in H0. }
      destruct (decide (a = addr)) as [->|]; tauto.
  - split; [by eapply keys_sorted_replace; [|exact Hs]|]. intros a q. rewrite !registered_at by done.
    rewrite list_elem_of_filter. destruct (decide (a = addr)); tauto.
Qed.

(** the relation between stored addresses and objects that a history describes *)
Definition relate (R : Z -> nat -> Prop) (o : remapper_op) : Z -> nat -> Prop :=
  match o with
  | AddAddress addr (Some p) => fun a q => R a q \/ (addr <> 0 /\ a = addr /\ q = p)
  | RemoveAddress addr (Some p) => fun a q => R a q /\ ~ (addr <> 0 /\ a = addr /\ q = p)
  | _ => R
  end.

Lemma remapper_op_spec o m (R : Z -> nat -> Prop) :
  keys_sorted m -> (forall a q, registered m a q <-> R a q) ->
  keys_sorted (do_remapper_op m o) /\ forall a q, registered (do_remapper_op m o) a q <-> relate R o a q.
Proof.
  intros Hs HR. destruct o as [addr [p|]|addr [p|]]; cbn [do_remapper_op relate]; try done.
  - destruct (decide (addr = 0)) as [->|Hz].
    + split; [done|]. intros a q. simpl. rewrite HR. tauto.
    + destruct (remapper_add_spec addr p m Hs Hz) as [H1 H2]. split; [done|]. intros a q. rewrite H2, HR. tauto.
  - destruct (decide (addr = 0)) as [->|Hz].
    + split; [done|]. intros a q. simpl. rewrite HR. tauto.
    + destruct (remapper_remove_spec addr p m Hs Hz) as [H1 H2]. split; [done|]. intros a q. rewrite H2, HR. tauto.
Qed.

Lemma remapper_history ops : forall m (R : Z -> nat -> Prop),
  keys_sorted m -> (forall a q, registered m a q <-> R a q) ->
  keys_sorted (foldl do_remapper_op m ops) /\
  forall a q, registered (foldl do_remapper_op m ops) a q <-> foldl relate R ops a q.
Proof.
  induction ops as [|o ops IH]; intros m R Hs HR; [done|]. cbn [foldl].
  destruct (remapper_op_spec o m R Hs HR) as [H1 H2]. by apply IH.
Qed.

Lemma find_candidate_spec object_at m stored :
  (forall p, u64 (mp_size (object_at p))) -> keys_sorted m ->
  match find_candidate object_at m stored with
  | None => forall a q, registered m a q -> a <= stored -> covers a stored (object_at q) = false
  | Some (p, base) => registered m base p /\ base <= stored /\ covers base stored (object_at p) = true /\
      forall a q, registered m a q -> a <= stored -> covers a stored (object_at q) = true ->
        a <= base /\ (a = base -> rank (object_at q) <= rank (object_at p))
  end.
Proof.
  intros Hsz Hs. unfold find_candidate.
  destruct (lower_bound (fun e => e.1 <=? stored) m) as [below above] eqn:El. cbn [fst].
  pose proof (lower_bound_app _ _ _ _ El) as Hm. pose proof (lower_bound_holds _ _ _ _ El) as Hb.
  rewrite Forall_forall in Hb.
  assert (Hbelow : forall a es, (a, es) ∈ m -> a <= stored -> (a, es) ∈ rev below).
  { intros a es Hin Ha. apply list_elem_of_In. apply in_rev. rewrite rev_involutive. apply list_elem_of_In.
    rewrite Hm in Hin. apply elem_of_app in Hin as [?|Hin]; [done|].
    destruct above as [|x above]; [by apply not_elem_of_nil in Hin|].
    pose proof (lower_bound_stops _ _ _ _ _ El) as Hx. simpl in Hx. bool_to_prop.
    rewrite Hm in Hs. apply StronglySorted_app_1_r, StronglySorted_cons in Hs as [Hf _]. rewrite Forall_forall in Hf.
    apply elem_of_cons in Hin as [<-|Hin]; [simpl in Hx; lia|]. specialize (Hf _ Hin). simpl in Hf. lia. }
  pose proof (search_down_spec object_at Hsz stored (rev below)) as Hd.
  destruct (search_down object_at (rev below) stored) as [[p base]|].
  - destruct Hd as (hi & es & lo & Hrev & Hp & Hc & Hbest & Hhi).
    assert (Hbase : (base, es) ∈ below).
    { apply list_elem_of_In, in_rev. rewrite Hrev. apply in_or_app. right. by left. }
    split; [exists es; split; [rewrite Hm; apply elem_of_app; by left|done]|].
    split; [specialize (Hb _ Hbase); simpl in Hb; by bool_to_prop|]. split; [done|].
    intros a q (es' & Hin & Hq) Ha Hcov. specialize (Hbelow a es' Hin Ha). rewrite Hrev in Hbelow.
    rewrite Forall_forall in Hhi. rewrite Forall_forall in Hbest. apply elem_of_app in Hbelow as [Hx|Hx].
    { specialize (Hhi _ Hx). simpl in Hhi. rewrite Forall_forall in Hhi. rewrite (Hhi q Hq) in Hcov. done. }
    apply elem_of_cons in Hx as [[= -> ->]|Hx]; [split; [done|]; intros _; by apply Hbest|].
    assert (Hlt : a < base); [|split; [lia|intros ->; lia]].
    assert (Hsb : StronglySorted (fun x y : Z * list nat => x.1 < y.1) (rev lo ++ (base, es) :: rev hi)).
    { rewrite Hm in Hs. apply StronglySorted_app_1_l in Hs. rewrite <- (rev_involutive below), Hrev in Hs.
      rewrite rev_app_distr in Hs. simpl in Hs. by rewrite <- app_assoc in Hs. }
    apply (StronglySorted_app_1_elem_of _ _ _ (a, es') (base, es) Hsb); [|by left].
    apply list_elem_of_In, in_rev. rewrite rev_involutive. by apply list_elem_of_In.
  - intros a q (es' & Hin & Hq) Ha. specialize (Hbelow a es' Hin Ha). rewrite Forall_forall in Hd.
    specialize (Hd _ Hbelow). simpl in Hd. rewrite Forall_forall in Hd. by apply Hd.
Qed.

(** ** replay_remap *)

Definition remap_ok (r : replay_remap) : Prop := Z.of_nat (length (remapping r)) < CONTAINER_NULL_VALUE.

Lemma remap_set_ok r index handle r' :
  remap_set index handle r = Ok r' ->
  handle <> 0 /\ remapping r !! Z.to_nat index = Some 0 /\ r' = store_remap index handle r.
Proof.
  unfold remap_set, remapping_at. intros E. destruct (remapping r !! Z.to_nat index) as [v|] eqn:Ev; [|done].
  cbn [obind] in E. outcome_inv. subst. bool_to_prop. subst v. split; [done|by subst].
Qed.

(** ** Properties *)

(** C12: for every history of added and removed addresses the remapper holds exactly
    the pairs that history leaves, and a lookup finds the nearest base at or below
    the address under which some usable object covers it, and among the objects
    there one with an address before one without, a bound one before others, and
    the largest; it finds nothing only when no object covers the address. *)
Theorem address_remapper_best (object_at : nat -> mapped) (ops : list remapper_op) (stored : Z)
    (Hsize : forall p, u64 (mp_size (object_at p))) :
  let m := foldl do_remapper_op [] ops in
  (forall a q, registered m a q <-> foldl relate (fun _ _ => False) ops a q) /\
  match find_candidate object_at m stored with
  | None => translate_address object_at m stored = 0 /\
      forall a q, registered m a q -> a <= stored -> covers a stored (object_at q) = false
  | Some (p, base) => registered m base p /\ base <= stored /\ covers base stored (object_at p) = true /\
      (has_addr (object_at p) = true ->
       translate_address object_at m stored = wrap64 (mp_device_address (object_at p) + (stored - base))) /\
      forall a q, registered m a q -> a <= stored -> covers a stored (object_at q) = true ->
        a <= base /\ (a = base -> rank (object_at q) <= rank (object_at p))
  end.
Proof.
  intros m. destruct (remapper_history ops [] (fun _ _ => False)) as [Hs Hr].
  { constructor. }
  { intros a q. split; [|done]. intros (es & Hin & _). by apply not_elem_of_nil in Hin. }
  split; [exact Hr|]. pose proof (find_candidate_spec object_at m stored Hsize Hs) as H.
  unfold translate_address. destruct (find_candidate object_at m stored) as [[p base]|]; [|done].
  destruct H as (H1 & H2 & H3 & H4). do 3 (split; [done|]). split; [|done].
  unfold has_addr. intros Ha. apply negb_true_iff in Ha. by rewrite Ha.
Qed.

Definition demo_mapped (p : nat) : mapped :=
  match p with
  | O => Mapped 256 4096 state_bound false
  | 1%nat => Mapped 1024 8192 state_destroyed false
  | _ => Mapped 512 0 state_bound false
  end.

Lemma address_remapper_best_witness :
  let m := foldl do_remapper_op [] [AddAddress 1000 (Some 0%nat); AddAddress 1000 (Some 2%nat); AddAddress 900 (Some 1%nat);
             AddAddress 950 (Some 2%nat); RemoveAddress 950 (Some 2%nat)] in
  find_candidate demo_mapped m 1100 = Some (0%nat, 1000) /\
  translate_address demo_mapped m 1100 = wrap64 (mp_device_address (demo_mapped 0) + (1100 - 1000)).
Proof.
  intros m. split; [by vm_compute|].
  assert (H := address_remapper_best demo_mapped [AddAddress 1000 (Some 0%nat); AddAddress 1000 (Some 2%nat);
    AddAddress 900 (Some 1%nat); AddAddress 950 (Some 2%nat); RemoveAddress 950 (Some 2%nat)] 1100
    ltac:(intros [|[|p]]; vm_compute; split; discriminate)).
  destruct H as [_ H]. apply H. reflexivity.
Defined.

(** After any history of added and removed handles the objects are stored in
    strictly increasing index order, every object ever added exactly once, every
    index below the reported size; when the map chooses the indices itself they
    are the positions, without gaps. *)
Theorem trace_remap_sound (ops : list remap_op) (r : trace_remap)
    (Hops : Forall desired_ok ops) (Hfew : Z.of_nat (length ops) <= UINT32_MAX)
    (Hrun : run_remap ops new_trace_remap = Ok r) :
  StronglySorted (by_index (objects r)) (storage r) /\
  storage r ≡ₚ seq 0 (length (objects r)) /\
  (forall p o, objects r !! p = Some o -> 0 <= tk_index o < remap_count r) /\
  (forall key p, remap_lookup r !! key = Some (Some p) -> (p < length (objects r))%nat) /\
  (remap_mode r = mode_automatic -> storage r = seq 0 (length (objects r)) /\
     remap_count r = Z.of_nat (length (objects r)) /\
     forall p o, objects r !! p = Some o -> tk_index o = Z.of_nat p).
Proof.
  pose proof (run_remap_inv ops new_trace_remap r new_trace_remap_inv Hops Hfew Hrun) as Hi.
  split; [apply Hi|]. split; [apply Hi|]. split; [apply Hi|]. split; [apply Hi|].
  intros Hm. split; [by apply automatic_storage|]. pose proof (tr_mode r Hi) as H. by rewrite Hm in H.
Qed.

Definition demo_source : change_source := ChangeSource 3 0 1 2 9.

Definition demo_remap_ops : list remap_op :=
  [Add 77 demo_source 5; Add 88 demo_source 2; Unset 77 demo_source; Add 99 demo_source 7; Add 77 demo_source 3].

Lemma trace_remap_sound_witness :
  exists r, run_remap demo_remap_ops new_trace_remap = Ok r /\ storage r = [1; 3; 0; 2]%nat /\
    storage r ≡ₚ seq 0 (length (objects r)).
Proof.
  eexists. split; [vm_compute; reflexivity|]. split; [reflexivity|].
  refine (proj1 (proj2 (trace_remap_sound demo_remap_ops _ _ _ _))); [|by vm_compute|vm_compute; reflexivity].
  repeat constructor; by vm_compute.
Defined.

(** Whatever is allocated between two resets lies inside the pool, in
    allocations that never overlap; but an allocation needs room for twice its
    size: [std::align] is given the room behind the allocation instead of the room
    it may use, so that with an aligned start anything larger than half of what is
    left is refused. *)
Theorem pool_allocations (base : Z) (requests : list (Z * Z * Z)) (p p' : memory_pool) (l : list (Z * Z))
    (n : Z) (Hp : pool_ok base p) (Hr : Forall request_valid requests)
    (Hrun : pool_run base requests p = (l, p'))
    (Hn : pool_size p' - pool_index p' < 2 * n) (Hfits : n <= pool_size p' - pool_index p') (Hpos : 0 < n) :
  (forall i a, l !! i = Some a -> base + pool_index p <= a.1 /\ a.1 + a.2 <= base + pool_size p) /\
  (forall i j a b, (i < j)%nat -> l !! i = Some a -> l !! j = Some b -> a.1 + a.2 <= b.1) /\
  pool_allocate base n 1 1 p' = (None, p').
Proof.
  destruct (pool_run_laid base requests p l p' Hp Hr Hrun) as (Hp' & Hsz & Hl).
  split; [|split; [exact (laid_from_pairs _ _ _ Hl)|]].
  - intros i [ptr m] Ha. destruct (laid_from_in _ _ _ ptr m Hl).
    { apply list_elem_of_In. by eapply list_elem_of_lookup_2. }
    destruct Hp' as (? & ? & ?). simpl. rewrite <- Hsz. lia.
  - pose proof Hp' as (B1 & B2 & B3). unfold pool_allocate. change (Z.max 1 2) with 2.
    rewrite pool_take_exact by (try done; try lia; by exists 1). cbv zeta. rewrite Z.mul_1_r.
    destruct (round_up_spec 2 (base + pool_index p') ltac:(lia)) as [Hru _].
    rewrite (proj2 (andb_false_iff _ _)); [done|]. right. apply Z.leb_gt. lia.
Qed.

Definition demo_requests : list (Z * Z * Z) := [(3, 1, 1); (2, 8, 8); (5, 4, 4)].

Lemma pool_allocations_witness :
  exists l p', pool_run 4096 demo_requests (new_memory_pool 1) = (l, p') /\
    l = [(4096, 3); (4104, 16); (4120, 20)] /\
    pool_allocate 4096 700000 1 1 p' = (None, p').
Proof.
  eexists _, _. split; [vm_compute; reflexivity|]. split; [reflexivity|].
  refine (proj2 (proj2 (pool_allocations 4096 demo_requests (new_memory_pool 1) _
    [(4096, 3); (4104, 16); (4120, 20)] 700000 _ _ _ _ _ _)));
    [by vm_compute| |vm_compute; reflexivity|by vm_compute|by vm_compute|lia].
  repeat constructor; try (by vm_compute).
  - by exists 0.
  - by exists 3.
  - by exists 2.
Defined.

(** Elements of the concurrent vector never move or change for readers: through
    any vector that was current at some time, and through the one a reader loaded
    before more elements were added, every element below its size is the one
    added at that position. *)
Theorem trace_data_stable {A} (before after : list A)
    (Hfew : Z.of_nat (length (before ++ after)) <= UINT32_MAX) :
  exists d1 d2, push_all before new_trace_data = Ok d1 /\ push_all after d1 = Ok d2 /\
    msize d2 = Z.of_nat (length (before ++ after)) /\
    (forall i a, before !! i = Some a -> vector_at (allocated d2) (current_vector d1) (Z.of_nat i) = Ok a) /\
    (forall i a, (before ++ after) !! i = Some a -> trace_data_at d2 (Z.of_nat i) = Ok a) /\
    (forall v i a, In v (old_vectors d2) -> (before ++ after) !! i = Some a -> (i < length v)%nat ->
       vector_at (allocated d2) v (Z.of_nat i) = Ok a).
Proof.
  destruct (push_all_inv before new_trace_data [] new_trace_data_inv) as (d1 & E1 & I1).
  { simpl. rewrite length_app in Hfew. lia. }
  destruct (push_all_inv after d1 before I1 Hfew) as (d2 & E2 & I2).
  exists d1, d2. split; [done|]. split; [done|]. split; [apply I2|]. split; [|split].
  - intros i a Ha. unfold vector_at. rewrite Nat2Z.id. pose proof (lookup_lt_Some _ _ _ Ha) as Hlt.
    rewrite (td_slots _ _ I1 i Hlt), (td_objects _ _ I2), list_lookup_fmap.
    rewrite lookup_app_l by done. by rewrite Ha.
  - intros i a Ha. apply (published_read d2 _ (current_vector d2) i a I2); [by left|done|].
    pose proof (td_room _ _ I2). apply lookup_lt_Some in Ha. lia.
  - intros v i a Hv Ha Hlt. apply (published_read d2 _ v i a I2); [by right|done|done].
Qed.

Lemma trace_data_stable_witness :
  exists d1 d2, push_all (seq 0 60) new_trace_data = Ok d1 /\ push_all (seq 60 10) d1 = Ok d2 /\
    msize d2 = Z.of_nat (length (seq 0 60 ++ seq 60 10)) /\
    (forall i a, seq 0 60 !! i = Some a -> vector_at (allocated d2) (current_vector d1) (Z.of_nat i) = Ok a) /\
    (forall i a, (seq 0 60 ++ seq 60 10) !! i = Some a -> trace_data_at d2 (Z.of_nat i) = Ok a) /\
    (forall v i a, In v (old_vectors d2) -> (seq 0 60 ++ seq 60 10) !! i = Some a -> (i < length v)%nat ->
       vector_at (allocated d2) v (Z.of_nat i) = Ok a).
Proof. apply (trace_data_stable (seq 0 60) (seq 60 10)). by vm_compute. Defined.

(** A handle set for an index is found again in both directions and no other
    index or handle is touched; unsetting the index takes the handle away, but in
    the other direction the handle still answers, with index 0. *)
Theorem replay_remap_roundtrip (r r1 : replay_remap) (index handle : Z)
    (Hsmall : remap_ok r) (Hindex : 0 <= index) (Hset : remap_set index handle r = Ok r1) :
  remap_at r1 index = Ok handle /\ remap_contains r1 index = Ok true /\
  remap_index r1 handle = Ok index /\ remap_index_or_invalid r1 handle = index /\
  (forall i, 0 <= i -> i <> index -> remap_at r1 i = remap_at r i) /\
  (forall h, h <> handle -> remap_index r1 h = remap_index r h) /\
  exists r2, remap_unset index r1 = Ok r2 /\ remap_at r2 index = Fail AssertFailed /\
    remap_contains r2 index = Ok false /\ remap_index r2 handle = Ok 0 /\ remap_index_or_invalid r2 handle = 0.
Proof.
  destruct (remap_set_ok r index handle r1 Hset) as (Hh & Hold & ->).
  pose proof (lookup_lt_Some _ _ _ Hold) as Hlt. unfold remap_ok in Hsmall.
  assert (Hnull : (index =? CONTAINER_NULL_VALUE) = false) by (apply Z.eqb_neq; lia).
  assert (Hz : (handle =? 0) = false) by (by apply Z.eqb_neq).
  unfold remap_at, remap_contains, remap_index, remap_index_or_invalid, remap_unset, remapping_at, store_remap.
  cbn [remapping reverse]. rewrite Hnull, Hz, list_lookup_insert_eq, lookup_insert_eq by done. cbn [obind require negb default].
  rewrite Hz. cbn [negb obind require]. do 4 (split; [done|]). split; [|split].
  - intros i Hi Hne. by rewrite list_lookup_insert_ne by lia.
  - intros h Hne. by rewrite lookup_insert_ne by done.
  - eexists. split; [reflexivity|]. cbn [remapping reverse].
    rewrite list_lookup_insert_eq, lookup_insert_eq by (by rewrite length_insert). done.
Qed.

Lemma replay_remap_roundtrip_witness :
  exists r1, remap_set 2 55 (remap_resize 4 (ReplayRemap [] ∅)) = Ok r1 /\ remap_at r1 2 = Ok 55 /\
    exists r2, remap_unset 2 r1 = Ok r2 /\ remap_at r2 2 = Fail AssertFailed /\
      remap_contains r2 2 = Ok false /\ remap_index r2 55 = Ok 0 /\ remap_index_or_invalid r2 55 = 0.
Proof.
  eexists. split; [vm_compute; reflexivity|].
  assert (H := replay_remap_roundtrip (remap_resize 4 (ReplayRemap [] ∅)) _ 2 55 ltac:(by vm_compute) ltac:(lia)
    ltac:(vm_compute; reflexivity)).
  split; [apply H|]. apply H.
Defined.
