(* ===== verification/Markings.v ===== *)
(** * Marked offsets (src/markings.h, src/markings.cpp; src/read.cpp, src/execute_commands.cpp,
    src/hardcode_write.cpp, src/hardcode_read.cpp)

    A [VkMarkedOffsetsARM] lists the places of a memory update that hold a device
    address, a descriptor or a shader group handle, in three parallel arrays. The
    post-processor discovers such places, sorts them into buckets by the packet
    that wrote the bytes, and merges every bucket into the queue of markings to
    write out; the markings travel in the trace as an extension structure. *)

From Stdlib Require Import ZArith Lia Bool Sorting.Sorted.
From Stdlib.Strings Require Import Byte.
From stdpp Require Import base numbers list sorting.
From S2P Require Import Prelude Stream RangeTracking Patch Memory FileWriter FileReader RandomAccess Packets.

#[local] Open Scope Z_scope.

(** The values of the Vulkan header that declares the extension. *)
Class MarkingHeader := {
  VK_STRUCTURE_TYPE_MARKED_OFFSETS_ARM : Z;
  VK_MARKING_TYPE_DEVICE_ADDRESS_ARM : Z;
  VK_MARKING_TYPE_DESCRIPTOR_ARM : Z;
  VK_MARKING_TYPE_DESCRIPTOR_SIZE_ARM : Z;
  VK_MARKING_TYPE_DESCRIPTOR_OFFSET_ARM : Z;
  VK_MARKING_TYPE_SHADER_GROUP_HANDLE_ARM : Z;
  VK_DEVICE_ADDRESS_TYPE_BUFFER_ARM : Z;
  VK_DEVICE_ADDRESS_TYPE_ACCELERATION_STRUCTURE_ARM : Z;
  header_stype : u32 VK_STRUCTURE_TYPE_MARKED_OFFSETS_ARM;
  header_types : NoDup [VK_MARKING_TYPE_DEVICE_ADDRESS_ARM; VK_MARKING_TYPE_DESCRIPTOR_ARM;
    VK_MARKING_TYPE_DESCRIPTOR_SIZE_ARM; VK_MARKING_TYPE_DESCRIPTOR_OFFSET_ARM; VK_MARKING_TYPE_SHADER_GROUP_HANDLE_ARM];
  header_subtypes : VK_DEVICE_ADDRESS_TYPE_BUFFER_ARM <> VK_DEVICE_ADDRESS_TYPE_ACCELERATION_STRUCTURE_ARM
}.

(** the arrays hold [count] elements or more; [None] is the null pointer *)
Record VkMarkedOffsetsARM := MarkedOffsets {
  sType : Z;
  count : Z;
  pMarkingTypes : option (list Z);
  pSubTypes : option (list Z);        (** the union read as its [reserved] 64-bit word *)
  pOffsets : option (list Z)
}.

#[export] Instance VkMarkedOffsetsARM_eq_dec : EqDecision VkMarkedOffsetsARM.
Proof. solve_decision. Defined.

(** one entry across the three arrays *)
Record marking := Marking { mk_offset : Z; mk_type : Z; mk_sub : Z }.

#[export] Instance marking_eq_dec : EqDecision marking.
Proof. solve_decision. Defined.

Fixpoint zip_markings (offsets types subs : list Z) : list marking :=
  match offsets, types, subs with
  | o :: offsets, t :: types, s :: subs => Marking o t s :: zip_markings offsets types subs
  | _, _, _ => []
  end.

(** a null pointer that is about to be used *)
Definition non_null (p : option (list Z)) : outcome (list Z) :=
  match p with Some l => Ok l | None => Fail AssertFailed end.

(** reading [count] elements; an array that is too short is out of range *)
Definition elements (m : VkMarkedOffsetsARM) (l : list Z) : outcome (list Z) :=
  let* _ := require (count m <=? Z.of_nat (length l)) OutOfRange in
  Ok (take (Z.to_nat (count m)) l).

(** ** clone_marked_offsets *)

Definition clone_array (m : VkMarkedOffsetsARM) (p : option (list Z)) : outcome (option (list Z)) :=
  match p with
  | None => Ok None
  | Some l => let* l := elements m l in Ok (Some l)
  end.

Definition clone_marked_offsets (src : option VkMarkedOffsetsARM) : outcome (option VkMarkedOffsetsARM) :=
  match src with
  | None => Ok None
  | Some m =>
      if count m =? 0 then Ok (Some (MarkedOffsets (sType m) 0 None None None))
      else
        let* types := clone_array m (pMarkingTypes m) in
        let* subs := clone_array m (pSubTypes m) in
        let* offsets := clone_array m (pOffsets m) in
        Ok (Some (MarkedOffsets (sType m) (count m) types subs offsets))
  end.

(** ** sort_marked_offsets *)

Definition marking_before (a b : marking) : bool :=
  if negb (mk_offset a =? mk_offset b) then mk_offset a <? mk_offset b
  else if negb (mk_type a =? mk_type b) then mk_type a <? mk_type b
  else mk_sub a <? mk_sub b.

Definition marking_le (a b : marking) : Prop := marking_before b a = false.

#[export] Instance marking_le_dec a b : Decision (marking_le a b).
Proof. unfold marking_le. apply _. Defined.

(** stores at the front of an array *)
Definition overwrite (l xs : list Z) : list Z := xs ++ drop (length xs) l.

Definition set_entries (m : VkMarkedOffsetsARM) (offsets types subs : list Z) (ms : list marking) : VkMarkedOffsetsARM :=
  MarkedOffsets (sType m) (count m) (Some (overwrite types (map mk_type ms)))
    (Some (overwrite subs (map mk_sub ms))) (Some (overwrite offsets (map mk_offset ms))).

(** the three arrays and the entries they hold *)
Definition entries (m : VkMarkedOffsetsARM) : outcome (list Z * list Z * list Z * list marking) :=
  let* offsets := non_null (pOffsets m) in
  let* types := non_null (pMarkingTypes m) in
  let* subs := non_null (pSubTypes m) in
  let* o := elements m offsets in
  let* t := elements m types in
  let* s := elements m subs in
  Ok (offsets, types, subs, zip_markings o t s).

(** [std::sort] may order equal entries either way, but equal entries are the
    same entry, so the arrays it leaves are those of any sort *)
Definition sort_marked_offsets (m : VkMarkedOffsetsARM) : outcome VkMarkedOffsetsARM :=
  if count m <=? 1 then Ok m
  else
    let* (arrays, ms) := entries m in
    let '(offsets, types, subs) := arrays in
    Ok (set_entries m offsets types subs (merge_sort marking_le ms)).

(** ** normalize_marked_offsets *)

(** the entries kept after [last], the one kept before them *)
Fixpoint compact (last : marking) (ms : list marking) : list marking :=
  match ms with
  | [] => []
  | x :: ms => if bool_decide (last = x) then compact last ms else x :: compact x ms
  end.

Definition kept (ms : list marking) : list marking :=
  match ms with [] => [] | x :: ms => x :: compact x ms end.

Definition normalize_marked_offsets (m : VkMarkedOffsetsARM) : outcome VkMarkedOffsetsARM :=
  let* m := sort_marked_offsets m in
  if count m <=? 1 then Ok m
  else
    let* (arrays, ms) := entries m in
    let '(offsets, types, subs) := arrays in
    let m := set_entries m offsets types subs (kept ms) in
    Ok (MarkedOffsets (sType m) (Z.of_nat (length (kept ms))) (pMarkingTypes m) (pSubTypes m) (pOffsets m)).

(** ** merge_marked_offsets *)

(** the arrays of one side, for the copies into the merged arrays *)
Definition side (m : VkMarkedOffsetsARM) : outcome (list Z * list Z * list Z) :=
  if count m >? 0 then
    let* types := non_null (pMarkingTypes m) in
    let* subs := non_null (pSubTypes m) in
    let* offsets := non_null (pOffsets m) in
    let* t := elements m types in
    let* s := elements m subs in
    let* o := elements m offsets in
    Ok (t, s, o)
  else Ok ([], [], []).

Section Merge.
Context `{MarkingHeader}.

(** copies past the end of the merged arrays are out of range *)
Definition merge_marked_offsets (a b : option VkMarkedOffsetsARM) : outcome (option VkMarkedOffsetsARM) :=
  match a, b with
  | None, _ => clone_marked_offsets b
  | _, None => clone_marked_offsets a
  | Some a, Some b =>
      let* _ := require (sType a =? VK_STRUCTURE_TYPE_MARKED_OFFSETS_ARM) AssertFailed in
      let* _ := require (sType b =? VK_STRUCTURE_TYPE_MARKED_OFFSETS_ARM) AssertFailed in
      let n := wrap32 (count a + count b) in
      if n =? 0 then Ok (Some (MarkedOffsets VK_STRUCTURE_TYPE_MARKED_OFFSETS_ARM 0 None None None))
      else
        let* (ts, o1) := side a in let '(t1, s1) := ts in
        let* (ts, o2) := side b in let '(t2, s2) := ts in
        let* _ := require (count a + count b <=? n) OutOfRange in
        let* m := normalize_marked_offsets
          (MarkedOffsets VK_STRUCTURE_TYPE_MARKED_OFFSETS_ARM n (Some (t1 ++ t2)) (Some (s1 ++ s2)) (Some (o1 ++ o2))) in
        Ok (Some m)
  end.

(** ** The queue of markings to write out (merge_rewrite_markings) *)

Record address_rewrite := AddressRewrite {
  ar_markings : option VkMarkedOffsetsARM;
  ar_source : change_source;
  ar_object_type : Z;
  ar_object_index : Z;
  ar_stage_index : Z
}.

Definition same_change_source (a b : change_source) : bool :=
  (cs_packet a =? cs_packet b) && (cs_frame a =? cs_frame b) && (cs_thread a =? cs_thread b) &&
  (cs_call_id a =? cs_call_id b).

Definition same_rewrite_target (e : address_rewrite) (object_type object_index stage_index : Z) : bool :=
  (ar_object_type e =? object_type) && (ar_object_index e =? object_index) && (ar_stage_index e =? stage_index).

(** [find_if] over the queue, an entry merged in place or a new one at the end *)
Fixpoint merge_rewrite_markings (queue : list address_rewrite) (source : change_source) (markings : VkMarkedOffsetsARM)
    (object_type object_index stage_index : Z) : outcome (list address_rewrite) :=
  match queue with
  | [] =>
      let* m := clone_marked_offsets (Some markings) in
      match m with
      | None => Ok [AddressRewrite None source object_type object_index stage_index]
      | Some m =>
          let* m := normalize_marked_offsets m in
          Ok [AddressRewrite (Some m) source object_type object_index stage_index]
      end
  | e :: rest =>
      if same_change_source (ar_source e) source && same_rewrite_target e object_type object_index stage_index then
        let* merged := merge_marked_offsets (ar_markings e) (Some markings) in
        Ok (AddressRewrite merged (ar_source e) (ar_object_type e) (ar_object_index e) (ar_stage_index e) :: rest)
      else
        let* rest := merge_rewrite_markings rest source markings object_type object_index stage_index in
        Ok (e :: rest)
  end.
End Merge.

(** ** compare_marked_offsets *)

Inductive marked_offsets_difference : Set :=
  | diff_none | missing_left | missing_right | diff_s_type | diff_count | marking_types_missing | sub_types_missing
  | offsets_missing | diff_marking_types | diff_sub_types | diff_offsets.

#[export] Instance difference_eq_dec : EqDecision marked_offsets_difference.
Proof. solve_decision. Defined.

(** [memcmp] of [count] elements *)
Definition same_elements (n : Z) (a b : list Z) : bool :=
  bool_decide (take (Z.to_nat n) a = take (Z.to_nat n) b).

Definition compare_marked_offsets (a b : option VkMarkedOffsetsARM) : marked_offsets_difference :=
  match a, b with
  | None, None => diff_none
  | None, _ => missing_left
  | _, None => missing_right
  | Some a, Some b =>
      if negb (sType a =? sType b) then diff_s_type
      else if negb (count a =? count b) then diff_count
      else if count a =? 0 then diff_none
      else match pMarkingTypes a, pMarkingTypes b with
      | Some ta, Some tb =>
          match pSubTypes a, pSubTypes b with
          | Some sa, Some sb =>
              match pOffsets a, pOffsets b with
              | Some oa, Some ob =>
                  if negb (same_elements (count a) ta tb) then diff_marking_types
                  else if negb (same_elements (count a) sa sb) then diff_sub_types
                  else if negb (same_elements (count a) oa ob) then diff_offsets
                  else diff_none
              | _, _ => offsets_missing
              end
          | _, _ => sub_types_missing
          end
      | _, _ => marking_types_missing
      end
  end.

(** ** The structure in the trace *)

Section Write.
Context `{MarkingHeader} {S : Type} `{ByteSink S}.
(** the generated [write_extension] on [pNext] *)
Context (write_pnext : S -> outcome S).

(** an array as [write_array] takes it: its size in bytes is an [unsigned] *)
Definition array_bytes (n : nat) (m : VkMarkedOffsetsARM) (l : list Z) : outcome (list byte) :=
  let* l := elements m l in
  Ok (take (Z.to_nat (wrap32 (count m * Z.of_nat n))) (concat (map (le_encode n) l))).

Definition write_marking_array (n : nat) (m : VkMarkedOffsetsARM) (l : list Z) (s : S) : outcome S :=
  let opt := count m >? 0 in
  let* s := write_uint8_t (if opt then 1 else 0) s in
  if opt then let* bs := array_bytes n m l in write_array bs s else Ok s.

Definition write_VkMarkedOffsetsARM (m : VkMarkedOffsetsARM) (s : S) : outcome S :=
  let* s := write_uint32_t (sType m) s in
  let* _ := require (sType m =? VK_STRUCTURE_TYPE_MARKED_OFFSETS_ARM) AssertFailed in
  let* types := non_null (pMarkingTypes m) in
  let* subs := non_null (pSubTypes m) in
  let* offsets := non_null (pOffsets m) in
  let* s := write_pnext s in
  let* s := write_uint32_t (count m) s in
  let* s := write_marking_array 4 m types s in
  let* s := write_marking_array 8 m subs s in
  write_marking_array 8 m offsets s.
End Write.

(** the words of an array just read *)
Fixpoint split_words (n k : nat) (bs : list byte) : list Z :=
  match k with
  | O => []
  | Datatypes.S k' => le_decode (take n bs) :: split_words n k' (drop n bs)
  end.

Section Read.
Context `{MarkingHeader} {R : Type} `{ByteSource R}.
(** the generated [read_extension] on [pNext] *)
Context (read_pnext : R -> outcome (unit * R)).

Definition read_marking_array (n : nat) (cnt : Z) (s : R) : outcome (option (list Z) * R) :=
  let* (opt, s) := read_uint8_t s in
  if negb (opt =? 0) then
    let* _ := require (cnt >? 0) AssertFailed in
    let* (bs, s) := read_array (Z.to_nat (wrap32 (Z.of_nat n * cnt))) s in Ok (Some (split_words n (Z.to_nat cnt) bs), s)
  else Ok (None, s).

Definition read_VkMarkedOffsetsARM (s : R) : outcome (VkMarkedOffsetsARM * R) :=
  let* (stype, s) := read_uint32_t s in
  let* _ := require (stype =? VK_STRUCTURE_TYPE_MARKED_OFFSETS_ARM) AssertFailed in
  let* (_, s) := read_pnext s in
  let* (cnt, s) := read_uint32_t s in
  let* (types, s) := read_marking_array 4 cnt s in
  let* (subs, s) := read_marking_array 8 cnt s in
  let* (offsets, s) := read_marking_array 8 cnt s in
  Ok (MarkedOffsets stype cnt types subs offsets, s).
End Read.

(** ** The order of the entries *)

Definition marking_lt (a b : marking) : Prop := marking_before a b = true.

Lemma marking_before_spec a b : marking_before a b = true <->
  mk_offset a < mk_offset b \/ mk_offset a = mk_offset b /\
    (mk_type a < mk_type b \/ mk_type a = mk_type b /\ mk_sub a < mk_sub b).
Proof. unfold marking_before. repeat case_bool; bool_to_prop; rewrite ?Z.ltb_lt; lia. Qed.

Lemma marking_le_spec a b : marking_le a b <->
  mk_offset a < mk_offset b \/ mk_offset a = mk_offset b /\
    (mk_type a < mk_type b \/ mk_type a = mk_type b /\ mk_sub a <= mk_sub b).
Proof.
  unfold marking_le. pose proof (marking_before_spec b a) as Hs.
  destruct (marking_before b a); split; intros Hc; try done; [exfalso|]; destruct Hs as [H1 H2].
  - specialize (H1 eq_refl). lia.
  - assert (~ (mk_offset b < mk_offset a \/ mk_offset b = mk_offset a /\
      (mk_type b < mk_type a \/ mk_type b = mk_type a /\ mk_sub b < mk_sub a))) by (intros Hx; by specialize (H2 Hx)). lia.
Qed.

#[local] Instance marking_le_trans : Transitive marking_le.
Proof. intros a b c. rewrite !marking_le_spec. lia. Qed.

#[local] Instance marking_le_total : Total marking_le.
Proof. intros a b. rewrite !marking_le_spec. lia. Qed.

Lemma marking_eq a b :
  mk_offset a = mk_offset b -> mk_type a = mk_type b -> mk_sub a = mk_sub b -> a = b.
Proof. destruct a, b. simpl. congruence. Qed.

#[local] Instance marking_le_antisym : AntiSymm (=) marking_le.
Proof. intros a b. rewrite !marking_le_spec. intros ??. apply marking_eq; lia. Qed.

Lemma marking_le_lt a b : marking_le a b -> a <> b -> marking_lt a b.
Proof.
  rewrite marking_le_spec. unfold marking_lt. rewrite marking_before_spec. intros Hle Hne.
  destruct (decide (mk_offset a = mk_offset b)) as [E1|]; [|lia].
  destruct (decide (mk_type a = mk_type b)) as [E2|]; [|lia].
  destruct (decide (mk_sub a = mk_sub b)) as [E3|]; [|lia]. exfalso. apply Hne. by apply marking_eq.
Qed.

Lemma marking_lt_le a b : marking_lt a b -> marking_le a b.
Proof. unfold marking_lt. rewrite marking_before_spec, marking_le_spec. lia. Qed.

Lemma marking_lt_irrefl a : ~ marking_lt a a.
Proof. unfold marking_lt. rewrite marking_before_spec. lia. Qed.

(** sorted without duplicates *)
Definition strict (l : list marking) : Prop := StronglySorted marking_lt l.

Lemma strict_nodup l : strict l -> NoDup l.
Proof.
  induction 1 as [|a l Hl IH Ha]; constructor; [|done]. intros Hin.
  rewrite List.Forall_forall in Ha. apply list_elem_of_In in Hin. by apply (marking_lt_irrefl a), Ha.
Qed.

Lemma strict_unique l1 l2 : strict l1 -> strict l2 -> (forall x, x ∈ l1 <-> x ∈ l2) -> l1 = l2.
Proof.
  intros H1 H2 He.
  assert (Hle : forall l, strict l -> StronglySorted marking_le l).
  { induction 1 as [|a l Hl IH Ha]; constructor; [done|]. eapply List.Forall_impl; [|exact Ha]. apply marking_lt_le. }
  apply (StronglySorted_unique marking_le); [by apply Hle|by apply Hle|].
  apply NoDup_Permutation; [by apply strict_nodup|by apply strict_nodup|done].
Qed.

Lemma compact_spec last ms :
  StronglySorted marking_le (last :: ms) ->
  strict (last :: compact last ms) /\ forall x, x ∈ last :: compact last ms <-> x ∈ last :: ms.
Proof.
  revert last; induction ms as [|y ms IH]; intros last Hs; simpl; [split; [by repeat constructor|done]|].
  apply StronglySorted_inv in Hs as [Hs Hl]. apply Forall_cons in Hl as [Hly Hl]. case_bool_decide as Hc.
  - subst y. destruct (IH last Hs) as [H1 H2]. split; [done|]. intros x. rewrite H2, !elem_of_cons. tauto.
  - destruct (IH y Hs) as [H1 H2]. split.
    + constructor; [done|]. apply List.Forall_forall. intros x Hx. apply list_elem_of_In, H2 in Hx.
      apply marking_le_lt.
      * apply elem_of_cons in Hx as [->|Hx]; [done|]. rewrite Forall_forall in Hl. by apply Hl.
      * intros ->. apply Hc. apply StronglySorted_inv in Hs as [_ Hy]. apply elem_of_cons in Hx as [->|Hx]; [done|].
        rewrite Forall_forall in Hy. apply (anti_symm marking_le); [done|by apply Hy].
    + intros x. rewrite (elem_of_cons _ x last), H2, !elem_of_cons. tauto.
Qed.

(** what normalizing leaves of a list of entries *)
Definition canonical (ms : list marking) : list marking := kept (merge_sort marking_le ms).

Lemma canonical_spec ms : strict (canonical ms) /\ forall x, x ∈ canonical ms <-> x ∈ ms.
Proof.
  pose proof (StronglySorted_merge_sort marking_le ms) as Hs. pose proof (merge_sort_Permutation marking_le ms) as Hp.
  unfold canonical. destruct (merge_sort marking_le ms) as [|y l] eqn:E; cbn [kept].
  - split; [constructor|]. intros x. by rewrite <- Hp.
  - destruct (compact_spec y l Hs) as [H1 H2]. split; [done|]. intros x. by rewrite H2, <- Hp.
Qed.

Lemma canonical_unique ms ms' : (forall x, x ∈ ms <-> x ∈ ms') -> canonical ms = canonical ms'.
Proof.
  intros He. destruct (canonical_spec ms) as [H1 H2], (canonical_spec ms') as [H3 H4].
  apply strict_unique; [done|done|]. intros x. by rewrite H2, H4.
Qed.

Lemma length_compact last ms : (length (compact last ms) <= length ms)%nat.
Proof. revert last; induction ms as [|y ms IH]; intros last; simpl; [lia|]. case_bool_decide; [|simpl]; [specialize (IH last)|specialize (IH y)]; lia. Qed.

Lemma length_canonical ms : (length (canonical ms) <= length ms)%nat.
Proof.
  pose proof (merge_sort_Permutation marking_le ms) as Hp. apply Permutation_length in Hp. unfold canonical.
  destruct (merge_sort marking_le ms) as [|y l]; simpl in *; [lia|]. pose proof (length_compact y l). lia.
Qed.

(** ** Well-formed markings and their entries *)

Definition marks (m : VkMarkedOffsetsARM) : list marking :=
  match pOffsets m, pMarkingTypes m, pSubTypes m with
  | Some o, Some t, Some s =>
      zip_markings (take (Z.to_nat (count m)) o) (take (Z.to_nat (count m)) t) (take (Z.to_nat (count m)) s)
  | _, _, _ => []
  end.

Definition arrays_hold (m : VkMarkedOffsetsARM) : Prop :=
  exists o t s, pOffsets m = Some o /\ pMarkingTypes m = Some t /\ pSubTypes m = Some s /\
    count m <= Z.of_nat (length o) /\ count m <= Z.of_nat (length t) /\ count m <= Z.of_nat (length s).

Definition well_formed (m : VkMarkedOffsetsARM) : Prop := u32 (count m) /\ (count m = 0 \/ arrays_hold m).

Lemma elements_ok m l : count m <= Z.of_nat (length l) -> elements m l = Ok (take (Z.to_nat (count m)) l).
Proof. intros Hl. unfold elements. by rewrite (proj2 (Z.leb_le _ _)) by done. Qed.

Lemma zip_markings_maps ms : zip_markings (map mk_offset ms) (map mk_type ms) (map mk_sub ms) = ms.
Proof. induction ms as [|[] ms IH]; simpl; [done|by rewrite IH]. Qed.

Lemma length_zip_markings o t s n :
  length o = n -> length t = n -> length s = n -> length (zip_markings o t s) = n.
Proof. revert t s n; induction o; intros [|] [|] n; simpl; intros; try lia. destruct n; [lia|]. f_equal. auto. Qed.

Lemma zip_markings_app o1 t1 s1 o2 t2 s2 :
  length o1 = length t1 -> length o1 = length s1 ->
  zip_markings (o1 ++ o2) (t1 ++ t2) (s1 ++ s2) = zip_markings o1 t1 s1 ++ zip_markings o2 t2 s2.
Proof. revert t1 s1; induction o1; intros [|] [|]; simpl; intros; try lia; [done|]. f_equal. auto. Qed.

Lemma zip_markings_inj n o t s o' t' s' :
  length o = n -> length t = n -> length s = n -> length o' = n -> length t' = n -> length s' = n ->
  zip_markings o t s = zip_markings o' t' s' -> o = o' /\ t = t' /\ s = s'.
Proof.
  revert n t s o' t' s'; induction o as [|e o IH]; intros n [|f t] [|g s] [|e' o'] [|f' t'] [|g' s'];
    simpl; intros; subst; try lia; [done|].
  match goal with Hc : _ :: _ = _ :: _ |- _ => injection Hc as -> -> -> Hc;
    destruct (IH (length o) t s o' t' s') as (-> & -> & ->); [lia..|done|done] end.
Qed.

Lemma take_overwrite l xs : take (length xs) (overwrite l xs) = xs.
Proof. unfold overwrite. apply take_app_length. Qed.

Lemma length_overwrite l xs : (length xs <= length l)%nat -> length (overwrite l xs) = length l.
Proof. intros Hl. unfold overwrite. rewrite length_app, length_drop. lia. Qed.

Lemma marks_zero m : count m = 0 -> marks m = [].
Proof. intros E. unfold marks. rewrite E. by destruct (pOffsets m), (pMarkingTypes m), (pSubTypes m). Qed.

Lemma entries_ok m : arrays_hold m -> 0 <= count m ->
  exists o t s, entries m = Ok (o, t, s, marks m) /\ Z.of_nat (length (marks m)) = count m /\
    count m <= Z.of_nat (length o) /\ count m <= Z.of_nat (length t) /\ count m <= Z.of_nat (length s).
Proof.
  intros (o & t & s & Ho & Ht & Hs & Lo & Lt & Ls) Hc. exists o, t, s. unfold entries, marks. rewrite Ho, Ht, Hs. cbn [non_null obind].
  rewrite !elements_ok by done. cbn [obind]. split; [done|]. split; [|done].
  rewrite (length_zip_markings _ _ _ (Z.to_nat (count m))); rewrite ?length_take; lia.
Qed.

(** writing entries over the front of the arrays *)
Lemma marks_set_entries m o t s ms n :
  n = Z.of_nat (length ms) -> count m <= Z.of_nat (length o) -> count m <= Z.of_nat (length t) ->
  count m <= Z.of_nat (length s) -> n <= count m -> u32 (count m) ->
  let m' := set_entries m o t s ms in
  let m'' := MarkedOffsets (sType m') n (pMarkingTypes m') (pSubTypes m') (pOffsets m') in
  marks m'' = ms /\ well_formed m''.
Proof.
  intros -> Lo Lt Ls Hn Hu. unfold marks, set_entries, well_formed, arrays_hold. cbn [pOffsets pMarkingTypes pSubTypes count sType].
  assert (Htk : forall A (f : marking -> A), Z.to_nat (Z.of_nat (length ms)) = length (map f ms)) by (intros; rewrite length_map; lia).
  split.
  - rewrite (Htk _ mk_offset) at 1. rewrite take_overwrite, (Htk _ mk_type), take_overwrite.
    rewrite length_map, <- (length_map mk_sub), take_overwrite. apply zip_markings_maps.
  - split; [u_lia|]. right. eexists _, _, _. do 3 (split; [reflexivity|]).
    rewrite !length_overwrite by (rewrite length_map; lia). lia.
Qed.

Lemma set_entries_self m o t s ms :
  set_entries m o t s ms =
  MarkedOffsets (sType (set_entries m o t s ms)) (count m) (pMarkingTypes (set_entries m o t s ms))
    (pSubTypes (set_entries m o t s ms)) (pOffsets (set_entries m o t s ms)).
Proof. done. Qed.

Lemma normalize_spec m :
  well_formed m ->
  exists m', normalize_marked_offsets m = Ok m' /\ well_formed m' /\ sType m' = sType m /\
    marks m' = canonical (marks m) /\ count m' <= count m.
Proof.
  intros [Hu Hw]. unfold normalize_marked_offsets, sort_marked_offsets. destruct (count m <=? 1) eqn:Ec; bool_to_prop.
  { exists m. cbn [obind]. rewrite (proj2 (Z.leb_le _ _)) by done. split; [done|]. split; [by split|]. split; [done|].
    split; [|lia]. destruct Hw as [Hz|Ha]; [by rewrite marks_zero|].
    destruct (entries_ok m Ha ltac:(u_lia)) as (_ & _ & _ & _ & Hl & _).
    destruct (marks m) as [|a [|b l]] eqn:E; [done|done|simpl in Hl; lia]. }
  destruct Hw as [Hz|Ha]; [lia|]. destruct (entries_ok m Ha ltac:(u_lia)) as (o & t & s & E & Hl & Lo & Lt & Ls).
  rewrite E. cbn [obind]. set (sorted := merge_sort marking_le (marks m)).
  assert (Hls : length sorted = length (marks m)) by (apply Permutation_length, merge_sort_Permutation).
  destruct (marks_set_entries m o t s sorted (count m) ltac:(lia) Lo Lt Ls ltac:(lia) Hu) as [H1 H2].
  rewrite <- set_entries_self in H1, H2. set (m1 := set_entries m o t s sorted) in *.
  assert (Hc1 : count m1 = count m) by done. rewrite Hc1, (proj2 (Z.leb_gt _ _)) by lia.
  destruct H2 as [_ [Hz|Ha1]]; [lia|].
  destruct (entries_ok m1 Ha1 ltac:(u_lia)) as (o1 & t1 & s1 & E1 & _ & Lo1 & Lt1 & Ls1). rewrite E1, H1. cbn [obind].
  rewrite Hc1 in Lo1, Lt1, Ls1. pose proof (length_canonical (marks m)) as Hlc. unfold canonical in Hlc. fold sorted in Hlc.
  destruct (marks_set_entries m1 o1 t1 s1 (kept sorted) _ eq_refl ltac:(lia) ltac:(lia) ltac:(lia) ltac:(lia) Hu) as [H3 H4].
  eexists. split; [reflexivity|]. split; [exact H4|]. split; [done|]. split; [exact H3|]. cbn [count]. lia.
Qed.

Lemma clone_spec m :
  well_formed m ->
  exists m', clone_marked_offsets (Some m) = Ok (Some m') /\ well_formed m' /\ sType m' = sType m /\
    marks m' = marks m /\ count m' = count m.
Proof.
  intros [Hu Hw]. unfold clone_marked_offsets. destruct (count m =? 0) eqn:Ec; bool_to_prop.
  { eexists. split; [reflexivity|]. split; [split; [simpl; u_lia|by left]|]. by rewrite (marks_zero m). }
  destruct Hw as [|(o & t & s & Ho & Ht & Hs & Lo & Lt & Ls)]; [lia|].
  unfold clone_array. rewrite Ho, Ht, Hs, !elements_ok by done. cbn [obind].
  eexists. split; [reflexivity|]. cbn [sType count]. split.
  - split; [done|]. right. eexists _, _, _. do 3 (split; [reflexivity|]). cbn [count]. rewrite !length_take. u_lia.
  - split; [done|]. split; [|done]. unfold marks. cbn [pOffsets pMarkingTypes pSubTypes count].
    rewrite Ho, Ht, Hs, !take_take, !Nat.min_id. done.
Qed.

Lemma side_ok m :
  well_formed m ->
  exists o t s, side m = Ok (t, s, o) /\ zip_markings o t s = marks m /\
    Z.of_nat (length o) = count m /\ Z.of_nat (length t) = count m /\ Z.of_nat (length s) = count m.
Proof.
  intros [Hu Hw]. unfold side. rewrite Z.gtb_ltb. destruct (0 <? count m) eqn:Ec; bool_to_prop.
  - destruct Hw as [|(o & t & s & Ho & Ht & Hs & Lo & Lt & Ls)]; [lia|].
    rewrite Ho, Ht, Hs. cbn [non_null obind]. rewrite !elements_ok by done. cbn [obind].
    eexists _, _, _. split; [reflexivity|]. unfold marks. rewrite Ho, Ht, Hs. split; [done|]. rewrite !length_take. lia.
  - assert (count m = 0) by u_lia. exists [], [], []. rewrite marks_zero by done. simpl. auto.
Qed.

Section MergeProofs.
Context `{MarkingHeader}.

Definition marked (m : VkMarkedOffsetsARM) : Prop := sType m = VK_STRUCTURE_TYPE_MARKED_OFFSETS_ARM /\ well_formed m.

Lemma merge_spec a b :
  marked a -> marked b -> count a + count b <= UINT32_MAX ->
  exists m, merge_marked_offsets (Some a) (Some b) = Ok (Some m) /\ marked m /\
    marks m = canonical (marks a ++ marks b) /\ count m <= count a + count b.
Proof.
  intros [Sa Wa] [Sb Wb] Hsum. unfold merge_marked_offsets. rewrite Sa, Sb, Z.eqb_refl. cbn [obind require].
  assert (Ha : 0 <= count a) by (destruct Wa; u_lia). assert (Hb : 0 <= count b) by (destruct Wb; u_lia).
  rewrite wrap32_small by u_lia. case_bool; bool_to_prop.
  { rewrite (marks_zero a), (marks_zero b) by lia. eexists. split; [reflexivity|]. split; [|split; [done|simpl; lia]].
    split; [done|]. split; [simpl; u_lia|by left]. }
  destruct (side_ok a Wa) as (o1 & t1 & s1 & -> & M1 & L1 & L2 & L3).
  destruct (side_ok b Wb) as (o2 & t2 & s2 & -> & M2 & L4 & L5 & L6). cbn [obind].
  rewrite Z.leb_refl. cbn [obind require].
  set (m0 := MarkedOffsets _ _ _ _ _).
  assert (W0 : well_formed m0).
  { split; [simpl; u_lia|]. right. exists (o1 ++ o2), (t1 ++ t2), (s1 ++ s2). do 3 (split; [reflexivity|]).
    cbn [count m0]. rewrite !length_app. lia. }
  assert (M0 : marks m0 = marks a ++ marks b).
  { unfold marks, m0. cbn [pOffsets pMarkingTypes pSubTypes count].
    rewrite !take_ge by (rewrite length_app; lia). rewrite zip_markings_app by lia. by rewrite M1, M2. }
  destruct (normalize_spec m0 W0) as (m & -> & Wm & Sm & Mm & Cm). cbn [obind]. rewrite M0 in Mm.
  exists m. split; [done|]. split; [by split|]. done.
Qed.

Lemma marks_compare a b :
  marked a -> marked b -> (compare_marked_offsets (Some a) (Some b) = diff_none <-> marks a = marks b).
Proof.
  intros [Sa [Ua Wa]] [Sb [Ub Wb]]. unfold compare_marked_offsets. rewrite Sa, Sb, Z.eqb_refl. cbn [negb].
  assert (Hlen : forall m, well_formed m -> Z.of_nat (length (marks m)) = count m).
  { intros m [Um [Hz|Ha]]; [by rewrite marks_zero, Hz|]. destruct (entries_ok m Ha ltac:(u_lia)) as (_ & _ & _ & _ & Hl & _). done. }
  destruct (count a =? count b) eqn:Ec; bool_to_prop; cbn [negb].
  2:{ split; [done|]. intros E. exfalso. apply Ec. rewrite <- (Hlen a), <- (Hlen b), E by (by split). done. }
  destruct (count a =? 0) eqn:E0; bool_to_prop; [rewrite !marks_zero by lia; done|].
  destruct Wa as [|(oa & ta & sa & Hoa & Hta & Hsa & La1 & La2 & La3)]; [lia|].
  destruct Wb as [|(ob & tb & sb & Hob & Htb & Hsb & Lb1 & Lb2 & Lb3)]; [lia|].
  unfold marks, same_elements. rewrite Hoa, Hta, Hsa, Hob, Htb, Hsb, <- Ec.
  set (n := Z.to_nat (count a)).
  repeat case_bool_decide; cbn [negb]; (split; [try done|]); try (intros _; congruence);
    intros E; apply (zip_markings_inj n) in E as (? & ? & ?); (congruence || (rewrite length_take; lia)).
Qed.
End MergeProofs.

(** ** The queue *)

Section Queue.
Context `{MarkingHeader}.

(** what identifies an entry of the queue *)
Definition rewrite_key : Type := (Z * Z * Z * Z * Z * Z * Z)%type.

Definition key_of (c : change_source) (object_type object_index stage_index : Z) : rewrite_key :=
  (cs_packet c, cs_frame c, cs_thread c, cs_call_id c, object_type, object_index, stage_index).

Definition entry_key (e : address_rewrite) : rewrite_key :=
  key_of (ar_source e) (ar_object_type e) (ar_object_index e) (ar_stage_index e).

Lemma entry_matches e source object_type object_index stage_index :
  same_change_source (ar_source e) source && same_rewrite_target e object_type object_index stage_index = true <->
  entry_key e = key_of source object_type object_index stage_index.
Proof.
  unfold same_change_source, same_rewrite_target, entry_key, key_of. rewrite !andb_true_iff, !Z.eqb_eq.
  split; [intros [[[[-> ->] ->] ->] [[-> ->] ->]]; done|]. by intros [= -> -> -> -> -> -> ->].
Qed.

(** one call of [merge_rewrite_markings] *)
Record rewrite_call := RewriteCall {
  rc_source : change_source;
  rc_markings : VkMarkedOffsetsARM;
  rc_object_type : Z;
  rc_object_index : Z;
  rc_stage_index : Z
}.

Definition call_key (c : rewrite_call) : rewrite_key :=
  key_of (rc_source c) (rc_object_type c) (rc_object_index c) (rc_stage_index c).

Fixpoint run_rewrites (calls : list rewrite_call) (queue : list address_rewrite) : outcome (list address_rewrite) :=
  match calls with
  | [] => Ok queue
  | c :: calls =>
      let* queue := merge_rewrite_markings queue (rc_source c) (rc_markings c) (rc_object_type c) (rc_object_index c)
                      (rc_stage_index c) in
      run_rewrites calls queue
  end.

Definition total_count (calls : list rewrite_call) : Z := foldr (fun c n => count (rc_markings c) + n) 0 calls.

(** an entry whose markings are canonical and no more than [n] *)
Definition entry_ok (n : Z) (e : address_rewrite) : Prop :=
  exists m, ar_markings e = Some m /\ marked m /\ strict (marks m) /\ count m <= n.

Definition entry_marks (e : address_rewrite) : list marking :=
  match ar_markings e with Some m => marks m | None => [] end.

(** the markings queued under a key *)
Definition queued (queue : list address_rewrite) (k : rewrite_key) (x : marking) : Prop :=
  Exists (fun e => entry_key e = k /\ x ∈ entry_marks e) queue.

Lemma merge_rewrite_spec queue c n :
  Forall (entry_ok n) queue -> marked (rc_markings c) -> n + count (rc_markings c) <= UINT32_MAX -> 0 <= n ->
  exists queue', merge_rewrite_markings queue (rc_source c) (rc_markings c) (rc_object_type c) (rc_object_index c)
      (rc_stage_index c) = Ok queue' /\
    Forall (entry_ok (n + count (rc_markings c))) queue' /\
    (map entry_key queue' = map entry_key queue \/
     map entry_key queue' = map entry_key queue ++ [call_key c] /\ call_key c ∉ map entry_key queue) /\
    forall k x, queued queue' k x <-> queued queue k x \/ call_key c = k /\ x ∈ marks (rc_markings c).
Proof.
  intros Hq [Sc Wc] Hn H0. assert (Hcc : 0 <= count (rc_markings c)) by (destruct Wc; u_lia).
  induction Hq as [|e queue (m & Em & Mm & Hs & Hc) Hq IH]; cbn [merge_rewrite_markings].
  - destruct (clone_spec _ Wc) as (m1 & -> & W1 & S1 & M1 & C1). cbn [obind].
    destruct (normalize_spec m1 W1) as (m2 & -> & W2 & S2 & M2 & C2). cbn [obind].
    destruct (canonical_spec (marks m1)) as [H1 H2]. eexists. split; [reflexivity|]. split.
    + repeat constructor. exists m2. split; [done|]. split; [by split; [congruence|]|]. rewrite M2. split; [done|lia].
    + split; [right; split; [done|apply not_elem_of_nil]|]. intros k x. unfold queued. rewrite Exists_cons, !Exists_nil.
      unfold entry_marks, entry_key, call_key. cbn [ar_markings ar_source ar_object_type ar_object_index ar_stage_index].
      rewrite M2, H2, M1. tauto.
  - destruct (same_change_source (ar_source e) (rc_source c) && _) eqn:Eb.
    + apply entry_matches in Eb. change (entry_key e = call_key c) in Eb. rewrite Em.
      destruct (merge_spec m (rc_markings c) Mm (conj Sc Wc) ltac:(lia)) as (m' & -> & M' & Hm' & C'). cbn [obind].
      destruct (canonical_spec (marks m ++ marks (rc_markings c))) as [H1 H2].
      eexists. split; [reflexivity|]. split; [|split; [by left|]].
      * constructor; [exists m'; split; [done|]; split; [done|]; rewrite Hm'; split; [done|lia]|].
        eapply List.Forall_impl; [|exact Hq]. intros e' (m1 & ? & ? & ? & ?). exists m1. do 3 (split; [done|]). lia.
      * intros k x. unfold queued. rewrite !Exists_cons. unfold entry_marks at 1, entry_key at 1.
        cbn [ar_markings ar_source ar_object_type ar_object_index ar_stage_index]. fold (entry_key e).
        rewrite Hm', H2, elem_of_app. unfold entry_marks at 2. rewrite Em, Eb. tauto.
    + destruct IH as (queue' & -> & H1 & H2 & H3). cbn [obind]. eexists. split; [reflexivity|].
      split; [constructor; [exists m; do 3 (split; [done|]); lia|done]|]. split.
      * cbn [map]. destruct H2 as [->|[-> Hnin]]; [by left|right]. split; [done|]. rewrite not_elem_of_cons. split; [|done].
        intros Hk. symmetry in Hk. apply entry_matches in Hk. congruence.
      * intros k x. unfold queued in *. rewrite !Exists_cons, H3. tauto.
Qed.

Lemma run_rewrites_spec calls : forall queue n,
  Forall (entry_ok n) queue -> NoDup (map entry_key queue) -> 0 <= n ->
  Forall (fun c => marked (rc_markings c)) calls -> n + total_count calls <= UINT32_MAX ->
  exists queue', run_rewrites calls queue = Ok queue' /\ Forall (entry_ok UINT32_MAX) queue' /\
    NoDup (map entry_key queue') /\
    forall k x, queued queue' k x <->
      queued queue k x \/ Exists (fun c => call_key c = k /\ x ∈ marks (rc_markings c)) calls.
Proof.
  induction calls as [|c calls IH]; intros queue n Hq Hd H0 Hc Hn.
  - exists queue. simpl in Hn. split; [done|]. split; [|split; [done|intros k x; rewrite Exists_nil; tauto]].
    eapply List.Forall_impl; [|exact Hq]. intros e (m & ? & ? & ? & ?). exists m. do 3 (split; [done|]). lia.
  - apply Forall_cons in Hc as [Hc Hcs]. cbn [total_count foldr] in Hn. fold (total_count calls) in Hn.
    assert (Hcc : 0 <= count (rc_markings c)) by (destruct Hc as [_ []]; u_lia).
    assert (Ht : 0 <= total_count calls).
    { clear -Hcs. induction Hcs as [|c' cs [_ [Hu _]] _ IH]; simpl; [done|]. fold (total_count cs). u_lia. }
    destruct (merge_rewrite_spec queue c n Hq Hc ltac:(lia) H0) as (q1 & E1 & H1 & H2 & H3).
    destruct (IH q1 (n + count (rc_markings c)) H1) as (q2 & E2 & H4 & H5 & H6); try done; try lia.
    { destruct H2 as [->|[-> Hnin]]; [done|]. apply NoDup_app. split; [done|]. split; [|apply NoDup_singleton].
      intros k Hk ->%list_elem_of_singleton. done. }
    exists q2. cbn [run_rewrites]. rewrite E1. cbn [obind]. split; [done|]. split; [done|]. split; [done|].
    intros k x. rewrite H6, H3, Exists_cons. tauto.
Qed.
End Queue.

(** ** Encoding of the arrays *)

Lemma split_words_encode n l :
  Forall (fun z => 0 <= z < 256 ^ Z.of_nat n) l -> split_words n (length l) (concat (map (le_encode n) l)) = l.
Proof.
  induction 1 as [|z l Hz Hl IH]; [done|]. cbn [length split_words map concat].
  rewrite take_app_le, take_ge, drop_app_le, drop_ge by (rewrite length_le_encode; lia).
  rewrite le_decode_encode_small by done. cbn [app]. by rewrite IH.
Qed.

Lemma length_concat_le n l : length (concat (map (le_encode n) l)) = (n * length l)%nat.
Proof. induction l as [|z l IH]; cbn [map concat length]; [lia|]. rewrite length_app, length_le_encode, IH. lia. Qed.

Section Arrays.
Context `{MarkingHeader} {W : Type} `{ByteSink W} {R : Type} `{ByteSource R}.

(** the bytes of an array with [cnt] elements, behind the byte that says it is there *)
Definition encode_array (n : nat) (cnt : Z) (l : list Z) : list byte :=
  if cnt >? 0 then le_encode 1 1 ++ concat (map (le_encode n) (take (Z.to_nat cnt) l)) else le_encode 1 0.

Definition seen_array (cnt : Z) (l : list Z) : option (list Z) := if cnt >? 0 then Some (take (Z.to_nat cnt) l) else None.

Lemma emits_marking_array n m l :
  0 <= count m <= Z.of_nat (length l) -> Z.of_nat n * count m <= UINT32_MAX ->
  emits (write_marking_array n m l) (encode_array n (count m) l).
Proof.
  intros Hl Hs. unfold write_marking_array, encode_array. rewrite Z.gtb_ltb. case_bool; bool_to_prop.
  2:{ rewrite <- (app_nil_r (le_encode 1 0)). apply emits_bind; [apply emits_value; lia|apply emits_ret]. }
  apply emits_bind; [apply emits_value; lia|]. unfold array_bytes. rewrite elements_ok by lia. cbn [obind].
  assert (Hlen : length (take (Z.to_nat (count m)) l) = Z.to_nat (count m)) by (rewrite length_take; lia).
  rewrite take_ge; [apply emits_array|].
  - rewrite length_concat_le, Hlen. u_lia.
  - rewrite length_concat_le, Hlen. rewrite wrap32_small by u_lia. lia.
Qed.

Lemma parses_marking_array n cnt l :
  0 <= cnt <= Z.of_nat (length l) -> Z.of_nat n * cnt <= UINT32_MAX ->
  Forall (fun z => 0 <= z < 256 ^ Z.of_nat n) l ->
  parses (read_marking_array n cnt) (encode_array n cnt l) (seen_array cnt l).
Proof.
  intros Hl Hs Hz. unfold read_marking_array, encode_array, seen_array. rewrite Z.gtb_ltb. case_bool; bool_to_prop.
  2:{ rewrite <- (app_nil_r (le_encode 1 0)). eapply (parses_bind (read_value 1)); [apply parses_value; simpl; lia|].
      apply parses_ret. }
  eapply (parses_bind (read_value 1)); [apply parses_value; simpl; lia|]. cbn [obind require Z.eqb negb].
  assert (Hlen : length (take (Z.to_nat cnt) l) = Z.to_nat cnt) by (rewrite length_take; lia).
  pose proof (split_words_encode n (take (Z.to_nat cnt) l) ltac:(by apply Forall_take)) as Hsp. rewrite Hlen in Hsp.
  rewrite <- Hsp at 2.
  apply (parses_map (read_array _) (fun bs => Some (split_words n (Z.to_nat cnt) bs))), parses_next.
  rewrite length_concat_le, Hlen, wrap32_small by u_lia. lia.
Qed.
End Arrays.

(** ** Properties *)

(** Merging markings is a union: the result holds exactly the entries of both
    sides, sorted by offset, type and subtype and without duplicates; the order of
    the two sides and merging a side again make no difference that
    [compare_marked_offsets] sees. *)
Theorem merge_is_union `{MarkingHeader} (a b : VkMarkedOffsetsARM)
    (Ha : marked a) (Hb : marked b) (Hsum : count a + count b + count b <= UINT32_MAX) :
  exists m m' m'', merge_marked_offsets (Some a) (Some b) = Ok (Some m) /\
    strict (marks m) /\ (forall x, x ∈ marks m <-> x ∈ marks a \/ x ∈ marks b) /\
    merge_marked_offsets (Some b) (Some a) = Ok (Some m') /\ compare_marked_offsets (Some m) (Some m') = diff_none /\
    merge_marked_offsets (Some m) (Some b) = Ok (Some m'') /\ compare_marked_offsets (Some m) (Some m'') = diff_none.
Proof.
  assert (0 <= count b) by (destruct Hb as [_ []]; u_lia).
  destruct (merge_spec a b Ha Hb ltac:(lia)) as (m & E & Hm & M & C).
  destruct (merge_spec b a Hb Ha ltac:(lia)) as (m' & E' & Hm' & M' & _).
  destruct (merge_spec m b Hm Hb ltac:(lia)) as (m'' & E'' & Hm'' & M'' & _).
  destruct (canonical_spec (marks a ++ marks b)) as [H1 H2]. exists m, m', m''.
  split; [done|]. rewrite M. split; [done|]. split; [intros x; by rewrite H2, elem_of_app|]. split; [done|].
  split; [|split; [done|]]; apply marks_compare; try done.
  - rewrite M, M'. apply canonical_unique. intros x. rewrite !elem_of_app. tauto.
  - rewrite M'', M. destruct (canonical_spec (canonical (marks a ++ marks b) ++ marks b)) as [H3 H4].
    apply strict_unique; [done|done|]. intros x. rewrite H4, elem_of_app, H2, !elem_of_app. tauto.
Qed.

#[program] Definition demo_header : MarkingHeader := {|
  VK_STRUCTURE_TYPE_MARKED_OFFSETS_ARM := 1000;
  VK_MARKING_TYPE_DEVICE_ADDRESS_ARM := 1;
  VK_MARKING_TYPE_DESCRIPTOR_ARM := 2;
  VK_MARKING_TYPE_DESCRIPTOR_SIZE_ARM := 3;
  VK_MARKING_TYPE_DESCRIPTOR_OFFSET_ARM := 4;
  VK_MARKING_TYPE_SHADER_GROUP_HANDLE_ARM := 5;
  VK_DEVICE_ADDRESS_TYPE_BUFFER_ARM := 0;
  VK_DEVICE_ADDRESS_TYPE_ACCELERATION_STRUCTURE_ARM := 1
|}.
Next Obligation. by vm_compute. Qed.
Next Obligation. apply (bool_decide_unpack _). by vm_compute. Qed.
Next Obligation. done. Qed.
#[local] Existing Instance demo_header.

Definition demo_marks (l : list (Z * Z * Z)) : VkMarkedOffsetsARM :=
  MarkedOffsets 1000 (Z.of_nat (length l)) (Some (map (fun e => e.1.2) l)) (Some (map snd l)) (Some (map (fun e => e.1.1) l)).

Lemma demo_marked l : Z.of_nat (length l) <= UINT32_MAX -> marked (demo_marks l).
Proof.
  intros Hl. split; [done|]. split; [simpl; u_lia|]. right. eexists _, _, _. do 3 (split; [reflexivity|]).
  simpl. rewrite !length_map. lia.
Qed.

Lemma merge_is_union_witness :
  exists m m' m'', merge_marked_offsets (Some (demo_marks [(16, 1, 0); (8, 2, 3)])) (Some (demo_marks [(8, 2, 3); (8, 1, 7)])) =
      Ok (Some m) /\
    strict (marks m) /\
    (forall x, x ∈ marks m <-> x ∈ marks (demo_marks [(16, 1, 0); (8, 2, 3)]) \/ x ∈ marks (demo_marks [(8, 2, 3); (8, 1, 7)])) /\
    merge_marked_offsets (Some (demo_marks [(8, 2, 3); (8, 1, 7)])) (Some (demo_marks [(16, 1, 0); (8, 2, 3)])) = Ok (Some m') /\
    compare_marked_offsets (Some m) (Some m') = diff_none /\
    merge_marked_offsets (Some m) (Some (demo_marks [(8, 2, 3); (8, 1, 7)])) = Ok (Some m'') /\
    compare_marked_offsets (Some m) (Some m'') = diff_none.
Proof.
  apply (merge_is_union (demo_marks [(16, 1, 0); (8, 2, 3)]) (demo_marks [(8, 2, 3); (8, 1, 7)]));
    [apply demo_marked; by vm_compute|apply demo_marked; by vm_compute|by vm_compute].
Defined.

(** After any sequence of calls the queue has one entry for every packet and
    target that was ever passed, whose markings are sorted, without duplicates,
    and are exactly those passed for that packet and target. *)
Theorem rewrite_queue_complete `{MarkingHeader} (calls : list rewrite_call)
    (Hcalls : Forall (fun c => marked (rc_markings c)) calls) (Hsum : total_count calls <= UINT32_MAX) :
  exists queue, run_rewrites calls [] = Ok queue /\
    NoDup (map entry_key queue) /\ Forall (fun e => strict (entry_marks e)) queue /\
    forall k x, queued queue k x <-> Exists (fun c => call_key c = k /\ x ∈ marks (rc_markings c)) calls.
Proof.
  destruct (run_rewrites_spec calls [] 0) as (queue & E & H1 & H2 & H3); try done; try lia.
  { constructor. }
  exists queue. split; [done|]. split; [done|]. split.
  - eapply List.Forall_impl; [|exact H1]. intros e (m & Em & _ & Hs & _). unfold entry_marks. by rewrite Em.
  - intros k x. rewrite H3. unfold queued. rewrite Exists_nil. tauto.
Qed.

Definition demo_calls : list rewrite_call :=
  [RewriteCall (ChangeSource 4 0 0 2 9) (demo_marks [(16, 1, 0); (8, 2, 3)]) 9 0 0;
   RewriteCall (ChangeSource 5 0 0 2 9) (demo_marks [(0, 1, 0)]) 9 0 0;
   RewriteCall (ChangeSource 4 0 0 3 9) (demo_marks [(8, 2, 3); (24, 1, 1)]) 9 0 0].

Lemma rewrite_queue_complete_witness :
  exists queue, run_rewrites demo_calls [] = Ok queue /\
    NoDup (map entry_key queue) /\ Forall (fun e => strict (entry_marks e)) queue /\
    forall k x, queued queue k x <-> Exists (fun c => call_key c = k /\ x ∈ marks (rc_markings c)) demo_calls.
Proof.
  apply (rewrite_queue_complete demo_calls); [|by vm_compute].
  repeat (apply Forall_cons; split; [apply demo_marked; by vm_compute|]). constructor.
Defined.

(** The structure is read back from a trace as it was written, with arrays cut
    to their count and null when the count is zero. *)
Theorem marked_offsets_roundtrip `{MarkingHeader} {W R} `{ByteSink W, ByteSource R} (m : VkMarkedOffsetsARM)
    (write_pnext : W -> outcome W) (read_pnext : R -> outcome (unit * R)) (ext : list byte) (types subs offsets : list Z)
    (Hwrite : emits write_pnext ext) (Hread : parses read_pnext ext tt)
    (Hs : sType m = VK_STRUCTURE_TYPE_MARKED_OFFSETS_ARM) (Ht : pMarkingTypes m = Some types) (Hb : pSubTypes m = Some subs)
    (Ho : pOffsets m = Some offsets) (Hc : 0 <= count m) (Hsize : 8 * count m <= UINT32_MAX)
    (Lt : count m <= Z.of_nat (length types)) (Lb : count m <= Z.of_nat (length subs))
    (Lo : count m <= Z.of_nat (length offsets))
    (Rt : Forall u32 types) (Rb : Forall u64 subs) (Ro : Forall u64 offsets) :
  exists bs, emits (write_VkMarkedOffsetsARM write_pnext m) bs /\
    parses (read_VkMarkedOffsetsARM read_pnext) bs
      (MarkedOffsets (sType m) (count m) (seen_array (count m) types) (seen_array (count m) subs)
        (seen_array (count m) offsets)).
Proof.
  pose proof header_stype as Hst.
  assert (R4 : forall l, Forall u32 l -> Forall (fun z => 0 <= z < 256 ^ Z.of_nat 4) l)
    by (intros l; apply List.Forall_impl; intros z; change (256 ^ Z.of_nat 4) with (2 ^ 32); u_lia).
  assert (R8 : forall l, Forall u64 l -> Forall (fun z => 0 <= z < 256 ^ Z.of_nat 8) l)
    by (intros l; apply List.Forall_impl; intros z; change (256 ^ Z.of_nat 8) with (2 ^ 64); u_lia).
  exists (le_encode 4 (sType m) ++ ext ++ le_encode 4 (count m) ++ encode_array 4 (count m) types ++
    encode_array 8 (count m) subs ++ encode_array 8 (count m) offsets). split.
  - unfold write_VkMarkedOffsetsARM. rewrite Ht, Hb, Ho, Hs, Z.eqb_refl. cbn [non_null obind require].
    apply emits_bind; [apply emits_value; lia|]. apply emits_bind; [done|]. apply emits_bind; [apply emits_value; lia|].
    repeat (apply emits_bind); apply emits_marking_array; lia.
  - unfold read_VkMarkedOffsetsARM. eapply (parses_bind (read_value 4)).
    { apply parses_value. change (256 ^ Z.of_nat 4) with (2 ^ 32). u_lia. }
    rewrite Hs, Z.eqb_refl. cbn [obind require]. eapply (parses_bind read_pnext); [exact Hread|]. cbn beta iota.
    eapply (parses_bind (read_value 4)).
    { apply parses_value. change (256 ^ Z.of_nat 4) with (2 ^ 32). u_lia. }
    eapply (parses_bind (read_marking_array 4 _)); [apply parses_marking_array; [lia..|auto]|].
    eapply (parses_bind (read_marking_array 8 _)); [apply parses_marking_array; [lia..|auto]|].
    rewrite <- (app_nil_r (encode_array 8 _ offsets)).
    eapply (parses_bind (read_marking_array 8 _)); [apply parses_marking_array; [lia..|auto]|].
    apply parses_ret.
Qed.

Lemma marked_offsets_roundtrip_witness :
  exists bs, emits (S := list byte) (write_VkMarkedOffsetsARM (fun s => Ok s) (demo_marks [(16, 1, 0); (8, 2, 3)])) bs /\
    parses (S := list byte) (read_VkMarkedOffsetsARM (fun s => Ok (tt, s))) bs
      (MarkedOffsets 1000 2 (Some [1; 2]) (Some [0; 3]) (Some [16; 8])).
Proof.
  apply (marked_offsets_roundtrip (demo_marks [(16, 1, 0); (8, 2, 3)]) (fun s : list byte => Ok s)
    (fun s : list byte => Ok (tt, s)) [] [1; 2] [0; 3] [16; 8]);
    [apply emits_ret|apply parses_ret|reflexivity|reflexivity|reflexivity|reflexivity|by vm_compute..| | |];
    repeat constructor; by vm_compute.
Defined.
