(* ===== verification/Translate.v ===== *)
(** * Rewriting marked values (src/hardcode_read.cpp, src/hardcode_write.cpp)

    Device addresses, descriptors and shader group handles that a trace holds are
    those of the capture. When an update with markings is replayed, every marked
    value is replaced by what the replay uses instead; when the post-processor
    writes a trace out again, marked addresses are translated back. *)

From Stdlib Require Import ZArith Lia Bool.
From Stdlib.Strings Require Import Byte.
From stdpp Require Import base numbers list.
From S2P Require Import Prelude Stream RangeTracking Patch FileWriter FileReader RandomAccess Packets Containers Markings.

#[local] Open Scope Z_scope.

(** ** Finding a buffer by its address (find_buffer_by_device_address) *)

Record address_buffer := AddressBuffer {
  ab_state : object_state;
  ab_device_address : Z;
  ab_capture_device_address : Z;
  ab_size : Z;
  ab_is_sbt : bool                (** its usage has the shader binding table bit *)
}.

Definition holds_range (address size : Z) (b : address_buffer) : bool :=
  negb (bool_decide (ab_state b = state_destroyed) || bool_decide (ab_state b = state_uninitialized)) &&
  negb ((ab_device_address b =? 0) || (ab_size b =? 0)) && (ab_device_address b <=? address) &&
  negb ((address - ab_device_address b >? ab_size b) || (size >? ab_size b - (address - ab_device_address b))).

Definition better_buffer (b best : address_buffer) : bool :=
  (ab_is_sbt b && negb (ab_is_sbt best)) || (Bool.eqb (ab_is_sbt b) (ab_is_sbt best) && (ab_size b <? ab_size best)).

Definition find_buffer_step (address size : Z) (best : option (address_buffer * Z)) (b : option address_buffer)
    : option (address_buffer * Z) :=
  match b with
  | None => best
  | Some b =>
      if holds_range address size b then
        match best with
        | None => Some (b, address - ab_device_address b)
        | Some (best', _) => if better_buffer b best' then Some (b, address - ab_device_address b) else best
        end
      else best
  end.

Definition find_buffer_by_device_address (buffers : list (option address_buffer)) (address size : Z)
    : option (address_buffer * Z) :=
  foldl (find_buffer_step address size) None buffers.

Definition reverse_translate_buffer_address (buffers : list (option address_buffer)) (replay_address : Z) : option Z :=
  match find_buffer_by_device_address buffers replay_address 1 with
  | Some (b, offset) =>
      if ab_capture_device_address b =? 0 then None else Some (wrap64 (ab_capture_device_address b + offset))
  | None => None
  end.

(** the device and capture addresses of the acceleration structures *)
Fixpoint reverse_translate_acceleration_structure_address (structures : list (option (Z * Z))) (replay_address : Z)
    : option Z :=
  match structures with
  | [] => None
  | Some (device_address, capture_device_address) :: rest =>
      if negb (device_address =? replay_address)
      then reverse_translate_acceleration_structure_address rest replay_address
      else if capture_device_address =? 0 then None else Some capture_device_address
  | None :: rest => reverse_translate_acceleration_structure_address rest replay_address
  end.

(** ** Values in memory *)

(** a load and a store of part of a memory area; outside of it both are out of range *)
Definition load (mem : list byte) (offset : Z) (n : nat) : outcome (list byte) :=
  let* _ := require (offset + Z.of_nat n <=? Z.of_nat (length mem)) OutOfRange in
  Ok (slice (Z.to_nat offset) n mem).

Definition store_bytes (mem : list byte) (offset : Z) (bs : list byte) : outcome (list byte) :=
  let* _ := require (offset + Z.of_nat (length bs) <=? Z.of_nat (length mem)) OutOfRange in
  Ok (memcpy mem (Z.to_nat offset) bs).

Section Rewriting.
Context `{MarkingHeader}.

(** the 32-bit members of the subtype union *)
Definition subtype32 (mk : marking) : Z := wrap32 (mk_sub mk).

(** ** Back to the capture (reverse_translate_marked_payload) *)

Section Reverse.
Context (buffers : list (option address_buffer)) (structures : list (option (Z * Z))).

Definition reverse_translate (address_type current : Z) : outcome Z :=
  let* found :=
    if address_type =? VK_DEVICE_ADDRESS_TYPE_BUFFER_ARM then Ok (reverse_translate_buffer_address buffers current)
    else if address_type =? VK_DEVICE_ADDRESS_TYPE_ACCELERATION_STRUCTURE_ARM
    then Ok (reverse_translate_acceleration_structure_address structures current)
    else Fail AbortCall in
  match found with Some capture => Ok capture | None => Fail AbortCall end.

Fixpoint reverse_marks (offset size : Z) (ms : list marking) (scratch : list byte) : outcome (list byte) :=
  match ms with
  | [] => Ok scratch
  | mk :: ms =>
      if negb (mk_type mk =? VK_MARKING_TYPE_DEVICE_ADDRESS_ARM) then reverse_marks offset size ms scratch
      else if (mk_offset mk <? offset) || (wrap64 (mk_offset mk + 8) >? offset + size) then reverse_marks offset size ms scratch
      else
        let* bs := load scratch (mk_offset mk) 8 in
        if le_decode bs =? 0 then reverse_marks offset size ms scratch
        else
          let* capture := reverse_translate (subtype32 mk) (le_decode bs) in
          let* scratch := store_bytes scratch (mk_offset mk) (le_encode 8 capture) in
          reverse_marks offset size ms scratch
  end.

(** the scratch copy has no defined bytes before [offset], and nothing reads them *)
Definition reverse_translate_marked_payload (changed : list byte) (offset size : Z) (ar : VkMarkedOffsetsARM)
    : outcome (list byte) :=
  let* _ := require (size >? 0) AssertFailed in
  let* (_, ms) := entries ar in
  let* payload := load changed offset (Z.to_nat size) in
  reverse_marks offset size ms (repeat x00 (Z.to_nat offset) ++ payload).
End Reverse.

(** ** To the replay (translate_marked_offsets) *)

(** [descriptor_rewrite] *)
Record descriptor_rewrite := DescriptorRewrite {
  dr_type : Z;
  dr_capture_bytes : list byte;
  dr_bytes : list byte
}.

(** the shader group handles of a pipeline *)
Record pipeline_handles := PipelineHandles {
  raytracing_group_count : Z;
  raytracing_group_handle_size : Z;
  raytracing_group_handles : list byte;
  raytracing_group_handle_size_replay : Z;
  raytracing_group_handles_replay : list byte;
  raytracing_group_handles_capture_replay : bool
}.

Definition marked_handle_size : nat := 32.

(** the number of groups whose handles are there *)
Definition searched_groups (p : pipeline_handles) : nat :=
  let max_groups := Nat.div (length (raytracing_group_handles p)) marked_handle_size in
  if (raytracing_group_count p =? 0) || (raytracing_group_count p >? Z.of_nat max_groups) then max_groups
  else Z.to_nat (raytracing_group_count p).

(** the groups with this handle, in order *)
Definition matching_groups (p : pipeline_handles) (handle : list byte) : list nat :=
  filter (fun i => slice (i * marked_handle_size) marked_handle_size (raytracing_group_handles p) = handle)
    (seq 0 (searched_groups p)).

(** [None] when no group matches, otherwise the first one and whether there is another *)
Definition find_marked_shader_group_handle_match (p : pipeline_handles) (handle : list byte) : option (nat * bool) :=
  if negb (raytracing_group_handle_size p =? Z.of_nat marked_handle_size) ||
     Nat.eqb (length (raytracing_group_handles p)) 0 then None
  else match matching_groups p handle with
  | [] => None
  | i :: rest => Some (i, negb (Nat.eqb (length rest) 0))
  end.

(** [matched] says whether a pipeline matched and which handle it gives; a handle
    that is preserved gives none *)
Fixpoint match_pipelines (pipelines : list pipeline_handles) (handle : list byte) (matched : bool)
    (replay_handle : option (list byte)) (preserve : bool) : outcome (bool * option (list byte) * bool) :=
  match pipelines with
  | [] => Ok (matched, replay_handle, preserve)
  | p :: rest =>
      match find_marked_shader_group_handle_match p handle with
      | None => match_pipelines rest handle matched replay_handle preserve
      | Some (i, ambiguous) =>
          let* _ := require (negb ambiguous) AbortCall in
          let* _ := require (negb matched) AbortCall in
          if raytracing_group_handles_capture_replay p then match_pipelines rest handle true replay_handle true
          else
            let* _ := require (raytracing_group_handle_size_replay p =? Z.of_nat marked_handle_size) AbortCall in
            let* _ := require (Nat.leb (i * marked_handle_size + marked_handle_size)
                                 (length (raytracing_group_handles_replay p))) AbortCall in
            match_pipelines rest handle true
              (Some (slice (i * marked_handle_size) marked_handle_size (raytracing_group_handles_replay p))) false
      end
  end.

(** [rewrite_marked_shader_group_handle] of a replay: the handle to store *)
Definition rewrite_marked_shader_group_handle (pipelines : list pipeline_handles) (handle : list byte)
    : outcome (list byte) :=
  let* (res, preserve) := match_pipelines pipelines handle false None false in
  let '(matched, replay_handle) := res in
  let* _ := require matched AbortCall in
  if preserve then Ok handle
  else match replay_handle with Some h => Ok h | None => Fail AssertFailed end.

Section Replay.
Context (debug is_replay : bool).
Context (translate_buffer translate_structure : Z -> Z).   (** [translate_address] of the two remappers *)
Context (pending : list descriptor_rewrite) (pipelines : list pipeline_handles).

Definition descriptor_matches (mem : list byte) (size offset type : Z) (c : descriptor_rewrite) : bool :=
  (dr_type c =? type) && negb (Nat.eqb (length (dr_capture_bytes c)) 0) &&
  (wrap64 (offset + Z.of_nat (length (dr_capture_bytes c))) <=? size) &&
  bool_decide (slice (Z.to_nat offset) (length (dr_capture_bytes c)) mem = dr_capture_bytes c).

Definition translate_mark (size : Z) (mk : marking) (mem : list byte) : outcome (list byte) :=
  let offset := mk_offset mk in
  if mk_type mk =? VK_MARKING_TYPE_DEVICE_ADDRESS_ARM then
    let address_type := subtype32 mk in
    let* _ := require ((address_type =? VK_DEVICE_ADDRESS_TYPE_BUFFER_ARM) ||
                       (address_type =? VK_DEVICE_ADDRESS_TYPE_ACCELERATION_STRUCTURE_ARM)) AssertFailed in
    let* _ := require (wrap64 (offset + 8) <=? size) AssertFailed in
    let* bs := load mem offset 8 in
    let current := le_decode bs in
    let newval :=
      if address_type =? VK_DEVICE_ADDRESS_TYPE_ACCELERATION_STRUCTURE_ARM then translate_structure current
      else translate_buffer current in
    let* _ := assert_in debug (negb (newval =? 0) || negb is_replay) in
    store_bytes mem offset (le_encode 8 newval)
  else if mk_type mk =? VK_MARKING_TYPE_DESCRIPTOR_ARM then
    match List.find (descriptor_matches mem size offset (subtype32 mk)) pending with
    | None => Ok mem
    | Some c =>
        if Nat.eqb (length (dr_bytes c)) 0 then Ok mem
        else
          let* _ := require (wrap64 (offset + Z.of_nat (length (dr_bytes c))) <=? size) AssertFailed in
          store_bytes mem offset (dr_bytes c)
    end
  else if (mk_type mk =? VK_MARKING_TYPE_DESCRIPTOR_SIZE_ARM) || (mk_type mk =? VK_MARKING_TYPE_DESCRIPTOR_OFFSET_ARM) then Ok mem
  else if mk_type mk =? VK_MARKING_TYPE_SHADER_GROUP_HANDLE_ARM then
    let* _ := require (wrap64 (offset + Z.of_nat marked_handle_size) <=? size) AssertFailed in
    if negb is_replay then Ok mem
    else
      let* handle := load mem offset marked_handle_size in
      let* h := rewrite_marked_shader_group_handle pipelines handle in
      store_bytes mem offset h
  else Fail AssertFailed.

Fixpoint translate_marks (size : Z) (ms : list marking) (mem : list byte) : outcome (list byte) :=
  match ms with
  | [] => Ok mem
  | mk :: ms => let* mem := translate_mark size mk mem in translate_marks size ms mem
  end.

Definition translate_marked_offsets (write_output : bool) (markings : VkMarkedOffsetsARM) (mem : list byte) (size : Z)
    : outcome (list byte) :=
  let* (_, ms) := entries markings in
  if write_output then Ok mem else translate_marks size ms mem.
End Replay.
End Rewriting.

(** ** Words in memory *)

Definition word_of (mem : list byte) (offset : Z) : Z := le_decode (slice (Z.to_nat offset) 8 mem).

Lemma load_ok mem offset n :
  offset + Z.of_nat n <= Z.of_nat (length mem) -> load mem offset n = Ok (slice (Z.to_nat offset) n mem).
Proof. intros ?. unfold load. by rewrite (proj2 (Z.leb_le _ _)) by lia. Qed.

Lemma store_bytes_ok mem offset bs :
  offset + Z.of_nat (length bs) <= Z.of_nat (length mem) -> store_bytes mem offset bs = Ok (memcpy mem (Z.to_nat offset) bs).
Proof. intros ?. unfold store_bytes. by rewrite (proj2 (Z.leb_le _ _)) by lia. Qed.

Lemma slice_memcpy mem pos bs :
  (pos + length bs <= length mem)%nat -> slice pos (length bs) (memcpy mem pos bs) = bs.
Proof.
  intros Hl. apply list_eq. intros i. rewrite slice_lookup. case_decide as Hi.
  - rewrite memcpy_lookup, decide_True by lia. f_equal. lia.
  - symmetry. apply lookup_ge_None. lia.
Qed.

Section Words.
(** words of eight bytes at the places of a list, of markings or of other things *)
Context {A : Type} (at_ : A -> Z).

(** the words of two places do not meet *)
Definition apart (a b : A) : Prop := at_ a + 8 <= at_ b \/ at_ b + 8 <= at_ a.

(** byte [i] belongs to the word of the place *)
Definition in_word (i : nat) (mk : A) : Prop := at_ mk <= Z.of_nat i < at_ mk + 8.

(** [mem'] is [mem] with the word of every place put through [f] *)
Definition words_mapped (f : A -> Z -> Z) (ms : list A) (mem mem' : list byte) : Prop :=
  length mem' = length mem /\
  Forall (fun mk => word_of mem' (at_ mk) = f mk (word_of mem (at_ mk))) ms /\
  forall i, Forall (fun mk => ~ in_word i mk) ms -> mem' !! i = mem !! i.

Lemma words_mapped_nil f mem : words_mapped f [] mem mem.
Proof. done. Qed.

Lemma word_of_agree mem mem' offset :
  agree mem mem' (Z.to_nat offset) (Z.to_nat offset + 8) -> word_of mem offset = word_of mem' offset.
Proof. intros Ha. unfold word_of. f_equal. by apply slice_eq_iff. Qed.

(** a word apart from all that are mapped keeps its value *)
Lemma words_mapped_other f ms mem mem' mk :
  0 <= at_ mk -> Forall (apart mk) ms -> words_mapped f ms mem mem' ->
  word_of mem' (at_ mk) = word_of mem (at_ mk).
Proof.
  intros H0 Ha (_ & _ & Hk). apply word_of_agree. intros i Hi. apply Hk.
  eapply Forall_impl; [exact Ha|]. unfold apart, in_word. intros x Hx Hin. lia.
Qed.

Lemma words_mapped_skip f ms mem mem' mk :
  0 <= at_ mk -> Forall (apart mk) ms -> f mk (word_of mem (at_ mk)) = word_of mem (at_ mk) ->
  words_mapped f ms mem mem' -> words_mapped f (mk :: ms) mem mem'.
Proof.
  intros H0 Ha Hf Hm. pose proof (words_mapped_other f ms mem mem' mk H0 Ha Hm) as Hw.
  destruct Hm as (Hl & Hs & Hk). split; [done|]. split; [constructor; congruence|].
  intros i Hi. apply Hk. by apply Forall_cons in Hi as [_ Hi].
Qed.

Lemma words_mapped_store f ms mem mem' mk v :
  0 <= at_ mk -> at_ mk + 8 <= Z.of_nat (length mem) -> Forall (apart mk) ms -> Forall (fun x => 0 <= at_ x) ms ->
  v = f mk (word_of mem (at_ mk)) -> u64 v ->
  words_mapped f ms (memcpy mem (Z.to_nat (at_ mk)) (le_encode 8 v)) mem' ->
  words_mapped f (mk :: ms) mem mem'.
Proof.
  intros H0 H8 Ha Hpos -> Hv Hm. set (v := f mk (word_of mem (at_ mk))) in *.
  set (mem1 := memcpy mem _ _) in *.
  assert (Hlen : length (le_encode 8 v) = 8%nat) by apply length_le_encode.
  assert (Hb : (Z.to_nat (at_ mk) + length (le_encode 8 v) <= length mem)%nat) by lia.
  assert (Hw1 : word_of mem1 (at_ mk) = v).
  { unfold word_of. rewrite <- Hlen at 1. unfold mem1. rewrite slice_memcpy by done.
    apply le_decode_encode_small. change (256 ^ Z.of_nat 8) with (2 ^ 64). u_lia. }
  assert (Hout : forall i, ~ in_word i mk -> mem1 !! i = mem !! i).
  { intros i Hi. unfold mem1. rewrite memcpy_lookup by done. unfold in_word in Hi. rewrite decide_False by lia. done. }
  pose proof (words_mapped_other f ms mem1 mem' mk H0 Ha Hm) as Hw. destruct Hm as (Hl & Hs & Hk).
  split; [rewrite Hl; by apply length_memcpy|]. split.
  - constructor; [by rewrite Hw|]. rewrite Forall_forall in Hs, Ha, Hpos |- *. intros x Hx.
    rewrite (Hs x Hx). f_equal. apply word_of_agree. intros i Hi. apply Hout.
    specialize (Ha x Hx). specialize (Hpos x Hx). unfold apart, in_word in *. lia.
  - intros i Hi. apply Forall_cons in Hi as [Hi1 Hi2]. rewrite Hk by done. by apply Hout.
Qed.

Lemma words_mapped_inverse f g ms a b c :
  Forall (fun mk => 0 <= at_ mk /\ at_ mk + 8 <= Z.of_nat (length a)) ms ->
  words_mapped f ms a b -> words_mapped g ms b c ->
  Forall (fun mk => g mk (f mk (word_of a (at_ mk))) = word_of a (at_ mk)) ms -> c = a.
Proof.
  intros Hb (L1 & W1 & K1) (L2 & W2 & K2) Hinv. apply list_eq. intros i.
  destruct (decide (Exists (in_word i) ms)) as [He|Hn].
  - apply Exists_exists in He as (mk & Hin & Hi). rewrite Forall_forall in Hb, W1, W2, Hinv.
    specialize (Hb mk Hin). specialize (W1 mk Hin). specialize (W2 mk Hin). specialize (Hinv mk Hin).
    rewrite W1, Hinv in W2. unfold word_of in W2. apply le_decode_inj in W2; [|rewrite !length_slice; lia].
    apply slice_eq_iff in W2. apply W2. unfold in_word in Hi. lia.
  - apply not_Exists_Forall in Hn; [|intros x; unfold in_word; apply _]. rewrite K2, K1; done.
Qed.
End Words.

(** ** Which markings are rewritten *)

Section Marks.
Context `{MarkingHeader}.

Definition is_address (mk : marking) : Prop := mk_type mk = VK_MARKING_TYPE_DEVICE_ADDRESS_ARM.

#[export] Instance is_address_dec mk : Decision (is_address mk).
Proof. unfold is_address. apply _. Defined.

Definition is_metadata (mk : marking) : Prop :=
  mk_type mk = VK_MARKING_TYPE_DESCRIPTOR_SIZE_ARM \/ mk_type mk = VK_MARKING_TYPE_DESCRIPTOR_OFFSET_ARM.

Definition known_subtype (mk : marking) : Prop :=
  subtype32 mk = VK_DEVICE_ADDRESS_TYPE_BUFFER_ARM \/ subtype32 mk = VK_DEVICE_ADDRESS_TYPE_ACCELERATION_STRUCTURE_ARM.

Definition address_marks (ms : list marking) : list marking := filter is_address ms.

(** the addresses lie in the bytes from [lo] to [hi]; other marks are metadata *)
Definition addresses_inside (lo hi : Z) (ms : list marking) : Prop :=
  Forall (fun mk => is_metadata mk \/
    (is_address mk /\ known_subtype mk /\ lo <= mk_offset mk /\ mk_offset mk + 8 <= hi)) ms.

Lemma metadata_no_address mk : is_metadata mk -> ~ is_address mk.
Proof.
  unfold is_metadata, is_address. intros Hm Ha. pose proof header_types as Hn. rewrite !NoDup_cons, !not_elem_of_cons in Hn.
  destruct Hn as [(_ & H1 & H2 & _) _]. destruct Hm; congruence.
Qed.

Lemma address_marks_inside lo hi ms :
  addresses_inside lo hi ms -> Forall (fun mk => lo <= mk_offset mk /\ mk_offset mk + 8 <= hi) (address_marks ms).
Proof.
  unfold addresses_inside. rewrite !Forall_forall. intros Hi x Hx. apply list_elem_of_filter in Hx as [Ha Hx].
  destruct (Hi x Hx) as [Hm|(_ & _ & ?)]; [|done]. by destruct (metadata_no_address x).
Qed.

(** ** Translating to the replay *)

Definition forward (translate_buffer translate_structure : Z -> Z) (mk : marking) (current : Z) : Z :=
  if subtype32 mk =? VK_DEVICE_ADDRESS_TYPE_ACCELERATION_STRUCTURE_ARM then translate_structure current else translate_buffer current.

Lemma translate_mark_metadata debug is_replay tb ts pending pipelines size mk mem :
  is_metadata mk -> translate_mark debug is_replay tb ts pending pipelines size mk mem = Ok mem.
Proof.
  intros Hm. unfold translate_mark. pose proof header_types as Hn. rewrite !NoDup_cons, !not_elem_of_cons in Hn.
  destruct Hn as ((_ & D1 & D2 & _) & (D3 & D4 & _) & _).
  destruct Hm as [-> | ->]; rewrite !(proj2 (Z.eqb_neq _ _)) by congruence; rewrite Z.eqb_refl; try done.
  by rewrite orb_true_r.
Qed.

Lemma translate_mark_address debug is_replay tb ts pending pipelines size mk mem :
  is_address mk -> known_subtype mk -> 0 <= mk_offset mk -> mk_offset mk + 8 <= size -> size <= Z.of_nat (length mem) ->
  size <= UINT64_MAX -> (debug && is_replay = true -> forward tb ts mk (word_of mem (mk_offset mk)) <> 0) ->
  translate_mark debug is_replay tb ts pending pipelines size mk mem =
    Ok (memcpy mem (Z.to_nat (mk_offset mk)) (le_encode 8 (forward tb ts mk (word_of mem (mk_offset mk))))).
Proof.
  intros Ha Hk H0 H8 Hs Hu Hz. unfold translate_mark. rewrite Ha, Z.eqb_refl. cbv zeta.
  assert (Hst : (subtype32 mk =? VK_DEVICE_ADDRESS_TYPE_BUFFER_ARM) ||
    (subtype32 mk =? VK_DEVICE_ADDRESS_TYPE_ACCELERATION_STRUCTURE_ARM) = true).
  { destruct Hk as [-> | ->]; rewrite Z.eqb_refl; [done|by rewrite orb_true_r]. }
  rewrite Hst, wrap64_small by u_lia. rewrite (proj2 (Z.leb_le _ _)) by lia. cbn [require obind].
  rewrite load_ok by lia. cbn [obind]. fold (word_of mem (mk_offset mk)). fold (forward tb ts mk (word_of mem (mk_offset mk))).
  assert (Hd : assert_in debug (negb (forward tb ts mk (word_of mem (mk_offset mk)) =? 0) || negb is_replay) = Ok tt).
  { unfold assert_in. destruct debug, is_replay; cbn [andb orb negb]; try done; [|by rewrite orb_true_r].
    by rewrite (proj2 (Z.eqb_neq _ _)) by (by apply Hz). }
  rewrite Hd. cbn [obind]. apply store_bytes_ok. rewrite length_le_encode. lia.
Qed.

Lemma translate_marks_spec debug is_replay tb ts pending pipelines size : size <= UINT64_MAX ->
  (forall x, u64 (tb x)) -> (forall x, u64 (ts x)) -> forall ms mem,
  addresses_inside 0 size ms -> ForallOrdPairs (apart mk_offset) (address_marks ms) -> size <= Z.of_nat (length mem) ->
  (debug && is_replay = true ->
   Forall (fun mk => forward tb ts mk (word_of mem (mk_offset mk)) <> 0) (address_marks ms)) ->
  exists mem', translate_marks debug is_replay tb ts pending pipelines size ms mem = Ok mem' /\
    words_mapped mk_offset (forward tb ts) (address_marks ms) mem mem'.
Proof.
  intros Hu Htb Hts. induction ms as [|mk ms IH]; intros mem Hin Hap Hs Hz; [by exists mem|].
  pose proof (address_marks_inside _ _ _ Hin) as Hall. apply Forall_cons in Hin as [Hmk Hin]. cbn [translate_marks].
  destruct Hmk as [Hm|(Ha & Hk & H0 & H8)].
  { rewrite translate_mark_metadata by done. cbn [obind]. unfold address_marks in *. rewrite filter_cons in *.
    rewrite decide_False in * by (by apply metadata_no_address). by apply IH. }
  unfold address_marks in *. rewrite filter_cons in *. rewrite decide_True in * by done.
  inversion Hap as [|? ? Hap1 Hap2]; subst. apply Forall_cons in Hall as [_ Hall].
  rewrite translate_mark_address; try done; [|intros Hd; specialize (Hz Hd); by apply Forall_cons in Hz as [Hz _]].
  cbn [obind]. set (v := forward tb ts mk (word_of mem (mk_offset mk))).
  assert (Hv : u64 v) by (unfold v, forward; destruct (_ =? _); auto).
  assert (Hlen : length (memcpy mem (Z.to_nat (mk_offset mk)) (le_encode 8 v)) = length mem).
  { apply length_memcpy. rewrite length_le_encode. lia. }
  destruct (IH (memcpy mem (Z.to_nat (mk_offset mk)) (le_encode 8 v))) as (mem' & E & Hm); try done.
  { by rewrite Hlen. }
  { intros Hd. specialize (Hz Hd). apply Forall_cons in Hz as [_ Hz].
    rewrite Forall_forall in Hz, Hall, Hap1 |- *. intros x Hx. specialize (Hz x Hx).
    rewrite (word_of_agree _ mem); [done|]. intros i Hi. rewrite memcpy_lookup by (rewrite length_le_encode; lia).
    rewrite length_le_encode. specialize (Hap1 x Hx). destruct (Hall x Hx). unfold apart in Hap1. rewrite decide_False by lia. done. }
  exists mem'. split; [done|]. apply (words_mapped_store _ _ _ _ _ _ v); try done; try lia.
  eapply Forall_impl; [exact Hall|]. simpl. lia.
Qed.

(** ** Translating back to the capture *)

Definition backward (buffers : list (option address_buffer)) (structures : list (option (Z * Z))) (mk : marking) (current : Z)
    : option Z :=
  if current =? 0 then Some 0
  else if subtype32 mk =? VK_DEVICE_ADDRESS_TYPE_BUFFER_ARM then reverse_translate_buffer_address buffers current
  else reverse_translate_acceleration_structure_address structures current.

(** the address of the capture, where there is one *)
Definition captured buffers structures (mk : marking) (current : Z) : Z := default 0 (backward buffers structures mk current).

Lemma reverse_translate_backward buffers structures mk x : known_subtype mk -> x <> 0 ->
  reverse_translate buffers structures (subtype32 mk) x =
    match backward buffers structures mk x with Some c => Ok c | None => Fail AbortCall end.
Proof.
  intros Hk Hx. unfold reverse_translate, backward. rewrite (proj2 (Z.eqb_neq x 0)) by done. pose proof header_subtypes as Hn.
  destruct (subtype32 mk =? VK_DEVICE_ADDRESS_TYPE_BUFFER_ARM) eqn:E; [done|]. bool_to_prop.
  destruct Hk as [?|Hk]; [done|]. by rewrite Hk, Z.eqb_refl.
Qed.

Lemma reverse_marks_metadata buffers structures offset size mk ms scratch :
  is_metadata mk -> reverse_marks buffers structures offset size (mk :: ms) scratch = reverse_marks buffers structures offset size ms scratch.
Proof.
  intros Hm. cbn [reverse_marks]. rewrite (proj2 (Z.eqb_neq _ _)); [done|]. by apply metadata_no_address.
Qed.

Lemma reverse_marks_address buffers structures offset size mk ms scratch :
  is_address mk -> known_subtype mk -> offset <= mk_offset mk -> mk_offset mk + 8 <= offset + size -> 0 <= offset ->
  offset + size = Z.of_nat (length scratch) -> offset + size <= UINT64_MAX ->
  is_Some (backward buffers structures mk (word_of scratch (mk_offset mk))) ->
  let x := word_of scratch (mk_offset mk) in
  reverse_marks buffers structures offset size (mk :: ms) scratch =
    reverse_marks buffers structures offset size ms
      (if x =? 0 then scratch else memcpy scratch (Z.to_nat (mk_offset mk)) (le_encode 8 (captured buffers structures mk x))).
Proof.
  intros Ha Hk Hlo Hhi H0 Hlen Hu [c Hc] x. cbn [reverse_marks]. rewrite Ha, Z.eqb_refl. cbn [negb].
  rewrite wrap64_small by u_lia. rewrite (proj2 (Z.ltb_ge _ _)) by lia.
  replace (mk_offset mk + 8 >? offset + size) with false by (symmetry; rewrite Z.gtb_ltb; apply Z.ltb_ge; lia).
  cbn [orb]. rewrite load_ok by lia. cbn [obind]. fold (word_of scratch (mk_offset mk)). fold x.
  destruct (x =? 0) eqn:Ex; [done|]. bool_to_prop. rewrite reverse_translate_backward by done.
  unfold captured. unfold x in *. rewrite Hc. cbn [obind default]. rewrite store_bytes_ok; [done|].
  rewrite length_le_encode. lia.
Qed.

Lemma reverse_marks_spec buffers structures offset size : 0 <= offset -> 0 < size -> offset + size <= UINT64_MAX ->
  (forall mk x, u64 (captured buffers structures mk x)) -> forall ms scratch,
  addresses_inside offset (offset + size) ms -> ForallOrdPairs (apart mk_offset) (address_marks ms) ->
  offset + size = Z.of_nat (length scratch) ->
  Forall (fun mk => is_Some (backward buffers structures mk (word_of scratch (mk_offset mk)))) (address_marks ms) ->
  exists scratch', reverse_marks buffers structures offset size ms scratch = Ok scratch' /\
    words_mapped mk_offset (captured buffers structures) (address_marks ms) scratch scratch'.
Proof.
  intros H0 Hsz Hu Hc. induction ms as [|mk ms IH]; intros mem Hin Hap Hs Hz; [by exists mem|].
  pose proof (address_marks_inside _ _ _ Hin) as Hall. apply Forall_cons in Hin as [Hmk Hin].
  destruct Hmk as [Hm|(Ha & Hk & Hlo & Hhi)].
  { rewrite reverse_marks_metadata by done. unfold address_marks in *. rewrite filter_cons in *.
    rewrite decide_False in * by (by apply metadata_no_address). by apply IH. }
  unfold address_marks in *. rewrite filter_cons in *. rewrite decide_True in * by done.
  inversion Hap as [|? ? Hap1 Hap2]; subst. apply Forall_cons in Hall as [_ Hall]. apply Forall_cons in Hz as [Hz1 Hz].
  rewrite reverse_marks_address by done. cbv zeta. destruct (word_of mem (mk_offset mk) =? 0) eqn:Ex; bool_to_prop.
  { destruct (IH mem) as (mem' & E & Hm); try done. exists mem'. split; [done|].
    apply words_mapped_skip; try done; [lia|]. by rewrite Ex. }
  set (v := captured buffers structures mk (word_of mem (mk_offset mk))).
  assert (Hlen : length (memcpy mem (Z.to_nat (mk_offset mk)) (le_encode 8 v)) = length mem).
  { apply length_memcpy. rewrite length_le_encode. lia. }
  destruct (IH (memcpy mem (Z.to_nat (mk_offset mk)) (le_encode 8 v))) as (mem' & E & Hm); try done.
  { by rewrite Hlen. }
  { rewrite Forall_forall in Hz, Hall, Hap1 |- *. intros x Hx. specialize (Hz x Hx).
    rewrite (word_of_agree _ mem); [done|]. intros i Hi. rewrite memcpy_lookup by (rewrite length_le_encode; lia).
    rewrite length_le_encode. specialize (Hap1 x Hx). destruct (Hall x Hx). unfold apart in Hap1. rewrite decide_False by lia. done. }
  exists mem'. split; [done|]. apply (words_mapped_store _ _ _ _ _ _ v); try done; try lia; [|by apply Hc].
  eapply Forall_impl; [exact Hall|]. simpl. lia.
Qed.
End Marks.

(** ** Addresses there and back *)

(** the buffer is found by its replay address and has one in the capture *)
Definition addressable (b : address_buffer) : Prop :=
  ab_state b <> state_destroyed /\ ab_state b <> state_uninitialized /\
  0 < ab_device_address b /\ 0 < ab_size b /\ ab_device_address b + ab_size b <= UINT64_MAX /\
  0 < ab_capture_device_address b /\ ab_capture_device_address b + ab_size b <= UINT64_MAX.

(** the replay address that the buffer gives a captured address *)
Definition replay_of (b : address_buffer) (captured : Z) : Z := ab_device_address b + (captured - ab_capture_device_address b).

Definition in_capture (b : address_buffer) (address : Z) : Prop :=
  ab_capture_device_address b <= address < ab_capture_device_address b + ab_size b.

(** what the remapper of the replay knows is what the buffers say *)
Record remapper_matches (object_at : nat -> mapped) (m : remapper) (buffers : list (option address_buffer)) : Prop := {
  rm_sizes : forall p, u64 (mp_size (object_at p));
  rm_sorted : keys_sorted m;
  rm_known : forall b, Some b ∈ buffers -> addressable b ->
    exists p, registered m (ab_capture_device_address b) p /\ mp_size (object_at p) = ab_size b /\ mp_state (object_at p) <> state_destroyed;
  rm_only : forall a p, registered m a p -> exists b, Some b ∈ buffers /\ addressable b /\
    ab_capture_device_address b = a /\ mp_size (object_at p) = ab_size b /\ mp_device_address (object_at p) = ab_device_address b;
  rm_agree : forall b b' c, Some b ∈ buffers -> Some b' ∈ buffers -> addressable b -> addressable b' ->
    in_capture b c -> in_capture b' c -> replay_of b c = replay_of b' c
}.

Lemma find_buffer_fold address size l : forall best,
  match foldl (find_buffer_step address size) best l with
  | None => best = None /\ forall b, Some b ∈ l -> holds_range address size b = false
  | Some (b, offset) => best = Some (b, offset) \/ (Some b ∈ l /\ holds_range address size b = true /\ offset = address - ab_device_address b)
  end.
Proof.
  induction l as [|x l IH]; intros best; cbn [foldl].
  - destruct best as [[b o]|]; [by left|]. split; [done|]. intros b Hb. by apply not_elem_of_nil in Hb.
  - specialize (IH (find_buffer_step address size best x)).
    destruct (foldl _ _ l) as [[b o]|].
    + destruct IH as [IH|(H1 & H2 & H3)]; [|right; split; [by right|done]].
      unfold find_buffer_step in IH. destruct x as [x|]; [|by left].
      destruct (holds_range address size x) eqn:Ex; [|by left].
      assert (Hx : Some (x, address - ab_device_address x) = Some (b, o) ->
        best = Some (b, o) \/ Some b ∈ Some x :: l /\ holds_range address size b = true /\ o = address - ab_device_address b).
      { intros [= <- <-]. right. split; [by left|done]. }
      destruct best as [[b' o']|]; [|by apply Hx]. destruct (better_buffer x b'); [by apply Hx|by left].
    + destruct IH as [H1 H2]. unfold find_buffer_step in H1. destruct x as [x|].
      * destruct (holds_range address size x) eqn:Ex; [destruct best as [[? ?]|]; [destruct (better_buffer _ _)|]; done|].
        split; [done|]. intros b Hb. apply elem_of_cons in Hb as [[= ->]|Hb]; auto.
      * split; [done|]. intros b Hb. apply elem_of_cons in Hb as [?|Hb]; [done|auto].
Qed.

Lemma holds_range_spec address b : holds_range address 1 b = true <->
  ab_state b <> state_destroyed /\ ab_state b <> state_uninitialized /\ ab_device_address b <> 0 /\ ab_size b <> 0 /\
  ab_device_address b <= address < ab_device_address b + ab_size b.
Proof.
  unfold holds_range. rewrite Z.gtb_ltb, (Z.gtb_ltb 1). split; intros Hh.
  - rewrite !andb_true_iff, !negb_true_iff, !orb_false_iff, !bool_decide_eq_false in Hh. bool_to_prop.
    destruct_and!. repeat split; try done; lia.
  - rewrite !andb_true_iff, !negb_true_iff, !orb_false_iff, !bool_decide_eq_false, !Z.eqb_neq, !Z.ltb_ge, Z.leb_le.
    destruct_and!. repeat split; try done; lia.
Qed.

Lemma reverse_buffer_ok buffers x c : reverse_translate_buffer_address buffers x = Some c ->
  (forall b, Some b ∈ buffers -> holds_range x 1 b = true -> addressable b) ->
  exists b, Some b ∈ buffers /\ addressable b /\ in_capture b c /\ replay_of b c = x.
Proof.
  unfold reverse_translate_buffer_address, find_buffer_by_device_address. intros E Hok.
  pose proof (find_buffer_fold x 1 buffers None) as Hf. destruct (foldl _ None buffers) as [[b o]|]; [|done].
  destruct Hf as [?|(Hin & Hh & ->)]; [done|]. specialize (Hok b Hin Hh).
  apply holds_range_spec in Hh as (_ & _ & _ & _ & Hr). destruct Hok as (O1 & O2 & O3 & O4 & O5 & O6 & O7).
  destruct (ab_capture_device_address b =? 0); [done|]. rewrite wrap64_small in E by u_lia. injection E as <-.
  exists b. unfold in_capture, replay_of. do 2 (split; [done|]). lia.
Qed.

(** a captured address inside of a buffer is translated to the buffer *)
Lemma translate_buffer_ok object_at m buffers b c :
  remapper_matches object_at m buffers -> Some b ∈ buffers -> addressable b -> in_capture b c ->
  translate_address object_at m c = replay_of b c.
Proof.
  intros [R1 R2 R3 R4 R5] Hin Hb Hc. pose proof (find_candidate_spec object_at m c R1 R2) as Hf.
  destruct (R3 b Hin Hb) as (p & Hp & Hsz & Hst).
  pose proof Hb as (_ & _ & B3 & B4 & B5 & B6 & B7). unfold in_capture in Hc.
  assert (Hcov : covers (ab_capture_device_address b) c (object_at p) = true).
  { unfold covers, is_destroyed. rewrite Hsz, wrap64_small by u_lia. rewrite (proj2 (Z.eqb_neq _ _)) by lia.
    rewrite (proj2 (Z.ltb_lt _ _)) by lia. destruct (mp_state (object_at p)); done. }
  unfold translate_address. destruct (find_candidate object_at m c) as [[q base]|].
  - destruct Hf as (Hq & Hle & Hcq & _). destruct (R4 base q Hq) as (b' & Hin' & Hb' & <- & Hsz' & Hdev).
    pose proof Hb' as (_ & _ & B3' & B4' & B5' & B6' & B7').
    unfold covers in Hcq. rewrite Hsz' in Hcq. rewrite wrap64_small in Hcq by u_lia.
    apply andb_true_iff in Hcq as [_ Hlt]. bool_to_prop.
    rewrite Hdev, (proj2 (Z.eqb_neq _ _)) by lia. rewrite wrap64_small by u_lia.
    symmetry. apply (R5 b b' c); try done. unfold in_capture. lia.
  - rewrite (Hf _ p Hp) in Hcov; [done|lia].
Qed.

(** the same for acceleration structures, whose addresses are translated whole *)
Record structures_match (object_at : nat -> mapped) (m : remapper) (structures : list (option (Z * Z))) : Prop := {
  sm_sizes : forall p, u64 (mp_size (object_at p));
  sm_sorted : keys_sorted m;
  sm_positive : forall a p, registered m a p -> 0 < a;
  sm_known : forall dev cap, Some (dev, cap) ∈ structures -> dev <> 0 -> cap <> 0 ->
    u64 dev /\ u64 cap /\ exists p, registered m cap p /\ covers cap cap (object_at p) = true;
  sm_only : forall dev cap p, Some (dev, cap) ∈ structures -> dev <> 0 -> registered m cap p -> mp_device_address (object_at p) = dev
}.

Lemma reverse_structure_ok structures x c : reverse_translate_acceleration_structure_address structures x = Some c ->
  Some (x, c) ∈ structures /\ c <> 0.
Proof.
  induction structures as [|[[d c']|] l IH]; cbn [reverse_translate_acceleration_structure_address]; [done| |].
  - destruct (d =? x) eqn:Ed; cbn [negb]; bool_to_prop.
    + destruct (c' =? 0) eqn:Ec; [done|]. intros [= <-]. bool_to_prop. subst d. split; [by left|done].
    + intros E. destruct (IH E). split; [by right|done].
  - intros E. destruct (IH E). split; [by right|done].
Qed.

Lemma translate_structure_ok object_at m structures x c :
  structures_match object_at m structures -> Some (x, c) ∈ structures -> x <> 0 -> c <> 0 ->
  translate_address object_at m c = x.
Proof.
  intros [S1 S2 _ S3 S4] Hin Hx Hc. destruct (S3 x c Hin Hx Hc) as (Hu & Huc & p & Hp & Hcov).
  pose proof (find_candidate_spec object_at m c S1 S2) as Hf. unfold translate_address.
  destruct (find_candidate object_at m c) as [[q base]|].
  - destruct Hf as (Hq & Hle & _ & Hbest). destruct (Hbest c p Hp ltac:(lia) Hcov) as [Hcb _].
    assert (base = c) as -> by lia. rewrite (S4 x c q Hin Hx Hq). rewrite (proj2 (Z.eqb_neq _ _)) by done.
    rewrite Z.sub_diag, Z.add_0_r. by apply wrap64_small.
  - rewrite (Hf c p Hp) in Hcov; [done|lia].
Qed.

Lemma translate_address_range object_at m x : u64 (translate_address object_at m x).
Proof.
  unfold translate_address. destruct (find_candidate _ _ _) as [[p base]|]; [|u_lia].
  destruct (_ =? 0); [u_lia|]. apply wrap64_range.
Qed.

Lemma translate_null object_at m : (forall p, u64 (mp_size (object_at p))) -> keys_sorted m ->
  (forall a p, registered m a p -> 0 < a) -> translate_address object_at m 0 = 0.
Proof.
  intros H1 H2 H3. pose proof (find_candidate_spec object_at m 0 H1 H2) as Hf. unfold translate_address.
  destruct (find_candidate object_at m 0) as [[p base]|]; [|done]. destruct Hf as (Hp & Hle & _). specialize (H3 _ _ Hp). lia.
Qed.

Section ThereAndBack.
Context `{MarkingHeader}.
Context (buffers : list (option address_buffer)) (structures : list (option (Z * Z))).
Context (buffer_at structure_at : nat -> mapped) (buffer_map structure_map : remapper).
Hypothesis Hbuffers : remapper_matches buffer_at buffer_map buffers.
Hypothesis Hstructures : structures_match structure_at structure_map structures.
Hypothesis Haddressable : forall b x, Some b ∈ buffers -> holds_range x 1 b = true -> addressable b.

Lemma captured_range mk x : u64 (captured buffers structures mk x).
Proof.
  unfold captured, backward. destruct (x =? 0) eqn:Ex; [simpl; u_lia|]. bool_to_prop. destruct (_ =? _).
  - unfold reverse_translate_buffer_address. destruct (find_buffer_by_device_address _ _ _) as [[b o]|]; [|simpl; u_lia].
    destruct (_ =? 0); [simpl; u_lia|]. apply wrap64_range.
  - destruct (reverse_translate_acceleration_structure_address structures x) as [c|] eqn:E; [|simpl; u_lia].
    apply reverse_structure_ok in E as [Hin Hc]. by destruct (sm_known _ _ _ Hstructures x c Hin Ex Hc) as (_ & ? & _).
Qed.

Lemma forward_backward mk x : known_subtype mk -> is_Some (backward buffers structures mk x) ->
  forward (translate_address buffer_at buffer_map) (translate_address structure_at structure_map) mk
    (captured buffers structures mk x) = x.
Proof.
  intros Hk [c Hc]. unfold captured. rewrite Hc. cbn [default]. unfold backward in Hc. unfold forward.
  destruct (x =? 0) eqn:Ex; bool_to_prop.
  { injection Hc as <-. subst x. pose proof Hbuffers as [R1 R2 _ R4 _]. pose proof Hstructures as [S1 S2 S3 _ _].
    destruct (_ =? _); apply translate_null; try done. intros a p Hp. destruct (R4 a p Hp) as (b & _ & Hb & <- & _). apply Hb. }
  pose proof header_subtypes as Hn. destruct (subtype32 mk =? VK_DEVICE_ADDRESS_TYPE_BUFFER_ARM) eqn:E1; bool_to_prop.
  - rewrite E1, (proj2 (Z.eqb_neq _ _)) by done.
    destruct (reverse_buffer_ok buffers x c Hc) as (b & Hin & Hb & Hcap & <-); [by intros b ?; apply Haddressable|].
    by apply (translate_buffer_ok _ _ buffers).
  - destruct Hk as [?|Hk]; [done|]. rewrite Hk, Z.eqb_refl. apply reverse_structure_ok in Hc as [Hin Hc].
    by apply (translate_structure_ok _ _ structures).
Qed.
End ThereAndBack.

(** the payload as [reverse_translate_marked_payload] copies it *)
Lemma scratch_words changed offset size mk : 0 <= offset -> offset + size <= Z.of_nat (length changed) ->
  offset <= mk_offset mk -> mk_offset mk + 8 <= offset + size ->
  word_of (repeat x00 (Z.to_nat offset) ++ slice (Z.to_nat offset) (Z.to_nat size) changed) (mk_offset mk) =
    word_of changed (mk_offset mk).
Proof.
  intros H0 Hl Hlo Hhi. apply word_of_agree. intros i Hi. rewrite lookup_app_r by (rewrite repeat_length; lia).
  rewrite repeat_length, slice_lookup, decide_True by lia. f_equal. lia.
Qed.

(** ** Shader group handles *)

(** group [g] of pipeline [p] has this handle in the capture *)
Definition has_handle (handle : list byte) (p : pipeline_handles) (g : nat) : Prop :=
  raytracing_group_handle_size p = Z.of_nat marked_handle_size /\ (g < searched_groups p)%nat /\
  slice (g * marked_handle_size) marked_handle_size (raytracing_group_handles p) = handle.

(** the handle that replaces it *)
Definition replaced_by (handle : list byte) (p : pipeline_handles) (g : nat) (h : list byte) : Prop :=
  if raytracing_group_handles_capture_replay p then h = handle
  else raytracing_group_handle_size_replay p = Z.of_nat marked_handle_size /\
    (g * marked_handle_size + marked_handle_size <= length (raytracing_group_handles_replay p))%nat /\
    h = slice (g * marked_handle_size) marked_handle_size (raytracing_group_handles_replay p).

Lemma searched_groups_empty p : raytracing_group_handles p = [] -> searched_groups p = 0%nat.
Proof.
  intros E. unfold searched_groups. rewrite E. change (length [] / marked_handle_size)%nat with 0%nat.
  destruct (raytracing_group_count p =? 0) eqn:E0; [done|]. bool_to_prop. rewrite Z.gtb_ltb.
  destruct (Z.ltb_spec (Z.of_nat 0) (raytracing_group_count p)); [done|]. simpl. lia.
Qed.

Lemma elem_of_matching p handle g :
  raytracing_group_handle_size p = Z.of_nat marked_handle_size -> g ∈ matching_groups p handle <-> has_handle handle p g.
Proof. intros E. unfold matching_groups, has_handle. rewrite list_elem_of_filter, elem_of_seq. split; intros; destruct_and?; repeat split; try done; lia. Qed.

Lemma find_match_spec p handle :
  match find_marked_shader_group_handle_match p handle with
  | None => forall g, ~ has_handle handle p g
  | Some (g, true) => has_handle handle p g /\ exists g', g' <> g /\ has_handle handle p g'
  | Some (g, false) => forall g', has_handle handle p g' <-> g' = g
  end.
Proof.
  unfold find_marked_shader_group_handle_match.
  destruct (raytracing_group_handle_size p =? Z.of_nat marked_handle_size) eqn:Es; bool_to_prop; cbn [negb orb];
    [|intros g (? & _); done].
  destruct (Nat.eqb_spec (length (raytracing_group_handles p)) 0) as [El|_].
  { intros g (_ & Hg & _). rewrite searched_groups_empty in Hg by (by apply nil_length_inv). lia. }
  pose proof (fun g => elem_of_matching p handle g Es) as Hm.
  assert (Hn : NoDup (matching_groups p handle)) by (apply NoDup_filter, NoDup_seq).
  destruct (matching_groups p handle) as [|g [|g' rest]].
  - intros g. rewrite <- Hm. apply not_elem_of_nil.
  - cbn. intros g'. rewrite <- Hm. apply list_elem_of_singleton.
  - cbn. rewrite <- !Hm. split; [by left|]. exists g'. rewrite <- Hm. split; [|right; by left].
    intros ->. apply NoDup_cons in Hn as [Hn _]. apply Hn. by left.
Qed.

Definition no_match (handle : list byte) (p : pipeline_handles) : Prop := forall g, ~ has_handle handle p g.

(** once a pipeline matched, no other may *)
Lemma match_pipelines_more handle replay_handle preserve l r :
  match_pipelines l handle true replay_handle preserve = Ok r <->
  Forall (no_match handle) l /\ r = (true, replay_handle, preserve).
Proof.
  induction l as [|p l IH]; cbn [match_pipelines].
  { rewrite Forall_nil. split; [intros [= <-]; done|]. by intros [_ ->]. }
  pose proof (find_match_spec p handle) as Hf. destruct (find_marked_shader_group_handle_match p handle) as [[g a]|].
  - split.
    + destruct a; cbn [negb require obind]; done.
    + intros [Hn _]. apply Forall_cons in Hn as [Hn _]. destruct (Hn g). destruct a; [by destruct Hf|by apply Hf].
  - rewrite IH, Forall_cons. unfold no_match at 2. tauto.
Qed.

(** the result of one pipeline that has the handle once *)
Lemma match_pipelines_one handle p l g r :
  find_marked_shader_group_handle_match p handle = Some (g, false) ->
  match_pipelines (p :: l) handle false None false = Ok r <->
  Forall (no_match handle) l /\ exists h, replaced_by handle p g h /\
    r = if raytracing_group_handles_capture_replay p then (true, None, true) else (true, Some h, false).
Proof.
  intros Ef. cbn [match_pipelines]. rewrite Ef. cbn [negb require obind]. unfold replaced_by.
  destruct (raytracing_group_handles_capture_replay p).
  - rewrite match_pipelines_more. naive_solver.
  - destruct (Z.eqb_spec (raytracing_group_handle_size_replay p) (Z.of_nat marked_handle_size)) as [E1|E1]; cbn [require obind];
      [|split; [done|naive_solver]].
    destruct (Nat.leb_spec (g * marked_handle_size + marked_handle_size) (length (raytracing_group_handles_replay p))) as [E2|E2];
      cbn [require obind]; [|split; [done|intros (_ & h & (_ & ? & _) & _); lia]].
    rewrite match_pipelines_more. naive_solver.
Qed.

Lemma match_pipelines_none handle l1 l2 matched rh pr : Forall (no_match handle) l1 ->
  match_pipelines (l1 ++ l2) handle matched rh pr = match_pipelines l2 handle matched rh pr.
Proof.
  induction l1 as [|p l1 IH]; intros Hn; [done|]. apply Forall_cons in Hn as [Hp Hn]. cbn [app match_pipelines].
  pose proof (find_match_spec p handle) as Hf. destruct (find_marked_shader_group_handle_match p handle) as [[g a]|]; [|by apply IH].
  destruct (Hp g). destruct a; [by destruct Hf|by apply Hf].
Qed.

(** the pipelines before the first that matches *)
Lemma first_match handle l : Forall (no_match handle) l \/
  exists l1 p l2 g a, l = l1 ++ p :: l2 /\ Forall (no_match handle) l1 /\
    find_marked_shader_group_handle_match p handle = Some (g, a).
Proof.
  induction l as [|p l IH]; [by left; constructor|].
  pose proof (find_match_spec p handle) as Hf. destruct (find_marked_shader_group_handle_match p handle) as [[g a]|] eqn:E.
  - right. exists [], p, l, g, a. split; [done|]. by split; [constructor|].
  - destruct IH as [IH|(l1 & q & l2 & g & a & -> & H1 & H2)]; [left; by constructor|].
    right. exists (p :: l1), q, l2, g, a. split; [done|]. split; [by constructor|done].
Qed.

Lemma rewrite_handle_result handle l1 p l2 g h : Forall (no_match handle) l1 ->
  find_marked_shader_group_handle_match p handle = Some (g, false) ->
  rewrite_marked_shader_group_handle (l1 ++ p :: l2) handle = Ok h <-> Forall (no_match handle) l2 /\ replaced_by handle p g h.
Proof.
  intros Hn Ef. unfold rewrite_marked_shader_group_handle. rewrite match_pipelines_none by done.
  pose proof (match_pipelines_one handle p l2 g) as H1. split.
  - intros E. outcome_inv. destruct v as [[m rh] pr]. apply H1 in E0 as (H2 & h' & Hr & Ev); [|done].
    split; [done|]. unfold replaced_by in *. destruct (raytracing_group_handles_capture_replay p); injection Ev as -> -> ->;
      outcome_inv; done.
  - intros [H2 Hr]. rewrite (proj2 (H1 _ Ef) (conj H2 (ex_intro _ h (conj Hr eq_refl)))). unfold replaced_by in Hr.
    destruct (raytracing_group_handles_capture_replay p); cbn [obind require]; [by rewrite Hr|done].
Qed.

(** ** Properties *)

(** Translating the markings of an update replaces exactly the marked device
    addresses, each by what the remapper for its kind of address gives, and leaves
    every other byte as it was. *)
Theorem translated_addresses `{MarkingHeader} (debug is_replay : bool) (tb ts : Z -> Z) pending pipelines
    (ar : VkMarkedOffsetsARM) arrays (ms : list marking) (mem : list byte) (size : Z)
    (Hentries : entries ar = Ok (arrays, ms)) (Hsize : size <= Z.of_nat (length mem)) (Hmax : size <= UINT64_MAX)
    (Htb : forall x, u64 (tb x)) (Hts : forall x, u64 (ts x))
    (Hinside : addresses_inside 0 size ms) (Hapart : ForallOrdPairs (apart mk_offset) (address_marks ms))
    (Hknown : debug && is_replay = true ->
      Forall (fun mk => forward tb ts mk (word_of mem (mk_offset mk)) <> 0) (address_marks ms)) :
  exists mem', translate_marked_offsets debug is_replay tb ts pending pipelines false ar mem size = Ok mem' /\
    length mem' = length mem /\
    (forall mk, mk ∈ ms -> is_address mk ->
      word_of mem' (mk_offset mk) =
        if subtype32 mk =? VK_DEVICE_ADDRESS_TYPE_ACCELERATION_STRUCTURE_ARM then ts (word_of mem (mk_offset mk))
        else tb (word_of mem (mk_offset mk))) /\
    forall i, (forall mk, mk ∈ ms -> is_address mk -> ~ in_word mk_offset i mk) -> mem' !! i = mem !! i.
Proof.
  destruct (translate_marks_spec debug is_replay tb ts pending pipelines size Hmax Htb Hts ms mem) as (mem' & E & Hl & Hw & Hk);
    try done.
  exists mem'. unfold translate_marked_offsets. rewrite Hentries. cbn [obind]. split; [done|]. split; [done|].
  rewrite Forall_forall in Hw. split.
  - intros mk Hin Ha. apply Hw. by apply list_elem_of_filter.
  - intros i Hi. apply Hk. apply Forall_forall. intros mk Hm. apply list_elem_of_filter in Hm as [? ?]. by apply Hi.
Qed.

#[local] Existing Instance demo_header.

Definition demo_memory : list byte :=
  concat (map (le_encode 8) [4100; 77; 9000; 0]).

Lemma translated_addresses_witness :
  exists mem', translate_marked_offsets true true (fun x => wrap64 (x + 7)) (fun x => wrap64 (x + 100)) [] [] false
      (demo_marks [(0, 1, 0); (16, 1, 1); (24, 3, 0)]) demo_memory 32 = Ok mem' /\
    length mem' = length demo_memory /\
    (forall mk, mk ∈ [Marking 0 1 0; Marking 16 1 1; Marking 24 3 0] -> is_address mk ->
      word_of mem' (mk_offset mk) =
        if subtype32 mk =? 1 then wrap64 (word_of demo_memory (mk_offset mk) + 100)
        else wrap64 (word_of demo_memory (mk_offset mk) + 7)) /\
    forall i, (forall mk, mk ∈ [Marking 0 1 0; Marking 16 1 1; Marking 24 3 0] -> is_address mk -> ~ in_word mk_offset i mk) ->
      mem' !! i = demo_memory !! i.
Proof.
  refine (translated_addresses true true (fun x => wrap64 (x + 7)) (fun x => wrap64 (x + 100)) [] []
    (demo_marks [(0, 1, 0); (16, 1, 1); (24, 3, 0)]) _ [Marking 0 1 0; Marking 16 1 1; Marking 24 3 0] demo_memory 32
    eq_refl _ _ _ _ _ _ _).
  - by vm_compute.
  - by vm_compute.
  - intros x. apply wrap64_range.
  - intros x. apply wrap64_range.
  - apply Forall_cons; split; [right; split; [done|]; split; [by left|]; by vm_compute|].
    apply Forall_cons; split; [right; split; [done|]; split; [by right|]; by vm_compute|].
    apply Forall_cons; split; [left; by left|]. constructor.
  - change (address_marks _) with [Marking 0 1 0; Marking 16 1 1]. repeat constructor. by vm_compute.
  - intros _. change (address_marks _) with [Marking 0 1 0; Marking 16 1 1]. repeat constructor; by vm_compute.
Defined.

(** C36: post-processing writes addresses that replay the same: when every marked
    address of a payload is null or that of an object with an address in the
    capture, translating it back succeeds, the payload that is written holds the
    addresses of the capture, and translating it again to the replay gives the
    memory back byte by byte. *)
Theorem marked_addresses_there_and_back `{MarkingHeader}
    (buffers : list (option address_buffer)) (structures : list (option (Z * Z)))
    (buffer_at structure_at : nat -> mapped) (buffer_map structure_map : remapper) pending pipelines
    (debug is_replay : bool) (ar : VkMarkedOffsetsARM) arrays (ms : list marking) (changed : list byte) (offset size : Z)
    (Hbuffers : remapper_matches buffer_at buffer_map buffers)
    (Hstructures : structures_match structure_at structure_map structures)
    (Haddressable : forall b x, Some b ∈ buffers -> holds_range x 1 b = true -> addressable b)
    (Hentries : entries ar = Ok (arrays, ms)) (Hoffset : 0 <= offset) (Hsize : 0 < size)
    (Hlen : offset + size <= Z.of_nat (length changed)) (Hmax : offset + size <= UINT64_MAX)
    (Hinside : addresses_inside offset (offset + size) ms) (Hapart : ForallOrdPairs (apart mk_offset) (address_marks ms))
    (Hknown : forall mk, mk ∈ ms -> is_address mk -> is_Some (backward buffers structures mk (word_of changed (mk_offset mk))))
    (Hnull : debug && is_replay = true -> forall mk, mk ∈ ms -> is_address mk -> word_of changed (mk_offset mk) <> 0) :
  exists payload mem', reverse_translate_marked_payload buffers structures changed offset size ar = Ok payload /\
    (forall mk, mk ∈ ms -> is_address mk ->
      Some (word_of payload (mk_offset mk)) = backward buffers structures mk (word_of changed (mk_offset mk))) /\
    translate_marked_offsets debug is_replay (translate_address buffer_at buffer_map)
      (translate_address structure_at structure_map) pending pipelines false ar payload (offset + size) = Ok mem' /\
    slice (Z.to_nat offset) (Z.to_nat size) mem' = slice (Z.to_nat offset) (Z.to_nat size) changed.
Proof.
  set (scratch := repeat x00 (Z.to_nat offset) ++ slice (Z.to_nat offset) (Z.to_nat size) changed).
  assert (Hls : Z.of_nat (length scratch) = offset + size)
    by (unfold scratch; rewrite length_app, repeat_length, length_slice; lia).
  assert (Hin : forall mk, mk ∈ address_marks ms -> mk ∈ ms /\ is_address mk /\ known_subtype mk /\
    offset <= mk_offset mk /\ mk_offset mk + 8 <= offset + size /\
    word_of scratch (mk_offset mk) = word_of changed (mk_offset mk)).
  { intros mk Hm. apply list_elem_of_filter in Hm as [Ha Hm]. unfold addresses_inside in Hinside. rewrite Forall_forall in Hinside.
    destruct (Hinside mk Hm) as [Hmeta|(_ & Hk & Hlo & Hhi)]; [by destruct (metadata_no_address mk)|].
    repeat split; try done. by apply scratch_words. }
  destruct (reverse_marks_spec buffers structures offset size Hoffset Hsize Hmax
    (captured_range _ _ _ _ Hstructures) ms scratch Hinside Hapart) as (payload & E1 & W1); [done| |].
  { apply Forall_forall. intros mk Hm. destruct (Hin mk Hm) as (Hm' & Ha & _ & _ & _ & ->). by apply Hknown. }
  pose proof W1 as (L1 & V1 & _). rewrite Forall_forall in V1.
  assert (Hfw : forall mk, mk ∈ address_marks ms -> forward (translate_address buffer_at buffer_map)
    (translate_address structure_at structure_map) mk (captured buffers structures mk (word_of scratch (mk_offset mk))) =
    word_of scratch (mk_offset mk)).
  { intros mk Hm. destruct (Hin mk Hm) as (Hm' & Ha & Hk & _ & _ & ->). apply forward_backward; try done. by apply Hknown. }
  destruct (translate_marks_spec debug is_replay (translate_address buffer_at buffer_map)
    (translate_address structure_at structure_map) pending pipelines (offset + size) Hmax
    (translate_address_range _ _) (translate_address_range _ _) ms payload) as (mem' & E2 & W2); try done.
  { eapply Forall_impl; [exact Hinside|]. intros mk [?|(? & ? & ? & ?)]; [by left|]. right. repeat split; try done; lia. }
  { lia. }
  { intros Hd. apply Forall_forall. intros mk Hm. rewrite (V1 mk Hm), (Hfw mk Hm).
    destruct (Hin mk Hm) as (Hm' & Ha & _ & _ & _ & ->). by apply Hnull. }
  exists payload, mem'. split; [|split; [|split]].
  - unfold reverse_translate_marked_payload. rewrite Z.gtb_ltb, (proj2 (Z.ltb_lt _ _)) by lia. cbn [require obind].
    rewrite Hentries. cbn [obind]. rewrite load_ok by lia. cbn [obind]. exact E1.
  - intros mk Hm Ha. rewrite V1 by (by apply list_elem_of_filter).
    destruct (Hin mk) as (_ & _ & _ & _ & _ & ->); [by apply list_elem_of_filter|]. unfold captured.
    by destruct (Hknown mk Hm Ha) as [c ->].
  - unfold translate_marked_offsets. rewrite Hentries. exact E2.
  - assert (mem' = scratch) as ->.
    { refine (words_mapped_inverse _ _ _ _ _ _ _ _ W1 W2 _); apply Forall_forall; intros mk Hm; [|by apply Hfw].
      destruct (Hin mk Hm) as (_ & _ & _ & ? & ? & _). lia. }
    unfold scratch. unfold slice at 1. rewrite drop_app_length' by (by rewrite repeat_length).
    apply take_ge. rewrite length_slice. lia.
Qed.

Definition demo_address_buffers : list (option address_buffer) :=
  [None; Some (AddressBuffer state_bound 4096 1000 256 false)].

Definition demo_buffer_at (_ : nat) : mapped := Mapped 256 4096 state_bound false.

Lemma demo_remapper_matches : remapper_matches demo_buffer_at [(1000, [0%nat])] demo_address_buffers.
Proof.
  assert (Hb : forall b, Some b ∈ demo_address_buffers -> b = AddressBuffer state_bound 4096 1000 256 false).
  { intros b Hb. apply elem_of_cons in Hb as [?|Hb]; [done|]. apply list_elem_of_singleton in Hb. by injection Hb. }
  split.
  - intros p. by vm_compute.
  - constructor; constructor.
  - intros b Hin _. apply Hb in Hin as ->. exists 0%nat. split; [|done]. exists [0%nat]. split; by left.
  - intros a p (es & Hin & Hp). apply list_elem_of_singleton in Hin as [= -> ->].
    exists (AddressBuffer state_bound 4096 1000 256 false). split; [right; by left|]. split; [|done].
    repeat split; by vm_compute.
  - intros b b' c H1 H2. by rewrite (Hb b H1), (Hb b' H2).
Qed.

Lemma marked_addresses_there_and_back_witness :
  exists payload mem', reverse_translate_marked_payload demo_address_buffers [] demo_memory 0 32 (demo_marks [(0, 1, 0); (24, 1, 0)]) = Ok payload /\
    (forall mk, mk ∈ [Marking 0 1 0; Marking 24 1 0] -> is_address mk ->
      Some (word_of payload (mk_offset mk)) = backward demo_address_buffers [] mk (word_of demo_memory (mk_offset mk))) /\
    translate_marked_offsets false true (translate_address demo_buffer_at [(1000, [0%nat])])
      (translate_address demo_buffer_at []) [] [] false (demo_marks [(0, 1, 0); (24, 1, 0)]) payload (0 + 32) = Ok mem' /\
    slice (Z.to_nat 0) (Z.to_nat 32) mem' = slice (Z.to_nat 0) (Z.to_nat 32) demo_memory.
Proof.
  assert (Hin : forall mk, mk ∈ [Marking 0 1 0; Marking 24 1 0] -> mk = Marking 0 1 0 \/ mk = Marking 24 1 0).
  { intros mk Hm. apply elem_of_cons in Hm as [->|Hm]; [by left|right]. by apply list_elem_of_singleton in Hm. }
  refine (marked_addresses_there_and_back demo_address_buffers [] demo_buffer_at demo_buffer_at [(1000, [0%nat])] [] [] []
    false true (demo_marks [(0, 1, 0); (24, 1, 0)]) _ [Marking 0 1 0; Marking 24 1 0] demo_memory 0 32
    demo_remapper_matches _ _ eq_refl _ _ _ _ _ _ _ _); [| |by vm_compute..| | | |done].
  - split.
    + intros p. by vm_compute.
    + constructor.
    + intros a p (es & Hes & _). by apply not_elem_of_nil in Hes.
    + intros dev cap Hc. by apply not_elem_of_nil in Hc.
    + intros dev cap p Hc. by apply not_elem_of_nil in Hc.
  - intros b x Hb _. apply elem_of_cons in Hb as [?|Hb]; [done|]. apply list_elem_of_singleton in Hb. injection Hb as ->.
    repeat split; by vm_compute.
  - apply Forall_cons; split; [right; split; [done|]; split; [by left|]; by vm_compute|].
    apply Forall_cons; split; [right; split; [done|]; split; [by left|]; by vm_compute|]. constructor.
  - change (address_marks _) with [Marking 0 1 0; Marking 24 1 0]. repeat constructor. by vm_compute.
  - intros mk Hm _. destruct (Hin mk Hm) as [-> | ->]; eexists; vm_compute; reflexivity.
Defined.

(** A marked shader group handle is replaced exactly when one group of one
    pipeline has it: by the handle of that group in the replay, or by itself when
    the pipeline replays its captured handles; in every other case, such as a handle
    that is unknown or that two groups have, the replay aborts. *)
Theorem shader_group_handle_resolved (pipelines : list pipeline_handles) (handle h : list byte) :
  rewrite_marked_shader_group_handle pipelines handle = Ok h <->
  exists i p g, pipelines !! i = Some p /\ has_handle handle p g /\ replaced_by handle p g h /\
    forall i' p' g', pipelines !! i' = Some p' -> has_handle handle p' g' -> i' = i /\ g' = g.
Proof.
  assert (Hno : forall l i p g, Forall (no_match handle) l -> l !! i = Some p -> ~ has_handle handle p g).
  { intros l i p g Hl Hp Hg. rewrite Forall_forall in Hl. apply list_elem_of_lookup_2 in Hp. by apply (Hl p Hp g). }
  destruct (first_match handle pipelines) as [Hn|(l1 & p & l2 & g & a & -> & H1 & Ef)].
  { split.
    - unfold rewrite_marked_shader_group_handle. rewrite <- (app_nil_r pipelines), match_pipelines_none by done. done.
    - intros (i & p & g & Hp & Hg & _). by destruct (Hno pipelines i p g Hn Hp). }
  pose proof (find_match_spec p handle) as Hf. rewrite Ef in Hf. destruct a.
  { destruct Hf as (Hg & g' & Hne & Hg'). split.
    - unfold rewrite_marked_shader_group_handle. rewrite match_pipelines_none by done. cbn [match_pipelines].
      by rewrite Ef.
    - intros (i & q & g'' & _ & _ & _ & Hu). destruct (Hu (length l1) p g) as [_ E]; [by apply list_lookup_middle|done|].
      destruct (Hu (length l1) p g') as [_ E']; [by apply list_lookup_middle|done|]. congruence. }
  rewrite rewrite_handle_result by done. split.
  - intros [H2 Hr]. exists (length l1), p, g. split; [by apply list_lookup_middle|]. split; [by apply Hf|]. split; [done|].
    intros i' p' g' Hp' Hg'. apply lookup_app_Some in Hp' as [Hp'|[Hle Hp']]; [by destruct (Hno l1 i' p' g' H1 Hp')|].
    destruct (i' - length l1)%nat as [|k] eqn:Ek; cbn in Hp'; [|by destruct (Hno l2 k p' g' H2 Hp')].
    injection Hp' as <-. split; [lia|by apply Hf].
  - intros (i & q & g' & Hq & Hg & Hr & Hu).
    destruct (Hu (length l1) p g) as [Hi <-]; [by apply list_lookup_middle|by apply Hf|]. subst i.
    rewrite list_lookup_middle in Hq by done. injection Hq as <-. split; [|done].
    apply Forall_forall. intros q Hq g'' Hg''. apply list_elem_of_lookup_1 in Hq as [k Hk].
    destruct (Hu (length l1 + S k)%nat q g'') as [? _]; [|done|lia].
    rewrite lookup_app_r by lia. by replace (length l1 + S k - length l1)%nat with (S k) by lia.
Qed.
