(* ===== verification/Templates.v ===== *)
(** * Descriptor update templates (src/hardcode_write.cpp, src/hardcode_read.cpp, src/util.cpp)

    A template says where the handles lie in the bytes that an application passes
    to an update of descriptors. The capture puts the index of its object in the
    place of every handle before the bytes go to the trace, and the replay the
    handle of its own object in the place of every index. *)

From Stdlib Require Import ZArith Lia Bool.
From Stdlib.Strings Require Import Byte.
From stdpp Require Import base numbers list gmap.
From S2P Require Import Prelude Patch Packets Containers Translate.

#[local] Open Scope Z_scope.

(** ** Templates *)

Inductive VkDescriptorType : Set :=
  | VK_DESCRIPTOR_TYPE_SAMPLER
  | VK_DESCRIPTOR_TYPE_COMBINED_IMAGE_SAMPLER
  | VK_DESCRIPTOR_TYPE_SAMPLED_IMAGE
  | VK_DESCRIPTOR_TYPE_STORAGE_IMAGE
  | VK_DESCRIPTOR_TYPE_INPUT_ATTACHMENT
  | VK_DESCRIPTOR_TYPE_UNIFORM_BUFFER
  | VK_DESCRIPTOR_TYPE_STORAGE_BUFFER
  | VK_DESCRIPTOR_TYPE_UNIFORM_BUFFER_DYNAMIC
  | VK_DESCRIPTOR_TYPE_STORAGE_BUFFER_DYNAMIC
  | VK_DESCRIPTOR_TYPE_UNIFORM_TEXEL_BUFFER
  | VK_DESCRIPTOR_TYPE_STORAGE_TEXEL_BUFFER
  | VK_DESCRIPTOR_TYPE_ACCELERATION_STRUCTURE_KHR
  | VK_DESCRIPTOR_TYPE_INLINE_UNIFORM_BLOCK
  | VK_DESCRIPTOR_TYPE_TENSOR_ARM
  | VK_DESCRIPTOR_TYPE_PARTITIONED_ACCELERATION_STRUCTURE_NV
  | VK_DESCRIPTOR_TYPE_MUTABLE_EXT
  | VK_DESCRIPTOR_TYPE_BLOCK_MATCH_IMAGE_QCOM
  | VK_DESCRIPTOR_TYPE_SAMPLE_WEIGHT_IMAGE_QCOM
  | VK_DESCRIPTOR_TYPE_ACCELERATION_STRUCTURE_NV
  | VK_DESCRIPTOR_TYPE_MAX_ENUM.

#[export] Instance descriptor_type_eq_dec : EqDecision VkDescriptorType.
Proof. solve_decision. Defined.

Record VkDescriptorUpdateTemplateEntry := TemplateEntry {
  te_dstBinding : Z;
  te_dstArrayElement : Z;
  te_descriptorCount : Z;
  te_descriptorType : VkDescriptorType;
  te_offset : Z;
  te_stride : Z
}.

(** [VkDescriptorUpdateTemplateCreateInfo]; [ci_entries] is nothing for a null pointer *)
Record template_create_info := TemplateCreateInfo {
  ci_flags : Z;
  ci_entries : option (list VkDescriptorUpdateTemplateEntry);
  ci_templateType : Z
}.

(** [trackeddescriptorupdatetemplate] *)
Record update_template := UpdateTemplate {
  ut_type : Z;
  ut_flags : Z;
  ut_data_size : Z;
  ut_entries : list VkDescriptorUpdateTemplateEntry
}.

Definition sizeof_VkDescriptorImageInfo : nat := 24.   (** a sampler, a view and a layout *)
Definition sizeof_VkDescriptorBufferInfo : nat := 24.  (** a buffer, an offset and a range *)
Definition sizeof_handle : nat := 8.

Definition descriptor_update_template_entry_size (type : VkDescriptorType) : outcome Z :=
  match type with
  | VK_DESCRIPTOR_TYPE_SAMPLER | VK_DESCRIPTOR_TYPE_COMBINED_IMAGE_SAMPLER | VK_DESCRIPTOR_TYPE_SAMPLED_IMAGE
  | VK_DESCRIPTOR_TYPE_STORAGE_IMAGE | VK_DESCRIPTOR_TYPE_INPUT_ATTACHMENT | VK_DESCRIPTOR_TYPE_BLOCK_MATCH_IMAGE_QCOM
  | VK_DESCRIPTOR_TYPE_SAMPLE_WEIGHT_IMAGE_QCOM => Ok (Z.of_nat sizeof_VkDescriptorImageInfo)
  | VK_DESCRIPTOR_TYPE_UNIFORM_TEXEL_BUFFER | VK_DESCRIPTOR_TYPE_STORAGE_TEXEL_BUFFER => Ok (Z.of_nat sizeof_handle)
  | VK_DESCRIPTOR_TYPE_UNIFORM_BUFFER | VK_DESCRIPTOR_TYPE_STORAGE_BUFFER | VK_DESCRIPTOR_TYPE_UNIFORM_BUFFER_DYNAMIC
  | VK_DESCRIPTOR_TYPE_STORAGE_BUFFER_DYNAMIC => Ok (Z.of_nat sizeof_VkDescriptorBufferInfo)
  | VK_DESCRIPTOR_TYPE_INLINE_UNIFORM_BLOCK => Ok 1
  | VK_DESCRIPTOR_TYPE_ACCELERATION_STRUCTURE_KHR | VK_DESCRIPTOR_TYPE_ACCELERATION_STRUCTURE_NV => Ok (Z.of_nat sizeof_handle)
  | _ => Fail AssertFailed
  end.

(** the stride of an entry whose elements have [element_size] bytes *)
Definition stride_of (e : VkDescriptorUpdateTemplateEntry) (element_size : Z) : Z :=
  if te_stride e =? 0 then element_size else te_stride e.

Definition entry_total (e : VkDescriptorUpdateTemplateEntry) (element_size : Z) : Z :=
  wrap64 (wrap64 (te_offset e + wrap64 (stride_of e element_size * wrap32 (te_descriptorCount e - 1))) + element_size).

Fixpoint data_size_from (es : list VkDescriptorUpdateTemplateEntry) (max_size : Z) : outcome Z :=
  match es with
  | [] => Ok max_size
  | e :: es =>
      let* element_size := descriptor_update_template_entry_size (te_descriptorType e) in
      if (element_size =? 0) || (te_descriptorCount e =? 0) then data_size_from es max_size
      else
        let total := entry_total e element_size in
        data_size_from es (if total >? max_size then total else max_size)
  end.

Definition descriptor_update_template_data_size (info : template_create_info) : outcome Z :=
  match ci_entries info with
  | None | Some [] => Ok 0
  | Some es => data_size_from es 0
  end.

(** of a call that succeeded, on the capture *)
Definition trace_post_vkCreateDescriptorUpdateTemplate (info : template_create_info) : outcome update_template :=
  let* size := descriptor_update_template_data_size info in
  Ok (UpdateTemplate (ci_templateType info) (ci_flags info) size (default [] (ci_entries info))).

(** and on the replay, where the size may be known from the metadata *)
Definition replay_callback_vkCreateDescriptorUpdateTemplate_common (info : template_create_info) (t : update_template)
    : outcome update_template :=
  let* computed_size := descriptor_update_template_data_size info in
  Ok (UpdateTemplate (ci_templateType info) (ci_flags info)
        (if negb (computed_size =? 0) || (ut_data_size t =? 0) then computed_size else ut_data_size t)
        (default [] (ci_entries info))).

(** ** Rewriting the handles of an update's bytes *)

(** the kinds of objects whose handles are in the bytes *)
Inductive handle_kind : Set :=
  | VkSampler | VkImageView | VkBuffer | VkBufferView | VkAccelerationStructureKHR | VkTensorViewARM.

#[export] Instance handle_kind_eq_dec : EqDecision handle_kind.
Proof. solve_decision. Defined.

Section Rewrite.
(** what becomes of a handle *)
Context (translate : handle_kind -> Z -> outcome Z).

(** a handle that is a field of a struct, or an element of its own *)
Definition rewrite_field (kind : handle_kind) (field : nat) (element : list byte) : outcome (list byte) :=
  let* handle := translate kind (le_decode (slice field sizeof_handle element)) in
  Ok (memcpy element field (le_encode 8 handle)).

Definition rewrite_image_info (type : VkDescriptorType) (info : list byte) : outcome (list byte) :=
  let* info :=
    if bool_decide (type = VK_DESCRIPTOR_TYPE_SAMPLER) || bool_decide (type = VK_DESCRIPTOR_TYPE_COMBINED_IMAGE_SAMPLER)
    then rewrite_field VkSampler 0 info else Ok info in
  if negb (bool_decide (type = VK_DESCRIPTOR_TYPE_SAMPLER)) then rewrite_field VkImageView 8 info else Ok info.

(** the loop over the elements of an entry: copy out, rewrite, copy back *)
Fixpoint rewrite_elements (element_size : nat) (rewrite : list byte -> outcome (list byte)) (base stride : Z) (i : Z) (count : nat)
    (data : list byte) : outcome (list byte) :=
  match count with
  | O => Ok data
  | S count =>
      let* element := load data (base + i * stride) element_size in
      let* element := rewrite element in
      let* data := store_bytes data (base + i * stride) element in
      rewrite_elements element_size rewrite base stride (i + 1) count data
  end.

Definition rewrite_entry_elements (e : VkDescriptorUpdateTemplateEntry) (element_size : nat) (rewrite : list byte -> outcome (list byte))
    (data : list byte) : outcome (list byte) :=
  rewrite_elements element_size rewrite (te_offset e) (stride_of e (Z.of_nat element_size)) 0 (Z.to_nat (te_descriptorCount e)) data.

Definition rewrite_entry (e : VkDescriptorUpdateTemplateEntry) (data : list byte) : outcome (list byte) :=
  if te_descriptorCount e =? 0 then Ok data
  else
    match te_descriptorType e with
    | VK_DESCRIPTOR_TYPE_SAMPLER | VK_DESCRIPTOR_TYPE_COMBINED_IMAGE_SAMPLER | VK_DESCRIPTOR_TYPE_SAMPLED_IMAGE
    | VK_DESCRIPTOR_TYPE_STORAGE_IMAGE | VK_DESCRIPTOR_TYPE_INPUT_ATTACHMENT =>
        rewrite_entry_elements e sizeof_VkDescriptorImageInfo (rewrite_image_info (te_descriptorType e)) data
    | VK_DESCRIPTOR_TYPE_UNIFORM_BUFFER | VK_DESCRIPTOR_TYPE_STORAGE_BUFFER | VK_DESCRIPTOR_TYPE_UNIFORM_BUFFER_DYNAMIC
    | VK_DESCRIPTOR_TYPE_STORAGE_BUFFER_DYNAMIC =>
        rewrite_entry_elements e sizeof_VkDescriptorBufferInfo (rewrite_field VkBuffer 0) data
    | VK_DESCRIPTOR_TYPE_UNIFORM_TEXEL_BUFFER | VK_DESCRIPTOR_TYPE_STORAGE_TEXEL_BUFFER =>
        rewrite_entry_elements e sizeof_handle (rewrite_field VkBufferView 0) data
    | VK_DESCRIPTOR_TYPE_ACCELERATION_STRUCTURE_KHR =>
        rewrite_entry_elements e sizeof_handle (rewrite_field VkAccelerationStructureKHR 0) data
    | VK_DESCRIPTOR_TYPE_INLINE_UNIFORM_BLOCK => Ok data
    | VK_DESCRIPTOR_TYPE_TENSOR_ARM => rewrite_entry_elements e sizeof_handle (rewrite_field VkTensorViewARM 0) data
    | _ => Fail AbortCall
    end.

Fixpoint rewrite_entries (es : list VkDescriptorUpdateTemplateEntry) (data : list byte) : outcome (list byte) :=
  match es with
  | [] => Ok data
  | e :: es => let* data := rewrite_entry e data in rewrite_entries es data
  end.
End Rewrite.

(** ** On the capture: objects become indices *)

Section Capture.
Context (records : handle_kind -> trace_remap).

Definition capture_handle_index (kind : handle_kind) (handle : Z) : outcome Z := index_or_null (records kind) handle.

(** of a template that the capture knows; the bytes are copied first *)
Definition capture_rewrite_template_data (template_data : option update_template) (pData : option (list byte)) (data_size : Z)
    : outcome (option (list byte)) :=
  match pData with
  | None => Ok None
  | Some data =>
      if data_size =? 0 then Ok (Some data)
      else
        match template_data with
        | None => Fail AbortCall
        | Some t =>
            let* _ := require (negb (bool_decide (ut_entries t = []))) AbortCall in
            let* backing := load data 0 (Z.to_nat data_size) in
            let* backing := rewrite_entries capture_handle_index (ut_entries t) backing in
            Ok (Some backing)
        end
  end.
End Capture.

(** ** On the replay: indices become objects *)

Section Replay.
Context (index_to : handle_kind -> replay_remap).

Definition replay_index_handle (kind : handle_kind) (stored : Z) : outcome Z :=
  let index := wrap32 stored in
  if index =? CONTAINER_NULL_VALUE then Ok 0 else remap_at (index_to kind) index.

Definition replay_rewrite_template_data (template_data : update_template) (pData : option (list byte)) : outcome (option (list byte)) :=
  match pData with
  | None => Ok None
  | Some data =>
      if bool_decide (ut_entries template_data = []) then Ok (Some data)
      else let* data := rewrite_entries replay_index_handle (ut_entries template_data) data in Ok (Some data)
  end.
End Replay.

(** ** The places of the handles *)

Record handle_field := HandleField { hf_kind : handle_kind; hf_at : Z }.

(** the handles of an element, by their offset in it *)
Definition type_fields (type : VkDescriptorType) : list (handle_kind * nat) :=
  match type with
  | VK_DESCRIPTOR_TYPE_SAMPLER => [(VkSampler, 0%nat)]
  | VK_DESCRIPTOR_TYPE_COMBINED_IMAGE_SAMPLER => [(VkSampler, 0%nat); (VkImageView, 8%nat)]
  | VK_DESCRIPTOR_TYPE_SAMPLED_IMAGE | VK_DESCRIPTOR_TYPE_STORAGE_IMAGE | VK_DESCRIPTOR_TYPE_INPUT_ATTACHMENT => [(VkImageView, 8%nat)]
  | VK_DESCRIPTOR_TYPE_UNIFORM_BUFFER | VK_DESCRIPTOR_TYPE_STORAGE_BUFFER | VK_DESCRIPTOR_TYPE_UNIFORM_BUFFER_DYNAMIC
  | VK_DESCRIPTOR_TYPE_STORAGE_BUFFER_DYNAMIC => [(VkBuffer, 0%nat)]
  | VK_DESCRIPTOR_TYPE_UNIFORM_TEXEL_BUFFER | VK_DESCRIPTOR_TYPE_STORAGE_TEXEL_BUFFER => [(VkBufferView, 0%nat)]
  | VK_DESCRIPTOR_TYPE_ACCELERATION_STRUCTURE_KHR => [(VkAccelerationStructureKHR, 0%nat)]
  | _ => []
  end.

(** the types that a template can have, with the size of their elements *)
Definition type_size (type : VkDescriptorType) : option nat :=
  match type with
  | VK_DESCRIPTOR_TYPE_SAMPLER | VK_DESCRIPTOR_TYPE_COMBINED_IMAGE_SAMPLER | VK_DESCRIPTOR_TYPE_SAMPLED_IMAGE
  | VK_DESCRIPTOR_TYPE_STORAGE_IMAGE | VK_DESCRIPTOR_TYPE_INPUT_ATTACHMENT | VK_DESCRIPTOR_TYPE_UNIFORM_BUFFER
  | VK_DESCRIPTOR_TYPE_STORAGE_BUFFER | VK_DESCRIPTOR_TYPE_UNIFORM_BUFFER_DYNAMIC | VK_DESCRIPTOR_TYPE_STORAGE_BUFFER_DYNAMIC => Some 24%nat
  | VK_DESCRIPTOR_TYPE_UNIFORM_TEXEL_BUFFER | VK_DESCRIPTOR_TYPE_STORAGE_TEXEL_BUFFER
  | VK_DESCRIPTOR_TYPE_ACCELERATION_STRUCTURE_KHR => Some 8%nat
  | VK_DESCRIPTOR_TYPE_INLINE_UNIFORM_BLOCK => Some 1%nat
  | _ => None
  end.

Definition fields_at (base : Z) (fs : list (handle_kind * nat)) : list handle_field :=
  map (fun f => HandleField f.1 (base + Z.of_nat f.2)) fs.

Fixpoint elements_fields (base stride i : Z) (count : nat) (fs : list (handle_kind * nat)) : list handle_field :=
  match count with
  | O => []
  | S count => fields_at (base + i * stride) fs ++ elements_fields base stride (i + 1) count fs
  end.

Definition entry_fields (e : VkDescriptorUpdateTemplateEntry) : list handle_field :=
  match type_size (te_descriptorType e) with
  | None => []
  | Some size => elements_fields (te_offset e) (stride_of e (Z.of_nat size)) 0 (Z.to_nat (te_descriptorCount e)) (type_fields (te_descriptorType e))
  end.

Definition template_fields (es : list VkDescriptorUpdateTemplateEntry) : list handle_field := concat (map entry_fields es).

(** ** Rewriting is a pass over the places *)

Section Passes.
Context (translate : handle_kind -> Z -> outcome Z).

Fixpoint rewrite_words (fs : list handle_field) (data : list byte) : outcome (list byte) :=
  match fs with
  | [] => Ok data
  | f :: fs =>
      let* h := translate (hf_kind f) (word_of data (hf_at f)) in
      rewrite_words fs (memcpy data (Z.to_nat (hf_at f)) (le_encode 8 h))
  end.

Fixpoint rewrite_fields (fs : list (handle_kind * nat)) (element : list byte) : outcome (list byte) :=
  match fs with
  | [] => Ok element
  | (kind, field) :: fs => let* element := rewrite_field translate kind field element in rewrite_fields fs element
  end.

Lemma rewrite_words_app fs gs data :
  rewrite_words (fs ++ gs) data = (let* data := rewrite_words fs data in rewrite_words gs data).
Proof.
  revert data. induction fs as [|f fs IH]; intros data; [done|]. cbn [app rewrite_words].
  destruct (translate _ _); [cbn [obind]; apply IH|done].
Qed.

Lemma rewrite_image_info_fields type info : Forall (fun f => f.1 <> VkBuffer) (type_fields type) -> type_size type = Some 24%nat ->
  rewrite_image_info translate type info = rewrite_fields (type_fields type) info.
Proof.
  intros Hb E. destruct type; try done; try (apply Forall_cons_1 in Hb as [Hb _]; done);
    unfold rewrite_image_info; repeat case_bool_decide; try done; cbn [type_fields rewrite_fields orb negb obind];
    repeat (destruct (rewrite_field translate _ _ _); cbn [obind]); done.
Qed.

Lemma length_rewrite_fields fs : forall element element', Forall (fun f => (f.2 + 8 <= length element)%nat) fs ->
  rewrite_fields fs element = Ok element' -> length element' = length element.
Proof.
  induction fs as [|[k f] fs IH]; intros element element' Hb E; cbn [rewrite_fields] in E; [by injection E as <-|].
  apply Forall_cons in Hb as [Hf Hb]. cbn [snd] in Hf. unfold rewrite_field in E. destruct (translate _ _) as [h|]; [|done]. cbn [obind] in E.
  assert (Hl : length (memcpy element f (le_encode 8 h)) = length element) by (apply length_memcpy; rewrite length_le_encode; lia).
  rewrite (IH _ _ ltac:(by rewrite Hl) E). exact Hl.
Qed.
Lemma slice_slice (data : list byte) b size f : (f + 8 <= size)%nat ->
  slice f 8 (slice b size data) = slice (b + f) 8 data.
Proof.
  intros Hf. apply list_eq. intros i. rewrite !slice_lookup. case_decide; [|done]. rewrite decide_True by lia. f_equal. lia.
Qed.

(** the rewritten element, put back, is the area with the element's words rewritten *)
Lemma rewrite_fields_words fs b size : forall data, (b + size <= length data)%nat -> Forall (fun f => (f.2 + 8 <= size)%nat) fs ->
  (let* element := rewrite_fields fs (slice b size data) in Ok (memcpy data b element)) =
  rewrite_words (fields_at (Z.of_nat b) fs) data.
Proof.
  induction fs as [|[k f] fs IH]; intros data Hl Hb; cbn [rewrite_fields fields_at map rewrite_words obind fst snd hf_at hf_kind].
  - f_equal. apply list_eq. intros i. assert (length (slice b size data) = size) by (rewrite length_slice; lia).
    rewrite memcpy_lookup by lia. case_decide; [|done]. rewrite slice_lookup, decide_True by lia. f_equal. lia.
  - apply Forall_cons in Hb as [Hf Hb]. cbn [snd] in Hf. unfold rewrite_field, word_of, sizeof_handle.
    rewrite slice_slice by done. replace (Z.to_nat (Z.of_nat b + Z.of_nat f)) with (b + f)%nat by lia.
    destruct (translate k _) as [h|]; [|done]. cbn [obind]. set (w := le_encode 8 h).
    assert (Hw : length w = 8%nat) by apply length_le_encode. set (data1 := memcpy data (b + f) w).
    assert (Hl1 : length data1 = length data) by (apply length_memcpy; lia).
    assert (Hls : length (slice b size data) = size) by (rewrite length_slice; lia).
    assert (Hls1 : length (slice b size data1) = size) by (rewrite length_slice; lia).
    replace (memcpy (slice b size data) f w) with (slice b size data1).
    2:{ apply list_eq. intros i. rewrite memcpy_lookup, !slice_lookup by lia. unfold data1. rewrite memcpy_lookup by lia.
        repeat case_decide; try lia; try done. f_equal. lia. }
    rewrite <- IH by (rewrite ?Hl1; done). destruct (rewrite_fields fs (slice b size data1)) as [element|] eqn:E; [|done].
    apply length_rewrite_fields in E; [|by rewrite Hls1]. cbn [obind]. f_equal. apply list_eq. intros i.
    rewrite !memcpy_lookup by lia. case_decide; [done|]. unfold data1. rewrite memcpy_lookup by lia. rewrite decide_False by lia. done.
Qed.

Lemma length_rewrite_words fs : forall data data', Forall (fun f => 0 <= hf_at f /\ hf_at f + 8 <= Z.of_nat (length data)) fs ->
  rewrite_words fs data = Ok data' -> length data' = length data.
Proof.
  induction fs as [|f fs IH]; intros data data' Hb E; cbn [rewrite_words] in E; [by injection E as <-|].
  apply Forall_cons in Hb as [Hf Hb]. destruct (translate _ _) as [h|]; [|done]. cbn [obind] in E.
  assert (Hl : length (memcpy data (Z.to_nat (hf_at f)) (le_encode 8 h)) = length data) by (apply length_memcpy; rewrite length_le_encode; lia).
  rewrite (IH _ _ ltac:(by rewrite Hl) E). exact Hl.
Qed.

(** an element of an entry, copied out, rewritten and copied back *)
Lemma rewrite_element_words fs rewrite position size data :
  (forall element, rewrite element = rewrite_fields fs element) -> Forall (fun f => (f.2 + 8 <= size)%nat) fs ->
  0 <= position -> position + Z.of_nat size <= Z.of_nat (length data) ->
  (let* element := load data position size in let* element := rewrite element in store_bytes data position element) =
  rewrite_words (fields_at position fs) data.
Proof.
  intros Hr Hb Hp Hl. rewrite load_ok by done. cbn [obind]. rewrite Hr.
  pose proof (rewrite_fields_words fs (Z.to_nat position) size data ltac:(lia) Hb) as Hw. rewrite Z2Nat.id in Hw by done. rewrite <- Hw.
  destruct (rewrite_fields fs _) as [element|] eqn:E; [|done]. apply length_rewrite_fields in E; [|rewrite length_slice; apply (Forall_impl _ _ _ Hb); lia].
  cbn [obind]. apply store_bytes_ok. rewrite E, length_slice. lia.
Qed.
Lemma elements_fields_inside base stride size fs count : forall i n, 0 <= base -> 0 <= stride -> 0 <= i ->
  Forall (fun f => (f.2 + 8 <= size)%nat) fs ->
  (count = 0%nat \/ base + (i + Z.of_nat count - 1) * stride + Z.of_nat size <= n) ->
  Forall (fun f => 0 <= hf_at f /\ hf_at f + 8 <= n) (elements_fields base stride i count fs).
Proof.
  induction count as [|count IH]; intros i n Hbase Hs Hi Hf Hn; cbn [elements_fields]; [constructor|].
  destruct Hn as [?|Hn]; [done|]. apply Forall_app. split.
  - unfold fields_at. apply Forall_map. apply (Forall_impl _ _ _ Hf). intros [k f] Hk. cbn [hf_at snd] in *. nia.
  - apply IH; try done; [lia|]. destruct count; [by left|right]. nia.
Qed.

Lemma rewrite_elements_words fs rewrite size base stride count : forall i data,
  (forall element, rewrite element = rewrite_fields fs element) -> Forall (fun f => (f.2 + 8 <= size)%nat) fs ->
  0 <= base -> 0 <= stride -> 0 <= i ->
  (count = 0%nat \/ base + (i + Z.of_nat count - 1) * stride + Z.of_nat size <= Z.of_nat (length data)) ->
  rewrite_elements size rewrite base stride i count data = rewrite_words (elements_fields base stride i count fs) data.
Proof.
  induction count as [|count IH]; intros i data Hr Hf Hbase Hs Hi Hn; cbn [rewrite_elements elements_fields]; [done|].
  destruct Hn as [?|Hn]; [done|]. rewrite rewrite_words_app.
  assert (Hp : base + i * stride + Z.of_nat size <= Z.of_nat (length data)) by nia.
  rewrite <- (rewrite_element_words fs rewrite (base + i * stride) size data Hr Hf ltac:(nia) Hp).
  pose proof (rewrite_element_words fs rewrite (base + i * stride) size data Hr Hf ltac:(nia) Hp) as He.
  destruct (load data _ size) as [element|]; [|done]. cbn [obind] in *. destruct (rewrite element) as [element'|]; [|done]. cbn [obind] in *.
  destruct (store_bytes data _ element') as [data1|] eqn:E1; [|done]. cbn [obind]. symmetry in He. apply length_rewrite_words in He.
  - apply IH; try done; [lia|]. rewrite He. destruct count; [by left|right]. lia.
  - unfold fields_at. apply Forall_map. apply (Forall_impl _ _ _ Hf). intros [k f] Hk. cbn [hf_at snd] in *. nia.
Qed.

(** the elements of the entry lie in [n] bytes *)
Definition entry_inside (n : Z) (e : VkDescriptorUpdateTemplateEntry) : Prop :=
  0 <= te_offset e /\ 0 <= te_stride e /\ 0 <= te_descriptorCount e /\
  exists size, type_size (te_descriptorType e) = Some size /\
    (te_descriptorCount e = 0 \/ te_offset e + (te_descriptorCount e - 1) * stride_of e (Z.of_nat size) + Z.of_nat size <= n).

Lemma type_fields_inside type size : type_size type = Some size -> Forall (fun f => (f.2 + 8 <= size)%nat) (type_fields type).
Proof. destruct type; intros [= <-]; repeat constructor; cbn; lia. Qed.

Lemma stride_nonneg e size : 0 <= te_stride e -> 0 <= size -> 0 <= stride_of e size.
Proof. intros ? ?. unfold stride_of. destruct (te_stride e =? 0); done. Qed.

Lemma entry_fields_inside n e : entry_inside n e -> Forall (fun f => 0 <= hf_at f /\ hf_at f + 8 <= n) (entry_fields e).
Proof.
  intros (Ho & Hs & Hc & size & E & Hn). unfold entry_fields. rewrite E.
  apply (elements_fields_inside _ _ size); try done; [apply stride_nonneg; lia|by apply type_fields_inside|].
  destruct Hn as [->|Hn]; [by left|]. right. rewrite Z2Nat.id, Z.add_0_l by done. lia.
Qed.

Lemma elements_fields_nil base stride count : forall i, elements_fields base stride i count [] = [].
Proof. induction count as [|count IH]; intros i; [done|]. apply IH. Qed.

Lemma rewrite_entry_words e data : entry_inside (Z.of_nat (length data)) e ->
  rewrite_entry translate e data = rewrite_words (entry_fields e) data.
Proof.
  intros (Ho & Hs & Hc & size & E & Hn). unfold rewrite_entry, entry_fields. rewrite E.
  destruct (te_descriptorCount e =? 0) eqn:E0; [apply Z.eqb_eq in E0; by rewrite E0|]. apply Z.eqb_neq in E0. destruct Hn as [?|Hn]; [done|].
  pose proof (type_fields_inside _ _ E) as Hf.
  assert (Hall : forall rewrite, (forall element, rewrite element = rewrite_fields (type_fields (te_descriptorType e)) element) ->
    rewrite_entry_elements e size rewrite data =
    rewrite_words (elements_fields (te_offset e) (stride_of e (Z.of_nat size)) 0 (Z.to_nat (te_descriptorCount e)) (type_fields (te_descriptorType e))) data).
  { intros rewrite Hr. unfold rewrite_entry_elements. apply rewrite_elements_words; try done; [apply stride_nonneg; lia|]. right. rewrite Z2Nat.id, Z.add_0_l by done. lia. }
  destruct (te_descriptorType e) eqn:Et; try discriminate E; injection E as <-;
    try (apply Hall; intros element; first [apply rewrite_image_info_fields; [by repeat constructor|done]
      |cbn [type_fields rewrite_fields]; by destruct (rewrite_field _ _ _ _)]).
  cbn [type_fields]. by rewrite elements_fields_nil.
Qed.

Lemma rewrite_entries_words es : forall data, Forall (entry_inside (Z.of_nat (length data))) es ->
  rewrite_entries translate es data = rewrite_words (template_fields es) data.
Proof.
  induction es as [|e es IH]; intros data Hb; [done|]. apply Forall_cons in Hb as [He Hb].
  cbn [rewrite_entries]. unfold template_fields. cbn [map concat]. rewrite rewrite_words_app, rewrite_entry_words by done.
  destruct (rewrite_words (entry_fields e) data) as [data1|] eqn:E1; [|done]. cbn [obind]. apply IH.
  apply length_rewrite_words in E1; [by rewrite E1|]. by apply entry_fields_inside.
Qed.

(** every word becomes what [translate] makes of it *)
Lemma rewrite_words_ok g fs : forall data, ForallOrdPairs (apart hf_at) fs ->
  Forall (fun f => 0 <= hf_at f /\ hf_at f + 8 <= Z.of_nat (length data)) fs ->
  Forall (fun f => translate (hf_kind f) (word_of data (hf_at f)) = Ok (g f (word_of data (hf_at f))) /\ u64 (g f (word_of data (hf_at f)))) fs ->
  exists data', rewrite_words fs data = Ok data' /\ words_mapped hf_at g fs data data'.
Proof.
  induction fs as [|f fs IH]; intros data Hap Hin Hg; [exists data; split; [done|apply words_mapped_nil]|].
  inversion Hap as [|? ? Hap1 Hap2]; subst. apply Forall_cons in Hin as [Hf Hin]. apply Forall_cons in Hg as [[Ht Hu] Hg].
  cbn [rewrite_words]. rewrite Ht. cbn [obind]. set (w := g f _) in *.
  assert (Hw : length (le_encode 8 w) = 8%nat) by apply length_le_encode.
  assert (Hl : length (memcpy data (Z.to_nat (hf_at f)) (le_encode 8 w)) = length data) by (apply length_memcpy; lia).
  destruct (IH (memcpy data (Z.to_nat (hf_at f)) (le_encode 8 w)) Hap2) as (data' & E & Hm); [by rewrite Hl| |].
  - rewrite Forall_forall in Hg, Hap1, Hin |- *. intros x Hx.
    rewrite <- (word_of_agree data); [by apply Hg|]. intros i Hi. rewrite memcpy_lookup by lia.
    specialize (Hap1 x Hx). specialize (Hin x Hx). unfold apart in Hap1. rewrite decide_False by lia. done.
  - exists data'. split; [done|]. apply (words_mapped_store _ _ _ _ _ _ w); try done; try lia.
    apply (Forall_impl _ _ _ Hin). lia.
Qed.
End Passes.

(** ** The size of a template's data *)

(** an entry of a type that can be updated, whose elements end below 2^64 *)
Definition entry_valid (e : VkDescriptorUpdateTemplateEntry) : Prop :=
  0 <= te_offset e /\ 0 <= te_stride e /\ u32 (te_descriptorCount e) /\
  exists size, type_size (te_descriptorType e) = Some size /\
    te_offset e + stride_of e (Z.of_nat size) * te_descriptorCount e + Z.of_nat size <= UINT64_MAX.

Lemma type_size_entry_size type size : type_size type = Some size ->
  descriptor_update_template_entry_size type = Ok (Z.of_nat size) /\ Z.of_nat size <> 0.
Proof. destruct type; intros [= <-]; done. Qed.

Lemma entry_total_exact e size : 0 <= te_offset e -> 0 <= te_stride e -> u32 (te_descriptorCount e) -> te_descriptorCount e <> 0 ->
  0 <= size -> te_offset e + stride_of e size * te_descriptorCount e + size <= UINT64_MAX ->
  entry_total e size = te_offset e + (te_descriptorCount e - 1) * stride_of e size + size.
Proof.
  intros Ho Hs Hc H0 Hz Hn. pose proof (stride_nonneg e size Hs Hz) as Hst. unfold entry_total.
  rewrite (wrap32_small (te_descriptorCount e - 1)) by u_lia. rewrite (Z.mul_comm (stride_of e size)).
  assert (0 <= (te_descriptorCount e - 1) * stride_of e size <= stride_of e size * te_descriptorCount e) by (unfold u32 in Hc; nia).
  rewrite (wrap64_small ((te_descriptorCount e - 1) * _)) by (unfold u64; lia).
  rewrite (wrap64_small (te_offset e + _)) by (unfold u64; lia). apply wrap64_small. unfold u64. lia.
Qed.

Lemma entry_inside_more n m e : n <= m -> entry_inside n e -> entry_inside m e.
Proof.
  intros Hl (H1 & H2 & H3 & size & E & Hn). do 3 (split; [done|]). exists size. split; [done|]. destruct Hn; [by left|right; lia].
Qed.

Lemma data_size_inside es : forall m, Forall entry_valid es ->
  exists n, data_size_from es m = Ok n /\ m <= n /\ Forall (entry_inside n) es.
Proof.
  induction es as [|e es IH]; intros m Hv; cbn [data_size_from]; [exists m; split; [done|]; split; [lia|constructor]|].
  apply Forall_cons in Hv as [(Ho & Hs & Hc & size & E & Hn) Hv]. destruct (type_size_entry_size _ _ E) as [-> H0]. cbn [obind].
  rewrite (proj2 (Z.eqb_neq (Z.of_nat size) 0)) by done. cbn [orb].
  destruct (te_descriptorCount e =? 0) eqn:Ec.
  - apply Z.eqb_eq in Ec. destruct (IH m Hv) as (n & E1 & Hm & Hi). exists n. split; [done|]. split; [done|].
    constructor; [|done]. split; [done|]. split; [done|]. split; [lia|]. exists size. split; [done|]. by left.
  - apply Z.eqb_neq in Ec. rewrite entry_total_exact by (done || lia).
    destruct (IH (if te_offset e + (te_descriptorCount e - 1) * stride_of e (Z.of_nat size) + Z.of_nat size >? m
      then te_offset e + (te_descriptorCount e - 1) * stride_of e (Z.of_nat size) + Z.of_nat size else m) Hv) as (n & E1 & Hm & Hi).
    exists n. split; [done|]. rewrite Z.gtb_ltb in Hm. destruct (Z.ltb_spec m (te_offset e + (te_descriptorCount e - 1) * stride_of e (Z.of_nat size) + Z.of_nat size)).
    all: split; [lia|]; constructor; [|done]; split; [done|]; split; [done|]; split; [by destruct Hc|];
      exists size; split; [done|]; right; lia.
Qed.

Lemma template_size info es : ci_entries info = Some es -> Forall entry_valid es ->
  exists n, descriptor_update_template_data_size info = Ok n /\ 0 <= n /\ Forall (entry_inside n) es.
Proof.
  intros E Hv. unfold descriptor_update_template_data_size. rewrite E. destruct es as [|e es]; [by exists 0|]. by apply data_size_inside.
Qed.

Lemma template_fields_inside n es : Forall (entry_inside n) es ->
  Forall (fun f => 0 <= hf_at f /\ hf_at f + 8 <= n) (template_fields es).
Proof.
  intros Hi. unfold template_fields. induction Hi as [|e es He Hi IH]; [constructor|]. cbn [map concat]. apply Forall_app.
  split; [by apply entry_fields_inside|done].
Qed.

(** ** From the capture's handles to those of the replay *)

Section Roundtrip.
Context (records : handle_kind -> trace_remap) (index_to : handle_kind -> replay_remap).

(** the handle of the replay for the object of a handle of the capture *)
Definition replayed_handle (kind : handle_kind) (handle : Z) : outcome Z :=
  let* index := index_or_null (records kind) handle in remap_at (index_to kind) index.

(** the object is known on both sides *)
Definition known_handle (kind : handle_kind) (handle : Z) : Prop :=
  exists index handle', index_or_null (records kind) handle = Ok index /\ u32 index /\
    remap_at (index_to kind) index = Ok handle' /\ u64 handle'.

Lemma replay_index_handle_at kind index : u32 index -> replay_index_handle index_to kind index = remap_at (index_to kind) index.
Proof.
  intros Hu. unfold replay_index_handle. rewrite wrap32_small by done. unfold remap_at.
  by destruct (index =? CONTAINER_NULL_VALUE).
Qed.

Definition value_of (m : outcome Z) : Z := match m with Ok z => z | Fail _ => 0 end.

(** both passes over the same places *)
Lemma rewrite_words_roundtrip fs data : ForallOrdPairs (apart hf_at) fs ->
  Forall (fun f => 0 <= hf_at f /\ hf_at f + 8 <= Z.of_nat (length data)) fs ->
  Forall (fun f => known_handle (hf_kind f) (word_of data (hf_at f))) fs ->
  exists stored restored, rewrite_words (capture_handle_index records) fs data = Ok stored /\
    rewrite_words (replay_index_handle index_to) fs stored = Ok restored /\
    length stored = length data /\ length restored = length data /\
    Forall (fun f => replayed_handle (hf_kind f) (word_of data (hf_at f)) = Ok (word_of restored (hf_at f))) fs /\
    forall i, Forall (fun f => ~ in_word hf_at i f) fs -> restored !! i = data !! i.
Proof.
  intros Hap Hin Hk. rewrite Forall_forall in Hk.
  destruct (rewrite_words_ok (capture_handle_index records) (fun f w => value_of (capture_handle_index records (hf_kind f) w)) fs data Hap Hin)
    as (stored & E1 & L1 & W1 & K1).
  { apply Forall_forall. intros f Hf. destruct (Hk f Hf) as (i & h & Ei & Hi & _). unfold capture_handle_index. rewrite Ei. split; [done|]. cbn [value_of]. u_lia. }
  assert (Hst : forall f, f ∈ fs -> replayed_handle (hf_kind f) (word_of data (hf_at f)) =
    Ok (value_of (replay_index_handle index_to (hf_kind f) (word_of stored (hf_at f)))) /\
    replay_index_handle index_to (hf_kind f) (word_of stored (hf_at f)) =
      Ok (value_of (replay_index_handle index_to (hf_kind f) (word_of stored (hf_at f)))) /\
    u64 (value_of (replay_index_handle index_to (hf_kind f) (word_of stored (hf_at f))))).
  { intros f Hf. rewrite Forall_forall in W1. rewrite (W1 f Hf). destruct (Hk f Hf) as (i & h & Ei & Hi & Eh & Hh).
    unfold replayed_handle, capture_handle_index. rewrite Ei. cbn [value_of obind]. rewrite replay_index_handle_at by done. by rewrite Eh. }
  destruct (rewrite_words_ok (replay_index_handle index_to) (fun f w => value_of (replay_index_handle index_to (hf_kind f) w)) fs stored Hap)
    as (restored & E2 & L2 & W2 & K2).
  { by rewrite L1. }
  { apply Forall_forall. intros f Hf. by apply Hst. }
  exists stored, restored. do 2 (split; [done|]). split; [done|]. split; [by rewrite L2|]. split.
  - rewrite Forall_forall in W2 |- *. intros f Hf. rewrite (W2 f Hf). by apply Hst.
  - intros i Hi. by rewrite K2, K1.
Qed.
End Roundtrip.

(** ** Properties *)

(** C18: the bytes of an update through a template come back on the replay with every
    handle replaced by the replay's handle of the same object, null kept null, and
    every other byte of them unchanged: the size that the template was created
    with covers all its elements, so nothing outside of it is read or written, and
    the place of a handle holds the object's index in between. No two handles may
    share bytes. *)
Theorem template_data_roundtrip (records : handle_kind -> trace_remap) (index_to : handle_kind -> replay_remap)
    (info : template_create_info) (es : list VkDescriptorUpdateTemplateEntry) (old t t' : update_template) (data : list byte)
    (Hinfo : ci_entries info = Some es) (Hvalid : Forall entry_valid es)
    (Hcapture : trace_post_vkCreateDescriptorUpdateTemplate info = Ok t)
    (Hreplay : replay_callback_vkCreateDescriptorUpdateTemplate_common info old = Ok t')
    (Hdata : 0 < ut_data_size t <= Z.of_nat (length data))
    (Hapart : ForallOrdPairs (apart hf_at) (template_fields es))
    (Hknown : Forall (fun f => known_handle records index_to (hf_kind f) (word_of data (hf_at f))) (template_fields es)) :
  exists stored restored,
    capture_rewrite_template_data records (Some t) (Some data) (ut_data_size t) = Ok (Some stored) /\
    replay_rewrite_template_data index_to t' (Some stored) = Ok (Some restored) /\
    Z.of_nat (length stored) = ut_data_size t /\ Z.of_nat (length restored) = ut_data_size t /\
    Forall (fun f => replayed_handle records index_to (hf_kind f) (word_of data (hf_at f)) = Ok (word_of restored (hf_at f))) (template_fields es) /\
    forall i, Z.of_nat i < ut_data_size t -> Forall (fun f => ~ in_word hf_at i f) (template_fields es) -> restored !! i = data !! i.
Proof.
  destruct (template_size info es Hinfo Hvalid) as (n & En & Hn & Hin).
  unfold trace_post_vkCreateDescriptorUpdateTemplate in Hcapture. rewrite En, Hinfo in Hcapture. injection Hcapture as <-.
  unfold replay_callback_vkCreateDescriptorUpdateTemplate_common in Hreplay. rewrite En, Hinfo in Hreplay. injection Hreplay as <-.
  cbn [ut_data_size default] in *. set (area := slice 0 (Z.to_nat n) data).
  assert (Hl : length area = Z.to_nat n) by (unfold area; rewrite length_slice; lia).
  assert (Hsame : forall f, 0 <= hf_at f /\ hf_at f + 8 <= n -> word_of area (hf_at f) = word_of data (hf_at f)).
  { intros f Hf. unfold word_of, area. by rewrite slice_slice by lia. }
  pose proof (template_fields_inside n es Hin) as Hfs.
  assert (Hne : es <> []) by (intros ->; unfold descriptor_update_template_data_size in En; rewrite Hinfo in En; injection En as <-; lia).
  destruct (rewrite_words_roundtrip records index_to (template_fields es) area Hapart) as (stored & restored & E1 & E2 & L1 & L2 & W & K).
  { apply (Forall_impl _ _ _ Hfs). intros f Hf. lia. }
  { rewrite Forall_forall in Hknown, Hfs |- *. intros f Hf. rewrite Hsame by auto. by apply Hknown. }
  assert (Hin1 : Forall (entry_inside (Z.of_nat (length area))) es) by (apply (Forall_impl _ _ _ Hin); intros e; apply entry_inside_more; lia).
  exists stored, restored. unfold capture_rewrite_template_data, replay_rewrite_template_data. cbn [ut_entries].
  rewrite (proj2 (Z.eqb_neq n 0)) by lia. rewrite !bool_decide_eq_false_2 by done. cbn [negb require obind].
  rewrite load_ok by lia. change (Z.to_nat 0) with 0%nat. fold area. cbn [obind].
  rewrite rewrite_entries_words by done. rewrite E1. cbn [obind]. rewrite rewrite_entries_words by (by rewrite L1). rewrite E2. cbn [obind].
  do 2 (split; [done|]). split; [lia|]. split; [lia|]. split.
  - rewrite Forall_forall in W, Hfs |- *. intros f Hf. rewrite <- Hsame by auto. by apply W.
  - intros i Hi Hno. rewrite (K i Hno). unfold area. rewrite slice_lookup, decide_True by lia. done.
Qed.

(** ** An update of an image with a sampler, a buffer and an inline block *)

Definition demo_template_remap (handle index : Z) : trace_remap :=
  match trace_remap_add handle (ChangeSource 0 0 0 0 0) index new_trace_remap with Ok (_, r) => r | Fail _ => new_trace_remap end.
Definition demo_template_records (kind : handle_kind) : trace_remap :=
  match kind with
  | VkSampler => demo_template_remap 700 2
  | VkImageView => demo_template_remap 800 5
  | VkBuffer => demo_template_remap 900 1
  | _ => new_trace_remap
  end.
Definition demo_index_to (kind : handle_kind) : replay_remap :=
  match kind with
  | VkSampler => store_remap 2 71 (remap_resize 8 (remap_clear (ReplayRemap [] ∅)))
  | VkImageView => store_remap 5 81 (remap_resize 8 (ReplayRemap [] ∅))
  | VkBuffer => store_remap 1 91 (remap_resize 8 (ReplayRemap [] ∅))
  | _ => ReplayRemap [] ∅
  end.
Definition demo_entries : list VkDescriptorUpdateTemplateEntry :=
  [TemplateEntry 0 0 1 VK_DESCRIPTOR_TYPE_COMBINED_IMAGE_SAMPLER 0 0;
   TemplateEntry 1 0 2 VK_DESCRIPTOR_TYPE_UNIFORM_BUFFER 24 32;
   TemplateEntry 2 0 4 VK_DESCRIPTOR_TYPE_INLINE_UNIFORM_BLOCK 48 0].
Definition demo_template_info : template_create_info := TemplateCreateInfo 0 (Some demo_entries) 0.
Definition demo_template (size : Z) : update_template := UpdateTemplate 0 0 size demo_entries.
Definition demo_template_data (sampler view buffer buffer2 : Z) : list byte :=
  le_encode 8 sampler ++ le_encode 8 view ++ le_encode 8 7 ++ le_encode 8 buffer ++ le_encode 8 16 ++ le_encode 8 32 ++
  le_encode 8 305419896 ++ le_encode 8 buffer2 ++ le_encode 8 0 ++ le_encode 8 64.

Example demo_template_replayed :
  (let* stored := capture_rewrite_template_data demo_template_records (Some (demo_template 80)) (Some (demo_template_data 700 800 900 0)) 80 in
   replay_rewrite_template_data demo_index_to (demo_template 80) stored) = Ok (Some (demo_template_data 71 81 91 0)).
Proof. vm_compute. reflexivity. Qed.

(** two entries over the same bytes: what the first made an index, the second takes for a handle *)
Example shared_bytes_rewritten_twice :
  rewrite_entries (capture_handle_index demo_template_records)
    [TemplateEntry 0 0 1 VK_DESCRIPTOR_TYPE_UNIFORM_BUFFER 0 0; TemplateEntry 1 0 1 VK_DESCRIPTOR_TYPE_UNIFORM_BUFFER 0 0]
    (le_encode 8 900 ++ le_encode 8 0 ++ le_encode 8 64) = Fail OutOfRange.
Proof. vm_compute. reflexivity. Qed.

(** a template with a tensor has no size *)
Example tensor_has_no_size :
  descriptor_update_template_data_size (TemplateCreateInfo 0 (Some [TemplateEntry 0 0 1 VK_DESCRIPTOR_TYPE_TENSOR_ARM 0 0]) 0) = Fail AssertFailed.
Proof. reflexivity. Qed.

Lemma demo_entries_valid : Forall entry_valid demo_entries.
Proof.
  repeat (apply Forall_cons; split; [unfold entry_valid; split; [by vm_compute|]; split; [by vm_compute|]; split; [by vm_compute|]|]);
    [exists 24%nat|exists 24%nat|exists 1%nat|constructor]; (split; [reflexivity|by vm_compute]).
Qed.

Lemma demo_fields_apart : ForallOrdPairs (apart hf_at) (template_fields demo_entries).
Proof. repeat constructor; unfold apart; cbn; lia. Qed.

Lemma template_data_roundtrip_witness :
  exists stored restored,
    capture_rewrite_template_data demo_template_records (Some (demo_template 80)) (Some (demo_template_data 700 800 900 0)) 80 = Ok (Some stored) /\
    replay_rewrite_template_data demo_index_to (demo_template 80) (Some stored) = Ok (Some restored) /\
    Forall (fun f => replayed_handle demo_template_records demo_index_to (hf_kind f) (word_of (demo_template_data 700 800 900 0) (hf_at f)) =
      Ok (word_of restored (hf_at f))) (template_fields demo_entries).
Proof.
  destruct (template_data_roundtrip demo_template_records demo_index_to demo_template_info demo_entries (UpdateTemplate 0 0 0 [])
    (demo_template 80) (demo_template 80) (demo_template_data 700 800 900 0)) as (stored & restored & E1 & E2 & _ & _ & W & _).
  - reflexivity.
  - exact demo_entries_valid.
  - vm_compute. reflexivity.
  - vm_compute. reflexivity.
  - by vm_compute.
  - exact demo_fields_apart.
  - repeat (apply Forall_cons; split); [exists 2, 71|exists 5, 81|exists 1, 91|exists CONTAINER_NULL_VALUE, 0|constructor];
      (split; [vm_compute; reflexivity|]; split; [by vm_compute|]; split; [vm_compute; reflexivity|by vm_compute]).
  - exists stored, restored. split; [exact E1|]. split; [exact E2|exact W].
Defined.
