(* ===== verification/Updates.v ===== *)
(** * Object updates (src/hardcode_write.cpp, src/hardcode_read.cpp)

    A packet that carries the changed bytes of one buffer, image or tensor: the
    handles of the device and the object, the size of the rest, which is only known
    and stored at the end, the flags, the markings if there are any, and the diff.
    The replay finds the object's memory, clears it if it was never written, and
    applies the diff. *)

From Stdlib Require Import ZArith Lia Bool.
From Stdlib.Strings Require Import Byte.
From stdpp Require Import base numbers list gmap.
From S2P Require Import Prelude Stream RangeTracking Patch Memory FileWriter FileReader RandomAccess Packets Containers Markings Translate.

#[local] Open Scope Z_scope.

Definition PACKET_IMAGE_UPDATE : Z := 4.
Definition PACKET_BUFFER_UPDATE : Z := 5.
Definition PACKET_TENSOR_UPDATE : Z := 7.
Definition PACKET_IMAGE_UPDATE2 : Z := 8.
Definition PACKET_BUFFER_UPDATE2 : Z := 9.
Definition PACKET_FLAG_HAS_PNEXT : Z := 1.

(** The fields of a [trackedobject] that the capture of its memory uses. *)
Record hostobject := HostObject {
  h_base : trackable;
  h_type : VkObjectType;
  h_device : Z;                        (** [parent_device_index] *)
  h_backing : option nat;              (** the device memory it is bound to *)
  h_offset : Z;
  h_size : Z;
  h_accessible : bool;
  h_device_address : Z;
  h_alias : option (VkObjectType * Z);
  h_written : Z;
  h_updates : Z
}.

Definition count_update (o : hostobject) (written : Z) : hostobject :=
  HostObject (h_base o) (h_type o) (h_device o) (h_backing o) (h_offset o) (h_size o) (h_accessible o)
    (h_device_address o) (h_alias o) (wrap64 (h_written o + written)) (wrap32 (h_updates o + 1)).

(** ** Writing *)

Section Write.
Context {S : Type} `{PacketSink S} `{MarkingHeader}.
(** the generated writer of extension structures *)
Context (write_extension : VkMarkedOffsetsARM -> S -> outcome S).
(** the buffers and acceleration structures that post-processing knows *)
Context (buffers : list (option address_buffer)) (structures : list (option (Z * Z))).

Definition update_type (t : VkObjectType) : outcome Z :=
  match t with
  | VK_OBJECT_TYPE_IMAGE => Ok PACKET_IMAGE_UPDATE2
  | VK_OBJECT_TYPE_BUFFER => Ok PACKET_BUFFER_UPDATE2
  | VK_OBJECT_TYPE_TENSOR_ARM => Ok PACKET_TENSOR_UPDATE
  | _ => Fail AssertFailed
  end.

(** returns the place of the size and where the payload starts *)
Definition begin_object_update_packet (device : trackable) (o : hostobject) (ar : option VkMarkedOffsetsARM)
    (w : lava_file_writer S) : outcome (place * Z * lava_file_writer S) :=
  let* type := update_type (h_type o) in
  let* w := begin_packet type w in
  let* w := writing (write_handle (Some device)) w in
  let* w := writing (write_handle (Some (h_base o))) w in
  let* (sizeptr, s) := write_later_uint64_t 0 (stream w) in
  let w := with_stream w s in
  let payload_start := position (stream w) in
  let flags := match ar with Some _ => PACKET_FLAG_HAS_PNEXT | None => 0 end in
  let* w := writing (write_uint16_t flags) w in
  let* w := match ar with Some m => writing (write_extension m) w | None => Ok w end in
  Ok (sizeptr, payload_start, w).

Definition end_object_update_packet (o : hostobject) (sizeptr : place) (payload_start written : Z)
    (w : lava_file_writer S) : outcome (hostobject * lava_file_writer S) :=
  let size := wrap64 (position (stream w) - payload_start) in
  let* s := store_at sizeptr (le_encode 8 size) (stream w) in
  let* w := end_packet (with_stream w s) in
  Ok (count_update o written, w).

Definition write_object_update_packet (device : trackable) (o : hostobject) (offset : Z) (data : list byte)
    (markings : option VkMarkedOffsetsARM) (w : lava_file_writer S) : outcome (Z * hostobject * lava_file_writer S) :=
  let size := Z.of_nat (length data) in
  let* _ := require (offset <=? h_size o) AssertFailed in
  let* _ := require (size <=? h_size o - offset) AssertFailed in
  if size =? 0 then Ok (0, o, w)
  else
    let* (pp, w) := begin_object_update_packet device o markings w in
    let '(sizeptr, payload_start) := pp in
    let* w := writing (write_memory_span data (Z.to_nat offset)) w in
    let* (o, w) := end_object_update_packet o sizeptr payload_start size w in
    Ok (size, o, w).

(** [clone] and [changed] are the memory from the start of the object on. Returns
    the bytes written, the clone brought up to date, the object and the writer. *)
Definition write_out_object (device : trackable) (o : hostobject) (clone changed : list byte) (offset size : Z)
    (ar : option VkMarkedOffsetsARM) (w : lava_file_writer S) : outcome (Z * list byte * hostobject * lava_file_writer S) :=
  let* changed :=
    match ar with
    | Some m =>
        if write_output w && (size >? 0) then reverse_translate_marked_payload buffers structures changed offset size m
        else Ok changed
    | None => Ok changed
    end in
  let patch_start := Z.of_nat (find_patch_start clone changed (Z.to_nat offset) (Z.to_nat size)) in
  if patch_start =? size then Ok (0, clone, o, w)
  else
    let offset := offset + patch_start in
    let size := size - patch_start in
    let* (pp, w) := begin_object_update_packet device o ar w in
    let '(sizeptr, payload_start) := pp in
    let* (res, s) := write_patch clone changed (Z.to_nat (wrap32 offset)) (Z.to_nat size) (stream w) in
    let '(written, clone) := res in
    let* (o, w) := end_object_update_packet o sizeptr payload_start written (with_stream w s) in
    Ok (written, clone, o, w).
End Write.

(** ** Replaying *)

(** The memory of an object as the suballocator hands it out: mapped at the
    object's start and as long as [loc.size]. *)
Record host_area := HostArea {
  a_bytes : list byte;
  a_initialized : bool               (** [needs_init] is not set *)
}.

(** the objects' memory by object type and index *)
Definition host_areas : Type := gmap (Z * Z) host_area.

Section Replay.
Context {R : Type} `{ByteSource R} `{MarkingHeader}.
(** the generated reader of extension structures *)
Context (read_extension : R -> outcome (VkMarkedOffsetsARM * R)).
Context (debug : bool).
Context (translate_buffer translate_structure : Z -> Z).
Context (pending : list descriptor_rewrite) (pipelines : list pipeline_handles).

(** [read_handle] without the wait for another thread *)
Definition read_handle_index (s : R) : outcome (Z * R) :=
  let* (index, s) := read_uint32_t s in
  let* (_, s) := read_int8_t s in
  let* (_, s) := read_uint32_t s in
  Ok (index, s).

Definition read_version2_packet (s : R) : outcome (Z * option VkMarkedOffsetsARM * R) :=
  let* (size, s) := read_uint64_t s in
  let* (flags, s) := read_uint16_t s in
  if negb (Z.land flags PACKET_FLAG_HAS_PNEXT =? 0) then
    let* (m, s) := read_extension s in Ok (size, Some m, s)
  else
    let* _ := require (flags =? 0) AssertFailed in Ok (size, None, s).

(** [mem_map], which clears memory that was never written *)
Definition mem_map (a : host_area) : list byte :=
  if a_initialized a then a_bytes a else repeat x00 (length (a_bytes a)).

(** the patch applied to an object's memory; returns the number of changed bytes *)
Definition patch_area (a : host_area) (s : R) : outcome (Z * list byte * R) :=
  let* (res, s) := read_patch (Some (mem_map a)) (Z.of_nat (length (a_bytes a))) s in
  match res.2 with
  | None => Fail NullPointer
  | Some bytes => Ok (res.1, bytes, s)
  end.

(** [image_update] and [tensor_update] of a replay, which take no markings *)
Definition plain_update (type : VkObjectType) (index : Z) (sptr : option VkMarkedOffsetsARM) (areas : host_areas) (s : R)
    : outcome (Z * host_areas * R) :=
  match areas !! (object_type_code type, index) with
  | None => Fail OutOfRange
  | Some a =>
      let* _ := require (match sptr with None => true | Some _ => false end) AssertFailed in
      let* (res, s) := patch_area a s in
      Ok (res.1, <[(object_type_code type, index) := HostArea res.2 true]> areas, s)
  end.

(** [buffer_update] of a replay *)
Definition buffer_update (index : Z) (sptr : option VkMarkedOffsetsARM) (areas : host_areas) (s : R)
    : outcome (Z * host_areas * R) :=
  let key := (object_type_code VK_OBJECT_TYPE_BUFFER, index) in
  match areas !! key with
  | None => Fail OutOfRange
  | Some a =>
      let* _ := require (match sptr with None => true | Some m => sType m =? VK_STRUCTURE_TYPE_MARKED_OFFSETS_ARM end) AssertFailed in
      let* (res, s) := patch_area a s in
      let '(changed, bytes) := res in
      let* bytes :=
        match sptr with
        | None => Ok bytes
        | Some m => translate_marked_offsets debug true translate_buffer translate_structure pending pipelines false m bytes
                      (Z.of_nat (length (a_bytes a)))
        end in
      Ok (changed, <[key := HostArea bytes true]> areas, s)
  end.

Definition update_image_packet (type : Z) (areas : host_areas) (s : R) : outcome (Z * host_areas * R) :=
  let* (_, s) := read_handle_index s in
  let* (index, s) := read_handle_index s in
  let* (head, s) := if type =? PACKET_IMAGE_UPDATE2 then read_version2_packet s else Ok (0, None, s) in
  let* (res, s) := plain_update VK_OBJECT_TYPE_IMAGE index head.2 areas s in
  Ok (index, res.2, s).

Definition update_buffer_packet (type : Z) (areas : host_areas) (s : R) : outcome (Z * host_areas * R) :=
  let* (_, s) := read_handle_index s in
  let* (index, s) := read_handle_index s in
  let* (head, s) := if type =? PACKET_BUFFER_UPDATE2 then read_version2_packet s else Ok (0, None, s) in
  let* (res, s) := buffer_update index head.2 areas s in
  Ok (index, res.2, s).

Definition update_tensor_packet (areas : host_areas) (s : R) : outcome (Z * host_areas * R) :=
  let* (_, s) := read_handle_index s in
  let* (index, s) := read_handle_index s in
  let* (head, s) := read_version2_packet s in
  let* (res, s) := plain_update VK_OBJECT_TYPE_TENSOR_ARM index head.2 areas s in
  Ok (index, res.2, s).

(** [switchboard_packet]; [other] stands for the packets that are not updates *)
Definition switchboard_update (other : Z -> host_areas -> R -> outcome (host_areas * R)) (type : Z) (areas : host_areas) (s : R)
    : outcome (host_areas * R) :=
  if (type =? PACKET_IMAGE_UPDATE) || (type =? PACKET_IMAGE_UPDATE2) then
    let* (res, s) := update_image_packet type areas s in Ok (res.2, s)
  else if (type =? PACKET_BUFFER_UPDATE) || (type =? PACKET_BUFFER_UPDATE2) then
    let* (res, s) := update_buffer_packet type areas s in Ok (res.2, s)
  else if type =? PACKET_TENSOR_UPDATE then
    let* (res, s) := update_tensor_packet areas s in Ok (res.2, s)
  else other type areas s.
End Replay.

(** ** What an update packet holds *)

Definition update_flags (ar : option VkMarkedOffsetsARM) : Z :=
  match ar with Some _ => PACKET_FLAG_HAS_PNEXT | None => 0 end.

(** the handles, the size of the rest, the flags, the extension and the patch *)
Definition update_body (device object : trackable) (ar : option VkMarkedOffsetsARM) (ext patch : list byte) : list byte :=
  (encode_handle (Some device) ++ encode_handle (Some object)) ++
  le_encode 8 (Z.of_nat (length (le_encode 2 (update_flags ar) ++ ext ++ patch))) ++
  le_encode 2 (update_flags ar) ++ ext ++ patch.

Lemma length_encode_handle t : length (encode_handle (Some t)) = 9%nat.
Proof. unfold encode_handle. by rewrite !length_app, !length_le_encode. Qed.

Section WriteProofs.
Context {S : Type} `{PacketSink S}.

(** bytes appended by anything that keeps the places of the stream *)
Definition framed_writer (wr : S -> outcome S) (bs : list byte) : Prop :=
  forall (F : S -> Prop) keep, emits (H := framed_sink F keep) wr bs.

Lemma framed_value n z : (n <= 8)%nat -> framed_writer (write_value n z) (le_encode n z).
Proof. intros Hn F keep. exact (@emits_value _ (framed_sink F keep) n z Hn). Qed.

Lemma framed_handle t : usable t = true -> framed_writer (write_handle t) (encode_handle t).
Proof. intros Hu F keep. exact (@emits_handle _ (framed_sink F keep) t Hu). Qed.

Lemma framed_ret : framed_writer (fun s => Ok s) [].
Proof. intros F keep. apply emits_ret. Qed.

Lemma framed_writes wr bs (F : S -> Prop) s :
  framed_writer wr bs -> (forall bs s s', sink_ok s -> F s -> emit bs s = Ok s' -> F s') -> sink_ok s -> F s ->
  exists s', wr s = Ok s' /\ sink_ok s' /\ F s' /\ written s' = written s ++ bs.
Proof.
  intros Hwr keep Hs HF. destruct (Hwr F keep s (conj Hs HF)) as (s' & E & [H1 H2] & H3). by exists s'.
Qed.

(** the delayed size of an update, which later writes keep *)
Definition holds_place (q : place) (k : nat) (w : lava_file_writer S) : Prop := refers (stream w) q 8 k.

Lemma writing_framed w done ty body wr bs q k :
  packet_inv w done (Some (ty, body)) -> framed_writer wr bs -> holds_place q k w ->
  exists w', writing wr w = Ok w' /\ packet_inv w' done (Some (ty, body ++ bs)) /\ holds_place q k w' /\ same_settings w w'.
Proof.
  intros Hi Hwr Hq. pose proof Hi as [I1 _ _ _ _ _ _].
  destruct (framed_writes wr bs (fun s => refers s q 8 k) (stream w) Hwr) as (s & E & _ & Hq' & _); try done.
  { intros bs' s s' Hs Hr E. by apply (refers_law bs' s s'). }
  destruct (writing_spec w done ty body wr bs Hi) as (w' & E' & Hi' & Hset).
  { intros p n. exact (Hwr (fun s => refers s p 4 n) (fun bs s s' Hs Hr => refers_law bs s s' p 4 n Hs Hr)). }
  exists w'. split; [done|]. split; [done|]. split; [|done].
  unfold writing in E'. rewrite E in E'. cbn [obind] in E'. injection E' as <-. exact Hq'.
Qed.

(** storing the size replaces the bytes of its place in the open packet *)
Lemma stored_inv w done ty a b c q bs :
  packet_inv w done (Some (ty, a ++ b ++ c)) -> length b = 8%nat -> length bs = 8%nat ->
  holds_place q (length (stream_of done) + 5 + length a) w ->
  exists s, store_at q bs (stream w) = Ok s /\ packet_inv (with_stream w s) done (Some (ty, a ++ bs ++ c)).
Proof.
  intros Hi Hb Hbs Hq. pose proof Hi as [I1 I2 I3 (I4 & I5 & pl & I6 & I7) I8 I9 I10].
  destruct (store_law (stream w) q 8 _ bs I1 Hq Hbs) as (s & E & Hs & Hw & Hk). exists s. split; [done|].
  split; simpl; try done.
  - rewrite Hw, I2. cbn [open_bytes fst snd].
    replace (stream_of done ++ le_encode 1 ty ++ le_encode 4 0 ++ a ++ b ++ c)
      with ((stream_of done ++ le_encode 1 ty ++ le_encode 4 0 ++ a) ++ b ++ c) by (by rewrite <- !app_assoc).
    replace (length (stream_of done) + 5 + length a)%nat
      with (length (stream_of done ++ le_encode 1 ty ++ le_encode 4 0 ++ a)) by (rewrite !length_app, !length_le_encode; lia).
    rewrite memcpy_size_field by lia. by rewrite <- !app_assoc.
  - split; [done|]. split; [done|]. exists pl. auto.
  - eapply Forall_impl; [exact I9|]. intros cp (j & Hj & Hp & Hs'). exists j. simpl in *.
    rewrite length_app in *. simpl in *. rewrite take_app_le in Hs' |- * by lia. done.
  - destruct (packet_checkpoints w); [|done]. by destruct done.
Qed.

Lemma packet_position w done ty body : packet_inv w done (Some (ty, body)) ->
  position (stream w) = wrap64 (Z.of_nat (length (stream_of done) + 5 + length body)).
Proof.
  intros Hi. rewrite (position_law _ (pi_ok _ _ _ Hi)), (pi_stream _ _ _ Hi). do 2 f_equal.
  cbn [open_bytes fst snd]. rewrite !length_app, !length_le_encode. lia.
Qed.

Lemma same_settings_trans (w1 w2 w3 : lava_file_writer S) : same_settings w1 w2 -> same_settings w2 w3 -> same_settings w1 w3.
Proof. unfold same_settings. intuition congruence. Qed.

Section Packet.
Context `{MarkingHeader}.
Context (write_extension : VkMarkedOffsetsARM -> S -> outcome S).

(** the extension appends [ext] *)
Definition extension_writes (ar : option VkMarkedOffsetsARM) (ext : list byte) : Prop :=
  match ar with Some m => framed_writer (write_extension m) ext | None => ext = [] end.

Definition update_handles (device : trackable) (o : hostobject) : list byte :=
  encode_handle (Some device) ++ encode_handle (Some (h_base o)).

Lemma begin_update_spec device o ar ext type w done open :
  packet_inv w done open -> fits (close done open) ->
  Z.of_nat (length (stream_of (close done open))) + 31 <= UINT64_MAX ->
  usable (Some device) = true -> usable (Some (h_base o)) = true -> update_type (h_type o) = Ok type ->
  extension_writes ar ext ->
  exists q w', begin_object_update_packet write_extension device o ar w =
      Ok (q, Z.of_nat (length (stream_of (close done open)) + 31), w') /\
    packet_inv w' (close done open) (Some (type, update_handles device o ++ le_encode 8 0 ++ le_encode 2 (update_flags ar) ++ ext)) /\
    holds_place q (length (stream_of (close done open)) + 23) w' /\ same_settings w w'.
Proof.
  intros Hi Hf Hmax Hd Ho Ht Hx. unfold begin_object_update_packet. rewrite Ht. cbn [obind].
  destruct (begin_packet_spec w done open type Hi Hf) as (w1 & E1 & Hi1 & S1). rewrite E1. cbn [obind]. clear E1.
  set (l := close done open) in *.
  assert (Hsize : forall t : trackable, usable (Some t) = true -> forall p n, emits (H := open_sink p n) (write_handle (Some t)) (encode_handle (Some t)))
    by (intros t Hu p n; exact (@emits_handle _ (open_sink p n) _ Hu)).
  destruct (writing_spec w1 l type [] _ _ Hi1 (Hsize device Hd)) as (w2 & E2 & Hi2 & S2). rewrite E2. cbn [obind]. clear E2.
  destruct (writing_spec w2 l type _ _ _ Hi2 (Hsize (h_base o) Ho)) as (w3 & E3 & Hi3 & S3). rewrite E3. cbn [obind]. clear E3.
  rewrite app_nil_l in Hi3. fold (update_handles device o) in Hi3.
  assert (Hlh : length (update_handles device o) = 18%nat) by (unfold update_handles; by rewrite length_app, !length_encode_handle).
  unfold write_later_uint64_t.
  destruct (later_law 8 0 (stream w3) (pi_ok _ _ _ Hi3)) as (q & s & E4 & Hs & Hw & Hq & Hk). rewrite E4. cbn [obind].
  assert (Hi4 : packet_inv (with_stream w3 s) l (Some (type, update_handles device o ++ le_encode 8 0))).
  { apply appended_inv; try done. intros pl n _ Hn. by apply Hk. }
  assert (Hq4 : holds_place q (length (stream_of l) + 23) (with_stream w3 s)).
  { unfold holds_place. simpl. rewrite (pi_stream _ _ _ Hi3) in Hq. cbn [open_bytes fst snd] in Hq.
    rewrite !length_app, !length_le_encode, Hlh in Hq.
    by replace (length (stream_of l) + 23)%nat with (length (stream_of l) + (1 + (4 + 18)))%nat by lia. }
  assert (Hpos : position (stream (with_stream w3 s)) = Z.of_nat (length (stream_of l) + 31)).
  { rewrite (packet_position _ _ _ _ Hi4), length_app, length_le_encode, Hlh.
    rewrite wrap64_small by u_lia. lia. }
  set (w4 := with_stream w3 s) in *.
  destruct (writing_framed w4 l type _ (write_uint16_t (update_flags ar)) _ q _ Hi4 (framed_value 2 (update_flags ar) ltac:(lia)) Hq4)
    as (w5 & E5 & Hi5 & Hq5 & S5). fold (update_flags ar). rewrite E5. cbn [obind]. clear E5.
  assert (S45 : same_settings w w5).
  { eapply same_settings_trans; [exact S1|]. eapply same_settings_trans; [exact S2|].
    eapply same_settings_trans; [exact S3|]. exact S5. }
  rewrite Hpos. destruct ar as [m|].
  - destruct (writing_framed w5 l type _ (write_extension m) ext q _ Hi5 Hx Hq5) as (w6 & E6 & Hi6 & Hq6 & S6).
    rewrite E6. cbn [obind]. exists q, w6. split; [done|]. rewrite <- !app_assoc in Hi6.
    split; [done|]. split; [done|]. by eapply same_settings_trans.
  - cbn [extension_writes] in Hx. subst ext. exists q, w5. split; [done|]. rewrite app_nil_r, <- app_assoc in *. done.
Qed.

Lemma end_update_spec o q written type a rest w l :
  packet_inv w l (Some (type, a ++ le_encode 8 0 ++ rest)) -> length a = 18%nat ->
  holds_place q (length (stream_of l) + 23) w ->
  fits (l ++ [(type, a ++ le_encode 8 (Z.of_nat (length rest)) ++ rest)]) ->
  exists w', end_object_update_packet o q (Z.of_nat (length (stream_of l) + 31)) written w = Ok (count_update o written, w') /\
    packet_inv w' (l ++ [(type, a ++ le_encode 8 (Z.of_nat (length rest)) ++ rest)]) None /\ same_settings w w'.
Proof.
  intros Hi Ha Hq Hf. unfold end_object_update_packet.
  assert (Htot : Z.of_nat (length (stream_of l)) + 31 + Z.of_nat (length rest) <= UINT64_MAX).
  { destruct Hf as (_ & Hf & _). rewrite stream_of_app, stream_of_one, length_app, length_packet_bytes in Hf. cbn [snd] in Hf.
    rewrite !length_app, length_le_encode in Hf. lia. }
  assert (Hsize : wrap64 (position (stream w) - Z.of_nat (length (stream_of l) + 31)) = Z.of_nat (length rest)).
  { rewrite (packet_position _ _ _ _ Hi), !length_app, length_le_encode, Ha.
    rewrite (wrap64_small (Z.of_nat _)) by u_lia. rewrite wrap64_small by u_lia. lia. }
  rewrite Hsize.
  destruct (stored_inv w l type a (le_encode 8 0) rest q (le_encode 8 (Z.of_nat (length rest))) Hi) as (s & E & Hi'); try (by rewrite length_le_encode).
  { rewrite Ha. by replace (length (stream_of l) + 5 + 18)%nat with (length (stream_of l) + 23)%nat by lia. }
  rewrite E. cbn [obind].
  destruct (end_packet_spec _ _ _ Hi' Hf) as (w' & E' & Hi'' & S'). rewrite E'. cbn [obind]. by exists w'.
Qed.
End Packet.

(** a patch that turns the old bytes into the new ones wherever it is read *)
Definition good_patch (orig chng : list byte) (offset size : nat) (patch : list byte) : Prop :=
  exists changed, forall R (src : ByteSource R) (r : R) mem maxsize rest,
    src_ok r -> (offset + size <= length mem)%nat -> maxsize = 0 \/ Z.of_nat (offset + size) <= maxsize ->
    slice offset size mem = slice offset size orig -> remaining r = patch ++ rest ->
    exists r', read_patch (Some mem) maxsize r = Ok (changed, Some (memcpy mem offset (slice offset size chng)), r') /\
      src_ok r' /\ remaining r' = rest.

Lemma writing_patch w done ty body orig chng (offset size : nat) q k :
  packet_inv w done (Some (ty, body)) -> holds_place q k w ->
  (offset + size <= length orig)%nat -> (offset + size <= length chng)%nat -> Z.of_nat (offset + size) + 8 <= UINT32_MAX ->
  exists changed patch s,
    write_patch orig chng offset size (stream w) = Ok (changed, memcpy orig offset (slice offset size chng), s) /\
    packet_inv (with_stream w s) done (Some (ty, body ++ patch)) /\ holds_place q k (with_stream w s) /\
    Z.of_nat (length patch) <= 9 * Z.of_nat size + 8 /\ good_patch orig chng offset size patch.
Proof.
  intros Hi Hq Ho Hc Hmax. pose proof (pi_ok _ _ _ Hi) as Hok.
  set (F := fun s : S => refers s q 8 k /\ forall pl n, packet_size w = Some pl -> refers (stream w) pl 4 n -> refers s pl 4 n).
  assert (keep : forall bs s s', sink_ok s -> F s -> emit bs s = Ok s' -> F s').
  { intros bs s s' Hs [F1 F2] E. split; [by apply (refers_law bs s s')|]. intros pl n Hp Hr. apply (refers_law bs s s'); auto. }
  assert (HF : F (stream w)) by (split; [exact Hq|auto]).
  destruct (@write_patch_spec S (framed_sink F keep) orig chng offset size (stream w) (conj Hok HF) Ho Hc Hmax)
    as (runs & s & E & [Hs [Hq' Hpl]] & Hw & Hruns & Hrb & Happ).
  exists (runs_bytes runs), (concat (map encode_run runs) ++ patch_terminator), s.
  split; [exact E|]. split; [by apply appended_inv|]. split; [exact Hq'|]. split.
  - rewrite length_app. pose proof (length_runs _ runs 0%nat Hruns).
    change (length patch_terminator) with 8%nat. lia.
  - exists (runs_bytes runs). intros R src r mem maxsize rest Hr Hm Hlim Hold Hrem.
    by apply (runs_read_back runs orig chng mem offset size maxsize r rest).
Qed.

(** room for one more packet of [n] bytes *)
Definition room (l : list packet) (n : Z) : Prop :=
  fits l /\ 5 + n <= UINT32_MAX /\ Z.of_nat (length (stream_of l)) + 5 + n <= UINT64_MAX /\ Z.of_nat (length l) + 1 <= UINT32_MAX.

Lemma room_fits l n ty body : room l n -> Z.of_nat (length body) <= n -> fits (l ++ [(ty, body)]).
Proof.
  intros ((F1 & F2 & F3) & R1 & R2 & R3) Hb. split; [|split].
  - apply Forall_app. split; [done|]. constructor; [cbn [snd]; lia|constructor].
  - rewrite stream_of_app, stream_of_one, length_app, length_packet_bytes. cbn [snd]. lia.
  - rewrite length_app. simpl. lia.
Qed.
End WriteProofs.

(** copying from a later place on is enough when the bytes before it agree *)
Lemma memcpy_from mem orig chng (offset size p : nat) :
  (offset + size <= length mem)%nat -> (offset + size <= length chng)%nat -> (p <= size)%nat ->
  slice offset size mem = slice offset size orig -> agree orig chng offset (offset + p) ->
  memcpy mem (offset + p) (slice (offset + p) (size - p) chng) = memcpy mem offset (slice offset size chng).
Proof.
  intros Hm Hc Hp Hold Ha. apply slice_eq_iff in Hold.
  apply list_eq. intros i. rewrite !memcpy_lookup by (rewrite length_slice; lia). rewrite !length_slice.
  replace (Nat.min (size - p) (length chng - (offset + p))) with (size - p)%nat by lia.
  replace (Nat.min size (length chng - offset)) with size by lia.
  rewrite !slice_lookup. repeat case_decide; try lia; try done.
  - f_equal. lia.
  - rewrite (Hold i), (Ha i) by lia. f_equal. lia.
Qed.

Lemma slice_sub (mem orig : list byte) offset size p : (p <= size)%nat ->
  slice offset size mem = slice offset size orig -> slice (offset + p) (size - p) mem = slice (offset + p) (size - p) orig.
Proof. intros Hp Ha. apply slice_eq_iff in Ha. apply slice_eq_iff. eapply agree_weaken; [exact Ha|lia..]. Qed.

Section OutProofs.
Context {S : Type} `{PacketSink S} `{MarkingHeader}.
Context (write_extension : VkMarkedOffsetsARM -> S -> outcome S).
Context (buffers : list (option address_buffer)) (structures : list (option (Z * Z))).

(** what [write_out_object] compares and sends *)
Definition sent (output : bool) (ar : option VkMarkedOffsetsARM) (changed : list byte) (offset size : Z) : outcome (list byte) :=
  match ar with
  | Some m =>
      if output && (size >? 0) then reverse_translate_marked_payload buffers structures changed offset size m else Ok changed
  | None => Ok changed
  end.

Lemma write_out_spec device o clone changed new (offset size : nat) ar ext type w done open :
  packet_inv w done open -> room (close done open) (9 * Z.of_nat size + 36 + Z.of_nat (length ext)) ->
  usable (Some device) = true -> usable (Some (h_base o)) = true -> update_type (h_type o) = Ok type ->
  extension_writes write_extension ar ext ->
  sent (write_output w) ar changed (Z.of_nat offset) (Z.of_nat size) = Ok new ->
  (offset + size <= length clone)%nat -> (offset + size <= length new)%nat -> Z.of_nat (offset + size) + 8 <= UINT32_MAX ->
  (slice offset size clone = slice offset size new /\
   write_out_object write_extension buffers structures device o clone changed (Z.of_nat offset) (Z.of_nat size) ar w = Ok (0, clone, o, w)) \/
  exists written patch w' p,
    write_out_object write_extension buffers structures device o clone changed (Z.of_nat offset) (Z.of_nat size) ar w =
      Ok (written, memcpy clone offset (slice offset size new), count_update o written, w') /\
    packet_inv w' (close done open ++ [(type, update_body device (h_base o) ar ext patch)]) None /\ same_settings w w' /\
    (p < size)%nat /\ Z.of_nat (length patch) <= 9 * Z.of_nat size + 8 /\
    agree clone new offset (offset + p) /\ good_patch clone new (offset + p) (size - p) patch.
Proof.
  intros Hi Hroom Hd Ho Ht Hx Hsent Hlc Hln Hmax. unfold write_out_object. fold (sent (write_output w) ar changed (Z.of_nat offset) (Z.of_nat size)).
  rewrite Hsent. cbn [obind]. rewrite !Nat2Z.id.
  destruct (find_patch_start_spec clone new offset size) as (P1 & P2 & P3). set (p := find_patch_start clone new offset size) in *.
  destruct (Z.eqb_spec (Z.of_nat p) (Z.of_nat size)) as [Ep|Ep].
  { left. split; [|done]. apply slice_eq_iff. by replace size with p by lia. }
  right. destruct Hroom as (Hf & Hroom).
  destruct (begin_update_spec write_extension device o ar ext type w done open Hi Hf) as (q & w1 & E1 & Hi1 & Hq1 & S1); try done; [lia|].
  rewrite E1. cbn [obind]. set (l := close done open) in *.
  assert (Hlh : length (update_handles device o) = 18%nat) by (unfold update_handles; by rewrite length_app, !length_encode_handle).
  replace (Z.to_nat (wrap32 (Z.of_nat offset + Z.of_nat p))) with (offset + p)%nat by (rewrite wrap32_small; u_lia).
  replace (Z.to_nat (Z.of_nat size - Z.of_nat p)) with (size - p)%nat by lia.
  destruct (writing_patch w1 l type _ clone new (offset + p) (size - p) q _ Hi1 Hq1) as (written & patch & s & E2 & Hi2 & Hq2 & Hlp & Hgood);
    [lia|lia|lia|].
  rewrite E2. cbn [obind].
  assert (Hi2' : packet_inv (with_stream w1 s) l
    (Some (type, update_handles device o ++ le_encode 8 0 ++ le_encode 2 (update_flags ar) ++ ext ++ patch))).
  { by rewrite <- !app_assoc in Hi2. }
  destruct (end_update_spec o q written type _ _ _ l Hi2' Hlh Hq2) as (w' & E3 & Hi3 & S3).
  { apply (room_fits l _ _ _ (conj Hf Hroom)). rewrite !length_app, !length_le_encode, Hlh. lia. }
  rewrite E3. cbn [obind]. exists written, patch, w', p. split; [|split; [exact Hi3|]].
  - by rewrite (memcpy_from clone clone new offset size p) by (done || lia).
  - split; [eapply same_settings_trans; [exact S1|exact S3]|]. split; [lia|]. split; [lia|]. done.
Qed.
End OutProofs.

(** ** Reading the packet back *)

Section ReadProofs.
Context {R : Type} `{ByteSource R} `{MarkingHeader}.
Context (read_extension : R -> outcome (VkMarkedOffsetsARM * R)).
Context (debug : bool) (translate_buffer translate_structure : Z -> Z).
Context (pending : list descriptor_rewrite) (pipelines : list pipeline_handles).
Context (other : Z -> host_areas -> R -> outcome (host_areas * R)).

Lemma parses_handle_index t : u32 (t_index t) -> u32 (cs_packet (t_last_modified t)) ->
  parses read_handle_index (encode_handle (Some t)) (t_index t).
Proof.
  intros Hi Hp. unfold read_handle_index, encode_handle.
  eapply (parses_bind (read_value 4)); [apply parses_value; change (256 ^ Z.of_nat 4) with (2 ^ 32); u_lia|].
  eapply (parses_bind read_int8_t); [|].
  { apply parses_map, parses_value. change (256 ^ Z.of_nat 1) with (2 ^ 8). unfold wrap. apply Z.mod_pos_bound. lia. }
  rewrite <- (app_nil_r (le_encode 4 (cs_packet _))).
  eapply (parses_bind (read_value 4)); [apply parses_value; change (256 ^ Z.of_nat 4) with (2 ^ 32); u_lia|].
  apply parses_ret.
Qed.

(** the markings as the replay sees them *)
Definition extension_reads (ar seen : option VkMarkedOffsetsARM) (ext : list byte) : Prop :=
  match ar, seen with
  | Some _, Some m => parses read_extension ext m
  | None, None => ext = []
  | _, _ => False
  end.

Lemma parses_head ar seen ext n : extension_reads ar seen ext -> u64 n ->
  parses (read_version2_packet read_extension) (le_encode 8 n ++ le_encode 2 (update_flags ar) ++ ext) (n, seen).
Proof.
  intros Hx Hn. unfold read_version2_packet.
  eapply (parses_bind (read_value 8)); [apply parses_value; change (256 ^ Z.of_nat 8) with (2 ^ 64); u_lia|].
  eapply (parses_bind (read_value 2)); [apply parses_value; destruct ar; by vm_compute|].
  destruct ar as [m0|], seen as [m|]; try done; cbn [update_flags].
  - change (negb (Z.land PACKET_FLAG_HAS_PNEXT PACKET_FLAG_HAS_PNEXT =? 0)) with true. cbn iota.
    rewrite <- (app_nil_r ext). eapply parses_bind; [exact Hx|]. apply parses_ret.
  - cbn [extension_reads] in Hx. subst ext. change (negb (Z.land 0 PACKET_FLAG_HAS_PNEXT =? 0)) with false. cbn iota.
    apply parses_ret.
Qed.

Lemma length_mem_map a : length (mem_map a) = length (a_bytes a).
Proof. unfold mem_map. destruct (a_initialized a); [done|apply repeat_length]. Qed.

(** what the replay makes of memory that the patch was applied to *)
Definition marked_bytes (seen : option VkMarkedOffsetsARM) (bytes : list byte) : outcome (list byte) :=
  match seen with
  | None => Ok bytes
  | Some m => translate_marked_offsets debug true translate_buffer translate_structure pending pipelines false m bytes
                (Z.of_nat (length bytes))
  end.

Lemma patch_area_ok a orig chng offset size patch : good_patch orig chng offset size patch ->
  (offset + size <= length (a_bytes a))%nat -> (offset + size <= length chng)%nat ->
  slice offset size (mem_map a) = slice offset size orig ->
  exists changed, parses (patch_area a) patch (changed, memcpy (mem_map a) offset (slice offset size chng)) /\
    length (memcpy (mem_map a) offset (slice offset size chng)) = length (a_bytes a).
Proof.
  intros [changed Hg] Hl Hc Hold. exists changed. split.
  - intros s rest Hs Hr. unfold patch_area.
    destruct (Hg R _ s (mem_map a) (Z.of_nat (length (a_bytes a))) rest Hs) as (s' & E & Hs' & Hr'); try done.
    { by rewrite length_mem_map. }
    { right. lia. }
    rewrite E. cbn [obind fst snd]. by exists s'.
  - rewrite length_memcpy; [apply length_mem_map|]. rewrite length_mem_map, length_slice. lia.
Qed.

Lemma object_update_reads t type device object ar seen ext orig chng offset size patch areas a rest r :
  update_type t = Ok type -> (seen = None \/ t = VK_OBJECT_TYPE_BUFFER) ->
  (forall m, seen = Some m -> sType m = VK_STRUCTURE_TYPE_MARKED_OFFSETS_ARM) ->
  u32 (t_index device) -> u32 (cs_packet (t_last_modified device)) ->
  u32 (t_index object) -> u32 (cs_packet (t_last_modified object)) -> extension_reads ar seen ext ->
  Z.of_nat (length ext + length patch) + 2 <= UINT64_MAX ->
  good_patch orig chng offset size patch -> (offset + size <= length chng)%nat ->
  areas !! (object_type_code t, t_index object) = Some a -> (offset + size <= length (a_bytes a))%nat ->
  slice offset size (mem_map a) = slice offset size orig ->
  src_ok r -> remaining r = update_body device object ar ext patch ++ rest ->
  exists r', src_ok r' /\ remaining r' = rest /\
    switchboard_update read_extension debug translate_buffer translate_structure pending pipelines other type areas r =
      let* bytes := marked_bytes seen (memcpy (mem_map a) offset (slice offset size chng)) in
      Ok (<[(object_type_code t, t_index object) := HostArea bytes true]> areas, r').
Proof.
  intros Ht Hseen Hstype Hd1 Hd2 Ho1 Ho2 Hx Hsize Hg Hc Ha Hl Hold Hr Hrem.
  destruct (patch_area_ok a orig chng offset size patch Hg Hl Hc Hold) as (changed & Hpatch & Hlen).
  unfold update_body in Hrem. rewrite <- !app_assoc in Hrem.
  destruct (parses_handle_index device Hd1 Hd2 r _ Hr Hrem) as (r1 & E1 & Hr1 & Hrem1).
  destruct (parses_handle_index object Ho1 Ho2 r1 _ Hr1 Hrem1) as (r2 & E2 & Hr2 & Hrem2).
  set (n := Z.of_nat (length _)) in Hrem2.
  assert (Hn : u64 n) by (unfold n; rewrite !length_app, length_le_encode; u_lia).
  destruct (parses_head ar seen ext n Hx Hn r2 (patch ++ rest) Hr2) as (r3 & E3 & Hr3 & Hrem3).
  { by rewrite Hrem2, <- !app_assoc. }
  destruct (Hpatch r3 rest Hr3 Hrem3) as (r4 & E4 & Hr4 & Hrem4).
  exists r4. split; [done|]. split; [done|].
  assert (Hplain : seen = None -> plain_update t (t_index object) seen areas r3 =
    Ok (changed, <[(object_type_code t, t_index object) := HostArea (memcpy (mem_map a) offset (slice offset size chng)) true]> areas, r4)).
  { intros ->. unfold plain_update. rewrite Ha. cbn [require obind]. rewrite E4. done. }
  assert (Hbuf : t = VK_OBJECT_TYPE_BUFFER ->
    buffer_update debug translate_buffer translate_structure pending pipelines (t_index object) seen areas r3 =
    let* bytes := marked_bytes seen (memcpy (mem_map a) offset (slice offset size chng)) in
    Ok (changed, <[(object_type_code t, t_index object) := HostArea bytes true]> areas, r4)).
  { intros ->. unfold buffer_update. rewrite Ha. unfold marked_bytes. rewrite Hlen. destruct seen as [m|].
    - rewrite (Hstype m eq_refl), Z.eqb_refl. cbn [require obind]. rewrite E4. cbn [obind].
      destruct (translate_marked_offsets _ _ _ _ _ _ _ _ _); done.
    - cbn [require obind]. rewrite E4. done. }
  unfold switchboard_update, update_image_packet, update_buffer_packet, update_tensor_packet.
  destruct t; cbn [update_type] in Ht; try done; injection Ht as <-.
  - change ((PACKET_BUFFER_UPDATE2 =? PACKET_IMAGE_UPDATE) || _) with false. cbn iota. change ((PACKET_BUFFER_UPDATE2 =? _) || _) with true. cbn iota.
    change (PACKET_BUFFER_UPDATE2 =? PACKET_BUFFER_UPDATE2) with true. cbn iota.
    rewrite E1. cbn [obind]. rewrite E2. cbn [obind]. rewrite E3. cbn [obind snd]. rewrite Hbuf by done.
    destruct (marked_bytes seen _); done.
  - destruct Hseen as [->|?]; [|done]. change ((PACKET_IMAGE_UPDATE2 =? PACKET_IMAGE_UPDATE) || _) with true. cbn iota.
    change (PACKET_IMAGE_UPDATE2 =? PACKET_IMAGE_UPDATE2) with true. cbn iota.
    rewrite E1. cbn [obind]. rewrite E2. cbn [obind]. rewrite E3. cbn [obind snd]. rewrite Hplain by done. done.
  - destruct Hseen as [->|?]; [|done].
    change ((PACKET_TENSOR_UPDATE =? PACKET_IMAGE_UPDATE) || _) with false. cbn iota.
    change ((PACKET_TENSOR_UPDATE =? PACKET_BUFFER_UPDATE) || _) with false. cbn iota.
    change (PACKET_TENSOR_UPDATE =? PACKET_TENSOR_UPDATE) with true. cbn iota.
    rewrite E1. cbn [obind]. rewrite E2. cbn [obind]. rewrite E3. cbn [obind snd]. rewrite Hplain by done. done.
Qed.
End ReadProofs.

(** ** Properties *)

(** C4: the update of an object carries its memory from the capture to the replay:
    when nothing changed nothing is written; otherwise one packet is written, the
    clone holds the new bytes from then on, and whoever reads the packet over memory
    that holds the old bytes gets the new ones in the object's range and no other
    change, with the markings of a buffer translated, and the stream continues
    behind the packet's body. *)
Theorem object_update_replayed {S R} `{PacketSink S, ByteSource R, MarkingHeader}
    (write_extension : VkMarkedOffsetsARM -> S -> outcome S) (read_extension : R -> outcome (VkMarkedOffsetsARM * R))
    (other : Z -> host_areas -> R -> outcome (host_areas * R)) buffers structures (debug : bool) (tb ts : Z -> Z) pending pipelines
    (device : trackable) (o : hostobject) (clone changed new : list byte) (offset size : nat)
    (ar seen : option VkMarkedOffsetsARM) (ext : list byte) (type : Z)
    (w : lava_file_writer S) done open (areas : host_areas) (a : host_area)
    (Hw : packet_inv w done open) (Hroom : room (close done open) (9 * Z.of_nat size + 36 + Z.of_nat (length ext)))
    (Hdevice : usable (Some device) = true) (Hobject : usable (Some (h_base o)) = true)
    (Htype : update_type (h_type o) = Ok type) (Hseen : seen = None \/ h_type o = VK_OBJECT_TYPE_BUFFER)
    (Hstype : forall m, seen = Some m -> sType m = VK_STRUCTURE_TYPE_MARKED_OFFSETS_ARM)
    (Hwrite : extension_writes write_extension ar ext) (Hread : extension_reads read_extension ar seen ext)
    (Hindices : u32 (t_index device) /\ u32 (cs_packet (t_last_modified device)) /\
      u32 (t_index (h_base o)) /\ u32 (cs_packet (t_last_modified (h_base o))))
    (Hsent : sent buffers structures (write_output w) ar changed (Z.of_nat offset) (Z.of_nat size) = Ok new)
    (Hclone : (offset + size <= length clone)%nat) (Hnew : (offset + size <= length new)%nat)
    (Hmax : Z.of_nat (offset + size) + 8 <= UINT32_MAX)
    (Harea : areas !! (object_type_code (h_type o), t_index (h_base o)) = Some a)
    (Hmapped : (offset + size <= length (a_bytes a))%nat) (Hold : slice offset size (mem_map a) = slice offset size clone) :
  let out := write_out_object write_extension buffers structures device o clone changed (Z.of_nat offset) (Z.of_nat size) ar w in
  (slice offset size clone = slice offset size new /\ out = Ok (0, clone, o, w)) \/
  exists written patch w', out = Ok (written, memcpy clone offset (slice offset size new), count_update o written, w') /\
    packet_inv w' (close done open ++ [(type, update_body device (h_base o) ar ext patch)]) None /\
    forall r rest, src_ok r -> remaining r = update_body device (h_base o) ar ext patch ++ rest ->
      exists r', src_ok r' /\ remaining r' = rest /\
        switchboard_update read_extension debug tb ts pending pipelines other type areas r =
          let* bytes := marked_bytes debug tb ts pending pipelines seen (memcpy (mem_map a) offset (slice offset size new)) in
          Ok (<[(object_type_code (h_type o), t_index (h_base o)) := HostArea bytes true]> areas, r').
Proof.
  intros out.
  destruct (write_out_spec write_extension buffers structures device o clone changed new offset size ar ext type w done open)
    as [[E1 E2]|(written & patch & w' & p & E & Hi & _ & Hp & Hlen & Hagree & Hg)]; try done; [by left|].
  right. exists written, patch, w'. split; [done|]. split; [done|]. intros r rest Hr Hrem.
  destruct Hindices as (I1 & I2 & I3 & I4).
  assert (Hold' : slice (offset + p) (size - p) (mem_map a) = slice (offset + p) (size - p) clone)
    by (apply slice_sub; [lia|done]).
  assert (Hpatch : Z.of_nat (length ext + length patch) + 2 <= UINT64_MAX).
  { destruct Hroom as (_ & Hroom & _). u_lia. }
  destruct (object_update_reads read_extension debug tb ts pending pipelines other (h_type o) type device (h_base o) ar seen ext
    clone new (offset + p) (size - p) patch areas a rest r) as (r' & Hr' & Hrest & E'); try done; try lia.
  exists r'. split; [done|]. split; [done|]. rewrite E'.
  rewrite (memcpy_from _ clone) by (rewrite ?length_mem_map; done || lia). done.
Qed.

#[local] Existing Instance demo_header.

Definition demo_device : trackable := Trackable 0 created no_change.

Definition demo_object : hostobject :=
  HostObject (Trackable 3 bound no_change) VK_OBJECT_TYPE_BUFFER 0 (Some 1%nat) 64 24 true 0 None 0 0.

Definition demo_zeros : list byte := repeat x00 24.
Definition demo_bytes : list byte := repeat x00 9 ++ [x01; x02; x03] ++ repeat x00 12.

Definition demo_areas : host_areas := {[ (9, 3) := HostArea (repeat xff 24) false ]}.

Definition demo_writer : lava_file_writer (H := demo_sink) logged := new_lava_file_writer (H := demo_sink) demo_stream 0 false.

Lemma demo_writer_inv : packet_inv (H := demo_sink) demo_writer [] None.
Proof. apply (new_lava_writer_inv (H := demo_sink)); [exact demo_stream_ok|reflexivity]. Qed.

Lemma object_update_replayed_witness :
  let write_ext := fun (_ : VkMarkedOffsetsARM) (s : logged) => Ok s in
  let read_ext := fun s : list byte => Ok (demo_marks [], s) in
  let other := fun (_ : Z) (_ : host_areas) (_ : list byte) => Fail AbortCall in
  let out := write_out_object (H := demo_sink) write_ext [] [] demo_device demo_object demo_zeros demo_bytes
               (Z.of_nat 4) (Z.of_nat 16) None demo_writer in
  (slice 4 16 demo_zeros = slice 4 16 demo_bytes /\ out = Ok (0, demo_zeros, demo_object, demo_writer)) \/
  exists written patch w', out = Ok (written, memcpy demo_zeros 4 (slice 4 16 demo_bytes), count_update demo_object written, w') /\
    packet_inv (H := demo_sink) w' (close [] None ++ [(9, update_body demo_device (h_base demo_object) None [] patch)]) None /\
    forall (r : list byte) rest, src_ok r -> remaining r = update_body demo_device (h_base demo_object) None [] patch ++ rest ->
      exists r', src_ok r' /\ remaining r' = rest /\
        switchboard_update read_ext true (fun x => x) (fun x => x) [] [] other 9 demo_areas r =
          let* bytes := marked_bytes true (fun x => x) (fun x => x) [] [] None
            (memcpy (mem_map (HostArea (repeat xff 24) false)) 4 (slice 4 16 demo_bytes)) in
          Ok (<[(9, 3) := HostArea bytes true]> demo_areas, r').
Proof.
  intros write_ext read_ext other.
  refine (object_update_replayed (H := demo_sink) write_ext read_ext other [] [] true (fun x => x) (fun x => x) [] [] demo_device demo_object
    demo_zeros demo_bytes demo_bytes 4 16 None None [] 9 demo_writer [] None demo_areas (HostArea (repeat xff 24) false)
    demo_writer_inv _ eq_refl eq_refl eq_refl (or_introl eq_refl) _ eq_refl eq_refl _ eq_refl _ _ _ _ _ _).
  - repeat split; try constructor; by vm_compute.
  - done.
  - repeat split; by vm_compute.
  - apply Nat.leb_le. by vm_compute.
  - apply Nat.leb_le. by vm_compute.
  - by vm_compute.
  - reflexivity.
  - apply Nat.leb_le. by vm_compute.
  - reflexivity.
Defined.
