(* ===== verification/HostMemory.v ===== *)
(** * Capture of host writes (src/hardcode_write.cpp, src/lavatube.h)

    The capture notes which bytes of mappable memory the application may have
    written ([exposed]) and which bytes of buffers, images and tensors the commands
    of a command buffer may use ([touched]). At a submit the bytes that are both are
    compared with a clone of the memory and what changed is written as update
    packets, so that the replay has the memory's contents before the submit. *)

From Stdlib Require Import ZArith Lia Bool.
From Stdlib.Strings Require Import Byte.
From stdpp Require Import base numbers list gmap.
From S2P Require Import Prelude Stream RangeTracking Patch Memory FileWriter FileReader Packets Markings Translate Updates.

#[local] Open Scope Z_scope.

Definition VK_WHOLE_SIZE : Z := UINT64_MAX.

(** ** The state of the capture *)

(** What a pointer to mapped memory reaches: [w_size] bytes from byte [w_base] of
    the memory on. *)
Record window := Window { w_base : Z; w_size : Z }.

(** [trackedmemory] *)
Record hostmemory := HostMemory {
  propertyFlags : Z;
  m_offset : Z;                    (** of the current mapping *)
  m_size : Z;
  allocationSize : Z;
  clone : option (list byte);
  ptr : option window;
  exposed : exposure;
  usage : list (Z * nat)           (** multimap from offsets to bound objects *)
}.

Definition with_mapping (m : hostmemory) (p : option window) (offset size : Z) : hostmemory :=
  HostMemory (propertyFlags m) offset size (allocationSize m) (clone m) p (exposed m) (usage m).
Definition with_clone (m : hostmemory) (c : option (list byte)) : hostmemory :=
  HostMemory (propertyFlags m) (m_offset m) (m_size m) (allocationSize m) c (ptr m) (exposed m) (usage m).
Definition with_exposed (m : hostmemory) (e : exposure) : hostmemory :=
  HostMemory (propertyFlags m) (m_offset m) (m_size m) (allocationSize m) (clone m) (ptr m) e (usage m).
Definition with_usage (m : hostmemory) (u : list (Z * nat)) : hostmemory :=
  HostMemory (propertyFlags m) (m_offset m) (m_size m) (allocationSize m) (clone m) (ptr m) (exposed m) u.

Definition is_coherent (m : hostmemory) : bool := negb (Z.land (propertyFlags m) VK_MEMORY_PROPERTY_HOST_COHERENT_BIT =? 0).

Definition is_mapped (m : hostmemory) : bool := match ptr m with Some _ => true | None => false end.

(** ** Mapping *)

(** [trace_post_vkMapMemory] of a call that succeeded *)
Definition trace_post_vkMapMemory (p : window) (offset size : Z) (m : hostmemory) : outcome hostmemory :=
  let mapped_size :=
    if (size =? VK_WHOLE_SIZE) || (wrap64 (size + offset) >? allocationSize m) then wrap64 (allocationSize m - offset)
    else size in
  let m := with_mapping m (Some p) offset mapped_size in
  let m :=
    match clone m with
    | None => with_clone m (Some (repeat x00 (Z.to_nat (allocationSize m))))
    | Some _ => m
    end in
  if is_coherent m then
    let* e := add_os (exposed m) offset (m_size m) in
    Ok (with_exposed m e)
  else Ok m.

Definition trace_post_vkUnmapMemory (m : hostmemory) : hostmemory := with_mapping m None 0 0.

(** [trace_pre_vkFreeMemory] *)
Definition trace_pre_vkFreeMemory (m : hostmemory) : hostmemory :=
  let m := if is_mapped m && is_coherent m then with_mapping m None 0 0 else m in
  let m := with_clone m None in
  with_exposed (with_mapping m None (m_offset m) (m_size m)) (RangeTracking.clear (exposed m)).

(** ** Binding (trackedmemory::bind, unbind) *)

Definition with_alias (o : hostobject) (a : option (VkObjectType * Z)) : hostobject :=
  HostObject (h_base o) (h_type o) (h_device o) (h_backing o) (h_offset o) (h_size o) (h_accessible o)
    (h_device_address o) a (h_written o) (h_updates o).

(** the first entry of the multimap with this offset *)
Definition find_usage (u : list (Z * nat)) (offset : Z) : option nat :=
  option_map snd (List.find (fun e => e.1 =? offset) u).

(** a new entry goes behind those with the same offset *)
Definition insert_usage (u : list (Z * nat)) (offset : Z) (obj : nat) : list (Z * nat) :=
  let '(before, after) := lower_bound (fun e => e.1 <=? offset) u in before ++ (offset, obj) :: after.

Definition bind (obj : nat) (m : hostmemory) (objects : list hostobject) : outcome (hostmemory * list hostobject) :=
  match objects !! obj with
  | None => Fail OutOfRange
  | Some o =>
      let* objects :=
        match find_usage (usage m) (h_offset o) with
        | None => Ok objects
        | Some other =>
            match objects !! other with
            | None => Fail OutOfRange
            | Some oo =>
                let objects := <[other := with_alias oo (Some (h_type o, t_index (h_base o)))]> objects in
                Ok (alter (fun o => with_alias o (Some (h_type oo, t_index (h_base oo)))) obj objects)
            end
        end in
      Ok (with_usage m (insert_usage (usage m) (h_offset o) obj), objects)
  end.

Fixpoint erase_first (u : list (Z * nat)) (offset : Z) : list (Z * nat) :=
  match u with
  | [] => []
  | e :: rest => if e.1 =? offset then rest else e :: erase_first rest offset
  end.

Definition unbind (offset : Z) (m : hostmemory) : outcome hostmemory :=
  let* _ := require (match find_usage (usage m) offset with Some _ => true | None => false end) AssertFailed in
  Ok (with_usage m (erase_first (usage m) offset)).

(** ** What a command buffer uses (trackedcmdbuffer_trace) *)

Definition touched_map : Type := list (nat * exposure).

(** [touched[data]], which makes an empty entry when there is none *)
Fixpoint update_touched (t : touched_map) (obj : nat) (f : exposure -> outcome exposure) : outcome touched_map :=
  match t with
  | [] => let* e := f empty_exposure in Ok [(obj, e)]
  | (o, e) :: rest =>
      if Nat.eqb o obj then let* e := f e in Ok ((o, e) :: rest)
      else let* rest := update_touched rest obj f in Ok ((o, e) :: rest)
  end.

Definition touch (objects : list hostobject) (obj : nat) (offset size : Z) (t : touched_map) : outcome touched_map :=
  match objects !! obj with
  | None => Fail OutOfRange
  | Some o =>
      if negb (h_accessible o) then Ok t
      else
        let size := if size =? VK_WHOLE_SIZE then wrap64 (h_size o - offset) else size in
        update_touched t obj (fun e => add_os e offset size)
  end.

Fixpoint add_ranges (rs : list range) (e : exposure) : outcome exposure :=
  match rs with
  | [] => Ok e
  | r :: rs => let* e := add e (r_first r) (r_last r) in add_ranges rs e
  end.

(** [touch_merge] of the pairs of another map in some order *)
Fixpoint touch_merge (other : touched_map) (t : touched_map) : outcome touched_map :=
  match other with
  | [] => Ok t
  | (obj, e) :: rest =>
      let* t :=
        if existsb (fun p => Nat.eqb p.1 obj) t then update_touched t obj (add_ranges (list_ e))
        else Ok (t ++ [(obj, e)]) in
      touch_merge rest t
  end.

(** the index buffer bound to a command buffer *)
Inductive index_type : Set := VK_INDEX_TYPE_UINT8_EXT | VK_INDEX_TYPE_UINT16 | VK_INDEX_TYPE_UINT32 | VK_INDEX_TYPE_NONE_KHR.

Definition index_size (t : index_type) : Z :=
  match t with VK_INDEX_TYPE_UINT16 => 2 | VK_INDEX_TYPE_UINT32 => 4 | _ => 1 end.

Definition touch_index_buffer (objects : list hostobject) (buffer : nat) (buffer_offset : Z) (type : index_type)
    (firstIndex indexCount : Z) (t : touched_map) : outcome touched_map :=
  match objects !! buffer with
  | None => Fail OutOfRange
  | Some o =>
      let multiplier := index_size type in
      let offset := wrap64 (buffer_offset + wrap64 (firstIndex * multiplier)) in
      let size := if indexCount =? VK_WHOLE_SIZE then wrap64 (h_size o - offset) else wrap64 (indexCount * multiplier) in
      let* _ := require (wrap64 (offset + size) <=? h_size o) AssertFailed in
      touch objects buffer offset size t
  end.

(** [trackedcmdbuffer_trace] *)
Record cmdbuffer := CmdBuffer {
  c_device : Z;
  touched : touched_map;
  uses_device_address_shader : bool
}.

Definition with_touched (c : cmdbuffer) (t : touched_map) : cmdbuffer := CmdBuffer (c_device c) t (uses_device_address_shader c).

(** a buffer whose address the command buffer's shaders may hold *)
Definition address_taken (c : cmdbuffer) (o : hostobject) : bool :=
  bool_decide (h_type o = VK_OBJECT_TYPE_BUFFER) && (h_device o =? c_device c) && negb (h_device_address o =? 0) &&
  negb (bool_decide (t_state (h_base o) = destroyed) || bool_decide (t_state (h_base o) = uninitialized)).

(** the objects in index order, from [obj] on *)
Fixpoint touch_all_from (objects : list hostobject) (c : cmdbuffer) (rest : list hostobject) (obj : nat) (t : touched_map)
    : outcome touched_map :=
  match rest with
  | [] => Ok t
  | o :: rest =>
      let* t := if address_taken c o then touch objects obj 0 (h_size o) t else Ok t in
      touch_all_from objects c rest (Datatypes.S obj) t
  end.

Definition touch_all_address_taken_buffers (objects : list hostobject) (c : cmdbuffer) : outcome cmdbuffer :=
  let* t := touch_all_from objects c objects 0 (touched c) in Ok (with_touched c t).

(** ** Submits *)

Section Submit.
Context {S : Type} `{PacketSink S} `{MarkingHeader}.
Context (write_extension : VkMarkedOffsetsARM -> S -> outcome S).
Context (buffers : list (option address_buffer)) (structures : list (option (Z * Z))).
(** [wrap_vkMapMemory] of the driver: the memory, the offset and the size *)
Context (wrap_vkMapMemory : nat -> Z -> Z -> window).
(** the order an unordered container is walked in *)
Context (iterate : forall A : Type, list A -> list A).

Record capture := Capture {
  memories : list hostmemory;
  objects : list hostobject;
  cmdbuffers : list cmdbuffer;
  writer : lava_file_writer S
}.

Definition with_memory (st : capture) (i : nat) (m : hostmemory) : capture :=
  Capture (<[i := m]> (memories st)) (objects st) (cmdbuffers st) (writer st).
Definition with_object (st : capture) (i : nat) (o : hostobject) : capture :=
  Capture (memories st) (<[i := o]> (objects st)) (cmdbuffers st) (writer st).
Definition with_cmdbuffer (st : capture) (i : nat) (c : cmdbuffer) : capture :=
  Capture (memories st) (objects st) (<[i := c]> (cmdbuffers st)) (writer st).
Definition with_writer (st : capture) (w : lava_file_writer S) : capture :=
  Capture (memories st) (objects st) (cmdbuffers st) w.

Definition at_index {A} (l : list A) (i : nat) : outcome A :=
  match l !! i with Some a => Ok a | None => Fail OutOfRange end.

(** the hull of the bytes to compare, by memory *)
Definition ranges_map : Type := list (nat * range).

Fixpoint widen_range (ranges : ranges_map) (memory : nat) (minrange : range) : ranges_map :=
  match ranges with
  | [] => [(memory, minrange)]
  | (i, m) :: rest =>
      if Nat.eqb i memory
      then (i, Range (Z.min (r_first m) (r_first minrange)) (Z.max (r_last m) (r_last minrange))) :: rest
      else (i, m) :: widen_range rest memory minrange
  end.

Definition insert_cmdbuf (cmdbufs : list nat) (c : nat) : list nat :=
  if bool_decide (c ∈ cmdbufs) then cmdbufs else cmdbufs ++ [c].

Fixpoint queue_touched (st : capture) (cmdbuf : nat) (t : touched_map) (ranges : ranges_map) (cmdbufs : list nat)
    : outcome (ranges_map * list nat) :=
  match t with
  | [] => Ok (ranges, cmdbufs)
  | (obj, e) :: t =>
      let* o := at_index (objects st) obj in
      match h_backing o with
      | None => queue_touched st cmdbuf t ranges cmdbufs
      | Some memory =>
          let* m := at_index (memories st) memory in
          let minrange := overlap (exposed m) e (h_offset o) in
          if negb (valid minrange) then queue_touched st cmdbuf t ranges cmdbufs
          else queue_touched st cmdbuf t (widen_range ranges memory minrange) (insert_cmdbuf cmdbufs cmdbuf)
      end
  end.

Definition queue_update (cmdbuf : nat) (ranges : ranges_map) (cmdbufs : list nat) (st : capture)
    : outcome (ranges_map * list nat * capture) :=
  let* c := at_index (cmdbuffers st) cmdbuf in
  let* c := if uses_device_address_shader c then touch_all_address_taken_buffers (objects st) c else Ok c in
  let st := with_cmdbuffer st cmdbuf c in
  let* res := queue_touched st cmdbuf (iterate _ (touched c)) ranges cmdbufs in
  Ok (res, st).

(** Reading an object's memory through a pointer that was mapped at
    [binding_offset]: the memory from the start of the object on. *)
Definition read_mapped (p : window) (binding_offset : Z) (contents : list byte) (object_offset first size : Z)
    : outcome (list byte) :=
  let start := w_base p + object_offset - binding_offset in
  let* _ := require ((w_base p <=? start + first) && (start + first + size <=? w_base p + w_size p)) OutOfRange in
  Ok (drop (Z.to_nat start) contents).

(** [write_out_object] from the mapped memory and the clone of a memory *)
Definition write_out_mapped (device : trackable) (p : window) (binding_offset : Z) (contents : list byte)
    (m : hostmemory) (o : hostobject) (first size : Z) (ar : option VkMarkedOffsetsARM) (w : lava_file_writer S)
    : outcome (hostmemory * hostobject * lava_file_writer S) :=
  match clone m with
  | None => Fail NullPointer
  | Some c =>
      let start := Z.to_nat (h_offset o) in
      let* changed := read_mapped p binding_offset contents (h_offset o) first size in
      let* (res, w) := write_out_object write_extension buffers structures device o (drop start c) changed first size ar w in
      let '(_, c', o) := res in
      Ok (with_clone m (Some (take start c ++ c')), o, w)
  end.

(** the touched ranges of one object *)
Fixpoint flush_ranges (device : trackable) (p : window) (binding_offset : Z) (contents : list byte) (rs : list range)
    (m : hostmemory) (o : hostobject) (w : lava_file_writer S) : outcome (hostmemory * hostobject * lava_file_writer S) :=
  match rs with
  | [] => Ok (m, o, w)
  | r :: rs =>
      let r2 := Range (wrap64 (r_first r + h_offset o)) (wrap64 (r_last r + h_offset o)) in
      let* _ := require (r_last r2 <? wrap64 (h_offset o + h_size o)) AssertFailed in
      let* (v, e) := fetch_range (exposed m) r2 (is_mapped m) in
      let m := with_exposed m e in
      if negb (valid v) then flush_ranges device p binding_offset contents rs m o w
      else
        let* (res, w) :=
          write_out_mapped device p binding_offset contents m o (wrap64 (r_first v - h_offset o)) (wrap64 (r_last v - r_first v + 1)) None w in
        flush_ranges device p binding_offset contents rs res.1 res.2 w
  end.

(** the touched objects of one command buffer *)
Fixpoint flush_touched (device : trackable) (memory : nat) (p : window) (binding_offset : Z) (contents : list byte)
    (t : touched_map) (st : capture) : outcome capture :=
  match t with
  | [] => Ok st
  | (obj, e) :: t =>
      let* o := at_index (objects st) obj in
      if bool_decide (h_backing o = Some memory) then
        let* _ := require (negb (bool_decide (t_state (h_base o) = destroyed))) AssertFailed in
        let* m := at_index (memories st) memory in
        let* (res, w) := flush_ranges device p binding_offset contents (list_ e) m o (writer st) in
        flush_touched device memory p binding_offset contents t (with_writer (with_object (with_memory st memory res.1) obj res.2) w)
      else flush_touched device memory p binding_offset contents t st
  end.

Fixpoint flush_cmdbuffers (device : trackable) (memory : nat) (p : window) (binding_offset : Z) (contents : list byte)
    (cmdbufs : list nat) (st : capture) : outcome capture :=
  match cmdbufs with
  | [] => Ok st
  | c :: cmdbufs =>
      let* cb := at_index (cmdbuffers st) c in
      let* st := flush_touched device memory p binding_offset contents (iterate _ (touched cb)) st in
      flush_cmdbuffers device memory p binding_offset contents cmdbufs st
  end.

(** the pointer to read through, the offset it is bound at, and whether another
    mapping has to be restored afterwards *)
Definition bind_window (memory : nat) (m : hostmemory) (hull : range) : outcome (window * Z * bool) :=
  let remap :=
    let size := wrap64 (r_last hull - r_first hull + 1) in
    let* _ := require (r_first hull <=? r_last hull) AssertFailed in
    let* _ := require (size <=? allocationSize m) AssertFailed in
    Ok (wrap_vkMapMemory memory (r_first hull) size, r_first hull, is_mapped m) in
  match ptr m with
  | Some p =>
      if (m_offset m <=? r_first hull) && (wrap64 (m_size m + m_offset m) >=? r_last hull) then Ok (p, m_offset m, false)
      else remap
  | None => remap
  end.

(** [contents] are the memories as the device has them *)
Definition memory_update_one (device : trackable) (contents : list (list byte)) (cmdbufs : list nat) (entry : nat * range)
    (st : capture) : outcome capture :=
  let '(memory, hull) := entry in
  let* m := at_index (memories st) memory in
  let* _ := require (negb (Z.land (propertyFlags m) VK_MEMORY_PROPERTY_HOST_VISIBLE_BIT =? 0)) AssertFailed in
  let* (pb, restore) := bind_window memory m hull in
  let '(p, binding_offset) := pb in
  let* bytes := at_index contents memory in
  let* st := flush_cmdbuffers device memory p binding_offset bytes (iterate _ cmdbufs) st in
  let* m := at_index (memories st) memory in
  if restore
  then Ok (with_memory st memory (with_mapping m (Some (wrap_vkMapMemory memory (m_offset m) (m_size m))) (m_offset m) (m_size m)))
  else Ok st.

Fixpoint memory_update (device : trackable) (contents : list (list byte)) (cmdbufs : list nat) (ranges : ranges_map)
    (st : capture) : outcome capture :=
  match ranges with
  | [] => Ok st
  | e :: ranges =>
      let* st := memory_update_one device contents cmdbufs e st in
      memory_update device contents cmdbufs ranges st
  end.

Fixpoint queue_updates (cmdbufs : list nat) (ranges : ranges_map) (found : list nat) (st : capture)
    : outcome (ranges_map * list nat * capture) :=
  match cmdbufs with
  | [] => Ok (ranges, found, st)
  | c :: cmdbufs =>
      let* (res, st) := queue_update c ranges found st in
      queue_updates cmdbufs res.1 res.2 st
  end.

(** [trace_pre_vkQueueSubmit] and [trace_pre_vkQueueSubmit2]: all command buffers
    of all the submit's batches, in order *)
Definition trace_pre_vkQueueSubmit (device : trackable) (explicit_host_updates : bool) (contents : list (list byte))
    (cmdbufs : list nat) (st : capture) : outcome capture :=
  if explicit_host_updates then Ok st
  else
    let* (res, st) := queue_updates cmdbufs [] [] st in
    memory_update device contents res.2 (iterate _ res.1) st.
End Submit.
Arguments capture S {_}.
