(* ===== verification/HostMemoryInv.v ===== *)
(** * The capture of host writes keeps the replay in step

    The invariant of the capture's memories and objects: a byte of a memory that
    differs from the clone is exposed, and the clone is what the replay's memory
    holds after the packets written so far. It is kept by mapping, unmapping, host
    writes, commands and submits, and a submit leaves no touched byte behind. *)

From Stdlib Require Import ZArith Lia Bool.
From Stdlib.Strings Require Import Byte.
From stdpp Require Import base numbers list gmap.
From S2P Require Import Prelude Stream RangeTracking Patch Memory FileWriter FileReader Packets Markings Translate Updates HostMemory.

#[local] Open Scope Z_scope.

Definition is_exposed (m : hostmemory) : Z -> Prop := RangeTracking.contents (exposed m).

(** ** One memory *)

Definition clone_bytes (m : hostmemory) : list byte :=
  match clone m with Some c => c | None => repeat x00 (Z.to_nat (allocationSize m)) end.

(** the clone holds the device's byte *)
Definition synced (bytes : list byte) (m : hostmemory) (i : nat) : Prop := clone_bytes m !! i = bytes !! i.

#[export] Instance synced_dec bytes m i : Decision (synced bytes m i).
Proof. unfold synced. apply _. Defined.

Record memory_ok (bytes : list byte) (m : hostmemory) : Prop := {
  mo_visible : Z.land (propertyFlags m) VK_MEMORY_PROPERTY_HOST_VISIBLE_BIT <> 0;
  mo_coherent : is_coherent m = true;
  mo_alloc : 0 < allocationSize m <= INT64_MAX;
  mo_length : Z.of_nat (length bytes) = allocationSize m;
  mo_clone_length : Z.of_nat (length (clone_bytes m)) = allocationSize m;
  mo_clone : clone m = None -> forall x, ~ is_exposed m x;
  mo_wf : wf (exposed m);
  mo_exposed : forall x, is_exposed m x -> 0 <= x < allocationSize m;
  mo_synced : forall i, ~ synced bytes m i -> is_exposed m (Z.of_nat i);
  mo_mapped : forall p, ptr m = Some p -> p = Window (m_offset m) (m_size m) /\ 0 <= m_offset m /\ 0 < m_size m /\
    m_offset m + m_size m <= allocationSize m /\ forall x, m_offset m <= x < m_offset m + m_size m -> is_exposed m x
}.

(** What a submit may do to a memory: the clone only moves towards the device's
    bytes, and only inside of [P]. *)
Record progress (bytes : list byte) (P : nat -> Prop) (m m' : hostmemory) : Prop := {
  pr_mapping : ptr m' = ptr m /\ m_offset m' = m_offset m /\ m_size m' = m_size m;
  pr_fixed : allocationSize m' = allocationSize m /\ propertyFlags m' = propertyFlags m /\ usage m' = usage m;
  pr_exposed : forall x, is_exposed m' x -> is_exposed m x;
  pr_clone : forall i, clone_bytes m' !! i = clone_bytes m !! i \/ (P i /\ synced bytes m' i)
}.

Lemma progress_refl bytes P m : progress bytes P m m.
Proof. split; auto. Qed.

Lemma progress_trans bytes P m1 m2 m3 : progress bytes P m1 m2 -> progress bytes P m2 m3 -> progress bytes P m1 m3.
Proof.
  intros [(A1 & A2 & A3) (A4 & A5 & A6) A7 A8] [(B1 & B2 & B3) (B4 & B5 & B6) B7 B8]. split.
  - repeat split; congruence.
  - repeat split; congruence.
  - auto.
  - intros i. destruct (B8 i) as [E|?]; [|by right]. rewrite E. destruct (A8 i) as [?|[? Hs]]; [by left|].
    right. split; [done|]. unfold synced in *. congruence.
Qed.

Lemma progress_weaken bytes (P Q : nat -> Prop) m m' : (forall i, P i -> Q i) -> progress bytes P m m' -> progress bytes Q m m'.
Proof. intros HPQ [A1 A2 A3 A4]. split; auto. intros i. destruct (A4 i) as [?|[? ?]]; auto. Qed.

Lemma progress_synced bytes P m m' i : progress bytes P m m' -> synced bytes m i -> synced bytes m' i.
Proof. intros [_ _ _ Hc] Hs. destruct (Hc i) as [E|[_ ?]]; [|done]. unfold synced in *. congruence. Qed.

Lemma progress_outside bytes P m m' i : progress bytes P m m' -> ~ P i -> clone_bytes m' !! i = clone_bytes m !! i.
Proof. intros [_ _ _ Hc] Hn. destruct (Hc i) as [?|[? _]]; done. Qed.

(** writing out keeps the invariant of the memory *)
Lemma memory_ok_progress bytes P m m' : memory_ok bytes m -> progress bytes P m m' -> exposed m' = exposed m ->
  length (clone_bytes m') = length (clone_bytes m) -> (clone m <> None -> clone m' <> None) -> memory_ok bytes m'.
Proof.
  intros [M1 M2 M3 M4 M5 M6 M7 M8 M9 M10] Hp He Hl Hc. pose proof Hp as [(P1 & P2 & P3) (P4 & P5 & P6) _ _].
  split; unfold is_coherent, is_exposed in *; rewrite ?P1, ?P2, ?P3, ?P4, ?P5, ?Hl, ?He; try done.
  - intros Hn. apply M6. destruct (clone m); [by destruct Hc|done].
  - intros i Hi. apply M9. intros Hsy. apply Hi. exact (progress_synced _ _ _ _ i Hp Hsy).
Qed.

(** ** One object *)

Definition object_key (o : hostobject) : Z * Z := (object_type_code (h_type o), t_index (h_base o)).

(** an object differs only in its counters *)
Definition same_object (o o' : hostobject) : Prop :=
  h_base o' = h_base o /\ h_type o' = h_type o /\ h_device o' = h_device o /\ h_backing o' = h_backing o /\
  h_offset o' = h_offset o /\ h_size o' = h_size o /\ h_accessible o' = h_accessible o /\
  h_device_address o' = h_device_address o.

Lemma same_object_refl o : same_object o o.
Proof. repeat split. Qed.

Lemma same_object_trans o1 o2 o3 : same_object o1 o2 -> same_object o2 o3 -> same_object o1 o3.
Proof. unfold same_object. intuition congruence. Qed.

Lemma same_object_key o o' : same_object o o' -> object_key o' = object_key o.
Proof. intros (E1 & E2 & _). unfold object_key. congruence. Qed.

Record object_ok (o : hostobject) : Prop := {
  oo_usable : usable (Some (h_base o)) = true;
  oo_type : exists type, update_type (h_type o) = Ok type;
  oo_index : u32 (t_index (h_base o)) /\ u32 (cs_packet (t_last_modified (h_base o)));
  oo_size : 0 < h_size o /\ 9 * h_size o + 41 <= UINT32_MAX
}.

Lemma object_ok_same o o' : same_object o o' -> object_ok o -> object_ok o'.
Proof. intros (E1 & E2 & _ & _ & _ & E6 & _) [A1 A2 A3 A4]. split; rewrite ?E1, ?E2, ?E6; done. Qed.

(** the object lies inside of its memory *)
Definition fits_in (o : hostobject) (m : hostmemory) : Prop := 0 <= h_offset o /\ h_offset o + h_size o <= allocationSize m.

(** the byte belongs to the object *)
Definition in_object (o : hostobject) (i : nat) : Prop := h_offset o <= Z.of_nat i < h_offset o + h_size o.

(** the replay's memory of an object holds what the clone says *)
Definition area_ok (areas : host_areas) (m : hostmemory) (o : hostobject) : Prop :=
  exists a, areas !! object_key o = Some a /\ h_size o <= Z.of_nat (length (a_bytes a)) /\
    slice 0 (Z.to_nat (h_size o)) (mem_map a) = slice (Z.to_nat (h_offset o)) (Z.to_nat (h_size o)) (clone_bytes m).

Lemma area_ok_keep areas areas' m m' o o' :
  area_ok areas m o -> same_object o o' -> areas' !! object_key o = areas !! object_key o ->
  (forall i, in_object o i -> clone_bytes m' !! i = clone_bytes m !! i) -> 0 <= h_offset o -> 0 < h_size o ->
  area_ok areas' m' o'.
Proof.
  intros (a & Ha & Hl & Hs) Hsame Hk Hc H0 Hsz. pose proof (same_object_key _ _ Hsame) as Ek.
  destruct Hsame as (_ & _ & _ & _ & E5 & E6 & _). exists a. rewrite Ek, E5, E6, Hk. split; [done|]. split; [done|].
  rewrite Hs. symmetry. apply slice_eq_iff. intros i Hi. apply Hc. unfold in_object. lia.
Qed.

Lemma with_clone_id m c : clone m = Some c -> with_clone m (Some c) = m.
Proof. destruct m. simpl. by intros ->. Qed.

(** ** The packets written so far *)

Section Replay.
Context `{MarkingHeader}.
Context (read_extension : list byte -> outcome (VkMarkedOffsetsARM * list byte)).
Context (debug : bool) (translate_buffer translate_structure : Z -> Z).
Context (pending : list descriptor_rewrite) (pipelines : list pipeline_handles).
Context (other : Z -> host_areas -> list byte -> outcome (host_areas * list byte)).

Definition replay_packet (p : packet) (areas : host_areas) : outcome host_areas :=
  let* (areas, _) := switchboard_update read_extension debug translate_buffer translate_structure pending pipelines other p.1 areas p.2 in
  Ok areas.

(** the replay of the packets of a thread *)
Fixpoint replay_packets (l : list packet) (areas : host_areas) : outcome host_areas :=
  match l with
  | [] => Ok areas
  | p :: l => let* areas := replay_packet p areas in replay_packets l areas
  end.

Lemma replay_packets_app l1 l2 : forall areas areas', replay_packets l1 areas = Ok areas' ->
  replay_packets (l1 ++ l2) areas = replay_packets l2 areas'.
Proof.
  induction l1 as [|p l1 IH]; intros areas areas' E; cbn [app replay_packets] in *; [congruence|].
  destruct (replay_packet p areas) as [a|]; [|done]. cbn [obind] in *. by apply IH.
Qed.
End Replay.

(** room for [k] more packets *)
Definition roomy (l : list packet) (k : nat) : Prop :=
  fits l /\ Z.of_nat (length (stream_of l)) + Z.of_nat k * UINT32_MAX <= UINT64_MAX /\ Z.of_nat (length l) + Z.of_nat k <= UINT32_MAX.

Lemma roomy_le l k k' : (k' <= k)%nat -> roomy l k -> roomy l k'.
Proof. intros Hk (H1 & H2 & H3). split; [done|]. u_lia. Qed.

Lemma roomy_room l k n : roomy l (Datatypes.S k) -> 5 + n <= UINT32_MAX -> room l n.
Proof. intros (H1 & H2 & H3) Hn. split; [done|]. split; [done|]. u_lia. Qed.

Lemma roomy_snoc l k ty body : roomy l (Datatypes.S k) -> 5 + Z.of_nat (length body) <= UINT32_MAX -> roomy (l ++ [(ty, body)]) k.
Proof.
  intros Hr Hb. split; [apply (room_fits l (Z.of_nat (length body))); [by apply (roomy_room l k)|lia]|].
  destruct Hr as (_ & H2 & H3). rewrite stream_of_app, stream_of_one, !length_app, length_packet_bytes. cbn [snd length].
  u_lia.
Qed.

(** ** Writing out what changed *)

#[local] Ltac len := rewrite ?length_mem_map, ?length_slice, ?length_drop; lia.

Section Flush.
Context {S : Type} `{PacketSink S} `{MarkingHeader}.
Context (write_extension : VkMarkedOffsetsARM -> S -> outcome S).
Context (read_extension : list byte -> outcome (VkMarkedOffsetsARM * list byte)).
Context (buffers : list (option address_buffer)) (structures : list (option (Z * Z))).
Context (debug : bool) (translate_buffer translate_structure : Z -> Z).
Context (pending : list descriptor_rewrite) (pipelines : list pipeline_handles).
Context (other : Z -> host_areas -> list byte -> outcome (host_areas * list byte)).
Context (areas0 : host_areas).

Abbreviation replay := (replay_packets read_extension debug translate_buffer translate_structure pending pipelines other).

(** the writer has written these packets, and this is the replay's memory after them *)
Definition written_state (w : lava_file_writer S) (l : list packet) (areas : host_areas) : Prop :=
  (exists done open, packet_inv w done open /\ l = close done open) /\ replay l areas0 = Ok areas.

Definition device_ok (device : trackable) : Prop :=
  usable (Some device) = true /\ u32 (t_index device) /\ u32 (cs_packet (t_last_modified device)).

(** the bytes of the object from [first] on *)
Definition part_of (o : hostobject) (first n : nat) (i : nat) : Prop :=
  h_offset o + Z.of_nat first <= Z.of_nat i < h_offset o + Z.of_nat first + Z.of_nat n.

(** what writing out a part of an object does to the memory, the object and the replay *)
Record wrote (bytes : list byte) (P : nat -> Prop) (areas : host_areas) (m m' : hostmemory) (o o' : hostobject)
    (areas' : host_areas) : Prop := {
  wr_progress : progress bytes P m m';
  wr_clone : clone m <> None -> clone m' <> None;
  wr_length : length (clone_bytes m') = length (clone_bytes m);
  wr_object : same_object o o';
  wr_area : area_ok areas' m' o';
  wr_others : forall k, k <> object_key o -> areas' !! k = areas !! k
}.

Lemma object_update_step device o c bytes (f n : nat) w l k areas m :
  device_ok device -> object_ok o -> clone m = Some c -> length c = length bytes ->
  0 <= h_offset o -> h_offset o + h_size o <= Z.of_nat (length bytes) -> Z.of_nat (f + n) <= h_size o ->
  written_state w l areas -> roomy l (Datatypes.S k) -> area_ok areas m o ->
  let off := Z.to_nat (h_offset o) in
  exists written o' w' l' areas',
    write_out_object write_extension buffers structures device o (drop off c) (drop off bytes) (Z.of_nat f) (Z.of_nat n) None w =
      Ok (written, memcpy (drop off c) f (slice f n (drop off bytes)), o', w') /\
    written_state w' l' areas' /\ roomy l' k /\ same_object o o' /\
    (forall key, key <> object_key o -> areas' !! key = areas !! key) /\
    exists a', areas' !! object_key o = Some a' /\ h_size o <= Z.of_nat (length (a_bytes a')) /\
      slice 0 (Z.to_nat (h_size o)) (mem_map a') =
      slice 0 (Z.to_nat (h_size o)) (memcpy (drop off c) f (slice f n (drop off bytes))).
Proof.
  intros (D1 & D2 & D3) [O1 [type O2] [O3 O4] [O5 O6]] Hc Hlen Hz Hin Hfn [(done & open & Hi & El) Hr] Hroom
    (a & Ha & Hal & Has) off.
  assert (Hoff : Z.of_nat off = h_offset o) by lia.
  assert (Ec : clone_bytes m = c) by (unfold clone_bytes; by rewrite Hc). rewrite Ec in Has.
  destruct (write_out_spec write_extension buffers structures device o (drop off c) (drop off bytes) (drop off bytes) f n None []
    type w done open) as [[E1 E2]|(written & patch & w' & p & E & Hi' & _ & Hp & Hlp & Hagree & Hg)]; try done.
  { rewrite <- El. apply (roomy_room l k); [done|]. simpl. lia. }
  { rewrite length_drop. lia. }
  { rewrite length_drop. lia. }
  { lia. }
  - exists 0, o, w, l, areas. split; [|].
    { rewrite E2. do 4 f_equal. apply list_eq. intros i. rewrite <- E1, memcpy_lookup by len.
      case_decide as Hd; [|done]. rewrite length_slice, length_drop in Hd. rewrite slice_lookup, decide_True by lia. f_equal. lia. }
    split; [by split; [exists done, open|]|]. split; [by apply (roomy_le l (Datatypes.S k)); [lia|]|].
    split; [apply same_object_refl|]. split; [done|]. exists a. split; [done|]. split; [done|].
    rewrite Has. apply list_eq. intros i. rewrite !slice_lookup. case_decide; [|done].
    rewrite memcpy_lookup by len. rewrite length_slice, length_drop. case_decide as Hd.
    + rewrite <- E1. rewrite slice_lookup, decide_True by lia. rewrite lookup_drop. f_equal. lia.
    + rewrite lookup_drop. done.
  - set (body := update_body device (h_base o) None [] patch) in *.
    destruct (object_update_reads (R := list byte) read_extension debug translate_buffer translate_structure pending pipelines other
      (h_type o) type device (h_base o) None None [] (drop off c) (drop off bytes) (f + p) (n - p) patch areas a [] body)
      as (r' & _ & _ & E'); try done; [by left|simpl; u_lia|rewrite length_drop; lia|lia| |by rewrite app_nil_r|].
    { apply slice_eq_iff. intros i Hx. apply (f_equal (.!! i)) in Has. rewrite !slice_lookup, !decide_True in Has by lia.
      rewrite lookup_drop. exact Has. }
    assert (Hold : slice f n (mem_map a) = slice f n (drop off c)).
    { apply slice_eq_iff. intros i Hx. apply (f_equal (.!! i)) in Has. rewrite !slice_lookup, !decide_True in Has by lia.
      rewrite lookup_drop. exact Has. }
    set (a' := HostArea (memcpy (mem_map a) f (slice f n (drop off bytes))) true).
    exists written, (count_update o written), w', (l ++ [(type, body)]), (<[object_key o := a']> areas).
    split; [done|]. split.
    { split; [exists (l ++ [(type, body)]), None; subst l; by split|].
      rewrite (replay_packets_app _ _ _ _ _ _ _ _ _ _ _ Hr). cbn [replay_packets]. unfold replay_packet. cbn [fst snd].
      rewrite E'. cbn [marked_bytes obind]. unfold a'.
      rewrite (memcpy_from _ (drop off c)) by (rewrite ?length_mem_map, ?length_drop; done || lia). done. }
    split. { apply roomy_snoc; [done|]. unfold body, update_body. rewrite !length_app, !length_encode_handle, !length_le_encode. simpl. lia. }
    split; [repeat split|]. split; [intros key Hk; apply lookup_insert_ne; congruence|].
    exists a'. split; [apply lookup_insert_eq|].
    assert (Hla : length (a_bytes a') = length (a_bytes a)).
    { unfold a'. cbn [a_bytes]. rewrite length_memcpy; [apply length_mem_map|]. rewrite length_slice, length_drop, length_mem_map. lia. }
    split; [lia|]. unfold a', mem_map at 1. cbn [a_bytes a_initialized].
    apply list_eq. intros i. rewrite !slice_lookup. case_decide as Hx; [|done].
    rewrite !memcpy_lookup by len. case_decide; [done|].
    apply (f_equal (.!! i)) in Has. rewrite !slice_lookup, !decide_True in Has by lia. rewrite lookup_drop. exact Has.
Qed.

(** the clone after a part of the object was written out *)
Lemma clone_update (c bytes : list byte) (off f n i : nat) :
  length c = length bytes -> (off + f + n <= length c)%nat ->
  (take off c ++ memcpy (drop off c) f (slice f n (drop off bytes))) !! i =
    if decide (off + f <= i < off + f + n)%nat then bytes !! i else c !! i.
Proof.
  intros Hl Hle. destruct (decide (i < off)%nat) as [Hi|Hi].
  - rewrite lookup_app_l by (rewrite length_take; lia). rewrite lookup_take_lt by lia. by rewrite decide_False by lia.
  - rewrite lookup_app_r by (rewrite length_take; lia). rewrite length_take, memcpy_lookup by len.
    rewrite length_slice, length_drop, slice_lookup, !lookup_drop. repeat case_decide; try lia; f_equal; lia.
Qed.

Lemma write_out_mapped_step device p o m bytes (f n : nat) w l k areas :
  device_ok device -> object_ok o -> clone m <> None -> Z.of_nat (length bytes) = allocationSize m ->
  Z.of_nat (length (clone_bytes m)) = allocationSize m -> fits_in o m -> Z.of_nat (f + n) <= h_size o ->
  w_base p <= h_offset o + Z.of_nat f -> h_offset o + Z.of_nat (f + n) <= w_base p + w_size p ->
  written_state w l areas -> roomy l (Datatypes.S k) -> area_ok areas m o ->
  exists m' o' w' l' areas',
    write_out_mapped write_extension buffers structures device p (w_base p) bytes m o (Z.of_nat f) (Z.of_nat n) None w = Ok (m', o', w') /\
    written_state w' l' areas' /\ roomy l' k /\ wrote bytes (part_of o f n) areas m m' o o' areas' /\
    exposed m' = exposed m /\ forall i, part_of o f n i -> synced bytes m' i.
Proof.
  intros Hd Ho Hcl Hlb Hlc [Hz Hin] Hfn Hw1 Hw2 Hs Hroom Ha. destruct (clone m) as [c|] eqn:Ec; [|done]. clear Hcl.
  assert (Ecb : clone_bytes m = c) by (unfold clone_bytes; by rewrite Ec). rewrite Ecb in Hlc.
  destruct (object_update_step device o c bytes f n w l k areas m) as (written & o' & w' & l' & areas' & E & Hs' & Hr' & Hsame & Hoth & a' & Ha' & Hla' & Hsl');
    try done; try lia.
  set (off := Z.to_nat (h_offset o)) in *.
  set (m' := with_clone m (Some (take off c ++ memcpy (drop off c) f (slice f n (drop off bytes))))).
  assert (Hlook : forall i, clone_bytes m' !! i = if decide (off + f <= i < off + f + n)%nat then bytes !! i else c !! i).
  { intros i. unfold m', clone_bytes. simpl. apply clone_update; lia. }
  exists m', o', w', l', areas'. split; [|split; [done|split; [done|split; [split|split; [done|]]]]].
  - unfold write_out_mapped. rewrite Ec. unfold read_mapped.
    replace (w_base p + h_offset o - w_base p) with (h_offset o) by lia.
    rewrite !(proj2 (Z.leb_le _ _)) by lia. cbn [andb require obind]. cbv zeta. fold off. rewrite E. done.
  - split; try done. intros i. rewrite Hlook, Ecb. case_decide as Hi; [|by left]. right. split; [unfold part_of; lia|].
    unfold synced. by rewrite Hlook, decide_True.
  - done.
  - rewrite Ecb. unfold m', clone_bytes. simpl. rewrite length_app, length_take, length_memcpy by len. rewrite length_drop. lia.
  - exact Hsame.
  - exists a'. rewrite (same_object_key _ _ Hsame). destruct Hsame as (_ & _ & _ & _ & E5 & E6 & _). rewrite E5, E6.
    split; [done|]. split; [done|]. rewrite Hsl'. fold off. apply list_eq. intros i. rewrite !slice_lookup.
    case_decide as Hi; [|done]. rewrite Hlook, memcpy_lookup by len. rewrite length_slice, length_drop.
    repeat case_decide; try lia; rewrite ?slice_lookup, ?lookup_drop, ?decide_True by lia; f_equal; lia.
  - exact Hoth.
  - intros i Hi. unfold part_of in Hi. unfold synced. rewrite Hlook, decide_True by lia. done.
Qed.

(** the touched ranges lie inside of the object *)
Definition ranges_in (o : hostobject) (rs : list range) : Prop :=
  Forall (fun r => 0 <= r_first r /\ r_first r <= r_last r /\ r_last r < h_size o) rs.

(** what is read through the pointer is mapped *)
Definition window_covers (p : window) (m : hostmemory) (o : hostobject) (rs : list range) : Prop :=
  forall x, is_exposed m x -> covers rs (x - h_offset o) -> w_base p <= x < w_base p + w_size p.

Lemma wrote_refl bytes P areas m o : area_ok areas m o -> wrote bytes P areas m m o o areas.
Proof. intros Ha. split; try done. apply progress_refl. Qed.

Lemma wrote_trans bytes P areas1 areas2 areas3 m1 m2 m3 o1 o2 o3 :
  wrote bytes P areas1 m1 m2 o1 o2 areas2 -> wrote bytes P areas2 m2 m3 o2 o3 areas3 -> wrote bytes P areas1 m1 m3 o1 o3 areas3.
Proof.
  intros [A1 A2 A3 A4 A5 A6] [B1 B2 B3 B4 B5 B6]. split.
  - by eapply progress_trans.
  - auto.
  - congruence.
  - by eapply same_object_trans.
  - done.
  - intros k Hk. rewrite B6 by (by rewrite (same_object_key _ _ A4)). by apply A6.
Qed.

(** one touched range: fetched, compared and written *)
Lemma flush_range_step device p o m bytes r w l k areas :
  device_ok device -> object_ok o -> memory_ok bytes m -> fits_in o m ->
  0 <= r_first r -> r_first r <= r_last r -> r_last r < h_size o -> window_covers p m o [r] ->
  written_state w l areas -> roomy l (Datatypes.S k) -> area_ok areas m o ->
  exists m' o' w' l' areas',
    (forall rs, flush_ranges write_extension buffers structures device p (w_base p) bytes (r :: rs) m o w =
      flush_ranges write_extension buffers structures device p (w_base p) bytes rs m' o' w') /\
    written_state w' l' areas' /\ roomy l' k /\ wrote bytes (in_object o) areas m m' o o' areas' /\ memory_ok bytes m' /\
    forall x, r_first r <= x <= r_last r -> synced bytes m' (Z.to_nat (x + h_offset o)).
Proof.
  intros Hd Ho Hm [Hz Hin] H1 H2 H3 Hwin Hs Hroom Ha. pose proof Hm as [M1 M2 M3 M4 M5 M6 M7 M8 M9 M10].
  pose proof (oo_size _ Ho) as [Hs1 Hs2]. set (lo := r_first r + h_offset o). set (hi := r_last r + h_offset o).
  assert (Elo : wrap64 (r_first r + h_offset o) = lo) by (apply wrap64_small; u_lia).
  assert (Ehi : wrap64 (r_last r + h_offset o) = hi) by (apply wrap64_small; u_lia).
  destruct (fetch_ok (exposed m) lo hi (is_mapped m) M7) as (v & e & Ef & Hwf & Hhull & Hkeep & Hdrop); [lia|lia|].
  assert (Hsub : forall x, RangeTracking.contents e x -> is_exposed m x).
  { intros x Hx. destruct (is_mapped m); [|by apply (Hdrop eq_refl)]. unfold RangeTracking.contents in *. by rewrite Hkeep in Hx. }
  assert (Hback : forall x, is_exposed m x -> ~ (lo <= x <= hi) -> RangeTracking.contents e x).
  { intros x Hx Hn. destruct (is_mapped m); [|by apply (Hdrop eq_refl)]. unfold RangeTracking.contents in *. by rewrite Hkeep. }
  set (m1 := with_exposed m e).
  (** once the range is synced the invariant holds again *)
  assert (Hagain : forall m', progress bytes (in_object o) m1 m' -> exposed m' = e -> length (clone_bytes m') = length (clone_bytes m) ->
    (clone m <> None -> clone m' <> None) -> (forall i, lo <= Z.of_nat i <= hi -> synced bytes m' i) -> memory_ok bytes m').
  { intros m' Hp He Hl Hc Hsync. pose proof Hp as [(P1 & P2 & P3) (P4 & P5 & P6) _ _]. simpl in P1, P2, P3, P4, P5, P6.
    split; unfold is_coherent, is_exposed in *; rewrite ?P1, ?P2, ?P3, ?P4, ?P5, ?Hl, ?He; try done.
    - intros Hn x Hx. apply (M6 ltac:(destruct (clone m); [by destruct Hc|done]) x). by apply Hsub.
    - intros x Hx. apply M8. by apply Hsub.
    - intros i Hi. destruct (decide (lo <= Z.of_nat i <= hi)) as [Hr|Hr]; [by destruct Hi; apply Hsync|].
      apply Hback; [|done]. apply M9. intros Hsy. apply Hi. exact (progress_synced _ _ _ _ i Hp Hsy).
    - intros q Hq. destruct (M10 q Hq) as (Q1 & Q2 & Q3 & Q4 & Q5). repeat split; try done.
      intros x Hx. assert (is_mapped m = true) as Em by (unfold is_mapped; by rewrite Hq).
      unfold RangeTracking.contents. rewrite (Hkeep Em). by apply Q5. }
  assert (Hm1 : area_ok areas m1 o) by exact Ha.
  assert (Hstep : forall rs, flush_ranges write_extension buffers structures device p (w_base p) bytes (r :: rs) m o w =
    if negb (valid v) then flush_ranges write_extension buffers structures device p (w_base p) bytes rs m1 o w
    else
      let* (res, w) := write_out_mapped write_extension buffers structures device p (w_base p) bytes m1 o
        (wrap64 (r_first v - h_offset o)) (wrap64 (r_last v - r_first v + 1)) None w in
      flush_ranges write_extension buffers structures device p (w_base p) bytes rs res.1 res.2 w).
  { intros rs. cbn [flush_ranges r_first r_last]. rewrite Elo, Ehi. rewrite (wrap64_small (h_offset o + h_size o)) by u_lia.
    rewrite (proj2 (Z.ltb_lt _ _)) by lia. cbn [require obind]. unfold fetch_range. cbn [r_first r_last]. rewrite Ef. done. }
  destruct (valid v) eqn:Ev; cbn [negb] in Hstep.
  - assert (Hne : exists x, is_exposed m x /\ lo <= x <= hi) by (by apply (hull_of_valid _ _ Hhull)).
    destruct Hhull as [[_ Hn]|(V1 & V2 & V3)]; [destruct Hne as [x Hx]; by destruct (Hn x)|].
    assert (Hv : r_first v <= r_last v) by (apply V3; done).
    assert (Hcov : forall x, is_exposed m x /\ lo <= x <= hi -> w_base p <= x < w_base p + w_size p).
    { intros x [Hx Hr]. apply Hwin; [done|]. apply covers_single. unfold in_range. lia. }
    pose proof (Hcov _ V1) as C1. pose proof (Hcov _ V2) as C2. destruct V1 as [V1 V1']. destruct V2 as [V2 V2'].
    assert (E1 : wrap64 (r_first v - h_offset o) = Z.of_nat (Z.to_nat (r_first v - h_offset o))) by (rewrite wrap64_small; u_lia).
    assert (E2 : wrap64 (r_last v - r_first v + 1) = Z.of_nat (Z.to_nat (r_last v - r_first v + 1))) by (rewrite wrap64_small; u_lia).
    set (f := Z.to_nat (r_first v - h_offset o)) in *. set (n := Z.to_nat (r_last v - r_first v + 1)) in *.
    assert (Hcl : clone m1 <> None) by (intros Hn; by apply (M6 Hn (r_first v))).
    destruct (write_out_mapped_step device p o m1 bytes f n w l k areas) as (m' & o' & w' & l' & areas' & E & Hs' & Hr' & Hwr & He' & Hsync);
      try done; try lia.
    assert (Hwr' : wrote bytes (in_object o) areas m m' o o' areas').
    { destruct Hwr as [W1 W2 W3 W4 W5 W6]. split; try done.
      apply (progress_weaken _ _ (in_object o)) in W1; [|intros i; unfold part_of, in_object; lia].
      destruct W1 as [P1 P2 P3 P4]. split; try done. intros x Hx. apply P3 in Hx. by apply Hsub. }
    assert (Hall : forall i, lo <= Z.of_nat i <= hi -> synced bytes m' i).
    { intros i Hi. destruct (decide (r_first v <= Z.of_nat i <= r_last v)) as [Hvi|Hvi]; [apply Hsync; unfold part_of; lia|].
      apply (progress_synced _ _ _ _ _ (wr_progress _ _ _ _ _ _ _ _ Hwr')). destruct (decide (synced bytes m i)) as [?|Hn]; [done|].
      destruct Hvi. apply V3. split; [by apply M9|done]. }
    exists m', o', w', l', areas'. split; [intros rs; rewrite Hstep, E1, E2, E; done|]. do 2 (split; [done|]). split; [done|]. split.
    + apply Hagain; try done; [|apply Hwr|apply Hwr].
      destruct Hwr as [W1 _ _ _ _ _]. eapply progress_weaken; [|exact W1]. intros i. unfold part_of, in_object. lia.
    + intros x Hx. apply Hall. lia.
  - assert (Hno : forall x, ~ (is_exposed m x /\ lo <= x <= hi)).
    { intros x Hx. assert (valid v = true) as Ev' by (apply (hull_of_valid _ _ Hhull); by exists x). congruence. }
    assert (Hall : forall i, lo <= Z.of_nat i <= hi -> synced bytes m i).
    { intros i Hi. destruct (decide (synced bytes m i)) as [?|Hn]; [done|]. destruct (Hno (Z.of_nat i)). split; [by apply M9|done]. }
    exists m1, o, w, l, areas. split; [exact Hstep|]. split; [done|]. split; [by apply (roomy_le l (Datatypes.S k)); [lia|]|]. split.
    { split; try done. split; auto. }
    split; [apply Hagain; try done; apply progress_refl|]. intros x Hx. apply (Hall (Z.to_nat (x + h_offset o))). lia.
Qed.

Lemma in_object_same o o' i : same_object o o' -> in_object o' i <-> in_object o i.
Proof. intros (_ & _ & _ & _ & E5 & E6 & _). unfold in_object. by rewrite E5, E6. Qed.

Lemma wrote_same_object bytes areas m m' o1 o o' areas' : same_object o1 o ->
  wrote bytes (in_object o) areas m m' o o' areas' -> wrote bytes (in_object o1) areas m m' o o' areas'.
Proof.
  intros Hs [W1 W2 W3 W4 W5 W6]. split; try done. eapply progress_weaken; [|exact W1]. intros i. apply (in_object_same _ _ i Hs).
Qed.

Lemma flush_ranges_step device p bytes rs : device_ok device -> forall m o w l k areas,
  object_ok o -> memory_ok bytes m -> fits_in o m -> ranges_in o rs -> window_covers p m o rs ->
  written_state w l areas -> roomy l (length rs + k) -> area_ok areas m o ->
  exists m' o' w' l' areas',
    flush_ranges write_extension buffers structures device p (w_base p) bytes rs m o w = Ok (m', o', w') /\
    written_state w' l' areas' /\ roomy l' k /\ wrote bytes (in_object o) areas m m' o o' areas' /\ memory_ok bytes m' /\
    forall x, covers rs x -> synced bytes m' (Z.to_nat (x + h_offset o)).
Proof.
  intros Hd. induction rs as [|r rs IH]; intros m o w l k areas Ho Hm Hfit Hrs Hwin Hs Hroom Ha.
  { exists m, o, w, l, areas. split; [done|]. do 2 (split; [done|]). split; [by apply wrote_refl|]. split; [done|].
    intros x Hx. by apply covers_nil in Hx. }
  apply Forall_cons in Hrs as [(R1 & R2 & R3) Hrs].
  destruct (flush_range_step device p o m bytes r w l (length rs + k) areas) as (m1 & o1 & w1 & l1 & areas1 & E & Hs1 & Hr1 & Hwr & Hm1 & Hsy);
    try done.
  { intros x Hx Hc. apply Hwin; [done|]. apply covers_cons. left. by apply covers_single in Hc. }
  pose proof (wr_object _ _ _ _ _ _ _ _ Hwr) as Hsame. pose proof (wr_progress _ _ _ _ _ _ _ _ Hwr) as Hp.
  assert (Hoff : h_offset o1 = h_offset o) by apply Hsame. assert (Hsz : h_size o1 = h_size o) by apply Hsame.
  destruct (IH m1 o1 w1 l1 k areas1) as (m' & o' & w' & l' & areas' & E' & Hs' & Hr' & Hwr' & Hm' & Hsy'); try done.
  { by eapply object_ok_same. }
  { destruct Hfit. unfold fits_in. rewrite Hoff, Hsz. destruct (pr_fixed _ _ _ _ Hp) as [-> _]. done. }
  { unfold ranges_in in *. by rewrite Hsz. }
  { intros x Hx Hc. rewrite Hoff in Hc. apply Hwin; [by apply (pr_exposed _ _ _ _ Hp)|]. apply covers_cons. by right. }
  { apply Hwr. }
  exists m', o', w', l', areas'. split; [by rewrite E|]. do 2 (split; [done|]).
  pose proof (wrote_same_object _ _ _ _ _ _ _ _ Hsame Hwr') as Hwr''.
  split; [by eapply wrote_trans|]. split; [done|]. intros x Hx. apply covers_cons in Hx as [Hx|Hx].
  - apply (progress_synced _ _ _ _ _ (wr_progress _ _ _ _ _ _ _ _ Hwr')). by apply Hsy.
  - rewrite <- Hoff. by apply Hsy'.
Qed.

(** ** All memories and objects *)

Record store_ok (bytes : list (list byte)) (areas : host_areas) (st : capture S) : Prop := {
  so_memory : forall i m, memories st !! i = Some m -> exists b, bytes !! i = Some b /\ memory_ok b m;
  so_object : forall i o, objects st !! i = Some o -> object_ok o;
  so_backing : forall i o mi, objects st !! i = Some o -> h_backing o = Some mi ->
    exists m, memories st !! mi = Some m /\ fits_in o m /\ area_ok areas m o;
  so_apart : forall i j o o' mi x, objects st !! i = Some o -> objects st !! j = Some o' -> i <> j ->
    h_backing o = Some mi -> h_backing o' = Some mi -> in_object o x -> ~ in_object o' x;
  so_keys : forall i j o o', objects st !! i = Some o -> objects st !! j = Some o' -> object_key o = object_key o' -> i = j;
  so_touched : forall c cb obj e, cmdbuffers st !! c = Some cb -> (obj, e) ∈ touched cb ->
    wf e /\ exists o, objects st !! obj = Some o /\ forall x, RangeTracking.contents e x -> x < h_size o
}.

(** what a submit does to the store *)
Record moved (bytes : list (list byte)) (st st' : capture S) : Prop := {
  mv_cmdbuffers : cmdbuffers st' = cmdbuffers st;
  mv_length : length (memories st') = length (memories st);
  mv_memories : forall i m, memories st !! i = Some m -> exists b m', bytes !! i = Some b /\ memories st' !! i = Some m' /\
    progress b (fun _ => True) m m';
  mv_objects : forall i o, objects st !! i = Some o -> exists o', objects st' !! i = Some o' /\ same_object o o'
}.

Lemma moved_refl bytes areas st : store_ok bytes areas st -> moved bytes st st.
Proof.
  intros Hs. split; [done|done| |].
  - intros i m Hm. destruct (so_memory _ _ _ Hs i m Hm) as (b & Hb & _). exists b, m. repeat split; auto.
  - intros i o Ho. exists o. split; [done|apply same_object_refl].
Qed.

Lemma moved_trans bytes st1 st2 st3 : moved bytes st1 st2 -> moved bytes st2 st3 -> moved bytes st1 st3.
Proof.
  intros [A1 A0 A2 A3] [B1 B0 B2 B3]. split; [congruence|congruence| |].
  - intros i m Hm. destruct (A2 i m Hm) as (b & m' & Hb & Hm' & Hp). destruct (B2 i m' Hm') as (b' & m'' & Hb' & Hm'' & Hp').
    assert (b' = b) as -> by congruence. exists b, m''. repeat split; try done; by eapply progress_trans.
  - intros i o Ho. destruct (A3 i o Ho) as (o' & Ho' & Hs). destruct (B3 i o' Ho') as (o'' & Ho'' & Hs').
    exists o''. split; [done|]. by eapply same_object_trans.
Qed.

(** the object's bytes in [e] are in step with the device *)
Definition object_synced (bytes : list (list byte)) (st : capture S) (obj : nat) (e : exposure) : Prop :=
  forall o mi m b x, objects st !! obj = Some o -> h_backing o = Some mi -> memories st !! mi = Some m -> bytes !! mi = Some b ->
    RangeTracking.contents e x -> synced b m (Z.to_nat (x + h_offset o)).

Lemma object_synced_moved bytes areas st st' obj e : store_ok bytes areas st -> moved bytes st st' ->
  (exists o, objects st !! obj = Some o) -> object_synced bytes st obj e -> object_synced bytes st' obj e.
Proof.
  intros Hs [_ _ M2 M3] [o0 Ho0] Hsy o mi m b x Ho Hb Hm Hby Hx.
  destruct (M3 obj o0 Ho0) as (o' & Ho' & Hsame). assert (o' = o) as -> by congruence.
  pose proof Hsame as (_ & _ & _ & E4 & E5 & _). rewrite E4 in Hb. rewrite E5.
  destruct (so_backing _ _ _ Hs obj o0 mi Ho0 Hb) as (m0 & Hm0 & _ & _).
  destruct (M2 mi m0 Hm0) as (b' & m' & Hb' & Hm' & Hp). assert (m' = m) as -> by congruence. assert (b' = b) as -> by congruence.
  eapply progress_synced; [exact Hp|]. by apply (Hsy o0 mi m0 b x).
Qed.

Lemma separated_ranges_in o l : forall lo, 0 <= lo -> separated lo l -> (forall x, covers l x -> x < h_size o) -> ranges_in o l.
Proof.
  induction l as [|s l IH]; intros lo Hlo Hsep Hin; [constructor|]. destruct Hsep as (H1 & H2 & H3 & H4). constructor.
  - split; [lia|]. split; [done|]. apply Hin, covers_cons. left. unfold in_range. lia.
  - apply (IH (r_last s + 2)); [lia|done|]. intros x Hx. apply Hin, covers_cons. by right.
Qed.

Lemma touched_ranges_in e o : wf e -> (forall x, RangeTracking.contents e x -> x < h_size o) -> ranges_in o (list_ e).
Proof. intros [Hs _] Hin. by apply (separated_ranges_in o _ 0). Qed.

Section Update.
Context (bytes : list (list byte)) (areas areas' : host_areas) (st : capture S) (memory obj : nat).
Context (b : list byte) (m m' : hostmemory) (o o' : hostobject) (w' : lava_file_writer S).
Hypothesis Hst : store_ok bytes areas st.
Hypothesis Hmem : memories st !! memory = Some m.
Hypothesis Hbytes : bytes !! memory = Some b.
Hypothesis Hobj : objects st !! obj = Some o.
Hypothesis Hback : h_backing o = Some memory.
Hypothesis Hwrote : wrote b (in_object o) areas m m' o o' areas'.
Hypothesis Hok : memory_ok b m'.

Let st' := with_writer (with_object (with_memory st memory m') obj o') w'.

Lemma updated_memory i : memories st' !! i = if decide (i = memory) then Some m' else memories st !! i.
Proof.
  simpl. case_decide as E; [subst i|by apply list_lookup_insert_ne].
  apply list_lookup_insert_eq. by apply lookup_lt_Some in Hmem.
Qed.

Lemma updated_object i : objects st' !! i = if decide (i = obj) then Some o' else objects st !! i.
Proof.
  simpl. case_decide as E; [subst i|by apply list_lookup_insert_ne].
  apply list_lookup_insert_eq. by apply lookup_lt_Some in Hobj.
Qed.

Lemma updated_object_old i o1 : objects st' !! i = Some o1 ->
  exists o0, objects st !! i = Some o0 /\ same_object o0 o1 /\ (i = obj -> o0 = o /\ o1 = o') /\ (i <> obj -> o0 = o1).
Proof.
  rewrite updated_object. case_decide as E; [subst i|].
  - intros [= <-]. exists o. split; [done|]. split; [apply Hwrote|]. by split.
  - intros Hi. exists o1. split; [done|]. split; [apply same_object_refl|]. by split.
Qed.

Lemma store_update : store_ok bytes areas' st' /\ moved bytes st st'.
Proof.
  destruct Hwrote as [W1 W2 W3 W4 W5 W6]. destruct Hst as [S1 S2 S3 S4 S5 S6].
  assert (Hfit : forall oi oj, same_object oi oj -> fits_in oi m -> fits_in oj m').
  { intros oi oj (_ & _ & _ & _ & E5 & E6 & _) Hf. unfold fits_in. rewrite E5, E6. by destruct (pr_fixed _ _ _ _ W1) as [-> _]. }
  split; split.
  - intros i mi. rewrite updated_memory. case_decide as E; [subst i; intros [= <-]; by exists b|apply S1].
  - intros i oi Hi. apply updated_object_old in Hi as (o0 & Hi0 & Hs & _). eapply object_ok_same; [exact Hs|]. by apply (S2 i).
  - intros i oi mi Hi Hbi. apply updated_object_old in Hi as (o0 & Hi & Hs & He & Hne).
    assert (Hb0 : h_backing o0 = Some mi) by (destruct Hs as (_ & _ & _ & E & _); congruence).
    destruct (S3 i o0 mi Hi Hb0) as (mm & Hmm & Hf & Ha). pose proof (S2 i o0 Hi) as Hoo. destruct (oo_size _ Hoo) as [Hpos _].
    assert (Hkey : i <> obj -> object_key o0 <> object_key o) by (intros Hn E; by apply Hn, (S5 i obj o0 o)).
    rewrite updated_memory. case_decide as Em.
    + subst mi. assert (mm = m) as -> by congruence. exists m'. split; [done|]. split; [by eapply Hfit|].
      destruct (decide (i = obj)) as [Ei|Ei]; [destruct (He Ei) as [-> ->]; done|].
      apply (area_ok_keep areas _ m _ o0); try done; [by apply W6, Hkey| |by destruct Hf].
      intros x Hx. apply (progress_outside _ _ _ _ _ W1). by apply (S4 i obj o0 o memory).
    + exists mm. split; [done|]. split.
      { destruct Hs as (_ & _ & _ & _ & E5 & E6 & _). unfold fits_in. by rewrite E5, E6. }
      assert (Ei : i <> obj) by (intros ->; apply Em; destruct (He eq_refl) as [E _]; subst o0; congruence).
      apply (area_ok_keep areas _ mm _ o0); try done; [by apply W6, Hkey|by destruct Hf].
  - intros i j oi oj mi x Hi Hj Hij Hbi Hbj Hx.
    apply updated_object_old in Hi as (oi0 & Hi & Hsi & _). apply updated_object_old in Hj as (oj0 & Hj & Hsj & _).
    rewrite (in_object_same _ _ _ Hsj). rewrite (in_object_same _ _ _ Hsi) in Hx.
    destruct Hsi as (_ & _ & _ & Ei & _). destruct Hsj as (_ & _ & _ & Ej & _).
    apply (S4 i j oi0 oj0 mi x); congruence || done.
  - intros i j oi oj Hi Hj Hk. apply updated_object_old in Hi as (oi0 & Hi & Hsi & _).
    apply updated_object_old in Hj as (oj0 & Hj & Hsj & _).
    rewrite (same_object_key _ _ Hsi), (same_object_key _ _ Hsj) in Hk. by apply (S5 i j oi0 oj0).
  - intros c cb ob e Hc He. destruct (S6 c cb ob e Hc He) as (Hwf & ob0 & Ho0 & Hx). split; [done|].
    rewrite updated_object. case_decide as E; [subst ob|by exists ob0].
    exists o'. split; [done|]. assert (ob0 = o) as -> by congruence. destruct W4 as (_ & _ & _ & _ & _ & -> & _). done.
  - done.
  - apply length_insert.
  - intros i mi Hi. rewrite updated_memory. case_decide as E; [subst i|].
    + assert (mi = m) as -> by congruence. exists b, m'. split; [done|]. split; [done|]. by eapply progress_weaken.
    + destruct (S1 i mi Hi) as (bi & Hbi & _). exists bi, mi. repeat split; auto.
  - intros i oi Hi. rewrite updated_object. case_decide as E; [subst i|exists oi; split; [done|apply same_object_refl]].
    assert (oi = o) as -> by congruence. by exists o'.
Qed.
End Update.

(** the ranges of all exposures of a map *)
Definition cost (t : touched_map) : nat := list_sum (map (fun p => length (list_ p.2)) t).

Lemma cost_cons obj e t : cost ((obj, e) :: t) = (length (list_ e) + cost t)%nat.
Proof. done. Qed.

(** what is touched and exposed in a memory can be read through the pointer *)
Definition covers_touched (p : window) (memory : nat) (st : capture S) (t : touched_map) : Prop :=
  forall obj e o m, (obj, e) ∈ t -> objects st !! obj = Some o -> h_backing o = Some memory ->
    memories st !! memory = Some m -> window_covers p m o (list_ e).

Lemma covers_touched_moved bytes p memory st st' t : moved bytes st st' ->
  (forall obj e, (obj, e) ∈ t -> exists o, objects st !! obj = Some o) -> (exists m, memories st !! memory = Some m) ->
  covers_touched p memory st t -> covers_touched p memory st' t.
Proof.
  intros [_ _ M2 M3] Hobj [m0 Hm0] Hc obj e o m Hin Ho Hb Hm x Hx Hcov.
  destruct (Hobj obj e Hin) as [o0 Ho0]. destruct (M3 obj o0 Ho0) as (o' & Ho' & Hs). assert (o' = o) as -> by congruence.
  destruct (M2 memory m0 Hm0) as (b & m' & _ & Hm' & Hp). assert (m' = m) as -> by congruence.
  destruct Hs as (_ & _ & _ & E4 & E5 & _). rewrite E5 in Hcov. rewrite E4 in Hb.
  apply (Hc obj e o0 m0 Hin Ho0 Hb Hm0 x); [|done]. by apply (pr_exposed _ _ _ _ Hp).
Qed.

(** the exposures of the map belong to objects and stay inside of them *)
Definition touched_ok (st : capture S) (t : touched_map) : Prop :=
  forall obj e, (obj, e) ∈ t -> wf e /\ exists o, objects st !! obj = Some o /\ forall x, RangeTracking.contents e x -> x < h_size o.

Lemma touched_ok_moved bytes st st' t : moved bytes st st' -> touched_ok st t -> touched_ok st' t.
Proof.
  intros [_ _ _ M3] Ht obj e Hin. destruct (Ht obj e Hin) as (Hwf & o & Ho & Hx). split; [done|].
  destruct (M3 obj o Ho) as (o' & Ho' & Hs). exists o'. split; [done|]. destruct Hs as (_ & _ & _ & _ & _ & -> & _). done.
Qed.

(** one touched object of the memory *)
Lemma flush_object_step device memory p b bytes st obj e o m k l areas :
  device_ok device -> bytes !! memory = Some b -> store_ok bytes areas st -> written_state (writer st) l areas ->
  roomy l (length (list_ e) + k) -> objects st !! obj = Some o -> h_backing o = Some memory -> memories st !! memory = Some m ->
  wf e -> (forall x, RangeTracking.contents e x -> x < h_size o) -> window_covers p m o (list_ e) ->
  exists m' o' w' l' areas',
    flush_ranges write_extension buffers structures device p (w_base p) b (list_ e) m o (writer st) = Ok (m', o', w') /\
    let st' := with_writer (with_object (with_memory st memory m') obj o') w' in
    store_ok bytes areas' st' /\ written_state (writer st') l' areas' /\ roomy l' k /\ moved bytes st st' /\
    object_synced bytes st' obj e.
Proof.
  intros Hd Hb Hst Hs Hroom Ho Hback Hm Hwf Hx Hwin. destruct (so_memory _ _ _ Hst memory m Hm) as (b' & Hb' & Hok).
  assert (b' = b) as -> by congruence. destruct (so_backing _ _ _ Hst obj o memory Ho Hback) as (m0 & Hm0 & Hfit & Ha).
  assert (m0 = m) as -> by congruence.
  destruct (flush_ranges_step device p b (list_ e) Hd m o (writer st) l k areas) as (m' & o' & w' & l' & areas' & E & Hs' & Hr' & Hwr & Hok' & Hsy);
    try done; [by apply (so_object _ _ _ Hst obj)|by apply touched_ranges_in|].
  exists m', o', w', l', areas'. split; [done|]. intros st'.
  destruct (store_update bytes areas areas' st memory obj b m m' o o' w') as [Hst' Hmv]; try done.
  do 4 (split; [done|]). intros o1 mi m1 b1 x Ho1 Hb1 Hm1 Hby1 Hxe.
  pose proof (updated_object st memory obj m' o o' w' Ho obj) as Eo. rewrite decide_True in Eo by done.
  pose proof (wr_object _ _ _ _ _ _ _ _ Hwr) as Hsame.
  assert (o1 = o') as -> by (unfold st' in Ho1; congruence). pose proof Hsame as (_ & _ & _ & E4 & E5 & _).
  assert (mi = memory) as -> by congruence.
  pose proof (updated_memory st memory obj m m' o' w' Hm memory) as Em. rewrite decide_True in Em by done.
  assert (m1 = m') as -> by (unfold st' in Hm1; congruence). assert (b1 = b) as -> by congruence. rewrite E5. by apply Hsy.
Qed.

Lemma flush_touched_step device memory p b bytes t : device_ok device -> bytes !! memory = Some b -> forall st k l areas,
  store_ok bytes areas st -> written_state (writer st) l areas -> roomy l (cost t + k) -> touched_ok st t ->
  covers_touched p memory st t -> (exists m, memories st !! memory = Some m) ->
  exists st' l' areas', flush_touched write_extension buffers structures device memory p (w_base p) b t st = Ok st' /\
    store_ok bytes areas' st' /\ written_state (writer st') l' areas' /\ roomy l' k /\ moved bytes st st' /\
    forall obj e o, (obj, e) ∈ t -> objects st !! obj = Some o -> h_backing o = Some memory -> object_synced bytes st' obj e.
Proof.
  intros Hd Hb. induction t as [|[obj e] t IH]; intros st k l areas Hst Hs Hroom Ht Hcov Hmem.
  { exists st, l, areas. split; [done|]. do 3 (split; [done|]). split; [by eapply moved_refl|].
    intros ob e o Hin. by apply not_elem_of_nil in Hin. }
  destruct (Ht obj e ltac:(by left)) as (Hwf & o & Ho & Hx). cbn [flush_touched]. unfold at_index. rewrite Ho. cbn [obind].
  assert (Ht' : touched_ok st t) by (intros ob e' Hin; apply Ht; by right).
  assert (Hcov' : covers_touched p memory st t) by (intros ob e' o' m' Hin; apply (Hcov ob e'); by right).
  assert (Hrest : forall st1 l1 areas1, store_ok bytes areas1 st1 -> written_state (writer st1) l1 areas1 -> roomy l1 (cost t + k) ->
    moved bytes st st1 -> (h_backing o = Some memory -> object_synced bytes st1 obj e) ->
    exists st' l' areas', flush_touched write_extension buffers structures device memory p (w_base p) b t st1 = Ok st' /\
      store_ok bytes areas' st' /\ written_state (writer st') l' areas' /\ roomy l' k /\ moved bytes st st' /\
      forall ob e' o', (ob, e') ∈ (obj, e) :: t -> objects st !! ob = Some o' -> h_backing o' = Some memory -> object_synced bytes st' ob e').
  { intros st1 l1 areas1 H1 H2 H3 H4 H5.
    destruct (IH st1 k l1 areas1) as (st' & l' & areas' & E & R1 & R2 & R3 & R4 & R5); try done.
    { by eapply touched_ok_moved. }
    { apply (covers_touched_moved bytes p memory st st1); try done. intros ob e' Hin. destruct (Ht' ob e' Hin) as (_ & o' & Ho' & _). by exists o'. }
    { destruct Hmem as [m Hm]. destruct (mv_memories _ _ _ H4 memory m Hm) as (_ & m' & _ & Hm' & _). by exists m'. }
    exists st', l', areas'. split; [done|]. do 3 (split; [done|]). split; [by eapply moved_trans|].
    intros ob e' o' Hin Ho' Hb'. apply elem_of_cons in Hin as [[= -> ->]|Hin].
    - destruct (mv_objects _ _ _ H4 obj o Ho) as (o1 & Ho1 & _).
      apply (object_synced_moved bytes areas1 st1); try done; [by exists o1|]. apply H5. congruence.
    - destruct (mv_objects _ _ _ H4 ob o' Ho') as (o1 & Ho1 & Hs1). apply (R5 ob e' o1); try done.
      destruct Hs1 as (_ & _ & _ & -> & _). done. }
  rewrite cost_cons in Hroom.
  case_bool_decide as Hback.
  - destruct Hmem as [m Hm].
    destruct (flush_object_step device memory p b bytes st obj e o m (cost t + k) l areas) as (m' & o' & w' & l' & areas' & E & H1 & H2 & H3 & H4 & H5);
      try done; [by rewrite Nat.add_assoc|by apply (Hcov obj e o m); [left| | |]|].
    assert (Hnd : t_state (h_base o) <> destroyed).
    { pose proof (oo_usable _ (so_object _ _ _ Hst obj o Ho)) as Hu. simpl in Hu. intros Hdest. rewrite Hdest in Hu. done. }
    rewrite bool_decide_eq_false_2 by done. cbn [negb require obind]. rewrite Hm. cbn [obind]. rewrite E. cbn [obind fst snd].
    by apply (Hrest _ l' areas').
  - apply (Hrest st l areas); try done; [|by eapply moved_refl].
    eapply roomy_le; [|exact Hroom]. lia.
Qed.

(** ** Submits *)

Context (wrap_vkMapMemory : nat -> Z -> Z -> window).
Context (iterate : forall A : Type, list A -> list A).
(** a mapping reaches the bytes asked for, and a container is walked whole *)
Hypothesis map_law : forall memory offset size, wrap_vkMapMemory memory offset size = Window offset size.
Hypothesis iterate_law : forall A (l : list A), iterate A l ≡ₚ l.

Lemma cost_perm t t' : t ≡ₚ t' -> cost t = cost t'.
Proof.
  induction 1 as [|[o e] t t' _ IH|[o e] [o' e'] t|t1 t2 t3 _ IH1 _ IH2]; rewrite ?cost_cons; [done|lia|lia|lia].
Qed.

Definition cost_of (st : capture S) (c : nat) : nat :=
  match cmdbuffers st !! c with Some cb => cost (touched cb) | None => 0%nat end.

Definition cost_all (st : capture S) (cmdbufs : list nat) : nat := list_sum (map (cost_of st) cmdbufs).

Lemma cost_all_cons st c cmdbufs : cost_all st (c :: cmdbufs) = (cost_of st c + cost_all st cmdbufs)%nat.
Proof. done. Qed.

Lemma cost_all_perm st l l' : l ≡ₚ l' -> cost_all st l = cost_all st l'.
Proof. induction 1 as [|c l l' _ IH|c c' l|l1 l2 l3 _ IH1 _ IH2]; rewrite ?cost_all_cons; [done|lia|lia|lia]. Qed.

Lemma cost_all_moved bytes st st' cmdbufs : moved bytes st st' -> cost_all st' cmdbufs = cost_all st cmdbufs.
Proof. intros [E _ _ _]. unfold cost_all, cost_of. by rewrite E. Qed.

(** the command buffers exist *)
Definition known_cmdbuffers (st : capture S) (cmdbufs : list nat) : Prop :=
  Forall (fun c => exists cb, cmdbuffers st !! c = Some cb) cmdbufs.

(** everything the command buffers touch in one memory is in step *)
Definition cmdbuffers_synced (bytes : list (list byte)) (st : capture S) (cmdbufs : list nat) (memory : nat) : Prop :=
  forall c cb obj e o, c ∈ cmdbufs -> cmdbuffers st !! c = Some cb -> (obj, e) ∈ touched cb -> objects st !! obj = Some o ->
    h_backing o = Some memory -> object_synced bytes st obj e.

Lemma cmdbuffers_synced_moved bytes areas st st' cmdbufs memory : store_ok bytes areas st -> moved bytes st st' ->
  cmdbuffers_synced bytes st cmdbufs memory -> cmdbuffers_synced bytes st' cmdbufs memory.
Proof.
  intros Hst Hmv Hsy c cb obj e o Hin Hc He Ho Hb. rewrite (mv_cmdbuffers _ _ _ Hmv) in Hc.
  destruct (so_touched _ _ _ Hst c cb obj e Hc He) as (_ & o0 & Ho0 & _).
  apply (object_synced_moved bytes areas st); try done; [by exists o0|].
  destruct (mv_objects _ _ _ Hmv obj o0 Ho0) as (o1 & Ho1 & Hs). assert (o1 = o) as -> by congruence.
  apply (Hsy c cb obj e o0); try done. destruct Hs as (_ & _ & _ & <- & _). done.
Qed.

Lemma so_touched_ok bytes areas st c cb : store_ok bytes areas st -> cmdbuffers st !! c = Some cb -> touched_ok st (touched cb).
Proof. intros Hst Hc obj e Hin. by apply (so_touched _ _ _ Hst c cb). Qed.

Lemma flush_cmdbuffers_step device memory p b bytes cmdbufs : device_ok device -> bytes !! memory = Some b -> forall st k l areas,
  store_ok bytes areas st -> written_state (writer st) l areas -> roomy l (cost_all st cmdbufs + k) ->
  known_cmdbuffers st cmdbufs -> (exists m, memories st !! memory = Some m) ->
  (forall c cb, c ∈ cmdbufs -> cmdbuffers st !! c = Some cb -> covers_touched p memory st (touched cb)) ->
  exists st' l' areas',
    flush_cmdbuffers write_extension buffers structures iterate device memory p (w_base p) b cmdbufs st = Ok st' /\
    store_ok bytes areas' st' /\ written_state (writer st') l' areas' /\ roomy l' k /\ moved bytes st st' /\
    cmdbuffers_synced bytes st' cmdbufs memory.
Proof.
  intros Hd Hb. induction cmdbufs as [|c cmdbufs IH]; intros st k l areas Hst Hs Hroom Hk Hmem Hcov.
  { exists st, l, areas. split; [done|]. do 3 (split; [done|]). split; [by eapply moved_refl|].
    intros c cb obj e o Hin. by apply not_elem_of_nil in Hin. }
  apply Forall_cons in Hk as [[cb Hc] Hk]. cbn [flush_cmdbuffers]. unfold at_index at 1. rewrite Hc. cbn [obind].
  rewrite cost_all_cons in Hroom. unfold cost_of in Hroom. rewrite Hc in Hroom.
  destruct (flush_touched_step device memory p b bytes (iterate _ (touched cb)) Hd Hb st (cost_all st cmdbufs + k) l areas)
    as (st1 & l1 & areas1 & E1 & H1 & H2 & H3 & H4 & H5); try done.
  { rewrite (cost_perm _ _ (iterate_law _ (touched cb))), Nat.add_assoc. done. }
  { intros obj e Hin. rewrite (iterate_law _ (touched cb)) in Hin. by apply (so_touched _ _ _ Hst c cb). }
  { intros obj e o m Hin. rewrite (iterate_law _ (touched cb)) in Hin. apply (Hcov c cb); [by left|done|done]. }
  rewrite E1. cbn [obind]. pose proof (mv_cmdbuffers _ _ _ H4) as Ecb.
  destruct (IH st1 k l1 areas1) as (st' & l' & areas' & E' & R1 & R2 & R3 & R4 & R5); try done.
  { by rewrite (cost_all_moved bytes st st1). }
  { unfold known_cmdbuffers. by rewrite Ecb. }
  { destruct Hmem as [m Hm]. destruct (mv_memories _ _ _ H4 memory m Hm) as (_ & m' & _ & Hm' & _). by exists m'. }
  { intros c' cb' Hin Hc'. rewrite Ecb in Hc'. apply (covers_touched_moved bytes p memory st st1); try done.
    - intros obj e He. destruct (so_touched _ _ _ Hst c' cb' obj e Hc' He) as (_ & o & Ho & _). by exists o.
    - apply (Hcov c' cb'); [by right|done]. }
  exists st', l', areas'. split; [done|]. do 3 (split; [done|]). split; [by eapply moved_trans|].
  intros c' cb' obj e o Hin Hc' He Ho Hback. apply elem_of_cons in Hin as [->|Hin]; [|by apply (R5 c' cb' obj e o)].
  rewrite (mv_cmdbuffers _ _ _ R4), Ecb in Hc'. assert (cb' = cb) as -> by congruence.
  destruct (so_touched _ _ _ Hst c cb obj e Hc He) as (_ & o0 & Ho0 & _).
  destruct (mv_objects _ _ _ H4 obj o0 Ho0) as (o1 & Ho1 & Hs1).
  destruct (mv_objects _ _ _ R4 obj o1 Ho1) as (o2 & Ho2 & Hs2). assert (o2 = o) as -> by congruence.
  apply (object_synced_moved bytes areas1 st1); try done; [by exists o1|].
  apply (H5 obj e o0); [by rewrite (iterate_law _ (touched cb))|done|].
  destruct Hs1 as (_ & _ & _ & <- & _). destruct Hs2 as (_ & _ & _ & <- & _). done.
Qed.

(** a range to compare that begins inside the mapped window does not end with the byte
    behind it, where [bind_window] would still take the window for large enough *)
Definition no_edge (st : capture S) (entry : nat * range) : Prop :=
  forall m p, memories st !! entry.1 = Some m -> ptr m = Some p -> m_offset m <= r_first entry.2 -> r_last entry.2 <> m_offset m + m_size m.

Lemma moved_memory bytes st st' i m : moved bytes st st' -> memories st' !! i = Some m ->
  exists b m0, bytes !! i = Some b /\ memories st !! i = Some m0 /\ progress b (fun _ => True) m0 m.
Proof.
  intros [_ M1 M2 _] Hm. destruct (lookup_lt_is_Some_2 (memories st) i) as [m0 Hm0].
  { rewrite <- M1. by apply lookup_lt_Some in Hm. }
  destruct (M2 i m0 Hm0) as (b & m' & Hb & Hm' & Hp). assert (m' = m) as -> by congruence. by exists b, m0.
Qed.

Lemma no_edge_moved bytes st st' entry : moved bytes st st' -> no_edge st entry -> no_edge st' entry.
Proof.
  intros Hmv Hn m p Hm Hp. destruct (moved_memory _ _ _ _ _ Hmv Hm) as (b & m0 & _ & Hm0 & Hpr).
  destruct (pr_mapping _ _ _ _ Hpr) as (E1 & E2 & E3). rewrite E2, E3. apply (Hn m0 p Hm0). congruence.
Qed.

(** the hull of a memory holds what is exposed and touched *)
Definition hull_ok (st : capture S) (cmdbufs : list nat) (entry : nat * range) : Prop :=
  exists m, memories st !! entry.1 = Some m /\ 0 <= r_first entry.2 /\ r_first entry.2 <= r_last entry.2 /\
    r_last entry.2 < allocationSize m /\
    forall c cb obj e o x, c ∈ cmdbufs -> cmdbuffers st !! c = Some cb -> (obj, e) ∈ touched cb -> objects st !! obj = Some o ->
      h_backing o = Some entry.1 -> is_exposed m x -> RangeTracking.contents e (x - h_offset o) -> r_first entry.2 <= x <= r_last entry.2.

Lemma hull_ok_moved bytes areas st st' cmdbufs entry : store_ok bytes areas st -> moved bytes st st' -> hull_ok st cmdbufs entry -> hull_ok st' cmdbufs entry.
Proof.
  intros Hst Hmv (m & Hm & R1 & R2 & R3 & R4). destruct (mv_memories _ _ _ Hmv _ _ Hm) as (b & m' & _ & Hm' & Hp).
  exists m'. split; [done|]. split; [done|]. split; [done|]. split; [by destruct (pr_fixed _ _ _ _ Hp) as [-> _]|].
  intros c cb obj e o x Hc Hcb He Ho Hb Hx Hin. rewrite (mv_cmdbuffers _ _ _ Hmv) in Hcb.
  destruct (so_touched _ _ _ Hst c cb obj e Hcb He) as (_ & o0 & Ho0 & _).
  destruct (mv_objects _ _ _ Hmv obj o0 Ho0) as (o1 & Ho1 & Hs). assert (o1 = o) as -> by congruence.
  destruct Hs as (_ & _ & _ & E4 & E5 & _). rewrite E4 in Hb. rewrite E5 in Hin.
  apply (R4 c cb obj e o0 x); try done. by apply (pr_exposed _ _ _ _ Hp).
Qed.

Lemma bind_window_ok bytes memory m hull : memory_ok bytes m -> 0 <= r_first hull -> r_first hull <= r_last hull ->
  r_last hull < allocationSize m -> (forall p, ptr m = Some p -> m_offset m <= r_first hull -> r_last hull <> m_offset m + m_size m) ->
  exists p restore, bind_window wrap_vkMapMemory memory m hull = Ok (p, w_base p, restore) /\
    (restore = true -> is_mapped m = true) /\
    forall x, is_exposed m x -> r_first hull <= x <= r_last hull -> w_base p <= x < w_base p + w_size p.
Proof.
  intros Hm H1 H2 H3 Hedge. destruct (mo_alloc _ _ Hm) as [_ Hmax]. unfold bind_window.
  assert (Hremap : (let size := wrap64 (r_last hull - r_first hull + 1) in
      let* _ := require (r_first hull <=? r_last hull) AssertFailed in
      let* _ := require (size <=? allocationSize m) AssertFailed in
      Ok (wrap_vkMapMemory memory (r_first hull) size, r_first hull, is_mapped m)) =
    Ok (Window (r_first hull) (r_last hull - r_first hull + 1), r_first hull, is_mapped m)).
  { cbv zeta. rewrite wrap64_small by u_lia. rewrite !(proj2 (Z.leb_le _ _)) by lia. cbn [require obind]. by rewrite map_law. }
  destruct (ptr m) as [p|] eqn:Ep.
  - destruct (mo_mapped _ _ Hm p Ep) as (-> & M1 & M2 & M3 & _).
    rewrite (wrap64_small (m_size m + m_offset m)) by u_lia.
    destruct ((m_offset m <=? r_first hull) && (m_size m + m_offset m >=? r_last hull)) eqn:Ec.
    + apply andb_true_iff in Ec as [C1 C2]. apply Z.leb_le in C1. apply Z.geb_le in C2.
      exists (Window (m_offset m) (m_size m)), false. split; [done|]. split; [done|]. simpl. intros x Hx Hr.
      specialize (Hedge _ eq_refl C1). lia.
    + exists (Window (r_first hull) (r_last hull - r_first hull + 1)), (is_mapped m). split; [exact Hremap|]. split; [done|].
      simpl. lia.
  - exists (Window (r_first hull) (r_last hull - r_first hull + 1)), (is_mapped m). split; [exact Hremap|]. split; [done|]. simpl. lia.
Qed.

(** restoring the mapping gives the mapping back *)
Lemma restore_same b m : memory_ok b m -> is_mapped m = true -> forall memory,
  with_mapping m (Some (wrap_vkMapMemory memory (m_offset m) (m_size m))) (m_offset m) (m_size m) = m.
Proof.
  intros Hm Hmap memory. rewrite map_law. unfold is_mapped in Hmap. destruct (ptr m) as [p|] eqn:Ep; [|done].
  destruct (mo_mapped _ _ Hm p Ep) as (E & _). rewrite <- E, <- Ep. by destruct m.
Qed.

Lemma memory_update_one_step device bytes cmdbufs entry st k l areas :
  device_ok device -> store_ok bytes areas st -> written_state (writer st) l areas -> roomy l (cost_all st cmdbufs + k) ->
  known_cmdbuffers st cmdbufs -> no_edge st entry -> hull_ok st cmdbufs entry ->
  exists st' l' areas',
    memory_update_one write_extension buffers structures wrap_vkMapMemory iterate device bytes cmdbufs entry st = Ok st' /\
    store_ok bytes areas' st' /\ written_state (writer st') l' areas' /\ roomy l' k /\ moved bytes st st' /\
    cmdbuffers_synced bytes st' cmdbufs entry.1.
Proof.
  destruct entry as [memory hull]. cbn [fst]. intros Hd Hst Hs Hroom Hk Hedge (m & Hm & R1 & R2 & R3 & R4). cbn [fst snd] in *.
  destruct (so_memory _ _ _ Hst memory m Hm) as (b & Hb & Hok).
  destruct (bind_window_ok b memory m hull Hok R1 R2 R3) as (p & restore & Ebind & Hrest & Hwin); [intros q; by apply (Hedge m q)|].
  assert (Hcost : cost_all st (iterate nat cmdbufs) = cost_all st cmdbufs).
  { apply cost_all_perm, iterate_law. }
  destruct (flush_cmdbuffers_step device memory p b bytes (iterate _ cmdbufs) Hd Hb st k l areas) as (st' & l' & areas' & E & H1 & H2 & H3 & H4 & H5);
    try done.
  { by rewrite Hcost. }
  { unfold known_cmdbuffers in *. by rewrite (iterate_law nat cmdbufs). }
  { by exists m. }
  { intros c cb Hin Hc obj e o m1 He Ho Hback Hm1 x Hx Hcov. assert (m1 = m) as -> by congruence.
    rewrite (iterate_law nat cmdbufs) in Hin. apply Hwin; [done|]. by apply (R4 c cb obj e o x). }
  assert (Hsync : cmdbuffers_synced bytes st' cmdbufs memory).
  { intros c cb obj e o Hin. apply H5. by rewrite (iterate_law nat cmdbufs). }
  exists st', l', areas'. split; [|done]. unfold memory_update_one, at_index. rewrite Hm. cbn [obind].
  rewrite (proj2 (negb_true_iff _)) by (apply Z.eqb_neq; apply Hok). cbn [require obind]. rewrite Ebind. cbn [obind].
  rewrite Hb. cbn [obind]. rewrite E. cbn [obind].
  destruct (mv_memories _ _ _ H4 memory m Hm) as (b1 & m' & _ & Hm' & Hp). rewrite Hm'. cbn [obind].
  destruct restore; [|done]. destruct (so_memory _ _ _ H1 memory m' Hm') as (b' & _ & Hok').
  rewrite (restore_same b' m' Hok').
  - unfold with_memory. rewrite list_insert_id by done. by destruct st'.
  - unfold is_mapped in *. destruct (pr_mapping _ _ _ _ Hp) as [-> _]. by apply Hrest.
Qed.

Lemma memory_update_step device bytes cmdbufs ranges : device_ok device -> forall st k l areas,
  store_ok bytes areas st -> written_state (writer st) l areas -> roomy l (length ranges * cost_all st cmdbufs + k) ->
  known_cmdbuffers st cmdbufs -> Forall (no_edge st) ranges -> Forall (hull_ok st cmdbufs) ranges ->
  exists st' l' areas',
    memory_update write_extension buffers structures wrap_vkMapMemory iterate device bytes cmdbufs ranges st = Ok st' /\
    store_ok bytes areas' st' /\ written_state (writer st') l' areas' /\ roomy l' k /\ moved bytes st st' /\
    forall memory, memory ∈ map fst ranges -> cmdbuffers_synced bytes st' cmdbufs memory.
Proof.
  intros Hd. induction ranges as [|entry ranges IH]; intros st k l areas Hst Hs Hroom Hk Hedge Hh.
  { exists st, l, areas. split; [done|]. do 3 (split; [done|]). split; [by eapply moved_refl|].
    intros memory Hin. by apply not_elem_of_nil in Hin. }
  apply Forall_cons in Hh as [Hh1 Hh]. apply Forall_cons in Hedge as [Hedge1 Hedge]. cbn [memory_update].
  destruct (memory_update_one_step device bytes cmdbufs entry st (length ranges * cost_all st cmdbufs + k) l areas)
    as (st1 & l1 & areas1 & E1 & H1 & H2 & H3 & H4 & H5); try done.
  { eapply roomy_le; [|exact Hroom]. simpl. lia. }
  rewrite E1. cbn [obind].
  destruct (IH st1 k l1 areas1) as (st' & l' & areas' & E' & R1 & R2 & R3 & R4 & R5); try done.
  { by rewrite (cost_all_moved bytes st st1). }
  { unfold known_cmdbuffers in *. by rewrite (mv_cmdbuffers _ _ _ H4). }
  { eapply Forall_impl; [exact Hedge|]. intros x. by eapply no_edge_moved. }
  { eapply Forall_impl; [exact Hh|]. intros x. by eapply hull_ok_moved. }
  exists st', l', areas'. split; [done|]. do 3 (split; [done|]). split; [by eapply moved_trans|].
  intros memory Hin. cbn [map] in Hin. apply elem_of_cons in Hin as [->|Hin]; [|by apply R5].
  by apply (cmdbuffers_synced_moved bytes areas1 st1).
Qed.

(** ** Recording what is touched *)

Definition in_touched (t : touched_map) (obj : nat) (x : Z) : Prop :=
  exists e, (obj, e) ∈ t /\ RangeTracking.contents e x.

Lemma update_touched_spec (P : nat -> exposure -> Prop) (R : exposure -> Prop) obj f t :
  (forall o e, (o, e) ∈ t -> P o e) -> P obj empty_exposure ->
  (forall e, P obj e -> exists e', f e = Ok e' /\ P obj e' /\ (forall x, RangeTracking.contents e x -> RangeTracking.contents e' x) /\ R e') ->
  exists t', update_touched t obj f = Ok t' /\ (forall o e, (o, e) ∈ t' -> P o e) /\
    (forall o x, in_touched t o x -> in_touched t' o x) /\ exists e', (obj, e') ∈ t' /\ R e'.
Proof.
  intros HP Hempty Hf. induction t as [|[o e] t IH]; cbn [update_touched].
  - destruct (Hf _ Hempty) as (e' & E & Hp & _ & HR). rewrite E. cbn [obind]. exists [(obj, e')]. split; [done|]. split.
    + intros o e Hin. apply list_elem_of_singleton in Hin as [= -> ->]. done.
    + split; [intros o x (e & Hin & _); by apply not_elem_of_nil in Hin|]. exists e'. split; [by left|done].
  - destruct (Nat.eqb_spec o obj) as [->|Hne].
    + destruct (Hf e) as (e' & E & Hp & Hsub & HR); [apply HP; by left|]. rewrite E. cbn [obind]. exists ((obj, e') :: t).
      split; [done|]. split; [|split].
      * intros o1 e1 Hin. apply elem_of_cons in Hin as [[= -> ->]|Hin]; [done|]. apply HP. by right.
      * intros o1 x (e1 & Hin & Hx). apply elem_of_cons in Hin as [[= -> ->]|Hin]; [exists e'|exists e1]; (split; [|by auto]); by constructor.
      * exists e'. split; [by left|done].
    + destruct IH as (t' & E & H1 & H2 & e' & H3 & H4); [intros; apply HP; by right|]. rewrite E. cbn [obind].
      exists ((o, e) :: t'). split; [done|]. split; [|split].
      * intros o1 e1 Hin. apply elem_of_cons in Hin as [[= -> ->]|Hin]; [apply HP; by left|by apply H1].
      * intros o1 x (e1 & Hin & Hx). apply elem_of_cons in Hin as [[= -> ->]|Hin]; [exists e; split; [by left|done]|].
        destruct (H2 o1 x) as (e2 & Hin2 & Hx2); [by exists e1|]. exists e2. split; [by right|done].
      * exists e'. split; [by right|done].
Qed.

Lemma add_os_grows e offset size : wf e -> 0 <= offset -> 0 < size -> offset + size <= UINT64_MAX ->
  exists e', add_os e offset size = Ok e' /\ wf e' /\
    forall x, RangeTracking.contents e' x <-> RangeTracking.contents e x \/ offset <= x < offset + size.
Proof.
  intros Hwf H1 H2 H3. unfold add_os. rewrite Z.gtb_ltb, (proj2 (Z.ltb_lt _ _)) by lia. rewrite wrap64_small by u_lia.
  destruct (add_adds e offset (offset + size - 1)) as (e' & E & Hwf' & _ & Hc); try done; try lia.
  exists e'. split; [done|]. split; [done|]. intros x. unfold RangeTracking.contents. rewrite Hc. split; (intros [?|?]; [by left|right; lia]).
Qed.

(** every byte of an accessible object can be touched *)
Lemma touch_spec (st : capture S) obj o offset size t : objects st !! obj = Some o -> h_accessible o = true ->
  0 <= offset -> 0 < size -> offset + size <= h_size o -> h_size o <= INT64_MAX -> touched_ok st t ->
  exists t', touch (objects st) obj offset size t = Ok t' /\ touched_ok st t' /\
    (forall ob x, in_touched t ob x -> in_touched t' ob x) /\ forall x, offset <= x < offset + size -> in_touched t' obj x.
Proof.
  intros Ho Ha H1 H2 H3 H4 Ht. unfold touch. rewrite Ho, Ha. cbn [negb].
  rewrite (proj2 (Z.eqb_neq size VK_WHOLE_SIZE)) by (unfold VK_WHOLE_SIZE; u_lia).
  destruct (update_touched_spec (fun ob e => wf e /\ exists o, objects st !! ob = Some o /\ forall x, RangeTracking.contents e x -> x < h_size o)
    (fun e => forall x, offset <= x < offset + size -> RangeTracking.contents e x) obj (fun e => add_os e offset size) t)
    as (t' & E & T1 & T2 & e' & T3 & T4).
  - exact Ht.
  - split; [by apply wf_sorted|]. exists o. split; [done|]. intros x Hx. by apply covers_nil in Hx.
  - intros e (Hwf & o1 & Ho1 & Hx). assert (o1 = o) as -> by congruence.
    destruct (add_os_grows e offset size Hwf H1 H2) as (e' & E & Hwf' & Hc); [u_lia|]. exists e'. split; [done|]. split.
    + split; [done|]. exists o. split; [done|]. intros x Hx'. apply Hc in Hx' as [?|?]; [auto|lia].
    + split; [intros x Hx'; apply Hc; by left|]. intros x Hx'. apply Hc. by right.
  - exists t'. split; [done|]. split; [exact T1|]. split; [exact T2|]. intros x Hx. exists e'. auto.
Qed.

Lemma touch_all_step (st : capture S) c rest : forall k t, (forall i o, rest !! i = Some o -> objects st !! (k + i)%nat = Some o) ->
  (forall i o, rest !! i = Some o -> 0 < h_size o <= INT64_MAX) -> touched_ok st t ->
  exists t', touch_all_from (objects st) c rest k t = Ok t' /\ touched_ok st t' /\
    (forall ob x, in_touched t ob x -> in_touched t' ob x) /\
    forall i o x, rest !! i = Some o -> address_taken c o = true -> h_accessible o = true -> 0 <= x < h_size o -> in_touched t' (k + i)%nat x.
Proof.
  induction rest as [|o rest IH]; intros k t Hidx Hsz Ht; cbn [touch_all_from]; [by exists t|].
  pose proof (Hidx 0%nat o eq_refl) as Ho. rewrite Nat.add_0_r in Ho. pose proof (Hsz 0%nat o eq_refl) as [Hs1 Hs2].
  assert (Hstep : exists t1, (if address_taken c o then touch (objects st) k 0 (h_size o) t else Ok t) = Ok t1 /\ touched_ok st t1 /\
    (forall ob x, in_touched t ob x -> in_touched t1 ob x) /\
    (address_taken c o = true -> h_accessible o = true -> forall x, 0 <= x < h_size o -> in_touched t1 k x)).
  { destruct (address_taken c o); [|by exists t]. destruct (h_accessible o) eqn:Ea.
    - destruct (touch_spec st k o 0 (h_size o) t Ho Ea) as (t1 & E & T1 & T2 & T3); try lia; try done. exists t1. auto.
    - exists t. unfold touch. rewrite Ho, Ea. done. }
  destruct Hstep as (t1 & E1 & T1 & T2 & T3). rewrite E1. cbn [obind].
  destruct (IH (Datatypes.S k) t1) as (t' & E' & R1 & R2 & R3); try done.
  { intros i o' Hi. replace (Datatypes.S k + i)%nat with (k + Datatypes.S i)%nat by lia. by apply (Hidx (Datatypes.S i)). }
  { intros i o' Hi. by apply (Hsz (Datatypes.S i)). }
  exists t'. split; [done|]. split; [done|]. split; [auto|]. intros [|i] o' x Hi Ht' Ha Hx.
  - cbn in Hi. injection Hi as <-. rewrite Nat.add_0_r. apply R2. by apply T3.
  - replace (k + Datatypes.S i)%nat with (Datatypes.S k + i)%nat by lia. by apply (R3 i o' x).
Qed.

(** ** Collecting the ranges of a submit *)

Record ranges_ok (st : capture S) (ranges : ranges_map) : Prop := {
  rk_keys : NoDup (map fst ranges);
  rk_bounds : forall mi r, (mi, r) ∈ ranges ->
    exists m, memories st !! mi = Some m /\ 0 <= r_first r /\ r_first r <= r_last r /\ r_last r < allocationSize m
}.

Definition in_ranges (ranges : ranges_map) (mi : nat) (x : Z) : Prop := exists r, (mi, r) ∈ ranges /\ in_range r x.

Lemma widen_keys ranges memory v k : k ∈ map fst (widen_range ranges memory v) -> k ∈ map fst ranges \/ k = memory.
Proof.
  induction ranges as [|[i r] ranges IH]; cbn [widen_range map fst].
  - intros Hk. right. by apply list_elem_of_singleton in Hk.
  - destruct (Nat.eqb i memory); cbn [map fst]; [by left|]. intros Hk. apply elem_of_cons in Hk as [->|Hk]; [left; by left|].
    destruct (IH Hk); [left; by right|by right].
Qed.

Lemma widen_in ranges memory v mi r : (mi, r) ∈ widen_range ranges memory v ->
  (mi, r) ∈ ranges \/ (mi = memory /\ (r = v \/ exists r0, (memory, r0) ∈ ranges /\
    r = Range (Z.min (r_first r0) (r_first v)) (Z.max (r_last r0) (r_last v)))).
Proof.
  induction ranges as [|[i r0] ranges IH]; cbn [widen_range].
  - intros Hin. apply list_elem_of_singleton in Hin as [= -> ->]. right. split; [done|by left].
  - destruct (Nat.eqb_spec i memory) as [->|Hne]; intros Hin; apply elem_of_cons in Hin as [[= -> ->]|Hin].
    + right. split; [done|]. right. exists r0. split; [by left|done].
    + left. by right.
    + left. by left.
    + destruct (IH Hin) as [?|[-> [->|(r1 & H1 & ->)]]]; [left; by right|right; split; [done|by left]|].
      right. split; [done|]. right. exists r1. split; [by right|done].
Qed.

Lemma widen_spec st ranges memory v m : ranges_ok st ranges -> memories st !! memory = Some m ->
  0 <= r_first v -> r_first v <= r_last v -> r_last v < allocationSize m ->
  ranges_ok st (widen_range ranges memory v) /\
  (forall mi x, in_ranges ranges mi x -> in_ranges (widen_range ranges memory v) mi x) /\
  forall x, in_range v x -> in_ranges (widen_range ranges memory v) memory x.
Proof.
  intros [K B] Hm V1 V2 V3. split; [split|split].
  - clear B. induction ranges as [|[i r] ranges IH]; cbn [widen_range map fst]; [repeat constructor; apply not_elem_of_nil|].
    apply NoDup_cons in K as [K1 K2]. destruct (Nat.eqb_spec i memory) as [->|Hne]; cbn [map fst]; [by constructor|].
    constructor; [|by apply IH]. intros Hk. by destruct (widen_keys _ _ _ _ Hk).
  - intros mi r Hin. destruct (widen_in _ _ _ _ _ Hin) as [?|[-> [->|(r0 & H1 & ->)]]]; [by apply B|by exists m|].
    destruct (B memory r0 H1) as (m0 & Hm0 & B1 & B2 & B3). assert (m0 = m) as -> by congruence. exists m. simpl. split; [done|]. lia.
  - intros mi x (r & Hin & Hx). clear B K. induction ranges as [|[i r0] ranges IH]; [by apply not_elem_of_nil in Hin|].
    cbn [widen_range]. unfold in_range in Hx. destruct (Nat.eqb_spec i memory) as [->|Hne]; apply elem_of_cons in Hin as [[= -> ->]|Hin].
    + eexists. split; [by left|]. unfold in_range. simpl. lia.
    + exists r. split; [by right|done].
    + exists r0. split; [by left|done].
    + destruct (IH Hin) as (r1 & H1 & H2). exists r1. split; [by right|done].
  - intros x Hx. clear B K. induction ranges as [|[i r0] ranges IH]; cbn [widen_range]; [exists v; split; [by left|done]|].
    unfold in_range in Hx. destruct (Nat.eqb_spec i memory) as [->|Hne].
    + eexists. split; [by left|]. unfold in_range. simpl. lia.
    + destruct IH as (r1 & H1 & H2). exists r1. split; [by right|done].
Qed.

(** what the command buffer touches and the host may have written is in the ranges *)
Definition collected (st : capture S) (t : touched_map) (c : nat) (ranges : ranges_map) (found : list nat) : Prop :=
  forall obj e o mi m x, (obj, e) ∈ t -> objects st !! obj = Some o -> h_backing o = Some mi -> memories st !! mi = Some m ->
    is_exposed m x -> RangeTracking.contents e (x - h_offset o) -> in_ranges ranges mi x /\ c ∈ found.

Lemma collected_mono st t c ranges found ranges' found' : collected st t c ranges found ->
  (forall mi x, in_ranges ranges mi x -> in_ranges ranges' mi x) -> (forall d, d ∈ found -> d ∈ found') -> collected st t c ranges' found'.
Proof. intros Hc Hr Hf obj e o mi m x H1 H2 H3 H4 H5 H6. destruct (Hc obj e o mi m x H1 H2 H3 H4 H5 H6). auto. Qed.

Lemma elem_of_insert_cmdbuf found c d : d ∈ insert_cmdbuf found c <-> d ∈ found \/ d = c.
Proof.
  unfold insert_cmdbuf. case_bool_decide as Hc; [split; [by left|intros [?| ->]; done]|].
  rewrite elem_of_app, list_elem_of_singleton. done.
Qed.

Lemma queue_touched_step bytes areas st c t : store_ok bytes areas st -> touched_ok st t -> forall ranges found,
  ranges_ok st ranges -> exists ranges' found', queue_touched st c t ranges found = Ok (ranges', found') /\ ranges_ok st ranges' /\
    (forall mi x, in_ranges ranges mi x -> in_ranges ranges' mi x) /\ (forall d, d ∈ found -> d ∈ found') /\
    (forall d, d ∈ found' -> d ∈ found \/ d = c) /\ collected st t c ranges' found'.
Proof.
  intros Hst. induction t as [|[obj e] t IH]; intros Ht ranges found Hr.
  { exists ranges, found. split; [done|]. split; [done|]. do 2 (split; [auto|]). split; [by left|].
    intros obj e o mi m x Hin. by apply not_elem_of_nil in Hin. }
  destruct (Ht obj e ltac:(by left)) as (Hwf & o & Ho & Hx). assert (Ht' : touched_ok st t) by (intros ob e' Hin; apply Ht; by right).
  cbn [queue_touched]. unfold at_index. rewrite Ho. cbn [obind]. pose proof (so_object _ _ _ Hst obj o Ho) as Hoo.
  destruct (h_backing o) as [memory|] eqn:Eb.
  - destruct (so_backing _ _ _ Hst obj o memory Ho Eb) as (m & Hm & [Hz Hfit] & _). rewrite Hm. cbn [obind].
    destruct (so_memory _ _ _ Hst memory m Hm) as (b & _ & Hok).
    pose proof (overlap_hull_aux (exposed m) e (h_offset o) (mo_wf _ _ Hok) Hwf Hz) as Hh.
    set (v := overlap (exposed m) e (h_offset o)) in *. destruct (valid v) eqn:Ev; cbn [negb].
    + assert (Hne : exists x, meets (list_ (exposed m)) (list_ e) (h_offset o) x) by (by apply (hull_of_valid _ _ Hh)).
      destruct Hh as [[_ Hn]|(V1 & V2 & V3)]; [destruct Hne as [x Hmx]; by destruct (Hn x)|].
      pose proof (V3 _ V2) as Hle. destruct (mo_exposed _ _ Hok _ (proj1 V1)) as [B1 _]. destruct (mo_exposed _ _ Hok _ (proj1 V2)) as [_ B2].
      destruct (widen_spec st ranges memory v m Hr Hm B1 ltac:(lia) B2) as (W1 & W2 & W3).
      destruct (IH Ht' (widen_range ranges memory v) (insert_cmdbuf found c) W1) as (ranges' & found' & E & Q1 & Q2 & Q3 & Q4 & Q5).
      exists ranges', found'. split; [done|]. split; [done|]. split; [auto|].
      split; [intros d Hd; apply Q3, elem_of_insert_cmdbuf; by left|]. split.
      { intros d Hd. destruct (Q4 d Hd) as [Hd'| ->]; [by apply elem_of_insert_cmdbuf in Hd'|by right]. }
      intros ob e' o' mi m' x Hin Ho' Hb' Hm' Hxe Hxt. apply elem_of_cons in Hin as [[= -> ->]|Hin]; [|by apply (Q5 ob e' o' mi m')].
      assert (o' = o) as -> by congruence. assert (mi = memory) as -> by congruence. assert (m' = m) as -> by congruence.
      split; [|apply Q3, elem_of_insert_cmdbuf; by right]. apply Q2, W3, V3. split; [exact Hxe|]. split; [|exact Hxt].
      pose proof (mo_exposed _ _ Hok x Hxe). destruct (mo_alloc _ _ Hok). u_lia.
    + destruct (IH Ht' ranges found Hr) as (ranges' & found' & E & Q1 & Q2 & Q3 & Q4 & Q5).
      exists ranges', found'. split; [done|]. split; [done|]. do 2 (split; [done|]). split; [done|].
      intros ob e' o' mi m' x Hin Ho' Hb' Hm' Hxe Hxt. apply elem_of_cons in Hin as [[= -> ->]|Hin]; [|by apply (Q5 ob e' o' mi m')].
      assert (o' = o) as -> by congruence. assert (mi = memory) as -> by congruence. assert (m' = m) as -> by congruence.
      assert (valid v = true) as Ev'; [|congruence]. apply (hull_of_valid _ _ Hh). exists x. split; [exact Hxe|]. split; [|exact Hxt].
      pose proof (mo_exposed _ _ Hok x Hxe). destruct (mo_alloc _ _ Hok). u_lia.
  - destruct (IH Ht' ranges found Hr) as (ranges' & found' & E & Q1 & Q2 & Q3 & Q4 & Q5).
    exists ranges', found'. split; [done|]. split; [done|]. do 2 (split; [done|]). split; [done|].
    intros ob e' o' mi m' x Hin Ho' Hb' Hm' Hxe Hxt. apply elem_of_cons in Hin as [[= -> ->]|Hin]; [|by apply (Q5 ob e' o' mi m')].
    congruence.
Qed.

(** only the command buffers grow *)
Record touched_more (st st' : capture S) : Prop := {
  tm_memories : memories st' = memories st;
  tm_objects : objects st' = objects st;
  tm_writer : writer st' = writer st;
  tm_touched : forall c cb, cmdbuffers st !! c = Some cb -> exists cb', cmdbuffers st' !! c = Some cb' /\
    c_device cb' = c_device cb /\ uses_device_address_shader cb' = uses_device_address_shader cb /\
    forall obj x, in_touched (touched cb) obj x -> in_touched (touched cb') obj x
}.

Lemma touched_more_refl st : touched_more st st.
Proof. split; try done. intros c cb Hc. by exists cb. Qed.

Lemma touched_more_trans st1 st2 st3 : touched_more st1 st2 -> touched_more st2 st3 -> touched_more st1 st3.
Proof.
  intros [A1 A2 A3 A4] [B1 B2 B3 B4]. split; try congruence. intros c cb Hc.
  destruct (A4 c cb Hc) as (cb' & Hc' & D & U & T). destruct (B4 c cb' Hc') as (cb'' & Hc'' & D' & U' & T').
  exists cb''. split; [done|]. split; [congruence|]. split; [congruence|]. auto.
Qed.

(** what the command buffer may use: what it touched, and every accessible buffer
    with an address when its shaders may hold one *)
Definition may_use (st : capture S) (c obj : nat) (x : Z) : Prop :=
  exists cb, cmdbuffers st !! c = Some cb /\
    (in_touched (touched cb) obj x \/
     exists o, uses_device_address_shader cb = true /\ objects st !! obj = Some o /\ address_taken cb o = true /\
       h_accessible o = true /\ 0 <= x < h_size o).

Definition all_touched (st : capture S) (c obj : nat) (x : Z) : Prop :=
  exists cb, cmdbuffers st !! c = Some cb /\ in_touched (touched cb) obj x.

Lemma address_taken_device cb cb' o : c_device cb' = c_device cb -> address_taken cb' o = address_taken cb o.
Proof. intros E. unfold address_taken. by rewrite E. Qed.

Lemma may_use_more st st' c obj x : touched_more st st' -> may_use st c obj x -> may_use st' c obj x.
Proof.
  intros [T1 T2 T3 T4] (cb & Hc & Hu). destruct (T4 c cb Hc) as (cb' & Hc' & D & U & T). exists cb'. split; [done|].
  destruct Hu as [Hu|(o & U1 & Ho & A & Ac & Hx)]; [left; auto|]. right. exists o. rewrite U, T2, (address_taken_device cb) by done. done.
Qed.

Definition cmdbuffer_collected (st : capture S) (c : nat) (ranges : ranges_map) (found : list nat) : Prop :=
  forall cb, cmdbuffers st !! c = Some cb -> collected st (touched cb) c ranges found.

Lemma queue_update_step bytes areas st c cb ranges found : store_ok bytes areas st -> cmdbuffers st !! c = Some cb -> ranges_ok st ranges ->
  exists ranges' found' st', queue_update iterate c ranges found st = Ok (ranges', found', st') /\
    store_ok bytes areas st' /\ touched_more st st' /\ ranges_ok st' ranges' /\
    (forall mi x, in_ranges ranges mi x -> in_ranges ranges' mi x) /\ (forall d, d ∈ found -> d ∈ found') /\
    (forall d, d ∈ found' -> d ∈ found \/ d = c) /\ cmdbuffer_collected st' c ranges' found' /\
    (forall obj x, may_use st c obj x -> all_touched st' c obj x) /\
    forall d, d <> c -> cmdbuffers st' !! d = cmdbuffers st !! d.
Proof.
  intros Hst Hc Hr. unfold queue_update, at_index at 1. rewrite Hc. cbn [obind].
  assert (Htouch : exists cb', (if uses_device_address_shader cb then touch_all_address_taken_buffers (objects st) cb else Ok cb) = Ok cb' /\
    c_device cb' = c_device cb /\ uses_device_address_shader cb' = uses_device_address_shader cb /\ touched_ok st (touched cb') /\
    (forall obj x, in_touched (touched cb) obj x -> in_touched (touched cb') obj x) /\
    forall obj o x, uses_device_address_shader cb = true -> objects st !! obj = Some o -> address_taken cb o = true ->
      h_accessible o = true -> 0 <= x < h_size o -> in_touched (touched cb') obj x).
  { pose proof (so_touched_ok _ _ _ c cb Hst Hc) as Ht. destruct (uses_device_address_shader cb) eqn:Eu; [|by exists cb].
    destruct (touch_all_step st cb (objects st) 0 (touched cb)) as (t' & E & T1 & T2 & T3); try done.
    { intros i o Ho. destruct (oo_size _ (so_object _ _ _ Hst i o Ho)). u_lia. }
    exists (with_touched cb t'). unfold touch_all_address_taken_buffers. rewrite E. cbn [obind].
    split; [done|]. split; [done|]. split; [done|]. split; [done|]. split; [done|]. intros obj o x _ Ho Ha Hac Hx. by apply (T3 obj o x). }
  destruct Htouch as (cb' & -> & D & U & T1 & T2 & T3). cbn [obind].
  set (st' := with_cmdbuffer st c cb').
  assert (Hself : cmdbuffers st' !! c = Some cb') by (apply list_lookup_insert_eq; by apply lookup_lt_Some in Hc).
  assert (Hother : forall d, d <> c -> cmdbuffers st' !! d = cmdbuffers st !! d) by (intros d Hd; by apply list_lookup_insert_ne).
  assert (Hst' : store_ok bytes areas st').
  { destruct Hst as [S1 S2 S3 S4 S5 S6]. split; try done. intros d cbd obj e Hd He.
    destruct (decide (d = c)) as [->|Hne]; [assert (cbd = cb') as -> by congruence; by apply T1|].
    rewrite Hother in Hd by done. by apply (S6 d cbd). }
  destruct (queue_touched_step bytes areas st' c (iterate _ (touched cb')) Hst') with (ranges := ranges) (found := found)
    as (ranges' & found' & E & Q1 & Q2 & Q3 & Q4 & Q5); [|by destruct Hr|].
  { intros obj e Hin. rewrite (iterate_law _ (touched cb')) in Hin. by apply T1. }
  rewrite E. cbn [obind]. exists ranges', found', st'. split; [done|]. split; [done|]. split; [split; try done|].
  { intros d cbd Hd. destruct (decide (d = c)) as [->|Hne]; [exists cb'; assert (cbd = cb) as -> by congruence; done|].
    exists cbd. by rewrite Hother. }
  split; [by destruct Q1|]. do 3 (split; [done|]). split; [|split; [|done]].
  - intros cb1 Hcb1. assert (cb1 = cb') as -> by congruence. intros obj e o mi m x Hin. apply (Q5 obj e o mi m x).
    by rewrite (iterate_law _ (touched cb')).
  - intros obj x (cb1 & Hcb1 & Hu). assert (cb1 = cb) as -> by congruence. exists cb'. split; [done|].
    destruct Hu as [Hu|(o & U1 & Ho & A & Ac & Hx)]; [auto|]. by apply (T3 obj o x).
Qed.

Lemma ranges_ok_more st st' ranges : memories st' = memories st -> ranges_ok st ranges -> ranges_ok st' ranges.
Proof. intros E [K B]. split; [done|]. by rewrite E. Qed.

Lemma queue_updates_step bytes areas cmdbufs : forall st ranges found, store_ok bytes areas st -> known_cmdbuffers st cmdbufs -> ranges_ok st ranges ->
  exists ranges' found' st', queue_updates iterate cmdbufs ranges found st = Ok (ranges', found', st') /\
    store_ok bytes areas st' /\ touched_more st st' /\ ranges_ok st' ranges' /\
    (forall mi x, in_ranges ranges mi x -> in_ranges ranges' mi x) /\ (forall d, d ∈ found -> d ∈ found') /\
    (forall d, d ∈ found' -> d ∈ found \/ d ∈ cmdbufs) /\
    (forall c, c ∈ cmdbufs -> cmdbuffer_collected st' c ranges' found' /\ forall obj x, may_use st c obj x -> all_touched st' c obj x) /\
    forall d, d ∉ cmdbufs -> cmdbuffers st' !! d = cmdbuffers st !! d.
Proof.
  induction cmdbufs as [|c cmdbufs IH]; intros st ranges found Hst Hk Hr; cbn [queue_updates].
  { exists ranges, found, st. split; [done|]. split; [done|]. split; [apply touched_more_refl|]. split; [done|].
    do 2 (split; [auto|]). split; [by left|]. split; [|done]. intros c Hc. by apply not_elem_of_nil in Hc. }
  apply Forall_cons in Hk as [[cb Hc] Hk].
  destruct (queue_update_step bytes areas st c cb ranges found Hst Hc Hr) as (ranges1 & found1 & st1 & E1 & H1 & H2 & H3 & H4 & H5 & H6 & H7 & H8 & H9).
  rewrite E1. cbn [obind fst snd].
  destruct (IH st1 ranges1 found1 H1) as (ranges' & found' & st' & E' & R1 & R2 & R3 & R4 & R5 & R6 & R7 & R8).
  { eapply Forall_impl; [exact Hk|]. intros d [cbd Hd]. destruct (tm_touched _ _ H2 d cbd Hd) as (cbd' & Hd' & _). by exists cbd'. }
  { done. }
  exists ranges', found', st'. split; [done|]. split; [done|]. split; [by eapply touched_more_trans|]. split; [done|].
  do 2 (split; [auto|]). split; [|split].
  - intros d Hd. destruct (R6 d Hd) as [Hd'|Hd']; [|right; by right]. destruct (H6 d Hd') as [?| ->]; [by left|right; by left].
  - intros d Hd. destruct (decide (d ∈ cmdbufs)) as [Hin|Hnin].
    + destruct (R7 d Hin) as [R7a R7b]. split; [done|]. intros obj x Hu. apply R7b. by eapply may_use_more.
    + apply elem_of_cons in Hd as [->|Hd]; [|done]. split.
      * intros cb1 Hcb1. rewrite R8 in Hcb1 by done. specialize (H7 cb1 Hcb1).
        intros obj e o mi m x. rewrite (tm_memories _ _ R2), (tm_objects _ _ R2). revert obj e o mi m x.
        by apply (collected_mono st1 _ _ ranges1 found1).
      * intros obj x Hu. destruct (H8 obj x Hu) as (cb1 & Hcb1 & Hin). exists cb1. by rewrite R8.
  - intros d Hd. apply not_elem_of_cons in Hd as [Hd1 Hd2]. rewrite R8 by done. by apply H9.
Qed.

(** the replay's memory of the object holds the device's byte *)
Definition replayed (bytes : list (list byte)) (areas : host_areas) (st : capture S) (obj : nat) (x : Z) : Prop :=
  forall o mi b, objects st !! obj = Some o -> h_backing o = Some mi -> bytes !! mi = Some b -> 0 <= x < h_size o ->
    exists a, areas !! object_key o = Some a /\ mem_map a !! Z.to_nat x = b !! Z.to_nat (h_offset o + x).

Lemma synced_replayed bytes areas st obj x : store_ok bytes areas st ->
  (forall o mi m b, objects st !! obj = Some o -> h_backing o = Some mi -> memories st !! mi = Some m -> bytes !! mi = Some b ->
    synced b m (Z.to_nat (x + h_offset o))) -> replayed bytes areas st obj x.
Proof.
  intros Hst Hsy o mi b Ho Hb Hby Hx. destruct (so_backing _ _ _ Hst obj o mi Ho Hb) as (m & Hm & [Hz Hfit] & a & Ha & Hl & Hs).
  exists a. split; [done|]. specialize (Hsy o mi m b Ho Hb Hm Hby). unfold synced in Hsy.
  apply (f_equal (.!! Z.to_nat x)) in Hs. rewrite !slice_lookup, !decide_True in Hs by lia. rewrite Nat.add_0_l in Hs. rewrite Hs.
  replace (Z.to_nat (h_offset o) + Z.to_nat x)%nat with (Z.to_nat (x + h_offset o)) by lia.
  by replace (h_offset o + x) with (x + h_offset o) by lia.
Qed.

Lemma contents_nonneg e x : wf e -> RangeTracking.contents e x -> 0 <= x.
Proof. intros [Hs _] Hx. by destruct (separated_covers_ge _ _ _ Hs Hx). Qed.

Lemma collected_hulls bytes areas st cmdbufs ranges : store_ok bytes areas st -> ranges_ok st ranges ->
  (forall c, c ∈ cmdbufs -> exists found, cmdbuffer_collected st c ranges found) -> Forall (hull_ok st cmdbufs) ranges.
Proof.
  intros Hst [K B] Hc. apply Forall_forall. intros [mi r] Hin. destruct (B mi r Hin) as (m & Hm & B1 & B2 & B3).
  exists m. cbn [fst snd]. do 4 (split; [done|]). intros c cb obj e o x Hcin Hcb He Ho Hb Hx Hcov.
  destruct (Hc c Hcin) as [found Hcol]. destruct (Hcol cb Hcb obj e o mi m x He Ho Hb Hm Hx Hcov) as [(r' & Hin' & Hr') _].
  assert (r' = r) as ->; [|done]. clear -K Hin Hin'. induction ranges as [|[i r0] ranges IH]; [by apply not_elem_of_nil in Hin|].
  cbn [map fst] in K. apply NoDup_cons in K as [K1 K2].
  assert (Hfst : forall r1, (i, r1) ∈ ranges -> False) by (intros r1 H1; apply K1; apply list_elem_of_fmap; by exists (i, r1)).
  apply elem_of_cons in Hin as [E|Hin]; apply elem_of_cons in Hin' as [E'|Hin'];
    [congruence|injection E as -> ->; by destruct (Hfst r')|injection E' as -> ->; by destruct (Hfst r)|by apply IH].
Qed.

(** the usage of a memory lists objects bound to it *)
Definition usage_ok (st : capture S) : Prop :=
  forall i m key obj, memories st !! i = Some m -> (key, obj) ∈ usage m ->
    exists o, objects st !! obj = Some o /\ h_offset o = key /\ h_backing o = Some i.

Lemma usage_ok_moved bytes st st' : moved bytes st st' -> usage_ok st -> usage_ok st'.
Proof.
  intros Hmv Hu i m key obj Hm Hin. destruct (moved_memory _ _ _ _ _ Hmv Hm) as (b & m0 & _ & Hm0 & Hp).
  destruct (pr_fixed _ _ _ _ Hp) as (_ & _ & E). rewrite E in Hin. destruct (Hu i m0 key obj Hm0 Hin) as (o & Ho & Hk & Hb).
  destruct (mv_objects _ _ _ Hmv obj o Ho) as (o' & Ho' & _ & _ & _ & E4 & E5 & _). exists o'. split; [done|]. split; congruence.
Qed.

(** a memory or its contents change, and the clone does not *)
Lemma store_memory bytes areas st i m m' b b' : store_ok bytes areas st -> memories st !! i = Some m -> bytes !! i = Some b ->
  memory_ok b' m' -> allocationSize m' = allocationSize m -> clone_bytes m' = clone_bytes m ->
  store_ok (<[i := b']> bytes) areas (with_memory st i m').
Proof.
  intros [S1 S2 S3 S4 S5 S6] Hm Hb Hok Ha Hc.
  assert (Hself : <[i := m']> (memories st) !! i = Some m') by (apply list_lookup_insert_eq; by apply lookup_lt_Some in Hm).
  split; try done; cbn [with_memory memories].
  - intros j mj Hj. destruct (decide (j = i)) as [->|Hne].
    + rewrite Hself in Hj. injection Hj as <-. exists b'. split; [|done]. apply list_lookup_insert_eq. by apply lookup_lt_Some in Hb.
    + rewrite list_lookup_insert_ne in Hj by done. rewrite list_lookup_insert_ne by done. by apply S1.
  - intros j o mi Ho Hbk. destruct (S3 j o mi Ho Hbk) as (mm & Hmm & Hf & a & Ha1 & Ha2 & Ha3).
    destruct (decide (mi = i)) as [->|Hne]; [|rewrite list_lookup_insert_ne by done; exists mm; split; [done|]; split; [done|]; by exists a].
    assert (mm = m) as -> by congruence. exists m'. split; [done|]. split; [unfold fits_in in *; by rewrite Ha|].
    exists a. by rewrite Hc.
Qed.

Lemma submit_step device bytes cmdbufs st l areas :
  device_ok device -> store_ok bytes areas st -> written_state (writer st) l areas -> known_cmdbuffers st cmdbufs ->
  (forall ranges found st1, queue_updates iterate cmdbufs [] [] st = Ok (ranges, found, st1) -> Forall (no_edge st) ranges) ->
  (forall ranges found st1, queue_updates iterate cmdbufs [] [] st = Ok (ranges, found, st1) -> roomy l (length ranges * cost_all st1 found)) ->
  exists st' l' areas',
    trace_pre_vkQueueSubmit write_extension buffers structures wrap_vkMapMemory iterate device false bytes cmdbufs st = Ok st' /\
    store_ok bytes areas' st' /\ written_state (writer st') l' areas' /\ fits l' /\ (usage_ok st -> usage_ok st') /\
    forall c obj x, c ∈ cmdbufs -> may_use st c obj x -> replayed bytes areas' st' obj x.
Proof.
  intros Hd Hst Hs Hk Hedge Hroom. unfold trace_pre_vkQueueSubmit.
  destruct (queue_updates_step bytes areas cmdbufs st [] [] Hst Hk) as (ranges & found & st1 & E1 & H1 & H2 & H3 & _ & _ & H6 & H7 & H8).
  { split; [constructor|]. intros mi r Hin. by apply not_elem_of_nil in Hin. }
  rewrite E1. cbn [obind fst snd]. specialize (Hroom _ _ _ E1).
  assert (Hfound : forall d, d ∈ found -> d ∈ cmdbufs) by (intros d Hd'; destruct (H6 d Hd') as [Hn|?]; [by apply not_elem_of_nil in Hn|done]).
  assert (Hhull : Forall (hull_ok st1 found) ranges).
  { apply (collected_hulls bytes areas); try done. intros c Hc. exists found. by apply H7, Hfound. }
  destruct (memory_update_step device bytes found (iterate _ ranges) Hd st1 0%nat l areas) as (st' & l' & areas' & E2 & R1 & R2 & R3 & R4 & R5).
  - done.
  - by rewrite (tm_writer _ _ H2).
  - rewrite Nat.add_0_r. by rewrite (Permutation_length (iterate_law _ ranges)).
  - apply Forall_forall. intros c Hc. apply Hfound in Hc. unfold known_cmdbuffers in Hk. rewrite Forall_forall in Hk.
    destruct (Hk c Hc) as [cb Hcb]. destruct (tm_touched _ _ H2 c cb Hcb) as (cb' & Hcb' & _). by exists cb'.
  - rewrite (iterate_law _ ranges). eapply Forall_impl; [exact (Hedge _ _ _ E1)|]. intros entry He m p. rewrite (tm_memories _ _ H2). apply He.
  - by rewrite (iterate_law _ ranges).
  - exists st', l', areas'. split; [done|]. split; [done|]. split; [done|]. split; [by destruct R3|]. split.
    { intros Hu. apply (usage_ok_moved bytes st1 st' R4). intros i m key obj. rewrite (tm_memories _ _ H2), (tm_objects _ _ H2). apply Hu. }
    intros c obj x Hc Hu. apply synced_replayed; [done|]. intros o mi m b Ho Hb Hm Hby.
    destruct (H7 c Hc) as [Hcol Huse]. destruct (Huse obj x Hu) as (cb & Hcb & e & He & Hx).
    destruct (so_touched _ _ _ H1 c cb obj e Hcb He) as (Hwf & o1 & Ho1 & Hin).
    destruct (mv_objects _ _ _ R4 obj o1 Ho1) as (o' & Ho' & Hsame). assert (o' = o) as -> by congruence.
    pose proof Hsame as (_ & _ & _ & E4 & E5 & _). rewrite E4 in Hb. rewrite E5.
    destruct (moved_memory _ _ _ _ _ R4 Hm) as (b' & m1 & Hb' & Hm1 & Hp). assert (b' = b) as -> by congruence.
    destruct (decide (synced b m1 (Z.to_nat (x + h_offset o1)))) as [Hsy|Hnsy]; [by eapply progress_synced|].
    destruct (so_memory _ _ _ H1 mi m1 Hm1) as (b1 & Hb1 & Hok). assert (b1 = b) as -> by congruence.
    apply (mo_synced _ _ Hok) in Hnsy. pose proof (contents_nonneg e x Hwf Hx).
    destruct (so_backing _ _ _ H1 obj o1 mi Ho1 Hb) as (m2 & Hm2 & [Hz _] & _).
    rewrite Z2Nat.id in Hnsy by lia.
    destruct (Hcol cb Hcb obj e o1 mi m1 (x + h_offset o1) He Ho1 Hb Hm1 Hnsy) as [(r & Hr & _) Hf].
    { by replace (x + h_offset o1 - h_offset o1) with x by lia. }
    assert (Hmi : mi ∈ map fst (iterate _ ranges)).
    { apply list_elem_of_fmap. exists (mi, r). split; [done|]. by rewrite (iterate_law _ ranges). }
    pose proof (R5 mi Hmi c cb obj e o Hf) as Hfin. rewrite (mv_cmdbuffers _ _ _ R4) in Hfin.
    rewrite E4 in Hfin. specialize (Hfin Hcb He Ho Hb). rewrite <- E5. apply (Hfin o mi m b x); try done. by rewrite E4.
Qed.
End Flush.
