(* ===== verification/HostFlush.v ===== *)
(** * Explicit flushes of mapped memory (src/hardcode_write.cpp)

    [vkFlushMappedMemoryRanges] exposes the flushed part of a mapping. For a device
    with explicit host updates, or a flush with markings, what changed in it is
    written at once, object by object, with the markings that fall into the object
    moved to its start. *)

From Stdlib Require Import ZArith Lia Bool.
From Stdlib.Strings Require Import Byte.
From stdpp Require Import base numbers list gmap.
From S2P Require Import Prelude Stream RangeTracking Patch Memory FileWriter FileReader Packets Markings Translate Updates HostMemory HostMemoryInv.

#[local] Open Scope Z_scope.

(** [VkMappedMemoryRange]; [fl_marks] is the marking structure in its chain *)
Record VkMappedMemoryRange := MappedMemoryRange {
  fl_memory : nat;
  fl_offset : Z;
  fl_size : Z;
  fl_marks : option VkMarkedOffsetsARM
}.

(** the part of the mapping the range flushes *)
Definition capture_clamp_mapped_flush_range (r : VkMappedMemoryRange) (m : hostmemory) : option (Z * Z) :=
  if negb (is_mapped m) || (m_size m =? 0) then None
  else
    let mapped_base := m_offset m in
    let mapped_limit := wrap64 (m_offset m + m_size m) in
    let requested_end :=
      if negb (fl_size r =? VK_WHOLE_SIZE) then
        if fl_size r >? UINT64_MAX - fl_offset r then UINT64_MAX else fl_offset r + fl_size r
      else mapped_limit in
    let mapped_start := Z.max (fl_offset r) mapped_base in
    let mapped_end := Z.min requested_end mapped_limit in
    if mapped_start >=? mapped_end then None else Some (mapped_start, mapped_end).

Section Flush.
Context {S : Type} `{PacketSink S} `{MarkingHeader}.
Context (write_extension : VkMarkedOffsetsARM -> S -> outcome S).
Context (buffers : list (option address_buffer)) (structures : list (option (Z * Z))).

Definition marked_entry_size (type : Z) : Z :=
  if type =? VK_MARKING_TYPE_DEVICE_ADDRESS_ARM then 8
  else if type =? VK_MARKING_TYPE_SHADER_GROUP_HANDLE_ARM then 32
  else 1.

(** [adjusted_offsets], [adjusted_types], [adjusted_subtypes] and
    [has_descriptor_markings] *)
Record adjusted := Adjusted {
  adjusted_offsets : list Z;
  adjusted_types : list Z;
  adjusted_subtypes : list Z;
  has_descriptor_markings : bool
}.

(** the marking [mark_i] and the [n] behind it *)
Fixpoint adjust_marks (base mapped_start mapped_end : Z) (o : hostobject) (spans : list range)
    (offsets types : list Z) (subtypes : option (list Z)) (mark_i n : nat) (a : adjusted) : outcome adjusted :=
  match n with
  | O => Ok a
  | Datatypes.S n =>
      let next := adjust_marks base mapped_start mapped_end o spans offsets types subtypes (Datatypes.S mark_i) n in
      let* off := at_index offsets mark_i in
      let mark_abs := wrap64 (base + off) in
      if (mark_abs <? mapped_start) || (mark_abs >=? mapped_end) then next a
      else if (mark_abs <? h_offset o) || (mark_abs >=? wrap64 (h_offset o + h_size o)) then next a
      else
        let object_mark_offset := mark_abs - h_offset o in
        let* type := at_index types mark_i in
        let descriptor := type =? VK_MARKING_TYPE_DESCRIPTOR_ARM in
        let a := if descriptor then Adjusted (adjusted_offsets a) (adjusted_types a) (adjusted_subtypes a) true else a in
        let mark_size := marked_entry_size type in
        if negb descriptor && negb (range_overlaps_any object_mark_offset (wrap64 (object_mark_offset + mark_size - 1)) spans) then next a
        else
          let* subs :=
            match subtypes with
            | Some l => let* s := at_index l mark_i in Ok (adjusted_subtypes a ++ [s])
            | None => Ok (adjusted_subtypes a)
            end in
          next (Adjusted (adjusted_offsets a ++ [object_mark_offset]) (adjusted_types a ++ [type]) subs (has_descriptor_markings a))
  end.

(** the markings to write with the object, and whether a descriptor is among them *)
Definition adjust_markings (r : VkMappedMemoryRange) (mapped_start mapped_end : Z) (o : hostobject) (spans : list range)
    : outcome (option VkMarkedOffsetsARM * bool) :=
  match fl_marks r with
  | None => Ok (None, false)
  | Some ar =>
      match pOffsets ar, pMarkingTypes ar with
      | Some offsets, Some types =>
          if count ar >? 0 then
            let* a := adjust_marks (fl_offset r) mapped_start mapped_end o spans offsets types (pSubTypes ar) 0 (Z.to_nat (count ar))
                        (Adjusted [] [] [] false) in
            let ar_use :=
              if bool_decide (adjusted_offsets a = []) then None
              else Some (MarkedOffsets (sType ar) (wrap32 (Z.of_nat (length (adjusted_offsets a)))) (Some (adjusted_types a))
                           (match pSubTypes ar with Some _ => Some (adjusted_subtypes a) | None => None end)
                           (Some (adjusted_offsets a))) in
            Ok (ar_use, has_descriptor_markings a)
          else Ok (None, false)
      | _, _ => Ok (None, false)
      end
  end.

(** one entry of the memory's usage; [p] is the memory's mapping *)
Definition flush_usage (device : trackable) (r : VkMappedMemoryRange) (mapped_start mapped_end : Z) (contents : list byte)
    (entry : Z * nat) (st : capture S) : outcome (capture S) :=
  let '(first, obj) := entry in
  if first >? mapped_end then Ok st
  else
    let* o := at_index (objects st) obj in
    let* _ := require (first =? h_offset o) AssertFailed in
    if wrap64 (first + h_size o) <=? mapped_start then Ok st
    else
      let* m := at_index (memories st) (fl_memory r) in
      match clone m, ptr m with
      | Some c, Some p =>
          let start := Z.max (h_offset o) mapped_start - h_offset o in
          let end_ := Z.min (wrap64 (h_offset o + h_size o)) mapped_end - h_offset o in
          let* changedptr := read_mapped p (m_offset m) contents (h_offset o) start (end_ - start) in
          let* (changed_spans, changed) :=
            collect_patch_spans (drop (Z.to_nat (h_offset o)) c) changedptr (Z.to_nat start) (Z.to_nat (end_ - start)) in
          let* (ar_use, has_descriptor) := adjust_markings r mapped_start mapped_end o changed_spans in
          if (changed =? 0) && negb has_descriptor then Ok st
          else
            let* (res, w) := write_out_mapped write_extension buffers structures device p (m_offset m) contents m o start (end_ - start) ar_use (writer st) in
            Ok (with_writer (with_object (with_memory st (fl_memory r) res.1) obj res.2) w)
      | _, _ => Fail NullPointer
      end.

Fixpoint flush_usages (device : trackable) (r : VkMappedMemoryRange) (mapped_start mapped_end : Z) (contents : list byte)
    (entries : list (Z * nat)) (st : capture S) : outcome (capture S) :=
  match entries with
  | [] => Ok st
  | e :: entries =>
      let* st := flush_usage device r mapped_start mapped_end contents e st in
      flush_usages device r mapped_start mapped_end contents entries st
  end.

Definition flush_mapped_range (device : trackable) (explicit_host_updates : bool) (contents : list (list byte))
    (r : VkMappedMemoryRange) (st : capture S) : outcome (capture S) :=
  let* m := at_index (memories st) (fl_memory r) in
  match capture_clamp_mapped_flush_range r m with
  | None => Ok st
  | Some (mapped_start, mapped_end) =>
      let* e := add_os (exposed m) mapped_start (mapped_end - mapped_start) in
      let st := with_memory st (fl_memory r) (with_exposed m e) in
      if explicit_host_updates || (match fl_marks r with Some _ => true | None => false end) then
        let* bytes := at_index contents (fl_memory r) in
        flush_usages device r mapped_start mapped_end bytes (usage m) st
      else Ok st
  end.

Fixpoint flush_mapped_ranges (device : trackable) (explicit_host_updates : bool) (contents : list (list byte))
    (rs : list VkMappedMemoryRange) (st : capture S) : outcome (capture S) :=
  match rs with
  | [] => Ok st
  | r :: rs =>
      let* st := flush_mapped_range device explicit_host_updates contents r st in
      flush_mapped_ranges device explicit_host_updates contents rs st
  end.

(** [success] says whether the driver's call succeeded *)
Definition trace_post_vkFlushMappedMemoryRanges (success : bool) (device : trackable) (explicit_host_updates : bool)
    (contents : list (list byte)) (rs : list VkMappedMemoryRange) (st : capture S) : outcome (capture S) :=
  if negb success then Ok st else flush_mapped_ranges device explicit_host_updates contents rs st.
End Flush.

(** ** The part that is flushed *)

Lemma clamp_spec r m p s e : memory_ok p m -> 0 <= fl_offset r -> 0 <= fl_size r ->
  capture_clamp_mapped_flush_range r m = Some (s, e) ->
  (exists q, ptr m = Some q) /\ m_offset m <= s /\ s < e /\ e <= m_offset m + m_size m /\ 0 <= s /\ e <= allocationSize m.
Proof.
  intros [M1 M2 M3 M4 M5 M6 M7 M8 M9 M10] H1 H2. unfold capture_clamp_mapped_flush_range, is_mapped.
  destruct (ptr m) as [q|] eqn:Ep; [|done]. cbn [negb orb]. destruct (M10 q eq_refl) as (_ & W1 & W2 & W3 & _).
  destruct (Z.eqb_spec (m_size m) 0) as [E|E]; [lia|]. rewrite wrap64_small by u_lia. rewrite Z.geb_leb.
  set (re := if negb _ then _ else _). destruct (Z.leb_spec (Z.min re (m_offset m + m_size m)) (Z.max (fl_offset r) (m_offset m))) as [E'|E']; [done|].
  intros [= <- <-]. split; [by exists q|]. lia.
Qed.

Section FlushProofs.
Context {S : Type} `{PacketSink S} `{MarkingHeader}.
Context (write_extension : VkMarkedOffsetsARM -> S -> outcome S).
Context (read_extension : list byte -> outcome (VkMarkedOffsetsARM * list byte)).
Context (buffers : list (option address_buffer)) (structures : list (option (Z * Z))).
Context (debug : bool) (translate_buffer translate_structure : Z -> Z).
Context (pending : list descriptor_rewrite) (pipelines : list pipeline_handles).
Context (other : Z -> host_areas -> list byte -> outcome (host_areas * list byte)).
Context (areas0 : host_areas).

Abbreviation written_to := (written_state read_extension debug translate_buffer translate_structure pending pipelines other areas0).

(** the memory's bytes of an object in [s .. e) are in step with the device *)
Definition flushed (bytes : list (list byte)) (st : capture S) (memory obj : nat) (s e : Z) : Prop :=
  forall o m b x, objects st !! obj = Some o -> memories st !! memory = Some m -> bytes !! memory = Some b ->
    0 <= x < h_size o -> s <= x + h_offset o < e -> synced b m (Z.to_nat (x + h_offset o)).

Lemma flushed_moved bytes st st' memory obj s e : moved bytes st st' -> (exists o, objects st !! obj = Some o) ->
  flushed bytes st memory obj s e -> flushed bytes st' memory obj s e.
Proof.
  intros Hmv [o0 Ho0] Hf o m b x Ho Hm Hb Hx Hs. destruct (moved_memory _ _ _ _ _ Hmv Hm) as (b' & m0 & Hb' & Hm0 & Hp).
  assert (b' = b) as -> by congruence. destruct (mv_objects _ _ _ Hmv obj o0 Ho0) as (o' & Ho' & _ & _ & _ & _ & E5 & E6 & _).
  assert (o' = o) as -> by congruence. eapply progress_synced; [exact Hp|]. rewrite E5, E6 in *. by apply (Hf o0 m0 b x).
Qed.

Lemma flush_usage_step device r s e b bytes key obj st m k l areas :
  device_ok device -> fl_marks r = None -> bytes !! fl_memory r = Some b -> store_ok bytes areas st -> usage_ok st ->
  written_to (writer st) l areas -> roomy l (Datatypes.S k) -> memories st !! fl_memory r = Some m -> (key, obj) ∈ usage m ->
  (exists q, ptr m = Some q) -> m_offset m <= s -> s < e -> e <= m_offset m + m_size m ->
  exists st' l' areas',
    flush_usage write_extension buffers structures device r s e b (key, obj) st = Ok st' /\
    store_ok bytes areas' st' /\ written_to (writer st') l' areas' /\ roomy l' k /\ moved bytes st st' /\
    flushed bytes st' (fl_memory r) obj s e.
Proof.
  intros Hd Hmarks Hb Hst Hus Hw Hroom Hm Hin [q Hq] H1 H2 H3.
  destruct (Hus _ _ _ _ Hm Hin) as (o & Ho & Ek & Hback). unfold flush_usage.
  destruct (so_memory _ _ _ Hst _ m Hm) as (b' & Hb' & Hok). assert (b' = b) as -> by congruence.
  destruct (so_backing _ _ _ Hst obj o _ Ho Hback) as (m0 & Hm0 & [Hz Hfit] & Ha). assert (m0 = m) as -> by congruence.
  pose proof (so_object _ _ _ Hst obj o Ho) as Hoo. pose proof (oo_size _ Hoo) as [Hs1 Hs2].
  destruct (mo_mapped _ _ Hok q Hq) as (-> & W1 & W2 & W3 & W4). pose proof (mo_alloc _ _ Hok) as Hal.
  assert (Hskip : (forall x, 0 <= x < h_size o -> ~ (s <= x + h_offset o < e)) -> exists st' l' areas',
    Ok st = Ok st' /\ store_ok bytes areas' st' /\ written_to (writer st') l' areas' /\ roomy l' k /\ moved bytes st st' /\
    flushed bytes st' (fl_memory r) obj s e).
  { intros Hno. exists st, l, areas. split; [done|]. do 2 (split; [done|]). split; [by apply (roomy_le l (Datatypes.S k)); [lia|]|].
    split; [by eapply moved_refl|]. intros o1 m1 b1 x Ho1 _ _ Hx Hse. assert (o1 = o) as -> by congruence. by destruct (Hno x). }
  destruct (Z.gtb_spec key e) as [Hk|Hk]; [apply Hskip; intros x Hx; lia|].
  unfold at_index at 1. rewrite Ho. cbn [obind]. rewrite <- Ek, Z.eqb_refl. cbn [require obind].
  rewrite wrap64_small by u_lia. destruct (Z.leb_spec (h_offset o + h_size o) s) as [Hl|Hl]; [apply Hskip; intros x Hx; lia|].
  unfold at_index. rewrite Hm. cbn [obind]. rewrite Hq.
  assert (Hclone : clone m <> None).
  { intros En. apply (mo_clone _ _ Hok En (m_offset m)). apply W4. lia. }
  destruct (clone m) as [c|] eqn:Ec; [|done]. cbv zeta.
  assert (Ecb : clone_bytes m = c) by (unfold clone_bytes; by rewrite Ec).
  pose proof (mo_clone_length _ _ Hok) as Hlc. rewrite Ecb in Hlc. pose proof (mo_length _ _ Hok) as Hlb.
  set (f := Z.to_nat (Z.max (h_offset o) s - h_offset o)).
  set (n := Z.to_nat (Z.min (h_offset o + h_size o) e - h_offset o - (Z.max (h_offset o) s - h_offset o))).
  assert (Ef : Z.max (h_offset o) s - h_offset o = Z.of_nat f) by (unfold f; lia).
  assert (En : Z.min (h_offset o + h_size o) e - h_offset o - Z.of_nat f = Z.of_nat n) by (unfold n, f; lia).
  rewrite Ef, En, ?Nat2Z.id. unfold read_mapped. cbn [w_base w_size].
  replace (m_offset m + h_offset o - m_offset m) with (h_offset o) by lia. rewrite !(proj2 (Z.leb_le _ _)) by lia. cbn [andb require obind].
  set (off := Z.to_nat (h_offset o)).
  destruct (collect_patch_spans_none (drop off c) (drop off b) f n) as (spans & changed & -> & Hpos & Hnone); [u_lia|]. cbn [obind].
  unfold adjust_markings. rewrite Hmarks. cbn [obind negb]. rewrite andb_true_r.
  assert (Hbytes : forall x, 0 <= x < h_size o -> s <= x + h_offset o < e -> exists i, Z.to_nat (x + h_offset o) = (off + i)%nat /\ (f <= i < f + n)%nat).
  { intros x Hx Hse. exists (Z.to_nat x). unfold off. lia. }
  destruct (Z.eqb_spec changed 0) as [E0|E0].
  { exists st, l, areas. split; [done|]. do 2 (split; [done|]). split; [by apply (roomy_le l (Datatypes.S k)); [lia|]|].
    split; [by eapply moved_refl|]. intros o1 m1 b1 x Ho1 Hm1 Hb1 Hx Hse. assert (o1 = o) as -> by congruence.
    assert (m1 = m) as -> by congruence. assert (b1 = b) as -> by congruence. destruct (Hbytes x Hx Hse) as (i & -> & Hi).
    unfold synced. rewrite Ecb. specialize (Hnone E0 i Hi). by rewrite !lookup_drop in Hnone. }
  destruct (write_out_mapped_step write_extension read_extension buffers structures debug translate_buffer translate_structure pending pipelines
    other areas0 device (Window (m_offset m) (m_size m)) o m b f n (writer st) l k areas)
    as (m' & o' & w' & l' & areas' & E & Hw' & Hr' & Hwr & He & Hsy); try done; try (cbn [w_base w_size]; lia).
  { by rewrite Ec. }
  { by rewrite Ecb. }
  cbn [w_base] in E. rewrite E. cbn [obind fst snd].
  assert (Hwr' : wrote b (in_object o) areas m m' o o' areas').
  { destruct Hwr as [X1 X2 X3 X4 X5 X6]. split; try done. eapply progress_weaken; [|exact X1]. intros i. unfold part_of, in_object. lia. }
  assert (Hok' : memory_ok b m') by (destruct Hwr as [X1 X2 X3 X4 X5 X6]; by apply (memory_ok_progress b (part_of o f n) m)).
  destruct (store_update bytes areas areas' st (fl_memory r) obj b m m' o o' w') as [Hst' Hmv]; try done.
  eexists _, l', areas'. split; [reflexivity|]. do 4 (split; [done|]).
  intros o1 m1 b1 x Ho1 Hm1 Hb1 Hx Hse. rewrite (updated_memory st (fl_memory r) obj m m' o' w' Hm) in Hm1. rewrite decide_True in Hm1 by done.
  rewrite (updated_object st (fl_memory r) obj m' o o' w' Ho) in Ho1. rewrite decide_True in Ho1 by done.
  injection Hm1 as <-. injection Ho1 as <-. assert (b1 = b) as -> by congruence.
  destruct (wr_object _ _ _ _ _ _ _ _ Hwr) as (_ & _ & _ & _ & E5 & E6 & _). rewrite E5, E6 in *.
  apply Hsy. unfold part_of. lia.
Qed.

Lemma flush_usages_step device r s e b bytes entries : device_ok device -> fl_marks r = None -> bytes !! fl_memory r = Some b ->
  forall st m k l areas, store_ok bytes areas st -> usage_ok st ->
  written_to (writer st) l areas -> roomy l (length entries + k) -> memories st !! fl_memory r = Some m ->
  (forall x, x ∈ entries -> x ∈ usage m) ->
  (exists q, ptr m = Some q) -> m_offset m <= s -> s < e -> e <= m_offset m + m_size m ->
  exists st' l' areas',
    flush_usages write_extension buffers structures device r s e b entries st = Ok st' /\
    store_ok bytes areas' st' /\ written_to (writer st') l' areas' /\ roomy l' k /\ moved bytes st st' /\
    forall key obj, (key, obj) ∈ entries -> flushed bytes st' (fl_memory r) obj s e.
Proof.
  intros Hd Hmarks Hb. induction entries as [|[key obj] entries IH]; intros st m k l areas Hst Hus Hw Hroom Hm Hin Hq H1 H2 H3; cbn [flush_usages].
  { exists st, l, areas. split; [done|]. do 3 (split; [done|]). split; [by eapply moved_refl|]. intros key obj Hi. by apply not_elem_of_nil in Hi. }
  destruct (flush_usage_step device r s e b bytes key obj st m (length entries + k) l areas)
    as (st1 & l1 & areas1 & E1 & A1 & A2 & A3 & A4 & A5); try done; [apply Hin; by left|].
  rewrite E1. cbn [obind]. destruct (mv_memories _ _ _ A4 _ m Hm) as (b' & m1 & Hb' & Hm1 & Hp).
  destruct (pr_mapping _ _ _ _ Hp) as (P1 & P2 & P3). destruct (pr_fixed _ _ _ _ Hp) as (_ & _ & P6).
  destruct (IH st1 m1 k l1 areas1) as (st' & l' & areas' & E' & B1 & B2 & B3 & B4 & B5); rewrite ?P1, ?P2, ?P3, ?P6; try done.
  { by apply (usage_ok_moved bytes st). }
  { intros x Hx. apply Hin. by right. }
  exists st', l', areas'. split; [done|]. do 3 (split; [done|]). split; [by eapply moved_trans|].
  intros key' obj' Hi. apply elem_of_cons in Hi as [[= -> ->]|Hi]; [|by apply (B5 key')].
  apply (flushed_moved bytes st1); try done. destruct (Hus _ _ _ _ Hm (Hin _ ltac:(by left))) as (o & Ho & _).
  destruct (mv_objects _ _ _ A4 obj o Ho) as (o' & Ho' & _). by exists o'.
Qed.

(** exposing more of a memory *)
Lemma expose_keeps bytes areas st i m e : store_ok bytes areas st -> memories st !! i = Some m -> clone m <> None -> wf e ->
  (forall x, is_exposed m x -> RangeTracking.contents e x) -> (forall x, RangeTracking.contents e x -> 0 <= x < allocationSize m) ->
  store_ok bytes areas (with_memory st i (with_exposed m e)).
Proof.
  intros Hst Hm Hcl Hwf Hmore Hin. destruct (so_memory _ _ _ Hst i m Hm) as (b & Hb & [M1 M2 M3 M4 M5 M6 M7 M8 M9 M10]).
  assert (Hid : <[i := b]> bytes = bytes) by (by apply list_insert_id). rewrite <- Hid.
  apply (store_memory bytes areas st i m _ b b); try done. split; try done.
  - intros k Hk. apply Hmore. by apply M9.
  - intros q Hq. destruct (M10 q Hq) as (Q1 & Q2 & Q3 & Q4 & Q5). repeat split; try done. intros x Hx. by apply Hmore, Q5.
Qed.

(** what a flush leaves alone *)
Record kept (bytes : list (list byte)) (st st' : capture S) : Prop := {
  ke_cmdbuffers : cmdbuffers st' = cmdbuffers st;
  ke_memories : forall i m, memories st !! i = Some m -> exists m', memories st' !! i = Some m' /\
    ptr m' = ptr m /\ m_offset m' = m_offset m /\ m_size m' = m_size m /\ usage m' = usage m /\
    forall b j, bytes !! i = Some b -> synced b m j -> synced b m' j;
  ke_objects : forall i o, objects st !! i = Some o -> exists o', objects st' !! i = Some o' /\ same_object o o';
  ke_length : length (memories st') = length (memories st)
}.

Lemma kept_refl bytes st : kept bytes st st.
Proof. split; try done; [intros i m Hm; by exists m|]. intros i o Ho. exists o. split; [done|apply same_object_refl]. Qed.

Lemma kept_trans bytes st1 st2 st3 : kept bytes st1 st2 -> kept bytes st2 st3 -> kept bytes st1 st3.
Proof.
  intros [A1 A2 A3 A4] [B1 B2 B3 B4]. split; [congruence| | |congruence].
  - intros i m Hm. destruct (A2 i m Hm) as (m1 & Hm1 & P1 & P2 & P3 & P4 & P5).
    destruct (B2 i m1 Hm1) as (m2 & Hm2 & Q1 & Q2 & Q3 & Q4 & Q5). exists m2. split; [done|].
    do 4 (split; [congruence|]). auto.
  - intros i o Ho. destruct (A3 i o Ho) as (o1 & Ho1 & Hs1). destruct (B3 i o1 Ho1) as (o2 & Ho2 & Hs2).
    exists o2. split; [done|]. by eapply same_object_trans.
Qed.

Lemma moved_kept bytes st st' : moved bytes st st' -> kept bytes st st'.
Proof.
  intros [M0 M1 M2 M3]. split; try done. intros i m Hm. destruct (M2 i m Hm) as (b & m' & Hb & Hm' & Hp). exists m'. split; [done|].
  pose proof Hp as [(P1 & P2 & P3) (_ & _ & P6) _ _]. do 4 (split; [done|]). intros b' j Hb' Hsy.
  assert (b' = b) as -> by congruence. by eapply progress_synced.
Qed.

Lemma kept_memory bytes st st' i m' : kept bytes st st' -> memories st' !! i = Some m' -> exists m, memories st !! i = Some m.
Proof. intros Hk Hm. apply lookup_lt_is_Some_2. rewrite <- (ke_length _ _ _ Hk). by apply lookup_lt_Some in Hm. Qed.

Lemma usage_ok_kept bytes st st' : kept bytes st st' -> usage_ok st -> usage_ok st'.
Proof.
  intros Hk Hu i m key obj Hm Hin. destruct (kept_memory _ _ _ _ _ Hk Hm) as [m0 Hm0].
  destruct (ke_memories _ _ _ Hk i m0 Hm0) as (m' & Hm' & _ & _ & _ & E & _). assert (m' = m) as -> by congruence.
  rewrite E in Hin. destruct (Hu i m0 key obj Hm0 Hin) as (o & Ho & E1 & E2).
  destruct (ke_objects _ _ _ Hk obj o Ho) as (o' & Ho' & _ & _ & _ & E4 & E5 & _). exists o'. split; [done|]. split; congruence.
Qed.

Lemma flushed_kept bytes st st' memory obj s e : kept bytes st st' -> (exists o, objects st !! obj = Some o) ->
  flushed bytes st memory obj s e -> flushed bytes st' memory obj s e.
Proof.
  intros Hk [o0 Ho0] Hf o m b x Ho Hm Hb Hx Hs. destruct (kept_memory _ _ _ _ _ Hk Hm) as [m0 Hm0].
  destruct (ke_memories _ _ _ Hk memory m0 Hm0) as (m' & Hm' & _ & _ & _ & _ & Hsy). assert (m' = m) as -> by congruence.
  destruct (ke_objects _ _ _ Hk obj o0 Ho0) as (o' & Ho' & _ & _ & _ & _ & E5 & E6 & _). assert (o' = o) as -> by congruence.
  apply Hsy; [done|]. rewrite E5, E6 in *. by apply (Hf o0 m0 b x).
Qed.

Lemma expose_kept bytes st i m e : memories st !! i = Some m -> kept bytes st (with_memory st i (with_exposed m e)).
Proof.
  intros Hm. split; try done; cbn [with_memory memories objects].
  - intros j mj Hj. destruct (decide (j = i)) as [->|Hne]; [|rewrite list_lookup_insert_ne by done; by exists mj].
    assert (mj = m) as -> by congruence. eexists. split; [apply list_lookup_insert_eq; by apply lookup_lt_Some in Hm|]. by repeat split.
  - intros j o Ho. exists o. split; [done|apply same_object_refl].
  - apply length_insert.
Qed.

(** a flush without markings of a memory the capture knows *)
Definition flush_legal (st : capture S) (r : VkMappedMemoryRange) : Prop :=
  fl_marks r = None /\ 0 <= fl_offset r /\ 0 <= fl_size r /\ exists m, memories st !! fl_memory r = Some m.

(** the objects the flush of a range may write *)
Definition flush_cost (st : capture S) (r : VkMappedMemoryRange) : nat :=
  match memories st !! fl_memory r with Some m => length (usage m) | None => 0%nat end.

(** the bytes of the flushed ranges are in step with the device *)
Definition flushed_range (bytes : list (list byte)) (st st' : capture S) (r : VkMappedMemoryRange) : Prop :=
  forall m s e key obj, memories st !! fl_memory r = Some m -> capture_clamp_mapped_flush_range r m = Some (s, e) ->
    (key, obj) ∈ usage m -> flushed bytes st' (fl_memory r) obj s e.

Lemma flush_mapped_range_step device explicit bytes r st k l areas :
  device_ok device -> flush_legal st r -> store_ok bytes areas st -> usage_ok st -> written_to (writer st) l areas ->
  roomy l (flush_cost st r + k) ->
  exists st' l' areas',
    flush_mapped_range write_extension buffers structures device explicit bytes r st = Ok st' /\
    store_ok bytes areas' st' /\ written_to (writer st') l' areas' /\ roomy l' k /\ kept bytes st st' /\
    (explicit = true -> flushed_range bytes st st' r).
Proof.
  intros Hd (Hmarks & F1 & F2 & m & Hm) Hst Hus Hw Hroom. unfold flush_mapped_range, at_index. rewrite Hm. cbn [obind].
  assert (Hlow : roomy l k) by (apply (roomy_le l (flush_cost st r + k)); [lia|done]).
  destruct (so_memory _ _ _ Hst _ m Hm) as (b & Hb & Hok).
  destruct (capture_clamp_mapped_flush_range r m) as [[s e]|] eqn:Ec.
  2:{ exists st, l, areas. split; [done|]. do 3 (split; [done|]). split; [apply kept_refl|]. intros _ m1 s1 e1 key obj Hm1 E1. congruence. }
  destruct (clamp_spec r m b s e Hok F1 F2 Ec) as ([q Hq] & C1 & C2 & C3 & C4 & C5). pose proof (mo_alloc _ _ Hok) as Hal.
  destruct (add_os_grows (exposed m) s (e - s)) as (x & -> & Hwf & Hx); [apply Hok|done|lia|u_lia|]. cbn [obind].
  destruct (mo_mapped _ _ Hok q Hq) as (_ & W1 & W2 & W3 & W4).
  assert (Hst1 : store_ok bytes areas (with_memory st (fl_memory r) (with_exposed m x))).
  { apply expose_keeps; try done.
    - intros Hn. apply (mo_clone _ _ Hok Hn (m_offset m)). apply W4. lia.
    - intros y Hy. apply Hx. by left.
    - intros y Hy. apply Hx in Hy as [Hy|Hy]; [by apply (mo_exposed _ _ Hok)|lia]. }
  pose proof (expose_kept bytes st (fl_memory r) m x Hm) as Hk1. set (st1 := with_memory st (fl_memory r) (with_exposed m x)) in *.
  assert (Hm1 : memories st1 !! fl_memory r = Some (with_exposed m x)) by (apply list_lookup_insert_eq; by apply lookup_lt_Some in Hm).
  rewrite Hmarks, orb_false_r. destruct explicit.
  - rewrite Hb. cbn [obind].
    destruct (flush_usages_step device r s e b bytes (usage m) Hd Hmarks Hb st1 (with_exposed m x) k l areas)
      as (st' & l' & areas' & E & B1 & B2 & B3 & B4 & B5); try done.
    { by apply (usage_ok_kept bytes st). }
    { unfold flush_cost in Hroom. by rewrite Hm in Hroom. }
    { by exists q. }
    exists st', l', areas'. split; [done|]. do 3 (split; [done|]). split; [eapply kept_trans; [exact Hk1|by apply moved_kept]|].
    intros _ m1 s1 e1 key obj Hm1' Ec' Hin. assert (m1 = m) as -> by congruence. assert (s1 = s /\ e1 = e) as [-> ->] by (split; congruence).
    by apply (B5 key).
  - exists st1, l, areas. by split_and!.
Qed.

Lemma flush_mapped_ranges_step device explicit bytes rs : device_ok device -> forall st k l areas,
  Forall (flush_legal st) rs -> store_ok bytes areas st -> usage_ok st -> written_to (writer st) l areas ->
  roomy l (list_sum (map (flush_cost st) rs) + k) ->
  exists st' l' areas',
    flush_mapped_ranges write_extension buffers structures device explicit bytes rs st = Ok st' /\
    store_ok bytes areas' st' /\ written_to (writer st') l' areas' /\ roomy l' k /\ kept bytes st st' /\
    (explicit = true -> Forall (flushed_range bytes st st') rs).
Proof.
  intros Hd. induction rs as [|r rs IH]; intros st k l areas Hrs Hst Hus Hw Hroom; cbn [flush_mapped_ranges].
  { exists st, l, areas. split; [done|]. do 3 (split; [done|]). split; [apply kept_refl|]. by constructor. }
  apply Forall_cons in Hrs as [Hr Hrs]. cbn [map list_sum] in Hroom.
  destruct (flush_mapped_range_step device explicit bytes r st (list_sum (map (flush_cost st) rs) + k) l areas)
    as (st1 & l1 & areas1 & E1 & A1 & A2 & A3 & A4 & A5); try done; [by rewrite Nat.add_assoc|].
  rewrite E1. cbn [obind].
  assert (Hback : forall i m1, memories st1 !! i = Some m1 -> exists m, memories st !! i = Some m /\ ptr m1 = ptr m /\
    m_offset m1 = m_offset m /\ m_size m1 = m_size m /\ usage m1 = usage m).
  { intros i m1 Hm1. destruct (kept_memory _ _ _ _ _ A4 Hm1) as [m Hm]. destruct (ke_memories _ _ _ A4 i m Hm) as (m' & Hm' & P).
    assert (m' = m1) as -> by congruence. exists m. split; [done|]. tauto. }
  assert (Hlegal : Forall (flush_legal st1) rs).
  { eapply Forall_impl; [exact Hrs|]. intros r' (L1 & L2 & L3 & m & Hm). destruct (ke_memories _ _ _ A4 _ m Hm) as (m' & Hm' & _).
    do 3 (split; [done|]). by exists m'. }
  assert (Hcost : map (flush_cost st1) rs = map (flush_cost st) rs).
  { apply map_ext_in. intros r' Hin. rewrite Forall_forall in Hrs. destruct (Hrs r') as (_ & _ & _ & m & Hm); [by apply list_elem_of_In|].
    destruct (ke_memories _ _ _ A4 _ m Hm) as (m' & Hm' & _ & _ & _ & E & _). unfold flush_cost. by rewrite Hm, Hm', E. }
  destruct (IH st1 k l1 areas1 Hlegal A1) as (st' & l' & areas' & E' & B1 & B2 & B3 & B4 & B5); [by apply (usage_ok_kept bytes st)|done|by rewrite Hcost|].
  exists st', l', areas'. split; [done|]. do 3 (split; [done|]). split; [by eapply kept_trans|].
  intros He. apply Forall_cons. split.
  - intros m s e key obj Hm Ec Hin. apply (flushed_kept bytes st1); [done| |by apply (A5 He m s e key)].
    destruct (Hus _ _ _ _ Hm Hin) as (o & Ho & _). destruct (ke_objects _ _ _ A4 obj o Ho) as (o' & Ho' & _). by exists o'.
  - eapply Forall_impl; [by apply B5|]. intros r' Hf m s e key obj Hm Ec Hin.
    destruct (ke_memories _ _ _ A4 _ m Hm) as (m1 & Hm1 & P1 & P2 & P3 & P4 & _). apply (Hf m1 s e key); [done| |by rewrite P4].
    unfold capture_clamp_mapped_flush_range, is_mapped in *. by rewrite P1, P2, P3.
Qed.
End FlushProofs.
