(* ===== verification/HostHistory.v ===== *)
(** * Histories of a capture

    Mapping, unmapping, host writes, commands that touch objects, packets of other
    calls and submits as steps of a state machine, with everything the device's
    memory holds. In every state that can be reached a submit succeeds, and the
    replay of what was written then holds every byte the submitted command buffers
    may use. *)

From Stdlib Require Import ZArith Lia Bool.
From Stdlib.Strings Require Import Byte.
From stdpp Require Import base numbers list gmap.
From S2P Require Import Prelude Stream RangeTracking Patch Memory FileWriter FileReader Packets Markings Translate Updates HostMemory HostMemoryInv HostFlush.

#[local] Open Scope Z_scope.

Lemma lookup_repeat {A} (a : A) n k : (k < n)%nat -> repeat a n !! k = Some a.
Proof. revert k; induction n as [|n IH]; intros [|k] Hk; simpl; [lia|lia|done|apply IH; lia]. Qed.

Section History.
Context {S : Type} `{PacketSink S} `{MarkingHeader}.
Context (write_extension : VkMarkedOffsetsARM -> S -> outcome S).
Context (read_extension : list byte -> outcome (VkMarkedOffsetsARM * list byte)).
Context (buffers : list (option address_buffer)) (structures : list (option (Z * Z))).
Context (debug : bool) (translate_buffer translate_structure : Z -> Z).
Context (pending : list descriptor_rewrite) (pipelines : list pipeline_handles).
Context (other : Z -> host_areas -> list byte -> outcome (host_areas * list byte)).
Context (areas0 : host_areas).
Context (wrap_vkMapMemory : nat -> Z -> Z -> window).
Context (iterate : forall A : Type, list A -> list A).
Hypothesis map_law : forall memory offset size, wrap_vkMapMemory memory offset size = Window offset size.
Hypothesis iterate_law : forall A (l : list A), iterate A l ≡ₚ l.

Definition is_update (type : Z) : bool :=
  (type =? PACKET_IMAGE_UPDATE) || (type =? PACKET_IMAGE_UPDATE2) || (type =? PACKET_BUFFER_UPDATE) ||
  (type =? PACKET_BUFFER_UPDATE2) || (type =? PACKET_TENSOR_UPDATE).

(** other packets leave the objects' memory alone *)
Hypothesis other_law : forall type areas body, is_update type = false -> exists rest, other type areas body = Ok (areas, rest).

(** the memories as the device has them, and the capture *)
Record world := World {
  w_bytes : list (list byte);
  w_capture : capture S
}.

(** nothing is mapped, written or recorded, and the memories hold zeros *)
Record starts (w : world) : Prop := {
  st_writer : packet_inv (writer (w_capture w)) [] None;
  st_memory : forall i m, memories (w_capture w) !! i = Some m ->
    Z.land (propertyFlags m) VK_MEMORY_PROPERTY_HOST_VISIBLE_BIT <> 0 /\ is_coherent m = true /\
    0 < allocationSize m <= INT64_MAX /\ clone m = None /\ ptr m = None /\ exposed m = empty_exposure /\
    w_bytes w !! i = Some (repeat x00 (Z.to_nat (allocationSize m)));
  st_object : forall i o, objects (w_capture w) !! i = Some o -> object_ok o /\
    exists a, areas0 !! object_key o = Some a /\ a_initialized a = false /\ h_size o <= Z.of_nat (length (a_bytes a));
  st_backing : forall i o mi, objects (w_capture w) !! i = Some o -> h_backing o = Some mi ->
    exists m, memories (w_capture w) !! mi = Some m /\ fits_in o m;
  st_apart : forall i j o o' mi x, objects (w_capture w) !! i = Some o -> objects (w_capture w) !! j = Some o' -> i <> j ->
    h_backing o = Some mi -> h_backing o' = Some mi -> in_object o x -> ~ in_object o' x;
  st_keys : forall i j o o', objects (w_capture w) !! i = Some o -> objects (w_capture w) !! j = Some o' ->
    object_key o = object_key o' -> i = j;
  st_touched : forall c cb, cmdbuffers (w_capture w) !! c = Some cb -> touched cb = [];
  st_usage : usage_ok (w_capture w)
}.

(** the stream has room for what the submit may write *)
Definition submit_room (cmdbufs : list nat) (st : capture S) : Prop :=
  forall done open ranges found st1, packet_inv (writer st) done open -> queue_updates iterate cmdbufs [] [] st = Ok (ranges, found, st1) ->
    roomy (close done open) (length ranges * cost_all st1 found).

(** the command buffers exist, and no range to compare ends with the byte behind the
    mapping, where the guard of the existing mapping is off by one ([byte_behind_mapping]) *)
Record submit_legal (device : trackable) (cmdbufs : list nat) (st : capture S) : Prop := {
  sl_device : device_ok device;
  sl_known : known_cmdbuffers st cmdbufs;
  sl_edge : forall ranges found st1, queue_updates iterate cmdbufs [] [] st = Ok (ranges, found, st1) -> Forall (no_edge st) ranges;
  sl_room : submit_room cmdbufs st
}.

(** flushes without markings, and the stream has room for what they may write *)
Record flushes_legal (device : trackable) (rs : list VkMappedMemoryRange) (st : capture S) : Prop := {
  fl_device : device_ok device;
  fl_ranges : Forall (flush_legal st) rs;
  fl_room : forall done open, packet_inv (writer st) done open -> roomy (close done open) (list_sum (map (flush_cost st) rs))
}.

(** the size a mapping gets *)
Definition mapping_size (m : hostmemory) (offset size : Z) : Z := if size =? VK_WHOLE_SIZE then allocationSize m - offset else size.

Inductive step : world -> world -> Prop :=
  | step_map bytes st i m m' offset size :
      memories st !! i = Some m -> ptr m = None -> 0 <= offset -> 0 < size -> 0 < mapping_size m offset size ->
      offset + mapping_size m offset size <= allocationSize m ->
      trace_post_vkMapMemory (wrap_vkMapMemory i offset (mapping_size m offset size)) offset size m = Ok m' ->
      step (World bytes st) (World bytes (with_memory st i m'))
  | step_unmap bytes st i m :
      memories st !! i = Some m -> step (World bytes st) (World bytes (with_memory st i (trace_post_vkUnmapMemory m)))
  | step_host_write bytes st i m p b pos data :
      memories st !! i = Some m -> ptr m = Some p -> bytes !! i = Some b ->
      w_base p <= Z.of_nat pos -> Z.of_nat (pos + length data) <= w_base p + w_size p ->
      step (World bytes st) (World (<[i := memcpy b pos data]> bytes) st)
  | step_touch bytes st c cb obj o offset size t :
      cmdbuffers st !! c = Some cb -> objects st !! obj = Some o -> 0 <= offset -> 0 < size -> offset + size <= h_size o ->
      touch (objects st) obj offset size (touched cb) = Ok t ->
      step (World bytes st) (World bytes (with_cmdbuffer st c (with_touched cb t)))
  | step_call bytes st type wr body w1 w2 :
      is_update type = false -> body_writer wr body ->
      (forall done open, packet_inv (writer st) done open -> fits (close done open ++ [(type, body)])) ->
      begin_packet type (writer st) = Ok w1 -> writing wr w1 = Ok w2 ->
      step (World bytes st) (World bytes (with_writer st w2))
  | step_submit bytes st device cmdbufs st' :
      submit_legal device cmdbufs st ->
      trace_pre_vkQueueSubmit write_extension buffers structures wrap_vkMapMemory iterate device false bytes cmdbufs st = Ok st' ->
      step (World bytes st) (World bytes st')
  | step_flush bytes st success device explicit rs st' :
      flushes_legal device rs st ->
      trace_post_vkFlushMappedMemoryRanges write_extension buffers structures success device explicit bytes rs st = Ok st' ->
      step (World bytes st) (World bytes st').

Inductive reachable : world -> Prop :=
  | reach_start w : starts w -> reachable w
  | reach_step w w' : reachable w -> step w w' -> reachable w'.

Abbreviation replay := (replay_packets read_extension debug translate_buffer translate_structure pending pipelines other).
Abbreviation written_to := (written_state read_extension debug translate_buffer translate_structure pending pipelines other areas0).

(** ** The invariant *)

Definition world_ok (w : world) : Prop :=
  exists l areas, store_ok (w_bytes w) areas (w_capture w) /\ written_to (writer (w_capture w)) l areas /\ fits l /\ usage_ok (w_capture w).

Lemma starts_ok w : starts w -> world_ok w.
Proof.
  intros [T1 T2 T3 T4 T5 T6 T7 T8]. exists [], areas0. split; [|split; [|split]].
  - split; try done.
    + intros i m Hm. destruct (T2 i m Hm) as (M1 & M2 & M3 & M4 & M5 & M6 & M7). eexists. split; [exact M7|].
      assert (Ec : clone_bytes m = repeat x00 (Z.to_nat (allocationSize m))) by (unfold clone_bytes; by rewrite M4).
      split; try done; unfold is_exposed, synced; rewrite ?M6, ?Ec, ?repeat_length; try done; try lia.
      * intros _ x Hx. by apply covers_nil in Hx.
      * intros x Hx. by apply covers_nil in Hx.
      * intros p. by rewrite M5.
    + intros i o Ho. by apply (T3 i).
    + intros i o mi Ho Hb. destruct (T4 i o mi Ho Hb) as (m & Hm & T4'). exists m. split; [done|]. split; [done|].
      destruct (T3 i o Ho) as (Ho1 & a & Ha & Hi & Hl). destruct (T2 mi m Hm) as (M1 & M2 & M3 & M4 & _).
      exists a. split; [done|]. split; [done|]. unfold mem_map, clone_bytes. rewrite Hi, M4. apply list_eq. intros k.
      rewrite !slice_lookup. case_decide as Hk; [|done]. destruct (oo_size _ Ho1).
      destruct T4' as [Hz Hf]. rewrite !lookup_repeat by lia. done.
    + intros c cb obj e Hc He. rewrite (T7 c cb Hc) in He. by apply not_elem_of_nil in He.
  - split; [exists [], None; by split|done].
  - repeat split; try constructor; by vm_compute.
  - done.
Qed.

Lemma map_keeps bytes areas st i m m' offset size : store_ok bytes areas st -> memories st !! i = Some m -> ptr m = None ->
  0 <= offset -> 0 < size -> 0 < mapping_size m offset size -> offset + mapping_size m offset size <= allocationSize m ->
  trace_post_vkMapMemory (wrap_vkMapMemory i offset (mapping_size m offset size)) offset size m = Ok m' ->
  store_ok bytes areas (with_memory st i m').
Proof.
  intros Hst Hm Hp H1 H2 H3 H4 E. destruct (so_memory _ _ _ Hst i m Hm) as (b & Hb & Hok).
  destruct Hok as [M1 M2 M3 M4 M5 M6 M7 M8 M9 M10]. set (ms := mapping_size m offset size) in *.
  rewrite map_law in E. unfold trace_post_vkMapMemory in E.
  assert (Hsize : (if (size =? VK_WHOLE_SIZE) || (wrap64 (size + offset) >? allocationSize m) then wrap64 (allocationSize m - offset) else size) = ms).
  { unfold ms, mapping_size in *. destruct (Z.eqb_spec size VK_WHOLE_SIZE) as [Ew|Ew]; cbn [orb]; [apply wrap64_small; u_lia|].
    rewrite wrap64_small by u_lia. rewrite Z.gtb_ltb, (proj2 (Z.ltb_ge _ _)) by lia. done. }
  cbv zeta in E. rewrite Hsize in E.
  set (m1 := match clone (with_mapping m (Some (Window offset ms)) offset ms) with None => _ | Some _ => _ end) in E.
  assert (Hm1 : exposed m1 = exposed m /\ propertyFlags m1 = propertyFlags m /\ allocationSize m1 = allocationSize m /\
    ptr m1 = Some (Window offset ms) /\ m_offset m1 = offset /\ m_size m1 = ms /\ clone m1 <> None /\ clone_bytes m1 = clone_bytes m).
  { unfold m1, clone_bytes. simpl. destruct (clone m) eqn:Ec; simpl; rewrite ?Ec; done. }
  destruct Hm1 as (A1 & A2 & A3 & A4 & A5 & A6 & A7 & A8).
  assert (Hco : is_coherent m1 = true) by (unfold is_coherent in *; by rewrite A2). rewrite Hco, A6 in E.
  destruct (add_os_grows (exposed m1) offset ms) as (e & Ee & Hwf & Hc); [by rewrite A1|done|done|u_lia|].
  rewrite Ee in E. cbn [obind] in E. injection E as <-.
  assert (Hok' : memory_ok b (with_exposed m1 e)).
  { assert (Hcl : clone_bytes (with_exposed m1 e) = clone_bytes m) by exact A8.
    split; unfold is_exposed, synced, is_coherent in *; rewrite ?Hcl; cbn [with_exposed propertyFlags allocationSize clone exposed ptr m_offset m_size];
      rewrite ?A2, ?A3, ?A4, ?A5, ?A6; try done.
    - intros x Hx. apply Hc in Hx as [Hx|Hx]; [rewrite A1 in Hx; by apply M8|lia].
    - intros k Hk. apply Hc. left. rewrite A1. by apply M9.
    - intros q [= <-]. repeat split; try done. intros x Hx. apply Hc. by right. }
  assert (Hid : <[i := b]> bytes = bytes) by (by apply list_insert_id). rewrite <- Hid.
  apply (store_memory bytes areas st i m (with_exposed m1 e) b b); done.
Qed.

Lemma unmap_keeps bytes areas st i m : store_ok bytes areas st -> memories st !! i = Some m ->
  store_ok bytes areas (with_memory st i (trace_post_vkUnmapMemory m)).
Proof.
  intros Hst Hm. destruct (so_memory _ _ _ Hst i m Hm) as (b & Hb & [M1 M2 M3 M4 M5 M6 M7 M8 M9 M10]).
  assert (Hid : <[i := b]> bytes = bytes) by (by apply list_insert_id). rewrite <- Hid.
  by apply (store_memory bytes areas st i m _ b b).
Qed.

Lemma write_keeps bytes areas st i m p b pos data : store_ok bytes areas st -> memories st !! i = Some m -> ptr m = Some p ->
  bytes !! i = Some b -> w_base p <= Z.of_nat pos -> Z.of_nat (pos + length data) <= w_base p + w_size p ->
  store_ok (<[i := memcpy b pos data]> bytes) areas st.
Proof.
  intros Hst Hm Hp Hb H1 H2. destruct (so_memory _ _ _ Hst i m Hm) as (b' & Hb' & Hok). assert (b' = b) as -> by congruence.
  destruct Hok as [M1 M2 M3 M4 M5 M6 M7 M8 M9 M10]. destruct (M10 p Hp) as (-> & W1 & W2 & W3 & W4). simpl in H1, H2.
  assert (Hlen : (pos + length data <= length b)%nat) by lia.
  assert (Est : with_memory st i m = st) by (unfold with_memory; rewrite list_insert_id by done; by destruct st).
  rewrite <- Est. apply (store_memory bytes areas st i m m b); try done. split; try done.
  - rewrite length_memcpy by done. done.
  - intros k Hk. destruct (decide (pos <= k < pos + length data)%nat) as [Hin|Hout]; [apply W4; lia|].
    apply M9. intros Hsy. apply Hk. unfold synced in *. rewrite memcpy_lookup by done. by rewrite decide_False.
Qed.

Lemma touch_keeps bytes areas st c cb obj o offset size t : store_ok bytes areas st -> cmdbuffers st !! c = Some cb ->
  objects st !! obj = Some o -> 0 <= offset -> 0 < size -> offset + size <= h_size o ->
  touch (objects st) obj offset size (touched cb) = Ok t -> store_ok bytes areas (with_cmdbuffer st c (with_touched cb t)).
Proof.
  intros Hst Hc Ho H1 H2 H3 E. pose proof (so_touched_ok _ _ _ c cb Hst Hc) as Ht.
  assert (Htok : touched_ok st t).
  { destruct (h_accessible o) eqn:Ea; [|unfold touch in E; rewrite Ho, Ea in E; by injection E as <-].
    destruct (oo_size _ (so_object _ _ _ Hst obj o Ho)).
    destruct (touch_spec st obj o offset size (touched cb)) as (t' & E' & Ht' & _); try done; [u_lia|]. assert (t' = t) as -> by congruence. done. }
  destruct Hst as [S1 S2 S3 S4 S5 S6]. split; try done. intros d cbd ob e Hd He. cbn [with_cmdbuffer cmdbuffers] in Hd.
  destruct (decide (d = c)) as [->|Hne]; [|rewrite list_lookup_insert_ne in Hd by done; by apply (S6 d cbd)].
  rewrite list_lookup_insert_eq in Hd by (by apply lookup_lt_Some in Hc). injection Hd as <-. by apply Htok.
Qed.

Lemma call_keeps w w1 w2 l areas type wr body : written_to w l areas -> fits l -> is_update type = false -> body_writer wr body ->
  (forall done open, packet_inv w done open -> fits (close done open ++ [(type, body)])) ->
  begin_packet type w = Ok w1 -> writing wr w1 = Ok w2 ->
  written_to w2 (l ++ [(type, body)]) areas /\ fits (l ++ [(type, body)]).
Proof.
  intros [(dn & open & Hi & El) Hr] Hf Hu Hb Hroom E1 E2. specialize (Hroom dn open Hi). rewrite <- El in Hroom.
  split; [|done]. destruct (begin_packet_spec w dn open type Hi) as (w1' & E1' & Hi1 & _); [by rewrite <- El|].
  assert (w1' = w1) as -> by congruence. destruct (writing_spec w1 _ type [] wr body Hi1 Hb) as (w2' & E2' & Hi2 & _).
  assert (w2' = w2) as -> by congruence. split; [exists (close dn open), (Some (type, body)); by rewrite El|].
  rewrite (replay_packets_app _ _ _ _ _ _ _ _ _ _ _ Hr). cbn [replay_packets]. unfold replay_packet. cbn [fst snd].
  unfold switchboard_update. unfold is_update in Hu.
  apply orb_false_elim in Hu as [Hu U5]. apply orb_false_elim in Hu as [Hu U4]. apply orb_false_elim in Hu as [Hu U3].
  apply orb_false_elim in Hu as [U1 U2]. rewrite U1, U2, U3, U4, U5. cbn [orb].
  destruct (other_law type areas body) as (rest & ->); [|done]. unfold is_update. by rewrite U1, U2, U3, U4, U5.
Qed.

(** a legal submit writes what its command buffers may use *)
Lemma legal_submit device bytes cmdbufs st : submit_legal device cmdbufs st -> world_ok (World bytes st) ->
  exists st' l' areas',
    trace_pre_vkQueueSubmit write_extension buffers structures wrap_vkMapMemory iterate device false bytes cmdbufs st = Ok st' /\
    store_ok bytes areas' st' /\ written_to (writer st') l' areas' /\ fits l' /\ (usage_ok st -> usage_ok st') /\
    forall c obj x, c ∈ cmdbufs -> may_use st c obj x -> replayed bytes areas' st' obj x.
Proof.
  intros [L1 L2 L3 L4] (l & areas & Hst & Hw & Hf & Hu). cbn [w_bytes w_capture] in *.
  apply (submit_step write_extension read_extension buffers structures debug translate_buffer translate_structure pending pipelines other
    areas0 wrap_vkMapMemory iterate map_law iterate_law device bytes cmdbufs st l areas); try done.
  intros ranges found st1 E. destruct Hw as [(dn & open & Hi & ->) _]. by apply (L4 dn open).
Qed.

(** a legal flush on a device with explicit host updates writes the flushed ranges *)
Lemma legal_flush success device explicit bytes rs st : flushes_legal device rs st -> world_ok (World bytes st) ->
  exists st' l' areas',
    trace_post_vkFlushMappedMemoryRanges write_extension buffers structures success device explicit bytes rs st = Ok st' /\
    store_ok bytes areas' st' /\ written_to (writer st') l' areas' /\ fits l' /\ usage_ok st' /\ kept bytes st st' /\
    (success = true -> explicit = true -> Forall (flushed_range bytes st st') rs).
Proof.
  intros [L1 L2 L3] (l & areas & Hst & Hw & Hf & Hu). cbn [w_bytes w_capture] in *. unfold trace_post_vkFlushMappedMemoryRanges.
  destruct success; cbn [negb]; [|exists st, l, areas; repeat (split; [done|]); split; [apply kept_refl|done]].
  destruct (flush_mapped_ranges_step write_extension read_extension buffers structures debug translate_buffer translate_structure pending
    pipelines other areas0 device explicit bytes rs L1 st 0 l areas L2 Hst Hu Hw) as (st' & l' & areas' & E & A1 & A2 & A3 & A4 & A5).
  { destruct Hw as [(dn & open & Hi & ->) _]. rewrite Nat.add_0_r. by apply L3. }
  exists st', l', areas'. do 3 (split; [done|]). split; [by destruct A3|]. split; [by eapply usage_ok_kept|]. split; [done|]. auto.
Qed.

Lemma usage_ok_memory st i m m' : usage_ok st -> memories st !! i = Some m -> usage m' = usage m -> usage_ok (with_memory st i m').
Proof.
  intros Hu Hm E j mj key obj Hj Hin. cbn [with_memory memories] in Hj. destruct (decide (j = i)) as [->|Hne].
  - rewrite list_lookup_insert_eq in Hj by (by apply lookup_lt_Some in Hm). injection Hj as <-. rewrite E in Hin. by apply (Hu i m key).
  - rewrite list_lookup_insert_ne in Hj by done. by apply (Hu j mj key).
Qed.

Lemma map_usage p offset size m m' : trace_post_vkMapMemory p offset size m = Ok m' -> usage m' = usage m.
Proof.
  unfold trace_post_vkMapMemory. cbv zeta. set (m1 := match clone _ with None => _ | Some _ => _ end).
  assert (usage m1 = usage m) as <- by (unfold m1; simpl; by destruct (clone m)).
  destruct (is_coherent m1); [|by intros [= <-]]. destruct (add_os _ _ _); [|done]. cbn [obind]. by intros [= <-].
Qed.

Lemma world_step_ok w w' : step w w' -> world_ok w -> world_ok w'.
Proof.
  intros Hs Hok. pose proof Hok as (l & areas & Hst & Hw & Hf & Hus).
  destruct Hs as [bytes st i m m' offset size Hm Hp H1 H2 H3 H4 E|bytes st i m Hm|bytes st i m p b pos data Hm Hp Hb H1 H2|
    bytes st c cb obj o offset size t Hc Ho H1 H2 H3 E|bytes st type wr body w1 w2 Hu Hb Hroom E1 E2|bytes st device cmdbufs st' Hl E|
    bytes st success device explicit rs st' Hl E]; cbn [w_bytes w_capture] in *.
  - exists l, areas. split; [by apply (map_keeps bytes areas st i m m' offset size)|]. split; [done|]. split; [done|].
    apply (usage_ok_memory st i m); try done. by apply map_usage in E.
  - exists l, areas. split; [by apply unmap_keeps|]. split; [done|]. split; [done|]. by apply (usage_ok_memory st i m).
  - exists l, areas. split; [|done]. by apply (write_keeps bytes areas st i m p b pos data).
  - exists l, areas. split; [|done]. by apply (touch_keeps bytes areas st c cb obj o offset size t).
  - exists (l ++ [(type, body)]), areas. split; [by destruct Hst; split|].
    destruct (call_keeps (writer st) w1 w2 l areas type wr body Hw Hf Hu Hb Hroom E1 E2). done.
  - destruct (legal_submit device bytes cmdbufs st Hl Hok) as (st1 & l' & areas' & E' & H1 & H2 & H3 & H4 & _).
    assert (st1 = st') as -> by congruence. exists l', areas'. auto.
  - destruct (legal_flush success device explicit bytes rs st Hl Hok) as (st1 & l' & areas' & E' & H1 & H2 & H3 & H4 & _).
    assert (st1 = st') as -> by congruence. by exists l', areas'.
Qed.

Lemma reachable_ok w : reachable w -> world_ok w.
Proof. induction 1 as [w Hw|w w' _ IH Hs]; [by apply starts_ok|by apply (world_step_ok w)]. Qed.

(** C3: In every state that mapping, unmapping, host writes, commands, packets of
    other calls and earlier submits can reach, capturing a submit of existing command
    buffers succeeds as long as the stream has room for it and no range of a memory that
    is compared ends with the byte directly behind a mapping: the guard that an existing
    mapping holds the range is off by one there, and the byte is read behind the mapping
    ([byte_behind_mapping]). The replay of all packets written so far then leaves in the
    memory of every object every byte the submitted command buffers may use as the device
    has it. *)
Theorem submit_captures_host_writes device bytes cmdbufs st :
  reachable (World bytes st) -> submit_legal device cmdbufs st ->
  exists st' done open areas',
    trace_pre_vkQueueSubmit write_extension buffers structures wrap_vkMapMemory iterate device false bytes cmdbufs st = Ok st' /\
    packet_inv (writer st') done open /\ replay (close done open) areas0 = Ok areas' /\
    forall c obj x, c ∈ cmdbufs -> may_use st c obj x -> replayed bytes areas' st' obj x.
Proof.
  intros Hr Hl. apply reachable_ok in Hr.
  destruct (legal_submit device bytes cmdbufs st Hl Hr) as (st' & l' & areas' & E & _ & [(dn & open & Hi & ->) Hw] & _ & _ & Hu).
  by exists st', dn, open, areas'.
Qed.

(** In every state that can be reached, the replay of all packets written so far
    holds in the memory of every object each byte the application cannot have
    written since, as the device has it. *)
Theorem unexposed_bytes_replayed bytes st :
  reachable (World bytes st) ->
  exists done open areas,
    packet_inv (writer st) done open /\ replay (close done open) areas0 = Ok areas /\
    forall i o mi m x, objects st !! i = Some o -> h_backing o = Some mi -> memories st !! mi = Some m ->
      ~ is_exposed m (x + h_offset o) -> replayed bytes areas st i x.
Proof.
  intros Hr. destruct (reachable_ok _ Hr) as (l & areas & Hst & [(dn & open & Hi & ->) Hw] & _). cbn [w_bytes w_capture] in *.
  exists dn, open, areas. do 2 (split; [done|]). intros i o mi m x Ho Hb Hm Hx o' mi' b Ho' Hb' Hby Hin. assert (Hx0 : 0 <= x) by lia.
  refine (synced_replayed bytes areas st i x Hst _ o' mi' b Ho' Hb' Hby Hin). clear o' mi' b Ho' Hb' Hby Hin. intros o' mi' m' b Ho' Hb' Hm' Hby.
  assert (o' = o) as -> by congruence. assert (mi' = mi) as -> by congruence. assert (m' = m) as -> by congruence.
  destruct (decide (synced b m (Z.to_nat (x + h_offset o)))) as [|Hn]; [done|]. destruct Hx.
  destruct (so_memory _ _ _ Hst mi m Hm) as (b1 & Hb1 & Hok). assert (b1 = b) as -> by congruence.
  apply (mo_synced _ _ Hok) in Hn. destruct (so_backing _ _ _ Hst i o mi Ho Hb) as (_ & _ & [Hz _] & _). rewrite Z2Nat.id in Hn by lia; done.
Qed.

(** C15: In every state that can be reached, a flush of mapped ranges on a device with
    explicit host updates succeeds, and the replay of all packets written so far
    then holds, for every object bound to the memory, each of its bytes inside the
    flushed part of the mapping as the device has it. *)
Theorem flush_captures_host_writes device bytes rs st :
  reachable (World bytes st) -> flushes_legal device rs st ->
  exists st' done open areas',
    trace_post_vkFlushMappedMemoryRanges write_extension buffers structures true device true bytes rs st = Ok st' /\
    packet_inv (writer st') done open /\ replay (close done open) areas0 = Ok areas' /\
    forall r m s e key obj o x, r ∈ rs -> memories st !! fl_memory r = Some m ->
      capture_clamp_mapped_flush_range r m = Some (s, e) -> (key, obj) ∈ usage m -> objects st' !! obj = Some o ->
      s <= x + h_offset o < e -> replayed bytes areas' st' obj x.
Proof.
  intros Hr Hl. apply reachable_ok in Hr.
  destruct (legal_flush true device true bytes rs st Hl Hr) as (st' & l' & areas' & E & Hst & [(dn & open & Hi & ->) Hw] & _ & Hus & Hk & Hf).
  exists st', dn, open, areas'. do 3 (split; [done|]). intros r m s e key obj o x Hin Hm Ec Hu Ho Hx o1 mi b Ho1 Hb1 Hby Hx1.
  refine (synced_replayed bytes areas' st' obj x Hst _ o1 mi b Ho1 Hb1 Hby Hx1). intros o2 mi2 m2 b2 Ho2 Hb2 Hm2 Hby2.
  specialize (Hf eq_refl eq_refl). rewrite Forall_forall in Hf. assert (o2 = o) as -> by congruence. assert (o1 = o) as -> by congruence.
  destruct Hr as (l0 & ar0 & Hst0 & _ & _ & Hu0). cbn [w_bytes w_capture] in *.
  destruct (Hu0 _ _ _ _ Hm Hu) as (o0 & Ho0 & _ & Hb0).
  destruct (ke_objects _ _ _ Hk obj o0 Ho0) as (o3 & Ho3 & _ & _ & _ & E4 & _). assert (o3 = o) as -> by congruence.
  assert (mi2 = fl_memory r) as -> by congruence.
  by apply (Hf r Hin m s e key obj Hm Ec Hu o m2 b2 x).
Qed.
End History.

(** ** A small history *)

#[local] Existing Instance demo_header.

Definition demo_memory : hostmemory := HostMemory 6 0 0 16 None None empty_exposure [(4, 0%nat)].
Definition demo_mapped : hostmemory := HostMemory 6 0 16 16 (Some (repeat x00 16)) (Some (Window 0 16)) (Exposure [Range 0 15] false) [(4, 0%nat)].
Definition demo_buffer : hostobject := HostObject (Trackable 3 bound no_change) VK_OBJECT_TYPE_BUFFER 0 (Some 0%nat) 4 8 true 0 None 0 0.
Definition demo_history_areas : host_areas := {[ (9, 3) := HostArea (repeat xff 8) false ]}.
Definition demo_capture (m : hostmemory) (t : touched_map) : capture (H := demo_sink) logged :=
  Capture (H := demo_sink) [m] [demo_buffer] [CmdBuffer 0 t false] demo_writer.
Definition demo_written : list byte := memcpy (repeat x00 16) 6 [x01; x02; x03].
Definition demo_touched : touched_map := [(0%nat, Exposure [Range 0 7] false)].
Definition demo_other (_ : Z) (areas : host_areas) (s : list byte) : outcome (host_areas * list byte) := Ok (areas, s).
Definition demo_map (_ : nat) (offset size : Z) : window := Window offset size.
Definition demo_iterate (A : Type) (l : list A) : list A := l.
Definition demo_extension (_ : VkMarkedOffsetsARM) (s : logged) : outcome logged := Ok s.

Lemma demo_starts : starts (H := demo_sink) demo_history_areas (World (H := demo_sink) [repeat x00 16] (demo_capture demo_memory [])).
Proof.
  split; cbn [w_bytes w_capture demo_capture memories objects cmdbuffers writer].
  - exact demo_writer_inv.
  - intros [|i] m Hm; [|done]. injection Hm as <-. repeat split; by vm_compute.
  - intros [|i] o Ho; [|done]. injection Ho as <-. split.
    + split; [done|by exists PACKET_BUFFER_UPDATE2|repeat split; by vm_compute|split; by vm_compute].
    + eexists. split; [reflexivity|]. split; by vm_compute.
  - intros [|i] o mi Ho Hb; [|done]. injection Ho as <-. injection Hb as <-. eexists. split; [reflexivity|]. split; by vm_compute.
  - intros [|i] [|j] o o' mi x Hi Hj Hij; done.
  - intros [|i] [|j] o o' Hi Hj; done.
  - intros [|c] cb Hc; [|done]. by injection Hc as <-.
  - intros [|i] m key obj Hm Hin; [|done]. injection Hm as <-. apply elem_of_cons in Hin as [[= -> ->]|Hin]; [by exists demo_buffer|by apply not_elem_of_nil in Hin].
Qed.

Lemma demo_reachable : reachable (H := demo_sink) demo_extension [] [] demo_history_areas demo_map demo_iterate
  (World (H := demo_sink) [demo_written] (demo_capture demo_mapped demo_touched)).
Proof.
  eapply reach_step; [eapply reach_step; [eapply reach_step; [apply reach_start, demo_starts|]|]|].
  - apply (step_map (H := demo_sink) demo_extension [] [] demo_map demo_iterate _ (demo_capture demo_memory []) 0 demo_memory demo_mapped 0 16);
      by vm_compute.
  - apply (step_host_write (H := demo_sink) demo_extension [] [] demo_map demo_iterate _ (demo_capture demo_mapped []) 0 demo_mapped
      (Window 0 16) (repeat x00 16) 6 [x01; x02; x03]); by vm_compute.
  - apply (step_touch (H := demo_sink) demo_extension [] [] demo_map demo_iterate _ (demo_capture demo_mapped []) 0 (CmdBuffer 0 [] false)
      0 demo_buffer 0 8 demo_touched); by vm_compute.
Qed.

Lemma demo_writer_open dn open : packet_inv (H := demo_sink) demo_writer dn open -> dn = [] /\ open = None.
Proof.
  intros [_ I2 _ I3 _ _ _]. destruct open as [q|]; [by destruct I3|]. split; [|done]. destruct dn as [|q dn]; [done|].
  apply (f_equal length) in I2. revert I2. unfold stream_of. cbn [map concat]. rewrite !length_app, length_packet_bytes. by vm_compute.
Qed.

Lemma demo_ranges : queue_updates (H := demo_sink) demo_iterate [0%nat] [] [] (demo_capture demo_mapped demo_touched) =
  Ok ([(0%nat, Range 4 11)], [0%nat], demo_capture demo_mapped demo_touched).
Proof. reflexivity. Qed.

Lemma demo_submit_legal : submit_legal (H := demo_sink) demo_iterate demo_device [0%nat] (demo_capture demo_mapped demo_touched).
Proof.
  split.
  - repeat split; by vm_compute.
  - apply Forall_cons. split; [by eexists|constructor].
  - intros ranges found st1 E. rewrite demo_ranges in E. injection E as <- _ _. apply Forall_singleton. intros m p Hm _ _. by injection Hm as <-.
  - intros dn open ranges found st1 Hi E. apply demo_writer_open in Hi as [-> ->].
    rewrite demo_ranges in E. injection E as <- <- <-. repeat split; try constructor; by vm_compute.
Qed.

(** The whole memory was mapped, and then its first 11 bytes: a touched byte 11 is taken
    to be inside of the mapping, and is read behind it. *)
Definition demo_edge : hostmemory := HostMemory 6 0 11 16 (Some (repeat x00 16)) (Some (Window 0 11)) (Exposure [Range 0 15] false) [(4, 0%nat)].

Example byte_behind_mapping :
  trace_post_vkMapMemory (demo_map 0 0 11) 0 11 (trace_post_vkUnmapMemory demo_mapped) = Ok demo_edge /\
  bind_window demo_map 0 demo_edge (Range 4 11) = Ok (Window 0 11, 0, false) /\
  match trace_pre_vkQueueSubmit (H := demo_sink) demo_extension [] [] demo_map demo_iterate demo_device false [demo_written] [0%nat]
    (demo_capture demo_edge demo_touched) with Ok _ => None | Fail e => Some e end = Some OutOfRange.
Proof. split; [vm_compute; reflexivity|]. split; vm_compute; reflexivity. Qed.

Lemma submit_captures_host_writes_witness :
  exists st' done open areas',
    trace_pre_vkQueueSubmit (H := demo_sink) demo_extension [] [] demo_map demo_iterate demo_device false [demo_written] [0%nat]
      (demo_capture demo_mapped demo_touched) = Ok st' /\
    packet_inv (H := demo_sink) (writer st') done open /\
    replay_packets (fun s => Ok (demo_marks [], s)) true (fun x => x) (fun x => x) [] [] demo_other (close done open) demo_history_areas = Ok areas' /\
    forall c obj x, c ∈ [0%nat] -> may_use (H := demo_sink) (demo_capture demo_mapped demo_touched) c obj x ->
      replayed (H := demo_sink) [demo_written] areas' st' obj x.
Proof.
  apply (submit_captures_host_writes (H := demo_sink) demo_extension (fun s => Ok (demo_marks [], s)) [] [] true (fun x => x) (fun x => x) [] []
    demo_other demo_history_areas demo_map demo_iterate).
  - reflexivity.
  - reflexivity.
  - intros type areas body _. by exists body.
  - exact demo_reachable.
  - exact demo_submit_legal.
Defined.

Lemma unexposed_bytes_replayed_witness :
  exists done open areas,
    packet_inv (H := demo_sink) (writer (demo_capture demo_mapped demo_touched)) done open /\
    replay_packets (fun s => Ok (demo_marks [], s)) true (fun x => x) (fun x => x) [] [] demo_other (close done open) demo_history_areas = Ok areas /\
    forall i o mi m x, objects (demo_capture demo_mapped demo_touched) !! i = Some o -> h_backing o = Some mi ->
      memories (demo_capture demo_mapped demo_touched) !! mi = Some m -> ~ is_exposed m (x + h_offset o) ->
      replayed (H := demo_sink) [demo_written] areas (demo_capture demo_mapped demo_touched) i x.
Proof.
  apply (unexposed_bytes_replayed (H := demo_sink) demo_extension (fun s => Ok (demo_marks [], s)) [] [] true (fun x => x) (fun x => x) [] []
    demo_other demo_history_areas demo_map demo_iterate).
  - reflexivity.
  - reflexivity.
  - intros type areas body _. by exists body.
  - exact demo_reachable.
Defined.

Definition demo_flush : VkMappedMemoryRange := MappedMemoryRange 0 0 VK_WHOLE_SIZE None.

Lemma demo_flushes_legal : flushes_legal (H := demo_sink) demo_device [demo_flush] (demo_capture demo_mapped demo_touched).
Proof.
  split.
  - repeat split; by vm_compute.
  - apply Forall_cons. split; [|constructor]. split; [done|]. split; [done|]. split; [by vm_compute|]. by exists demo_mapped.
  - intros dn open Hi. apply demo_writer_open in Hi as [-> ->]. repeat split; try constructor; by vm_compute.
Qed.

Lemma flush_captures_host_writes_witness :
  exists st' done open areas',
    trace_post_vkFlushMappedMemoryRanges (H := demo_sink) demo_extension [] [] true demo_device true [demo_written] [demo_flush]
      (demo_capture demo_mapped demo_touched) = Ok st' /\
    packet_inv (H := demo_sink) (writer st') done open /\
    replay_packets (fun s => Ok (demo_marks [], s)) true (fun x => x) (fun x => x) [] [] demo_other (close done open) demo_history_areas = Ok areas' /\
    forall r m s e key obj o x, r ∈ [demo_flush] -> memories (demo_capture demo_mapped demo_touched) !! fl_memory r = Some m ->
      capture_clamp_mapped_flush_range r m = Some (s, e) -> (key, obj) ∈ usage m -> objects st' !! obj = Some o ->
      s <= x + h_offset o < e -> replayed (H := demo_sink) [demo_written] areas' st' obj x.
Proof.
  apply (flush_captures_host_writes (H := demo_sink) demo_extension (fun s => Ok (demo_marks [], s)) [] [] true (fun x => x) (fun x => x) [] []
    demo_other demo_history_areas demo_map demo_iterate).
  - reflexivity.
  - reflexivity.
  - intros type areas body _. by exists body.
  - exact demo_reachable.
  - exact demo_flushes_legal.
Defined.
