(* ===== verification/HostWrites.v ===== *)
(** * Where the bytes of an object come from (host_write_regions of src/containers.h)

    The post-processor keeps, for every byte of a buffer, which packet wrote it
    and at which offset of the object that packet updated. Copies on the device
    carry this along. The intervals are kept by [SPIRVSimulator::MemoryFlagTracker],
    which is not in the repository: the class [MemoryFlagTracker] states what
    [host_write_regions] relies on, and [log_tracker] is a small instance of it. *)

From Stdlib Require Import ZArith Lia Bool.
From Stdlib.Strings Require Import Byte.
From stdpp Require Import base numbers list gmap.
From S2P Require Import Prelude Stream FileWriter FileReader Packets.

#[local] Open Scope Z_scope.

(** ** The tracker *)

(** a span of bytes written by one [write]; [ts_end] is behind the last byte *)
Record tracked_span := TrackedSpan { ts_start : Z; ts_end : Z; ts_fragment : Z }.

Definition in_span (s : tracked_span) (x : Z) : Prop := ts_start s <= x < ts_end s.

(** non-empty spans from [lo] on, in order and apart *)
Fixpoint ascending (lo : Z) (l : list tracked_span) : Prop :=
  match l with
  | [] => True
  | s :: l => lo <= ts_start s /\ ts_start s < ts_end s /\ ascending (ts_end s) l
  end.

Class MemoryFlagTracker (T : Type) := {
  empty_tracker : T;
  write : Z -> Z -> Z -> T -> T;                  (** address, size, flags *)
  queryDetailed : Z -> T -> option (Z * Z);       (** address and fragment *)
  queryRangeDetailed : Z -> Z -> T -> list tracked_span;
  (** the fragment a byte belongs to *)
  owner : T -> Z -> option Z;
  tracker_ok : T -> Prop;
  empty_law : tracker_ok empty_tracker /\ forall x, owner empty_tracker x = None;
  (** a write takes its bytes over as a fragment of its own *)
  write_law t address size flags :
    tracker_ok t -> 0 <= address -> 0 < size -> address + size <= UINT64_MAX ->
    tracker_ok (write address size flags t) /\
    exists f, (forall x, owner t x <> Some f) /\
      forall x, owner (write address size flags t) x = if decide (address <= x < address + size) then Some f else owner t x;
  query_law t address f : tracker_ok t -> owner t address = Some f -> queryDetailed address t = Some (address, f);
  (** the spans that meet a range, whole or cut *)
  range_law t address size : tracker_ok t -> 0 <= address -> 0 <= size -> address + size <= UINT64_MAX ->
    let l := queryRangeDetailed address size t in
    ascending 0 l /\
    (forall s x, s ∈ l -> in_span s x -> owner t x = Some (ts_fragment s)) /\
    (forall x, address <= x < address + size -> owner t x <> None -> exists s, s ∈ l /\ in_span s x)
}.

(** ** The regions *)

(** 64-bit two's complement *)
Definition int64 (z : Z) : Z := to_signed 64 (wrap64 z).

Record host_write_reference := HostWriteReference {
  hr_source : change_source;
  hr_stage_index : Z;
  hr_object_offset : Z
}.

Definition with_offset (r : host_write_reference) (o : Z) : host_write_reference :=
  HostWriteReference (hr_source r) (hr_stage_index r) o.

Record source_span := SourceSpan {
  sp_start : Z;
  sp_end : Z;
  sp_reference : host_write_reference
}.

(** [packet_type] is not compared *)
Definition same_source (a b : change_source) : bool :=
  (cs_packet a =? cs_packet b) && (cs_frame a =? cs_frame b) && (cs_thread a =? cs_thread b) && (cs_call_id a =? cs_call_id b).

Definition same_reference (a b : host_write_reference) : bool :=
  same_source (hr_source a) (hr_source b) && (hr_stage_index a =? hr_stage_index b).

Definition contiguous_reference (previous : source_span) (next_start : Z) (next : host_write_reference) : bool :=
  if negb (same_reference (sp_reference previous) next) then false
  else
    let previous_size := wrap64 (sp_end previous - sp_start previous) in
    (int64 (hr_object_offset (sp_reference previous) + int64 previous_size) =? hr_object_offset next) &&
    (sp_end previous =? next_start).

Definition checked_end (address size : Z) : outcome Z :=
  let end_ := wrap64 (address + size) in
  let* _ := require (end_ >=? address) AssertFailed in Ok end_.

Section Regions.
Context {T : Type} `{MemoryFlagTracker T}.

Record host_write_regions := HostWriteRegions {
  tracker : T;
  fragment_sources : gmap Z host_write_reference
}.

Definition new_regions : host_write_regions := HostWriteRegions empty_tracker ∅.

(** [out] is the vector with its back in front *)
Definition push_span (out : list source_span) (start span_end : Z) (reference : host_write_reference) : list source_span :=
  match out with
  | back :: rest =>
      if contiguous_reference back start reference
      then SourceSpan (sp_start back) span_end (sp_reference back) :: rest
      else SourceSpan start span_end reference :: out
  | [] => [SourceSpan start span_end reference]
  end.

Fixpoint collect_loop (require_full_coverage : bool) (sources : gmap Z host_write_reference) (address end_ : Z)
    (spans : list tracked_span) (pos : Z) (out : list source_span) : option (Z * list source_span) :=
  match spans with
  | [] => Some (pos, out)
  | span :: spans =>
      if require_full_coverage && (ts_start span >? pos) then None
      else
        let start := Z.max (ts_start span) (if require_full_coverage then pos else address) in
        let span_end := Z.min (ts_end span) end_ in
        if start >=? span_end then collect_loop require_full_coverage sources address end_ spans pos out
        else
          match sources !! ts_fragment span with
          | None => if require_full_coverage then None else collect_loop require_full_coverage sources address end_ spans pos out
          | Some reference =>
              let reference := with_offset reference (int64 (hr_object_offset reference + int64 start)) in
              let out := push_span out start span_end reference in
              if require_full_coverage then
                if span_end =? end_ then Some (span_end, out)
                else collect_loop require_full_coverage sources address end_ spans span_end out
              else collect_loop require_full_coverage sources address end_ spans pos out
          end
  end.

(** [None] when the function returns false *)
Definition collect_spans_unlocked (r : host_write_regions) (address size : Z) (require_full_coverage : bool)
    : outcome (option (list source_span)) :=
  if size =? 0 then Ok (Some [])
  else
    let* end_ := checked_end address size in
    match collect_loop require_full_coverage (fragment_sources r) address end_ (queryRangeDetailed address size (tracker r)) address [] with
    | None => Ok None
    | Some (pos, out) => if negb require_full_coverage || (pos =? end_) then Ok (Some (rev out)) else Ok None
    end.

Definition register_source_unlocked (address size : Z) (reference : host_write_reference) (r : host_write_regions)
    : outcome host_write_regions :=
  if size =? 0 then Ok r
  else
    let t := write address size 0 (tracker r) in
    match queryDetailed address t with
    | None => Fail AssertFailed
    | Some (a, fragment_id) =>
        let* _ := require (a =? address) AssertFailed in
        let stored_reference := with_offset reference (int64 (hr_object_offset reference - int64 address)) in
        Ok (HostWriteRegions t (<[fragment_id := stored_reference]> (fragment_sources r)))
    end.

(** the elements from [i] on, [n] of them *)
Fixpoint register_elements (address size stride object_offset : Z) (reference : host_write_reference) (i n : nat)
    (r : host_write_regions) : outcome host_write_regions :=
  match n with
  | O => Ok r
  | Datatypes.S n =>
      let start := wrap64 (address + wrap64 (Z.of_nat i * stride)) in
      let element_reference := with_offset reference (int64 (object_offset + wrap64 (Z.of_nat i * stride))) in
      let* r := register_source_unlocked start size element_reference r in
      register_elements address size stride object_offset reference (Datatypes.S i) n r
  end.

Definition register_source (address size : Z) (source : change_source) (elements stride stage_index object_offset : Z)
    (r : host_write_regions) : outcome host_write_regions :=
  if size =? 0 then Ok r
  else
    let* _ := require (elements >? 0) AssertFailed in
    let* _ := require (change_source_self_test source) AssertFailed in
    let object_offset := if object_offset =? UINT64_MAX then address else object_offset in
    let* _ := require (object_offset <=? INT64_MAX) AssertFailed in
    let reference := HostWriteReference source stage_index (int64 object_offset) in
    if elements =? 1 then register_source_unlocked address size reference r
    else if stride =? 0 then
      let total := wrap64 (size * elements) in
      let* _ := require (total / elements =? size) AssertFailed in
      register_source_unlocked address total reference r
    else register_elements address size stride object_offset reference 0 (Z.to_nat elements) r.

Fixpoint register_spans (dst_address src_address : Z) (pending : list source_span) (r : host_write_regions)
    : outcome host_write_regions :=
  match pending with
  | [] => Ok r
  | entry :: pending =>
      let dst_start := wrap64 (dst_address + wrap64 (sp_start entry - src_address)) in
      let* r := register_source_unlocked dst_start (wrap64 (sp_end entry - sp_start entry)) (sp_reference entry) r in
      register_spans dst_address src_address pending r
  end.

(** [regions] is the object itself when it is copied to itself: its spans are
    collected before any is written *)
Definition copy_sources (regions : host_write_regions) (dst_address src_address src_size : Z) (r : host_write_regions)
    : outcome host_write_regions :=
  if src_size =? 0 then Ok r
  else
    let* _ := checked_end dst_address src_size in
    let* pending := collect_spans_unlocked regions src_address src_size false in
    register_spans dst_address src_address (default [] pending) r.

(** the spans continue the first one's reference *)
Definition continues (address : Z) (reference : host_write_reference) (span : source_span) : bool :=
  same_reference (sp_reference span) reference &&
  (hr_object_offset (sp_reference span) =? int64 (hr_object_offset reference + int64 (wrap64 (sp_start span - address)))).

Definition try_get_reference (address size : Z) (r : host_write_regions) : outcome (option host_write_reference) :=
  let* _ := require (size >? 0) AssertFailed in
  let* spans := collect_spans_unlocked r address size true in
  match spans with
  | None => Ok None
  | Some [] => Fail AssertFailed
  | Some (front :: rest) =>
      let reference := sp_reference front in
      if forallb (continues address reference) (front :: rest) then Ok (Some reference) else Ok None
  end.

Definition try_get_source (address size : Z) (r : host_write_regions) : outcome (option change_source) :=
  let* reference := try_get_reference address size r in Ok (option_map hr_source reference).

Definition get_source (address size : Z) (r : host_write_regions) : outcome change_source :=
  let* reference := try_get_reference address size r in
  match reference with Some reference => Ok (hr_source reference) | None => Fail AssertFailed end.

(** the segments of equal source and the bytes in them *)
Fixpoint stats_loop (sources : gmap Z host_write_reference) (spans : list tracked_span) (previous : option (change_source * Z))
    (segments bytes : Z) : outcome (Z * Z) :=
  match spans with
  | [] => Ok (segments, bytes)
  | span :: spans =>
      match sources !! ts_fragment span with
      | None => Fail AssertFailed
      | Some reference =>
          let same := match previous with
                      | Some (source, previous_end) => (previous_end =? ts_start span) && same_source source (hr_source reference)
                      | None => false
                      end in
          stats_loop sources spans (Some (match previous with Some (source, _) => if same then source else hr_source reference | None => hr_source reference end, ts_end span))
            (if same then segments else wrap64 (segments + 1)) (wrap64 (bytes + wrap64 (ts_end span - ts_start span)))
      end
  end.

Definition get_stats (r : host_write_regions) : outcome (Z * Z) :=
  stats_loop (fragment_sources r) (queryRangeDetailed 0 UINT64_MAX (tracker r)) None 0 0.
End Regions.
Arguments host_write_regions T : clear implicits.

(** ** 64-bit arithmetic *)

Lemma wrap64_int64 z : wrap64 (int64 z) = wrap64 z.
Proof.
  unfold int64, to_signed, wrap64, wrap. destruct (_ <? _); [by rewrite Zmod_mod|].
  replace (z mod 2 ^ 64 - 2 ^ 64) with (z mod 2 ^ 64 + (-1) * 2 ^ 64) by lia. by rewrite Z_mod_plus_full, Zmod_mod.
Qed.

Lemma int64_congr a b : wrap64 a = wrap64 b -> int64 a = int64 b.
Proof. unfold int64. by intros ->. Qed.

Lemma wrap64_add_l a b : wrap64 (wrap64 a + b) = wrap64 (a + b).
Proof. unfold wrap64, wrap. by rewrite Zplus_mod_idemp_l. Qed.

Lemma wrap64_add_r a b : wrap64 (a + wrap64 b) = wrap64 (a + b).
Proof. unfold wrap64, wrap. by rewrite Zplus_mod_idemp_r. Qed.

Lemma int64_add_l a b : int64 (int64 a + b) = int64 (a + b).
Proof. apply int64_congr. by rewrite <- wrap64_add_l, wrap64_int64, wrap64_add_l. Qed.

Lemma int64_add_r a b : int64 (a + int64 b) = int64 (a + b).
Proof. rewrite Z.add_comm, int64_add_l. f_equal. lia. Qed.

Lemma int64_sub_r a b : int64 (a - int64 b) = int64 (a - b).
Proof.
  apply int64_congr. pose proof (wrap64_int64 b) as E. unfold wrap64, wrap in *. by rewrite Zminus_mod, E, <- Zminus_mod.
Qed.

Lemma int64_idem a : int64 (int64 a) = int64 a.
Proof. apply int64_congr, wrap64_int64. Qed.

Lemma int64_wrap a : int64 (wrap64 a) = int64 a.
Proof. apply int64_congr. unfold wrap64, wrap. apply Z.mod_mod. lia. Qed.

Lemma int64_small z : - 2 ^ 63 <= z < 2 ^ 63 -> int64 z = z.
Proof.
  intros Hz. unfold int64, to_signed, wrap64, wrap. change (64 - 1) with 63. destruct (decide (0 <= z)) as [H0|H0].
  - rewrite Z.mod_small by lia. by rewrite (proj2 (Z.ltb_lt _ _)) by lia.
  - assert (E : z mod 2 ^ 64 = z + 2 ^ 64).
    { replace z with (z + 2 ^ 64 + (-1) * 2 ^ 64) at 1 by lia. by rewrite Z_mod_plus_full, Z.mod_small by lia. }
    rewrite E, (proj2 (Z.ltb_ge _ _)) by lia. lia.
Qed.

Lemma checked_end_ok address size : 0 <= address -> 0 <= size -> address + size <= UINT64_MAX -> checked_end address size = Ok (address + size).
Proof.
  intros H1 H2 H3. unfold checked_end. rewrite wrap64_small by u_lia. by rewrite Z.geb_leb, (proj2 (Z.leb_le _ _)) by lia.
Qed.

(** ** The abstract view: a partial map from bytes to their provenance *)

(** the packet, the shader stage and the offset in the object that was written *)
Record provenance := Provenance {
  pv_packet : Z;
  pv_frame : Z;
  pv_thread : Z;
  pv_call_id : Z;
  pv_stage : Z;
  pv_offset : Z
}.

#[export] Instance provenance_eq_dec : EqDecision provenance.
Proof. solve_decision. Defined.

Definition provenance_of (source : change_source) (stage offset : Z) : provenance :=
  Provenance (cs_packet source) (cs_frame source) (cs_thread source) (cs_call_id source) stage (int64 offset).

Definition reference_provenance (r : host_write_reference) (i : Z) : provenance :=
  provenance_of (hr_source r) (hr_stage_index r) (hr_object_offset r + i).

(** [i] bytes further on *)
Definition advance (p : provenance) (i : Z) : provenance :=
  Provenance (pv_packet p) (pv_frame p) (pv_thread p) (pv_call_id p) (pv_stage p) (int64 (pv_offset p + i)).

Lemma advance_of source stage offset i : advance (provenance_of source stage offset) i = provenance_of source stage (offset + i).
Proof. unfold advance, provenance_of. simpl. by rewrite int64_add_l. Qed.

Lemma advance_reference r i j : advance (reference_provenance r i) j = reference_provenance r (i + j).
Proof. unfold reference_provenance. rewrite advance_of. f_equal. lia. Qed.

Lemma same_reference_spec a b i j :
  same_reference a b = true /\ int64 (hr_object_offset a + i) = int64 (hr_object_offset b + j) <-> reference_provenance a i = reference_provenance b j.
Proof.
  unfold same_reference, same_source, reference_provenance, provenance_of. rewrite !andb_true_iff, !Z.eqb_eq. split.
  - intros [((((E1 & E2) & E3) & E4) & E5) E6]. congruence.
  - intros [= E1 E2 E3 E4 E5 E6]. repeat split; congruence.
Qed.

Section RegionProofs.
Context {T : Type} `{MemoryFlagTracker T}.
Implicit Types r : host_write_regions T.

(** where a byte comes from *)
Definition source_at r (x : Z) : option provenance :=
  match owner (tracker r) x with
  | None => None
  | Some f => option_map (fun reference => reference_provenance reference x) (fragment_sources r !! f)
  end.

Record regions_ok r : Prop := {
  ro_tracker : tracker_ok (tracker r);
  ro_sources : forall x f, owner (tracker r) x = Some f -> exists reference, fragment_sources r !! f = Some reference
}.

Lemma new_regions_ok : regions_ok new_regions.
Proof. destruct empty_law as [H1 H2]. split; [done|]. intros x f Hx. cbn [new_regions tracker] in Hx. by rewrite H2 in Hx. Qed.

Lemma source_at_new x : source_at new_regions x = None.
Proof. destruct empty_law as [_ H2]. unfold source_at. cbn [new_regions tracker]. by rewrite H2. Qed.

Lemma source_at_owned r x : regions_ok r -> owner (tracker r) x <> None <-> source_at r x <> None.
Proof.
  intros [_ Hs]. unfold source_at. destruct (owner (tracker r) x) as [f|] eqn:E; [|done].
  destruct (Hs x f E) as [reference ->]. done.
Qed.

Lemma register_unlocked_spec r address size reference : regions_ok r -> 0 <= address -> 0 < size -> address + size <= UINT64_MAX ->
  exists r', register_source_unlocked address size reference r = Ok r' /\ regions_ok r' /\
    forall x, source_at r' x = if decide (address <= x < address + size) then Some (reference_provenance reference (x - address)) else source_at r x.
Proof.
  intros [Hok Hs] H1 H2 H3. unfold register_source_unlocked. rewrite (proj2 (Z.eqb_neq size 0)) by lia.
  destruct (write_law (tracker r) address size 0 Hok H1 H2 H3) as (Hok' & f & Hnew & Hown).
  assert (Ha : owner (write address size 0 (tracker r)) address = Some f) by (rewrite Hown, decide_True by lia; done).
  rewrite (query_law _ _ _ Hok' Ha). rewrite Z.eqb_refl. cbn [require obind]. eexists. split; [reflexivity|]. split; [split; [done|]|].
  - cbn [tracker fragment_sources]. intros x g. rewrite Hown. case_decide; intros Hx.
    + injection Hx as <-. rewrite lookup_insert_eq. by eexists.
    + rewrite lookup_insert_ne; [by apply (Hs x)|]. intros ->. by apply (Hnew x).
  - intros x. unfold source_at. cbn [tracker fragment_sources]. rewrite Hown. case_decide as Hx.
    + rewrite lookup_insert_eq. cbn [option_map]. f_equal. unfold reference_provenance, provenance_of. cbn [with_offset hr_source hr_stage_index hr_object_offset].
      rewrite int64_add_l. f_equal. replace (hr_object_offset reference - int64 address + x) with (hr_object_offset reference + x - int64 address) by lia.
      rewrite int64_sub_r. f_equal. lia.
    + destruct (owner (tracker r) x) as [g|] eqn:E; [|done]. rewrite lookup_insert_ne; [done|]. intros ->. by apply (Hnew x).
Qed.

(** *** Spans *)

Definition in_source_span (p : source_span) (x : Z) : Prop := sp_start p <= x < sp_end p.

Definition spans_cover (l : list source_span) (x : Z) : Prop := exists p, p ∈ l /\ in_source_span p x.

(** the span lies in [lo .. hi) and its bytes have its provenance *)
Definition good_span r (lo hi : Z) (p : source_span) : Prop :=
  lo <= sp_start p /\ sp_start p < sp_end p /\ sp_end p <= hi /\
  hr_object_offset (sp_reference p) = int64 (hr_object_offset (sp_reference p)) /\
  forall x, in_source_span p x -> source_at r x = Some (reference_provenance (sp_reference p) (x - sp_start p)).

Lemma spans_cover_cons p l x : spans_cover (p :: l) x <-> in_source_span p x \/ spans_cover l x.
Proof.
  split.
  - intros (q & Hq & Hx). apply elem_of_cons in Hq as [->|Hq]; [by left|right; by exists q].
  - intros [Hx|(q & Hq & Hx)]; [exists p; by split; [left|]|exists q; by split; [right|]].
Qed.

Lemma contiguous_spec previous next_start next : hr_object_offset next = int64 (hr_object_offset next) ->
  contiguous_reference previous next_start next = true ->
  sp_end previous = next_start /\
  forall x, reference_provenance (sp_reference previous) (x - sp_start previous) = reference_provenance next (x - next_start).
Proof.
  intros Hn. unfold contiguous_reference. destruct (same_reference (sp_reference previous) next) eqn:Es; [|done]. cbn [negb].
  rewrite andb_true_iff, !Z.eqb_eq. intros [Eo Ee]. split; [done|]. intros x. rewrite int64_add_r in Eo.
  assert (E0 : reference_provenance (sp_reference previous) (next_start - sp_start previous) = reference_provenance next 0).
  { apply same_reference_spec. split; [done|]. rewrite Z.add_0_r, <- Hn, <- Eo, <- Ee. apply int64_congr. by rewrite wrap64_add_r. }
  apply (f_equal (fun p => advance p (x - next_start))) in E0. rewrite !advance_reference in E0.
  rewrite Z.add_0_l in E0. rewrite <- E0. f_equal. lia.
Qed.

Lemma push_span_spec r lo hi out start span_end next : Forall (good_span r lo hi) out -> lo <= start -> start < span_end -> span_end <= hi ->
  hr_object_offset next = int64 (hr_object_offset next) ->
  (forall x, start <= x < span_end -> source_at r x = Some (reference_provenance next (x - start))) ->
  Forall (good_span r lo hi) (push_span out start span_end next) /\
  (forall x, spans_cover (push_span out start span_end next) x <-> start <= x < span_end \/ spans_cover out x) /\
  option_map sp_start (last (push_span out start span_end next)) = Some (default start (option_map sp_start (last out))).
Proof.
  intros Hout H1 H2 H3 Hn Hsrc.
  assert (Hnew : good_span r lo hi (SourceSpan start span_end next)) by (split; [done|]; split; [done|]; split; [done|]; split; [done|]; exact Hsrc).
  destruct out as [|back rest]; cbn [push_span].
  { split; [by apply Forall_cons|]. split; [intros x; apply spans_cover_cons|done]. }
  destruct (contiguous_reference back start next) eqn:Ec.
  - destruct (contiguous_spec back start next Hn Ec) as [Ee Ep]. apply Forall_cons in Hout as [(B1 & B2 & B3 & B5 & B4) Hrest]. split; [|split].
    + apply Forall_cons. split; [|done]. split; [done|]. cbn [sp_start sp_end]. split; [lia|]. split; [done|]. split; [done|]. unfold in_source_span.
      cbn [sp_start sp_end sp_reference]. intros x Hx.
      destruct (decide (x < sp_end back)) as [Hb|Hb]; [apply B4; unfold in_source_span; lia|]. rewrite Ep. apply Hsrc. lia.
    + intros x. rewrite !spans_cover_cons. unfold in_source_span. cbn [sp_start sp_end].
      split; [intros [Hx|Hx]; [|tauto]|intros [Hx|[Hx|Hx]]; [left; lia|left; lia|tauto]].
      destruct (decide (x < sp_end back)); [right; left; lia|left; lia].
    + rewrite !last_cons. by destruct (last rest).
  - split; [by apply Forall_cons|]. split; [intros x; apply spans_cover_cons|]. rewrite !last_cons. by destruct (last rest).
Qed.

(** the spans belong to their fragments *)
Definition owned_spans r (spans : list tracked_span) : Prop :=
  forall s x, s ∈ spans -> in_span s x -> owner (tracker r) x = Some (ts_fragment s).

Lemma owned_source r s lo spans : regions_ok r -> owned_spans r (s :: spans) -> ascending lo (s :: spans) ->
  exists reference, fragment_sources r !! ts_fragment s = Some reference /\
    forall start x, in_span s x -> source_at r x =
      Some (reference_provenance (with_offset reference (int64 (hr_object_offset reference + int64 start))) (x - start)).
Proof.
  intros Hr Ho (_ & H1 & _). destruct (ro_sources r Hr (ts_start s) (ts_fragment s)) as [reference E].
  { apply Ho; [by left|]. unfold in_span. lia. }
  exists reference. split; [done|]. intros start x Hx. unfold source_at. rewrite (Ho s x); [|by left|done]. rewrite E. cbn [option_map]. f_equal.
  unfold reference_provenance, provenance_of. cbn [with_offset hr_source hr_stage_index hr_object_offset].
  f_equal. rewrite int64_add_l.
  replace (hr_object_offset reference + int64 start + (x - start)) with (hr_object_offset reference + (x - start) + int64 start) by lia.
  rewrite int64_add_r. f_equal. lia.
Qed.

Lemma collect_partial r address end_ : regions_ok r -> 0 <= address -> forall spans lo pos out,
  ascending lo spans -> owned_spans r spans -> Forall (good_span r address end_) out ->
  exists pos' out', collect_loop false (fragment_sources r) address end_ spans pos out = Some (pos', out') /\
    Forall (good_span r address end_) out' /\
    forall x, spans_cover out' x <-> spans_cover out x \/ address <= x < end_ /\ exists s, s ∈ spans /\ in_span s x.
Proof.
  intros Hr Ha. induction spans as [|s spans IH]; intros lo pos out Hasc Hown Hout; cbn [collect_loop andb].
  { exists pos, out. split; [done|]. split; [done|]. intros x. split; [by left|]. intros [?|(_ & s & Hs & _)]; [done|by apply not_elem_of_nil in Hs]. }
  pose proof Hasc as (A1 & A2 & A3).
  assert (Hown' : owned_spans r spans) by (intros t x Ht; apply Hown; by right).
  assert (Hsplit : forall x, (exists t, t ∈ s :: spans /\ in_span t x) <-> in_span s x \/ exists t, t ∈ spans /\ in_span t x).
  { intros x. split; [intros (t & Ht & Hx); apply elem_of_cons in Ht as [->|Ht]; [by left|right; by exists t]|].
    intros [Hx|(t & Ht & Hx)]; [exists s; by split; [left|]|exists t; by split; [right|]]. }
  set (start := Z.max (ts_start s) address). set (span_end := Z.min (ts_end s) end_).
  rewrite Z.geb_leb. destruct (Z.leb_spec span_end start) as [Hle|Hlt].
  - destruct (IH (ts_end s) pos out A3 Hown' Hout) as (pos' & out' & E & Hgood & Hc). exists pos', out'. split; [done|]. split; [done|].
    intros x. rewrite Hc, Hsplit. unfold in_span. split; [tauto|]. intros [?|[Hx [Hs|?]]]; [tauto|lia|tauto].
  - destruct (owned_source r s lo spans Hr Hown Hasc) as (reference & -> & Hsrc).
    destruct (push_span_spec r address end_ out start span_end (with_offset reference (int64 (hr_object_offset reference + int64 start))) Hout)
      as (P1 & P2 & _); try lia.
    { cbn [with_offset hr_object_offset]. by rewrite int64_idem. }
    { intros x Hx. apply Hsrc. unfold in_span. lia. }
    destruct (IH (ts_end s) pos _ A3 Hown' P1) as (pos' & out' & E & Hgood & Hc). exists pos', out'. split; [done|]. split; [done|].
    intros x. rewrite Hc, P2, Hsplit. unfold in_span. split; [intros [[?|?]|?]; [right; split; [lia|left; lia]|tauto|tauto]|].
    intros [?|[Hx [Hs|?]]]; [tauto|left; left; lia|tauto].
Qed.

Lemma ascending_ge lo spans s : ascending lo spans -> s ∈ spans -> lo <= ts_start s.
Proof.
  revert lo; induction spans as [|t spans IH]; intros lo Ha Hs; [by apply not_elem_of_nil in Hs|]. destruct Ha as (A1 & A2 & A3).
  apply elem_of_cons in Hs as [->|Hs]; [done|]. apply (IH _ A3) in Hs. lia.
Qed.

(** with full coverage: either the spans cover everything from [address] to [end_],
    or some byte has no source *)
Lemma collect_full r address end_ : regions_ok r -> 0 <= address -> forall spans lo pos out,
  ascending lo spans -> owned_spans r spans -> Forall (good_span r address end_) out ->
  address <= pos -> pos < end_ -> (forall x, spans_cover out x <-> address <= x < pos) ->
  (forall x, pos <= x < end_ -> owner (tracker r) x <> None -> exists s, s ∈ spans /\ in_span s x) ->
  default address (option_map sp_start (last out)) = address ->
  match collect_loop true (fragment_sources r) address end_ spans pos out with
  | None => exists x, address <= x < end_ /\ source_at r x = None
  | Some (pos', out') =>
      (pos' = end_ \/ pos' <> end_ /\ exists x, address <= x < end_ /\ source_at r x = None) /\
      Forall (good_span r address end_) out' /\ (forall x, spans_cover out' x <-> address <= x < pos') /\
      default address (option_map sp_start (last out')) = address
  end.
Proof.
  intros Hr Ha. induction spans as [|s spans IH]; intros lo pos out Hasc Hown Hout H1 H2 Hc Hall Hlast; cbn [collect_loop andb].
  { split; [|done]. right. split; [lia|]. exists pos. split; [lia|]. destruct (source_at r pos) eqn:E; [|done].
    destruct (Hall pos) as (s & Hs & _); [lia| |by apply not_elem_of_nil in Hs]. apply source_at_owned; [done|congruence]. }
  pose proof Hasc as (A1 & A2 & A3).
  assert (Hown' : owned_spans r spans) by (intros t x Ht; apply Hown; by right).
  rewrite Z.gtb_ltb. destruct (Z.ltb_spec pos (ts_start s)) as [Hgap|Hgap].
  { exists pos. split; [lia|]. destruct (source_at r pos) eqn:E; [|done]. exfalso.
    destruct (Hall pos) as (t & Ht & Hin); [lia|apply source_at_owned; [done|congruence]|]. unfold in_span in Hin.
    apply elem_of_cons in Ht as [->|Ht]; [lia|]. apply (ascending_ge _ _ _ A3) in Ht. lia. }
  assert (Hpos : Z.max (ts_start s) pos = pos) by lia. rewrite Hpos. rewrite Z.geb_leb.
  assert (Hrest : forall p, pos <= p -> ts_end s <= p -> forall x, p <= x < end_ -> owner (tracker r) x <> None -> exists t, t ∈ spans /\ in_span t x).
  { intros p Hp1 Hp2 x Hx Hne. destruct (Hall x) as (t & Ht & Hin); [lia|done|]. apply elem_of_cons in Ht as [->|Ht]; [unfold in_span in Hin; lia|by exists t]. }
  set (span_end := Z.min (ts_end s) end_). destruct (Z.leb_spec span_end pos) as [Hle|Hlt].
  { apply (IH (ts_end s)); try done. apply Hrest; lia. }
  destruct (owned_source r s lo spans Hr Hown Hasc) as (reference & -> & Hsrc). cbv zeta.
  destruct (push_span_spec r address end_ out pos span_end (with_offset reference (int64 (hr_object_offset reference + int64 pos))) Hout)
    as (P1 & P2 & P3); try lia.
  { cbn [with_offset hr_object_offset]. by rewrite int64_idem. }
  { intros x Hx. apply Hsrc. unfold in_span. lia. }
  set (out1 := push_span out pos span_end _) in *.
  assert (Hc1 : forall x, spans_cover out1 x <-> address <= x < span_end) by (intros x; rewrite P2, Hc; lia).
  assert (Hl1 : default address (option_map sp_start (last out1)) = address).
  { rewrite P3. cbn [default]. destruct (last out) as [q|] eqn:El; [exact Hlast|]. cbn [option_map default].
    apply last_None in El. subst out. destruct (decide (address = pos)) as [?|Hne]; [done|].
    destruct (proj2 (Hc address)) as (q & Hq & _); [lia|by apply not_elem_of_nil in Hq]. }
  destruct (Z.eqb_spec span_end end_) as [Ee|Ee].
  { split; [by left|]. split; [done|]. split; [|done]. intros x. apply Hc1. }
  apply (IH (ts_end s)); try done; [lia|lia|apply Hrest; lia].
Qed.

Lemma queried_spans r address size : regions_ok r -> 0 <= address -> 0 <= size -> address + size <= UINT64_MAX ->
  ascending 0 (queryRangeDetailed address size (tracker r)) /\ owned_spans r (queryRangeDetailed address size (tracker r)) /\
  forall x, address <= x < address + size -> source_at r x <> None -> exists s, s ∈ queryRangeDetailed address size (tracker r) /\ in_span s x.
Proof.
  intros Hr H1 H2 H3. destruct (range_law (tracker r) address size (ro_tracker r Hr) H1 H2 H3) as (L1 & L2 & L3).
  split; [done|]. split; [done|]. intros x Hx Hs. apply L3; [done|]. by apply source_at_owned.
Qed.

Lemma spans_cover_rev l x : spans_cover (rev l) x <-> spans_cover l x.
Proof.
  split; intros (p & Hp & Hx); exists p; (split; [|done]); apply list_elem_of_In; apply list_elem_of_In in Hp;
    [by apply in_rev|by apply -> in_rev].
Qed.

(** what [collect_spans_unlocked] returns for a copy *)
Lemma collect_spans_partial r address size : regions_ok r -> 0 <= address -> 0 < size -> address + size <= UINT64_MAX ->
  exists spans, collect_spans_unlocked r address size false = Ok (Some spans) /\
    Forall (good_span r address (address + size)) spans /\
    forall x, spans_cover spans x <-> address <= x < address + size /\ source_at r x <> None.
Proof.
  intros Hr H1 H2 H3. unfold collect_spans_unlocked. rewrite (proj2 (Z.eqb_neq size 0)), checked_end_ok by lia. cbn [obind].
  destruct (queried_spans r address size) as (Q1 & Q2 & Q3); [done|lia|lia|lia|].
  destruct (collect_partial r address (address + size) Hr H1 _ 0 address [] Q1 Q2) as (pos & out & -> & Hgood & Hc); [constructor|].
  cbn [negb orb]. exists (rev out). split; [done|]. split; [by apply Forall_rev|]. intros x. rewrite spans_cover_rev, Hc. split.
  - intros [(p & Hp & _)|[Hx (s & Hs & Hin)]]; [by apply not_elem_of_nil in Hp|]. split; [done|]. apply source_at_owned; [done|]. by rewrite (Q2 s x Hs Hin).
  - intros [Hx Hs]. right. split; [done|]. by apply Q3.
Qed.

Definition covered r (address size : Z) : Prop := forall x, address <= x < address + size -> source_at r x <> None.

Lemma collect_spans_full r address size : regions_ok r -> 0 <= address -> 0 < size -> address + size <= UINT64_MAX ->
  collect_spans_unlocked r address size true = Ok None /\ ~ covered r address size \/
  exists front rest, collect_spans_unlocked r address size true = Ok (Some (front :: rest)) /\ covered r address size /\
    Forall (good_span r address (address + size)) (front :: rest) /\ sp_start front = address /\
    forall x, spans_cover (front :: rest) x <-> address <= x < address + size.
Proof.
  intros Hr H1 H2 H3. unfold collect_spans_unlocked. rewrite (proj2 (Z.eqb_neq size 0)), checked_end_ok by lia. cbn [obind].
  destruct (queried_spans r address size) as (Q1 & Q2 & Q3); [done|lia|lia|lia|].
  assert (Hall : forall x, address <= x < address + size -> owner (tracker r) x <> None ->
    exists s, s ∈ queryRangeDetailed address size (tracker r) /\ in_span s x).
  { intros x Hx Hs. apply Q3; [done|]. by apply source_at_owned. }
  pose proof (collect_full r address (address + size) Hr H1 _ 0 address [] Q1 Q2 (Forall_nil_2 _)) as Hf.
  specialize (Hf ltac:(lia) ltac:(lia)).
  assert (H0 : forall x, spans_cover [] x <-> address <= x < address).
  { intros x. split; [intros (p & Hp & _); by apply not_elem_of_nil in Hp|lia]. }
  specialize (Hf H0 Hall eq_refl). destruct (collect_loop _ _ _ _ _ _ _) as [[pos out]|].
  - destruct Hf as (Hpos & Hgood & Hc & Hl). cbn [negb orb]. destruct Hpos as [->|[Hne (x & Hx & Hn)]].
    + rewrite Z.eqb_refl. right. destruct (last out) as [q|] eqn:El.
      2:{ apply last_None in El. subst out. destruct (proj2 (Hc address)) as (p & Hp & _); [lia|by apply not_elem_of_nil in Hp]. }
      apply last_Some in El as [out' ->]. cbn [option_map default] in Hl. exists q, (rev out'). rewrite rev_app_distr. cbn [rev app].
      split; [done|]. split.
      { intros x Hx. destruct (proj2 (Hc x) Hx) as (p & Hp & Hin). rewrite Forall_forall in Hgood. destruct (Hgood p Hp) as (_ & _ & _ & _ & G).
        by rewrite (G x Hin). }
      apply Forall_app in Hgood as [G1 G2]. split; [apply Forall_cons; split; [by apply Forall_cons in G2 as [G2 _]|by apply Forall_rev]|].
      split; [done|]. intros x. rewrite <- Hc. rewrite <- (spans_cover_rev (out' ++ [q])), rev_app_distr. done.
    + rewrite (proj2 (Z.eqb_neq _ _)) by done. left. split; [done|]. intros Hcov. by apply (Hcov x Hx).
  - left. split; [done|]. destruct Hf as (x & Hx & Hn). intros Hcov. by apply (Hcov x Hx).
Qed.

(** all bytes of the range continue the first one's provenance *)
Definition one_source r (address size : Z) (p : provenance) : Prop :=
  source_at r address = Some p /\ forall i, 0 <= i < size -> source_at r (address + i) = Some (advance p i).

Lemma try_get_reference_spec r address size : regions_ok r -> 0 <= address -> 0 < size -> address + size <= UINT64_MAX ->
  exists res, try_get_reference address size r = Ok res /\
    forall p, one_source r address size p <-> exists reference, res = Some reference /\ reference_provenance reference 0 = p.
Proof.
  intros Hr H1 H2 H3. unfold try_get_reference. rewrite Z.gtb_ltb, (proj2 (Z.ltb_lt _ _)) by lia. cbn [require obind].
  destruct (collect_spans_full r address size Hr H1 H2 H3) as [[-> Hn]|(front & rest & -> & Hcov & Hgood & Hf & Hc)]; cbn [obind].
  { exists None. split; [done|]. intros p. split; [|by intros (? & ? & _)]. intros [_ Ho]. destruct Hn. intros x Hx.
    specialize (Ho (x - address)). replace (address + (x - address)) with x in Ho by lia. rewrite Ho by lia. done. }
  set (reference := sp_reference front).
  assert (Hcont : forall span, good_span r address (address + size) span ->
    (continues address reference span = true <-> forall x, in_source_span span x -> source_at r x = Some (reference_provenance reference (x - address)))).
  { intros span (G1 & G2 & G3 & G5 & G4). unfold continues. rewrite andb_true_iff, Z.eqb_eq. split.
    - intros [E1 E2] x Hx. rewrite (G4 x Hx). f_equal. rewrite wrap64_small, int64_add_r in E2 by u_lia.
      replace (x - address) with (sp_start span - address + (x - sp_start span)) by lia. rewrite <- advance_reference.
      replace (x - sp_start span) with (0 + (x - sp_start span)) at 1 by lia. rewrite <- advance_reference. f_equal.
      apply same_reference_spec. split; [done|]. rewrite Z.add_0_r, E2. by rewrite int64_idem.
    - intros Hx. specialize (Hx (sp_start span) ltac:(unfold in_source_span; lia)). rewrite (G4 (sp_start span)) in Hx by (unfold in_source_span; lia).
      apply (inj Some) in Hx. rewrite Z.sub_diag in Hx. apply same_reference_spec in Hx as [E1 E2]. split; [done|].
      rewrite wrap64_small, int64_add_r by u_lia. by rewrite G5, <- (Z.add_0_r (hr_object_offset _)). }
  assert (Hall : forallb (continues address reference) (front :: rest) = true <->
    forall x, address <= x < address + size -> source_at r x = Some (reference_provenance reference (x - address))).
  { rewrite forallb_forall. setoid_rewrite <- list_elem_of_In. rewrite Forall_forall in Hgood. split.
    - intros Hs x Hx. destruct (proj2 (Hc x) Hx) as (span & Hin & Hxs). apply (proj1 (Hcont span (Hgood span Hin)) (Hs span Hin) x Hxs).
    - intros Hs span Hin. apply Hcont; [by apply Hgood|]. intros x Hx. apply Hs. apply Hc. by exists span. }
  assert (Hfirst : source_at r address = Some (reference_provenance reference 0)).
  { apply Forall_cons in Hgood as [(_ & G2 & _ & _ & G4) _]. rewrite (G4 address); [|unfold in_source_span; lia].
    by rewrite Hf, Z.sub_diag. }
  assert (Hiff : forallb (continues address reference) (front :: rest) = true <-> one_source r address size (reference_provenance reference 0)).
  { rewrite Hall. split.
    - intros Hs. split; [done|]. intros i Hi. rewrite Hs by lia. rewrite advance_reference. do 2 f_equal. lia.
    - intros [_ Ho] x Hx. specialize (Ho (x - address) ltac:(lia)). rewrite advance_reference in Ho.
      replace (address + (x - address)) with x in Ho by lia. by rewrite Z.add_0_l in Ho. }
  destruct (forallb _ _) eqn:Eb.
  - exists (Some reference). split; [done|]. intros p. split.
    + intros [Ho _]. exists reference. split; [done|]. rewrite Hfirst in Ho. by apply (inj Some) in Ho.
    + intros (reference' & [= <-] & <-). by apply Hiff.
  - exists None. split; [done|]. intros p. split; [|by intros (? & ? & _)]. intros Ho. exfalso.
    assert (p = reference_provenance reference 0) as ->; [|by apply Hiff in Ho].
    destruct Ho as [Ho _]. rewrite Hfirst in Ho. by apply (inj Some) in Ho.
Qed.

(** the offset of an answer is a 64-bit integer *)
Lemma try_get_reference_offset r address size reference : regions_ok r -> 0 <= address -> 0 < size -> address + size <= UINT64_MAX ->
  try_get_reference address size r = Ok (Some reference) -> hr_object_offset reference = int64 (hr_object_offset reference).
Proof.
  intros Hr H1 H2 H3. unfold try_get_reference. rewrite Z.gtb_ltb, (proj2 (Z.ltb_lt _ _)) by lia. cbn [require obind].
  destruct (collect_spans_full r address size Hr H1 H2 H3) as [[-> _]|(front & rest & -> & _ & Hgood & _)]; cbn [obind]; [done|].
  destruct (forallb _ _); [|done]. intros [= <-]. by apply Forall_cons in Hgood as [(_ & _ & _ & G & _) _].
Qed.

(** *** Copies *)

Lemma register_spans_spec (src : host_write_regions T) dst_address src_address src_size pending : 0 <= dst_address -> 0 <= src_address ->
  dst_address + src_size <= UINT64_MAX -> src_address + src_size <= UINT64_MAX ->
  Forall (good_span src src_address (src_address + src_size)) pending -> forall r, regions_ok r ->
  exists r', register_spans dst_address src_address pending r = Ok r' /\ regions_ok r' /\
    forall x, (spans_cover pending (x - dst_address + src_address) -> source_at r' x = source_at src (x - dst_address + src_address)) /\
      (~ spans_cover pending (x - dst_address + src_address) -> source_at r' x = source_at r x).
Proof.
  intros H1 H2 H3 H4. induction pending as [|p pending IH]; intros Hgood r Hr; cbn [register_spans].
  { exists r. split; [done|]. split; [done|]. intros x. split; [intros (q & Hq & _); by apply not_elem_of_nil in Hq|done]. }
  apply Forall_cons in Hgood as [(G1 & G2 & G3 & _ & G4) Hgood].
  assert (Ed : wrap64 (dst_address + wrap64 (sp_start p - src_address)) = dst_address + (sp_start p - src_address)).
  { rewrite wrap64_add_r, wrap64_small; [done|u_lia]. }
  rewrite Ed, (wrap64_small (sp_end p - sp_start p)) by u_lia.
  destruct (register_unlocked_spec r (dst_address + (sp_start p - src_address)) (sp_end p - sp_start p) (sp_reference p) Hr) as (r1 & -> & Hr1 & E1); [lia|lia|lia|].
  cbn [obind]. destruct (IH Hgood r1 Hr1) as (r' & E & Hr' & Hx). exists r'. split; [done|]. split; [done|]. intros x.
  destruct (Hx x) as [X1 X2]. rewrite spans_cover_cons.
  assert (Hp : in_source_span p (x - dst_address + src_address) <->
    dst_address + (sp_start p - src_address) <= x < dst_address + (sp_start p - src_address) + (sp_end p - sp_start p)).
  { unfold in_source_span. lia. }
  assert (Hdec : spans_cover pending (x - dst_address + src_address) \/ ~ spans_cover pending (x - dst_address + src_address)).
  { destruct (decide (Exists (fun q => sp_start q <= x - dst_address + src_address < sp_end q) pending)) as [He|He].
    - left. apply Exists_exists in He as (q & Hq & Hin). by exists q.
    - right. intros (q & Hq & Hin). apply He. apply Exists_exists. by exists q. }
  split.
  - intros Hc. destruct Hdec as [Hd|Hd]; [by apply X1|]. destruct Hc as [Hc|Hc]; [|done]. rewrite (X2 Hd), E1, decide_True by (by apply Hp).
    rewrite (G4 _ Hc). do 2 f_equal. lia.
  - intros Hn. rewrite X2 by tauto. rewrite E1, decide_False by (rewrite <- Hp; tauto). done.
Qed.

Lemma copy_sources_spec src r dst_address src_address size : regions_ok src -> regions_ok r -> 0 <= dst_address -> 0 <= src_address -> 0 <= size ->
  dst_address + size <= UINT64_MAX -> src_address + size <= UINT64_MAX ->
  exists r', copy_sources src dst_address src_address size r = Ok r' /\ regions_ok r' /\
    forall x, source_at r' x =
      if decide (dst_address <= x < dst_address + size)
      then match source_at src (x - dst_address + src_address) with Some p => Some p | None => source_at r x end
      else source_at r x.
Proof.
  intros Hs Hr H1 H2 H3 H4 H5. unfold copy_sources. destruct (Z.eqb_spec size 0) as [->|Hne].
  { exists r. split; [done|]. split; [done|]. intros x. rewrite decide_False by lia. done. }
  rewrite checked_end_ok by lia. cbn [obind].
  destruct (collect_spans_partial src src_address size Hs H2) as (spans & -> & Hgood & Hc); [lia|lia|]. cbn [obind]. change (default [] (Some spans)) with spans.
  destruct (register_spans_spec src dst_address src_address size spans H1 H2 H4 H5 Hgood r Hr) as (r' & -> & Hr' & Hx).
  exists r'. split; [done|]. split; [done|]. intros x. destruct (Hx x) as [X1 X2]. rewrite Hc in X1, X2. case_decide as Hd.
  - destruct (source_at src (x - dst_address + src_address)) as [p|] eqn:Ep; [apply X1; split; [lia|done]|apply X2; tauto].
  - apply X2. lia.
Qed.

(** *** Registrations *)

(** byte [x] belongs to one of [elements] pieces of [size] bytes, [stride] apart *)
Definition registered (address size stride : Z) (elements : nat) (x : Z) : Prop :=
  exists i, (i < elements)%nat /\ address + Z.of_nat i * stride <= x < address + Z.of_nat i * stride + size.

#[export] Instance registered_dec address size stride elements x : Decision (registered address size stride elements x).
Proof.
  refine (cast_if (decide (Exists (fun i => address + Z.of_nat i * stride <= x < address + Z.of_nat i * stride + size) (seq 0 elements)))).
  - apply Exists_exists in e as (i & Hi & Hx). exists i. split; [apply elem_of_seq in Hi; lia|done].
  - intros (i & Hi & Hx). apply n. apply Exists_exists. exists i. split; [apply elem_of_seq; lia|done].
Defined.

Lemma registered_one address size stride x : registered address size stride 1 x <-> address <= x < address + size.
Proof. split; [intros (i & Hi & Hx); assert (i = 0%nat) as -> by lia; lia|intros Hx; exists 0%nat; lia]. Qed.

Lemma registered_packed address size elements x : 0 < size -> registered address size size elements x <-> address <= x < address + size * Z.of_nat elements.
Proof.
  intros Hs. split; [intros (i & Hi & Hx); nia|]. intros Hx. exists (Z.to_nat ((x - address) / size)).
  pose proof (Z.div_mod (x - address) size ltac:(lia)). pose proof (Z.mod_pos_bound (x - address) size Hs).
  assert (0 <= (x - address) / size) by (apply Z.div_pos; lia).
  assert ((x - address) / size < Z.of_nat elements) by (apply Z.div_lt_upper_bound; lia). rewrite Z2Nat.id by done. split; [lia|nia].
Qed.

Lemma register_elements_spec address size stride object_offset reference n : 0 <= address -> 0 < size -> 0 <= stride -> forall i r, regions_ok r ->
  address + (Z.of_nat i + Z.of_nat n) * stride + size <= UINT64_MAX ->
  exists r', register_elements address size stride object_offset reference i n r = Ok r' /\ regions_ok r' /\
    forall x, source_at r' x =
      if decide (registered (address + Z.of_nat i * stride) size stride n x)
      then Some (provenance_of (hr_source reference) (hr_stage_index reference) (object_offset + (x - address))) else source_at r x.
Proof.
  intros H1 H2 H3. induction n as [|n IH]; intros i r Hr Hmax; cbn [register_elements].
  { exists r. split; [done|]. split; [done|]. intros x. rewrite decide_False; [done|]. intros (j & Hj & _). lia. }
  assert (Hi : 0 <= Z.of_nat i * stride) by nia. assert (Hn : 0 <= Z.of_nat n * stride) by nia.
  rewrite (wrap64_small (Z.of_nat i * stride)), (wrap64_small (address + _)) by u_lia.
  destruct (register_unlocked_spec r (address + Z.of_nat i * stride) size (with_offset reference (int64 (object_offset + Z.of_nat i * stride))) Hr)
    as (r1 & -> & Hr1 & E1); [lia|lia|lia|].
  cbn [obind]. destruct (IH (Datatypes.S i) r1 Hr1) as (r' & E & Hr' & Hx); [lia|]. exists r'. split; [done|]. split; [done|]. intros x.
  rewrite Hx, E1.
  assert (Hiff : registered (address + Z.of_nat i * stride) size stride (Datatypes.S n) x <->
    address + Z.of_nat i * stride <= x < address + Z.of_nat i * stride + size \/ registered (address + Z.of_nat (Datatypes.S i) * stride) size stride n x).
  { split.
    - intros ([|j] & Hj & Hxj); [left; lia|right; exists j; split; [lia|]]. rewrite !Nat2Z.inj_succ in *. lia.
    - intros [Hx0|(j & Hj & Hxj)]; [exists 0%nat; split; [lia|lia]|]. exists (Datatypes.S j). split; [lia|]. rewrite !Nat2Z.inj_succ in *. lia. }
  destruct (decide (registered (address + Z.of_nat (Datatypes.S i) * stride) size stride n x)) as [Hd|Hd].
  { rewrite decide_True by tauto. done. }
  case_decide as Hd2; [rewrite decide_True by tauto|rewrite decide_False by tauto; done].
  unfold reference_provenance, provenance_of. cbn [with_offset hr_source hr_stage_index hr_object_offset]. f_equal. f_equal.
  rewrite int64_add_l. f_equal. lia.
Qed.

(** what a registration covers: [stride] 0 stands for packed elements *)
Definition effective_stride (size stride : Z) : Z := if stride =? 0 then size else stride.

Definition first_offset (address object_offset : Z) : Z := if object_offset =? UINT64_MAX then address else object_offset.

Record registration_ok (address size : Z) (source : change_source) (elements stride object_offset : Z) : Prop := {
  rg_source : change_source_self_test source = true;
  rg_size : 0 <= address /\ 0 <= size /\ 0 < elements /\ 0 <= stride;
  rg_end : address + elements * effective_stride size stride + size <= UINT64_MAX;
  rg_offset : 0 <= first_offset address object_offset <= INT64_MAX
}.

Lemma register_source_spec r address size source elements stride stage object_offset : regions_ok r ->
  registration_ok address size source elements stride object_offset ->
  exists r', register_source address size source elements stride stage object_offset r = Ok r' /\ regions_ok r' /\
    forall x, source_at r' x =
      if decide (registered address size (effective_stride size stride) (Z.to_nat elements) x)
      then Some (provenance_of source stage (first_offset address object_offset + (x - address))) else source_at r x.
Proof.
  intros Hr [G1 (G2 & G3 & G4 & G5) G6 G7]. unfold register_source. fold (first_offset address object_offset).
  destruct (Z.eqb_spec size 0) as [->|Hne].
  { exists r. split; [done|]. split; [done|]. intros x. rewrite decide_False; [done|]. intros (i & _ & Hx). lia. }
  rewrite Z.gtb_ltb, (proj2 (Z.ltb_lt _ _)) by lia. rewrite G1. cbn [require obind].
  rewrite (proj2 (Z.leb_le _ _)) by lia. cbn [require obind]. set (reference := HostWriteReference source stage _).
  assert (Hprov : forall i, reference_provenance reference i = provenance_of source stage (first_offset address object_offset + i)).
  { intros i. unfold reference_provenance, reference, provenance_of. simpl. by rewrite int64_add_l. }
  unfold effective_stride in *. destruct (Z.eqb_spec elements 1) as [->|Hne1].
  - destruct (register_unlocked_spec r address size reference Hr) as (r' & -> & Hr' & Hx); [lia|lia|destruct (stride =? 0); lia|].
    exists r'. split; [done|]. split; [done|]. intros x. rewrite Hx. change (Z.to_nat 1) with 1%nat.
    destruct (decide (address <= x < address + size)) as [Hd|Hd]; [rewrite decide_True, Hprov by (by apply registered_one); done|].
    rewrite decide_False by (by rewrite registered_one). done.
  - destruct (Z.eqb_spec stride 0) as [->|Hns].
    + rewrite (wrap64_small (size * elements)) by u_lia. rewrite Z.div_mul, Z.eqb_refl by lia. cbn [require obind].
      destruct (register_unlocked_spec r address (size * elements) reference Hr) as (r' & -> & Hr' & Hx); [lia|nia|lia|].
      exists r'. split; [done|]. split; [done|]. intros x. rewrite Hx.
      pose proof (registered_packed address size (Z.to_nat elements) x ltac:(lia)) as Hp. rewrite Z2Nat.id in Hp by lia.
      case_decide as Hd; [rewrite decide_True, Hprov by (by apply Hp); done|]. rewrite decide_False by (by rewrite Hp). done.
    + destruct (register_elements_spec address size stride (first_offset address object_offset) reference (Z.to_nat elements) G2 ltac:(lia) G5 0 r Hr)
        as (r' & -> & Hr' & Hx); [lia|].
      exists r'. split; [done|]. split; [done|]. intros x. rewrite Hx. replace (address + Z.of_nat 0 * stride) with address by lia. done.
Qed.

(** ** Histories *)

(** what happens to the regions of several objects *)
Inductive regions_op :=
  | Register (i : nat) (address size : Z) (source : change_source) (elements stride stage_index object_offset : Z)
  | CopySources (dst src : nat) (dst_address src_address size : Z).

Definition do_regions_op (op : regions_op) (l : list (host_write_regions T)) : outcome (list (host_write_regions T)) :=
  match op with
  | Register i address size source elements stride stage_index object_offset =>
      match l !! i with
      | None => Fail OutOfRange
      | Some r => let* r := register_source address size source elements stride stage_index object_offset r in Ok (<[i := r]> l)
      end
  | CopySources dst src dst_address src_address size =>
      match l !! dst, l !! src with
      | Some d, Some s => let* d := copy_sources s dst_address src_address size d in Ok (<[dst := d]> l)
      | _, _ => Fail OutOfRange
      end
  end.

Fixpoint run_regions (ops : list regions_op) (l : list (host_write_regions T)) : outcome (list (host_write_regions T)) :=
  match ops with
  | [] => Ok l
  | op :: ops => let* l := do_regions_op op l in run_regions ops l
  end.

(** the same on the abstract map from objects and bytes to where they come from *)
Definition sources_map : Type := nat -> Z -> option provenance.

Definition op_effect (m : sources_map) (op : regions_op) : sources_map := fun i x =>
  match op with
  | Register j address size source elements stride stage_index object_offset =>
      if decide (i = j /\ registered address size (effective_stride size stride) (Z.to_nat elements) x)
      then Some (provenance_of source stage_index (first_offset address object_offset + (x - address))) else m i x
  | CopySources dst src dst_address src_address size =>
      if decide (i = dst /\ dst_address <= x < dst_address + size)
      then match m src (x - dst_address + src_address) with Some p => Some p | None => m i x end else m i x
  end.

Definition regions_op_ok (n : nat) (op : regions_op) : Prop :=
  match op with
  | Register i address size source elements stride _ object_offset =>
      (i < n)%nat /\ registration_ok address size source elements stride object_offset
  | CopySources dst src dst_address src_address size =>
      (dst < n)%nat /\ (src < n)%nat /\ 0 <= dst_address /\ 0 <= src_address /\ 0 <= size /\
      dst_address + size <= UINT64_MAX /\ src_address + size <= UINT64_MAX
  end.

(** the regions hold the map *)
Definition holds_sources (l : list (host_write_regions T)) (m : sources_map) : Prop :=
  forall i r, l !! i = Some r -> regions_ok r /\ forall x, source_at r x = m i x.

Lemma do_regions_op_ok op l m : holds_sources l m -> regions_op_ok (length l) op ->
  exists l', do_regions_op op l = Ok l' /\ length l' = length l /\ holds_sources l' (op_effect m op).
Proof.
  intros Hl. destruct op as [i address size source elements stride stage object_offset|dst src da sa size]; cbn [regions_op_ok do_regions_op].
  - intros [Hi Hg]. destruct (lookup_lt_is_Some_2 l i Hi) as [r Er]. rewrite Er. destruct (Hl i r Er) as [Hr Hx].
    destruct (register_source_spec r address size source elements stride stage object_offset Hr Hg) as (r' & -> & Hr' & Hx').
    cbn [obind]. eexists. split; [reflexivity|]. split; [apply length_insert|]. intros j rj Hj. unfold op_effect.
    destruct (decide (j = i)) as [->|Hne].
    + rewrite list_lookup_insert_eq in Hj by done. injection Hj as <-. split; [done|]. intros x. rewrite Hx', Hx.
      case_decide; [by rewrite decide_True|rewrite decide_False; [done|tauto]].
    + rewrite list_lookup_insert_ne in Hj by done. destruct (Hl j rj Hj) as [Hrj Hxj]. split; [done|]. intros x. rewrite Hxj, decide_False; [done|tauto].
  - intros (Hd & Hs & H1 & H2 & H3 & H4 & H5). destruct (lookup_lt_is_Some_2 l dst Hd) as [d Ed]. destruct (lookup_lt_is_Some_2 l src Hs) as [s Es].
    rewrite Ed, Es. destruct (Hl dst d Ed) as [Hdr Hdx]. destruct (Hl src s Es) as [Hsr Hsx].
    destruct (copy_sources_spec s d da sa size Hsr Hdr H1 H2 H3 H4 H5) as (d' & -> & Hd' & Hx'). cbn [obind].
    eexists. split; [reflexivity|]. split; [apply length_insert|]. intros j rj Hj. unfold op_effect. destruct (decide (j = dst)) as [->|Hne].
    + rewrite list_lookup_insert_eq in Hj by done. injection Hj as <-. split; [done|]. intros x. rewrite Hx', Hsx, Hdx.
      case_decide; [by rewrite decide_True|rewrite decide_False; [done|tauto]].
    + rewrite list_lookup_insert_ne in Hj by done. destruct (Hl j rj Hj) as [Hrj Hxj]. split; [done|]. intros x. rewrite Hxj, decide_False; [done|tauto].
Qed.

Lemma run_regions_ok ops : forall l m, holds_sources l m -> Forall (regions_op_ok (length l)) ops ->
  exists l', run_regions ops l = Ok l' /\ length l' = length l /\ holds_sources l' (fold_left op_effect ops m).
Proof.
  induction ops as [|op ops IH]; intros l m Hl Hops; cbn [run_regions fold_left]; [by exists l|].
  apply Forall_cons in Hops as [Hop Hops]. destruct (do_regions_op_ok op l m Hl Hop) as (l1 & -> & Hlen & H1). cbn [obind].
  destruct (IH l1 (op_effect m op) H1) as (l' & E & Hlen' & H2); [by rewrite Hlen|]. exists l'. split; [done|]. split; [congruence|done].
Qed.

Lemma holds_new n : holds_sources (repeat new_regions n) (fun _ _ => None).
Proof.
  intros i r Hi. assert (r = new_regions) as ->.
  { apply list_elem_of_lookup_2 in Hi. apply list_elem_of_In in Hi. by apply repeat_spec in Hi. }
  split; [apply new_regions_ok|apply source_at_new].
Qed.

(** all bytes of the range continue the first one's provenance *)
Definition from_one_source (m : sources_map) (i : nat) (address size : Z) (p : provenance) : Prop :=
  m i address = Some p /\ forall k, 0 <= k < size -> m i (address + k) = Some (advance p k).

(** C19: After any history of registrations and copies between any number of objects,
    [try_get_reference] of a range answers with the packet, stage and object offset
    of its first byte exactly when all its bytes come from consecutive offsets of
    that one source, as the same history on a map from bytes to sources has it. *)
Theorem provenance_tracked n ops : Forall (regions_op_ok n) ops ->
  exists l, run_regions ops (repeat new_regions n) = Ok l /\ length l = n /\
    forall i r address size, l !! i = Some r -> 0 <= address -> 0 < size -> address + size <= UINT64_MAX ->
      exists res, try_get_reference address size r = Ok res /\
        forall p, from_one_source (fold_left op_effect ops (fun _ _ => None)) i address size p <->
          exists reference, res = Some reference /\ reference_provenance reference 0 = p.
Proof.
  intros Hops. destruct (run_regions_ok ops (repeat new_regions n) (fun _ _ => None) (holds_new n)) as (l & E & Hlen & Hl).
  { by rewrite repeat_length. }
  rewrite repeat_length in Hlen. exists l. split; [done|]. split; [done|]. intros i r address size Hi H1 H2 H3.
  destruct (Hl i r Hi) as [Hr Hx]. destruct (try_get_reference_spec r address size Hr H1 H2 H3) as (res & Er & Hres).
  exists res. split; [done|]. intros p. rewrite <- Hres. unfold from_one_source, one_source. by setoid_rewrite Hx.
Qed.
End RegionProofs.

(** ** A small tracker *)

(** the bytes from [e] on *)
Fixpoint cut_before (e : Z) (l : list tracked_span) : list tracked_span :=
  match l with
  | [] => []
  | s :: l =>
      if ts_end s <=? e then cut_before e l
      else if ts_start s <? e then TrackedSpan e (ts_end s) (ts_fragment s) :: l else s :: l
  end.

Fixpoint insert_span (a e f : Z) (l : list tracked_span) : list tracked_span :=
  match l with
  | [] => [TrackedSpan a e f]
  | s :: l' =>
      if ts_end s <=? a then s :: insert_span a e f l'
      else (if ts_start s <? a then [TrackedSpan (ts_start s) a (ts_fragment s)] else []) ++ TrackedSpan a e f :: cut_before e l
  end.

Fixpoint span_owner (l : list tracked_span) (x : Z) : option Z :=
  match l with
  | [] => None
  | s :: l => if decide (in_span s x) then Some (ts_fragment s) else span_owner l x
  end.

#[export] Instance in_span_dec s x : Decision (in_span s x).
Proof. unfold in_span. apply _. Defined.


Record tracker_log := TrackerLog { log_spans : list tracked_span; log_next : Z }.

Definition log_write (address size : Z) (t : tracker_log) : tracker_log :=
  TrackerLog (insert_span address (address + size) (log_next t) (log_spans t)) (log_next t + 1).

Definition log_query (address : Z) (t : tracker_log) : option (Z * Z) :=
  option_map (pair address) (span_owner (log_spans t) address).

Definition meets (lo hi : Z) (s : tracked_span) : Prop := ts_start s < hi /\ lo < ts_end s.

#[export] Instance meets_dec lo hi s : Decision (meets lo hi s).
Proof. unfold meets. apply _. Defined.

Definition log_query_range (address size : Z) (t : tracker_log) : list tracked_span :=
  filter (meets address (address + size)) (log_spans t).

Lemma ascending_weaken lo lo' l : lo' <= lo -> ascending lo l -> ascending lo' l.
Proof. destruct l as [|s l]; [done|]. cbn [ascending]. intros H (H1 & H2 & H3). split; [lia|done]. Qed.

Lemma ascending_filter (P : tracked_span -> Prop) `{!forall s, Decision (P s)} lo l : ascending lo l -> ascending lo (filter P l).
Proof.
  revert lo. induction l as [|s l IH]; intros lo; [done|]. cbn [ascending]. intros (H1 & H2 & H3). rewrite filter_cons.
  case_decide; [split; [lia|split; [lia|by apply IH]]|]. apply (ascending_weaken (ts_end s)); [lia|by apply IH].
Qed.

(** nothing is below the first span *)
Lemma span_owner_below lo l x : ascending lo l -> x < lo -> span_owner l x = None.
Proof.
  revert lo. induction l as [|s l IH]; intros lo; [done|]. cbn [ascending span_owner]. intros (H1 & H2 & H3) Hx.
  rewrite decide_False by (unfold in_span; lia). apply (IH (ts_end s)); [done|lia].
Qed.

Lemma span_owner_elem lo l s x : ascending lo l -> s ∈ l -> in_span s x -> span_owner l x = Some (ts_fragment s).
Proof.
  revert lo. induction l as [|s' l IH]; intros lo; [by intros _ ?%not_elem_of_nil|]. cbn [ascending span_owner].
  intros (H1 & H2 & H3) [->|Hs]%elem_of_cons Hx; [by rewrite decide_True|].
  pose proof (ascending_ge _ _ _ H3 Hs). rewrite decide_False by (unfold in_span in *; lia). by apply (IH (ts_end s')).
Qed.

Lemma span_owner_inv l x f : span_owner l x = Some f -> exists s, s ∈ l /\ in_span s x /\ ts_fragment s = f.
Proof.
  induction l as [|s l IH]; [done|]. cbn [span_owner]. case_decide as Hd.
  - injection 1 as <-. exists s. split; [constructor|done].
  - intros (s' & Hs & Hx)%IH. exists s'. split; [by constructor|done].
Qed.

Lemma cut_before_spec e l lo : lo <= e -> ascending lo l ->
  ascending e (cut_before e l) /\ (forall s, s ∈ cut_before e l -> exists s', s' ∈ l /\ ts_fragment s = ts_fragment s') /\
  forall x, span_owner (cut_before e l) x = if decide (x < e) then None else span_owner l x.
Proof.
  revert lo. induction l as [|s l IH]; intros lo Hlo; cbn [ascending cut_before].
  { intros _. split; [done|]. split; [by intros s ?%not_elem_of_nil|]. intros x. by case_decide. }
  intros (H1 & H2 & H3). destruct (Z.leb_spec (ts_end s) e) as [He|He].
  { destruct (IH (ts_end s) He H3) as (Ha & Hf & Ho). split; [done|]. split.
    - intros s0 (s' & Hs' & Hfr)%Hf. exists s'. split; [by constructor|done].
    - intros x. rewrite Ho. case_decide; [done|]. cbn [span_owner]. by rewrite decide_False by (unfold in_span; lia). }
  destruct (Z.ltb_spec (ts_start s) e) as [Hs|Hs].
  - split; [cbn [ascending ts_start ts_end]; split; [lia|split; [lia|done]]|]. split.
    + intros s0 [->|Hin]%elem_of_cons; [exists s; split; [constructor|done]|exists s0; split; [by constructor|done]].
    + intros x. cbn [span_owner ts_fragment]. unfold in_span. cbn [ts_start ts_end].
      pose proof (span_owner_below (ts_end s) l x H3). repeat case_decide; try lia; auto with lia.
  - split; [cbn [ascending]; split; [lia|split; [lia|done]]|]. split.
    + intros s0 Hin. by exists s0.
    + intros x. case_decide; [|done]. apply (span_owner_below (ts_start s)); [|lia]. cbn [ascending]. split; [lia|done].
Qed.

Lemma insert_span_spec a e f l lo : lo <= a -> a < e -> ascending lo l ->
  ascending lo (insert_span a e f l) /\
  (forall s, s ∈ insert_span a e f l -> ts_fragment s = f \/ exists s', s' ∈ l /\ ts_fragment s = ts_fragment s') /\
  forall x, span_owner (insert_span a e f l) x = if decide (a <= x < e) then Some f else span_owner l x.
Proof.
  revert lo. induction l as [|s l IH]; intros lo Hlo Hae; cbn [insert_span].
  { intros _. split; [cbn [ascending ts_start ts_end]; split; [lia|split; [lia|done]]|]. split; [|done].
    intros s [->|?%not_elem_of_nil]%elem_of_cons; [by left|done]. }
  intros H0. pose proof H0 as H0'. cbn [ascending] in H0. destruct H0 as (H1 & H2 & H3). destruct (Z.leb_spec (ts_end s) a) as [He|He].
  { destruct (IH (ts_end s) He Hae H3) as (Ha & Hf & Ho). split; [cbn [ascending]; split; [lia|split; [lia|done]]|]. split.
    - intros s0 [->|Hin]%elem_of_cons; [right; exists s; split; [constructor|done]|].
      destruct (Hf _ Hin) as [?|(s' & Hs' & Hfr)]; [by left|right; exists s'; split; [by constructor|done]].
    - intros x. cbn [span_owner]. rewrite Ho. unfold in_span. repeat case_decide; try lia; done. }
  destruct (cut_before_spec e (s :: l) lo ltac:(lia) H0') as (Ha & Hf & Ho).
  set (rest := cut_before e (s :: l)) in *. change (if (ts_end s <=? e) then _ else _) with rest.
  assert (Hn : ascending a (TrackedSpan a e f :: rest)) by (cbn [ascending ts_start ts_end]; split; [lia|split; [lia|done]]).
  assert (Hown : forall x, span_owner (TrackedSpan a e f :: rest) x = if decide (a <= x < e) then Some f else if decide (x < e) then None else span_owner (s :: l) x).
  { intros x. cbn [span_owner ts_fragment]. unfold in_span. cbn [ts_start ts_end]. case_decide; [done|]. by rewrite Ho. }
  assert (Hfr : forall s0, s0 ∈ TrackedSpan a e f :: rest -> ts_fragment s0 = f \/ exists s', s' ∈ s :: l /\ ts_fragment s0 = ts_fragment s').
  { intros s0 [->|Hin]%elem_of_cons; [by left|right; by apply Hf]. }
  destruct (Z.ltb_spec (ts_start s) a) as [Hs|Hs]; cbn [app].
  - split; [cbn [ascending ts_start ts_end]; split; [lia|split; [lia|done]]|]. split.
    + intros s0 [->|Hin]%elem_of_cons; [right; exists s; split; [constructor|done]|by apply Hfr].
    + intros x. change (span_owner (?h :: ?t) x) with (if decide (in_span h x) then Some (ts_fragment h) else span_owner t x) at 1.
      rewrite Hown. cbn [span_owner ts_fragment]. unfold in_span. cbn [ts_start ts_end]. repeat case_decide; try lia; try lia; try done. symmetry. apply (span_owner_below (ts_end s)); [done|lia].
  - split; [eapply ascending_weaken; [|done]; lia|]. split; [done|]. intros x. rewrite Hown.
    case_decide; [done|]. case_decide; [|done]. symmetry. apply (span_owner_below (ts_start s)); [|lia].
    cbn [ascending]. split; [lia|done].
Qed.

Definition log_ok (t : tracker_log) : Prop :=
  ascending 0 (log_spans t) /\ forall s, s ∈ log_spans t -> ts_fragment s < log_next t.

#[export] Instance log_tracker : MemoryFlagTracker tracker_log.
Proof.
  refine {| empty_tracker := TrackerLog [] 0; write := fun address size _ t => log_write address size t; queryDetailed := log_query;
    queryRangeDetailed := log_query_range; owner := fun t => span_owner (log_spans t); tracker_ok := log_ok |}.
  - split; [|done]. split; [done|]. by intros s ?%not_elem_of_nil.
  - intros t address size flags [Ha Hf] H1 H2 H3.
    destruct (insert_span_spec address (address + size) (log_next t) (log_spans t) 0 H1 ltac:(lia) Ha) as (Ha' & Hf' & Ho).
    split; [split; [done|]|].
    + intros s Hs. cbn [log_write log_next]. destruct (Hf' s Hs) as [->|(s' & Hs' & ->)]; [lia|]. pose proof (Hf _ Hs'). lia.
    + exists (log_next t). split; [|done]. intros x (s & Hs & _ & E)%span_owner_inv. pose proof (Hf _ Hs). lia.
  - intros t address f _ E. unfold log_query. by rewrite E.
  - intros t address size [Ha Hf] H1 H2 H3. unfold log_query_range. split; [by apply ascending_filter|]. split.
    + intros s x (_ & Hs)%list_elem_of_filter Hx. by apply (span_owner_elem 0).
    + intros x Hx Hn. destruct (span_owner (log_spans t) x) as [f|] eqn:E; [|done]. apply span_owner_inv in E as (s & Hs & Hin & _).
      exists s. split; [|done]. apply list_elem_of_filter. split; [|done]. unfold meets, in_span in *. lia.
Defined.

(** ** Witness *)

(** a copy out of a host write, partly written over *)
Definition demo_source (packet : Z) : change_source := {| cs_packet := packet; cs_frame := 0; cs_thread := 0; cs_call_id := 5; cs_packet_type := 2 |}.
Definition demo_ops : list regions_op :=
  [Register 0 64 32 (demo_source 7) 1 0 0 UINT64_MAX; CopySources 1 0 0 72 16; Register 1 4 2 (demo_source 9) 3 4 1 100].

(** the answer of a query of object [i] after the history *)
Definition demo_reference (i : nat) (address size : Z) : outcome (option (Z * Z * Z)) :=
  let* l := run_regions demo_ops (repeat new_regions 2) in
  match l !! i with
  | None => Fail OutOfRange
  | Some r =>
      let* reference := try_get_reference address size r in
      Ok (option_map (fun h => (cs_packet (hr_source h), hr_stage_index h, hr_object_offset h)) reference)
  end.

(** the copied bytes lead to the packet that wrote the first object, the ones
    written over to theirs, and a range over both to none *)
Example demo_provenance :
  demo_reference 1 2 2 = Ok (Some (7, 0, 74)) /\ demo_reference 1 8 2 = Ok (Some (9, 1, 104)) /\
  demo_reference 1 2 4 = Ok None /\ demo_reference 1 20 1 = Ok None /\ demo_reference 0 64 32 = Ok (Some (7, 0, 64)).
Proof. vm_compute. done. Qed.

Lemma demo_ops_ok : Forall (regions_op_ok 2) demo_ops.
Proof.
  unfold demo_ops. repeat apply Forall_cons_2; [| | |by constructor]; cbn [regions_op_ok].
  - split; [lia|]. by constructor; vm_compute.
  - u_lia.
  - split; [lia|]. by constructor; vm_compute.
Qed.

Lemma provenance_tracked_witness : Forall (regions_op_ok 2) demo_ops /\
  exists l, run_regions demo_ops (repeat (new_regions (T := tracker_log)) 2) = Ok l /\ length l = 2%nat.
Proof.
  split; [apply demo_ops_ok|]. destruct (provenance_tracked (T := tracker_log) 2 demo_ops demo_ops_ok) as (l & E & Hlen & _). by exists l.
Defined.
