(* ===== verification/DescriptorSets.v ===== *)
(** * What descriptors make a command buffer use (src/hardcode_write.cpp, src/lavatube.h)

    The capture notes for every descriptor set which bytes its descriptors name,
    and for every command buffer which bytes its commands may use. An update of a
    set, by structures or through a template, renews the notes of the set, a copy
    adds those of another set, and binding a set adds its notes to the command
    buffer, with the buffers of dynamic offsets resolved. *)

From Stdlib Require Import ZArith Lia Bool.
From Stdlib.Strings Require Import Byte.
From stdpp Require Import base numbers list gmap.
From S2P Require Import Prelude RangeTracking Patch Packets Containers Translate Templates Updates HostMemory.

#[local] Open Scope Z_scope.

(** ** The state of the capture *)

(** [VkDescriptorBufferInfo] *)
Record descriptor_buffer_info := DescriptorBufferInfo { di_buffer : Z; di_offset : Z; di_range : Z }.

#[export] Instance descriptor_buffer_info_eq_dec : EqDecision descriptor_buffer_info.
Proof. solve_decision. Defined.

(** a [std::map]: the slots in ascending order *)
Definition dynamic_map : Type := list (Z * descriptor_buffer_info).

Definition dynamic_find (slot : Z) (d : dynamic_map) : option descriptor_buffer_info :=
  option_map snd (List.find (fun p => p.1 =? slot) d).

Fixpoint dynamic_set (slot : Z) (info : descriptor_buffer_info) (d : dynamic_map) : dynamic_map :=
  match d with
  | [] => [(slot, info)]
  | p :: rest =>
      if slot <? p.1 then (slot, info) :: d
      else if p.1 =? slot then (slot, info) :: rest
      else p :: dynamic_set slot info rest
  end.

Definition dynamic_erase (slot : Z) (d : dynamic_map) : dynamic_map := List.filter (fun p => negb (p.1 =? slot)) d.

(** [trackeddescriptorset_trace] *)
Record descriptorset := DescriptorSet { d_touched : touched_map; dynamic_buffers : dynamic_map }.

Definition with_d_touched (s : descriptorset) (t : touched_map) : descriptorset := DescriptorSet t (dynamic_buffers s).
Definition with_dynamic (s : descriptorset) (d : dynamic_map) : descriptorset := DescriptorSet (d_touched s) d.

(** [trackedbufferview] *)
Record buffer_view := BufferView { bv_buffer : Z; bv_offset : Z; bv_range : Z }.

(** the tables of the capture that updates only read, from handles to objects or to null *)
Record tables := Tables {
  VkBuffer_index : gmap Z (option nat);
  VkImage_index : gmap Z (option nat);
  VkTensorARM_index : gmap Z (option nat);
  VkImageView_index : gmap Z (option Z);         (** the image of the view *)
  VkBufferView_index : gmap Z (option buffer_view);
  VkTensorViewARM_index : gmap Z (option Z)      (** the tensor of the view *)
}.

(** what updates and binding change *)
Record bindings := Bindings {
  VkDescriptorSet_index : gmap Z (option descriptorset);
  VkCommandBuffer_index : gmap Z (option cmdbuffer)
}.

Definition with_set (st : bindings) (set : Z) (s : descriptorset) : bindings :=
  Bindings (<[set := Some s]> (VkDescriptorSet_index st)) (VkCommandBuffer_index st).
Definition with_cmdbuf (st : bindings) (commandBuffer : Z) (c : cmdbuffer) : bindings :=
  Bindings (VkDescriptorSet_index st) (<[commandBuffer := Some c]> (VkCommandBuffer_index st)).

(** [at] of a table, and a use of the pointer it returns *)
Definition at_ {A} (table : gmap Z (option A)) (handle : Z) : outcome (option A) :=
  match table !! handle with Some p => Ok p | None => Fail OutOfRange end.
Definition deref {A} (p : option A) : outcome A := match p with Some a => Ok a | None => Fail NullPointer end.
Definition object_at {A} (table : gmap Z (option A)) (handle : Z) : outcome A := let* p := at_ table handle in deref p.

(** an element of an array behind a pointer *)
Definition element {A} (l : list A) (j : nat) : outcome A := match l !! j with Some a => Ok a | None => Fail OutOfRange end.

(** a loop from [j] on *)
Fixpoint for_each {S} (j count : nat) (body : nat -> S -> outcome S) (st : S) : outcome S :=
  match count with
  | O => Ok st
  | S count => let* st := body j st in for_each (Datatypes.S j) count body st
  end.

(** ** Updates *)

(** the structures that extend a write *)
Inductive write_extension :=
  | WriteInlineUniformBlock (dataSize : Z) (data : list byte)
  | WriteAccelerationStructures (accelerationStructureCount : Z) (structures : list Z)
  | WriteTensors (tensorViewCount : Z) (views : list Z).

(** [VkWriteDescriptorSet]; of an image info only the view is looked at *)
Record VkWriteDescriptorSet := WriteDescriptorSet {
  dstSet : Z;
  dstBinding : Z;
  dstArrayElement : Z;
  descriptorCount : Z;
  descriptorType : VkDescriptorType;
  pImageInfo : list Z;
  pBufferInfo : list descriptor_buffer_info;
  pTexelBufferView : list Z;
  w_pNext : list write_extension
}.

Record VkCopyDescriptorSet := CopyDescriptorSet {
  srcSet : Z; srcBinding : Z; srcArrayElement : Z;
  cp_dstSet : Z; cp_dstBinding : Z; cp_dstArrayElement : Z; cp_descriptorCount : Z
}.

Definition find_inline (w : VkWriteDescriptorSet) : option (Z * list byte) :=
  head (omap (fun x => match x with WriteInlineUniformBlock n d => Some (n, d) | _ => None end) (w_pNext w)).
Definition find_structures (w : VkWriteDescriptorSet) : option (Z * list Z) :=
  head (omap (fun x => match x with WriteAccelerationStructures n l => Some (n, l) | _ => None end) (w_pNext w)).
Definition find_tensors (w : VkWriteDescriptorSet) : option (Z * list Z) :=
  head (omap (fun x => match x with WriteTensors n l => Some (n, l) | _ => None end) (w_pNext w)).

Definition descriptor_dynamic_slot (binding array_index : Z) : Z := Z.lor (Z.shiftl binding 32) array_index.

Section Capture.
Context (objects : list hostobject) (tb : tables).

Definition size_of_object (obj : nat) : outcome Z :=
  match objects !! obj with Some o => Ok (h_size o) | None => Fail OutOfRange end.

(** [touch] of a descriptor set or of the command buffer of a push *)
Definition set_touch (set : Z) (obj : nat) (offset size : Z) (st : bindings) : outcome bindings :=
  let* s := object_at (VkDescriptorSet_index st) set in
  let* t := touch objects obj offset size (d_touched s) in
  Ok (with_set st set (with_d_touched s t)).
Definition cmdbuf_touch (commandBuffer : Z) (obj : nat) (offset size : Z) (st : bindings) : outcome bindings :=
  let* c := object_at (VkCommandBuffer_index st) commandBuffer in
  let* t := touch objects obj offset size (touched c) in
  Ok (with_cmdbuf st commandBuffer (with_touched c t)).

(** [push] has the command buffer that is pushed to *)
Definition touch_for (push : option Z) (set : Z) (obj : nat) (offset size : Z) (st : bindings) : outcome bindings :=
  match push with
  | Some commandBuffer => cmdbuf_touch commandBuffer obj offset size st
  | None => set_touch set obj offset size st
  end.

Definition touch_tensor_descriptor (push : option Z) (set view : Z) (st : bindings) : outcome bindings :=
  if view =? 0 then Ok st
  else
    let* tensor := object_at (VkTensorViewARM_index tb) view in
    let* obj := object_at (VkTensorARM_index tb) tensor in
    let* size := size_of_object obj in
    touch_for push set obj 0 size st.

Definition write_image (push : option Z) (w : VkWriteDescriptorSet) (j : nat) (st : bindings) : outcome bindings :=
  let* view := element (pImageInfo w) j in
  if view =? 0 then Ok st
  else
    let* image := object_at (VkImageView_index tb) view in
    let* obj := object_at (VkImage_index tb) image in
    let* size := size_of_object obj in
    touch_for push (dstSet w) obj 0 size st.

Definition write_buffer (push : option Z) (w : VkWriteDescriptorSet) (j : nat) (st : bindings) : outcome bindings :=
  let* info := element (pBufferInfo w) j in
  if di_buffer info =? 0 then Ok st
  else
    let* obj := object_at (VkBuffer_index tb) (di_buffer info) in
    let* buffer_size := size_of_object obj in
    let size := if di_range info =? VK_WHOLE_SIZE then wrap64 (buffer_size - di_offset info) else di_range info in
    touch_for push (dstSet w) obj (di_offset info) size st.

Definition write_dynamic (push : option Z) (w : VkWriteDescriptorSet) (j : nat) (st : bindings) : outcome bindings :=
  match push with
  | Some _ => Ok st
  | None =>
      let slot := descriptor_dynamic_slot (dstBinding w) (wrap32 (dstArrayElement w + Z.of_nat j)) in
      let* s := object_at (VkDescriptorSet_index st) (dstSet w) in
      let* info := element (pBufferInfo w) j in
      Ok (with_set st (dstSet w) (with_dynamic s (dynamic_set slot info (dynamic_buffers s))))
  end.

Definition write_texel (push : option Z) (w : VkWriteDescriptorSet) (j : nat) (st : bindings) : outcome bindings :=
  let* view := element (pTexelBufferView w) j in
  if view =? 0 then Ok st
  else
    let* v := object_at (VkBufferView_index tb) view in
    let* obj := object_at (VkBuffer_index tb) (bv_buffer v) in
    touch_for push (dstSet w) obj (bv_offset v) (bv_range v) st.

(** the second loop of [handle_VkWriteDescriptorSets] *)
Definition write_descriptors (push : option Z) (w : VkWriteDescriptorSet) (st : bindings) : outcome bindings :=
  let* _ := match push with Some _ => Ok None | None => at_ (VkDescriptorSet_index st) (dstSet w) end in
  let each := for_each 0 (Z.to_nat (descriptorCount w)) in
  match descriptorType w with
  | VK_DESCRIPTOR_TYPE_SAMPLER | VK_DESCRIPTOR_TYPE_COMBINED_IMAGE_SAMPLER | VK_DESCRIPTOR_TYPE_SAMPLED_IMAGE
  | VK_DESCRIPTOR_TYPE_STORAGE_IMAGE | VK_DESCRIPTOR_TYPE_INPUT_ATTACHMENT => each (write_image push w) st
  | VK_DESCRIPTOR_TYPE_UNIFORM_BUFFER | VK_DESCRIPTOR_TYPE_STORAGE_BUFFER => each (write_buffer push w) st
  | VK_DESCRIPTOR_TYPE_UNIFORM_BUFFER_DYNAMIC | VK_DESCRIPTOR_TYPE_STORAGE_BUFFER_DYNAMIC => each (write_dynamic push w) st
  | VK_DESCRIPTOR_TYPE_UNIFORM_TEXEL_BUFFER | VK_DESCRIPTOR_TYPE_STORAGE_TEXEL_BUFFER => each (write_texel push w) st
  | VK_DESCRIPTOR_TYPE_INLINE_UNIFORM_BLOCK =>
      let* _ := require (match find_inline w with Some _ => true | None => false end) AssertFailed in Ok st
  | VK_DESCRIPTOR_TYPE_ACCELERATION_STRUCTURE_KHR =>
      let* _ := require (match find_structures w with Some (n, _) => n =? descriptorCount w | None => false end) AssertFailed in Ok st
  | VK_DESCRIPTOR_TYPE_TENSOR_ARM =>
      match find_tensors w with
      | None => Fail AssertFailed
      | Some (n, views) =>
          let* _ := require (n =? descriptorCount w) AssertFailed in
          for_each 0 (Z.to_nat n) (fun j st => let* view := element views j in touch_tensor_descriptor push (dstSet w) view st) st
      end
  | _ => Fail AbortCall
  end.

(** the first loop *)
Definition clear_set (clear : bool) (push : option Z) (w : VkWriteDescriptorSet) (st : bindings) : outcome bindings :=
  match push with
  | Some _ => Ok st
  | None =>
      let* p := at_ (VkDescriptorSet_index st) (dstSet w) in
      if clear then let* s := deref p in Ok (with_set st (dstSet w) (with_d_touched s [])) else Ok st
  end.

Fixpoint all_writes (body : VkWriteDescriptorSet -> bindings -> outcome bindings) (ws : list VkWriteDescriptorSet) (st : bindings)
    : outcome bindings :=
  match ws with
  | [] => Ok st
  | w :: ws => let* st := body w st in all_writes body ws st
  end.

Definition handle_VkWriteDescriptorSets (ws : list VkWriteDescriptorSet) (clear : bool) (push : option Z) (st : bindings) : outcome bindings :=
  let* _ := match push with Some commandBuffer => at_ (VkCommandBuffer_index st) commandBuffer | None => Ok None end in
  let* st := all_writes (clear_set clear push) ws st in
  all_writes (write_descriptors push) ws st.

(** ** Copies *)

(** the loops over the touched objects are those of [touch_merge] *)
Definition merge_descriptor_touched (dst src : descriptorset) : outcome descriptorset :=
  let* t := touch_merge (d_touched src) (d_touched dst) in Ok (with_d_touched dst t).

Definition copy_dynamic (c : VkCopyDescriptorSet) (j : nat) (st : bindings) : outcome bindings :=
  let src_slot := descriptor_dynamic_slot (srcBinding c) (wrap32 (srcArrayElement c + Z.of_nat j)) in
  let dst_slot := descriptor_dynamic_slot (cp_dstBinding c) (wrap32 (cp_dstArrayElement c + Z.of_nat j)) in
  let* src := object_at (VkDescriptorSet_index st) (srcSet c) in
  let* dst := object_at (VkDescriptorSet_index st) (cp_dstSet c) in
  Ok (with_set st (cp_dstSet c)
        (with_dynamic dst
           (match dynamic_find src_slot (dynamic_buffers src) with
            | Some info => dynamic_set dst_slot info (dynamic_buffers dst)
            | None => dynamic_erase dst_slot (dynamic_buffers dst)
            end))).

Definition copy_set (c : VkCopyDescriptorSet) (st : bindings) : outcome bindings :=
  let* src := at_ (VkDescriptorSet_index st) (srcSet c) in
  let* dst := at_ (VkDescriptorSet_index st) (cp_dstSet c) in
  let* src := deref src in
  let* dst := deref dst in
  let* dst := merge_descriptor_touched dst src in
  for_each 0 (Z.to_nat (cp_descriptorCount c)) (copy_dynamic c) (with_set st (cp_dstSet c) dst).

Fixpoint handle_VkCopyDescriptorSets (cs : list VkCopyDescriptorSet) (st : bindings) : outcome bindings :=
  match cs with
  | [] => Ok st
  | c :: cs => let* st := copy_set c st in handle_VkCopyDescriptorSets cs st
  end.

Definition trace_post_vkUpdateDescriptorSets (ws : list VkWriteDescriptorSet) (cs : list VkCopyDescriptorSet) (st : bindings)
    : outcome bindings :=
  let* st := handle_VkWriteDescriptorSets ws true None st in
  handle_VkCopyDescriptorSets cs st.

Definition trace_post_vkCmdPushDescriptorSet (commandBuffer : Z) (ws : list VkWriteDescriptorSet) (st : bindings) : outcome bindings :=
  handle_VkWriteDescriptorSets ws false (Some commandBuffer) st.

(** ** Templates *)

(** [element_size] bytes at each of [count] places *)
Fixpoint load_elements (element_size : nat) (data : list byte) (base stride i : Z) (count : nat) : outcome (list (list byte)) :=
  match count with
  | O => Ok []
  | Datatypes.S count =>
      let* x := load data (base + i * stride) element_size in
      let* l := load_elements element_size data base stride (i + 1) count in
      Ok (x :: l)
  end.

(** the elements of an entry: in place when they follow each other, else copied together *)
Definition template_entry_data (e : VkDescriptorUpdateTemplateEntry) (element_size : nat) (data : list byte) : outcome (list (list byte)) :=
  if te_descriptorCount e =? 0 then Ok []
  else
    let stride := stride_of e (Z.of_nat element_size) in
    if stride =? Z.of_nat element_size
    then load_elements element_size data (te_offset e) (Z.of_nat element_size) 0 (Z.to_nat (te_descriptorCount e))
    else load_elements element_size data (te_offset e) stride 0 (Z.to_nat (te_descriptorCount e)).

Definition template_entry_bytes (e : VkDescriptorUpdateTemplateEntry) (data : list byte) : outcome (list byte) :=
  if te_descriptorCount e =? 0 then Ok []
  else
    let stride := stride_of e 1 in
    if stride =? 1 then load data (te_offset e) (Z.to_nat (te_descriptorCount e))
    else let* l := load_elements 1 data (te_offset e) stride 0 (Z.to_nat (te_descriptorCount e)) in Ok (concat l).

(** fields of the structs and the handles among the elements *)
Definition image_view_of (info : list byte) : Z := le_decode (slice 8 8 info).
Definition buffer_info_of (info : list byte) : descriptor_buffer_info :=
  DescriptorBufferInfo (le_decode (slice 0 8 info)) (le_decode (slice 8 8 info)) (le_decode (slice 16 8 info)).

(** the write that an entry stands for *)
Definition entry_write (set : Z) (e : VkDescriptorUpdateTemplateEntry) (data : list byte) : outcome VkWriteDescriptorSet :=
  let write images buffers views pnext :=
    WriteDescriptorSet set (te_dstBinding e) (te_dstArrayElement e) (te_descriptorCount e) (te_descriptorType e) images buffers views pnext in
  match te_descriptorType e with
  | VK_DESCRIPTOR_TYPE_SAMPLER | VK_DESCRIPTOR_TYPE_COMBINED_IMAGE_SAMPLER | VK_DESCRIPTOR_TYPE_SAMPLED_IMAGE
  | VK_DESCRIPTOR_TYPE_STORAGE_IMAGE | VK_DESCRIPTOR_TYPE_INPUT_ATTACHMENT =>
      let* l := template_entry_data e sizeof_VkDescriptorImageInfo data in Ok (write (map image_view_of l) [] [] [])
  | VK_DESCRIPTOR_TYPE_UNIFORM_BUFFER | VK_DESCRIPTOR_TYPE_STORAGE_BUFFER | VK_DESCRIPTOR_TYPE_UNIFORM_BUFFER_DYNAMIC
  | VK_DESCRIPTOR_TYPE_STORAGE_BUFFER_DYNAMIC =>
      let* l := template_entry_data e sizeof_VkDescriptorBufferInfo data in Ok (write [] (map buffer_info_of l) [] [])
  | VK_DESCRIPTOR_TYPE_UNIFORM_TEXEL_BUFFER | VK_DESCRIPTOR_TYPE_STORAGE_TEXEL_BUFFER =>
      let* l := template_entry_data e sizeof_handle data in Ok (write [] [] (map le_decode l) [])
  | VK_DESCRIPTOR_TYPE_INLINE_UNIFORM_BLOCK =>
      let* l := template_entry_bytes e data in Ok (write [] [] [] [WriteInlineUniformBlock (te_descriptorCount e) l])
  | VK_DESCRIPTOR_TYPE_ACCELERATION_STRUCTURE_KHR =>
      let* l := template_entry_data e sizeof_handle data in
      Ok (write [] [] [] [WriteAccelerationStructures (te_descriptorCount e) (map le_decode l)])
  | VK_DESCRIPTOR_TYPE_TENSOR_ARM =>
      let* l := template_entry_data e sizeof_handle data in Ok (write [] [] [] [WriteTensors (te_descriptorCount e) (map le_decode l)])
  | _ => Fail AbortCall
  end.

Fixpoint template_writes (set : Z) (push : option Z) (clear_next : bool) (es : list VkDescriptorUpdateTemplateEntry) (data : list byte)
    (st : bindings) : outcome bindings :=
  match es with
  | [] => Ok st
  | e :: es =>
      let* w := entry_write set e data in
      let* st := handle_VkWriteDescriptorSets [w] clear_next push st in
      template_writes set push false es data st
  end.

Definition handle_descriptor_update_template (descriptorSet : Z) (template_data : option update_template) (pData : option (list byte))
    (push : option Z) (st : bindings) : outcome bindings :=
  match pData with
  | None => Ok st
  | Some data =>
      match template_data with
      | None => Ok st
      | Some t =>
          let set := match push with Some _ => 0 | None => descriptorSet end in
          template_writes set push (match push with Some _ => false | None => true end) (ut_entries t) data st
      end
  end.

(** ** Binding *)

(** the dynamic buffers of a set, each with the next of the dynamic offsets *)
Fixpoint touch_dynamic (commandBuffer : Z) (d : dynamic_map) (pDynamicOffsets : list Z) (dynamic_index : nat) (st : bindings)
    : outcome (nat * bindings) :=
  match d with
  | [] => Ok (dynamic_index, st)
  | (_, info) :: d =>
      if di_buffer info =? 0 then touch_dynamic commandBuffer d pDynamicOffsets (Datatypes.S dynamic_index) st
      else
        let* obj := object_at (VkBuffer_index tb) (di_buffer info) in
        let* dynamic_offset := element pDynamicOffsets dynamic_index in
        let offset := wrap64 (di_offset info + dynamic_offset) in
        let* buffer_size := size_of_object obj in
        let size := if di_range info =? VK_WHOLE_SIZE then wrap64 (buffer_size - offset) else di_range info in
        let* st := cmdbuf_touch commandBuffer obj offset size st in
        touch_dynamic commandBuffer d pDynamicOffsets (Datatypes.S dynamic_index) st
  end.

Definition bind_set (commandBuffer : Z) (pDynamicOffsets : list Z) (set : Z) (dynamic_index : nat) (st : bindings)
    : outcome (nat * bindings) :=
  let* s := object_at (VkDescriptorSet_index st) set in
  let* c := object_at (VkCommandBuffer_index st) commandBuffer in
  let* t := touch_merge (d_touched s) (touched c) in
  let* (dynamic_index, st) := touch_dynamic commandBuffer (dynamic_buffers s) pDynamicOffsets dynamic_index (with_cmdbuf st commandBuffer (with_touched c t)) in
  let* _ := require (Nat.leb dynamic_index (length pDynamicOffsets)) AssertFailed in
  Ok (dynamic_index, st).

Fixpoint bind_sets (commandBuffer : Z) (pDynamicOffsets pDescriptorSets : list Z) (dynamic_index : nat) (st : bindings) : outcome bindings :=
  match pDescriptorSets with
  | [] => Ok st
  | set :: sets =>
      let* (dynamic_index, st) := bind_set commandBuffer pDynamicOffsets set dynamic_index st in
      bind_sets commandBuffer pDynamicOffsets sets dynamic_index st
  end.

(** the length of [pDynamicOffsets] is [dynamicOffsetCount] *)
Definition trace_post_vkCmdBindDescriptorSets (commandBuffer : Z) (pDescriptorSets pDynamicOffsets : list Z) (st : bindings) : outcome bindings :=
  let* _ := at_ (VkCommandBuffer_index st) commandBuffer in
  bind_sets commandBuffer pDynamicOffsets pDescriptorSets 0 st.

Definition VK_SHADER_STAGE_VERTEX_BIT : Z := 1.
Definition VK_SHADER_STAGE_FRAGMENT_BIT : Z := 16.
Definition VK_SHADER_STAGE_COMPUTE_BIT : Z := 32.

Definition trace_post_vkCmdBindDescriptorSets2KHR (commandBuffer stageFlags : Z) (pDescriptorSets pDynamicOffsets : list Z) (st : bindings)
    : outcome bindings :=
  let has bit := negb (Z.land stageFlags bit =? 0) in
  let* st :=
    if has VK_SHADER_STAGE_VERTEX_BIT || has VK_SHADER_STAGE_FRAGMENT_BIT
    then trace_post_vkCmdBindDescriptorSets commandBuffer pDescriptorSets pDynamicOffsets st else Ok st in
  if has VK_SHADER_STAGE_COMPUTE_BIT then trace_post_vkCmdBindDescriptorSets commandBuffer pDescriptorSets pDynamicOffsets st else Ok st.
End Capture.
