(* ===== verification/DescriptorNotes.v ===== *)
(** * The notes of descriptor sets and command buffers are exact

    What the updates, copies and bindings of [DescriptorSets] leave in the notes
    of the capture, as sets of bytes of objects. *)

From Stdlib Require Import ZArith Lia Bool Sorted.
From Stdlib.Strings Require Import Byte.
From stdpp Require Import base numbers list gmap.
From S2P Require Import Prelude RangeTracking Patch Packets Containers Translate Templates Updates HostMemory HostMemoryInv DescriptorSets.

#[local] Open Scope Z_scope.

(** ** Touched bytes, exactly *)

Definition map_ok (t : touched_map) : Prop := forall obj e, (obj, e) ∈ t -> wf e.

Lemma map_ok_nil : map_ok [].
Proof. intros obj e Hin. by apply not_elem_of_nil in Hin. Qed.

Lemma in_touched_nil obj x : ~ in_touched [] obj x.
Proof. intros (e & Hin & _). by apply not_elem_of_nil in Hin. Qed.

Lemma in_touched_cons o e t obj x : in_touched ((o, e) :: t) obj x <-> (obj = o /\ RangeTracking.contents e x) \/ in_touched t obj x.
Proof.
  split.
  - intros (e' & Hin & Hx). apply elem_of_cons in Hin as [[= -> ->]|Hin]; [by left|right; by exists e'].
  - intros [[-> Hx]|(e' & Hin & Hx)]; [exists e; split; [by left|done]|exists e'; split; [by right|done]].
Qed.

Lemma in_touched_snoc t o e obj x : in_touched (t ++ [(o, e)]) obj x <-> in_touched t obj x \/ (obj = o /\ RangeTracking.contents e x).
Proof.
  induction t as [|[o' e'] t IH]; cbn [app]; rewrite !in_touched_cons; [|rewrite IH; tauto].
  split; [intros [?|Hn]; [by right|by apply in_touched_nil in Hn]|intros [Hn|?]; [by apply in_touched_nil in Hn|by left]].
Qed.

(** a function that adds the bytes [P] to an exposure *)
Definition adds_bytes (f : exposure -> outcome exposure) (P : Z -> Prop) : Prop :=
  forall e, wf e -> exists e', f e = Ok e' /\ wf e' /\ forall x, RangeTracking.contents e' x <-> RangeTracking.contents e x \/ P x.

Lemma update_touched_exact f P obj t : adds_bytes f P -> map_ok t ->
  exists t', update_touched t obj f = Ok t' /\ map_ok t' /\ forall o x, in_touched t' o x <-> in_touched t o x \/ (o = obj /\ P x).
Proof.
  intros Hf. induction t as [|[o e] t IH]; intros Ht; cbn [update_touched].
  - assert (He : wf empty_exposure) by by apply wf_sorted.
    destruct (Hf _ He) as (e' & E & Hwf & Hc). rewrite E. exists [(obj, e')]. split; [done|]. split.
    + intros o e Hin. apply list_elem_of_singleton in Hin as [= -> ->]. done.
    + intros o x. rewrite in_touched_cons, Hc. split; [|intros [Hn|[-> Hx]]; [by apply in_touched_nil in Hn|left; auto]].
      intros [[-> [Hn|Hx]]|Hn]; [by apply covers_nil in Hn|by right|by left].
  - destruct (Nat.eqb_spec o obj) as [->|Hne].
    + destruct (Hf e) as (e' & E & Hwf & Hc); [apply (Ht obj); by left|]. rewrite E. exists ((obj, e') :: t). split; [done|]. split.
      * intros o1 e1 Hin. apply elem_of_cons in Hin as [[= -> ->]|Hin]; [done|]. apply (Ht o1). by right.
      * intros o x. rewrite !in_touched_cons, Hc. tauto.
    + destruct IH as (t' & E & Hok & Hc); [intros ? ? ?; eapply Ht; by right|]. rewrite E. exists ((o, e) :: t'). split; [done|]. split.
      * intros o1 e1 Hin. apply elem_of_cons in Hin as [[= -> ->]|Hin]; [apply (Ht o); by left|by apply (Hok o1)].
      * intros o1 x. rewrite !in_touched_cons, Hc. tauto.
Qed.

(** the size of a touch, of which the largest value means all that follows *)
Definition spanned (o : hostobject) (offset size : Z) : Z := if size =? VK_WHOLE_SIZE then wrap64 (h_size o - offset) else size.

(** the touch lies in the object *)
Definition area_inside (o : hostobject) (offset size : Z) : Prop :=
  0 <= offset /\ 0 <= spanned o offset size /\ offset + spanned o offset size <= h_size o /\ h_size o <= INT64_MAX.

(** what the touch adds: nothing for an object that the host cannot reach *)
Definition touches_byte (objects : list hostobject) (obj : nat) (offset size : Z) (x : Z) : Prop :=
  exists o, objects !! obj = Some o /\ h_accessible o = true /\ offset <= x < offset + spanned o offset size.

Lemma touch_exact objects obj o offset size t : objects !! obj = Some o -> area_inside o offset size -> map_ok t ->
  exists t', touch objects obj offset size t = Ok t' /\ map_ok t' /\
    forall ob x, in_touched t' ob x <-> in_touched t ob x \/ (ob = obj /\ touches_byte objects obj offset size x).
Proof.
  intros Ho (H0 & H1 & H2 & H3) Ht. unfold touch, touches_byte. rewrite Ho. destruct (h_accessible o) eqn:Ea; cbn [negb].
  - change (if size =? VK_WHOLE_SIZE then wrap64 (h_size o - offset) else size) with (spanned o offset size).
    destruct (update_touched_exact (fun e => add_os e offset (spanned o offset size)) (fun x => offset <= x < offset + spanned o offset size) obj t)
      as (t' & E & Hok & Hc); [|done|].
    + intros e Hwf. destruct (Z.eq_dec (spanned o offset size) 0) as [->|Hne].
      * exists e. split; [done|]. split; [done|]. intros x. split; [by left|]. intros [?|?]; [done|lia].
      * apply add_os_grows; try done; [lia|u_lia].
    + exists t'. split; [done|]. split; [done|]. intros ob x. rewrite Hc. split; (intros [?|[-> Hx]]; [by left|right; split; [done|]]).
      * by exists o.
      * destruct Hx as (o' & [= <-] & _ & Hx). done.
  - exists t. split; [done|]. split; [done|]. intros ob x. split; [by left|]. intros [?|[-> (o' & [= <-] & Hx & _)]]; [done|congruence].
Qed.

Lemma add_ranges_exact rs : forall lo, 0 <= lo -> RangeTracking.separated lo rs -> adds_bytes (add_ranges rs) (RangeTracking.covers rs).
Proof.
  induction rs as [|r rs IH]; intros lo Hlo Hs e Hwf; cbn [add_ranges].
  - exists e. split; [done|]. split; [done|]. intros x. rewrite covers_nil. tauto.
  - destruct Hs as (H1 & H2 & H3 & Hs). destruct (add_adds e (r_first r) (r_last r) Hwf ltac:(lia) H2 H3) as (e1 & E1 & Hwf1 & Ha).
    rewrite E1. cbn [obind]. destruct (IH (r_last r + 2) ltac:(lia) Hs e1 Hwf1) as (e' & E & Hwf' & Hc).
    exists e'. split; [done|]. split; [done|]. intros x. rewrite Hc, covers_cons. destruct Ha as [_ Ha].
    unfold RangeTracking.contents. rewrite Ha, in_range_split. tauto.
Qed.

Lemma touch_merge_exact other : forall t, map_ok other -> map_ok t ->
  exists t', touch_merge other t = Ok t' /\ map_ok t' /\ forall o x, in_touched t' o x <-> in_touched t o x \/ in_touched other o x.
Proof.
  induction other as [|[obj e] other IH]; intros t Ho Ht; cbn [touch_merge].
  - exists t. split; [done|]. split; [done|]. intros o x. split; [by left|]. intros [?|Hn]; [done|by apply in_touched_nil in Hn].
  - assert (He : wf e) by (apply (Ho obj); by left).
    assert (Hstep : exists t1, (if existsb (fun p => Nat.eqb p.1 obj) t then update_touched t obj (add_ranges (list_ e)) else Ok (t ++ [(obj, e)])) = Ok t1 /\
      map_ok t1 /\ forall o x, in_touched t1 o x <-> in_touched t o x \/ (o = obj /\ RangeTracking.contents e x)).
    { destruct (existsb _ t).
      - apply update_touched_exact; [|done]. apply (add_ranges_exact _ 0); [done|apply He].
      - exists (t ++ [(obj, e)]). split; [done|]. split; [|intros o x; apply in_touched_snoc].
        intros o1 e1 Hin. apply elem_of_app in Hin as [Hin|Hin]; [by apply (Ht o1)|]. apply list_elem_of_singleton in Hin as [= -> ->]. done. }
    destruct Hstep as (t1 & E1 & Hok1 & Hc1). rewrite E1. cbn [obind].
    destruct (IH t1) as (t' & E & Hok & Hc); [intros ? ? ?; eapply Ho; by right|done|].
    exists t'. split; [done|]. split; [done|]. intros o x. rewrite Hc, Hc1, in_touched_cons. tauto.
Qed.

(** ** The abstract state: who has noted which bytes, and the dynamic buffers *)

Record notes := Notes {
  n_set : Z -> nat -> Z -> Prop;          (** set, object, byte *)
  n_cmd : Z -> nat -> Z -> Prop;          (** command buffer, object, byte *)
  n_dyn : Z -> Z -> option descriptor_buffer_info   (** set, slot *)
}.

Definition slots_sorted (d : dynamic_map) : Prop := StronglySorted (fun a b => a.1 < b.1) d.

(** the handles of sets and command buffers that exist *)
Record existing := Existing { ex_sets : gset Z; ex_cmds : gset Z }.

Record refines (ex : existing) (st : bindings) (n : notes) : Prop := {
  rf_set : forall h, h ∈ ex_sets ex -> exists s, VkDescriptorSet_index st !! h = Some (Some s) /\
    map_ok (d_touched s) /\ slots_sorted (dynamic_buffers s) /\
    (forall o x, in_touched (d_touched s) o x <-> n_set n h o x) /\ (forall slot, dynamic_find slot (dynamic_buffers s) = n_dyn n h slot);
  rf_cmd : forall c, c ∈ ex_cmds ex -> exists b, VkCommandBuffer_index st !! c = Some (Some b) /\
    map_ok (touched b) /\ (forall o x, in_touched (touched b) o x <-> n_cmd n c o x)
}.

(** states of notes that say the same *)
Definition same_notes (n m : notes) : Prop :=
  (forall h o x, n_set n h o x <-> n_set m h o x) /\ (forall c o x, n_cmd n c o x <-> n_cmd m c o x) /\
  (forall h slot, n_dyn n h slot = n_dyn m h slot).

#[export] Instance same_notes_equivalence : Equivalence same_notes.
Proof.
  split.
  - intros n. done.
  - intros n m (H1 & H2 & H3). split; [|split]; intros; symmetry; auto.
  - intros n m k (H1 & H2 & H3) (K1 & K2 & K3). split; [|split]; intros; [rewrite H1|rewrite H2|rewrite H3]; auto.
Qed.

#[export] Instance refines_proper : Proper (eq ==> eq ==> same_notes ==> impl) refines.
Proof.
  intros ex ? <- st ? <- n m (H1 & H2 & H3) [R1 R2]. split.
  - intros h Hh. destruct (R1 h Hh) as (s & E & Hok & Hs & Ht & Hd). exists s. split; [done|]. do 2 (split; [done|]).
    split; [intros; rewrite Ht; apply H1|intros; rewrite Hd; apply H3].
  - intros c Hc. destruct (R2 c Hc) as (b & E & Hok & Ht). exists b. split; [done|]. split; [done|]. intros; rewrite Ht; apply H2.
Qed.

Lemma refines_same ex st n m : refines ex st n -> same_notes n m -> refines ex st m.
Proof. intros Hr Hs. by rewrite <- Hs. Qed.

(** more bytes for a set or a command buffer *)
Definition add_set (n : notes) (set : Z) (P : nat -> Z -> Prop) : notes :=
  Notes (fun h o x => n_set n h o x \/ (h = set /\ P o x)) (n_cmd n) (n_dyn n).
Definition add_cmd (n : notes) (commandBuffer : Z) (P : nat -> Z -> Prop) : notes :=
  Notes (n_set n) (fun c o x => n_cmd n c o x \/ (c = commandBuffer /\ P o x)) (n_dyn n).
Definition add_for (push : option Z) (n : notes) (set : Z) (P : nat -> Z -> Prop) : notes :=
  match push with Some commandBuffer => add_cmd n commandBuffer P | None => add_set n set P end.

(** the target of a push or an update exists *)
Definition target_exists (ex : existing) (push : option Z) (set : Z) : Prop :=
  match push with Some commandBuffer => commandBuffer ∈ ex_cmds ex | None => set ∈ ex_sets ex end.

Lemma add_for_twice push n set P Q :
  same_notes (add_for push (add_for push n set P) set Q) (add_for push n set (fun o x => P o x \/ Q o x)).
Proof. destruct push; (split; [|split]); intros; cbn; tauto. Qed.

Lemma add_for_nothing push n set (P : nat -> Z -> Prop) : (forall o x, ~ P o x) -> same_notes n (add_for push n set P).
Proof.
  intros Hn. destruct push; (split; [|split]); intros; cbn; try done; (split; [by left|]); intros [?|[_ Hp]]; try done; by apply Hn in Hp.
Qed.

Lemma add_for_ext push n set P Q : (forall o x, P o x <-> Q o x) -> same_notes (add_for push n set P) (add_for push n set Q).
Proof. intros He. destruct push; (split; [|split]); intros; cbn; rewrite ?He; done. Qed.

(** ** One set or one command buffer at a time *)

Lemma object_at_ok {A} (table : gmap Z (option A)) h a : table !! h = Some (Some a) -> object_at table h = Ok a.
Proof. intros E. unfold object_at, at_. by rewrite E. Qed.

Lemma at_ok {A} (table : gmap Z (option A)) h a : table !! h = Some (Some a) -> at_ table h = Ok (Some a).
Proof. intros E. unfold at_. by rewrite E. Qed.

(** a set that is replaced *)
Lemma refines_with_set ex st n n' set s : refines ex st n -> map_ok (d_touched s) -> slots_sorted (dynamic_buffers s) ->
  (forall o x, in_touched (d_touched s) o x <-> n_set n' set o x) -> (forall slot, dynamic_find slot (dynamic_buffers s) = n_dyn n' set slot) ->
  (forall h o x, h <> set -> n_set n' h o x <-> n_set n h o x) -> (forall h slot, h <> set -> n_dyn n' h slot = n_dyn n h slot) ->
  (forall c o x, n_cmd n' c o x <-> n_cmd n c o x) -> refines ex (with_set st set s) n'.
Proof.
  intros [R1 R2] Hok Hs Ht Hd Ho1 Ho2 Hc. split.
  - intros h Hh. cbn [VkDescriptorSet_index with_set]. destruct (decide (h = set)) as [->|Hne].
    + rewrite lookup_insert_eq. exists s. done.
    + rewrite lookup_insert_ne by done. destruct (R1 h Hh) as (s1 & E & Hok1 & Hs1 & Ht1 & Hd1). exists s1. split; [done|]. do 2 (split; [done|]).
      split; [intros; rewrite Ht1, Ho1 by done; done|intros; rewrite Hd1, Ho2 by done; done].
  - intros c Hcc. destruct (R2 c Hcc) as (b & E & Hok1 & Ht1). exists b. split; [done|]. split; [done|]. intros. rewrite Ht1, Hc. done.
Qed.

Lemma refines_with_cmdbuf ex st n commandBuffer b P : refines ex st n -> map_ok (touched b) ->
  (forall o x, in_touched (touched b) o x <-> n_cmd n commandBuffer o x \/ P o x) ->
  refines ex (with_cmdbuf st commandBuffer b) (add_cmd n commandBuffer P).
Proof.
  intros [R1 R2] Hok Ht. split; [exact R1|]. intros c Hc. cbn [VkCommandBuffer_index with_cmdbuf]. destruct (decide (c = commandBuffer)) as [->|Hne].
  - rewrite lookup_insert_eq. exists b. split; [done|]. split; [done|]. intros o x. rewrite Ht. cbn. tauto.
  - rewrite lookup_insert_ne by done. destruct (R2 c Hc) as (b1 & E & Hok1 & Ht1). exists b1. split; [done|]. split; [done|].
    intros o x. rewrite Ht1. cbn. split; [by left|]. intros [?|[? _]]; done.
Qed.

(** ** The slots of dynamic buffers *)

Lemma dynamic_find_set k v d slot : dynamic_find slot (dynamic_set k v d) = if slot =? k then Some v else dynamic_find slot d.
Proof.
  unfold dynamic_find. induction d as [|[k' v'] d IH]; cbn [dynamic_set List.find fst].
  - rewrite (Z.eqb_sym slot k). by destruct (k =? slot).
  - destruct (k <? k') eqn:E1; [|destruct (k' =? k) eqn:E2]; cbn [List.find fst].
    + rewrite (Z.eqb_sym slot k). by destruct (k =? slot).
    + apply Z.eqb_eq in E2 as ->. rewrite (Z.eqb_sym slot k). by destruct (k =? slot).
    + destruct (k' =? slot) eqn:E3; [|exact IH]. apply Z.eqb_eq in E3 as <-. by rewrite E2.
Qed.

Lemma dynamic_find_erase k d slot : dynamic_find slot (dynamic_erase k d) = if slot =? k then None else dynamic_find slot d.
Proof.
  unfold dynamic_find, dynamic_erase. induction d as [|[k' v'] d IH]; cbn [List.filter List.find fst]; [by destruct (slot =? k)|].
  destruct (k' =? k) eqn:E2; cbn [negb List.find fst].
  - rewrite IH. apply Z.eqb_eq in E2 as ->. destruct (slot =? k) eqn:E; [done|]. rewrite Z.eqb_sym in E. by rewrite E.
  - destruct (k' =? slot) eqn:E3; [|exact IH]. apply Z.eqb_eq in E3 as <-. by rewrite E2.
Qed.

Lemma dynamic_set_sorted k v d : slots_sorted d -> slots_sorted (dynamic_set k v d).
Proof.
  unfold slots_sorted. induction d as [|[k' v'] d IH]; intros Hs; cbn [dynamic_set fst]; [repeat constructor|].
  apply StronglySorted_inv in Hs as Hs'. destruct Hs' as [Hs1 Hs2].
  destruct (k <? k') eqn:E1; [|destruct (k' =? k) eqn:E2]; bool_to_prop.
  - constructor; [done|]. constructor; [done|]. apply (Forall_impl _ _ _ Hs2). cbn. lia.
  - constructor; [done|]. apply (Forall_impl _ _ _ Hs2). cbn. lia.
  - constructor; [by apply IH|]. assert (Hlt : k' < k) by lia. clear -Hs2 Hlt. induction d as [|[k1 v1] d IH]; cbn [dynamic_set fst]; [by repeat constructor|].
    apply Forall_cons in Hs2 as [Hh Ht]. destruct (k <? k1); [by repeat constructor|]. destruct (k1 =? k); [by repeat constructor|].
    constructor; [done|]. by apply IH.
Qed.

Lemma dynamic_erase_sorted k d : slots_sorted d -> slots_sorted (dynamic_erase k d).
Proof.
  unfold slots_sorted, dynamic_erase. induction 1 as [|p d Hs IH Hf]; cbn [List.filter]; [constructor|].
  destruct (negb (p.1 =? k)); [|done]. constructor; [done|]. rewrite Forall_forall in Hf |- *. intros q Hq. apply Hf.
  apply list_elem_of_In in Hq. apply list_elem_of_In. by apply List.filter_In in Hq as [Hq _].
Qed.

(** a sorted map is determined by what it finds *)
Lemma dynamic_find_head k v d : dynamic_find k ((k, v) :: d) = Some v.
Proof. unfold dynamic_find. cbn [List.find fst]. by rewrite Z.eqb_refl. Qed.

Lemma dynamic_find_below k d : Forall (fun p => k < p.1) d -> dynamic_find k d = None.
Proof.
  unfold dynamic_find. induction 1 as [|p d Hp Hf IH]; [done|]. cbn [List.find]. rewrite (proj2 (Z.eqb_neq p.1 k)) by lia. exact IH.
Qed.

Lemma dynamic_find_unique d : forall d', slots_sorted d -> slots_sorted d' -> (forall slot, dynamic_find slot d = dynamic_find slot d') -> d = d'.
Proof.
  induction d as [|[k v] d IH]; intros d' Hs Hs' Hf.
  - destruct d' as [|[k' v'] d']; [done|]. specialize (Hf k'). by rewrite dynamic_find_head in Hf.
  - destruct d' as [|[k' v'] d']; [specialize (Hf k); by rewrite dynamic_find_head in Hf|].
    apply StronglySorted_inv in Hs as [Hs1 Hs2]. apply StronglySorted_inv in Hs' as [Hs1' Hs2'].
    assert (Hk : k = k').
    { destruct (Z.lt_trichotomy k k') as [Hlt|[?|Hlt]]; [|done|].
      - specialize (Hf k). rewrite dynamic_find_head, dynamic_find_below in Hf; [done|]. constructor; [done|]. apply (Forall_impl _ _ _ Hs2'). cbn. lia.
      - specialize (Hf k'). rewrite dynamic_find_head, dynamic_find_below in Hf; [done|]. constructor; [done|]. apply (Forall_impl _ _ _ Hs2). cbn. lia. }
    subst k'. pose proof (Hf k) as Hv. rewrite !dynamic_find_head in Hv. injection Hv as ->. f_equal. apply IH; [done|done|].
    intros slot. destruct (Z.eq_dec slot k) as [->|Hne]; [by rewrite !dynamic_find_below|].
    specialize (Hf slot). unfold dynamic_find in Hf |- *. cbn [List.find fst] in Hf. by rewrite (proj2 (Z.eqb_neq k slot)) in Hf by done.
Qed.

(** later assignments win *)
Definition set_slot (D : Z -> option descriptor_buffer_info) (p : Z * option descriptor_buffer_info) : Z -> option descriptor_buffer_info :=
  fun slot => if slot =? p.1 then p.2 else D slot.
Definition set_slots (D : Z -> option descriptor_buffer_info) (ps : list (Z * option descriptor_buffer_info)) : Z -> option descriptor_buffer_info :=
  foldl set_slot D ps.

Section Spec.
Context (objects : list hostobject) (tb : tables) (ex : existing).

(** ** Touches *)

Lemma touch_for_refines push set obj o offset size st n : refines ex st n -> target_exists ex push set ->
  objects !! obj = Some o -> area_inside o offset size ->
  exists st', touch_for objects push set obj offset size st = Ok st' /\
    refines ex st' (add_for push n set (fun ob x => ob = obj /\ touches_byte objects obj offset size x)).
Proof.
  intros Hr Hex Ho Ha. destruct push as [c|]; cbn [target_exists touch_for add_for] in *.
  - destruct (rf_cmd _ _ _ Hr c Hex) as (b & E & Hok & Ht). unfold cmdbuf_touch. rewrite (object_at_ok _ _ _ E). cbn [obind].
    destruct (touch_exact objects obj o offset size (touched b) Ho Ha Hok) as (t' & -> & Hok' & Hc). cbn [obind].
    eexists. split; [done|]. apply refines_with_cmdbuf; [done|done|]. intros ob x. cbn [touched with_touched]. rewrite Hc, Ht. done.
  - destruct (rf_set _ _ _ Hr set Hex) as (s & E & Hok & Hs & Ht & Hd). unfold set_touch. rewrite (object_at_ok _ _ _ E). cbn [obind].
    destruct (touch_exact objects obj o offset size (d_touched s) Ho Ha Hok) as (t' & -> & Hok' & Hc). cbn [obind].
    eexists. split; [done|]. apply (refines_with_set _ _ n); cbn [d_touched dynamic_buffers with_d_touched n_set n_cmd n_dyn add_set]; try done.
    + intros ob x. rewrite Hc, Ht. tauto.
    + intros h ob x Hne. split; [intros [?|[? _]]; done|by left].
Qed.
(** ** The bytes that a descriptor names *)

Definition area : Type := option (nat * Z * Z).   (** object, offset and size *)

Definition image_area (view : Z) : outcome area :=
  if view =? 0 then Ok None
  else
    let* image := object_at (VkImageView_index tb) view in
    let* obj := object_at (VkImage_index tb) image in
    let* size := size_of_object objects obj in
    Ok (Some (obj, 0, size)).
Definition buffer_area (info : descriptor_buffer_info) : outcome area :=
  if di_buffer info =? 0 then Ok None
  else
    let* obj := object_at (VkBuffer_index tb) (di_buffer info) in
    let* buffer_size := size_of_object objects obj in
    Ok (Some (obj, di_offset info, if di_range info =? VK_WHOLE_SIZE then wrap64 (buffer_size - di_offset info) else di_range info)).
Definition texel_area (view : Z) : outcome area :=
  if view =? 0 then Ok None
  else
    let* v := object_at (VkBufferView_index tb) view in
    let* obj := object_at (VkBuffer_index tb) (bv_buffer v) in
    Ok (Some (obj, bv_offset v, bv_range v)).
Definition tensor_area (view : Z) : outcome area :=
  if view =? 0 then Ok None
  else
    let* tensor := object_at (VkTensorViewARM_index tb) view in
    let* obj := object_at (VkTensorARM_index tb) tensor in
    let* size := size_of_object objects obj in
    Ok (Some (obj, 0, size)).

(** of the descriptors of a write, other than dynamic buffers *)
Definition descriptor_area (w : VkWriteDescriptorSet) (j : nat) : outcome area :=
  match descriptorType w with
  | VK_DESCRIPTOR_TYPE_SAMPLER | VK_DESCRIPTOR_TYPE_COMBINED_IMAGE_SAMPLER | VK_DESCRIPTOR_TYPE_SAMPLED_IMAGE
  | VK_DESCRIPTOR_TYPE_STORAGE_IMAGE | VK_DESCRIPTOR_TYPE_INPUT_ATTACHMENT => let* view := element (pImageInfo w) j in image_area view
  | VK_DESCRIPTOR_TYPE_UNIFORM_BUFFER | VK_DESCRIPTOR_TYPE_STORAGE_BUFFER => let* info := element (pBufferInfo w) j in buffer_area info
  | VK_DESCRIPTOR_TYPE_UNIFORM_TEXEL_BUFFER | VK_DESCRIPTOR_TYPE_STORAGE_TEXEL_BUFFER =>
      let* view := element (pTexelBufferView w) j in texel_area view
  | VK_DESCRIPTOR_TYPE_TENSOR_ARM =>
      match find_tensors w with Some (_, views) => let* view := element views j in tensor_area view | None => Ok None end
  | _ => Ok None
  end.

Definition area_ok (a : area) : Prop :=
  match a with None => True | Some (obj, offset, size) => exists o, objects !! obj = Some o /\ area_inside o offset size end.

Definition area_byte (a : outcome area) (o : nat) (x : Z) : Prop :=
  exists offset size, a = Ok (Some (o, offset, size)) /\ touches_byte objects o offset size x.

Definition touch_area (push : option Z) (set : Z) (a : area) (st : bindings) : outcome bindings :=
  match a with None => Ok st | Some (obj, offset, size) => touch_for objects push set obj offset size st end.

Lemma touch_area_refines push set a st n : refines ex st n -> target_exists ex push set -> area_ok a ->
  exists st', touch_area push set a st = Ok st' /\ refines ex st' (add_for push n set (area_byte (Ok a))).
Proof.
  intros Hr Hex Ha. destruct a as [[[obj offset] size]|]; cbn [touch_area].
  - destruct Ha as (o & Ho & Ha). destruct (touch_for_refines push set obj o offset size st n Hr Hex Ho Ha) as (st' & E & Hr').
    exists st'. split; [done|]. apply (refines_same _ _ _ _ Hr'), add_for_ext. intros ob x. unfold area_byte.
    split; [intros [-> Hx]; by exists offset, size|]. by intros (? & ? & [= -> -> ->] & Hx).
  - exists st. split; [done|]. apply (refines_same _ _ _ _ Hr), add_for_nothing. by intros o x (? & ? & ? & _).
Qed.

(** a loop that touches the area of each descriptor *)
Lemma for_each_areas body areas push set count : forall k st n,
  (forall j st, body j st = let* a := areas j in touch_area push set a st) -> refines ex st n -> target_exists ex push set ->
  (forall j, (k <= j < k + count)%nat -> exists a, areas j = Ok a /\ area_ok a) ->
  exists st', for_each k count body st = Ok st' /\
    refines ex st' (add_for push n set (fun o x => exists j, (k <= j < k + count)%nat /\ area_byte (areas j) o x)).
Proof.
  induction count as [|count IH]; intros k st n Hbody Hr Hex Ha; cbn [for_each].
  - exists st. split; [done|]. apply (refines_same _ _ _ _ Hr), add_for_nothing. intros o x (j & Hj & _). lia.
  - destruct (Ha k ltac:(lia)) as (a & Ea & Hok). rewrite Hbody, Ea. cbn [obind].
    destruct (touch_area_refines push set a st n Hr Hex Hok) as (st1 & -> & Hr1). cbn [obind].
    destruct (IH (Datatypes.S k) st1 _ Hbody Hr1 Hex) as (st' & E & Hr'); [intros j Hj; apply Ha; lia|].
    exists st'. split; [done|]. apply (refines_same _ _ _ _ Hr'). rewrite add_for_twice. apply add_for_ext. intros o x. rewrite <- Ea. split.
    + intros [Hx|(j & Hj & Hx)]; [exists k|exists j]; (split; [lia|done]).
    + intros (j & Hj & Hx). destruct (decide (j = k)) as [->|Hne]; [by left|]. right. exists j. split; [lia|done].
Qed.

(** the loops of the code are of this kind *)
Ltac area_body := intros; unfold write_image, write_buffer, write_texel, touch_tensor_descriptor, image_area, buffer_area, texel_area, tensor_area;
  repeat match goal with
  | |- context [element ?l ?j] => destruct (element l j); cbn [obind touch_area]; try done
  | |- context [object_at ?t ?h] => destruct (object_at t h); cbn [obind touch_area]; try done
  | |- context [size_of_object ?l ?o] => destruct (size_of_object l o); cbn [obind touch_area]; try done
  | |- context [if ?b then _ else _] => destruct b; cbn [obind touch_area]; try done
  end.

Lemma write_image_area push w j st :
  write_image objects tb push w j st = let* a := (let* view := element (pImageInfo w) j in image_area view) in touch_area push (dstSet w) a st.
Proof.
  area_body.
Qed.

Lemma write_buffer_area push w j st :
  write_buffer objects tb push w j st = let* a := (let* info := element (pBufferInfo w) j in buffer_area info) in touch_area push (dstSet w) a st.
Proof.
  area_body.
Qed.

Lemma write_texel_area push w j st :
  write_texel objects tb push w j st = let* a := (let* view := element (pTexelBufferView w) j in texel_area view) in touch_area push (dstSet w) a st.
Proof.
  area_body.
Qed.

Lemma write_tensor_area push set views j st :
  (let* view := element views j in touch_tensor_descriptor objects tb push set view st) =
  let* a := (let* view := element views j in tensor_area view) in touch_area push set a st.
Proof.
  area_body.
Qed.
(** ** One write *)

Fixpoint dynamic_from (w : VkWriteDescriptorSet) (k count : nat) : list (Z * option descriptor_buffer_info) :=
  match count with
  | O => []
  | Datatypes.S count =>
      (descriptor_dynamic_slot (dstBinding w) (wrap32 (dstArrayElement w + Z.of_nat k)), pBufferInfo w !! k) :: dynamic_from w (Datatypes.S k) count
  end.

(** the slots that a write gives a dynamic buffer *)
Definition dynamic_writes (w : VkWriteDescriptorSet) : list (Z * option descriptor_buffer_info) :=
  match descriptorType w with
  | VK_DESCRIPTOR_TYPE_UNIFORM_BUFFER_DYNAMIC | VK_DESCRIPTOR_TYPE_STORAGE_BUFFER_DYNAMIC => dynamic_from w 0 (Z.to_nat (descriptorCount w))
  | _ => []
  end.

(** the bytes that a write names *)
Definition write_names (w : VkWriteDescriptorSet) (o : nat) (x : Z) : Prop :=
  exists j, (j < Z.to_nat (descriptorCount w))%nat /\ area_byte (descriptor_area w j) o x.

(** a write of a supported type whose arrays, views and objects exist *)
Definition write_valid (w : VkWriteDescriptorSet) : Prop :=
  match descriptorType w with
  | VK_DESCRIPTOR_TYPE_INLINE_UNIFORM_BLOCK => exists b, find_inline w = Some b
  | VK_DESCRIPTOR_TYPE_ACCELERATION_STRUCTURE_KHR => exists l, find_structures w = Some (descriptorCount w, l)
  | VK_DESCRIPTOR_TYPE_TENSOR_ARM => exists l, find_tensors w = Some (descriptorCount w, l)
  | VK_DESCRIPTOR_TYPE_UNIFORM_BUFFER_DYNAMIC | VK_DESCRIPTOR_TYPE_STORAGE_BUFFER_DYNAMIC =>
      (Z.to_nat (descriptorCount w) <= length (pBufferInfo w))%nat
  | VK_DESCRIPTOR_TYPE_PARTITIONED_ACCELERATION_STRUCTURE_NV | VK_DESCRIPTOR_TYPE_MUTABLE_EXT | VK_DESCRIPTOR_TYPE_BLOCK_MATCH_IMAGE_QCOM
  | VK_DESCRIPTOR_TYPE_SAMPLE_WEIGHT_IMAGE_QCOM | VK_DESCRIPTOR_TYPE_ACCELERATION_STRUCTURE_NV | VK_DESCRIPTOR_TYPE_MAX_ENUM => False
  | _ => True
  end /\
  forall j, (j < Z.to_nat (descriptorCount w))%nat -> exists a, descriptor_area w j = Ok a /\ area_ok a.

Definition assign_slots (n : notes) (set : Z) (ps : list (Z * option descriptor_buffer_info)) : notes :=
  Notes (n_set n) (n_cmd n) (fun h => if decide (h = set) then set_slots (n_dyn n h) ps else n_dyn n h).

Definition spec_write (push : option Z) (w : VkWriteDescriptorSet) (n : notes) : notes :=
  let n := add_for push n (dstSet w) (write_names w) in
  match push with Some _ => n | None => assign_slots n (dstSet w) (dynamic_writes w) end.

Lemma dynamic_refines w count : forall k st n, refines ex st n -> dstSet w ∈ ex_sets ex -> (k + count <= length (pBufferInfo w))%nat ->
  exists st', for_each k count (write_dynamic None w) st = Ok st' /\ refines ex st' (assign_slots n (dstSet w) (dynamic_from w k count)).
Proof.
  induction count as [|count IH]; intros k st n Hr Hex Hl; cbn [for_each dynamic_from].
  - exists st. split; [done|]. apply (refines_same _ _ _ _ Hr). split; [done|]. split; [done|]. intros h slot. cbn. by destruct (decide _).
  - destruct (rf_set _ _ _ Hr _ Hex) as (s & E & Hok & Hs & Ht & Hd). unfold write_dynamic at 1. rewrite (object_at_ok _ _ _ E). cbn [obind].
    destruct (lookup_lt_is_Some_2 (pBufferInfo w) k ltac:(lia)) as [info Ei]. unfold element. rewrite Ei. cbn [obind].
    set (slot := descriptor_dynamic_slot _ _). set (s' := with_dynamic s _).
    destruct (IH (Datatypes.S k) (with_set st (dstSet w) s') (assign_slots n (dstSet w) [(slot, Some info)])) as (st' & E' & Hr'); [|done|lia|].
    + apply (refines_with_set _ _ n); unfold s'; cbn [d_touched dynamic_buffers with_dynamic n_set n_cmd n_dyn assign_slots]; try done.
      * by apply dynamic_set_sorted.
      * intros sl. rewrite decide_True by done. rewrite dynamic_find_set. cbn. by rewrite Hd.
      * intros h sl Hne. by rewrite decide_False by done.
    + exists st'. split; [done|]. apply (refines_same _ _ _ _ Hr'). split; [done|]. split; [done|]. intros h sl. cbn. by destruct (decide _).
Qed.

Lemma for_each_id {S} count (body : nat -> S -> outcome S) : (forall j st, body j st = Ok st) -> forall k st, for_each k count body st = Ok st.
Proof. intros Hb. induction count as [|count IH]; intros k st; [done|]. cbn [for_each]. rewrite Hb. apply IH. Qed.

Lemma add_for_dynamic (push : option Z) n set ps : ps = [] -> same_notes n (match push with Some _ => n | None => assign_slots n set ps end).
Proof. intros ->. destruct push; [done|]. split; [done|]. split; [done|]. intros h sl. cbn. by destruct (decide _). Qed.

Lemma write_refines push w st n : refines ex st n -> target_exists ex push (dstSet w) -> write_valid w ->
  exists st', write_descriptors objects tb push w st = Ok st' /\ refines ex st' (spec_write push w n).
Proof.
  intros Hr Hex [Hty Ha]. unfold write_descriptors, spec_write.
  assert (Hat : exists p : option descriptorset, match push with Some _ => Ok (@None descriptorset) | None => at_ (VkDescriptorSet_index st) (dstSet w) end = Ok p).
  { destruct push; [by exists None|]. destruct (rf_set _ _ _ Hr _ Hex) as (s & E & _). exists (Some s). by apply at_ok. }
  destruct Hat as [p Hat]. rewrite Hat. cbn [obind]. clear Hat p.
  assert (Hareas : forall body, dynamic_writes w = [] -> (forall j st, body j st = let* a := descriptor_area w j in touch_area push (dstSet w) a st) ->
    exists st', for_each 0 (Z.to_nat (descriptorCount w)) body st = Ok st' /\
      refines ex st' (match push with Some _ => add_for push n (dstSet w) (write_names w) | None => assign_slots (add_for push n (dstSet w) (write_names w)) (dstSet w) (dynamic_writes w) end)).
  { intros body Hd Hbody. destruct (for_each_areas body (descriptor_area w) push (dstSet w) (Z.to_nat (descriptorCount w)) 0 st n Hbody Hr Hex) as (st' & E & Hr').
    - intros j Hj. apply Ha. lia.
    - exists st'. split; [done|]. apply (refines_same _ _ _ _ Hr'). rewrite <- add_for_dynamic by done. apply add_for_ext.
      intros o x. unfold write_names. split; intros (j & Hj & Hx); exists j; (split; [lia|done]). }
  assert (Hnone : dynamic_writes w = [] -> (forall o x, ~ write_names w o x) -> refines ex st
    (match push with Some _ => add_for push n (dstSet w) (write_names w) | None => assign_slots (add_for push n (dstSet w) (write_names w)) (dstSet w) (dynamic_writes w) end)).
  { intros Hd Hn. apply (refines_same _ _ _ _ Hr). rewrite <- add_for_dynamic by done. by apply add_for_nothing. }
  assert (Hadd : (forall o x, ~ write_names w o x) -> refines ex st (add_for push n (dstSet w) (write_names w))).
  { intros Hn. apply (refines_same _ _ _ _ Hr). by apply add_for_nothing. }
  unfold dynamic_writes in *. unfold write_names, descriptor_area in Hareas, Hnone, Hadd |- *. unfold descriptor_area in Ha.
  destruct (descriptorType w) eqn:Et; try done; cbn [dynamic_writes].
  all: try (apply Hareas; [done|]; intros j st0; first [apply write_image_area|apply write_buffer_area|apply write_texel_area]).
  all: try (destruct Hty as [b Hb]; rewrite Hb; try rewrite Z.eqb_refl; cbn [require obind]; first
    [exists st; split; [done|]; apply Hnone; [done|]; by intros o x (j & _ & ? & ? & ? & _)
    |rewrite Hb in *; apply Hareas; [done|]; intros j st0; apply write_tensor_area]).
  all: specialize (Hadd ltac:(by intros o x (j & _ & ? & ? & ? & _))); clear Hareas Hnone; destruct push as [c|].
  all: first [exists st; split; [by apply for_each_id|exact Hadd]|apply dynamic_refines; done].
Qed.
(** ** Updates *)

Definition spec_clear (set : Z) (n : notes) : notes :=
  Notes (fun h o x => h <> set /\ n_set n h o x) (n_cmd n) (n_dyn n).

Lemma clear_refines w st n : refines ex st n -> dstSet w ∈ ex_sets ex ->
  exists st', clear_set true None w st = Ok st' /\ refines ex st' (spec_clear (dstSet w) n).
Proof.
  intros Hr Hex. destruct (rf_set _ _ _ Hr _ Hex) as (s & E & Hok & Hs & Ht & Hd). unfold clear_set. rewrite (at_ok _ _ _ E). cbn [obind deref].
  eexists. split; [done|]. apply (refines_with_set _ _ n); cbn [d_touched dynamic_buffers with_d_touched n_set n_cmd n_dyn spec_clear]; try done.
  - apply map_ok_nil.
  - intros o x. split; [intros Hn; by apply in_touched_nil in Hn|by intros []].
  - intros h o x Hne. tauto.
Qed.

(** a pass over the writes of a call *)
Lemma all_writes_refines body spec ws : (forall w st n, w ∈ ws -> refines ex st n -> exists st', body w st = Ok st' /\ refines ex st' (spec w n)) ->
  forall st n, refines ex st n -> exists st', all_writes body ws st = Ok st' /\ refines ex st' (foldl (fun n w => spec w n) n ws).
Proof.
  induction ws as [|w ws IH]; intros Hb st n Hr; cbn [all_writes foldl]; [by exists st|].
  destruct (Hb w st n) as (st1 & -> & Hr1); [by left|done|]. cbn [obind]. apply IH; [|done]. intros w' st' n' Hin. apply Hb. by right.
Qed.

(** all slots that the writes of a call give to a set *)
Definition dynamics_of (ws : list VkWriteDescriptorSet) (h : Z) : list (Z * option descriptor_buffer_info) :=
  concat (map (fun w => if decide (h = dstSet w) then dynamic_writes w else []) ws).

(** a call that updates sets renews the notes of every set it writes to; one that
    pushes descriptors adds to the command buffer *)
Definition spec_update (ws : list VkWriteDescriptorSet) (n : notes) : notes :=
  Notes (fun h o x => (Forall (fun w => dstSet w <> h) ws /\ n_set n h o x) \/ Exists (fun w => dstSet w = h /\ write_names w o x) ws)
    (n_cmd n) (fun h => set_slots (n_dyn n h) (dynamics_of ws h)).
Definition spec_push (commandBuffer : Z) (ws : list VkWriteDescriptorSet) (n : notes) : notes :=
  add_cmd n commandBuffer (fun o x => Exists (fun w => write_names w o x) ws).

Lemma clears_notes ws : forall n, same_notes (foldl (fun n w => spec_clear (dstSet w) n) n ws)
  (Notes (fun h o x => Forall (fun w => dstSet w <> h) ws /\ n_set n h o x) (n_cmd n) (n_dyn n)).
Proof.
  induction ws as [|w ws IH]; intros n; cbn [foldl].
  - split; [|split]; intros; cbn; try done. split; [intros ?; by split; [constructor|]|by intros []].
  - rewrite IH. split; [|split]; intros; cbn; try done. rewrite Forall_cons. split; [intros (? & ? & ?)|intros ((? & ?) & ?)]; repeat split; auto.
Qed.

Lemma writes_notes ws : forall n, same_notes (foldl (fun n w => spec_write None w n) n ws)
  (Notes (fun h o x => n_set n h o x \/ Exists (fun w => dstSet w = h /\ write_names w o x) ws) (n_cmd n) (fun h => set_slots (n_dyn n h) (dynamics_of ws h))).
Proof.
  induction ws as [|w ws IH]; intros n; cbn [foldl].
  - split; [|split]; intros; cbn; try done. rewrite Exists_nil. tauto.
  - rewrite IH. split; [|split]; [intros h o x|done|intros h slot]; cbn.
    + rewrite Exists_cons. split; [intros [[?|[-> ?]]|?]; auto|intros [?|[[<- ?]|?]]; auto].
    + change (dynamics_of (w :: ws) h) with ((if decide (h = dstSet w) then dynamic_writes w else []) ++ dynamics_of ws h).
      unfold set_slots. rewrite foldl_app. by destruct (decide (h = dstSet w)).
Qed.

Lemma pushes_notes c ws : forall n, same_notes (foldl (fun n w => spec_write (Some c) w n) n ws) (spec_push c ws n).
Proof.
  induction ws as [|w ws IH]; intros n; cbn [foldl].
  - split; [|split]; intros; cbn; try done. rewrite Exists_nil. tauto.
  - rewrite IH. split; [|split]; [done|intros c' o x|done]; cbn. rewrite Exists_cons. tauto.
Qed.

Lemma update_refines ws st n : refines ex st n -> Forall (fun w => dstSet w ∈ ex_sets ex /\ write_valid w) ws ->
  exists st', handle_VkWriteDescriptorSets objects tb ws true None st = Ok st' /\ refines ex st' (spec_update ws n).
Proof.
  intros Hr Hw. rewrite Forall_forall in Hw. unfold handle_VkWriteDescriptorSets. cbn [obind].
  destruct (all_writes_refines (clear_set true None) (fun w => spec_clear (dstSet w)) ws) with (st := st) (n := n) as (st1 & -> & Hr1); [|done|].
  { intros w st0 n0 Hin Hr0. apply clear_refines; [done|]. by apply Hw. }
  cbn [obind]. destruct (all_writes_refines (write_descriptors objects tb None) (spec_write None) ws) with (1 := fun w st n Hin Hr => write_refines None w st n Hr (proj1 (Hw w Hin)) (proj2 (Hw w Hin)))
    (2 := Hr1) as (st' & E & Hr').
  exists st'. split; [done|]. apply (refines_same _ _ _ _ Hr'). rewrite writes_notes.
  destruct (clears_notes ws n) as (C1 & C2 & C3). split; [|split]; [intros h o x|intros c o x|intros h slot]; cbn.
  - by rewrite C1.
  - apply C2.
  - unfold set_slots. assert (Heq : forall (ps : list (Z * option descriptor_buffer_info)) D D', (forall sl, D sl = D' sl) -> foldl set_slot D ps slot = foldl set_slot D' ps slot).
    { induction ps as [|p ps IH]; intros D D' He; cbn [foldl]; [done|]. apply IH. intros sl. unfold set_slot. by destruct (sl =? p.1). }
    apply Heq. intros sl. apply C3.
Qed.

Lemma push_refines c ws st n : refines ex st n -> c ∈ ex_cmds ex -> Forall write_valid ws ->
  exists st', trace_post_vkCmdPushDescriptorSet objects tb c ws st = Ok st' /\ refines ex st' (spec_push c ws n).
Proof.
  intros Hr Hex Hw. rewrite Forall_forall in Hw. unfold trace_post_vkCmdPushDescriptorSet, handle_VkWriteDescriptorSets.
  destruct (rf_cmd _ _ _ Hr c Hex) as (b & E & _). rewrite (at_ok _ _ _ E). cbn [obind].
  assert (Hid : forall ws st, all_writes (clear_set false (Some c)) ws st = Ok st) by (clear; induction ws as [|w ws IH]; intros st; [done|apply IH]).
  rewrite Hid. cbn [obind].
  destruct (all_writes_refines (write_descriptors objects tb (Some c)) (spec_write (Some c)) ws) with (1 := fun w st n Hin Hr => write_refines (Some c) w st n Hr Hex (Hw w Hin))
    (2 := Hr) as (st' & E' & Hr').
  exists st'. split; [done|]. apply (refines_same _ _ _ _ Hr'). apply pushes_notes.
Qed.
(** ** Copies *)

Definition src_slot (c : VkCopyDescriptorSet) (j : nat) : Z := descriptor_dynamic_slot (srcBinding c) (wrap32 (srcArrayElement c + Z.of_nat j)).
Definition dst_slot (c : VkCopyDescriptorSet) (j : nat) : Z := descriptor_dynamic_slot (cp_dstBinding c) (wrap32 (cp_dstArrayElement c + Z.of_nat j)).

Definition spec_copy_slot (c : VkCopyDescriptorSet) (n : notes) (j : nat) : notes :=
  assign_slots n (cp_dstSet c) [(dst_slot c j, n_dyn n (srcSet c) (src_slot c j))].

(** the target has noted what the source has, and takes its slots one by one *)
Definition spec_copy (n : notes) (c : VkCopyDescriptorSet) : notes :=
  foldl (spec_copy_slot c) (add_set n (cp_dstSet c) (n_set n (srcSet c))) (seq 0 (Z.to_nat (cp_descriptorCount c))).

Lemma copy_dynamic_refines c j st n : refines ex st n -> srcSet c ∈ ex_sets ex -> cp_dstSet c ∈ ex_sets ex ->
  exists st', copy_dynamic c j st = Ok st' /\ refines ex st' (spec_copy_slot c n j).
Proof.
  intros Hr Hsrc Hdst. destruct (rf_set _ _ _ Hr _ Hsrc) as (s & E & _ & _ & _ & Hd). destruct (rf_set _ _ _ Hr _ Hdst) as (s' & E' & Hok' & Hs' & Ht' & Hd').
  unfold copy_dynamic. rewrite (object_at_ok _ _ _ E), (object_at_ok _ _ _ E'). cbn [obind]. eexists. split; [done|].
  fold (src_slot c j) (dst_slot c j). apply (refines_with_set _ _ n); cbn [d_touched dynamic_buffers with_dynamic n_set n_cmd n_dyn spec_copy_slot assign_slots]; try done.
  - destruct (dynamic_find _ _); [by apply dynamic_set_sorted|by apply dynamic_erase_sorted].
  - intros slot. rewrite decide_True by done. cbn. unfold set_slot. cbn [fst snd]. rewrite <- Hd, <- Hd'.
    destruct (dynamic_find (src_slot c j) _); [apply dynamic_find_set|apply dynamic_find_erase].
  - intros h slot Hne. by rewrite decide_False by done.
Qed.

Lemma for_each_copy c count : forall k st n, refines ex st n -> srcSet c ∈ ex_sets ex -> cp_dstSet c ∈ ex_sets ex ->
  exists st', for_each k count (copy_dynamic c) st = Ok st' /\ refines ex st' (foldl (spec_copy_slot c) n (seq k count)).
Proof.
  induction count as [|count IH]; intros k st n Hr Hsrc Hdst; cbn [for_each seq foldl]; [by exists st|].
  destruct (copy_dynamic_refines c k st n Hr Hsrc Hdst) as (st1 & -> & Hr1). cbn [obind]. by apply IH.
Qed.

Lemma copy_refines c st n : refines ex st n -> srcSet c ∈ ex_sets ex -> cp_dstSet c ∈ ex_sets ex ->
  exists st', copy_set c st = Ok st' /\ refines ex st' (spec_copy n c).
Proof.
  intros Hr Hsrc Hdst. destruct (rf_set _ _ _ Hr _ Hsrc) as (s & E & Hok & _ & Ht & _). destruct (rf_set _ _ _ Hr _ Hdst) as (s' & E' & Hok' & Hs' & Ht' & Hd').
  unfold copy_set. rewrite (at_ok _ _ _ E), (at_ok _ _ _ E'). cbn [obind deref]. unfold merge_descriptor_touched.
  destruct (touch_merge_exact (d_touched s) (d_touched s') Hok Hok') as (t & -> & Hok1 & Hc). cbn [obind].
  apply for_each_copy; [|done|done]. apply (refines_with_set _ _ n); cbn [d_touched dynamic_buffers with_d_touched n_set n_cmd n_dyn add_set]; try done.
  - intros o x. rewrite Hc, Ht, Ht'. tauto.
  - intros h o x Hne. split; [intros [?|[? _]]; done|by left].
Qed.

Lemma copies_refine cs : forall st n, refines ex st n -> Forall (fun c => srcSet c ∈ ex_sets ex /\ cp_dstSet c ∈ ex_sets ex) cs ->
  exists st', handle_VkCopyDescriptorSets cs st = Ok st' /\ refines ex st' (foldl spec_copy n cs).
Proof.
  induction cs as [|c cs IH]; intros st n Hr Hc; cbn [handle_VkCopyDescriptorSets foldl]; [by exists st|].
  apply Forall_cons in Hc as [[H1 H2] Hc]. destruct (copy_refines c st n Hr H1 H2) as (st1 & -> & Hr1). cbn [obind]. by apply IH.
Qed.

(** ** Binding *)

(** a dynamic buffer with the offset that the binding gives it *)
Definition dynamic_area (info : descriptor_buffer_info) (dynamic_offset : Z) : outcome area :=
  if di_buffer info =? 0 then Ok None
  else
    let* obj := object_at (VkBuffer_index tb) (di_buffer info) in
    let* buffer_size := size_of_object objects obj in
    let offset := wrap64 (di_offset info + dynamic_offset) in
    Ok (Some (obj, offset, if di_range info =? VK_WHOLE_SIZE then wrap64 (buffer_size - offset) else di_range info)).

(** the bytes of the dynamic buffers of a list, that take the offsets from [k0] on in turn *)
Definition dynamic_names (d : dynamic_map) (pDynamicOffsets : list Z) (k0 : nat) (o : nat) (x : Z) : Prop :=
  exists k slot info dynamic_offset, d !! k = Some (slot, info) /\ pDynamicOffsets !! (k0 + k)%nat = Some dynamic_offset /\
    area_byte (dynamic_area info dynamic_offset) o x.

Definition dynamic_valid (d : dynamic_map) (pDynamicOffsets : list Z) (k0 : nat) : Prop :=
  forall k slot info, d !! k = Some (slot, info) -> exists dynamic_offset a,
    pDynamicOffsets !! (k0 + k)%nat = Some dynamic_offset /\ dynamic_area info dynamic_offset = Ok a /\ area_ok a.

Lemma touch_dynamic_refines c offsets d : forall k0 st n, refines ex st n -> c ∈ ex_cmds ex -> dynamic_valid d offsets k0 ->
  exists st', touch_dynamic objects tb c d offsets k0 st = Ok ((k0 + length d)%nat, st') /\
    refines ex st' (add_cmd n c (dynamic_names d offsets k0)).
Proof.
  induction d as [|[slot info] d IH]; intros k0 st n Hr Hex Hv; cbn [touch_dynamic length].
  - exists st. rewrite Nat.add_0_r. split; [done|]. apply (refines_same _ _ _ _ Hr), (add_for_nothing (Some c) _ 0).
    by intros o x (k & ? & ? & ? & ? & _).
  - destruct (Hv 0%nat slot info eq_refl) as (off & a & Eo & Ea & Ha). rewrite Nat.add_0_r in Eo.
    assert (Hrest : dynamic_valid d offsets (Datatypes.S k0)) by (intros k sl i Hk; replace (Datatypes.S k0 + k)%nat with (k0 + Datatypes.S k)%nat by lia; by apply (Hv (Datatypes.S k) sl)).
    destruct (touch_area_refines (Some c) 0 a st n Hr Hex Ha) as (st1 & E1 & Hr1).
    destruct (IH (Datatypes.S k0) st1 _ Hr1 Hex Hrest) as (st' & E' & Hr').
    exists st'. split.
    + replace (k0 + Datatypes.S (length d))%nat with (Datatypes.S k0 + length d)%nat by lia. rewrite <- E'.
      unfold dynamic_area in Ea. destruct (di_buffer info =? 0); [injection Ea as <-; cbn in E1; by injection E1 as <-|].
      unfold element. destruct (object_at _ _) as [obj|]; [|done]. cbn [obind] in *. rewrite Eo. cbn [obind].
      destruct (size_of_object objects obj) as [size|]; [|done]. cbn [obind] in *. injection Ea as <-. cbn [touch_area touch_for] in E1. rewrite E1. done.
    + apply (refines_same _ _ _ _ Hr'). etrans; [apply (add_for_twice (Some c) n 0)|]. apply (add_for_ext (Some c) n 0). intros o x. rewrite <- Ea. split.
      * intros [Hx|(k & sl & i & off' & H1 & H2 & H3)]; [exists 0%nat, slot, info, off; rewrite Nat.add_0_r; done|].
        exists (Datatypes.S k), sl, i, off'. rewrite Nat.add_succ_r. done.
      * intros ([|k] & sl & i & off' & H1 & H2 & H3).
        -- injection H1 as <- <-. rewrite Nat.add_0_r in H2. assert (off' = off) as -> by congruence. by left.
        -- right. exists k, sl, i, off'. rewrite Nat.add_succ_r in H2. done.
Qed.

Lemma bind_set_refines c offsets set k0 st n d : refines ex st n -> c ∈ ex_cmds ex -> set ∈ ex_sets ex ->
  slots_sorted d -> (forall slot, dynamic_find slot d = n_dyn n set slot) -> dynamic_valid d offsets k0 -> (k0 + length d <= length offsets)%nat ->
  exists st', bind_set objects tb c offsets set k0 st = Ok ((k0 + length d)%nat, st') /\
    refines ex st' (add_cmd n c (fun o x => n_set n set o x \/ dynamic_names d offsets k0 o x)).
Proof.
  intros Hr Hex Hset Hs Hd Hv Hl. destruct (rf_set _ _ _ Hr _ Hset) as (s & E & Hok & Hss & Ht & Hdd). destruct (rf_cmd _ _ _ Hr _ Hex) as (b & Eb & Hokb & Htb).
  assert (dynamic_buffers s = d) as Hdeq by (apply dynamic_find_unique; [done|done|]; intros slot; by rewrite Hd, Hdd).
  unfold bind_set. rewrite (object_at_ok _ _ _ E), (object_at_ok _ _ _ Eb). cbn [obind].
  destruct (touch_merge_exact (d_touched s) (touched b) Hok Hokb) as (t & -> & Hok1 & Hc). cbn [obind]. rewrite Hdeq.
  destruct (touch_dynamic_refines c offsets d k0 (with_cmdbuf st c (with_touched b t)) (add_cmd n c (n_set n set))) as (st' & -> & Hr'); [|done|done|].
  - apply refines_with_cmdbuf; [done|done|]. intros o x. cbn [touched with_touched]. by rewrite Hc, Htb, Ht.
  - cbn [obind]. rewrite (proj2 (Nat.leb_le _ _)) by done. exists st'. split; [done|]. apply (refines_same _ _ _ _ Hr').
    apply (add_for_twice (Some c) n 0).
Qed.

(** the bytes that a list of sets names, [ds] being their dynamic buffers *)
Definition bound_names (n : notes) (sets : list Z) (ds : list dynamic_map) (offsets : list Z) (k0 : nat) (o : nat) (x : Z) : Prop :=
  Exists (fun set => n_set n set o x) sets \/ dynamic_names (concat ds) offsets k0 o x.

Lemma dynamic_names_app d d' offsets k0 o x :
  dynamic_names (d ++ d') offsets k0 o x <-> dynamic_names d offsets k0 o x \/ dynamic_names d' offsets (k0 + length d) o x.
Proof.
  split.
  - intros (k & slot & i & off & H1 & H2 & H3). apply lookup_app_Some in H1 as [H1|[Hl H1]]; [left; by exists k, slot, i, off|].
    right. exists (k - length d)%nat, slot, i, off. replace (k0 + length d + (k - length d))%nat with (k0 + k)%nat by lia. done.
  - intros [(k & slot & i & off & H1 & H2 & H3)|(k & slot & i & off & H1 & H2 & H3)].
    + exists k, slot, i, off. split; [by apply lookup_app_l_Some|done].
    + exists (length d + k)%nat, slot, i, off. split; [apply lookup_app_Some; right; split; [lia|]; rewrite <- H1; f_equal; lia|]. by rewrite Nat.add_assoc.
Qed.

Lemma dynamic_valid_app d d' offsets k0 : dynamic_valid (d ++ d') offsets k0 -> dynamic_valid d offsets k0 /\ dynamic_valid d' offsets (k0 + length d).
Proof.
  intros Hv. split; intros k slot i Hk.
  - apply (Hv k slot). by apply lookup_app_l_Some.
  - rewrite <- Nat.add_assoc. apply (Hv (length d + k)%nat slot). apply lookup_app_Some. right. split; [lia|]. rewrite <- Hk. f_equal. lia.
Qed.

Lemma bind_sets_refines c offsets sets ds : Forall2 (fun set d => set ∈ ex_sets ex /\ slots_sorted d) sets ds -> c ∈ ex_cmds ex -> forall k0 st n,
  refines ex st n -> Forall2 (fun set d => forall slot, dynamic_find slot d = n_dyn n set slot) sets ds ->
  dynamic_valid (concat ds) offsets k0 -> (k0 + length (concat ds) <= length offsets)%nat ->
  exists st', bind_sets objects tb c offsets sets k0 st = Ok st' /\ refines ex st' (add_cmd n c (bound_names n sets ds offsets k0)).
Proof.
  intros Hf Hex. induction Hf as [|set d sets ds [Hset Hs] Hf IH]; intros k0 st n Hr Hd Hv Hl; cbn [bind_sets concat].
  - exists st. split; [done|]. apply (refines_same _ _ _ _ Hr), (add_for_nothing (Some c) _ 0).
    intros o x [Hn|(k & ? & ? & ? & ? & _)]; [by apply Exists_nil in Hn|done].
  - apply Forall2_cons in Hd as [Hd0 Hd]. cbn [concat] in Hv, Hl. rewrite length_app in Hl. apply dynamic_valid_app in Hv as [Hv1 Hv2].
    destruct (bind_set_refines c offsets set k0 st n d Hr Hex Hset Hs Hd0 Hv1 ltac:(lia)) as (st1 & -> & Hr1). cbn [obind].
    destruct (IH (k0 + length d)%nat st1 _ Hr1 Hd Hv2 ltac:(lia)) as (st' & E & Hr'). exists st'. split; [done|]. apply (refines_same _ _ _ _ Hr').
    etrans; [apply (add_for_twice (Some c) n 0)|]. apply (add_for_ext (Some c) n 0). intros o x. unfold bound_names. cbn [concat n_set add_cmd].
    rewrite Exists_cons, dynamic_names_app. tauto.
Qed.
End Spec.

(** what a run leaves in a command buffer *)
Definition used_ranges (m : outcome bindings) (commandBuffer : Z) : list (nat * list range) :=
  match m with
  | Ok st => match VkCommandBuffer_index st !! commandBuffer with Some (Some b) => map (fun p => (p.1, list_ p.2)) (touched b) | _ => [] end
  | Fail _ => []
  end.
