(* ===== verification/DescriptorTouches.v ===== *)
(** * Histories of updates, copies and bindings (src/hardcode_write.cpp)

    An update through a template is an update by structures, and whatever calls an
    application makes, the notes of its sets and command buffers are those of an
    abstract state that says which bytes are named. *)

From Stdlib Require Import ZArith Lia Bool Sorted.
From Stdlib.Strings Require Import Byte.
From stdpp Require Import base numbers list gmap.
From S2P Require Import Prelude RangeTracking Patch Memory Packets Containers Translate Templates Updates HostMemory HostMemoryInv DescriptorSets DescriptorNotes.

#[local] Open Scope Z_scope.

(** ** Templates *)

(** the writes that the entries of a template stand for *)
Fixpoint entry_writes (set : Z) (es : list VkDescriptorUpdateTemplateEntry) (data : list byte) : outcome (list VkWriteDescriptorSet) :=
  match es with
  | [] => Ok []
  | e :: es =>
      let* w := entry_write set e data in
      let* ws := entry_writes set es data in
      Ok (w :: ws)
  end.

Section Template.
Context (objects : list hostobject) (tb : tables).

(** nothing that a write does removes a set or a command buffer *)
Definition keeps (st st' : bindings) : Prop :=
  (forall h s, VkDescriptorSet_index st !! h = Some (Some s) -> exists s', VkDescriptorSet_index st' !! h = Some (Some s')) /\
  (forall c, is_Some (VkCommandBuffer_index st !! c) -> is_Some (VkCommandBuffer_index st' !! c)).

Lemma keeps_refl st : keeps st st.
Proof. split; eauto. Qed.

Lemma keeps_trans st1 st2 st3 : keeps st1 st2 -> keeps st2 st3 -> keeps st1 st3.
Proof.
  intros [H1 H2] [K1 K2]. split; [|eauto]. intros h s E. destruct (H1 h s E) as [s' E']. eauto.
Qed.

Lemma keeps_with_set st set s : keeps st (with_set st set s).
Proof.
  split; [|done]. intros h s0 E. cbn. destruct (decide (h = set)) as [->|Hne]; [rewrite lookup_insert_eq|rewrite lookup_insert_ne by done]; eauto.
Qed.

Lemma keeps_with_cmdbuf st c b : keeps st (with_cmdbuf st c b).
Proof.
  split; [eauto|]. intros c' Hc. cbn. destruct (decide (c' = c)) as [->|Hne]; [rewrite lookup_insert_eq|rewrite lookup_insert_ne by done]; eauto.
Qed.

Lemma touch_for_keeps push set obj offset size st st' : touch_for objects push set obj offset size st = Ok st' -> keeps st st'.
Proof.
  intros E. destruct push as [c|]; cbn [touch_for] in E; unfold cmdbuf_touch, set_touch in E; outcome_inv; subst.
  - apply keeps_with_cmdbuf.
  - apply keeps_with_set.
Qed.

Lemma for_each_keeps (body : nat -> bindings -> outcome bindings) count : (forall j st st', body j st = Ok st' -> keeps st st') ->
  forall k st st', for_each k count body st = Ok st' -> keeps st st'.
Proof.
  intros Hb. induction count as [|count IH]; intros k st st' E; cbn [for_each] in E; [injection E as <-; apply keeps_refl|].
  outcome_inv. eapply keeps_trans; eauto.
Qed.

Lemma touch_area_keeps push set (areas : nat -> outcome area) j st st' :
  (let* a := areas j in touch_area objects push set a st) = Ok st' -> keeps st st'.
Proof.
  intros E. outcome_inv. destruct v as [[[obj offset] size]|]; cbn [touch_area] in E; [by eapply touch_for_keeps|].
  injection E as <-. apply keeps_refl.
Qed.

Lemma write_dynamic_keeps push w j st st' : write_dynamic push w j st = Ok st' -> keeps st st'.
Proof.
  unfold write_dynamic. intros E. destruct push; [injection E as <-; apply keeps_refl|]. outcome_inv. subst. apply keeps_with_set.
Qed.

Lemma write_descriptors_keeps push w st st' : write_descriptors objects tb push w st = Ok st' -> keeps st st'.
Proof.
  unfold write_descriptors. intros E. outcome_inv.
  destruct (descriptorType w); try done; try (outcome_inv; subst; apply keeps_refl).
  all: try (revert E; apply for_each_keeps; intros j st0 st1; first
    [apply write_dynamic_keeps|rewrite write_image_area|rewrite write_buffer_area|rewrite write_texel_area]).
  all: try apply (touch_area_keeps _ _ (fun j => let* x := element _ j in _ x)).
  destruct (find_tensors w) as [[n views]|]; [|done]. outcome_inv. revert E. apply for_each_keeps. intros j st0 st1.
  rewrite write_tensor_area. apply (touch_area_keeps _ _ (fun j => let* x := element _ j in _ x)).
Qed.

(** ** A template's update is one call with a write for every entry *)

Lemma entry_write_set set e data w : entry_write set e data = Ok w -> dstSet w = set.
Proof. unfold entry_write. intros E. destruct (te_descriptorType e); try done; outcome_inv; by subst. Qed.

Lemma entry_writes_set set es : forall data ws, entry_writes set es data = Ok ws -> Forall (fun w => dstSet w = set) ws.
Proof.
  induction es as [|e es IH]; intros data ws E; cbn [entry_writes] in E; outcome_inv; subst; [constructor|].
  constructor; [by eapply entry_write_set|eauto].
Qed.

(** once a set is cleared, clearing it again changes nothing *)
Lemma clears_again ws st set s : VkDescriptorSet_index st !! set = Some (Some s) -> d_touched s = [] -> Forall (fun w => dstSet w = set) ws ->
  all_writes (clear_set true None) ws st = Ok st.
Proof.
  intros E Ht. induction 1 as [|w ws Hw Hf IH]; [done|]. cbn [all_writes]. unfold clear_set at 1. rewrite Hw, (at_ok _ _ _ E). cbn [obind deref].
  replace (with_set st set (with_d_touched s [])) with st; [done|]. destruct st as [sets cmds], s as [t d]. cbn in *. subst t.
  unfold with_set, with_d_touched. cbn. by rewrite insert_id.
Qed.

Definition live_target (push : option Z) (set : Z) (st : bindings) : Prop :=
  match push with Some c => is_Some (VkCommandBuffer_index st !! c) | None => exists s, VkDescriptorSet_index st !! set = Some (Some s) end.

Lemma live_keeps push set st st' : keeps st st' -> live_target push set st -> live_target push set st'.
Proof. intros [H1 H2] Hl. destruct push; [by apply H2|]. destruct Hl as [s E]. by apply (H1 set s). Qed.

(** the entries behind the first clear nothing *)
Lemma template_rest push set es : forall data ws st, entry_writes set es data = Ok ws -> live_target push set st ->
  template_writes objects tb set push false es data st = all_writes (write_descriptors objects tb push) ws st.
Proof.
  induction es as [|e es IH]; intros data ws st E Hl; cbn [entry_writes template_writes] in *; outcome_inv; subst; [done|].
  rewrite E0. cbn [obind all_writes]. unfold handle_VkWriteDescriptorSets. cbn [all_writes].
  assert (Hclear : (let* _ := match push with Some c => at_ (VkCommandBuffer_index st) c | None => Ok None end in clear_set false push v st) = Ok st).
  { destruct push as [c|]; cbn [live_target] in Hl.
    - destruct Hl as [p Hp]. unfold at_. by rewrite Hp.
    - destruct Hl as [s Hs]. cbn [obind clear_set]. rewrite (entry_write_set _ _ _ _ E0), (at_ok _ _ _ Hs). done. }
  destruct (match push with Some c => _ | None => _ end) as [p|]; [|done]. cbn [obind] in Hclear |- *. rewrite Hclear. cbn [obind].
  destruct (write_descriptors objects tb push v st) as [st1|] eqn:Ew; [|done]. cbn [obind].
  apply IH; [done|]. eapply live_keeps; [by eapply write_descriptors_keeps|done].
Qed.

Lemma template_writes_same push set es data ws st : entry_writes set es data = Ok ws -> (es = [] -> match push with Some c => is_Some (VkCommandBuffer_index st !! c) | None => True end) ->
  template_writes objects tb set push (match push with Some _ => false | None => true end) es data st =
  handle_VkWriteDescriptorSets objects tb ws (match push with Some _ => false | None => true end) push st.
Proof.
  intros E Hempty. destruct es as [|e es]; cbn [entry_writes template_writes] in *; outcome_inv; subst.
  { unfold handle_VkWriteDescriptorSets. destruct push as [c|]; [|done]. destruct (Hempty eq_refl) as [p Hp]. unfold at_. by rewrite Hp. }
  rewrite E0. cbn [obind]. unfold handle_VkWriteDescriptorSets. cbn [all_writes].
  pose proof (entry_write_set _ _ _ _ E0) as Hset. pose proof (entry_writes_set _ _ _ _ E1) as Hsets.
  destruct push as [c|].
  - unfold at_. destruct (VkCommandBuffer_index st !! c) as [p|] eqn:Ec; [|done]. cbn [obind clear_set].
    assert (Hid : forall ws st, all_writes (clear_set false (Some c)) ws st = Ok st) by (clear; induction ws as [|w ws IH]; intros st; [done|apply IH]).
    rewrite Hid. cbn [obind]. destruct (write_descriptors objects tb (Some c) v st) as [st1|] eqn:Ew; [|done]. cbn [obind].
    apply template_rest; [done|]. cbn. by apply (write_descriptors_keeps _ _ _ _ Ew).
  - cbn [obind clear_set]. unfold at_. rewrite Hset. destruct (VkDescriptorSet_index st !! set) as [[s|]|] eqn:Es; try done. cbn [obind deref].
    set (st0 := with_set st set (with_d_touched s [])). assert (Hl : VkDescriptorSet_index st0 !! set = Some (Some (with_d_touched s []))) by (cbn; apply lookup_insert_eq).
    rewrite (clears_again v0 st0 set (with_d_touched s [])) by done. cbn [obind].
    destruct (write_descriptors objects tb None v st0) as [st1|] eqn:Ew; [|done]. cbn [obind].
    apply template_rest; [done|]. cbn. destruct (write_descriptors_keeps _ _ _ _ Ew) as [Hk _]. by eapply Hk.
Qed.
End Template.

(** ** Histories *)

Inductive call :=
  | UpdateDescriptorSets (ws : list VkWriteDescriptorSet) (cs : list VkCopyDescriptorSet)
  | UpdateDescriptorSetWithTemplate (set : Z) (t : update_template) (data : list byte)
  | CmdPushDescriptorSet (commandBuffer : Z) (ws : list VkWriteDescriptorSet)
  | CmdPushDescriptorSetWithTemplate (commandBuffer : Z) (t : update_template) (data : list byte)
  | CmdBindDescriptorSets (commandBuffer : Z) (sets offsets : list Z)
  | CmdBindDescriptorSets2 (commandBuffer stageFlags : Z) (sets offsets : list Z).

Section History.
Context (objects : list hostobject) (tb : tables).

Definition do_call (c : call) (st : bindings) : outcome bindings :=
  match c with
  | UpdateDescriptorSets ws cs => trace_post_vkUpdateDescriptorSets objects tb ws cs st
  | UpdateDescriptorSetWithTemplate set t data => handle_descriptor_update_template objects tb set (Some t) (Some data) None st
  | CmdPushDescriptorSet c ws => trace_post_vkCmdPushDescriptorSet objects tb c ws st
  | CmdPushDescriptorSetWithTemplate c t data => handle_descriptor_update_template objects tb 0 (Some t) (Some data) (Some c) st
  | CmdBindDescriptorSets c sets offsets => trace_post_vkCmdBindDescriptorSets objects tb c sets offsets st
  | CmdBindDescriptorSets2 c stageFlags sets offsets => trace_post_vkCmdBindDescriptorSets2KHR objects tb c stageFlags sets offsets st
  end.

Fixpoint run_calls (cs : list call) (st : bindings) : outcome bindings :=
  match cs with
  | [] => Ok st
  | c :: cs => let* st := do_call c st in run_calls cs st
  end.

Context (ex : existing).

(** [ds] are the dynamic buffers of the sets, in the order of their slots, and the
    call has an offset for each of them *)
Definition bind_valid (n : notes) (sets : list Z) (ds : list dynamic_map) (offsets : list Z) : Prop :=
  Forall2 (fun set d => set ∈ ex_sets ex /\ slots_sorted d) sets ds /\
  Forall2 (fun set d => forall slot, dynamic_find slot d = n_dyn n set slot) sets ds /\
  dynamic_valid objects tb (concat ds) offsets 0 /\ (length (concat ds) <= length offsets)%nat.

Definition binds_stage (stageFlags : Z) : bool :=
  negb (Z.land stageFlags VK_SHADER_STAGE_VERTEX_BIT =? 0) || negb (Z.land stageFlags VK_SHADER_STAGE_FRAGMENT_BIT =? 0) ||
  negb (Z.land stageFlags VK_SHADER_STAGE_COMPUTE_BIT =? 0).

(** what a valid call means for the notes *)
Inductive spec_call (n : notes) : call -> notes -> Prop :=
  | spec_update_call ws cs : Forall (fun w => dstSet w ∈ ex_sets ex /\ write_valid objects tb w) ws ->
      Forall (fun c => srcSet c ∈ ex_sets ex /\ cp_dstSet c ∈ ex_sets ex) cs ->
      spec_call n (UpdateDescriptorSets ws cs) (foldl spec_copy (spec_update objects tb ws n) cs)
  | spec_template_call set t data ws : entry_writes set (ut_entries t) data = Ok ws -> set ∈ ex_sets ex -> Forall (write_valid objects tb) ws ->
      spec_call n (UpdateDescriptorSetWithTemplate set t data) (spec_update objects tb ws n)
  | spec_push_call c ws : c ∈ ex_cmds ex -> Forall (write_valid objects tb) ws ->
      spec_call n (CmdPushDescriptorSet c ws) (spec_push objects tb c ws n)
  | spec_push_template_call c t data ws : entry_writes 0 (ut_entries t) data = Ok ws -> c ∈ ex_cmds ex -> Forall (write_valid objects tb) ws ->
      spec_call n (CmdPushDescriptorSetWithTemplate c t data) (spec_push objects tb c ws n)
  | spec_bind_call c sets ds offsets : c ∈ ex_cmds ex -> bind_valid n sets ds offsets ->
      spec_call n (CmdBindDescriptorSets c sets offsets) (add_cmd n c (bound_names objects tb n sets ds offsets 0))
  | spec_bind2_call c stageFlags sets ds offsets : c ∈ ex_cmds ex -> bind_valid n sets ds offsets -> binds_stage stageFlags = true ->
      spec_call n (CmdBindDescriptorSets2 c stageFlags sets offsets) (add_cmd n c (bound_names objects tb n sets ds offsets 0))
  | spec_bind2_none c stageFlags sets offsets : binds_stage stageFlags = false ->
      spec_call n (CmdBindDescriptorSets2 c stageFlags sets offsets) n.

Inductive spec_calls : notes -> list call -> notes -> Prop :=
  | spec_nil n : spec_calls n [] n
  | spec_cons n c n1 cs n' : spec_call n c n1 -> spec_calls n1 cs n' -> spec_calls n (c :: cs) n'.

Lemma bind_refines c sets ds offsets st n : refines ex st n -> c ∈ ex_cmds ex -> bind_valid n sets ds offsets ->
  exists st', trace_post_vkCmdBindDescriptorSets objects tb c sets offsets st = Ok st' /\
    refines ex st' (add_cmd n c (bound_names objects tb n sets ds offsets 0)).
Proof.
  intros Hr Hc (Hf & Hd & Hv & Hl). unfold trace_post_vkCmdBindDescriptorSets. destruct (rf_cmd _ _ _ Hr c Hc) as (b & E & _).
  rewrite (at_ok _ _ _ E). cbn [obind]. by apply bind_sets_refines.
Qed.

(** binding twice is binding once *)
Lemma bind2_refines c stageFlags sets ds offsets st n : refines ex st n -> c ∈ ex_cmds ex -> bind_valid n sets ds offsets ->
  binds_stage stageFlags = true ->
  exists st', trace_post_vkCmdBindDescriptorSets2KHR objects tb c stageFlags sets offsets st = Ok st' /\
    refines ex st' (add_cmd n c (bound_names objects tb n sets ds offsets 0)).
Proof.
  intros Hr Hc Hb Hs. unfold trace_post_vkCmdBindDescriptorSets2KHR. unfold binds_stage in Hs.
  destruct (bind_refines c sets ds offsets st n Hr Hc Hb) as (st1 & E1 & Hr1).
  destruct (_ || negb (Z.land stageFlags VK_SHADER_STAGE_FRAGMENT_BIT =? 0)); cbn [orb obind] in Hs |- *.
  - rewrite E1. cbn [obind]. destruct (negb _); [|by exists st1].
    destruct (bind_refines c sets ds offsets st1 _ Hr1 Hc) as (st2 & E2 & Hr2); [exact Hb|]. exists st2. split; [done|].
    apply (refines_same _ _ _ _ Hr2). etrans; [apply (add_for_twice (Some c) n 0)|]. apply (add_for_ext (Some c) n 0). intros o x.
    unfold bound_names. cbn [n_set add_cmd]. tauto.
  - rewrite Hs. by exists st1.
Qed.

Lemma template_valid set t data ws : entry_writes set (ut_entries t) data = Ok ws -> set ∈ ex_sets ex -> Forall (write_valid objects tb) ws ->
  Forall (fun w => dstSet w ∈ ex_sets ex /\ write_valid objects tb w) ws.
Proof.
  intros E Hs Hw. pose proof (entry_writes_set _ _ _ _ E) as Hd. rewrite Forall_forall in Hd, Hw |- *. intros w Hin.
  rewrite (Hd w Hin). split; [done|by apply Hw].
Qed.

Lemma do_call_refines c st n n' : refines ex st n -> spec_call n c n' -> exists st', do_call c st = Ok st' /\ refines ex st' n'.
Proof.
  intros Hr Hs. destruct Hs as [ws cs Hw Hc|set t data ws E Hset Hw|c ws Hc Hw|c t data ws E Hc Hw|c sets ds offsets Hc Hb|c fl sets ds offsets Hc Hb Hf|c fl sets offsets Hf];
    cbn [do_call].
  - unfold trace_post_vkUpdateDescriptorSets. destruct (update_refines objects tb ex ws st n Hr Hw) as (st1 & -> & Hr1). cbn [obind].
    by apply copies_refine.
  - unfold handle_descriptor_update_template. rewrite (template_writes_same objects tb None set _ _ ws) by done.
    apply update_refines; [done|]. by eapply template_valid.
  - by apply push_refines.
  - unfold handle_descriptor_update_template. rewrite (template_writes_same objects tb (Some c) 0 _ _ ws); [by apply push_refines|done|].
    intros _. destruct (rf_cmd _ _ _ Hr c Hc) as (b & Eb & _). by exists (Some b).
  - by apply bind_refines.
  - by apply bind2_refines.
  - exists st. split; [|done]. unfold trace_post_vkCmdBindDescriptorSets2KHR. unfold binds_stage in Hf.
    apply orb_false_iff in Hf as [-> ->]. done.
Qed.

(** ** What the descriptors of the sets name

    The notes follow the code, where an update drops the notes of all bindings of a set.
    Here is what the descriptors themselves name: an update keeps those it does not
    write. [h_forgotten] are those that it leaves without a note. *)

Record held := Held {
  h_names : Z -> Z -> nat -> Z -> Prop;   (** set, binding and element, object, byte *)
  h_forgotten : Z -> Z -> Prop;           (** set, binding and element *)
  h_bound : Z -> nat -> Z -> Prop         (** command buffer, object, byte *)
}.

Definition slot_of (w : VkWriteDescriptorSet) (j : nat) : Z := descriptor_dynamic_slot (dstBinding w) (wrap32 (dstArrayElement w + Z.of_nat j)).

Definition slots_of (w : VkWriteDescriptorSet) : list Z := map (slot_of w) (seq 0 (Z.to_nat (descriptorCount w))).

Definition hold_write (d : held) (w : VkWriteDescriptorSet) : held :=
  Held (fun h slot o x => if decide (h = dstSet w /\ slot ∈ slots_of w)
                          then exists j, (j < Z.to_nat (descriptorCount w))%nat /\ slot = slot_of w j /\ area_byte objects (descriptor_area objects tb w j) o x
                          else h_names d h slot o x)
    (fun h slot => if decide (h = dstSet w /\ slot ∈ slots_of w) then False else h_forgotten d h slot) (h_bound d).

Definition hold_update (ws : list VkWriteDescriptorSet) (d : held) : held :=
  foldl hold_write (Held (h_names d) (fun h slot => h_forgotten d h slot \/ Exists (fun w => dstSet w = h) ws) (h_bound d)) ws.

(** a copy of one descriptor *)
Definition hold_copy_slot (c : VkCopyDescriptorSet) (d : held) (j : nat) : held :=
  Held (fun h slot o x => if decide (h = cp_dstSet c /\ slot = dst_slot c j) then h_names d (srcSet c) (src_slot c j) o x else h_names d h slot o x)
    (fun h slot => if decide (h = cp_dstSet c /\ slot = dst_slot c j) then h_forgotten d (srcSet c) (src_slot c j) else h_forgotten d h slot) (h_bound d).

Definition hold_copy (d : held) (c : VkCopyDescriptorSet) : held := foldl (hold_copy_slot c) d (seq 0 (Z.to_nat (cp_descriptorCount c))).

Definition hold_bind (c : Z) (sets : list Z) (d : held) : held :=
  Held (h_names d) (h_forgotten d)
    (fun c' o x => h_bound d c' o x \/ c' = c /\ exists set slot, set ∈ sets /\ ~ h_forgotten d set slot /\ h_names d set slot o x).

Definition hold_push (c : Z) (ws : list VkWriteDescriptorSet) (d : held) : held :=
  Held (h_names d) (h_forgotten d) (fun c' o x => h_bound d c' o x \/ c' = c /\ Exists (fun w => write_names objects tb w o x) ws).

Definition hold_call (d : held) (c : call) : held :=
  match c with
  | UpdateDescriptorSets ws cs => foldl hold_copy (hold_update ws d) cs
  | UpdateDescriptorSetWithTemplate set t data => match entry_writes set (ut_entries t) data with Ok ws => hold_update ws d | Fail _ => d end
  | CmdPushDescriptorSet c ws => hold_push c ws d
  | CmdPushDescriptorSetWithTemplate c t data => match entry_writes 0 (ut_entries t) data with Ok ws => hold_push c ws d | Fail _ => d end
  | CmdBindDescriptorSets c sets _ => hold_bind c sets d
  | CmdBindDescriptorSets2 c stageFlags sets _ => if binds_stage stageFlags then hold_bind c sets d else d
  end.

(** every byte that a descriptor names is noted, unless its note was dropped *)
Definition covers (n : notes) (d : held) : Prop :=
  (forall h slot o x, h_names d h slot o x -> ~ h_forgotten d h slot -> n_set n h o x) /\
  (forall c o x, h_bound d c o x -> n_cmd n c o x).

Lemma hold_write_covers n d w : covers n d -> (forall o x, write_names objects tb w o x -> n_set n (dstSet w) o x) -> covers n (hold_write d w).
Proof.
  intros [C1 C2] Hw. split; [|exact C2]. intros h slot o x. cbn [hold_write h_names h_forgotten].
  destruct (decide _) as [[-> _]|_]; [|apply C1]. intros (j & Hj & _ & Ha) _. apply Hw. by exists j.
Qed.

Lemma hold_writes_covers n ws : forall d, covers n d -> (forall w o x, w ∈ ws -> write_names objects tb w o x -> n_set n (dstSet w) o x) ->
  covers n (foldl hold_write d ws).
Proof.
  induction ws as [|w ws IH]; intros d Hd Hw; cbn [foldl]; [done|]. apply IH.
  - apply hold_write_covers; [done|]. intros o x. apply Hw. by left.
  - intros w' o x Hin. apply Hw. by right.
Qed.

Lemma hold_update_covers n ws d : covers n d -> covers (spec_update objects tb ws n) (hold_update ws d).
Proof.
  intros [C1 C2]. apply hold_writes_covers.
  - split; [|exact C2]. intros h slot o x Hn Hf. cbn [h_names h_forgotten spec_update n_set] in *. left. split; [|apply (C1 h slot); tauto].
    apply Forall_forall. intros w Hin E. apply Hf. right. apply Exists_exists. by exists w.
  - intros w o x Hin Hw. right. apply Exists_exists. by exists w.
Qed.

Lemma spec_copy_sets c n : n_set (spec_copy n c) = n_set (add_set n (cp_dstSet c) (n_set n (srcSet c))) /\ n_cmd (spec_copy n c) = n_cmd n.
Proof.
  unfold spec_copy. generalize (seq 0 (Z.to_nat (cp_descriptorCount c))). set (m := add_set _ _ _). change (n_cmd n) with (n_cmd m). generalize m. clear m.
  intros m l. revert m. induction l as [|j l IH]; intros m; cbn [foldl]; [done|]. destruct (IH (spec_copy_slot c m j)) as [-> ->]. done.
Qed.

(** the source keeps its notes when it is the target too *)
Lemma hold_copy_covers n d c : covers n d -> covers (spec_copy n c) (hold_copy d c).
Proof.
  intros [C1 C2]. destruct (spec_copy_sets c n) as [E1 E2]. unfold covers. rewrite E1, E2. cbn [add_set n_set]. unfold hold_copy.
  assert (Hd : covers (add_set n (cp_dstSet c) (n_set n (srcSet c))) d) by (split; [intros h slot o x Hn Hf; left; by apply (C1 h slot)|exact C2]).
  assert (Hsrc : forall slot o x, h_names d (srcSet c) slot o x -> ~ h_forgotten d (srcSet c) slot -> n_set n (srcSet c) o x) by (intros; by eapply C1).
  revert Hd Hsrc. generalize (seq 0 (Z.to_nat (cp_descriptorCount c))). intros l. clear C1 C2 E1 E2. revert d.
  induction l as [|j l IH]; intros d Hd Hsrc; cbn [foldl]; [exact Hd|]. destruct Hd as [C1 C2]. apply IH.
  - split; [|exact C2]. intros h slot o x. cbn [hold_copy_slot h_names h_forgotten]. destruct (decide _) as [[-> _]|_]; [|apply C1].
    intros Hn Hf. right. split; [done|]. by apply (Hsrc (src_slot c j)).
  - intros slot o x. cbn [hold_copy_slot h_names h_forgotten]. destruct (decide _); apply Hsrc.
Qed.

Lemma hold_copies_cover cs : forall n d, covers n d -> covers (foldl spec_copy n cs) (foldl hold_copy d cs).
Proof. induction cs as [|c cs IH]; intros n d Hd; cbn [foldl]; [done|]. by apply IH, hold_copy_covers. Qed.

Lemma hold_bind_covers n d c sets ds offsets : covers n d -> covers (add_cmd n c (bound_names objects tb n sets ds offsets 0)) (hold_bind c sets d).
Proof.
  intros [C1 C2]. split; [exact C1|]. intros c' o x [Hb|(-> & set & slot & Hin & Hf & Hn)]; [left; by apply C2|]. right. split; [done|]. left.
  apply Exists_exists. exists set. split; [done|]. by apply (C1 set slot).
Qed.

Lemma hold_push_covers n d c ws : covers n d -> covers (spec_push objects tb c ws n) (hold_push c ws d).
Proof. intros [C1 C2]. split; [exact C1|]. intros c' o x [Hb|Hp]; [left; by apply C2|by right]. Qed.

Lemma hold_call_covers n c n' d : spec_call n c n' -> covers n d -> covers n' (hold_call d c).
Proof.
  intros Hs Hd. destruct Hs as [ws cs|set t data ws E|c ws|c t data ws E|c sets ds offsets|c fl sets ds offsets _ _ Hf|c fl sets offsets Hf]; cbn [hold_call].
  - by apply hold_copies_cover, hold_update_covers.
  - rewrite E. by apply hold_update_covers.
  - by apply hold_push_covers.
  - rewrite E. by apply hold_push_covers.
  - by apply hold_bind_covers.
  - rewrite Hf. by apply hold_bind_covers.
  - by rewrite Hf.
Qed.

Lemma hold_calls_cover n calls n' d : spec_calls n calls n' -> covers n d -> covers n' (foldl hold_call d calls).
Proof. intros Hc. revert d. induction Hc as [n|n c n1 cs n' Hs Hcs IH]; intros d Hd; cbn [foldl]; [done|]. apply IH. by eapply hold_call_covers. Qed.

(** ** Properties *)

(** C16: whatever valid updates, copies, pushes and bindings an application makes, in
    any order, by structures or through templates, none of them fails, and the notes of
    every set and command buffer are exactly these bytes: an update drops the notes of
    the sets it writes to, those of their other bindings too
    ([other_binding_forgotten]), and notes what its writes name; a copy adds the notes of
    its source; a push adds what it names; a binding adds the notes of the sets and
    resolves the dynamic buffers, the k-th in the order of sets, bindings and elements
    with the k-th offset, and notes nothing when it is for stages other than vertex,
    fragment and compute alone ([ray_tracing_stages_forgotten]). So the notes hold every
    byte that a descriptor of the set names, whatever was copied to it, and a command
    buffer has every byte that the descriptors of its sets named when they were bound,
    except for descriptors behind a later update of the same set that did not write
    them. In a valid call every view and buffer exists, the view of a sampler,
    which Vulkan ignores, too ([sampler_view_looked_up]). *)
Theorem descriptor_notes_exact (calls : list call) (st : bindings) (n n' : notes)
    (Hst : refines ex st n) (Hcalls : spec_calls n calls n') :
  exists st', run_calls calls st = Ok st' /\ refines ex st' n' /\ forall d, covers n d -> covers n' (foldl hold_call d calls).
Proof.
  assert (Hrun : exists st', run_calls calls st = Ok st' /\ refines ex st' n').
  { revert st Hst. induction Hcalls as [n|n c n1 cs n' Hs Hcs IH]; intros st Hst; cbn [run_calls]; [by exists st|].
    destruct (do_call_refines c st n n1 Hst Hs) as (st1 & -> & Hr1). cbn [obind]. by apply IH. }
  destruct Hrun as (st' & E & Hr). exists st'. split; [done|]. split; [done|]. intros d. by apply hold_calls_cover.
Qed.

(** An update through a template does what one call with a write for each of its
    entries does, whether it succeeds or fails: the set is cleared once, by the
    first entry. *)
Theorem template_is_one_update (set : Z) (t : update_template) (data : list byte) (push : option Z) (ws : list VkWriteDescriptorSet) (st : bindings)
    (Hws : entry_writes (match push with Some _ => 0 | None => set end) (ut_entries t) data = Ok ws)
    (Hentries : ut_entries t <> []) :
  handle_descriptor_update_template objects tb set (Some t) (Some data) push st =
  match push with
  | Some c => trace_post_vkCmdPushDescriptorSet objects tb c ws st
  | None => trace_post_vkUpdateDescriptorSets objects tb ws [] st
  end.
Proof.
  unfold handle_descriptor_update_template, trace_post_vkCmdPushDescriptorSet, trace_post_vkUpdateDescriptorSets.
  rewrite (template_writes_same objects tb push _ _ _ ws) by done. destruct push; [done|].
  by destruct (handle_VkWriteDescriptorSets objects tb ws true None st).
Qed.
End History.

(** ** A buffer, a dynamic buffer and an image, bound together *)

Definition touch_buffer : hostobject := HostObject (Trackable 3 bound no_change) VK_OBJECT_TYPE_BUFFER 0 (Some 0%nat) 0 64 true 0 None 0 0.
Definition touch_image : hostobject := HostObject (Trackable 4 bound no_change) VK_OBJECT_TYPE_IMAGE 0 (Some 0%nat) 64 32 true 0 None 0 0.
Definition touch_objects : list hostobject := [touch_buffer; touch_image].
Definition touch_tables : tables :=
  Tables {[ 10 := Some 0%nat ]} {[ 20 := Some 1%nat ]} ∅ {[ 30 := Some 20 ]} ∅ ∅.
Definition touch_start : bindings :=
  Bindings {[ 100 := Some (DescriptorSet [] []); 101 := Some (DescriptorSet [] []) ]} {[ 200 := Some (CmdBuffer 0 [] false) ]}.
Definition touch_existing : existing := Existing {[ 100; 101 ]} {[ 200 ]}.
Definition no_notes : notes := Notes (fun _ _ _ => False) (fun _ _ _ => False) (fun _ _ => None).

Definition write_uniform : VkWriteDescriptorSet :=
  WriteDescriptorSet 100 0 0 1 VK_DESCRIPTOR_TYPE_UNIFORM_BUFFER [] [DescriptorBufferInfo 10 8 16] [] [].
Definition write_offset : VkWriteDescriptorSet :=
  WriteDescriptorSet 100 1 0 1 VK_DESCRIPTOR_TYPE_STORAGE_BUFFER_DYNAMIC [] [DescriptorBufferInfo 10 4 8] [] [].
Definition write_view : VkWriteDescriptorSet := WriteDescriptorSet 101 0 0 1 VK_DESCRIPTOR_TYPE_STORAGE_IMAGE [30] [] [] [].
Definition touch_calls : list call :=
  [UpdateDescriptorSets [write_uniform; write_offset; write_view] []; CmdBindDescriptorSets 200 [100; 101] [32]].

Example touch_calls_run :
  used_ranges (run_calls touch_objects touch_tables touch_calls touch_start) 200 =
  [(0%nat, [Range 8 23; Range 36 43]); (1%nat, [Range 0 31])].
Proof. vm_compute. reflexivity. Qed.

(** an update of one binding forgets what an earlier call noted for another *)
Example other_binding_forgotten :
  used_ranges (run_calls touch_objects touch_tables
    [UpdateDescriptorSets [write_uniform] [];
     UpdateDescriptorSets [WriteDescriptorSet 100 2 0 1 VK_DESCRIPTOR_TYPE_STORAGE_IMAGE [30] [] [] []] [];
     CmdBindDescriptorSets 200 [100] []] touch_start) 200 = [(1%nat, [Range 0 31])].
Proof. vm_compute. reflexivity. Qed.

(** sets bound for ray tracing stages alone are not noted *)
Example ray_tracing_stages_forgotten :
  used_ranges (run_calls touch_objects touch_tables
    [UpdateDescriptorSets [write_uniform] []; CmdBindDescriptorSets2 200 256 [100] []] touch_start) 200 = [].
Proof. vm_compute. reflexivity. Qed.

(** a sampler whose unused view is no view stops the capture *)
Example sampler_view_looked_up :
  run_calls touch_objects touch_tables
    [UpdateDescriptorSets [WriteDescriptorSet 100 0 0 1 VK_DESCRIPTOR_TYPE_SAMPLER [7] [] [] []] []] touch_start = Fail OutOfRange.
Proof. vm_compute. reflexivity. Qed.

Lemma touch_start_refines : refines touch_existing touch_start no_notes.
Proof.
  split; cbn [touch_existing ex_sets ex_cmds].
  - intros h Hh. exists (DescriptorSet [] []). split; [|split; [apply map_ok_nil|split; [constructor|split; [|done]]]].
    + assert (h = 100 \/ h = 101) as [-> | ->] by set_solver; vm_compute; reflexivity.
    + intros o x. split; [apply in_touched_nil|done].
  - intros c Hc. exists (CmdBuffer 0 [] false). assert (c = 200) as -> by set_solver. split; [vm_compute; reflexivity|].
    split; [apply map_ok_nil|]. intros o x. split; [apply in_touched_nil|done].
Qed.

Lemma touch_area_valid obj o offset size : touch_objects !! obj = Some o -> 0 <= offset -> 0 <= size -> offset + size <= h_size o ->
  h_size o <= INT64_MAX -> area_ok touch_objects (Some (obj, offset, size)).
Proof.
  intros Ho H1 H2 H3 H4. exists o. split; [done|]. unfold area_inside, spanned.
  rewrite (proj2 (Z.eqb_neq size VK_WHOLE_SIZE)); [done|]. unfold VK_WHOLE_SIZE. u_lia.
Qed.

Lemma touch_writes_valid : Forall (fun w => dstSet w ∈ ex_sets touch_existing /\ write_valid touch_objects touch_tables w) [write_uniform; write_offset; write_view].
Proof.
  repeat (apply Forall_cons; split); [..|constructor]; (split; [cbn; set_solver|]); (split; [cbn; try lia; done|]); intros j Hj; cbn in Hj; assert (j = 0%nat) as -> by lia.
  - exists (Some (0%nat, 8, 16)). split; [vm_compute; reflexivity|]. apply (touch_area_valid 0 touch_buffer); cbn; u_lia || done.
  - exists None. split; [reflexivity|done].
  - exists (Some (1%nat, 0, 32)). split; [vm_compute; reflexivity|]. apply (touch_area_valid 1 touch_image); cbn; u_lia || done.
Qed.

Definition touch_slot : Z := descriptor_dynamic_slot 1 0.
Definition touch_noted : notes := spec_update touch_objects touch_tables [write_uniform; write_offset; write_view] no_notes.

Lemma touch_bind_valid : bind_valid touch_objects touch_tables touch_existing touch_noted [100; 101] [[(touch_slot, DescriptorBufferInfo 10 4 8)]; []] [32].
Proof.
  split; [|split; [|split]].
  - apply Forall2_cons. split; [split; [cbn; set_solver|repeat constructor]|]. apply Forall2_cons. split; [split; [cbn; set_solver|constructor]|constructor].
  - apply Forall2_cons. split; [|apply Forall2_cons; split; [done|constructor]]. intros slot. unfold dynamic_find. cbn [List.find fst option_map].
    change (n_dyn touch_noted 100 slot) with (if slot =? touch_slot then Some (DescriptorBufferInfo 10 4 8) else None).
    rewrite (Z.eqb_sym slot). by destruct (touch_slot =? slot).
  - intros [|k] slot info Hk; [|done]. injection Hk as <- <-. exists 32, (Some (0%nat, 36, 8)). split; [done|].
    split; [vm_compute; reflexivity|]. apply (touch_area_valid 0 touch_buffer); cbn; u_lia || done.
  - cbn. lia.
Qed.

Lemma descriptor_notes_exact_witness :
  exists st', run_calls touch_objects touch_tables touch_calls touch_start = Ok st' /\
    exists n', refines touch_existing st' n' /\ n_cmd n' 200 0%nat 40 /\ n_cmd n' 200 1%nat 5.
Proof.
  destruct (descriptor_notes_exact touch_objects touch_tables touch_existing touch_calls touch_start no_notes
    (add_cmd touch_noted 200 (bound_names touch_objects touch_tables touch_noted [100; 101] [[(touch_slot, DescriptorBufferInfo 10 4 8)]; []] [32] 0)))
    as (st' & E & Hr & _).
  - exact touch_start_refines.
  - eapply spec_cons; [apply spec_update_call; [exact touch_writes_valid|constructor]|].
    eapply spec_cons; [apply spec_bind_call; [cbn; set_solver|exact touch_bind_valid]|]. constructor.
  - exists st'. split; [exact E|]. eexists. split; [exact Hr|]. split; right; (split; [reflexivity|]).
    + right. exists 0%nat, touch_slot, (DescriptorBufferInfo 10 4 8), 32. split; [reflexivity|]. split; [reflexivity|].
      exists 36, 8. split; [vm_compute; reflexivity|]. exists touch_buffer. split; [reflexivity|]. split; [reflexivity|]. split; by vm_compute.
    + left. right. left. right. do 2 right. left. split; [reflexivity|]. exists 0%nat. split; [cbn; lia|].
      exists 0, 32. split; [vm_compute; reflexivity|]. exists touch_image. split; [reflexivity|]. split; [reflexivity|]. split; by vm_compute.
Defined.

(** the same buffer, image and dynamic buffer through a template *)
Definition touch_template : update_template :=
  UpdateTemplate 0 0 64 [TemplateEntry 0 0 1 VK_DESCRIPTOR_TYPE_UNIFORM_BUFFER 0 0; TemplateEntry 2 0 1 VK_DESCRIPTOR_TYPE_STORAGE_IMAGE 24 0].
Definition touch_template_data : list byte :=
  le_encode 8 10 ++ le_encode 8 8 ++ le_encode 8 16 ++ le_encode 8 0 ++ le_encode 8 30 ++ le_encode 8 1.

Lemma template_is_one_update_witness :
  handle_descriptor_update_template touch_objects touch_tables 100 (Some touch_template) (Some touch_template_data) None touch_start =
  trace_post_vkUpdateDescriptorSets touch_objects touch_tables
    [write_uniform; WriteDescriptorSet 100 2 0 1 VK_DESCRIPTOR_TYPE_STORAGE_IMAGE [30] [] [] []] [] touch_start.
Proof.
  exact (template_is_one_update touch_objects touch_tables 100 touch_template touch_template_data None
    [write_uniform; WriteDescriptorSet 100 2 0 1 VK_DESCRIPTOR_TYPE_STORAGE_IMAGE [30] [] [] []] touch_start
    ltac:(vm_compute; reflexivity) ltac:(discriminate)).
Defined.
