(* ===== verification/Discovery.v ===== *)
(** * Discovery of the markings of shader inputs (src/execute_commands.cpp)

    The post-processor runs a shader in an external simulator, which reports every
    pointer the shader used as the pieces of memory its bits were loaded from. The
    pieces are located in the memory ranges given to the simulator, and the write
    that filled them gets a marking that there is a device address to translate. *)

From Stdlib Require Import ZArith Lia Bool Sorting.Sorted.
From Stdlib.Strings Require Import Byte.
From stdpp Require Import base numbers list gmap sorting.
From S2P Require Import Prelude Stream Patch FileWriter FileReader Packets Containers Markings HostWrites.

#[local] Open Scope Z_scope.

(** ** What the simulator reports *)

(** the members of [SPIRVSimulator] the source reads *)
Inductive data_location : Set := StorageClass | SpecConstant | OtherLocation.

Inductive storage_class : Set :=
  | StorageClassPushConstant
  | StorageClassUniform
  | StorageClassStorageBuffer
  | StorageClassUniformConstant
  | OtherStorageClass.

Record DataSourceBits := {
  location : data_location;
  ds_storage_class : storage_class;
  source_ptr : Z;
  byte_offset : Z;
  bit_offset : Z;
  bitcount : Z;
  val_bit_offset : Z;
  set_id : Z;
  binding_id : Z
}.

Record PhysicalAddressData := {
  bit_components : list DataSourceBits;
  raw_pointer_value : Z
}.

Definition VK_OBJECT_TYPE_UNKNOWN : Z := 0.

(** ** Ranges *)

(** the regions that are not a buffer's *)
Inductive regions_ref : Set := PushConstantSources | SpecializationSources.

#[export] Instance regions_ref_eq_dec : EqDecision regions_ref.
Proof. solve_decision. Defined.

(** [buffer_data] is the place of the buffer in [VkBuffer_index] *)
Record simulator_buffer_range := SimulatorBufferRange {
  base_ptr : Z;
  rg_bytes : Z;
  buffer_data : option nat;
  buffer_offset : Z;
  source_regions : option regions_ref;
  rg_set : Z;
  rg_binding : Z;
  physical_address_backing : bool;
  source_object_type : Z;
  source_object_index : Z;
  source_stage_index : Z
}.

#[export] Instance simulator_buffer_range_eq_dec : EqDecision simulator_buffer_range.
Proof. solve_decision. Defined.

Record discovered_buffer_marking := DiscoveredBufferMarking {
  d_buffer_data : option nat;
  d_output_object_type : Z;
  d_output_object_index : Z;
  d_output_stage_index : Z;
  d_offset : Z;
  d_size : Z;
  d_type : Z;
  d_subtype : Z;
  d_has_explicit_source : bool;
  d_source : change_source
}.

Definition same_range (a b : simulator_buffer_range) : bool :=
  (base_ptr a =? base_ptr b) && (rg_bytes a =? rg_bytes b) && bool_decide (buffer_data a = buffer_data b) &&
  (buffer_offset a =? buffer_offset b) && bool_decide (source_regions a = source_regions b) &&
  eqb (physical_address_backing a) (physical_address_backing b) &&
  (source_object_type a =? source_object_type b) && (source_object_index a =? source_object_index b) &&
  (source_stage_index a =? source_stage_index b).

Definition register_simulator_buffer_range (ranges : list simulator_buffer_range) (r : simulator_buffer_range)
    : list simulator_buffer_range :=
  if (base_ptr r =? 0) || bool_decide (buffer_data r = None /\ source_regions r = None) || (rg_bytes r =? 0) then ranges
  else if existsb (fun existing => same_range existing r) ranges then ranges
  else ranges ++ [r].

(** the first range for which [place] gives an offset; the number stands for the pointer *)
Fixpoint first_range (place : simulator_buffer_range -> option Z) (i : nat) (ranges : list simulator_buffer_range)
    : option (nat * simulator_buffer_range * Z) :=
  match ranges with
  | [] => None
  | r :: ranges =>
      match place r with
      | Some offset => Some (i, r, offset)
      | None => first_range place (Datatypes.S i) ranges
      end
  end.

Definition place_pointer (source byte_offset size : Z) (r : simulator_buffer_range) : option Z :=
  let base := base_ptr r in
  let end_ := base + rg_bytes r in
  if (source <? base) || (source >? end_) then None
  else
    let local := wrap64 (source - base + byte_offset) in
    if wrap64 (local + size) >? rg_bytes r then None else Some local.

Definition find_simulator_range (ranges : list simulator_buffer_range) (source_ptr byte_offset size : Z)
    : option (nat * simulator_buffer_range * Z) :=
  if (source_ptr =? 0) || (size =? 0) then None else first_range (place_pointer source_ptr byte_offset size) 0 ranges.

Definition fits (byte_offset size : Z) (r : simulator_buffer_range) : option Z :=
  if (byte_offset >? rg_bytes r) || (size >? rg_bytes r - byte_offset) then None else Some byte_offset.

Definition place_push_constant (source : DataSourceBits) (size : Z) (r : simulator_buffer_range) : option Z :=
  if bool_decide (source_regions r = None) then None else fits (byte_offset source) size r.

Definition place_binding (source : DataSourceBits) (size : Z) (r : simulator_buffer_range) : option Z :=
  if bool_decide (buffer_data r = None) then None
  else if negb (rg_set r =? set_id source) || negb (rg_binding r =? binding_id source) then None
  else fits (byte_offset source) size r.

Definition find_simulator_storage_class_range (ranges : list simulator_buffer_range) (source : DataSourceBits) (size : Z)
    : option (nat * simulator_buffer_range * Z) :=
  if size =? 0 then None
  else
    match ds_storage_class source with
    | StorageClassPushConstant => first_range (place_push_constant source size) 0 ranges
    | StorageClassUniform | StorageClassStorageBuffer | StorageClassUniformConstant =>
        first_range (place_binding source size) 0 ranges
    | OtherStorageClass => None
    end.

Definition find_simulator_source_range (ranges : list simulator_buffer_range) (source : DataSourceBits) (size : Z)
    : option (nat * simulator_buffer_range * Z) :=
  match location source with
  | SpecConstant => find_simulator_range ranges (source_ptr source) (byte_offset source) size
  | StorageClass =>
      match find_simulator_range ranges (source_ptr source) (byte_offset source) size with
      | Some found => Some found
      | None => find_simulator_storage_class_range ranges source size
      end
  | OtherLocation => None
  end.

Definition range_output_object_type (r : simulator_buffer_range) : Z := source_object_type r.

Definition range_output_object_index (r : simulator_buffer_range) : Z :=
  if source_object_type r =? VK_OBJECT_TYPE_UNKNOWN then CONTAINER_NULL_VALUE else source_object_index r.

Definition range_output_stage_index (r : simulator_buffer_range) (source_ref : host_write_reference) : Z :=
  if source_stage_index r =? CONTAINER_NULL_VALUE then hr_stage_index source_ref else source_stage_index r.

(** a piece of a pointer that was located *)
Record source_component := SourceComponent {
  sc_range : nat * simulator_buffer_range;
  sc_local_offset : Z;
  sc_bitcount : Z;
  sc_val_bit_offset : Z
}.

Definition sc_before (a b : source_component) : Prop := sc_val_bit_offset a <= sc_val_bit_offset b.

#[export] Instance sc_before_dec : RelDecision sc_before.
Proof. intros a b. unfold sc_before. apply _. Defined.

(** [location] is one whose memory is known *)
Definition memory_location (source : DataSourceBits) : bool :=
  match location source with StorageClass | SpecConstant => true | OtherLocation => false end.

Definition ADDRESS_BITS : Z := 64.

Definition component_of (ranges : list simulator_buffer_range) (source : DataSourceBits) : option source_component :=
  if negb (memory_location source) then None
  else if negb (bit_offset source =? 0) || (bitcount source =? 0) || negb (bitcount source mod 8 =? 0) ||
    negb (val_bit_offset source mod 8 =? 0) then None
  else if val_bit_offset source >=? ADDRESS_BITS then None
  else if wrap64 (val_bit_offset source + bitcount source) >? ADDRESS_BITS then None
  else
    match find_simulator_source_range ranges source (bitcount source / 8) with
    | None => None
    | Some (i, r, local_offset) => Some (SourceComponent (i, r) local_offset (bitcount source) (val_bit_offset source))
    end.

(** the bits covered when all components lie one behind the other in one range *)
Fixpoint contiguous_bits (range : nat) (base_offset covered_bits : Z) (components : list source_component) : option Z :=
  match components with
  | [] => Some covered_bits
  | c :: components =>
      if negb (fst (sc_range c) =? range)%nat then None
      else if negb (sc_val_bit_offset c =? covered_bits) then None
      else if negb (sc_local_offset c =? wrap64 (base_offset + sc_val_bit_offset c / 8)) then None
      else contiguous_bits range base_offset (wrap64 (covered_bits + sc_bitcount c)) components
  end.

(** ** The buffers and their bytes *)

Section Discover.
Context {T : Type} `{MemoryFlagTracker T} `{MarkingHeader}.

Record trackedbuffer := TrackedBuffer {
  tb_index : Z;
  tb_object_type : Z;
  tb_size : Z;
  tb_device_address : Z;
  tb_capture_device_address : Z;
  tb_source : host_write_regions T
}.

Record sim_world := SimWorld {
  VkBuffer_index : list trackedbuffer;
  push_constant_sources : host_write_regions T;
  specialization_sources : host_write_regions T;
  mem : Z -> byte                     (** the bytes of the process *)
}.

Definition load (w : sim_world) (address : Z) (n : nat) : list byte :=
  map (fun k => mem w (address + Z.of_nat k)) (seq 0 n).

Definition load64 (w : sim_world) (address : Z) : Z := le_decode (load w address 8).

Definition referenced_regions (w : sim_world) (ref : regions_ref) : host_write_regions T :=
  match ref with PushConstantSources => push_constant_sources w | SpecializationSources => specialization_sources w end.

Definition buffer_at (w : sim_world) (b : nat) : outcome trackedbuffer :=
  match VkBuffer_index w !! b with Some buffer => Ok buffer | None => Fail OutOfRange end.

Definition get_range_source_reference (w : sim_world) (r : simulator_buffer_range) (local_offset size : Z)
    : outcome (option host_write_reference) :=
  match source_regions r with
  | Some ref => try_get_reference (wrap64 (buffer_offset r + local_offset)) (wrap32 size) (referenced_regions w ref)
  | None =>
      match buffer_data r with
      | Some b =>
          let* buffer := buffer_at w b in
          try_get_reference (wrap64 (buffer_offset r + local_offset)) (wrap32 size) (tb_source buffer)
      | None => Ok None
      end
  end.

(** the reference of the eight bytes of an address; it aborts without one *)
Definition address_reference (w : sim_world) (r : simulator_buffer_range) (local_offset : Z) : outcome host_write_reference :=
  let* source_ref := get_range_source_reference w r local_offset 8 in
  match source_ref with Some source_ref => Ok source_ref | None => Fail AbortCall end.

Definition address_marking (r : simulator_buffer_range) (local_offset : Z) (source_ref : host_write_reference)
    : discovered_buffer_marking := {|
  d_buffer_data := buffer_data r;
  d_output_object_type := range_output_object_type r;
  d_output_object_index := range_output_object_index r;
  d_output_stage_index := range_output_stage_index r source_ref;
  d_offset := if hr_object_offset source_ref >=? 0 then hr_object_offset source_ref else wrap64 (buffer_offset r + local_offset);
  d_size := 8;
  d_type := VK_MARKING_TYPE_DEVICE_ADDRESS_ARM;
  d_subtype := VK_DEVICE_ADDRESS_TYPE_BUFFER_ARM;
  d_has_explicit_source := true;
  d_source := hr_source source_ref
|}.

(** ** The places of a pointer *)

Definition mark_place (w : sim_world) (r : simulator_buffer_range) (local_offset : Z) (discovered : list discovered_buffer_marking)
    : outcome (list discovered_buffer_marking) :=
  let* source_ref := address_reference w r local_offset in
  Ok (discovered ++ [address_marking r local_offset source_ref]).

(** the pieces that are the whole pointer; the flag is [found_source] *)
Fixpoint collect_direct (w : sim_world) (ranges : list simulator_buffer_range) (components : list DataSourceBits)
    (found_source : bool) (discovered : list discovered_buffer_marking) : outcome (bool * list discovered_buffer_marking) :=
  match components with
  | [] => Ok (found_source, discovered)
  | source :: components =>
      if negb (memory_location source) then collect_direct w ranges components found_source discovered
      else if negb (bit_offset source =? 0) || negb (val_bit_offset source =? 0) || negb (bitcount source =? ADDRESS_BITS)
      then collect_direct w ranges components found_source discovered
      else
        match find_simulator_source_range ranges source 8 with
        | None => collect_direct w ranges components found_source discovered
        | Some (_, r, local_offset) =>
            let* discovered := mark_place w r local_offset discovered in
            collect_direct w ranges components true discovered
        end
  end.

Definition collect_contiguous_device_address_marking (w : sim_world) (ranges : list simulator_buffer_range)
    (pointer_data : PhysicalAddressData) (discovered : list discovered_buffer_marking) : outcome (bool * list discovered_buffer_marking) :=
  match merge_sort sc_before (omap (component_of ranges) (bit_components pointer_data)) with
  | [] => Ok (false, discovered)
  | front :: rest =>
      match contiguous_bits (fst (sc_range front)) (sc_local_offset front) 0 (front :: rest) with
      | None => Ok (false, discovered)
      | Some covered_bits =>
          if negb (covered_bits =? ADDRESS_BITS) then Ok (false, discovered)
          else
            let* discovered := mark_place w (snd (sc_range front)) (sc_local_offset front) discovered in
            Ok (true, discovered)
      end
  end.

(** the places modulo eight at which the source holds the pointer *)
Definition address_alignment (w : sim_world) (r : simulator_buffer_range) (pointer local_offset source_size : Z) : list bool :=
  fold_left (fun alignment o => if load64 w (base_ptr r + o) =? pointer then <[Z.to_nat (o mod 8) := true]> alignment else alignment)
    (seqZ local_offset (source_size - 7)) (replicate 8 false).

Definition knows_address (w : sim_world) (candidate : Z) (r : simulator_buffer_range) : outcome bool :=
  if negb (physical_address_backing r) then Ok false
  else
    match buffer_data r with
    | None => Ok false
    | Some b =>
        let* buffer := buffer_at w b in
        let base_address := if negb (tb_capture_device_address buffer =? 0) then tb_capture_device_address buffer else tb_device_address buffer in
        Ok (negb (base_address =? 0) && (candidate >=? base_address) && (candidate - base_address <? tb_size buffer))
    end.

Fixpoint known_address (w : sim_world) (candidate : Z) (ranges : list simulator_buffer_range) : outcome bool :=
  match ranges with
  | [] => Ok false
  | r :: ranges =>
      let* known := knows_address w candidate r in
      if known then Ok true else known_address w candidate ranges
  end.

Fixpoint scan_range (w : sim_world) (ranges : list simulator_buffer_range) (r : simulator_buffer_range) (alignment : list bool)
    (offsets : list Z) (found : bool) (discovered : list discovered_buffer_marking) : outcome (bool * list discovered_buffer_marking) :=
  match offsets with
  | [] => Ok (found, discovered)
  | o :: offsets =>
      if negb (nth (Z.to_nat (o mod 8)) alignment false) then scan_range w ranges r alignment offsets found discovered
      else
        let* known := known_address w (load64 w (base_ptr r + o)) ranges in
        if negb known then scan_range w ranges r alignment offsets found discovered
        else
          let* discovered := mark_place w r o discovered in
          scan_range w ranges r alignment offsets true discovered
  end.

Fixpoint collect_composite (w : sim_world) (ranges : list simulator_buffer_range) (pointer : Z) (components : list DataSourceBits)
    (found : bool) (discovered : list discovered_buffer_marking) : outcome (bool * list discovered_buffer_marking) :=
  match components with
  | [] => Ok (found, discovered)
  | source :: components =>
      if negb (memory_location source) then collect_composite w ranges pointer components found discovered
      else if negb (bit_offset source =? 0) || (bitcount source <=? ADDRESS_BITS) || negb (bitcount source mod 8 =? 0)
      then collect_composite w ranges pointer components found discovered
      else
        let source_size := bitcount source / 8 in
        match find_simulator_source_range ranges source source_size with
        | None => collect_composite w ranges pointer components found discovered
        | Some (_, r, local_offset) =>
            let alignment := address_alignment w r pointer local_offset source_size in
            let* (found, discovered) := scan_range w ranges r alignment (seqZ 0 (rg_bytes r - 7)) found discovered in
            collect_composite w ranges pointer components found discovered
        end
  end.

Definition collect_composite_device_address_marking (w : sim_world) (ranges : list simulator_buffer_range)
    (pointer_data : PhysicalAddressData) (discovered : list discovered_buffer_marking) : outcome (bool * list discovered_buffer_marking) :=
  collect_composite w ranges (raw_pointer_value pointer_data) (bit_components pointer_data) false discovered.

Definition collect_pointer (w : sim_world) (ranges : list simulator_buffer_range) (pointer_data : PhysicalAddressData)
    (discovered : list discovered_buffer_marking) : outcome (list discovered_buffer_marking) :=
  let* (found_source, discovered) := collect_direct w ranges (bit_components pointer_data) false discovered in
  let* (found_source, discovered) :=
    if found_source then Ok (found_source, discovered) else collect_contiguous_device_address_marking w ranges pointer_data discovered in
  if found_source then Ok discovered
  else let* (_, discovered) := collect_composite_device_address_marking w ranges pointer_data discovered in Ok discovered.

Fixpoint collect_simulator_physical_address_markings (w : sim_world) (ranges : list simulator_buffer_range)
    (physical_address_data : list PhysicalAddressData) (discovered : list discovered_buffer_marking)
    : outcome (list discovered_buffer_marking) :=
  match physical_address_data with
  | [] => Ok discovered
  | pointer_data :: physical_address_data =>
      let* discovered := collect_pointer w ranges pointer_data discovered in
      collect_simulator_physical_address_markings w ranges physical_address_data discovered
  end.

(** ** Into the queue of markings to write *)

Record discovered_output_markings_bucket := Bucket {
  bk_source : change_source;
  bk_object_type : Z;
  bk_object_index : Z;
  bk_stage_index : Z;
  bk_entries : list discovered_buffer_marking
}.

Definition build_marked_offsets (entries : list discovered_buffer_marking) : outcome VkMarkedOffsetsARM :=
  let* _ := require (negb (Z.of_nat (length entries) =? 0)) AssertFailed in
  let count := wrap32 (Z.of_nat (length entries)) in
  let entries := take (Z.to_nat count) entries in
  normalize_marked_offsets
    (MarkedOffsets VK_STRUCTURE_TYPE_MARKED_OFFSETS_ARM count (Some (map d_type entries)) (Some (map d_subtype entries)) (Some (map d_offset entries))).

(** the packet that wrote the marked bytes *)
Definition marking_source (w : sim_world) (marking : discovered_buffer_marking) : outcome (option change_source) :=
  let* _ := require (d_size marking >? 0) AssertFailed in
  let* _ := require (negb (bool_decide (d_buffer_data marking = None)) || d_has_explicit_source marking) AssertFailed in
  if d_has_explicit_source marking then Ok (Some (d_source marking))
  else
    match d_buffer_data marking with
    | None => Fail NullPointer
    | Some b => let* buffer := buffer_at w b in try_get_source (d_offset marking) (wrap32 (d_size marking)) (tb_source buffer)
    end.

Definition marking_target (w : sim_world) (marking : discovered_buffer_marking) : outcome (Z * Z) :=
  if d_has_explicit_source marking || negb (d_output_object_type marking =? VK_OBJECT_TYPE_UNKNOWN)
  then Ok (d_output_object_type marking, d_output_object_index marking)
  else
    match d_buffer_data marking with
    | Some b => let* buffer := buffer_at w b in Ok (tb_object_type buffer, tb_index buffer)
    | None => Ok (VK_OBJECT_TYPE_UNKNOWN, CONTAINER_NULL_VALUE)
    end.

Definition bucket_matches (source : change_source) (object_type object_index stage_index : Z)
    (bucket : discovered_output_markings_bucket) : bool :=
  same_change_source (bk_source bucket) source && (bk_object_type bucket =? object_type) && (bk_object_index bucket =? object_index) &&
  (bk_stage_index bucket =? stage_index).

Fixpoint add_to_bucket (source : change_source) (object_type object_index : Z) (marking : discovered_buffer_marking)
    (buckets : list discovered_output_markings_bucket) : list discovered_output_markings_bucket :=
  match buckets with
  | [] => [Bucket source object_type object_index (d_output_stage_index marking) [marking]]
  | b :: buckets =>
      if bucket_matches source object_type object_index (d_output_stage_index marking) b
      then Bucket (bk_source b) (bk_object_type b) (bk_object_index b) (bk_stage_index b) (bk_entries b ++ [marking]) :: buckets
      else b :: add_to_bucket source object_type object_index marking buckets
  end.

Fixpoint fill_buckets (w : sim_world) (discovered : list discovered_buffer_marking) (buckets : list discovered_output_markings_bucket)
    : outcome (list discovered_output_markings_bucket) :=
  match discovered with
  | [] => Ok buckets
  | marking :: discovered =>
      let* source := marking_source w marking in
      match source with
      | None => fill_buckets w discovered buckets
      | Some source =>
          let* (object_type, object_index) := marking_target w marking in
          fill_buckets w discovered (add_to_bucket source object_type object_index marking buckets)
      end
  end.

Fixpoint merge_buckets (buckets : list discovered_output_markings_bucket) (queue : list address_rewrite) : outcome (list address_rewrite) :=
  match buckets with
  | [] => Ok queue
  | b :: buckets =>
      let* markings := build_marked_offsets (bk_entries b) in
      let* queue := merge_rewrite_markings queue (bk_source b) markings (bk_object_type b) (bk_object_index b) (bk_stage_index b) in
      merge_buckets buckets queue
  end.

Definition merge_discovered_markings (w : sim_world) (discovered : list discovered_buffer_marking) (queue : list address_rewrite)
    : outcome (list address_rewrite) :=
  let* buckets := fill_buckets w discovered [] in merge_buckets buckets queue.
End Discover.
Arguments trackedbuffer T : clear implicits.
Arguments sim_world T : clear implicits.

(** ** Outcomes that may abort *)

(** the result satisfies [Q], or the program aborts because of [E] *)
Definition unless_abort {A} (E : Prop) (Q : A -> Prop) (m : outcome A) : Prop :=
  match m with Ok a => Q a | Fail f => f = AbortCall /\ E end.

Lemma unless_abort_bind {A B} E (Q : A -> Prop) (R : B -> Prop) m k :
  unless_abort E Q m -> (forall a, Q a -> unless_abort E R (k a)) -> unless_abort E R (obind m k).
Proof. destruct m; simpl; auto. Qed.

Lemma unless_abort_mono {A} E (Q R : A -> Prop) m : unless_abort E Q m -> (forall a, Q a -> R a) -> unless_abort E R m.
Proof. destruct m; simpl; auto. Qed.

(** ** Locations *)

(** the fields are those of a piece of memory *)
Record source_fields_ok (source : DataSourceBits) : Prop := {
  sf_offset : 0 <= byte_offset source;
  sf_bits : 0 <= bitcount source;
  sf_value : 0 <= val_bit_offset source < 2 ^ 63;
  sf_small : byte_offset source + bitcount source < 2 ^ 62
}.

Definition range_small (r : simulator_buffer_range) : Prop := 0 <= rg_bytes r < 2 ^ 62.

Definition inside (r : simulator_buffer_range) (offset size : Z) : Prop := 0 <= offset /\ offset + size <= rg_bytes r.

Lemma first_range_spec place Q : forall ranges i j r offset,
  (forall r offset, r ∈ ranges -> place r = Some offset -> Q r offset) ->
  first_range place i ranges = Some (j, r, offset) -> (i <= j)%nat /\ ranges !! (j - i)%nat = Some r /\ Q r offset.
Proof.
  induction ranges as [|r0 ranges IH]; intros i j r offset HQ; [done|]. cbn [first_range]. destruct (place r0) as [o|] eqn:E.
  - intros [= <- <- <-]. rewrite Nat.sub_diag. split; [done|]. split; [done|]. apply HQ; [by left|done].
  - intros Hf. apply IH in Hf as (H1 & H2 & H3); [|intros; apply HQ; [by right|done]]. split; [lia|]. split; [|done].
    replace (j - i)%nat with (Datatypes.S (j - Datatypes.S i)) by lia. done.
Qed.

Lemma place_pointer_inside ptr offset size r local : range_small r -> 0 <= offset -> 0 < size -> offset + size < 2 ^ 62 ->
  place_pointer ptr offset size r = Some local -> inside r local size.
Proof.
  intros Hr H1 H2 H3. unfold place_pointer, range_small in *. destruct (_ || _) eqn:E; [done|]. bool_to_prop.
  rewrite (wrap64_small (ptr - base_ptr r + offset)) by u_lia. rewrite wrap64_small by u_lia.
  destruct (_ >? _) eqn:E2; [done|]. intros [= <-]. bool_to_prop. unfold inside. lia.
Qed.

Lemma fits_inside offset size r local : 0 <= offset -> fits offset size r = Some local -> inside r local size.
Proof. intros H1. unfold fits. destruct (_ || _) eqn:E; [done|]. intros [= <-]. bool_to_prop. unfold inside. lia. Qed.

Lemma find_source_range_inside ranges source size i r local : Forall range_small ranges -> source_fields_ok source ->
  0 < size -> byte_offset source + size < 2 ^ 62 ->
  find_simulator_source_range ranges source size = Some (i, r, local) -> ranges !! i = Some r /\ inside r local size.
Proof.
  intros Hr [F1 F2 F3 F4] H1 H2. rewrite Forall_forall in Hr.
  assert (Hp : find_simulator_range ranges (source_ptr source) (byte_offset source) size = Some (i, r, local) -> ranges !! i = Some r /\ inside r local size).
  { unfold find_simulator_range. destruct (_ || _); [done|]. intros Hf.
    apply (first_range_spec _ (fun r local => inside r local size)) in Hf as (_ & E & Hin); [by rewrite Nat.sub_0_r in E|].
    intros r' o Hin. apply place_pointer_inside; [by apply Hr|done|done|done]. }
  assert (Hf : forall place, (forall r o, place r = Some o -> fits (byte_offset source) size r = Some o) ->
    first_range place 0 ranges = Some (i, r, local) -> ranges !! i = Some r /\ inside r local size).
  { intros place Hpl Hf. apply (first_range_spec _ (fun r local => inside r local size)) in Hf as (_ & E & Hin); [by rewrite Nat.sub_0_r in E|].
    intros r' o _ Ho. by eapply fits_inside, Hpl. }
  assert (Hsc : find_simulator_storage_class_range ranges source size = Some (i, r, local) -> ranges !! i = Some r /\ inside r local size).
  { unfold find_simulator_storage_class_range. destruct (size =? 0); [done|]. destruct (ds_storage_class source); try done; apply Hf;
      intros r' o; [unfold place_push_constant|unfold place_binding..]; repeat (case_match; try done). }
  unfold find_simulator_source_range. destruct (location source); [|exact Hp|done].
  destruct (find_simulator_range _ _ _ _) as [found|]; [|exact Hsc]. intros [= ->]. by apply Hp.
Qed.

(** ** Provenance of the ranges *)

Section Sound.
Context {T : Type} `{MemoryFlagTracker T} `{MarkingHeader}.
(** the byte that a packet wrote for a stage at an offset of its object *)
Context (payload : provenance -> option byte).
Context (w : sim_world T).

Definition range_regions (r : simulator_buffer_range) : option (host_write_regions T) :=
  match source_regions r with
  | Some ref => Some (referenced_regions w ref)
  | None => match buffer_data r with Some b => option_map tb_source (VkBuffer_index w !! b) | None => None end
  end.

(** the stage a marking of the range is written for *)
Definition output_provenance (r : simulator_buffer_range) (p : provenance) : provenance :=
  Provenance (pv_packet p) (pv_frame p) (pv_thread p) (pv_call_id p)
    (if source_stage_index r =? CONTAINER_NULL_VALUE then pv_stage p else source_stage_index r) (pv_offset p).

Record range_ok (r : simulator_buffer_range) : Prop := {
  rk_small : range_small r;
  rk_offset : 0 <= buffer_offset r < 2 ^ 62;
  rk_buffer : forall b, buffer_data r = Some b -> is_Some (VkBuffer_index w !! b);
  rk_regions : exists regions, range_regions r = Some regions /\ regions_ok regions;
  (** the bytes of the range are those of the writes its regions name *)
  rk_sound : forall regions k p, range_regions r = Some regions -> 0 <= k < rg_bytes r ->
    source_at regions (buffer_offset r + k) = Some p ->
    0 <= pv_offset p /\ payload (output_provenance r p) = Some (mem w (base_ptr r + k))
}.

(** the eight bytes come from no single write *)
Definition uncovered (r : simulator_buffer_range) (offset : Z) : Prop :=
  inside r offset 8 /\ exists regions, range_regions r = Some regions /\ forall p, ~ one_source regions (buffer_offset r + offset) 8 p.

Definition marking_key (d : discovered_buffer_marking) (k : nat) : provenance :=
  provenance_of (d_source d) (d_output_stage_index d) (d_offset d + Z.of_nat k).

(** the marking is of an address, and the bytes it marks in its packet are [l] *)
Definition marks_bytes (d : discovered_buffer_marking) (l : list byte) : Prop :=
  d_has_explicit_source d = true /\ d_size d = 8 /\ d_type d = VK_MARKING_TYPE_DEVICE_ADDRESS_ARM /\
  d_subtype d = VK_DEVICE_ADDRESS_TYPE_BUFFER_ARM /\ mapM (fun k => payload (marking_key d k)) (seq 0 8) = Some l.

Definition marks_value (d : discovered_buffer_marking) (v : Z) : Prop := exists l, marks_bytes d l /\ le_decode l = v.

Lemma range_reference r offset regions : range_ok r -> range_regions r = Some regions -> inside r offset 8 ->
  get_range_source_reference w r offset 8 = try_get_reference (buffer_offset r + offset) 8 regions.
Proof.
  intros [[K1 K1'] K2 K3 _ _] Hr [I1 I2]. unfold range_regions, get_range_source_reference, buffer_at in *.
  rewrite wrap64_small by u_lia. change (wrap32 8) with 8. destruct (source_regions r) as [ref|]; [by injection Hr as <-|].
  destruct (buffer_data r) as [b|]; [|done]. destruct (VkBuffer_index w !! b) as [buffer|]; [|done]. by injection Hr as <-.
Qed.

Lemma mapM_seq {A} (f : nat -> option A) (g : nat -> A) n : (forall k, (k < n)%nat -> f k = Some (g k)) ->
  mapM f (seq 0 n) = Some (map g (seq 0 n)).
Proof.
  intros Hf. apply mapM_Some. apply Forall2_fmap_r, Forall_Forall2_diag. apply Forall_seq. intros k Hk. apply Hf. lia.
Qed.

Lemma mark_place_spec r offset discovered : range_ok r -> inside r offset 8 ->
  unless_abort (uncovered r offset) (fun ds => exists d, ds = discovered ++ [d] /\ marks_bytes d (load w (base_ptr r + offset) 8))
    (mark_place w r offset discovered).
Proof.
  intros K I. pose proof K as [[K1 K1'] K2 K3 (regions & Hreg & Hok) Hsound]. destruct I as [I1 I2].
  unfold mark_place, address_reference. rewrite (range_reference r offset regions K Hreg (conj I1 I2)).
  destruct (try_get_reference_spec regions (buffer_offset r + offset) 8 Hok) as (res & Eres & Hres); [lia|lia|u_lia|].
  rewrite Eres. cbn [obind]. destruct res as [ref|]; cbn [obind unless_abort].
  2:{ split; [done|]. split; [done|]. exists regions. split; [done|]. intros p Hp. by apply Hres in Hp as (? & ? & _). }
  eexists. split; [reflexivity|].
  destruct (proj2 (Hres (reference_provenance ref 0))) as [Hfirst Hall]; [by exists ref|].
  pose proof (try_get_reference_offset regions (buffer_offset r + offset) 8 ref Hok ltac:(lia) ltac:(lia) ltac:(u_lia) Eres) as Hoff.
  destruct (Hsound regions offset (reference_provenance ref 0) Hreg ltac:(lia) Hfirst) as [Hpos _].
  unfold reference_provenance in Hpos. cbn [pv_offset provenance_of] in Hpos. rewrite Z.add_0_r, <- Hoff in Hpos.
  split; [done|]. split; [done|]. split; [done|]. split; [done|]. unfold load.
  apply mapM_seq. intros k Hk. specialize (Hall (Z.of_nat k) ltac:(lia)). rewrite advance_reference in Hall.
  rewrite <- Z.add_assoc in Hall. destruct (Hsound regions (offset + Z.of_nat k) _ Hreg ltac:(lia) Hall) as [_ Hpay].
  rewrite Z.add_assoc in Hpay. rewrite <- Hpay. f_equal. unfold marking_key, address_marking. cbn [d_source d_output_stage_index d_offset].
  rewrite Z.geb_leb, (proj2 (Z.leb_le _ _)) by done. unfold output_provenance, reference_provenance, provenance_of, range_output_stage_index.
  cbn [pv_packet pv_frame pv_thread pv_call_id pv_stage pv_offset]. done.
Qed.

(** ** The value that is marked *)

(** [v] lies in a buffer that is known by its address *)
Definition known_value (ranges : list simulator_buffer_range) (v : Z) : Prop :=
  exists r, r ∈ ranges /\ knows_address w v r = Ok true.

(** the pieces hold bits of the pointer *)
Definition truthful (ranges : list simulator_buffer_range) (pointer_data : PhysicalAddressData) : Prop :=
  forall source c, source ∈ bit_components pointer_data -> component_of ranges source = Some c ->
    forall k, 0 <= k < sc_bitcount c / 8 ->
      le_encode 8 (raw_pointer_value pointer_data) !! Z.to_nat (sc_val_bit_offset c / 8 + k) =
        Some (mem w (base_ptr (snd (sc_range c)) + sc_local_offset c + k)).

Definition pointer_ok (pointer_data : PhysicalAddressData) : Prop :=
  u64 (raw_pointer_value pointer_data) /\ Forall source_fields_ok (bit_components pointer_data).

Context (ranges : list simulator_buffer_range) (Hranges : Forall (range_ok) ranges).

Lemma ranges_small : Forall range_small ranges.
Proof using Hranges. eapply Forall_impl; [exact Hranges|]. by intros r []. Qed.

Lemma load_lookup address n k : (k < n)%nat -> load w address n !! k = Some (mem w (address + Z.of_nat k)).
Proof. intros Hk. unfold load. by rewrite list_lookup_fmap, lookup_seq_lt. Qed.

Lemma load_value address v : u64 v -> (forall k : nat, (k < 8)%nat -> le_encode 8 v !! k = Some (mem w (address + Z.of_nat k))) ->
  le_decode (load w address 8) = v.
Proof.
  intros Hv Hk. rewrite <- (le_decode_encode_small 8 v) by (unfold u64, UINT64_MAX in Hv; change (256 ^ Z.of_nat 8) with (2 ^ 64); lia).
  f_equal. apply list_eq. intros k. destruct (decide (k < 8)%nat) as [Hlt|Hge].
  - by rewrite load_lookup, Hk.
  - rewrite !lookup_ge_None_2; [done|rewrite length_le_encode; lia|unfold load; rewrite length_map, length_seq; lia].
Qed.

(** what is found is the pointer itself or a known address *)
Definition good_marking (values : Z -> Prop) (d : discovered_buffer_marking) : Prop := exists v, marks_value d v /\ values v.

(** a place is missing its source *)
Definition missing_source : Prop := exists r offset, r ∈ ranges /\ uncovered r offset.

Lemma mark_value (values : Z -> Prop) i r offset discovered : ranges !! i = Some r -> inside r offset 8 ->
  values (load64 w (base_ptr r + offset)) -> Forall (good_marking values) discovered ->
  unless_abort missing_source (fun ds => exists d, ds = discovered ++ [d] /\ marks_value d (load64 w (base_ptr r + offset)) /\
    Forall (good_marking values) ds) (mark_place w r offset discovered).
Proof using Hranges.
  intros Hi Hin Hv Hd. pose proof (Forall_lookup_1 _ _ _ _ Hranges Hi) as K.
  pose proof (mark_place_spec r offset discovered K Hin) as Hm.
  destruct (mark_place w r offset discovered) as [ds|f]; cbn [unless_abort] in *.
  - destruct Hm as (d & -> & Hb). exists d. split; [done|]. assert (marks_value d (load64 w (base_ptr r + offset))) as Hval by (by eexists).
    split; [done|]. apply Forall_app. split; [done|]. apply Forall_singleton. by eexists.
  - destruct Hm as [-> Hu]. split; [done|]. exists r, offset. split; [|done]. by eapply list_elem_of_lookup_2.
Qed.

Section Pointer.
Context (pointer_data : PhysicalAddressData) (Hok : pointer_ok pointer_data) (Htrue : truthful ranges pointer_data).
Context (values : Z -> Prop) (Hraw : values (raw_pointer_value pointer_data)) (Hknown : forall v, known_value ranges v -> values v).
Abbreviation pointer := (raw_pointer_value pointer_data).

(** a piece that is the whole pointer *)
Definition whole (source : DataSourceBits) : bool :=
  memory_location source && (bit_offset source =? 0) && (val_bit_offset source =? 0) && (bitcount source =? ADDRESS_BITS) &&
  bool_decide (is_Some (find_simulator_source_range ranges source 8)).

Lemma component_fields source c : source ∈ bit_components pointer_data -> component_of ranges source = Some c ->
  exists i r, sc_range c = (i, r) /\ ranges !! i = Some r /\ inside r (sc_local_offset c) (sc_bitcount c / 8) /\
    0 <= sc_val_bit_offset c /\ 0 < sc_bitcount c /\ sc_bitcount c mod 8 = 0 /\ sc_val_bit_offset c mod 8 = 0 /\
    sc_val_bit_offset c + sc_bitcount c <= 64.
Proof using Hranges Hok.
  intros Hin. destruct Hok as [_ Hf]. rewrite Forall_forall in Hf. pose proof (Hf _ Hin) as F. pose proof F as [F1 F2 F3 F4].
  unfold component_of. destruct (negb (memory_location source)); [done|]. destruct (_ || _) eqn:E1; [done|].
  destruct (_ >=? _) eqn:E2; [done|]. destruct (wrap64 _ >? _) eqn:E3; [done|]. unfold ADDRESS_BITS in *. bool_to_prop.
  rewrite wrap64_small in E3 by u_lia.
  assert (8 <= bitcount source) by (pose proof (Z.div_mod (bitcount source) 8); lia).
  pose proof (Z.div_le_mono 8 (bitcount source) 8 ltac:(lia) ltac:(lia)) as Hd. change (8 / 8) with 1 in Hd.
  destruct (find_simulator_source_range _ _ _) as [[[i r] local]|] eqn:Ef; [|done]. intros [= <-]. cbn [sc_range sc_local_offset sc_bitcount sc_val_bit_offset].
  apply find_source_range_inside in Ef as [Hi Hins]; [|apply ranges_small|done|lia|].
  2:{ pose proof (Z.div_le_upper_bound (bitcount source) 8 (bitcount source)). lia. }
  exists i, r. repeat split; try done; try lia; by destruct Hins.
Qed.

(** what the discovery of a pointer gives: good markings, after the ones before *)
Definition found_more (discovered : list discovered_buffer_marking) (ds : list discovered_buffer_marking) : Prop :=
  exists new, ds = discovered ++ new /\ Forall (good_marking values) ds.

Lemma found_more_refl discovered : Forall (good_marking values) discovered -> found_more discovered discovered.
Proof. intros Hd. exists []. by rewrite app_nil_r. Qed.

Lemma found_more_trans l1 l2 l3 : found_more l1 l2 -> found_more l2 l3 -> found_more l1 l3.
Proof. intros (n1 & -> & _) (n2 & -> & H3). exists (n1 ++ n2). split; [by rewrite app_assoc|done]. Qed.

Lemma found_more_app discovered d : Forall (good_marking values) (discovered ++ [d]) -> found_more discovered (discovered ++ [d]).
Proof. intros Hd. by exists [d]. Qed.

Definition marks_pointer (ds : list discovered_buffer_marking) : Prop := Exists (fun d => marks_value d pointer) ds.

Lemma found_more_marks l1 l2 : found_more l1 l2 -> marks_pointer l1 -> marks_pointer l2.
Proof. intros (n & -> & _) Hm. apply Exists_app. by left. Qed.

Lemma whole_component source r i local : source ∈ bit_components pointer_data -> memory_location source = true ->
  bit_offset source = 0 -> val_bit_offset source = 0 -> bitcount source = ADDRESS_BITS ->
  find_simulator_source_range ranges source 8 = Some (i, r, local) ->
  ranges !! i = Some r /\ inside r local 8 /\ load64 w (base_ptr r + local) = pointer.
Proof using Hranges Hok Htrue.
  intros Hin Hl E1 E2 E3 Ef. assert (Ec : component_of ranges source = Some (SourceComponent (i, r) local 64 0)).
  { unfold component_of. rewrite Hl, E1, E2, E3. unfold ADDRESS_BITS. cbn -[find_simulator_source_range]. change (64 / 8) with 8. by rewrite Ef. }
  destruct (component_fields source _ Hin Ec) as (i' & r' & [= <- <-] & Hi & Hins & _). cbn [sc_local_offset sc_bitcount] in Hins.
  split; [done|]. split; [done|]. destruct Hok as [Hv _]. apply load_value; [done|]. intros k Hk.
  pose proof (Htrue source _ Hin Ec (Z.of_nat k)) as Ht. cbn [sc_range sc_local_offset sc_bitcount sc_val_bit_offset snd] in Ht.
  rewrite <- Ht by (change (64 / 8) with 8; lia). f_equal. change (0 / 8) with 0. lia.
Qed.

Lemma collect_direct_spec components : (forall s, s ∈ components -> s ∈ bit_components pointer_data) -> forall found discovered,
  Forall (good_marking values) discovered -> (found = true -> marks_pointer discovered) ->
  unless_abort missing_source (fun '(found', ds) => found_more discovered ds /\ (found' = true -> marks_pointer ds) /\
    (found = true \/ existsb whole components = true -> found' = true)) (collect_direct w ranges components found discovered).
Proof using Hranges Hok Htrue Hraw.
  induction components as [|source components IH]; intros Hsub found discovered Hd Hm; cbn [collect_direct existsb].
  { cbn [unless_abort]. split; [by apply found_more_refl|]. split; [done|]. by intros [?|?]. }
  assert (Hsub' : forall s, s ∈ components -> s ∈ bit_components pointer_data) by (intros s Hs; apply Hsub; by right).
  assert (Hin : source ∈ bit_components pointer_data) by (apply Hsub; by left). specialize (IH Hsub').
  assert (Hskip : whole source = false -> unless_abort missing_source (fun '(found', ds) => found_more discovered ds /\ (found' = true -> marks_pointer ds) /\
    (found = true \/ whole source || existsb whole components = true -> found' = true)) (collect_direct w ranges components found discovered)).
  { intros ->. by apply IH. }
  unfold whole in Hskip at 1. destruct (memory_location source) eqn:El; cbn [negb]; [|by apply Hskip].
  destruct (Z.eqb_spec (bit_offset source) 0) as [E1|_]; [|by apply Hskip].
  destruct (Z.eqb_spec (val_bit_offset source) 0) as [E2|_]; [|by apply Hskip].
  destruct (Z.eqb_spec (bitcount source) ADDRESS_BITS) as [E3|_]; [|by apply Hskip]. cbn [negb orb].
  destruct (find_simulator_source_range ranges source 8) as [[[i r] local]|] eqn:Ef; [|apply Hskip; by rewrite andb_false_r].
  destruct (whole_component source r i local Hin El E1 E2 E3 Ef) as (Hi & Hins & Eval).
  eapply unless_abort_bind; [apply (mark_value values i r local discovered Hi Hins); [by rewrite Eval|done]|].
  intros ds (d & -> & Hval & Hds). rewrite Eval in Hval.
  eapply unless_abort_mono; [apply (IH true (discovered ++ [d]) Hds)|].
  { intros _. apply Exists_app. right. by apply Exists_cons_hd. }
  intros [found' ds'] (G1 & G2 & G3). split; [eapply found_more_trans; [by apply found_more_app|done]|]. split; [done|]. intros _. apply G3. by left.
Qed.

(** the pieces found lie where the bits they cover say *)
Lemma contiguous_bits_spec i r base components : ranges !! i = Some r -> 0 <= base < 2 ^ 62 -> forall covered total,
  (forall c, c ∈ components -> exists source, source ∈ bit_components pointer_data /\ component_of ranges source = Some c) ->
  contiguous_bits i base covered components = Some total -> 0 <= covered <= 64 -> covered mod 8 = 0 ->
  (covered < total -> base + total / 8 <= rg_bytes r) /\ forall k : nat, covered <= 8 * Z.of_nat k < total ->
    le_encode 8 pointer !! k = Some (mem w (base_ptr r + base + Z.of_nat k)).
Proof using Hranges Hok Htrue.
  intros Hi Hbase. induction components as [|c components IH]; intros covered total Hsub; cbn [contiguous_bits].
  { intros [= <-] Hc Hm. split; [lia|]. intros k Hk. lia. }
  destruct (Nat.eqb_spec (fst (sc_range c)) i) as [Er|]; [|done]. cbn [negb].
  destruct (Z.eqb_spec (sc_val_bit_offset c) covered) as [Ev|]; [|done]. cbn [negb].
  destruct (Z.eqb_spec (sc_local_offset c) (wrap64 (base + sc_val_bit_offset c / 8))) as [El|]; [|done]. cbn [negb].
  intros Hf Hc Hm. destruct (Hsub c) as (source & Hin & Ec); [by left|].
  destruct (component_fields source c Hin Ec) as (i' & r' & Esc & Hi' & Hins & B1 & B2 & B3 & B4 & B5).
  rewrite Esc in Er. cbn [fst] in Er. subst i'. rewrite Hi in Hi'. injection Hi' as <-.
  assert (Hdiv : 0 <= sc_val_bit_offset c / 8 <= 8) by (pose proof (Z.div_mod (sc_val_bit_offset c) 8); lia).
  rewrite wrap64_small in El by u_lia. rewrite wrap64_small in Hf by u_lia.
  destruct (IH (covered + sc_bitcount c) total) as [Ht Hk]; [intros c' Hc'; apply Hsub; by right|done|lia| |].
  { rewrite Z.add_mod, Hm, B3 by lia. done. }
  pose proof (Z.div_mod (sc_val_bit_offset c) 8 ltac:(lia)) as D1. pose proof (Z.div_mod (sc_bitcount c) 8 ltac:(lia)) as D2.
  split.
  { intros _. destruct (decide (covered + sc_bitcount c < total)) as [Hlt|Hge]; [by apply Ht|]. destruct Hins as [_ Hins].
    pose proof (Z.div_mod total 8 ltac:(lia)). pose proof (Z.mod_pos_bound total 8 ltac:(lia)). lia. }
  intros k Hkk. destruct (decide (covered + sc_bitcount c <= 8 * Z.of_nat k)) as [Hge|Hlt]; [apply Hk; lia|].
  pose proof (Htrue source c Hin Ec (Z.of_nat k - sc_val_bit_offset c / 8) ltac:(lia)) as Htk.
  rewrite Esc in Htk. cbn [snd] in Htk. rewrite El in Htk.
  replace (Z.to_nat (sc_val_bit_offset c / 8 + (Z.of_nat k - sc_val_bit_offset c / 8))) with k in Htk by lia.
  rewrite Htk. do 2 f_equal. lia.
Qed.

Lemma collect_contiguous_spec discovered : Forall (good_marking values) discovered ->
  unless_abort missing_source (fun '(_, ds) => found_more discovered ds)
    (collect_contiguous_device_address_marking w ranges pointer_data discovered).
Proof using Hranges Hok Htrue Hraw.
  intros Hd. unfold collect_contiguous_device_address_marking.
  assert (Hsub : forall c, c ∈ merge_sort sc_before (omap (component_of ranges) (bit_components pointer_data)) ->
    exists source, source ∈ bit_components pointer_data /\ component_of ranges source = Some c).
  { intros c. rewrite merge_sort_Permutation, list_elem_of_omap. intros (s & Hs & Hc). by exists s. }
  destruct (merge_sort _ _) as [|front rest]; [by apply found_more_refl|].
  destruct (Hsub front) as (source & Hin & Ec); [by left|].
  destruct (component_fields source front Hin Ec) as (i & r & Esc & Hi & Hins & B1 & B2 & B3 & B4 & B5).
  rewrite Esc. cbn [fst snd]. destruct (contiguous_bits _ _ _ _) as [total|] eqn:Eb; [|by apply found_more_refl].
  destruct (Z.eqb_spec total ADDRESS_BITS) as [->|]; [|by apply found_more_refl]. cbn [negb].
  pose proof (Forall_lookup_1 _ _ _ _ ranges_small Hi) as Hsm. destruct Hins as [I1 I2]. unfold range_small in Hsm.
  pose proof (Z.div_pos (sc_bitcount front) 8 ltac:(lia) ltac:(lia)).
  destruct (Z.eq_dec (sc_local_offset front) (2 ^ 62)) as [|Hne]; [lia|].
  destruct (contiguous_bits_spec i r (sc_local_offset front) (front :: rest) Hi ltac:(lia) 0 ADDRESS_BITS Hsub Eb) as [Hend Hk]; [lia|done|].
  unfold ADDRESS_BITS in *. specialize (Hend ltac:(lia)). change (64 / 8) with 8 in Hend.
  assert (Eval : load64 w (base_ptr r + sc_local_offset front) = pointer).
  { destruct Hok as [Hv _]. apply load_value; [done|]. intros k Hlt. apply Hk. lia. }
  eapply unless_abort_bind; [apply (mark_value values i r _ discovered Hi (conj I1 Hend)); [by rewrite Eval|done]|].
  intros ds (d & -> & _ & Hds). by apply found_more_app.
Qed.

(** *** Composite sources *)

Lemma known_address_spec v rs : (forall r, r ∈ rs -> r ∈ ranges) ->
  exists known, known_address w v rs = Ok known /\ (known = true -> known_value ranges v).
Proof using Hranges.
  induction rs as [|r rs IH]; intros Hsub; cbn [known_address]; [by exists false|].
  assert (Hr : r ∈ ranges) by (apply Hsub; by left). destruct IH as (known & E & Hk); [intros r' Hr'; apply Hsub; by right|].
  rewrite Forall_forall in Hranges. destruct (Hranges r Hr) as [_ _ Hb _ _].
  destruct (knows_address w v r) as [k|f] eqn:Ek.
  - cbn [obind]. destruct k; [|by exists known]. exists true. split; [done|]. intros _. by exists r.
  - exfalso. unfold knows_address, buffer_at in Ek. destruct (negb _); [done|]. destruct (buffer_data r) as [b|]; [|done].
    destruct (Hb b eq_refl) as [buffer Eb]. by rewrite Eb in Ek.
Qed.

Lemma scan_range_spec i r alignment offsets : ranges !! i = Some r -> (forall o, o ∈ offsets -> inside r o 8) -> forall found discovered,
  Forall (good_marking values) discovered ->
  unless_abort missing_source (fun '(_, ds) => found_more discovered ds) (scan_range w ranges r alignment offsets found discovered).
Proof using Hranges Hknown.
  intros Hi. induction offsets as [|o offsets IH]; intros Hins found discovered Hd; cbn [scan_range]; [by apply found_more_refl|].
  assert (Ho : inside r o 8) by (apply Hins; by left).
  assert (IH' := fun f ds => IH (fun o' Ho' => Hins o' (list_elem_of_further _ _ _ Ho')) f ds). clear IH.
  destruct (negb (nth _ _ _)); [by apply IH'|].
  destruct (known_address_spec (load64 w (base_ptr r + o)) ranges) as (known & -> & Hk); [done|]. cbn [obind].
  destruct known; cbn [negb]; [|by apply IH'].
  eapply unless_abort_bind; [apply (mark_value values i r o discovered Hi Ho); [by apply Hknown, Hk|done]|].
  intros ds (d & -> & _ & Hds). eapply unless_abort_mono; [by apply IH'|]. intros [found' ds'] Hm.
  eapply found_more_trans; [by apply found_more_app|done].
Qed.

Lemma collect_composite_spec components : (forall s, s ∈ components -> s ∈ bit_components pointer_data) -> forall found discovered,
  Forall (good_marking values) discovered ->
  unless_abort missing_source (fun '(_, ds) => found_more discovered ds) (collect_composite w ranges pointer components found discovered).
Proof using Hranges Hok Hknown.
  induction components as [|source components IH]; intros Hsub found discovered Hd; cbn [collect_composite]; [by apply found_more_refl|].
  assert (Hin : source ∈ bit_components pointer_data) by (apply Hsub; by left).
  specialize (IH (fun s Hs => Hsub s (list_elem_of_further _ _ _ Hs))).
  destruct (negb (memory_location source)); [by apply IH|]. destruct (_ || _) eqn:E1; [by apply IH|]. unfold ADDRESS_BITS in E1. bool_to_prop.
  destruct (find_simulator_source_range ranges source _) as [[[i r] local]|] eqn:Ef; [|by apply IH].
  destruct Hok as [_ Hf]. rewrite Forall_forall in Hf. destruct (Hf _ Hin) as [F1 F2 F3 F4].
  pose proof (Z.div_mod (bitcount source) 8 ltac:(lia)).
  apply find_source_range_inside in Ef as [Hi _]; [|apply ranges_small|by apply Hf|lia|lia].
  eapply unless_abort_bind; [apply (scan_range_spec i r _ _ Hi); [|done]|].
  - intros o Ho. apply elem_of_seqZ in Ho. split; lia.
  - intros [found' ds] Hds. eapply unless_abort_mono; [apply IH; by destruct Hds as (? & ? & ?)|].
    intros [found'' ds'] Hm. by eapply found_more_trans.
Qed.

Lemma collect_pointer_spec discovered : Forall (good_marking values) discovered ->
  unless_abort missing_source (fun ds => found_more discovered ds /\ (existsb whole (bit_components pointer_data) = true -> marks_pointer ds))
    (collect_pointer w ranges pointer_data discovered).
Proof using Hranges Hok Htrue Hraw Hknown.
  intros Hd. unfold collect_pointer.
  eapply unless_abort_bind; [by apply (collect_direct_spec (bit_components pointer_data) (fun s Hs => Hs) false discovered)|].
  intros [found ds] (G1 & G2 & G3). cbn beta iota. destruct found.
  { cbn [obind unless_abort]. split; [done|]. intros _. by apply G2. }
  assert (Hn : existsb whole (bit_components pointer_data) = true -> False) by (intros Hw; specialize (G3 (or_intror Hw)); done).
  assert (Hds : Forall (good_marking values) ds) by (by destruct G1 as (? & ? & ?)).
  eapply unless_abort_bind; [by apply collect_contiguous_spec|]. intros [found ds1] Hds1. cbn beta iota.
  pose proof (found_more_trans _ _ _ G1 Hds1) as G4. destruct found; [split; [done|intros Hw; by destruct Hn]|].
  assert (Hds1' : Forall (good_marking values) ds1) by (by destruct Hds1 as (? & ? & ?)).
  eapply unless_abort_bind; [by apply (collect_composite_spec (bit_components pointer_data) (fun s Hs => Hs) false ds1)|].
  intros [found ds2] Hds2. cbn [unless_abort]. split; [by eapply found_more_trans|]. intros Hw. by destruct Hn.
Qed.
End Pointer.
End Sound.

Section Results.
Context {T : Type} `{MemoryFlagTracker T} `{MarkingHeader}.
Context (payload : provenance -> option byte) (w : sim_world T) (ranges : list simulator_buffer_range) (values : Z -> Prop).
Context (Hranges : Forall (range_ok payload w) ranges) (Hknown : forall v, known_value w ranges v -> values v).

Lemma collect_results_spec results : Forall pointer_ok results -> Forall (truthful w ranges) results ->
  Forall (fun pd => values (raw_pointer_value pd)) results -> forall discovered, Forall (good_marking payload values) discovered ->
  unless_abort (missing_source w ranges) (fun ds => found_more payload values discovered ds /\
      Forall (fun pd => existsb (whole ranges) (bit_components pd) = true -> marks_pointer payload pd ds) results)
    (collect_simulator_physical_address_markings w ranges results discovered).
Proof using Hranges Hknown.
  induction results as [|pd results IH]; intros Hok Ht Hv discovered Hd; cbn [collect_simulator_physical_address_markings].
  { split; [by apply found_more_refl|constructor]. }
  apply Forall_cons in Hok as [O1 O2]. apply Forall_cons in Ht as [T1 T2]. apply Forall_cons in Hv as [V1 V2].
  eapply unless_abort_bind; [by apply (collect_pointer_spec payload w ranges Hranges pd O1 T1 values V1 Hknown)|].
  intros ds [G1 G2]. assert (Hds : Forall (good_marking payload values) ds) by (by destruct G1 as (? & ? & ?)).
  eapply unless_abort_mono; [by apply (IH O2 T2 V2 ds)|]. intros ds' [G3 G4]. split; [by eapply found_more_trans|].
  constructor; [|done]. intros Hw. eapply found_more_marks; [exact G3|by apply G2].
Qed.
End Results.

(** ** Buckets *)

Section Buckets.
Context {T : Type} `{MemoryFlagTracker T} `{MarkingHeader}.
Context (w : sim_world T).

Definition entry_marking (d : discovered_buffer_marking) : marking := Marking (d_offset d) (d_type d) (d_subtype d).

(** a marking whose source can be asked for *)
Definition marking_ok (d : discovered_buffer_marking) : Prop :=
  0 < d_size d /\
  (d_has_explicit_source d = false -> 0 <= d_offset d /\ d_offset d + d_size d <= UINT64_MAX /\ u32 (d_size d) /\
    exists b buffer, d_buffer_data d = Some b /\ VkBuffer_index w !! b = Some buffer /\ regions_ok (tb_source buffer)).

(** the marking goes to the entry [k] of the queue as [x] *)
Definition goes_to (d : discovered_buffer_marking) (k : rewrite_key) (x : marking) : Prop :=
  exists source object_type object_index, marking_source w d = Ok (Some source) /\
    marking_target w d = Ok (object_type, object_index) /\
    key_of source object_type object_index (d_output_stage_index d) = k /\ entry_marking d = x.

Lemma marking_source_ok d : marking_ok d -> exists source, marking_source w d = Ok source.
Proof.
  intros [Hs Hb]. unfold marking_source. rewrite Z.gtb_ltb, (proj2 (Z.ltb_lt _ _)) by done. cbn [require obind].
  destruct (d_has_explicit_source d); [rewrite orb_true_r; by eexists|].
  destruct Hb as (H1 & H2 & H3 & b & buffer & Eb & El & Hr); [done|]. rewrite Eb, bool_decide_false by done. cbn [negb orb require obind].
  unfold buffer_at. rewrite El. cbn [obind]. rewrite wrap32_small by done. unfold try_get_source.
  destruct (try_get_reference_spec (tb_source buffer) (d_offset d) (d_size d) Hr H1 Hs H2) as (res & -> & _). by eexists.
Qed.

Lemma marking_target_ok d : marking_ok d -> exists object_type object_index, marking_target w d = Ok (object_type, object_index).
Proof.
  intros [Hs Hb]. unfold marking_target. destruct (d_has_explicit_source d); [by do 2 eexists|]. cbn [orb].
  destruct (negb _); [by do 2 eexists|]. destruct Hb as (_ & _ & _ & b & buffer & -> & El & _); [done|].
  unfold buffer_at. rewrite El. by do 2 eexists.
Qed.

Definition bucket_key (b : discovered_output_markings_bucket) : rewrite_key :=
  key_of (bk_source b) (bk_object_type b) (bk_object_index b) (bk_stage_index b).

Definition bucketed (buckets : list discovered_output_markings_bucket) (k : rewrite_key) (x : marking) : Prop :=
  Exists (fun b => bucket_key b = k /\ x ∈ map entry_marking (bk_entries b)) buckets.

Definition bucket_total (buckets : list discovered_output_markings_bucket) : Z :=
  foldr (fun b n => Z.of_nat (length (bk_entries b)) + n) 0 buckets.

Definition bucket_filled (b : discovered_output_markings_bucket) : Prop := bk_entries b <> [].

Lemma bucket_matches_key source ty ix stage b : bucket_matches source ty ix stage b = true <-> bucket_key b = key_of source ty ix stage.
Proof.
  unfold bucket_matches, same_change_source, bucket_key, key_of. rewrite !andb_true_iff, !Z.eqb_eq.
  split; [intros [[[[[[-> ->] ->] ->] ->] ->] ->]; done|]. by intros [= -> -> -> -> -> -> ->].
Qed.

Lemma add_to_bucket_spec source ty ix d buckets : Forall bucket_filled buckets ->
  let buckets' := add_to_bucket source ty ix d buckets in
  Forall bucket_filled buckets' /\ bucket_total buckets' = bucket_total buckets + 1 /\
  forall k x, bucketed buckets' k x <-> bucketed buckets k x \/ key_of source ty ix (d_output_stage_index d) = k /\ entry_marking d = x.
Proof.
  intros Hf buckets'. subst buckets'. induction Hf as [|b buckets Hb Hf (IH1 & IH2 & IH3)]; cbn [add_to_bucket].
  - split; [by repeat constructor|]. split; [done|]. intros k x. unfold bucketed. rewrite Exists_cons, !Exists_nil. unfold bucket_key.
    cbn [bk_source bk_object_type bk_object_index bk_stage_index bk_entries map]. rewrite list_elem_of_singleton. intuition congruence.
  - destruct (bucket_matches _ _ _ _ b) eqn:Em.
    + apply bucket_matches_key in Em. split; [constructor; [|done]; unfold bucket_filled; cbn [bk_entries]; by destruct (bk_entries b)|].
      split; [unfold bucket_total; cbn [foldr bk_entries]; rewrite length_app; cbn [length]; lia|]. intros k x. unfold bucketed. rewrite !Exists_cons.
      unfold bucket_key at 1. cbn [bk_source bk_object_type bk_object_index bk_stage_index bk_entries]. fold (bucket_key b).
      rewrite map_app, elem_of_app. cbn [map]. rewrite list_elem_of_singleton, Em. intuition congruence.
    + split; [by constructor|]. split; [unfold bucket_total in *; cbn [foldr]; lia|]. intros k x. unfold bucketed in *. rewrite !Exists_cons, IH3. tauto.
Qed.

Lemma fill_buckets_spec discovered : Forall marking_ok discovered -> forall buckets, Forall bucket_filled buckets ->
  exists buckets', fill_buckets w discovered buckets = Ok buckets' /\ Forall bucket_filled buckets' /\
    bucket_total buckets' <= bucket_total buckets + Z.of_nat (length discovered) /\
    forall k x, bucketed buckets' k x <-> bucketed buckets k x \/ Exists (fun d => goes_to d k x) discovered.
Proof.
  induction 1 as [|d discovered Hd Hds IH]; intros buckets Hf; cbn [fill_buckets].
  { exists buckets. split; [done|]. split; [done|]. split; [simpl; lia|]. intros k x. rewrite Exists_nil. tauto. }
  destruct (marking_source_ok d Hd) as [source Es]. rewrite Es. cbn [obind length]. rewrite Nat2Z.inj_succ. destruct source as [source|].
  - destruct (marking_target_ok d Hd) as (ty & ix & Et). rewrite Et. cbn [obind].
    destruct (add_to_bucket_spec source ty ix d buckets Hf) as (A1 & A2 & A3).
    destruct (IH _ A1) as (buckets' & -> & B1 & B2 & B3). exists buckets'. split; [done|]. split; [done|]. split; [lia|].
    intros k x. rewrite B3, A3, Exists_cons. enough (goes_to d k x <-> key_of source ty ix (d_output_stage_index d) = k /\ entry_marking d = x) by tauto.
    split; [|intros [? ?]; by exists source, ty, ix]. intros (source' & ty' & ix' & E1 & E2 & E3 & E4). rewrite Es in E1. rewrite Et in E2.
    injection E1 as <-. injection E2 as <- <-. done.
  - destruct (IH buckets Hf) as (buckets' & -> & B1 & B2 & B3). exists buckets'. split; [done|]. split; [done|]. split; [lia|].
    intros k x. rewrite B3, Exists_cons. enough (~ goes_to d k x) by tauto. intros (? & ? & ? & E1 & _). by rewrite Es in E1.
Qed.

Lemma build_spec entries : entries <> [] -> Z.of_nat (length entries) <= UINT32_MAX ->
  exists m, build_marked_offsets entries = Ok m /\ marked m /\ count m <= Z.of_nat (length entries) /\
    forall x, x ∈ marks m <-> x ∈ map entry_marking entries.
Proof.
  intros Hne Hlen. unfold build_marked_offsets.
  assert (Hpos : 0 < Z.of_nat (length entries)) by (destruct entries; [done|simpl; lia]).
  rewrite (proj2 (Z.eqb_neq _ _)) by lia. cbn [negb require obind]. rewrite wrap32_small by (split; [lia|done]).
  rewrite Nat2Z.id, take_ge by done. set (m0 := MarkedOffsets _ _ _ _ _).
  assert (Hwf : well_formed m0).
  { split; [split; [simpl; lia|done]|]. right. do 3 eexists. do 3 (split; [reflexivity|]). unfold m0. cbn [count]. rewrite !length_map. repeat split; lia. }
  destruct (normalize_spec m0 Hwf) as (m & -> & W & S & M & C). exists m. split; [done|]. split; [by split; [rewrite S|]|]. split; [done|].
  intros x. rewrite M. destruct (canonical_spec (marks m0)) as [_ Hc]. rewrite Hc. unfold marks. unfold m0. cbn [pOffsets pMarkingTypes pSubTypes count].
  rewrite Nat2Z.id, !take_ge by (by rewrite length_map).
  assert (E : zip_markings (map d_offset entries) (map d_type entries) (map d_subtype entries) = map entry_marking entries).
  { rewrite <- (zip_markings_maps (map entry_marking entries)), !map_map. done. }
  by rewrite E.
Qed.

Lemma entry_ok_weaken n n' e : entry_ok n e -> n <= n' -> entry_ok n' e.
Proof. intros (m & ? & ? & ? & ?) Hn. exists m. do 3 (split; [done|]). lia. Qed.

Lemma merge_buckets_spec buckets : Forall bucket_filled buckets -> forall queue n, Forall (entry_ok n) queue -> 0 <= n ->
  NoDup (map entry_key queue) -> n + bucket_total buckets <= UINT32_MAX ->
  exists queue', merge_buckets buckets queue = Ok queue' /\ Forall (entry_ok (n + bucket_total buckets)) queue' /\ NoDup (map entry_key queue') /\
    forall k x, queued queue' k x <-> queued queue k x \/ bucketed buckets k x.
Proof.
  induction 1 as [|b buckets Hb Hbs IH]; intros queue n Hq Hz Hd Hn; cbn [merge_buckets].
  { exists queue. change (bucket_total []) with 0. rewrite Z.add_0_r. split; [done|]. split; [done|split; [done|intros k x; unfold bucketed; rewrite Exists_nil; tauto]]. }
  unfold bucket_total in Hn. cbn [foldr] in Hn. fold (bucket_total buckets) in Hn.
  assert (Ht : 0 <= bucket_total buckets) by (clear; induction buckets; unfold bucket_total in *; simpl; lia).
  destruct (build_spec (bk_entries b) Hb ltac:(lia)) as (m & -> & M & C & Hm). cbn [obind].
  destruct (merge_rewrite_spec queue (RewriteCall (bk_source b) m (bk_object_type b) (bk_object_index b) (bk_stage_index b)) n Hq M)
    as (q1 & E1 & G1 & G2 & G3); [cbn [rc_markings]; lia|done|]. cbn [rc_source rc_markings rc_object_type rc_object_index rc_stage_index] in *.
  rewrite E1. cbn [obind]. assert (0 <= count m) by (destruct M as [_ []]; u_lia).
  destruct (IH q1 (n + count m) G1 ltac:(lia)) as (q2 & E2 & G4 & G5 & G6); [|lia|].
  { destruct G2 as [->|[-> Hnin]]; [done|]. apply NoDup_app. split; [done|]. split; [|apply NoDup_singleton].
    intros k Hk ->%list_elem_of_singleton. done. }
  exists q2. split; [done|]. split.
  { eapply Forall_impl; [exact G4|]. intros e He. eapply entry_ok_weaken; [exact He|]. unfold bucket_total at 2. cbn [foldr]. fold (bucket_total buckets). lia. }
  split; [done|]. intros k x. rewrite G6, G3. unfold bucketed at 2. rewrite Exists_cons.
  unfold call_key. cbn [rc_source rc_object_type rc_object_index rc_stage_index]. fold (bucket_key b). fold (bucketed buckets k x). rewrite Hm. tauto.
Qed.

Lemma merge_discovered_counted discovered queue n : Forall marking_ok discovered -> Forall (entry_ok n) queue -> 0 <= n ->
  NoDup (map entry_key queue) -> n + Z.of_nat (length discovered) <= UINT32_MAX ->
  exists queue', merge_discovered_markings w discovered queue = Ok queue' /\ Forall (entry_ok (n + Z.of_nat (length discovered))) queue' /\
    NoDup (map entry_key queue') /\
    forall k x, queued queue' k x <-> queued queue k x \/ Exists (fun d => goes_to d k x) discovered.
Proof.
  intros Hd Hq Hz Hn Hlen. unfold merge_discovered_markings.
  destruct (fill_buckets_spec discovered Hd [] (Forall_nil_2 _)) as (buckets & -> & B1 & B2 & B3). cbn [obind].
  change (bucket_total []) with 0 in B2.
  destruct (merge_buckets_spec buckets B1 queue n Hq Hz Hn ltac:(lia)) as (queue' & -> & Q1 & Q2 & Q3).
  exists queue'. split; [done|]. split; [eapply Forall_impl; [exact Q1|]; intros e He; eapply entry_ok_weaken; [exact He|lia]|].
  split; [done|]. intros k x. rewrite Q3, B3. unfold bucketed. rewrite Exists_nil. tauto.
Qed.
Lemma merge_discovered_spec discovered queue n : Forall marking_ok discovered -> Forall (entry_ok n) queue -> 0 <= n ->
  NoDup (map entry_key queue) -> n + Z.of_nat (length discovered) <= UINT32_MAX ->
  exists queue', merge_discovered_markings w discovered queue = Ok queue' /\ Forall (entry_ok UINT32_MAX) queue' /\
    NoDup (map entry_key queue') /\
    forall k x, queued queue' k x <-> queued queue k x \/ Exists (fun d => goes_to d k x) discovered.
Proof.
  intros Hd Hq Hz Hn Hlen. destruct (merge_discovered_counted discovered queue n Hd Hq Hz Hn Hlen) as (queue' & E & Q1 & Q2 & Q3).
  exists queue'. split; [done|]. split; [|done]. eapply Forall_impl; [exact Q1|]. intros e He. by eapply entry_ok_weaken.
Qed.
End Buckets.

(** ** Theorems *)

(** C20: When the ranges given to the simulator hold the bytes their regions name and
    the simulator reports the pieces of every pointer truthfully, every marking
    found marks eight bytes of the packet that wrote them, and those bytes are one
    of the pointers the shader used or an address of a buffer known by its address;
    a pointer loaded whole from memory of a range is always marked. Discovery
    aborts only where eight bytes of a range come from no single write. *)
Theorem discovered_addresses_sound {T} `{MemoryFlagTracker T} `{MarkingHeader} (payload : provenance -> option byte) (w : sim_world T)
    (ranges : list simulator_buffer_range) (results : list PhysicalAddressData) :
  Forall (range_ok payload w) ranges -> Forall pointer_ok results -> Forall (truthful w ranges) results ->
  unless_abort (missing_source w ranges)
    (fun ds => Forall (good_marking payload (fun v => v ∈ map raw_pointer_value results \/ known_value w ranges v)) ds /\
       Forall (fun pd => existsb (whole ranges) (bit_components pd) = true -> marks_pointer payload pd ds) results)
    (collect_simulator_physical_address_markings w ranges results []).
Proof.
  intros Hr Hok Ht. set (values := fun v => v ∈ map raw_pointer_value results \/ known_value w ranges v).
  apply (unless_abort_mono _ (fun ds => found_more payload values [] ds /\
    Forall (fun pd => existsb (whole ranges) (bit_components pd) = true -> marks_pointer payload pd ds) results)).
  2:{ intros ds [(new & -> & Hf) Hm]. done. }
  apply collect_results_spec; [done|by right|done|done| |constructor]. apply Forall_forall. intros pd Hpd. left. apply list_elem_of_In, in_map. by apply list_elem_of_In.
Qed.

#[local] Existing Instance demo_header.

(** a buffer of 32 bytes at 4096, written by packet 7, with a pointer at offset 8 *)
Definition demo_written : change_source := ChangeSource 7 0 0 2 5.

Definition demo_bytes : list byte := replicate 8 x01 ++ le_encode 8 5000 ++ replicate 16 x02.

Definition demo_regions : host_write_regions tracker_log :=
  match register_source 0 32 demo_written 1 0 CONTAINER_NULL_VALUE UINT64_MAX new_regions with Ok r => r | Fail _ => new_regions end.

Definition demo_world : sim_world tracker_log :=
  SimWorld [TrackedBuffer 0 9 32 5000 0 demo_regions] new_regions new_regions (fun a => nth (Z.to_nat (a - 4096)) demo_bytes x00).

Definition demo_range : simulator_buffer_range :=
  SimulatorBufferRange 4096 32 (Some 0%nat) 0 None 0 1 true VK_OBJECT_TYPE_UNKNOWN CONTAINER_NULL_VALUE CONTAINER_NULL_VALUE.

Definition demo_piece (offset bits val : Z) : DataSourceBits := {|
  location := StorageClass; ds_storage_class := StorageClassUniform; source_ptr := 4096; byte_offset := offset; bit_offset := 0;
  bitcount := bits; val_bit_offset := val; set_id := 0; binding_id := 1 |}.

(** the pointer loaded whole, and loaded as two halves in the wrong order *)
Definition demo_results : list PhysicalAddressData :=
  [{| bit_components := [demo_piece 8 64 0]; raw_pointer_value := 5000 |};
   {| bit_components := [demo_piece 12 32 32; demo_piece 8 32 0]; raw_pointer_value := 5000 |}].

Definition demo_payload (p : provenance) : option byte :=
  if pv_packet p =? 7 then Some (mem demo_world (4096 + pv_offset p)) else None.

Example demo_discovered :
  match collect_simulator_physical_address_markings demo_world [demo_range] demo_results [] with
  | Ok ds => map (fun d => (cs_packet (d_source d), d_offset d, d_size d)) ds
  | Fail _ => []
  end = [(7, 8, 8); (7, 8, 8)].
Proof. vm_compute. done. Qed.

Lemma demo_regions_spec : regions_ok demo_regions /\
  forall k, 0 <= k < 32 -> source_at demo_regions k = Some (provenance_of demo_written CONTAINER_NULL_VALUE k).
Proof.
  destruct (register_source_spec (T := tracker_log) new_regions 0 32 demo_written 1 0 CONTAINER_NULL_VALUE UINT64_MAX new_regions_ok) as (r & E & Hr & Hx).
  { by constructor; vm_compute. }
  assert (demo_regions = r) as ->; [unfold demo_regions; by rewrite E|]. split; [done|]. intros k Hk. rewrite Hx, decide_True.
  - do 2 f_equal. change (first_offset 0 UINT64_MAX) with 0. lia.
  - change (Z.to_nat 1) with 1%nat. by apply registered_one.
Qed.

Lemma demo_range_ok : range_ok demo_payload demo_world demo_range.
Proof.
  destruct demo_regions_spec as [Hr Hx]. constructor.
  - by vm_compute.
  - by vm_compute.
  - intros b [= <-]. by eexists.
  - exists demo_regions. by split.
  - intros regions k p [= <-] Hk. cbn [rg_bytes demo_range] in Hk. cbn [buffer_offset demo_range].
    change (tb_source _) with demo_regions. rewrite Z.add_0_l, (Hx k Hk). intros [= <-]. unfold output_provenance, provenance_of.
    change (source_stage_index demo_range =? CONTAINER_NULL_VALUE) with true.
    cbn [pv_packet pv_frame pv_thread pv_call_id pv_stage pv_offset]. rewrite int64_small by lia. split; [lia|]. done.
Qed.

Lemma demo_results_ok : Forall pointer_ok demo_results.
Proof.
  assert (Hp : forall o b v, 0 <= o -> 0 <= b -> 0 <= v < 2 ^ 63 -> o + b < 2 ^ 62 -> source_fields_ok (demo_piece o b v)) by done.
  repeat constructor; try by vm_compute.
Qed.

Lemma demo_truthful : Forall (truthful demo_world [demo_range]) demo_results.
Proof.
  repeat constructor; intros source c Hs Hc k Hk; repeat (apply elem_of_cons in Hs as [->|Hs]); try (by apply not_elem_of_nil in Hs);
    vm_compute in Hc; injection Hc as <-; cbn [sc_bitcount] in Hk.
  - change (64 / 8) with 8 in Hk. assert (k = 0 \/ k = 1 \/ k = 2 \/ k = 3 \/ k = 4 \/ k = 5 \/ k = 6 \/ k = 7) as Hc by lia. by destruct_or! Hc; subst k; vm_compute.
  - change (32 / 8) with 4 in Hk. assert (k = 0 \/ k = 1 \/ k = 2 \/ k = 3) as Hc by lia. by destruct_or! Hc; subst k; vm_compute.
  - change (32 / 8) with 4 in Hk. assert (k = 0 \/ k = 1 \/ k = 2 \/ k = 3) as Hc by lia. by destruct_or! Hc; subst k; vm_compute.
Qed.

Lemma discovered_addresses_sound_witness :
  Forall (range_ok demo_payload demo_world) [demo_range] /\ Forall (truthful demo_world [demo_range]) demo_results /\
  exists ds, collect_simulator_physical_address_markings demo_world [demo_range] demo_results [] = Ok ds /\
    Forall (good_marking demo_payload (fun v => v ∈ map raw_pointer_value demo_results \/ known_value demo_world [demo_range] v)) ds.
Proof.
  assert (Hr : Forall (range_ok demo_payload demo_world) [demo_range]) by (constructor; [apply demo_range_ok|constructor]).
  split; [done|]. split; [apply demo_truthful|].
  pose proof (discovered_addresses_sound demo_payload demo_world [demo_range] demo_results Hr demo_results_ok demo_truthful) as Hs.
  destruct (collect_simulator_physical_address_markings demo_world [demo_range] demo_results []) as [ds|f] eqn:E; [|by vm_compute in E].
  exists ds. split; [done|]. apply Hs.
Defined.

(** C21: Merging discovered markings never fails, keeps one entry per packet and
    target, and adds to the queue exactly the markings whose packet is known, under
    the packet that wrote the marked bytes. *)
Theorem discovered_markings_queued {T} `{MemoryFlagTracker T} `{MarkingHeader} (w : sim_world T)
    (discovered : list discovered_buffer_marking) (queue : list address_rewrite) (n : Z) :
  Forall (marking_ok w) discovered -> Forall (entry_ok n) queue -> 0 <= n -> NoDup (map entry_key queue) ->
  n + Z.of_nat (length discovered) <= UINT32_MAX ->
  exists queue', merge_discovered_markings w discovered queue = Ok queue' /\ Forall (entry_ok UINT32_MAX) queue' /\
    NoDup (map entry_key queue') /\
    forall k x, queued queue' k x <-> queued queue k x \/ Exists (fun d => goes_to w d k x) discovered.
Proof. apply merge_discovered_spec. Qed.

(** a marking with the packet given, and one of the buffer's own bytes *)
Definition demo_markings : list discovered_buffer_marking :=
  [DiscoveredBufferMarking (Some 0%nat) 0 CONTAINER_NULL_VALUE CONTAINER_NULL_VALUE 8 8 1 0 true demo_written;
   DiscoveredBufferMarking (Some 0%nat) 0 CONTAINER_NULL_VALUE CONTAINER_NULL_VALUE 16 8 1 1 false no_change].

Lemma demo_markings_ok : Forall (marking_ok demo_world) demo_markings.
Proof.
  apply Forall_cons. split; [by split|]. apply Forall_singleton. split; [done|]. intros _. cbn [d_offset d_size]. split; [lia|]. split; [u_lia|].
  split; [u_lia|]. exists 0%nat. eexists. split; [done|]. split; [reflexivity|]. apply demo_regions_spec.
Qed.

Lemma discovered_markings_queued_witness :
  exists queue, merge_discovered_markings demo_world demo_markings [] = Ok queue /\
    forall k x, queued queue k x <-> queued [] k x \/ Exists (fun d => goes_to demo_world d k x) demo_markings.
Proof.
  destruct (discovered_markings_queued demo_world demo_markings [] 0 demo_markings_ok) as (queue & E & _ & _ & Hq);
    [constructor|done|constructor|by vm_compute|]. by exists queue.
Defined.

(** ** Copied bytes

    A marking without a source of its own asks for the packet only: it is queued
    under that packet with the buffer and the offset it was found at, not those the
    packet wrote to. *)

Definition demo_copied : sim_world tracker_log :=
  let copied := match copy_sources demo_regions 0 8 8 new_regions with Ok r => r | Fail _ => new_regions end in
  SimWorld [TrackedBuffer 0 9 32 5000 0 demo_regions; TrackedBuffer 1 9 8 6000 0 copied] new_regions new_regions (mem demo_world).

Definition demo_copied_marking : discovered_buffer_marking :=
  DiscoveredBufferMarking (Some 1%nat) 0 CONTAINER_NULL_VALUE CONTAINER_NULL_VALUE 0 8 1 0 false no_change.

(** packet 7 wrote these bytes to offset 8 of buffer 0 *)
Example copied_marking_target :
  match merge_discovered_markings demo_copied [demo_copied_marking] [] with
  | Ok queue => map (fun e => (cs_packet (ar_source e), ar_object_type e, ar_object_index e, map mk_offset (entry_marks e))) queue
  | Fail _ => []
  end = [(7, 9, 1, [0])] /\
  match VkBuffer_index demo_copied !! 1%nat with Some b => source_at (tb_source b) 0 | None => None end =
    Some (provenance_of demo_written CONTAINER_NULL_VALUE 8).
Proof. split; vm_compute; reflexivity. Qed.
