(* ===== verification/Simulation.v ===== *)
(** * Simulated transfers (src/execute_commands.cpp, src/postprocess.cpp)

    The post-processor records the transfer commands of a trace and runs them at
    the submit on the memory of its own objects, so that shaders read what they
    would have read. Next to the bytes it moves their provenance: which bytes have
    one after such commands, and that it is right unless bytes without one were
    copied over them. The shader simulator reports the copies a shader made; they
    carry provenance too. *)

From Stdlib Require Import ZArith Lia Bool.
From Stdlib.Strings Require Import Byte.
From stdpp Require Import base numbers list gmap.
From S2P Require Import Prelude Memory Heap Suballocator Packets HostWrites Discovery.

#[local] Open Scope Z_scope.

(** ** Memory *)

Definition memcpy (m : Z -> byte) (dst src size : Z) : Z -> byte :=
  fun a => if decide (dst <= a < dst + size) then m (src + (a - dst)) else m a.

(** the bytes [l] copied to [dst] *)
Definition store (m : Z -> byte) (dst : Z) (l : list byte) : Z -> byte :=
  fun a => if decide (dst <= a) then default (m a) (l !! Z.to_nat (a - dst)) else m a.

(** [find_buffer_memory] of an allocator; the mark of the first use that it
    leaves plays no part in the simulation *)
Definition allocator_locations (p : suballocator_private) (buffer_index : nat) : outcome suballoc_location :=
  let* (location, _) := find_memory p VK_OBJECT_TYPE_BUFFER (N.of_nat buffer_index) in Ok location.

(** ** Recorded commands *)

Record VkBufferCopy := BufferCopy { srcOffset : Z; dstOffset : Z; copy_size : Z }.

Inductive command_data :=
  | VKCMDCOPYBUFFER (src_buffer_index dst_buffer_index : nat) (regions : list VkBufferCopy)
  | VKCMDUPDATEBUFFER (buffer_index : nat) (offset : Z) (values : list byte)
  | VKCMDPUSHCONSTANTS (offset : Z) (values : list byte).

Record trackedcommand := TrackedCommand { tc_source : change_source; tc_data : command_data }.

(** [current] is the source of the reader, [values] the bytes the pointer leads to *)
Definition postprocess_vkCmdUpdateBuffer (current : change_source) (dstBuffer : nat) (dst_offset dataSize : Z) (pData : list byte)
    (commands : list trackedcommand) : list trackedcommand :=
  commands ++ [TrackedCommand current (VKCMDUPDATEBUFFER dstBuffer (wrap32 dst_offset) (take (Z.to_nat (wrap32 dataSize)) pData))].

Definition postprocess_vkCmdCopyBuffer (current : change_source) (srcBuffer dstBuffer : nat) (pRegions : list VkBufferCopy)
    (commands : list trackedcommand) : list trackedcommand :=
  commands ++ [TrackedCommand current (VKCMDCOPYBUFFER srcBuffer dstBuffer pRegions)].

Definition postprocess_push_constants (current : change_source) (offset size : Z) (pValues : list byte)
    (commands : list trackedcommand) : list trackedcommand :=
  commands ++ [TrackedCommand current (VKCMDPUSHCONSTANTS offset (take (Z.to_nat size) pValues))].

(** ** What the simulator reports of its memory *)

(** a span of [queryRangeDetailed]; [ms_copy] is the origin [Copy] *)
Record memory_span := MemorySpan {
  ms_start : Z;
  ms_end : Z;
  ms_copy : bool;
  ms_root_address : Z;
  ms_pbuffer_ptr : bool               (** [flags & SPS_FLAG_IS_PBUFFER_PTR] *)
}.

Section Simulate.
Context {T : Type} `{MemoryFlagTracker T}.
Context (find_buffer_memory : nat -> outcome suballoc_location).

Definition with_mem (w : sim_world T) (m : Z -> byte) : sim_world T :=
  SimWorld (VkBuffer_index w) (push_constant_sources w) (specialization_sources w) m.

Definition with_buffer (w : sim_world T) (i : nat) (b : trackedbuffer T) : sim_world T :=
  SimWorld (<[i := b]> (VkBuffer_index w)) (push_constant_sources w) (specialization_sources w) (mem w).

Definition with_push_sources (w : sim_world T) (r : host_write_regions T) : sim_world T :=
  SimWorld (VkBuffer_index w) r (specialization_sources w) (mem w).

Definition with_source (b : trackedbuffer T) (r : host_write_regions T) : trackedbuffer T :=
  TrackedBuffer (tb_index b) (tb_object_type b) (tb_size b) (tb_device_address b) (tb_capture_device_address b) r.

Record exec_state := ExecState { es_world : sim_world T; push_constants : list byte }.

(** ** Transfers *)

(** the memory handle of the allocator is the address of its first byte *)
Fixpoint copy_regions (src dst : suballoc_location) (src_buffer_index dst_buffer_index : nat) (regions : list VkBufferCopy)
    (w : sim_world T) : outcome (sim_world T) :=
  match regions with
  | [] => Ok w
  | r :: regions =>
      let w := with_mem w (memcpy (mem w) (loc_memory dst + dstOffset r) (loc_memory src + srcOffset r) (copy_size r)) in
      let* src_buffer := buffer_at w src_buffer_index in
      let* dst_buffer := buffer_at w dst_buffer_index in
      let* sources := copy_sources (tb_source src_buffer) (dstOffset r) (srcOffset r) (copy_size r) (tb_source dst_buffer) in
      copy_regions src dst src_buffer_index dst_buffer_index regions (with_buffer w dst_buffer_index (with_source dst_buffer sources))
  end.

Definition execute_command (c : trackedcommand) (st : exec_state) : outcome exec_state :=
  let w := es_world st in
  match tc_data c with
  | VKCMDCOPYBUFFER src_buffer_index dst_buffer_index regions =>
      let* src := find_buffer_memory src_buffer_index in
      let* dst := find_buffer_memory dst_buffer_index in
      let* _ := buffer_at w src_buffer_index in
      let* _ := buffer_at w dst_buffer_index in
      let* w := copy_regions src dst src_buffer_index dst_buffer_index regions w in
      Ok (ExecState w (push_constants st))
  | VKCMDUPDATEBUFFER buffer_index offset values =>
      let* sub := find_buffer_memory buffer_index in
      let* dst_buffer := buffer_at w buffer_index in
      let w := with_mem w (store (mem w) (loc_memory sub + offset) values) in
      let* sources := register_source offset (Z.of_nat (length values)) (tc_source c) 1 0 CONTAINER_NULL_VALUE UINT64_MAX (tb_source dst_buffer) in
      Ok (ExecState (with_buffer w buffer_index (with_source dst_buffer sources)) (push_constants st))
  | VKCMDPUSHCONSTANTS offset values =>
      let total := wrap32 (offset + Z.of_nat (length values)) in
      let pushed := if Z.of_nat (length (push_constants st)) <? total
                    then push_constants st ++ replicate (Z.to_nat total - length (push_constants st)) x00 else push_constants st in
      let* pushed := if offset + Z.of_nat (length values) <=? Z.of_nat (length pushed)
                     then Ok (take (Z.to_nat offset) pushed ++ values ++ drop (Z.to_nat offset + length values) pushed)
                     else Fail OutOfRange in
      let* sources := register_source offset (Z.of_nat (length values)) (tc_source c) 1 0 CONTAINER_NULL_VALUE UINT64_MAX (push_constant_sources w) in
      Ok (ExecState (with_push_sources w sources) pushed)
  end.

Fixpoint execute_commands (commands : list trackedcommand) (st : exec_state) : outcome exec_state :=
  match commands with
  | [] => Ok st
  | c :: commands => let* st := execute_command c st in execute_commands commands st
  end.

(** ** Copies made by a shader *)

Definition copy_simulator_source_span (dst_range src_range : simulator_buffer_range) (dst_offset src_offset size : Z)
    (w : sim_world T) : outcome (sim_world T) :=
  match buffer_data dst_range with
  | None => Ok w
  | Some b =>
      if size =? 0 then Ok w
      else
        let* src_sources :=
          match source_regions src_range with
          | Some ref => Ok (Some (referenced_regions w ref))
          | None =>
              match buffer_data src_range with
              | Some i => let* buffer := buffer_at w i in Ok (Some (tb_source buffer))
              | None => Ok None
              end
          end in
        match src_sources with
        | None => Ok w
        | Some src_sources =>
            let* buffer := buffer_at w b in
            let* sources := copy_sources src_sources (wrap64 (buffer_offset dst_range + dst_offset)) (wrap64 (buffer_offset src_range + src_offset)) size
                              (tb_source buffer) in
            Ok (with_buffer w b (with_source buffer sources))
        end
  end.

(** one round for every piece of the copied bytes that lies in one range *)
Fixpoint copy_span (fuel : nat) (ranges : list simulator_buffer_range) (dst_range : simulator_buffer_range) (span : memory_span)
    (dst_base dst_start dst_end copied : Z) (w : sim_world T) : outcome (sim_world T) :=
  if copied <? dst_end - dst_start then
    match fuel with
    | O => Fail OutOfFuel
    | Datatypes.S fuel =>
        let src_address := wrap64 (ms_root_address span + (dst_start - ms_start span) + copied) in
        let remaining := dst_end - dst_start - copied in
        match find_simulator_range ranges src_address 0 1 with
        | None => Ok w
        | Some (_, src_range, src_offset) =>
            let size := Z.min remaining (rg_bytes src_range - src_offset) in
            let* w := copy_simulator_source_span dst_range src_range (dst_start - dst_base + copied) src_offset size w in
            copy_span fuel ranges dst_range span dst_base dst_start dst_end (copied + size) w
        end
    end
  else Ok w.

Fixpoint merge_copy_spans (ranges : list simulator_buffer_range) (dst_range : simulator_buffer_range) (spans : list memory_span)
    (w : sim_world T) : outcome (sim_world T) :=
  match spans with
  | [] => Ok w
  | span :: spans =>
      let dst_base := base_ptr dst_range in
      let dst_start := Z.max (ms_start span) dst_base in
      let dst_end := Z.min (ms_end span) (dst_base + rg_bytes dst_range) in
      let* w := if negb (ms_copy span) || (dst_start >=? dst_end) then Ok w
                else copy_span (Z.to_nat (dst_end - dst_start)) ranges dst_range span dst_base dst_start dst_end 0 w in
      merge_copy_spans ranges dst_range spans w
  end.

(** [queried] is [queryRangeDetailed] of the simulator's tracker *)
Fixpoint merge_copies_into (queried : Z -> Z -> list memory_span) (ranges dst_ranges : list simulator_buffer_range) (w : sim_world T)
    : outcome (sim_world T) :=
  match dst_ranges with
  | [] => Ok w
  | dst_range :: dst_ranges =>
      let* w := if bool_decide (buffer_data dst_range = None) then Ok w
                else merge_copy_spans ranges dst_range (queried (base_ptr dst_range) (rg_bytes dst_range)) w in
      merge_copies_into queried ranges dst_ranges w
  end.

Definition merge_simulator_source_copies (queried : Z -> Z -> list memory_span) (ranges : list simulator_buffer_range) (w : sim_world T)
    : outcome (sim_world T) :=
  merge_copies_into queried ranges ranges w.
End Simulate.
Arguments exec_state T : clear implicits.

(** ** Provenance of one registration *)

Lemma register_one_spec {T} `{MemoryFlagTracker T} r offset size source stage : regions_ok r ->
  change_source_self_test source = true -> 0 <= offset -> 0 <= size -> offset + 2 * size < 2 ^ 63 ->
  exists r', register_source offset size source 1 0 stage UINT64_MAX r = Ok r' /\ regions_ok r' /\
    forall x, source_at r' x = if decide (offset <= x < offset + size) then Some (provenance_of source stage x) else source_at r x.
Proof.
  intros Hr Hs Ho Hn Hmax. destruct (register_source_spec r offset size source 1 0 stage UINT64_MAX Hr) as (r' & E & Hr' & Hx).
  { constructor; [done|lia|unfold effective_stride; simpl; u_lia|unfold first_offset; simpl; u_lia]. }
  exists r'. split; [done|]. split; [done|]. intros x. rewrite Hx. change (Z.to_nat 1) with 1%nat. unfold first_offset, effective_stride. simpl.
  destruct (decide (offset <= x < offset + size)) as [Hd|Hd].
  - rewrite decide_True by (by apply registered_one). do 2 f_equal. lia.
  - rewrite decide_False by (by rewrite registered_one). done.
Qed.

(** ** The invariant *)

Section SimulationProofs.
Context {T : Type} `{MemoryFlagTracker T}.
Context (find_buffer_memory : nat -> outcome suballoc_location).
(** the byte that a packet wrote at an offset; the sizes of the buffers *)
Context (payload : provenance -> option byte) (sizes : list Z).

Definition place (i : nat) : Z := match find_buffer_memory i with Ok location => loc_mapped location | Fail _ => 0 end.

(** the buffers are at the start of memory of their own, apart from each other *)
Record layout_ok : Prop := {
  lo_found : forall i, (i < length sizes)%nat -> exists location, find_buffer_memory i = Ok location /\ loc_memory location = loc_mapped location;
  lo_size : forall i n, sizes !! i = Some n -> 0 <= n < 2 ^ 61;
  lo_apart : forall i j n m, i <> j -> sizes !! i = Some n -> sizes !! j = Some m -> place i + n <= place j \/ place j + m <= place i
}.

(** What is known of a byte: it has no provenance, one of a packet that wrote it, or one
    that may be left from bytes that were replaced. *)
Inductive sourced := Unsourced | FromPacket | Stale.

Definition marked_as (m : sourced) (p : option provenance) (b : byte) : Prop :=
  match m with
  | Unsourced => p = None
  | FromPacket => exists q, p = Some q /\ 0 <= pv_offset q /\ payload q = Some b
  | Stale => p <> None
  end.

(** the bytes with a provenance are those of its packet *)
Definition bytes_from_packets (r : host_write_regions T) (size : Z) (byte_at : Z -> option byte) : Prop :=
  forall x p, 0 <= x < size -> source_at r x = Some p -> 0 <= pv_offset p /\ exists b, payload p = Some b /\ byte_at x = Some b.

(** [marks] is what is known of the bytes of the buffers *)
Record exec_ok (marks : nat -> Z -> sourced) (st : exec_state T) : Prop := {
  xo_sizes : map tb_size (VkBuffer_index (es_world st)) = sizes;
  xo_regions : forall i b, VkBuffer_index (es_world st) !! i = Some b -> regions_ok (tb_source b);
  xo_marks : forall i b x, VkBuffer_index (es_world st) !! i = Some b -> 0 <= x < tb_size b ->
    marked_as (marks i x) (source_at (tb_source b) x) (mem (es_world st) (place i + x));
  xo_push_regions : regions_ok (push_constant_sources (es_world st));
  xo_push : bytes_from_packets (push_constant_sources (es_world st)) (Z.of_nat (length (push_constants st)))
    (fun x => push_constants st !! Z.to_nat x);
  xo_push_inside : forall x, source_at (push_constant_sources (es_world st)) x <> None -> x < Z.of_nat (length (push_constants st))
}.

(** the packet wrote these bytes at [offset] of its object *)
Definition wrote (source : change_source) (offset : Z) (values : list byte) : Prop :=
  forall k b, values !! k = Some b -> payload (provenance_of source CONTAINER_NULL_VALUE (offset + Z.of_nat k)) = Some b.

(** valid usage *)
Definition region_ok (src dst : nat) (r : VkBufferCopy) : Prop :=
  0 <= srcOffset r /\ 0 <= dstOffset r /\ 0 <= copy_size r /\
  (forall n, sizes !! src = Some n -> srcOffset r + copy_size r <= n) /\
  (forall n, sizes !! dst = Some n -> dstOffset r + copy_size r <= n).

Definition command_ok (c : trackedcommand) : Prop :=
  match tc_data c with
  | VKCMDCOPYBUFFER src dst regions => (src < length sizes)%nat /\ (dst < length sizes)%nat /\ Forall (region_ok src dst) regions
  | VKCMDUPDATEBUFFER i offset values =>
      (exists n, sizes !! i = Some n /\ offset + Z.of_nat (length values) <= n) /\ 0 <= offset /\
      change_source_self_test (tc_source c) = true /\ wrote (tc_source c) offset values
  | VKCMDPUSHCONSTANTS offset values =>
      0 <= offset /\ offset + Z.of_nat (length values) <= UINT16_MAX /\
      change_source_self_test (tc_source c) = true /\ wrote (tc_source c) offset values
  end.

(** what is known after a copy: what was known of the source, but a provenance stays
    where bytes without one replace bytes that have one *)
Definition copied (from replaced : sourced) : sourced :=
  match from, replaced with
  | Unsourced, Unsourced => Unsourced
  | Unsourced, _ => Stale
  | _, _ => from
  end.

Definition after_region (src dst : nat) (marks : nat -> Z -> sourced) (r : VkBufferCopy) : nat -> Z -> sourced :=
  fun i x => if decide (i = dst /\ dstOffset r <= x < dstOffset r + copy_size r)
             then copied (marks src (x - dstOffset r + srcOffset r)) (marks i x) else marks i x.

Definition after_command (marks : nat -> Z -> sourced) (c : trackedcommand) : nat -> Z -> sourced :=
  match tc_data c with
  | VKCMDCOPYBUFFER src dst regions => fold_left (after_region src dst) regions marks
  | VKCMDUPDATEBUFFER i offset values =>
      fun j x => if decide (j = i /\ offset <= x < offset + Z.of_nat (length values)) then FromPacket else marks j x
  | VKCMDPUSHCONSTANTS _ _ => marks
  end.

Context (Hlayout : layout_ok).

Lemma buffer_found w i n : map tb_size (VkBuffer_index w) = sizes -> sizes !! i = Some n ->
  exists b, buffer_at (T := T) w i = Ok b /\ VkBuffer_index w !! i = Some b /\ tb_size b = n.
Proof.
  intros <-. rewrite list_lookup_fmap. unfold buffer_at. destruct (VkBuffer_index w !! i) as [b|]; [|done]. intros [= <-]. by exists b.
Qed.

(** new bytes and new sources for a part of one buffer *)
Lemma set_bytes marks marks' st i b m r o n : exec_ok marks st -> VkBuffer_index (es_world st) !! i = Some b -> regions_ok r ->
  0 <= o -> o + n <= tb_size b ->
  (forall a, ~ place i + o <= a < place i + o + n -> m a = mem (es_world st) a) ->
  (forall x, o <= x < o + n -> marked_as (marks' i x) (source_at r x) (m (place i + x))) ->
  (forall x, ~ o <= x < o + n -> source_at r x = source_at (tb_source b) x) ->
  (forall j x, ~ (j = i /\ o <= x < o + n) -> marks' j x = marks j x) ->
  exec_ok marks' (ExecState (with_buffer (with_mem (es_world st) m) i (with_source b r)) (push_constants st)).
Proof using Hlayout.
  intros [X1 X2 X3 X5 X6 X7] Hi Hr Ho Hn Hm Hnew Hold Hmarks.
  assert (Hlt : (i < length (VkBuffer_index (es_world st)))%nat) by (by eapply lookup_lt_Some).
  assert (Hsizes : forall j bj, VkBuffer_index (es_world st) !! j = Some bj -> sizes !! j = Some (tb_size bj)).
  { intros j bj Hj. rewrite <- X1, list_lookup_fmap, Hj. done. }
  constructor; cbn [es_world push_constants with_buffer with_mem VkBuffer_index push_constant_sources mem]; try done.
  - rewrite list_fmap_insert. rewrite <- X1 at 1. unfold with_source. cbn [tb_size]. rewrite list_insert_id; [done|]. by rewrite list_lookup_fmap, Hi.
  - intros j bj. destruct (decide (j = i)) as [->|Hne]; [rewrite list_lookup_insert_eq by done; by intros [= <-]|].
    rewrite list_lookup_insert_ne by done. apply X2.
  - intros j bj x. destruct (decide (j = i)) as [->|Hne].
    + rewrite list_lookup_insert_eq by done. intros [= <-]. cbn [with_source tb_size tb_source]. intros Hx.
      destruct (decide (o <= x < o + n)) as [Hin|Hout]; [by apply Hnew|].
      rewrite Hold, Hm, Hmarks by (done || lia || tauto). by apply (X3 i b x Hi).
    + rewrite list_lookup_insert_ne by done. intros Hj Hx. rewrite Hmarks by tauto. rewrite Hm; [by apply (X3 j bj x Hj)|].
      destruct (lo_apart Hlayout i j _ _ (not_eq_sym Hne) (Hsizes _ _ Hi) (Hsizes _ _ Hj)); lia.
Qed.

Lemma memory_is_mapped i n : sizes !! i = Some n -> exists location, find_buffer_memory i = Ok location /\ loc_memory location = place i.
Proof using Hlayout.
  intros Hi. destruct (lo_found Hlayout i) as (location & E & Hl); [by eapply lookup_lt_Some|].
  exists location. split; [done|]. unfold place. by rewrite E.
Qed.

Lemma size_of marks st i b : exec_ok marks st -> VkBuffer_index (es_world st) !! i = Some b -> sizes !! i = Some (tb_size b) /\ 0 <= tb_size b < 2 ^ 61.
Proof using Hlayout.
  intros [X1 _ _ _ _ _] Hi. assert (E : sizes !! i = Some (tb_size b)) by (by rewrite <- X1, list_lookup_fmap, Hi).
  split; [done|]. by apply (lo_size Hlayout i).
Qed.

Lemma copy_regions_ok src dst src_loc dst_loc regions : (src < length sizes)%nat -> (dst < length sizes)%nat ->
  loc_memory src_loc = place src -> loc_memory dst_loc = place dst -> forall marks st, Forall (region_ok src dst) regions -> exec_ok marks st ->
  exists w, copy_regions src_loc dst_loc src dst regions (es_world st) = Ok w /\
    exec_ok (fold_left (after_region src dst) regions marks) (ExecState w (push_constants st)).
Proof using Hlayout.
  intros Hs Hd Ls Ld. induction regions as [|r regions IH]; intros marks st Hrs Hst; cbn [copy_regions fold_left].
  { exists (es_world st). split; [done|]. by destruct st. }
  apply Forall_cons in Hrs as [(R1 & R2 & R3 & R4 & R5) Hr].
  destruct (lookup_lt_is_Some_2 sizes src Hs) as [ns Es]. destruct (lookup_lt_is_Some_2 sizes dst Hd) as [nd Ed].
  specialize (R4 _ Es). specialize (R5 _ Ed). rewrite Ls, Ld. set (m := memcpy _ _ _ _).
  destruct (buffer_found (es_world st) src ns (xo_sizes _ _ Hst) Es) as (bs & Bs & Is & Ns).
  destruct (buffer_found (es_world st) dst nd (xo_sizes _ _ Hst) Ed) as (bd & Bd & Id & Nd).
  change (buffer_at (with_mem (es_world st) m)) with (buffer_at (es_world st)). rewrite Bs, Bd. cbn [obind].
  destruct (size_of marks st src bs Hst Is) as [_ Zs]. destruct (size_of marks st dst bd Hst Id) as [_ Zd].
  destruct (copy_sources_spec (tb_source bs) (tb_source bd) (dstOffset r) (srcOffset r) (copy_size r) (xo_regions _ _ Hst src bs Is) (xo_regions _ _ Hst dst bd Id))
    as (sources & -> & Hok & Hx); [lia|lia|lia|u_lia|u_lia|]. cbn [obind].
  apply (IH (after_region src dst marks r) (ExecState (with_buffer (with_mem (es_world st) m) dst (with_source bd sources)) (push_constants st))); [done|].
  apply (set_bytes marks _ st dst bd m sources (dstOffset r) (copy_size r) Hst Id Hok); [lia|lia| | | |].
  - intros a Ha. unfold m, memcpy. by rewrite decide_False by lia.
  - intros x Hin. rewrite Hx, decide_True by done. unfold after_region. rewrite decide_True by done.
    assert (Em : m (place dst + x) = mem (es_world st) (place src + (x - dstOffset r + srcOffset r))).
    { unfold m, memcpy. rewrite decide_True by lia. f_equal. lia. }
    pose proof (xo_marks _ _ Hst src bs (x - dstOffset r + srcOffset r) Is ltac:(lia)) as Hfrom. pose proof (xo_marks _ _ Hst dst bd x Id ltac:(lia)) as Hto.
    rewrite Em. destruct (marks src _); cbn [copied marked_as] in Hfrom |- *.
    + rewrite Hfrom. destruct (marks dst x); cbn [marked_as] in Hto |- *; [done| |done]. destruct Hto as (q & -> & _). done.
    + destruct Hfrom as (q & -> & ?). by exists q.
    + by destruct (source_at (tb_source bs) _).
  - intros x Hout. rewrite Hx. by rewrite decide_False.
  - intros j x Hj. unfold after_region. by rewrite decide_False.
Qed.

Lemma store_outside m dst l a : ~ dst <= a < dst + Z.of_nat (length l) -> store m dst l a = m a.
Proof.
  intros Ha. unfold store. case_decide; [|done]. by rewrite lookup_ge_None_2 by lia.
Qed.

Lemma store_inside m dst l k b : l !! k = Some b -> store m dst l (dst + Z.of_nat k) = b.
Proof.
  intros Hk. unfold store. rewrite decide_True by lia. by replace (Z.to_nat (dst + Z.of_nat k - dst)) with k by lia; rewrite Hk.
Qed.

(** the bytes of the packet at [x], when it lies in what was written *)
Lemma wrote_at source offset values x : wrote source offset values -> 0 <= offset -> offset <= x < offset + Z.of_nat (length values) -> x < 2 ^ 63 ->
  exists k b, x = offset + Z.of_nat k /\ values !! k = Some b /\ payload (provenance_of source CONTAINER_NULL_VALUE x) = Some b /\
    0 <= pv_offset (provenance_of source CONTAINER_NULL_VALUE x).
Proof.
  intros Hw Ho Hx Hmax. destruct (lookup_lt_is_Some_2 values (Z.to_nat (x - offset))) as [b Eb]; [lia|].
  exists (Z.to_nat (x - offset)), b. assert (E : x = offset + Z.of_nat (Z.to_nat (x - offset))) by lia. split; [done|]. split; [done|].
  split; [rewrite E; by apply Hw|]. cbn [provenance_of pv_offset]. rewrite int64_small by lia. lia.
Qed.

Lemma update_ok marks st i n offset values source : exec_ok marks st -> sizes !! i = Some n -> offset + Z.of_nat (length values) <= n -> 0 <= offset ->
  change_source_self_test source = true -> wrote source offset values ->
  exists st', execute_command find_buffer_memory (TrackedCommand source (VKCMDUPDATEBUFFER i offset values)) st = Ok st' /\
    exec_ok (after_command marks (TrackedCommand source (VKCMDUPDATEBUFFER i offset values))) st'.
Proof using Hlayout.
  intros Hst Ei Hn Ho Ht Hw. cbn [execute_command tc_data tc_source]. destruct (memory_is_mapped i n Ei) as (location & -> & El). cbn [obind]. rewrite El.
  destruct (buffer_found (es_world st) i n (xo_sizes _ _ Hst) Ei) as (b & -> & Ib & Nb). cbn [obind].
  destruct (size_of marks st i b Hst Ib) as [_ Zb].
  destruct (register_one_spec (tb_source b) offset (Z.of_nat (length values)) source CONTAINER_NULL_VALUE (xo_regions _ _ Hst i b Ib) Ht Ho)
    as (r & -> & Hr & Hx); [lia|lia|]. cbn [obind]. eexists. split; [reflexivity|].
  apply (set_bytes marks _ st i b _ r offset (Z.of_nat (length values)) Hst Ib Hr Ho); [lia| | | |].
  - intros a Ha. by apply store_outside.
  - intros x Hin. rewrite Hx, decide_True by done. unfold after_command. cbn [tc_data]. rewrite decide_True by done.
    destruct (wrote_at source offset values x Hw Ho Hin ltac:(lia)) as (k & by_ & -> & Ek & Ep & Hpos). eexists. split; [reflexivity|]. split; [done|]. rewrite Ep.
    rewrite Z.add_assoc. by rewrite (store_inside _ _ _ _ _ Ek).
  - intros x Hout. by rewrite Hx, decide_False.
  - intros j x Hj. unfold after_command. cbn [tc_data]. by rewrite decide_False.
Qed.

Lemma pushed_lookup (pushed values : list byte) offset x : (offset + length values <= length pushed)%nat ->
  (take offset pushed ++ values ++ drop (offset + length values) pushed) !! x =
    if decide (offset <= x < offset + length values)%nat then values !! (x - offset)%nat else pushed !! x.
Proof.
  intros Hl. assert (Ht : length (take offset pushed) = offset) by (rewrite length_take; lia).
  destruct (decide (x < offset)%nat) as [H1|H1].
  { rewrite decide_False by lia. by rewrite lookup_app_l, lookup_take_lt by lia. }
  rewrite lookup_app_r, Ht by lia. destruct (decide (x < offset + length values)%nat) as [H2|H2].
  - rewrite decide_True by lia. by rewrite lookup_app_l by lia.
  - rewrite decide_False by lia. rewrite lookup_app_r, lookup_drop by lia. f_equal. lia.
Qed.

Lemma push_ok marks st offset values source : exec_ok marks st -> 0 <= offset -> offset + Z.of_nat (length values) <= UINT16_MAX ->
  change_source_self_test source = true -> wrote source offset values ->
  exists st', execute_command find_buffer_memory (TrackedCommand source (VKCMDPUSHCONSTANTS offset values)) st = Ok st' /\ exec_ok marks st'.
Proof using Hlayout.
  intros Hst Ho Hmax Ht Hw. cbn [execute_command tc_data tc_source]. rewrite wrap32_small by u_lia.
  set (total := offset + Z.of_nat (length values)) in *. set (old := push_constants st).
  set (pushed := if Z.of_nat (length old) <? total then _ else old).
  assert (Hp : total <= Z.of_nat (length pushed) /\ Z.of_nat (length old) <= Z.of_nat (length pushed) /\ forall x, (x < length old)%nat -> pushed !! x = old !! x).
  { unfold pushed. destruct (Z.ltb_spec (Z.of_nat (length old)) total).
    - rewrite length_app, length_replicate. split; [lia|]. split; [lia|]. intros x Hx. by rewrite lookup_app_l.
    - split; [lia|]. split; [lia|]. done. }
  destruct Hp as (P1 & P2 & P3). rewrite (proj2 (Z.leb_le _ _)) by done. cbn [obind].
  destruct (register_one_spec (push_constant_sources (es_world st)) offset (Z.of_nat (length values)) source CONTAINER_NULL_VALUE (xo_push_regions _ _ Hst) Ht Ho)
    as (r & -> & Hr & Hx); [lia|u_lia|]. fold total in Hx. cbn [obind]. eexists. split; [reflexivity|].
  pose proof Hst as [X1 X2 X3 X5 X6 X7]. constructor; cbn [es_world push_constants with_push_sources VkBuffer_index push_constant_sources mem]; try done.
  - intros x p [H0 Hlt] Hs. rewrite pushed_lookup by lia. rewrite Hx in Hs. destruct (decide (offset <= x < total)) as [Hin|Hout].
    + injection Hs as <-. destruct (wrote_at source offset values x Hw Ho Hin ltac:(u_lia)) as (k & by_ & -> & Ek & Ep & Hpos). split; [done|].
      exists by_. split; [done|]. rewrite decide_True by lia. rewrite <- Ek. f_equal. lia.
    + rewrite decide_False by lia. assert (Hold : x < Z.of_nat (length old)) by (apply X7; by rewrite Hs).
      rewrite P3 by lia. apply (X6 x p); [done|done].
  - intros x Hs. rewrite Hx in Hs. rewrite !length_app, length_take, length_drop. destruct (decide (offset <= x < total)) as [Hin|Hout]; [lia|].
    specialize (X7 x Hs). fold old in X7. lia.
Qed.

Lemma execute_command_ok marks c st : exec_ok marks st -> command_ok c ->
  exists st', execute_command find_buffer_memory c st = Ok st' /\ exec_ok (after_command marks c) st'.
Proof using Hlayout.
  intros Hst. destruct c as [source [src dst regions|i offset values|offset values]]; unfold command_ok; cbn [tc_data tc_source].
  - intros (Hs & Hd & Hr). cbn [execute_command tc_data]. destruct (lookup_lt_is_Some_2 sizes src Hs) as [ns Es]. destruct (lookup_lt_is_Some_2 sizes dst Hd) as [nd Ed].
    destruct (memory_is_mapped src ns Es) as (sl & -> & Ls). destruct (memory_is_mapped dst nd Ed) as (dl & -> & Ld). cbn [obind].
    destruct (buffer_found (es_world st) src ns (xo_sizes _ _ Hst) Es) as (bs & -> & _).
    destruct (buffer_found (es_world st) dst nd (xo_sizes _ _ Hst) Ed) as (bd & -> & _).
    cbn [obind]. destruct (copy_regions_ok src dst sl dl regions Hs Hd Ls Ld marks st Hr Hst) as (w & -> & Hok). cbn [obind]. by eexists.
  - intros ((n & Ei & Hn) & Ho & Ht & Hw). by apply (update_ok marks st i n).
  - intros (Ho & Hn & Ht & Hw). by apply push_ok.
Qed.

Lemma execute_commands_ok commands : forall marks st, Forall command_ok commands -> exec_ok marks st ->
  exists st', execute_commands find_buffer_memory commands st = Ok st' /\ exec_ok (fold_left after_command commands marks) st'.
Proof using Hlayout.
  induction commands as [|c commands IH]; intros marks st Hcs Hst; cbn [execute_commands fold_left]; [by exists st|].
  apply Forall_cons in Hcs as [Hc Hcs]. destruct (execute_command_ok marks c st Hst Hc) as (st1 & -> & H1). cbn [obind]. by apply IH.
Qed.
End SimulationProofs.

(** ** Copies made by a shader *)

Section CopyProofs.
Context {T : Type} `{MemoryFlagTracker T}.
Context (payload : provenance -> option byte) (ranges : list simulator_buffer_range).

(** ranges of buffers have no stage and no regions of their own, and those of one buffer
    agree on where it is *)
Definition ranges_agree : Prop :=
  (forall r, r ∈ ranges -> is_Some (buffer_data r) -> source_stage_index r = CONTAINER_NULL_VALUE /\ source_regions r = None) /\
  forall r r' b, r ∈ ranges -> r' ∈ ranges -> buffer_data r = Some b -> buffer_data r' = Some b ->
    base_ptr r - buffer_offset r = base_ptr r' - buffer_offset r'.

(** a range whose regions can be looked up *)
Record range_shape (w : sim_world T) (r : simulator_buffer_range) : Prop := {
  rs_small : range_small r;
  rs_offset : 0 <= buffer_offset r < 2 ^ 62;
  rs_buffer : forall b, buffer_data r = Some b -> is_Some (VkBuffer_index w !! b);
  rs_regions : exists regions, range_regions w r = Some regions /\ regions_ok regions
}.

(** the provenance of a byte of a range, and that it is the byte of its packet *)
Definition source_of (w : sim_world T) (r : simulator_buffer_range) (k : Z) : option provenance :=
  match range_regions w r with Some regions => source_at regions (buffer_offset r + k) | None => None end.

Definition right_at (w : sim_world T) (r : simulator_buffer_range) (k : Z) : Prop :=
  forall p, source_of w r k = Some p -> 0 <= pv_offset p /\ payload (output_provenance r p) = Some (mem w (base_ptr r + k)).

Context (Hagree : ranges_agree).

Lemma buffer_range r : r ∈ ranges -> is_Some (buffer_data r) -> forall p, output_provenance r p = p.
Proof using Hagree. intros Hr Hb p. unfold output_provenance. destruct (proj1 Hagree r Hr Hb) as [-> _]. by destruct p. Qed.

(** what copying a span does to the provenance of every range *)
Lemma copy_source_span_effect (w : sim_world T) dst src b dst_offset src_offset size : Forall (range_shape w) ranges ->
  dst ∈ ranges -> src ∈ ranges -> buffer_data dst = Some b -> inside dst dst_offset size -> inside src src_offset size -> 0 < size ->
  exists w', copy_simulator_source_span dst src dst_offset src_offset size w = Ok w' /\ Forall (range_shape w') ranges /\ mem w' = mem w /\
    forall r k, r ∈ ranges -> 0 <= k < rg_bytes r -> source_of w' r k =
      if decide (buffer_data r = Some b /\ dst_offset <= base_ptr r + k - base_ptr dst < dst_offset + size)
      then match source_of w src (base_ptr r + k - base_ptr dst - dst_offset + src_offset) with Some p => Some p | None => source_of w r k end
      else source_of w r k.
Proof using Hagree.
  intros Hall Hd Hs Eb [D1 D2] [S1 S2] Hsize. pose proof Hall as Hall'. rewrite Forall_forall in Hall'.
  pose proof (Hall' dst Hd) as [Kd Od Bd Rd]. pose proof (Hall' src Hs) as [Ks Os Bs (src_regions & Er & Hr)]. unfold range_small in *.
  unfold copy_simulator_source_span. rewrite Eb, (proj2 (Z.eqb_neq _ _)) by lia.
  assert (Esrc : match source_regions src with
          | Some ref => Ok (Some (referenced_regions w ref))
          | None => match buffer_data src with Some i => let* buffer := buffer_at w i in Ok (Some (tb_source buffer)) | None => Ok None end
          end = Ok (Some src_regions)).
  { unfold range_regions, buffer_at in *. destruct (source_regions src); [simpl in *; congruence|]. destruct (buffer_data src) as [i|]; [|done].
    destruct (VkBuffer_index w !! i); [|done]. simpl in *; congruence. }
  rewrite Esrc. cbn [obind]. destruct (Bd b Eb) as [buffer Ebuf]. unfold buffer_at. rewrite Ebuf. cbn [obind].
  assert (Hbuffer : forall r, r ∈ ranges -> buffer_data r = Some b -> range_regions w r = Some (tb_source buffer)).
  { intros r Hin E. unfold range_regions. rewrite (proj2 (proj1 Hagree r Hin ltac:(by rewrite E))), E, Ebuf. done. }
  destruct Rd as (dst_regions & Edst & Hdr). rewrite (Hbuffer dst Hd Eb) in Edst.
  injection Edst as <-. rewrite (wrap64_small (buffer_offset dst + _)), (wrap64_small (buffer_offset src + _)) by u_lia.
  destruct (copy_sources_spec src_regions (tb_source buffer) (buffer_offset dst + dst_offset) (buffer_offset src + src_offset) size Hr Hdr)
    as (sources & -> & Hok & Hx); [lia|lia|lia|u_lia|u_lia|]. cbn [obind]. eexists. split; [reflexivity|].
  assert (Hlt : (b < length (VkBuffer_index w))%nat) by (by eapply lookup_lt_Some).
  set (w' := with_buffer w b (with_source buffer sources)).
  assert (Hnew : forall r, r ∈ ranges -> buffer_data r = Some b -> range_regions w' r = Some sources).
  { intros r Hin E. unfold range_regions. rewrite (proj2 (proj1 Hagree r Hin ltac:(by rewrite E))), E. unfold w'. cbn [with_buffer VkBuffer_index].
    by rewrite list_lookup_insert_eq. }
  assert (Hsame : forall r, r ∈ ranges -> buffer_data r <> Some b -> range_regions w' r = range_regions w r).
  { intros r Hin E. unfold range_regions, w'. destruct (source_regions r) as [[]|]; [done|done|]. destruct (buffer_data r) as [b'|]; [|done].
    cbn [with_buffer VkBuffer_index]. rewrite list_lookup_insert_ne; [done|congruence]. }
  split; [|split; [done|]].
  - apply Forall_forall. intros r Hin. destruct (Hall' r Hin) as [K1 K2 K3 K4]. constructor; try done.
    + intros b' E'. unfold w'. cbn [with_buffer VkBuffer_index]. destruct (decide (b' = b)) as [->|Hne]; [rewrite list_lookup_insert_eq by done; by eexists|].
      rewrite list_lookup_insert_ne by done. by apply K3.
    + destruct (decide (buffer_data r = Some b)) as [E|E]; [rewrite (Hnew r Hin E); by exists sources|by rewrite (Hsame r Hin E)].
  - intros r k Hin Hk. unfold source_of. rewrite Er. destruct (decide (buffer_data r = Some b)) as [E|E].
    + rewrite (Hnew r Hin E), (Hbuffer r Hin E), Hx. pose proof (proj2 Hagree r dst b Hin Hd E Eb).
      replace (buffer_offset src + (base_ptr r + k - base_ptr dst - dst_offset + src_offset))
        with (buffer_offset r + k - (buffer_offset dst + dst_offset) + (buffer_offset src + src_offset)) by lia.
      destruct (decide (buffer_offset dst + dst_offset <= _ < _)) as [Hin'|Hout]; [rewrite decide_True by (split; [done|lia])|rewrite decide_False by (intros [_ ?]; lia)]; done.
    + rewrite (Hsame r Hin E), decide_False by tauto. done.
Qed.

Lemma found_at ptr i r offset : Forall range_small ranges -> find_simulator_range ranges ptr 0 1 = Some (i, r, offset) ->
  r ∈ ranges /\ offset = ptr - base_ptr r /\ inside r offset 1.
Proof.
  intros Hsm. unfold find_simulator_range. destruct (_ || _); [done|]. intros Hf.
  apply (first_range_spec _ (fun r offset => offset = ptr - base_ptr r /\ inside r offset 1)) in Hf as (_ & Hi & E & Hin).
  - split; [by eapply list_elem_of_lookup_2|done].
  - intros r' o Hin Hp. rewrite Forall_forall in Hsm. pose proof (Hsm r' Hin) as Hr. split; [|by eapply place_pointer_inside].
    unfold place_pointer, range_small in *. destruct (_ || _) eqn:E1; [done|]. destruct (wrap64 _ >? _); [done|]. injection Hp as <-. bool_to_prop.
    rewrite wrap64_small by u_lia. lia.
Qed.

(** ** What a simulator reports *)

Context (queried : Z -> Z -> list memory_span) (unwritten : Z -> Prop).

Definition reported (span : memory_span) : Prop := exists r, r ∈ ranges /\ span ∈ queried (base_ptr r) (rg_bytes r).

Definition copies_to (span : memory_span) (a : Z) : Prop := ms_copy span = true /\ ms_start span <= a < ms_end span.

Definition root_of (span : memory_span) (a : Z) : Z := ms_root_address span + (a - ms_start span).

(** the bytes of a copied span are those at its root, which the shader did not write *)
Definition report_ok (m : Z -> byte) : Prop :=
  forall span, reported span -> ms_copy span = true ->
    0 <= ms_root_address span /\ ms_root_address span + (ms_end span - ms_start span) < 2 ^ 63 /\
    forall a, ms_start span <= a < ms_end span -> m a = m (root_of span a) /\ unwritten (root_of span a) /\ ~ unwritten a.

(** a copy from a range that stands for a stage of a pipeline, its specialization
    constants: the provenance that is copied does not name the stage *)
Definition stage_copied (a : Z) : Prop :=
  exists span src, reported span /\ copies_to span a /\ src ∈ ranges /\ source_stage_index src <> CONTAINER_NULL_VALUE /\
    base_ptr src <= root_of span a < base_ptr src + rg_bytes src.

(** ** What merging keeps *)

(** [G] are bytes whose provenance, if any, is right; the others have the one they had *)
Record merging (w0 : sim_world T) (G : simulator_buffer_range -> Z -> Prop) (w : sim_world T) : Prop := {
  mg_shape : Forall (range_shape w) ranges;
  mg_mem : mem w = mem w0;
  mg_unwritten : forall r k, r ∈ ranges -> 0 <= k < rg_bytes r -> unwritten (base_ptr r + k) -> G r k;
  mg_right : forall r k, r ∈ ranges -> 0 <= k < rg_bytes r -> G r k -> ~ stage_copied (base_ptr r + k) -> right_at w r k;
  mg_same : forall r k, r ∈ ranges -> 0 <= k < rg_bytes r -> ~ G r k -> source_of w r k = source_of w0 r k;
  mg_grows : forall r k, r ∈ ranges -> 0 <= k < rg_bytes r -> source_of w0 r k <> None -> source_of w r k <> None
}.

(** one state of the merging, and a later one *)
Definition later (w : sim_world T) (G : simulator_buffer_range -> Z -> Prop) (w' : sim_world T) (G' : simulator_buffer_range -> Z -> Prop) : Prop :=
  (forall r k, G r k -> G' r k) /\ forall r k, r ∈ ranges -> 0 <= k < rg_bytes r -> source_of w r k <> None -> source_of w' r k <> None.

Lemma later_refl w G : later w G w G.
Proof. by split. Qed.

Lemma later_trans w1 G1 w2 G2 w3 G3 : later w1 G1 w2 G2 -> later w2 G2 w3 G3 -> later w1 G1 w3 G3.
Proof. intros [A1 A2] [B1 B2]. split; intros; auto. Qed.

Context (w0 : sim_world T) (Hreport : report_ok (mem w0)).

(** one piece of a reported copy *)
Lemma copy_piece_ok G w dst b src span (offset src_offset size : Z) : merging w0 G w -> dst ∈ ranges -> buffer_data dst = Some b -> src ∈ ranges ->
  reported span -> ms_copy span = true -> 0 < size -> inside dst offset size -> inside src src_offset size ->
  ms_start span <= base_ptr dst + offset -> base_ptr dst + offset + size <= ms_end span ->
  base_ptr src + src_offset = root_of span (base_ptr dst + offset) ->
  exists w' G', copy_simulator_source_span dst src offset src_offset size w = Ok w' /\ merging w0 G' w' /\ later w G w' G' /\
    forall k, offset <= k < offset + size -> source_of w src (k - offset + src_offset) <> None -> G' dst k /\ source_of w' dst k <> None.
Proof using Hagree Hreport.
  intros Hm Hd Eb Hs Hrep Hc Hsize D S H1 H2 Eroot.
  destruct (copy_source_span_effect w dst src b offset src_offset size (mg_shape _ _ _ Hm) Hd Hs Eb D S Hsize) as (w' & E & W1 & W2 & W3).
  destruct (Hreport span Hrep Hc) as (T1 & T2 & T3). destruct D as [D1 D2]. destruct S as [S1 S2].
  set (new := fun r k => buffer_data r = Some b /\ offset <= base_ptr r + k - base_ptr dst < offset + size /\
    source_of w src (base_ptr r + k - base_ptr dst - offset + src_offset) <> None).
  assert (Hnot : forall r k, r ∈ ranges -> 0 <= k < rg_bytes r -> ~ new r k -> source_of w' r k = source_of w r k).
  { intros r k Hr Hk Hn. rewrite W3 by done. case_decide as Hc'; [|done]. destruct (source_of w src _) eqn:Es; [|done].
    destruct Hn. destruct Hc' as [? ?]. unfold new. by rewrite Es. }
  exists w', (fun r k => G r k \/ new r k). split; [done|]. split; [|split].
  - destruct Hm as [M1 M2 M3 M4 M5 M6]. constructor; [done|by rewrite W2| | | |].
    + intros r k Hr Hk Hu. left. by apply M3.
    + intros r k Hr Hk Hg Hst p Hp. rewrite W2.
      assert (Hdec : new r k \/ ~ new r k).
      { unfold new. destruct (decide (buffer_data r = Some b)), (decide (offset <= base_ptr r + k - base_ptr dst < offset + size)),
          (decide (source_of w src (base_ptr r + k - base_ptr dst - offset + src_offset) = None)); tauto. }
      destruct Hdec as [Hn|Hn]; [|destruct Hg as [Hg|Hg]; [|done]; rewrite Hnot in Hp by done; by apply M4].
      destruct Hn as (E1 & E2 & E3). rewrite W3, decide_True in Hp by done. set (j := base_ptr r + k - base_ptr dst - offset + src_offset) in *.
      destruct (source_of w src j) as [q|] eqn:Es; [|done]. injection Hp as <-.
      destruct (T3 (base_ptr r + k)) as (B1 & B2 & B3); [lia|].
      assert (Ej : base_ptr src + j = root_of span (base_ptr r + k)) by (unfold j, root_of in *; lia).
      destruct (decide (source_stage_index src = CONTAINER_NULL_VALUE)) as [Estage|Estage].
      2:{ destruct Hst. exists span, src. rewrite <- Ej. split; [done|]. split; [split; [done|lia]|]. split; [done|]. split; [done|]. lia. }
      assert (Hsrc : right_at w src j).
      { apply M4; [done|lia|apply M3; [done|lia|by rewrite Ej]|]. rewrite Ej. intros (span' & src' & R1 & [R2 R3] & _).
        destruct (Hreport span' R1 R2) as (_ & _ & R4). by destruct (R4 _ R3) as (_ & _ & ?). }
      destruct (Hsrc q Es) as [Hpos Hpay]. split; [done|]. rewrite (buffer_range r Hr ltac:(by rewrite E1)).
      assert (Eq : output_provenance src q = q) by (unfold output_provenance; rewrite Estage; by destruct q).
      rewrite Eq, M2, Ej, <- B1 in Hpay. by rewrite M2.
    + intros r k Hr Hk Hn. rewrite Hnot by tauto. apply M5; tauto.
    + intros r k Hr Hk Hs0. rewrite W3 by done. specialize (M6 r k Hr Hk Hs0). case_decide; [|done]. by destruct (source_of w src _).
  - split; [by left|]. intros r k Hr Hk Hs0. rewrite W3 by done. case_decide; [|done]. by destruct (source_of w src _).
  - intros k Hk Hsk. assert (Ek : base_ptr dst + k - base_ptr dst = k) by lia. split.
    + right. unfold new. rewrite Ek. done.
    + rewrite W3, Ek, decide_True by (done || lia). by destruct (source_of w src _).
Qed.

Lemma copy_span_ok dst b span fuel : dst ∈ ranges -> buffer_data dst = Some b -> reported span -> ms_copy span = true -> forall w G copied dst_start dst_end,
  merging w0 G w -> ms_start span <= dst_start -> base_ptr dst <= dst_start -> dst_end <= ms_end span -> dst_end <= base_ptr dst + rg_bytes dst ->
  0 <= copied -> dst_end - dst_start - copied <= Z.of_nat fuel ->
  exists w' G', copy_span fuel ranges dst span (base_ptr dst) dst_start dst_end copied w = Ok w' /\ merging w0 G' w' /\ later w G w' G'.
Proof using Hagree Hreport.
  intros Hd Eb Hrep Hc. induction fuel as [|fuel IH]; intros w G copied s e Hm H1 H2 H3 H4 H5 Hfuel; cbn [copy_span];
    destruct (Z.ltb_spec copied (e - s)) as [Hlt|Hge]; try (exists w, G; split; [done|split; [done|apply later_refl]]); [lia|].
  destruct (Hreport span Hrep Hc) as (T1 & T2 & _). rewrite wrap64_small by u_lia.
  destruct (find_simulator_range _ _ _ _) as [[[i src] offset]|] eqn:Ef; [|exists w, G; split; [done|split; [done|apply later_refl]]].
  assert (Hsm : Forall range_small ranges) by (eapply Forall_impl; [exact (mg_shape _ _ _ Hm)|]; by intros ? []).
  destruct (found_at _ _ _ _ Hsm Ef) as (Hs & Eoff & Hin). destruct Hin as [I1 I2].
  set (size := Z.min _ _). assert (Hsize : 0 < size) by lia.
  destruct (copy_piece_ok G w dst b src span (s - base_ptr dst + copied) offset size Hm Hd Eb Hs Hrep Hc Hsize) as (w1 & G1 & -> & W1 & W2 & _);
    [split; lia|split; lia|lia|lia|unfold root_of; lia|].
  cbn [obind]. destruct (IH w1 G1 (copied + size) s e W1) as (w' & G' & E & W3 & W4); [lia|lia|lia|lia|lia|lia|].
  exists w', G'. split; [done|]. split; [done|]. by eapply later_trans.
Qed.

(** a copy whose bytes come from inside one range *)
Definition copied_from (dst src : simulator_buffer_range) (span : memory_span) : Prop :=
  let s := Z.max (ms_start span) (base_ptr dst) in
  let e := Z.min (ms_end span) (base_ptr dst + rg_bytes dst) in
  ms_copy span = true /\ exists i src_offset, find_simulator_range ranges (root_of span s) 0 1 = Some (i, src, src_offset) /\
    src_offset + (e - s) <= rg_bytes src.

(** the bytes of such a copy that have a provenance at its root *)
Definition merged (w' : sim_world T) (G' : simulator_buffer_range -> Z -> Prop) (dst src : simulator_buffer_range) (span : memory_span) : Prop :=
  forall k, 0 <= k < rg_bytes dst -> ms_start span <= base_ptr dst + k < ms_end span ->
    source_of w0 src (root_of span (base_ptr dst + k) - base_ptr src) <> None -> G' dst k /\ source_of w' dst k <> None.

Lemma merged_later dst src span w G w' G' : dst ∈ ranges -> later w G w' G' -> merged w G dst src span -> merged w' G' dst src span.
Proof. intros Hd [L1 L2] Hm k Hk Hs Hw. destruct (Hm k Hk Hs Hw). split; [by apply L1|by apply L2]. Qed.

Lemma copy_span_merged dst src b span fuel w G s e : dst ∈ ranges -> buffer_data dst = Some b -> reported span -> copied_from dst src span -> merging w0 G w ->
  s = Z.max (ms_start span) (base_ptr dst) -> e = Z.min (ms_end span) (base_ptr dst + rg_bytes dst) -> s < e -> e - s <= Z.of_nat fuel ->
  exists w' G', copy_span fuel ranges dst span (base_ptr dst) s e 0 w = Ok w' /\ merging w0 G' w' /\ later w G w' G' /\ merged w' G' dst src span.
Proof using Hagree Hreport.
  intros Hd Eb Hrep [Hc (i & offset & Ef & Hfit)] Hm Es Ee Hlt Hfuel. rewrite <- Es in Ef. rewrite <- Es, <- Ee in Hfit.
  destruct fuel as [|fuel]; [lia|]. cbn [copy_span]. rewrite (proj2 (Z.ltb_lt 0 (e - s))) by lia.
  destruct (Hreport span Hrep Hc) as (T1 & T2 & T3). rewrite wrap64_small by u_lia.
  replace (ms_root_address span + (s - ms_start span) + 0) with (root_of span s) by (unfold root_of; lia). rewrite Ef.
  assert (Hsm : Forall range_small ranges) by (eapply Forall_impl; [exact (mg_shape _ _ _ Hm)|]; by intros ? []).
  destruct (found_at _ _ _ _ Hsm Ef) as (Hs & Eoff & [I1 I2]). set (size := Z.min _ _). assert (Esize : size = e - s) by lia.
  destruct (copy_piece_ok G w dst b src span (s - base_ptr dst + 0) offset size Hm Hd Eb Hs Hrep Hc ltac:(lia)) as (w1 & G1 & -> & W1 & W2 & W3);
    [split; lia|split; lia|lia|lia|unfold root_of in *; lia|].
  cbn [obind]. destruct fuel as [|fuel]; cbn [copy_span]; rewrite (proj2 (Z.ltb_ge _ _)) by lia;
    (exists w1, G1; split; [done|]; split; [done|]; split; [done|]; intros k Hk Hsk Hsource; apply W3; [lia|]).
  all: replace (k - (s - base_ptr dst + 0) + offset) with (root_of span (base_ptr dst + k) - base_ptr src) by (unfold root_of in *; lia).
  all: apply (mg_grows _ _ _ Hm); [done|unfold root_of in *; lia|exact Hsource].
Qed.

Lemma merge_copy_spans_ok dst b spans : dst ∈ ranges -> buffer_data dst = Some b -> forall w G, merging w0 G w -> Forall reported spans ->
  exists w' G', merge_copy_spans ranges dst spans w = Ok w' /\ merging w0 G' w' /\ later w G w' G' /\
    forall span src, span ∈ spans -> copied_from dst src span -> merged w' G' dst src span.
Proof using Hagree Hreport.
  intros Hd Eb. induction spans as [|span spans IH]; intros w G Hm Hrep; cbn [merge_copy_spans].
  { exists w, G. split; [done|]. split; [done|]. split; [apply later_refl|]. intros span src Hin. by apply not_elem_of_nil in Hin. }
  apply Forall_cons in Hrep as [Hrep Hreps]. set (s := Z.max _ _). set (e := Z.min _ _).
  assert (Hstep : exists w1 G1, (if negb (ms_copy span) || (s >=? e) then Ok w
      else copy_span (Z.to_nat (e - s)) ranges dst span (base_ptr dst) s e 0 w) = Ok w1 /\ merging w0 G1 w1 /\ later w G w1 G1 /\
      forall src, copied_from dst src span -> merged w1 G1 dst src span).
  { destruct (negb (ms_copy span) || _) eqn:E1.
    - exists w, G. split; [done|]. split; [done|]. split; [apply later_refl|]. intros src [Hc _] k Hk Hs _. rewrite Hc in E1. cbn [negb orb] in E1. bool_to_prop. lia.
    - apply orb_false_iff in E1 as [E1 E2]. bool_to_prop.
      assert (Hcase : (exists src, copied_from dst src span /\ forall src', copied_from dst src' span -> src' = src) \/ forall src, ~ copied_from dst src span).
      { unfold copied_from. fold s e. destruct (find_simulator_range ranges (root_of span s) 0 1) as [[[i src] offset]|]; [|right; by intros src (_ & ? & ? & ? & _)].
        destruct (decide (offset + (e - s) <= rg_bytes src)); [left|right].
        - exists src. split; [split; [done|]; by exists i, offset|]. intros src' (_ & i' & offset' & [= -> -> ->] & _). done.
        - intros src' (_ & i' & offset' & [= <- <- <-] & ?). done. }
      destruct Hcase as [(src & Hf & Hu)|Hn].
      + destruct (copy_span_merged dst src b span (Z.to_nat (e - s)) w G s e Hd Eb Hrep Hf Hm eq_refl eq_refl) as (w1 & G1 & E & W1 & W2 & W3); [lia|lia|].
        exists w1, G1. split; [done|]. split; [done|]. split; [done|]. intros src' ->%Hu. done.
      + destruct (copy_span_ok dst b span (Z.to_nat (e - s)) Hd Eb Hrep E1 w G 0 s e Hm) as (w1 & G1 & E & W1 & W2); [lia..|].
        exists w1, G1. split; [done|]. split; [done|]. split; [done|]. intros src Hf. by destruct (Hn src). }
  destruct Hstep as (w1 & G1 & -> & W1 & W2 & W3). cbn [obind]. destruct (IH w1 G1 W1 Hreps) as (w' & G' & E & W4 & W5 & W6).
  exists w', G'. split; [done|]. split; [done|]. split; [by eapply later_trans|]. intros span' src [->|Hin]%elem_of_cons Hf; [|by apply W6].
  eapply merged_later; [done|exact W5|by apply W3].
Qed.

Lemma merge_copies_into_ok dst_ranges : (forall r, r ∈ dst_ranges -> r ∈ ranges) -> forall w G, merging w0 G w ->
  exists w' G', merge_copies_into queried ranges dst_ranges w = Ok w' /\ merging w0 G' w' /\ later w G w' G' /\
    forall dst src span, dst ∈ dst_ranges -> is_Some (buffer_data dst) -> span ∈ queried (base_ptr dst) (rg_bytes dst) -> copied_from dst src span ->
      merged w' G' dst src span.
Proof using Hagree Hreport.
  induction dst_ranges as [|dst dst_ranges IH]; intros Hsub w G Hm; cbn [merge_copies_into].
  { exists w, G. split; [done|]. split; [done|]. split; [apply later_refl|]. intros dst src span Hin. by apply not_elem_of_nil in Hin. }
  assert (Hd : dst ∈ ranges) by (apply Hsub; by left).
  assert (Hstep : exists w1 G1, (if bool_decide (buffer_data dst = None) then Ok w
      else merge_copy_spans ranges dst (queried (base_ptr dst) (rg_bytes dst)) w) = Ok w1 /\ merging w0 G1 w1 /\ later w G w1 G1 /\
      forall src span, is_Some (buffer_data dst) -> span ∈ queried (base_ptr dst) (rg_bytes dst) -> copied_from dst src span -> merged w1 G1 dst src span).
  { destruct (buffer_data dst) as [b|] eqn:E; [rewrite bool_decide_false by done|rewrite bool_decide_true by done].
    - destruct (merge_copy_spans_ok dst b (queried (base_ptr dst) (rg_bytes dst)) Hd E w G Hm) as (w1 & G1 & E1 & W1 & W2 & W3).
      { apply Forall_forall. intros span Hin. by exists dst. }
      exists w1, G1. split; [done|]. split; [done|]. split; [done|]. intros src span _. apply W3.
    - exists w, G. split; [done|]. split; [done|]. split; [apply later_refl|]. by intros src span []. }
  destruct Hstep as (w1 & G1 & -> & W1 & W2 & W3). cbn [obind]. destruct (IH (fun r Hr => Hsub r (list_elem_of_further _ _ _ Hr)) w1 G1 W1) as (w' & G' & E & W4 & W5 & W6).
  exists w', G'. split; [done|]. split; [done|]. split; [by eapply later_trans|]. intros dst' src span [->|Hin]%elem_of_cons Hb Hs Hf; [|by apply W6].
  eapply merged_later; [done|exact W5|by apply W3].
Qed.
End CopyProofs.

(** ** Theorems *)

(** C22: When every buffer is at the start of memory of its own, recorded copies,
    updates and push constants in valid usage never fail when they are simulated (an
    update at the offset that was recorded, [update_offset_cut]), and after any sequence of
    them exactly those bytes of buffers have a provenance that had one, were updated or
    got bytes with one copied to them; the byte is the one that the packet of the provenance
    wrote at its offset, unless bytes without a provenance were copied over it since, or it
    was copied from such a byte: these copies leave the provenance of the
    bytes they replace ([Stale], [stale_provenance]). Every byte of the push constants
    with a provenance is the one its packet wrote. *)
Theorem transfers_keep_provenance {T} `{MemoryFlagTracker T} (find_buffer_memory : nat -> outcome suballoc_location)
    (payload : provenance -> option byte) (sizes : list Z) (marks : nat -> Z -> sourced) (commands : list trackedcommand) (st : exec_state T) :
  layout_ok find_buffer_memory sizes -> exec_ok find_buffer_memory payload sizes marks st -> Forall (command_ok payload sizes) commands ->
  exists st', execute_commands find_buffer_memory commands st = Ok st' /\
    exec_ok find_buffer_memory payload sizes (fold_left after_command commands marks) st'.
Proof. intros Hl Hst Hc. by apply execute_commands_ok. Qed.

(** two buffers of 16 bytes in memory of their own *)
Definition demo_find (i : nat) : outcome suballoc_location :=
  match i with
  | 0%nat => Ok (SuballocLocation 4096 0 16 false false 4096)
  | 1%nat => Ok (SuballocLocation 8192 0 16 false false 8192)
  | _ => Fail OutOfRange
  end.

Definition demo_exec : exec_state tracker_log :=
  ExecState (SimWorld [TrackedBuffer 0 9 16 0 0 new_regions; TrackedBuffer 1 9 16 0 0 new_regions] new_regions new_regions (fun _ => x00)) [].

Definition demo_updated : list byte := [x0a; x0b; x0c; x0d].

(** an update, a copy of a part of it, and push constants *)
Definition demo_transfers : list trackedcommand :=
  postprocess_push_constants (demo_source 11) 4 2 [x01; x02]
    (postprocess_vkCmdCopyBuffer (demo_source 10) 0 1 [BufferCopy 6 2 2]
      (postprocess_vkCmdUpdateBuffer (demo_source 9) 0 4 4 demo_updated [])).

Definition demo_written_bytes (p : provenance) : option byte :=
  if pv_packet p =? 9 then if 4 <=? pv_offset p then demo_updated !! Z.to_nat (pv_offset p - 4) else None
  else if pv_packet p =? 11 then if 4 <=? pv_offset p then [x01; x02] !! Z.to_nat (pv_offset p - 4) else None
  else None.

Example demo_copied_byte :
  match execute_commands demo_find demo_transfers demo_exec with
  | Ok st => (mem (es_world st) (8192 + 2), option_map (fun b => option_map pv_offset (source_at (tb_source b) 2)) (VkBuffer_index (es_world st) !! 1%nat))
  | Fail _ => (x00, None)
  end = (x0c, Some (Some 6)).
Proof. vm_compute. done. Qed.

Lemma demo_layout_ok : layout_ok demo_find [16; 16].
Proof.
  constructor.
  - intros [|[|i]] Hi; [by eexists|by eexists|simpl in Hi; lia].
  - intros [|[|i]] n; [intros [= <-]; lia|intros [= <-]; lia|done].
  - intros [|[|i]] [|[|j]] n m Hne; try done; intros [= <-] [= <-]; vm_compute; [left|right]; done.
Qed.

Lemma demo_exec_ok : exec_ok demo_find demo_written_bytes [16; 16] (fun _ _ => Unsourced) demo_exec.
Proof.
  assert (Hn : forall x, source_at (T := tracker_log) new_regions x = None) by apply source_at_new.
  constructor; try done.
  - intros [|[|i]] b; [intros [= <-]|intros [= <-]|done]; apply new_regions_ok.
  - intros [|[|i]] b x; [intros [= <-]|intros [= <-]|done]; intros _; apply Hn.
  - apply new_regions_ok.
Qed.

Lemma demo_commands_ok : Forall (command_ok demo_written_bytes [16; 16]) demo_transfers.
Proof.
  cbn [demo_transfers postprocess_push_constants postprocess_vkCmdCopyBuffer postprocess_vkCmdUpdateBuffer app]. apply Forall_cons. split.
  { split; [exists 16; split; [done|vm_compute; done]|]. split; [done|]. split; [done|]. intros [|[|[|[|k]]]] b; try done; by intros [= <-]. }
  apply Forall_cons. split; [|apply Forall_singleton].
  { split; [simpl; lia|]. split; [simpl; lia|]. apply Forall_singleton. repeat split; try done; by intros n [= <-]. }
  split; [done|]. split; [done|]. split; [done|]. intros [|[|k]] b; try done; by intros [= <-].
Qed.

(** the byte that was updated and copied is that of the packet *)
Lemma transfers_keep_provenance_witness : layout_ok demo_find [16; 16] /\
  exists st', execute_commands demo_find demo_transfers demo_exec = Ok st' /\
    exec_ok demo_find demo_written_bytes [16; 16] (fold_left after_command demo_transfers (fun _ _ => Unsourced)) st' /\
    fold_left after_command demo_transfers (fun _ _ => Unsourced) 1%nat 2 = FromPacket.
Proof.
  split; [apply demo_layout_ok|].
  destruct (transfers_keep_provenance demo_find demo_written_bytes [16; 16] (fun _ _ => Unsourced) demo_transfers demo_exec demo_layout_ok demo_exec_ok demo_commands_ok)
    as (st' & E & Hst'). exists st'. split; [exact E|]. split; [exact Hst'|]. vm_compute. reflexivity.
Defined.


(** the buffer of [demo_world] and one whose first eight bytes a shader copied from its offset 8 *)
Definition copied_mem (a : Z) : byte := if decide (8192 <= a < 8200) then mem demo_world (4104 + (a - 8192)) else mem demo_world a.

Definition copied_world : sim_world tracker_log :=
  SimWorld [TrackedBuffer 0 9 32 5000 0 demo_regions; TrackedBuffer 1 9 16 6000 0 new_regions] new_regions new_regions copied_mem.

Definition copied_ranges : list simulator_buffer_range :=
  [demo_range; SimulatorBufferRange 8192 16 (Some 1%nat) 0 None 0 2 false VK_OBJECT_TYPE_UNKNOWN CONTAINER_NULL_VALUE CONTAINER_NULL_VALUE].

Definition copied_spans (address size : Z) : list memory_span :=
  if address =? 8192 then [MemorySpan 8192 8200 true 4104 false] else [].

Example demo_shader_copy :
  match merge_simulator_source_copies copied_spans copied_ranges copied_world with
  | Ok w => option_map (fun b => option_map (fun p => (pv_packet p, pv_offset p)) (source_at (tb_source b) 3)) (VkBuffer_index w !! 1%nat)
  | Fail _ => None
  end = Some (Some (7, 11)).
Proof. vm_compute. done. Qed.

Lemma copied_ranges_shape : Forall (range_shape (with_mem copied_world (mem demo_world))) copied_ranges.
Proof.
  apply Forall_cons. split; [|apply Forall_singleton].
  - destruct demo_range_ok as [K1 K2 K3 K4 K5]. constructor; [done|done|intros b [= <-]; by eexists|exact K4].
  - constructor; [by vm_compute|by vm_compute|intros b [= <-]; by eexists|exists new_regions; split; [done|apply new_regions_ok]].
Qed.


(** ** Limits *)

(** A buffer that is not at the start of its memory: the update writes to the start. *)
Definition shared_find (i : nat) : outcome suballoc_location :=
  match i with
  | 0%nat => Ok (SuballocLocation 4096 0 16 false false 4096)
  | 1%nat => Ok (SuballocLocation 4096 16 16 false false 4112)
  | _ => Fail OutOfRange
  end.

Example update_ignores_place :
  match execute_commands shared_find (postprocess_vkCmdUpdateBuffer (demo_source 9) 1 0 4 demo_updated []) demo_exec with
  | Ok st => (mem (es_world st) 4096, mem (es_world st) 4112)
  | Fail _ => (x00, x00)
  end = (x0a, x00).
Proof. vm_compute. done. Qed.

(** A copy of bytes without a provenance leaves that of the bytes they replace. *)
Example stale_provenance :
  match execute_commands demo_find
      (postprocess_vkCmdCopyBuffer (demo_source 10) 1 0 [BufferCopy 0 4 4] (postprocess_vkCmdUpdateBuffer (demo_source 9) 0 4 4 demo_updated [])) demo_exec with
  | Ok st => (mem (es_world st) 4100, option_map (fun b => option_map (fun p => (pv_packet p, pv_offset p)) (source_at (tb_source b) 4)) (VkBuffer_index (es_world st) !! 0%nat))
  | Fail _ => (x01, None)
  end = (x00, Some (Some (9, 4))).
Proof. vm_compute. done. Qed.

(** The offset of an update is kept in 32 bits. *)
Example update_offset_cut :
  postprocess_vkCmdUpdateBuffer (demo_source 9) 0 (2 ^ 32 + 8) 4 demo_updated [] =
    [TrackedCommand (demo_source 9) (VKCMDUPDATEBUFFER 0 8 demo_updated)].
Proof. reflexivity. Qed.

(** What a shader copies from the specialization constants of a stage keeps the packet and
    the offset, but not the stage, which is a part of the range and not of its regions. *)
Definition stage_range : simulator_buffer_range :=
  SimulatorBufferRange 12288 8 None 0 (Some SpecializationSources) UINT32_MAX UINT32_MAX false 19 4 2.

Definition stage_regions : host_write_regions tracker_log :=
  match register_source 0 8 (demo_source 12) 1 0 CONTAINER_NULL_VALUE UINT64_MAX new_regions with Ok r => r | Fail _ => new_regions end.

Definition stage_world : sim_world tracker_log :=
  SimWorld [TrackedBuffer 0 9 32 5000 0 demo_regions; TrackedBuffer 1 9 16 6000 0 new_regions] new_regions stage_regions (fun _ => x00).

Example stage_lost :
  match merge_simulator_source_copies (fun address _ => if address =? 8192 then [MemorySpan 8192 8200 true 12288 false] else [])
      (stage_range :: copied_ranges) stage_world with
  | Ok w => option_map (fun b => option_map (fun p => (pv_packet p, pv_offset p, pv_stage p)) (source_at (tb_source b) 3)) (VkBuffer_index w !! 1%nat)
  | Fail _ => None
  end = Some (Some (12, 3, CONTAINER_NULL_VALUE)) /\
  option_map (fun p => pv_stage (output_provenance stage_range p)) (source_of stage_world stage_range 3) = Some 2.
Proof. vm_compute. split; reflexivity. Qed.
