(* ===== verification/Output.v ===== *)
(** * Rewriting a trace (src/tool.cpp)

    The output pass of lava-tool steps through every thread of a trace and writes
    it again: calls through callbacks that trace them anew, updates and
    initializations of memory with the same contents, barriers with the same
    targets. A call may become more than one packet and the writer adds packets of
    its own, so the packet numbers that handles and barriers wait for change;
    [output_packet_mapping] translates them. Markings that the post-processor
    discovered are injected into the updates they belong to. *)

From Stdlib Require Import ZArith Lia Bool.
From Stdlib.Strings Require Import Byte.
From stdpp Require Import base numbers list.
From S2P Require Import Prelude Stream RangeTracking Patch Memory FileWriter FileReader RandomAccess Packets Containers Markings Translate Updates.

#[local] Open Scope Z_scope.

(** ** Packet types *)

Definition PACKET_IMAGE_INITIALIZATION : Z := 11.
Definition PACKET_BUFFER_INITIALIZATION : Z := 12.

Definition is_update_packet (instrtype : Z) : bool :=
  (instrtype =? PACKET_IMAGE_UPDATE) || (instrtype =? PACKET_BUFFER_UPDATE) || (instrtype =? PACKET_TENSOR_UPDATE) ||
  (instrtype =? PACKET_IMAGE_UPDATE2) || (instrtype =? PACKET_BUFFER_UPDATE2).

Definition is_initialization_packet (instrtype : Z) : bool :=
  (instrtype =? PACKET_IMAGE_INITIALIZATION) || (instrtype =? PACKET_BUFFER_INITIALIZATION).

Definition update_packet_object_type (instrtype : Z) : VkObjectType :=
  if (instrtype =? PACKET_BUFFER_UPDATE) || (instrtype =? PACKET_BUFFER_UPDATE2) then VK_OBJECT_TYPE_BUFFER
  else if (instrtype =? PACKET_IMAGE_UPDATE) || (instrtype =? PACKET_IMAGE_UPDATE2) then VK_OBJECT_TYPE_IMAGE
  else if instrtype =? PACKET_TENSOR_UPDATE then VK_OBJECT_TYPE_TENSOR_ARM
  else VK_OBJECT_TYPE_UNKNOWN.

(** ** The mapping of packet numbers *)

(** for every input thread, the number of packets its output has after each number of input packets *)
Abbreviation packet_mapping := (list (list Z)).

Definition output_packet_mapping (thread_count : nat) : packet_mapping := replicate thread_count [0].

Definition record (thread : nat) (input_packet output_packet : Z) (m : packet_mapping) : outcome packet_mapping :=
  match m !! thread with
  | None => Fail OutOfRange
  | Some thread_packets =>
      if Z.of_nat (length thread_packets) =? input_packet then Ok (<[thread := thread_packets ++ [output_packet]]> m)
      else if (Z.of_nat (length thread_packets) <=? input_packet) ||
              negb (bool_decide (thread_packets !! Z.to_nat input_packet = Some output_packet))
      then Fail AbortCall
      else Ok m
  end.

Definition translate (thread : nat) (input_packet : Z) (m : packet_mapping) : outcome Z :=
  let output_packet :=
    match m !! thread with
    | Some thread_packets => match thread_packets !! Z.to_nat input_packet with Some p => p | None => UINT32_MAX end
    | None => UINT32_MAX
    end in
  let* _ := require (negb (output_packet =? UINT32_MAX)) AbortCall in
  Ok output_packet.

(** [translate] for every target of a barrier, from thread [i] on *)
Fixpoint translate_indices (i : nat) (input_indices : list Z) (m : packet_mapping) : outcome (list Z) :=
  match input_indices with
  | [] => Ok []
  | index :: rest =>
      let* o := translate i index m in
      let* l := translate_indices (S i) rest m in
      Ok (o :: l)
  end.

(** ** Handles *)

Definition serialized_handle_size : nat := 9.

(** a handle as it is stored: its index, and the packet it waits for *)
Record stored_handle := StoredHandle {
  sh_index : Z;
  sh_thread : Z;
  sh_packet : Z
}.

Definition load_handle (input : list byte) : stored_handle :=
  StoredHandle (le_decode (slice 0 4 input)) (to_signed 8 (le_decode (slice 4 1 input))) (le_decode (slice 5 4 input)).

(** the handle waits for another thread *)
Definition remote (thread : Z) (h : stored_handle) : bool := (sh_thread h >=? 0) && negb (sh_thread h =? thread).

Definition translate_dependency (thread : Z) (m : packet_mapping) (h : stored_handle) : outcome Z :=
  if remote thread h then
    let* _ := require (negb (sh_packet h =? UINT32_MAX)) AbortCall in
    let* output_boundary := translate (Z.to_nat (sh_thread h)) (wrap32 (sh_packet h + 1)) m in
    let* _ := require (negb (output_boundary =? 0)) AbortCall in
    Ok (wrap32 (output_boundary - 1))
  else Ok (sh_packet h).

(** what is noted of an update while it is replayed; places count from the body's start *)
Record output_update_packet := OutputUpdatePacket {
  op_instrtype : Z;
  op_object_index : Z;
  op_header_start : nat;
  op_payload_start : nat;
  op_sptr : option VkMarkedOffsetsARM
}.

Section Metadata.
Context `{MarkingHeader}.
(** the generated reader of extension structures *)
Context (read_extension : list byte -> outcome (VkMarkedOffsetsARM * list byte)).

Definition versioned (instrtype : Z) : bool :=
  (instrtype =? PACKET_IMAGE_UPDATE2) || (instrtype =? PACKET_BUFFER_UPDATE2) || (instrtype =? PACKET_TENSOR_UPDATE).

Definition current_update_packet (instrtype : Z) (body : list byte) : outcome output_update_packet :=
  let* (_, r) := read_handle_index body in
  let* (index, r) := read_handle_index r in
  let header_start := (length body - length r)%nat in
  let* (head, r) := if versioned instrtype then read_version2_packet read_extension r else Ok (0, None, r) in
  Ok (OutputUpdatePacket instrtype index header_start (length body - length r) head.2).
End Metadata.

(** ** The queue of markings *)

Definition matches_output (current : change_source) (update : output_update_packet) (e : address_rewrite) : bool :=
  same_change_source (ar_source e) current &&
  ((ar_object_type e =? object_type_code VK_OBJECT_TYPE_UNKNOWN) ||
   (ar_object_type e =? object_type_code (update_packet_object_type (op_instrtype update))) &&
   (ar_object_index e =? op_object_index update)).

(** [find_if] and the entries around the one it finds *)
Fixpoint find_entry (p : address_rewrite -> bool) (queue : list address_rewrite)
    : option (list address_rewrite * address_rewrite * list address_rewrite) :=
  match queue with
  | [] => None
  | e :: rest =>
      if p e then Some ([], e, rest)
      else match find_entry p rest with
           | Some (before, found, after) => Some (e :: before, found, after)
           | None => None
           end
  end.

(** [clone_marked_offsets] and [normalize_marked_offsets] *)
Definition normal_clone (m : option VkMarkedOffsetsARM) : outcome (option VkMarkedOffsetsARM) :=
  let* c := clone_marked_offsets m in
  match c with
  | None => Ok None
  | Some c => let* c := normalize_marked_offsets c in Ok (Some c)
  end.

(** what [maybe_write_rewritten_update_packet] decides: the queue it leaves, and
    the markings it writes, which are the null pointer if the entry has none *)
Definition injected_markings `{MarkingHeader} (current : change_source) (update : output_update_packet)
    (queue : list address_rewrite) : outcome (list address_rewrite * option (option VkMarkedOffsetsARM)) :=
  match find_entry (matches_output current update) queue with
  | None => Ok (queue, None)
  | Some (before, e, after) =>
      let* _ := require ((op_instrtype update =? PACKET_BUFFER_UPDATE2) || (op_instrtype update =? PACKET_IMAGE_UPDATE2) ||
                         (op_instrtype update =? PACKET_TENSOR_UPDATE)) AbortCall in
      let* _ := require (match op_sptr update with
                         | Some m => sType m =? VK_STRUCTURE_TYPE_MARKED_OFFSETS_ARM
                         | None => true
                         end) AbortCall in
      let* desired := normal_clone (ar_markings e) in
      let* existing := normal_clone (op_sptr update) in
      if bool_decide (compare_marked_offsets existing desired = diff_none) then Ok (before ++ after, None)
      else Ok (before ++ after, Some desired)
  end.

(** ** Writing the packets *)

Section Bodies.
Context {S : Type} `{ByteSink S} `{MarkingHeader}.

Definition write_stored_handle (h : stored_handle) (s : S) : outcome S :=
  let* s := write_uint32_t (sh_index h) s in
  let* s := write_int8_t (sh_thread h) s in
  write_uint32_t (sh_packet h) s.

(** an optional array of [n]-byte elements; its size in bytes is an [unsigned] *)
Definition write_opt_array (n : nat) (sptr : VkMarkedOffsetsARM) (p : option (list Z)) (s : S) : outcome S :=
  match p with
  | Some l =>
      if count sptr >? 0 then
        let* s := write_uint8_t 1 s in
        let* bs := array_bytes n sptr l in
        write_array bs s
      else write_uint8_t 0 s
  | None => write_uint8_t 0 s
  end.

Definition write_marked_offsets_extension (sptr : VkMarkedOffsetsARM) (s : S) : outcome S :=
  let* _ := require (sType sptr =? VK_STRUCTURE_TYPE_MARKED_OFFSETS_ARM) AssertFailed in
  let* s := write_uint32_t (sType sptr) s in
  let* s := write_uint32_t (sType sptr) s in
  let* s := write_uint32_t 0 s in
  let* s := write_uint32_t (count sptr) s in
  let* s := write_opt_array 4 sptr (pMarkingTypes sptr) s in
  let* s := write_opt_array 8 sptr (pSubTypes sptr) s in
  write_opt_array 8 sptr (pOffsets sptr) s.
End Bodies.

Definition opt_array_size (n : nat) (sptr : VkMarkedOffsetsARM) (p : option (list Z)) : Z :=
  1 + match p with Some _ => if count sptr >? 0 then count sptr * Z.of_nat n else 0 | None => 0 end.

Definition marked_offsets_extension_size (sptr : VkMarkedOffsetsARM) : Z :=
  wrap64 (4 + 4 + 4 + 4 + opt_array_size 4 sptr (pMarkingTypes sptr) + opt_array_size 8 sptr (pSubTypes sptr) +
          opt_array_size 8 sptr (pOffsets sptr)).

Section Rewriting.
Context {S : Type} `{PacketSink S} `{MarkingHeader}.

Definition write_output_handle (thread : Z) (m : packet_mapping) (input : list byte) (w : lava_file_writer S)
    : outcome (lava_file_writer S) :=
  let h := load_handle input in
  let* req_packet := translate_dependency thread m h in
  writing (write_stored_handle (StoredHandle (sh_index h) (sh_thread h) req_packet)) w.

Definition write_output_update_packet_prefix (thread : Z) (m : packet_mapping) (body : list byte) (header_start : nat)
    (w : lava_file_writer S) : outcome (lava_file_writer S) :=
  let* _ := require (Nat.eqb header_start (serialized_handle_size * 2)) AbortCall in
  let* w := write_output_handle thread m body w in
  write_output_handle thread m (drop serialized_handle_size body) w.

Definition write_output_update_packet (thread : Z) (m : packet_mapping) (update : output_update_packet) (body : list byte)
    (w : lava_file_writer S) : outcome (lava_file_writer S) :=
  let* w := begin_packet (op_instrtype update) w in
  let* w := write_output_update_packet_prefix thread m body (op_header_start update) w in
  let* w := writing (write_array (drop (op_header_start update) body)) w in
  end_packet w.

Definition write_output_initialization_packet (thread : Z) (m : packet_mapping) (instrtype : Z) (body : list byte)
    (w : lava_file_writer S) : outcome (lava_file_writer S) :=
  let data_start := (serialized_handle_size * 2)%nat in
  let* _ := require (Nat.leb data_start (length body)) AbortCall in
  let* w := begin_packet instrtype w in
  let* w := write_output_handle thread m body w in
  let* w := write_output_handle thread m (drop serialized_handle_size body) w in
  let* w := writing (write_array (drop data_start body)) w in
  end_packet w.

Definition maybe_write_rewritten_update_packet (thread : Z) (m : packet_mapping) (current : change_source)
    (update : output_update_packet) (body : list byte) (queue : list address_rewrite) (w : lava_file_writer S)
    : outcome (bool * list address_rewrite * lava_file_writer S) :=
  let* (queue, injected) := injected_markings current update queue in
  match injected with
  | None => Ok (false, queue, w)
  | Some desired =>
      let* w := begin_packet (op_instrtype update) w in
      let* w := write_output_update_packet_prefix thread m body (op_header_start update) w in
      let payload_bytes := Z.of_nat (length body - op_payload_start update) in
      match desired with
      | None => Fail AssertFailed
      | Some desired =>
          let new_header_bytes := wrap64 (2 + marked_offsets_extension_size desired) in
          let* w := writing (write_uint64_t (wrap64 (payload_bytes + new_header_bytes))) w in
          let* w := writing (write_uint16_t PACKET_FLAG_HAS_PNEXT) w in
          let* w := writing (write_marked_offsets_extension desired) w in
          let* w := writing (write_array (drop (op_payload_start update) body)) w in
          let* w := end_packet w in
          Ok (true, queue, w)
      end
  end.
End Rewriting.


(** ** The threads of the output pass *)

(** the targets of a barrier; an index that is not set fails an assertion of debug builds *)
Fixpoint read_indices (n : nat) (s : list byte) : outcome (list Z) :=
  match n with
  | O => Ok []
  | S n =>
      let* (i, s) := read_uint32_t s in
      let* _ := require (negb (i =? UINT32_MAX)) AssertFailed in
      let* l := read_indices n s in
      Ok (i :: l)
  end.

Definition read_barrier_indices (body : list byte) : outcome (list Z) :=
  let* (size, s) := read_uint8_t body in
  read_indices (Z.to_nat size) s.

Inductive output_phase :=
  | Stepping                            (** about to begin the next packet *)
  | AtBarrier (indices : list Z)        (** in [read_barrier], its packet completed *)
  | Recorded.                           (** the packet written, to be completed by [step] *)

Section Pass.
Context {S : Type} `{PacketSink S} `{MarkingHeader}.
Context (read_extension : list byte -> outcome (VkMarkedOffsetsARM * list byte)).
(** the callbacks of the call in a packet of a thread, which take their markings
    from the queue and write packets *)
Context (run_call : nat -> nat -> list address_rewrite -> lava_file_writer S ->
           outcome (list address_rewrite * lava_file_writer S)).
(** the frame a packet of a thread belongs to *)
Context (frame_of : nat -> nat -> Z).
Context (simulate : bool).

Record output_thread := OutputThread {
  ot_packet : nat;                      (** [current.packet], the packets completed *)
  ot_phase : output_phase;
  ot_queue : list address_rewrite;
  ot_writer : lava_file_writer S
}.

Record output_state := OutputState {
  os_mapping : packet_mapping;
  os_threads : list output_thread
}.

Definition thread_completed (st : output_state) (u : nat) : option nat := ot_packet <$> os_threads st !! u.

Definition set_thread (st : output_state) (t : nat) (ot : output_thread) : output_state :=
  OutputState (os_mapping st) (<[t := ot]> (os_threads st)).

(** [read_handle] has not to wait *)
Definition handle_ready (st : output_state) (t : nat) (h : stored_handle) : outcome bool :=
  if remote (Z.of_nat t) h then
    match thread_completed st (Z.to_nat (sh_thread h)) with
    | None => Fail OutOfRange
    | Some completed_packets => Ok (sh_packet h <? Z.of_nat completed_packets)
    end
  else Ok true.

Definition handles_ready (st : output_state) (t : nat) (body : list byte) : outcome bool :=
  let* first := handle_ready st t (load_handle body) in
  if first then handle_ready st t (load_handle (drop serialized_handle_size body)) else Ok false.

(** the waits of [read_barrier] from thread [i] on *)
Fixpoint barrier_ready (st : output_state) (t i : nat) (indices : list Z) : outcome bool :=
  match indices with
  | [] => Ok true
  | packet_index :: rest =>
      if Nat.eqb i t then barrier_ready st t (Datatypes.S i) rest
      else match thread_completed st i with
      | None => Fail OutOfRange
      | Some completed_packets =>
          if packet_index <=? Z.of_nat completed_packets then barrier_ready st t (Datatypes.S i) rest else Ok false
      end
  end.

Definition current_packets (st : output_state) : list Z :=
  map (fun ot => cs_packet (current (ot_writer ot))) (os_threads st).

(** [reader.current] in an update packet *)
Definition update_source (t n : nat) (instrtype : Z) : change_source :=
  ChangeSource (wrap32 (Z.of_nat n)) (frame_of t n) (wrap 8 (Z.of_nat t)) instrtype UINT16_MAX.

Definition inject_pending (st : output_state) (w : lava_file_writer S) : outcome (lava_file_writer S) :=
  if pending_barrier w then
    let* w := inject_thread_barrier (current_packets st) w in Ok (with_pending w false)
  else Ok w.

Definition output_update (st : output_state) (t : nat) (instrtype : Z) (body : list byte) (ot : output_thread)
    : outcome (list address_rewrite * lava_file_writer S) :=
  let* update := current_update_packet read_extension instrtype body in
  let* w := inject_pending st (ot_writer ot) in
  let m := os_mapping st in
  let* (res, w) :=
    if simulate then
      maybe_write_rewritten_update_packet (Z.of_nat t) m (update_source t (ot_packet ot) instrtype) update body (ot_queue ot) w
    else Ok (false, ot_queue ot, w) in
  let '(rewritten, queue) := res in
  if rewritten then Ok (queue, w)
  else let* w := write_output_update_packet (Z.of_nat t) m update body w in Ok (queue, w).

(** the packet is written and its boundary recorded *)
Definition finish_packet (st : output_state) (t : nat) (ot : output_thread) (queue : list address_rewrite)
    (w : lava_file_writer S) : outcome (option output_state) :=
  let* m := record t (wrap32 (Z.of_nat (ot_packet ot) + 1)) (cs_packet (current w)) (os_mapping st) in
  Ok (Some (OutputState m (<[t := OutputThread (ot_packet ot) Recorded queue w]> (os_threads st)))).

(** one step of [replay_thread] of thread [t] over its packets; [None] when it has
    to wait for another thread or has ended *)
Definition begin_step (packets : list packet) (t : nat) (st : output_state) (ot : output_thread) : outcome (option output_state) :=
  match packets !! ot_packet ot with
  | None => Ok None
  | Some (instrtype, body) =>
      let w := ot_writer ot in
      if instrtype =? PACKET_THREAD_BARRIER then
        let* m := record t (wrap32 (Z.of_nat (ot_packet ot) + 1)) (wrap32 (cs_packet (current w) + 1)) (os_mapping st) in
        let* indices := read_barrier_indices body in
        Ok (Some (OutputState m (<[t := OutputThread (Datatypes.S (ot_packet ot)) (AtBarrier indices) (ot_queue ot) w]> (os_threads st))))
      else if instrtype =? PACKET_VULKAN_API_CALL then
        let output_packet := cs_packet (current w) in
        let* (queue, w) := run_call t (ot_packet ot) (ot_queue ot) w in
        let* _ := require (negb (cs_packet (current w) =? output_packet)) AbortCall in
        finish_packet st t ot queue w
      else if is_update_packet instrtype then
        let* ready := handles_ready st t body in
        if ready then
          let* (queue, w) := output_update st t instrtype body ot in
          finish_packet st t ot queue w
        else Ok None
      else if is_initialization_packet instrtype then
        let* ready := handles_ready st t body in
        if ready then
          let* w := write_output_initialization_packet (Z.of_nat t) (os_mapping st) instrtype body w in
          finish_packet st t ot (ot_queue ot) w
        else Ok None
      else Fail AbortCall
  end.

Definition output_step (tr : list (list packet)) (t : nat) (st : output_state) : outcome (option output_state) :=
  match os_threads st !! t, tr !! t with
  | Some ot, Some packets =>
      match ot_phase ot with
      | Recorded => Ok (Some (set_thread st t (OutputThread (Datatypes.S (ot_packet ot)) Stepping (ot_queue ot) (ot_writer ot))))
      | Stepping => begin_step packets t st ot
      | AtBarrier indices =>
          let* ready := barrier_ready st t 0 indices in
          if ready then
            let* output_indices := translate_indices 0 indices (os_mapping st) in
            let* w := write_thread_barrier output_indices (ot_writer ot) in
            let* m := record t (wrap32 (Z.of_nat (ot_packet ot))) (cs_packet (current w)) (os_mapping st) in
            Ok (Some (OutputState m (<[t := OutputThread (ot_packet ot) Stepping (ot_queue ot) w]> (os_threads st))))
          else Ok None
      end
  | _, _ => Ok None
  end.

(** a schedule names the threads that make progress, in order *)
Fixpoint output_run (tr : list (list packet)) (schedule : list nat) (st : output_state) : outcome (option output_state) :=
  match schedule with
  | [] => Ok (Some st)
  | t :: rest =>
      let* next := output_step tr t st in
      match next with
      | Some st => output_run tr rest st
      | None => Ok None
      end
  end.

(** the start of the pass: a writer and a queue for every input thread *)
Definition output_start (queues : list (list address_rewrite)) (writers : list (lava_file_writer S)) : output_state :=
  OutputState (output_packet_mapping (length writers))
    (zip_with (OutputThread 0 Stepping) queues writers).
End Pass.
Arguments output_thread S {_}.
Arguments output_state S {_}.

(** ** After the pass *)

(** [is_flush_markings_source], by the id of the call *)
Definition is_flush_markings_source (flush_id : Z) (source : change_source) : bool :=
  negb (cs_call_id source =? UINT16_MAX) && (cs_call_id source =? flush_id).

Definition discard_ignored_flush_rewrites (flush_id : Z) (queue : list address_rewrite) : list address_rewrite :=
  filter (fun e => is_flush_markings_source flush_id (ar_source e) = false) queue.

(** [DIE] when a marking was not injected *)
Definition check_missing (flush_id : Z) (queues : list (list address_rewrite)) : outcome unit :=
  require (forallb (fun q => match discard_ignored_flush_rewrites flush_id q with [] => true | _ => false end) queues) AbortCall.

(** ** What the output holds *)

Definition encode_stored (h : stored_handle) : list byte :=
  le_encode 4 (sh_index h) ++ le_encode 1 (wrap 8 (sh_thread h)) ++ le_encode 4 (sh_packet h).

(** a handle that waits for packet [p] of another thread waits for the last packet
    of the output of that thread's packets up to [p]; other handles stay as they are *)
Definition translated (thread : Z) (m : packet_mapping) (h h' : stored_handle) : Prop :=
  if remote thread h then
    exists row v, m !! Z.to_nat (sh_thread h) = Some row /\ row !! S (Z.to_nat (sh_packet h)) = Some v /\
      1 <= v < UINT32_MAX /\ 0 <= sh_packet h < UINT32_MAX /\ h' = StoredHandle (sh_index h) (sh_thread h) (v - 1)
  else h' = h.

Lemma length_encode_stored h : length (encode_stored h) = serialized_handle_size.
Proof. unfold encode_stored. by rewrite !length_app, !length_le_encode. Qed.

Definition encode_opt_array (n : nat) (cnt : Z) (p : option (list Z)) : list byte :=
  match p with Some l => encode_array n cnt l | None => le_encode 1 0 end.

Definition encode_extension (d : VkMarkedOffsetsARM) : list byte :=
  le_encode 4 (sType d) ++ le_encode 4 (sType d) ++ le_encode 4 0 ++ le_encode 4 (count d) ++
  encode_opt_array 4 (count d) (pMarkingTypes d) ++ encode_opt_array 8 (count d) (pSubTypes d) ++
  encode_opt_array 8 (count d) (pOffsets d).

(** what follows the handles of an update when the markings [d] are written with it *)
Definition injected_rest (d : VkMarkedOffsetsARM) (payload : list byte) : list byte :=
  le_encode 8 (Z.of_nat (length (le_encode 2 PACKET_FLAG_HAS_PNEXT ++ encode_extension d ++ payload))) ++
  le_encode 2 PACKET_FLAG_HAS_PNEXT ++ encode_extension d ++ payload.

(** the arrays of the markings are there as far as they are counted, and their sizes fit *)
Definition array_fits (cnt : Z) (p : option (list Z)) : Prop :=
  match p with Some l => cnt <= Z.of_nat (length l) | None => True end.

Definition writable_markings `{MarkingHeader} (d : VkMarkedOffsetsARM) : Prop :=
  sType d = VK_STRUCTURE_TYPE_MARKED_OFFSETS_ARM /\ 0 <= count d /\ 8 * count d <= UINT32_MAX /\
  array_fits (count d) (pMarkingTypes d) /\ array_fits (count d) (pSubTypes d) /\ array_fits (count d) (pOffsets d).

Section BodyProofs.
Context {W : Type} `{ByteSink W} `{MarkingHeader}.

Lemma emits_stored_handle h : emits (write_stored_handle h) (encode_stored h).
Proof. apply emits_bind; [apply emits_value; lia|]. apply emits_bind; apply emits_value; lia. Qed.

Lemma emits_opt_array n d p : array_fits (count d) p -> 0 <= count d -> Z.of_nat n * count d <= UINT32_MAX ->
  emits (write_opt_array n d p) (encode_opt_array n (count d) p).
Proof.
  intros Hp Hc Hn. destruct p as [l|]; [|apply emits_value; lia]. cbn [array_fits] in Hp.
  assert (E : forall s, write_opt_array n d (Some l) s = write_marking_array n d l s).
  { intros s. unfold write_opt_array, write_marking_array. destruct (count d >? 0); [done|].
    destruct (write_uint8_t 0 s); done. }
  intros s Hs. rewrite E. by apply emits_marking_array.
Qed.

Lemma emits_extension d : writable_markings d -> emits (write_marked_offsets_extension d) (encode_extension d).
Proof.
  intros (Es & Hc & Hn & H1 & H2 & H3). unfold write_marked_offsets_extension, encode_extension.
  rewrite Es, Z.eqb_refl. cbn [require obind].
  repeat (apply emits_bind; [apply emits_value; lia|]).
  repeat (apply emits_bind; [apply emits_opt_array; (done || lia)|]). apply emits_opt_array; (done || lia).
Qed.
End BodyProofs.

Lemma length_encode_opt_array n d p : array_fits (count d) p -> 0 <= count d ->
  Z.of_nat (length (encode_opt_array n (count d) p)) = opt_array_size n d p.
Proof.
  intros Hp Hc. unfold opt_array_size. destruct p as [l|]; cbn [encode_opt_array array_fits] in *; [|by rewrite length_le_encode].
  unfold encode_array. destruct (count d >? 0) eqn:E; [|by rewrite length_le_encode].
  rewrite length_app, length_concat_le, length_take, length_le_encode, Nat.min_l by lia.
  rewrite Nat2Z.inj_add, Nat2Z.inj_mul, Z2Nat.id by lia. lia.
Qed.

(** the size noted in the packet is the size of what is written *)
Lemma length_encode_extension `{MarkingHeader} d : writable_markings d ->
  marked_offsets_extension_size d = Z.of_nat (length (encode_extension d)).
Proof.
  intros (Es & Hc & Hn & H1 & H2 & H3). unfold marked_offsets_extension_size, encode_extension.
  rewrite !length_app, !length_le_encode, !Nat2Z.inj_add, !length_encode_opt_array by done.
  assert (Hb : forall n p, 0 <= n <= 8 -> 0 <= opt_array_size (Z.to_nat n) d p <= 1 + UINT32_MAX).
  { intros n p Hn8. unfold opt_array_size. destruct p; [|u_lia]. destruct (count d >? 0); [|u_lia]. rewrite Z2Nat.id by lia.
    pose proof (Z.mul_le_mono_nonneg_l n 8 (count d) ltac:(lia) ltac:(lia)). pose proof (Z.mul_nonneg_nonneg (count d) n ltac:(lia) ltac:(lia)). u_lia. }
  pose proof (Hb 4 (pMarkingTypes d) ltac:(lia)). pose proof (Hb 8 (pSubTypes d) ltac:(lia)). pose proof (Hb 8 (pOffsets d) ltac:(lia)).
  change (Z.to_nat 4) with 4%nat in *. change (Z.to_nat 8) with 8%nat in *.
  rewrite wrap64_small by u_lia. lia.
Qed.

(** a mapping that later records extend *)
Definition mapping_le (m m' : packet_mapping) : Prop :=
  forall u l, m !! u = Some l -> exists l', m' !! u = Some l' /\ l `prefix_of` l'.

Lemma mapping_le_refl m : mapping_le m m.
Proof. intros u l Hl. by exists l. Qed.

Lemma mapping_le_append m t l v : m !! t = Some l -> mapping_le m (<[t := l ++ [v]]> m).
Proof.
  intros Hl u l1 Hu. destruct (decide (u = t)) as [->|Hn].
  - rewrite Hl in Hu. injection Hu as <-. exists (l ++ [v]). rewrite list_lookup_insert_eq by (by eapply lookup_lt_Some).
    split; [done|by eexists].
  - exists l1. by rewrite list_lookup_insert_ne.
Qed.

Lemma translate_spec thread i m l v : m !! thread = Some l -> l !! Z.to_nat i = Some v -> v <> UINT32_MAX ->
  translate thread i m = Ok v.
Proof. intros Hl Hv Hn. unfold translate. rewrite Hl, Hv. by rewrite (proj2 (Z.eqb_neq _ _)) by done. Qed.

Lemma translate_inv thread i m v : translate thread i m = Ok v ->
  exists l, m !! thread = Some l /\ l !! Z.to_nat i = Some v /\ v <> UINT32_MAX.
Proof.
  unfold translate. intros E. apply obind_ok_inv in E as (u & E1 & E2). injection E2 as E2.
  apply require_ok_inv in E1. bool_to_prop. rewrite E2 in E1. destruct (m !! thread) as [l|]; [|congruence].
  destruct (l !! Z.to_nat i) as [v'|] eqn:Ev; [|congruence]. subst v'. by exists l.
Qed.

Lemma translate_mono thread i m m' v : mapping_le m m' -> translate thread i m = Ok v -> translate thread i m' = Ok v.
Proof.
  intros Hm E. apply translate_inv in E as (l & Hl & Hv & Hn). destruct (Hm _ _ Hl) as (l' & Hl' & Hp).
  apply (translate_spec _ _ _ l'); [done| |done]. by eapply prefix_lookup_Some.
Qed.

(** target [i] of a barrier names the output of the packets it named of thread [i] *)
Definition translated_targets (m : packet_mapping) (l l' : list Z) : Prop :=
  length l' = length l /\
  forall i x, l !! i = Some x -> exists row v, m !! i = Some row /\ row !! Z.to_nat x = Some v /\ l' !! i = Some v.

Lemma translate_indices_from l : forall i m l', translate_indices i l m = Ok l' -> length l' = length l /\
  forall j x, l !! j = Some x -> exists row v, m !! (i + j)%nat = Some row /\ row !! Z.to_nat x = Some v /\ l' !! j = Some v.
Proof.
  induction l as [|y l IH]; intros i m l' E; cbn [translate_indices] in E; [by injection E as <-|].
  apply obind_ok_inv in E as (o & E1 & E). apply obind_ok_inv in E as (r & E2 & E). injection E as <-.
  destruct (IH _ _ _ E2) as [Hl Hr]. split; [simpl; by rewrite Hl|]. intros [|j] x Hx.
  - injection Hx as ->. apply translate_inv in E1 as (row & H1 & H2 & _). exists row, o. by rewrite Nat.add_0_r.
  - destruct (Hr j x Hx) as (row & v & H1 & H2 & H3). exists row, v. by rewrite <- Nat.add_succ_comm.
Qed.

Lemma translated_targets_mono m m' l l' : mapping_le m m' -> translated_targets m l l' -> translated_targets m' l l'.
Proof.
  intros Hm [Hl Hr]. split; [done|]. intros i x Hx. destruct (Hr i x Hx) as (row & v & H1 & H2 & H3).
  destruct (Hm _ _ H1) as (row' & Hr' & Hp). exists row', v. split; [done|]. split; [by eapply prefix_lookup_Some|done].
Qed.

Lemma translated_mono thread m m' h h' : mapping_le m m' -> translated thread m h h' -> translated thread m' h h'.
Proof.
  intros Hm. unfold translated. destruct (remote thread h); [|done]. intros (row & v & Hr & Hv & H1 & H2 & ->).
  destruct (Hm _ _ Hr) as (row' & Hr' & Hp). exists row', v. split; [done|]. split; [by eapply prefix_lookup_Some|done].
Qed.

Lemma translated_dependency thread m h h' : translated thread m h h' ->
  translate_dependency thread m h = Ok (sh_packet h') /\ h' = StoredHandle (sh_index h) (sh_thread h) (sh_packet h').
Proof.
  unfold translated, translate_dependency. destruct (remote thread h); [|intros ->; by destruct h].
  intros (row & v & Hr & Hv & H1 & H2 & ->). cbn [sh_packet]. rewrite (proj2 (Z.eqb_neq _ _)) by lia. cbn [negb require obind].
  rewrite wrap32_small by u_lia. rewrite (translate_spec _ _ m row v Hr); [|by rewrite Z2Nat.inj_add, Nat.add_1_r by lia|lia].
  cbn [obind]. rewrite (proj2 (Z.eqb_neq _ _)) by lia. cbn [negb require obind]. by rewrite wrap32_small by u_lia.
Qed.

(** ** What writing a packet does *)

(** [fits] of a stream of which more is to come *)
Definition leaves_room (done : list packet) (p : packet) : Prop := fits (done ++ [p]).

Section WriteProofs.
Context {S : Type} `{PacketSink S} `{MarkingHeader}.

(** a body that every writer keeps the size field of *)
Lemma writing_body {W} `{PacketSink W} (wr : W -> outcome W) w done ty body bs :
  packet_inv w done (Some (ty, body)) -> (forall F keep, emits (H := framed_sink F keep) wr bs) ->
  exists w', writing wr w = Ok w' /\ packet_inv w' done (Some (ty, body ++ bs)) /\ same_settings w w'.
Proof. intros Hi Hwr. apply (writing_spec w done ty body wr bs Hi). intros q n. apply Hwr. Qed.

Lemma output_handle_spec thread m input h' w done ty body :
  packet_inv w done (Some (ty, body)) -> translated thread m (load_handle input) h' ->
  exists w', write_output_handle thread m input w = Ok w' /\ packet_inv w' done (Some (ty, body ++ encode_stored h')) /\
    same_settings w w'.
Proof.
  intros Hi Ht. unfold write_output_handle. destruct (translated_dependency _ _ _ _ Ht) as [E Eh]. rewrite E. cbn [obind].
  rewrite <- Eh. apply (writing_body _ w done ty body _ Hi). intros F keep. exact (@emits_stored_handle _ (framed_sink F keep) _).
Qed.

(** the two handles in front of a body, with their dependencies translated *)
Definition translated_handles (thread : Z) (m : packet_mapping) (input handles : list byte) : Prop :=
  exists h1 h2, translated thread m (load_handle input) h1 /\
    translated thread m (load_handle (drop serialized_handle_size input)) h2 /\
    handles = encode_stored h1 ++ encode_stored h2.

Lemma output_handles_spec thread m input handles w done ty :
  packet_inv w done (Some (ty, [])) -> translated_handles thread m input handles ->
  exists w1 w', write_output_handle thread m input w = Ok w1 /\
    write_output_handle thread m (drop serialized_handle_size input) w1 = Ok w' /\
    packet_inv w' done (Some (ty, handles)) /\ same_settings w w'.
Proof.
  intros Hi (h1 & h2 & T1 & T2 & ->).
  destruct (output_handle_spec thread m input h1 w done ty [] Hi T1) as (w1 & E1 & Hi1 & S1).
  destruct (output_handle_spec thread m _ h2 w1 done ty _ Hi1 T2) as (w2 & E2 & Hi2 & S2).
  exists w1, w2. rewrite app_nil_l in Hi2. split; [done|]. split; [done|]. split; [done|]. by eapply same_settings_trans.
Qed.

(** the tail of every packet that the tool copies *)
Lemma finish_copy_spec w done ty front tail :
  packet_inv w done (Some (ty, front)) -> leaves_room done (ty, front ++ tail) ->
  exists w1 w', writing (write_array tail) w = Ok w1 /\ end_packet w1 = Ok w' /\
    packet_inv w' (done ++ [(ty, front ++ tail)]) None /\ same_settings w w'.
Proof.
  intros Hi Hf.
  destruct (writing_body (write_array tail) w done ty front tail Hi) as (w1 & E1 & Hi1 & S1).
  { intros F keep. apply (@emits_array _ (framed_sink F keep)). destruct Hf as (Hf & _). apply Forall_app in Hf as [_ Hf].
    apply Forall_cons in Hf as [Hf _]. cbn [snd] in Hf. rewrite length_app in Hf. u_lia. }
  destruct (end_packet_spec w1 _ _ Hi1 Hf) as (w2 & E2 & Hi2 & S2). exists w1, w2. split; [done|]. split; [done|].
  split; [done|]. by eapply same_settings_trans.
Qed.

Lemma output_update_spec thread m u body handles w done :
  packet_inv w done None -> op_header_start u = 18%nat -> translated_handles thread m body handles ->
  leaves_room done (op_instrtype u, handles ++ drop 18 body) ->
  exists w', write_output_update_packet thread m u body w = Ok w' /\
    packet_inv w' (done ++ [(op_instrtype u, handles ++ drop 18 body)]) None /\ same_settings w w'.
Proof.
  intros Hi Hh Ht Hf. unfold write_output_update_packet, write_output_update_packet_prefix. rewrite Hh.
  change (Nat.eqb 18 (serialized_handle_size * 2)) with true.
  destruct (begin_packet_spec w done None (op_instrtype u) Hi (fits_prefix _ _ Hf)) as (w1 & -> & Hi1 & S1). cbn [obind require close] in *.
  destruct (output_handles_spec thread m body handles w1 done _ Hi1 Ht) as (w2 & w3 & -> & E3 & Hi3 & S3). cbn [obind].
  rewrite E3. cbn [obind].
  destruct (finish_copy_spec w3 done _ _ _ Hi3 Hf) as (w4 & w5 & -> & E5 & Hi5 & S5). cbn [obind].
  exists w5. split; [done|]. split; [done|]. repeat (eapply same_settings_trans; [eassumption|]). done.
Qed.

Lemma output_initialization_spec thread m instrtype body handles w done :
  packet_inv w done None -> (18 <= length body)%nat -> translated_handles thread m body handles ->
  leaves_room done (instrtype, handles ++ drop 18 body) ->
  exists w', write_output_initialization_packet thread m instrtype body w = Ok w' /\
    packet_inv w' (done ++ [(instrtype, handles ++ drop 18 body)]) None /\ same_settings w w'.
Proof.
  intros Hi Hl Ht Hf. unfold write_output_initialization_packet. change (serialized_handle_size * 2)%nat with 18%nat.
  rewrite (proj2 (Nat.leb_le _ _)) by done. cbn [obind require].
  destruct (begin_packet_spec w done None instrtype Hi (fits_prefix _ _ Hf)) as (w1 & -> & Hi1 & S1). cbn [obind close] in *.
  destruct (output_handles_spec thread m body handles w1 done _ Hi1 Ht) as (w2 & w3 & -> & E3 & Hi3 & S3). cbn [obind].
  rewrite E3. cbn [obind].
  destruct (finish_copy_spec w3 done _ _ _ Hi3 Hf) as (w4 & w5 & -> & E5 & Hi5 & S5). cbn [obind].
  exists w5. split; [done|]. split; [done|]. repeat (eapply same_settings_trans; [eassumption|]). done.
Qed.

Lemma rewritten_spec thread m current u body queue queue' d handles w done :
  injected_markings current u queue = Ok (queue', Some (Some d)) -> writable_markings d ->
  packet_inv w done None -> op_header_start u = 18%nat -> translated_handles thread m body handles ->
  leaves_room done (op_instrtype u, handles ++ injected_rest d (drop (op_payload_start u) body)) ->
  exists w', maybe_write_rewritten_update_packet thread m current u body queue w = Ok (true, queue', w') /\
    packet_inv w' (done ++ [(op_instrtype u, handles ++ injected_rest d (drop (op_payload_start u) body))]) None /\
    same_settings w w'.
Proof.
  intros Ej Hd Hi Hh Ht Hf. unfold maybe_write_rewritten_update_packet, write_output_update_packet_prefix. rewrite Ej, Hh.
  change (Nat.eqb 18 (serialized_handle_size * 2)) with true. cbn [obind].
  destruct (begin_packet_spec w done None (op_instrtype u) Hi (fits_prefix _ _ Hf)) as (w1 & -> & Hi1 & S1). cbn [obind require close] in *.
  destruct (output_handles_spec thread m body handles w1 done _ Hi1 Ht) as (w2 & w3 & -> & E3 & Hi3 & S3). cbn [obind].
  rewrite E3. cbn [obind]. unfold injected_rest in *. set (payload := drop (op_payload_start u) body) in *.
  assert (Hsize : wrap64 (Z.of_nat (length body - op_payload_start u) + wrap64 (2 + marked_offsets_extension_size d)) =
    Z.of_nat (length (le_encode 2 PACKET_FLAG_HAS_PNEXT ++ encode_extension d ++ payload))).
  { rewrite length_encode_extension by done. rewrite !length_app, length_le_encode.
    replace (length body - op_payload_start u)%nat with (length payload) by (unfold payload; apply length_drop).
    destruct Hf as (Hf & _). apply Forall_app in Hf as [_ Hf]. apply Forall_cons in Hf as [Hf _]. cbn [snd] in Hf.
    rewrite !length_app, !length_le_encode in Hf. rewrite (wrap64_small (2 + _)) by u_lia. rewrite wrap64_small by u_lia. lia. }
  rewrite Hsize. clear Hsize. set (n := Z.of_nat (length (_ ++ encode_extension d ++ payload))) in *.
  destruct (writing_value 8 n w3 _ _ _ Hi3 ltac:(lia)) as (w4 & E4 & Hi4 & S4). unfold write_uint64_t. rewrite E4. cbn [obind].
  destruct (writing_value 2 PACKET_FLAG_HAS_PNEXT w4 _ _ _ Hi4 ltac:(lia)) as (w5 & E5 & Hi5 & S5). unfold write_uint16_t. rewrite E5. cbn [obind].
  destruct (writing_body (write_marked_offsets_extension d) w5 _ _ _ (encode_extension d) Hi5) as (w6 & E6 & Hi6 & S6).
  { intros F keep. exact (@emits_extension _ (framed_sink F keep) _ d Hd). }
  rewrite E6. cbn [obind]. rewrite <- !app_assoc in Hi6.
  destruct (finish_copy_spec w6 done _ _ payload Hi6) as (w7 & w8 & -> & E8 & Hi8 & S8); [by rewrite <- !app_assoc|].
  cbn [obind]. rewrite E8. cbn [obind]. exists w8. split; [done|]. rewrite <- !app_assoc in Hi8. split; [done|].
  repeat (eapply same_settings_trans; [eassumption|]). done.
Qed.
End WriteProofs.

(** ** The mapping as boundaries of the output *)

(** the number of output packets after each number of input packets, from [n] on *)
Fixpoint boundaries (n : Z) (outs : list (list packet)) : list Z :=
  n :: match outs with [] => [] | c :: outs => boundaries (n + Z.of_nat (length c)) outs end.

Lemma length_boundaries n outs : length (boundaries n outs) = S (length outs).
Proof. revert n; induction outs as [|c outs IH]; intros n; [done|]. cbn [boundaries length]. by rewrite IH. Qed.

Lemma boundaries_snoc n outs c :
  boundaries n (outs ++ [c]) = boundaries n outs ++ [n + Z.of_nat (length (concat outs) + length c)].
Proof.
  revert n; induction outs as [|x outs IH]; intros n; cbn [boundaries app concat]; [simpl; do 2 f_equal; lia|].
  rewrite IH, length_app. f_equal. f_equal. f_equal. lia.
Qed.

Lemma boundaries_lookup n outs j : (j <= length outs)%nat ->
  boundaries n outs !! j = Some (n + Z.of_nat (length (concat (take j outs)))).
Proof.
  revert n j; induction outs as [|c outs IH]; intros n [|j] Hj; cbn [length] in Hj; try lia.
  - simpl. f_equal. lia.
  - simpl. f_equal. lia.
  - cbn [boundaries]. change ((n :: boundaries (n + Z.of_nat (length c)) outs) !! S j)
      with (boundaries (n + Z.of_nat (length c)) outs !! j).
    rewrite IH by lia. cbn [take firstn concat]. rewrite length_app. f_equal. lia.
Qed.

Lemma translated_handles_mono thread m m' input handles :
  mapping_le m m' -> translated_handles thread m input handles -> translated_handles thread m' input handles.
Proof.
  intros Hm (h1 & h2 & T1 & T2 & ->). exists h1, h2. split; [by eapply translated_mono|]. split; [by eapply translated_mono|done].
Qed.

Lemma translated_handles_length thread m input handles : translated_handles thread m input handles -> length handles = 18%nat.
Proof. intros (h1 & h2 & _ & _ & ->). by rewrite length_app, !length_encode_stored. Qed.

Lemma record_next t v m l : m !! t = Some l -> record t (Z.of_nat (length l)) v m = Ok (<[t := l ++ [v]]> m).
Proof. intros Hl. unfold record. by rewrite Hl, Z.eqb_refl. Qed.

Lemma record_again t i v m l : m !! t = Some l -> l !! i = Some v -> record t (Z.of_nat i) v m = Ok m.
Proof.
  intros Hl Hv. unfold record. rewrite Hl. pose proof (lookup_lt_Some _ _ _ Hv) as Hi.
  rewrite (proj2 (Z.eqb_neq _ _)), (proj2 (Z.leb_gt _ _)), Nat2Z.id, bool_decide_eq_true_2 by (done || lia). done.
Qed.

(** ** What an update is made of *)

Section Updates.
Context `{MarkingHeader}.
Context (read_extension : list byte -> outcome (VkMarkedOffsetsARM * list byte)).

Lemma read_value_list n (s : list byte) v r : read_value n s = Ok (v, r) -> (n <= length s)%nat /\ r = drop n s.
Proof.
  unfold read_value. cbn [next_bytes list_source]. destruct (Nat.leb n (length s)) eqn:E; [|done].
  intros E1. injection E1 as _ <-. by apply Nat.leb_le in E.
Qed.

Lemma read_handle_index_list (s : list byte) v r : read_handle_index s = Ok (v, r) -> (9 <= length s)%nat /\ r = drop 9 s.
Proof.
  unfold read_handle_index, read_uint32_t, read_int8_t. intros E.
  apply obind_ok_inv in E as ([i r1] & E1 & E). apply read_value_list in E1 as [L1 ->].
  apply obind_ok_inv in E as ([j r2] & E2 & E). apply obind_ok_inv in E2 as ([j' r2'] & E2 & E2'). injection E2' as _ <-.
  apply read_value_list in E2 as [L2 ->].
  apply obind_ok_inv in E as ([l r3] & E3 & E). apply read_value_list in E3 as [L3 ->]. injection E as _ <-.
  rewrite !length_drop in *. rewrite !drop_drop. split; [lia|done].
Qed.

Lemma current_update_packet_spec instrtype body u : current_update_packet read_extension instrtype body = Ok u ->
  op_instrtype u = instrtype /\ op_header_start u = 18%nat /\ (18 <= length body)%nat.
Proof.
  unfold current_update_packet. intros E.
  apply obind_ok_inv in E as ([i r1] & E1 & E). apply read_handle_index_list in E1 as [L1 ->].
  apply obind_ok_inv in E as ([j r2] & E2 & E). apply read_handle_index_list in E2 as [L2 ->].
  apply obind_ok_inv in E as ([h r3] & _ & E). injection E as <-. cbn [op_instrtype op_header_start].
  rewrite !length_drop in *. split; [done|]. lia.
Qed.

Lemma normal_clone_marked m : marked m ->
  exists d, normal_clone (Some m) = Ok (Some d) /\ marked d /\ marks d = canonical (marks m) /\ count d <= count m.
Proof.
  intros [Hs Hw]. unfold normal_clone. destruct (clone_spec m Hw) as (c & -> & Wc & Sc & Mc & Cc). cbn [obind].
  destruct (normalize_spec c Wc) as (d & -> & Wd & Sd & Md & Cd). cbn [obind]. exists d. split; [done|].
  split; [split; [congruence|done]|]. split; [congruence|lia].
Qed.

Lemma marked_writable d n : marked d -> count d <= n -> 8 * n <= UINT32_MAX -> writable_markings d.
Proof.
  intros [Hs [Hu Hw]] Hn Hm. split; [done|]. split; [u_lia|]. split; [lia|]. unfold array_fits.
  destruct Hw as [Hz|(o & ty & su & -> & -> & -> & L1 & L2 & L3)]; [|done]. rewrite Hz.
  destruct (pMarkingTypes d), (pSubTypes d), (pOffsets d); repeat split; lia.
Qed.

Lemma find_rewrite_spec p queue : forall before e after, find_entry p queue = Some (before, e, after) ->
  queue = before ++ e :: after /\ p e = true /\ Forall (fun x => p x = false) before.
Proof.
  induction queue as [|x queue IH]; intros before e after E; [done|]. cbn [find_entry] in E. destruct (p x) eqn:Ep.
  - injection E as <- <- <-. split; [done|]. by split.
  - destruct (find_entry p queue) as [[[b y] a]|]; [|done]. injection E as <- <- <-.
    destruct (IH b y a eq_refl) as (-> & H1 & H2). split; [done|]. split; [done|]. by constructor.
Qed.

(** queues of the post-processor, with markings whose arrays fit a write *)
Definition queue_ok (queue : list address_rewrite) : Prop := Forall (entry_ok (UINT32_MAX / 8)) queue.

Lemma injected_spec current u queue queue' inj : queue_ok queue -> injected_markings current u queue = Ok (queue', inj) ->
  queue_ok queue' /\ match inj with
    | Some (Some d) => writable_markings d
    | Some None => False
    | None => True
    end.
Proof.
  intros Hq E. unfold injected_markings in E. destruct (find_entry _ queue) as [[[before e] after]|] eqn:Ef; [|by injection E as <- <-].
  apply find_rewrite_spec in Ef as (-> & _ & _). apply Forall_app in Hq as [Hb Ha]. apply Forall_cons in Ha as [He Ha].
  assert (Hba : queue_ok (before ++ after)) by (by apply Forall_app).
  apply obind_ok_inv in E as (u1 & _ & E). apply obind_ok_inv in E as (u2 & _ & E).
  destruct He as (m & Em & Hm & _ & Hc). rewrite Em in E.
  destruct (normal_clone_marked m Hm) as (d & Ed & Md & _ & Cd). rewrite Ed in E. cbn [obind] in E.
  apply obind_ok_inv in E as (existing & _ & E). case_bool_decide; injection E as <- <-; [done|]. split; [done|].
  apply (marked_writable d (UINT32_MAX / 8)); [done|lia|]. unfold UINT32_MAX. vm_compute. done.
Qed.
End Updates.

(** ** Injected markings read back *)

Definition word_marking (x : marking) : Prop :=
  0 <= mk_offset x < 2 ^ 64 /\ 0 <= mk_type x < 2 ^ 32 /\ 0 <= mk_sub x < 2 ^ 64.

Lemma zip_markings_unzip n : forall o t s, length o = n -> length t = n -> length s = n ->
  map mk_offset (zip_markings o t s) = o /\ map mk_type (zip_markings o t s) = t /\ map mk_sub (zip_markings o t s) = s.
Proof.
  induction n as [|n IH]; intros [|a o] [|b t] [|c s]; simpl; intros; try lia; [done|].
  destruct (IH o t s) as (-> & -> & ->); [lia..|]. done.
Qed.

(** [read_extension] of the structure, behind its discriminant *)
Definition read_marked_extension `{MarkingHeader} {R} `{ByteSource R} (read_pnext : R -> outcome (unit * R)) (s : R)
    : outcome (VkMarkedOffsetsARM * R) :=
  let* (_, s) := read_uint32_t s in read_VkMarkedOffsetsARM read_pnext s.

Section ReadBack.
Context `{MarkingHeader} {R : Type} `{ByteSource R}.

Lemma parses_opt_array n cnt p : 0 <= cnt -> Z.of_nat n * cnt <= UINT32_MAX ->
  match p with
  | Some l => cnt <= Z.of_nat (length l) /\ Forall (fun z => 0 <= z < 256 ^ Z.of_nat n) (take (Z.to_nat cnt) l)
  | None => cnt = 0
  end -> parses (read_marking_array n cnt) (encode_opt_array n cnt p) (seen_array cnt (default [] p)).
Proof.
  intros Hc Hn Hp. destruct p as [l|]; cbn [encode_opt_array default].
  - destruct Hp as [Hl Hz]. pose proof (parses_marking_array n cnt (take (Z.to_nat cnt) l)) as Hpa.
    unfold encode_array, seen_array in *. rewrite take_take, Nat.min_id in Hpa. apply Hpa; [|done|done]. rewrite length_take. lia.
  - subst cnt. apply (parses_marking_array n 0 []); [simpl; lia|lia|constructor].
Qed.

Lemma parses_extension read_pnext d : marked d -> 8 * count d <= UINT32_MAX -> Forall word_marking (marks d) ->
  parses read_pnext (le_encode 4 0) tt ->
  exists seen, parses (read_marked_extension read_pnext) (encode_extension d) seen /\ sType seen = sType d /\ marks seen = marks d /\
    count seen = count d /\ (0 < count d -> arrays_hold seen).
Proof.
  intros [Hs [Hu Hw]] Hn Hwords Hpn. unfold read_marked_extension, read_VkMarkedOffsetsARM, encode_extension.
  assert (Harr : match pMarkingTypes d with
      | Some l => count d <= Z.of_nat (length l) /\ Forall (fun z => 0 <= z < 256 ^ Z.of_nat 4) (take (Z.to_nat (count d)) l)
      | None => count d = 0 end /\
    match pSubTypes d with
      | Some l => count d <= Z.of_nat (length l) /\ Forall (fun z => 0 <= z < 256 ^ Z.of_nat 8) (take (Z.to_nat (count d)) l)
      | None => count d = 0 end /\
    match pOffsets d with
      | Some l => count d <= Z.of_nat (length l) /\ Forall (fun z => 0 <= z < 256 ^ Z.of_nat 8) (take (Z.to_nat (count d)) l)
      | None => count d = 0 end).
  { destruct Hw as [->|(o & t & s & Eo & Et & Es & L1 & L2 & L3)].
    { destruct (pMarkingTypes d), (pSubTypes d), (pOffsets d); repeat split; try lia; constructor. }
    unfold marks in Hwords. rewrite Eo, Et, Es in Hwords |- *.
    destruct (zip_markings_unzip (Z.to_nat (count d)) (take (Z.to_nat (count d)) o) (take (Z.to_nat (count d)) t) (take (Z.to_nat (count d)) s))
      as (Zo & Zt & Zs); [rewrite length_take; lia..|].
    assert (Hf : forall (f : marking -> Z) b, (forall x, word_marking x -> 0 <= f x < b) ->
      Forall (fun z => 0 <= z < b) (map f (zip_markings (take (Z.to_nat (count d)) o) (take (Z.to_nat (count d)) t) (take (Z.to_nat (count d)) s)))).
    { intros f b Hfb. apply List.Forall_map. eapply List.Forall_impl; [|exact Hwords]. exact Hfb. }
    pose proof (Hf mk_offset (2 ^ 64) ltac:(intros x (H1 & H2 & H3); done)) as Fo. rewrite Zo in Fo.
    pose proof (Hf mk_type (2 ^ 32) ltac:(intros x (H1 & H2 & H3); done)) as Ft. rewrite Zt in Ft.
    pose proof (Hf mk_sub (2 ^ 64) ltac:(intros x (H1 & H2 & H3); done)) as Fs. rewrite Zs in Fs. done. }
  destruct Harr as (A1 & A2 & A3).
  exists (MarkedOffsets (sType d) (count d) (seen_array (count d) (default [] (pMarkingTypes d)))
    (seen_array (count d) (default [] (pSubTypes d))) (seen_array (count d) (default [] (pOffsets d)))).
  split; [|split; [done|split; [|split; [done|]]]].
  - pose proof header_stype as Hst. rewrite Hs.
    eapply (parses_bind (read_value 4)); [apply parses_value; change (256 ^ Z.of_nat 4) with (2 ^ 32); u_lia|].
    eapply (parses_bind (read_value 4)); [apply parses_value; change (256 ^ Z.of_nat 4) with (2 ^ 32); u_lia|].
    rewrite Z.eqb_refl. cbn [require obind]. eapply parses_bind; [exact Hpn|].
    eapply (parses_bind (read_value 4)); [apply parses_value; change (256 ^ Z.of_nat 4) with (2 ^ 32); u_lia|].
    eapply (parses_bind (read_marking_array 4 (count d))); [apply parses_opt_array; (done || u_lia)|].
    eapply (parses_bind (read_marking_array 8 (count d))); [apply parses_opt_array; (done || u_lia)|].
    rewrite <- (app_nil_r (encode_opt_array 8 (count d) (pOffsets d))).
    eapply (parses_bind (read_marking_array 8 (count d))); [apply parses_opt_array; (done || u_lia)|]. apply parses_ret.
  - unfold marks at 1. cbn [pOffsets pMarkingTypes pSubTypes count]. unfold seen_array. destruct (count d >? 0) eqn:E; bool_to_prop.
    2:{ assert (count d = 0) by u_lia. by rewrite marks_zero. }
    destruct Hw as [Hz|(o & t & s & Eo & Et & Es & L1 & L2 & L3)]; [lia|]. unfold marks. rewrite Eo, Et, Es. cbn [default].
    by rewrite !take_take, !Nat.min_id.
  - intros Hpos. destruct Hw as [Hz|(o & t & s & Eo & Et & Es & L1 & L2 & L3)]; [lia|]. unfold arrays_hold, seen_array.
    cbn [pOffsets pMarkingTypes pSubTypes count]. rewrite Eo, Et, Es, (proj2 (Z.gtb_lt (count d) 0)) by lia. cbn [default].
    eexists _, _, _. do 3 (split; [reflexivity|]). unfold id. rewrite !length_take. lia.
Qed.
End ReadBack.

(** ** Properties *)

Lemma existing_normal `{MarkingHeader} sptr : (sptr = None \/ exists m, sptr = Some m /\ marked m) ->
  exists c, normal_clone sptr = Ok c /\ match sptr, c with
    | None, None => True
    | Some m, Some c => marked c /\ marks c = canonical (marks m)
    | _, _ => False
    end.
Proof.
  intros [->|(m & -> & Hm)]; [by exists None|]. destruct (normal_clone_marked m Hm) as (d & E & Md & Ed & _). by exists (Some d).
Qed.

(** the markings of an entry are those the update already has *)
Definition already_marked (update : output_update_packet) (m : VkMarkedOffsetsARM) : Prop :=
  exists m0, op_sptr update = Some m0 /\ forall x, x ∈ marks m0 <-> x ∈ marks m.

Lemma injection_decided `{MarkingHeader} current u before e after m queue :
  find_entry (matches_output current u) queue = Some (before, e, after) -> ar_markings e = Some m -> marked m ->
  versioned (op_instrtype u) = true -> (op_sptr u = None \/ exists m0, op_sptr u = Some m0 /\ marked m0) ->
  (already_marked u m /\ injected_markings current u queue = Ok (before ++ after, None)) \/
  ~ already_marked u m /\ exists d, injected_markings current u queue = Ok (before ++ after, Some (Some d)) /\
    marked d /\ marks d = canonical (marks m) /\ count d <= count m.
Proof.
  intros Ef Em Hm Hv Hs. unfold injected_markings. rewrite Ef, Em. unfold versioned in Hv.
  replace ((op_instrtype u =? PACKET_BUFFER_UPDATE2) || _ || _) with true by (destruct (op_instrtype u =? PACKET_BUFFER_UPDATE2), (op_instrtype u =? PACKET_IMAGE_UPDATE2); done).
  destruct (existing_normal _ Hs) as (c & Ec & Hc). destruct (normal_clone_marked m Hm) as (d & Ed & Md & Kd & Cd). rewrite Ed, Ec.
  destruct (canonical_spec (marks m)) as [_ Hin].
  destruct (op_sptr u) as [m0|] eqn:E0, c as [c|]; try done; cbn [require obind].
  - assert (Hm0 : marked m0) by (destruct Hs as [?|(? & [= ->] & ?)]; done). destruct Hc as [Mc Kc].
    rewrite (proj1 Hm0), Z.eqb_refl. cbn [require obind]. destruct (canonical_spec (marks m0)) as [_ Hin0].
    assert (Heq : already_marked u m <-> compare_marked_offsets (Some c) (Some d) = diff_none).
    { rewrite marks_compare by done. rewrite Kc, Kd. unfold already_marked. rewrite E0. split.
      - intros (m1 & [= <-] & He). by apply canonical_unique.
      - intros He. exists m0. split; [done|]. intros x. by rewrite <- Hin0, He, Hin. }
    case_bool_decide as Hd; [left; split; [by apply Heq|done]|]. right. split; [by rewrite Heq|]. by exists d.
  - right. split; [intros (m1 & ? & _); congruence|]. by exists d.
Qed.

Lemma injected_length `{MarkingHeader} u d body : writable_markings d ->
  Z.of_nat (length (injected_rest d (drop (op_payload_start u) body))) <= Z.of_nat (length body) + 29 + 20 * count d.
Proof.
  intros Wd. pose proof (length_encode_extension d Wd) as El. destruct Wd as (_ & Hc & Hn & _). unfold injected_rest.
  rewrite !length_app, !length_le_encode, length_drop.
  assert (Hs : marked_offsets_extension_size d <= 19 + 20 * count d).
  { unfold marked_offsets_extension_size. etransitivity; [apply Z.mod_le; [|done]|]; unfold opt_array_size;
      destruct (pMarkingTypes d), (pSubTypes d), (pOffsets d), (count d >? 0); lia. }
  lia.
Qed.

(** C27: an update whose markings the post-processor discovered is written with them:
    the entry leaves the queue; if the update already has exactly these markings it is
    left to the plain copy, and otherwise one packet of the same type is written, with
    the same handles and the same payload, whose flags, size and extension announce
    markings that read back as the sorted entries of the queue. *)
Theorem discovered_markings_injected {S R} `{PacketSink S, MarkingHeader, ByteSource R}
    (read_extension : list byte -> outcome (VkMarkedOffsetsARM * list byte)) (read_pnext : R -> outcome (unit * R))
    (thread : Z) (mapping : packet_mapping) (current : change_source) (instrtype : Z) (body handles : list byte)
    (u : output_update_packet) (queue before after : list address_rewrite) (e : address_rewrite) (m : VkMarkedOffsetsARM)
    (w : lava_file_writer S) (done : list packet)
    (Hw : packet_inv w done None) (Hu : current_update_packet read_extension instrtype body = Ok u)
    (Hv : versioned instrtype = true) (Hs : op_sptr u = None \/ exists m0, op_sptr u = Some m0 /\ marked m0)
    (He : find_entry (matches_output current u) queue = Some (before, e, after)) (Hm : ar_markings e = Some m) (Hmarked : marked m)
    (Hwords : Forall word_marking (marks m)) (Ht : translated_handles thread mapping body handles)
    (Hroom : room done (Z.of_nat (length body) + 50 + 20 * count m)) (Hpn : parses read_pnext (le_encode 4 0) tt) :
  let out := maybe_write_rewritten_update_packet thread mapping current u body queue w in
  (already_marked u m /\ out = Ok (false, before ++ after, w)) \/
  ~ already_marked u m /\ exists d w' seen, out = Ok (true, before ++ after, w') /\
    packet_inv w' (done ++ [(instrtype, handles ++ injected_rest d (drop (op_payload_start u) body))]) None /\
    strict (marks d) /\ (forall x, x ∈ marks d <-> x ∈ marks m) /\
    parses (read_marked_extension read_pnext) (encode_extension d) seen /\ marks seen = marks d /\
    sType seen = VK_STRUCTURE_TYPE_MARKED_OFFSETS_ARM.
Proof.
  intros out. destruct (current_update_packet_spec _ _ _ _ Hu) as (Uty & Uh & Ul). rewrite <- Uty in Hv.
  assert (Hc : 0 <= count m /\ 8 * count m <= UINT32_MAX) by (destruct Hmarked as [_ []], Hroom as (_ & ? & _); u_lia).
  destruct (injection_decided current u before e after m queue He Hm Hmarked Hv Hs) as [[Ha Ej]|(Hn & d & Ej & Md & Kd & Cd)].
  { left. split; [exact Ha|]. unfold out, maybe_write_rewritten_update_packet. by rewrite Ej. }
  right. split; [exact Hn|]. destruct (canonical_spec (marks m)) as [C1 C2].
  pose proof (marked_writable d (count m) Md Cd ltac:(lia)) as Wd.
  destruct (rewritten_spec thread mapping current u body queue (before ++ after) d handles w done Ej Wd Hw Uh Ht) as (w' & E' & Hw' & _).
  { eapply room_fits; [exact Hroom|]. pose proof (injected_length u d body Wd) as Hlen.
    rewrite length_app, (translated_handles_length _ _ _ _ Ht). lia. }
  assert (Hwd : Forall word_marking (marks d)).
  { rewrite Kd. rewrite Forall_forall in *. intros x Hx. by apply Hwords, C2. }
  destruct (parses_extension read_pnext d Md ltac:(lia) Hwd Hpn) as (seen & P1 & P2 & P3 & _). exists d, w', seen.
  split; [exact E'|]. rewrite <- Uty. split; [exact Hw'|]. rewrite P2, Kd. split; [exact C1|]. split; [exact C2|].
  split; [exact P1|]. split; [by rewrite P3|apply Md].
Qed.

(** C40: what the pass refuses: packets of types it does not know, calls whose callbacks
    write nothing, and markings for updates that cannot carry them, because they have
    no version or another extension; each ends in an abort before anything is written. *)
Theorem output_pass_refuses {S} `{PacketSink S, MarkingHeader}
    (read_extension : list byte -> outcome (VkMarkedOffsetsARM * list byte))
    (run_call : nat -> nat -> list address_rewrite -> lava_file_writer S -> outcome (list address_rewrite * lava_file_writer S))
    (frame_of : nat -> nat -> Z)
    (tr : list (list packet)) (st : output_state S) (t : nat) (ot : output_thread S) (ps : list packet) (instrtype : Z) (body : list byte)
    (Ht : os_threads st !! t = Some ot) (Hps : tr !! t = Some ps) (Hph : ot_phase ot = Stepping)
    (Hp : ps !! ot_packet ot = Some (instrtype, body)) :
  let step := output_step read_extension run_call frame_of true tr t st in
  (instrtype <> PACKET_THREAD_BARRIER -> instrtype <> PACKET_VULKAN_API_CALL -> is_update_packet instrtype = false ->
     is_initialization_packet instrtype = false -> step = Fail AbortCall) /\
  (forall queue w, instrtype = PACKET_VULKAN_API_CALL -> run_call t (ot_packet ot) (ot_queue ot) (ot_writer ot) = Ok (queue, w) ->
     cs_packet (current w) = cs_packet (current (ot_writer ot)) -> step = Fail AbortCall) /\
  (forall u before e after, is_update_packet instrtype = true -> handles_ready st t body = Ok true -> pending_barrier (ot_writer ot) = false ->
     current_update_packet read_extension instrtype body = Ok u ->
     find_entry (matches_output (update_source frame_of t (ot_packet ot) instrtype) u) (ot_queue ot) = Some (before, e, after) ->
     versioned instrtype = false \/ (exists m, op_sptr u = Some m /\ sType m <> VK_STRUCTURE_TYPE_MARKED_OFFSETS_ARM) ->
     step = Fail AbortCall).
Proof.
  intros step.
  assert (Hstep : step = begin_step read_extension run_call frame_of true ps t st ot) by (unfold step, output_step; by rewrite Ht, Hps, Hph).
  rewrite Hstep. unfold begin_step. destruct (ps !! ot_packet ot) as [[ty bd]|]; [|done]. injection Hp as -> ->.
  split; [|split].
  - intros H1 H2 H3 H4. by rewrite (proj2 (Z.eqb_neq _ _) H1), (proj2 (Z.eqb_neq _ _) H2), H3, H4.
  - intros queue w -> Ec Ew. change (PACKET_VULKAN_API_CALL =? PACKET_THREAD_BARRIER) with false. rewrite Z.eqb_refl. cbn iota.
    rewrite Ec. cbn [obind]. by rewrite Ew, Z.eqb_refl.
  - intros u before e after Hup Hr Hpd Eu Ef Hbad. destruct (current_update_packet_spec _ _ _ _ Eu) as (Uty & _ & _).
    assert (Hne : (instrtype =? PACKET_THREAD_BARRIER) = false /\ (instrtype =? PACKET_VULKAN_API_CALL) = false).
    { split; apply Z.eqb_neq; intros ->; discriminate Hup. }
    rewrite (proj1 Hne), (proj2 Hne), Hup, Hr. cbn [obind]. unfold output_update, inject_pending. rewrite Eu, Hpd. cbn [obind].
    unfold maybe_write_rewritten_update_packet, injected_markings. rewrite Ef, Uty. unfold versioned in Hbad.
    destruct ((instrtype =? PACKET_BUFFER_UPDATE2) || (instrtype =? PACKET_IMAGE_UPDATE2) || (instrtype =? PACKET_TENSOR_UPDATE)) eqn:Ev; [|done].
    destruct Hbad as [Hbad|(m & -> & Hm)]; [|by rewrite (proj2 (Z.eqb_neq _ _) Hm)].
    exfalso. rewrite (orb_comm (instrtype =? PACKET_BUFFER_UPDATE2)) in Ev. congruence.
Qed.

(** ** An update that is marked *)

#[local] Existing Instance demo_header.

(** packets on a list of bytes, for runs that are evaluated *)
#[local] Obligation Tactic := idtac.
#[program] Definition list_packets : PacketSink (list byte) := {|
  packet_sink := list_sink;
  place := nat;
  write_later n v s := Ok (length s, s ++ le_encode n v);
  store_at p bs s := Ok (memcpy s p bs);
  thaw_sink s := s;
  position s := wrap64 (Z.of_nat (length s));
  chunk_offset s := 0;
  sink_self_test s := Ok tt;
  refers s p m n := p = n /\ (n + m <= length s)%nat
|}.
Next Obligation. done. Qed.
Next Obligation.
  intros n v s _. exists (length s), (s ++ le_encode n v). split; [done|]. split; [done|]. split; [done|].
  change (written s) with s. rewrite length_app, length_le_encode. split; [split; [done|lia]|].
  intros q m i [-> Hi]. split; [done|lia].
Qed.
Next Obligation. intros bs s s' p m n _ [-> Hn] E. injection E as <-. rewrite length_app. split; [done|lia]. Qed.
Next Obligation.
  intros s p m n bs _ [-> Hn] Hb. exists (memcpy s n bs). split; [done|]. split; [done|]. split; [done|].
  intros q m' i [-> Hi]. rewrite length_memcpy by lia. split; [done|lia].
Qed.
Next Obligation. done. Qed.

Abbreviation demo_out_writer := (lava_file_writer (H := list_packets) (list byte)).

Definition demo_out_start : demo_out_writer := new_lava_file_writer (H := list_packets) [] 0 true.

(** an update whose object the second call of thread 0 made *)
Definition demo_update_body (first second : Z) : list byte :=
  encode_stored (StoredHandle 0 0 first) ++ encode_stored (StoredHandle 3 0 second) ++ le_encode 8 10 ++ le_encode 2 0 ++ repeat x00 8.

Definition demo_read_extension (s : list byte) : outcome (VkMarkedOffsetsARM * list byte) := Fail AbortCall.

Definition demo_read_pnext (s : list byte) : outcome (unit * list byte) := let* (_, s) := read_uint32_t s in Ok (tt, s).

Definition demo_source : change_source := ChangeSource 1 0 1 PACKET_BUFFER_UPDATE2 UINT16_MAX.

Definition demo_update : output_update_packet := OutputUpdatePacket PACKET_BUFFER_UPDATE2 3 18 28 None.

Definition demo_entry : address_rewrite :=
  AddressRewrite (Some (demo_marks [(8, 1, 0); (0, 1, 1)])) demo_source (object_type_code VK_OBJECT_TYPE_BUFFER) 3 0.

Definition demo_mapping : list (list Z) := [[0; 2; 4]; [0; 1]].

Lemma demo_writer_fresh : packet_inv (H := list_packets) demo_out_start [] None.
Proof. by apply (new_lava_writer_inv (H := list_packets)). Qed.

Lemma demo_translated : translated_handles 1 demo_mapping (demo_update_body 0 1)
  (encode_stored (StoredHandle 0 0 1) ++ encode_stored (StoredHandle 3 0 3)).
Proof.
  exists (StoredHandle 0 0 1), (StoredHandle 3 0 3). split; [|split; [|done]].
  - exists [0; 2; 4], 2. by repeat split.
  - exists [0; 2; 4], 4. by repeat split.
Qed.

Lemma demo_parses_pnext : parses demo_read_pnext (le_encode 4 0) tt.
Proof.
  unfold demo_read_pnext. apply (parses_map read_uint32_t (fun _ => tt) (le_encode 4 0) 0). apply (parses_value 4). by split.
Qed.

Lemma discovered_markings_injected_witness :
  let out := maybe_write_rewritten_update_packet (H := list_packets) 1 demo_mapping demo_source demo_update (demo_update_body 0 1) [demo_entry] demo_out_start in
  (already_marked demo_update (demo_marks [(8, 1, 0); (0, 1, 1)]) /\ out = Ok (false, [], demo_out_start)) \/
  ~ already_marked demo_update (demo_marks [(8, 1, 0); (0, 1, 1)]) /\ exists d w' seen, out = Ok (true, [], w') /\
    packet_inv (H := list_packets) w' ([] ++ [(PACKET_BUFFER_UPDATE2, (encode_stored (StoredHandle 0 0 1) ++ encode_stored (StoredHandle 3 0 3)) ++
      injected_rest d (drop (op_payload_start demo_update) (demo_update_body 0 1)))]) None /\
    strict (marks d) /\ (forall x, x ∈ marks d <-> x ∈ marks (demo_marks [(8, 1, 0); (0, 1, 1)])) /\
    parses (read_marked_extension demo_read_pnext) (encode_extension d) seen /\ marks seen = marks d /\
    sType seen = VK_STRUCTURE_TYPE_MARKED_OFFSETS_ARM.
Proof.
  apply (discovered_markings_injected (H := list_packets) demo_read_extension demo_read_pnext 1 demo_mapping demo_source PACKET_BUFFER_UPDATE2
    (demo_update_body 0 1) (encode_stored (StoredHandle 0 0 1) ++ encode_stored (StoredHandle 3 0 3)) demo_update [demo_entry] [] [] demo_entry
    (demo_marks [(8, 1, 0); (0, 1, 1)]) demo_out_start []).
  - exact demo_writer_fresh.
  - vm_compute. reflexivity.
  - reflexivity.
  - by left.
  - reflexivity.
  - reflexivity.
  - apply demo_marked. by vm_compute.
  - repeat constructor; by vm_compute.
  - exact demo_translated.
  - split; [by repeat split; repeat constructor|]. repeat split; by vm_compute.
  - exact demo_parses_pnext.
Defined.

(** a packet of a type there is none of, and a callback that writes nothing *)
Definition demo_unknown : list (list packet) := [[(10, [])]].

Definition demo_silent_call (t n : nat) (queue : list address_rewrite) (w : demo_out_writer)
    : outcome (list address_rewrite * demo_out_writer) := Ok (queue, w).

Lemma output_pass_refuses_witness :
  let st := output_start (H := list_packets) [[]] [demo_out_start] in
  let ot := OutputThread (H := list_packets) 0 Stepping [] demo_out_start in
  let step := output_step (H := list_packets) demo_read_extension demo_silent_call (fun _ _ => 0) true demo_unknown 0 st in
  (10 <> PACKET_THREAD_BARRIER -> 10 <> PACKET_VULKAN_API_CALL -> is_update_packet 10 = false ->
     is_initialization_packet 10 = false -> step = Fail AbortCall) /\
  (forall queue w, 10 = PACKET_VULKAN_API_CALL -> demo_silent_call 0 0 [] demo_out_start = Ok (queue, w) ->
     cs_packet (current w) = cs_packet (current demo_out_start) -> step = Fail AbortCall) /\
  (forall u before e after, is_update_packet 10 = true -> handles_ready st 0 [] = Ok true -> pending_barrier demo_out_start = false ->
     current_update_packet demo_read_extension 10 [] = Ok u ->
     find_entry (matches_output (update_source (fun _ _ => 0) 0 0 10) u) [] = Some (before, e, after) ->
     versioned 10 = false \/ (exists m, op_sptr u = Some m /\ sType m <> VK_STRUCTURE_TYPE_MARKED_OFFSETS_ARM) ->
     step = Fail AbortCall).
Proof.
  intros st ot. exact (output_pass_refuses (H := list_packets) demo_read_extension demo_silent_call (fun _ _ => 0) demo_unknown st 0 ot
    [(10, [])] 10 [] eq_refl eq_refl eq_refl eq_refl).
Defined.
