(* ===== verification/OutputPass.v ===== *)
(** * The output pass over all threads (src/tool.cpp)

    What the threads of [Output] write together: the shape of a thread's output is
    a function of its own packets and markings alone, and whatever the threads do
    in between, every packet is the shape with its dependencies translated. The
    invariant [state_inv] holds in every state of every schedule. *)

From Stdlib Require Import ZArith Lia Bool.
From Stdlib.Strings Require Import Byte.
From stdpp Require Import base numbers list.
From S2P Require Import Prelude Stream RangeTracking Patch Memory FileWriter FileReader RandomAccess Packets Containers Markings Translate Updates Output.

#[local] Open Scope Z_scope.

(** ** What a thread has to write *)

Section PassSpec.
Context {S : Type} `{PacketSink S} `{MarkingHeader}.
Context (read_extension : list byte -> outcome (VkMarkedOffsetsARM * list byte)).
Context (run_call : nat -> nat -> list address_rewrite -> lava_file_writer S ->
           outcome (list address_rewrite * lava_file_writer S)).
Context (frame_of : nat -> nat -> Z) (simulate : bool).
(** what the callbacks of a call leave in the queue and write *)
Context (call_out : nat -> nat -> list address_rewrite -> list address_rewrite * list packet).

(** the update as the markings leave it, its handles not yet translated *)
Definition update_shape (t n : nat) (queue : list address_rewrite) (instrtype : Z) (body : list byte)
    : outcome (list address_rewrite * packet) :=
  let* update := current_update_packet read_extension instrtype body in
  let* (queue, injected) :=
    if simulate then injected_markings (update_source frame_of t n instrtype) update queue else Ok (queue, None) in
  match injected with
  | None => Ok (queue, (instrtype, body))
  | Some None => Fail AssertFailed
  | Some (Some d) => Ok (queue, (instrtype, take 18 body ++ injected_rest d (drop (op_payload_start update) body)))
  end.

Definition packet_shape (t n : nat) (queue : list address_rewrite) (p : packet) : outcome (list address_rewrite * list packet) :=
  if p.1 =? PACKET_THREAD_BARRIER then
    let* l := read_barrier_indices p.2 in Ok (queue, [barrier_packet l])
  else if p.1 =? PACKET_VULKAN_API_CALL then Ok (call_out t n queue)
  else if is_update_packet p.1 then
    let* (queue, p) := update_shape t n queue p.1 p.2 in Ok (queue, [p])
  else if is_initialization_packet p.1 then
    let* _ := require (Nat.leb 18 (length p.2)) AbortCall in Ok (queue, [p])
  else Fail AbortCall.

(** the packets that [ps] become in the order of the thread, from number [n] on *)
Fixpoint thread_shape (t n : nat) (queue : list address_rewrite) (ps : list packet)
    : outcome (list address_rewrite * list (list packet)) :=
  match ps with
  | [] => Ok (queue, [])
  | p :: ps =>
      let* (queue, shape) := packet_shape t n queue p in
      let* (queue, shapes) := thread_shape t (Datatypes.S n) queue ps in
      Ok (queue, shape :: shapes)
  end.

(** the packets written for [p], of the form [shape], with the packet numbers of
    handles and barriers translated *)
Definition image (m : packet_mapping) (t : nat) (p : packet) (shape out : list packet) : Prop :=
  if p.1 =? PACKET_THREAD_BARRIER then
    exists l l', read_barrier_indices p.2 = Ok l /\ translated_targets m l l' /\ out = [barrier_packet l']
  else if p.1 =? PACKET_VULKAN_API_CALL then out = shape
  else exists q handles, shape = [q] /\ translated_handles (Z.of_nat t) m p.2 handles /\
    out = [(p.1, handles ++ drop 18 q.2)].

(** packets that differ in contents only *)
Definition same_sizes : list packet -> list packet -> Prop := Forall2 (fun p q => length p.2 = length q.2).

Lemma same_sizes_length l l' : same_sizes l l' -> length l = length l'.
Proof. apply Forall2_length. Qed.

Lemma same_sizes_stream l l' : same_sizes l l' -> length (stream_of l) = length (stream_of l').
Proof.
  induction 1 as [|p q l l' Hp Hl IH]; [done|]. unfold stream_of in *. cbn [map concat].
  rewrite !length_app, !length_packet_bytes, IH. lia.
Qed.

Lemma fits_sizes l l' : same_sizes l l' -> fits l -> fits l'.
Proof.
  intros Hs (F1 & F2 & F3). split; [|split].
  - clear F2 F3. induction Hs as [|p q l l' Hp Hl IH]; [constructor|]. apply Forall_cons in F1 as [F1 F1'].
    constructor; [by rewrite <- Hp|auto].
  - by rewrite <- (same_sizes_stream _ _ Hs).
  - by rewrite <- (same_sizes_length _ _ Hs).
Qed.

Lemma thread_shape_app t ps : forall n queue ps',
  thread_shape t n queue (ps ++ ps') =
  let* (q1, s1) := thread_shape t n queue ps in
  let* (q2, s2) := thread_shape t (n + length ps) q1 ps' in Ok (q2, s1 ++ s2).
Proof.
  induction ps as [|p ps IH]; intros n queue ps'; cbn [thread_shape app length].
  - rewrite Nat.add_0_r. cbn [obind]. destruct (thread_shape t n queue ps') as [[q s]|f]; done.
  - destruct (packet_shape t n queue p) as [[q s]|f]; [|done]. cbn [obind]. rewrite IH.
    destruct (thread_shape t (Datatypes.S n) q ps) as [[q1 s1]|f]; [|done]. cbn [obind].
    rewrite Nat.add_succ_comm. destruct (thread_shape t (n + Datatypes.S (length ps)) q1 ps') as [[q2 s2]|f]; done.
Qed.

Lemma thread_shape_length t ps : forall n queue q shapes, thread_shape t n queue ps = Ok (q, shapes) -> length shapes = length ps.
Proof.
  induction ps as [|p ps IH]; intros n queue q shapes E; cbn [thread_shape] in E; [by injection E as <- <-|].
  apply obind_ok_inv in E as ([q1 s] & _ & E). apply obind_ok_inv in E as ([q2 ss] & E2 & E). injection E as <- <-.
  cbn [length]. f_equal. by eapply IH.
Qed.

Lemma image_mono m m' t p shape out : mapping_le m m' -> image m t p shape out -> image m' t p shape out.
Proof.
  intros Hm. unfold image. destruct (p.1 =? PACKET_THREAD_BARRIER).
  - intros (l & l' & E1 & E2 & ->). exists l, l'. split; [done|]. split; [by eapply translated_targets_mono|done].
  - destruct (p.1 =? PACKET_VULKAN_API_CALL); [done|]. intros (q & handles & -> & Ht & ->). exists q, handles.
    split; [done|]. split; [by eapply translated_handles_mono|done].
Qed.

Lemma length_encode_targets l : length (encode_targets l) = (4 * length l)%nat.
Proof. unfold encode_targets. induction l as [|x l IH]; cbn [map concat length]; [done|]. rewrite length_app, length_le_encode, IH. lia. Qed.

(** what the pass relies on: callbacks write whole packets, at least one, and take
    their markings from the queue *)
Record callbacks_ok : Prop := {
  call_writes t n queue w done : packet_inv w done None -> pending_barrier w = false ->
    fits (done ++ (call_out t n queue).2) ->
    exists w', run_call t n queue w = Ok ((call_out t n queue).1, w') /\
      packet_inv w' (done ++ (call_out t n queue).2) None /\ pending_barrier w' = false;
  call_some t n queue : (call_out t n queue).2 <> [];
  call_queue t n queue : forall e, e ∈ (call_out t n queue).1 -> e ∈ queue
}.

(** a handle waits for a thread of the trace; a barrier names packets of the trace's
    threads, and of its own thread one before itself *)
Definition handle_legal (threads t : nat) (h : stored_handle) : Prop :=
  remote (Z.of_nat t) h = true -> (Z.to_nat (sh_thread h) < threads)%nat.

Definition packet_legal (threads t k : nat) (p : packet) : Prop :=
  if p.1 =? PACKET_THREAD_BARRIER then
    forall l, read_barrier_indices p.2 = Ok l -> (length l <= threads)%nat /\ forall i, l !! t = Some i -> i <= Z.of_nat k
  else if p.1 =? PACKET_VULKAN_API_CALL then True
  else handle_legal threads t (load_handle p.2) /\ handle_legal threads t (load_handle (drop serialized_handle_size p.2)).

Definition trace_legal (tr : list (list packet)) : Prop :=
  forall t ps k p, tr !! t = Some ps -> ps !! k = Some p -> packet_legal (length tr) t k p.

(** the thread can be written: its markings can be injected and everything fits *)
Definition thread_fits (t : nat) (queue : list address_rewrite) (ps : list packet) : Prop :=
  exists q shapes, thread_shape t 0 queue ps = Ok (q, shapes) /\ fits (concat shapes) /\
    Z.of_nat (length (concat shapes)) < UINT32_MAX.

(** thread [t] wrote [outs] for its first [k] packets *)
Record wrote (m : packet_mapping) (t : nat) (ps : list packet) (queue queue' : list address_rewrite) (w : lava_file_writer S)
    (k : nat) (outs : list (list packet)) : Prop := {
  wr_count : (k <= length ps)%nat;
  wr_image : exists shapes, thread_shape t 0 queue (take k ps) = Ok (queue', shapes) /\
    Forall3 (image m t) (take k ps) shapes outs /\ same_sizes (concat shapes) (concat outs);
  wr_inv : packet_inv w (concat outs) None;
  wr_pending : pending_barrier w = false;
  wr_queue : queue_ok queue';
  wr_some : Forall (fun out => out <> []) outs
}.

Lemma wrote_length m t ps queue queue' w k outs : wrote m t ps queue queue' w k outs -> length outs = k.
Proof.
  intros [Hk (shapes & _ & Hi & _) _ _ _ _]. apply Forall3_length_lr in Hi. rewrite length_take in Hi. lia.
Qed.

Lemma wrote_mono m m' t ps queue queue' w k outs : mapping_le m m' ->
  wrote m t ps queue queue' w k outs -> wrote m' t ps queue queue' w k outs.
Proof.
  intros Hm [H1 (shapes & H2 & H3 & H4) H5 H6 H7 H8]. split; try done. exists shapes. split; [done|]. split; [|done].
  eapply Forall3_impl; [exact H3|]. intros p s o. by apply image_mono.
Qed.

Lemma wrote_start m t ps queue w : packet_inv w [] None -> pending_barrier w = false -> queue_ok queue ->
  wrote m t ps queue queue w 0 [].
Proof.
  intros Hi Hp Hq. split; try done; [lia|]. exists []. split; [done|]. split; constructor.
Qed.

(** the next packet of a thread, and room for what it becomes *)
Lemma wrote_next m t ps queue queue' w k outs p : wrote m t ps queue queue' w k outs -> thread_fits t queue ps ->
  ps !! k = Some p ->
  exists q shape, packet_shape t k queue' p = Ok (q, shape) /\
    forall out, same_sizes shape out -> fits (concat outs ++ out) /\ Z.of_nat (length (concat outs ++ out)) < UINT32_MAX.
Proof.
  intros [H1 (shapes & H2 & H3 & H4) H5 H6 H7 H8] (qf & all & Ef & Ff & Lf) Hp.
  rewrite <- (take_drop_middle ps k p Hp) in Ef. rewrite thread_shape_app, H2 in Ef. cbn [obind] in Ef.
  rewrite length_take, Nat.min_l, Nat.add_0_l in Ef by lia. cbn [thread_shape] in Ef.
  apply obind_ok_inv in Ef as ([q2 s2] & Ef & Ee). injection Ee as -> <-.
  apply obind_ok_inv in Ef as ([q shape] & Es & Ef). apply obind_ok_inv in Ef as ([q3 s3] & _ & Ef). injection Ef as -> <-.
  exists q, shape. split; [done|]. intros out Ho. rewrite concat_app in Ff, Lf. cbn [concat] in Ff, Lf.
  rewrite app_assoc in Ff, Lf.
  assert (Hs : same_sizes (concat shapes ++ shape) (concat outs ++ out)) by (by apply Forall2_app).
  split.
  - eapply fits_sizes; [exact Hs|]. by eapply fits_prefix.
  - rewrite <- (same_sizes_length _ _ Hs). rewrite length_app in Lf. lia.
Qed.

Lemma wrote_snoc m t ps queue queue' w k outs p q shape out w' : wrote m t ps queue queue' w k outs ->
  ps !! k = Some p -> packet_shape t k queue' p = Ok (q, shape) -> image m t p shape out -> same_sizes shape out ->
  packet_inv w' (concat outs ++ out) None -> pending_barrier w' = false -> queue_ok q -> out <> [] ->
  wrote m t ps queue q w' (Datatypes.S k) (outs ++ [out]).
Proof.
  intros [H1 (shapes & H2 & H3 & H4) H5 H6 H7 H8] Hp Es Hi Hs Hw Hpw Hq Ho. pose proof (lookup_lt_Some _ _ _ Hp) as Hk.
  split; try done.
  - exists (shapes ++ [shape]). rewrite (take_S_r _ _ p Hp), thread_shape_app, H2. cbn [obind].
    rewrite length_take, Nat.min_l, Nat.add_0_l by lia. cbn [thread_shape]. rewrite Es. cbn [obind].
    split; [done|]. split; [by apply Forall3_app; [|constructor; [|constructor]]|].
    rewrite !concat_app. cbn [concat]. rewrite !app_nil_r. by apply Forall2_app.
  - rewrite concat_app. cbn [concat]. by rewrite app_nil_r.
  - apply Forall_app. split; [done|]. by constructor.
Qed.

Lemma wrote_total m t ps queue queue' w k outs : wrote m t ps queue queue' w k outs -> thread_fits t queue ps ->
  Z.of_nat (length (concat outs)) < UINT32_MAX /\ (k <= length (concat outs))%nat.
Proof.
  intros Hw (qf & all & Ef & _ & Lf). pose proof (wrote_length _ _ _ _ _ _ _ _ Hw) as Hl.
  destruct Hw as [H1 (shapes & H2 & H3 & H4) _ _ _ H8]. split.
  - rewrite <- (same_sizes_length _ _ H4). rewrite <- (take_drop k ps), thread_shape_app, H2 in Ef. cbn [obind] in Ef.
    apply obind_ok_inv in Ef as ([q2 s2] & _ & Ef). injection Ef as -> <-. rewrite concat_app, length_app in Lf. lia.
  - rewrite <- Hl. clear -H8. induction H8 as [|out outs Ho Hs IH]; [done|]. cbn [concat length]. rewrite length_app.
    destruct out; [done|]. simpl. lia.
Qed.

Section Steps.
Variable tr : list (list packet).
Variable queues : list (list address_rewrite).
Hypothesis Hcalls : callbacks_ok.
Hypothesis Hlegal : trace_legal tr.
Hypothesis Hqueues : length queues = length tr.
Hypothesis Hfits : forall t ps queue, tr !! t = Some ps -> queues !! t = Some queue -> thread_fits t queue ps.

Definition phase_ok (ps : list packet) (ot : output_thread S) (k : nat) : Prop :=
  match ot_phase ot with
  | Stepping => k = ot_packet ot
  | Recorded => k = Datatypes.S (ot_packet ot)
  | AtBarrier l => ot_packet ot = Datatypes.S k /\
      exists body, ps !! k = Some (PACKET_THREAD_BARRIER, body) /\ read_barrier_indices body = Ok l
  end.

(** the thread's row of the mapping; at a barrier its boundary is already recorded *)
Definition row_of (ot : output_thread S) (outs : list (list packet)) : list Z :=
  boundaries 0 outs ++ match ot_phase ot with AtBarrier _ => [Z.of_nat (length (concat outs)) + 1] | _ => [] end.

Definition thread_inv (m : packet_mapping) (t : nat) (ot : output_thread S) (ps : list packet) (queue : list address_rewrite)
    (k : nat) (outs : list (list packet)) : Prop :=
  phase_ok ps ot k /\ wrote m t ps queue (ot_queue ot) (ot_writer ot) k outs /\ m !! t = Some (row_of ot outs).

Record state_inv (st : output_state S) : Prop := {
  si_threads : length (os_threads st) = length tr;
  si_mapping : length (os_mapping st) = length tr;
  si_thread t ot ps queue : os_threads st !! t = Some ot -> tr !! t = Some ps -> queues !! t = Some queue ->
    exists k outs, thread_inv (os_mapping st) t ot ps queue k outs
}.

Lemma state_thread st t ot : state_inv st -> os_threads st !! t = Some ot ->
  exists ps queue k outs, tr !! t = Some ps /\ queues !! t = Some queue /\ thread_fits t queue ps /\
    thread_inv (os_mapping st) t ot ps queue k outs.
Proof.
  intros Hi Ht. pose proof (lookup_lt_Some _ _ _ Ht) as Hlt. rewrite (si_threads _ Hi) in Hlt.
  destruct (lookup_lt_is_Some_2 tr t Hlt) as [ps Hps]. rewrite <- Hqueues in Hlt.
  destruct (lookup_lt_is_Some_2 queues t Hlt) as [queue Hq]. destruct (si_thread _ Hi t ot ps queue Ht Hps Hq) as (k & outs & Hinv).
  exists ps, queue, k, outs. split; [done|]. split; [done|]. split; [by apply Hfits|done].
Qed.

Lemma barrier_shape t k queue body l : read_barrier_indices body = Ok l ->
  packet_shape t k queue (PACKET_THREAD_BARRIER, body) = Ok (queue, [barrier_packet l]).
Proof. intros E. unfold packet_shape. cbn [fst snd]. rewrite Z.eqb_refl, E. done. Qed.

(** a thread's row covers the packets it completed, with counts that are no marks of absence *)
Lemma row_spec m t ot ps queue k outs : thread_inv m t ot ps queue k outs -> thread_fits t queue ps ->
  Z.of_nat k < UINT32_MAX /\ Z.of_nat (ot_packet ot) < UINT32_MAX /\ (ot_packet ot < length (row_of ot outs))%nat /\
  forall j v, row_of ot outs !! j = Some v -> 0 <= v < UINT32_MAX /\ ((0 < j)%nat -> 1 <= v).
Proof.
  intros (Hp & Hw & _) Hf. pose proof (wrote_length _ _ _ _ _ _ _ _ Hw) as Hl.
  destruct (wrote_total _ _ _ _ _ _ _ _ Hw Hf) as [Ht Hk]. unfold row_of, phase_ok in *.
  assert (Hb : forall j v, boundaries 0 outs !! j = Some v -> 0 <= v < UINT32_MAX /\ ((0 < j)%nat -> 1 <= v)).
  { intros j v Hj. pose proof (lookup_lt_Some _ _ _ Hj) as Hlt. rewrite length_boundaries in Hlt.
    rewrite boundaries_lookup in Hj by lia. injection Hj as <-.
    assert (Hle : (length (concat (take j outs)) <= length (concat outs))%nat).
    { rewrite <- (take_drop j outs) at 2. rewrite concat_app, length_app. lia. }
    split; [lia|]. intros Hj0. pose proof (wr_some _ _ _ _ _ _ _ _ Hw) as Hs.
    destruct outs as [|o outs]; [simpl in *; lia|]. destruct j as [|j]; [lia|]. cbn [take firstn concat]. rewrite length_app.
    apply Forall_cons in Hs as [Ho _]. destruct o; [done|]. simpl. lia. }
  destruct (ot_phase ot) as [|l|].
  - rewrite app_nil_r, length_boundaries. subst k. split; [lia|]. split; [lia|]. split; [lia|done].
  - destruct Hp as (Hn & body & Hb1 & Hb2).
    destruct (wrote_next _ _ _ _ _ _ _ _ _ Hw Hf Hb1) as (q & shape & Es & Hroom).
    rewrite (barrier_shape _ _ _ _ _ Hb2) in Es. injection Es as <- <-.
    destruct (Hroom [barrier_packet l]) as [_ Hroom']; [by constructor|]. rewrite length_app in Hroom'. cbn [length] in Hroom'.
    rewrite length_app, length_boundaries. cbn [length]. split; [lia|]. split; [lia|]. split; [lia|].
    intros j v Hj. apply lookup_app_Some in Hj as [Hj|[_ Hj]]; [by apply Hb|].
    apply list_lookup_singleton_Some in Hj as [_ <-]. lia.
  - rewrite app_nil_r, length_boundaries. subst k. split; [lia|]. split; [lia|]. split; [lia|done].
Qed.

(** a packet that another thread completed, or one of the own row, can be translated *)
Lemma completed_translates st u ot i : state_inv st -> os_threads st !! u = Some ot -> 0 <= i <= Z.of_nat (ot_packet ot) ->
  exists v, translate u i (os_mapping st) = Ok v /\ 0 <= v < UINT32_MAX /\ (0 < i -> 1 <= v).
Proof.
  intros Hi Hu Hle. destruct (state_thread st u ot Hi Hu) as (ps & queue & k & outs & _ & _ & Hf & Hinv).
  destruct (row_spec _ _ _ _ _ _ _ Hinv Hf) as (_ & _ & Hlen & Hrow). pose proof Hinv as (_ & _ & Hm).
  destruct (lookup_lt_is_Some_2 (row_of ot outs) (Z.to_nat i) ltac:(lia)) as [v Hv].
  destruct (Hrow _ _ Hv) as [Hr1 Hr2]. exists v. split; [|split; [done|intros; apply Hr2; lia]].
  apply (translate_spec _ _ _ _ _ Hm Hv). lia.
Qed.

Lemma handle_ready_ok st t h : state_inv st -> handle_legal (length tr) t h -> exists b, handle_ready st t h = Ok b.
Proof.
  intros Hi Hl. unfold handle_ready. destruct (remote (Z.of_nat t) h) eqn:E; [|by eexists]. specialize (Hl E).
  rewrite <- (si_threads _ Hi) in Hl. destruct (lookup_lt_is_Some_2 _ _ Hl) as [ot Hot]. unfold thread_completed. rewrite Hot.
  by eexists.
Qed.

Lemma ready_translated st t h : state_inv st -> 0 <= sh_packet h -> handle_ready st t h = Ok true ->
  exists h', translated (Z.of_nat t) (os_mapping st) h h'.
Proof.
  intros Hi Hp Hr. unfold handle_ready in Hr. unfold translated. destruct (remote (Z.of_nat t) h); [|by eexists].
  unfold thread_completed in Hr. destruct (os_threads st !! Z.to_nat (sh_thread h)) as [ot|] eqn:Hot; [|done].
  cbn [fmap option_fmap option_map] in Hr. injection Hr as Hr. bool_to_prop.
  destruct (state_thread st _ ot Hi Hot) as (ps & queue & k & outs & _ & _ & Hf & Hinv).
  destruct (row_spec _ _ _ _ _ _ _ Hinv Hf) as (_ & Hk & Hlen & Hrow). pose proof Hinv as (_ & _ & Hm).
  destruct (lookup_lt_is_Some_2 (row_of ot outs) (Datatypes.S (Z.to_nat (sh_packet h))) ltac:(lia)) as [v Hv].
  destruct (Hrow _ _ Hv) as [Hr1 Hr2]. eexists _, _, v. split; [exact Hm|]. split; [exact Hv|]. split; [split; [apply Hr2|]; lia|].
  split; [lia|done].
Qed.

Lemma load_handle_packet input : 0 <= sh_packet (load_handle input).
Proof. cbn [sh_packet load_handle]. apply le_decode_range. Qed.

Lemma handles_ready_spec st t input : state_inv st -> handle_legal (length tr) t (load_handle input) ->
  handle_legal (length tr) t (load_handle (drop serialized_handle_size input)) ->
  exists b, handles_ready st t input = Ok b /\
    (b = true -> exists handles, translated_handles (Z.of_nat t) (os_mapping st) input handles).
Proof.
  intros Hi L1 L2. unfold handles_ready. destruct (handle_ready_ok st t _ Hi L1) as [b1 E1]. rewrite E1. cbn [obind].
  destruct b1; [|exists false; done]. destruct (handle_ready_ok st t _ Hi L2) as [b2 E2]. exists b2. rewrite E2. split; [done|].
  intros ->. destruct (ready_translated st t _ Hi (load_handle_packet _) E1) as [h1 T1].
  destruct (ready_translated st t _ Hi (load_handle_packet _) E2) as [h2 T2]. by exists (encode_stored h1 ++ encode_stored h2), h1, h2.
Qed.

Lemma read_indices_valid n : forall s l, read_indices n s = Ok l -> length l = n /\ Forall (fun i => 0 <= i < UINT32_MAX) l.
Proof.
  induction n as [|n IH]; intros s l E; cbn [read_indices] in E; [by injection E as <-|].
  apply obind_ok_inv in E as ([i r] & E1 & E). apply obind_ok_inv in E as (u & E2 & E).
  apply obind_ok_inv in E as (l' & E3 & E). injection E as <-. destruct (IH r l' E3) as [H1 H2].
  split; [simpl; by rewrite H1|]. constructor; [|done]. apply require_ok_inv in E2. bool_to_prop.
  unfold read_uint32_t, read_value in E1. apply obind_ok_inv in E1 as ([bs r'] & E4 & E5). injection E5 as <- _.
  cbn [next_bytes list_source] in E4. destruct (Nat.leb 4 (length s)) eqn:El; [|done]. injection E4 as <- _.
  apply Nat.leb_le in El. pose proof (le_decode_range (take 4 s)) as Hr. rewrite length_take, Nat.min_l in Hr by done.
  change (256 ^ Z.of_nat 4) with (2 ^ 32) in Hr. u_lia.
Qed.

Lemma read_barrier_valid body l : read_barrier_indices body = Ok l -> valid_targets l.
Proof.
  unfold read_barrier_indices. intros E. apply obind_ok_inv in E as ([n r] & E1 & E).
  apply read_indices_valid in E as [Hl Hv]. split; [|done]. rewrite Hl.
  unfold read_uint8_t, read_value in E1. apply obind_ok_inv in E1 as ([bs r'] & E4 & E5). injection E5 as <- _.
  cbn [next_bytes list_source] in E4. destruct (Nat.leb 1 (length body)) eqn:El; [|done]. injection E4 as <- _.
  apply Nat.leb_le in El. pose proof (le_decode_range (take 1 body)) as Hr. rewrite length_take, Nat.min_l in Hr by done.
  change (256 ^ Z.of_nat 1) with (2 ^ 8) in Hr. u_lia.
Qed.

(** the waits of a barrier do not fail, and when they are over every target has a translation *)
Lemma barrier_ready_spec st t ot k : state_inv st -> os_threads st !! t = Some ot -> (k <= ot_packet ot)%nat -> forall l i,
  (i + length l <= length tr)%nat -> Forall (fun x => 0 <= x < UINT32_MAX) l ->
  (forall j x, l !! j = Some x -> (i + j)%nat = t -> x <= Z.of_nat k) ->
  exists b, barrier_ready st t i l = Ok b /\
    (b = true -> exists l', translate_indices i l (os_mapping st) = Ok l' /\ Forall (fun x => 0 <= x < UINT32_MAX) l').
Proof.
  intros Hi Ht Hk. induction l as [|x l IH]; intros i Hl Hv Hown; cbn [barrier_ready translate_indices].
  - exists true. split; [done|]. intros _. by exists [].
  - apply Forall_cons in Hv as [Hx Hv]. cbn [length] in Hl.
    assert (Hu : exists u, os_threads st !! i = Some u).
    { apply lookup_lt_is_Some_2. rewrite (si_threads _ Hi). lia. }
    destruct Hu as [u Hu].
    destruct (IH (Datatypes.S i) ltac:(lia) Hv) as (b & Eb & Hb).
    { intros j y Hj E. apply (Hown (Datatypes.S j) y Hj). lia. }
    assert (Hgo : forall n, x <= Z.of_nat n -> (n <= ot_packet u)%nat -> b = true ->
      exists l', (let* o := translate i x (os_mapping st) in let* l := translate_indices (Datatypes.S i) l (os_mapping st) in Ok (o :: l)) = Ok l' /\
        Forall (fun x => 0 <= x < UINT32_MAX) l').
    { intros n Hn Hun Ebt. destruct (completed_translates st i u x Hi Hu ltac:(lia)) as (v & -> & Hv' & _).
      destruct (Hb Ebt) as (l' & -> & Hl'). cbn [obind]. eexists. split; [reflexivity|]. by constructor. }
    destruct (Nat.eqb i t) eqn:Eit.
    + apply Nat.eqb_eq in Eit. subst i. exists b. split; [done|]. intros Ebt. rewrite Ht in Hu. injection Hu as <-.
      apply (Hgo k); [|done|done]. apply (Hown 0%nat x eq_refl). lia.
    + unfold thread_completed. rewrite Hu. cbn [fmap option_fmap option_map].
      destruct (x <=? Z.of_nat (ot_packet u)) eqn:Ex; [|by exists false].
      exists b. split; [done|]. intros Ebt. apply Z.leb_le in Ex. by apply (Hgo (ot_packet u)).
Qed.

(** a step of one thread that only adds to its row *)
Lemma set_state_inv st t ot ot' m' : state_inv st -> os_threads st !! t = Some ot ->
  mapping_le (os_mapping st) m' -> length m' = length (os_mapping st) -> (forall u, u <> t -> m' !! u = os_mapping st !! u) ->
  (forall ps queue, tr !! t = Some ps -> queues !! t = Some queue -> exists k outs, thread_inv m' t ot' ps queue k outs) ->
  state_inv (OutputState m' (<[t := ot']> (os_threads st))).
Proof.
  intros Hi Ht Hm Hl Hrows Hnew. split; cbn [os_threads os_mapping].
  - rewrite length_insert. apply Hi.
  - rewrite Hl. apply Hi.
  - intros u otu ps queue Hu Hps Hq. destruct (decide (u = t)) as [->|Hn].
    + rewrite list_lookup_insert_eq in Hu by (by eapply lookup_lt_Some). injection Hu as <-. by apply Hnew.
    + rewrite list_lookup_insert_ne in Hu by done. destruct (si_thread _ Hi u otu ps queue Hu Hps Hq) as (k & outs & Hp & Hw & Hr).
      exists k, outs. split; [done|]. split; [by eapply wrote_mono|]. by rewrite Hrows.
Qed.

Lemma row_insert (m : packet_mapping) t row : m !! t = Some row -> forall v,
  mapping_le m (<[t := row ++ [v]]> m) /\ length (<[t := row ++ [v]]> m) = length m /\
  (forall u, u <> t -> (<[t := row ++ [v]]> m) !! u = m !! u) /\ (<[t := row ++ [v]]> m) !! t = Some (row ++ [v]).
Proof.
  intros Hr v. split; [by apply mapping_le_append|]. split; [apply length_insert|].
  split; [intros u Hu; by rewrite list_lookup_insert_ne|]. apply list_lookup_insert_eq. by eapply lookup_lt_Some.
Qed.

(** thread [t] is about to begin packet [p], the [k]-th *)
Record at_packet (st : output_state S) (t : nat) (ot : output_thread S) (ps : list packet) (queue : list address_rewrite)
    (k : nat) (outs : list (list packet)) (p : packet) : Prop := {
  ap_inv : state_inv st;
  ap_thread : os_threads st !! t = Some ot;
  ap_packets : tr !! t = Some ps;
  ap_queue : queues !! t = Some queue;
  ap_fits : thread_fits t queue ps;
  ap_phase : ot_phase ot = Stepping;
  ap_wrote : wrote (os_mapping st) t ps queue (ot_queue ot) (ot_writer ot) k outs;
  ap_row : os_mapping st !! t = Some (boundaries 0 outs);
  ap_count : k = ot_packet ot;
  ap_packet : ps !! k = Some p
}.

Definition steps_to (r : outcome (option (output_state S))) : Prop :=
  exists st, r = Ok st /\ forall st', st = Some st' -> state_inv st'.

(** the packet written and recorded *)
Lemma finish_spec st t ot ps queue k outs p q shape out w' : at_packet st t ot ps queue k outs p ->
  packet_shape t k (ot_queue ot) p = Ok (q, shape) -> image (os_mapping st) t p shape out -> same_sizes shape out ->
  packet_inv w' (concat outs ++ out) None -> pending_barrier w' = false -> queue_ok q -> out <> [] ->
  steps_to (finish_packet st t ot q w').
Proof.
  intros [Hi Ht Hps Hq Hf Hph Hw Hrow Hphase Hp] Es Him Hss Hw' Hpw Hqk Ho.
  destruct (wrote_total _ _ _ _ _ _ _ _ Hw Hf) as [Hk Hk'].
  destruct (wrote_next _ _ _ _ _ _ _ _ _ Hw Hf Hp) as (q1 & shape1 & Es1 & Hroom).
  rewrite Es in Es1. injection Es1 as <- <-. destruct (Hroom out Hss) as [_ Htot].
  pose proof (wrote_length _ _ _ _ _ _ _ _ Hw) as Hl.
  assert (Hc : cs_packet (current w') = Z.of_nat (length (concat outs ++ out))).
  { rewrite (pi_packet _ _ _ Hw'). apply wrap32_small. u_lia. }
  unfold finish_packet. rewrite <- Hphase, Hc, wrap32_small by u_lia.
  replace (Z.of_nat k + 1) with (Z.of_nat (length (boundaries 0 outs))) by (rewrite length_boundaries, Hl; lia).
  rewrite (record_next _ _ _ _ Hrow). cbn [obind]. eexists. split; [reflexivity|]. intros st' [= <-].
  destruct (row_insert _ _ _ Hrow (Z.of_nat (length (concat outs ++ out)))) as (R1 & R2 & R3 & R4).
  apply (set_state_inv st t ot); try done. intros ps' queue' Hps' Hq'. rewrite Hps in Hps'. injection Hps' as <-.
  rewrite Hq in Hq'. injection Hq' as <-. exists (Datatypes.S k), (outs ++ [out]). split; [done|]. split.
  - eapply wrote_mono; [exact R1|]. cbn [ot_queue ot_writer]. by eapply wrote_snoc.
  - rewrite R4. unfold row_of. cbn [ot_phase]. rewrite app_nil_r, boundaries_snoc, Z.add_0_l, length_app. done.
Qed.

(** the packet that [begin_step] finds *)
Ltac at_begin Hphase Hp :=
  unfold begin_step; rewrite <- Hphase;
  match goal with
  | |- context [match ?x with Some _ => _ | None => _ end] =>
      let E := fresh in let E' := fresh in
      destruct x as [[? ?]|] eqn:E;
      [pose proof (eq_trans (eq_sym Hp) E) as E'; injection E' as <- <-; clear E | discriminate (eq_trans (eq_sym Hp) E)]
  end.

(** a barrier's boundary is recorded before its waits *)
Lemma begin_barrier_ok st t ot ps queue k outs body : at_packet st t ot ps queue k outs (PACKET_THREAD_BARRIER, body) ->
  steps_to (begin_step read_extension run_call frame_of simulate ps t st ot).
Proof.
  intros [Hi Ht Hps Hq Hf Hph Hw Hrow Hphase Hp]. at_begin Hphase Hp.
  change (PACKET_THREAD_BARRIER =? PACKET_THREAD_BARRIER) with true. cbn iota.
  destruct (wrote_total _ _ _ _ _ _ _ _ Hw Hf) as [Htot Hk].
  destruct (wrote_next _ _ _ _ _ _ _ _ _ Hw Hf Hp) as (q & shape & Es & Hroom). unfold packet_shape in Es. cbn [fst snd] in Es.
  change (PACKET_THREAD_BARRIER =? PACKET_THREAD_BARRIER) with true in Es. cbn iota in Es.
  apply obind_ok_inv in Es as (l & El & Es). injection Es as <- <-.
  pose proof (wrote_length _ _ _ _ _ _ _ _ Hw) as Hl.
  rewrite (pi_packet _ _ _ (wr_inv _ _ _ _ _ _ _ _ Hw)), (wrap32_small (Z.of_nat (length (concat outs)))), !wrap32_small by u_lia.
  replace (Z.of_nat k + 1) with (Z.of_nat (length (boundaries 0 outs))) by (rewrite length_boundaries, Hl; lia).
  rewrite (record_next _ _ _ _ Hrow). cbn [obind]. rewrite El. cbn [obind]. eexists. split; [reflexivity|].
  intros st' [= <-]. destruct (row_insert _ _ _ Hrow (Z.of_nat (length (concat outs)) + 1)) as (R1 & R2 & R3 & R4).
  apply (set_state_inv st t ot); try done. intros ps' queue' Hps' Hq'. rewrite Hps in Hps'. injection Hps' as <-.
  rewrite Hq in Hq'. injection Hq' as <-. exists k, outs. split; [by split; [|exists body]|].
  split; [by eapply wrote_mono|]. by rewrite R4.
Qed.

Lemma same_sizes_refl l : same_sizes l l.
Proof. unfold same_sizes. induction l; constructor; auto. Qed.

Lemma begin_call_ok st t ot ps queue k outs body : at_packet st t ot ps queue k outs (PACKET_VULKAN_API_CALL, body) ->
  steps_to (begin_step read_extension run_call frame_of simulate ps t st ot).
Proof.
  intros Hat. pose proof Hat as [Hi Ht Hps Hq Hf Hph Hw Hrow Hphase Hp]. at_begin Hphase Hp.
  change (PACKET_VULKAN_API_CALL =? PACKET_THREAD_BARRIER) with false.
  change (PACKET_VULKAN_API_CALL =? PACKET_VULKAN_API_CALL) with true. cbn iota.
  destruct (wrote_next _ _ _ _ _ _ _ _ _ Hw Hf Hp) as (q & shape & Es & Hroom).
  destruct (wrote_total _ _ _ _ _ _ _ _ Hw Hf) as [Htot _]. destruct (Hroom shape (same_sizes_refl shape)) as [Hfit Htot'].
  pose proof Es as Es'. unfold packet_shape in Es'. cbn [fst snd] in Es'.
  change (PACKET_VULKAN_API_CALL =? PACKET_THREAD_BARRIER) with false in Es'.
  change (PACKET_VULKAN_API_CALL =? PACKET_VULKAN_API_CALL) with true in Es'. cbn iota in Es'. injection Es' as Eo.
  pose proof (wr_inv _ _ _ _ _ _ _ _ Hw) as Hwi.
  destruct (call_writes Hcalls t k (ot_queue ot) (ot_writer ot) (concat outs) Hwi (wr_pending _ _ _ _ _ _ _ _ Hw)) as (w' & Ec & Hw' & Hp');
    [by rewrite Eo|].
  pose proof (call_some Hcalls t k (ot_queue ot)) as Hne. pose proof (call_queue Hcalls t k (ot_queue ot)) as Hsub.
  rewrite Eo in Hw', Hne, Hsub. cbn [fst snd] in *. rewrite Ec, Eo. cbn [obind fst].
  rewrite (pi_packet _ _ _ Hw'), (pi_packet _ _ _ Hwi), !wrap32_small by u_lia. rewrite length_app.
  rewrite (proj2 (Z.eqb_neq _ _)) by (destruct shape; [done|simpl; lia]). cbn [negb require obind].
  apply (finish_spec st t ot ps queue k outs _ q shape shape w' Hat Es); try done; [apply same_sizes_refl|].
  pose proof (wr_queue _ _ _ _ _ _ _ _ Hw) as Hwq. unfold queue_ok in *. rewrite Forall_forall in *. auto.
Qed.

Lemma prefix_drop (a b : list byte) : length a = 18%nat -> drop 18 (a ++ b) = b.
Proof. intros Ha. rewrite drop_app_ge by lia. by rewrite Ha, Nat.sub_diag, drop_0. Qed.

Lemma update_shape_length t n queue instrtype body q p : update_shape t n queue instrtype body = Ok (q, p) -> (18 <= length p.2)%nat.
Proof.
  unfold update_shape. intros E. apply obind_ok_inv in E as (u & Eu & E). apply obind_ok_inv in E as ([q' inj] & _ & E).
  apply current_update_packet_spec in Eu as (_ & _ & Hl). destruct inj as [[d|]|]; [|done|]; injection E as <- <-; cbn [snd]; [|done].
  rewrite length_app, length_take. lia.
Qed.

(** an update is written as its shape says, with the handles translated *)
Lemma output_update_step st t ot instrtype body queue p outs handles : queue_ok (ot_queue ot) ->
  packet_inv (ot_writer ot) (concat outs) None -> pending_barrier (ot_writer ot) = false ->
  is_update_packet instrtype = true -> update_shape t (ot_packet ot) (ot_queue ot) instrtype body = Ok (queue, p) ->
  translated_handles (Z.of_nat t) (os_mapping st) body handles ->
  (length handles = 18%nat -> fits (concat outs ++ [(instrtype, handles ++ drop 18 p.2)])) ->
  exists w', output_update read_extension frame_of simulate st t instrtype body ot = Ok (queue, w') /\
    packet_inv w' (concat outs ++ [(instrtype, handles ++ drop 18 p.2)]) None /\ pending_barrier w' = false /\ queue_ok queue.
Proof.
  intros Hq Hw Hpw Hty Es Ht Hfit. specialize (Hfit (translated_handles_length _ _ _ _ Ht)).
  unfold update_shape in Es. apply obind_ok_inv in Es as (u & Eu & Es). unfold output_update, inject_pending. rewrite Eu, Hpw. cbn [obind].
  destruct (current_update_packet_spec _ _ _ _ Eu) as (Uty & Uh & Ul). subst instrtype.
  assert (Hcopy : forall q0, p = (op_instrtype u, body) -> queue_ok q0 -> exists w', (let* w := write_output_update_packet (Z.of_nat t) (os_mapping st) u body (ot_writer ot) in
      Ok (q0, w)) = Ok (q0, w') /\ packet_inv w' (concat outs ++ [(op_instrtype u, handles ++ drop 18 p.2)]) None /\ pending_barrier w' = false /\
      queue_ok q0).
  { intros q0 -> Hq0. cbn [snd] in *.
    destruct (output_update_spec (Z.of_nat t) (os_mapping st) u body handles (ot_writer ot) (concat outs) Hw Uh Ht Hfit)
      as (w' & -> & Hw' & Hs). exists w'. split; [done|]. split; [done|]. split; [|done]. destruct Hs as [-> _]. done. }
  destruct simulate.
  - apply obind_ok_inv in Es as ([q' inj] & Ej & Es). destruct (injected_spec _ _ _ _ _ Hq Ej) as [Hq' Hd].
    destruct inj as [[d|]|]; [|done|].
    + injection Es as <- <-. cbn [snd] in *. assert (Ltake : length (take 18 body) = 18%nat) by (rewrite length_take; lia).
      rewrite prefix_drop in Hfit |- * by done.
      destruct (rewritten_spec (Z.of_nat t) (os_mapping st) _ u body (ot_queue ot) q' d handles (ot_writer ot) (concat outs) Ej Hd Hw Uh Ht Hfit)
        as (w' & E' & Hw' & Hs). rewrite E'. cbn [obind].
      exists w'. split; [done|]. split; [done|]. destruct Hs as [-> _]. done.
    + injection Es as <- <-. unfold maybe_write_rewritten_update_packet. rewrite Ej. cbn [obind].
      apply Hcopy; done.
  - cbn [obind] in Es. injection Es as <- <-. cbn [obind]. by apply Hcopy.
Qed.

Lemma translated_image m t p q handles : (p.1 =? PACKET_THREAD_BARRIER) = false -> (p.1 =? PACKET_VULKAN_API_CALL) = false ->
  translated_handles (Z.of_nat t) m p.2 handles -> (18 <= length q.2)%nat ->
  image m t p [q] [(p.1, handles ++ drop 18 q.2)] /\ same_sizes [q] [(p.1, handles ++ drop 18 q.2)].
Proof.
  intros Hb Ha Ht Hl. split.
  - unfold image. rewrite Hb, Ha. by exists q, handles.
  - constructor; [|constructor]. cbn [snd]. rewrite length_app, length_drop, (translated_handles_length _ _ _ _ Ht). lia.
Qed.

(** updates and initializations of memory *)
Lemma begin_memory_ok st t ot ps queue k outs ty body : at_packet st t ot ps queue k outs (ty, body) ->
  (ty =? PACKET_THREAD_BARRIER) = false -> (ty =? PACKET_VULKAN_API_CALL) = false ->
  steps_to (begin_step read_extension run_call frame_of simulate ps t st ot).
Proof.
  intros Hat Eb Ea. pose proof Hat as [Hi Ht Hps Hq Hf Hph Hw Hrow Hphase Hp]. at_begin Hphase Hp. rewrite Eb, Ea.
  destruct (wrote_next _ _ _ _ _ _ _ _ _ Hw Hf Hp) as (q & shape & Es & Hroom).
  pose proof (wr_inv _ _ _ _ _ _ _ _ Hw) as Hwi. pose proof (wr_queue _ _ _ _ _ _ _ _ Hw) as Hwq.
  pose proof (wr_pending _ _ _ _ _ _ _ _ Hw) as Hwp. pose proof Es as Es'. unfold packet_shape in Es. cbn [fst snd] in Es.
  pose proof (Hlegal t ps k _ Hps Hp) as Hl. unfold packet_legal in Hl. cbn [fst snd] in Hl. rewrite Eb, Ea in Es, Hl.
  destruct Hl as [L1 L2]. destruct (handles_ready_spec st t body Hi L1 L2) as (b & Eb' & Hb).
  destruct (is_update_packet ty) eqn:Eu; [|destruct (is_initialization_packet ty) eqn:Ei; [|done]].
  - rewrite Eb'. cbn [obind]. destruct b; [|by exists None]. destruct (Hb eq_refl) as [handles Hh].
    apply obind_ok_inv in Es as ([q' p] & Eus & Es). injection Es as -> <-. rewrite Hphase in Eus.
    pose proof (update_shape_length _ _ _ _ _ _ _ Eus) as Hl'.
    destruct (translated_image (os_mapping st) t (ty, body) p handles Eb Ea Hh Hl') as [I1 I2].
    destruct (output_update_step st t ot ty body q p outs handles Hwq Hwi Hwp Eu Eus Hh) as (w' & E' & Hw' & Hp' & Hq').
    { intros _. apply (Hroom _ I2). }
    rewrite E'. cbn [obind]. by apply (finish_spec _ _ _ _ _ _ _ _ _ _ _ w' Hat Es' I1 I2).
  - rewrite Eb'. cbn [obind]. destruct b; [|by exists None]. destruct (Hb eq_refl) as [handles Hh].
    apply obind_ok_inv in Es as (u & Eus & Es). injection Es as <- <-. apply require_ok_inv, Nat.leb_le in Eus.
    destruct (translated_image (os_mapping st) t (ty, body) (ty, body) handles Eb Ea Hh Eus) as [I1 I2].
    destruct (output_initialization_spec (Z.of_nat t) (os_mapping st) ty body handles (ot_writer ot) (concat outs) Hwi Eus Hh) as (w' & E' & Hw' & Hs').
    { apply (Hroom _ I2). }
    rewrite E'. cbn [obind]. apply (finish_spec _ _ _ _ _ _ _ _ _ _ _ w' Hat Es' I1 I2); try done. destruct Hs' as [-> _]. done.
Qed.

Lemma begin_step_ok st t ot ps queue k outs : state_inv st -> os_threads st !! t = Some ot ->
  tr !! t = Some ps -> queues !! t = Some queue -> thread_fits t queue ps ->
  ot_phase ot = Stepping -> thread_inv (os_mapping st) t ot ps queue k outs ->
  steps_to (begin_step read_extension run_call frame_of simulate ps t st ot).
Proof.
  intros Hi Ht Hps Hq Hf Hph (Hphase & Hw & Hrow). unfold phase_ok in Hphase. unfold row_of in Hrow. rewrite Hph in Hphase, Hrow.
  rewrite app_nil_r in Hrow. destruct (ps !! k) as [[ty body]|] eqn:Hp.
  2:{ exists None. split; [|done]. unfold begin_step. rewrite <- Hphase. by destruct (ps !! k). }
  assert (Hat : at_packet st t ot ps queue k outs (ty, body)) by (by split).
  destruct (ty =? PACKET_THREAD_BARRIER) eqn:Eb; [apply Z.eqb_eq in Eb; subst ty; by eapply begin_barrier_ok|].
  destruct (ty =? PACKET_VULKAN_API_CALL) eqn:Ea; [apply Z.eqb_eq in Ea; subst ty; by eapply begin_call_ok|].
  by eapply begin_memory_ok.
Qed.

(** the barrier's packet, once its waits are over *)
Lemma end_barrier_ok st t ot ps queue k outs l : state_inv st -> os_threads st !! t = Some ot ->
  tr !! t = Some ps -> queues !! t = Some queue -> thread_fits t queue ps ->
  ot_phase ot = AtBarrier l -> thread_inv (os_mapping st) t ot ps queue k outs ->
  steps_to (output_step read_extension run_call frame_of simulate tr t st).
Proof.
  intros Hi Ht Hps Hq Hf Hph Hinv. destruct (row_spec _ _ _ _ _ _ _ Hinv Hf) as (Hk & Hn & _ & _).
  destruct Hinv as (Hphase & Hw & Hrow). unfold phase_ok in Hphase. unfold row_of in Hrow. rewrite Hph in Hphase, Hrow.
  destruct Hphase as (Hn' & body & Hp & El). unfold output_step. rewrite Ht, Hps, Hph.
  pose proof (Hlegal t ps k _ Hps Hp) as Hl. unfold packet_legal in Hl. cbn [fst snd] in Hl. rewrite Z.eqb_refl in Hl.
  destruct (Hl l El) as [Hl1 Hl2]. pose proof (read_barrier_valid _ _ El) as [Hv1 Hv2].
  destruct (barrier_ready_spec st t ot k Hi Ht ltac:(lia) l 0 Hl1 Hv2) as (b & Eb & Hb); [intros j x Hj <-; by apply Hl2|].
  rewrite Eb. cbn [obind]. destruct b; [|by exists None]. destruct (Hb eq_refl) as (l' & El' & Hv'). rewrite El'. cbn [obind].
  destruct (translate_indices_from _ _ _ _ El') as [Hll Htg].
  destruct (wrote_next _ _ _ _ _ _ _ _ _ Hw Hf Hp) as (q & shape & Es & Hroom). pose proof Es as Es'.
  rewrite (barrier_shape _ _ _ _ _ El) in Es. injection Es as <- <-.
  assert (Hss : same_sizes [barrier_packet l] [barrier_packet l']).
  { constructor; [|constructor]. unfold barrier_packet. cbn [snd]. by rewrite !length_app, !length_encode_targets, !length_le_encode, Hll. }
  destruct (Hroom _ Hss) as [Hfit Htot].
  destruct (thread_barrier_spec l' (ot_writer ot) (concat outs) None (wr_inv _ _ _ _ _ _ _ _ Hw)) as (w' & E' & Hw' & Hs'); [by split; [lia|]|done|].
  rewrite E'. cbn [obind]. cbn [close] in Hw'. rewrite length_app in Htot. cbn [length] in Htot.
  pose proof (wrote_length _ _ _ _ _ _ _ _ Hw) as Hlen.
  rewrite (pi_packet _ _ _ Hw'), length_app. cbn [length]. rewrite !wrap32_small by u_lia. rewrite Nat2Z.inj_add.
  assert (Hlast : (boundaries 0 outs ++ [Z.of_nat (length (concat outs)) + 1]) !! ot_packet ot = Some (Z.of_nat (length (concat outs)) + Z.of_nat 1)).
  { rewrite Hn'. rewrite lookup_app_r by (rewrite length_boundaries; lia). rewrite length_boundaries, Hlen, Nat.sub_diag. done. }
  rewrite (record_again _ _ _ _ _ Hrow Hlast). cbn [obind]. eexists. split; [reflexivity|]. intros st' [= <-].
  apply (set_state_inv st t ot); try done; [apply mapping_le_refl|]. intros ps' queue' Hps' Hq'. rewrite Hps in Hps'. injection Hps' as <-.
  rewrite Hq in Hq'. injection Hq' as <-. exists (Datatypes.S k), (outs ++ [[barrier_packet l']]). split; [done|]. split.
  - cbn [ot_queue ot_writer]. eapply wrote_snoc; try done; [|by destruct Hs' as [-> _]; apply Hw|by apply Hw].
    unfold image. cbn [fst snd]. rewrite Z.eqb_refl. by exists l, l'.
  - rewrite Hrow. unfold row_of. cbn [ot_phase]. rewrite app_nil_r, boundaries_snoc, Z.add_0_l. cbn [length]. do 3 f_equal. lia.
Qed.

Lemma output_step_ok st t : state_inv st -> steps_to (output_step read_extension run_call frame_of simulate tr t st).
Proof.
  intros Hi. destruct (os_threads st !! t) as [ot|] eqn:Ht.
  2:{ exists None. split; [|done]. unfold output_step. by rewrite Ht. }
  destruct (state_thread st t ot Hi Ht) as (ps & queue & k & outs & Hps & Hq & Hf & Hinv).
  destruct (ot_phase ot) as [|l|] eqn:Hph.
  - unfold output_step. rewrite Ht, Hps, Hph. by eapply begin_step_ok.
  - by eapply end_barrier_ok.
  - unfold output_step. rewrite Ht, Hps, Hph. eexists. split; [reflexivity|]. intros st' [= <-]. unfold set_thread.
    apply (set_state_inv st t ot); try done; [apply mapping_le_refl|]. intros ps' queue' Hps' Hq'. rewrite Hps in Hps'. injection Hps' as <-.
    rewrite Hq in Hq'. injection Hq' as <-. exists k, outs. destruct Hinv as (Hphase & Hw & Hrow). unfold phase_ok in Hphase. rewrite Hph in Hphase.
    split; [done|]. split; [done|]. rewrite Hrow. unfold row_of. by rewrite Hph.
Qed.

Lemma output_run_ok schedule : forall st, state_inv st -> steps_to (output_run read_extension run_call frame_of simulate tr schedule st).
Proof.
  induction schedule as [|t schedule IH]; intros st Hi; cbn [output_run]; [exists (Some st); split; [done|]; by intros ? [= <-]|].
  destruct (output_step_ok st t Hi) as (r & -> & Hr). cbn [obind]. destruct r as [st1|]; [|by exists None]. apply IH. by apply Hr.
Qed.

Lemma output_start_inv writers : length writers = length tr ->
  Forall (fun w => packet_inv w [] None /\ pending_barrier w = false) writers -> Forall queue_ok queues ->
  state_inv (output_start queues writers).
Proof.
  intros Hl Hw Hq. split; cbn [output_start os_threads os_mapping].
  - rewrite length_zip_with. lia.
  - unfold output_packet_mapping. by rewrite length_replicate.
  - intros t ot ps queue Hot Hps Hqt. apply lookup_zip_with_Some in Hot as (q & w & -> & Hq' & Hwt). rewrite Hqt in Hq'. injection Hq' as <-.
    destruct (proj1 (Forall_lookup _ _) Hw _ _ Hwt) as [H1 H2]. pose proof (proj1 (Forall_lookup _ _) Hq _ _ Hqt) as H3.
    exists 0%nat, []. split; [done|]. split; [by apply wrote_start|].
    unfold output_packet_mapping. apply lookup_replicate. split; [done|]. by apply lookup_lt_Some in Hwt.
Qed.
End Steps.
End PassSpec.

(** ** Properties *)

(** C26: whatever the threads of the output pass do in between, nothing aborts, and a
    thread that is between packets has written, for the packets it completed, what
    their shape says: calls as the callbacks write them, updates with their discovered
    markings, and every handle and barrier waiting for exactly the output packets of
    the packets it waited for. The mapping holds the number of packets written for
    every prefix of the input. *)
Theorem output_pass_translates {S} `{PacketSink S, MarkingHeader}
    (read_extension : list byte -> outcome (VkMarkedOffsetsARM * list byte))
    (run_call : nat -> nat -> list address_rewrite -> lava_file_writer S -> outcome (list address_rewrite * lava_file_writer S))
    (frame_of : nat -> nat -> Z) (simulate : bool)
    (call_out : nat -> nat -> list address_rewrite -> list address_rewrite * list packet)
    (tr : list (list packet)) (queues : list (list address_rewrite)) (writers : list (lava_file_writer S)) (schedule : list nat)
    (Hcalls : callbacks_ok run_call call_out) (Hlegal : trace_legal tr)
    (Hqueues : length queues = length tr) (Hwriters : length writers = length tr)
    (Hfits : forall t ps queue, tr !! t = Some ps -> queues !! t = Some queue ->
      thread_fits read_extension frame_of simulate call_out t queue ps)
    (Hfresh : Forall (fun w => packet_inv w [] None /\ pending_barrier w = false) writers) (Hqueue : Forall queue_ok queues) :
  exists r, output_run read_extension run_call frame_of simulate tr schedule (output_start queues writers) = Ok r /\
    forall st t ot ps queue, r = Some st -> os_threads st !! t = Some ot -> tr !! t = Some ps -> queues !! t = Some queue ->
      ot_phase ot = Stepping ->
      exists shapes outs,
        thread_shape read_extension frame_of simulate call_out t 0 queue (take (ot_packet ot) ps) = Ok (ot_queue ot, shapes) /\
        Forall3 (image (os_mapping st) t) (take (ot_packet ot) ps) shapes outs /\
        packet_inv (ot_writer ot) (concat outs) None /\
        forall j, (j <= ot_packet ot)%nat -> os_mapping st !! t ≫= (.!! j) = Some (Z.of_nat (length (concat (take j outs)))).
Proof.
  pose proof (output_start_inv read_extension frame_of simulate call_out tr queues Hqueues writers Hwriters Hfresh Hqueue) as Hi.
  destruct (output_run_ok read_extension run_call frame_of simulate call_out tr queues Hcalls Hlegal Hqueues Hfits schedule _ Hi) as (r & E & Hr).
  exists r. split; [exact E|]. intros st t ot ps queue Hst Ht Hps Hq Hph.
  destruct (si_thread _ _ _ _ _ _ _ (Hr st Hst) t ot ps queue Ht Hps Hq) as (k & outs & Hphase & Hw & Hrow).
  unfold phase_ok in Hphase. rewrite Hph in Hphase. subst k. unfold row_of in Hrow. rewrite Hph, app_nil_r in Hrow.
  pose proof (wrote_length _ _ _ _ _ _ _ _ _ _ _ _ Hw) as Hl. destruct Hw as [_ (shapes & H1 & H2 & _) H3 _ _ _].
  exists shapes, outs. split; [exact H1|]. split; [exact H2|]. split; [exact H3|]. intros j Hj. rewrite Hrow. cbn [mbind option_bind].
  by rewrite boundaries_lookup, Z.add_0_l by lia.
Qed.

(** ** A trace of two threads *)

#[local] Existing Instance demo_header.

(** a callback that traces every call as two packets *)
Definition demo_call_packet : packet := (PACKET_VULKAN_API_CALL, le_encode 2 7).

Definition demo_trace_call (w : demo_out_writer) : outcome demo_out_writer :=
  let* w := begin_packet (H := list_packets) PACKET_VULKAN_API_CALL w in
  let* w := writing (H := list_packets) (write_uint16_t (H := packet_sink (PacketSink := list_packets)) 7) w in
  end_packet (H := list_packets) w.

Definition demo_run_call (t n : nat) (queue : list address_rewrite) (w : demo_out_writer)
    : outcome (list address_rewrite * demo_out_writer) :=
  let* w := demo_trace_call w in
  let* w := demo_trace_call w in
  Ok (queue, w).

Definition demo_call_out (t n : nat) (queue : list address_rewrite) : list address_rewrite * list packet :=
  (queue, [demo_call_packet; demo_call_packet]).

Lemma demo_trace_call_spec w done : packet_inv (H := list_packets) w done None -> fits (done ++ [demo_call_packet]) ->
  exists w', demo_trace_call w = Ok w' /\ packet_inv (H := list_packets) w' (done ++ [demo_call_packet]) None /\
    pending_barrier (H := list_packets) w' = pending_barrier (H := list_packets) w.
Proof.
  intros Hi Hf. unfold demo_trace_call.
  destruct (begin_packet_spec (H := list_packets) w done None PACKET_VULKAN_API_CALL Hi (fits_prefix _ _ Hf)) as (w1 & -> & Hi1 & S1). cbn [obind].
  destruct (writing_value (H := list_packets) 2 7 w1 _ _ _ Hi1 ltac:(lia)) as (w2 & E2 & Hi2 & S2). unfold write_uint16_t. rewrite E2. cbn [obind].
  destruct (end_packet_spec (H := list_packets) w2 _ _ Hi2 Hf) as (w3 & -> & Hi3 & S3). exists w3. split; [done|]. split; [done|].
  destruct S1 as [S1 _], S2 as [S2 _], S3 as [S3 _]. by rewrite S3, S2, S1.
Qed.

Lemma demo_callbacks : callbacks_ok (H := list_packets) demo_run_call demo_call_out.
Proof.
  split; [|done|done]. intros t n queue w done Hi Hp Hf. cbn [demo_call_out snd fst] in *.
  assert (Hf1 : fits (done ++ [demo_call_packet])).
  { apply (fits_prefix _ [demo_call_packet]). by rewrite <- app_assoc. }
  destruct (demo_trace_call_spec w done Hi Hf1) as (w1 & E1 & Hi1 & P1).
  destruct (demo_trace_call_spec w1 _ Hi1) as (w2 & E2 & Hi2 & P2); [by rewrite <- app_assoc|].
  exists w2. unfold demo_run_call. rewrite E1. cbn [obind]. rewrite E2. cbn [obind]. split; [done|].
  rewrite <- app_assoc in Hi2. split; [exact Hi2|]. congruence.
Qed.

Definition demo_input : list (list packet) :=
  [[(PACKET_VULKAN_API_CALL, le_encode 2 7); (PACKET_VULKAN_API_CALL, le_encode 2 7)];
   [barrier_packet [1; 0]; (PACKET_BUFFER_UPDATE2, demo_update_body 0 1)]].

Definition demo_output (schedule : list nat) : outcome (option (output_state (H := list_packets) (list byte))) :=
  output_run (H := list_packets) demo_read_extension demo_run_call (fun _ _ => 0) true demo_input schedule
    (output_start (H := list_packets) [[]; []] [demo_out_start; demo_out_start]).

(** the mapping and the streams after a run *)
Definition demo_result (r : outcome (option (output_state (H := list_packets) (list byte)))) : list (list Z) * list (list byte) :=
  match r with
  | Ok (Some st) => (os_mapping st, map (fun ot => stream (H := list_packets) (ot_writer ot)) (os_threads st))
  | _ => ([], [])
  end.

(** the calls are packets 0 to 3 of the output, so the barrier waits for two of them
    and the handles for packets 1 and 3 *)
Example output_pass_renumbers :
  demo_result (demo_output [0; 0; 1; 1; 0; 0; 1; 1]%nat) =
  ([[0; 2; 4]; [0; 1; 2]],
   [stream_of [demo_call_packet; demo_call_packet; demo_call_packet; demo_call_packet];
    stream_of [barrier_packet [2; 0]; (PACKET_BUFFER_UPDATE2, demo_update_body 1 3)]]).
Proof. vm_compute. reflexivity. Qed.

(** the update waits for the second call *)
Example output_pass_waits :
  match demo_output [0; 0; 1; 1; 1]%nat with Ok None => true | _ => false end = true.
Proof. vm_compute. reflexivity. Qed.

Lemma demo_legal_trace : trace_legal demo_input.
Proof.
  intros [|[|t]] ps k p Ht Hp; [| |done]; injection Ht as <-.
  - destruct k as [|[|k]]; [| |done]; injection Hp as <-; done.
  - destruct k as [|[|k]]; [| |done]; injection Hp as <-.
    + intros l Hl. assert (E : l = [1; 0]) by (vm_compute in Hl; congruence). subst l. split; [apply Nat.leb_le; by vm_compute|].
      intros i Hi. injection Hi as <-. by vm_compute.
    + split; intros _; apply Nat.ltb_lt; by vm_compute.
Qed.

Lemma demo_thread_fits t ps queue : demo_input !! t = Some ps -> [[]; []] !! t = Some queue ->
  thread_fits demo_read_extension (fun _ _ => 0) true demo_call_out t queue ps.
Proof.
  intros Ht Hq. destruct t as [|[|t]]; [| |done]; injection Ht as <-; injection Hq as <-; eexists _, _;
    (split; [vm_compute; reflexivity|]; split; [repeat split; repeat constructor; by vm_compute|by vm_compute]).
Qed.

Lemma demo_fresh : Forall (fun w => packet_inv (H := list_packets) w [] None /\ pending_barrier (H := list_packets) w = false)
  [demo_out_start; demo_out_start].
Proof. repeat constructor; try done; by apply (new_lava_writer_inv (H := list_packets)). Qed.

Lemma output_pass_translates_witness :
  exists r, output_run (H := list_packets) demo_read_extension demo_run_call (fun _ _ => 0) true demo_input [0; 0; 1; 1; 0; 0; 1; 1]%nat
      (output_start (H := list_packets) [[]; []] [demo_out_start; demo_out_start]) = Ok r /\
    forall st t ot ps queue, r = Some st -> os_threads st !! t = Some ot -> demo_input !! t = Some ps -> [[]; []] !! t = Some queue ->
      ot_phase ot = Stepping ->
      exists shapes outs,
        thread_shape demo_read_extension (fun _ _ => 0) true demo_call_out t 0 queue (take (ot_packet ot) ps) = Ok (ot_queue ot, shapes) /\
        Forall3 (image (os_mapping st) t) (take (ot_packet ot) ps) shapes outs /\
        packet_inv (H := list_packets) (ot_writer ot) (concat outs) None /\
        forall j, (j <= ot_packet ot)%nat -> os_mapping st !! t ≫= (.!! j) = Some (Z.of_nat (length (concat (take j outs)))).
Proof.
  apply (output_pass_translates (H := list_packets) demo_read_extension demo_run_call (fun _ _ => 0) true demo_call_out demo_input [[]; []]
    [demo_out_start; demo_out_start]); [exact demo_callbacks|exact demo_legal_trace|reflexivity|reflexivity|exact demo_thread_fits|exact demo_fresh|].
  repeat constructor.
Defined.
