(* ===== verification/Descriptors.v ===== *)
(** * Descriptors written behind a device's back (src/tool.cpp)

    An application may copy the bytes that [vkGetDescriptorEXT] returned into a
    descriptor buffer by ways the capture does not see as marked memory. The output
    pass keeps the bytes it got, watches which places of descriptor buffers a
    command buffer uses, and before a submit writes an update of its own for every
    place whose descriptor it can tell, with a marking that has it translated. *)

From Stdlib Require Import ZArith Lia Bool.
From Stdlib.Strings Require Import Byte.
From stdpp Require Import base numbers list sorting.
From S2P Require Import Prelude Stream RangeTracking Patch Memory FileWriter FileReader RandomAccess Packets Containers Markings Translate Updates Output.

#[local] Open Scope Z_scope.

(** ** State *)

Record descriptor_output_marking_key := MarkingKey {
  dk_buffer_index : Z;
  dk_offset : Z;
  dk_type : Z
}.

Record pending_descriptor_payload := PendingPayload {
  pp_type : Z;
  pp_bytes : list byte
}.

#[export] Instance payload_eq_dec : EqDecision pending_descriptor_payload.
Proof. solve_decision. Defined.

Record output_descriptor_buffer_binding := BufferBinding {
  ob_buffer_index : Z;
  ob_offset : Z;
  ob_size : Z;
  ob_usage : Z
}.

Definition unbound : output_descriptor_buffer_binding := BufferBinding CONTAINER_INVALID_INDEX 0 0 0.

Record pending_descriptor_buffer_update := PendingUpdate {
  pu_buffer_index : Z;
  pu_offset : Z;
  pu_type : Z;
  pu_bytes : list byte
}.

#[export] Instance update_eq_dec : EqDecision pending_descriptor_buffer_update.
Proof. solve_decision. Defined.

(** what the post-processor saw in a descriptor buffer *)
Record descriptor_buffer_payload := BufferPayload {
  bp_buffer_index : Z;
  bp_offset : Z;
  bp_type : Z;
  bp_bytes : list byte
}.

(** the tables of one thread *)
Record descriptor_state := DescriptorState {
  pending_descriptor_payloads : list pending_descriptor_payload;
  used_descriptor_payloads : list pending_descriptor_payload;
  output_descriptor_buffers : list output_descriptor_buffer_binding;
  pending_descriptor_buffer_updates : list pending_descriptor_buffer_update;
  emitted_descriptor_buffer_updates : list pending_descriptor_buffer_update
}.

Definition no_descriptors : descriptor_state := DescriptorState [] [] [] [] [].

Definition with_payloads (d : descriptor_state) (l : list pending_descriptor_payload) : descriptor_state :=
  DescriptorState l (used_descriptor_payloads d) (output_descriptor_buffers d) (pending_descriptor_buffer_updates d)
    (emitted_descriptor_buffer_updates d).

Definition with_used (d : descriptor_state) (l : list pending_descriptor_payload) : descriptor_state :=
  DescriptorState (pending_descriptor_payloads d) l (output_descriptor_buffers d) (pending_descriptor_buffer_updates d)
    (emitted_descriptor_buffer_updates d).

Definition with_bindings (d : descriptor_state) (l : list output_descriptor_buffer_binding) : descriptor_state :=
  DescriptorState (pending_descriptor_payloads d) (used_descriptor_payloads d) l (pending_descriptor_buffer_updates d)
    (emitted_descriptor_buffer_updates d).

Definition with_updates (d : descriptor_state) (pending emitted : list pending_descriptor_buffer_update) : descriptor_state :=
  DescriptorState (pending_descriptor_payloads d) (used_descriptor_payloads d) (output_descriptor_buffers d) pending emitted.

(** the part of a [trackedbuffer] that is used, with the mapped memory of the
    buffer: [None] when it cannot be mapped *)
Record descriptor_buffer := DescriptorBuffer {
  db_capture_device_address : Z;
  db_size : Z;
  db_has_allocator : bool;             (** its device is known and has an allocator *)
  db_mapped : option (list byte)
}.

(** the part of a [trackeddescriptorsetlayout]; the maps in the order they are walked *)
Record descriptor_set_layout := SetLayout {
  dl_size : Z;
  dl_offsets : list (Z * Z);
  dl_binding_types : list (Z * Z);
  dl_binding_counts : list (Z * Z)
}.

(** the part of a [trackedpipelinelayout]: the set layouts by index and by the index
    that their handle has now *)
Record pipeline_layout := PipelineLayout {
  pl_layouts : list Z;
  pl_layout_indices : list Z
}.

Definition descriptor_set_layout_count (layout_data : pipeline_layout) : Z :=
  Z.of_nat (if Nat.ltb (length (pl_layouts layout_data)) (length (pl_layout_indices layout_data))
            then length (pl_layout_indices layout_data) else length (pl_layouts layout_data)).

(** ** Payloads *)

(** [find_if] and the list without the element found *)
Fixpoint take_first {A} (p : A -> bool) (l : list A) : option (A * list A) :=
  match l with
  | [] => None
  | x :: l =>
      if p x then Some (x, l)
      else match take_first p l with Some (y, l) => Some (y, x :: l) | None => None end
  end.

Definition same_payload (type : Z) (bytes : list byte) (payload : pending_descriptor_payload) : bool :=
  (pp_type payload =? type) && bool_decide (pp_bytes payload = bytes).

Definition pop_pending_descriptor_payload (type : Z) (captured_bytes : option (list byte)) (d : descriptor_state)
    : option (list byte * descriptor_state) :=
  let matches payload :=
    match captured_bytes with
    | None => pp_type payload =? type
    | Some bytes => same_payload type bytes payload
    end in
  match take_first matches (pending_descriptor_payloads d) with
  | None => None
  | Some (payload, rest) => Some (pp_bytes payload, with_payloads d rest)
  end.

Definition find_pending_descriptor_payload (type : Z) (captured_bytes : list byte) (d : descriptor_state) : option (list byte) :=
  match take_first (same_payload type captured_bytes) (pending_descriptor_payloads d) with
  | None => None
  | Some (payload, _) => Some (pp_bytes payload)
  end.

(** the loop after the first payload of the type was found *)
Fixpoint all_same (type : Z) (bytes : list byte) (l : list pending_descriptor_payload) : bool :=
  match l with
  | [] => true
  | payload :: l =>
      if negb (pp_type payload =? type) then all_same type bytes l
      else bool_decide (pp_bytes payload = bytes) && all_same type bytes l
  end.

Fixpoint find_unique (type : Z) (l : list pending_descriptor_payload) : option (list byte) :=
  match l with
  | [] => None
  | payload :: l =>
      if negb (pp_type payload =? type) then find_unique type l
      else if all_same type (pp_bytes payload) l then Some (pp_bytes payload) else None
  end.

Definition find_unique_pending_descriptor_payload (type : Z) (d : descriptor_state) : option (list byte) :=
  find_unique type (pending_descriptor_payloads d).

Definition note_used_descriptor_payload (type : Z) (bytes : list byte) (d : descriptor_state) : descriptor_state :=
  if existsb (same_payload type bytes) (used_descriptor_payloads d) then d
  else with_used d (used_descriptor_payloads d ++ [PendingPayload type bytes]).

Definition erase_used_descriptor_payloads (d : descriptor_state) : descriptor_state :=
  let keep payload := negb (existsb (fun used => same_payload (pp_type used) (pp_bytes used) payload) (used_descriptor_payloads d)) in
  with_used (with_payloads d (List.filter keep (pending_descriptor_payloads d))) [].

(** what is done after the call is traced: the type of the descriptor and the bytes
    at [pDescriptor], where these are not null *)
Definition output_vkGetDescriptorEXT (pDescriptorInfo : option Z) (dataSize : nat) (pDescriptor : option (list byte))
    (d : descriptor_state) : outcome descriptor_state :=
  match pDescriptorInfo, pDescriptor with
  | Some type, Some memory =>
      if Nat.eqb dataSize 0 then Ok d
      else
        let* _ := require (Nat.leb dataSize (length memory)) OutOfRange in
        Ok (with_payloads d (pending_descriptor_payloads d ++ [PendingPayload type (take dataSize memory)]))
  | _, _ => Ok d
  end.

(** ** Markings that are there already *)

Section Existing.
Context `{MarkingHeader}.

Definition entry_keys (rewrite : address_rewrite) : outcome (list descriptor_output_marking_key) :=
  if negb (ar_object_type rewrite =? object_type_code VK_OBJECT_TYPE_BUFFER) then Ok []
  else match ar_markings rewrite with
  | None => Ok []
  | Some m =>
      match pMarkingTypes m, pSubTypes m, pOffsets m with
      | Some _, Some _, Some _ =>
          let* (_, ms) := entries m in
          Ok (map (fun x => MarkingKey (ar_object_index rewrite) (mk_offset x) (wrap32 (mk_sub x)))
                (List.filter (fun x => mk_type x =? VK_MARKING_TYPE_DESCRIPTOR_ARM) ms))
      | _, _, _ => Ok []
      end
  end.

(** the result replaces [existing_descriptor_output_markings] *)
Fixpoint cache_existing_descriptor_output_markings (queue : list address_rewrite) : outcome (list descriptor_output_marking_key) :=
  match queue with
  | [] => Ok []
  | rewrite :: queue =>
      let* keys := entry_keys rewrite in
      let* rest := cache_existing_descriptor_output_markings queue in
      Ok (keys ++ rest)
  end.
End Existing.

Definition descriptor_output_marking_exists (existing : list descriptor_output_marking_key) (buffer_index offset type : Z) : bool :=
  existsb (fun key => (dk_buffer_index key =? buffer_index) && (dk_offset key =? offset) && (dk_type key =? type)) existing.

(** ** Buffers *)

Section Buffers.
Context (buffers : list descriptor_buffer).

(** from the buffer of index [i] on *)
Fixpoint find_buffer_from (i : Z) (l : list descriptor_buffer) (address size : Z) : option (Z * Z) :=
  match l with
  | [] => None
  | b :: l =>
      let offset := address - db_capture_device_address b in
      if (db_capture_device_address b =? 0) || (db_size b =? 0) || (address <? db_capture_device_address b) ||
         (wrap64 (offset + size) >? db_size b)
      then find_buffer_from (i + 1) l address size
      else Some (i, offset)
  end.

Definition find_output_descriptor_buffer (address size : Z) : option (Z * Z) := find_buffer_from 0 buffers address size.

Definition buffer_at (buffer_index : Z) : outcome descriptor_buffer :=
  match buffers !! Z.to_nat buffer_index with Some b => Ok b | None => Fail OutOfRange end.

(** the bytes of the buffer's memory, if they can be read *)
Definition read_output_descriptor_buffer_payload (buffer_index offset : Z) (size : nat) : outcome (option (list byte)) :=
  if Nat.eqb size 0 then Ok None
  else
    let* buffer := buffer_at buffer_index in
    if (offset >? db_size buffer) || (Z.of_nat size >? db_size buffer - offset) then Ok None
    else if negb (db_has_allocator buffer) then Ok None
    else match db_mapped buffer with
    | None => Ok None
    | Some mapped =>
        let* _ := require (Nat.leb (Z.to_nat offset + size) (length mapped)) OutOfRange in
        Ok (Some (slice (Z.to_nat offset) size mapped))
    end.

(** [output_vkCmdBindDescriptorBuffersEXT], after the call is traced *)
Definition bind_descriptor_buffer (info : Z * Z) : output_descriptor_buffer_binding :=
  match find_output_descriptor_buffer info.1 1 with
  | None => unbound
  | Some (index, offset) =>
      match buffers !! Z.to_nat index with
      | Some b => BufferBinding index offset (db_size b - offset) info.2
      | None => unbound
      end
  end.

Definition output_vkCmdBindDescriptorBuffersEXT (bufferCount : nat) (pBindingInfos : option (list (Z * Z))) (d : descriptor_state)
    : descriptor_state :=
  with_bindings d
    match pBindingInfos with
    | None => repeat unbound bufferCount
    | Some infos => map bind_descriptor_buffer infos
    end.

(** ** Queueing updates *)

Context (existing : list descriptor_output_marking_key) (seen : list descriptor_buffer_payload).
(** the value of [VK_DESCRIPTOR_TYPE_MUTABLE_EXT] *)
Context (mutable_type : Z).

Definition descriptor_buffer_update_already_queued (update : pending_descriptor_buffer_update) (d : descriptor_state) : bool :=
  existsb (fun u => bool_decide (u = update)) (pending_descriptor_buffer_updates d) ||
  existsb (fun u => bool_decide (u = update)) (emitted_descriptor_buffer_updates d).

(** the buffer holds what the post-processor saw there *)
Definition output_descriptor_payload_matches (payload : descriptor_buffer_payload) : outcome bool :=
  let* current := read_output_descriptor_buffer_payload (bp_buffer_index payload) (bp_offset payload) (length (bp_bytes payload)) in
  Ok (bool_decide (current = Some (bp_bytes payload))).

(** the loop of [resolve_mutable_descriptor_buffer_type]: the last match counts *)
Fixpoint resolve_mutable (buffer_index offset resolved_type : Z) (l : list descriptor_buffer_payload) : outcome Z :=
  match l with
  | [] => Ok resolved_type
  | payload :: l =>
      if negb (bp_buffer_index payload =? buffer_index) || negb (bp_offset payload =? offset) || Nat.eqb (length (bp_bytes payload)) 0
      then resolve_mutable buffer_index offset resolved_type l
      else
        let* captured := read_output_descriptor_buffer_payload buffer_index offset (length (bp_bytes payload)) in
        resolve_mutable buffer_index offset
          (if bool_decide (captured = Some (bp_bytes payload)) then bp_type payload else resolved_type) l
  end.

Definition resolve_mutable_descriptor_buffer_type (buffer_index offset : Z) : outcome Z :=
  resolve_mutable buffer_index offset mutable_type seen.

(** the bytes that post-processing saw at this place, if it saw them at another place too *)
Definition seen_bytes (buffer_index offset type : Z) : list byte :=
  match List.find (fun p => (bp_buffer_index p =? buffer_index) && (bp_offset p =? offset) && (bp_type p =? type)) seen with
  | None => []
  | Some entry =>
      if Nat.ltb 1 (length (List.filter (fun p => (bp_type p =? type) && bool_decide (bp_bytes p = bp_bytes entry)) seen))
      then bp_bytes entry else []
  end.

(** the descriptor that is copied to the place, and the state without it if it was popped *)
Definition choose_payload (captured : option (list byte)) (type : Z) (d : descriptor_state) : option (list byte * descriptor_state) :=
  match (match captured with Some bytes => find_pending_descriptor_payload type bytes d | None => None end) with
  | Some bytes => Some (bytes, d)
  | None =>
      match find_unique_pending_descriptor_payload type d with
      | Some bytes => Some (bytes, d)
      | None =>
          match pop_pending_descriptor_payload type captured d with
          | Some r => Some r
          | None => match captured with Some _ => pop_pending_descriptor_payload type None d | None => None end
          end
      end
  end.

(** what the buffer holds at the place, in the size of the first descriptor of the type *)
Definition captured_at (buffer_index offset type : Z) (d : descriptor_state) : outcome (option (list byte)) :=
  match take_first (fun p => pp_type p =? type) (pending_descriptor_payloads d) with
  | None => Ok None
  | Some (payload, _) => read_output_descriptor_buffer_payload buffer_index offset (length (pp_bytes payload))
  end.

Definition add_update (update : pending_descriptor_buffer_update) (d : descriptor_state) : descriptor_state :=
  let d := note_used_descriptor_payload (pu_type update) (pu_bytes update) d in
  with_updates d (pending_descriptor_buffer_updates d ++ [update]) (emitted_descriptor_buffer_updates d ++ [update]).

Definition queue_synthetic_descriptor_buffer_update (buffer_index offset type : Z) (d : descriptor_state) : outcome descriptor_state :=
  let* resolved_type := if type =? mutable_type then resolve_mutable_descriptor_buffer_type buffer_index offset else Ok type in
  if descriptor_output_marking_exists existing buffer_index offset resolved_type then Ok d
  else
    let bytes := seen_bytes buffer_index offset resolved_type in
    let* found :=
      if Nat.eqb (length bytes) 0 then
        let* captured := captured_at buffer_index offset resolved_type d in
        Ok (choose_payload captured resolved_type d)
      else Ok (Some (bytes, d)) in
    match found with
    | None => Ok d
    | Some (bytes, d) =>
        let update := PendingUpdate buffer_index offset resolved_type bytes in
        if Nat.eqb (length bytes) 0 || descriptor_buffer_update_already_queued update d then Ok d
        else Ok (add_update update d)
    end.

(** the places of a binding, without an end beyond the buffer *)
Fixpoint binding_end_loop (offsets : list (Z * Z)) (set_base binding_offset buffer_size binding_end : Z) : Z :=
  match offsets with
  | [] => binding_end
  | candidate :: offsets =>
      binding_end_loop offsets set_base binding_offset buffer_size
        (if (candidate.2 <=? binding_offset) || (candidate.2 >? buffer_size - set_base) then binding_end
         else if set_base + candidate.2 <? binding_end then set_base + candidate.2 else binding_end)
  end.

Definition output_descriptor_binding_end (layout_data : descriptor_set_layout) (set_base binding_offset buffer_size : Z) : Z :=
  let binding_end := binding_end_loop (dl_offsets layout_data) set_base binding_offset buffer_size buffer_size in
  if (dl_size layout_data >? binding_offset) && (dl_size layout_data <=? buffer_size - set_base) &&
     (set_base + dl_size layout_data <? binding_end)
  then set_base + dl_size layout_data else binding_end.

(** the places the post-processor saw in the binding that still hold what it saw *)
Fixpoint seen_offsets (buffer_index binding_start binding_end layout_type : Z) (l : list descriptor_buffer_payload) : outcome (list Z) :=
  match l with
  | [] => Ok []
  | payload :: l =>
      if negb (bp_buffer_index payload =? buffer_index) || (bp_offset payload <? binding_start) || (bp_offset payload >=? binding_end) ||
         (negb (layout_type =? mutable_type) && negb (bp_type payload =? layout_type))
      then seen_offsets buffer_index binding_start binding_end layout_type l
      else
        let* matches := output_descriptor_payload_matches payload in
        let* rest := seen_offsets buffer_index binding_start binding_end layout_type l in
        Ok (if matches then bp_offset payload :: rest else rest)
  end.

(** [std::unique] *)
Fixpoint drop_repeats (l : list Z) : list Z :=
  match l with
  | [] => []
  | x :: l => match drop_repeats l with
              | y :: r => if x =? y then y :: r else x :: y :: r
              | [] => [x]
              end
  end.

(** [find] in a map *)
Definition map_find (key : Z) (l : list (Z * Z)) : option Z := option_map snd (List.find (fun e => e.1 =? key) l).

Fixpoint queue_offsets (buffer_index layout_type : Z) (offsets : list Z) (d : descriptor_state) : outcome descriptor_state :=
  match offsets with
  | [] => Ok d
  | offset :: offsets =>
      let* d := queue_synthetic_descriptor_buffer_update buffer_index offset layout_type d in
      queue_offsets buffer_index layout_type offsets d
  end.

Definition queue_synthetic_descriptor_buffer_binding_updates (layout_data : descriptor_set_layout) (buffer_index set_base binding
    binding_offset layout_type : Z) (d : descriptor_state) : outcome descriptor_state :=
  let* buffer_data := buffer_at buffer_index in
  if (set_base >? db_size buffer_data) || (binding_offset >? db_size buffer_data - set_base) then Ok d
  else
    let binding_start := set_base + binding_offset in
    let binding_end := output_descriptor_binding_end layout_data set_base binding_offset (db_size buffer_data) in
    let* found := seen_offsets buffer_index binding_start binding_end layout_type seen in
    let offsets := drop_repeats (merge_sort Z.le (binding_start :: found)) in
    let offsets := match map_find binding (dl_binding_counts layout_data) with
                   | Some n => take (Z.to_nat n) offsets
                   | None => offsets
                   end in
    queue_offsets buffer_index layout_type offsets d.

Fixpoint queue_bindings (layout_data : descriptor_set_layout) (buffer_index set_base : Z) (binding_types : list (Z * Z))
    (d : descriptor_state) : outcome descriptor_state :=
  match binding_types with
  | [] => Ok d
  | (binding, layout_type) :: rest =>
      let binding_offset := default 0 (map_find binding (dl_offsets layout_data)) in
      let* d := queue_synthetic_descriptor_buffer_binding_updates layout_data buffer_index set_base binding binding_offset layout_type d in
      queue_bindings layout_data buffer_index set_base rest d
  end.

(** the descriptor set layouts by index *)
Context (set_layouts : list descriptor_set_layout).

(** the elements of an array, which may be missing altogether *)
Definition element_or_zero (p : option (list Z)) (i : nat) : outcome Z :=
  match p with
  | None => Ok 0
  | Some l => match l !! i with Some v => Ok v | None => Fail OutOfRange end
  end.

Definition find_set_layout_index (layout_data : pipeline_layout) (set : Z) : Z :=
  let set_layout_index := default CONTAINER_INVALID_INDEX (pl_layout_indices layout_data !! Z.to_nat set) in
  if set_layout_index =? CONTAINER_INVALID_INDEX then default CONTAINER_INVALID_INDEX (pl_layouts layout_data !! Z.to_nat set)
  else set_layout_index.

(** set [i] of the call *)
Definition note_set (layout_data : pipeline_layout) (firstSet : Z) (i : nat) (pBufferIndices pOffsets : option (list Z))
    (d : descriptor_state) : outcome descriptor_state :=
  let set := wrap32 (firstSet + Z.of_nat i) in
  if set >=? descriptor_set_layout_count layout_data then Ok d
  else
    let* descriptor_buffer_index := element_or_zero pBufferIndices i in
    match output_descriptor_buffers d !! Z.to_nat descriptor_buffer_index with
    | None => Ok d
    | Some descriptor_buffer =>
        if ob_buffer_index descriptor_buffer =? CONTAINER_INVALID_INDEX then Ok d
        else
          let* set_offset := element_or_zero pOffsets i in
          let* data := buffer_at (ob_buffer_index descriptor_buffer) in
          if (ob_offset descriptor_buffer >? db_size data) || (set_offset >? db_size data - ob_offset descriptor_buffer) then Ok d
          else
            let set_layout_index := find_set_layout_index layout_data set in
            if set_layout_index =? CONTAINER_INVALID_INDEX then Ok d
            else match set_layouts !! Z.to_nat set_layout_index with
            | None => Fail OutOfRange
            | Some set_layout_data =>
                queue_bindings set_layout_data (ob_buffer_index descriptor_buffer) (ob_offset descriptor_buffer + set_offset)
                  (dl_binding_types set_layout_data) d
            end
    end.

Fixpoint note_sets (layout_data : pipeline_layout) (firstSet : Z) (i setCount : nat) (pBufferIndices pOffsets : option (list Z))
    (d : descriptor_state) : outcome descriptor_state :=
  match setCount with
  | O => Ok d
  | S setCount =>
      let* d := note_set layout_data firstSet i pBufferIndices pOffsets d in
      note_sets layout_data firstSet (S i) setCount pBufferIndices pOffsets d
  end.

(** the layout is [None] when its handle has no index *)
Definition output_note_descriptor_buffer_offsets (layout : option pipeline_layout) (firstSet : Z) (setCount : nat)
    (pBufferIndices pOffsets : option (list Z)) (d : descriptor_state) : outcome descriptor_state :=
  match layout with
  | None => Ok d
  | Some layout_data => note_sets layout_data firstSet 0 setCount pBufferIndices pOffsets d
  end.
End Buffers.

(** ** Writing the updates *)

Definition by_offset (a b : pending_descriptor_buffer_update) : Prop := pu_offset a <= pu_offset b.

#[export] Instance by_offset_dec a b : Decision (by_offset a b).
Proof. unfold by_offset. apply _. Defined.

#[export] Instance by_offset_trans : Transitive by_offset.
Proof. intros x y z. unfold by_offset. lia. Qed.

#[export] Instance by_offset_total : Total by_offset.
Proof. intros x y. unfold by_offset. lia. Qed.

Definition by_buffer (a b : pending_descriptor_buffer_update) : Prop :=
  pu_buffer_index a < pu_buffer_index b \/ pu_buffer_index a = pu_buffer_index b /\ pu_offset a <= pu_offset b.

#[export] Instance by_buffer_dec a b : Decision (by_buffer a b).
Proof. unfold by_buffer. apply _. Defined.

#[export] Instance by_buffer_trans : Transitive by_buffer.
Proof. intros x y z. unfold by_buffer. lia. Qed.

#[export] Instance by_buffer_total : Total by_buffer.
Proof. intros x y. unfold by_buffer. lia. Qed.

Definition update_end (u : pending_descriptor_buffer_update) : Z := pu_offset u + Z.of_nat (length (pu_bytes u)).

Definition written_bytes (updates : list pending_descriptor_buffer_update) : Z :=
  wrap64 (Z.of_nat (length (concat (map pu_bytes updates)))).

Section Bodies.
Context {W : Type} `{ByteSink W}.

Fixpoint write_sorted (cursor : Z) (sorted : list pending_descriptor_buffer_update) (s : W) : outcome W :=
  match sorted with
  | [] => let* s := write_uint32_t 0 s in write_uint32_t 0 s
  | update :: sorted =>
      let* _ := require (negb (pu_offset update <? cursor)) AbortCall in
      let* s := write_uint32_t (wrap32 (pu_offset update - cursor)) s in
      let* s := write_uint32_t (wrap32 (Z.of_nat (length (pu_bytes update)))) s in
      let* s := write_array (pu_bytes update) s in
      write_sorted (wrap64 (update_end update)) sorted s
  end.
End Bodies.

(** the devices and buffers of the writer, by the index of the buffer in the reader *)
Abbreviation writer_records := (list (option (trackable * hostobject))).

Section Write.
Context {S : Type} `{PacketSink S} `{MarkingHeader}.

Definition update_markings (updates : list pending_descriptor_buffer_update) : VkMarkedOffsetsARM :=
  MarkedOffsets VK_STRUCTURE_TYPE_MARKED_OFFSETS_ARM (wrap32 (Z.of_nat (length updates)))
    (Some (map (fun _ => VK_MARKING_TYPE_DESCRIPTOR_ARM) updates)) (Some (map pu_type updates)) (Some (map pu_offset updates)).

(** Two updates at the same offset end the program whichever of them [std::sort]
    puts first, so any sort will do. *)
Definition write_descriptor_buffer_update_packet (buffer_index : Z) (updates : list pending_descriptor_buffer_update)
    (records : writer_records) (w : lava_file_writer S) : outcome (writer_records * lava_file_writer S) :=
  match updates with
  | [] => Ok (records, w)
  | _ =>
      match records !! Z.to_nat buffer_index with
      | Some (Some (writer_device, writer_buffer)) =>
          let* w := begin_packet PACKET_BUFFER_UPDATE2 w in
          let* w := writing (write_handle (Some writer_device)) w in
          let* w := writing (write_handle (Some (h_base writer_buffer))) w in
          let* (sizeptr, s) := write_later_uint64_t 0 (stream w) in
          let w := with_stream w s in
          let packet_payload_start := position (stream w) in
          let* w := writing (write_uint16_t PACKET_FLAG_HAS_PNEXT) w in
          let* w := writing (write_marked_offsets_extension (update_markings updates)) w in
          let* w := writing (write_sorted 0 (merge_sort by_offset updates)) w in
          let writer_buffer := count_update writer_buffer (written_bytes updates) in
          let* s := store_at sizeptr (le_encode 8 (wrap64 (position (stream w) - packet_payload_start))) (stream w) in
          let* w := end_packet (with_stream w s) in
          Ok (<[Z.to_nat buffer_index := Some (writer_device, writer_buffer)]> records, w)
      | _ => Fail AbortCall
      end
  end.

Fixpoint flush_loop (current_buffer : Z) (group sorted : list pending_descriptor_buffer_update) (records : writer_records)
    (w : lava_file_writer S) : outcome (writer_records * lava_file_writer S) :=
  match sorted with
  | [] => write_descriptor_buffer_update_packet current_buffer group records w
  | update :: sorted =>
      if negb (current_buffer =? pu_buffer_index update) then
        let* (records, w) := write_descriptor_buffer_update_packet current_buffer group records w in
        flush_loop (pu_buffer_index update) [update] sorted records w
      else flush_loop current_buffer (group ++ [update]) sorted records w
  end.

Definition flush_synthetic_descriptor_buffer_updates (d : descriptor_state) (records : writer_records) (w : lava_file_writer S)
    : outcome (descriptor_state * writer_records * lava_file_writer S) :=
  match pending_descriptor_buffer_updates d with
  | [] => Ok (erase_used_descriptor_payloads d, records, w)
  | updates =>
      let* (records, w) := flush_loop CONTAINER_INVALID_INDEX [] (merge_sort by_buffer updates) records w in
      Ok (erase_used_descriptor_payloads (with_updates d [] (emitted_descriptor_buffer_updates d)), records, w)
  end.
End Write.

(** ** Where queued descriptors come from *)

Section History.
Context {S : Type} `{PacketSink S} `{MarkingHeader}.
Context (existing : list descriptor_output_marking_key) (seen : list descriptor_buffer_payload) (mutable_type : Z).

(** the descriptor a call returned, if it returned any *)
Definition obtained (pDescriptorInfo : option Z) (dataSize : nat) (pDescriptor : option (list byte)) : list pending_descriptor_payload :=
  match pDescriptorInfo, pDescriptor with
  | Some type, Some memory => if Nat.eqb dataSize 0 then [] else [PendingPayload type (take dataSize memory)]
  | _, _ => []
  end.

(** The calls of a thread that the output pass handles here, in any order, with the
    descriptors that were returned so far. The buffers' memory, their addresses and
    the layouts are those of the time of the call. *)
Inductive reached : list pending_descriptor_payload -> descriptor_state -> Prop :=
  | reached_start : reached [] no_descriptors
  | reached_get got d info size p d' :
      reached got d -> output_vkGetDescriptorEXT info size p d = Ok d' -> reached (got ++ obtained info size p) d'
  | reached_bind got d buffers n infos :
      reached got d -> reached got (output_vkCmdBindDescriptorBuffersEXT buffers n infos d)
  | reached_offsets got d d' buffers set_layouts layout first n indices offsets :
      reached got d ->
      output_note_descriptor_buffer_offsets buffers existing seen mutable_type set_layouts layout first n indices offsets d = Ok d' ->
      reached got d'
  | reached_submit got d d' records records' (w w' : lava_file_writer S) :
      reached got d -> flush_synthetic_descriptor_buffer_updates d records w = Ok (d', records', w') -> reached got d'.

(** an update that may be written: some bytes that the device returned for the type, or
    that the post-processor saw at the place, and no marking that is there already *)
Record backed (got : list pending_descriptor_payload) (u : pending_descriptor_buffer_update) : Prop := {
  backed_bytes : pu_bytes u <> [];
  backed_source : PendingPayload (pu_type u) (pu_bytes u) ∈ got \/
    BufferPayload (pu_buffer_index u) (pu_offset u) (pu_type u) (pu_bytes u) ∈ seen;
  backed_new : descriptor_output_marking_exists existing (pu_buffer_index u) (pu_offset u) (pu_type u) = false
}.

Record descriptors_ok (got : list pending_descriptor_payload) (d : descriptor_state) : Prop := {
  do_payloads : forall p, p ∈ pending_descriptor_payloads d -> p ∈ got;
  do_emitted : Forall (backed got) (emitted_descriptor_buffer_updates d);
  do_pending : forall u, u ∈ pending_descriptor_buffer_updates d -> u ∈ emitted_descriptor_buffer_updates d;
  do_once : NoDup (emitted_descriptor_buffer_updates d);
  do_pending_once : NoDup (pending_descriptor_buffer_updates d);
  do_used : forall p, p ∈ used_descriptor_payloads d ->
    exists u, u ∈ emitted_descriptor_buffer_updates d /\ p = PendingPayload (pu_type u) (pu_bytes u)
}.

Lemma take_first_spec {A} (p : A -> bool) l x rest : take_first p l = Some (x, rest) ->
  p x = true /\ x ∈ l /\ forall y, y ∈ rest -> y ∈ l.
Proof.
  revert rest. induction l as [|a l IH]; intros rest E; [done|]. cbn [take_first] in E. destruct (p a) eqn:Ep.
  - injection E as -> ->. split; [done|]. split; [left|]. by right.
  - destruct (take_first p l) as [[y l']|]; [|done]. injection E as -> <-. destruct (IH l' eq_refl) as (H1 & H2 & H3).
    split; [done|]. split; [by right|]. intros z [->|Hz]%elem_of_cons; [left|right; by apply H3].
Qed.

Lemma find_unique_spec type l bytes : find_unique type l = Some bytes -> PendingPayload type bytes ∈ l.
Proof.
  induction l as [|p l IH]; intros E; [done|]. cbn [find_unique] in E. destruct (Z.eqb_spec (pp_type p) type) as [Et|Et]; cbn [negb] in E.
  - destruct (all_same type (pp_bytes p) l); [|done]. injection E as <-. destruct p. cbn [pp_type pp_bytes] in *. subst. left.
  - right. by apply IH.
Qed.

Lemma same_payload_true type bytes p : same_payload type bytes p = true <-> p = PendingPayload type bytes.
Proof.
  unfold same_payload. destruct p as [t b]. cbn [pp_type pp_bytes]. rewrite andb_true_iff, Z.eqb_eq, bool_decide_eq_true.
  split; [by intros [-> ->]|by injection 1].
Qed.

(** what may change of a state while a payload is chosen *)
Definition payloads_within (d d' : descriptor_state) : Prop :=
  (forall p, p ∈ pending_descriptor_payloads d' -> p ∈ pending_descriptor_payloads d) /\
  used_descriptor_payloads d' = used_descriptor_payloads d /\
  pending_descriptor_buffer_updates d' = pending_descriptor_buffer_updates d /\
  emitted_descriptor_buffer_updates d' = emitted_descriptor_buffer_updates d.

Lemma pop_spec type captured d bytes d' : pop_pending_descriptor_payload type captured d = Some (bytes, d') ->
  PendingPayload type bytes ∈ pending_descriptor_payloads d /\ payloads_within d d'.
Proof.
  unfold pop_pending_descriptor_payload. intros E. destruct (take_first _ _) as [[p rest]|] eqn:Ef; [|done]. injection E as <- <-.
  apply take_first_spec in Ef as (Hp & Hin & Hrest). assert (Ht : pp_type p = type).
  { destruct captured; [|by apply Z.eqb_eq]. apply same_payload_true in Hp. by rewrite Hp. }
  split; [by destruct p; cbn [pp_type pp_bytes] in *; subst|]. by repeat split.
Qed.

Lemma choose_payload_spec captured type d bytes d' : choose_payload captured type d = Some (bytes, d') ->
  PendingPayload type bytes ∈ pending_descriptor_payloads d /\ payloads_within d d'.
Proof.
  unfold choose_payload. intros E.
  destruct (match captured with Some b => find_pending_descriptor_payload type b d | None => None end) as [b|] eqn:E1.
  { injection E as <- <-. split; [|by repeat split]. destruct captured as [c|]; [|done]. unfold find_pending_descriptor_payload in E1.
    destruct (take_first _ _) as [[p rest]|] eqn:Ef; [|done]. injection E1 as <-. apply take_first_spec in Ef as (Hp & Hin & _).
    apply same_payload_true in Hp. by subst p. }
  destruct (find_unique_pending_descriptor_payload type d) as [b|] eqn:E2.
  { injection E as <- <-. split; [by apply find_unique_spec|by repeat split]. }
  destruct (pop_pending_descriptor_payload type captured d) as [[b d1]|] eqn:E3.
  { injection E as <- <-. by apply pop_spec in E3. }
  destruct captured; [by apply pop_spec in E|done].
Qed.

Lemma seen_bytes_spec buffer_index offset type : seen_bytes seen buffer_index offset type <> [] ->
  BufferPayload buffer_index offset type (seen_bytes seen buffer_index offset type) ∈ seen.
Proof.
  unfold seen_bytes. destruct (List.find _ seen) as [e|] eqn:E; [|done]. apply List.find_some in E as [Hin He].
  apply andb_prop in He as [He H3]. apply andb_prop in He as [H1 H2]. bool_to_prop.
  case_match; [|done]. intros _. apply list_elem_of_In. by destruct e; cbn [bp_buffer_index bp_offset bp_type bp_bytes] in *; subst.
Qed.

Lemma backed_more got more u : backed got u -> backed (got ++ more) u.
Proof. intros [B1 B2 B3]. split; [done| |done]. destruct B2 as [B2|B2]; [left; apply elem_of_app; by left|by right]. Qed.

Lemma ok_within got d d' : descriptors_ok got d -> payloads_within d d' -> descriptors_ok got d'.
Proof.
  intros [K1 K2 K3 K4 K5 K6] (W1 & W2 & W3 & W4). split; rewrite ?W2, ?W3, ?W4; try done. intros p Hp. by apply K1, W1.
Qed.

Lemma note_used_spec type bytes d p : p ∈ used_descriptor_payloads (note_used_descriptor_payload type bytes d) ->
  p ∈ used_descriptor_payloads d \/ p = PendingPayload type bytes.
Proof.
  unfold note_used_descriptor_payload. destruct (existsb _ _); [by left|]. cbn [with_used used_descriptor_payloads].
  rewrite elem_of_app, list_elem_of_singleton. done.
Qed.

Lemma note_used_others type bytes d : let d' := note_used_descriptor_payload type bytes d in
  pending_descriptor_payloads d' = pending_descriptor_payloads d /\
  pending_descriptor_buffer_updates d' = pending_descriptor_buffer_updates d /\
  emitted_descriptor_buffer_updates d' = emitted_descriptor_buffer_updates d.
Proof. unfold note_used_descriptor_payload. by destruct (existsb _ _). Qed.

Lemma add_update_ok got d u : descriptors_ok got d -> backed got u -> descriptor_buffer_update_already_queued u d = false ->
  descriptors_ok got (add_update u d).
Proof.
  intros [K1 K2 K3 K4 K5 K6] Hb Hq. unfold descriptor_buffer_update_already_queued in Hq. apply orb_false_iff in Hq as [_ Hq].
  assert (Hnew : u ∉ emitted_descriptor_buffer_updates d).
  { intros Hin. rewrite <- not_true_iff_false in Hq. apply Hq, existsb_exists. exists u. split; [by apply list_elem_of_In|].
    by apply bool_decide_eq_true. }
  unfold add_update. destruct (note_used_others (pu_type u) (pu_bytes u) d) as (N1 & N2 & N3).
  split; cbn [with_updates pending_descriptor_payloads used_descriptor_payloads pending_descriptor_buffer_updates
    emitted_descriptor_buffer_updates]; rewrite ?N1, ?N2, ?N3.
  - exact K1.
  - apply Forall_app. split; [exact K2|]. by constructor.
  - intros v [Hv| ->%list_elem_of_singleton]%elem_of_app; apply elem_of_app; [left; by apply K3|right; by apply list_elem_of_singleton].
  - apply NoDup_app. split; [exact K4|]. split; [|apply NoDup_singleton]. by intros v Hv ->%list_elem_of_singleton.
  - apply NoDup_app. split; [exact K5|]. split; [|apply NoDup_singleton]. intros v Hv ->%list_elem_of_singleton. by apply Hnew, K3.
  - intros p Hp. apply note_used_spec in Hp as [Hp| ->].
    + destruct (K6 p Hp) as (v & Hv & ->). exists v. split; [|done]. apply elem_of_app. by left.
    + exists u. split; [|done]. apply elem_of_app. right. by apply list_elem_of_singleton.
Qed.

Lemma queue_update_ok got buffers buffer_index offset type d d' : descriptors_ok got d ->
  queue_synthetic_descriptor_buffer_update buffers existing seen mutable_type buffer_index offset type d = Ok d' -> descriptors_ok got d'.
Proof.
  intros Hok E. unfold queue_synthetic_descriptor_buffer_update in E. apply obind_ok_inv in E as (resolved & _ & E).
  destruct (descriptor_output_marking_exists existing buffer_index offset resolved) eqn:Ex; [by injection E as <-|].
  apply obind_ok_inv in E as (found & E1 & E). destruct found as [[bytes d1]|]; [|by injection E as <-].
  assert (H1 : (bytes <> [] -> PendingPayload resolved bytes ∈ got \/ BufferPayload buffer_index offset resolved bytes ∈ seen) /\
    descriptors_ok got d1).
  { destruct (Nat.eqb (length (seen_bytes seen buffer_index offset resolved)) 0) eqn:En.
    - apply obind_ok_inv in E1 as (captured & _ & E1). injection E1 as E1. apply choose_payload_spec in E1 as [Hin Hw].
      split; [|by eapply ok_within]. intros _. left. by apply (do_payloads _ _ Hok).
    - injection E1 as <- <-. split; [|done]. intros Hne. right. by apply seen_bytes_spec. }
  destruct H1 as [Hsrc Hok1].
  destruct (Nat.eqb (length bytes) 0 || descriptor_buffer_update_already_queued _ d1) eqn:Eq; [by injection E as <-|]. injection E as <-.
  apply orb_false_iff in Eq as [Eb Eq]. assert (Hne : bytes <> []) by (intros ->; done).
  apply add_update_ok; [done| |done]. split; [done|by apply Hsrc|done].
Qed.

Lemma queue_offsets_ok got buffers buffer_index type offsets : forall d d', descriptors_ok got d ->
  queue_offsets buffers existing seen mutable_type buffer_index type offsets d = Ok d' -> descriptors_ok got d'.
Proof.
  induction offsets as [|o offsets IH]; intros d d' Hok E; cbn [queue_offsets] in E; [by injection E as <-|].
  apply obind_ok_inv in E as (d1 & E1 & E). apply queue_update_ok with (got := got) in E1; [|done]. by apply (IH d1).
Qed.

Lemma queue_bindings_ok got buffers layout_data buffer_index set_base binding_types : forall d d', descriptors_ok got d ->
  queue_bindings buffers existing seen mutable_type layout_data buffer_index set_base binding_types d = Ok d' -> descriptors_ok got d'.
Proof.
  induction binding_types as [|[b t] rest IH]; intros d d' Hok E; cbn [queue_bindings] in E; [by injection E as <-|].
  apply obind_ok_inv in E as (d1 & E1 & E). apply (IH d1 d'); [|done].
  unfold queue_synthetic_descriptor_buffer_binding_updates in E1. apply obind_ok_inv in E1 as (data & _ & E1).
  case_match; [by injection E1 as <-|]. apply obind_ok_inv in E1 as (found & _ & E1). by eapply queue_offsets_ok.
Qed.

Lemma note_sets_ok got buffers set_layouts layout_data first indices offsets n : forall i d d', descriptors_ok got d ->
  note_sets buffers existing seen mutable_type set_layouts layout_data first i n indices offsets d = Ok d' -> descriptors_ok got d'.
Proof.
  induction n as [|n IH]; intros i d d' Hok E; cbn [note_sets] in E; [by injection E as <-|].
  apply obind_ok_inv in E as (d1 & E1 & E). apply (IH (Datatypes.S i) d1 d'); [|done]. unfold note_set in E1.
  case_match; [by injection E1 as <-|]. apply obind_ok_inv in E1 as (index & _ & E1).
  case_match; [|by injection E1 as <-]. case_match; [by injection E1 as <-|]. apply obind_ok_inv in E1 as (set_offset & _ & E1).
  apply obind_ok_inv in E1 as (data & _ & E1). case_match; [by injection E1 as <-|]. case_match; [by injection E1 as <-|].
  case_match; [|done]. by eapply queue_bindings_ok.
Qed.

Lemma erase_used_ok got d : descriptors_ok got d -> descriptors_ok got (erase_used_descriptor_payloads d).
Proof.
  intros [K1 K2 K3 K4 K5 K6]. split; try done.
  - intros p Hp. apply K1. cbn in Hp. apply list_elem_of_In, filter_In in Hp as [Hp _]. by apply list_elem_of_In.
  - intros p Hp. cbn in Hp. by apply not_elem_of_nil in Hp.
Qed.

Lemma reached_ok got d : reached got d -> descriptors_ok got d.
Proof.
  induction 1 as [|got d info size p d' _ IH E|got d buffers n infos _ IH|got d d' buffers set_layouts layout first n indices offsets _ IH E
    |got d d' records records' w w' _ IH E].
  - split; simpl; try constructor; intros ? Hx; by apply not_elem_of_nil in Hx.
  - destruct IH as [K1 K2 K3 K4 K5 K6].
    assert (Hb : Forall (backed (got ++ obtained info size p)) (emitted_descriptor_buffer_updates d)).
    { eapply List.Forall_impl; [|exact K2]. intros u. apply backed_more. }
    unfold output_vkGetDescriptorEXT, obtained in *. destruct info as [type|], p as [memory|];
      try (injection E as <-; rewrite app_nil_r in *; by split).
    destruct (Nat.eqb size 0); [injection E as <-; rewrite app_nil_r in *; by split|].
    apply obind_ok_inv in E as (_ & _ & E). injection E as <-. split; try done. cbn [with_payloads pending_descriptor_payloads].
    intros q [Hq|Hq]%elem_of_app; apply elem_of_app; [left; by apply K1|by right].
  - by destruct IH.
  - unfold output_note_descriptor_buffer_offsets in E. destruct layout as [l|]; [|by injection E as <-]. by eapply note_sets_ok.
  - unfold flush_synthetic_descriptor_buffer_updates in E. destruct (pending_descriptor_buffer_updates d) as [|u l] eqn:El.
    + injection E as <- <- <-. by apply erase_used_ok.
    + apply obind_ok_inv in E as ([r1 w1] & _ & E). injection E as <- <- <-. apply erase_used_ok. destruct IH as [K1 K2 K3 K4 K5 K6].
      split; try done; cbn [with_updates pending_descriptor_buffer_updates]; [|constructor]. intros v Hv. by apply not_elem_of_nil in Hv.
Qed.
End History.

(** ** Properties *)

(** C35: at any time, whatever calls a thread made, every update that is queued holds
    bytes, which the device returned for a descriptor of its type or which the
    post-processor saw at its place, for a place that has no marking of its type yet; and no
    update is queued a second time, not even after it was written. *)
Theorem queued_descriptors_backed {S} `{PacketSink S, MarkingHeader} (existing : list descriptor_output_marking_key)
    (seen : list descriptor_buffer_payload) (mutable_type : Z) (got : list pending_descriptor_payload) (d : descriptor_state)
    (Hreached : reached (S := S) existing seen mutable_type got d) :
  (forall u, u ∈ pending_descriptor_buffer_updates d ->
     pu_bytes u <> [] /\
     (PendingPayload (pu_type u) (pu_bytes u) ∈ got \/
      BufferPayload (pu_buffer_index u) (pu_offset u) (pu_type u) (pu_bytes u) ∈ seen) /\
     descriptor_output_marking_exists existing (pu_buffer_index u) (pu_offset u) (pu_type u) = false /\
     u ∈ emitted_descriptor_buffer_updates d) /\
  NoDup (pending_descriptor_buffer_updates d) /\ NoDup (emitted_descriptor_buffer_updates d) /\
  (forall p, p ∈ pending_descriptor_payloads d -> p ∈ got) /\
  (forall p, p ∈ used_descriptor_payloads d ->
     exists u, u ∈ emitted_descriptor_buffer_updates d /\ p = PendingPayload (pu_type u) (pu_bytes u)).
Proof.
  destruct (reached_ok existing seen mutable_type got d Hreached) as [K1 K2 K3 K4 K5 K6]. split; [|done].
  intros u Hu. pose proof (K3 u Hu) as He. rewrite Forall_forall in K2. by destruct (K2 u He).
Qed.

(** ** A descriptor buffer *)

#[local] Existing Instance demo_header.

Definition demo_descriptor_a : list byte := [x0a; x0b; x0c; x0d].
Definition demo_descriptor_b : list byte := [x1a; x1b; x1c; x1d].

(** 64 bytes at address 4096; nothing of it can be read *)
Definition demo_buffers : list descriptor_buffer := [DescriptorBuffer 4096 64 false None].

Definition demo_set : descriptor_set_layout := SetLayout 16 [(0, 8)] [(0, 6)] [(0, 1)].

Definition demo_layout : pipeline_layout := PipelineLayout [] [0].

Definition demo_records : writer_records := [Some (demo_device, demo_object)].

Definition demo_get (bytes : list byte) (d : descriptor_state) : outcome descriptor_state :=
  output_vkGetDescriptorEXT (Some 6) 4 (Some bytes) d.

Definition demo_note (offset : Z) (d : descriptor_state) : outcome descriptor_state :=
  let d := output_vkCmdBindDescriptorBuffersEXT demo_buffers 1 (Some [(4096, 0)]) d in
  output_note_descriptor_buffer_offsets demo_buffers [] [] 42 [demo_set] (Some demo_layout) 0 1 (Some [0]) (Some [offset]) d.

(** what is queued for each submit when one descriptor after the other is copied to the
    same place *)
Fixpoint demo_submits (descriptors : list (list byte)) (d : descriptor_state) (w : demo_out_writer)
    : outcome (list (list pending_descriptor_buffer_update)) :=
  match descriptors with
  | [] => Ok []
  | bytes :: descriptors =>
      let* d := demo_get bytes d in
      let* d := demo_note 0 d in
      let queued := pending_descriptor_buffer_updates d in
      let* (res, w) := flush_synthetic_descriptor_buffer_updates (H := list_packets) d demo_records w in
      let* rest := demo_submits descriptors res.1 w in
      Ok (queued :: rest)
  end.

(** An update that was written once is not written again, even if another descriptor was
    written to its place in between: the replay is left with the second one. *)
Example old_descriptor_not_restored :
  demo_submits [demo_descriptor_a; demo_descriptor_b; demo_descriptor_a] no_descriptors demo_out_start =
  Ok [[PendingUpdate 0 8 6 demo_descriptor_a]; [PendingUpdate 0 8 6 demo_descriptor_b]; []].
Proof. vm_compute. reflexivity. Qed.

(** A set at the end of its buffer gets an update behind it when only one descriptor of
    the type is known. *)
Example update_beyond_buffer :
  (let* d := demo_get demo_descriptor_a no_descriptors in
   let* d := demo_note 56 d in
   Ok (pending_descriptor_buffer_updates d)) = Ok [PendingUpdate 0 64 6 demo_descriptor_a].
Proof. vm_compute. reflexivity. Qed.

(** Two descriptors for the same place before one submit end the program. *)
Example overlapping_updates_abort :
  (let* d := demo_get demo_descriptor_a no_descriptors in
   let* d := demo_note 0 d in
   let* d := demo_get demo_descriptor_b (erase_used_descriptor_payloads d) in
   let* d := demo_note 0 d in
   let* (res, w) := flush_synthetic_descriptor_buffer_updates (H := list_packets) d demo_records demo_out_start in
   Ok (pending_descriptor_buffer_updates res.1)) = Fail AbortCall.
Proof. vm_compute. reflexivity. Qed.

Definition demo_descriptor_state (r : outcome descriptor_state) : descriptor_state :=
  match r with Ok d => d | Fail _ => no_descriptors end.

Definition demo_got : descriptor_state := demo_descriptor_state (demo_get demo_descriptor_a no_descriptors).
Definition demo_queued : descriptor_state := demo_descriptor_state (demo_note 0 demo_got).

Lemma demo_reached : reached (S := list byte) (H := list_packets) [] [] 42 [PendingPayload 6 demo_descriptor_a] demo_queued.
Proof.
  eapply (reached_offsets (H := list_packets) [] [] 42 _ (output_vkCmdBindDescriptorBuffersEXT demo_buffers 1 (Some [(4096, 0)]) demo_got)
    _ demo_buffers [demo_set] (Some demo_layout) 0 1 (Some [0]) (Some [0])); [|vm_compute; reflexivity].
  apply reached_bind. apply (reached_get (H := list_packets) [] [] 42 [] no_descriptors (Some 6) 4 (Some demo_descriptor_a)); [constructor|].
  vm_compute. reflexivity.
Qed.

Lemma queued_descriptors_backed_witness :
  (forall u, u ∈ pending_descriptor_buffer_updates demo_queued ->
     pu_bytes u <> [] /\
     (PendingPayload (pu_type u) (pu_bytes u) ∈ [PendingPayload 6 demo_descriptor_a] \/
      BufferPayload (pu_buffer_index u) (pu_offset u) (pu_type u) (pu_bytes u) ∈ []) /\
     descriptor_output_marking_exists [] (pu_buffer_index u) (pu_offset u) (pu_type u) = false /\
     u ∈ emitted_descriptor_buffer_updates demo_queued) /\
  NoDup (pending_descriptor_buffer_updates demo_queued) /\ NoDup (emitted_descriptor_buffer_updates demo_queued) /\
  (forall p, p ∈ pending_descriptor_payloads demo_queued -> p ∈ [PendingPayload 6 demo_descriptor_a]) /\
  (forall p, p ∈ used_descriptor_payloads demo_queued ->
     exists u, u ∈ emitted_descriptor_buffer_updates demo_queued /\ p = PendingPayload (pu_type u) (pu_bytes u)).
Proof. exact (queued_descriptors_backed (H := list_packets) [] [] 42 [PendingPayload 6 demo_descriptor_a] demo_queued demo_reached). Defined.
