(* ===== verification/DescriptorUpdates.v ===== *)
(** * The packets of descriptor updates (src/tool.cpp)

    What [flush_synthetic_descriptor_buffer_updates] writes: the queued updates of each
    descriptor buffer as one update of the buffer, whose diff and markings are made of
    the updates alone, and what the replay makes of such an update. *)

From Stdlib Require Import ZArith Lia Bool.
From Stdlib.Strings Require Import Byte.
From stdpp Require Import base numbers list sorting gmap.
From S2P Require Import Prelude Stream RangeTracking Patch Memory FileWriter FileReader RandomAccess Packets Containers Markings Translate Updates Output Descriptors.

#[local] Open Scope Z_scope.

(** ** What the packets hold *)

Definition entry_of `{MarkingHeader} (u : pending_descriptor_buffer_update) : marking :=
  Marking (pu_offset u) VK_MARKING_TYPE_DESCRIPTOR_ARM (pu_type u).

Fixpoint runs_of (cursor : Z) (sorted : list pending_descriptor_buffer_update) : list (Z * list byte) :=
  match sorted with
  | [] => []
  | u :: sorted => (wrap32 (pu_offset u - cursor), pu_bytes u) :: runs_of (update_end u) sorted
  end.

Definition patch_of (updates : list pending_descriptor_buffer_update) : list byte :=
  concat (map encode_run (runs_of 0 (merge_sort by_offset updates))) ++ patch_terminator.

(** an update of memory that has [limit] bytes *)
Definition update_ok (limit : Z) (u : pending_descriptor_buffer_update) : Prop :=
  pu_bytes u <> [] /\ 0 <= pu_offset u /\ update_end u <= limit /\ 0 <= pu_type u < 2 ^ 32.

Definition disjoint (u v : pending_descriptor_buffer_update) : Prop :=
  update_end u <= pu_offset v \/ update_end v <= pu_offset u.

(** updates that follow each other *)
Fixpoint chained (cursor : Z) (sorted : list pending_descriptor_buffer_update) : Prop :=
  match sorted with
  | [] => True
  | u :: sorted => cursor <= pu_offset u /\ chained (update_end u) sorted
  end.

#[export] Instance chained_dec cursor sorted : Decision (chained cursor sorted).
Proof. revert cursor. induction sorted; intros cursor; simpl; apply _. Defined.

Lemma update_end_pos limit u : update_ok limit u -> pu_offset u < update_end u.
Proof. intros (Hb & _). unfold update_end. destruct (pu_bytes u); [done|]. simpl. lia. Qed.

Lemma chained_all limit sorted : forall cursor, Forall (update_ok limit) sorted -> chained cursor sorted ->
  Forall (fun u => cursor <= pu_offset u) sorted.
Proof.
  induction sorted as [|u sorted IH]; intros cursor Hok Hc; [constructor|]. apply Forall_cons in Hok as [Hu Hok].
  destruct Hc as [Hc Hr]. constructor; [done|]. pose proof (update_end_pos _ _ Hu).
  eapply List.Forall_impl; [|by apply IH]. intros v Hv. simpl in Hv. lia.
Qed.

(** updates that were sorted follow each other if and only if no two overlap *)
Lemma chained_disjoint limit sorted : StronglySorted by_offset sorted -> Forall (update_ok limit) sorted ->
  forall cursor, Forall (fun u => cursor <= pu_offset u) sorted ->
  chained cursor sorted <-> List.ForallOrdPairs disjoint sorted.
Proof.
  induction 1 as [|u sorted Hs IH Hu]; intros Hok cursor Hc; [by split; constructor|].
  apply Forall_cons in Hok as [Hok1 Hok]. apply Forall_cons in Hc as [Hc1 Hc]. cbn [chained]. split.
  - intros [_ Hr]. pose proof (chained_all limit _ _ Hok Hr) as Hall. constructor.
    + eapply List.Forall_impl; [|exact Hall]. intros v Hv. by left.
    + by apply (IH Hok (update_end u)).
  - intros Hp. inversion Hp as [|? ? Hd Hp']; subst. split; [done|].
    apply (IH Hok (update_end u)); [|done]. rewrite Forall_forall in *. intros v Hv.
    pose proof (update_end_pos _ _ (Hok v Hv)). specialize (Hu v Hv). unfold by_offset in Hu. destruct (Hd v Hv); lia.
Qed.

Section BodyProofs.
Context {W : Type} `{ByteSink W}.

Lemma emits_sorted limit sorted : forall cursor, limit <= UINT32_MAX -> 0 <= cursor -> Forall (update_ok limit) sorted ->
  chained cursor sorted ->
  emits (write_sorted cursor sorted) (concat (map encode_run (runs_of cursor sorted)) ++ patch_terminator).
Proof.
  induction sorted as [|u sorted IH]; intros cursor Hl Hc Hok Hch; cbn [write_sorted runs_of map concat]; [apply emits_terminator|].
  apply Forall_cons in Hok as [Hu Hok]. destruct Hch as [Hcu Hch]. pose proof (update_end_pos _ _ Hu). destruct Hu as (_ & Hu0 & Hul & _).
  rewrite (proj2 (Z.ltb_ge _ _)) by lia. cbn [negb require obind]. unfold encode_run at 1. cbn [fst snd]. rewrite <- !app_assoc.
  apply emits_bind; [apply emits_value; lia|]. apply emits_bind; [apply emits_value; lia|].
  apply emits_bind; [apply emits_array; unfold update_end in *; u_lia|]. rewrite wrap64_small by u_lia. apply IH; (done || lia).
Qed.

Lemma overlap_aborts limit sorted : forall cursor s, limit <= UINT32_MAX -> 0 <= cursor -> Forall (update_ok limit) sorted ->
  ~ chained cursor sorted -> sink_ok s -> write_sorted cursor sorted s = Fail AbortCall.
Proof.
  induction sorted as [|u sorted IH]; intros cursor s Hl Hc Hok Hch Hs; [by destruct Hch|]. cbn [write_sorted].
  apply Forall_cons in Hok as [Hu Hok]. pose proof (update_end_pos _ _ Hu). destruct Hu as (_ & Hu0 & Hul & _).
  destruct (Z.ltb_spec (pu_offset u) cursor) as [Hlt|Hge]; [done|]. cbn [negb require obind].
  destruct (emits_value 4 (wrap32 (pu_offset u - cursor)) ltac:(lia) s Hs) as (s1 & E1 & Hs1 & _).
  destruct (emits_value 4 (wrap32 (Z.of_nat (length (pu_bytes u)))) ltac:(lia) s1 Hs1) as (s2 & E2 & Hs2 & _).
  destruct (emits_array (pu_bytes u) ltac:(unfold update_end in *; u_lia) s2 Hs2) as (s3 & E3 & Hs3 & _).
  unfold write_uint32_t. rewrite E1. cbn [obind]. rewrite E2. cbn [obind]. rewrite E3. cbn [obind].
  rewrite wrap64_small by u_lia. apply IH; try (done || lia). intros Hr. apply Hch. by split.
Qed.
End BodyProofs.

(** ** Reading a group back *)

Lemma runs_of_ok limit sorted : forall cursor, limit <= UINT32_MAX -> 0 <= cursor -> Forall (update_ok limit) sorted ->
  chained cursor sorted -> runs_ok (Z.to_nat cursor) (Z.to_nat limit) (runs_of cursor sorted).
Proof.
  induction sorted as [|u sorted IH]; intros cursor Hl Hc Hok Hch; cbn [runs_of runs_ok]; [done|].
  apply Forall_cons in Hok as [Hu Hok]. destruct Hch as [Hcu Hch]. pose proof (update_end_pos _ _ Hu). destruct Hu as (Hb & Hu0 & Hul & _).
  assert (E : wrap32 (pu_offset u - cursor) = pu_offset u - cursor) by (apply wrap32_small; u_lia). rewrite E.
  assert (En : (Z.to_nat cursor + Z.to_nat (pu_offset u - cursor) + length (pu_bytes u))%nat = Z.to_nat (update_end u)).
  { unfold update_end. rewrite Z2Nat.inj_add, Nat2Z.id by lia. rewrite <- Z2Nat.inj_add by lia. f_equal. f_equal. lia. }
  rewrite En. split; [u_lia|]. split; [done|]. split; [lia|]. apply IH; (done || lia).
Qed.

(** the bytes of an update are in the memory *)
Definition stored (mem : list byte) (offset : Z) (bs : list byte) : Prop :=
  forall k, (k < length bs)%nat -> mem !! (Z.to_nat offset + k)%nat = bs !! k.

Definition holds (mem : list byte) (u : pending_descriptor_buffer_update) : Prop := stored mem (pu_offset u) (pu_bytes u).

Definition untouched (updates : list pending_descriptor_buffer_update) (i : nat) : Prop :=
  Forall (fun u => Z.of_nat i < pu_offset u \/ update_end u <= Z.of_nat i) updates.

Lemma apply_runs_of limit sorted : forall cursor mem, limit <= UINT32_MAX -> 0 <= cursor -> Forall (update_ok limit) sorted ->
  chained cursor sorted -> limit <= Z.of_nat (length mem) ->
  let after := apply_runs (runs_of cursor sorted) (Z.to_nat cursor) mem in
  length after = length mem /\ Forall (holds after) sorted /\ forall i, untouched sorted i -> after !! i = mem !! i.
Proof.
  induction sorted as [|u sorted IH]; intros cursor mem Hl Hc Hok Hch Hm; cbn [runs_of apply_runs]; [done|].
  apply Forall_cons in Hok as [Hu Hok]. destruct Hch as [Hcu Hch]. pose proof (update_end_pos _ _ Hu) as Hpos.
  destruct Hu as (Hb & Hu0 & Hul & _).
  assert (E : wrap32 (pu_offset u - cursor) = pu_offset u - cursor) by (apply wrap32_small; u_lia). rewrite E.
  replace (Z.to_nat cursor + Z.to_nat (pu_offset u - cursor))%nat with (Z.to_nat (pu_offset u)) by lia.
  assert (En : (Z.to_nat (pu_offset u) + length (pu_bytes u))%nat = Z.to_nat (update_end u)) by (unfold update_end in *; lia).
  set (mem1 := memcpy mem (Z.to_nat (pu_offset u)) (pu_bytes u)).
  assert (Hl1 : length mem1 = length mem) by (apply length_memcpy; lia). rewrite En.
  destruct (IH (update_end u) mem1 Hl ltac:(lia) Hok Hch ltac:(lia)) as (L & Hh & Ht).
  set (after := apply_runs _ _ mem1) in *. split; [lia|]. pose proof (chained_all limit _ _ Hok Hch) as Hall.
  assert (Hother : forall i, (i < Z.to_nat (update_end u))%nat -> untouched sorted i).
  { intros i Hi. eapply List.Forall_impl; [|exact Hall]. intros v Hv. simpl in Hv. left. lia. }
  split.
  - constructor; [|exact Hh]. intros k Hk. rewrite Ht by (apply Hother; lia). unfold mem1. rewrite memcpy_lookup by lia.
    rewrite decide_True by lia. f_equal. lia.
  - intros i Hi. apply Forall_cons in Hi as [Hi1 Hi]. rewrite Ht by done. unfold mem1. rewrite memcpy_lookup by lia.
    rewrite decide_False; [done|]. lia.
Qed.

Lemma runs_of_bytes limit sorted : forall cursor, 0 <= cursor <= limit -> Forall (update_ok limit) sorted -> chained cursor sorted ->
  0 <= runs_bytes (runs_of cursor sorted) <= limit - cursor.
Proof.
  unfold runs_bytes. induction sorted as [|u sorted IH]; intros cursor Hc Hok Hch; [simpl; lia|].
  apply Forall_cons in Hok as [Hu Hok]. destruct Hch as [Hcu Hch]. pose proof (update_end_pos _ _ Hu) as Hpos.
  destruct Hu as (_ & Hu0 & Hul & _). specialize (IH (update_end u) ltac:(lia) Hok Hch). cbn [runs_of map list_sum fold_right snd].
  unfold update_end in *. change (fold_right Nat.add 0%nat ?l) with (list_sum l). lia.
Qed.

Lemma sorted_updates limit updates : Forall (update_ok limit) updates ->
  let sorted := merge_sort by_offset updates in
  StronglySorted by_offset sorted /\ Forall (update_ok limit) sorted /\ Forall (fun u => 0 <= pu_offset u) sorted /\ sorted ≡ₚ updates.
Proof.
  intros Hok sorted. assert (Hp : sorted ≡ₚ updates) by apply merge_sort_Permutation.
  assert (Hok' : Forall (update_ok limit) sorted) by (by rewrite Hp).
  split; [|split; [done|split; [|done]]].
  - apply (StronglySorted_merge_sort by_offset).
  - eapply List.Forall_impl; [|exact Hok']. by intros u (_ & Hu & _).
Qed.

Lemma disjoint_sym u v : disjoint u v -> disjoint v u.
Proof. intros [H|H]; [by right|by left]. Qed.

Lemma chained_sorted limit updates : Forall (update_ok limit) updates ->
  chained 0 (merge_sort by_offset updates) <-> List.ForallOrdPairs disjoint updates.
Proof.
  intros Hok. destruct (sorted_updates limit updates Hok) as (Hs & Hok' & H0 & Hp).
  rewrite (chained_disjoint limit _ Hs Hok' 0 H0).
  split; apply pairs_perm; (exact disjoint_sym || done).
Qed.

Section MarkingProofs.
Context `{MarkingHeader}.

Lemma update_markings_ok limit updates : u32 VK_MARKING_TYPE_DESCRIPTOR_ARM -> Forall (update_ok limit) updates -> limit <= UINT32_MAX ->
  8 * Z.of_nat (length updates) <= UINT32_MAX ->
  marked (update_markings updates) /\ writable_markings (update_markings updates) /\
  marks (update_markings updates) = map entry_of updates /\ Forall word_marking (marks (update_markings updates)).
Proof.
  intros Ht Hok Hl Hn. assert (Hc : count (update_markings updates) = Z.of_nat (length updates)) by (apply wrap32_small; u_lia).
  assert (Hm : marks (update_markings updates) = map entry_of updates).
  { unfold marks, update_markings in *. cbn [count pOffsets pMarkingTypes pSubTypes] in *. rewrite Hc, Nat2Z.id.
    rewrite !take_ge by (by rewrite length_map). rewrite <- (zip_markings_maps (map entry_of updates)). by rewrite !map_map. }
  split; [|split; [|split; [done|]]].
  - split; [done|]. split; [rewrite Hc; u_lia|]. right. eexists _, _, _. do 3 (split; [reflexivity|]). rewrite !length_map. lia.
  - split; [done|]. rewrite Hc. unfold update_markings, array_fits. cbn [pOffsets pMarkingTypes pSubTypes]. rewrite !length_map. lia.
  - rewrite Hm. apply List.Forall_map. eapply List.Forall_impl; [|exact Hok]. intros u Hu. pose proof (update_end_pos _ _ Hu).
    destruct Hu as (_ & H1 & H2 & H3). unfold entry_of, word_marking. cbn [mk_offset mk_type mk_sub]. split; [u_lia|]. split; [u_lia|lia].
Qed.
End MarkingProofs.

(** ** Writing a group *)

Section PacketProofs.
Context {S : Type} `{PacketSink S} `{MarkingHeader}.

Definition update_packet (device buffer : trackable) (updates : list pending_descriptor_buffer_update) : packet :=
  (PACKET_BUFFER_UPDATE2,
   update_body device buffer (Some (update_markings updates)) (encode_extension (update_markings updates)) (patch_of updates)).

(** the synthetic updates are framed like the updates of the capture *)
Lemma write_packet_framed buffer_index u updates records device buffer (w : lava_file_writer S) :
  records !! Z.to_nat buffer_index = Some (Some (device, buffer)) -> h_type buffer = VK_OBJECT_TYPE_BUFFER ->
  write_descriptor_buffer_update_packet buffer_index (u :: updates) records w =
    let* (pp, w) := begin_object_update_packet write_marked_offsets_extension device buffer (Some (update_markings (u :: updates))) w in
    let* w := writing (write_sorted 0 (merge_sort by_offset (u :: updates))) w in
    let* (o, w) := end_object_update_packet buffer pp.1 pp.2 (written_bytes (u :: updates)) w in
    Ok (<[Z.to_nat buffer_index := Some (device, o)]> records, w).
Proof.
  intros Hr Ht. unfold write_descriptor_buffer_update_packet, begin_object_update_packet, end_object_update_packet. rewrite Hr, Ht.
  cbn [update_type obind].
  destruct (begin_packet PACKET_BUFFER_UPDATE2 w) as [w1|]; [|done]. cbn [obind].
  destruct (writing _ w1) as [w2|]; [|done]. cbn [obind]. destruct (writing _ w2) as [w3|]; [|done]. cbn [obind].
  destruct (write_later_uint64_t 0 (stream w3)) as [[q s]|]; [|done]. cbn [obind].
  destruct (writing _ (with_stream w3 s)) as [w5|]; [|done]. cbn [obind]. destruct (writing _ w5) as [w6|]; [|done]. cbn [obind fst snd].
  destruct (writing _ w6) as [w7|]; [|done]. cbn [obind]. destruct (store_at _ _ _) as [s8|]; [|done]. cbn [obind].
  destruct (end_packet _) as [w9|]; done.
Qed.

Context (limit : Z) (Hlimit : limit <= UINT32_MAX).

Definition record_ok (entry : trackable * hostobject) : Prop :=
  usable (Some entry.1) = true /\ usable (Some (h_base entry.2)) = true /\ h_type entry.2 = VK_OBJECT_TYPE_BUFFER.

(** what [writer_records] has of a group *)
Definition group_known (records : writer_records) (group : Z * list pending_descriptor_buffer_update) : Prop :=
  exists entry, records !! Z.to_nat group.1 = Some (Some entry) /\ record_ok entry /\ group.2 <> [] /\
    Forall (update_ok limit) group.2 /\ 8 * Z.of_nat (length group.2) <= UINT32_MAX.

Definition group_packet (records : writer_records) (group : Z * list pending_descriptor_buffer_update) : packet :=
  match records !! Z.to_nat group.1 with
  | Some (Some (device, buffer)) => update_packet device (h_base buffer) group.2
  | _ => (0, [])
  end.

Definition count_group (records : writer_records) (group : Z * list pending_descriptor_buffer_update) : writer_records :=
  match records !! Z.to_nat group.1 with
  | Some (Some (device, buffer)) => <[Z.to_nat group.1 := Some (device, count_update buffer (written_bytes group.2))]> records
  | _ => records
  end.

Lemma count_group_lookup records group i device buffer : records !! i = Some (Some (device, buffer)) ->
  exists buffer', count_group records group !! i = Some (Some (device, buffer')) /\ h_base buffer' = h_base buffer /\ h_type buffer' = h_type buffer.
Proof.
  intros Hi. unfold count_group. destruct (records !! Z.to_nat group.1) as [[[device' buffer1]|]|] eqn:E; try (by exists buffer).
  destruct (decide (i = Z.to_nat group.1)) as [->|Hn].
  - rewrite Hi in E. injection E as <- <-. rewrite list_lookup_insert_eq by (by eapply lookup_lt_Some). by eexists.
  - rewrite list_lookup_insert_ne by done. by exists buffer.
Qed.

Lemma count_group_known records group group' : group_known records group' -> group_known (count_group records group) group'.
Proof.
  intros ([device buffer] & Hl & (U1 & U2 & U3) & Hrest). destruct (count_group_lookup records group _ _ _ Hl) as (b' & Hl' & Eb & Et).
  exists (device, b'). split; [done|]. split; [|done]. cbn [record_ok fst snd] in *. unfold record_ok. cbn [fst snd]. by rewrite Eb, Et.
Qed.

Lemma count_group_packet records group group' : group_known records group' ->
  group_packet (count_group records group) group' = group_packet records group'.
Proof.
  intros ([device buffer] & Hl & _). destruct (count_group_lookup records group _ _ _ Hl) as (b' & Hl' & Eb & Et).
  unfold group_packet. by rewrite Hl, Hl', Eb.
Qed.

Lemma fits_grows (l : list packet) p : fits (l ++ [p]) -> Z.of_nat (length p.2) >= 26 -> Z.of_nat (length (stream_of l)) + 31 <= UINT64_MAX.
Proof.
  intros (_ & Hf & _) Hp. rewrite stream_of_app, stream_of_one, length_app, length_packet_bytes in Hf. lia.
Qed.

Lemma length_update_packet device buffer updates : (26 <= length (update_packet device buffer updates).2)%nat.
Proof. cbn [update_packet snd]. unfold update_body. rewrite !length_app, !length_encode_handle, !length_le_encode. lia. Qed.

(** what is open when the bytes of the group are written *)
Lemma group_started group records (w : lava_file_writer S) done :
  packet_inv w done None -> group_known records group -> fits (done ++ [group_packet records group]) ->
  exists device buffer u rest pp w1, records !! Z.to_nat group.1 = Some (Some (device, buffer)) /\ group.2 = u :: rest /\
    h_type buffer = VK_OBJECT_TYPE_BUFFER /\
    begin_object_update_packet write_marked_offsets_extension device buffer (Some (update_markings group.2)) w = Ok (pp, w1) /\
    pp.2 = Z.of_nat (length (stream_of done) + 31) /\ holds_place pp.1 (length (stream_of done) + 23) w1 /\ same_settings w w1 /\
    packet_inv w1 done (Some (PACKET_BUFFER_UPDATE2, update_handles device buffer ++ le_encode 8 0 ++
      le_encode 2 PACKET_FLAG_HAS_PNEXT ++ encode_extension (update_markings group.2))).
Proof.
  intros Hi ([device buffer] & Hl & (U1 & U2 & U3) & Hne & Hok & Hn) Hf. unfold group_packet in Hf. rewrite Hl in Hf. cbn [fst snd] in *.
  destruct group as [i g]. cbn [fst snd] in *. destruct g as [|u rest]; [done|].
  assert (Hm : writable_markings (update_markings (u :: rest))).
  { split; [done|]. assert (Hc : count (update_markings (u :: rest)) = Z.of_nat (length (u :: rest))) by (apply wrap32_small; u_lia).
    rewrite Hc. unfold update_markings, array_fits. cbn [pOffsets pMarkingTypes pSubTypes]. rewrite !length_map. lia. }
  destruct (begin_update_spec write_marked_offsets_extension device buffer (Some (update_markings (u :: rest)))
    (encode_extension (update_markings (u :: rest))) PACKET_BUFFER_UPDATE2 w done None Hi) as (q & w1 & E & Hi1 & Hq & S1); try done.
  - cbn [close]. by apply fits_prefix in Hf.
  - cbn [close]. apply (fits_grows _ _ Hf). pose proof (length_update_packet device (h_base buffer) (u :: rest)). lia.
  - by rewrite U3.
  - intros F keep. exact (@emits_extension _ (framed_sink F keep) _ _ Hm).
  - exists device, buffer, u, rest, (q, Z.of_nat (length (stream_of done) + 31)), w1. split; [done|]. split; [done|]. split; [done|].
    split; [exact E|]. split; [done|]. split; [exact Hq|]. split; [done|]. exact Hi1.
Qed.

Lemma group_written group records (w : lava_file_writer S) done :
  packet_inv w done None -> group_known records group -> fits (done ++ [group_packet records group]) ->
  List.ForallOrdPairs disjoint group.2 ->
  exists w', write_descriptor_buffer_update_packet group.1 group.2 records w = Ok (count_group records group, w') /\
    packet_inv w' (done ++ [group_packet records group]) None /\ same_settings w w'.
Proof.
  intros Hi Hk Hf Hd. destruct (group_started group records w done Hi Hk Hf)
    as (device & buffer & u & rest & [q start] & w1 & Hl & Eg & Ht & E & Es & Hq & S1 & Hi1).
  destruct Hk as (_ & _ & _ & _ & Hok & _). apply (chained_sorted limit _ Hok) in Hd.
  destruct (sorted_updates limit _ Hok) as (_ & Hok' & _ & _). cbn [fst snd] in *.
  unfold group_packet, count_group in *. rewrite Hl in *. rewrite Eg in * |-. rewrite Eg.
  rewrite (write_packet_framed _ u rest records device buffer w Hl Ht). rewrite E. cbn [obind fst snd].
  destruct (writing_framed w1 done _ _ (write_sorted 0 (merge_sort by_offset (u :: rest))) (patch_of (u :: rest)) q (length (stream_of done) + 23) Hi1) as (w2 & E2 & Hi2 & Hq2 & S2).
  { intros F keep. apply (@emits_sorted _ (framed_sink F keep) limit); (done || lia). }
  { exact Hq. }
  rewrite E2. cbn [obind]. subst start.
  destruct (end_update_spec buffer q (written_bytes (u :: rest)) PACKET_BUFFER_UPDATE2 (update_handles device buffer)
    (le_encode 2 PACKET_FLAG_HAS_PNEXT ++ encode_extension (update_markings (u :: rest)) ++ patch_of (u :: rest)) w2 done) as (w' & E3 & Hi3 & S3).
  - by rewrite <- !app_assoc in Hi2.
  - unfold update_handles. by rewrite length_app, !length_encode_handle.
  - exact Hq2.
  - exact Hf.
  - rewrite E3. cbn [obind]. exists w'. split; [done|]. split; [exact Hi3|]. by repeat (eapply same_settings_trans; [eassumption|]).
Qed.

Lemma group_refused group records (w : lava_file_writer S) done :
  packet_inv w done None -> group_known records group -> fits (done ++ [group_packet records group]) ->
  ~ List.ForallOrdPairs disjoint group.2 ->
  write_descriptor_buffer_update_packet group.1 group.2 records w = Fail AbortCall.
Proof.
  intros Hi Hk Hf Hd. destruct (group_started group records w done Hi Hk Hf)
    as (device & buffer & u & rest & [q start] & w1 & Hl & Eg & Ht & E & Es & Hq & S1 & Hi1).
  destruct Hk as (_ & _ & _ & _ & Hok & _). rewrite <- (chained_sorted limit _ Hok) in Hd.
  destruct (sorted_updates limit _ Hok) as (_ & Hok' & _ & _). rewrite Eg in *. cbn [fst snd] in *.
  rewrite (write_packet_framed _ u rest records device buffer w Hl Ht). rewrite E. cbn [obind fst snd]. unfold writing.
  rewrite (overlap_aborts limit); [done|done|lia|done|done|]. apply (pi_ok _ _ _ Hi1).
Qed.
End PacketProofs.

(** ** Groups of a flush *)

Abbreviation update_group := (Z * list pending_descriptor_buffer_update)%type.

(** neighbours of the same buffer *)
Fixpoint groups_of (l : list pending_descriptor_buffer_update) : list update_group :=
  match l with
  | [] => []
  | u :: l =>
      match groups_of l with
      | (i, g) :: groups => if pu_buffer_index u =? i then (i, u :: g) :: groups else (pu_buffer_index u, [u]) :: (i, g) :: groups
      | [] => [(pu_buffer_index u, [u])]
      end
  end.

(** a group that was begun, in front of others *)
Definition add_group (i : Z) (g : list pending_descriptor_buffer_update) (groups : list update_group) : list update_group :=
  match g with
  | [] => groups
  | _ =>
      match groups with
      | (j, h) :: rest => if i =? j then (i, g ++ h) :: rest else (i, g) :: groups
      | [] => [(i, g)]
      end
  end.

Lemma groups_of_cons u l : groups_of (u :: l) = add_group (pu_buffer_index u) [u] (groups_of l).
Proof. cbn [groups_of add_group]. destruct (groups_of l) as [|[i g] rest]; [done|]. case_match eqn:E; [|done]. bool_to_prop. by subst i. Qed.

Lemma add_group_same i g h groups : add_group i g (add_group i h groups) = add_group i (g ++ h) groups.
Proof.
  destruct h as [|y h]; [by rewrite app_nil_r|]. destruct g as [|x g]; [done|]. cbn [add_group app].
  destruct groups as [|[j k] rest]; [by rewrite Z.eqb_refl|]. destruct (Z.eqb_spec i j) as [->|Hn]; rewrite Z.eqb_refl; [|done].
  by rewrite <- !app_assoc.
Qed.

Lemma add_group_other i g u groups : i <> pu_buffer_index u ->
  add_group i g (add_group (pu_buffer_index u) [u] groups) =
    match g with [] => add_group (pu_buffer_index u) [u] groups | _ => (i, g) :: add_group (pu_buffer_index u) [u] groups end.
Proof.
  intros Hn. destruct g as [|x g]; [done|]. cbn [add_group].
  destruct groups as [|[j k] rest]; [by rewrite (proj2 (Z.eqb_neq _ _)) by done|].
  destruct (Z.eqb_spec (pu_buffer_index u) j) as [<-|Hj]; by rewrite (proj2 (Z.eqb_neq _ _)) by done.
Qed.

Lemma concat_add_group i g groups : concat (map snd (add_group i g groups)) = g ++ concat (map snd groups).
Proof.
  destruct g as [|x g]; [done|]. cbn [add_group]. destruct groups as [|[j h] rest]; [done|].
  case_match; cbn [map concat snd]; [by rewrite <- app_assoc|done].
Qed.

Lemma groups_of_concat l : concat (map snd (groups_of l)) = l.
Proof. induction l as [|u l IH]; [done|]. by rewrite groups_of_cons, concat_add_group, IH. Qed.

(** every group has updates of its buffer only, and there is one for each buffer *)
Definition grouped (groups : list update_group) : Prop :=
  StronglySorted Z.lt (map fst groups) /\
  Forall (fun g : update_group => g.2 <> [] /\ Forall (fun u => pu_buffer_index u = g.1) g.2) groups.

Lemma groups_of_spec l : StronglySorted by_buffer l -> grouped (groups_of l).
Proof.
  induction 1 as [|u l Hs [IH1 IH2] Hu]; [by split; constructor|]. rewrite groups_of_cons. cbn [add_group].
  pose proof (groups_of_concat l) as Hc. destruct (groups_of l) as [|[i g] rest]; [by split; repeat constructor|].
  apply Forall_cons in IH2 as [[Hg1 Hg2] IH2]. cbn [fst snd map concat] in *.
  destruct (Z.eqb_spec (pu_buffer_index u) i) as [<-|Hn].
  { split; [exact IH1|]. constructor; [|done]. split; [done|]. by constructor. }
  split; [|by constructor; [split; [|constructor]|constructor]]. cbn [map fst]. constructor; [exact IH1|]. inversion IH1 as [|? ? H1 H2]; subst.
  assert (Hi : pu_buffer_index u < i).
  { destruct g as [|v g]; [done|]. apply Forall_cons in Hg2 as [Hv _]. cbn [fst] in Hv.
    cbn [app] in Hu. apply Forall_cons in Hu as [Hu _]. unfold by_buffer in Hu. lia. }
  constructor; [exact Hi|]. eapply List.Forall_impl; [|exact H2]. intros j Hj. simpl in Hj. lia.
Qed.

(** two updates that do not overlap in any buffer *)
Definition updates_apart (u v : pending_descriptor_buffer_update) : Prop := pu_buffer_index u <> pu_buffer_index v \/ disjoint u v.

Lemma updates_apart_sym u v : updates_apart u v -> updates_apart v u.
Proof. intros [Hn|Hd]; [left; congruence|right; by apply disjoint_sym]. Qed.

Lemma pairs_app {A} (P : A -> A -> Prop) l1 l2 : List.ForallOrdPairs P (l1 ++ l2) <->
  List.ForallOrdPairs P l1 /\ List.ForallOrdPairs P l2 /\ Forall (fun x => Forall (P x) l2) l1.
Proof.
  induction l1 as [|x l1 IH]; cbn [app]; [split; [by repeat constructor|tauto]|]. split.
  - intros Hp. inversion Hp as [|? ? H1 H2]; subst. apply Forall_app in H1 as [H1 H3]. apply IH in H2 as (H4 & H5 & H6).
    split; [by constructor|]. split; [done|]. by constructor.
  - intros (H1 & H2 & H3). inversion H1 as [|? ? H4 H5]; subst. apply Forall_cons in H3 as [H3 H6]. constructor; [by apply Forall_app|].
    by apply IH.
Qed.

Lemma pairs_impl {A} (P Q : A -> A -> Prop) l : (forall x y, x ∈ l -> y ∈ l -> P x y -> Q x y) -> List.ForallOrdPairs P l -> List.ForallOrdPairs Q l.
Proof.
  induction l as [|x l IH]; intros HPQ Hp; [constructor|]. inversion Hp as [|? ? H1 H2]; subst. constructor.
  - rewrite Forall_forall in *. intros y Hy. apply HPQ; [by left|by right|by apply H1].
  - apply IH; [|done]. intros y z Hy Hz. apply HPQ; by right.
Qed.

Lemma grouped_updates_apart groups : grouped groups ->
  List.ForallOrdPairs updates_apart (concat (map snd groups)) <-> Forall (fun g : update_group => List.ForallOrdPairs disjoint g.2) groups.
Proof.
  intros [Hs Hg]. induction groups as [|[i g] groups IH]; [by split; constructor|]. cbn [map concat fst snd] in *.
  inversion Hs as [|? ? H1 H2]; subst. apply Forall_cons in Hg as [[_ Hg1] Hg]. cbn [fst snd] in *. specialize (IH H1 Hg).
  rewrite pairs_app, IH, Forall_cons. cbn [snd]. rewrite Forall_forall in Hg1. split.
  - intros (P1 & P2 & _). split; [|done]. eapply pairs_impl; [|exact P1]. intros u v Hu Hv [Hn|Hd]; [|done].
    by rewrite (Hg1 u Hu), (Hg1 v Hv) in Hn.
  - intros [P1 P2]. split; [eapply pairs_impl; [|exact P1]; by right|]. split; [done|]. apply Forall_forall. intros u Hu.
    apply Forall_forall. intros v Hv. left. rewrite (Hg1 u Hu). apply list_elem_of_In, in_concat in Hv as (h & Hh & Hv).
    apply in_map_iff in Hh as ([j h'] & <- & Hj). apply list_elem_of_In in Hj, Hv. rewrite Forall_forall in Hg. rewrite Forall_forall in H2.
    destruct (Hg _ Hj) as [_ Hgj]. cbn [fst snd] in *. rewrite Forall_forall in Hgj. rewrite (Hgj v Hv).
    assert (i < j); [|lia]. apply H2, list_elem_of_fmap. by exists (j, h').
Qed.

Section FlushProofs.
Context {S : Type} `{PacketSink S} `{MarkingHeader}.

Fixpoint write_groups (groups : list update_group) (records : writer_records) (w : lava_file_writer S)
    : outcome (writer_records * lava_file_writer S) :=
  match groups with
  | [] => Ok (records, w)
  | g :: groups =>
      let* (records, w) := write_descriptor_buffer_update_packet g.1 g.2 records w in
      write_groups groups records w
  end.

Lemma flush_loop_groups sorted : forall current_buffer group records (w : lava_file_writer S),
  flush_loop current_buffer group sorted records w = write_groups (add_group current_buffer group (groups_of sorted)) records w.
Proof.
  induction sorted as [|u sorted IH]; intros current_buffer group records w; cbn [flush_loop].
  - cbn [groups_of]. destruct group as [|v group]; [done|]. cbn [add_group write_groups fst snd].
    by destruct (write_descriptor_buffer_update_packet current_buffer (v :: group) records w) as [[? ?]|].
  - rewrite groups_of_cons. destruct (Z.eqb_spec current_buffer (pu_buffer_index u)) as [->|Hn]; cbn [negb].
    + by rewrite IH, add_group_same.
    + rewrite add_group_other by done. destruct group as [|v group]; [exact (IH _ _ _ _)|]. cbn [write_groups fst snd].
      destruct (write_descriptor_buffer_update_packet current_buffer (v :: group) records w) as [[? ?]|]; [|done]. exact (IH _ _ _ _).
Qed.

Context (limit : Z) (Hlimit : limit <= UINT32_MAX).

(** the packets of the groups after the first, whose counters have changed *)
Lemma counted_groups g groups records : Forall (group_known limit records) groups ->
  Forall (group_known limit (count_group records g)) groups /\
  map (group_packet (count_group records g)) groups = map (group_packet records) groups.
Proof.
  intros Hk. split; [eapply List.Forall_impl; [|exact Hk]; intros; by apply count_group_known|].
  apply map_ext_in. intros h Hh. apply (count_group_packet limit). rewrite Forall_forall in Hk. by apply Hk, list_elem_of_In.
Qed.

Lemma groups_written groups : forall records (w : lava_file_writer S) done,
  packet_inv w done None -> Forall (group_known limit records) groups -> fits (done ++ map (group_packet records) groups) ->
  Forall (fun g : update_group => List.ForallOrdPairs disjoint g.2) groups ->
  exists w', write_groups groups records w = Ok (foldl count_group records groups, w') /\
    packet_inv w' (done ++ map (group_packet records) groups) None /\ same_settings w w'.
Proof.
  induction groups as [|g groups IH]; intros records w done Hi Hk Hf Hd.
  { exists w. cbn [map write_groups foldl]. rewrite app_nil_r. split; [done|]. by split. }
  apply Forall_cons in Hk as [Hk1 Hk]. apply Forall_cons in Hd as [Hd1 Hd]. cbn [map write_groups foldl].
  replace (done ++ map (group_packet records) (g :: groups)) with ((done ++ [group_packet records g]) ++ map (group_packet records) groups)
    in Hf by (by rewrite <- app_assoc).
  destruct (group_written limit Hlimit g records w done Hi Hk1 (fits_prefix _ _ Hf) Hd1) as (w1 & E1 & Hi1 & S1).
  rewrite E1. cbn [obind]. destruct (counted_groups g groups records Hk) as [Hk' Em].
  destruct (IH (count_group records g) w1 _ Hi1 Hk') as (w2 & E2 & Hi2 & S2); [by rewrite Em|done|].
  exists w2. split; [done|]. rewrite Em, <- app_assoc in Hi2. split; [done|]. by eapply same_settings_trans.
Qed.

Lemma groups_refused groups : forall records (w : lava_file_writer S) done,
  packet_inv w done None -> Forall (group_known limit records) groups -> fits (done ++ map (group_packet records) groups) ->
  ~ Forall (fun g : update_group => List.ForallOrdPairs disjoint g.2) groups -> write_groups groups records w = Fail AbortCall.
Proof.
  induction groups as [|g groups IH]; intros records w done Hi Hk Hf Hd; [by destruct Hd|].
  apply Forall_cons in Hk as [Hk1 Hk]. cbn [write_groups].
  replace (done ++ map (group_packet records) (g :: groups)) with ((done ++ [group_packet records g]) ++ map (group_packet records) groups)
    in Hf by (by rewrite <- app_assoc).
  assert (Hok : Forall (update_ok limit) g.2) by (by destruct Hk1 as (_ & _ & _ & _ & Hok & _)).
  destruct (decide (chained 0 (merge_sort by_offset g.2))) as [Hc|Hc].
  - apply (chained_sorted limit _ Hok) in Hc.
    destruct (group_written limit Hlimit g records w done Hi Hk1 (fits_prefix _ _ Hf) Hc) as (w1 & E1 & Hi1 & S1).
    rewrite E1. cbn [obind]. destruct (counted_groups g groups records Hk) as [Hk' Em].
    apply (IH _ _ _ Hi1 Hk'); [by rewrite Em|]. intros Hall. apply Hd. by constructor.
  - rewrite (chained_sorted limit _ Hok) in Hc. by rewrite (group_refused limit Hlimit g records w done Hi Hk1 (fits_prefix _ _ Hf) Hc).
Qed.

(** the writer knows the buffer of an update, which fits its memory *)
Definition update_known (records : writer_records) (u : pending_descriptor_buffer_update) : Prop :=
  update_ok limit u /\ exists entry, records !! Z.to_nat (pu_buffer_index u) = Some (Some entry) /\ record_ok entry.

Lemma groups_known records updates : Forall (update_known records) updates -> 8 * Z.of_nat (length updates) <= UINT32_MAX ->
  Forall (group_known limit records) (groups_of (merge_sort by_buffer updates)).
Proof.
  intros Hu Hn. set (sorted := merge_sort by_buffer updates).
  assert (Hp : sorted ≡ₚ updates) by apply merge_sort_Permutation.
  rewrite <- Hp in Hu. rewrite <- (Permutation_length Hp) in Hn.
  destruct (groups_of_spec sorted) as [_ Hg]; [by apply (StronglySorted_merge_sort by_buffer)|].
  rewrite <- (groups_of_concat sorted) in Hu, Hn. clear Hp.
  induction Hg as [|g groups [Hne Hsame] _ IH]; [constructor|]. cbn [map concat snd] in Hu, Hn.
  apply Forall_app in Hu as [Hu1 Hu]. rewrite length_app in Hn. constructor; [|apply IH; [done|lia]].
  destruct g as [i [|u g]]; [done|]. cbn [fst snd] in *. apply Forall_cons in Hsame as [<- _].
  pose proof Hu1 as Hu1'. apply Forall_cons in Hu1' as [(_ & entry & He & Hr) _]. exists entry. split; [exact He|]. split; [exact Hr|].
  split; [done|]. split; [|cbn [snd]; lia]. eapply List.Forall_impl; [|exact Hu1]. by intros v [Hv _].
Qed.
End FlushProofs.

(** ** Replaying a group *)

Lemma stored_slice mem offset bs : stored mem offset bs -> slice (Z.to_nat offset) (length bs) mem = bs.
Proof.
  intros Hs. apply list_eq. intros i. rewrite slice_lookup. case_decide as Hi; [by apply Hs|].
  symmetry. apply lookup_ge_None. lia.
Qed.

(** the synthetic patch is a patch of the whole memory *)
Lemma patch_of_good limit updates mem : limit <= UINT32_MAX -> 0 <= limit -> Forall (update_ok limit) updates ->
  List.ForallOrdPairs disjoint updates -> limit <= Z.of_nat (length mem) ->
  exists after, good_patch mem after 0 (Z.to_nat limit) (patch_of updates) /\ length after = length mem /\
    Forall (holds after) updates /\ forall i, untouched updates i -> after !! i = mem !! i.
Proof.
  intros Hl H0 Hok Hd Hm. destruct (sorted_updates limit updates Hok) as (_ & Hok' & _ & Hp).
  pose proof (proj2 (chained_sorted limit updates Hok) Hd) as Hc. set (sorted := merge_sort by_offset updates) in *.
  destruct (apply_runs_of limit sorted 0 mem Hl ltac:(lia) Hok' Hc Hm) as (L & Hh & Ht). change (Z.to_nat 0) with 0%nat in *.
  set (after := apply_runs (runs_of 0 sorted) 0 mem) in *. exists after.
  split; [|split; [exact L|]; split; [by rewrite <- Hp|]; intros i Hi; apply Ht; unfold untouched in *; by rewrite Hp].
  exists (runs_bytes (runs_of 0 sorted)). intros R src r mem' maxsize rest Hr Hm' Hmax Hold Hrem. cbn [Nat.add] in *.
  pose proof (runs_of_ok limit sorted 0 Hl ltac:(lia) Hok' Hc) as Hruns.
  pose proof (runs_of_bytes limit sorted 0 ltac:(lia) Hok' Hc) as Hbytes.
  unfold patch_of in Hrem. fold sorted in Hrem. rewrite <- app_assoc in Hrem.
  destruct (read_patch_runs (runs_of 0 sorted) (S (length (remaining r))) maxsize mem' 0 (Z.to_nat limit) 0 r rest Hr Hrem Hruns)
    as (r' & Hr' & Hrem' & E); [|lia|lia|lia|lia|lia|destruct Hmax; [by left|right; lia]|].
  { rewrite Hrem. pose proof (length_concat_runs (runs_of 0 sorted)). rewrite length_app. lia. }
  exists r'. split; [|done]. unfold read_patch. rewrite (E : read_patch_loop _ _ _ 0 _ _ = _). repeat f_equal.
  destruct (apply_runs_of limit sorted 0 mem' Hl ltac:(lia) Hok' Hc ltac:(lia)) as (L' & Hh' & Ht'). change (Z.to_nat 0) with 0%nat in *.
  set (after' := apply_runs (runs_of 0 sorted) 0 mem') in *. apply slice_eq_iff in Hold.
  assert (Hsl : length (slice 0 (Z.to_nat limit) after) = Z.to_nat limit) by (rewrite length_slice; lia).
  apply list_eq. intros i. rewrite memcpy_lookup by lia. rewrite Hsl, Nat.sub_0_r, slice_lookup.
  assert (Hcase : (exists u, u ∈ sorted /\ pu_offset u <= Z.of_nat i < update_end u) \/ untouched sorted i).
  { clear -Hok'. induction sorted as [|u l IH]; [right; constructor|]. apply Forall_cons in Hok' as [Hu Hok'].
    destruct (decide (pu_offset u <= Z.of_nat i < update_end u)) as [Hi|Hi]; [left; exists u; by split; [left|]|].
    destruct (IH Hok') as [(v & Hv & Hi')|Hr]; [left; exists v; by split; [right|]|]. right. constructor; [lia|done]. }
  destruct Hcase as [(u & Hu & Hi)|Hun].
  - rewrite Forall_forall in Hok', Hh. rewrite Forall_forall in Hh'. pose proof (Hok' u Hu) as (_ & U1 & U2 & _).
    unfold update_end in *. rewrite decide_True, decide_True by lia. unfold holds, stored in *.
    replace i with (Z.to_nat (pu_offset u) + (i - Z.to_nat (pu_offset u)))%nat by lia.
    rewrite Nat.add_0_l. rewrite (Hh u Hu), (Hh' u Hu) by lia. done.
  - rewrite Ht' by done. case_decide; [|done]. rewrite decide_True by lia. rewrite Ht by done. rewrite Nat.add_0_l. apply Hold. lia.
Qed.

Section TranslateProofs.
Context `{MarkingHeader}.
Context (debug is_replay : bool) (tb ts : Z -> Z) (pending : list descriptor_rewrite) (pipelines : list pipeline_handles).

Definition same_descriptor (u : pending_descriptor_buffer_update) (c : descriptor_rewrite) : bool :=
  (dr_type c =? pu_type u) && bool_decide (dr_capture_bytes c = pu_bytes u).

(** the replay's own bytes of a descriptor that it wrote too, otherwise the captured bytes *)
Definition replayed_bytes (u : pending_descriptor_buffer_update) : list byte :=
  match List.find (same_descriptor u) pending with
  | Some c => dr_bytes c
  | None => pu_bytes u
  end.

(** descriptors of the same type have the same size, in the capture and in the replay *)
Definition sizes_agree (u : pending_descriptor_buffer_update) : Prop :=
  Forall (fun c => dr_type c = pu_type u ->
    length (dr_capture_bytes c) = length (pu_bytes u) /\ length (dr_bytes c) = length (pu_bytes u)) pending.

Lemma find_same {A} (p q : A -> bool) l : Forall (fun x => p x = q x) l -> List.find p l = List.find q l.
Proof. induction 1 as [|x l Hx _ IH]; [done|]. cbn [List.find]. by rewrite Hx, IH. Qed.

Lemma length_replayed u : sizes_agree u -> length (replayed_bytes u) = length (pu_bytes u).
Proof.
  intros Hs. unfold replayed_bytes. destruct (List.find _ pending) as [c|] eqn:E; [|done]. apply List.find_some in E as [Hin Hc].
  apply andb_prop in Hc as [Hc _]. apply Z.eqb_eq in Hc. unfold sizes_agree in Hs. rewrite Forall_forall in Hs. apply list_elem_of_In in Hin.
  by apply (Hs c Hin).
Qed.

Lemma translate_descriptor limit u mem : limit <= UINT32_MAX -> update_ok limit u -> sizes_agree u ->
  limit <= Z.of_nat (length mem) -> Z.of_nat (length mem) <= UINT64_MAX -> holds mem u ->
  exists mem', translate_mark debug is_replay tb ts pending pipelines (Z.of_nat (length mem)) (entry_of u) mem = Ok mem' /\
    length mem' = length mem /\ stored mem' (pu_offset u) (replayed_bytes u) /\
    forall i, Z.of_nat i < pu_offset u \/ update_end u <= Z.of_nat i -> mem' !! i = mem !! i.
Proof.
  intros Hl Hu Hs Hm Hm64 Hh. pose proof (update_end_pos _ _ Hu) as Hpos. destruct Hu as (Hb & H0 & He & Ht).
  unfold translate_mark, entry_of, subtype32. cbn [mk_offset mk_type mk_sub].
  pose proof header_types as Hn. rewrite !NoDup_cons, !not_elem_of_cons in Hn. destruct Hn as ((D1 & _) & _).
  rewrite (proj2 (Z.eqb_neq _ _)) by congruence. rewrite Z.eqb_refl, wrap32_small by u_lia.
  assert (Ef : List.find (descriptor_matches mem (Z.of_nat (length mem)) (pu_offset u) (pu_type u)) pending =
    List.find (same_descriptor u) pending).
  { apply find_same. eapply List.Forall_impl; [|exact Hs]. intros c Hc. unfold descriptor_matches, same_descriptor.
    destruct (Z.eqb_spec (dr_type c) (pu_type u)) as [Ec|]; [|done]. destruct (Hc Ec) as [Lc _]. cbn [andb].
    assert (Hne : Nat.eqb (length (dr_capture_bytes c)) 0 = false) by (apply Nat.eqb_neq; rewrite Lc; by destruct (pu_bytes u)).
    rewrite Hne, Lc, wrap64_small by (unfold update_end in *; u_lia). rewrite (proj2 (Z.leb_le _ _)) by (unfold update_end in *; lia).
    cbn [negb andb]. rewrite (stored_slice _ _ _ Hh). by apply bool_decide_ext. }
  rewrite Ef. pose proof (length_replayed u Hs) as Lr. unfold replayed_bytes in *.
  destruct (List.find (same_descriptor u) pending) as [c|]; [|by exists mem]. unfold update_end in *.
  rewrite (proj2 (Nat.eqb_neq _ _)) by lia.
  rewrite wrap64_small by u_lia. rewrite (proj2 (Z.leb_le _ _)) by lia. cbn [require obind]. rewrite store_bytes_ok by lia.
  eexists. split; [done|]. split; [apply length_memcpy; lia|]. split.
  - intros k Hk. rewrite memcpy_lookup, decide_True by lia. f_equal. lia.
  - intros i Hi. rewrite memcpy_lookup, decide_False by lia. done.
Qed.

Lemma translate_descriptors limit updates : limit <= UINT32_MAX -> forall mem, Forall (update_ok limit) updates -> Forall sizes_agree updates ->
  List.ForallOrdPairs disjoint updates -> limit <= Z.of_nat (length mem) -> Z.of_nat (length mem) <= UINT64_MAX -> Forall (holds mem) updates ->
  exists mem', translate_marks debug is_replay tb ts pending pipelines (Z.of_nat (length mem)) (map entry_of updates) mem = Ok mem' /\
    length mem' = length mem /\ Forall (fun u => stored mem' (pu_offset u) (replayed_bytes u)) updates /\
    forall i, untouched updates i -> mem' !! i = mem !! i.
Proof.
  intros Hl. induction updates as [|u updates IH]; intros mem Hok Hs Hd Hm Hm64 Hh; [by exists mem|].
  apply Forall_cons in Hok as [Hu Hok]. apply Forall_cons in Hs as [Hs1 Hs]. apply Forall_cons in Hh as [Hh1 Hh].
  inversion Hd as [|? ? Hd1 Hd2]; subst. cbn [map translate_marks].
  destruct (translate_descriptor limit u mem Hl Hu Hs1 Hm Hm64 Hh1) as (m1 & E1 & L1 & R1 & K1). rewrite E1. cbn [obind].
  assert (Hapart : forall v k, v ∈ updates -> (k < length (pu_bytes v))%nat ->
    let i := Z.of_nat (Z.to_nat (pu_offset v) + k) in i < pu_offset u \/ update_end u <= i).
  { intros v k Hv Hk. rewrite Forall_forall in Hok, Hd1. destruct (Hok v Hv) as (_ & V1 & V2 & _). unfold update_end in *.
    destruct (Hd1 v Hv) as [D|D]; unfold update_end in D; [right|left]; lia. }
  destruct (IH m1 Hok Hs Hd2) as (m2 & E2 & L2 & R2 & K2); [lia|lia| |].
  { rewrite Forall_forall in Hh |- *. intros v Hv k Hk. rewrite K1 by (by apply Hapart). by apply Hh. }
  rewrite L1 in E2. exists m2. split; [exact E2|]. split; [lia|]. split.
  - constructor; [|exact R2]. intros k Hk. rewrite length_replayed in Hk by done.
    assert (Hun : untouched updates (Z.to_nat (pu_offset u) + k)).
    { unfold untouched. rewrite Forall_forall in Hok, Hd1 |- *. intros v Hv. destruct Hu as (_ & U1 & U2 & _). unfold update_end in *.
      destruct (Hd1 v Hv) as [D|D]; unfold update_end in D; lia. }
    rewrite K2 by done. apply R1. by rewrite length_replayed.
  - intros i Hi. apply Forall_cons in Hi as [Hi1 Hi]. rewrite K2 by done. by apply K1.
Qed.
End TranslateProofs.

(** ** Properties *)

Lemma erase_used_spec d p : p ∈ pending_descriptor_payloads (erase_used_descriptor_payloads d) <->
  p ∈ pending_descriptor_payloads d /\ p ∉ used_descriptor_payloads d.
Proof.
  cbn. rewrite !list_elem_of_In, filter_In, negb_true_iff, <- not_true_iff_false, existsb_exists. split.
  - intros [Hp Hn]. split; [done|]. intros Hu. apply Hn. exists p. split; [exact Hu|]. apply same_payload_true. by destruct p.
  - intros [Hp Hn]. split; [done|]. intros (q & Hq & Hs). apply Hn. apply same_payload_true in Hs. subst p. by destruct q.
Qed.

(** Before a submit, the updates that a thread queued are written as one packet per
    descriptor buffer, in the order of the buffers, each packet with all updates of
    its buffer; the queue is emptied and the descriptors that were used are forgotten.
    If two updates of a buffer overlap the program ends instead. *)
Theorem descriptor_updates_written {S} `{PacketSink S, MarkingHeader} (limit : Z) (d : descriptor_state) (records : writer_records)
    (w : lava_file_writer S) (done : list packet)
    (Hlimit : limit <= UINT32_MAX) (Hw : packet_inv w done None)
    (Hknown : Forall (update_known limit records) (pending_descriptor_buffer_updates d))
    (Hcount : 8 * Z.of_nat (length (pending_descriptor_buffer_updates d)) <= UINT32_MAX)
    (Hfits : fits (done ++ map (group_packet records) (groups_of (merge_sort by_buffer (pending_descriptor_buffer_updates d))))) :
  let groups := groups_of (merge_sort by_buffer (pending_descriptor_buffer_updates d)) in
  let out := flush_synthetic_descriptor_buffer_updates d records w in
  grouped groups /\ concat (map snd groups) ≡ₚ pending_descriptor_buffer_updates d /\
  (List.ForallOrdPairs updates_apart (pending_descriptor_buffer_updates d) ->
     exists d' w', out = Ok (d', foldl count_group records groups, w') /\
       packet_inv w' (done ++ map (group_packet records) groups) None /\
       pending_descriptor_buffer_updates d' = [] /\ used_descriptor_payloads d' = [] /\
       emitted_descriptor_buffer_updates d' = emitted_descriptor_buffer_updates d /\
       forall p, p ∈ pending_descriptor_payloads d' <-> p ∈ pending_descriptor_payloads d /\ p ∉ used_descriptor_payloads d) /\
  (~ List.ForallOrdPairs updates_apart (pending_descriptor_buffer_updates d) -> out = Fail AbortCall).
Proof.
  intros groups out. set (pending := pending_descriptor_buffer_updates d) in *. set (sorted := merge_sort by_buffer pending) in *.
  assert (Hp : sorted ≡ₚ pending) by apply merge_sort_Permutation.
  assert (Hg : grouped groups) by (apply groups_of_spec; by apply (StronglySorted_merge_sort by_buffer)).
  pose proof (groups_known limit records pending Hknown Hcount) as Hgk. fold sorted groups in Hgk, Hfits.
  assert (Hiff : List.ForallOrdPairs updates_apart pending <-> Forall (fun g : update_group => List.ForallOrdPairs disjoint g.2) groups).
  { rewrite <- (grouped_updates_apart groups Hg). unfold groups. rewrite groups_of_concat.
    split; apply pairs_perm; (exact updates_apart_sym || done). }
  split; [exact Hg|]. split; [unfold groups; by rewrite groups_of_concat|].
  assert (Hout : out = let* (records, w) := write_groups groups records w in
    Ok (erase_used_descriptor_payloads (with_updates d [] (emitted_descriptor_buffer_updates d)), records, w)).
  { unfold out, flush_synthetic_descriptor_buffer_updates. fold pending. destruct pending as [|u l] eqn:Ep.
    - assert (Hd : with_updates d [] (emitted_descriptor_buffer_updates d) = d).
      { unfold pending in Ep. clear -Ep. destruct d. cbn in *. by subst. }
      by rewrite Hd.
    - by rewrite flush_loop_groups. }
  rewrite Hout. rewrite Hiff. split.
  - intros Hd. destruct (groups_written limit Hlimit groups records w done Hw Hgk Hfits Hd) as (w' & -> & Hw' & _). cbn [obind].
    eexists _, w'. split; [done|]. split; [exact Hw'|]. do 3 (split; [done|]). intros p. by rewrite erase_used_spec.
  - intros Hd. by rewrite (groups_refused limit Hlimit groups records w done Hw Hgk Hfits Hd).
Qed.

Lemma update_packet_replayed {R} `{ByteSource R, MarkingHeader} (read_pnext : R -> outcome (unit * R))
    (other : Z -> host_areas -> R -> outcome (host_areas * R)) (debug : bool) (tb ts : Z -> Z)
    (pending : list descriptor_rewrite) (pipelines : list pipeline_handles) (limit : Z) (device buffer : trackable)
    (updates : list pending_descriptor_buffer_update) (areas : host_areas) (a : host_area) (r : R) (rest : list byte)
    (Hlimit : 0 <= limit <= UINT32_MAX) (Hmarking : u32 VK_MARKING_TYPE_DESCRIPTOR_ARM)
    (Hupdates : Forall (update_ok limit) updates) (Hapart : List.ForallOrdPairs disjoint updates)
    (Hcount : 8 * Z.of_nat (length updates) <= UINT32_MAX) (Hsome : updates <> []) (Hsizes : Forall (sizes_agree pending) updates)
    (Hsize : Z.of_nat (length (encode_extension (update_markings updates)) + length (patch_of updates)) + 2 <= UINT64_MAX)
    (Hpn : parses read_pnext (le_encode 4 0) tt)
    (Hindices : u32 (t_index device) /\ u32 (cs_packet (t_last_modified device)) /\
      u32 (t_index buffer) /\ u32 (cs_packet (t_last_modified buffer)))
    (Harea : areas !! (object_type_code VK_OBJECT_TYPE_BUFFER, t_index buffer) = Some a)
    (Hmapped : limit <= Z.of_nat (length (a_bytes a))) (Hmem : Z.of_nat (length (a_bytes a)) <= UINT64_MAX)
    (Hr : src_ok r) (Hrem : remaining r = (update_packet device buffer updates).2 ++ rest) :
  exists seen bytes r',
    parses (read_marked_extension read_pnext) (encode_extension (update_markings updates)) seen /\ marks seen = map entry_of updates /\
    switchboard_update (read_marked_extension read_pnext) debug tb ts pending pipelines other PACKET_BUFFER_UPDATE2 areas r =
      Ok (<[(object_type_code VK_OBJECT_TYPE_BUFFER, t_index buffer) := HostArea bytes true]> areas, r') /\
    src_ok r' /\ remaining r' = rest /\ length bytes = length (a_bytes a) /\
    Forall (fun u => stored bytes (pu_offset u) (replayed_bytes pending u)) updates /\
    forall i, untouched updates i -> bytes !! i = mem_map a !! i.
Proof.
  destruct (update_markings_ok limit updates Hmarking Hupdates ltac:(lia) Hcount) as (M1 & M2 & M3 & M4).
  assert (Hc : count (update_markings updates) = Z.of_nat (length updates)) by (apply wrap32_small; u_lia).
  destruct (parses_extension read_pnext (update_markings updates) M1 ltac:(lia) M4 Hpn) as (seen & P1 & P2 & P3 & P4 & P5).
  pose proof (length_mem_map a) as Lm.
  destruct (patch_of_good limit updates (mem_map a) ltac:(lia) ltac:(lia) Hupdates Hapart ltac:(lia)) as (after & G1 & G2 & G3 & G4).
  destruct Hindices as (I1 & I2 & I3 & I4). cbn [update_packet snd] in Hrem.
  destruct (object_update_reads (read_marked_extension read_pnext) debug tb ts pending pipelines other VK_OBJECT_TYPE_BUFFER PACKET_BUFFER_UPDATE2
    device buffer (Some (update_markings updates)) (Some seen) (encode_extension (update_markings updates)) (mem_map a) after 0 (Z.to_nat limit)
    (patch_of updates) areas a rest r) as (r' & Hr' & Hrest & E); try done; try lia.
  { by right. }
  { intros m [= <-]. by rewrite P2. }
  assert (Hafter : memcpy (mem_map a) 0 (slice 0 (Z.to_nat limit) after) = after).
  { assert (Hsl : length (slice 0 (Z.to_nat limit) after) = Z.to_nat limit) by (rewrite length_slice; lia).
    apply list_eq. intros i. rewrite memcpy_lookup by lia. rewrite Hsl, Nat.sub_0_r, slice_lookup. case_decide as Hi.
    - rewrite decide_True by lia. by rewrite Nat.add_0_l.
    - symmetry. apply G4. unfold untouched. eapply List.Forall_impl; [|exact Hupdates]. intros u (_ & _ & Hu & _). right. lia. }
  rewrite Hafter in E. cbn [marked_bytes] in E. unfold translate_marked_offsets in E.
  destruct (translate_descriptors debug true tb ts pending pipelines limit updates ltac:(lia) after Hupdates Hsizes Hapart
    ltac:(lia) ltac:(lia) G3) as (bytes & E2 & L2 & K1 & K2).
  exists seen, bytes, r'. split; [exact P1|]. split; [by rewrite P3|]. split.
  - destruct (entries_ok seen) as (o & t & s & Hent & _); [apply P5; destruct updates; [done|]; cbn [length] in *; lia|rewrite P4; lia|].
    rewrite E, Hent, P3, M3. cbn [obind]. by rewrite E2.
  - split; [done|]. split; [done|]. split; [lia|]. split; [exact K1|]. intros i Hi. by rewrite K2, G4.
Qed.

(** C31: whoever replays the packet that is written for the updates of a buffer finds its
    marking for every descriptor and ends with every descriptor in its place of the
    buffer, in the bytes the replay's own device returned for it where the replay has
    them, and with the rest of the buffer as it was. *)
Theorem descriptor_updates_replayed {S R} `{PacketSink S, ByteSource R, MarkingHeader} (read_pnext : R -> outcome (unit * R))
    (other : Z -> host_areas -> R -> outcome (host_areas * R)) (debug : bool) (tb ts : Z -> Z)
    (pending : list descriptor_rewrite) (pipelines : list pipeline_handles) (limit buffer_index : Z) (device : trackable) (buffer : hostobject)
    (updates : list pending_descriptor_buffer_update) (records : writer_records) (w : lava_file_writer S) (done : list packet)
    (areas : host_areas) (a : host_area)
    (Hlimit : 0 <= limit <= UINT32_MAX) (Hmarking : u32 VK_MARKING_TYPE_DESCRIPTOR_ARM) (Hw : packet_inv w done None)
    (Hrecord : records !! Z.to_nat buffer_index = Some (Some (device, buffer))) (Hknown : record_ok (device, buffer))
    (Hsome : updates <> []) (Hupdates : Forall (update_ok limit) updates) (Hapart : List.ForallOrdPairs disjoint updates)
    (Hcount : 8 * Z.of_nat (length updates) <= UINT32_MAX) (Hsizes : Forall (sizes_agree pending) updates)
    (Hfits : fits (done ++ [group_packet records (buffer_index, updates)])) (Hpn : parses read_pnext (le_encode 4 0) tt)
    (Hindices : u32 (t_index device) /\ u32 (cs_packet (t_last_modified device)) /\
      u32 (t_index (h_base buffer)) /\ u32 (cs_packet (t_last_modified (h_base buffer))))
    (Harea : areas !! (object_type_code VK_OBJECT_TYPE_BUFFER, t_index (h_base buffer)) = Some a)
    (Hmapped : limit <= Z.of_nat (length (a_bytes a))) (Hmem : Z.of_nat (length (a_bytes a)) <= UINT64_MAX) :
  exists body records' w', write_descriptor_buffer_update_packet buffer_index updates records w = Ok (records', w') /\
    packet_inv w' (done ++ [(PACKET_BUFFER_UPDATE2, body)]) None /\
    forall (r : R) rest, src_ok r -> remaining r = body ++ rest ->
      exists seen bytes r',
        parses (read_marked_extension read_pnext) (encode_extension (update_markings updates)) seen /\ marks seen = map entry_of updates /\
        switchboard_update (read_marked_extension read_pnext) debug tb ts pending pipelines other PACKET_BUFFER_UPDATE2 areas r =
          Ok (<[(object_type_code VK_OBJECT_TYPE_BUFFER, t_index (h_base buffer)) := HostArea bytes true]> areas, r') /\
        src_ok r' /\ remaining r' = rest /\ length bytes = length (a_bytes a) /\
        Forall (fun u => stored bytes (pu_offset u) (replayed_bytes pending u)) updates /\
        forall i, untouched updates i -> bytes !! i = mem_map a !! i.
Proof.
  assert (Hk : group_known limit records (buffer_index, updates)) by (by exists (device, buffer)).
  destruct (group_written limit ltac:(lia) (buffer_index, updates) records w done Hw Hk Hfits Hapart) as (w' & E & Hw' & _).
  unfold group_packet in Hw', Hfits. cbn [fst snd] in Hw', Hfits. rewrite Hrecord in Hw', Hfits.
  exists (update_packet device (h_base buffer) updates).2, (count_group records (buffer_index, updates)), w'.
  split; [exact E|]. split; [exact Hw'|]. intros r rest Hr Hrem.
  apply (update_packet_replayed read_pnext other debug tb ts pending pipelines limit device (h_base buffer) updates areas a r rest); try done.
  destruct Hfits as (Hf & _). apply Forall_app in Hf as [_ Hf]. apply Forall_cons in Hf as [Hf _]. cbn [snd update_packet] in Hf.
  unfold update_body in Hf. rewrite !length_app in Hf. u_lia.
Qed.

(** ** The updates of a buffer *)

#[local] Existing Instance demo_header.

Definition demo_updates : list pending_descriptor_buffer_update :=
  [PendingUpdate 0 8 6 demo_descriptor_a; PendingUpdate 0 2 6 demo_descriptor_b].

Definition demo_pending : descriptor_state :=
  DescriptorState [PendingPayload 6 demo_descriptor_a] [PendingPayload 6 demo_descriptor_a] [] demo_updates demo_updates.

Lemma demo_updates_ok : Forall (update_ok 24) demo_updates.
Proof. repeat constructor; by vm_compute. Qed.

Lemma demo_updates_apart : List.ForallOrdPairs disjoint demo_updates.
Proof. constructor; [constructor; [right; by vm_compute|constructor]|]. repeat constructor. Qed.

Lemma demo_updates_known : Forall (update_known 24 demo_records) demo_updates.
Proof.
  pose proof demo_updates_ok as Hok. unfold demo_updates in *. apply Forall_cons in Hok as [H1 Hok]. apply Forall_cons in Hok as [H2 _].
  by repeat constructor; try done; exists (demo_device, demo_object).
Qed.

Lemma descriptor_updates_written_witness :
  let groups := [(0, [PendingUpdate 0 2 6 demo_descriptor_b; PendingUpdate 0 8 6 demo_descriptor_a])] in
  let out := flush_synthetic_descriptor_buffer_updates (H := list_packets) demo_pending demo_records demo_out_start in
  groups = groups_of (merge_sort by_buffer demo_updates) /\
  (List.ForallOrdPairs updates_apart demo_updates ->
     exists d' w', out = Ok (d', foldl count_group demo_records groups, w') /\
       packet_inv (H := list_packets) w' ([] ++ map (group_packet demo_records) groups) None /\
       pending_descriptor_buffer_updates d' = [] /\ used_descriptor_payloads d' = [] /\
       emitted_descriptor_buffer_updates d' = demo_updates /\
       forall p, p ∈ pending_descriptor_payloads d' <->
         p ∈ [PendingPayload 6 demo_descriptor_a] /\ p ∉ [PendingPayload 6 demo_descriptor_a]).
Proof.
  intros groups out. split; [vm_compute; reflexivity|].
  destruct (descriptor_updates_written (H := list_packets) 24 demo_pending demo_records demo_out_start []) as (_ & _ & Hok & _).
  - by vm_compute.
  - exact demo_writer_fresh.
  - exact demo_updates_known.
  - by vm_compute.
  - split; [|split]; [repeat constructor; by vm_compute| |]; by vm_compute.
  - exact Hok.
Defined.

(** the replay wrote the first descriptor with other bytes *)
Definition demo_rewrites : list descriptor_rewrite := [DescriptorRewrite 6 demo_descriptor_a [x0e; x0e; x0e; x0e]].

Lemma demo_sizes_agree : Forall (sizes_agree demo_rewrites) demo_updates.
Proof. by repeat constructor. Qed.

Lemma descriptor_updates_replayed_witness :
  let other := fun (_ : Z) (_ : host_areas) (_ : list byte) => Fail AbortCall in
  exists body records' w',
    write_descriptor_buffer_update_packet (H := list_packets) 0 demo_updates demo_records demo_out_start = Ok (records', w') /\
    packet_inv (H := list_packets) w' ([] ++ [(PACKET_BUFFER_UPDATE2, body)]) None /\
    forall (r : list byte) rest, src_ok r -> remaining r = body ++ rest ->
      exists seen bytes r',
        parses (read_marked_extension demo_read_pnext) (encode_extension (update_markings demo_updates)) seen /\
        marks seen = map entry_of demo_updates /\
        switchboard_update (read_marked_extension demo_read_pnext) true (fun x => x) (fun x => x) demo_rewrites [] other 9 demo_areas r =
          Ok (<[(9, 3) := HostArea bytes true]> demo_areas, r') /\
        src_ok r' /\ remaining r' = rest /\ length bytes = 24%nat /\
        Forall (fun u => stored bytes (pu_offset u) (replayed_bytes demo_rewrites u)) demo_updates /\
        forall i, untouched demo_updates i -> bytes !! i = mem_map (HostArea (repeat xff 24) false) !! i.
Proof.
  intros other.
  apply (descriptor_updates_replayed (H := list_packets) demo_read_pnext other true (fun x => x) (fun x => x) demo_rewrites [] 24 0 demo_device
    demo_object demo_updates demo_records demo_out_start [] demo_areas (HostArea (repeat xff 24) false)).
  - by vm_compute.
  - by vm_compute.
  - exact demo_writer_fresh.
  - reflexivity.
  - done.
  - done.
  - exact demo_updates_ok.
  - exact demo_updates_apart.
  - by vm_compute.
  - exact demo_sizes_agree.
  - split; [|split]; [repeat constructor; by vm_compute| |]; by vm_compute.
  - exact demo_parses_pnext.
  - repeat split; by vm_compute.
  - by vm_compute.
  - by vm_compute.
  - by vm_compute.
Defined.

(** what the replay makes of the 24 bytes *)
Example demo_replayed :
  match switchboard_update (read_marked_extension demo_read_pnext) true (fun x => x) (fun x => x) demo_rewrites []
      (fun _ _ _ => Fail AbortCall) 9 demo_areas (update_packet demo_device (h_base demo_object) demo_updates).2 with
  | Ok (areas, _) => option_map a_bytes (areas !! (9, 3))
  | Fail _ => None
  end = Some (repeat x00 2 ++ demo_descriptor_b ++ repeat x00 2 ++ [x0e; x0e; x0e; x0e] ++ repeat x00 12).
Proof. vm_compute. reflexivity. Qed.
