(* ===== verification/Checksums.v ===== *)
(** * Checksums of buffers (src/hardcode_read.cpp, src/hardcode_write.cpp, src/util.h)

    [vkAssertBufferARM] and [vkAssertMemoryARM] write the checksum of a part of a
    buffer to the trace, and the replay compares it with that of its own buffer. What
    is marked in the buffer differs on the replay's device, so the checksum is taken as
    if every marked value still had the bytes of the capture. *)

From Stdlib Require Import ZArith Lia Bool.
From Stdlib.Strings Require Import Byte.
From stdpp Require Import base numbers list sorting.
From S2P Require Import Prelude Stream RangeTracking Patch Memory FileWriter FileReader RandomAccess Packets Containers Markings Translate Updates HostMemory.

#[local] Open Scope Z_scope.

(** ** Adler-32 *)

Definition MOD_ADLER : Z := 65521.

Fixpoint adler_loop (a b : Z) (data : list byte) : Z :=
  match data with
  | [] => Z.lor (wrap32 (Z.shiftl b 16)) a
  | d :: data =>
      let a := (a + Z_of_byte d) mod MOD_ADLER in
      let b := (b + a) mod MOD_ADLER in
      adler_loop a b data
  end.

Definition adler32 (data : list byte) : Z := adler_loop 1 0 data.

Definition adler32_update (checksum : Z) (data : list byte) : Z :=
  adler_loop (Z.land checksum 65535) (Z.shiftr checksum 16) data.

(** ** Back to the capture *)

(** [find_buffer_by_replay_address]: the largest buffer that holds the range *)
Definition holds_replay_range (address size : Z) (b : address_buffer) : bool :=
  bool_decide (ab_state b = state_bound) && negb ((ab_device_address b =? 0) || (ab_size b =? 0)) &&
  (ab_device_address b <=? address) && (wrap64 (address - ab_device_address b + size) <=? ab_size b).

Definition find_replay_step (address size : Z) (best : option (address_buffer * Z)) (b : address_buffer) : option (address_buffer * Z) :=
  if holds_replay_range address size b then
    match best with
    | None => Some (b, address - ab_device_address b)
    | Some (best', _) => if ab_size b >? ab_size best' then Some (b, address - ab_device_address b) else best
    end
  else best.

Definition find_buffer_by_replay_address (buffers : list address_buffer) (address size : Z) : option (address_buffer * Z) :=
  foldl (find_replay_step address size) None buffers.

Definition reverse_translate_buffer_replay_address (buffers : list address_buffer) (replay_address : Z) : option Z :=
  match find_buffer_by_replay_address buffers replay_address 1 with
  | Some (b, offset) => if ab_capture_device_address b =? 0 then None else Some (wrap64 (ab_capture_device_address b + offset))
  | None => None
  end.

(** the device and capture addresses of the acceleration structures *)
Fixpoint reverse_translate_acceleration_structure_replay_address (structures : list (Z * Z)) (replay_address : Z) : option Z :=
  match structures with
  | [] => None
  | (device_address, capture_device_address) :: structures =>
      if negb (device_address =? replay_address) then reverse_translate_acceleration_structure_replay_address structures replay_address
      else if capture_device_address =? 0 then None else Some capture_device_address
  end.

(** [replay_bytes] are the bytes from the descriptor on, as far as they are checked;
    the result is [None] when no descriptor has them *)
Fixpoint reverse_translate_descriptor_replay_bytes (pending : list descriptor_rewrite) (descriptor_type : Z) (replay_bytes : list byte)
    (capture_bytes : option (list byte)) : outcome (option (list byte)) :=
  match pending with
  | [] => Ok capture_bytes
  | candidate :: pending =>
      if negb (dr_type candidate =? descriptor_type) ||
         (Nat.eqb (length (dr_bytes candidate)) 0 || Nat.eqb (length (dr_capture_bytes candidate)) 0) ||
         Nat.ltb (length replay_bytes) (length (dr_bytes candidate)) ||
         negb (bool_decide (take (length (dr_bytes candidate)) replay_bytes = dr_bytes candidate))
      then reverse_translate_descriptor_replay_bytes pending descriptor_type replay_bytes capture_bytes
      else match capture_bytes with
      | Some bytes =>
          let* _ := require (bool_decide (bytes = dr_capture_bytes candidate)) AbortCall in
          reverse_translate_descriptor_replay_bytes pending descriptor_type replay_bytes capture_bytes
      | None => reverse_translate_descriptor_replay_bytes pending descriptor_type replay_bytes (Some (dr_capture_bytes candidate))
      end
  end.

(** the number of groups whose handles on the replay are there *)
Definition searched_replay_groups (p : pipeline_handles) : nat :=
  let max_groups := Nat.div (length (raytracing_group_handles_replay p)) marked_handle_size in
  if (raytracing_group_count p =? 0) || (raytracing_group_count p >? Z.of_nat max_groups) then max_groups
  else Z.to_nat (raytracing_group_count p).

Definition matching_replay_groups (p : pipeline_handles) (handle : list byte) : list nat :=
  filter (fun i => slice (i * marked_handle_size) marked_handle_size (raytracing_group_handles_replay p) = handle)
    (seq 0 (searched_replay_groups p)).

Definition find_marked_shader_group_replay_handle_match (p : pipeline_handles) (handle : list byte) : option (nat * bool) :=
  if negb (raytracing_group_handle_size_replay p =? Z.of_nat marked_handle_size) ||
     Nat.eqb (length (raytracing_group_handles_replay p)) 0 then None
  else match matching_replay_groups p handle with
  | [] => None
  | i :: rest => Some (i, negb (Nat.eqb (length rest) 0))
  end.

(** the groups of a pipeline are searched by the handles it has on the replay *)
Definition find_group_of_replay_handle (p : pipeline_handles) (handle : list byte) : option (nat * bool) :=
  if raytracing_group_handles_capture_replay p then find_marked_shader_group_handle_match p handle
  else find_marked_shader_group_replay_handle_match p handle.

Fixpoint reverse_translate_shader_group_handle (pipelines : list pipeline_handles) (replay_handle : list byte)
    (capture_handle : option (list byte)) : outcome (option (list byte)) :=
  match pipelines with
  | [] => Ok capture_handle
  | p :: pipelines =>
      match find_group_of_replay_handle p replay_handle with
      | None => reverse_translate_shader_group_handle pipelines replay_handle capture_handle
      | Some (group, ambiguous) =>
          let* _ := require (negb ambiguous) AbortCall in
          let* _ := require (match capture_handle with None => true | Some _ => false end) AbortCall in
          let* _ := require (raytracing_group_handle_size p =? Z.of_nat marked_handle_size) AbortCall in
          let* _ := require (Nat.leb (group * marked_handle_size + marked_handle_size) (length (raytracing_group_handles p))) AbortCall in
          reverse_translate_shader_group_handle pipelines replay_handle
            (Some (slice (group * marked_handle_size) marked_handle_size (raytracing_group_handles p)))
      end
  end.

(** ** The spans of a marked range *)

Record marked_checksum_span := ChecksumSpan {
  ck_offset : Z;
  ck_bytes : list byte;
  ck_type : Z;
  ck_index : Z
}.

Definition ck_end (s : marked_checksum_span) : Z := ck_offset s + Z.of_nat (length (ck_bytes s)).

(** [marked_checksum_span_less]; no two spans have the same index *)
Definition span_le (a b : marked_checksum_span) : Prop :=
  ck_offset a < ck_offset b \/ ck_offset a = ck_offset b /\ ck_index a <= ck_index b.

#[export] Instance span_le_dec a b : Decision (span_le a b).
Proof. unfold span_le. apply _. Defined.

#[export] Instance span_le_trans : Transitive span_le.
Proof. intros x y z. unfold span_le. lia. Qed.

#[export] Instance span_le_total : Total span_le.
Proof. intros x y. unfold span_le. lia. Qed.

Section Marked.
Context `{MarkingHeader}.
Context (buffers : list address_buffer) (structures : list (Z * Z)).
Context (pending : list descriptor_rewrite) (pipelines : list pipeline_handles).
(** the checked range *)
Context (mem : list byte).

(** the round of the first loop for a marking; [mem] has [size] bytes *)
Definition mark_span (index : Z) (mk : marking) : outcome (option marked_checksum_span) :=
  let size := Z.of_nat (length mem) in
  let offset := mk_offset mk in
  if mk_type mk =? VK_MARKING_TYPE_DEVICE_ADDRESS_ARM then
    let* _ := require (negb ((offset >? size) || (8 >? size - offset))) AbortCall in
    let address_type := subtype32 mk in
    let* _ := require ((address_type =? VK_DEVICE_ADDRESS_TYPE_BUFFER_ARM) ||
                       (address_type =? VK_DEVICE_ADDRESS_TYPE_ACCELERATION_STRUCTURE_ARM)) AbortCall in
    let current := le_decode (slice (Z.to_nat offset) 8 mem) in
    let capture :=
      if address_type =? VK_DEVICE_ADDRESS_TYPE_BUFFER_ARM then reverse_translate_buffer_replay_address buffers current
      else reverse_translate_acceleration_structure_replay_address structures current in
    let* _ := require ((current =? 0) || match capture with Some _ => true | None => false end) AbortCall in
    let checksum_value := if current =? 0 then current else default 0 capture in
    Ok (Some (ChecksumSpan offset (le_encode 8 checksum_value) (mk_type mk) index))
  else if mk_type mk =? VK_MARKING_TYPE_DESCRIPTOR_ARM then
    let* _ := require (negb (offset >=? size)) AbortCall in
    let* found := reverse_translate_descriptor_replay_bytes pending (subtype32 mk) (drop (Z.to_nat offset) mem) None in
    match found with
    | None => Ok None
    | Some bytes => Ok (Some (ChecksumSpan offset bytes (mk_type mk) index))
    end
  else if (mk_type mk =? VK_MARKING_TYPE_DESCRIPTOR_SIZE_ARM) || (mk_type mk =? VK_MARKING_TYPE_DESCRIPTOR_OFFSET_ARM) then Ok None
  else if mk_type mk =? VK_MARKING_TYPE_SHADER_GROUP_HANDLE_ARM then
    let* _ := require (negb ((offset >? size) || (Z.of_nat marked_handle_size >? size - offset))) AbortCall in
    let* found := reverse_translate_shader_group_handle pipelines (slice (Z.to_nat offset) marked_handle_size mem) None in
    match found with
    | None => Fail AbortCall
    | Some bytes => Ok (Some (ChecksumSpan offset bytes (mk_type mk) index))
    end
  else Fail AbortCall.

Fixpoint marked_spans (index : Z) (ms : list marking) : outcome (list marked_checksum_span) :=
  match ms with
  | [] => Ok []
  | mk :: ms =>
      let* span := mark_span index mk in
      let* spans := marked_spans (index + 1) ms in
      Ok (match span with Some span => span :: spans | None => spans end)
  end.

(** the second loop, over the sorted spans *)
Fixpoint checksum_spans (checksum processed : Z) (previous : option marked_checksum_span) (spans : list marked_checksum_span) : outcome Z :=
  match spans with
  | [] =>
      Ok (if processed <? Z.of_nat (length mem) then adler32_update checksum (drop (Z.to_nat processed) mem) else checksum)
  | span :: spans =>
      let again := match previous with Some p => ck_offset span =? ck_offset p | None => false end in
      let same := match previous with
                  | Some p => (ck_type span =? ck_type p) && bool_decide (ck_bytes span = ck_bytes p)
                  | None => false
                  end in
      if again then
        let* _ := require same AbortCall in
        checksum_spans checksum processed previous spans
      else
        let* _ := require (negb (ck_offset span <? processed)) AbortCall in
        let checksum :=
          if ck_offset span >? processed
          then adler32_update checksum (slice (Z.to_nat processed) (Z.to_nat (ck_offset span - processed)) mem) else checksum in
        let checksum := adler32_update checksum (ck_bytes span) in
        checksum_spans checksum (wrap64 (ck_end span)) (Some span) spans
  end.

Definition checksum_marked_buffer_range (markings : VkMarkedOffsetsARM) : outcome Z :=
  let* (_, ms) := entries markings in
  let* spans := marked_spans 0 ms in
  checksum_spans (adler32 []) 0 None (merge_sort span_le spans).
End Marked.

(** ** Checking a buffer on the replay *)

Record checked_buffer := CheckedBuffer {
  kb_size : Z;
  kb_mapped : bool;          (** its memory is mapped *)
  kb_area : host_area
}.

(** [find_buffer_memory] notes that the memory was handed out, and with it that it
    needs no clearing any more *)
Definition found_memory (b : checked_buffer) : checked_buffer :=
  CheckedBuffer (kb_size b) (kb_mapped b) (HostArea (a_bytes (kb_area b)) true).

Definition checked_size (b : checked_buffer) (offset size : Z) : Z := if size =? VK_WHOLE_SIZE then wrap64 (kb_size b - offset) else size.

(** the bytes at [ptr + offset] *)
Definition checked_bytes (b : checked_buffer) (offset size : Z) : outcome (list byte) :=
  let* _ := require (kb_mapped b) AssertFailed in
  load (a_bytes (kb_area b)) offset (Z.to_nat size).

Section Check.
Context `{MarkingHeader}.
Context (buffers : list address_buffer) (structures : list (Z * Z)).
Context (pending : list descriptor_rewrite) (pipelines : list pipeline_handles).

Definition checksum_buffer_range (b : checked_buffer) (offset size : Z) (markings : option VkMarkedOffsetsARM) : outcome (Z * checked_buffer) :=
  let size := checked_size b offset size in
  if size =? 0 then Ok (adler32 [], found_memory b)
  else match markings with
  | None => let* bytes := checked_bytes b offset size in Ok (adler32 bytes, found_memory b)
  | Some markings =>
      let* _ := require (wrap64 (offset + size) <=? kb_size b) AssertFailed in
      let* bytes := checked_bytes b offset size in
      let* checksum := checksum_marked_buffer_range buffers structures pending pipelines bytes markings in
      Ok (checksum, found_memory b)
  end.
End Check.

(** ** Adding to a checksum *)

(** the two sums *)
Fixpoint adler_sums (a b : Z) (data : list byte) : Z * Z :=
  match data with
  | [] => (a, b)
  | d :: data => let a := (a + Z_of_byte d) mod MOD_ADLER in adler_sums a ((b + a) mod MOD_ADLER) data
  end.

Definition adler_pack (s : Z * Z) : Z := Z.lor (wrap32 (Z.shiftl s.2 16)) s.1.

Lemma adler_loop_pack data : forall a b, adler_loop a b data = adler_pack (adler_sums a b data).
Proof. induction data as [|d data IH]; intros a b; [done|]. apply IH. Qed.

Lemma adler_sums_app x y : forall a b, adler_sums a b (x ++ y) = adler_sums (adler_sums a b x).1 (adler_sums a b x).2 y.
Proof. induction x as [|d x IH]; intros a b; [done|]. apply IH. Qed.

Lemma adler_sums_range data : forall a b, u16 a -> u16 b -> u16 (adler_sums a b data).1 /\ u16 (adler_sums a b data).2.
Proof.
  induction data as [|d data IH]; intros a b Ha Hb; [done|]. cbn [adler_sums]. cbv zeta.
  apply IH; unfold u16, UINT16_MAX, MOD_ADLER; match goal with |- context [?x mod 65521] => pose proof (Z.mod_pos_bound x 65521 ltac:(lia)) end; lia.
Qed.

Lemma u16_shiftr x : u16 x -> Z.shiftr x 16 = 0.
Proof. intros ?. rewrite Z.shiftr_div_pow2 by lia. apply Z.div_small. unfold u16, UINT16_MAX in *. lia. Qed.

Lemma adler_unpack s : u16 s.1 -> u16 s.2 -> Z.land (adler_pack s) 65535 = s.1 /\ Z.shiftr (adler_pack s) 16 = s.2.
Proof.
  intros Ha Hb. unfold adler_pack. rewrite wrap32_small; [|rewrite Z.shiftl_mul_pow2 by lia; unfold u16, UINT16_MAX in *; u_lia]. split.
  - change 65535 with (Z.ones 16). rewrite Z.land_lor_distr_l, !Z.land_ones by lia. rewrite (Z.mod_small s.1) by (unfold u16, UINT16_MAX in *; lia).
    rewrite Z.shiftl_mul_pow2, Z.mod_mul by lia. done.
  - rewrite Z.shiftr_lor, (u16_shiftr s.1) by done. rewrite Z.shiftr_shiftl_l by lia. by rewrite Z.sub_diag, Z.shiftl_0_r, Z.lor_0_r.
Qed.

(** a checksum that is continued is that of all bytes *)
Lemma adler32_update_app x y : adler32_update (adler32 x) y = adler32 (x ++ y).
Proof.
  unfold adler32, adler32_update. rewrite !adler_loop_pack, adler_sums_app.
  destruct (adler_sums_range x 1 0) as [Ha Hb]; [done..|]. by destruct (adler_unpack (adler_sums 1 0 x) Ha Hb) as [-> ->].
Qed.

Lemma adler32_range x : u32 (adler32 x).
Proof.
  unfold adler32. rewrite adler_loop_pack. destruct (adler_sums_range x 1 0) as [Ha Hb]; [done..|].
  destruct (adler_unpack (adler_sums 1 0 x) Ha Hb) as [_ E]. rewrite Z.shiftr_div_pow2 in E by lia.
  assert (Hp : 0 <= adler_pack (adler_sums 1 0 x)).
  { unfold adler_pack. apply Z.lor_nonneg. split; [apply wrap32_range|apply Ha]. }
  unfold u16, UINT16_MAX in Hb. pose proof (Z.div_mod (adler_pack (adler_sums 1 0 x)) (2 ^ 16) ltac:(lia)).
  pose proof (Z.mod_pos_bound (adler_pack (adler_sums 1 0 x)) (2 ^ 16) ltac:(lia)). u_lia.
Qed.

(** ** Memory with the spans put back *)

Definition span_inside (n : Z) (s : marked_checksum_span) : Prop := 0 <= ck_offset s /\ ck_bytes s <> [] /\ ck_end s <= n.

(** two spans that may both be there *)
Definition compatible (a b : marked_checksum_span) : Prop :=
  (ck_offset a = ck_offset b /\ ck_type a = ck_type b /\ ck_bytes a = ck_bytes b) \/
  ck_end a <= ck_offset b \/ ck_end b <= ck_offset a.

Definition outside_span (i : nat) (s : marked_checksum_span) : Prop := Z.of_nat i < ck_offset s \/ ck_end s <= Z.of_nat i.

Definition restore (spans : list marked_checksum_span) (mem : list byte) : list byte :=
  foldl (fun mem s => memcpy mem (Z.to_nat (ck_offset s)) (ck_bytes s)) mem spans.

(** what [restore] makes of the memory, whatever the order of the spans *)
Record restores (spans : list marked_checksum_span) (mem mem' : list byte) : Prop := {
  rs_length : length mem' = length mem;
  rs_spans : forall s, s ∈ spans -> slice (Z.to_nat (ck_offset s)) (length (ck_bytes s)) mem' = ck_bytes s;
  rs_other : forall i, Forall (outside_span i) spans -> mem' !! i = mem !! i
}.

Lemma span_inside_pos n s : span_inside n s -> ck_offset s < ck_end s.
Proof. intros (_ & Hb & _). unfold ck_end. destruct (ck_bytes s); [done|]. simpl. lia. Qed.

Lemma compatible_sym a b : compatible a b -> compatible b a.
Proof. intros [(E1 & E2 & E3)|[?|?]]; [by left|by right; right|by right; left]. Qed.

Lemma compatible_same a b s : ck_offset a = ck_offset b -> ck_type a = ck_type b -> ck_bytes a = ck_bytes b ->
  compatible a s -> compatible b s.
Proof. unfold compatible, ck_end. intros -> -> ->. done. Qed.

Lemma restore_restores spans : forall mem, Forall (span_inside (Z.of_nat (length mem))) spans ->
  List.ForallOrdPairs compatible spans -> restores spans mem (restore spans mem).
Proof.
  induction spans as [|s spans IH]; intros mem Hin Hc.
  { split; [done| |done]. intros s Hs. by apply not_elem_of_nil in Hs. }
  apply Forall_cons in Hin as [Hs Hin]. inversion Hc as [|? ? Hcs Hcr]; subst. pose proof (span_inside_pos _ _ Hs) as Hpos.
  destruct Hs as (H0 & Hb & He). unfold ck_end in He, Hpos. cbn [restore foldl].
  set (mem1 := memcpy mem _ _). assert (Hl : length mem1 = length mem) by (apply length_memcpy; lia).
  destruct (IH mem1) as [R1 R2 R3]; [by rewrite Hl|done|]. fold (restore spans mem1). split; [congruence| |].
  - intros t Ht. apply elem_of_cons in Ht as [->|Ht]; [|by apply R2].
    apply list_eq. intros i. rewrite slice_lookup. case_decide as Hi; [|symmetry; apply lookup_ge_None; lia].
    destruct (decide (Forall (outside_span (Z.to_nat (ck_offset s) + i)) spans)) as [Ho|Ho].
    + rewrite R3 by done. unfold mem1. rewrite memcpy_lookup by lia. rewrite decide_True by lia. f_equal. lia.
    + apply not_Forall_Exists in Ho; [|intros ?; unfold outside_span; apply _]. apply Exists_exists in Ho as (t & Ht & Ho).
      rewrite Forall_forall in Hcs, Hin. specialize (Hcs t Ht). pose proof (R2 t Ht) as Hw. simpl in Ho. unfold outside_span in Ho.
      destruct Hcs as [(E1 & _ & E3)|Hd]; [|unfold ck_end in *; lia]. rewrite <- E1, <- E3 in Hw.
      apply (f_equal (fun l => l !! i)) in Hw. by rewrite slice_lookup, decide_True in Hw by done.
  - intros i Hi. apply Forall_cons in Hi as [Hi1 Hi]. rewrite R3 by done. unfold mem1. rewrite memcpy_lookup by lia.
    unfold outside_span, ck_end in Hi1. rewrite decide_False by lia. done.
Qed.

Lemma restores_unique spans mem mem1 mem2 : restores spans mem mem1 -> restores spans mem mem2 -> mem1 = mem2.
Proof.
  intros [L1 S1 O1] [L2 S2 O2]. apply list_eq. intros i.
  destruct (decide (Forall (outside_span i) spans)) as [Ho|Ho]; [by rewrite O1, O2|].
  apply not_Forall_Exists in Ho; [|intros ?; unfold outside_span; apply _]. apply Exists_exists in Ho as (t & Ht & Ho).
  pose proof (eq_trans (S1 t Ht) (eq_sym (S2 t Ht))) as E. apply slice_eq_iff in E. simpl in Ho.
  unfold outside_span, ck_end in Ho. apply E. lia.
Qed.

(** ** The sorted spans *)

Section Spans.
Context (mem mem' : list byte).

Definition span_before (p : option marked_checksum_span) (s : marked_checksum_span) : Prop :=
  match p with None => True | Some p => ck_offset p <= ck_offset s end.

Definition processed_of (p : option marked_checksum_span) : Z := match p with None => 0 | Some p => ck_end p end.

Definition previous_ok (n : Z) (p : option marked_checksum_span) : Prop := match p with None => True | Some p => span_inside n p end.

(** [l] follows [p] *)
Definition following_spans (p : option marked_checksum_span) (l : list marked_checksum_span) : list marked_checksum_span :=
  match p with None => l | Some p => p :: l end.

Lemma span_again p s : (match p with Some p => ck_offset s =? ck_offset p | None => false end) = true ->
  exists q, p = Some q /\ ck_offset s = ck_offset q.
Proof. destruct p as [q|]; [|done]. intros E. bool_to_prop. by exists q. Qed.

Lemma checksum_spans_ok spans : forall previous,
  length mem' = length mem -> Z.of_nat (length mem) <= UINT64_MAX ->
  previous_ok (Z.of_nat (length mem)) previous -> Forall (span_inside (Z.of_nat (length mem))) spans ->
  StronglySorted span_le spans -> Forall (span_before previous) spans ->
  List.ForallOrdPairs compatible (following_spans previous spans) ->
  (forall s, s ∈ spans -> slice (Z.to_nat (ck_offset s)) (length (ck_bytes s)) mem' = ck_bytes s) ->
  (forall i, processed_of previous <= Z.of_nat i -> Forall (outside_span i) spans -> mem' !! i = mem !! i) ->
  checksum_spans mem (adler32 (take (Z.to_nat (processed_of previous)) mem')) (processed_of previous) previous spans = Ok (adler32 mem').
Proof.
  induction spans as [|s spans IH]; intros p Hl Hu Hp Hin Hs Hb Hc Hsp Ho; cbn [checksum_spans].
  { assert (H0 : 0 <= processed_of p) by (destruct p as [q|]; [|done]; destruct Hp as (? & _); cbn [processed_of]; unfold ck_end; lia).
    destruct (Z.ltb_spec (processed_of p) (Z.of_nat (length mem))) as [Hlt|Hge].
    - rewrite adler32_update_app. do 2 f_equal. rewrite <- (take_drop (Z.to_nat (processed_of p)) mem') at 2. f_equal.
      apply list_eq. intros i. rewrite !lookup_drop. symmetry. apply Ho; [lia|constructor].
    - do 2 f_equal. apply take_ge. lia. }
  apply Forall_cons in Hin as [Hs1 Hin]. apply Forall_cons in Hb as [Hb1 Hb]. inversion Hs as [|? ? Hs2 Hs3]; subst.
  pose proof (span_inside_pos _ _ Hs1) as Hpos. cbv zeta.
  destruct (match p with Some p => ck_offset s =? ck_offset p | None => false end) eqn:Ea.
  { apply span_again in Ea as (q & -> & Ea). cbn [following_spans] in Hc. inversion Hc as [|? ? Hc1 Hc2]; subst.
    apply Forall_cons in Hc1 as [Hq Hc1]. pose proof (span_inside_pos _ _ Hp) as Hqpos.
    destruct Hq as [(_ & E2 & E3)|Hd]; [|lia]. rewrite E2, E3, Z.eqb_refl, bool_decide_true by done. cbn [andb require obind].
    apply IH; try done.
    - cbn [following_spans]. constructor; [done|]. by inversion Hc2.
    - intros t Ht. apply Hsp. by right.
    - intros i Hi Hout. apply Ho; [done|]. constructor; [|done]. right. cbn [processed_of] in Hi. unfold ck_end in *. rewrite <- E3. lia. }
  assert (Hge : processed_of p <= ck_offset s).
  { destruct p as [q|]; [|by destruct Hs1]. cbn [following_spans processed_of] in *. inversion Hc as [|? ? Hc1 Hc2]; subst.
    apply Forall_cons in Hc1 as [Hq _]. bool_to_prop. cbn [span_before] in Hb1. destruct Hq as [(? & _)|Hd]; [congruence|lia]. }
  assert (H0 : 0 <= processed_of p) by (destruct p as [q|]; [|done]; destruct Hp as (? & _); cbn [processed_of]; unfold ck_end; lia).
  rewrite (proj2 (Z.ltb_ge _ _)) by done. cbn [negb require obind].
  assert (E1 : (if ck_offset s >? processed_of p
     then adler32_update (adler32 (take (Z.to_nat (processed_of p)) mem'))
       (slice (Z.to_nat (processed_of p)) (Z.to_nat (ck_offset s - processed_of p)) mem)
     else adler32 (take (Z.to_nat (processed_of p)) mem')) = adler32 (take (Z.to_nat (ck_offset s)) mem')).
  { rewrite Z.gtb_ltb. destruct (Z.ltb_spec (processed_of p) (ck_offset s)) as [Hlt|Hge']; [|repeat f_equal; lia].
    rewrite adler32_update_app. f_equal. replace (Z.to_nat (ck_offset s)) with (Z.to_nat (processed_of p) + Z.to_nat (ck_offset s - processed_of p))%nat by lia.
    rewrite <- take_take_drop. f_equal. change (take ?n (drop ?m mem')) with (slice m n mem').
    apply slice_eq_iff. intros i Hi. symmetry. apply Ho; [lia|]. constructor; [left; lia|].
    eapply List.Forall_impl; [|exact Hs3]. intros t Ht. left. unfold span_le in Ht. lia. }
  rewrite E1, adler32_update_app. destruct Hs1 as (Hs0 & Hsb & Hse). rewrite wrap64_small by (unfold ck_end in *; u_lia).
  assert (E2 : take (Z.to_nat (ck_offset s)) mem' ++ ck_bytes s = take (Z.to_nat (ck_end s)) mem').
  { rewrite <- (Hsp s) by (by left). unfold slice. rewrite take_take_drop. f_equal. unfold ck_end. lia. }
  rewrite E2. apply (IH (Some s)); try done.
  - eapply List.Forall_impl; [|exact Hs3]. intros t Ht. unfold span_le in Ht. cbn [span_before]. lia.
  - destruct p as [q|]; cbn [following_spans] in *; [by inversion Hc|done].
  - intros t Ht. apply Hsp. by right.
  - intros i Hi Hout. apply Ho; [cbn [processed_of] in Hi; lia|]. constructor; [by right|done].
Qed.

Lemma checksum_spans_compatible spans : forall checksum previous c,
  Z.of_nat (length mem) <= UINT64_MAX ->
  previous_ok (Z.of_nat (length mem)) previous -> Forall (span_inside (Z.of_nat (length mem))) spans ->
  StronglySorted span_le spans -> Forall (span_before previous) spans ->
  checksum_spans mem checksum (processed_of previous) previous spans = Ok c ->
  List.ForallOrdPairs compatible (following_spans previous spans).
Proof.
  induction spans as [|s spans IH]; intros ck p c Hu Hp Hin Hs Hb E; [destruct p; repeat constructor|]. cbn [checksum_spans] in E. cbv zeta in E.
  apply Forall_cons in Hin as [Hs1 Hin]. apply Forall_cons in Hb as [Hb1 Hb]. inversion Hs as [|? ? Hs2 Hs3]; subst.
  pose proof (span_inside_pos _ _ Hs1) as Hpos.
  destruct (match p with Some p => ck_offset s =? ck_offset p | None => false end) eqn:Ea.
  { apply span_again in Ea as (q & -> & Ea).
    destruct ((ck_type s =? ck_type q) && bool_decide (ck_bytes s = ck_bytes q)) eqn:Es; [|done]. cbn [require obind] in E.
    apply andb_true_iff in Es as [Et Eb]. bool_to_prop. apply bool_decide_eq_true in Eb.
    apply IH in E; try done. cbn [following_spans] in *. inversion E as [|? ? E1 E2]; subst. constructor.
    - constructor; [by left|done].
    - constructor; [|done]. eapply List.Forall_impl; [|exact E1]. intros t. by apply compatible_same. }
  destruct (Z.ltb_spec (ck_offset s) (processed_of p)) as [Hlt|Hge]; [done|]. cbn [negb require obind] in E.
  assert (Hw : wrap64 (ck_end s) = ck_end s).
  { destruct Hs1 as (? & _ & ?). apply wrap64_small. unfold ck_end in *; u_lia. }
  rewrite Hw in E. change (ck_end s) with (processed_of (Some s)) in E. apply IH in E; try done.
  - destruct p as [q|]; [|done]. cbn [following_spans processed_of] in *. constructor; [|done].
    constructor; [by right; left|]. eapply List.Forall_impl; [|exact Hs3]. intros t Ht. right; left. unfold span_le in Ht. lia.
  - eapply List.Forall_impl; [|exact Hs3]. intros t Ht. unfold span_le in Ht. cbn [span_before]. lia.
Qed.

(** the only failure is the abort of spans that conflict or overlap *)
Lemma checksum_spans_outcome spans : forall checksum processed previous,
  (exists c, checksum_spans mem checksum processed previous spans = Ok c) \/
  checksum_spans mem checksum processed previous spans = Fail AbortCall.
Proof.
  induction spans as [|s spans IH]; intros ck n p; cbn [checksum_spans]; [left; by eexists|]. cbv zeta.
  destruct (match p with Some p => ck_offset s =? ck_offset p | None => false end).
  - destruct (match p with Some p => _ | None => _ end); [apply IH|by right].
  - destruct (ck_offset s <? n); [by right|apply IH].
Qed.
End Spans.

(** ** The spans of the markings *)

Section SpanProofs.
Context `{MarkingHeader}.
Context (buffers : list address_buffer) (structures : list (Z * Z)).
Context (pending : list descriptor_rewrite) (pipelines : list pipeline_handles).

Lemma reverse_descriptor_bytes type bs l : forall found res,
  reverse_translate_descriptor_replay_bytes l type bs found = Ok res ->
  res = found \/ exists c, c ∈ l /\ dr_capture_bytes c <> [] /\ res = Some (dr_capture_bytes c).
Proof.
  induction l as [|c l IH]; intros found res; cbn [reverse_translate_descriptor_replay_bytes]; [intros [= <-]; by left|].
  destruct (_ || _) eqn:Ec.
  { intros E. apply IH in E as [->|(c' & ? & ? & ->)]; [by left|]. right. exists c'. split; [by right|done]. }
  rewrite !orb_false_iff in Ec. destruct Ec as [[[_ [_ Hn]] _] _]. apply Nat.eqb_neq in Hn.
  assert (Hne : dr_capture_bytes c <> []) by (by (intros En; rewrite En in Hn)).
  destruct found as [b|].
  - destruct (bool_decide _); [cbn [require obind]|done]. intros E.
    apply IH in E as [->|(c' & ? & ? & ->)]; [by left|]. right. exists c'. split; [by right|done].
  - intros E. apply IH in E as [->|(c' & ? & ? & ->)]; right; [exists c; split; [by left|done]|].
    exists c'. split; [by right|done].
Qed.

Lemma reverse_handle_length handle l : forall found res,
  reverse_translate_shader_group_handle l handle found = Ok res ->
  res = found \/ exists bs, res = Some bs /\ length bs = marked_handle_size.
Proof.
  induction l as [|p l IH]; intros found res; cbn [reverse_translate_shader_group_handle]; [intros [= <-]; by left|].
  destruct (find_group_of_replay_handle p handle) as [[g a]|]; [|apply IH]. intros E. outcome_inv.
  apply IH in E as [->|?]; [|by right]. right. eexists. split; [done|]. rewrite length_slice.
  match goal with Hle : Nat.leb _ _ = true |- _ => apply Nat.leb_le in Hle end. lia.
Qed.

(** only the span of a descriptor can reach beyond the range *)
Lemma mark_span_inside mem index mk s : 0 <= mk_offset mk -> mark_span buffers structures pending pipelines mem index mk = Ok (Some s) ->
  ck_type s = mk_type mk /\ 0 <= ck_offset s /\ ck_bytes s <> [] /\
  (ck_type s <> VK_MARKING_TYPE_DESCRIPTOR_ARM -> ck_end s <= Z.of_nat (length mem)).
Proof.
  intros H0. unfold mark_span. cbv zeta. unfold ck_end. rewrite !Z.gtb_ltb, Z.geb_leb.
  destruct (mk_type mk =? VK_MARKING_TYPE_DEVICE_ADDRESS_ARM) eqn:E1; bool_to_prop.
  { intros E. do 3 apply obind_ok_inv in E as (? & ? & E).
    apply (f_equal (fun o => match o with Ok (Some x) => x | _ => s end)) in E. cbv beta iota in E. subst s. outcome_inv.
    cbn [ck_type ck_offset ck_bytes]. rewrite length_le_encode.
    split; [done|]. split; [done|]. split; [by intros En; apply (f_equal length) in En|]. bool_to_prop. lia. }
  destruct (mk_type mk =? VK_MARKING_TYPE_DESCRIPTOR_ARM) eqn:E2; bool_to_prop.
  { intros E. outcome_inv. destruct v0 as [bs|]; [|done]. injection E as <-. cbn [ck_type ck_offset ck_bytes].
    apply reverse_descriptor_bytes in E3 as [?|(c & _ & Hne & [= ->])]; [done|]. split; [done|]. split; [done|]. by split. }
  destruct (_ || _); [done|]. destruct (mk_type mk =? VK_MARKING_TYPE_SHADER_GROUP_HANDLE_ARM) eqn:E3; [|done].
  intros E. outcome_inv. destruct v0 as [bs|]; [|done]. injection E as <-. cbn [ck_type ck_offset ck_bytes].
  apply reverse_handle_length in E4 as [?|(bs' & [= <-] & Hl)]; [done|]. rewrite Hl. split; [done|]. split; [done|].
  split; [intros ->; done|]. bool_to_prop. lia.
Qed.
Lemma marked_spans_inside mem ms : forall index spans,
  Forall (fun mk => 0 <= mk_offset mk) ms ->
  marked_spans buffers structures pending pipelines mem index ms = Ok spans ->
  Forall (fun s => ck_type s = VK_MARKING_TYPE_DESCRIPTOR_ARM -> ck_end s <= Z.of_nat (length mem)) spans ->
  Forall (span_inside (Z.of_nat (length mem))) spans.
Proof.
  induction ms as [|mk ms IH]; intros index spans H0 E Hd; cbn [marked_spans] in E; [by injection E as <-|].
  apply Forall_cons in H0 as [H0 H0']. apply obind_ok_inv in E as (o & E1 & E). apply obind_ok_inv in E as (l & E2 & E).
  destruct o as [s|]; injection E as <-; [|by eapply IH]. apply Forall_cons in Hd as [Hd1 Hd2]. constructor; [|by eapply IH].
  destruct (mark_span_inside _ _ _ _ H0 E1) as (_ & S2 & S3 & S4). split; [done|]. split; [done|].
  destruct (decide (ck_type s = VK_MARKING_TYPE_DESCRIPTOR_ARM)); auto.
Qed.

Lemma checksum_sorted mem spans : Z.of_nat (length mem) <= UINT64_MAX -> Forall (span_inside (Z.of_nat (length mem))) spans ->
  forall mem', List.ForallOrdPairs compatible spans -> restores spans mem mem' ->
  checksum_spans mem (adler32 []) 0 None (merge_sort span_le spans) = Ok (adler32 mem').
Proof.
  intros Hu Hin mem' Hc [R1 R2 R3]. assert (Hp : merge_sort span_le spans ≡ₚ spans) by apply merge_sort_Permutation.
  apply (checksum_spans_ok mem mem' _ None); try done.
  - by rewrite Hp.
  - apply (StronglySorted_merge_sort span_le).
  - by apply List.Forall_forall.
  - cbn [following_spans]. by apply (pairs_perm _ spans); [exact compatible_sym| |].
  - intros s Hs. apply R2. by rewrite <- Hp.
  - intros i _ Ho. apply R3. by rewrite <- Hp.
Qed.

Lemma checksum_conflict mem spans : Z.of_nat (length mem) <= UINT64_MAX -> Forall (span_inside (Z.of_nat (length mem))) spans ->
  ~ List.ForallOrdPairs compatible spans ->
  checksum_spans mem (adler32 []) 0 None (merge_sort span_le spans) = Fail AbortCall.
Proof.
  intros Hu Hin Hc. assert (Hp : merge_sort span_le spans ≡ₚ spans) by apply merge_sort_Permutation.
  destruct (checksum_spans_outcome mem (merge_sort span_le spans) (adler32 []) 0 None) as [[c E]|E]; [|done]. destruct Hc.
  apply (pairs_perm _ (merge_sort span_le spans)); [exact compatible_sym|done|].
  apply (checksum_spans_compatible mem _ (adler32 []) None c); try done.
  - by rewrite Hp.
  - apply (StronglySorted_merge_sort span_le).
  - by apply List.Forall_forall.
Qed.
End SpanProofs.

(** ** Properties *)

(** C34: The checksum of a marked range is that of the range with the bytes of the
    capture put back into every marked place, in whatever order the markings come,
    when markings of the same place agree on what is there and no two others overlap;
    in every other case the replay aborts. *)
Theorem marked_checksum_reference `{MarkingHeader} (buffers : list address_buffer) (structures : list (Z * Z))
    (pending : list descriptor_rewrite) (pipelines : list pipeline_handles) (mem : list byte)
    (markings : VkMarkedOffsetsARM) arrays (ms : list marking) (spans : list marked_checksum_span)
    (Hentries : entries markings = Ok (arrays, ms)) (Hmax : Z.of_nat (length mem) <= UINT64_MAX)
    (Hoffsets : Forall (fun mk => 0 <= mk_offset mk) ms)
    (Hspans : marked_spans buffers structures pending pipelines mem 0 ms = Ok spans)
    (Hdescriptors : Forall (fun s => ck_type s = VK_MARKING_TYPE_DESCRIPTOR_ARM -> ck_end s <= Z.of_nat (length mem)) spans) :
  (List.ForallOrdPairs compatible spans ->
    checksum_marked_buffer_range buffers structures pending pipelines mem markings = Ok (adler32 (restore spans mem)) /\
    restores spans mem (restore spans mem)) /\
  (~ List.ForallOrdPairs compatible spans ->
    checksum_marked_buffer_range buffers structures pending pipelines mem markings = Fail AbortCall).
Proof.
  assert (Hin : Forall (span_inside (Z.of_nat (length mem))) spans) by (by eapply marked_spans_inside).
  unfold checksum_marked_buffer_range. rewrite Hentries. cbn [obind]. rewrite Hspans. cbn [obind]. split; intros Hc.
  - assert (Hr : restores spans mem (restore spans mem)) by (by apply restore_restores).
    split; [|exact Hr]. by apply checksum_sorted.
  - by apply checksum_conflict.
Qed.

(** the pairs of a list that is given *)
Ltac all_pairs :=
  repeat match goal with
  | |- List.ForallOrdPairs _ [] => apply List.FOP_nil
  | |- List.ForallOrdPairs _ (_ :: _) => apply List.FOP_cons
  | |- Forall _ [] => apply List.Forall_nil
  | |- Forall _ (_ :: _) => apply List.Forall_cons
  end.

#[local] Existing Instance demo_header.

Definition demo_checked_buffers : list address_buffer := [AddressBuffer state_bound 4096 1000 256 false].

Definition demo_descriptors : list descriptor_rewrite := [DescriptorRewrite 7 [xaa; xbb] [xcc; xdd]].

(** an address, a null address and a descriptor as the replay has them *)
Definition demo_replay_range : list byte := concat (map (le_encode 8) [4100; 77; 0]) ++ [xcc; xdd; x01].

(** the address is marked twice *)
Definition demo_checked_marks : VkMarkedOffsetsARM := demo_marks [(24, 2, 7); (0, 1, 0); (16, 1, 0); (0, 1, 0)].

Definition demo_spans : list marked_checksum_span :=
  [ChecksumSpan 24 [xaa; xbb] 2 0; ChecksumSpan 0 (le_encode 8 1004) 1 1; ChecksumSpan 16 (le_encode 8 0) 1 2; ChecksumSpan 0 (le_encode 8 1004) 1 3].

Lemma marked_checksum_reference_witness :
  checksum_marked_buffer_range demo_checked_buffers [] demo_descriptors [] demo_replay_range demo_checked_marks =
    Ok (adler32 (restore demo_spans demo_replay_range)) /\
  restores demo_spans demo_replay_range (restore demo_spans demo_replay_range).
Proof.
  refine (proj1 (marked_checksum_reference demo_checked_buffers [] demo_descriptors [] demo_replay_range demo_checked_marks _
    [Marking 24 2 7; Marking 0 1 0; Marking 16 1 0; Marking 0 1 0] demo_spans eq_refl _ _ _ _) _).
  - by vm_compute.
  - repeat constructor; by vm_compute.
  - vm_compute. reflexivity.
  - repeat constructor; by vm_compute.
  - unfold demo_spans. all_pairs; unfold compatible, ck_end; simpl; try (right; lia). left. by repeat split.
Defined.

(** the range that the checksum is taken of is that of the capture *)
Example demo_restored : restore demo_spans demo_replay_range = concat (map (le_encode 8) [1004; 77; 0]) ++ [xaa; xbb; x01].
Proof. vm_compute. reflexivity. Qed.
