(* ===== verification/ChecksumReplay.v ===== *)
(** * Checksums of replayed memory (src/hardcode_read.cpp)

    A range of memory whose marked values were translated to the replay has the
    checksum that it had in the capture: every place that [translate_marked_offsets]
    rewrites is found again by the checksum and has the bytes of the capture there. *)

From Stdlib Require Import ZArith Lia Bool.
From Stdlib.Strings Require Import Byte.
From stdpp Require Import base numbers list sorting.
From S2P Require Import Prelude Stream RangeTracking Patch Memory FileWriter FileReader RandomAccess Packets Containers Markings Translate Updates HostMemory Checksums.

#[local] Open Scope Z_scope.

(** ** Replay addresses of buffers *)

(** the address of the capture that the buffer gives an address of the replay *)
Definition capture_of (b : address_buffer) (address : Z) : Z := ab_capture_device_address b + (address - ab_device_address b).

Definition in_replay (b : address_buffer) (address : Z) : Prop :=
  ab_device_address b <= address < ab_device_address b + ab_size b.

Lemma find_replay_fold address size l : forall best,
  match foldl (find_replay_step address size) best l with
  | None => best = None /\ forall b, b ∈ l -> holds_replay_range address size b = false
  | Some (b, offset) =>
      best = Some (b, offset) \/ (b ∈ l /\ holds_replay_range address size b = true /\ offset = address - ab_device_address b)
  end.
Proof.
  induction l as [|x l IH]; intros best; cbn [foldl].
  { destruct best as [[b o]|]; [by left|]. split; [done|]. intros b Hb. by apply not_elem_of_nil in Hb. }
  assert (Hstep : find_replay_step address size best x = best /\ (best = None -> holds_replay_range address size x = false) \/
    find_replay_step address size best x = Some (x, address - ab_device_address x) /\ holds_replay_range address size x = true).
  { unfold find_replay_step. destruct (holds_replay_range address size x) eqn:Ex; [|by left].
    destruct best as [[b o]|]; [|by right]. destruct (_ >? _); [by right|by left]. }
  specialize (IH (find_replay_step address size best x)). destruct (foldl _ _ l) as [[b o]|].
  - destruct IH as [IH|(H1 & H2 & H3)]; [|right; split; [by right|done]].
    destruct Hstep as [[E _]|[E Ex]]; rewrite E in IH; [by left|]. injection IH as <- <-. right. split; [by left|done].
  - destruct IH as [H1 H2]. destruct Hstep as [[E Ex]|[E _]]; rewrite E in H1; [|done]. subst best. split; [done|].
    intros b Hb. apply elem_of_cons in Hb as [->|Hb]; auto.
Qed.

Lemma holds_replay_spec address b : addressable b -> 0 <= address <= UINT64_MAX ->
  holds_replay_range address 1 b = true <-> ab_state b = state_bound /\ in_replay b address.
Proof.
  intros (_ & _ & B3 & B4 & B5 & _) Ha. unfold holds_replay_range, in_replay.
  rewrite !andb_true_iff, negb_true_iff, orb_false_iff, bool_decide_eq_true, !Z.eqb_neq, !Z.leb_le. split.
  - intros [[[Hs _] Hle] Hw]. rewrite wrap64_small in Hw by u_lia. split; [done|lia].
  - intros [Hs Hr]. rewrite wrap64_small by u_lia. repeat split; (done || lia).
Qed.

(** ** What the replay knows *)

Section Knowledge.
Context `{MarkingHeader}.

Record addresses_known (buffers : list address_buffer) (structures : list (Z * Z))
    (buffer_at structure_at : nat -> mapped) (buffer_map structure_map : remapper) : Prop := {
  ak_buffers : remapper_matches buffer_at buffer_map (map Some buffers);
  ak_structures : structures_match structure_at structure_map (map Some structures);
  ak_addressable : forall b x, b ∈ buffers -> holds_replay_range x 1 b = true -> addressable b;
  ak_agree : forall b b' x, b ∈ buffers -> b' ∈ buffers -> addressable b -> addressable b' ->
    in_replay b x -> in_replay b' x -> capture_of b x = capture_of b' x;
  ak_structure_agree : forall dev cap cap', (dev, cap) ∈ structures -> (dev, cap') ∈ structures -> cap = cap'
}.

(** a marked address of the capture that the replay knows *)
Definition known_address (buffers : list address_buffer) (structures : list (Z * Z)) (mk : marking) (current : Z) : Prop :=
  current = 0 \/
  (subtype32 mk = VK_DEVICE_ADDRESS_TYPE_BUFFER_ARM /\
    exists b, b ∈ buffers /\ addressable b /\ ab_state b = state_bound /\ in_capture b current) \/
  (subtype32 mk = VK_DEVICE_ADDRESS_TYPE_ACCELERATION_STRUCTURE_ARM /\
    exists dev, (dev, current) ∈ structures /\ dev <> 0 /\ current <> 0).

(** the address that the checksum uses for one of the replay *)
Definition checksum_address (buffers : list address_buffer) (structures : list (Z * Z)) (mk : marking) (current : Z) : option Z :=
  if current =? 0 then Some 0
  else if subtype32 mk =? VK_DEVICE_ADDRESS_TYPE_BUFFER_ARM then reverse_translate_buffer_replay_address buffers current
  else reverse_translate_acceleration_structure_replay_address structures current.

Lemma reverse_structure_replay structures dev cap :
  (dev, cap) ∈ structures -> cap <> 0 -> (forall cap', (dev, cap') ∈ structures -> cap = cap') ->
  reverse_translate_acceleration_structure_replay_address structures dev = Some cap.
Proof.
  intros Hin Hc Hu. induction structures as [|[d c] l IH]; [by apply not_elem_of_nil in Hin|].
  cbn [reverse_translate_acceleration_structure_replay_address]. destruct (Z.eqb_spec d dev) as [->|Hn]; cbn [negb].
  - rewrite <- (Hu c) by (by left). by rewrite (proj2 (Z.eqb_neq _ _)).
  - apply elem_of_cons in Hin as [[= <- _]|Hin]; [done|]. apply IH; [done|]. intros cap' Hcap. apply Hu. by right.
Qed.

Section Addresses.
Context (buffers : list address_buffer) (structures : list (Z * Z)).
Context (buffer_at structure_at : nat -> mapped) (buffer_map structure_map : remapper).
Hypothesis Hknown : addresses_known buffers structures buffer_at structure_at buffer_map structure_map.

Lemma elem_of_some {A} (l : list A) a : a ∈ l -> Some a ∈ map Some l.
Proof. intros Ha. apply list_elem_of_In, in_map, list_elem_of_In, Ha. Qed.

Lemma checksum_buffer_address b c : b ∈ buffers -> addressable b -> ab_state b = state_bound -> in_capture b c ->
  reverse_translate_buffer_replay_address buffers (replay_of b c) = Some c.
Proof.
  destruct Hknown as [_ _ K3 K4 _]. intros Hin Hb Hs Hc. pose proof Hb as (_ & _ & B3 & B4 & B5 & B6 & B7).
  assert (Hx : 0 <= replay_of b c <= UINT64_MAX) by (unfold replay_of, in_capture in *; lia).
  assert (Hr : in_replay b (replay_of b c)) by (unfold in_replay, replay_of, in_capture in *; lia).
  pose proof (find_replay_fold (replay_of b c) 1 buffers None) as Hf.
  unfold reverse_translate_buffer_replay_address, find_buffer_by_replay_address. destruct (foldl _ None buffers) as [[b' o]|].
  - destruct Hf as [?|(Hin' & Hh & ->)]; [done|]. pose proof (K3 _ _ Hin' Hh) as Hb'.
    apply holds_replay_spec in Hh as [_ Hr']; [|done|done]. pose proof (K4 b b' _ Hin Hin' Hb Hb' Hr Hr') as He.
    pose proof Hb' as (_ & _ & B3' & B4' & B5' & B6' & B7'). rewrite (proj2 (Z.eqb_neq _ _)) by lia.
    unfold capture_of in He. rewrite <- He. unfold replay_of, in_capture in *. rewrite wrap64_small by u_lia. f_equal. lia.
  - destruct Hf as [_ Hf]. specialize (Hf b Hin). rewrite (proj2 (holds_replay_spec _ b Hb Hx)) in Hf; done.
Qed.

(** an address that was translated is found again *)
Lemma checksum_address_ok mk c : known_address buffers structures mk c -> known_subtype mk ->
  checksum_address buffers structures mk
    (forward (translate_address buffer_at buffer_map) (translate_address structure_at structure_map) mk c) = Some c.
Proof.
  pose proof Hknown as [K1 K2 _ _ K5]. pose proof header_subtypes as Hn. intros Hk Hsub. unfold forward.
  destruct Hk as [->|[[Es (b & Hin & Hb & Hs & Hc)]|[Es (dev & Hin & Hd & Hc)]]].
  - pose proof K1 as [R1 R2 _ R4 _]. pose proof K2 as [S1 S2 S3 _ _].
    assert (E : forall x y : Z, x = 0 -> y = 0 -> checksum_address buffers structures mk (if subtype32 mk =? VK_DEVICE_ADDRESS_TYPE_ACCELERATION_STRUCTURE_ARM then x else y) = Some 0) by (intros x y -> ->; by destruct (_ =? _)).
    apply E; apply translate_null; try done. intros a p Hp. destruct (R4 a p Hp) as (b & _ & Hb & <- & _). apply Hb.
  - rewrite Es, (proj2 (Z.eqb_neq _ _)) by done. rewrite (translate_buffer_ok _ _ (map Some buffers) b) by (done || by apply elem_of_some).
    unfold checksum_address. pose proof Hb as (_ & _ & B3 & _).
    rewrite (proj2 (Z.eqb_neq _ _)) by (unfold replay_of, in_capture in *; lia).
    rewrite Es, Z.eqb_refl. by apply checksum_buffer_address.
  - rewrite Es, Z.eqb_refl. rewrite (translate_structure_ok _ _ (map Some structures) dev) by (done || by apply elem_of_some).
    unfold checksum_address. rewrite (proj2 (Z.eqb_neq dev 0)) by done. rewrite Es, (proj2 (Z.eqb_neq _ _)) by done.
    apply reverse_structure_replay; try done. intros c' Hc'. by eapply K5.
Qed.
End Addresses.
End Knowledge.

(** ** Descriptors of the replay *)

Section Descriptors.
Context (descriptor_length : Z -> nat).

(** every descriptor of a type has the size that both devices have for the type, and
    one of the replay stands for one of the capture *)
Record descriptors_known (pending : list descriptor_rewrite) : Prop := {
  dk_sizes : forall c, c ∈ pending -> (0 < descriptor_length (dr_type c))%nat /\
    length (dr_capture_bytes c) = descriptor_length (dr_type c) /\ length (dr_bytes c) = descriptor_length (dr_type c);
  dk_agree : forall c c', c ∈ pending -> c' ∈ pending -> dr_type c = dr_type c' -> dr_bytes c = dr_bytes c' ->
    dr_capture_bytes c = dr_capture_bytes c'
}.

(** one of them has these bytes in the capture, and those on the replay *)
Definition descriptor_replaced (pending : list descriptor_rewrite) (type : Z) (old new : list byte) : Prop :=
  exists c, c ∈ pending /\ dr_type c = type /\ dr_capture_bytes c = old /\ dr_bytes c = new.

Lemma reverse_descriptor_loop pending type bs old : forall l found,
  (forall c, c ∈ l -> c ∈ pending) -> descriptors_known pending ->
  (forall c, c ∈ pending -> dr_type c = type -> take (length (dr_bytes c)) bs = dr_bytes c -> dr_capture_bytes c = old) ->
  found = None \/ found = Some old ->
  found = Some old \/ (exists c, c ∈ l /\ dr_type c = type /\ take (length (dr_bytes c)) bs = dr_bytes c) ->
  reverse_translate_descriptor_replay_bytes l type bs found = Ok (Some old).
Proof.
  induction l as [|c l IH]; intros found Hsub Hk Hold Hf Hex; cbn [reverse_translate_descriptor_replay_bytes].
  { destruct Hex as [->|(c & Hc & _)]; [done|]. by apply not_elem_of_nil in Hc. }
  assert (Hsub' : forall d, d ∈ l -> d ∈ pending) by (intros d Hd; apply Hsub; by right).
  destruct (dk_sizes _ Hk c) as (D1 & D2 & D3); [apply Hsub; by left|].
  destruct (_ || _) eqn:Ec.
  { apply IH; try done. destruct Hex as [?|(d & Hd & Ht & Hb)]; [by left|right]. exists d. split; [|done].
    apply elem_of_cons in Hd as [->|Hd]; [|done]. exfalso. rewrite Ht, Z.eqb_refl, Hb, bool_decide_true in Ec by done. cbn [negb orb] in Ec.
    rewrite D2, D3, (proj2 (Nat.eqb_neq _ _)) in Ec by lia. cbn [orb] in Ec.
    assert (Hl : (length (dr_bytes c) <= length bs)%nat) by (rewrite <- Hb at 1; rewrite length_take; lia).
    rewrite D3 in Hl. rewrite (proj2 (Nat.ltb_ge _ _)) in Ec by lia. done. }
  rewrite !orb_false_iff, !negb_false_iff, bool_decide_eq_true in Ec. destruct Ec as [[[Et _] _] Eb]. bool_to_prop.
  assert (Ho : dr_capture_bytes c = old) by (apply Hold; [apply Hsub; by left|done|done]).
  destruct Hf as [-> | ->].
  - rewrite Ho. apply IH; try done; [by right|by left].
  - rewrite Ho, bool_decide_true by done. cbn [require obind]. apply IH; try done; [by right|by left].
Qed.

(** the bytes of a replaced descriptor are found again *)
Lemma reverse_descriptor_ok pending type old new rest : descriptors_known pending -> descriptor_replaced pending type old new ->
  reverse_translate_descriptor_replay_bytes pending type (new ++ rest) None = Ok (Some old).
Proof.
  intros Hk (c & Hc & Ht & Ho & Hn). destruct (dk_sizes _ Hk c Hc) as (D1 & D2 & D3).
  assert (Hlen : length new = descriptor_length type) by (rewrite <- Hn, <- Ht; exact D3).
  apply (reverse_descriptor_loop pending); try done; [|by left|].
  - intros d Hd Htd Hbd. destruct (dk_sizes _ Hk d Hd) as (_ & _ & E3). rewrite <- Ho. apply (dk_agree _ Hk); try done; [congruence|].
    rewrite <- Hbd, E3, Htd, <- Hlen, take_app_length. by rewrite Hn.
  - right. exists c. split; [done|]. split; [done|]. by rewrite Hn, take_app_length.
Qed.
End Descriptors.

(** ** Shader group handles of the replay *)

(** group [g] of pipeline [p] has this handle on the replay *)
Definition has_replay_handle (handle : list byte) (p : pipeline_handles) (g : nat) : Prop :=
  if raytracing_group_handles_capture_replay p then has_handle handle p g
  else raytracing_group_handle_size_replay p = Z.of_nat marked_handle_size /\ (g < searched_replay_groups p)%nat /\
    slice (g * marked_handle_size) marked_handle_size (raytracing_group_handles_replay p) = handle.

(** no two groups have the same handle on the replay *)
Definition replay_handles_distinct (pipelines : list pipeline_handles) : Prop :=
  forall handle i p g i' p' g', pipelines !! i = Some p -> pipelines !! i' = Some p' ->
    has_replay_handle handle p g -> has_replay_handle handle p' g' -> i = i' /\ g = g'.

Lemma find_replay_match_spec p handle :
  match find_group_of_replay_handle p handle with
  | None => forall g, ~ has_replay_handle handle p g
  | Some (g, true) => has_replay_handle handle p g /\ exists g', g' <> g /\ has_replay_handle handle p g'
  | Some (g, false) => forall g', has_replay_handle handle p g' <-> g' = g
  end.
Proof.
  unfold find_group_of_replay_handle, has_replay_handle. destruct (raytracing_group_handles_capture_replay p); [apply find_match_spec|].
  unfold find_marked_shader_group_replay_handle_match.
  destruct (Z.eqb_spec (raytracing_group_handle_size_replay p) (Z.of_nat marked_handle_size)) as [Es|Es]; cbn [negb orb]; [|intros g (? & _); done].
  destruct (Nat.eqb_spec (length (raytracing_group_handles_replay p)) 0) as [El|_].
  { intros g (_ & Hg & _). unfold searched_replay_groups in Hg. rewrite El in Hg. change (0 / marked_handle_size)%nat with 0%nat in Hg.
    rewrite Z.gtb_ltb in Hg. destruct (Z.eqb_spec (raytracing_group_count p) 0); cbn [orb] in Hg; [lia|].
    destruct (Z.ltb_spec (Z.of_nat 0) (raytracing_group_count p)); lia. }
  assert (Hm : forall g, g ∈ matching_replay_groups p handle <-> raytracing_group_handle_size_replay p = Z.of_nat marked_handle_size /\
    (g < searched_replay_groups p)%nat /\ slice (g * marked_handle_size) marked_handle_size (raytracing_group_handles_replay p) = handle).
  { intros g. unfold matching_replay_groups. rewrite list_elem_of_filter, elem_of_seq. split; intros; destruct_and?; repeat split; try done; lia. }
  assert (Hn : NoDup (matching_replay_groups p handle)) by (apply NoDup_filter, NoDup_seq).
  destruct (matching_replay_groups p handle) as [|g [|g' rest]].
  - intros g. rewrite <- Hm. apply not_elem_of_nil.
  - cbn. intros g'. rewrite <- Hm. apply list_elem_of_singleton.
  - cbn. rewrite <- !Hm. split; [by left|]. exists g'. rewrite <- Hm. split; [|right; by left].
    intros ->. apply NoDup_cons in Hn as [Hn _]. apply Hn. by left.
Qed.

Lemma rewrite_handle_inv pipelines old new : rewrite_marked_shader_group_handle pipelines old = Ok new ->
  exists i p g, pipelines !! i = Some p /\ has_handle old p g /\ replaced_by old p g new.
Proof.
  intros E. destruct (first_match old pipelines) as [Hn|(l1 & p & l2 & g & a & -> & H1 & Ef)].
  { unfold rewrite_marked_shader_group_handle in E. rewrite <- (app_nil_r pipelines), match_pipelines_none in E; done. }
  pose proof (find_match_spec p old) as Hf. rewrite Ef in Hf. destruct a.
  - unfold rewrite_marked_shader_group_handle in E. rewrite match_pipelines_none in E by done. cbn [match_pipelines] in E. by rewrite Ef in E.
  - rewrite rewrite_handle_result in E by done. exists (length l1), p, g.
    split; [by apply list_lookup_middle|]. split; [by apply Hf|]. by apply E.
Qed.

Lemma searched_handle (handles : list byte) g : (g * marked_handle_size + marked_handle_size <= length handles)%nat ->
  (g < Nat.div (length handles) marked_handle_size)%nat.
Proof. unfold marked_handle_size. intros Hl. apply Nat.div_le_lower_bound with (a := length handles) (b := 32%nat) (q := S g); lia. Qed.

(** a group that was searched has all bytes of its handle *)
Lemma searched_groups_bound p g : (g < searched_groups p)%nat ->
  (g * marked_handle_size + marked_handle_size <= length (raytracing_group_handles p))%nat.
Proof.
  unfold searched_groups. intros Hg. set (n := (length (raytracing_group_handles p) / marked_handle_size)%nat) in *.
  assert (Hn : (g < n)%nat).
  { destruct ((raytracing_group_count p =? 0) || (raytracing_group_count p >? Z.of_nat n)) eqn:E; [done|].
    rewrite orb_false_iff, Z.gtb_ltb in E. destruct E as [_ E]. bool_to_prop. lia. }
  pose proof (Nat.Div0.mul_div_le (length (raytracing_group_handles p)) marked_handle_size) as Hd. fold n in Hd.
  unfold marked_handle_size in *. lia.
Qed.

Lemma replaced_has_replay old p g new : has_handle old p g -> replaced_by old p g new -> has_replay_handle new p g.
Proof.
  intros Hh Hr. unfold has_replay_handle, replaced_by in *. destruct (raytracing_group_handles_capture_replay p); [by subst new|].
  destruct Hr as (R1 & R2 & ->). split; [done|]. split; [|done]. destruct Hh as (_ & Hg & _).
  pose proof (searched_handle (raytracing_group_handles_replay p) g R2) as Hd.
  unfold searched_groups in Hg. unfold searched_replay_groups. cbv zeta. rewrite !Z.gtb_ltb in *.
  destruct (Z.eqb_spec (raytracing_group_count p) 0) as [E|E]; cbn [orb] in *; [exact Hd|].
  destruct (Z.ltb_spec (Z.of_nat (length (raytracing_group_handles_replay p) / marked_handle_size)) (raytracing_group_count p)); [exact Hd|].
  destruct (Z.ltb_spec (Z.of_nat (length (raytracing_group_handles p) / marked_handle_size)) (raytracing_group_count p)); lia.
Qed.

Lemma reverse_handle_skip handle l found : Forall (fun p => forall g, ~ has_replay_handle handle p g) l ->
  forall rest, reverse_translate_shader_group_handle (l ++ rest) handle found = reverse_translate_shader_group_handle rest handle found.
Proof.
  induction 1 as [|p l Hp _ IH]; intros rest; [done|]. cbn [app reverse_translate_shader_group_handle].
  pose proof (find_replay_match_spec p handle) as Hf. destruct (find_group_of_replay_handle p handle) as [[g a]|]; [|apply IH].
  destruct (Hp g). destruct a; [by destruct Hf|by apply Hf].
Qed.

(** a handle that was replaced is found again *)
Lemma reverse_handle_ok pipelines old new : replay_handles_distinct pipelines -> rewrite_marked_shader_group_handle pipelines old = Ok new ->
  reverse_translate_shader_group_handle pipelines new None = Ok (Some old).
Proof.
  intros Hd E. apply rewrite_handle_inv in E as (i & p & g & Hi & Hh & Hr). pose proof (replaced_has_replay _ _ _ _ Hh Hr) as Hrep.
  assert (Hno : forall l1 l2, pipelines = l1 ++ p :: l2 -> length l1 = i ->
    Forall (fun q => forall k, ~ has_replay_handle new q k) l1 /\ Forall (fun q => forall k, ~ has_replay_handle new q k) l2).
  { intros l1 l2 El Hl. split; apply List.Forall_forall; intros q Hq k Hk; apply list_elem_of_In, list_elem_of_lookup_1 in Hq as [j Hj].
    - assert (Hj' : pipelines !! j = Some q) by (rewrite El; by apply lookup_app_l_Some).
      destruct (Hd new i p g j q k Hi Hj' Hrep Hk) as [Hij _]. apply lookup_lt_Some in Hj. lia.
    - assert (Hj' : pipelines !! (length l1 + S j)%nat = Some q)
        by (rewrite El, lookup_app_r by lia; by replace (length l1 + S j - length l1)%nat with (S j) by lia).
      destruct (Hd new i p g _ q k Hi Hj' Hrep Hk) as [Hij _]. lia. }
  pose proof (take_drop_middle pipelines i p Hi) as El. pose proof (lookup_lt_Some _ _ _ Hi) as Hlt.
  destruct (Hno (take i pipelines) (drop (S i) pipelines)) as [H1 H2]; [done|rewrite length_take; lia|].
  rewrite <- El, reverse_handle_skip by done. cbn [reverse_translate_shader_group_handle].
  pose proof (find_replay_match_spec p new) as Hf. destruct (find_group_of_replay_handle p new) as [[g' a]|]; [|by destruct (Hf g)].
  destruct a.
  { destruct Hf as (Hg & k & Hne & Hk). destruct (Hd new i p g' i p k Hi Hi Hg Hk) as [_ ?]. congruence. }
  assert (g = g') as <- by (by apply Hf). destruct Hh as (Hs & Hg & Hsl). cbn [negb require obind].
  rewrite Hs, Z.eqb_refl. cbn [require obind]. rewrite (proj2 (Nat.leb_le _ _)) by (by apply searched_groups_bound). cbn [require obind].
  rewrite <- (app_nil_r (drop (S i) pipelines)), reverse_handle_skip by done. cbn [reverse_translate_shader_group_handle]. by rewrite Hsl.
Qed.

(** ** The marked places *)

Section Places.
Context `{MarkingHeader}.
Context (descriptor_length : Z -> nat).
Context (buffers : list address_buffer) (structures : list (Z * Z)).
Context (buffer_at structure_at : nat -> mapped) (buffer_map structure_map : remapper).
Context (pending : list descriptor_rewrite) (pipelines : list pipeline_handles).

Abbreviation tb := (translate_address buffer_at buffer_map).
Abbreviation ts := (translate_address structure_at structure_map).

Definition is_descriptor (mk : marking) : Prop := mk_type mk = VK_MARKING_TYPE_DESCRIPTOR_ARM.
Definition is_handle (mk : marking) : Prop := mk_type mk = VK_MARKING_TYPE_SHADER_GROUP_HANDLE_ARM.

(** the bytes that a marking is about *)
Definition mark_length (mk : marking) : nat :=
  if mk_type mk =? VK_MARKING_TYPE_DEVICE_ADDRESS_ARM then 8
  else if mk_type mk =? VK_MARKING_TYPE_DESCRIPTOR_ARM then descriptor_length (subtype32 mk)
  else if mk_type mk =? VK_MARKING_TYPE_SHADER_GROUP_HANDLE_ARM then marked_handle_size else 0.

Definition mark_end (mk : marking) : Z := mk_offset mk + Z.of_nat (mark_length mk).
Definition value (mk : marking) (mem : list byte) : list byte := slice (Z.to_nat (mk_offset mk)) (mark_length mk) mem.

Definition places_apart (a b : marking) : Prop := mark_end a <= mk_offset b \/ mark_end b <= mk_offset a.

Definition outside_place (i : nat) (mk : marking) : Prop := Z.of_nat i < mk_offset mk \/ mark_end mk <= Z.of_nat i.

(** what the capture has there is something that the replay has, too *)
Definition known_value (mk : marking) (old : list byte) : Prop :=
  (is_address mk /\ known_subtype mk /\ known_address buffers structures mk (le_decode old)) \/
  (is_descriptor mk /\ exists c, c ∈ pending /\ dr_type c = subtype32 mk /\ dr_capture_bytes c = old) \/
  is_metadata mk \/ is_handle mk.

(** and what the replay has for it *)
Definition translated (mk : marking) (old new : list byte) : Prop :=
  (is_address mk /\ known_subtype mk /\ known_address buffers structures mk (le_decode old) /\ new = le_encode 8 (forward tb ts mk (le_decode old))) \/
  (is_descriptor mk /\ descriptor_replaced pending (subtype32 mk) old new) \/
  is_metadata mk \/
  (is_handle mk /\ rewrite_marked_shader_group_handle pipelines old = Ok new).

Definition mark_known (mem : list byte) (mk : marking) : Prop :=
  0 <= mk_offset mk /\ mark_end mk <= Z.of_nat (length mem) /\ known_value mk (value mk mem).

(** which of the tests of a marking's type hold *)
Lemma type_tests :
  (VK_MARKING_TYPE_DESCRIPTOR_ARM =? VK_MARKING_TYPE_DEVICE_ADDRESS_ARM) = false /\
  (VK_MARKING_TYPE_SHADER_GROUP_HANDLE_ARM =? VK_MARKING_TYPE_DEVICE_ADDRESS_ARM) = false /\
  (VK_MARKING_TYPE_SHADER_GROUP_HANDLE_ARM =? VK_MARKING_TYPE_DESCRIPTOR_ARM) = false /\
  (VK_MARKING_TYPE_SHADER_GROUP_HANDLE_ARM =? VK_MARKING_TYPE_DESCRIPTOR_SIZE_ARM) = false /\
  (VK_MARKING_TYPE_SHADER_GROUP_HANDLE_ARM =? VK_MARKING_TYPE_DESCRIPTOR_OFFSET_ARM) = false.
Proof.
  pose proof header_types as Hn. rewrite !NoDup_cons, !not_elem_of_cons in Hn. rewrite !Z.eqb_neq. intuition congruence.
Qed.

Lemma metadata_tests mk : is_metadata mk ->
  (mk_type mk =? VK_MARKING_TYPE_DEVICE_ADDRESS_ARM) = false /\ (mk_type mk =? VK_MARKING_TYPE_DESCRIPTOR_ARM) = false /\
  (mk_type mk =? VK_MARKING_TYPE_SHADER_GROUP_HANDLE_ARM) = false /\
  (mk_type mk =? VK_MARKING_TYPE_DESCRIPTOR_SIZE_ARM) || (mk_type mk =? VK_MARKING_TYPE_DESCRIPTOR_OFFSET_ARM) = true.
Proof.
  pose proof header_types as Hn. rewrite !NoDup_cons, !not_elem_of_cons in Hn. rewrite orb_true_iff, !Z.eqb_neq, !Z.eqb_eq.
  unfold is_metadata. intros [E|E]; rewrite !E; intuition congruence.
Qed.

Lemma mark_length_address mk : is_address mk -> mark_length mk = 8%nat.
Proof. unfold is_address, mark_length. intros ->. by rewrite Z.eqb_refl. Qed.

Lemma mark_length_descriptor mk : is_descriptor mk -> mark_length mk = descriptor_length (subtype32 mk).
Proof. unfold is_descriptor, mark_length. intros ->. destruct type_tests as (-> & _). by rewrite Z.eqb_refl. Qed.

Lemma mark_length_handle mk : is_handle mk -> mark_length mk = marked_handle_size.
Proof. unfold is_handle, mark_length. intros ->. destruct type_tests as (_ & -> & -> & _). by rewrite Z.eqb_refl. Qed.

Lemma mark_length_metadata mk : is_metadata mk -> mark_length mk = 0%nat.
Proof. unfold mark_length. intros (-> & -> & -> & _)%metadata_tests. done. Qed.

Hypothesis Haddresses : addresses_known buffers structures buffer_at structure_at buffer_map structure_map.
Hypothesis Hdescriptors : descriptors_known descriptor_length pending.
Hypothesis Hhandles : replay_handles_distinct pipelines.

(** translating one marking replaces its bytes, and only them *)
Lemma translate_mark_step debug mk mem mem' : Z.of_nat (length mem) <= UINT64_MAX -> mark_known mem mk ->
  translate_mark debug true tb ts pending pipelines (Z.of_nat (length mem)) mk mem = Ok mem' ->
  exists new, length new = mark_length mk /\ translated mk (value mk mem) new /\
    mem' = memcpy mem (Z.to_nat (mk_offset mk)) new.
Proof.
  intros Hu (H0 & He & Hk) E. unfold translate_mark in E. cbv zeta in E. unfold mark_end in He. unfold translated, value in *.
  destruct type_tests as (T1 & T2 & T3 & T4 & T5).
  destruct Hk as [(Ha & Hs & Hka)|[(Hd & c & Hc & Ht & Ho)|[Hm|Hh]]].
  - rewrite (mark_length_address mk Ha) in *. rewrite Ha, Z.eqb_refl in E. outcome_inv. rewrite load_ok in E2 by lia. injection E2 as <-.
    rewrite store_bytes_ok in E by (rewrite length_le_encode; lia). apply (f_equal (fun o => match o with Ok x => x | _ => mem end)) in E.
    cbv beta iota in E. eexists. split; [apply length_le_encode|]. split; [left|symmetry; exact E]. by repeat split.
  - rewrite (mark_length_descriptor mk Hd) in *. rewrite Hd, T1, Z.eqb_refl in E.
    destruct (List.find _ pending) as [d|] eqn:Ef.
    + apply find_some in Ef as [Hin Hmd]. apply list_elem_of_In in Hin. destruct (dk_sizes _ _ Hdescriptors d Hin) as (D1 & D2 & D3).
      unfold descriptor_matches in Hmd. rewrite !andb_true_iff, bool_decide_eq_true in Hmd. destruct Hmd as [[[Htd _] _] Hbd]. bool_to_prop.
      rewrite D3, (proj2 (Nat.eqb_neq _ _)) in E by lia. outcome_inv. rewrite Htd in *. rewrite store_bytes_ok in E by (rewrite D3; lia).
      injection E as <-. exists (dr_bytes d). split; [done|]. split; [|done]. right; left. split; [done|]. exists d.
      split; [done|]. split; [done|]. split; [|done]. by rewrite <- Hbd, D2.
    + exfalso. destruct (dk_sizes _ _ Hdescriptors c Hc) as (D1 & D2 & D3). rewrite Ht in *.
      pose proof (find_none _ _ Ef c (proj1 (list_elem_of_In _ _) Hc)) as Hmd. unfold descriptor_matches in Hmd.
      rewrite Ht, Z.eqb_refl, D2, (proj2 (Nat.eqb_neq _ _)) in Hmd by lia. rewrite wrap64_small, (proj2 (Z.leb_le _ _)) in Hmd by u_lia.
      rewrite bool_decide_true in Hmd by done. done.
  - rewrite (mark_length_metadata mk Hm) in *. apply metadata_tests in Hm as Hmt. destruct Hmt as (-> & -> & _ & Et) in E. rewrite Et in E.
    injection E as <-. exists []. split; [done|]. split; [by right; right; left|]. unfold memcpy. cbn [length app].
    by rewrite Nat.add_0_r, take_drop.
  - rewrite (mark_length_handle mk Hh) in *. rewrite Hh, T2, T3, T4, T5, Z.eqb_refl in E. cbn [orb negb] in E. outcome_inv.
    rewrite load_ok in E1 by lia. injection E1 as <-.
    pose proof (rewrite_handle_inv _ _ _ E2) as (i & p & g & _ & Hg & Hr).
    assert (Hl : length v1 = marked_handle_size).
    { unfold replaced_by in Hr. destruct (raytracing_group_handles_capture_replay p).
      - rewrite Hr, length_slice. lia.
      - destruct Hr as (_ & Hr & ->). rewrite length_slice. lia. }
    rewrite store_bytes_ok in E by (rewrite Hl; lia). injection E as <-. exists v1. split; [done|]. split; [|done]. right; right; by right.
Qed.
Lemma value_agree mk mem mem' : (forall i, Z.to_nat (mk_offset mk) <= i < Z.to_nat (mk_offset mk) + mark_length mk -> mem !! i = mem' !! i)%nat ->
  value mk mem = value mk mem'.
Proof. intros Ha. by apply slice_eq_iff. Qed.

Lemma translate_marks_places debug ms : forall mem mem', Z.of_nat (length mem) <= UINT64_MAX -> Forall (mark_known mem) ms ->
  List.ForallOrdPairs places_apart ms ->
  translate_marks debug true tb ts pending pipelines (Z.of_nat (length mem)) ms mem = Ok mem' ->
  length mem' = length mem /\ Forall (fun mk => translated mk (value mk mem) (value mk mem')) ms /\
  forall i, Forall (outside_place i) ms -> mem' !! i = mem !! i.
Proof.
  induction ms as [|mk ms IH]; intros mem mem' Hu Hk Hp E; cbn [translate_marks] in E; [by injection E as <-|].
  apply obind_ok_inv in E as (mem1 & E1 & E). apply Forall_cons in Hk as [Hk1 Hk]. inversion Hp as [|? ? Hp1 Hp2]; subst.
  apply translate_mark_step in E1 as (new & Hln & Htr & ->); [|done|done]. destruct Hk1 as (H0 & He & _). unfold mark_end in He.
  set (mem1 := memcpy mem (Z.to_nat (mk_offset mk)) new) in *. assert (Hl1 : length mem1 = length mem) by (apply length_memcpy; lia).
  assert (Hout : forall i, outside_place i mk -> mem1 !! i = mem !! i).
  { intros i Hi. unfold outside_place, mark_end in Hi. unfold mem1. rewrite memcpy_lookup by lia. rewrite decide_False by lia. done. }
  assert (Hother : forall x, mark_known mem x -> places_apart mk x -> value x mem1 = value x mem).
  { intros x (X0 & _) Hx. apply value_agree. intros i Hi. apply Hout. unfold outside_place, places_apart, mark_end in *. lia. }
  rewrite List.Forall_forall in Hk, Hp1. rewrite <- Hl1 in E. apply IH in E as (L & Ht & Hr); [|by rewrite Hl1| |done].
  - split; [congruence|]. split.
    + constructor.
      * assert (Ev : value mk mem' = value mk mem1).
        { apply value_agree. intros i Hi. apply Hr. apply List.Forall_forall. intros x Hx. specialize (Hp1 x Hx). specialize (Hk x Hx).
          destruct Hk as (X0 & _). unfold outside_place, places_apart, mark_end in *. lia. }
        rewrite Ev. unfold value at 2. unfold mem1. rewrite <- Hln, slice_memcpy by lia. done.
      * rewrite List.Forall_forall in Ht |- *. intros x Hx. rewrite <- (Hother x) by (by auto). by apply Ht.
    + intros i Hi. apply Forall_cons in Hi as [Hi1 Hi]. rewrite Hr by done. by apply Hout.
  - apply List.Forall_forall. intros x Hx. destruct (Hk x Hx) as (X0 & X1 & X2). unfold mark_known. rewrite Hl1.
    rewrite Hother by auto. by repeat split.
Qed.

(** ** What the checksum finds there *)

Definition span_of (index : Z) (mk : marking) (cap : list byte) : marked_checksum_span :=
  ChecksumSpan (mk_offset mk) (value mk cap) (mk_type mk) index.

(** the spans of all markings but metadata *)
Fixpoint spans_of (index : Z) (ms : list marking) (cap : list byte) : list marked_checksum_span :=
  match ms with
  | [] => []
  | mk :: ms => if Nat.eqb (mark_length mk) 0 then spans_of (index + 1) ms cap else span_of index mk cap :: spans_of (index + 1) ms cap
  end.

Lemma mark_span_found index mk cap mem : length mem = length cap -> mark_known cap mk -> translated mk (value mk cap) (value mk mem) ->
  mark_span buffers structures pending pipelines mem index mk =
    Ok (if Nat.eqb (mark_length mk) 0 then None else Some (span_of index mk cap)).
Proof.
  intros Hl (H0 & He & _) Ht. unfold mark_span. cbv zeta. unfold mark_end in He. unfold translated in Ht. unfold span_of, value in *.
  destruct type_tests as (T1 & T2 & T3 & T4 & T5). rewrite !Z.gtb_ltb, Z.geb_leb, Hl.
  destruct Ht as [(Ha & Hs & Hka & Ht)|[(Hd & Ht)|[Hm|(Hh & Ht)]]].
  - rewrite (mark_length_address mk Ha) in *. rewrite Ha, Z.eqb_refl. rewrite !(proj2 (Z.ltb_ge _ _)) by lia. cbn [orb negb require obind].
    rewrite (proj2 (orb_true_iff _ _)) by (rewrite !Z.eqb_eq; exact Hs). cbn [require obind Nat.eqb]. rewrite Ht.
    pose proof (checksum_address_ok _ _ _ _ _ _ Haddresses mk _ Hka Hs) as Hc. set (x := forward _ _ _ _) in *.
    assert (Hx : u64 x) by (unfold x, forward; destruct (subtype32 mk =? _); apply translate_address_range).
    rewrite le_decode_encode_small by (change (256 ^ Z.of_nat 8) with (2 ^ 64); u_lia). unfold checksum_address in Hc.
    assert (Hv : le_encode 8 (le_decode (slice (Z.to_nat (mk_offset mk)) 8 cap)) = slice (Z.to_nat (mk_offset mk)) 8 cap).
    { replace 8%nat with (length (slice (Z.to_nat (mk_offset mk)) 8 cap)) at 1 by (rewrite length_slice; lia). apply le_encode_decode. }
    destruct (x =? 0) eqn:Ex; bool_to_prop; cbn [orb require obind].
    + injection Hc as Hc. rewrite Ex, <- Hv, <- Hc. by rewrite ?Ha.
    + destruct (if subtype32 mk =? _ then _ else _) as [c|]; [|done]. injection Hc as ->. cbn [require obind default id]. by rewrite Hv, ?Ha.
  - rewrite (mark_length_descriptor mk Hd) in *. rewrite Hd, T1, Z.eqb_refl. destruct Ht as (c & Hc & Hty & Ho & Hn).
    destruct (dk_sizes _ _ Hdescriptors c Hc) as (D1 & D2 & D3). rewrite Hty in *. rewrite (proj2 (Z.leb_gt _ _)) by lia. cbn [negb require obind].
    rewrite (proj2 (Nat.eqb_neq _ _)) by lia. rewrite <- (take_drop (descriptor_length (subtype32 mk)) (drop _ mem)).
    change (take ?n (drop ?m mem)) with (slice m n mem).
    erewrite (reverse_descriptor_ok descriptor_length); [cbn [obind]; reflexivity|done|]. by exists c.
  - rewrite (mark_length_metadata mk Hm). apply metadata_tests in Hm as (-> & -> & _ & ->). done.
  - rewrite (mark_length_handle mk Hh) in *. rewrite Hh, T2, T3, T4, T5, Z.eqb_refl. cbn [orb]. rewrite !(proj2 (Z.ltb_ge _ _)) by lia.
    cbn [orb negb require obind]. by rewrite (reverse_handle_ok _ _ _ Hhandles Ht).
Qed.
Lemma marked_spans_found cap mem ms : length mem = length cap -> forall index, Forall (mark_known cap) ms ->
  Forall (fun mk => translated mk (value mk cap) (value mk mem)) ms ->
  marked_spans buffers structures pending pipelines mem index ms = Ok (spans_of index ms cap).
Proof.
  intros Hl. induction ms as [|mk ms IH]; intros index Hk Ht; [done|]. apply Forall_cons in Hk as [Hk1 Hk]. apply Forall_cons in Ht as [Ht1 Ht].
  cbn [marked_spans spans_of]. rewrite (mark_span_found _ _ cap) by done. cbn [obind]. rewrite IH by done. cbn [obind].
  by destruct (Nat.eqb (mark_length mk) 0).
Qed.

Lemma elem_of_spans ms cap s : forall index, s ∈ spans_of index ms cap ->
  exists mk j, mk ∈ ms /\ mark_length mk <> 0%nat /\ s = span_of j mk cap.
Proof.
  induction ms as [|mk ms IH]; intros index Hs; cbn [spans_of] in Hs; [by apply not_elem_of_nil in Hs|].
  destruct (Nat.eqb_spec (mark_length mk) 0) as [E|E]; [|apply elem_of_cons in Hs as [->|Hs]].
  - apply IH in Hs as (x & j & Hx & ?). exists x, j. split; [by right|done].
  - exists mk, index. split; [by left|done].
  - apply IH in Hs as (x & j & Hx & ?). exists x, j. split; [by right|done].
Qed.

Lemma length_value cap mk : mark_known cap mk -> length (value mk cap) = mark_length mk.
Proof. intros (H0 & He & _). unfold mark_end in He. unfold value. rewrite length_slice. lia. Qed.

Lemma span_of_end cap j mk : mark_known cap mk -> ck_end (span_of j mk cap) = mark_end mk.
Proof. intros Hk. unfold ck_end, span_of, mark_end. cbn [ck_bytes ck_offset]. by rewrite length_value. Qed.

Lemma spans_of_compatible cap ms : Forall (mark_known cap) ms -> List.ForallOrdPairs places_apart ms ->
  forall index, List.ForallOrdPairs compatible (spans_of index ms cap).
Proof.
  intros Hk Hp. induction Hp as [|mk ms Hp1 Hp2 IH]; intros index; cbn [spans_of]; [constructor|].
  apply Forall_cons in Hk as [Hk1 Hk]. destruct (Nat.eqb _ _); [by apply IH|]. constructor; [|by apply IH].
  apply List.Forall_forall. intros s Hs. apply list_elem_of_In, elem_of_spans in Hs as (x & j & Hx & _ & ->).
  rewrite Forall_forall in Hk, Hp1. right. rewrite !span_of_end by auto. by apply Hp1.
Qed.

Lemma spans_of_inside cap ms : Forall (mark_known cap) ms ->
  forall index, Forall (span_inside (Z.of_nat (length cap))) (spans_of index ms cap).
Proof.
  intros Hk index. apply Forall_forall. intros s Hs. apply elem_of_spans in Hs as (mk & j & Hin & Hn & ->).
  rewrite Forall_forall in Hk. pose proof (Hk mk Hin) as Hm. pose proof (length_value _ _ Hm) as Hl. rewrite <- Hl in Hn.
  destruct Hm as (H0 & He & _). split; [done|]. split; [by intros E; cbn [span_of ck_bytes] in E; rewrite E in Hn|].
  rewrite span_of_end; [done|]. by apply Hk.
Qed.

Lemma spans_of_restore cap mem ms : length mem = length cap -> Forall (mark_known cap) ms ->
  (forall i, Forall (outside_place i) ms -> mem !! i = cap !! i) -> forall index, restores (spans_of index ms cap) mem cap.
Proof.
  intros Hl Hk Ho index. split; [done| |].
  - intros s Hs. apply elem_of_spans in Hs as (mk & j & Hin & _ & ->). rewrite Forall_forall in Hk. cbn [span_of ck_bytes ck_offset].
    by rewrite (length_value cap mk) by (by apply Hk).
  - intros i Hi. symmetry. apply Ho. clear Ho. revert index Hi. induction ms as [|mk ms IH]; intros index Hi; [constructor|].
    apply Forall_cons in Hk as [Hk1 Hk]. cbn [spans_of] in Hi. destruct (Nat.eqb_spec (mark_length mk) 0) as [E|E].
    + constructor; [unfold outside_place, mark_end; lia|]. by eapply IH.
    + apply Forall_cons in Hi as [Hi1 Hi]. constructor; [|by eapply IH]. unfold outside_span in Hi1. rewrite span_of_end in Hi1 by done. exact Hi1.
Qed.

(** the checksum of memory whose markings were translated *)
Lemma checksum_translated debug markings arrays ms cap mem :
  entries markings = Ok (arrays, ms) -> Z.of_nat (length cap) <= UINT64_MAX -> Forall (mark_known cap) ms ->
  List.ForallOrdPairs places_apart ms ->
  translate_marked_offsets debug true tb ts pending pipelines false markings cap (Z.of_nat (length cap)) = Ok mem ->
  length mem = length cap /\ checksum_marked_buffer_range buffers structures pending pipelines mem markings = Ok (adler32 cap).
Proof.
  intros He Hu Hk Hp Et. unfold translate_marked_offsets in Et. rewrite He in Et. cbn [obind] in Et.
  apply translate_marks_places in Et as (Hl & Ht & Ho); try done. split; [done|].
  unfold checksum_marked_buffer_range. rewrite He. cbn [obind]. rewrite (marked_spans_found cap) by done. cbn [obind].
  apply checksum_sorted; [by rewrite Hl|rewrite Hl; by apply spans_of_inside|by apply spans_of_compatible|by apply spans_of_restore].
Qed.
End Places.

(** ** Properties *)

(** C32: The checksum that the replay takes of a marked range is that of the capture:
    when what the capture has in every marked place is known to the replay and the
    memory of the replay is that of the capture with its marked addresses,
    descriptors and shader group handles translated, then they are all found again
    and the checksum is that of the bytes of the capture. *)
Theorem checksum_of_replayed_memory `{MarkingHeader} (descriptor_length : Z -> nat)
    (buffers : list address_buffer) (structures : list (Z * Z)) (buffer_at structure_at : nat -> mapped)
    (buffer_map structure_map : remapper) (pending : list descriptor_rewrite) (pipelines : list pipeline_handles)
    (debug : bool) (markings : VkMarkedOffsetsARM) arrays (ms : list marking) (cap mem : list byte)
    (Haddresses : addresses_known buffers structures buffer_at structure_at buffer_map structure_map)
    (Hdescriptors : descriptors_known descriptor_length pending) (Hhandles : replay_handles_distinct pipelines)
    (Hentries : entries markings = Ok (arrays, ms)) (Hmax : Z.of_nat (length cap) <= UINT64_MAX)
    (Hknown : Forall (mark_known descriptor_length buffers structures pending cap) ms)
    (Hapart : List.ForallOrdPairs (places_apart descriptor_length) ms)
    (Htranslated : translate_marked_offsets debug true (translate_address buffer_at buffer_map)
      (translate_address structure_at structure_map) pending pipelines false markings cap (Z.of_nat (length cap)) = Ok mem) :
  checksum_marked_buffer_range buffers structures pending pipelines mem markings = Ok (adler32 cap).
Proof. by eapply checksum_translated. Qed.

#[local] Existing Instance demo_header.

Definition demo_structures : list (Z * Z) := [(9000, 500)].

Definition demo_buffer_object (_ : nat) : mapped := Mapped 256 4096 state_bound false.
Definition demo_structure_object (_ : nat) : mapped := Mapped 64 9000 state_bound false.

Definition demo_checked_pipelines : list pipeline_handles :=
  [PipelineHandles 1 32 (repeat x11 32) 32 (repeat x22 32) false].

Lemma demo_addresses_known :
  addresses_known demo_checked_buffers demo_structures demo_buffer_object demo_structure_object [(1000, [0%nat])] [(500, [0%nat])].
Proof.
  assert (Hb : forall b, b ∈ demo_checked_buffers -> b = AddressBuffer state_bound 4096 1000 256 false)
    by (intros b Hb; by apply list_elem_of_singleton in Hb).
  assert (Ha : addressable (AddressBuffer state_bound 4096 1000 256 false)) by (repeat split; by vm_compute).
  split.
  - split.
    + intros p. by vm_compute.
    + constructor; constructor.
    + intros b Hin _. apply list_elem_of_singleton in Hin. injection Hin as ->. exists 0%nat. split; [|done].
      exists [0%nat]. split; by left.
    + intros a p (es & Hin & Hp). apply list_elem_of_singleton in Hin as [= -> ->].
      exists (AddressBuffer state_bound 4096 1000 256 false). split; [by left|]. by split.
    + intros b b' c H1 H2. apply list_elem_of_singleton in H1, H2. injection H1 as ->. by injection H2 as ->.
  - split.
    + intros p. by vm_compute.
    + constructor; constructor.
    + intros a p (es & Hin & Hp). by apply list_elem_of_singleton in Hin as [= -> ->].
    + intros dev cap Hin _ _. apply list_elem_of_singleton in Hin. injection Hin as -> ->. split; [by vm_compute|]. split; [by vm_compute|].
      exists 0%nat. split; [|by vm_compute]. exists [0%nat]. split; by left.
    + intros dev cap p Hin _ _. apply list_elem_of_singleton in Hin. by injection Hin as -> ->.
  - intros b x Hin _. by apply Hb in Hin as ->.
  - intros b b' x Hin Hin' _ _ _ _. by rewrite (Hb b Hin), (Hb b' Hin').
  - intros dev cap cap' Hin Hin'. apply list_elem_of_singleton in Hin, Hin'. congruence.
Qed.

Lemma demo_descriptors_known : descriptors_known (fun _ => 2%nat) demo_descriptors.
Proof.
  split.
  - intros c Hc. apply list_elem_of_singleton in Hc as ->. simpl. lia.
  - intros c c' Hc Hc'. apply list_elem_of_singleton in Hc as ->. by apply list_elem_of_singleton in Hc' as ->.
Qed.

Lemma demo_handles_distinct : replay_handles_distinct demo_checked_pipelines.
Proof.
  assert (Hg : forall handle i p g, demo_checked_pipelines !! i = Some p -> has_replay_handle handle p g -> i = 0%nat /\ g = 0%nat).
  { intros handle [|i] p g Hi Hh; [|done]. injection Hi as <-. split; [done|]. destruct Hh as (_ & Hg & _). vm_compute in Hg. lia. }
  intros handle i p g i' p' g' Hi Hi' Hh Hh'. destruct (Hg _ _ _ _ Hi Hh) as [-> ->]. by destruct (Hg _ _ _ _ Hi' Hh') as [-> ->].
Qed.

(** the capture's and the replay's bytes of a range with an address of each kind, a
    null address, a descriptor and a shader group handle *)
Definition demo_captured_range : list byte := concat (map (le_encode 8) [1004; 500; 0]) ++ [xaa; xbb; x01] ++ repeat x11 32.
Definition demo_translated_range : list byte := concat (map (le_encode 8) [4100; 9000; 0]) ++ [xcc; xdd; x01] ++ repeat x22 32.

Definition demo_range_entries : list marking :=
  [Marking 0 1 0; Marking 8 1 1; Marking 16 1 0; Marking 24 2 7; Marking 27 5 0; Marking 26 3 0].

Definition demo_range_marks : VkMarkedOffsetsARM :=
  demo_marks (map (fun mk => (mk_offset mk, mk_type mk, mk_sub mk)) demo_range_entries).

Lemma demo_range_known : Forall (mark_known (fun _ => 2%nat) demo_checked_buffers demo_structures demo_descriptors demo_captured_range) demo_range_entries.
Proof.
  repeat (apply Forall_cons; split); [..|constructor]; (split; [by vm_compute|split; [by vm_compute|]]).
  - left. split; [done|]. split; [by left|]. right; left. split; [done|]. eexists. split; [by left|].
    split; [repeat split; by vm_compute|]. split; [done|by vm_compute].
  - left. split; [done|]. split; [by right|]. right; right. split; [done|]. exists 9000. split; [by left|]. split; [done|by vm_compute].
  - left. split; [done|]. split; [by left|]. left. by vm_compute.
  - right; left. split; [done|]. eexists. split; [by left|]. split; [by vm_compute|]. vm_compute. reflexivity.
  - right; right; by right.
  - right; right; left. by left.
Qed.

Lemma demo_range_apart : List.ForallOrdPairs (places_apart (fun _ => 2%nat)) demo_range_entries.
Proof.
  unfold demo_range_entries. all_pairs; ((left; by vm_compute) || (right; by vm_compute)).
Qed.

Lemma checksum_of_replayed_memory_witness :
  checksum_marked_buffer_range demo_checked_buffers demo_structures demo_descriptors demo_checked_pipelines demo_translated_range demo_range_marks =
    Ok (adler32 demo_captured_range).
Proof.
  refine (checksum_of_replayed_memory (fun _ => 2%nat) demo_checked_buffers demo_structures demo_buffer_object demo_structure_object
    [(1000, [0%nat])] [(500, [0%nat])] demo_descriptors demo_checked_pipelines false demo_range_marks _ demo_range_entries
    demo_captured_range demo_translated_range demo_addresses_known demo_descriptors_known demo_handles_distinct eq_refl _
    demo_range_known demo_range_apart _).
  - by vm_compute.
  - vm_compute. reflexivity.
Defined.
