(* ===== verification/Asserts.v ===== *)
(** * Assertions of buffer contents (src/hardcode_write.cpp, src/hardcode_read.cpp)

    [vkAssertBufferARM] writes the checksum that a part of a buffer has in the capture
    to the trace, and the replay ends when its own buffer has another one. *)

From Stdlib Require Import ZArith Lia Bool.
From Stdlib.Strings Require Import Byte.
From stdpp Require Import base numbers list gmap.
From S2P Require Import Prelude Stream RangeTracking Patch Memory FileWriter FileReader RandomAccess Packets Containers Markings Translate Updates HostMemory Checksums ChecksumReplay.

#[local] Open Scope Z_scope.

Definition VK_SUCCESS : Z := 0.
Definition VK_INCOMPLETE : Z := 5.

(** ** VkUpdateBufferInfoARM *)

Record VkUpdateBufferInfoARM := UpdateBufferInfo {
  ui_sType : Z;
  ui_markings : option VkMarkedOffsetsARM;    (** of the [pNext] chain *)
  ui_dstBuffer : Z;
  ui_dstOffset : Z;
  ui_dataSize : Z;
  ui_pData : option (list byte)
}.

Section Bodies.
Context {S : Type} `{ByteSink S}.
(** the constant of the Vulkan headers, and the generated writer of [pNext] chains *)
Context (stype : Z) (write_extension : option VkMarkedOffsetsARM -> S -> outcome S).
(** the tracked buffers by their handles *)
Context (VkBuffer_index : gmap Z hostobject).

Definition buffer_at (handle : Z) : outcome hostobject :=
  match VkBuffer_index !! handle with Some o => Ok o | None => Fail OutOfRange end.

Definition write_VkUpdateBufferInfoARM (info : VkUpdateBufferInfoARM) (s : S) : outcome S :=
  let* s := write_uint32_t (ui_sType info) s in
  let* _ := require (ui_sType info =? stype) AssertFailed in
  let* s := write_extension (ui_markings info) s in
  let* buffer_data := if ui_dstBuffer info =? 0 then Ok None else let* o := buffer_at (ui_dstBuffer info) in Ok (Some (h_base o)) in
  let* s := write_handle buffer_data s in
  let* s := write_uint64_t (ui_dstOffset info) s in
  let* s := write_uint64_t (ui_dataSize info) s in
  match ui_pData info with
  | Some data =>
      if ui_dataSize info >? 0 then
        let* s := write_uint8_t 1 s in
        let* data := load data 0 (Z.to_nat (ui_dataSize info)) in
        write_array data s
      else write_uint8_t 0 s
  | None => write_uint8_t 0 s
  end.

(** what the packet of an assertion holds in front of the checksum *)
Definition write_assertion (device : trackable) (info : VkUpdateBufferInfoARM) (comment : option (list byte)) (s : S) : outcome S :=
  let* s := write_handle (Some device) s in
  let* s := write_VkUpdateBufferInfoARM info s in
  write_string comment s.
End Bodies.

(** ** The checksum of the capture *)

(** a memory and what is in it *)
Record captured_memory := CapturedMemory {
  cm_memory : hostmemory;
  cm_contents : list byte
}.

(** whether mapping the range, and mapping again what was mapped, succeed *)
Definition trace_checksum_buffer_range (map_ok restore_ok : bool) (o : hostobject) (offset size : Z) (cm : captured_memory)
    : outcome (Z * captured_memory) :=
  let m := cm_memory cm in
  let m :=
    match clone m with
    | None => with_clone m (Some (repeat x00 (Z.to_nat (allocationSize m))))
    | Some _ => m
    end in
  let cm := CapturedMemory m (cm_contents cm) in
  let size := if size =? VK_WHOLE_SIZE then wrap64 (h_size o - offset) else size in
  if size =? 0 then Ok (adler32 [], cm)
  else
    let memory_offset := wrap64 (h_offset o + offset) in
    let mapped_here := (m_offset m <=? memory_offset) && (wrap64 (memory_offset + size) <=? wrap64 (m_offset m + m_size m)) in
    match ptr m with
    | Some w =>
        if mapped_here then
          let* bytes := load (cm_contents cm) (w_base w + (memory_offset - m_offset m)) (Z.to_nat size) in
          Ok (adler32 bytes, cm)
        else
          let* _ := require map_ok AbortCall in
          let* bytes := load (cm_contents cm) memory_offset (Z.to_nat size) in
          let* _ := require restore_ok AssertFailed in
          Ok (adler32 bytes, cm)
    | None =>
        let* _ := require map_ok AbortCall in
        let* bytes := load (cm_contents cm) memory_offset (Z.to_nat size) in
        Ok (adler32 bytes, cm)
    end.

Section Capture.
Context {S : Type} `{PacketSink S}.
Context (stype : Z) (write_extension : option VkMarkedOffsetsARM -> S -> outcome S).
Context (VkBuffer_index : gmap Z hostobject).
Context (map_ok restore_ok : bool).
(** what [write_header] has to know of the other threads *)
Context (streams_first streams_then : list Z) (id frame : Z).

Definition memory_of (memories : list captured_memory) (o : hostobject) : outcome (nat * captured_memory) :=
  match h_backing o with
  | None => Fail OutOfRange
  | Some i => match memories !! i with Some cm => Ok (i, cm) | None => Fail OutOfRange end
  end.

(** [run] is whether the calls are made, and [checksum] is what the caller's pointer
    points to, if it gives one; the results are the one of the call and the checksum *)
Definition trace_vkAssertBufferARM (run : bool) (device : trackable) (info : VkUpdateBufferInfoARM) (checksum : option Z)
    (comment : option (list byte)) (memories : list captured_memory) (w : lava_file_writer S)
    : outcome (Z * option Z * list captured_memory * lava_file_writer S) :=
  let* visible :=
    if run && negb (ui_dstBuffer info =? 0) then
      let* o := buffer_at VkBuffer_index (ui_dstBuffer info) in
      let* (_, cm) := memory_of memories o in
      Ok (negb (Z.land (propertyFlags (cm_memory cm)) VK_MEMORY_PROPERTY_HOST_VISIBLE_BIT =? 0))
    else Ok true in
  if negb visible then Ok (VK_INCOMPLETE, checksum, memories, w)
  else
    let* w := write_header false streams_first streams_then false id frame w in
    let* w := writing (write_assertion stype write_extension VkBuffer_index device info comment) w in
    let* (checksum_value, memories) :=
      match (if run then None else checksum) with
      | Some value => Ok (value, memories)
      | None =>
          if ui_dstBuffer info =? 0 then Ok (adler32 [], memories)
          else
            let* o := buffer_at VkBuffer_index (ui_dstBuffer info) in
            let* (i, cm) := memory_of memories o in
            let* (value, cm) := trace_checksum_buffer_range map_ok restore_ok o (ui_dstOffset info) (ui_dataSize info) cm in
            Ok (value, <[i := cm]> memories)
      end in
    let* w := writing (write_uint32_t checksum_value) w in
    let* w := end_packet w in
    Ok (VK_SUCCESS, match checksum with Some _ => Some checksum_value | None => None end, memories, w).
End Capture.

(** ** The check of the replay *)

Section Replay.
Context {R : Type} `{ByteSource R} `{MarkingHeader}.
Context (stype : Z) (read_extension : R -> outcome (option VkMarkedOffsetsARM * R)).
Context (index_to_VkDevice index_to_VkBuffer : replay_remap).
Context (buffers : list address_buffer) (structures : list (Z * Z)).
Context (pending : list descriptor_rewrite) (pipelines : list pipeline_handles).

Definition read_VkUpdateBufferInfoARM (s : R) : outcome (VkUpdateBufferInfoARM * R) :=
  let* (sType, s) := read_uint32_t s in
  let* _ := require (sType =? stype) AssertFailed in
  let* (markings, s) := read_extension s in
  let* (buffer_index, s) := read_handle_index s in
  let* dstBuffer := remap_at index_to_VkBuffer buffer_index in
  let* (dstOffset, s) := read_uint64_t s in
  let* (dataSize, s) := read_uint64_t s in
  let* (pData_opt, s) := read_uint8_t s in
  if negb (pData_opt =? 0) then
    let* (data, s) := read_array (Z.to_nat dataSize) s in
    Ok (UpdateBufferInfo sType markings dstBuffer dstOffset dataSize (Some data), s)
  else Ok (UpdateBufferInfo sType markings dstBuffer dstOffset dataSize None, s).

(** up to the callbacks, which get the result *)
Definition retrace_vkAssertBufferARM (is_replay blackhole : bool) (checked : gmap Z checked_buffer) (s : R)
    : outcome (VkUpdateBufferInfoARM * option (list byte) * Z * gmap Z checked_buffer * R) :=
  let* (device_index, s) := read_handle_index s in
  let* _ := remap_at index_to_VkDevice device_index in
  let* (info, s) := read_VkUpdateBufferInfoARM s in
  let* (comment, s) := read_string s in
  let* (checksum, s) := read_uint32_t s in
  if negb is_replay || blackhole then Ok (info, comment, checksum, checked, s)
  else
    let* (checksum_new, checked) :=
      if ui_dstBuffer info =? 0 then Ok (adler32 [], checked)
      else
        let* buffer_index := remap_index index_to_VkBuffer (ui_dstBuffer info) in
        match checked !! buffer_index with
        | None => Fail OutOfRange
        | Some b =>
            let* (value, b) := checksum_buffer_range buffers structures pending pipelines b (ui_dstOffset info) (ui_dataSize info) (ui_markings info) in
            Ok (value, <[buffer_index := b]> checked)
        end in
    let* _ := require (checksum =? checksum_new) AbortCall in
    Ok (info, comment, checksum, checked, s).
End Replay.

(** ** What the packet holds *)

Definition has_data (info : VkUpdateBufferInfoARM) : bool :=
  match ui_pData info with Some _ => ui_dataSize info >? 0 | None => false end.

Definition data_bytes (info : VkUpdateBufferInfoARM) : list byte :=
  if has_data info then take (Z.to_nat (ui_dataSize info)) (default [] (ui_pData info)) else [].

Definition info_body (buffer : option trackable) (info : VkUpdateBufferInfoARM) (ext : list byte) : list byte :=
  le_encode 4 (ui_sType info) ++ ext ++ encode_handle buffer ++ le_encode 8 (ui_dstOffset info) ++ le_encode 8 (ui_dataSize info) ++
  le_encode 1 (if has_data info then 1 else 0) ++ data_bytes info.

Definition assertion_body (device : trackable) (buffer : option trackable) (info : VkUpdateBufferInfoARM) (ext : list byte)
    (comment : option (list byte)) : list byte :=
  encode_handle (Some device) ++ info_body buffer info ext ++ encode_string comment.

(** the info as the replay has it *)
Definition info_seen (info : VkUpdateBufferInfoARM) (handle : Z) (seen : option VkMarkedOffsetsARM) : VkUpdateBufferInfoARM :=
  UpdateBufferInfo (ui_sType info) seen handle (ui_dstOffset info) (ui_dataSize info) (if has_data info then Some (data_bytes info) else None).

(** the application gives what the call asks for *)
Record info_ok (stype : Z) (info : VkUpdateBufferInfoARM) : Prop := {
  io_stype : ui_sType info = stype /\ u32 stype;
  io_offset : u64 (ui_dstOffset info);
  io_size : u64 (ui_dataSize info);
  io_data : forall data, ui_pData info = Some data -> 0 < ui_dataSize info ->
    ui_dataSize info <= Z.of_nat (length data) /\ ui_dataSize info <= UINT32_MAX
}.

Section BodyProofs.
Context {S : Type} `{ByteSink S}.
Context (stype : Z) (write_extension : option VkMarkedOffsetsARM -> S -> outcome S) (VkBuffer_index : gmap Z hostobject).

Definition buffer_written (info : VkUpdateBufferInfoARM) (buffer : option trackable) : Prop :=
  match buffer with
  | None => ui_dstBuffer info = 0
  | Some t => ui_dstBuffer info <> 0 /\ exists o, VkBuffer_index !! ui_dstBuffer info = Some o /\ h_base o = t
  end /\ usable buffer = true.

Lemma emits_assertion device buffer info ext comment : info_ok stype info -> usable (Some device) = true -> buffer_written info buffer ->
  emits (write_extension (ui_markings info)) ext ->
  emits (write_assertion stype write_extension VkBuffer_index device info comment) (assertion_body device buffer info ext comment).
Proof.
  intros [[Is Iu] Io Iz Id] Hd [Hb Hub] Hx. unfold write_assertion, assertion_body, info_body, write_VkUpdateBufferInfoARM.
  apply emits_bind; [by apply emits_handle|]. apply emits_bind; [|apply emits_string].
  apply emits_bind; [apply emits_value; lia|]. rewrite Is, Z.eqb_refl. cbn [require obind].
  apply emits_bind; [exact Hx|].
  assert (E : (if ui_dstBuffer info =? 0 then Ok None else let* o := buffer_at VkBuffer_index (ui_dstBuffer info) in Ok (Some (h_base o))) = Ok buffer).
  { destruct buffer as [t|].
    - destruct Hb as (Hn & o & Ho & <-). rewrite (proj2 (Z.eqb_neq _ _)) by done. unfold buffer_at. by rewrite Ho.
    - by rewrite Hb. }
  rewrite E. cbn [obind]. apply emits_bind; [by apply emits_handle|]. apply emits_bind; [apply emits_value; lia|].
  apply emits_bind; [apply emits_value; lia|]. unfold data_bytes, has_data.
  destruct (ui_pData info) as [data|] eqn:Ep; [|rewrite app_nil_r; apply emits_value; lia].
  destruct (ui_dataSize info >? 0) eqn:Ez; [|rewrite app_nil_r; apply emits_value; lia]. bool_to_prop.
  destruct (Id data eq_refl Ez) as [D1 D2]. apply emits_bind; [apply emits_value; lia|]. rewrite load_ok by lia. cbn [obind].
  unfold slice. cbn [default drop Z.to_nat id]. apply emits_array. rewrite length_take. u_lia.
Qed.
End BodyProofs.

(** ** Reading it *)

Section ReadProofs.
Context {R : Type} `{ByteSource R} `{MarkingHeader}.
Context (stype : Z) (read_extension : R -> outcome (option VkMarkedOffsetsARM * R)).
Context (index_to_VkDevice index_to_VkBuffer : replay_remap).
Context (buffers : list address_buffer) (structures : list (Z * Z)).
Context (pending : list descriptor_rewrite) (pipelines : list pipeline_handles).

Lemma parses_handle t : usable t = true -> match t with Some t => u32 (t_index t) /\ u32 (cs_packet (t_last_modified t)) | None => True end ->
  parses read_handle_index (encode_handle t) (match t with Some t => t_index t | None => CONTAINER_NULL_VALUE end).
Proof.
  intros Hu Ht. destruct t as [t|]; [destruct Ht; by apply parses_handle_index|]. unfold read_handle_index, encode_handle.
  eapply (parses_bind (read_value 4)); [apply parses_value; by vm_compute|].
  eapply (parses_bind read_int8_t); [apply parses_map, parses_value; unfold wrap; apply Z.mod_pos_bound; lia|].
  rewrite <- (app_nil_r (le_encode 4 0)). eapply (parses_bind (read_value 4)); [apply parses_value; by vm_compute|]. apply parses_ret.
Qed.

Definition handle_index (t : option trackable) : Z := match t with Some t => t_index t | None => CONTAINER_NULL_VALUE end.

Definition handle_fits (t : option trackable) : Prop :=
  usable t = true /\ match t with Some t => u32 (t_index t) /\ u32 (cs_packet (t_last_modified t)) | None => True end.

Lemma parses_info buffer info ext seen handle : info_ok stype info -> handle_fits buffer ->
  parses read_extension ext seen -> remap_at index_to_VkBuffer (handle_index buffer) = Ok handle ->
  parses (read_VkUpdateBufferInfoARM stype read_extension index_to_VkBuffer) (info_body buffer info ext) (info_seen info handle seen).
Proof.
  intros [[Is Iu] Io Iz Id] [Hb1 Hb2] Hx Hr. unfold read_VkUpdateBufferInfoARM, info_body, info_seen.
  eapply (parses_bind (read_value 4)); [apply parses_value; rewrite Is; change (256 ^ Z.of_nat 4) with (2 ^ 32); u_lia|].
  rewrite Is, Z.eqb_refl. cbn [require obind]. eapply parses_bind; [exact Hx|].
  eapply parses_bind; [by apply parses_handle|]. fold (handle_index buffer). rewrite Hr. cbn [obind].
  eapply (parses_bind (read_value 8)); [apply parses_value; change (256 ^ Z.of_nat 8) with (2 ^ 64); u_lia|].
  eapply (parses_bind (read_value 8)); [apply parses_value; change (256 ^ Z.of_nat 8) with (2 ^ 64); u_lia|].
  eapply (parses_bind (read_value 1)); [apply parses_value; destruct (has_data info); by vm_compute|]. unfold data_bytes.
  destruct (has_data info) eqn:Eh; cbn [Z.eqb negb].
  - change (negb (1 =? 0)) with true. cbn iota. unfold has_data in Eh. destruct (ui_pData info) as [data|]; [|done]. bool_to_prop.
    destruct (Id data eq_refl Eh) as [D1 _]. cbn [default id]. rewrite <- (app_nil_r (take _ data)).
    eapply parses_bind; [apply parses_next; rewrite length_take; lia|]. rewrite app_nil_r. apply parses_ret.
  - apply parses_ret.
Qed.

(** a packet read in full, up to the check *)
Lemma assertion_read device buffer info ext comment seen handle dev checksum checked is_replay blackhole r rest :
  info_ok stype info -> handle_fits (Some device) -> handle_fits buffer -> u32 checksum ->
  parses read_extension ext seen -> remap_at index_to_VkDevice (t_index device) = Ok dev ->
  remap_at index_to_VkBuffer (handle_index buffer) = Ok handle ->
  src_ok r -> remaining r = (assertion_body device buffer info ext comment ++ le_encode 4 checksum) ++ rest ->
  let info' := info_seen info handle seen in
  exists r', src_ok r' /\ remaining r' = rest /\
    retrace_vkAssertBufferARM stype read_extension index_to_VkDevice index_to_VkBuffer buffers structures pending pipelines
        is_replay blackhole checked r =
      if negb is_replay || blackhole then Ok (info', string_seen comment, checksum, checked, r')
      else
        let* (checksum_new, checked) :=
          if handle =? 0 then Ok (adler32 [], checked)
          else
            let* i := remap_index index_to_VkBuffer handle in
            match checked !! i with
            | None => Fail OutOfRange
            | Some b =>
                let* (value, b) := checksum_buffer_range buffers structures pending pipelines b (ui_dstOffset info) (ui_dataSize info) seen in
                Ok (value, <[i := b]> checked)
            end in
        let* _ := require (checksum =? checksum_new) AbortCall in
        Ok (info', string_seen comment, checksum, checked, r').
Proof.
  intros Hi [D1 D2] Hb Hc Hx Hd Hr Hok Hrem info'. unfold assertion_body in Hrem. rewrite <- !app_assoc in Hrem.
  destruct (parses_handle (Some device) D1 D2 r _ Hok Hrem) as (r1 & E1 & Hok1 & Hr1).
  destruct (parses_info buffer info ext seen handle Hi Hb Hx Hr r1 _ Hok1 Hr1) as (r2 & E2 & Hok2 & Hr2).
  destruct (parses_string comment r2 _ Hok2 Hr2) as (r3 & E3 & Hok3 & Hr3).
  destruct (parses_value 4 checksum ltac:(change (256 ^ Z.of_nat 4) with (2 ^ 32); u_lia) r3 _ Hok3 Hr3) as (r4 & E4 & Hok4 & Hr4).
  exists r4. split; [done|]. split; [done|]. unfold retrace_vkAssertBufferARM. rewrite E1. cbn [obind]. rewrite Hd. cbn [obind].
  rewrite E2. cbn [obind]. rewrite E3. cbn [obind]. unfold read_uint32_t. rewrite E4. cbn [obind]. done.
Qed.
End ReadProofs.

(** ** The capture *)

(** the length of the range that is checked *)
Definition range_length (buffer_size offset size : Z) : Z := if size =? VK_WHOLE_SIZE then wrap64 (buffer_size - offset) else size.

(** the bytes of the buffer's range *)
Definition captured_bytes (o : hostobject) (offset size : Z) (cm : captured_memory) : list byte :=
  slice (Z.to_nat (h_offset o + offset)) (Z.to_nat (range_length (h_size o) offset size)) (cm_contents cm).

(** the range lies in the memory, and a pointer to mapped memory points to the range
    that was mapped *)
Record range_captured (o : hostobject) (offset size : Z) (cm : captured_memory) : Prop := {
  rc_start : 0 <= h_offset o /\ 0 <= offset;
  rc_size : 0 <= range_length (h_size o) offset size;
  rc_inside : h_offset o + offset + range_length (h_size o) offset size <= Z.of_nat (length (cm_contents cm)) <= UINT64_MAX;
  rc_window : forall w, ptr (cm_memory cm) = Some w -> w_base w = m_offset (cm_memory cm) /\ 0 <= m_offset (cm_memory cm)
}.

Lemma checksum_captured o offset size cm : range_captured o offset size cm ->
  exists cm', trace_checksum_buffer_range true true o offset size cm = Ok (adler32 (captured_bytes o offset size cm), cm') /\
    cm_contents cm' = cm_contents cm.
Proof.
  intros [[R1 R1'] R2 R3 R4]. unfold trace_checksum_buffer_range, captured_bytes. cbv zeta. fold (range_length (h_size o) offset size).
  set (n := range_length (h_size o) offset size) in *. set (m := match clone (cm_memory cm) with Some _ => cm_memory cm | None => _ end).
  assert (Hm : ptr m = ptr (cm_memory cm) /\ m_offset m = m_offset (cm_memory cm)) by (unfold m; by destruct (clone (cm_memory cm))).
  destruct Hm as [Hp Ho]. exists (CapturedMemory m (cm_contents cm)). split; [|done].
  destruct (Z.eqb_spec n 0) as [E|E]; [by rewrite E|]. rewrite wrap64_small by u_lia. cbn [cm_contents].
  assert (Hl : load (cm_contents cm) (h_offset o + offset) (Z.to_nat n) = Ok (slice (Z.to_nat (h_offset o + offset)) (Z.to_nat n) (cm_contents cm)))
    by (apply load_ok; lia).
  rewrite Hp. destruct (ptr (cm_memory cm)) as [w|] eqn:Ew; cbn [require obind]; [|by rewrite Hl].
  destruct (_ && _); [|by rewrite Hl]. destruct (R4 w eq_refl) as [-> _]. rewrite Ho.
  replace (m_offset (cm_memory cm) + (h_offset o + offset - m_offset (cm_memory cm))) with (h_offset o + offset) by lia. by rewrite Hl.
Qed.

Section CaptureProofs.
Context {S : Type} `{PacketSink S}.
Context (stype : Z) (write_extension : option VkMarkedOffsetsARM -> S -> outcome S) (VkBuffer_index : gmap Z hostobject).
Context (streams_first streams_then : list Z) (id frame : Z).

(** the packets in front of that of the assertion *)
Definition before_command (done : list packet) (open : option packet) (w : lava_file_writer S) : list packet :=
  close done open ++ (if pending_barrier w then [barrier_packet streams_then] else []).

Lemma assertion_written device o i cm info ext given comment memories (w : lava_file_writer S) done open :
  packet_inv w done open -> write_output w = false -> valid_targets streams_first -> valid_targets streams_then ->
  info_ok stype info -> usable (Some device) = true -> usable (Some (h_base o)) = true ->
  ui_dstBuffer info <> 0 -> VkBuffer_index !! ui_dstBuffer info = Some o ->
  h_backing o = Some i -> memories !! i = Some cm ->
  Z.land (propertyFlags (cm_memory cm)) VK_MEMORY_PROPERTY_HOST_VISIBLE_BIT <> 0 ->
  range_captured o (ui_dstOffset info) (ui_dataSize info) cm -> body_writer (write_extension (ui_markings info)) ext ->
  let body := assertion_body device (Some (h_base o)) info ext comment in
  room (before_command done open w) (10 + Z.of_nat (length body)) ->
  let c := adler32 (captured_bytes o (ui_dstOffset info) (ui_dataSize info) cm) in
  exists memories' w',
    trace_vkAssertBufferARM stype write_extension VkBuffer_index true true streams_first streams_then id frame true device info given comment memories w =
      Ok (VK_SUCCESS, match given with Some _ => Some c | None => None end, memories', w') /\
    packet_inv w' (before_command done open w ++ [api_packet id (body ++ le_encode 4 c)]) None.
Proof.
  intros Hi Hout V1 V2 Hio Hd Ho Hn Hb Hback Hcm Hvis Hr Hx body Hroom c. unfold trace_vkAssertBufferARM.
  rewrite (proj2 (Z.eqb_neq _ _)) by done. cbn [andb negb]. unfold buffer_at at 1. rewrite Hb. cbn [obind]. unfold memory_of at 1. rewrite Hback, Hcm.
  cbn [obind]. rewrite (proj2 (Z.eqb_neq _ _)) by done. cbn [negb].
  assert (Hfits : forall bs, (length bs <= length body + 4)%nat -> fits (before_command done open w ++ [api_packet id bs])).
  { intros bs Hl. apply (room_fits _ _ _ _ Hroom). rewrite !length_app, !length_le_encode. lia. }
  destruct (packet_op_spec (Command false streams_first streams_then id frame
      (write_assertion stype write_extension VkBuffer_index device info comment) body) (done, open, pending_barrier w) w) as (w1 & E1 & Hi1 & _ & _).
  - exact Hi.
  - done.
  - done.
  - cbn [all_packets fst snd]. unfold before_command in Hroom. destruct Hroom as (Hf & _). by apply fits_prefix in Hf.
  - split; [done|]. split; [done|]. intros p n. apply (@emits_assertion S (open_sink p n)); try done.
    split; [|done]. split; [done|]. by exists o.
  - change (fits (before_command done open w ++ [api_packet id body])). apply Hfits. lia.
  - cbn [do_packet_op] in E1. apply obind_ok_inv in E1 as (w0 & E0 & E1). rewrite E0. cbn [obind]. rewrite E1. cbn [obind].
    unfold buffer_at, memory_of. rewrite Hb. cbn [obind]. rewrite Hback, Hcm. cbn [obind].
    destruct (checksum_captured o (ui_dstOffset info) (ui_dataSize info) cm Hr) as (cm' & Ec & _). rewrite Ec. cbn [obind].
    destruct (writing_value 4 c w1 _ _ _ Hi1 ltac:(lia)) as (w2 & E2 & Hi2 & _). unfold write_uint32_t. fold c. rewrite E2. cbn [obind].
    rewrite <- !app_assoc in Hi2. change (close done open ++ [] ++ ?l) with (close done open ++ l) in Hi2.
    fold (before_command done open w) in Hi2. fold body in Hi2. fold (api_packet id (body ++ le_encode 4 c)) in Hi2.
    destruct (end_packet_spec w2 _ _ Hi2) as (w3 & E3 & Hi3 & _).
    { apply Hfits. rewrite length_app, length_le_encode. lia. }
    rewrite E3. cbn [obind]. by exists (<[i := cm']> memories), w3.
Qed.
End CaptureProofs.

(** ** The replay *)

(** the buffer as the replay has it *)
Record buffer_checked (o : hostobject) (offset size : Z) (b : checked_buffer) : Prop := {
  bc_size : kb_size b = h_size o;
  bc_mapped : kb_mapped b = true;
  bc_area : kb_size b <= Z.of_nat (length (a_bytes (kb_area b))) <= UINT64_MAX;
  bc_inside : 0 <= offset /\ 0 <= range_length (h_size o) offset size /\ offset + range_length (h_size o) offset size <= kb_size b
}.

(** the bytes of the range on the replay *)
Definition replayed_bytes (o : hostobject) (offset size : Z) (b : checked_buffer) : list byte :=
  slice (Z.to_nat offset) (Z.to_nat (range_length (h_size o) offset size)) (a_bytes (kb_area b)).

Section CheckProofs.
Context `{MarkingHeader}.
Context (buffers : list address_buffer) (structures : list (Z * Z)).
Context (pending : list descriptor_rewrite) (pipelines : list pipeline_handles).

Lemma checked_plain o offset size b : buffer_checked o offset size b ->
  checksum_buffer_range buffers structures pending pipelines b offset size None = Ok (adler32 (replayed_bytes o offset size b), found_memory b).
Proof.
  intros [B1 B2 B3 (B4 & B5 & B6)]. unfold checksum_buffer_range, checked_size, replayed_bytes. rewrite B1. fold (range_length (h_size o) offset size).
  cbv zeta. destruct (Z.eqb_spec (range_length (h_size o) offset size) 0) as [E|E]; [by rewrite E|].
  unfold checked_bytes. rewrite B2. cbn [require obind]. by rewrite load_ok by lia.
Qed.

Lemma checked_marked o offset size b m c : buffer_checked o offset size b -> range_length (h_size o) offset size <> 0 ->
  checksum_marked_buffer_range buffers structures pending pipelines (replayed_bytes o offset size b) m = Ok c ->
  checksum_buffer_range buffers structures pending pipelines b offset size (Some m) = Ok (c, found_memory b).
Proof.
  intros [B1 B2 B3 (B4 & B5 & B6)] E Hc. unfold checksum_buffer_range, checked_size, replayed_bytes in *. rewrite B1.
  fold (range_length (h_size o) offset size). cbv zeta. rewrite (proj2 (Z.eqb_neq _ _)) by done.
  rewrite wrap64_small by u_lia. rewrite (proj2 (Z.leb_le _ _)) by lia. cbn [require obind].
  unfold checked_bytes. rewrite B2. cbn [require obind]. rewrite load_ok by lia. cbn [obind]. by rewrite Hc.
Qed.

Lemma checked_empty o offset size b m : buffer_checked o offset size b -> range_length (h_size o) offset size = 0 ->
  checksum_buffer_range buffers structures pending pipelines b offset size m = Ok (adler32 [], found_memory b).
Proof.
  intros [B1 _ _ _] E. unfold checksum_buffer_range, checked_size. rewrite B1. fold (range_length (h_size o) offset size). by rewrite E.
Qed.
End CheckProofs.

(** ** Properties *)

(** C33: An assertion that the capture writes holds on a faithful replay and only
    there: the call succeeds and gives the checksum of the buffer's bytes, its packet
    is the next one of the thread, and a replay of the packet checks the same range
    of its own buffer. With markings it passes when that memory is the capture's with
    the marked values translated; without, it passes exactly when the checksum of the
    memory is the one of the capture, and otherwise aborts. *)
Theorem assertion_replayed {S R} `{PacketSink S, ByteSource R, MarkingHeader}
    (stype : Z) (write_extension : option VkMarkedOffsetsARM -> S -> outcome S)
    (read_extension : R -> outcome (option VkMarkedOffsetsARM * R)) (VkBuffer_index : gmap Z hostobject)
    (streams_first streams_then : list Z) (id frame : Z) (device : trackable) (o : hostobject) (i : nat) (cm : captured_memory)
    (info : VkUpdateBufferInfoARM) (ext : list byte) (given : option Z) (comment : option (list byte))
    (memories : list captured_memory) (w : lava_file_writer S) done open
    (Hw : packet_inv w done open) (Houtput : write_output w = false)
    (Hfirst : valid_targets streams_first) (Hthen : valid_targets streams_then) (Hinfo : info_ok stype info)
    (Hdevice : handle_fits (Some device)) (Hobject : handle_fits (Some (h_base o)))
    (Hbuffer : ui_dstBuffer info <> 0) (Hindex : VkBuffer_index !! ui_dstBuffer info = Some o)
    (Hbacking : h_backing o = Some i) (Hmemory : memories !! i = Some cm)
    (Hvisible : Z.land (propertyFlags (cm_memory cm)) VK_MEMORY_PROPERTY_HOST_VISIBLE_BIT <> 0)
    (Hrange : range_captured o (ui_dstOffset info) (ui_dataSize info) cm)
    (Hextension : body_writer (write_extension (ui_markings info)) ext)
    (seen : option VkMarkedOffsetsARM) (Hseen : parses read_extension ext seen)
    (Hroom : room (before_command streams_then done open w)
      (10 + Z.of_nat (length (assertion_body device (Some (h_base o)) info ext comment)))) :
  let cap := captured_bytes o (ui_dstOffset info) (ui_dataSize info) cm in
  let body := assertion_body device (Some (h_base o)) info ext comment ++ le_encode 4 (adler32 cap) in
  exists memories' w',
    trace_vkAssertBufferARM stype write_extension VkBuffer_index true true streams_first streams_then id frame true device info given comment memories w =
      Ok (VK_SUCCESS, match given with Some _ => Some (adler32 cap) | None => None end, memories', w') /\
    packet_inv w' (before_command streams_then done open w ++ [api_packet id body]) None /\
    forall devices replay_buffers dev handle k checked b buffers structures pending pipelines r rest,
      remap_at devices (t_index device) = Ok dev -> remap_at replay_buffers (t_index (h_base o)) = Ok handle -> handle <> 0 ->
      remap_index replay_buffers handle = Ok k -> checked !! k = Some b -> buffer_checked o (ui_dstOffset info) (ui_dataSize info) b ->
      src_ok r -> remaining r = body ++ rest ->
      let mem := replayed_bytes o (ui_dstOffset info) (ui_dataSize info) b in
      exists r', src_ok r' /\ remaining r' = rest /\
        let result := retrace_vkAssertBufferARM stype read_extension devices replay_buffers buffers structures pending pipelines true false checked r in
        let passed := Ok (info_seen info handle seen, string_seen comment, adler32 cap, <[k := found_memory b]> checked, r') in
        match seen with
        | None => (adler32 mem = adler32 cap -> result = passed) /\ (adler32 mem <> adler32 cap -> result = Fail AbortCall)
        | Some m =>
            forall descriptor_length buffer_at structure_at buffer_map structure_map debug arrays ms,
              addresses_known buffers structures buffer_at structure_at buffer_map structure_map ->
              descriptors_known descriptor_length pending -> replay_handles_distinct pipelines ->
              entries m = Ok (arrays, ms) -> Forall (mark_known descriptor_length buffers structures pending cap) ms ->
              List.ForallOrdPairs (places_apart descriptor_length) ms ->
              translate_marked_offsets debug true (translate_address buffer_at buffer_map) (translate_address structure_at structure_map)
                pending pipelines false m cap (Z.of_nat (length cap)) = Ok mem ->
              result = passed
        end.
Proof.
  intros cap body. destruct (assertion_written stype write_extension VkBuffer_index streams_first streams_then id frame device o i cm info
    ext given comment memories w done open) as (memories' & w' & E & Hi); try done; [apply Hdevice|apply Hobject|].
  exists memories', w'. split; [exact E|]. split; [exact Hi|].
  intros devices replay_buffers dev handle k checked b buffers structures pending pipelines r rest Hdev Hh Hnz Hk Hb Hc Hr Hrem mem.
  destruct (assertion_read stype read_extension devices replay_buffers buffers structures pending pipelines device (Some (h_base o)) info ext
    comment seen handle dev (adler32 cap) checked true false r rest) as (r' & Hr' & Hrest & Er); try done; [apply adler32_range|].
  exists r'. split; [done|]. split; [done|]. rewrite Er. cbn [negb orb]. rewrite (proj2 (Z.eqb_neq _ _)) by done. rewrite Hk. cbn [obind]. rewrite Hb.
  destruct seen as [m|].
  - intros dl bat sat bm sm debug arrays ms Ha Hd Hp He Hkn Hap Ht.
    assert (Hlen : Z.of_nat (length cap) <= UINT64_MAX).
    { destruct Hrange as [[? ?] ? ? _]. unfold cap, captured_bytes. rewrite length_slice. lia. }
    destruct (checksum_translated dl buffers structures bat sat bm sm pending pipelines Ha Hd Hp debug m arrays ms cap mem He Hlen Hkn Hap Ht) as [_ Ec].
    destruct (Z.eq_dec (range_length (h_size o) (ui_dstOffset info) (ui_dataSize info)) 0) as [E0|E0].
    + rewrite (checked_empty _ _ _ _ o) by done. cbn [obind]. replace (adler32 cap) with (adler32 []); [by rewrite Z.eqb_refl|].
      unfold cap, captured_bytes. by rewrite E0.
    + rewrite (checked_marked _ _ _ _ o _ _ b m _ Hc E0 Ec). cbn [obind]. by rewrite Z.eqb_refl.
  - rewrite (checked_plain _ _ _ _ o) by done. cbn [obind]. fold mem. split; intros Em.
    + by rewrite Em, Z.eqb_refl.
    + by rewrite (proj2 (Z.eqb_neq _ _)) by congruence.
Qed.

#[local] Existing Instance demo_header.

(** A check of memory that was handed out for the first time sees what was there, and
    the update that follows does not clear it any more: only the first byte is from
    the trace. *)
Definition demo_fresh_buffer : checked_buffer := CheckedBuffer 4 true (HostArea [xff; xff; xff; xff] false).

Example checked_memory_not_cleared :
  (let* (_, b) := checksum_buffer_range [] [] [] [] demo_fresh_buffer 0 4 None in
   patch_area (kb_area b) (encode_run (0, [xaa]) ++ patch_terminator)) = Ok (1, [xaa; xff; xff; xff], []).
Proof. vm_compute. reflexivity. Qed.

Example unchecked_memory_cleared :
  patch_area (kb_area demo_fresh_buffer) (encode_run (0, [xaa]) ++ patch_terminator) = Ok (1, [xaa; x00; x00; x00], []).
Proof. vm_compute. reflexivity. Qed.

(** a buffer of 70 bytes at offset 64 of its memory, 59 of which are checked *)
Definition demo_asserted : hostobject :=
  HostObject (Trackable 3 bound no_change) VK_OBJECT_TYPE_BUFFER 0 (Some 0%nat) 64 70 true 0 None 0 0.

Definition demo_memory_contents : captured_memory :=
  CapturedMemory (HostMemory VK_MEMORY_PROPERTY_HOST_VISIBLE_BIT 0 0 134 None None (Exposure [] false) [])
    (repeat x00 68 ++ demo_captured_range ++ repeat x00 7).

Definition demo_info : VkUpdateBufferInfoARM := UpdateBufferInfo 1 (Some demo_range_marks) 500 4 59 None.

Definition demo_replayed_buffer : checked_buffer :=
  CheckedBuffer 70 true (HostArea (repeat xee 4 ++ demo_translated_range ++ repeat xee 7) true).

Definition demo_write_markings (_ : option VkMarkedOffsetsARM) : logged -> outcome logged := emit (ByteSink := @packet_sink _ demo_sink) [xab].

Definition demo_read_markings (s : list byte) : outcome (option VkMarkedOffsetsARM * list byte) :=
  let* (_, s) := read_uint8_t s in Ok (Some demo_range_marks, s).

Definition demo_remap : replay_remap := ReplayRemap [900; 901; 902; 903] {[900 := 0; 901 := 1; 902 := 2; 903 := 3]}.

Lemma demo_buffer_checked : buffer_checked demo_asserted 4 59 demo_replayed_buffer.
Proof. split; [done..| |]; by vm_compute. Qed.

Lemma demo_handle : 903 <> 0.
Proof. done. Qed.

Lemma demo_asserted_range : captured_bytes demo_asserted 4 59 demo_memory_contents = demo_captured_range.
Proof. vm_compute. reflexivity. Qed.

Lemma assertion_replayed_witness :
  let cap := captured_bytes demo_asserted 4 59 demo_memory_contents in
  let body := assertion_body demo_device (Some (h_base demo_asserted)) demo_info [xab] None ++ le_encode 4 (adler32 cap) in
  exists memories' w',
    trace_vkAssertBufferARM (H := demo_sink) 1 demo_write_markings {[500 := demo_asserted]} true true [] [] 77 0 true demo_device demo_info
      (Some 0) None [demo_memory_contents] demo_writer = Ok (VK_SUCCESS, Some (adler32 cap), memories', w') /\
    packet_inv (H := demo_sink) w' [api_packet 77 body] None /\
    exists r', remaining r' = [] /\
      retrace_vkAssertBufferARM 1 demo_read_markings demo_remap demo_remap demo_checked_buffers demo_structures demo_descriptors
        demo_checked_pipelines true false {[3 := demo_replayed_buffer]} body =
        Ok (info_seen demo_info 903 (Some demo_range_marks), None, adler32 cap, <[3 := found_memory demo_replayed_buffer]> {[3 := demo_replayed_buffer]}, r').
Proof.
  intros cap body.
  destruct (assertion_replayed (H := demo_sink) (R := list byte) 1 demo_write_markings demo_read_markings {[500 := demo_asserted]} [] [] 77 0
    demo_device demo_asserted 0 demo_memory_contents demo_info [xab] (Some 0) None [demo_memory_contents] demo_writer [] None)
    with (seen := Some demo_range_marks) as (memories' & w' & E & Hi & Hr).
  - exact demo_writer_inv.
  - done.
  - split; [by vm_compute|constructor].
  - split; [by vm_compute|constructor].
  - split; [done| | |]; by vm_compute.
  - repeat split; by vm_compute.
  - repeat split; by vm_compute.
  - done.
  - reflexivity.
  - done.
  - done.
  - by vm_compute.
  - split; [by vm_compute..|done].
  - by apply demo_body.
  - apply (parses_map read_uint8_t (fun _ => Some demo_range_marks) [xab] 171). apply (parses_value 1 171). by vm_compute.
  - repeat split; try constructor; by vm_compute.
  - exists memories', w'. split; [exact E|]. split; [exact Hi|].
    destruct (Hr demo_remap demo_remap 900 903 3 {[3 := demo_replayed_buffer]} demo_replayed_buffer demo_checked_buffers demo_structures
      demo_descriptors demo_checked_pipelines body [] eq_refl eq_refl demo_handle eq_refl (lookup_singleton_eq _ _) demo_buffer_checked I (eq_sym (app_nil_r body))) as (r' & _ & Hrest & Ep).
    exists r'. split; [exact Hrest|].
    refine (Ep (fun _ => 2%nat) demo_buffer_object demo_structure_object [(1000, [0%nat])] [(500, [0%nat])] false _ demo_range_entries
      demo_addresses_known demo_descriptors_known demo_handles_distinct eq_refl _ demo_range_apart _).
    + change (captured_bytes _ _ _ _) with (captured_bytes demo_asserted 4 59 demo_memory_contents). rewrite demo_asserted_range.
      exact demo_range_known.
    + vm_compute. reflexivity.
Defined.
