(* ===== verification/Submissions.v ===== *)
(** * Submitted command buffers of a replay (src/hardcode_read.cpp, src/lavatube.h)

    A replay runs at a speed of its own, so that a command buffer can still be in
    use where the capture had it back already. The replay notes which command buffers
    it submitted with which queue and fence, drops the note when a wait shows them to
    be done, and waits before a call that must not find the command buffer in use. *)

From Stdlib Require Import ZArith Lia Bool.
From stdpp Require Import base numbers list gmap relations.
From S2P Require Import Prelude FileWriter FileReader Packets Containers.

#[local] Open Scope Z_scope.

Definition VK_COMMAND_BUFFER_USAGE_SIMULTANEOUS_USE_BIT : Z := 4.
Definition VK_OK : Z := 0.

(** ** The device *)

(** what a call of [vkQueueSubmit] hands to the device; handles are numbers, and 0 is
    no fence *)
Record submission := Submission {
  s_queue : Z;
  s_fence : Z;
  s_buffers : list Z
}.

#[export] Instance submission_eq_dec : EqDecision submission.
Proof. solve_decision. Defined.

(** The device finishes a submission. A fence is signalled when everything that was
    submitted to the queue before it is done. *)
Inductive finish : list submission -> list submission -> Prop :=
  | finish_one before s after :
      (s_fence s <> 0 -> Forall (fun t => s_queue t <> s_queue s) before) ->
      finish (before ++ s :: after) (before ++ after).

Definition advance : list submission -> list submission -> Prop := rtc finish.

(** The calls of the driver that the replay makes here. [in_flight] is what the device
    may still be working on, in the order of submission, with the command buffers that
    each submission names; the secondary ones that these execute are not listed. *)
Class Driver (D : Type) := {
  in_flight : D -> list submission;
  queue_device : Z -> Z;
  wrap_vkQueueSubmit : Z -> list (list Z) -> Z -> D -> Z * D;
  wrap_vkWaitForFences : list Z -> bool -> Z -> D -> Z * D;
  wrap_vkGetFenceStatus : Z -> D -> Z * D;
  wrap_vkResetFences : list Z -> D -> Z * D;
  wrap_vkQueueWaitIdle : Z -> D -> Z * D;
  wrap_vkDeviceWaitIdle : Z -> D -> Z * D;
  wrap_vkDestroyBuffer : Z -> D -> D;
  wrap_vkFreeMemory : Z -> D -> D;
  submit_law queue submits fence d :
    let res := wrap_vkQueueSubmit queue submits fence d in
    advance (in_flight d ++ if res.1 =? VK_OK then [Submission queue fence (concat submits)] else []) (in_flight res.2);
  wait_law fences all timeout d :
    let res := wrap_vkWaitForFences fences all timeout d in
    advance (in_flight d) (in_flight res.2) /\
    (res.1 = VK_OK -> all = true -> Forall (fun s => s_fence s = 0 \/ s_fence s ∉ fences) (in_flight res.2));
  status_law fence d :
    let res := wrap_vkGetFenceStatus fence d in
    advance (in_flight d) (in_flight res.2) /\
    (res.1 = VK_OK -> Forall (fun s => s_fence s = 0 \/ s_fence s <> fence) (in_flight res.2));
  reset_law fences d : advance (in_flight d) (in_flight (wrap_vkResetFences fences d).2);
  queue_idle_law queue d :
    let res := wrap_vkQueueWaitIdle queue d in
    advance (in_flight d) (in_flight res.2) /\ (res.1 = VK_OK -> Forall (fun s => s_queue s <> queue) (in_flight res.2));
  device_idle_law device d :
    let res := wrap_vkDeviceWaitIdle device d in
    advance (in_flight d) (in_flight res.2) /\
    (res.1 = VK_OK -> Forall (fun s => queue_device (s_queue s) <> device) (in_flight res.2));
  destroy_law buffer d : advance (in_flight d) (in_flight (wrap_vkDestroyBuffer buffer d));
  free_law memory d : advance (in_flight d) (in_flight (wrap_vkFreeMemory memory d))
}.

(** ** The state of the replay *)

Record internal_buffer := InternalBuffer { ib_buffer : Z; ib_memory : Z }.

(** The fields of [trackedcmdbuffer] that the submissions use. A buffer that traces
    no rays has no uses that a submit would have to fix up. *)
Record trackedcmdbuffer := TrackedCmdBuffer {
  c_device : Z;
  pool_index : Z;
  replay_scratch_buffers : list internal_buffer;
  replay_begin_flags : Z;
  replay_submit_queue : Z;
  replay_submit_fence_index : Z;
  replay_pending : bool;
  replay_secondary_commandbuffers : list Z;
  c_last_submit_source : option change_source
}.

Record trackedfence := TrackedFence {
  replay_pending_commandbuffers : list Z;
  f_last_submit_source : option change_source
}.

Record replay_submission := ReplaySubmission {
  rs_source : change_source;
  rs_queue_index : Z;
  rs_fence_index : Z;
  rs_commandbuffer_indices : list Z
}.

Record replay_state := ReplayState {
  VkCommandBuffer_index : list trackedcmdbuffer;
  VkFence_index : list trackedfence;
  index_to_VkCommandBuffer : replay_remap;
  index_to_VkFence : replay_remap;
  replay_recent_submissions : list (list replay_submission)    (** of every device *)
}.

Definition pending_set (c : trackedcmdbuffer) (pending : bool) (queue fence_index : Z) (source : option change_source) : trackedcmdbuffer :=
  TrackedCmdBuffer (c_device c) (pool_index c) (replay_scratch_buffers c) (replay_begin_flags c) queue fence_index pending
    (replay_secondary_commandbuffers c) source.

(** no longer pending *)
Definition cleared (c : trackedcmdbuffer) : trackedcmdbuffer := pending_set c false 0 CONTAINER_INVALID_INDEX (c_last_submit_source c).

Definition with_commandbuffers (st : replay_state) (l : list trackedcmdbuffer) : replay_state :=
  ReplayState l (VkFence_index st) (index_to_VkCommandBuffer st) (index_to_VkFence st) (replay_recent_submissions st).
Definition with_fences (st : replay_state) (l : list trackedfence) : replay_state :=
  ReplayState (VkCommandBuffer_index st) l (index_to_VkCommandBuffer st) (index_to_VkFence st) (replay_recent_submissions st).
Definition with_recent (st : replay_state) (l : list (list replay_submission)) : replay_state :=
  ReplayState (VkCommandBuffer_index st) (VkFence_index st) (index_to_VkCommandBuffer st) (index_to_VkFence st) l.

(** the checked access to a vector *)
Definition vector_get {A} (l : list A) (i : Z) : outcome A :=
  match l !! Z.to_nat i with Some a => Ok a | None => Fail OutOfRange end.

Definition set_commandbuffer (i : Z) (c : trackedcmdbuffer) (st : replay_state) : replay_state :=
  with_commandbuffers st (<[Z.to_nat i := c]> (VkCommandBuffer_index st)).
Definition set_fence (i : Z) (f : trackedfence) (st : replay_state) : replay_state :=
  with_fences st (<[Z.to_nat i := f]> (VkFence_index st)).

(** a fence index that stands for a fence there is *)
Definition fence_live (i : Z) (st : replay_state) : outcome bool :=
  if i =? CONTAINER_INVALID_INDEX then Ok false else remap_contains (index_to_VkFence st) i.

Definition replay_clear_pending_commandbuffer (commandbuffer_index : Z) (st : replay_state) : outcome replay_state :=
  if commandbuffer_index =? CONTAINER_INVALID_INDEX then Ok st
  else
    let* c := vector_get (VkCommandBuffer_index st) commandbuffer_index in
    let* live := fence_live (replay_submit_fence_index c) st in
    let* st :=
      if live then
        let* f := vector_get (VkFence_index st) (replay_submit_fence_index c) in
        Ok (set_fence (replay_submit_fence_index c)
          (TrackedFence (filter (fun i => i <> commandbuffer_index) (replay_pending_commandbuffers f)) (f_last_submit_source f)) st)
      else Ok st in
    Ok (set_commandbuffer commandbuffer_index (cleared c) st).

(** [current] is the source of the packet that is replayed *)
Definition replay_mark_pending_commandbuffer (current : change_source) (commandbuffer_index queue fence : Z) (st : replay_state)
    : outcome replay_state :=
  if commandbuffer_index =? CONTAINER_INVALID_INDEX then Ok st
  else
    let* _ := vector_get (VkCommandBuffer_index st) commandbuffer_index in
    let* st := replay_clear_pending_commandbuffer commandbuffer_index st in
    let* c := vector_get (VkCommandBuffer_index st) commandbuffer_index in
    let* fence_index := if fence =? 0 then Ok CONTAINER_INVALID_INDEX else remap_index (index_to_VkFence st) fence in
    let st := set_commandbuffer commandbuffer_index (pending_set c true queue fence_index (Some current)) st in
    if fence_index =? CONTAINER_INVALID_INDEX then Ok st
    else
      let* f := vector_get (VkFence_index st) fence_index in
      Ok (set_fence fence_index (TrackedFence (replay_pending_commandbuffers f ++ [commandbuffer_index]) (Some current)) st).

Fixpoint clear_each (fence_index : Z) (pending : list Z) (st : replay_state) : outcome replay_state :=
  match pending with
  | [] => Ok st
  | i :: pending =>
      let* live := if i =? CONTAINER_INVALID_INDEX then Ok false else remap_contains (index_to_VkCommandBuffer st) i in
      if negb live then clear_each fence_index pending st
      else
        let* c := vector_get (VkCommandBuffer_index st) i in
        let st := if replay_submit_fence_index c =? fence_index then set_commandbuffer i (cleared c) st else st in
        clear_each fence_index pending st
  end.

Definition replay_clear_pending_fence (fence_index : Z) (st : replay_state) : outcome replay_state :=
  let* live := fence_live fence_index st in
  if negb live then Ok st
  else
    let* f := vector_get (VkFence_index st) fence_index in
    let* st := clear_each fence_index (replay_pending_commandbuffers f) st in
    let* f := vector_get (VkFence_index st) fence_index in
    Ok (set_fence fence_index (TrackedFence [] (f_last_submit_source f)) st).

(** ** Waiting *)

Section Handlers.
Context {D : Type} `{Driver D}.
Context (index_to_VkQueue index_to_VkCommandPool : replay_remap).
(** the device of every queue, and whether submissions are kept for reports *)
Context (queue_devices : list Z) (device_fault_report_requested : bool).

Definition replay_wait_for_pending_commandbuffer (commandbuffer_index : Z) (allow_simultaneous_use : bool) (st : replay_state) (d : D)
    : outcome (replay_state * D) :=
  let* c := vector_get (VkCommandBuffer_index st) commandbuffer_index in
  if negb (replay_pending c) then Ok (st, d)
  else if allow_simultaneous_use && negb (Z.land (replay_begin_flags c) VK_COMMAND_BUFFER_USAGE_SIMULTANEOUS_USE_BIT =? 0) then Ok (st, d)
  else
    let* live := fence_live (replay_submit_fence_index c) st in
    if live then
      let* fence := remap_at (index_to_VkFence st) (replay_submit_fence_index c) in
      let '(result, d) := wrap_vkWaitForFences [fence] true UINT64_MAX d in
      let* _ := require (result =? VK_OK) AbortCall in
      let* st := replay_clear_pending_fence (replay_submit_fence_index c) st in
      Ok (st, d)
    else if negb (replay_submit_queue c =? 0) then
      let '(result, d) := wrap_vkQueueWaitIdle (replay_submit_queue c) d in
      let* _ := require (result =? VK_OK) AbortCall in
      let* st := replay_clear_pending_commandbuffer commandbuffer_index st in
      Ok (st, d)
    else
      let* st := replay_clear_pending_commandbuffer commandbuffer_index st in
      Ok (st, d).

Definition destroy_internal_buffer (b : internal_buffer) (d : D) : D :=
  let d := if negb (ib_buffer b =? 0) then wrap_vkDestroyBuffer (ib_buffer b) d else d in
  if negb (ib_memory b =? 0) then wrap_vkFreeMemory (ib_memory b) d else d.

(** ready for [replay_cleanup_commandbuffer_for_rerecord] *)
Definition rerecordable (c : trackedcmdbuffer) : trackedcmdbuffer :=
  TrackedCmdBuffer (c_device c) (pool_index c) [] (replay_begin_flags c) (replay_submit_queue c) (replay_submit_fence_index c)
    (replay_pending c) [] (c_last_submit_source c).

Definition replay_cleanup_commandbuffer_for_rerecord (commandbuffer_index : Z) (st : replay_state) (d : D) : outcome (replay_state * D) :=
  let* (st, d) := replay_wait_for_pending_commandbuffer commandbuffer_index false st d in
  let* c := vector_get (VkCommandBuffer_index st) commandbuffer_index in
  let d := foldl (fun d b => destroy_internal_buffer b d) d (replay_scratch_buffers c) in
  Ok (set_commandbuffer commandbuffer_index (rerecordable c) st, d).

(** ** In front of calls *)

Fixpoint wait_each (handles : list Z) (st : replay_state) (d : D) : outcome (replay_state * D) :=
  match handles with
  | [] => Ok (st, d)
  | command_buffer :: handles =>
      let* commandbuffer_index := remap_index (index_to_VkCommandBuffer st) command_buffer in
      if commandbuffer_index =? CONTAINER_INVALID_INDEX then wait_each handles st d
      else
        let* (st, d) := replay_wait_for_pending_commandbuffer commandbuffer_index true st d in
        wait_each handles st d
  end.

Definition replay_pre_vkQueueSubmit (queue : Z) (submits : list (list Z)) (st : replay_state) (d : D) : outcome (replay_state * D) :=
  let* queue_index := remap_index index_to_VkQueue queue in
  let* _ := vector_get queue_devices queue_index in
  wait_each (concat submits) st d.

Definition with_begin_flags (c : trackedcmdbuffer) (flags : Z) : trackedcmdbuffer :=
  TrackedCmdBuffer (c_device c) (pool_index c) (replay_scratch_buffers c) flags (replay_submit_queue c) (replay_submit_fence_index c)
    (replay_pending c) (replay_secondary_commandbuffers c) (c_last_submit_source c).

(** [flags] of the begin info, if there is one *)
Definition replay_pre_vkBeginCommandBuffer (commandBuffer : Z) (flags : option Z) (st : replay_state) (d : D) : outcome (replay_state * D) :=
  let* commandbuffer_index := remap_index (index_to_VkCommandBuffer st) commandBuffer in
  if commandbuffer_index =? CONTAINER_INVALID_INDEX then Ok (st, d)
  else
    let* (st, d) := replay_cleanup_commandbuffer_for_rerecord commandbuffer_index st d in
    let* c := vector_get (VkCommandBuffer_index st) commandbuffer_index in
    Ok (set_commandbuffer commandbuffer_index (with_begin_flags c (default 0 flags)) st, d).

Definition replay_pre_vkResetCommandBuffer (commandBuffer : Z) (st : replay_state) (d : D) : outcome (replay_state * D) :=
  let* commandbuffer_index := remap_index (index_to_VkCommandBuffer st) commandBuffer in
  if commandbuffer_index =? CONTAINER_INVALID_INDEX then Ok (st, d)
  else replay_cleanup_commandbuffer_for_rerecord commandbuffer_index st d.

Fixpoint replay_pre_vkFreeCommandBuffers (handles : list Z) (st : replay_state) (d : D) : outcome (replay_state * D) :=
  match handles with
  | [] => Ok (st, d)
  | commandBuffer :: handles =>
      let* (st, d) := replay_pre_vkResetCommandBuffer commandBuffer st d in
      replay_pre_vkFreeCommandBuffers handles st d
  end.

(** the loops over all command buffers start with that of index 1 *)
Fixpoint cleanup_pool (commandpool_index : Z) (indices : list nat) (st : replay_state) (d : D) : outcome (replay_state * D) :=
  match indices with
  | [] => Ok (st, d)
  | i :: indices =>
      let* live := remap_contains (index_to_VkCommandBuffer st) (Z.of_nat i) in
      if negb live then cleanup_pool commandpool_index indices st d
      else
        let* c := vector_get (VkCommandBuffer_index st) (Z.of_nat i) in
        if negb (pool_index c =? commandpool_index) then cleanup_pool commandpool_index indices st d
        else
          let* (st, d) := replay_cleanup_commandbuffer_for_rerecord (Z.of_nat i) st d in
          cleanup_pool commandpool_index indices st d
  end.

Definition commandbuffer_indices (st : replay_state) : list nat := seq 1 (length (VkCommandBuffer_index st) - 1).

(** of [vkResetCommandPool] and [vkDestroyCommandPool] *)
Definition replay_pre_vkResetCommandPool (commandPool : Z) (st : replay_state) (d : D) : outcome (replay_state * D) :=
  let* commandpool_index := remap_index index_to_VkCommandPool commandPool in
  if commandpool_index =? CONTAINER_INVALID_INDEX then Ok (st, d)
  else cleanup_pool commandpool_index (commandbuffer_indices st) st d.

(** the secondary command buffers of a primary, each once *)
Fixpoint add_secondaries (primary : Z) (handles : list Z) (st : replay_state) : outcome replay_state :=
  match handles with
  | [] => Ok st
  | handle :: handles =>
      let secondary_index := remap_index_or_invalid (index_to_VkCommandBuffer st) handle in
      if (secondary_index =? CONTAINER_INVALID_INDEX) || (secondary_index >=? Z.of_nat (length (VkCommandBuffer_index st)))
      then add_secondaries primary handles st
      else
        let* c := vector_get (VkCommandBuffer_index st) primary in
        let st :=
          if bool_decide (secondary_index ∈ replay_secondary_commandbuffers c) then st
          else set_commandbuffer primary (TrackedCmdBuffer (c_device c) (pool_index c) (replay_scratch_buffers c) (replay_begin_flags c)
            (replay_submit_queue c) (replay_submit_fence_index c) (replay_pending c)
            (replay_secondary_commandbuffers c ++ [secondary_index]) (c_last_submit_source c)) st in
        add_secondaries primary handles st
  end.

Definition replay_pre_vkCmdExecuteCommands (commandBuffer : Z) (pCommandBuffers : option (list Z)) (st : replay_state) : outcome replay_state :=
  let primary_index := remap_index_or_invalid (index_to_VkCommandBuffer st) commandBuffer in
  match pCommandBuffers with
  | None => Ok st
  | Some handles =>
      if (primary_index =? CONTAINER_INVALID_INDEX) || (primary_index >=? Z.of_nat (length (VkCommandBuffer_index st))) then Ok st
      else add_secondaries primary_index handles st
  end.

(** ** Behind calls *)

Definition max_submission_history : nat := 8.

Definition replay_record_submission (current : change_source) (queue_index fence : Z) (indices : list Z) (st : replay_state)
    : outcome replay_state :=
  if negb device_fault_report_requested then Ok st
  else if (queue_index =? CONTAINER_INVALID_INDEX) || (queue_index >=? Z.of_nat (length queue_devices)) then Ok st
  else
    let* device_index := vector_get queue_devices queue_index in
    if (device_index =? CONTAINER_INVALID_INDEX) || (device_index >=? Z.of_nat (length (replay_recent_submissions st))) then Ok st
    else
      let* recent := vector_get (replay_recent_submissions st) device_index in
      let fence_index := if fence =? 0 then CONTAINER_INVALID_INDEX else remap_index_or_invalid (index_to_VkFence st) fence in
      let recent := recent ++ [ReplaySubmission current queue_index fence_index indices] in
      let recent := if Nat.ltb max_submission_history (length recent) then tl recent else recent in
      Ok (with_recent st (<[Z.to_nat device_index := recent]> (replay_recent_submissions st))).

Fixpoint mark_each (current : change_source) (queue fence : Z) (handles : list Z) (st : replay_state) : outcome (list Z * replay_state) :=
  match handles with
  | [] => Ok ([], st)
  | handle :: handles =>
      let* commandbuffer_index := remap_index (index_to_VkCommandBuffer st) handle in
      let* st := replay_mark_pending_commandbuffer current commandbuffer_index queue fence st in
      let* (indices, st) := mark_each current queue fence handles st in
      Ok (commandbuffer_index :: indices, st)
  end.

(** of [vkQueueSubmit] and [vkQueueSubmit2] on a replay, after the frame boundaries *)
Definition replay_callback_vkQueueSubmit (current : change_source) (result queue : Z) (submits : list (list Z)) (fence : Z) (st : replay_state)
    : outcome replay_state :=
  let* queue_index := remap_index index_to_VkQueue queue in
  let* _ := vector_get queue_devices queue_index in
  if negb (result =? VK_OK) then Ok st
  else
    let* (indices, st) := mark_each current queue fence (concat submits) st in
    if device_fault_report_requested then replay_record_submission current queue_index fence indices st else Ok st.

Fixpoint clear_where (which : trackedcmdbuffer -> bool) (indices : list nat) (st : replay_state) : outcome replay_state :=
  match indices with
  | [] => Ok st
  | i :: indices =>
      let* live := remap_contains (index_to_VkCommandBuffer st) (Z.of_nat i) in
      if negb live then clear_where which indices st
      else
        let* c := vector_get (VkCommandBuffer_index st) (Z.of_nat i) in
        let* st := if replay_pending c && which c then replay_clear_pending_commandbuffer (Z.of_nat i) st else Ok st in
        clear_where which indices st
  end.

Definition replay_callback_vkQueueWaitIdle (result queue : Z) (st : replay_state) : outcome replay_state :=
  if negb (result =? VK_OK) then Ok st
  else clear_where (fun c => replay_submit_queue c =? queue) (commandbuffer_indices st) st.

Definition replay_callback_vkDeviceWaitIdle (result device : Z) (st : replay_state) : outcome replay_state :=
  if negb (result =? VK_OK) then Ok st
  else clear_where (fun c => c_device c =? device) (commandbuffer_indices st) st.

Definition replay_callback_vkGetFenceStatus (result fence : Z) (st : replay_state) : outcome replay_state :=
  if negb (result =? VK_OK) then Ok st
  else
    let* fence_index := remap_index (index_to_VkFence st) fence in
    replay_clear_pending_fence fence_index st.

Fixpoint clear_fences (fences : list Z) (st : replay_state) : outcome replay_state :=
  match fences with
  | [] => Ok st
  | fence :: fences =>
      let* fence_index := remap_index (index_to_VkFence st) fence in
      let* st := replay_clear_pending_fence fence_index st in
      clear_fences fences st
  end.

Definition replay_callback_vkResetFences (result : Z) (fences : list Z) (st : replay_state) : outcome replay_state :=
  if negb (result =? VK_OK) then Ok st else clear_fences fences st.

(** without [waitAll], the fences are asked one by one *)
Fixpoint ask_fences (fences : list Z) (st : replay_state) (d : D) : outcome (replay_state * D) :=
  match fences with
  | [] => Ok (st, d)
  | fence :: fences =>
      let '(status, d) := wrap_vkGetFenceStatus fence d in
      if status =? VK_OK then
        let* fence_index := remap_index (index_to_VkFence st) fence in
        let* st := replay_clear_pending_fence fence_index st in
        ask_fences fences st d
      else ask_fences fences st d
  end.

Definition replay_callback_vkWaitForFences (result : Z) (fences : list Z) (waitAll : bool) (st : replay_state) (d : D)
    : outcome (replay_state * D) :=
  if waitAll then
    if result =? VK_OK then let* st := clear_fences fences st in Ok (st, d) else Ok (st, d)
  else ask_fences fences st d.
End Handlers.

(** ** The calls of a replay *)

(** The calls that the handlers go with, and those that create and destroy command
    buffers and fences, whose indices the packets tell. *)
Inductive replay_call :=
  | QueueSubmit (queue : Z) (submits : list (list Z)) (fence : Z)
  | BeginCommandBuffer (commandBuffer : Z) (flags : option Z)
  | ResetCommandBuffer (commandBuffer : Z)
  | ResetCommandPool (commandPool : Z)
  | CmdExecuteCommands (commandBuffer : Z) (pCommandBuffers : option (list Z))
  | QueueWaitIdle (queue : Z)
  | DeviceWaitIdle (device : Z)
  | GetFenceStatus (fence : Z)
  | ResetFences (fences : list Z)
  | WaitForFences (fences : list Z) (waitAll : bool) (timeout : Z)
  | AllocateCommandBuffer (device index handle : Z)
  | FreeCommandBuffers (indices : list Z)
  | CreateFence (index handle : Z)
  | DestroyFence (index : Z).

Definition with_cb_remap (st : replay_state) (r : replay_remap) : replay_state :=
  ReplayState (VkCommandBuffer_index st) (VkFence_index st) r (index_to_VkFence st) (replay_recent_submissions st).
Definition with_fence_remap (st : replay_state) (r : replay_remap) : replay_state :=
  ReplayState (VkCommandBuffer_index st) (VkFence_index st) (index_to_VkCommandBuffer st) r (replay_recent_submissions st).
Definition with_device (c : trackedcmdbuffer) (device : Z) : trackedcmdbuffer :=
  TrackedCmdBuffer device (pool_index c) (replay_scratch_buffers c) (replay_begin_flags c) (replay_submit_queue c) (replay_submit_fence_index c)
    (replay_pending c) (replay_secondary_commandbuffers c) (c_last_submit_source c).

Fixpoint handles_of (r : replay_remap) (indices : list Z) : outcome (list Z) :=
  match indices with
  | [] => Ok []
  | i :: indices => let* h := remap_at r i in let* hs := handles_of r indices in Ok (h :: hs)
  end.

Fixpoint unset_each (r : replay_remap) (indices : list Z) : outcome replay_remap :=
  match indices with
  | [] => Ok r
  | i :: indices => let* r := remap_unset i r in unset_each r indices
  end.

Section Calls.
Context {D : Type} `{Driver D}.
Context (index_to_VkQueue index_to_VkCommandPool : replay_remap).
Context (queue_devices : list Z) (device_fault_report_requested : bool).

(** what the replay does in front of the driver's call *)
Definition before_call (call : replay_call) (st : replay_state) (d : D) : outcome (replay_state * D) :=
  match call with
  | QueueSubmit queue submits _ => replay_pre_vkQueueSubmit index_to_VkQueue queue_devices queue submits st d
  | BeginCommandBuffer commandBuffer flags => replay_pre_vkBeginCommandBuffer commandBuffer flags st d
  | ResetCommandBuffer commandBuffer => replay_pre_vkResetCommandBuffer commandBuffer st d
  | ResetCommandPool commandPool => replay_pre_vkResetCommandPool index_to_VkCommandPool commandPool st d
  | CmdExecuteCommands commandBuffer pCommandBuffers =>
      let* st := replay_pre_vkCmdExecuteCommands commandBuffer pCommandBuffers st in Ok (st, d)
  | FreeCommandBuffers indices =>
      let* handles := handles_of (index_to_VkCommandBuffer st) indices in
      replay_pre_vkFreeCommandBuffers handles st d
  | _ => Ok (st, d)
  end.

(** the driver's call and what follows it *)
Definition make_call (current : change_source) (call : replay_call) (st : replay_state) (d : D) : outcome (replay_state * D) :=
  match call with
  | QueueSubmit queue submits fence =>
      let '(result, d) := wrap_vkQueueSubmit queue submits fence d in
      let* st := replay_callback_vkQueueSubmit index_to_VkQueue queue_devices device_fault_report_requested current result queue submits fence st in
      Ok (st, d)
  | QueueWaitIdle queue =>
      let '(result, d) := wrap_vkQueueWaitIdle queue d in
      let* st := replay_callback_vkQueueWaitIdle result queue st in Ok (st, d)
  | DeviceWaitIdle device =>
      let '(result, d) := wrap_vkDeviceWaitIdle device d in
      let* st := replay_callback_vkDeviceWaitIdle result device st in Ok (st, d)
  | GetFenceStatus fence =>
      let '(result, d) := wrap_vkGetFenceStatus fence d in
      let* st := replay_callback_vkGetFenceStatus result fence st in Ok (st, d)
  | ResetFences fences =>
      let '(result, d) := wrap_vkResetFences fences d in
      let* st := replay_callback_vkResetFences result fences st in Ok (st, d)
  | WaitForFences fences waitAll timeout =>
      let '(result, d) := wrap_vkWaitForFences fences waitAll timeout d in
      replay_callback_vkWaitForFences result fences waitAll st d
  | AllocateCommandBuffer device index handle =>
      let* c := vector_get (VkCommandBuffer_index st) index in
      let* r := remap_set index handle (index_to_VkCommandBuffer st) in
      Ok (with_cb_remap (set_commandbuffer index (with_device c device) st) r, d)
  | FreeCommandBuffers indices =>
      let* r := unset_each (index_to_VkCommandBuffer st) indices in Ok (with_cb_remap st r, d)
  | CreateFence index handle =>
      let* r := remap_set index handle (index_to_VkFence st) in Ok (with_fence_remap st r, d)
  | DestroyFence index =>
      let* r := remap_unset index (index_to_VkFence st) in Ok (with_fence_remap st r, d)
  | _ => Ok (st, d)
  end.

Definition run_call (current : change_source) (call : replay_call) (st : replay_state) (d : D) : outcome (replay_state * D) :=
  let* (st, d) := before_call call st d in
  make_call current call st d.
End Calls.
