(* ===== verification/SubmissionsInv.v ===== *)
(** * The invariant of the submitted command buffers

    Whatever the replay does, a command buffer that the device may still be using is
    noted as pending with its queue and with a fence that is not signalled before the
    device is done with it, and the lists of the fences are those of the buffers. *)

From Stdlib Require Import ZArith Lia Bool.
From stdpp Require Import base numbers list gmap relations.
From S2P Require Import Prelude FileWriter FileReader Packets Containers Submissions.

#[local] Open Scope Z_scope.

(** ** What the device finishes *)

Lemma finish_suffix l l' : finish l l' -> forall a s b, l' = a ++ s :: b ->
  exists a0 b0, l = a0 ++ s :: b0 /\
    forall t, t ∈ s :: b0 -> s_queue t = s_queue s -> s_fence t <> 0 -> t ∈ s :: b.
Proof.
  intros [before x after Hx] a s b E. apply app_eq_inv in E as [(k & -> & E)|(k & -> & E)].
  - destruct k as [|y k]; cbn [app] in E.
    + subst after. exists (a ++ [x]), b. split; [by rewrite app_nil_r, <- app_assoc|]. done.
    + injection E as <- ->. exists a, (k ++ x :: after). split; [by rewrite <- app_assoc|].
      intros t Ht Hq Hf. apply elem_of_cons in Ht as [->|Ht]; [by left|]. apply elem_of_app in Ht as [Ht|Ht]; [right; apply elem_of_app; by left|].
      apply elem_of_cons in Ht as [->|Ht]; [|right; apply elem_of_app; by right].
      specialize (Hx Hf). rewrite Forall_forall in Hx. destruct (Hx s); [|done]. apply elem_of_app. right. by left.
  - exists (before ++ x :: k), b. rewrite E. split; [by rewrite <- app_assoc|]. done.
Qed.

Lemma advance_suffix l l' : advance l l' -> forall a s b, l' = a ++ s :: b ->
  exists a0 b0, l = a0 ++ s :: b0 /\
    forall t, t ∈ s :: b0 -> s_queue t = s_queue s -> s_fence t <> 0 -> t ∈ s :: b.
Proof.
  induction 1 as [l|l l1 l' Hf _ IH]; intros a s b E; [by exists a, b|].
  destruct (IH a s b E) as (a1 & b1 & E1 & H1). destruct (finish_suffix _ _ Hf a1 s b1 E1) as (a0 & b0 & E0 & H0).
  exists a0, b0. split; [done|]. intros t Ht Hq Hn. apply H1; auto.
Qed.

Lemma advance_elem l l' s : advance l l' -> s ∈ l' -> s ∈ l.
Proof.
  intros Ha Hs. apply list_elem_of_split in Hs as (a & b & E).
  destruct (advance_suffix _ _ Ha a s b E) as (a0 & b0 & -> & _). apply elem_of_app. right. by left.
Qed.

Lemma advance_trans l1 l2 l3 : advance l1 l2 -> advance l2 l3 -> advance l1 l3.
Proof. intros; by etrans. Qed.

(** ** The invariant *)


(** the handle of a live object *)
Definition names (r : replay_remap) (i h : Z) : Prop := 0 <= i /\ remapping r !! Z.to_nat i = Some h /\ h <> 0.

(** and the object that a handle stands for *)
Definition index_of (r : replay_remap) (h i : Z) : Prop := names r i h /\ reverse r !! h = Some i.

Lemma index_of_remap r h i : index_of r h i -> remap_index r h = Ok i.
Proof. intros [(_ & _ & Hh) E]. unfold remap_index. by rewrite (proj2 (Z.eqb_neq _ _)), E by done. Qed.

Lemma index_of_unique r h i j : index_of r h i -> index_of r h j -> i = j.
Proof. intros [_ H1] [_ H2]. congruence. Qed.

Lemma names_unique r i h h' : names r i h -> names r i h' -> h = h'.
Proof. intros (_ & H1 & _) (_ & H2 & _). congruence. Qed.

Lemma names_range r i h : remap_ok r -> names r i h -> 0 <= i < CONTAINER_NULL_VALUE /\ i <> CONTAINER_INVALID_INDEX.
Proof.
  intros Hr (H0 & Hl & _). apply lookup_lt_Some in Hl. unfold remap_ok, CONTAINER_NULL_VALUE, CONTAINER_INVALID_INDEX in *. lia.
Qed.

Lemma names_at r i h : remap_ok r -> names r i h -> remap_at r i = Ok h.
Proof.
  intros Hr Hn. pose proof (names_range _ _ _ Hr Hn) as [Hi _]. destruct Hn as (_ & Hl & Hh). unfold remap_at, remapping_at.
  rewrite (proj2 (Z.eqb_neq i CONTAINER_NULL_VALUE)) by lia. rewrite Hl. cbn [obind]. by rewrite (proj2 (Z.eqb_neq h 0)) by done.
Qed.

(** what [contains] says of an index that the container has *)
Lemma contains_spec r i : remap_ok r -> 0 <= i < Z.of_nat (length (remapping r)) ->
  exists b, remap_contains r i = Ok b /\ (b = true <-> exists h, names r i h).
Proof.
  intros Hr Hi. destruct (lookup_lt_is_Some_2 (remapping r) (Z.to_nat i)) as [h Hl]; [lia|].
  exists (negb (h =? 0)). unfold remap_contains, remapping_at. rewrite (proj2 (Z.eqb_neq i CONTAINER_NULL_VALUE)) by (unfold remap_ok in Hr; lia).
  rewrite Hl. cbn [obind]. split; [done|]. rewrite negb_true_iff, Z.eqb_neq. split.
  - intros Hh. exists h. split; [lia|done].
  - intros (h' & _ & Hl' & Hh). congruence.
Qed.

(** the command buffer and the fence of an index *)
Definition cb (st : replay_state) (i : Z) (c : trackedcmdbuffer) : Prop := 0 <= i /\ VkCommandBuffer_index st !! Z.to_nat i = Some c.
Definition fence (st : replay_state) (k : Z) (f : trackedfence) : Prop := 0 <= k /\ VkFence_index st !! Z.to_nat k = Some f.

Definition cb_handle (st : replay_state) : Z -> Z -> Prop := index_of (index_to_VkCommandBuffer st).
Definition fence_handle (st : replay_state) : Z -> Z -> Prop := index_of (index_to_VkFence st).
Definition fence_named (st : replay_state) : Z -> Z -> Prop := names (index_to_VkFence st).

(** the containers have the sizes that the trace gives them *)
Record sized (st : replay_state) : Prop := {
  sz_cb : remap_ok (index_to_VkCommandBuffer st);
  sz_fence : remap_ok (index_to_VkFence st);
  sz_cbs : length (VkCommandBuffer_index st) = length (remapping (index_to_VkCommandBuffer st));
  sz_fences : length (VkFence_index st) = length (remapping (index_to_VkFence st))
}.

(** the buffers' notes and the fences' lists say the same *)
Record lists_agree (st : replay_state) : Prop := {
  la_pending : forall i c, cb st i c -> replay_pending c = true -> exists h, names (index_to_VkCommandBuffer st) i h;
  la_fence : forall i c, cb st i c -> replay_submit_fence_index c <> CONTAINER_INVALID_INDEX ->
    replay_pending c = true /\ exists f, fence st (replay_submit_fence_index c) f /\ i ∈ replay_pending_commandbuffers f;
  la_list : forall k h f i, fence_named st k h -> fence st k f -> i ∈ replay_pending_commandbuffers f ->
    exists c, cb st i c /\ replay_pending c = true /\ replay_submit_fence_index c = k
}.

Lemma cb_fun st i c c' : cb st i c -> cb st i c' -> c = c'.
Proof. intros [_ H1] [_ H2]. congruence. Qed.

Lemma fence_fun st k f f' : fence st k f -> fence st k f' -> f = f'.
Proof. intros [_ H1] [_ H2]. congruence. Qed.

Lemma cb_get st i c : cb st i c -> vector_get (VkCommandBuffer_index st) i = Ok c.
Proof. intros [_ E]. unfold vector_get. by rewrite E. Qed.

Lemma fence_get st k f : fence st k f -> vector_get (VkFence_index st) k = Ok f.
Proof. intros [_ E]. unfold vector_get. by rewrite E. Qed.

Lemma cb_set st i c0 c j c' : cb st i c0 -> cb (set_commandbuffer i c st) j c' <-> (j = i /\ c' = c) \/ (j <> i /\ cb st j c').
Proof.
  intros [Hi E]. pose proof (lookup_lt_Some _ _ _ E). unfold cb, set_commandbuffer. cbn [VkCommandBuffer_index with_commandbuffers]. split.
  - intros [Hj El]. destruct (decide (j = i)) as [->|Hn].
    + rewrite list_lookup_insert_eq in El by done. left. by injection El as <-.
    + rewrite list_lookup_insert_ne in El by lia. by right.
  - intros [[-> ->]|(Hn & Hj & El)]; (split; [done|]).
    + by rewrite list_lookup_insert_eq.
    + by rewrite list_lookup_insert_ne by lia.
Qed.

Lemma fence_set st k f0 f j f' : fence st k f0 -> fence (set_fence k f st) j f' <-> (j = k /\ f' = f) \/ (j <> k /\ fence st j f').
Proof.
  intros [Hi E]. pose proof (lookup_lt_Some _ _ _ E). unfold fence, set_fence. cbn [VkFence_index with_fences]. split.
  - intros [Hj El]. destruct (decide (j = k)) as [->|Hn].
    + rewrite list_lookup_insert_eq in El by done. left. by injection El as <-.
    + rewrite list_lookup_insert_ne in El by lia. by right.
  - intros [[-> ->]|(Hn & Hj & El)]; (split; [done|]).
    + by rewrite list_lookup_insert_eq.
    + by rewrite list_lookup_insert_ne by lia.
Qed.

Lemma cb_of_index st i : sized st -> 0 <= i < Z.of_nat (length (remapping (index_to_VkCommandBuffer st))) -> exists c, cb st i c.
Proof. intros Hs Hi. destruct (lookup_lt_is_Some_2 (VkCommandBuffer_index st) (Z.to_nat i)) as [c E]; [rewrite (sz_cbs _ Hs); lia|]. exists c; split; [lia|done]. Qed.

Lemma cb_of_name st i h : sized st -> names (index_to_VkCommandBuffer st) i h -> exists c, cb st i c.
Proof. intros Hs (Hi & Hl & _). apply lookup_lt_Some in Hl. apply cb_of_index; [done|lia]. Qed.

Lemma fence_of_name st k h : sized st -> fence_named st k h -> exists f, fence st k f.
Proof.
  intros Hs (Hi & Hl & _). apply lookup_lt_Some in Hl.
  destruct (lookup_lt_is_Some_2 (VkFence_index st) (Z.to_nat k)) as [f E]; [rewrite (sz_fences _ Hs); lia|]. exists f; split; [lia|done].
Qed.

Lemma cb_range st i c : sized st -> cb st i c -> 0 <= i < Z.of_nat (length (remapping (index_to_VkCommandBuffer st))) /\ i <> CONTAINER_INVALID_INDEX.
Proof.
  intros Hs [Hi E]. apply lookup_lt_Some in E. rewrite (sz_cbs _ Hs) in E. pose proof (sz_cb _ Hs) as Hr.
  unfold remap_ok, CONTAINER_INVALID_INDEX, CONTAINER_NULL_VALUE in *. lia.
Qed.

Lemma fence_range st k f : sized st -> fence st k f -> 0 <= k < Z.of_nat (length (remapping (index_to_VkFence st))) /\ k <> CONTAINER_INVALID_INDEX.
Proof.
  intros Hs [Hi E]. apply lookup_lt_Some in E. rewrite (sz_fences _ Hs) in E. pose proof (sz_fence _ Hs) as Hr.
  unfold remap_ok, CONTAINER_INVALID_INDEX, CONTAINER_NULL_VALUE in *. lia.
Qed.

(** a note's fence, live or not *)
Lemma fence_live_spec st i c : sized st -> lists_agree st -> cb st i c ->
  (exists h f, fence_live (replay_submit_fence_index c) st = Ok true /\ fence_named st (replay_submit_fence_index c) h /\
     fence st (replay_submit_fence_index c) f /\ i ∈ replay_pending_commandbuffers f) \/
  (fence_live (replay_submit_fence_index c) st = Ok false /\ forall h, ~ fence_named st (replay_submit_fence_index c) h).
Proof.
  intros Hs Hl Hc. unfold fence_live. destruct (replay_submit_fence_index c =? CONTAINER_INVALID_INDEX) eqn:E.
  - apply Z.eqb_eq in E. right. split; [done|]. intros h Hn. apply names_range in Hn as [_ Hn]; [done|apply Hs].
  - apply Z.eqb_neq in E. destruct (la_fence _ Hl i c Hc E) as (_ & f & Hf & Hin).
    destruct (contains_spec (index_to_VkFence st) (replay_submit_fence_index c)) as (b & Eb & Hb); [apply Hs|by eapply fence_range|].
    rewrite Eb. destruct b; [left|right].
    + destruct Hb as [Hb _]. destruct (Hb eq_refl) as [h Hn]. by exists h, f.
    + split; [done|]. intros h Hn. destruct Hb as [_ Hb]. discriminate Hb. by exists h.
Qed.

(** ** Dropping a note *)

Definition unnoted (c : trackedcmdbuffer) : Prop := replay_pending c = false /\ replay_submit_fence_index c = CONTAINER_INVALID_INDEX.

(** what the notes of a submission do not depend on *)
Definition same_note (c c' : trackedcmdbuffer) : Prop :=
  replay_submit_queue c' = replay_submit_queue c /\
  replay_submit_fence_index c' = replay_submit_fence_index c /\ replay_pending c' = replay_pending c.

Lemma same_note_refl c : same_note c c.
Proof. by repeat split. Qed.

Definition same_buffer (c c' : trackedcmdbuffer) : Prop :=
  c_device c' = c_device c /\ pool_index c' = pool_index c /\ replay_begin_flags c' = replay_begin_flags c.

Definition same_remaps (st st' : replay_state) : Prop :=
  index_to_VkCommandBuffer st' = index_to_VkCommandBuffer st /\ index_to_VkFence st' = index_to_VkFence st /\
  length (VkCommandBuffer_index st') = length (VkCommandBuffer_index st) /\ length (VkFence_index st') = length (VkFence_index st).

Definition unused (st : replay_state) (i : Z) (l : list submission) : Prop :=
  forall s h, s ∈ l -> h ∈ s_buffers s -> ~ cb_handle st h i.

Lemma unused_advance st i l l' : advance l l' -> unused st i l -> unused st i l'.
Proof. intros Ha Hu s h Hs. apply Hu. by eapply advance_elem. Qed.

Lemma same_remaps_sized st st' : same_remaps st st' -> sized st -> sized st'.
Proof. intros (E1 & E2 & E3 & E4) [H1 H2 H3 H4]. split; rewrite ?E1, ?E2, ?E3, ?E4; done. Qed.

Lemma same_remaps_trans st st1 st' : same_remaps st st1 -> same_remaps st1 st' -> same_remaps st st'.
Proof. unfold same_remaps. intuition congruence. Qed.

Lemma same_remaps_unused st st' i l : same_remaps st st' -> unused st i l <-> unused st' i l.
Proof. intros (E & _). unfold unused, cb_handle. by rewrite E. Qed.

Lemma same_remaps_set i c st : same_remaps st (set_commandbuffer i c st).
Proof. unfold same_remaps, set_commandbuffer. cbn. by rewrite length_insert. Qed.

Lemma same_remaps_fence k f st : same_remaps st (set_fence k f st).
Proof. unfold same_remaps, set_fence. cbn. by rewrite length_insert. Qed.

(** as before, but that notes of buffers are dropped that the device does not use,
    where [l] is what it uses *)
Record drops (l : list submission) (st st' : replay_state) : Prop := {
  dr_remaps : same_remaps st st';
  dr_cb : forall i c, cb st i c -> exists c', cb st' i c' /\ same_buffer c c' /\ (same_note c c' \/ unused st i l /\ unnoted c');
  dr_sized : sized st';
  dr_lists : lists_agree st'
}.

Lemma drops_refl l st : sized st -> lists_agree st -> drops l st st.
Proof.
  intros Hs Hl. split; [by repeat split| |done..]. intros i c Hc. exists c. split; [done|]. split; [by repeat split|]. by left; repeat split.
Qed.

Lemma drops_trans l l' st st1 st' : drops l st st1 -> advance l l' -> drops l' st1 st' -> drops l' st st'.
Proof.
  intros [R1 C1 _ _] Ha [R2 C2 S2 L2]. split; [by eapply same_remaps_trans| |done..].
  intros i c Hc. destruct (C1 i c Hc) as (c1 & Hc1 & Hb1 & Hn1). destruct (C2 i c1 Hc1) as (c2 & Hc2 & Hb2 & Hn2). exists c2. split; [done|].
  split; [unfold same_buffer in *; intuition congruence|].
  assert (Hback : unused st1 i l' -> unused st i l') by (by apply same_remaps_unused).
  unfold same_note, unnoted in *. destruct Hn1 as [Hn1|[Hu Hn1]], Hn2 as [Hn2|[Hu2 Hn2]].
  - left. intuition congruence.
  - right. auto.
  - right. split; [by eapply unused_advance|]. intuition congruence.
  - right. auto.
Qed.

(** the notes of the buffers of [X] are dropped, from the lists too *)
Lemma lists_agree_drop (X : Z -> Prop) st st' : same_remaps st st' -> lists_agree st ->
  (forall i c', cb st' i c' -> X i /\ unnoted c' \/ ~ X i /\ exists c, cb st i c /\ same_note c c') ->
  (forall i c, cb st i c -> ~ X i -> exists c', cb st' i c' /\ same_note c c') ->
  (forall k f i, fence st k f -> i ∈ replay_pending_commandbuffers f -> ~ X i ->
    exists f', fence st' k f' /\ i ∈ replay_pending_commandbuffers f') ->
  (forall k h f' i, fence_named st k h -> fence st' k f' -> i ∈ replay_pending_commandbuffers f' ->
    ~ X i /\ exists f, fence st k f /\ i ∈ replay_pending_commandbuffers f) -> lists_agree st'.
Proof.
  intros (E1 & E2 & _) [L1 L2 L3] Hcb Hcb' Hf Hf'. split.
  - intros i c' Hc' Hp. rewrite E1. destruct (Hcb i c' Hc') as [(_ & Hn & _)|(_ & c & Hc & _ & _ & Hn)]; [congruence|]. apply (L1 i c); [done|congruence].
  - intros i c' Hc' Hk. destruct (Hcb i c' Hc') as [(_ & _ & Hn)|(HX & c & Hc & _ & Hn1 & Hn2)]; [congruence|]. rewrite Hn1, Hn2 in *.
    destruct (L2 i c Hc Hk) as (Hp & f & Hfk & Hin). split; [done|]. by eapply Hf.
  - intros k h f' i Hn Hfk Hin. unfold fence_named in Hn. rewrite E2 in Hn. destruct (Hf' k h f' i Hn Hfk Hin) as (HX & f & Hfk' & Hin').
    destruct (L3 k h f i Hn Hfk' Hin') as (c & Hc & Hp & Hk). destruct (Hcb' i c Hc HX) as (c' & Hc' & _ & N1 & N2). exists c'. by rewrite N1, N2.
Qed.

Lemma unnoted_cleared c : unnoted (cleared c).
Proof. done. Qed.

Lemma clear_commandbuffer_spec st i c : sized st -> lists_agree st -> cb st i c ->
  exists st', replay_clear_pending_commandbuffer i st = Ok st' /\ same_remaps st st' /\ lists_agree st' /\
    forall j c', cb st' j c' <-> (j = i /\ c' = cleared c) \/ (j <> i /\ cb st j c').
Proof.
  intros Hs Hl Hc. unfold replay_clear_pending_commandbuffer. destruct (cb_range _ _ _ Hs Hc) as [_ Hi].
  rewrite (proj2 (Z.eqb_neq _ _) Hi), (cb_get _ _ _ Hc). cbn [obind].
  destruct (fence_live_spec st i c Hs Hl Hc) as [(h & f & -> & Hn & Hf & Hin)|[-> Hdead]]; cbn [obind].
  - rewrite (fence_get _ _ _ Hf). cbn [obind]. set (k := replay_submit_fence_index c) in *.
    set (f1 := TrackedFence _ _). set (st1 := set_fence k f1 st).
    assert (Hc1 : forall j c', cb (set_commandbuffer i (cleared c) st1) j c' <-> (j = i /\ c' = cleared c) \/ (j <> i /\ cb st j c'))
      by (intros j c'; by apply (cb_set st1 i c (cleared c))).
    exists (set_commandbuffer i (cleared c) st1). split; [done|]. split; [by eapply same_remaps_trans; [apply same_remaps_fence|apply same_remaps_set]|].
    split; [|done]. apply (lists_agree_drop (fun j => j = i) st); try done.
    + by eapply same_remaps_trans; [apply same_remaps_fence|apply same_remaps_set].
    + intros j c' Hj. apply Hc1 in Hj as [[-> ->]|[Hj Hcj]]; [left; done|right]. split; [done|]. exists c'. split; [done|apply same_note_refl].
    + intros j c' Hj Hn'. exists c'. split; [apply Hc1; by right|apply same_note_refl].
    + intros k' f' j Hk Hin' Hj. change (exists f'0, fence st1 k' f'0 /\ j ∈ replay_pending_commandbuffers f'0).
      destruct (decide (k' = k)) as [->|Hne].
      * exists f1. split; [apply (fence_set st k f); [done|by left]|]. assert (f' = f) as -> by (by eapply fence_fun).
        apply list_elem_of_filter. done.
      * exists f'. split; [apply (fence_set st k f); [done|by right]|done].
    + intros k' h' f' j Hn' Hk Hin'. change (fence st1 k' f') in Hk. apply (fence_set st k f) in Hk as [[-> ->]|[Hne Hk]]; [|..|done].
      * apply list_elem_of_filter in Hin' as [Hj Hin']. split; [done|]. by exists f.
      * split; [|by exists f']. intros ->. destruct (la_list _ Hl k' h' f' i Hn' Hk Hin') as (c' & Hc' & _ & Hk').
        assert (c' = c) as -> by (by eapply cb_fun). done.
  - exists (set_commandbuffer i (cleared c) st). split; [done|]. split; [apply same_remaps_set|].
    assert (Hc1 : forall j c', cb (set_commandbuffer i (cleared c) st) j c' <-> (j = i /\ c' = cleared c) \/ (j <> i /\ cb st j c'))
      by (intros j c'; by apply (cb_set st i c (cleared c))).
    split; [|done]. apply (lists_agree_drop (fun j => j = i) st); try done.
    + apply same_remaps_set.
    + intros j c' Hj. apply Hc1 in Hj as [[-> ->]|[Hj Hcj]]; [left; done|right]. split; [done|]. exists c'. split; [done|apply same_note_refl].
    + intros j c' Hj Hn'. exists c'. split; [apply Hc1; by right|apply same_note_refl].
    + intros k f j Hk Hin Hj. by exists f.
    + intros k h f j Hn Hk Hin. split; [|by exists f]. intros ->. destruct (la_list _ Hl k h f i Hn Hk Hin) as (c' & Hc' & _ & Hk').
      assert (c' = c) as -> by (by eapply cb_fun). subst k. by apply (Hdead h).
Qed.

Definition dropped_by (k : Z) (c : trackedcmdbuffer) : trackedcmdbuffer :=
  if replay_submit_fence_index c =? k then cleared c else c.

Lemma dropped_by_twice k c : k <> CONTAINER_INVALID_INDEX -> dropped_by k (dropped_by k c) = dropped_by k c.
Proof.
  intros Hk. unfold dropped_by. destruct (replay_submit_fence_index c =? k) eqn:E; [|by rewrite E].
  cbn [replay_submit_fence_index cleared pending_set]. by rewrite (proj2 (Z.eqb_neq CONTAINER_INVALID_INDEX k)) by done.
Qed.

Lemma dropped_by_cons (k i j : Z) (pending : list Z) c : k <> CONTAINER_INVALID_INDEX ->
  (if decide (j ∈ pending) then dropped_by k (if decide (j = i) then dropped_by k c else c) else if decide (j = i) then dropped_by k c else c)
  = if decide (j ∈ i :: pending) then dropped_by k c else c.
Proof.
  intros Hk. destruct (decide (j = i)) as [->|Hj].
  - rewrite (decide_True (P := i ∈ i :: pending)) by by left. rewrite dropped_by_twice by done. by case_decide.
  - destruct (decide (j ∈ pending)); [rewrite (decide_True (P := j ∈ i :: pending)) by by right|
      rewrite (decide_False (P := j ∈ i :: pending)) by by intros [?|?]%elem_of_cons]; done.
Qed.

Lemma named_contains st i h : sized st -> names (index_to_VkCommandBuffer st) i h ->
  (if i =? CONTAINER_INVALID_INDEX then Ok false else remap_contains (index_to_VkCommandBuffer st) i) = Ok true.
Proof.
  intros Hs Hn. destruct (names_range _ _ _ (sz_cb _ Hs) Hn) as [Hi Hne]. rewrite (proj2 (Z.eqb_neq _ _) Hne).
  destruct (contains_spec (index_to_VkCommandBuffer st) i) as (b & -> & Hb); [apply Hs| |].
  - destruct Hn as (_ & Hl & _). apply lookup_lt_Some in Hl. lia.
  - f_equal. apply Hb. by exists h.
Qed.

Lemma clear_each_spec k pending : k <> CONTAINER_INVALID_INDEX -> forall st, sized st ->
  (forall i, i ∈ pending -> exists h, names (index_to_VkCommandBuffer st) i h) ->
  exists st', clear_each k pending st = Ok st' /\ same_remaps st st' /\ VkFence_index st' = VkFence_index st /\
    forall j c', cb st' j c' <-> exists c, cb st j c /\ c' = (if decide (j ∈ pending) then dropped_by k c else c).
Proof.
  intros Hk. induction pending as [|i pending IH]; intros st Hs Hn.
  - exists st. split; [done|]. split; [by repeat split|]. split; [done|]. intros j c'. split; [intros Hc; by exists c'|]. by intros (c & Hc & ->).
  - destruct (Hn i) as [h Hi]; [by left|]. destruct (cb_of_name _ _ _ Hs Hi) as [c Hc]. cbn [clear_each].
    rewrite (named_contains _ _ _ Hs Hi). cbn [obind negb]. rewrite (cb_get _ _ _ Hc). cbn [obind].
    set (st1 := if replay_submit_fence_index c =? k then set_commandbuffer i (cleared c) st else st).
    assert (R1 : same_remaps st st1) by (unfold st1; destruct (_ =? _); [apply same_remaps_set|by repeat split]).
    assert (F1 : VkFence_index st1 = VkFence_index st) by (unfold st1; by destruct (_ =? _)).
    assert (C1 : forall j c', cb st1 j c' <-> exists c, cb st j c /\ c' = if decide (j = i) then dropped_by k c else c).
    { intros j c'. unfold st1, dropped_by. destruct (replay_submit_fence_index c =? k) eqn:E.
      - rewrite (cb_set _ _ _ _ _ _ Hc). split.
        + intros [[-> ->]|[Hj Hcj]]; [exists c; by rewrite decide_True, E|exists c'; by rewrite decide_False].
        + intros (c1 & Hc1 & ->). case_decide; [left|by right]. subst j. assert (c1 = c) as -> by (by eapply cb_fun). by rewrite E.
      - split; [intros Hcj; exists c'; split; [done|]|intros (c1 & Hc1 & ->)]; case_decide as Hj; try done; subst j;
          [assert (c' = c) as -> by (by eapply cb_fun)|assert (c1 = c) as -> by (by eapply cb_fun)]; by rewrite E. }
    destruct (IH st1) as (st' & -> & R2 & F2 & C2).
    + by eapply same_remaps_sized.
    + intros j Hj. destruct R1 as [-> _]. apply Hn. by right.
    + exists st'. split; [done|]. split; [by eapply same_remaps_trans|]. split; [congruence|]. intros j c'. rewrite C2. split.
      * intros (c1 & Hc1 & ->). apply C1 in Hc1 as (c2 & Hc2 & ->). exists c2. split; [done|]. by apply dropped_by_cons.
      * intros (c1 & Hc1 & ->). exists (if decide (j = i) then dropped_by k c1 else c1). split; [apply C1; by exists c1|]. symmetry. by apply dropped_by_cons.
Qed.

Lemma clear_fence_spec st k h : sized st -> lists_agree st -> fence_named st k h ->
  exists st', replay_clear_pending_fence k st = Ok st' /\ same_remaps st st' /\ lists_agree st' /\
    forall j c', cb st' j c' <-> exists c, cb st j c /\ c' = dropped_by k c.
Proof.
  intros Hs Hl Hn. destruct (fence_of_name _ _ _ Hs Hn) as [f Hf]. destruct (fence_range _ _ _ Hs Hf) as [Hk Hne].
  unfold replay_clear_pending_fence, fence_live. rewrite (proj2 (Z.eqb_neq _ _) Hne).
  destruct (contains_spec (index_to_VkFence st) k) as (b & -> & Hb); [apply Hs|done|].
  assert (b = true) as -> by (apply Hb; by exists h). cbn [obind negb]. rewrite (fence_get _ _ _ Hf). cbn [obind].
  destruct (clear_each_spec k (replay_pending_commandbuffers f) Hne st Hs) as (st1 & -> & R1 & F1 & C1).
  { intros i Hi. destruct (la_list _ Hl k h f i Hn Hf Hi) as (c & Hc & Hp & _). by eapply la_pending. }
  cbn [obind]. assert (Hf1 : fence st1 k f) by (unfold fence; by rewrite F1). rewrite (fence_get _ _ _ Hf1). cbn [obind].
  set (f1 := TrackedFence [] _). exists (set_fence k f1 st1). split; [done|].
  assert (R : same_remaps st (set_fence k f1 st1)) by (eapply same_remaps_trans; [done|apply same_remaps_fence]).
  assert (C : forall j c', cb (set_fence k f1 st1) j c' <-> exists c, cb st j c /\ c' = dropped_by k c).
  { intros j c'. change (cb st1 j c' <-> exists c, cb st j c /\ c' = dropped_by k c). rewrite C1. apply exist_proper. intros c.
    split; intros [Hc ->]; (split; [done|]); case_decide as Hj; try done.
    all: unfold dropped_by; destruct (Z.eqb_spec (replay_submit_fence_index c) k) as [<-|]; [|done].
    all: destruct (la_fence _ Hl j c Hc Hne) as (_ & f' & Hf' & Hin); assert (f' = f) as -> by (by eapply fence_fun); done. }
  split; [done|]. split; [|done]. apply (lists_agree_drop (fun j => exists c, cb st j c /\ replay_submit_fence_index c = k) st); try done.
  - intros j c' Hj. apply C in Hj as (c & Hc & ->). unfold dropped_by. destruct (Z.eqb_spec (replay_submit_fence_index c) k) as [E|E]; [left|right].
    + split; [by exists c|done].
    + split; [|exists c; split; [done|apply same_note_refl]]. intros (c1 & Hc1 & E1). apply E. by rewrite (cb_fun _ _ _ _ Hc Hc1).
  - intros j c Hc HX. exists c. split; [|apply same_note_refl]. apply C. exists c. split; [done|]. unfold dropped_by.
    destruct (Z.eqb_spec (replay_submit_fence_index c) k) as [E|E]; [|done]. destruct HX. by exists c.
  - intros k' f' j Hk' Hin HX. assert (k' <> k) as Hkk.
    { intros ->. apply HX. destruct (la_list _ Hl k h f' j Hn Hk' Hin) as (c & Hc & _ & E). by exists c. }
    exists f'. split; [|done]. apply (fence_set st1 k f); [done|]. right. split; [done|]. unfold fence. by rewrite F1.
  - intros k' h' f' j Hn' Hk' Hin. apply (fence_set st1 k f) in Hk' as [[-> ->]|[Hkk Hk']]; [|..|done]; [by apply not_elem_of_nil in Hin|].
    unfold fence in Hk'. rewrite F1 in Hk'. split; [|by exists f']. intros (c & Hc & E).
    destruct (la_list _ Hl k' h' f' j Hn' Hk' Hin) as (c1 & Hc1 & _ & E1). rewrite (cb_fun _ _ _ _ Hc Hc1) in E. congruence.
Qed.

(** ** What the device uses is noted *)

(** a run that only fails when the driver's call fails *)
Definition ensures {A} (o : outcome A) (Q : A -> Prop) : Prop :=
  match o with Ok a => Q a | Fail f => f = AbortCall end.

Lemma ensures_bind {A B} (o : outcome A) (k : A -> outcome B) (P : A -> Prop) (Q : B -> Prop) :
  ensures o P -> (forall a, P a -> ensures (k a) Q) -> ensures (obind o k) Q.
Proof. destruct o as [a|f]; cbn; [|done]. intros Ha Hk. by apply Hk. Qed.

Lemma ensures_mono {A} (o : outcome A) (P Q : A -> Prop) : ensures o P -> (forall a, P a -> Q a) -> ensures o Q.
Proof. destruct o as [a|f]; cbn; auto. Qed.

Lemma ensures_require b (Q : unit -> Prop) : (b = true -> Q tt) -> ensures (require b AbortCall) Q.
Proof. destruct b; cbn; auto. Qed.

Section Invariant.
Context {D : Type} `{Driver D}.

(** how a buffer of a submission is noted, where [suffix] is the submission and what
    was submitted behind it *)
Definition tracks (st : replay_state) (suffix : list submission) (s : submission) (h : Z) : Prop :=
  exists i c, cb_handle st h i /\ cb st i c /\ replay_pending c = true /\ replay_submit_queue c = s_queue s /\ s_queue s <> 0 /\
    c_device c = queue_device (s_queue s) /\
    (replay_submit_fence_index c = CONTAINER_INVALID_INDEX \/
     exists f t, fence_named st (replay_submit_fence_index c) f /\ t ∈ suffix /\ s_queue t = s_queue s /\ s_fence t = f).

Definition tracked (st : replay_state) (l : list submission) : Prop :=
  forall a s b h, l = a ++ s :: b -> h ∈ s_buffers s -> tracks st (s :: b) s h.

Record replay_inv (st : replay_state) (d : D) : Prop := {
  ri_sized : sized st;
  ri_lists : lists_agree st;
  ri_tracked : tracked st (in_flight d)
}.

Lemma tracked_advance st l l' : advance l l' -> tracked st l -> tracked st l'.
Proof.
  intros Ha Ht a s b h E Hh. destruct (advance_suffix _ _ Ha a s b E) as (a0 & b0 & E0 & Hb).
  destruct (Ht a0 s b0 h E0 Hh) as (i & c & H1 & H2 & H3 & H4 & H5 & H6 & H7). exists i, c. do 6 (split; [done|]).
  destruct H7 as [H7|(f & t & F1 & F2 & F3 & F4)]; [by left|right]. exists f, t. split; [done|]. split; [|done].
  apply Hb; try done. rewrite F4. apply F1.
Qed.

Lemma tracked_drops st st' l : drops l st st' -> tracked st l -> tracked st' l.
Proof.
  intros [(E1 & E2 & _) Hc _ _] Ht a s b h El Hh. destruct (Ht a s b h El Hh) as (i & c & H1 & H2 & H3 & H4 & H5 & H6 & H7).
  destruct (Hc i c H2) as (c' & H2' & (B1 & _) & [(N1 & N2 & N3)|[Hu _]]).
  - exists i, c'. unfold cb_handle, fence_named in *. rewrite E1, E2, B1, N1, N2, N3. done.
  - destruct (Hu s h); [rewrite El; apply elem_of_app; right; by left|done|done].
Qed.

(** a buffer that waits for nothing in flight is not used *)
Lemma tracked_unused st l i c : tracked st l -> cb st i c ->
  replay_pending c = false \/
  (exists f, fence_named st (replay_submit_fence_index c) f /\ Forall (fun s => s_fence s = 0 \/ s_fence s <> f) l) \/
  ((forall h, ~ fence_named st (replay_submit_fence_index c) h) /\ replay_submit_queue c = 0) \/
  Forall (fun s => s_queue s <> replay_submit_queue c) l \/
  Forall (fun s => queue_device (s_queue s) <> c_device c) l -> sized st -> unused st i l.
Proof.
  intros Ht Hc Hwhy Hsz s h Hs Hh Hi. apply list_elem_of_split in Hs as (a & b & El).
  destruct (Ht a s b h El Hh) as (j & c' & H1 & H2 & H3 & H4 & H5 & H6 & H7).
  assert (j = i) as -> by (by eapply index_of_unique). assert (c' = c) as -> by (by eapply cb_fun).
  assert (Hin : forall t, t ∈ s :: b -> t ∈ l) by (intros t Hin; rewrite El; apply elem_of_app; by right).
  destruct Hwhy as [?|[(f & Hf & Hall)|[[_ Hq]|[Hall|Hall]]]]; [congruence|..|congruence| |]; try rewrite Forall_forall in Hall.
  - destruct H7 as [E|(f' & t & F1 & F2 & F3 & F4)].
    + rewrite E in Hf. apply names_range in Hf as [_ Hf]; [done|apply Hsz].
    + assert (f' = f) as -> by (by eapply names_unique). destruct (Hall t (Hin t F2)) as [Hz|Hz]; [|done]. destruct F1 as (_ & _ & F1). congruence.
  - apply (Hall s); [apply Hin; by left|done].
  - apply (Hall s); [apply Hin; by left|done].
Qed.

(** the replay waited, or looked, and dropped notes *)
Record settles (st : replay_state) (d : D) (st' : replay_state) (d' : D) : Prop := {
  se_advance : advance (in_flight d) (in_flight d');
  se_drops : drops (in_flight d') st st'
}.

Lemma settles_inv st d st' d' : replay_inv st d -> settles st d st' d' -> replay_inv st' d'.
Proof.
  intros [Hs Hl Ht] [Ha Hd]. split; [apply Hd|apply Hd|]. eapply tracked_drops; [done|]. by eapply tracked_advance.
Qed.

Lemma settles_refl st d : replay_inv st d -> settles st d st d.
Proof. intros [Hs Hl _]. split; [done|by apply drops_refl]. Qed.

Lemma settles_trans st d st1 d1 st' d' : settles st d st1 d1 -> settles st1 d1 st' d' -> settles st d st' d'.
Proof. intros [A1 D1] [A2 D2]. split; [by eapply advance_trans|by eapply drops_trans]. Qed.

Lemma settles_unused st d st' d' i : settles st d st' d' -> unused st i (in_flight d) -> unused st' i (in_flight d').
Proof.
  intros [Ha Hd] Hu. apply (same_remaps_unused st); [apply Hd|]. by eapply unused_advance.
Qed.

Lemma settles_advance st d d' : replay_inv st d -> advance (in_flight d) (in_flight d') -> settles st d st d'.
Proof. intros [Hs Hl _] Ha. split; [done|by apply drops_refl]. Qed.

(** a note of one buffer, and the notes of one fence, are dropped *)
Lemma settles_commandbuffer st d i c : replay_inv st d -> cb st i c -> unused st i (in_flight d) ->
  exists st', replay_clear_pending_commandbuffer i st = Ok st' /\ settles st d st' d /\ cb st' i (cleared c).
Proof.
  intros [Hs Hl _] Hc Hu. destruct (clear_commandbuffer_spec st i c Hs Hl Hc) as (st' & E & R & L & C).
  exists st'. split; [done|]. split; [|apply C; by left]. split; [done|]. split; [done| |by eapply same_remaps_sized|done].
  intros j c1 Hc1. destruct (decide (j = i)) as [->|Hne].
  - assert (c1 = c) as -> by (by eapply cb_fun). exists (cleared c). split; [apply C; by left|]. split; [by repeat split|]. by right.
  - exists c1. split; [apply C; by right|]. split; [by repeat split|]. left. apply same_note_refl.
Qed.

Lemma settles_fence st d k h : replay_inv st d -> fence_named st k h -> Forall (fun s => s_fence s = 0 \/ s_fence s <> h) (in_flight d) ->
  exists st', replay_clear_pending_fence k st = Ok st' /\ settles st d st' d /\ (forall i c, cb st i c -> cb st' i (dropped_by k c)).
Proof.
  intros [Hs Hl Ht] Hn Hall. destruct (clear_fence_spec st k h Hs Hl Hn) as (st' & E & R & L & C).
  exists st'. split; [done|]. split; [|intros i c Hc; apply C; by exists c]. split; [done|]. split; [done| |by eapply same_remaps_sized|done].
  intros i c Hc. exists (dropped_by k c). split; [apply C; by exists c|]. unfold dropped_by.
  destruct (Z.eqb_spec (replay_submit_fence_index c) k) as [Ek|Ek]; (split; [by repeat split|]); [right|left; apply same_note_refl].
  split; [|done]. eapply tracked_unused; [done|done| |done]. right. left. exists h. by rewrite Ek.
Qed.
End Invariant.
