(* ===== verification/SubmissionsReplay.v ===== *)
(** * The calls of a replay keep the notes (src/hardcode_read.cpp)

    Every handler keeps the invariant of the notes and fails only when a call of the
    driver fails, and in front of a call the replay has waited for the command buffers
    that the call must not find in use. *)

From Stdlib Require Import ZArith Lia Bool.
From stdpp Require Import base numbers list gmap relations.
From S2P Require Import Prelude FileWriter FileReader Packets Containers Submissions SubmissionsInv.

#[local] Open Scope Z_scope.

Definition simultaneous (c : trackedcmdbuffer) : bool :=
  negb (Z.land (replay_begin_flags c) VK_COMMAND_BUFFER_USAGE_SIMULTANEOUS_USE_BIT =? 0).

Section Waits.
Context {D : Type} `{Driver D}.
Context (index_to_VkQueue index_to_VkCommandPool : replay_remap).
Context (queue_devices : list Z) (device_fault_report_requested : bool).

(** [replay_wait_for_pending_commandbuffer]: whatever it waits for, afterwards the
    buffer is not pending, or may be submitted while it is *)
Lemma wait_spec st d i c allow : replay_inv st d -> cb st i c ->
  ensures (replay_wait_for_pending_commandbuffer i allow st d) (fun '(st', d') =>
    settles st d st' d' /\ exists c', cb st' i c' /\ (replay_pending c' = false \/ allow = true /\ simultaneous c' = true)).
Proof.
  intros Hinv Hc. pose proof Hinv as [Hs Hl Ht]. unfold replay_wait_for_pending_commandbuffer. rewrite (cb_get _ _ _ Hc). cbn [obind].
  destruct (replay_pending c) eqn:Hp; cbn [negb].
  2: { cbn. split; [by apply settles_refl|]. exists c. auto. }
  destruct (allow && _) eqn:Ea.
  { apply andb_true_iff in Ea as [-> Ea]. cbn. split; [by apply settles_refl|]. exists c. auto. }
  clear Ea. destruct (fence_live_spec st i c Hs Hl Hc) as [(h & f & -> & Hn & Hf & Hin)|[-> Hdead]]; cbn [obind].
  - rewrite (names_at _ _ _ (sz_fence _ Hs) Hn). cbn [obind]. pose proof (wait_law [h] true UINT64_MAX d) as [Ha Hw].
    destruct (wrap_vkWaitForFences [h] true UINT64_MAX d) as [res d']. cbn [fst snd] in *.
    eapply ensures_bind; [apply (ensures_require _ (fun _ => res = VK_OK)); intros E; by apply Z.eqb_eq|]. intros _ ->.
    destruct (settles_fence st d' (replay_submit_fence_index c) h) as (st' & -> & Hse & Hcb).
    { eapply settles_inv; [done|]. by apply settles_advance. }
    { done. }
    { eapply Forall_impl; [by apply Hw|]. intros s. intros [E|E]; [by left|right]; intros Eh; apply E; rewrite Eh; by left. }
    cbn. split; [by eapply settles_trans; [apply settles_advance|]|]. exists (dropped_by (replay_submit_fence_index c) c).
    split; [by apply Hcb|]. left. unfold dropped_by. by rewrite Z.eqb_refl.
  - destruct (replay_submit_queue c =? 0) eqn:Eq; cbn [negb].
    + apply Z.eqb_eq in Eq. destruct (settles_commandbuffer st d i c) as (st' & -> & Hse & Hcb); [done|done| |].
      { eapply tracked_unused; [done|done| |done]. right. right. left. done. }
      cbn. split; [done|]. exists (cleared c). auto.
    + pose proof (queue_idle_law (replay_submit_queue c) d) as [Ha Hw].
      destruct (wrap_vkQueueWaitIdle (replay_submit_queue c) d) as [res d']. cbn [fst snd] in *.
      eapply ensures_bind; [apply (ensures_require _ (fun _ => res = VK_OK)); intros E; by apply Z.eqb_eq|]. intros _ ->.
      assert (Hinv' : replay_inv st d') by (eapply settles_inv; [done|]; by apply settles_advance).
      destruct (settles_commandbuffer st d' i c) as (st' & -> & Hse & Hcb); [done|done| |].
      { eapply tracked_unused; [apply Hinv'|done| |done]. right. right. right. left. by apply Hw. }
      cbn. split; [by eapply settles_trans; [apply settles_advance|]|]. exists (cleared c). auto.
Qed.

(** a buffer that is not pending is not used *)
Lemma idle_unused st d i c : replay_inv st d -> cb st i c -> replay_pending c = false -> unused st i (in_flight d).
Proof. intros [Hs _ Ht] Hc Hp. eapply tracked_unused; [done|done|by left|done]. Qed.

Lemma settles_set st d i c c' : replay_inv st d -> cb st i c -> same_buffer c c' -> same_note c c' ->
  settles st d (set_commandbuffer i c' st) d.
Proof.
  intros [Hs Hl _] Hc Hb Hn. split; [done|]. pose proof (same_remaps_set i c' st) as R.
  assert (Hset : forall j c1, cb st j c1 -> exists c2, cb (set_commandbuffer i c' st) j c2 /\ same_buffer c1 c2 /\ same_note c1 c2).
  { intros j c1 Hc1. destruct (decide (j = i)) as [->|Hne].
    - assert (c1 = c) as -> by (by eapply cb_fun). exists c'. split; [apply (cb_set _ _ _ _ _ _ Hc); by left|by split].
    - exists c1. split; [apply (cb_set _ _ _ _ _ _ Hc); by right|]. by repeat split. }
  split; [done| |by eapply same_remaps_sized|].
  - intros j c1 Hc1. destruct (Hset j c1 Hc1) as (c2 & H2 & H3 & H4). exists c2. auto.
  - apply (lists_agree_drop (fun _ => False) st); try done.
    + intros j c1 Hc1. right. split; [intros []|]. apply (cb_set _ _ _ _ _ _ Hc) in Hc1 as [[-> ->]|[Hne Hc1]]; [by exists c|].
      exists c1. split; [done|apply same_note_refl].
    + intros j c1 Hc1 _. destruct (Hset j c1 Hc1) as (c2 & H2 & _ & H4). by exists c2.
    + intros k f j Hk Hin _. by exists f.
    + intros k h f j _ Hk Hin. split; [intros []|]. by exists f.
Qed.

Lemma destroy_internal_buffer_advance b d : advance (in_flight d) (in_flight (destroy_internal_buffer b d)).
Proof.
  unfold destroy_internal_buffer. destruct (ib_buffer b =? 0), (ib_memory b =? 0); cbn [negb]; try done.
  - apply free_law.
  - apply destroy_law.
  - eapply advance_trans; [apply destroy_law|apply free_law].
Qed.

Lemma destroy_buffers_advance l : forall d, advance (in_flight d) (in_flight (foldl (fun d b => destroy_internal_buffer b d) d l)).
Proof.
  induction l as [|b l IH]; intros d; cbn; [done|]. eapply advance_trans; [apply destroy_internal_buffer_advance|apply IH].
Qed.

Lemma cleanup_spec st d i c : replay_inv st d -> cb st i c ->
  ensures (replay_cleanup_commandbuffer_for_rerecord i st d) (fun '(st', d') =>
    settles st d st' d' /\ exists c', cb st' i c' /\ replay_pending c' = false).
Proof.
  intros Hinv Hc. unfold replay_cleanup_commandbuffer_for_rerecord. eapply ensures_bind; [by eapply wait_spec|].
  intros [st1 d1] (Hse & c1 & Hc1 & [Hp|[? _]]); [|done]. rewrite (cb_get _ _ _ Hc1). cbn.
  assert (Hinv1 : replay_inv st1 d1) by (by eapply settles_inv). pose proof (destroy_buffers_advance (replay_scratch_buffers c1) d1) as Ha.
  set (d2 := foldl _ _ _) in *. assert (Hse2 : settles st1 d1 st1 d2) by (by apply settles_advance).
  split.
  - eapply settles_trans; [done|]. eapply settles_trans; [done|]. apply (settles_set _ _ _ c1); try done. by eapply settles_inv.
  - exists (rerecordable c1). split; [|done]. apply (cb_set _ _ _ _ _ _ Hc1). by left.
Qed.

(** the buffers of an index is not pending, or may be submitted while it is *)
Definition idle (st : replay_state) (i : Z) : Prop := forall c, cb st i c -> replay_pending c = false.
Definition submittable (st : replay_state) (i : Z) : Prop := forall c, cb st i c -> replay_pending c = false \/ simultaneous c = true.

Lemma settles_back st d st' d' i c' : settles st d st' d' -> cb st' i c' ->
  exists c, cb st i c /\ same_buffer c c' /\ (replay_pending c = false -> replay_pending c' = false).
Proof.
  intros [_ [(_ & _ & E & _) Hcb _ _]] Hc'. assert (exists c, cb st i c) as [c Hc].
  { destruct Hc' as [Hi Hl]. apply lookup_lt_Some in Hl. rewrite E in Hl. destruct (lookup_lt_is_Some_2 _ _ Hl) as [c Hc]. by exists c. }
  exists c. split; [done|]. destruct (Hcb i c Hc) as (c1 & Hc1 & Hb & Hn). assert (c1 = c') as -> by (by eapply cb_fun).
  split; [done|]. intros Hp. destruct Hn as [(_ & _ & N)|[_ [N _]]]; [by rewrite N|done].
Qed.

Lemma settles_idle st d st' d' i : settles st d st' d' -> idle st i -> idle st' i.
Proof. intros Hse Hi c' Hc'. destruct (settles_back _ _ _ _ _ _ Hse Hc') as (c & Hc & _ & Hp). auto. Qed.

Lemma settles_submittable st d st' d' i : settles st d st' d' -> submittable st i -> submittable st' i.
Proof.
  intros Hse Hi c' Hc'. destruct (settles_back _ _ _ _ _ _ Hse Hc') as (c & Hc & (_ & _ & E) & Hp).
  unfold simultaneous. rewrite E. destruct (Hi c Hc) as [Hq|Hq]; auto.
Qed.

Lemma settles_handle st d st' d' h i : settles st d st' d' -> cb_handle st' h i <-> cb_handle st h i.
Proof. intros [_ [(E & _) _ _ _]]. unfold cb_handle. by rewrite E. Qed.

Lemma cb_of_handle st h i : sized st -> cb_handle st h i -> exists c, cb st i c.
Proof. intros Hs [Hn _]. by eapply cb_of_name. Qed.

Lemma handle_valid st h i : sized st -> cb_handle st h i -> (i =? CONTAINER_INVALID_INDEX) = false.
Proof. intros Hs [Hn _]. apply Z.eqb_neq. by apply (names_range _ _ _ (sz_cb _ Hs) Hn). Qed.

(** ** In front of calls *)

Lemma wait_each_spec handles : forall st d, replay_inv st d -> Forall (fun h => exists i, cb_handle st h i) handles ->
  ensures (wait_each handles st d) (fun '(st', d') =>
    settles st d st' d' /\ Forall (fun h => forall i, cb_handle st h i -> submittable st' i) handles).
Proof.
  induction handles as [|h handles IH]; intros st d Hinv Hk; [by split; [apply settles_refl|]|].
  apply Forall_cons in Hk as [[i Hi] Hk]. cbn [wait_each]. rewrite (index_of_remap _ _ _ Hi). cbn [obind].
  rewrite (handle_valid _ _ _ (ri_sized _ _ Hinv) Hi). destruct (cb_of_handle _ _ _ (ri_sized _ _ Hinv) Hi) as [c Hc].
  eapply ensures_bind; [by eapply wait_spec|]. intros [st1 d1] (Hse & c1 & Hc1 & Hp).
  eapply ensures_mono; [apply IH|].
  - by eapply settles_inv.
  - eapply Forall_impl; [done|]. intros h' [j Hj]. exists j. by apply (settles_handle _ _ _ _ _ _ Hse).
  - intros [st' d'] [Hse' Hall]. split; [by eapply settles_trans|]. apply Forall_cons. split.
    + intros j Hj. assert (j = i) as -> by (by eapply index_of_unique). eapply settles_submittable; [done|].
      intros c' Hc'. assert (c' = c1) as -> by (by eapply cb_fun). destruct Hp as [|[]]; auto.
    + eapply Forall_impl; [done|]. intros h' Hh j Hj. apply Hh. by apply (settles_handle _ _ _ _ _ _ Hse).
Qed.

Lemma reset_spec h i st d : replay_inv st d -> cb_handle st h i ->
  ensures (replay_pre_vkResetCommandBuffer h st d) (fun '(st', d') => settles st d st' d' /\ idle st' i).
Proof.
  intros Hinv Hi. unfold replay_pre_vkResetCommandBuffer. rewrite (index_of_remap _ _ _ Hi). cbn [obind].
  rewrite (handle_valid _ _ _ (ri_sized _ _ Hinv) Hi). destruct (cb_of_handle _ _ _ (ri_sized _ _ Hinv) Hi) as [c Hc].
  eapply ensures_mono; [by eapply cleanup_spec|]. intros [st' d'] (Hse & c' & Hc' & Hp). split; [done|].
  intros c1 Hc1. by rewrite (cb_fun _ _ _ _ Hc1 Hc').
Qed.

Lemma free_spec handles : forall st d, replay_inv st d -> Forall (fun h => exists i, cb_handle st h i) handles ->
  ensures (replay_pre_vkFreeCommandBuffers handles st d) (fun '(st', d') =>
    settles st d st' d' /\ Forall (fun h => forall i, cb_handle st h i -> idle st' i) handles).
Proof.
  induction handles as [|h handles IH]; intros st d Hinv Hk; [by split; [apply settles_refl|]|].
  apply Forall_cons in Hk as [[i Hi] Hk]. cbn [replay_pre_vkFreeCommandBuffers].
  eapply ensures_bind; [by eapply reset_spec|]. intros [st1 d1] (Hse & Hidle).
  eapply ensures_mono; [apply IH|].
  - by eapply settles_inv.
  - eapply Forall_impl; [done|]. intros h' [j Hj]. exists j. by apply (settles_handle _ _ _ _ _ _ Hse).
  - intros [st' d'] [Hse' Hall]. split; [by eapply settles_trans|]. apply Forall_cons. split.
    + intros j Hj. assert (j = i) as -> by (by eapply index_of_unique). by eapply settles_idle.
    + eapply Forall_impl; [done|]. intros h' Hh j Hj. apply Hh. by apply (settles_handle _ _ _ _ _ _ Hse).
Qed.

Lemma cleanup_pool_spec pool indices : forall st d, replay_inv st d ->
  Forall (fun i => exists c, cb st (Z.of_nat i) c) indices ->
  ensures (cleanup_pool pool indices st d) (fun '(st', d') =>
    settles st d st' d' /\
    Forall (fun i => forall c h, cb st (Z.of_nat i) c -> pool_index c = pool -> names (index_to_VkCommandBuffer st) (Z.of_nat i) h ->
      idle st' (Z.of_nat i)) indices).
Proof.
  induction indices as [|i indices IH]; intros st d Hinv Hk; [by split; [apply settles_refl|]|].
  apply Forall_cons in Hk as [[c Hc] Hk]. pose proof (ri_sized _ _ Hinv) as Hs. cbn [cleanup_pool].
  destruct (contains_spec (index_to_VkCommandBuffer st) (Z.of_nat i)) as (b & -> & Hb); [apply Hs|by eapply cb_range|]. cbn [obind].
  assert (Hskip : (pool_index c = pool -> ~ exists h, names (index_to_VkCommandBuffer st) (Z.of_nat i) h) ->
    ensures (cleanup_pool pool indices st d) (fun '(st', d') => settles st d st' d' /\
    Forall (fun i => forall c h, cb st (Z.of_nat i) c -> pool_index c = pool -> names (index_to_VkCommandBuffer st) (Z.of_nat i) h ->
      idle st' (Z.of_nat i)) (i :: indices))).
  { intros Hno. eapply ensures_mono; [by apply IH|]. intros [st' d'] [Hse Hall]. split; [done|]. apply Forall_cons. split; [|done].
    intros c1 h Hc1 Hp Hn. rewrite (cb_fun _ _ _ _ Hc1 Hc) in Hp. destruct Hno; [done|by exists h]. }
  destruct b; cbn [negb]; [|apply Hskip; intros _ Hn; by apply Hb in Hn].
  rewrite (cb_get _ _ _ Hc). cbn [obind]. destruct (pool_index c =? pool) eqn:Ep; cbn [negb]; [|apply Hskip; intros E; apply Z.eqb_neq in Ep; done].
  clear Hskip. eapply ensures_bind; [by eapply cleanup_spec|]. intros [st1 d1] (Hse & c1 & Hc1 & Hidle).
  eapply ensures_mono; [apply IH|].
  - by eapply settles_inv.
  - eapply Forall_impl; [done|]. intros j [c2 Hc2]. destruct (dr_cb _ _ _ (se_drops _ _ _ _ Hse) _ _ Hc2) as (c3 & Hc3 & _). by exists c3.
  - intros [st' d'] [Hse' Hall]. split; [by eapply settles_trans|]. apply Forall_cons. split.
    + intros c2 h _ _ _. eapply settles_idle; [done|]. intros c3 Hc3. by rewrite (cb_fun _ _ _ _ Hc3 Hc1).
    + eapply Forall_impl; [done|]. intros j Hj c2 h Hc2 Hp Hn.
      destruct (dr_cb _ _ _ (se_drops _ _ _ _ Hse) _ _ Hc2) as (c3 & Hc3 & (_ & E & _) & _).
      apply (Hj c3 h); [done|congruence|]. pose proof (dr_remaps _ _ _ (se_drops _ _ _ _ Hse)) as (E1 & _). by rewrite E1.
Qed.

Lemma add_secondaries_spec primary handles : forall st d, replay_inv st d -> (exists c, cb st primary c) ->
  ensures (add_secondaries primary handles st) (fun st' => settles st d st' d).
Proof.
  induction handles as [|h handles IH]; intros st d Hinv [c Hc]; cbn [add_secondaries]; [by apply settles_refl|].
  destruct (_ || _); [apply IH; [done|by exists c]|]. rewrite (cb_get _ _ _ Hc). cbn [obind].
  case_bool_decide; [apply IH; [done|by exists c]|]. set (c1 := TrackedCmdBuffer _ _ _ _ _ _ _ _ _).
  assert (Hse : settles st d (set_commandbuffer primary c1 st) d) by (by apply (settles_set _ _ _ c)).
  eapply ensures_mono; [apply (IH _ d)|].
  - by eapply settles_inv.
  - exists c1. apply (cb_set _ _ _ _ _ _ Hc). by left.
  - intros st' Hse'. by eapply settles_trans.
Qed.

(** ** Behind calls *)

(** the index that a fence is noted with *)
Definition noted_fence (st : replay_state) (fence_handle k : Z) : Prop :=
  if fence_handle =? 0 then k = CONTAINER_INVALID_INDEX else index_of (index_to_VkFence st) fence_handle k.

Lemma mark_spec current st i c h queue f k : sized st -> lists_agree st -> cb st i c -> names (index_to_VkCommandBuffer st) i h -> noted_fence st f k ->
  exists st', replay_mark_pending_commandbuffer current i queue f st = Ok st' /\ same_remaps st st' /\ lists_agree st' /\
    forall j c', cb st' j c' <-> (j = i /\ c' = pending_set c true queue k (Some current)) \/ (j <> i /\ cb st j c').
Proof.
  intros Hs Hl Hc Hn Hf. unfold replay_mark_pending_commandbuffer. destruct (cb_range _ _ _ Hs Hc) as [_ Hi].
  rewrite (proj2 (Z.eqb_neq _ _) Hi), (cb_get _ _ _ Hc). cbn [obind].
  destruct (clear_commandbuffer_spec st i c Hs Hl Hc) as (st1 & -> & R1 & L1 & C1). cbn [obind].
  assert (Hc1 : cb st1 i (cleared c)) by (apply C1; by left). rewrite (cb_get _ _ _ Hc1). cbn [obind].
  assert (Hk : (if f =? 0 then Ok CONTAINER_INVALID_INDEX else remap_index (index_to_VkFence st1) f) = Ok k).
  { unfold noted_fence in Hf. destruct R1 as (_ & -> & _). destruct (f =? 0); [by rewrite Hf|by apply index_of_remap]. }
  rewrite Hk. cbn [obind]. clear Hk. set (c2 := pending_set (cleared c) true queue k (Some current)).
  change (pending_set c true queue k (Some current)) with c2. set (st2 := set_commandbuffer i c2 st1).
  assert (R2 : same_remaps st st2) by (eapply same_remaps_trans; [done|apply same_remaps_set]).
  assert (C2 : forall j c', cb st2 j c' <-> (j = i /\ c' = c2) \/ (j <> i /\ cb st j c')).
  { intros j c'. unfold st2. rewrite (cb_set _ _ _ _ _ _ Hc1). split; (intros [?|[Hj Hcj]]; [by left|right]); (split; [done|]).
    - apply C1 in Hcj as [[? _]|[_ ?]]; done.
    - apply C1. by right. }
  assert (Hfresh : forall k' h' f' j, fence_named st1 k' h' -> fence st1 k' f' -> j ∈ replay_pending_commandbuffers f' ->
    j <> i /\ exists c', cb st j c' /\ replay_pending c' = true /\ replay_submit_fence_index c' = k').
  { intros k' h' f' j Hn' Hk' Hin. destruct (la_list _ L1 k' h' f' j Hn' Hk' Hin) as (c' & Hc' & Hp & Hkk).
    apply C1 in Hc' as [[-> ->]|[Hj Hc']]; [done|]. split; [done|]. by exists c'. }
  assert (Hold : forall j c', j <> i -> cb st j c' -> replay_submit_fence_index c' <> CONTAINER_INVALID_INDEX ->
    replay_pending c' = true /\ exists f', fence st1 (replay_submit_fence_index c') f' /\ j ∈ replay_pending_commandbuffers f').
  { intros j c' Hj Hc' Hk'. apply (la_fence _ L1); [apply C1; by right|done]. }
  assert (Hnames : forall j c', cb st2 j c' -> replay_pending c' = true -> exists h, names (index_to_VkCommandBuffer st) j h).
  { intros j c' Hc' Hp. apply C2 in Hc' as [[-> ->]|[Hj Hc']]; [by exists h|]. by eapply la_pending. }
  destruct (Z.eqb_spec k CONTAINER_INVALID_INDEX) as [Ek|Ek].
  - exists st2. split; [done|]. split; [done|]. split; [|done]. split.
    + intros j c' Hc' Hp. destruct R2 as [-> _]. by eapply Hnames.
    + intros j c' Hc' Hk'. apply C2 in Hc' as [[-> ->]|[Hj Hc']]; [done|]. by apply Hold.
    + intros k' h' f' j Hn' Hk' Hin. destruct (Hfresh k' h' f' j Hn' Hk' Hin) as (Hj & c' & Hc' & ?). exists c'. split; [apply C2; by right|done].
  - unfold noted_fence in Hf. destruct (f =? 0); [done|]. destruct Hf as [Hnf _].
    destruct (fence_of_name st2 k f) as [ff Hff]; [by eapply same_remaps_sized|unfold fence_named; destruct R2 as (_ & -> & _); done|].
    rewrite (fence_get _ _ _ Hff). cbn [obind]. set (f2 := TrackedFence _ _). exists (set_fence k f2 st2). split; [done|].
    assert (R3 : same_remaps st (set_fence k f2 st2)) by (eapply same_remaps_trans; [done|apply same_remaps_fence]).
    split; [done|]. split; [|done]. split.
    + intros j c' Hc' Hp. destruct R3 as [-> _]. by eapply Hnames.
    + intros j c' Hc' Hk'. change (cb st2 j c') in Hc'. apply C2 in Hc' as [[-> ->]|[Hj Hc']].
      * split; [done|]. exists f2. split; [apply (fence_set _ _ _ _ _ _ Hff); by left|]. apply elem_of_app. right. by left.
      * destruct (Hold j c' Hj Hc' Hk') as (Hp & f' & Hf' & Hin). split; [done|]. destruct (decide (replay_submit_fence_index c' = k)) as [E|Hne]; [rewrite E in *|].
        -- exists f2. split; [apply (fence_set _ _ _ _ _ _ Hff); by left|]. apply elem_of_app. left. by rewrite (fence_fun _ _ _ _ Hff Hf').
        -- exists f'. split; [|done]. apply (fence_set _ _ _ _ _ _ Hff). by right.
    + intros k' h' f' j Hn' Hk' Hin. apply (fence_set _ _ _ _ _ _ Hff) in Hk' as [[-> ->]|[Hne Hk']].
      * apply elem_of_app in Hin as [Hin|Hin].
        -- destruct (Hfresh k h' ff j Hn' Hff Hin) as (Hj & c' & Hc' & ?). exists c'. split; [apply C2; by right|done].
        -- apply list_elem_of_singleton in Hin as ->. exists c2. split; [apply C2; by left|done].
      * destruct (Hfresh k' h' f' j Hn' Hk' Hin) as (Hj & c' & Hc' & ?). exists c'. split; [apply C2; by right|done].
Qed.

Definition noted (queue k : Z) (c : trackedcmdbuffer) : Prop :=
  replay_pending c = true /\ replay_submit_queue c = queue /\ replay_submit_fence_index c = k.

Lemma mark_each_spec current queue f k handles : forall st, sized st -> lists_agree st -> noted_fence st f k ->
  Forall (fun h => exists i, cb_handle st h i) handles ->
  exists indices st', mark_each current queue f handles st = Ok (indices, st') /\ same_remaps st st' /\ lists_agree st' /\
    forall j c, cb st j c -> exists c', cb st' j c' /\ same_buffer c c' /\
      ((exists h, h ∈ handles /\ cb_handle st h j) /\ noted queue k c' \/ (~ exists h, h ∈ handles /\ cb_handle st h j) /\ same_note c c').
Proof.
  induction handles as [|h handles IH]; intros st Hs Hl Hf Hk; cbn [mark_each].
  - exists [], st. split; [done|]. split; [by repeat split|]. split; [done|]. intros j c Hc. exists c. split; [done|]. split; [by repeat split|].
    right. split; [|apply same_note_refl]. intros (h & Hh & _). by apply not_elem_of_nil in Hh.
  - apply Forall_cons in Hk as [[i Hi] Hk]. rewrite (index_of_remap _ _ _ Hi). cbn [obind]. destruct (cb_of_handle _ _ _ Hs Hi) as [c Hc].
    destruct (mark_spec current st i c h queue f k Hs Hl Hc) as (st1 & -> & R1 & L1 & C1); [apply Hi|done|]. cbn [obind].
    destruct (IH st1) as (indices & st' & -> & R2 & L2 & C2).
    + by eapply same_remaps_sized.
    + done.
    + unfold noted_fence. by destruct R1 as (_ & -> & _).
    + unfold cb_handle. by destruct R1 as (-> & _).
    + cbn [obind]. exists (i :: indices), st'. split; [done|]. split; [by eapply same_remaps_trans|]. split; [done|].
      assert (Eh : forall h j, cb_handle st1 h j <-> cb_handle st h j) by (intros; unfold cb_handle; by destruct R1 as (-> & _)).
      intros j c0 Hc0. destruct (decide (j = i)) as [->|Hj].
      * destruct (C2 i (pending_set c true queue k (Some current))) as (c' & Hc' & Hb & Hn); [apply C1; by left|].
        rewrite (cb_fun _ _ _ _ Hc0 Hc) in *. exists c'. split; [done|]. split; [done|]. left. split; [exists h; split; [by left|done]|].
        destruct Hn as [[_ Hn]|[_ (N1 & N2 & N3)]]; [done|]. done.
      * destruct (C2 j c0) as (c' & Hc' & Hb & Hn); [apply C1; by right|]. exists c'. split; [done|]. split; [done|].
        destruct Hn as [[(h' & Hh' & Hj') Hn]|[Hno Hn]]; [left|right]; (split; [|done]).
        -- exists h'. split; [by right|by apply Eh].
        -- intros (h' & Hh' & Hj'). apply elem_of_cons in Hh' as [->|Hh']; [apply Hj; by eapply index_of_unique|]. apply Hno. exists h'. split; [done|by apply Eh].
Qed.

(** the notes of a submission, made when the device has it *)
Lemma tracked_mark st st' l queue f k handles : sized st -> tracked st l -> same_remaps st st' -> noted_fence st f k -> queue <> 0 ->
  Forall (fun h => (exists i c, cb_handle st h i /\ cb st i c /\ c_device c = queue_device queue) /\
    forall s, s ∈ l -> h ∈ s_buffers s -> s_queue s = queue) handles ->
  (forall j c, cb st j c -> exists c', cb st' j c' /\ same_buffer c c' /\
     ((exists h, h ∈ handles /\ cb_handle st h j) /\ noted queue k c' \/ (~ exists h, h ∈ handles /\ cb_handle st h j) /\ same_note c c')) ->
  tracked st' (l ++ [Submission queue f handles]).
Proof.
  intros Hs Ht (E1 & E2 & _) Hf Hq Hh Hcb. rewrite Forall_forall in Hh. set (sub := Submission queue f handles).
  assert (Hnote : forall c' (b : list submission), noted queue k c' -> sub ∈ b -> replay_submit_fence_index c' = CONTAINER_INVALID_INDEX \/
    exists g (t : submission), fence_named st' (replay_submit_fence_index c') g /\ t ∈ b /\ s_queue t = queue /\ s_fence t = g).
  { intros c' b (_ & _ & ->) Hb. unfold noted_fence in Hf. destruct (f =? 0); [by left|right]. exists f, sub. unfold fence_named. rewrite E2.
    split; [apply Hf|done]. }
  intros a s b h E Hin. destruct b as [|y b _] using rev_ind.
  - apply app_inj_tail in E as [-> <-]. destruct (Hh h Hin) as [(i & c & Hi & Hc & Hdev) _].
    destruct (Hcb i c Hc) as (c' & Hc' & (B & _) & [[_ Hn]|[Hno _]]); [|destruct Hno; by exists h].
    exists i, c'. unfold cb_handle. rewrite E1, B. destruct (Hnote c' [sub]) as [Hx|Hx]; [done|by left|..]; destruct Hn as (? & ? & ?); auto 20.
  - rewrite app_comm_cons, app_assoc in E. apply app_inj_tail in E as [-> <-].
    destruct (Ht a s b h eq_refl Hin) as (i & c & H1 & H2 & H3 & H4 & H5 & H6 & H7).
    destruct (Hcb i c H2) as (c' & Hc' & (B & _) & [[(h' & Hh' & Hi') Hn]|[_ (N1 & N2 & N3)]]).
    + assert (h' = h) as -> by (eapply names_unique; [apply Hi'|apply H1]). destruct (Hh h Hh') as [_ Hsq].
      assert (Esq : s_queue s = queue) by (apply Hsq; [apply elem_of_app; right; by left|done]). rewrite Esq in *.
      exists i, c'. unfold cb_handle. rewrite Esq, E1, B. destruct (Hnote c' ((s :: b) ++ [sub])) as [Hx|Hx]; [done|apply elem_of_app; right; by left|..];
        destruct Hn as (? & ? & ?); auto 20.
    + exists i, c'. unfold cb_handle, fence_named. rewrite E1, E2, B, N1, N2, N3. do 6 (split; [done|]).
      destruct H7 as [H7|(g & t & F1 & F2 & F3)]; [by left|right]. exists g, t. split; [done|]. split; [|done].
      change (t ∈ (s :: b) ++ [sub]). apply elem_of_app. by left.
Qed.

Lemma record_submission_spec current queue_index fence indices st d : Forall (Z.le 0) queue_devices -> replay_inv st d ->
  is_Some (queue_devices !! Z.to_nat queue_index) ->
  ensures (replay_record_submission queue_devices device_fault_report_requested current queue_index fence indices st) (fun st' => replay_inv st' d).
Proof.
  intros Hq Hinv [dev Hdev]. unfold replay_record_submission. destruct (negb _); [done|]. destruct (_ || _); [done|].
  unfold vector_get at 1. rewrite Hdev. cbn [obind]. destruct (_ || (dev >=? _)) eqn:E; [done|]. apply orb_false_iff in E as [_ E].
  rewrite Z.geb_leb in E. apply Z.leb_gt in E. pose proof (proj1 (Forall_lookup _ _) Hq _ _ Hdev) as H0.
  destruct (lookup_lt_is_Some_2 (replay_recent_submissions st) (Z.to_nat dev)) as [recent Hr]; [lia|].
  unfold vector_get. rewrite Hr. cbn [obind]. destruct Hinv as [[] [] ?]. by split; [split|split|].
Qed.

Definition known_cb (st : replay_state) (h : Z) : Prop := exists i, cb_handle st h i.
Definition known_fence (st : replay_state) (h : Z) : Prop := exists k, fence_handle st h k.

Lemma submit_spec current queue submits f k st d : Forall (Z.le 0) queue_devices -> replay_inv st d -> queue <> 0 ->
  (exists queue_index, remap_index index_to_VkQueue queue = Ok queue_index /\ is_Some (queue_devices !! Z.to_nat queue_index)) ->
  noted_fence st f k ->
  Forall (fun h => (exists i c, cb_handle st h i /\ cb st i c /\ c_device c = queue_device queue) /\
    forall s, s ∈ in_flight d -> h ∈ s_buffers s -> s_queue s = queue) (concat submits) ->
  ensures (make_call index_to_VkQueue queue_devices device_fault_report_requested current (QueueSubmit queue submits f) st d)
    (fun '(st', d') => replay_inv st' d').
Proof.
  intros Hqd Hinv Hq (qi & Eqi & Hqi) Hf Hh. cbn [make_call]. pose proof (submit_law queue submits f d) as Ha.
  destruct (wrap_vkQueueSubmit queue submits f d) as [res d']. cbn [fst snd] in Ha.
  unfold replay_callback_vkQueueSubmit. rewrite Eqi. cbn [obind]. unfold vector_get. destruct Hqi as [dev Hdev]. rewrite Hdev. cbn [obind].
  destruct (res =? VK_OK); cbn [negb]; [|rewrite app_nil_r in Ha; cbn; eapply settles_inv; [done|by apply settles_advance]].
  destruct Hinv as [Hs Hl Ht].
  destruct (mark_each_spec current queue f k (concat submits) st Hs Hl Hf) as (indices & st1 & -> & R1 & L1 & C1).
  { eapply Forall_impl; [done|]. intros h [(i & c & Hi & _) _]. by exists i. }
  cbn [obind]. assert (Hinv1 : replay_inv st1 d').
  { split; [by eapply same_remaps_sized|done|]. eapply tracked_advance; [done|]. by eapply tracked_mark. }
  destruct device_fault_report_requested eqn:Er; [|done]. rewrite <- Er.
  eapply ensures_bind; [by apply record_submission_spec|]. done.
Qed.

Lemma clear_where_spec which indices : forall st d, replay_inv st d -> Forall (fun i => exists c, cb st (Z.of_nat i) c) indices ->
  (forall st i c, replay_inv st d -> cb st i c -> which c = true -> unused st i (in_flight d)) ->
  ensures (clear_where which indices st) (fun st' => settles st d st' d).
Proof.
  induction indices as [|i indices IH]; intros st d Hinv Hk Hu; [by apply settles_refl|].
  apply Forall_cons in Hk as [[c Hc] Hk]. pose proof (ri_sized _ _ Hinv) as Hs. cbn [clear_where].
  destruct (contains_spec (index_to_VkCommandBuffer st) (Z.of_nat i)) as (b & -> & Hb); [apply Hs|by eapply cb_range|]. cbn [obind].
  destruct b; cbn [negb]; [|by apply IH]. rewrite (cb_get _ _ _ Hc). cbn [obind].
  destruct (replay_pending c && which c) eqn:E; cbn [obind]; [|by apply IH]. apply andb_true_iff in E as [_ E].
  destruct (settles_commandbuffer st d _ _ Hinv Hc) as (st1 & -> & Hse & _); [by eapply Hu|]. cbn [obind].
  eapply ensures_mono; [apply (IH _ d)|].
  - by eapply settles_inv.
  - eapply Forall_impl; [done|]. intros j [c2 Hc2]. destruct (dr_cb _ _ _ (se_drops _ _ _ _ Hse) _ _ Hc2) as (c3 & Hc3 & _). by exists c3.
  - done.
  - intros st' Hse'. by eapply settles_trans.
Qed.

Lemma commandbuffer_indices_ok st : Forall (fun i => exists c, cb st (Z.of_nat i) c) (commandbuffer_indices st).
Proof.
  apply Forall_forall. intros i Hi. apply elem_of_seq in Hi. destruct (lookup_lt_is_Some_2 (VkCommandBuffer_index st) i) as [c Hc]; [lia|].
  exists c. split; [lia|]. by rewrite Nat2Z.id.
Qed.

Lemma clear_fences_spec fences : forall st d, replay_inv st d -> Forall (known_fence st) fences ->
  Forall (fun f => Forall (fun s => s_fence s = 0 \/ s_fence s <> f) (in_flight d)) fences ->
  ensures (clear_fences fences st) (fun st' => settles st d st' d).
Proof.
  induction fences as [|f fences IH]; intros st d Hinv Hk Hd; cbn [clear_fences]; [by apply settles_refl|].
  apply Forall_cons in Hk as [[k Hf] Hk]. apply Forall_cons in Hd as [Hfd Hd]. rewrite (index_of_remap _ _ _ Hf). cbn [obind].
  destruct (settles_fence st d k f Hinv) as (st1 & -> & Hse & _); [apply Hf|done|]. cbn [obind].
  eapply ensures_mono; [apply (IH _ d)|]; [by eapply settles_inv| |done|].
  - apply (Forall_impl _ _ _ Hk). intros g [j Hg]. exists j. unfold fence_handle. by destruct (dr_remaps _ _ _ (se_drops _ _ _ _ Hse)) as (_ & -> & _).
  - intros st' Hse'. by eapply settles_trans.
Qed.

Lemma ask_fences_spec fences : forall st d, replay_inv st d -> Forall (known_fence st) fences ->
  ensures (ask_fences fences st d) (fun '(st', d') => settles st d st' d').
Proof.
  induction fences as [|f fences IH]; intros st d Hinv Hk; cbn [ask_fences]; [by apply settles_refl|].
  apply Forall_cons in Hk as [[k Hf] Hk]. pose proof (status_law f d) as [Ha Hw].
  destruct (wrap_vkGetFenceStatus f d) as [res d1]. cbn [fst snd] in *.
  assert (Hse1 : settles st d st d1) by (by apply settles_advance). assert (Hinv1 : replay_inv st d1) by (by eapply settles_inv).
  destruct (Z.eqb_spec res VK_OK) as [E|_].
  - rewrite (index_of_remap _ _ _ Hf). cbn [obind].
    destruct (settles_fence st d1 k f Hinv1) as (st1 & -> & Hse & _); [apply Hf|by apply Hw|]. cbn [obind].
    eapply ensures_mono; [apply IH|]; [by eapply settles_inv| |].
    + apply (Forall_impl _ _ _ Hk). intros g [j Hg]. exists j. unfold fence_handle. by destruct (dr_remaps _ _ _ (se_drops _ _ _ _ Hse)) as (_ & -> & _).
    + intros [st' d'] Hse'. eapply settles_trans; [done|]. by eapply settles_trans.
  - eapply ensures_mono; [by apply IH|]. intros [st' d'] Hse'. by eapply settles_trans.
Qed.

(** ** Objects come and go *)

Lemma remap_set_spec r i h : remap_ok r -> 0 <= i -> h <> 0 -> remapping r !! Z.to_nat i = Some 0 ->
  exists r', remap_set i h r = Ok r' /\ length (remapping r') = length (remapping r) /\ names r' i h /\
    (forall j g, j <> i -> names r' j g <-> names r j g) /\ (forall g j, g <> h -> j <> i -> index_of r g j -> index_of r' g j).
Proof.
  intros Hr Hi Hh E. pose proof (lookup_lt_Some _ _ _ E). exists (store_remap i h r). unfold remap_set, remapping_at. rewrite E. cbn [obind].
  rewrite (proj2 (Z.eqb_neq h 0)) by done. split; [done|]. unfold store_remap, names, index_of. cbn [remapping reverse].
  rewrite length_insert. split; [done|]. rewrite list_lookup_insert_eq by done. split; [done|]. split.
  - intros j g Hj. split; intros (Hj0 & Hl & Hg); rewrite list_lookup_insert_ne in * by lia; done.
  - intros g j Hg Hj [(Hj0 & Hl & Hg0) Hrev]. unfold names. cbn. rewrite list_lookup_insert_ne by lia. by rewrite lookup_insert_ne.
Qed.

Lemma remap_unset_spec r i h : remap_ok r -> names r i h ->
  exists r', remap_unset i r = Ok r' /\ length (remapping r') = length (remapping r) /\ (forall g, ~ names r' i g) /\
    (forall j g, j <> i -> names r' j g <-> names r j g) /\ (forall g j, g <> h -> j <> i -> index_of r g j -> index_of r' g j).
Proof.
  intros Hr Hn. pose proof (names_range _ _ _ Hr Hn) as [Hi _]. destruct Hn as (_ & E & Hh). pose proof (lookup_lt_Some _ _ _ E).
  eexists. unfold remap_unset, remapping_at. rewrite (proj2 (Z.eqb_neq i CONTAINER_NULL_VALUE)) by lia. rewrite E. cbn [obind].
  rewrite (proj2 (Z.eqb_neq h 0)) by done. split; [done|]. unfold names, index_of. cbn [remapping reverse]. rewrite length_insert.
  split; [done|]. rewrite list_lookup_insert_eq by done. split; [intros g (_ & Hl & Hg); congruence|]. split.
  - intros j g Hj. split; intros (Hj0 & Hl & Hg); rewrite list_lookup_insert_ne in * by lia; done.
  - intros g j Hg Hj [(Hj0 & Hl & Hg0) Hrev]. unfold names. cbn. rewrite list_lookup_insert_ne by lia. by rewrite lookup_insert_ne.
Qed.

Lemma free_one_spec st d i h : replay_inv st d -> cb_handle st h i -> idle st i ->
  exists r, remap_unset i (index_to_VkCommandBuffer st) = Ok r /\ replay_inv (with_cb_remap st r) d /\
    (forall j g, j <> i -> cb_handle st g j -> cb_handle (with_cb_remap st r) g j).
Proof.
  intros Hinv Hi Hidle. pose proof Hinv as [[S1 S2 S3 S4] [L1 L2 L3] Ht].
  assert (Hu : unused st i (in_flight d)) by (destruct (cb_of_handle _ _ _ (ri_sized _ _ Hinv) Hi) as [c Hc]; eapply idle_unused; eauto).
  destruct (remap_unset_spec (index_to_VkCommandBuffer st) i h S1) as (r & -> & Hlen & _ & Hnames & Hindex); [apply Hi|]. exists r. split; [done|].
  assert (Hkeep : forall j g, j <> i -> cb_handle st g j -> cb_handle (with_cb_remap st r) g j).
  { intros j g Hj Hg. apply Hindex; [|done|done]. intros ->. apply Hj. by eapply index_of_unique. }
  split; [|done]. split.
  - split; cbn; [unfold remap_ok in *; by rewrite Hlen|done|congruence|done].
  - split; [|done|done]. intros j c Hc Hp. destruct (L1 j c Hc Hp) as [g Hg]. exists g. apply Hnames; [|done]. intros ->. by rewrite (Hidle c Hc) in Hp.
  - intros a s b g E Hg. destruct (Ht a s b g E Hg) as (j & c & H1 & H2). exists j, c. split; [|done]. apply Hkeep; [|done].
    intros ->. apply (Hu s g); [rewrite E; apply elem_of_app; right; by left|done|done].
Qed.

Lemma free_each_spec indices : forall st d, replay_inv st d -> NoDup indices ->
  Forall (fun i => (exists h, cb_handle st h i) /\ idle st i) indices ->
  ensures (let* r := unset_each (index_to_VkCommandBuffer st) indices in Ok (with_cb_remap st r, d)) (fun '(st', d') => replay_inv st' d').
Proof.
  induction indices as [|i indices IH]; intros st d Hinv Hnd Hall; cbn [unset_each].
  - cbn. destruct Hinv as [[] [] ?]. by split; [split|split|].
  - apply Forall_cons in Hall as [[[h Hi] Hidle] Hall]. apply NoDup_cons in Hnd as [Hin Hnd].
    destruct (free_one_spec st d i h Hinv Hi Hidle) as (r & -> & Hinv1 & Hkeep). cbn [obind].
    apply (IH (with_cb_remap st r) d); [done|done|]. rewrite Forall_forall in *. intros j Hj. destruct (Hall j Hj) as [[g Hg] Hidj].
    split; [|done]. exists g. apply Hkeep; [|done]. intros ->. done.
Qed.

Lemma allocate_commandbuffer_spec st d device index handle c : replay_inv st d -> handle <> 0 -> remapping (index_to_VkCommandBuffer st) !! Z.to_nat index = Some 0 ->
  (forall s, s ∈ in_flight d -> handle ∉ s_buffers s) -> cb st index c -> unnoted c ->
  ensures (let* c := vector_get (VkCommandBuffer_index st) index in
    let* r := remap_set index handle (index_to_VkCommandBuffer st) in
    Ok (with_cb_remap (set_commandbuffer index (with_device c device) st) r, d)) (fun '(st', d') => replay_inv st' d').
Proof.
  intros [[S1 S2 S3 S4] [L1 L2 L3] Ht] Hh E Hfl Hc [Hp Hk]. rewrite (cb_get _ _ _ Hc). cbn [obind].
  destruct (remap_set_spec _ _ _ S1 (proj1 Hc) Hh E) as (r & -> & Hlen & _ & Hnames & Hindex). cbn.
  set (st1 := set_commandbuffer index (with_device c device) st).
  assert (C1 : forall j c', cb (with_cb_remap st1 r) j c' <-> (j = index /\ c' = with_device c device) \/ (j <> index /\ cb st j c')).
  { intros j c'. change (cb st1 j c' <-> (j = index /\ c' = with_device c device) \/ (j <> index /\ cb st j c')). by apply (cb_set _ _ c). }
  split.
  - pose proof (same_remaps_set index (with_device c device) st) as (E1 & E2 & E3 & E4). split; cbn; [unfold remap_ok in *; by rewrite Hlen|done| |done].
    rewrite Hlen, <- S3. apply E3.
  - split.
    + intros j c' Hc' Hpj. apply C1 in Hc' as [[-> ->]|[Hj Hc']]; [cbn in Hpj; congruence|]. destruct (L1 j c' Hc' Hpj) as [g Hg]. exists g. by apply Hnames.
    + intros j c' Hc' Hkj. apply C1 in Hc' as [[-> ->]|[Hj Hc']]; [cbn in Hkj; congruence|]. by apply (L2 j).
    + intros k g f j Hn Hf Hin. destruct (L3 k g f j Hn Hf Hin) as (c' & Hc' & Hpj & Hkj). exists c'. split; [|done]. apply C1. right. split; [|done].
      intros ->. rewrite (cb_fun _ _ _ _ Hc' Hc) in Hpj. congruence.
  - intros a s b g Es Hg. destruct (Ht a s b g Es Hg) as (j & c' & H1 & H2 & H3). exists j, c'.
    assert (j <> index) by (intros ->; destruct H1 as [(_ & El & ?) _]; congruence).
    split; [|split; [apply C1; by right|done]]. apply Hindex; [|done|done]. intros ->. apply (Hfl s); [|done]. rewrite Es. apply elem_of_app. right. by left.
Qed.

Lemma fence_remap_spec st d r : replay_inv st d -> length (remapping r) = length (remapping (index_to_VkFence st)) ->
  (forall k h f, names r k h -> fence st k f -> replay_pending_commandbuffers f <> [] -> fence_named st k h) ->
  (forall k s, s ∈ in_flight d -> fence_named st k (s_fence s) -> names r k (s_fence s)) -> replay_inv (with_fence_remap st r) d.
Proof.
  intros [[S1 S2 S3 S4] [L1 L2 L3] Ht] Hlen Hn Hn'. split.
  - split; cbn; [done|unfold remap_ok in *; by rewrite Hlen|done|congruence].
  - split; [done|done|]. intros k h f i Hk Hf Hin. apply (L3 k h f i); [|done|done]. apply (Hn k h f); [done|done|].
    intros E. rewrite E in Hin. by apply not_elem_of_nil in Hin.
  - intros a s b h E Hh. destruct (Ht a s b h E Hh) as (i & c & H1 & H2 & H3 & H4 & H5 & H6 & H7). exists i, c. do 6 (split; [done|]).
    destruct H7 as [?|(f & t & F1 & F2 & F3 & <-)]; [by left|right]. exists (s_fence t), t. split; [|done]. apply Hn'; [|done].
    rewrite E. apply elem_of_app. by right.
Qed.
End Waits.
