(* ===== verification/SubmissionsSafety.v ===== *)
(** * No command buffer is touched while the device uses it (src/hardcode_read.cpp)

    The replay as a transition system over the calls it makes and over what the device
    finishes meanwhile. In every state that it reaches from a fresh one by valid calls,
    the command buffers of submissions in flight are noted; in front of a call that
    records, resets, frees or submits command buffers the replay has waited for those
    that a submission names; and the handlers fail only when a call of the driver fails.
    What the notes do not cover is shown by examples at the end. *)

From Stdlib Require Import ZArith Lia Bool.
From stdpp Require Import base numbers list gmap relations.
From S2P Require Import Prelude FileWriter FileReader Packets Containers Submissions SubmissionsInv SubmissionsReplay.

#[local] Open Scope Z_scope.

Section System.
Context {D : Type} `{Driver D}.
Context (index_to_VkQueue index_to_VkCommandPool : replay_remap).
Context (queue_devices : list Z) (device_fault_report_requested : bool).

(** What Vulkan asks of a call, with handles of objects that there are. A buffer of
    simultaneous use is only submitted to the queue that already has it; the other
    buffers may still be in use, since the capture does not tell. *)
Definition legal (st : replay_state) (d : D) (call : replay_call) : Prop :=
  match call with
  | QueueSubmit queue submits f =>
      queue <> 0 /\
      (exists queue_index, remap_index index_to_VkQueue queue = Ok queue_index /\ is_Some (queue_devices !! Z.to_nat queue_index)) /\
      (f = 0 \/ known_fence st f) /\
      Forall (fun h => exists i c, cb_handle st h i /\ cb st i c /\ c_device c = queue_device queue /\
        (simultaneous c = true -> forall s, s ∈ in_flight d -> h ∈ s_buffers s -> s_queue s = queue)) (concat submits)
  | BeginCommandBuffer h _ | ResetCommandBuffer h | CmdExecuteCommands h _ => known_cb st h
  | ResetCommandPool pool => is_ok (remap_index index_to_VkCommandPool pool) = true
  | QueueWaitIdle _ | DeviceWaitIdle _ => True
  | GetFenceStatus f => known_fence st f
  | ResetFences fences => Forall (known_fence st) fences /\ Forall (fun f => Forall (fun s => s_fence s <> f) (in_flight d)) fences
  | WaitForFences fences _ _ => Forall (known_fence st) fences
  | AllocateCommandBuffer _ index handle =>
      handle <> 0 /\ remapping (index_to_VkCommandBuffer st) !! Z.to_nat index = Some 0 /\
      (forall s, s ∈ in_flight d -> handle ∉ s_buffers s) /\ exists c, cb st index c /\ unnoted c
  | FreeCommandBuffers indices => NoDup indices /\ Forall (fun i => exists h, cb_handle st h i) indices
  | CreateFence index handle =>
      handle <> 0 /\ remapping (index_to_VkFence st) !! Z.to_nat index = Some 0 /\
      exists f, fence st index f /\ replay_pending_commandbuffers f = []
  | DestroyFence index => exists h, fence_named st index h /\ Forall (fun s => s_fence s <> h) (in_flight d)
  end.

(** the command buffers that a call must not find in use *)
Definition touched (st : replay_state) (call : replay_call) (i : Z) : Prop :=
  match call with
  | QueueSubmit _ submits _ => exists h c, h ∈ concat submits /\ cb_handle st h i /\ cb st i c /\ simultaneous c = false
  | BeginCommandBuffer h _ | ResetCommandBuffer h => cb_handle st h i
  | ResetCommandPool pool =>
      1 <= i /\ exists p c h, remap_index index_to_VkCommandPool pool = Ok p /\ p <> CONTAINER_INVALID_INDEX /\
        cb st i c /\ pool_index c = p /\ names (index_to_VkCommandBuffer st) i h
  | FreeCommandBuffers indices => i ∈ indices
  | _ => False
  end.

(** a replay that has not called anything yet *)
Record fresh (st : replay_state) (d : D) : Prop := {
  fr_sized : sized st;
  fr_cb : forall i c, cb st i c -> unnoted c;
  fr_fence : forall k f, fence st k f -> replay_pending_commandbuffers f = [];
  fr_flight : in_flight d = []
}.

Inductive reachable : replay_state -> D -> Prop :=
  | reachable_fresh st d : fresh st d -> reachable st d
  | reachable_call current call st d st' d' : reachable st d -> legal st d call ->
      run_call index_to_VkQueue index_to_VkCommandPool queue_devices device_fault_report_requested current call st d = Ok (st', d') ->
      reachable st' d'
  | reachable_time st d d' : reachable st d -> advance (in_flight d) (in_flight d') -> reachable st d'.

(** ** One call *)

(** the replay has waited: what holds in front of the call holds still *)
Lemma legal_settled st d st' d' call : (match call with AllocateCommandBuffer _ _ _ | CreateFence _ _ | DestroyFence _ => False | _ => True end) ->
  settles st d st' d' -> legal st d call -> legal st' d' call.
Proof.
  intros Hcall Hse. pose proof Hse as [Ha [(E1 & E2 & _) Hcb _ _]]. unfold legal, known_cb, known_fence, cb_handle, fence_handle in *.
  destruct call; try done; rewrite ?E1, ?E2; try done.
  - intros (Hq & Hqi & Hf & Hall). do 3 (split; [done|]). eapply Forall_impl; [done|]. intros h (i & c & Hi & Hc & Hdev & Hsim).
    destruct (Hcb i c Hc) as (c' & Hc' & (B1 & _ & B3) & _). exists i, c'. split; [done|]. split; [done|]. split; [congruence|].
    unfold simultaneous in *. rewrite B3. intros Hs s Hin. apply Hsim; [done|]. by eapply advance_elem.
  - intros [Hk Hall]. split; [done|]. eapply Forall_impl; [done|]. intros f. rewrite !Forall_forall. intros Hs s Hin. apply Hs. by eapply advance_elem.
Qed.

Lemma touched_settled st d st' d' call i : settles st d st' d' -> touched st' call i -> touched st call i.
Proof.
  intros Hse. pose proof Hse as [_ [(E1 & _) _ _ _]]. unfold touched, cb_handle. destruct call; rewrite ?E1; try done.
  - intros (h & c' & Hh & Hi & Hc' & Hs). destruct (settles_back _ _ _ _ _ _ Hse Hc') as (c & Hc & (_ & _ & B3) & _).
    exists h, c. unfold simultaneous in *. by rewrite <- B3.
  - intros (H1 & p & c' & h & Hp & Hpi & Hc' & Hpool & Hn). destruct (settles_back _ _ _ _ _ _ Hse Hc') as (c & Hc & (_ & B2 & _) & _).
    split; [done|]. exists p, c, h. by rewrite <- B2.
Qed.

Lemma handles_of_spec st indices : sized st -> Forall (fun i => exists h, cb_handle st h i) indices ->
  exists hs, handles_of (index_to_VkCommandBuffer st) indices = Ok hs /\ Forall2 (cb_handle st) hs indices.
Proof.
  intros Hs. induction 1 as [|i indices [h Hi] _ (hs & E & IH)]; [by exists []|]. exists (h :: hs). cbn [handles_of].
  rewrite (names_at _ _ _ (sz_cb _ Hs) (proj1 Hi)), E. split; [done|]. by constructor.
Qed.

Lemma begin_spec h i flags st d : replay_inv st d -> cb_handle st h i ->
  ensures (replay_pre_vkBeginCommandBuffer h flags st d) (fun '(st', d') => replay_inv st' d' /\ idle st' i /\ cb_handle st' h i).
Proof.
  intros Hinv Hi. unfold replay_pre_vkBeginCommandBuffer. rewrite (index_of_remap _ _ _ Hi). cbn [obind].
  rewrite (handle_valid _ _ _ (ri_sized _ _ Hinv) Hi). destruct (cb_of_handle _ _ _ (ri_sized _ _ Hinv) Hi) as [c Hc].
  eapply ensures_bind; [by eapply cleanup_spec|]. intros [st1 d1] (Hse & c1 & Hc1 & Hp). rewrite (cb_get _ _ _ Hc1). cbn.
  pose proof (settles_inv _ _ _ _ Hinv Hse) as [Hs Hl Ht]. set (c2 := with_begin_flags c1 _). set (st2 := set_commandbuffer i c2 st1).
  assert (C2 : forall j c', cb st2 j c' -> exists c, cb st1 j c /\ c_device c' = c_device c /\ same_note c c').
  { intros j c' Hc'. apply (cb_set _ _ _ _ _ _ Hc1) in Hc' as [[-> ->]|[_ Hc']]; [by exists c1|exists c'; split; [done|]; split; [done|apply same_note_refl]]. }
  assert (C2' : forall j c, cb st1 j c -> exists c', cb st2 j c' /\ c_device c' = c_device c /\ same_note c c').
  { intros j c0 Hc0. destruct (decide (j = i)) as [->|Hj].
    - exists c2. rewrite (cb_fun _ _ _ _ Hc0 Hc1). split; [apply (cb_set _ _ _ _ _ _ Hc1); by left|done].
    - exists c0. split; [apply (cb_set _ _ _ _ _ _ Hc1); by right|]. split; [done|apply same_note_refl]. }
  split; [split|split].
  - eapply same_remaps_sized; [apply same_remaps_set|done].
  - apply (lists_agree_drop (fun _ => False) st1); [apply same_remaps_set|done|..].
    + intros j c' Hc'. right. split; [intros []|]. destruct (C2 j c' Hc') as (c0 & ? & _ & ?). by exists c0.
    + intros j c0 Hc0 _. destruct (C2' j c0 Hc0) as (c' & ? & _ & ?). by exists c'.
    + intros k f j Hk Hin _. by exists f.
    + intros k g f j _ Hk Hin. split; [intros []|]. by exists f.
  - intros a s b g E Hg. destruct (Ht a s b g E Hg) as (j & c0 & H1 & H2 & H3 & H4 & H5 & H6 & H7).
    destruct (C2' j c0 H2) as (c' & Hc' & B & (N1 & N2 & N3)). exists j, c'. rewrite B, N1, N2, N3. done.
  - intros c' Hc'. apply (cb_set _ _ _ _ _ _ Hc1) in Hc' as [[_ ->]|[Hne _]]; [done|done].
  - by apply (settles_handle _ _ _ _ _ _ Hse).
Qed.

(** what a call finds behind [before_call] *)
Definition ready (st : replay_state) (call : replay_call) (st' : replay_state) (d' : D) : Prop :=
  replay_inv st' d' /\ legal st' d' call /\ (forall i, touched st call i -> idle st' i) /\ (forall i, touched st' call i -> idle st' i).

Lemma ready_settled st d st' d' call : (match call with AllocateCommandBuffer _ _ _ | CreateFence _ _ | DestroyFence _ => False | _ => True end) ->
  replay_inv st d -> legal st d call -> settles st d st' d' -> (forall i, touched st call i -> idle st' i) -> ready st call st' d'.
Proof.
  intros Hcall Hinv Hlegal Hse Ht. split; [by eapply settles_inv|]. split; [by eapply legal_settled|]. split; [done|].
  intros i Hi. apply Ht. by eapply touched_settled.
Qed.

Lemma ready_untouched st d call : replay_inv st d -> legal st d call -> (forall i, ~ touched st call i) -> ready st call st d.
Proof. intros Hinv Hlegal Hno. split; [done|]. split; [done|]. split; intros i Hi; by destruct (Hno i). Qed.

Lemma before_spec st d call : replay_inv st d -> legal st d call ->
  ensures (before_call index_to_VkQueue index_to_VkCommandPool queue_devices call st d) (fun '(st', d') => ready st call st' d').
Proof.
  intros Hinv Hlegal. destruct call; cbn [before_call]; try (apply ready_untouched; [done|done|intros ? []]).
  - pose proof Hlegal as (_ & (qi & Eqi & [dev Hdev]) & _ & Hall). unfold replay_pre_vkQueueSubmit. rewrite Eqi. cbn [obind].
    unfold vector_get. rewrite Hdev. cbn [obind]. eapply ensures_mono.
    { apply wait_each_spec; [done|]. eapply Forall_impl; [done|]. intros h (i & c & Hi & _). by exists i. }
    intros [st' d'] [Hse Hsub]. eapply ready_settled; [done|done|done|done|]. intros i (h & c & Hh & Hi & Hc & Hs) c' Hc'.
    rewrite Forall_forall in Hsub. destruct (Hsub h Hh i Hi c' Hc') as [?|Hs']; [done|].
    destruct (settles_back _ _ _ _ _ _ Hse Hc') as (c0 & Hc0 & (_ & _ & B3) & _). rewrite (cb_fun _ _ _ _ Hc0 Hc) in B3.
    unfold simultaneous in *. rewrite B3 in Hs'. congruence.
  - destruct Hlegal as [i Hi]. eapply ensures_mono; [by eapply begin_spec|]. intros [st' d'] (Hinv' & Hidle & Hi'). split; [done|].
    split; [by exists i|]. split; intros j Hj; cbn [touched] in Hj; (assert (j = i) as -> by (by eapply index_of_unique)); done.
  - pose proof Hlegal as [i Hi]. eapply ensures_mono; [by eapply reset_spec|]. intros [st' d'] (Hse & Hidle).
    eapply ready_settled; [done|done|done|done|]. intros j Hj. cbn [touched] in Hj. by rewrite (index_of_unique _ _ _ _ Hj Hi).
  - cbn [legal] in Hlegal. unfold replay_pre_vkResetCommandPool. destruct (remap_index index_to_VkCommandPool commandPool) as [p|] eqn:Ep; [|done].
    cbn [obind]. destruct (Z.eqb_spec p CONTAINER_INVALID_INDEX) as [Einv|_].
    { cbn. eapply (ready_settled _ d); [done|done|by cbn; rewrite Ep|by apply settles_refl|].
      intros i (_ & p' & c & h & Ep' & Hne & _). congruence. }
    eapply ensures_mono; [apply cleanup_pool_spec; [done|apply commandbuffer_indices_ok]|]. intros [st' d'] [Hse Hall].
    eapply ready_settled; [done|done|by cbn; rewrite Ep|done|]. intros i (H1 & p' & c & h & Ep' & _ & Hc & Hpool & Hn).
    assert (p' = p) as -> by congruence. rewrite Forall_forall in Hall. pose proof Hc as [_ Hl]. apply lookup_lt_Some in Hl.
    rewrite <- (Z2Nat.id i) in Hc, Hn |- * by lia. eapply (Hall (Z.to_nat i)); [|done|done|done].
    unfold commandbuffer_indices. apply elem_of_seq. lia.
  - destruct Hlegal as [i Hi]. unfold replay_pre_vkCmdExecuteCommands. destruct pCommandBuffers as [handles|].
    2: { cbn. apply ready_untouched; [done|by exists i|intros ? []]. }
    assert (Ei : remap_index_or_invalid (index_to_VkCommandBuffer st) commandBuffer = i).
    { destruct Hi as [(_ & _ & Hz) E]. unfold remap_index_or_invalid. by rewrite (proj2 (Z.eqb_neq _ _) Hz), E. }
    rewrite Ei. destruct (_ || _).
    { cbn. apply ready_untouched; [done|by exists i|intros ? []]. }
    eapply ensures_bind; [eapply add_secondaries_spec; [done|by eapply cb_of_handle; [apply Hinv|]]|]. intros st' Hse.
    cbn. eapply ready_settled; [done|done|by exists i|done|]. intros j [].
  - pose proof Hlegal as [Hnd Hall]. destruct (handles_of_spec st indices) as (hs & -> & Hhs); [apply Hinv|done|]. cbn [obind].
    eapply ensures_mono.
    { apply free_spec; [done|]. clear - Hhs. induction Hhs as [|h i hs indices Hi _ IH]; constructor; [by exists i|done]. }
    intros [st' d'] [Hse Hidle]. eapply ready_settled; [done|done|done|done|]. intros i Hi. cbn [touched] in Hi.
    apply list_elem_of_lookup_1 in Hi as [n Hn]. destruct (Forall2_lookup_r _ _ _ _ _ Hhs Hn) as (h & Hh & Hhi).
    by eapply (proj1 (Forall_lookup _ _) Hidle).
Qed.

Lemma fences_not_flying (st : replay_state) (d d' : D) fences : advance (in_flight d) (in_flight d') ->
  Forall (fun f => Forall (fun s => s_fence s <> f) (in_flight d)) fences ->
  Forall (fun f => Forall (fun s => s_fence s = 0 \/ s_fence s <> f) (in_flight d')) fences.
Proof.
  intros Ha Hall. eapply Forall_impl; [done|]. intros f. rewrite !Forall_forall. intros Hs s Hin. right. apply Hs. by eapply advance_elem.
Qed.

Lemma known_noted st f : f = 0 \/ known_fence st f -> exists k, noted_fence st f k.
Proof.
  intros Hf. unfold noted_fence. destruct (Z.eqb_spec f 0); [by eexists|]. destruct Hf as [?|[k Hk]]; [done|]. by exists k.
Qed.

Lemma clear_after_idle which st d : replay_inv st d ->
  (forall c, which c = true ->
    Forall (fun s => s_queue s <> replay_submit_queue c) (in_flight d) \/
    Forall (fun s => queue_device (s_queue s) <> c_device c) (in_flight d)) ->
  ensures (let* st := clear_where which (commandbuffer_indices st) st in Ok (st, d)) (fun '(st', d') => replay_inv st' d').
Proof.
  intros Hinv Hwhy. eapply ensures_bind; [apply (clear_where_spec _ _ _ d); [done|apply commandbuffer_indices_ok|]|intros st' Hse; by eapply settles_inv].
  intros st1 i c Hinv1 Hc Eq. eapply tracked_unused; [apply Hinv1|done| |apply Hinv1].
  right. right. right. by apply Hwhy.
Qed.

Lemma make_spec current st d call : Forall (Z.le 0) queue_devices -> replay_inv st d -> legal st d call -> (forall i, touched st call i -> idle st i) ->
  ensures (make_call index_to_VkQueue queue_devices device_fault_report_requested current call st d) (fun '(st', d') => replay_inv st' d').
Proof.
  intros Hq Hinv Hlegal Hidle. pose proof (ri_sized _ _ Hinv) as Hs. destruct call; try exact Hinv.
  - destruct Hlegal as (Hq0 & Hqi & Hf & Hall). destruct (known_noted _ _ Hf) as [k Hk]. eapply submit_spec; try done.
    eapply (Forall_impl (fun h => h ∈ concat submits /\ _)); [apply Forall_and; split; [apply Forall_forall; by intros ?|exact Hall]|].
    intros h (Hh & i & c & Hi & Hc & Hdev & Hsim). split; [by exists i, c|]. intros s Hin Hb. destruct (simultaneous c) eqn:Es; [by apply Hsim|].
    destruct (idle_unused st d i c Hinv Hc) with s h; [|done|done|done]. apply (Hidle i); [|done]. by exists h, c.
  - cbn [make_call]. pose proof (queue_idle_law queue d) as [Ha Hw]. destruct (wrap_vkQueueWaitIdle queue d) as [res d']. cbn [fst snd] in *.
    assert (Hinv' : replay_inv st d') by (eapply settles_inv; [done|by apply settles_advance]).
    unfold replay_callback_vkQueueWaitIdle. destruct (Z.eqb_spec res VK_OK) as [E|_]; cbn [negb]; [|done]. apply clear_after_idle; [done|].
    intros c Eq. apply Z.eqb_eq in Eq. left. rewrite Eq. by apply Hw.
  - cbn [make_call]. pose proof (device_idle_law device d) as [Ha Hw]. destruct (wrap_vkDeviceWaitIdle device d) as [res d']. cbn [fst snd] in *.
    assert (Hinv' : replay_inv st d') by (eapply settles_inv; [done|by apply settles_advance]).
    unfold replay_callback_vkDeviceWaitIdle. destruct (Z.eqb_spec res VK_OK) as [E|_]; cbn [negb]; [|done]. apply clear_after_idle; [done|].
    intros c Eq. apply Z.eqb_eq in Eq. right. rewrite Eq. by apply Hw.
  - cbn [make_call]. destruct Hlegal as [k Hf]. pose proof (status_law fence d) as [Ha Hw]. destruct (wrap_vkGetFenceStatus fence d) as [res d']. cbn [fst snd] in *.
    assert (Hinv' : replay_inv st d') by (eapply settles_inv; [done|by apply settles_advance]).
    unfold replay_callback_vkGetFenceStatus. destruct (Z.eqb_spec res VK_OK) as [E|_]; cbn [negb]; [|done].
    rewrite (index_of_remap _ _ _ Hf). cbn [obind].
    destruct (settles_fence st d' k fence Hinv') as (st' & -> & Hse & _); [apply Hf|by apply Hw|]. cbn. by eapply settles_inv.
  - cbn [make_call]. destruct Hlegal as [Hk Hall]. pose proof (reset_law fences d) as Ha. destruct (wrap_vkResetFences fences d) as [res d']. cbn [fst snd] in *.
    assert (Hinv' : replay_inv st d') by (eapply settles_inv; [done|by apply settles_advance]).
    unfold replay_callback_vkResetFences. destruct (res =? VK_OK); cbn [negb]; [|done].
    eapply ensures_bind; [apply (clear_fences_spec _ _ d'); [done|done|by eapply fences_not_flying]|intros st' Hse; by eapply settles_inv].
  - cbn [make_call]. pose proof (wait_law fences waitAll timeout d) as [Ha Hw]. destruct (wrap_vkWaitForFences fences waitAll timeout d) as [res d']. cbn [fst snd] in *.
    assert (Hinv' : replay_inv st d') by (eapply settles_inv; [done|by apply settles_advance]).
    unfold replay_callback_vkWaitForFences. destruct waitAll.
    + destruct (Z.eqb_spec res VK_OK) as [E|_]; [|done].
      eapply ensures_bind; [apply (clear_fences_spec _ _ d'); [done|done|]|intros st' Hse; by eapply settles_inv].
      specialize (Hw E eq_refl). rewrite Forall_forall in Hw. apply Forall_forall. intros f Hin. apply Forall_forall. intros s Hs'.
      destruct (Hw s Hs') as [?|Hne]; [by left|right]. intros Ef. apply Hne. by rewrite Ef.
    + eapply ensures_mono; [by apply ask_fences_spec|]. intros [st' d''] Hse. by eapply settles_inv.
  - destruct Hlegal as (Hh & E & Hfl & c & Hc & Hu). by eapply allocate_commandbuffer_spec.
  - destruct Hlegal as [Hnd Hall]. cbn [make_call]. apply free_each_spec; [done|done|]. rewrite Forall_forall in *. intros i Hi. split; [by apply Hall|by apply Hidle].
  - destruct Hlegal as (Hh & E & f & Hf & Hempty). cbn [make_call].
    destruct (remap_set_spec _ _ _ (sz_fence _ Hs) (proj1 Hf) Hh E) as (r & -> & Hlen & _ & Hnames & _). cbn. apply fence_remap_spec; [done|done|..].
    + intros k g f' Hn Hf' Hne. destruct (decide (k = index)) as [->|Hk]; [by rewrite (fence_fun _ _ _ _ Hf' Hf) in Hne|by apply Hnames].
    + intros k s Hin Hn. apply Hnames; [|done]. intros ->. destruct Hn as (_ & El & ?). congruence.
  - destruct Hlegal as (h & Hn & Hall). cbn [make_call].
    destruct (remap_unset_spec _ _ _ (sz_fence _ Hs) Hn) as (r & -> & Hlen & Hgone & Hnames & _). cbn. apply fence_remap_spec; [done|done|..].
    + intros k g f' Hng Hf' Hne. destruct (decide (k = index)) as [->|Hk]; [by destruct (Hgone g)|by apply Hnames].
    + intros k s Hin Hns. apply Hnames; [|done]. intros ->. rewrite Forall_forall in Hall. apply (Hall s Hin). by eapply names_unique.
Qed.

Lemma run_spec current st d call : Forall (Z.le 0) queue_devices -> replay_inv st d -> legal st d call ->
  ensures (run_call index_to_VkQueue index_to_VkCommandPool queue_devices device_fault_report_requested current call st d) (fun '(st', d') => replay_inv st' d').
Proof.
  intros Hq Hinv Hlegal. eapply ensures_bind; [by apply before_spec|]. intros [st1 d1] (Hinv1 & Hlegal1 & _ & Hidle). by apply make_spec.
Qed.

Lemma reachable_inv st d : Forall (Z.le 0) queue_devices -> reachable st d -> replay_inv st d.
Proof.
  intros Hq. induction 1 as [st d [Hs Hc Hf Hd]|current call st d st' d' _ IH Hlegal Hrun|st d d' _ IH Ha].
  - split; [done|split|].
    + intros i c Hci Hp. destruct (Hc i c Hci). congruence.
    + intros i c Hci Hk. destruct (Hc i c Hci). congruence.
    + intros k h f i _ Hk Hin. rewrite (Hf k f Hk) in Hin. by apply not_elem_of_nil in Hin.
    + rewrite Hd. intros a s b h E. by destruct a.
  - pose proof (run_spec current st d call Hq IH Hlegal) as Hens. by rewrite Hrun in Hens.
  - eapply settles_inv; [done|by apply settles_advance].
Qed.

(** ** What the replay promises *)

(** C13: in front of a call that begins, resets, frees or submits command buffers, or
    resets their pool, the replay has waited until no submission that the device still
    works on names one of them. Apart are: those of simultaneous use that are submitted
    again, the one of index 0 in a pool that is reset ([first_commandbuffer_not_waited]),
    and the secondary ones that a submitted primary executes, which no submission names
    and nothing waits for ([secondary_not_waited]). A buffer of simultaneous use is
    taken to be with one queue at a time ([second_queue_replaces_first]). *)
Theorem touched_is_unused call st d : Forall (Z.le 0) queue_devices -> reachable st d -> legal st d call ->
  ensures (before_call index_to_VkQueue index_to_VkCommandPool queue_devices call st d) (fun '(st', d') =>
    forall i c, touched st call i -> cb st' i c -> unused st' i (in_flight d')).
Proof.
  intros Hq Hr Hlegal. eapply ensures_mono; [apply before_spec; [by apply reachable_inv|done]|].
  intros [st' d'] (Hinv & _ & Hidle & _) i c Hi Hc. eapply idle_unused; [done|done|]. by apply (Hidle i).
Qed.

(** C14: every command buffer that a submission names which the device still works on
    is noted: it is pending, with the queue of the submission and with a fence that the
    device signals only when it is done with the buffer; and the lists of the fences and
    the notes of the buffers agree. Secondary command buffers that a submitted primary
    executes are not noted ([secondary_not_waited]), and a buffer of simultaneous use is
    taken to be with one queue at a time, since it has one note
    ([second_queue_replaces_first]). *)
Theorem submissions_noted st d : Forall (Z.le 0) queue_devices -> reachable st d -> tracked st (in_flight d) /\ lists_agree st.
Proof. intros Hq Hr. destruct (reachable_inv st d Hq Hr). done. Qed.

(** A valid call in a reachable state stops the replay only by the abort for a wait
    that the driver fails; no handler looks up a handle or an index that it does not
    have. *)
Theorem replay_call_faults current call st d f : Forall (Z.le 0) queue_devices -> reachable st d -> legal st d call ->
  run_call index_to_VkQueue index_to_VkCommandPool queue_devices device_fault_report_requested current call st d = Fail f -> f = AbortCall.
Proof.
  intros Hq Hr Hlegal E. pose proof (run_spec current st d call Hq (reachable_inv st d Hq Hr) Hlegal) as Hens. by rewrite E in Hens.
Qed.
End System.

(** ** A device *)

Lemma advance_all l : advance l [].
Proof.
  induction l as [|s l IH]; [done|]. eapply rtc_l; [|done]. apply (finish_one [] s l). intros _. constructor.
Qed.

(** A device that works on nothing before it is waited for; [stuck] is whether a wait
    fails. *)
#[local, refine] Instance lazy_device (stuck : bool) : Driver (list submission) := {|
  in_flight d := d;
  queue_device _ := 1;
  wrap_vkQueueSubmit queue submits fence d := (VK_OK, d ++ [Submission queue fence (concat submits)]);
  wrap_vkWaitForFences _ _ _ d := if stuck then (-4, d) else (VK_OK, []);
  wrap_vkGetFenceStatus fence d := if forallb (fun s => negb (s_fence s =? fence)) d then (VK_OK, d) else (1, d);
  wrap_vkResetFences _ d := (VK_OK, d);
  wrap_vkQueueWaitIdle _ d := if stuck then (-4, d) else (VK_OK, []);
  wrap_vkDeviceWaitIdle _ d := if stuck then (-4, d) else (VK_OK, []);
  wrap_vkDestroyBuffer _ d := d;
  wrap_vkFreeMemory _ d := d
|}.
Proof.
  all: intros; try done; unfold res; try by (destruct stuck; (split; [apply advance_all || done|cbn; intros; done || constructor])).
  destruct (forallb _ d) eqn:E; cbn; (split; [done|]); [|done]. intros _. apply Forall_forall. intros s Hs.
  rewrite forallb_forall in E. right. apply Z.eqb_neq, negb_true_iff, E. by apply list_elem_of_In.
Defined.

Definition demo_queues : replay_remap := ReplayRemap [5] {[ 5 := 0 ]}.
Definition demo_pools : replay_remap := ReplayRemap [7] {[ 7 := 0 ]}.
Definition demo_buffer : trackedcmdbuffer := TrackedCmdBuffer 0 0 [] 0 0 CONTAINER_INVALID_INDEX false [] None.
Definition demo_source : change_source := ChangeSource 0 0 0 0 0.

(** two command buffers and a fence, not created yet *)
Definition demo_start : replay_state :=
  ReplayState [demo_buffer; demo_buffer] [TrackedFence [] None] (ReplayRemap [0; 0] ∅) (ReplayRemap [0] ∅) [[]].

Definition demo_calls : list replay_call :=
  [AllocateCommandBuffer 1 1 11; CreateFence 0 21; BeginCommandBuffer 11 None; QueueSubmit 5 [[11]] 21].

Definition demo_step (stuck : bool) (call : replay_call) (p : replay_state * list submission) : replay_state * list submission :=
  match run_call (H := lazy_device stuck) demo_queues demo_pools [0] true demo_source call p.1 p.2 with Ok q => q | Fail _ => p end.

Definition demo_after (stuck : bool) (n : nat) : replay_state * list submission :=
  foldl (fun p call => demo_step stuck call p) (demo_start, []) (take n demo_calls).

Lemma demo_start_fresh stuck : fresh (H := lazy_device stuck) demo_start [].
Proof.
  split; [by split| | |done].
  - intros i c [_ Hc]. apply list_elem_of_lookup_2 in Hc. by repeat (apply elem_of_cons in Hc as [->|Hc]; [done|]); apply not_elem_of_nil in Hc.
  - intros k f [_ Hf]. apply list_elem_of_lookup_2 in Hf. by repeat (apply elem_of_cons in Hf as [->|Hf]; [done|]); apply not_elem_of_nil in Hf.
Qed.

Lemma demo_step_reachable stuck call p :
  reachable (H := lazy_device stuck) demo_queues demo_pools [0] true p.1 p.2 -> legal (H := lazy_device stuck) demo_queues demo_pools [0] p.1 p.2 call ->
  reachable (H := lazy_device stuck) demo_queues demo_pools [0] true (demo_step stuck call p).1 (demo_step stuck call p).2.
Proof.
  intros Hr Hl. unfold demo_step. destruct (run_call _ _ _ _ _ _ _ _) as [[st d]|] eqn:E; [|done]. by eapply reachable_call.
Qed.

(** what the closed states below are asked, as computations *)
Definition stands_for (r : replay_remap) (h i : Z) : bool :=
  (0 <=? i) && negb (h =? 0) && bool_decide (remapping r !! Z.to_nat i = Some h) && bool_decide (reverse r !! h = Some i).

Lemma stands_for_spec r h i : stands_for r h i = true -> index_of r h i.
Proof.
  unfold stands_for. rewrite !andb_true_iff, !bool_decide_eq_true, negb_true_iff, Z.leb_le, Z.eqb_neq. unfold index_of, names. tauto.
Qed.

Lemma demo_buffer_handle stuck : cb_handle (demo_after stuck 4).1 11 1.
Proof. apply stands_for_spec. destruct stuck; vm_compute; reflexivity. Qed.

Lemma demo_handle_begun stuck n : n = 2%nat \/ n = 3%nat -> cb_handle (demo_after stuck n).1 11 1.
Proof. intros [-> | ->]; apply stands_for_spec; destruct stuck; vm_compute; reflexivity. Qed.

Lemma demo_fence stuck : fence_handle (demo_after stuck 3).1 21 0.
Proof. apply stands_for_spec. destruct stuck; vm_compute; reflexivity. Qed.

Lemma demo_no_fence stuck : remapping (index_to_VkFence (demo_after stuck 1).1) !! Z.to_nat 0 = Some 0 /\
  VkFence_index (demo_after stuck 1).1 !! Z.to_nat 0 = Some (TrackedFence [] None).
Proof. destruct stuck; vm_compute; split; reflexivity. Qed.

Lemma demo_begun stuck : VkCommandBuffer_index (demo_after stuck 3).1 !! Z.to_nat 1 = Some (with_device demo_buffer 1).
Proof. destruct stuck; vm_compute; reflexivity. Qed.

Lemma demo_submit_reachable stuck : reachable (H := lazy_device stuck) demo_queues demo_pools [0] true (demo_after stuck 4).1 (demo_after stuck 4).2.
Proof.
  apply (demo_step_reachable stuck (QueueSubmit 5 [[11]] 21) (demo_after stuck 3)).
  1: apply (demo_step_reachable stuck (BeginCommandBuffer 11 None) (demo_after stuck 2)).
  1: apply (demo_step_reachable stuck (CreateFence 0 21) (demo_after stuck 1)).
  1: apply (demo_step_reachable stuck (AllocateCommandBuffer 1 1 11) (demo_start, [])).
  - apply reachable_fresh, demo_start_fresh.
  - split; [done|]. split; [done|]. split; [by intros s Hs; apply not_elem_of_nil in Hs|]. by exists demo_buffer.
  - destruct (demo_no_fence stuck). split; [done|]. split; [done|]. by exists (TrackedFence [] None).
  - exists 1. apply demo_handle_begun. by left.
  - split; [done|]. split; [exists 0; split; [done|by eexists]|]. split; [right; exists 0; apply demo_fence|].
    apply Forall_singleton. exists 1, (with_device demo_buffer 1). split; [apply demo_handle_begun; by right|].
    split; [split; [done|apply demo_begun]|]. done.
Qed.

Lemma touched_is_unused_witness : exists st d, in_flight (Driver := lazy_device false) d = [Submission 5 21 [11]] /\
  touched demo_pools st (BeginCommandBuffer 11 None) 1 /\
  ensures (before_call (H := lazy_device false) demo_queues demo_pools [0] (BeginCommandBuffer 11 None) st d) (fun '(st', d') =>
    forall i c, touched demo_pools st (BeginCommandBuffer 11 None) i -> cb st' i c -> unused st' i (in_flight (Driver := lazy_device false) d')).
Proof.
  exists (demo_after false 4).1, (demo_after false 4).2. split; [reflexivity|]. split; [apply demo_buffer_handle|].
  apply (touched_is_unused (H := lazy_device false) demo_queues demo_pools [0] true); [by constructor|apply demo_submit_reachable|exists 1; apply demo_buffer_handle].
Defined.

Lemma submissions_noted_witness : exists st d, in_flight (Driver := lazy_device false) d = [Submission 5 21 [11]] /\
  tracked (H := lazy_device false) st (in_flight (Driver := lazy_device false) d) /\ lists_agree st.
Proof.
  exists (demo_after false 4).1, (demo_after false 4).2. split; [reflexivity|].
  apply (submissions_noted (H := lazy_device false) demo_queues demo_pools [0] true); [by constructor|apply demo_submit_reachable].
Defined.

(** a wait that the driver fails *)
Lemma replay_call_faults_witness : exists st d f,
  run_call (H := lazy_device true) demo_queues demo_pools [0] true demo_source (BeginCommandBuffer 11 None) st d = Fail f /\ f = AbortCall.
Proof.
  exists (demo_after true 4).1, (demo_after true 4).2, AbortCall. split; [vm_compute; reflexivity|].
  apply (replay_call_faults (H := lazy_device true) demo_queues demo_pools [0] true demo_source (BeginCommandBuffer 11 None) (demo_after true 4).1 (demo_after true 4).2);
    [by constructor|apply demo_submit_reachable|exists 1; apply demo_buffer_handle|vm_compute; reflexivity].
Defined.

(** The loops over the buffers of a pool start behind the first: a reset of the pool
    finds the buffer of index 0 in use, while the buffer of index 1 is waited for. *)
Definition demo_submitted (index : Z) : replay_state * list submission :=
  foldl (fun p call => demo_step false call p) (demo_start, [])
    [AllocateCommandBuffer 1 index 11; BeginCommandBuffer 11 None; QueueSubmit 5 [[11]] 0].

Definition in_flight_at_reset (index : Z) : option (list submission) :=
  match before_call (H := lazy_device false) demo_queues demo_pools [0] (ResetCommandPool 7) (demo_submitted index).1 (demo_submitted index).2 with
  | Ok (_, d) => Some d
  | Fail _ => None
  end.

Example first_commandbuffer_not_waited : in_flight_at_reset 0 = Some [Submission 5 0 [11]] /\ in_flight_at_reset 1 = Some [].
Proof. vm_compute. split; reflexivity. Qed.

(** What a submitted primary executes is noted with the primary only: a reset of the
    secondary does not wait, a reset of the primary does. *)
Definition demo_executing : replay_state * list submission :=
  foldl (fun p call => demo_step false call p) (demo_start, [])
    [AllocateCommandBuffer 1 0 12; AllocateCommandBuffer 1 1 11; BeginCommandBuffer 12 None; BeginCommandBuffer 11 None;
     CmdExecuteCommands 11 (Some [12]); QueueSubmit 5 [[11]] 0].

Definition in_flight_at (call : replay_call) (p : replay_state * list submission) : option (list submission) :=
  match before_call (H := lazy_device false) demo_queues demo_pools [0] call p.1 p.2 with
  | Ok (_, d) => Some d
  | Fail _ => None
  end.

Example secondary_not_waited :
  map replay_secondary_commandbuffers (VkCommandBuffer_index demo_executing.1) = [[]; [0]] /\
  in_flight_at (ResetCommandBuffer 12) demo_executing = Some [Submission 5 0 [11]] /\
  in_flight_at (ResetCommandBuffer 11) demo_executing = Some [].
Proof. vm_compute. split; [reflexivity|]. split; reflexivity. Qed.

(** A buffer of simultaneous use that two queues have at once is noted with the second. *)
Definition two_queues : replay_remap := ReplayRemap [5; 6] {[ 5 := 0; 6 := 1 ]}.

Definition demo_twice : replay_state * list submission :=
  foldl (fun p call => match run_call (H := lazy_device false) two_queues demo_pools [0; 0] true demo_source call p.1 p.2 with Ok q => q | Fail _ => p end)
    (demo_start, [])
    [AllocateCommandBuffer 1 1 11; BeginCommandBuffer 11 (Some VK_COMMAND_BUFFER_USAGE_SIMULTANEOUS_USE_BIT); QueueSubmit 5 [[11]] 0; QueueSubmit 6 [[11]] 0].

Example second_queue_replaces_first :
  demo_twice.2 = [Submission 5 0 [11]; Submission 6 0 [11]] /\
  map (fun c => (replay_pending c, replay_submit_queue c)) (VkCommandBuffer_index demo_twice.1) = [(false, 0); (true, 6)].
Proof. vm_compute. split; reflexivity. Qed.
