(* ===== verification/InternalBuffers.v ===== *)
(** * Buffers that the replay makes for itself (src/hardcode_read.cpp)

    Scratch memory, staging copies and replaced storage need buffers that the trace
    does not have. [create_internal_buffer] makes one with memory of its own, or takes
    back what it made when a call of the driver fails. *)

From Stdlib Require Import ZArith Lia Bool.
From stdpp Require Import base numbers list gmap sets.
From S2P Require Import Prelude.

#[local] Open Scope Z_scope.

Definition VK_MEMORY_PROPERTY_DEVICE_LOCAL_BIT : Z := 1.
Definition VK_MEMORY_PROPERTY_HOST_CACHED_BIT : Z := 8.
Definition VK_MEMORY_PROPERTY_LAZILY_ALLOCATED_BIT : Z := 16.
Definition VK_BUFFER_USAGE_STORAGE_BUFFER_BIT : Z := 32.
Definition VK_BUFFER_USAGE_SHADER_DEVICE_ADDRESS_BIT : Z := 131072.

(** The calls of the driver. [live_buffers] and [live_memories] are the objects that
    the replay made and has not given back. *)
Class BufferDriver (D : Type) := {
  live_buffers : D -> gset Z;
  live_memories : D -> gset Z;
  wrap_vkCreateBuffer : Z -> Z -> D -> option Z * D;
  wrap_vkGetBufferMemoryRequirements : Z -> D -> Z * Z;    (** size and memoryTypeBits *)
  wrap_vkAllocateMemory : Z -> Z -> bool -> D -> option Z * D;
  wrap_vkBindBufferMemory : Z -> Z -> D -> bool * D;
  wrap_vkDestroyBuffer : Z -> D -> D;
  wrap_vkFreeMemory : Z -> D -> D;
  wrap_vkGetBufferDeviceAddress : Z -> D -> Z;             (** the first of three calls that there is; 0 without *)
  memory_type_flags : list Z;                              (** of the physical device *)
  create_buffer_law size usage d :
    match wrap_vkCreateBuffer size usage d with
    | (Some b, d') => b <> 0 /\ b ∉ live_buffers d /\ live_buffers d' = {[ b ]} ∪ live_buffers d /\ live_memories d' = live_memories d
    | (None, d') => live_buffers d' = live_buffers d /\ live_memories d' = live_memories d
    end;
  allocate_law size type address d :
    match wrap_vkAllocateMemory size type address d with
    | (Some m, d') => m <> 0 /\ m ∉ live_memories d /\ live_memories d' = {[ m ]} ∪ live_memories d /\ live_buffers d' = live_buffers d
    | (None, d') => live_buffers d' = live_buffers d /\ live_memories d' = live_memories d
    end;
  bind_law b m d : let d' := (wrap_vkBindBufferMemory b m d).2 in live_buffers d' = live_buffers d /\ live_memories d' = live_memories d;
  destroy_buffer_law b d : live_buffers (wrap_vkDestroyBuffer b d) = live_buffers d ∖ {[ b ]} /\ live_memories (wrap_vkDestroyBuffer b d) = live_memories d;
  free_memory_law m d : live_memories (wrap_vkFreeMemory m d) = live_memories d ∖ {[ m ]} /\ live_buffers (wrap_vkFreeMemory m d) = live_buffers d
}.

(** the fields of [internal_buffer] *)
Record created_buffer := CreatedBuffer {
  cr_buffer : Z;
  cr_memory : Z;
  cr_device_address : Z;
  cr_size : Z;
  cr_usage : Z;
  cr_memory_flags : Z
}.

Section Create.
Context {D : Type} `{BufferDriver D}.

Definition type_matches (type_filter properties i flags : Z) : bool :=
  negb (Z.land type_filter (wrap32 (Z.shiftl 1 i)) =? 0) && (Z.land flags properties =? properties).

Fixpoint first_type (type_filter properties i : Z) (types : list Z) : option Z :=
  match types with
  | [] => None
  | flags :: types => if type_matches type_filter properties i flags then Some i else first_type type_filter properties (i + 1) types
  end.

Definition choose_memory_type (type_filter properties : Z) : outcome Z :=
  match first_type type_filter properties 0 memory_type_flags with
  | Some i => Ok i
  | None =>
      let properties := Z.land properties (wrap32 (Z.lnot (Z.lor VK_MEMORY_PROPERTY_HOST_CACHED_BIT VK_MEMORY_PROPERTY_LAZILY_ALLOCATED_BIT))) in
      match first_type type_filter properties 0 memory_type_flags with
      | Some i => Ok i
      | None => Fail AbortCall
      end
  end.

Definition get_buffer_device_address (buffer : Z) (d : D) : Z :=
  if buffer =? 0 then 0 else wrap_vkGetBufferDeviceAddress buffer d.

Definition has_usage (usage bit : Z) : bool := negb (Z.land usage bit =? 0).

Definition create_internal_buffer (device size usage memory_flags : Z) (d : D) : outcome (option created_buffer * D) :=
  if (device =? 0) || (size =? 0) then Ok (None, d)
  else
    let '(buffer, d) := wrap_vkCreateBuffer size usage d in
    match buffer with
    | None => Ok (None, d)
    | Some buffer =>
        let '(req_size, req_bits) := wrap_vkGetBufferMemoryRequirements buffer d in
        let with_address := has_usage usage VK_BUFFER_USAGE_SHADER_DEVICE_ADDRESS_BIT in
        let* type := choose_memory_type req_bits (if negb (memory_flags =? 0) then memory_flags else VK_MEMORY_PROPERTY_DEVICE_LOCAL_BIT) in
        let '(memory, d) := wrap_vkAllocateMemory req_size type with_address d in
        match memory with
        | None => Ok (None, wrap_vkDestroyBuffer buffer d)
        | Some memory =>
            let '(bound, d) := wrap_vkBindBufferMemory buffer memory d in
            if negb bound then Ok (None, wrap_vkDestroyBuffer buffer (wrap_vkFreeMemory memory d))
            else
              let address := if with_address then get_buffer_device_address buffer d else 0 in
              Ok (Some (CreatedBuffer buffer memory address size usage memory_flags), d)
        end
    end.

Definition destroy_created_buffer (b : created_buffer) (d : D) : D :=
  let d := if negb (cr_buffer b =? 0) then wrap_vkDestroyBuffer (cr_buffer b) d else d in
  if negb (cr_memory b =? 0) then wrap_vkFreeMemory (cr_memory b) d else d.

Definition same_objects (d d' : D) : Prop := live_buffers d' = live_buffers d /\ live_memories d' = live_memories d.

(** one buffer and its memory more, or the same objects as before; what was made is
    given back by [destroy_internal_buffer] *)
Lemma create_internal_buffer_balanced device size usage memory_flags d r d' :
  create_internal_buffer device size usage memory_flags d = Ok (r, d') ->
  match r with
  | None => same_objects d d'
  | Some b => cr_size b = size /\ cr_usage b = usage /\ cr_buffer b <> 0 /\ cr_memory b <> 0 /\
      cr_buffer b ∉ live_buffers d /\ cr_memory b ∉ live_memories d /\
      live_buffers d' = {[ cr_buffer b ]} ∪ live_buffers d /\ live_memories d' = {[ cr_memory b ]} ∪ live_memories d /\
      same_objects d (destroy_created_buffer b d')
  end.
Proof.
  unfold create_internal_buffer, same_objects. destruct (_ || _); [by intros [= <- <-]|].
  pose proof (create_buffer_law size usage d) as Hc. destruct (wrap_vkCreateBuffer size usage d) as [[b|] d1]; [|by intros [= <- <-]].
  destruct Hc as (Hb0 & Hb & Hb1 & Hm1). destruct (wrap_vkGetBufferMemoryRequirements b d1) as [rs rb].
  destruct (choose_memory_type _ _) as [type|]; cbn [obind]; [|done].
  pose proof (allocate_law rs type (has_usage usage VK_BUFFER_USAGE_SHADER_DEVICE_ADDRESS_BIT) d1) as Ha.
  destruct (wrap_vkAllocateMemory _ _ _ _) as [[m|] d2].
  2: { intros [= <- <-]. destruct Ha as [Ha1 Ha2], (destroy_buffer_law b d2) as [E1 E2]. split; [|congruence]. rewrite E1, Ha1, Hb1. set_solver. }
  destruct Ha as (Hm0 & Hm & Hm2 & Hb2). pose proof (bind_law b m d2) as Hbind. destruct (wrap_vkBindBufferMemory b m d2) as [[|] d3]; cbn [snd negb] in *.
  - intros [= <- <-]. cbn [cr_size cr_usage cr_buffer cr_memory]. destruct Hbind as [B1 B2]. split; [done|]. split; [done|]. split; [done|]. split; [done|].
    split; [done|]. split; [by rewrite <- Hm1|]. split; [congruence|]. split; [congruence|].
    unfold destroy_created_buffer. cbn [cr_buffer cr_memory]. rewrite !(proj2 (Z.eqb_neq _ 0)) by done. cbn [negb].
    destruct (free_memory_law m (wrap_vkDestroyBuffer b d3)) as [F1 F2], (destroy_buffer_law b d3) as [E1 E2].
    rewrite F1, F2, E1, E2, B1, B2, Hb2, Hb1, Hm2, Hm1. split; [set_solver|]. assert (m ∉ live_memories d) by (by rewrite <- Hm1). set_solver.
  - intros [= <- <-]. destruct Hbind as [B1 B2]. destruct (free_memory_law m d3) as [F1 F2], (destroy_buffer_law b (wrap_vkFreeMemory m d3)) as [E1 E2].
    rewrite E1, E2, F1, F2, B1, B2, Hb2, Hb1, Hm2, Hm1. split; [set_solver|]. assert (m ∉ live_memories d) by (by rewrite <- Hm1). set_solver.
Qed.
End Create.
