(* ===== verification/AccelerationBuilds.v ===== *)
(** * Builds of acceleration structures on a replay (src/hardcode_read.cpp)

    A build needs scratch memory whose size only the device knows. When the scratch
    addresses of the trace still name room enough the replay keeps them, otherwise it
    creates one buffer and lays the scratch regions of all builds of the call out in
    it. The same handlers note which memory holds instances, whose references have to
    be translated when the command buffer is submitted. *)

From Stdlib Require Import ZArith Lia Bool.
From Stdlib.Strings Require Import Byte.
From stdpp Require Import base numbers list gmap.
From S2P Require Import Prelude Stream RangeTracking Patch Memory Heap FileWriter FileReader RandomAccess Packets Containers Markings Translate Updates HostMemory Checksums ChecksumReplay InternalBuffers.

#[local] Open Scope Z_scope.

#[export] Instance address_buffer_eq_dec : EqDecision address_buffer.
Proof. solve_decision. Defined.

(** ** What a call says *)

Record instances_data := InstancesData { arrayOfPointers : bool; id_deviceAddress : Z }.

(** a geometry of instances, or of another type *)
Definition geometry : Type := option instances_data.

(** [bi_geometries] has [geometryCount] entries; an entry is [None] when neither array
    has a geometry for it *)
Record build_info := BuildInfo {
  bi_geometries : list (option geometry);
  bi_update : bool;                 (** VK_BUILD_ACCELERATION_STRUCTURE_MODE_UPDATE_KHR *)
  bi_scratch : Z
}.

Record range_info := RangeInfo { primitiveCount : Z; primitiveOffset : Z }.

Record raytracing_instance_use := InstanceUse {
  iu_device_address : Z;
  iu_primitive_offset : Z;
  iu_primitive_count : Z
}.

(** ** Instances *)

Definition note_instances (instances : instances_data) (range : range_info) : list raytracing_instance_use :=
  if id_deviceAddress instances =? 0 then []
  else if primitiveCount range =? 0 then []
  else [InstanceUse (id_deviceAddress instances) (primitiveOffset range) (primitiveCount range)].

(** [record_instance_uses]; the range of a geometry is only looked at for instances *)
Fixpoint record_instance_uses (geometries : list (option geometry)) (ranges : list range_info) : outcome (list raytracing_instance_use) :=
  match geometries with
  | [] => Ok []
  | Some (Some instances) :: geometries =>
      let* _ := require (negb (arrayOfPointers instances)) AbortCall in
      let* noted :=
        if id_deviceAddress instances =? 0 then Ok []
        else match ranges with
        | [] => Fail OutOfRange
        | range :: _ => Ok (note_instances instances range)
        end in
      let* uses := record_instance_uses geometries (tail ranges) in
      Ok (noted ++ uses)
  | _ :: geometries => record_instance_uses geometries (tail ranges)
  end.

(** [has_instance_geometry] of the indirect call *)
Fixpoint has_instance_geometry (geometries : list (option geometry)) : outcome bool :=
  match geometries with
  | [] => Ok false
  | Some (Some instances) :: _ =>
      let* _ := require (negb (arrayOfPointers instances)) AbortCall in
      Ok true
  | _ :: geometries => has_instance_geometry geometries
  end.

(** ** Sizes *)

Definition align_device_size (value alignment : Z) : Z :=
  if alignment <=? 1 then value else Z.land (wrap64 (value + alignment - 1)) (wrap64 (Z.lnot (alignment - 1))).

Definition replay_get_as_scratch_alignment (minAccelerationStructureScratchOffsetAlignment : Z) : Z :=
  Z.max 1 minAccelerationStructureScratchOffsetAlignment.

Section Builds.
(** the driver's sizes for a build, given the numbers of primitives: for building and
    for updating *)
Variable build_sizes : build_info -> list Z -> Z * Z.
(** what a call does with an info that has geometries: the uses it notes and the
    numbers of primitives it asks with *)
Variable prepare : nat -> build_info -> outcome (list raytracing_instance_use * list Z).

Definition scratch_size_of (info : build_info) (counts : list Z) : Z :=
  let '(build, update) := build_sizes info counts in if bi_update info then update else build.

Definition add_scratch (alignment total size : Z) : Z :=
  if size =? 0 then total else wrap64 (align_device_size total alignment + size).

(** the loop over the infos: sizes, their sum and the uses *)
Fixpoint measure_scratch (alignment : Z) (i : nat) (infos : list build_info) (total : Z)
    : outcome (list Z * Z * list raytracing_instance_use) :=
  match infos with
  | [] => Ok ([], total, [])
  | info :: infos =>
      if Nat.eqb (length (bi_geometries info)) 0 then
        let* (res, uses) := measure_scratch alignment (S i) infos total in
        let '(sizes, total) := res in Ok (0 :: sizes, total, uses)
      else
        let* (noted, counts) := prepare i info in
        let size := scratch_size_of info counts in
        let* (res, uses) := measure_scratch alignment (S i) infos (add_scratch alignment total size) in
        let '(sizes, total) := res in Ok (size :: sizes, total, noted ++ uses)
  end.

(** the loop that places the regions in a new buffer *)
Fixpoint place_scratch (alignment device_address : Z) (infos : list build_info) (sizes : list Z) (offset : Z) : list build_info :=
  match infos, sizes with
  | info :: infos, size :: sizes =>
      if size =? 0 then info :: place_scratch alignment device_address infos sizes offset
      else
        let offset := align_device_size offset alignment in
        BuildInfo (bi_geometries info) (bi_update info) (wrap64 (device_address + offset)) ::
          place_scratch alignment device_address infos sizes (wrap64 (offset + size))
  | infos, _ => infos
  end.

(** ** Keeping the addresses *)

Variable buffers : list address_buffer.

Definition scratch_found (info : build_info) (size : Z) : bool :=
  (size =? 0) || (negb (bi_scratch info =? 0) && match find_buffer_by_replay_address buffers (bi_scratch info) size with Some _ => true | None => false end).

(** Two regions that the check takes for apart. The search returns the same buffer for
    equal results: of buffers with the same fields it always takes the first. *)
Definition scratch_pair_ok (x y : build_info * Z) : bool :=
  if (x.2 =? 0) || (y.2 =? 0) then true
  else match find_buffer_by_replay_address buffers (bi_scratch x.1) x.2, find_buffer_by_replay_address buffers (bi_scratch y.1) y.2 with
  | Some (first_buffer, first_offset), Some (second_buffer, second_offset) =>
      if negb (bool_decide (first_buffer = second_buffer)) then true
      else negb ((first_offset <? wrap64 (second_offset + y.2)) && (second_offset <? wrap64 (first_offset + x.2)))
  | _, _ => false
  end.

Fixpoint scratch_pairs_ok (l : list (build_info * Z)) : bool :=
  match l with
  | [] => true
  | x :: l => forallb (scratch_pair_ok x) l && scratch_pairs_ok l
  end.

Definition replay_can_preserve_as_scratch_addresses (infos : list build_info) (sizes : list Z) : bool :=
  forallb (fun x => scratch_found x.1 x.2) (zip infos sizes) &&
  (Nat.leb (length infos) 1 || scratch_pairs_ok (zip infos sizes)).

(** ** The call *)

Context {D : Type} `{BufferDriver D}.

(** what is left of a call: the infos for the driver, the uses it notes, and the buffer
    it created *)
Definition replay_pre_build (device min_alignment : Z) (infos : list build_info) (d : D)
    : outcome (list build_info * list raytracing_instance_use * option created_buffer * D) :=
  let alignment := replay_get_as_scratch_alignment min_alignment in
  let* (res, uses) := measure_scratch alignment 0 infos 0 in
  let '(sizes, total) := res in
  if replay_can_preserve_as_scratch_addresses infos sizes then Ok (infos, uses, None, d)
  else if total =? 0 then Ok (infos, uses, None, d)
  else
    let usage := Z.lor VK_BUFFER_USAGE_STORAGE_BUFFER_BIT VK_BUFFER_USAGE_SHADER_DEVICE_ADDRESS_BIT in
    let* (made, d) := create_internal_buffer device total usage VK_MEMORY_PROPERTY_DEVICE_LOCAL_BIT d in
    match made with
    | None => Fail AbortCall
    | Some b => Ok (place_scratch alignment (cr_device_address b) infos sizes 0, uses, Some b, d)
    end.
End Builds.

(** [replay_pre_vkCmdBuildAccelerationStructuresKHR] *)
Definition prepare_direct (ppBuildRangeInfos : list (list range_info)) (i : nat) (info : build_info)
    : outcome (list raytracing_instance_use * list Z) :=
  match ppBuildRangeInfos !! i with
  | None => Fail OutOfRange
  | Some ranges =>
      let* uses := record_instance_uses (bi_geometries info) ranges in
      let* _ := require (Nat.leb (length (bi_geometries info)) (length ranges)) OutOfRange in
      Ok (uses, map primitiveCount (take (length (bi_geometries info)) ranges))
  end.

Definition replay_pre_vkCmdBuildAccelerationStructuresKHR {D} `{BufferDriver D} build_sizes buffers device min_alignment infos ppBuildRangeInfos (d : D) :=
  replay_pre_build build_sizes (prepare_direct ppBuildRangeInfos) buffers device min_alignment infos d.

(** ** Ranges in memory *)

(** [VkAccelerationStructureBuildRangeInfoKHR]: primitiveCount, primitiveOffset and two
    more words *)
Definition range_info_size : Z := 16.

Definition read_range (mem : list byte) (pos : Z) : outcome range_info :=
  let* count := load mem pos 4 in
  let* offset := load mem (pos + 4) 4 in
  Ok (RangeInfo (le_decode count) (le_decode offset)).

Fixpoint read_ranges (mem : list byte) (pos stride : Z) (n : nat) : outcome (list range_info) :=
  match n with
  | O => Ok []
  | S n =>
      let* r := read_range mem pos in
      let* rs := read_ranges mem (pos + stride) stride n in
      Ok (r :: rs)
  end.

(** [memory_of b] is the mapped memory of a buffer, if it is mapped *)
Definition load_ranges (buffers : list address_buffer) (memory_of : address_buffer -> option (list byte))
    (address stride : Z) (geometryCount : nat) : outcome (option (list range_info)) :=
  if Nat.eqb geometryCount 0 || (address =? 0) then Ok None
  else
    let* _ := require (negb (stride <? range_info_size)) AbortCall in
    let size := wrap64 ((Z.of_nat geometryCount - 1) * stride + range_info_size) in
    match find_buffer_by_replay_address buffers address size with
    | None => Fail AbortCall
    | Some (b, buffer_offset) =>
        match memory_of b with
        | None => Ok None
        | Some mem => let* ranges := read_ranges mem buffer_offset stride geometryCount in Ok (Some ranges)
        end
    end.

(** the instances of an indirect build; there are no pointers to check any more *)
Fixpoint record_loaded_uses (geometries : list (option geometry)) (ranges : list range_info) : list raytracing_instance_use :=
  match geometries, ranges with
  | Some (Some instances) :: geometries, range :: ranges => note_instances instances range ++ record_loaded_uses geometries ranges
  | _ :: geometries, _ :: ranges => record_loaded_uses geometries ranges
  | _, _ => []
  end.

Definition prepare_indirect (buffers : list address_buffer) (memory_of : address_buffer -> option (list byte))
    (indirect : option (list (Z * Z))) (ppMaxPrimitiveCounts : list (list Z)) (i : nat) (info : build_info)
    : outcome (list raytracing_instance_use * list Z) :=
  let* need_ranges := has_instance_geometry (bi_geometries info) in
  let* uses :=
    if need_ranges then
      let* ranges :=
        match indirect with
        | None => Ok None
        | Some l => match l !! i with
                    | None => Fail OutOfRange
                    | Some (address, stride) => load_ranges buffers memory_of address stride (length (bi_geometries info))
                    end
        end in
      match ranges with
      | None => Fail AbortCall
      | Some ranges => Ok (record_loaded_uses (bi_geometries info) ranges)
      end
    else Ok [] in
  match ppMaxPrimitiveCounts !! i with
  | None => Fail OutOfRange
  | Some counts => Ok (uses, counts)
  end.

Definition replay_pre_vkCmdBuildAccelerationStructuresIndirectKHR {D} `{BufferDriver D} build_sizes buffers memory_of device min_alignment infos
    indirect ppMaxPrimitiveCounts (d : D) :=
  replay_pre_build build_sizes (prepare_indirect buffers memory_of indirect ppMaxPrimitiveCounts) buffers device min_alignment infos d.

(** ** Where the regions are *)

Lemma align_device_size_spec a t : is_pow2 a -> a <= 2 ^ 63 -> 0 <= t -> t + a <= 2 ^ 64 -> align_device_size t a = round_up a t.
Proof.
  intros Ha Hmax Ht Hroom. pose proof (is_pow2_pos a Ha). unfold align_device_size. destruct (Z.leb_spec a 1).
  - assert (a = 1) as -> by lia. unfold round_up. rewrite Z.div_1_r. lia.
  - rewrite wrap64_small by u_lia. replace (Z.lnot (a - 1)) with (- a) by (unfold Z.lnot; lia).
    rewrite land_wrap64_neg by (try done; u_lia). rewrite <- land_round_up by done. f_equal. lia.
Qed.

(** the end of the regions, without wrapping *)
Definition scratch_end (a : Z) (sizes : list Z) (t : Z) : Z :=
  foldl (fun t size => if size =? 0 then t else round_up a t + size) t sizes.

Lemma scratch_end_le a sizes : 0 < a -> Forall (Z.le 0) sizes -> forall t, t <= scratch_end a sizes t.
Proof.
  intros Ha. induction 1 as [|s sizes Hs _ IH]; intros t; cbn [scratch_end foldl]; [lia|]. fold (scratch_end a sizes).
  destruct (s =? 0); [apply IH|]. specialize (IH (round_up a t + s)). pose proof (round_up_spec a t Ha). unfold scratch_end in *. lia.
Qed.

Lemma measure_scratch_total build_sizes prepare a infos : is_pow2 a -> a <= 2 ^ 63 -> forall i t sizes total uses,
  measure_scratch build_sizes prepare a i infos t = Ok (sizes, total, uses) ->
  length sizes = length infos /\ (Forall (Z.le 0) sizes -> 0 <= t -> scratch_end a sizes t + a <= 2 ^ 64 -> total = scratch_end a sizes t).
Proof.
  intros Ha Hmax. pose proof (is_pow2_pos a Ha). induction infos as [|info infos IH]; intros i t sizes total uses E; cbn [measure_scratch] in E.
  - injection E as <- <- <-. done.
  - destruct (Nat.eqb _ 0).
    + outcome_inv. destruct v as [[sizes' total'] uses']. injection E as <- <- <-. destruct (IH _ _ _ _ _ E0) as [Hlen Ht].
      split; [cbn; by rewrite Hlen|]. intros Hs. apply Forall_cons in Hs as [_ Hs]. cbn [scratch_end foldl]. by apply Ht.
    + outcome_inv. destruct v as [noted counts]. outcome_inv. destruct v as [[sizes' total'] uses']. injection E as <- <- <-.
      destruct (IH _ _ _ _ _ E1) as [Hlen Ht]. split; [cbn; by rewrite Hlen|]. intros Hs. apply Forall_cons in Hs as [Hs0 Hs].
      cbn [scratch_end foldl]. unfold add_scratch in Ht. destruct (scratch_size_of _ _ _ =? 0); [by apply Ht|]. intros Ht0 Hroom.
      set (s := scratch_size_of build_sizes info counts) in *. pose proof (scratch_end_le a sizes' ltac:(done) Hs (round_up a t + s)) as Hle.
      pose proof (round_up_spec a t ltac:(done)). unfold scratch_end in Hle, Hroom.
      rewrite align_device_size_spec, wrap64_small in Ht by (done || u_lia). by apply Ht; [|lia|].
Qed.

(** the regions in a new buffer follow each other *)
Lemma place_scratch_spec a base : is_pow2 a -> a <= 2 ^ 63 -> forall infos sizes t, length sizes = length infos -> Forall (Z.le 0) sizes -> 0 <= base ->
  0 <= t -> scratch_end a sizes t + a <= 2 ^ 64 -> base + scratch_end a sizes t <= 2 ^ 64 ->
  forall i x s, place_scratch a base infos sizes t !! i = Some x -> sizes !! i = Some s -> s <> 0 ->
  exists o, bi_scratch x = base + o /\ (a | o) /\ t <= o /\ o + s <= scratch_end a sizes t /\
    forall j y u, (i < j)%nat -> place_scratch a base infos sizes t !! j = Some y -> sizes !! j = Some u -> u <> 0 -> bi_scratch x + s <= bi_scratch y.
Proof.
  intros Ha Hmax. pose proof (is_pow2_pos a Ha). induction infos as [|info infos IH]; intros [|s0 sizes] t Hlen Hs Hb Ht Hroom Hend; try done.
  apply Forall_cons in Hs as [Hs0 Hs]. cbn [length] in Hlen. injection Hlen as Hlen. cbn [place_scratch scratch_end foldl] in *.
  destruct (Z.eqb_spec s0 0) as [->|Hne].
  - intros [|i] x s Hx Hsx Hsn; cbn in Hx, Hsx; [congruence|]. destruct (IH sizes t Hlen Hs Hb Ht Hroom Hend i x s Hx Hsx Hsn) as (o & O1 & O2 & O3 & O4 & O5).
    exists o. do 4 (split; [done|]). intros [|j] y u Hj Hy Hu Hun; [lia|]. cbn in Hy, Hu. eapply (O5 j); try done. lia.
  - pose proof (round_up_spec a t ltac:(done)) as [Hr Hdiv]. pose proof (scratch_end_le a sizes ltac:(done) Hs (round_up a t + s0)) as Hle.
    unfold scratch_end in Hle. rewrite align_device_size_spec by (done || lia). rewrite (wrap64_small (round_up a t + s0)) by u_lia.
    rewrite (wrap64_small (base + round_up a t)) by u_lia.
    specialize (IH sizes (round_up a t + s0) Hlen Hs Hb ltac:(lia) Hroom Hend).
    intros [|i] x s Hx Hsx Hsn; cbn in Hx, Hsx.
    + injection Hx as <-. injection Hsx as <-. exists (round_up a t). cbn [bi_scratch]. do 2 (split; [done|]). split; [lia|]. split; [done|].
      intros [|j] y u Hj Hy Hu Hun; [lia|]. cbn in Hy, Hu. destruct (IH j y u Hy Hu Hun) as (o & -> & _ & O3 & _). lia.
    + destruct (IH i x s Hx Hsx Hsn) as (o & O1 & O2 & O3 & O4 & O5). exists o. split; [done|]. split; [done|]. split; [lia|]. split; [done|].
      intros [|j] y u Hj Hy Hu Hun; [lia|]. cbn in Hy, Hu. eapply (O5 j); try done. lia.
Qed.

Lemma scratch_end_member a sizes s : 0 < a -> Forall (Z.le 0) sizes -> s ∈ sizes -> forall t, 0 <= t -> s <= scratch_end a sizes t.
Proof.
  intros Ha. induction 1 as [|s0 sizes Hs0 Hs IH]; intros Hin t Ht; [by apply not_elem_of_nil in Hin|].
  pose proof (round_up_spec a t Ha). cbn [scratch_end foldl]. apply elem_of_cons in Hin as [->|Hin].
  - destruct (Z.eqb_spec s0 0) as [->|_]; [pose proof (scratch_end_le a sizes Ha Hs t)|pose proof (scratch_end_le a sizes Ha Hs (round_up a t + s0))];
      unfold scratch_end in *; lia.
  - destruct (s0 =? 0); apply IH; try done; lia.
Qed.

Lemma scratch_pairs_lookup buffers l : scratch_pairs_ok buffers l = true ->
  forall i j x y, (i < j)%nat -> l !! i = Some x -> l !! j = Some y -> scratch_pair_ok buffers x y = true.
Proof.
  induction l as [|z l IH]; cbn [scratch_pairs_ok]; intros Hok i j x y Hij Hx Hy; [done|]. apply andb_true_iff in Hok as [H1 H2].
  destruct i as [|i], j as [|j]; try lia; cbn in Hx, Hy.
  - injection Hx as ->. rewrite List.forallb_forall in H1. apply H1, list_elem_of_In. by eapply list_elem_of_lookup_2.
  - eapply (IH H2 i j); try done. lia.
Qed.

Definition apart (x : build_info) (s : Z) (y : build_info) (u : Z) : Prop := bi_scratch x + s <= bi_scratch y \/ bi_scratch y + u <= bi_scratch x.

(** the address range of a region that was found does not wrap *)
Definition no_wrap (x : build_info) (s : Z) : Prop := 0 <= bi_scratch x /\ 0 <= s /\ bi_scratch x + s <= 2 ^ 64 - 1.

Lemma found_inside buffers x s b off : Forall (fun b => 0 <= ab_device_address b) buffers -> no_wrap x s ->
  find_buffer_by_replay_address buffers (bi_scratch x) s = Some (b, off) ->
  b ∈ buffers /\ ab_state b = state_bound /\ off = bi_scratch x - ab_device_address b /\ 0 <= off /\ off + s <= ab_size b.
Proof.
  intros Hbs (H1 & H2 & H3) E. pose proof (find_replay_fold (bi_scratch x) s buffers None) as Hf. unfold find_buffer_by_replay_address in E. rewrite E in Hf.
  destruct Hf as [?|(Hin & Hh & ->)]; [done|]. rewrite Forall_forall in Hbs. specialize (Hbs b Hin).
  unfold holds_replay_range in Hh. apply andb_true_iff in Hh as [Hh Hw]. apply andb_true_iff in Hh as [Hh Hle]. apply andb_true_iff in Hh as [Hst _].
  apply bool_decide_eq_true in Hst. bool_to_prop. rewrite wrap64_small in Hw by u_lia. do 3 (split; [done|]). lia.
Qed.

Lemma pair_apart buffers x s y u b off : Forall (fun b => 0 <= ab_device_address b) buffers -> no_wrap x s -> no_wrap y u -> s <> 0 -> u <> 0 ->
  find_buffer_by_replay_address buffers (bi_scratch x) s = Some (b, off) -> scratch_pair_ok buffers (x, s) (y, u) = true ->
  (exists b' off', find_buffer_by_replay_address buffers (bi_scratch y) u = Some (b', off') /\ b' <> b) \/ apart x s y u.
Proof.
  intros Hbs Hx Hy Hs Hu Ex Hok. unfold scratch_pair_ok in Hok. cbn [fst snd] in Hok. rewrite !(proj2 (Z.eqb_neq _ _)) in Hok by done. cbn [orb] in Hok.
  rewrite Ex in Hok. destruct (find_buffer_by_replay_address buffers (bi_scratch y) u) as [[b' off']|] eqn:Ey; [|done].
  destruct (bool_decide_reflect (b = b')) as [<-|Hne]; [|left; by exists b', off']. cbn [negb] in Hok. right.
  destruct (found_inside _ _ _ _ _ Hbs Hx Ex) as (_ & _ & -> & ? & ?). destruct (found_inside _ _ _ _ _ Hbs Hy Ey) as (_ & _ & -> & ? & ?).
  destruct Hx as (? & ? & ?), Hy as (? & ? & ?). pose proof (proj1 (Forall_forall _ _) Hbs) as Hbs'.
  assert (0 <= ab_device_address b) by (apply Hbs'; pose proof (find_replay_fold (bi_scratch x) s buffers None) as Hf;
    unfold find_buffer_by_replay_address in Ex; rewrite Ex in Hf; destruct Hf as [?|(? & _)]; done).
  rewrite !wrap64_small in Hok by u_lia. unfold apart. bool_to_prop. lia.
Qed.

(** when the addresses of the trace are kept *)
Lemma preserved_regions buffers infos sizes : length sizes = length infos -> Forall (fun b => 0 <= ab_device_address b) buffers ->
  (forall i x s, infos !! i = Some x -> sizes !! i = Some s -> no_wrap x s) ->
  replay_can_preserve_as_scratch_addresses buffers infos sizes = true ->
  forall i x s, infos !! i = Some x -> sizes !! i = Some s -> s <> 0 ->
  exists b off, find_buffer_by_replay_address buffers (bi_scratch x) s = Some (b, off) /\
    b ∈ buffers /\ ab_state b = state_bound /\ ab_device_address b <= bi_scratch x /\ bi_scratch x + s <= ab_device_address b + ab_size b /\
    forall j y u, j <> i -> infos !! j = Some y -> sizes !! j = Some u -> u <> 0 ->
      (exists b' off', find_buffer_by_replay_address buffers (bi_scratch y) u = Some (b', off') /\ b' <> b) \/ apart x s y u.
Proof.
  intros Hlen Hbs Hnw Hok i x s Hx Hsx Hsn. unfold replay_can_preserve_as_scratch_addresses in Hok. apply andb_true_iff in Hok as [Hf Hp].
  assert (Hzip : forall i x s, infos !! i = Some x -> sizes !! i = Some s -> zip infos sizes !! i = Some (x, s)).
  { intros j y u Hy Hu. apply lookup_zip_with_Some. eauto. }
  assert (Hfound : forall i x s, infos !! i = Some x -> sizes !! i = Some s -> s <> 0 ->
    exists b off, find_buffer_by_replay_address buffers (bi_scratch x) s = Some (b, off)).
  { intros j y u Hy Hu Hun. rewrite List.forallb_forall in Hf. specialize (Hf (y, u)). unfold scratch_found in Hf. cbn [fst snd] in Hf.
    rewrite (proj2 (Z.eqb_neq u 0)) in Hf by done. cbn [orb] in Hf.
    destruct (find_buffer_by_replay_address buffers (bi_scratch y) u) as [[b off]|]; [eauto|].
    rewrite andb_false_r in Hf. discriminate Hf. apply list_elem_of_In. eapply list_elem_of_lookup_2. by apply Hzip. }
  destruct (Hfound i x s Hx Hsx Hsn) as (b & off & Ex). exists b, off. split; [done|].
  destruct (found_inside _ _ _ _ _ Hbs (Hnw i x s Hx Hsx) Ex) as (B1 & B2 & B3 & B4 & B5). split; [done|]. split; [done|]. split; [lia|]. split; [lia|].
  intros j y u Hj Hy Hu Hun. apply orb_true_iff in Hp as [Hp|Hp].
  { apply Nat.leb_le in Hp. apply lookup_lt_Some in Hx, Hy. lia. }
  destruct (decide (i < j)%nat) as [Hij|Hij].
  - eapply (pair_apart buffers x s y u b off); try done; [by eapply Hnw..|]. by eapply (scratch_pairs_lookup buffers _ Hp i j); [|apply Hzip|apply Hzip].
  - destruct (Hfound j y u Hy Hu Hun) as (b' & off' & Ey). destruct (decide (b' = b)) as [->|Hne]; [right|left; by exists b', off'].
    destruct (pair_apart buffers y u x s b off') as [(b'' & off'' & E & Hne)|Ha]; try done; [by eapply Hnw..| | |].
    + eapply (scratch_pairs_lookup buffers _ Hp j i); [lia|by apply Hzip|by apply Hzip].
    + congruence.
    + unfold apart in *. lia.
Qed.

(** C30: the scratch memory of the builds of a call is apart. When the replay creates a
    buffer, every region that a build needs is aligned in it, inside of it and apart
    from the regions of the other builds; when it keeps the addresses of the trace,
    every region lies in a bound buffer, and regions of one buffer are apart. *)
Theorem scratch_regions_apart {D} `{BufferDriver D} build_sizes prepare buffers device min infos sizes total uses infos' uses' made (d d' : D) :
  let a := replay_get_as_scratch_alignment min in
  is_pow2 a -> a <= 2 ^ 63 -> measure_scratch build_sizes prepare a 0 infos 0 = Ok (sizes, total, uses) ->
  Forall (Z.le 0) sizes -> scratch_end a sizes 0 + a <= 2 ^ 64 ->
  (forall b, made = Some b -> 0 <= cr_device_address b /\ cr_device_address b + cr_size b <= 2 ^ 64) ->
  Forall (fun b => 0 <= ab_device_address b) buffers ->
  (forall i x s, infos !! i = Some x -> sizes !! i = Some s -> no_wrap x s) ->
  replay_pre_build build_sizes prepare buffers device min infos d = Ok (infos', uses', made, d') ->
  forall i x s, infos' !! i = Some x -> sizes !! i = Some s -> s <> 0 ->
  match made with
  | Some b => exists o, bi_scratch x = cr_device_address b + o /\ (a | o) /\ 0 <= o /\ o + s <= cr_size b /\
      forall j y u, j <> i -> infos' !! j = Some y -> sizes !! j = Some u -> u <> 0 -> apart x s y u
  | None => infos' = infos /\ exists b off, find_buffer_by_replay_address buffers (bi_scratch x) s = Some (b, off) /\
      b ∈ buffers /\ ab_state b = state_bound /\ ab_device_address b <= bi_scratch x /\ bi_scratch x + s <= ab_device_address b + ab_size b /\
      forall j y u, j <> i -> infos' !! j = Some y -> sizes !! j = Some u -> u <> 0 ->
        (exists b' off', find_buffer_by_replay_address buffers (bi_scratch y) u = Some (b', off') /\ b' <> b) \/ apart x s y u
  end.
Proof.
  intros a Ha Hmax Em Hs Hroom Hcreate Hbs Hnw E i x s Hx Hsx Hsn. pose proof (is_pow2_pos a Ha).
  destruct (measure_scratch_total _ _ _ _ Ha Hmax _ _ _ _ _ Em) as [Hlen Htot]. specialize (Htot Hs ltac:(done) Hroom).
  unfold replay_pre_build in E. fold a in E. rewrite Em in E. cbn [obind] in E.
  destruct (replay_can_preserve_as_scratch_addresses buffers infos sizes) eqn:Ep.
  - injection E as <- <- <- <-. split; [done|]. by apply (preserved_regions buffers infos sizes).
  - assert (Hpos : total <> 0).
    { pose proof (scratch_end_member a sizes s ltac:(done) Hs ltac:(by eapply list_elem_of_lookup_2) 0 ltac:(done)).
      pose proof (proj1 (Forall_lookup _ _) Hs _ _ Hsx). cbn in *. lia. }
    rewrite (proj2 (Z.eqb_neq total 0)) in E by done. outcome_inv. destruct v as [[b|] d1]; [|done]. injection E as <- <- <- <-.
    pose proof (create_internal_buffer_balanced _ _ _ _ _ _ _ E0) as (Hsize & _). destruct (Hcreate b eq_refl) as [Hb0 Hb]. rewrite Hsize, Htot in Hb |- *.
    pose proof (place_scratch_spec a (cr_device_address b) Ha Hmax infos sizes 0 Hlen Hs Hb0 ltac:(done) Hroom Hb) as Hplace.
    destruct (Hplace i x s Hx Hsx Hsn) as (o & O1 & O2 & O3 & O4 & O5). exists o. do 4 (split; [done|]).
    intros j y u Hj Hy Hu Hun. destruct (decide (i < j)%nat) as [Hij|Hij]; [left; by eapply O5|right].
    destruct (Hplace j y u Hy Hu Hun) as (o' & _ & _ & _ & _ & O5'). apply (O5' i x s); try done. lia.
Qed.

(** ** Two builds *)

(** a driver that numbers its objects and places buffers at multiples of 65536 *)
Record counting_device := CountingDevice { cd_next : Z; cd_buffers : gset Z; cd_memories : gset Z }.

#[local, refine] Instance counting_driver : BufferDriver counting_device := {|
  live_buffers := cd_buffers;
  live_memories := cd_memories;
  wrap_vkCreateBuffer _ _ d :=
    if bool_decide (cd_next d = 0 \/ cd_next d ∈ cd_buffers d) then (None, d)
    else (Some (cd_next d), CountingDevice (cd_next d + 1) ({[ cd_next d ]} ∪ cd_buffers d) (cd_memories d));
  wrap_vkGetBufferMemoryRequirements _ _ := (4096, 3);
  wrap_vkAllocateMemory _ _ _ d :=
    if bool_decide (cd_next d = 0 \/ cd_next d ∈ cd_memories d) then (None, d)
    else (Some (cd_next d), CountingDevice (cd_next d + 1) (cd_buffers d) ({[ cd_next d ]} ∪ cd_memories d));
  wrap_vkBindBufferMemory _ _ d := (true, d);
  wrap_vkDestroyBuffer b d := CountingDevice (cd_next d) (cd_buffers d ∖ {[ b ]}) (cd_memories d);
  wrap_vkFreeMemory m d := CountingDevice (cd_next d) (cd_buffers d) (cd_memories d ∖ {[ m ]});
  wrap_vkGetBufferDeviceAddress b _ := 65536 * b;
  memory_type_flags := [2; 1]
|}.
Proof.
  all: intros; try done; case_bool_decide as E; cbn; try done; (split; [tauto|split; [tauto|done]]).
Defined.

Definition demo_infos : list build_info :=
  [BuildInfo [Some (Some (InstancesData false 4096))] false 8192; BuildInfo [] false 0; BuildInfo [Some None] true 8200].
Definition demo_ranges : list (list range_info) := [[RangeInfo 2 128]; []; [RangeInfo 7 0]].
Definition demo_build_sizes (info : build_info) (counts : list Z) : Z * Z := (100 * foldr Z.add 0 counts, 30).
Definition demo_device : counting_device := CountingDevice 5 ∅ ∅.
Definition demo_room : list address_buffer := [AddressBuffer state_bound 4096 0 65536 false].

Definition demo_built : list build_info :=
  [BuildInfo [Some (Some (InstancesData false 4096))] false 327680; BuildInfo [] false 0; BuildInfo [Some None] true 327936].

(** the regions of the trace, at 8192 and 8200, are too near to each other on this
    device, which needs 200 bytes and 30 *)
Definition demo_build := replay_pre_vkCmdBuildAccelerationStructuresKHR demo_build_sizes demo_room 9 256 demo_infos demo_ranges demo_device.

Lemma demo_build_ok : exists d',
  replay_pre_build demo_build_sizes (prepare_direct demo_ranges) demo_room 9 256 demo_infos demo_device
    = Ok (demo_built, [InstanceUse 4096 128 2], Some (CreatedBuffer 5 6 327680 286 131104 1), d').
Proof. eexists. vm_compute. reflexivity. Qed.

Lemma scratch_regions_apart_witness : exists d',
  replay_pre_build demo_build_sizes (prepare_direct demo_ranges) demo_room 9 256 demo_infos demo_device
    = Ok (demo_built, [InstanceUse 4096 128 2], Some (CreatedBuffer 5 6 327680 286 131104 1), d') /\
  exists o, 327936 = 327680 + o /\ (256 | o) /\ 0 <= o /\ o + 30 <= 286 /\
    forall j y u, j <> 2%nat -> demo_built !! j = Some y -> [200; 0; 30] !! j = Some u -> u <> 0 -> apart (BuildInfo [Some None] true 327936) 30 y u.
Proof.
  destruct demo_build_ok as [d' E]. exists d'. split; [exact E|].
  apply (scratch_regions_apart demo_build_sizes (prepare_direct demo_ranges) demo_room 9 256 demo_infos [200; 0; 30] 286 [InstanceUse 4096 128 2]
    demo_built [InstanceUse 4096 128 2] (Some (CreatedBuffer 5 6 327680 286 131104 1)) demo_device d') with (i := 2%nat) (x := BuildInfo [Some None] true 327936) (s := 30).
  - by apply is_pow2b_spec.
  - done.
  - vm_compute. reflexivity.
  - repeat (constructor; [lia|]). constructor.
  - done.
  - intros b [= <-]. done.
  - by repeat constructor.
  - intros i x s Hx Hs. destruct i as [|[|[|i]]]; try done; injection Hx as <-; injection Hs as <-; unfold no_wrap; cbn [bi_scratch]; lia.
  - exact E.
  - reflexivity.
  - reflexivity.
  - done.
Defined.

(** addresses that are apart are kept *)
Example demo_kept : exists uses,
  replay_pre_build (fun _ _ => (8, 8)) (prepare_direct demo_ranges) demo_room 9 256 demo_infos demo_device = Ok (demo_infos, uses, None, demo_device).
Proof. eexists. vm_compute. reflexivity. Qed.
