(* ===== verification/ShaderTables.v ===== *)
(** * Ray-tracing data that a replay corrects (src/hardcode_read.cpp)

    Shader binding tables hold the handles of shader groups, and instances refer to
    acceleration structures by address; both are different on the replay's device. The
    replay keeps the handles that the capture saw and those of its own device, notes
    which tables and instances a command buffer uses, and rewrites them in memory
    before the command buffer is submitted. *)

From Stdlib Require Import ZArith Lia Bool.
From Stdlib.Strings Require Import Byte.
From stdpp Require Import base numbers list gmap.
From S2P Require Import Prelude Stream RangeTracking Patch Memory Heap FileWriter FileReader RandomAccess Packets Containers Markings Translate Updates HostMemory Checksums ChecksumReplay AccelerationBuilds.

#[local] Open Scope Z_scope.

Definition VK_PIPELINE_BIND_POINT_RAY_TRACING_KHR : Z := 1000165000.

(** ** The handles of a pipeline *)

Definition resized (n : Z) (l : list byte) : list byte := l ++ repeat x00 (Z.to_nat n - length l).

(** [data] has [groupCount] handles *)
Definition store_raytracing_handles (p : pipeline_handles) (firstGroup groupCount handle_size : Z) (data : list byte) (capture_replay : bool)
    : outcome pipeline_handles :=
  if (groupCount =? 0) || (handle_size =? 0) then Ok p
  else
    let* _ := require ((raytracing_group_handle_size p =? 0) || (raytracing_group_handle_size p =? handle_size)) AbortCall in
    let required_groups := Z.max (raytracing_group_count p) (wrap32 (firstGroup + groupCount)) in
    let handles := resized (wrap64 (required_groups * handle_size)) (raytracing_group_handles p) in
    let* bytes := load data 0 (Z.to_nat (groupCount * handle_size)) in
    let* handles := store_bytes handles (firstGroup * handle_size) bytes in
    Ok (PipelineHandles required_groups handle_size handles (raytracing_group_handle_size_replay p) (raytracing_group_handles_replay p)
          (raytracing_group_handles_capture_replay p || capture_replay)).

Definition store_raytracing_handles_replay (p : pipeline_handles) (firstGroup groupCount handle_size : Z) (data : list byte)
    : outcome pipeline_handles :=
  if (groupCount =? 0) || (handle_size =? 0) then Ok p
  else
    let* _ := require ((raytracing_group_handle_size_replay p =? 0) || (raytracing_group_handle_size_replay p =? handle_size)) AbortCall in
    let required_groups := Z.max (raytracing_group_count p) (wrap32 (firstGroup + groupCount)) in
    let handles := resized (wrap64 (required_groups * handle_size)) (raytracing_group_handles_replay p) in
    let* bytes := load data 0 (Z.to_nat (groupCount * handle_size)) in
    let* handles := store_bytes handles (firstGroup * handle_size) bytes in
    Ok (PipelineHandles (raytracing_group_count p) (raytracing_group_handle_size p) (raytracing_group_handles p) handle_size handles
          (raytracing_group_handles_capture_replay p)).

(** [device_handle_size] is 0 where the device cannot be asked; [device_handles] is the
    driver's answer for the groups *)
Definition replay_track_vkGetRayTracingShaderGroupHandlesKHR (device_handle_size : Z) (device_handles : Z -> Z -> option (list byte))
    (p : pipeline_handles) (firstGroup groupCount dataSize : Z) (pData : option (list byte)) : outcome pipeline_handles :=
  match pData with
  | None => Ok p
  | Some data =>
      if (groupCount =? 0) || (dataSize =? 0) then Ok p
      else if negb (dataSize mod groupCount =? 0) then Ok p
      else
        let* p := store_raytracing_handles p firstGroup groupCount (wrap32 (dataSize / groupCount)) data false in
        if device_handle_size =? 0 then Ok p
        else match device_handles firstGroup groupCount with
        | None => Ok p
        | Some replay_data => store_raytracing_handles_replay p firstGroup groupCount device_handle_size replay_data
        end
  end.

Definition replay_track_vkGetRayTracingCaptureReplayShaderGroupHandlesKHR (p : pipeline_handles) (firstGroup groupCount dataSize : Z)
    (pData : option (list byte)) : outcome pipeline_handles :=
  match pData with
  | None => Ok p
  | Some data =>
      if (groupCount =? 0) || (dataSize =? 0) then Ok p
      else if negb (dataSize mod groupCount =? 0) then Ok p
      else store_raytracing_handles p firstGroup groupCount (wrap32 (dataSize / groupCount)) data true
  end.

(** ** What a command buffer uses *)

(** [VkStridedDeviceAddressRegionKHR] *)
Record strided_region := StridedRegion { sr_deviceAddress : Z; sr_stride : Z; sr_size : Z }.

Definition no_region : strided_region := StridedRegion 0 0 0.

Record raytracing_sbt_use := SbtUse {
  su_pipeline_index : Z;
  su_raygen : strided_region;
  su_miss : strided_region;
  su_hit : strided_region;
  su_callable : strided_region
}.

Record raytracing_state := RaytracingState {
  bound_raytracing_pipeline_index : Z;
  raytracing_sbt_uses : list raytracing_sbt_use
}.

Definition replay_track_vkCmdBindPipeline (bind_point pipeline_index : Z) (c : raytracing_state) : raytracing_state :=
  if negb (bind_point =? VK_PIPELINE_BIND_POINT_RAY_TRACING_KHR) then c else RaytracingState pipeline_index (raytracing_sbt_uses c).

Definition replay_fixup_vkCmdTraceRaysKHR (raygen miss hit callable : option strided_region) (c : raytracing_state) : raytracing_state :=
  if bound_raytracing_pipeline_index c =? CONTAINER_INVALID_INDEX then c
  else RaytracingState (bound_raytracing_pipeline_index c)
    (raytracing_sbt_uses c ++ [SbtUse (bound_raytracing_pipeline_index c) (default no_region raygen) (default no_region miss)
                                 (default no_region hit) (default no_region callable)]).

(** ** The memory of the replay *)

(** a buffer with the place it has in device memory *)
Record replay_buffer := ReplayBuffer {
  pb_buffer : address_buffer;
  pb_mapped : bool;
  pb_host_visible : bool;
  pb_area : host_area
}.

(** the place of a buffer in the container; of equal ones it is the first, which is the
    one that a search returns *)
Definition buffer_position (b : address_buffer) (bufs : list replay_buffer) : option nat :=
  fst <$> list_find (fun y => y = b) (map pb_buffer bufs).

Definition with_area (x : replay_buffer) (bytes : list byte) : replay_buffer :=
  ReplayBuffer (pb_buffer x) (pb_mapped x) (pb_host_visible x) (HostArea bytes true).

(** ** Shader binding tables *)

(** the number of groups to compare with *)
Definition compared_groups (p : pipeline_handles) : nat :=
  let max_groups := Nat.div (length (raytracing_group_handles p)) (Z.to_nat (raytracing_group_handle_size p)) in
  if (raytracing_group_count p =? 0) || (raytracing_group_count p >? Z.of_nat max_groups) then max_groups
  else Z.to_nat (raytracing_group_count p).

Definition capture_handle (p : pipeline_handles) (g : nat) : list byte :=
  let hs := Z.to_nat (raytracing_group_handle_size p) in slice (g * hs) hs (raytracing_group_handles p).

Definition replay_handle (p : pipeline_handles) (g : nat) : list byte :=
  let hs := Z.to_nat (raytracing_group_handle_size_replay p) in slice (g * hs) hs (raytracing_group_handles_replay p).

(** the first group with these bytes as its handle *)
Definition group_of (p : pipeline_handles) (bytes : list byte) : option nat :=
  snd <$> list_find (fun g => capture_handle p g = bytes) (seq 0 (compared_groups p)).

Definition find_raytracing_group_index (p : pipeline_handles) (mem : list byte) (pos : Z) : outcome (option nat) :=
  if (raytracing_group_handle_size p =? 0) || Nat.eqb (length (raytracing_group_handles p)) 0 then Ok None
  else if Nat.eqb (compared_groups p) 0 then Ok None
  else
    let* bytes := load mem pos (Z.to_nat (raytracing_group_handle_size p)) in
    Ok (group_of p bytes).

(** the loop over the records of a region; whether a record changed, and the memory *)
Fixpoint fixup_records (p : pipeline_handles) (stride pos : Z) (n : nat) (mem : list byte) : outcome (bool * list byte) :=
  match n with
  | O => Ok (false, mem)
  | S n =>
      let* group := find_raytracing_group_index p mem pos in
      match group with
      | None => fixup_records p stride (pos + stride) n mem
      | Some g =>
          let hs := Z.to_nat (raytracing_group_handle_size_replay p) in
          let* _ := require (Nat.leb (g * hs + hs) (length (raytracing_group_handles_replay p))) AbortCall in
          let* mem := store_bytes mem pos (replay_handle p g) in
          let* (_, mem) := fixup_records p stride (pos + stride) n mem in
          Ok (true, mem)
      end
  end.

Definition fixup_sbt_region (p : pipeline_handles) (region : strided_region) (bufs : list replay_buffer) : outcome (bool * list replay_buffer) :=
  let capture_handle_size := raytracing_group_handle_size p in
  let replay_handle_size := raytracing_group_handle_size_replay p in
  if (sr_deviceAddress region =? 0) || (sr_size region =? 0) then Ok (false, bufs)
  else if (capture_handle_size =? 0) || (replay_handle_size =? 0) then Ok (false, bufs)
  else if sr_stride region =? 0 then Ok (false, bufs)
  else
    let* _ := require (negb (replay_handle_size >? sr_stride region)) AbortCall in
    let* _ := require (negb (replay_handle_size >? capture_handle_size)) AbortCall in
    let record_count := wrap32 (sr_size region / sr_stride region) in
    if record_count =? 0 then Ok (false, bufs)
    else match find_buffer_by_replay_address (map pb_buffer bufs) (sr_deviceAddress region) (sr_size region) with
    | None => Fail AbortCall
    | Some (b, buffer_offset) =>
        match buffer_position b bufs with
        | None => Fail AbortCall
        | Some k =>
            match bufs !! k with
            | None => Fail AbortCall
            | Some x =>
                if negb (pb_mapped x) && negb (pb_host_visible x) then Ok (false, <[k := with_area x (a_bytes (pb_area x))]> bufs)
                else
                  let* _ := require (pb_mapped x) AssertFailed in
                  let* (updated, mem) := fixup_records p (sr_stride region) buffer_offset (Z.to_nat record_count) (mem_map (pb_area x)) in
                  Ok (updated, <[k := with_area x mem]> bufs)
            end
        end
    end.

Definition fixup_sbt_use (pipelines : list pipeline_handles) (use : raytracing_sbt_use) (bufs : list replay_buffer) : outcome (list replay_buffer) :=
  if su_pipeline_index use =? CONTAINER_INVALID_INDEX then Ok bufs
  else match pipelines !! Z.to_nat (su_pipeline_index use) with
  | None => Fail OutOfRange
  | Some p =>
      if raytracing_group_handles_capture_replay p then Ok bufs
      else if (raytracing_group_handle_size p =? 0) || Nat.eqb (length (raytracing_group_handles p)) 0 ||
              (raytracing_group_handle_size_replay p =? 0) || Nat.eqb (length (raytracing_group_handles_replay p)) 0 then Ok bufs
      else
        let* (_, bufs) := fixup_sbt_region p (su_raygen use) bufs in
        let* (_, bufs) := fixup_sbt_region p (su_miss use) bufs in
        let* (_, bufs) := fixup_sbt_region p (su_hit use) bufs in
        let* (_, bufs) := fixup_sbt_region p (su_callable use) bufs in
        Ok bufs
  end.

Fixpoint fixup_sbt_uses (pipelines : list pipeline_handles) (uses : list raytracing_sbt_use) (bufs : list replay_buffer) : outcome (list replay_buffer) :=
  match uses with
  | [] => Ok bufs
  | use :: uses => let* bufs := fixup_sbt_use pipelines use bufs in fixup_sbt_uses pipelines uses bufs
  end.

Definition replay_fixup_commandbuffer_raytracing_sbt (trace_uses_trace_helpers : bool) (pipelines : list pipeline_handles) (c : raytracing_state)
    (bufs : list replay_buffer) : outcome (list replay_buffer) :=
  if trace_uses_trace_helpers then Ok bufs else fixup_sbt_uses pipelines (raytracing_sbt_uses c) bufs.

(** ** Instances *)

(** [VkAccelerationStructureInstanceKHR] ends with its reference *)
Definition instance_size : Z := 64.
Definition reference_offset : Z := 56.

Definition is_known_replay_as_address (structures : list (Z * Z)) (address : Z) : bool :=
  negb (address =? 0) && existsb (fun s => s.1 =? address) structures.

Section Instances.
(** [acceleration_structure_address_remapping.translate_address], and the addresses of
    the acceleration structures of the replay *)
Context (translate : Z -> Z) (structures : list (Z * Z)).

Fixpoint fixup_instances (pos : Z) (n : nat) (mem : list byte) : outcome (list byte) :=
  match n with
  | O => Ok mem
  | S n =>
      let* bytes := load mem (pos + reference_offset) 8 in
      let current := le_decode bytes in
      if current =? 0 then fixup_instances (pos + instance_size) n mem
      else
        let translated := translate current in
        if negb (translated =? 0) then
          let* mem := if negb (translated =? current) then store_bytes mem (pos + reference_offset) (le_encode 8 translated) else Ok mem in
          fixup_instances (pos + instance_size) n mem
        else
          let* _ := require (is_known_replay_as_address structures current) AbortCall in
          fixup_instances (pos + instance_size) n mem
  end.

Definition fixup_instance_use (use : raytracing_instance_use) (bufs : list replay_buffer) : outcome (list replay_buffer) :=
  if (iu_device_address use =? 0) || (iu_primitive_count use =? 0) then Ok bufs
  else
    let base_address := wrap64 (iu_device_address use + iu_primitive_offset use) in
    let total_size := iu_primitive_count use * instance_size in
    match find_buffer_by_replay_address (map pb_buffer bufs) base_address total_size with
    | None => Fail AbortCall
    | Some (b, buffer_offset) =>
        match buffer_position b bufs with
        | None => Fail AbortCall
        | Some k =>
            match bufs !! k with
            | None => Fail AbortCall
            | Some x =>
                let* _ := require (pb_mapped x || pb_host_visible x) StopRequested in
                let* _ := require (pb_mapped x) AssertFailed in
                let* mem := fixup_instances buffer_offset (Z.to_nat (iu_primitive_count use)) (mem_map (pb_area x)) in
                Ok (<[k := with_area x mem]> bufs)
            end
        end
    end.

Fixpoint fixup_instance_uses (uses : list raytracing_instance_use) (bufs : list replay_buffer) : outcome (list replay_buffer) :=
  match uses with
  | [] => Ok bufs
  | use :: uses => let* bufs := fixup_instance_use use bufs in fixup_instance_uses uses bufs
  end.

Definition replay_fixup_commandbuffer_raytracing_instances (trace_uses_trace_helpers : bool) (uses : list raytracing_instance_use)
    (bufs : list replay_buffer) : outcome (list replay_buffer) :=
  if trace_uses_trace_helpers then Ok bufs else fixup_instance_uses uses bufs.
End Instances.

(** ** What the records hold afterwards *)

Section Records.
Context (p : pipeline_handles).
Let chs := Z.to_nat (raytracing_group_handle_size p).
Let rhs := Z.to_nat (raytracing_group_handle_size_replay p).

(** every group that can be found has a handle on the replay *)
Definition replay_handles_there : Prop :=
  forall g, (g < compared_groups p)%nat -> (g * rhs + rhs <= length (raytracing_group_handles_replay p))%nat.

(** the records of [mem] with their handles replaced *)
Record records_fixed (st pos n : nat) (mem mem' : list byte) : Prop := {
  rf_length : length mem' = length mem;
  rf_record : forall i, (i < n)%nat -> slice (pos + i * st) rhs mem' =
    match group_of p (slice (pos + i * st) chs mem) with
    | Some g => replay_handle p g
    | None => slice (pos + i * st) rhs mem
    end;
  rf_outside : forall q, (forall i, (i < n)%nat -> ~ (pos + i * st <= q < pos + i * st + rhs)%nat) -> mem' !! q = mem !! q
}.

Lemma group_of_spec bytes g : group_of p bytes = Some g -> (g < compared_groups p)%nat /\ capture_handle p g = bytes.
Proof.
  unfold group_of. destruct (list_find _ _) as [[i g']|] eqn:E; [|done]. intros [= ->].
  apply list_find_Some in E as (Hl & Hg & _). apply lookup_seq in Hl as [-> Hl]. split; [lia|done].
Qed.

Lemma find_group_ok mem pos : 0 < raytracing_group_handle_size p -> (pos + chs <= length mem)%nat ->
  find_raytracing_group_index p mem (Z.of_nat pos) = Ok (group_of p (slice pos chs mem)).
Proof.
  intros Hs Hpos. unfold find_raytracing_group_index. rewrite (proj2 (Z.eqb_neq _ 0)) by lia. cbn [orb].
  assert (Hnone : compared_groups p = 0%nat -> group_of p (slice pos chs mem) = None) by (intros E; unfold group_of; by rewrite E).
  destruct (Nat.eqb_spec (length (raytracing_group_handles p)) 0) as [E|_].
  - rewrite Hnone; [done|]. unfold compared_groups. rewrite E, Nat.Div0.div_0_l. cbn. destruct (_ || _) eqn:E'; [done|].
    apply orb_false_iff in E' as [_ E']. rewrite Z.gtb_ltb in E'. apply Z.ltb_ge in E'. lia.
  - destruct (Nat.eqb_spec (compared_groups p) 0) as [E|_]; [by rewrite Hnone|].
    rewrite load_ok by lia. cbn [obind]. by rewrite Nat2Z.id.
Qed.

Lemma length_replay_handle g : replay_handles_there -> (g < compared_groups p)%nat -> length (replay_handle p g) = rhs.
Proof. intros Hr Hg. specialize (Hr g Hg). unfold replay_handle. rewrite length_slice. fold rhs. lia. Qed.

Lemma fixup_records_ok st : 0 < raytracing_group_handle_size p -> (rhs <= chs)%nat -> (chs <= st)%nat -> replay_handles_there ->
  forall n pos mem, (pos + n * st <= length mem)%nat ->
  exists updated mem', fixup_records p (Z.of_nat st) (Z.of_nat pos) n mem = Ok (updated, mem') /\ records_fixed st pos n mem mem'.
Proof.
  intros Hs Hrc Hcs Hr. induction n as [|n IH]; intros pos mem Hlen; cbn [fixup_records].
  { exists false, mem. split; [done|]. split; [done|lia|done]. }
  rewrite find_group_ok by lia. cbn [obind]. replace (Z.of_nat pos + Z.of_nat st) with (Z.of_nat (pos + st)) by lia.
  destruct (group_of p (slice pos chs mem)) as [g|] eqn:Eg.
  - destruct (group_of_spec _ _ Eg) as [Hg _]. pose proof (Hr g Hg) as Hgr. fold rhs.
    rewrite (proj2 (Nat.leb_le _ _)) by done. cbn [require obind]. pose proof (length_replay_handle g Hr Hg) as Hgl.
    rewrite store_bytes_ok by lia. cbn [obind]. rewrite Nat2Z.id. set (mem1 := memcpy mem pos (replay_handle p g)).
    assert (Hl1 : length mem1 = length mem) by (apply length_memcpy; lia).
    assert (Hkeep : forall q, (q < pos \/ pos + rhs <= q)%nat -> mem1 !! q = mem !! q).
    { intros q Hq. unfold mem1. rewrite memcpy_lookup by lia. destruct (decide _); [lia|done]. }
    destruct (IH (pos + st)%nat mem1) as (u & mem' & -> & [R1 R2 R3]); [lia|]. exists true, mem'. split; [done|]. split.
    + congruence.
    + intros [|i] Hi.
      * rewrite Nat.mul_0_l, Nat.add_0_r, Eg. transitivity (slice pos rhs mem1).
        -- apply slice_eq_iff. intros q Hq. apply R3. intros j _. lia.
        -- unfold mem1. rewrite <- Hgl. apply slice_memcpy. lia.
      * replace (pos + S i * st)%nat with (pos + st + i * st)%nat by lia. rewrite R2 by lia.
        assert (E1 : slice (pos + st + i * st) chs mem1 = slice (pos + st + i * st) chs mem) by (apply slice_eq_iff; intros q Hq; apply Hkeep; lia).
        rewrite E1. destruct (group_of p (slice (pos + st + i * st) chs mem)); [done|]. apply slice_eq_iff. intros q Hq. apply Hkeep. lia.
    + intros q Hq. rewrite R3.
      * apply Hkeep. specialize (Hq 0%nat). lia.
      * intros i Hi. specialize (Hq (S i)). lia.
  - destruct (IH (pos + st)%nat mem) as (u & mem' & -> & [R1 R2 R3]); [lia|]. exists u, mem'. split; [done|]. split; [done| |].
    + intros [|i] Hi.
      * rewrite Nat.mul_0_l, Nat.add_0_r, Eg. apply slice_eq_iff. intros q Hq. apply R3. intros j _. lia.
      * replace (pos + S i * st)%nat with (pos + st + i * st)%nat by lia. apply R2. lia.
    + intros q Hq. apply R3. intros i Hi. specialize (Hq (S i)). lia.
Qed.
End Records.

(** ** A region *)

Lemma buffer_position_found bufs address size b off :
  find_buffer_by_replay_address (map pb_buffer bufs) address size = Some (b, off) ->
  exists k x, buffer_position b bufs = Some k /\ bufs !! k = Some x /\ pb_buffer x = b /\ off = address - ab_device_address b.
Proof.
  intros E. pose proof (find_replay_fold address size (map pb_buffer bufs) None) as Hf. unfold find_buffer_by_replay_address in E. rewrite E in Hf.
  destruct Hf as [?|(Hin & _ & ->)]; [done|]. unfold buffer_position.
  destruct (list_find (fun y => y = b) (map pb_buffer bufs)) as [[k y]|] eqn:Ef.
  - apply list_find_Some in Ef as (Hl & Hy & _). change (map pb_buffer bufs) with (pb_buffer <$> bufs) in Hl.
    apply list_lookup_fmap_Some in Hl as (x & -> & Hx). exists k, x. by rewrite Hy.
  - apply list_find_None in Ef. rewrite Forall_forall in Ef. by destruct (Ef b Hin).
Qed.

(** a table that the driver accepts, in a buffer with mapped memory *)
Record sbt_region_ok (p : pipeline_handles) (region : strided_region) (bufs : list replay_buffer) (b : address_buffer) (off : Z) : Prop := {
  ro_address : sr_deviceAddress region <> 0;
  ro_capture : 0 < raytracing_group_handle_size p <= sr_stride region;
  ro_replay : 0 < raytracing_group_handle_size_replay p <= raytracing_group_handle_size p;
  ro_count : 0 < sr_size region / sr_stride region <= UINT32_MAX;
  ro_found : find_buffer_by_replay_address (map pb_buffer bufs) (sr_deviceAddress region) (sr_size region) = Some (b, off);
  ro_offset : 0 <= off;
  ro_memory : forall k x, buffer_position b bufs = Some k -> bufs !! k = Some x ->
    pb_mapped x = true /\ off + sr_size region <= Z.of_nat (length (a_bytes (pb_area x)))
}.

Definition region_records (region : strided_region) : nat := Z.to_nat (sr_size region / sr_stride region).

Lemma length_mapped a : length (mem_map a) = length (a_bytes a).
Proof. unfold mem_map. destruct (a_initialized a); [done|]. apply repeat_length. Qed.

Lemma fixup_sbt_region_ok p region bufs b off : sbt_region_ok p region bufs b off -> replay_handles_there p ->
  exists updated k x mem, bufs !! k = Some x /\ pb_buffer x = b /\ buffer_position b bufs = Some k /\
    fixup_sbt_region p region bufs = Ok (updated, <[k := with_area x mem]> bufs) /\
    records_fixed p (Z.to_nat (sr_stride region)) (Z.to_nat off) (region_records region) (mem_map (pb_area x)) mem.
Proof.
  intros [Haddr Hcap Hrep Hcount Hfound Hoff Hmem] Hr. destruct (buffer_position_found _ _ _ _ _ Hfound) as (k & x & Hk & Hx & Hb & _).
  destruct (Hmem k x Hk Hx) as [Hmapped Hlen].
  assert (Hsize : 0 < sr_size region) by (destruct (Z.le_gt_cases (sr_size region) 0) as [Hle|]; [|done];
    pose proof (Z.div_le_mono (sr_size region) 0 (sr_stride region) ltac:(lia) Hle) as Hd; rewrite Z.div_0_l in Hd by lia; lia).
  pose proof (Z.mul_div_le (sr_size region) (sr_stride region) ltac:(lia)) as Hdiv.
  destruct (fixup_records_ok p (Z.to_nat (sr_stride region)) ltac:(lia) ltac:(lia) ltac:(lia) Hr (region_records region) (Z.to_nat off) (mem_map (pb_area x)))
    as (u & mem & E & Hfix).
  { rewrite length_mapped. unfold region_records. nia. }
  exists u, k, x, mem. do 3 (split; [done|]). split; [|done]. unfold fixup_sbt_region.
  rewrite (proj2 (Z.eqb_neq (sr_deviceAddress region) 0)), (proj2 (Z.eqb_neq (sr_size region) 0)) by (done || lia). cbn [orb].
  rewrite (proj2 (Z.eqb_neq (raytracing_group_handle_size p) 0)), (proj2 (Z.eqb_neq (raytracing_group_handle_size_replay p) 0)) by lia. cbn [orb].
  rewrite (proj2 (Z.eqb_neq (sr_stride region) 0)) by lia. rewrite !Z.gtb_ltb.
  rewrite (proj2 (Z.ltb_ge (sr_stride region) (raytracing_group_handle_size_replay p))) by lia.
  rewrite (proj2 (Z.ltb_ge (raytracing_group_handle_size p) (raytracing_group_handle_size_replay p))) by lia. cbn [negb require obind].
  rewrite wrap32_small by u_lia. rewrite (proj2 (Z.eqb_neq (sr_size region / sr_stride region) 0)) by lia.
  rewrite Hfound, Hk, Hx, Hmapped. cbn [negb andb require obind]. rewrite !Z2Nat.id in E by lia. fold (region_records region). by rewrite E.
Qed.

(** a record whose handle was replaced, where the replay's handles are shorter *)
Definition patched_handle (p : pipeline_handles) (g : nat) : list byte :=
  replay_handle p g ++ drop (Z.to_nat (raytracing_group_handle_size_replay p)) (capture_handle p g).

(** no replaced handle is taken for another handle of the capture *)
Definition handles_distinct (p : pipeline_handles) : Prop :=
  forall g, (g < compared_groups p)%nat ->
    match group_of p (patched_handle p g) with None => True | Some g' => replay_handle p g' = replay_handle p g end.

Lemma slice_split pos a n l : (a <= n)%nat -> slice pos n l = slice pos a l ++ slice (pos + a) (n - a) l.
Proof.
  intros Ha. unfold slice. rewrite <- drop_drop. rewrite <- (take_drop a (drop pos l)) at 1. rewrite take_app, take_take.
  rewrite (Nat.min_r n a) by done. f_equal. destruct (decide (a <= length (drop pos l))%nat).
  - by rewrite length_take, Nat.min_l by done.
  - rewrite (drop_ge (drop pos l)) by lia. by rewrite !take_nil.
Qed.

Lemma records_fixed_again p st pos n mem mem1 mem2 :
  (Z.to_nat (raytracing_group_handle_size_replay p) <= Z.to_nat (raytracing_group_handle_size p))%nat ->
  (Z.to_nat (raytracing_group_handle_size p) <= st)%nat -> handles_distinct p ->
  records_fixed p st pos n mem mem1 -> records_fixed p st pos n mem1 mem2 -> mem2 = mem1.
Proof.
  intros Hrc Hcs Hd [L1 R1 O1] [L2 R2 O2]. set (rhs := Z.to_nat (raytracing_group_handle_size_replay p)) in *.
  set (chs := Z.to_nat (raytracing_group_handle_size p)) in *.
  assert (Hrec : forall i, (i < n)%nat -> slice (pos + i * st) rhs mem2 = slice (pos + i * st) rhs mem1).
  { intros i Hi. rewrite R2 by done. destruct (group_of p (slice (pos + i * st) chs mem1)) as [g'|] eqn:E1; [|done].
    assert (Htail : slice (pos + i * st + rhs) (chs - rhs) mem1 = slice (pos + i * st + rhs) (chs - rhs) mem).
    { apply slice_eq_iff. intros q Hq. apply O1. intros j Hj. destruct (decide (j <= i)%nat); nia. }
    rewrite (slice_split _ rhs chs mem1), R1, Htail in E1 by done. rewrite R1 by done.
    destruct (group_of p (slice (pos + i * st) chs mem)) as [g|] eqn:E.
    - destruct (group_of_spec _ _ _ E) as [Hg Hcap]. specialize (Hd g Hg). unfold patched_handle in Hd. fold rhs in Hd.
      replace (drop rhs (capture_handle p g)) with (slice (pos + i * st + rhs) (chs - rhs) mem) in Hd.
      + by rewrite E1 in Hd.
      + rewrite Hcap. unfold slice. by rewrite skipn_firstn_comm, drop_drop.
    - rewrite <- slice_split in E1 by done. congruence. }
  apply list_eq. intros q. destruct (decide (Exists (fun i => pos + i * st <= q < pos + i * st + rhs)%nat (seq 0 n))) as [He|He].
  - apply Exists_exists in He as (i & Hi & Hq). apply elem_of_seq in Hi.
    pose proof (proj1 (slice_eq_iff _ _ _ _) (Hrec i ltac:(lia))) as Ha. by apply Ha.
  - apply O2. intros i Hi Hq. apply He. apply Exists_exists. exists i. split; [apply elem_of_seq; lia|done].
Qed.

(** a table in mapped memory, and a second pass over it *)
Lemma sbt_region_fixed p region bufs b off : sbt_region_ok p region bufs b off -> replay_handles_there p ->
  exists updated k x mem, bufs !! k = Some x /\ pb_buffer x = b /\ buffer_position b bufs = Some k /\
    fixup_sbt_region p region bufs = Ok (updated, <[k := with_area x mem]> bufs) /\
    records_fixed p (Z.to_nat (sr_stride region)) (Z.to_nat off) (region_records region) (mem_map (pb_area x)) mem /\
    (forall bytes g, group_of p bytes = Some g -> capture_handle p g = bytes) /\
    (handles_distinct p -> exists updated',
       fixup_sbt_region p region (<[k := with_area x mem]> bufs) = Ok (updated', <[k := with_area x mem]> bufs)).
Proof.
  intros Hok Hr. destruct (fixup_sbt_region_ok _ _ _ _ _ Hok Hr) as (u & k & x & mem & Hx & Hb & Hk & E & Hfix).
  exists u, k, x, mem. do 5 (split; [done|]). split; [intros bytes g Hg; by apply group_of_spec|]. intros Hd.
  pose proof Hok as [Haddr Hcap Hrep Hcount Hfound Hoff Hmem]. pose proof (lookup_lt_Some _ _ _ Hx) as Hlt. set (bufs1 := <[k := with_area x mem]> bufs).
  assert (Hmap : map pb_buffer bufs1 = map pb_buffer bufs).
  { unfold bufs1. change (map pb_buffer (<[k:=with_area x mem]> bufs)) with (pb_buffer <$> <[k:=with_area x mem]> bufs). rewrite list_fmap_insert.
    apply list_insert_id. by rewrite list_lookup_fmap, Hx. }
  assert (Hok1 : sbt_region_ok p region bufs1 b off).
  { split; try done; [by rewrite Hmap|]. intros j y Hj Hy. unfold buffer_position in Hj, Hk. rewrite Hmap, Hk in Hj. injection Hj as <-.
    unfold bufs1 in Hy. rewrite list_lookup_insert_eq in Hy by done. injection Hy as <-. destruct (Hmem k x Hk Hx) as [H1 H2].
    split; [done|]. cbn [pb_area with_area a_bytes]. rewrite (rf_length _ _ _ _ _ _ Hfix), length_mapped. done. }
  destruct (fixup_sbt_region_ok _ _ _ _ _ Hok1 Hr) as (u' & k' & x' & mem' & Hx' & _ & Hk' & E' & Hfix'). exists u'. rewrite E'. do 2 f_equal.
  assert (k' = k) as -> by (unfold buffer_position in Hk, Hk'; rewrite Hmap in Hk'; congruence).
  assert (x' = with_area x mem) as -> by (unfold bufs1 in Hx'; rewrite list_lookup_insert_eq in Hx' by done; congruence).
  assert (mem' = mem) as -> by (eapply (records_fixed_again p); [..|exact Hfix|exact Hfix']; [lia|lia|done]).
  unfold bufs1. by rewrite list_insert_insert_eq.
Qed.

(** ** Every table *)

(** a table in its buffer; the records that the capture saw have room for their handles *)
Record region_valid (p : pipeline_handles) (region : strided_region) (bufs : list replay_buffer) : Prop := {
  rv_sizes : 0 <= raytracing_group_handle_size p /\ 0 <= raytracing_group_handle_size_replay p /\ 0 <= sr_stride region /\ 0 <= sr_size region;
  rv_stride : sr_stride region = 0 \/ sr_stride region < raytracing_group_handle_size_replay p \/ raytracing_group_handle_size p <= sr_stride region;
  rv_count : sr_stride region <> 0 -> sr_size region / sr_stride region <= UINT32_MAX;
  rv_memory : forall b off x, find_buffer_by_replay_address (map pb_buffer bufs) (sr_deviceAddress region) (sr_size region) = Some (b, off) ->
    x ∈ bufs -> pb_buffer x = b -> pb_mapped x = true -> off + sr_size region <= Z.of_nat (length (a_bytes (pb_area x)))
}.

Definition table_given (p : pipeline_handles) (region : strided_region) : Prop :=
  sr_deviceAddress region <> 0 /\ sr_size region <> 0 /\ raytracing_group_handle_size p <> 0 /\ raytracing_group_handle_size_replay p <> 0 /\
  sr_stride region <> 0.

Definition handles_fit (p : pipeline_handles) (region : strided_region) : Prop :=
  raytracing_group_handle_size_replay p <= sr_stride region /\ raytracing_group_handle_size_replay p <= raytracing_group_handle_size p.

(** no table, handles that are not known, a stride of 0, or less than one record *)
Definition table_ignored (p : pipeline_handles) (region : strided_region) : Prop :=
  ~ table_given p region \/ handles_fit p region /\ sr_size region < sr_stride region.

Definition table_refused (p : pipeline_handles) (region : strided_region) (bufs : list replay_buffer) : Prop :=
  table_given p region /\ (~ handles_fit p region \/ sr_stride region <= sr_size region /\
    find_buffer_by_replay_address (map pb_buffer bufs) (sr_deviceAddress region) (sr_size region) = None).

Definition table_found (p : pipeline_handles) (region : strided_region) (bufs : list replay_buffer) (b : address_buffer) (off : Z) : Prop :=
  table_given p region /\ handles_fit p region /\ sr_stride region <= sr_size region /\
  find_buffer_by_replay_address (map pb_buffer bufs) (sr_deviceAddress region) (sr_size region) = Some (b, off).

(** what the guards of the function let through *)
Lemma fixup_sbt_region_guards p region bufs : region_valid p region bufs ->
  (table_ignored p region -> fixup_sbt_region p region bufs = Ok (false, bufs)) /\
  (table_refused p region bufs -> fixup_sbt_region p region bufs = Fail AbortCall) /\
  (table_ignored p region \/ table_refused p region bufs \/ exists b off, table_found p region bufs b off) /\
  forall b off k x, table_found p region bufs b off -> buffer_position b bufs = Some k -> bufs !! k = Some x -> pb_mapped x = false ->
    fixup_sbt_region p region bufs = if pb_host_visible x then Fail AssertFailed else Ok (false, <[k := with_area x (a_bytes (pb_area x))]> bufs).
Proof.
  intros [(H1 & H2 & H3 & H4) _ Hcount _]. unfold table_ignored, table_refused, table_found, table_given, handles_fit, fixup_sbt_region.
  destruct (Z.eqb_spec (sr_deviceAddress region) 0); [split; [done|split; [tauto|split; [tauto|tauto]]]|].
  destruct (Z.eqb_spec (sr_size region) 0); [split; [done|split; [tauto|split; [tauto|tauto]]]|].
  destruct (Z.eqb_spec (raytracing_group_handle_size p) 0); [split; [done|split; [tauto|split; [tauto|tauto]]]|].
  destruct (Z.eqb_spec (raytracing_group_handle_size_replay p) 0); [split; [done|split; [tauto|split; [tauto|tauto]]]|].
  destruct (Z.eqb_spec (sr_stride region) 0); [split; [done|split; [tauto|split; [tauto|tauto]]]|]. cbn [orb]. rewrite !Z.gtb_ltb.
  destruct (Z.ltb_spec (sr_stride region) (raytracing_group_handle_size_replay p)); cbn [negb require obind];
    [split; [lia|split; [done|split; [right; left; split; [done|left; lia]|lia]]]|].
  destruct (Z.ltb_spec (raytracing_group_handle_size p) (raytracing_group_handle_size_replay p)); cbn [negb require obind];
    [split; [lia|split; [done|split; [right; left; split; [done|left; lia]|lia]]]|].
  specialize (Hcount n3). rewrite wrap32_small by (pose proof (Z.div_pos (sr_size region) (sr_stride region)); u_lia).
  destruct (Z.ltb_spec (sr_size region) (sr_stride region)) as [Hlt|Hge].
  { rewrite Z.div_small by lia. split; [done|]. split; [lia|]. split; [left; right; lia|lia]. }
  pose proof (Z.div_le_mono (sr_stride region) (sr_size region) (sr_stride region) ltac:(lia) Hge) as Hd. rewrite Z.div_same in Hd by lia.
  rewrite (proj2 (Z.eqb_neq (_ / _) 0)) by lia. split; [lia|].
  destruct (find_buffer_by_replay_address _ _ _) as [[b off]|] eqn:Ef.
  - split; [intros (_ & [?|[_ ?]]); [lia|done]|]. split; [right; right; by exists b, off|].
    intros b' off' k x (_ & _ & _ & [= -> ->]) -> -> ->. cbn [negb andb require obind]. by destruct (pb_host_visible x).
  - split; [done|]. split; [right; left; split; [done|right; split; [lia|done]]|]. by intros b off k x (_ & _ & _ & ?).
Qed.

(** C28: every shader binding table of a command buffer. A table in mapped memory: each
    record that holds the handle that the capture saw of a group begins with the handle
    of that group on the replay's device afterwards, and no other byte changes; and when
    no handle of the replay can be taken for one of the capture, a second pass, for
    another use of the table or another submit, changes nothing. The other tables are
    not translated: where there is none, or a handle size is not known, or its stride
    is 0 (which the post-processor takes as one record of the size of the region), or it
    is smaller than one record, or it is in memory that can not be mapped, nothing
    changes and the replay goes on with the captured handles; it stops where the stride
    or the captured handle is smaller than the replay's handle, and where the address is
    in no buffer. Every group that the capture knew has a handle on the replay, and a
    stride that is not 0 has room for a captured handle. *)
Theorem sbt_region_translated p region bufs : region_valid p region bufs -> replay_handles_there p ->
  (table_ignored p region -> fixup_sbt_region p region bufs = Ok (false, bufs)) /\
  (table_refused p region bufs -> fixup_sbt_region p region bufs = Fail AbortCall) /\
  (table_ignored p region \/ table_refused p region bufs \/ exists b off, table_found p region bufs b off) /\
  forall b off, table_found p region bufs b off -> exists k x, bufs !! k = Some x /\ pb_buffer x = b /\
    (pb_mapped x = false -> fixup_sbt_region p region bufs =
       if pb_host_visible x then Fail AssertFailed else Ok (false, <[k := with_area x (a_bytes (pb_area x))]> bufs)) /\
    (pb_mapped x = true -> exists updated mem, fixup_sbt_region p region bufs = Ok (updated, <[k := with_area x mem]> bufs) /\
       records_fixed p (Z.to_nat (sr_stride region)) (Z.to_nat off) (region_records region) (mem_map (pb_area x)) mem /\
       (forall bytes g, group_of p bytes = Some g -> capture_handle p g = bytes) /\
       (handles_distinct p -> exists updated',
          fixup_sbt_region p region (<[k := with_area x mem]> bufs) = Ok (updated', <[k := with_area x mem]> bufs))).
Proof.
  intros Hv Hr. destruct (fixup_sbt_region_guards _ _ _ Hv) as (G1 & G2 & G3 & G4). do 3 (split; [done|]). intros b off Hf.
  pose proof Hf as ((F1 & F2 & F3 & F4 & F5) & (F6 & F7) & F8 & Hfound). destruct (buffer_position_found _ _ _ _ _ Hfound) as (k & x & Hk & Hx & Hb & Eoff).
  exists k, x. split; [done|]. split; [done|]. split; [by apply (G4 b off)|]. intros Hm. destruct Hv as [(V1 & V2 & V3 & V4) Vs Vc Vm].
  assert (Hoff : 0 <= off).
  { pose proof (find_replay_fold (sr_deviceAddress region) (sr_size region) (map pb_buffer bufs) None) as Hh. unfold find_buffer_by_replay_address in Hfound.
    rewrite Hfound in Hh. destruct Hh as [?|(_ & Hh & _)]; [done|]. unfold holds_replay_range in Hh. bool_to_prop. lia. }
  assert (Hok : sbt_region_ok p region bufs b off).
  { split; [done|lia|lia| |done|done|].
    - split; [|by apply Vc]. apply Z.div_str_pos. lia.
    - intros k' x' Hk' Hx'. rewrite Hk in Hk'. injection Hk' as <-. rewrite Hx in Hx'. injection Hx' as <-. split; [done|].
      apply (Vm b off x Hfound); [by eapply list_elem_of_lookup_2|done|done]. }
  destruct (sbt_region_fixed _ _ _ _ _ Hok Hr) as (u & k' & x' & mem & Hx' & _ & Hk' & E & Hfix). rewrite Hk in Hk'. injection Hk' as <-.
  rewrite Hx in Hx'. injection Hx' as <-. by exists u, mem.
Qed.

(** ** Handles that were asked for *)

Lemma slice_whole pos n (l : list byte) : pos = 0%nat -> n = length l -> slice pos n l = l.
Proof. intros -> ->. unfold slice. by rewrite drop_0, firstn_all. Qed.

Lemma memcpy_whole (l bs : list byte) : length bs = length l -> memcpy l 0 bs = bs.
Proof. intros E. unfold memcpy. rewrite E. cbn [take app Nat.add]. rewrite drop_all. apply app_nil_r. Qed.

Definition no_handles : pipeline_handles := PipelineHandles 0 0 [] 0 [] false.

(** all groups of a pipeline asked for at once *)
Lemma handles_tracked groups hs rhs data replay_data device_handles : 0 < groups <= UINT16_MAX -> 0 < hs <= UINT16_MAX -> 0 < rhs <= UINT16_MAX ->
  Z.of_nat (length data) = groups * hs -> Z.of_nat (length replay_data) = groups * rhs -> device_handles 0 groups = Some replay_data ->
  replay_track_vkGetRayTracingShaderGroupHandlesKHR rhs device_handles no_handles 0 groups (groups * hs) (Some data)
    = Ok (PipelineHandles groups hs data rhs replay_data false) /\ replay_handles_there (PipelineHandles groups hs data rhs replay_data false).
Proof.
  intros Hg Hh Hr Hd Hrd Hdev. assert (Hgh : 0 < groups * hs <= UINT32_MAX) by (unfold_width; nia). assert (Hgr : 0 < groups * rhs <= UINT32_MAX) by (unfold_width; nia).
  split.
  - unfold replay_track_vkGetRayTracingShaderGroupHandlesKHR. rewrite !(proj2 (Z.eqb_neq _ 0)) by lia. cbn [orb].
    rewrite Z.mul_comm, Z.mod_mul by lia. cbn [negb Z.eqb]. rewrite Z.div_mul by lia. rewrite wrap32_small by u_lia.
    unfold store_raytracing_handles. rewrite !(proj2 (Z.eqb_neq _ 0)) by lia.
    cbn [orb raytracing_group_handle_size no_handles Z.eqb raytracing_group_count raytracing_group_handles raytracing_group_handle_size_replay
      raytracing_group_handles_replay raytracing_group_handles_capture_replay require obind Z.add].
    rewrite wrap32_small by u_lia. rewrite Z.max_r by lia. rewrite wrap64_small by u_lia. rewrite load_ok by lia. cbn [obind].
    rewrite (slice_whole _ _ data) by lia. unfold resized. cbn [length app Nat.sub]. rewrite Nat.sub_0_r, Z.mul_0_l.
    rewrite store_bytes_ok by (rewrite repeat_length; lia). cbn [obind]. change (Z.to_nat 0) with 0%nat. rewrite memcpy_whole by (rewrite repeat_length; lia).
    rewrite Hdev. unfold store_raytracing_handles_replay. rewrite !(proj2 (Z.eqb_neq _ 0)) by lia.
    cbn [orb raytracing_group_handle_size Z.eqb raytracing_group_count raytracing_group_handles raytracing_group_handle_size_replay
      raytracing_group_handles_replay raytracing_group_handles_capture_replay require obind Z.add].
    rewrite wrap32_small by u_lia. rewrite Z.max_l by lia. rewrite wrap64_small by u_lia. rewrite load_ok by lia. cbn [obind].
    rewrite (slice_whole _ _ replay_data) by lia. unfold resized. cbn [length app Nat.sub]. rewrite Nat.sub_0_r, Z.mul_0_l.
    rewrite store_bytes_ok by (rewrite repeat_length; lia). cbn [obind]. change (Z.to_nat 0) with 0%nat. by rewrite memcpy_whole by (rewrite repeat_length; lia).
  - intros g Hgc. unfold compared_groups in Hgc. cbn in *. rewrite (proj2 (Z.eqb_neq groups 0)) in Hgc by lia. cbn [orb] in Hgc.
    assert (Z.of_nat (length data `div` Z.to_nat hs) = groups) as E by (rewrite Nat2Z.inj_div, Hd, Z2Nat.id by lia; rewrite Z.div_mul by lia; done).
    rewrite E, Z.gtb_ltb, Z.ltb_irrefl in Hgc. nia.
Qed.

(** ** References of instances *)

Section References.
Context (translate : Z -> Z) (structures : list (Z * Z)).
Hypothesis translate_u64 : forall r, u64 (translate r).

(** what a reference becomes; [None] when the replay does not know it *)
Definition remapped (r : Z) : option Z :=
  if r =? 0 then Some 0
  else if negb (translate r =? 0) then Some (translate r)
  else if is_known_replay_as_address structures r then Some r else None.

Definition reference (mem : list byte) (pos i : nat) : Z := le_decode (slice (pos + i * 64 + 56) 8 mem).

Record references_fixed (pos n : nat) (mem mem' : list byte) : Prop := {
  re_length : length mem' = length mem;
  re_reference : forall i, (i < n)%nat -> remapped (reference mem pos i) = Some (reference mem' pos i);
  re_outside : forall q, (forall i, (i < n)%nat -> ~ (pos + i * 64 + 56 <= q < pos + i * 64 + 64)%nat) -> mem' !! q = mem !! q
}.

Lemma reference_same mem mem' pos i : (forall q, (pos + i * 64 + 56 <= q < pos + i * 64 + 64)%nat -> mem' !! q = mem !! q) ->
  reference mem' pos i = reference mem pos i.
Proof. intros Hq. unfold reference. f_equal. apply slice_eq_iff. intros q Hr. apply Hq. lia. Qed.

(** one instance, and the others from the next one on *)
Lemma references_fixed_cons pos n mem mem1 mem' : length mem1 = length mem -> remapped (reference mem pos 0) = Some (reference mem1 pos 0) ->
  (forall q, ~ (pos + 56 <= q < pos + 64)%nat -> mem1 !! q = mem !! q) ->
  references_fixed (pos + 64) n mem1 mem' -> references_fixed pos (S n) mem mem'.
Proof.
  intros Hl Hr Hq [R1 R2 R3]. split; [congruence| |].
  - intros [|i] Hi.
    + rewrite Hr. f_equal. symmetry. apply reference_same. intros q Hq'. apply R3. intros j Hj. lia.
    + specialize (R2 i ltac:(lia)). unfold reference in *. replace (pos + S i * 64 + 56)%nat with (pos + 64 + i * 64 + 56)%nat by lia. rewrite <- R2.
      do 2 f_equal. apply slice_eq_iff. intros q Hq'. symmetry. apply Hq. lia.
  - intros q Hout. rewrite R3; [apply Hq; specialize (Hout 0%nat); lia|]. intros i Hi. specialize (Hout (S i)). lia.
Qed.

Lemma fixup_instances_ok n : forall pos mem, (pos + n * 64 <= length mem)%nat ->
  (forall i, (i < n)%nat -> is_Some (remapped (reference mem pos i))) ->
  exists mem', fixup_instances translate structures (Z.of_nat pos) n mem = Ok mem' /\ references_fixed pos n mem mem'.
Proof.
  induction n as [|n IH]; intros pos mem Hlen Hall; cbn [fixup_instances].
  { exists mem. split; [done|]. split; [done|lia|done]. }
  unfold reference_offset, instance_size in *. rewrite load_ok by lia. cbn [obind].
  replace (Z.to_nat (Z.of_nat pos + 56)) with (pos + 0 * 64 + 56)%nat by lia. fold (reference mem pos 0).
  replace (Z.of_nat pos + 64) with (Z.of_nat (pos + 64)) by lia. destruct (Hall 0%nat ltac:(lia)) as [r Hr].
  assert (Hsame : remapped (reference mem pos 0) = Some (reference mem pos 0) ->
    exists mem', fixup_instances translate structures (Z.of_nat (pos + 64)) n mem = Ok mem' /\ references_fixed pos (S n) mem mem').
  { intros Hs. destruct (IH (pos + 64)%nat mem) as (mem' & E & Hfix); [lia| |].
    - intros i Hi. specialize (Hall (S i) ltac:(lia)). unfold reference in *. by replace (pos + S i * 64 + 56)%nat with (pos + 64 + i * 64 + 56)%nat in Hall by lia.
    - exists mem'. split; [done|]. by apply (references_fixed_cons pos n mem mem). }
  pose proof Hr as Hr'. unfold remapped in Hr. destruct (Z.eqb_spec (reference mem pos 0) 0) as [E0|_].
  { apply Hsame. by rewrite Hr', <- Hr, E0. }
  destruct (Z.eqb_spec (translate (reference mem pos 0)) 0) as [_|Et]; cbn [negb] in *.
  { destruct (is_known_replay_as_address _ _); [|done]. cbn [require obind]. apply Hsame. congruence. }
  destruct (Z.eqb_spec (translate (reference mem pos 0)) (reference mem pos 0)) as [Eq|_]; cbn [negb obind].
  { apply Hsame. congruence. }
  rewrite store_bytes_ok by (rewrite length_le_encode; lia). cbn [obind].
  replace (Z.to_nat (Z.of_nat pos + 56)) with (pos + 56)%nat by lia. set (mem1 := memcpy _ _ _).
  assert (Hl1 : length mem1 = length mem) by (apply length_memcpy; rewrite length_le_encode; lia).
  assert (Hout : forall q, ~ (pos + 56 <= q < pos + 64)%nat -> mem1 !! q = mem !! q).
  { intros q Hq. unfold mem1. rewrite memcpy_lookup by (rewrite length_le_encode; lia). rewrite length_le_encode. destruct (decide _); [lia|done]. }
  destruct (IH (pos + 64)%nat mem1) as (mem' & E & Hfix); [lia| |].
  - intros i Hi. rewrite (reference_same mem mem1 (pos + 64) i) by (intros q Hq; apply Hout; lia). specialize (Hall (S i) ltac:(lia)).
    unfold reference in *. by replace (pos + S i * 64 + 56)%nat with (pos + 64 + i * 64 + 56)%nat in Hall by lia.
  - exists mem'. split; [done|]. apply (references_fixed_cons pos n mem mem1); [done| |done|done].
    rewrite Hr', <- Hr. f_equal. change (reference mem1 pos 0) with (le_decode (slice (pos + 0 * 64 + 56) 8 mem1)).
    replace (pos + 0 * 64 + 56)%nat with (pos + 56)%nat by lia. unfold mem1.
    pose proof (slice_memcpy mem (pos + 56) (le_encode 8 (translate (reference mem pos 0)))) as Hs. rewrite length_le_encode in Hs. rewrite Hs by lia.
    symmetry. apply le_decode_encode_small. pose proof (translate_u64 (reference mem pos 0)). change (256 ^ Z.of_nat 8) with (2 ^ 64). u_lia.
Qed.

Lemma fixup_instances_unknown n : forall pos mem, (pos + n * 64 <= length mem)%nat ->
  (exists i, (i < n)%nat /\ remapped (reference mem pos i) = None) -> fixup_instances translate structures (Z.of_nat pos) n mem = Fail AbortCall.
Proof.
  induction n as [|n IH]; intros pos mem Hlen (i & Hi & Hr); [lia|]. cbn [fixup_instances].
  unfold reference_offset, instance_size in *. rewrite load_ok by lia. cbn [obind].
  replace (Z.to_nat (Z.of_nat pos + 56)) with (pos + 0 * 64 + 56)%nat by lia. fold (reference mem pos 0).
  replace (Z.of_nat pos + 64) with (Z.of_nat (pos + 64)) by lia.
  assert (Hnext : forall mem1, length mem1 = length mem -> (forall q, ~ (pos + 56 <= q < pos + 64)%nat -> mem1 !! q = mem !! q) ->
    remapped (reference mem pos 0) <> None -> fixup_instances translate structures (Z.of_nat (pos + 64)) n mem1 = Fail AbortCall).
  { intros mem1 Hl1 Hout Hn. destruct i as [|i]; [done|]. apply IH; [lia|]. exists i. split; [lia|].
    rewrite (reference_same mem mem1 (pos + 64) i) by (intros q Hq; apply Hout; lia).
    unfold reference in *. by replace (pos + S i * 64 + 56)%nat with (pos + 64 + i * 64 + 56)%nat in Hr by lia. }
  unfold remapped in Hnext. destruct (reference mem pos 0 =? 0) eqn:E0; [by apply Hnext|].
  destruct (negb (translate (reference mem pos 0) =? 0)) eqn:Et.
  - destruct (negb (translate (reference mem pos 0) =? reference mem pos 0)); cbn [obind]; [|by apply Hnext].
    rewrite store_bytes_ok by (rewrite length_le_encode; lia). cbn [obind]. apply Hnext; [apply length_memcpy; rewrite length_le_encode; lia| |done].
    intros q Hq. rewrite memcpy_lookup by (rewrite length_le_encode; lia). rewrite length_le_encode. destruct (decide _); [lia|done].
  - destruct (is_known_replay_as_address structures (reference mem pos 0)) eqn:Ek; cbn [require obind]; [by apply Hnext|done].
Qed.
End References.

(** C29: the instances of a build. When the replay knows every reference, each one that
    the address map translates is translated, those that already are addresses of the
    replay and the empty ones stay, and no other byte changes; a reference that it does
    not know stops the replay. *)
Theorem instance_references_translated translate structures use bufs b off (Hu64 : forall r, u64 (translate r)) :
  iu_device_address use <> 0 -> 0 < iu_primitive_count use -> 0 <= off ->
  find_buffer_by_replay_address (map pb_buffer bufs) (wrap64 (iu_device_address use + iu_primitive_offset use)) (iu_primitive_count use * instance_size)
    = Some (b, off) ->
  (forall x, x ∈ bufs -> pb_buffer x = b -> pb_mapped x = true /\ off + iu_primitive_count use * instance_size <= Z.of_nat (length (a_bytes (pb_area x)))) ->
  exists k x, bufs !! k = Some x /\ pb_buffer x = b /\
    let n := Z.to_nat (iu_primitive_count use) in let mem := mem_map (pb_area x) in
    ((forall i, (i < n)%nat -> is_Some (remapped translate structures (reference mem (Z.to_nat off) i))) ->
       exists mem', fixup_instance_use translate structures use bufs = Ok (<[k := with_area x mem']> bufs) /\
         references_fixed translate structures (Z.to_nat off) n mem mem') /\
    ((exists i, (i < n)%nat /\ remapped translate structures (reference mem (Z.to_nat off) i) = None) ->
       fixup_instance_use translate structures use bufs = Fail AbortCall).
Proof.
  intros Haddr Hcount Hoff Hfound Hmem. destruct (buffer_position_found _ _ _ _ _ Hfound) as (k & x & Hk & Hx & Hb & _).
  destruct (Hmem x) as [Hmapped Hlen]; [by eapply list_elem_of_lookup_2|done|]. exists k, x. split; [done|]. split; [done|]. cbv zeta.
  assert (Hroom : (Z.to_nat off + Z.to_nat (iu_primitive_count use) * 64 <= length (mem_map (pb_area x)))%nat)
    by (rewrite length_mapped; unfold instance_size in Hlen; lia).
  unfold fixup_instance_use. rewrite (proj2 (Z.eqb_neq (iu_device_address use) 0)), (proj2 (Z.eqb_neq (iu_primitive_count use) 0)) by (done || lia).
  cbn [orb]. rewrite Hfound, Hk, Hx, Hmapped. cbn [orb require obind]. split.
  - intros Hall. destruct (fixup_instances_ok translate structures Hu64 _ _ _ Hroom Hall) as (mem' & E & Hfix).
    rewrite Z2Nat.id in E by done. rewrite E. by exists mem'.
  - intros Hex. pose proof (fixup_instances_unknown translate structures _ _ _ Hroom Hex) as E. rewrite Z2Nat.id in E by done. by rewrite E.
Qed.

(** ** A table with two groups *)

Definition demo_device_handles (first count : Z) : option (list byte) := Some [xb0; xb1; xb2; xb3].

(** handles of four bytes in the capture, of two on the replay *)
Definition demo_pipeline : pipeline_handles := PipelineHandles 2 4 [x01; x02; x03; x04; x05; x06; x07; x08] 2 [xb0; xb1; xb2; xb3] false.

Example demo_pipeline_tracked :
  replay_track_vkGetRayTracingShaderGroupHandlesKHR 2 demo_device_handles no_handles 0 2 8 (Some [x01; x02; x03; x04; x05; x06; x07; x08]) = Ok demo_pipeline.
Proof. reflexivity. Qed.

(** two bytes in front, records of eight bytes with the handles of the groups 1 and 0 *)
Definition demo_table : list byte := [xee; xee; x05; x06; x07; x08; xaa; xaa; xaa; xaa; x01; x02; x03; x04; xaa; xaa; xaa; xaa].
Definition demo_sbt_buffers : list replay_buffer :=
  [ReplayBuffer (AddressBuffer state_created 0 0 8 false) false false (HostArea [] false);
   ReplayBuffer (AddressBuffer state_bound 4096 0 18 true) true true (HostArea demo_table true)].
Definition demo_sbt_region : strided_region := StridedRegion 4098 8 16.

Lemma demo_region_valid : region_valid demo_pipeline demo_sbt_region demo_sbt_buffers.
Proof.
  split; [done|by right; right|done|]. intros b off x [= <- <-] Hx Hb _. apply elem_of_cons in Hx as [->|Hx]; [done|].
  apply list_elem_of_singleton in Hx as ->. cbn. lia.
Qed.

Lemma demo_handles_there : replay_handles_there demo_pipeline.
Proof. intros g Hg. change (compared_groups demo_pipeline) with 2%nat in Hg. cbn. lia. Qed.

Lemma demo_table_found : table_found demo_pipeline demo_sbt_region demo_sbt_buffers (AddressBuffer state_bound 4096 0 18 true) 2.
Proof. by vm_compute. Qed.

(** the second buffer is in mapped memory, so the records of the table are those of the replay *)
Lemma sbt_region_translated_witness : exists k x, demo_sbt_buffers !! k = Some x /\ pb_buffer x = AddressBuffer state_bound 4096 0 18 true /\
  (pb_mapped x = true -> exists updated mem, fixup_sbt_region demo_pipeline demo_sbt_region demo_sbt_buffers = Ok (updated, <[k := with_area x mem]> demo_sbt_buffers) /\
     records_fixed demo_pipeline 8 2 2 (mem_map (pb_area x)) mem).
Proof.
  destruct (sbt_region_translated demo_pipeline demo_sbt_region demo_sbt_buffers demo_region_valid demo_handles_there) as (_ & _ & _ & Hf).
  destruct (Hf _ _ demo_table_found) as (k & x & Hx & Hb & _ & Hm). exists k, x. split; [exact Hx|]. split; [exact Hb|].
  intros Hmapped. destruct (Hm Hmapped) as (updated & mem & E & Hfix & _). exists updated, mem. split; [exact E|exact Hfix].
Defined.

Lemma demo_groups_distinct : handles_distinct demo_pipeline.
Proof. intros [|[|g]] Hg; [vm_compute; exact I..|]. change (compared_groups demo_pipeline) with 2%nat in Hg. lia. Qed.

Example demo_table_fixed : fixup_sbt_region demo_pipeline demo_sbt_region demo_sbt_buffers = Ok (true,
  [ReplayBuffer (AddressBuffer state_created 0 0 8 false) false false (HostArea [] false);
   ReplayBuffer (AddressBuffer state_bound 4096 0 18 true) true true
     (HostArea [xee; xee; xb2; xb3; x07; x08; xaa; xaa; xaa; xaa; xb0; xb1; x03; x04; xaa; xaa; xaa; xaa] true)]).
Proof. vm_compute. reflexivity. Qed.

(** Small handles, as some drivers have them, collide: here the replay gives the groups
    the handles of the capture in the other order. The table is used twice, so the
    second pass turns every handle back. *)
Definition swapped_pipeline : pipeline_handles := PipelineHandles 2 1 [x01; x02] 1 [x02; x01] false.

Definition swapped_buffers (bytes : list byte) : list replay_buffer :=
  [ReplayBuffer (AddressBuffer state_bound 4096 0 2 true) true true (HostArea bytes true)].

Definition swapped_uses (n : nat) : raytracing_state :=
  Nat.iter n (replay_fixup_vkCmdTraceRaysKHR (Some (StridedRegion 4096 1 2)) None None None) (RaytracingState 0 []).

Example table_used_twice :
  replay_fixup_commandbuffer_raytracing_sbt false [swapped_pipeline] (swapped_uses 1) (swapped_buffers [x01; x02]) = Ok (swapped_buffers [x02; x01]) /\
  replay_fixup_commandbuffer_raytracing_sbt false [swapped_pipeline] (swapped_uses 2) (swapped_buffers [x01; x02]) = Ok (swapped_buffers [x01; x02]).
Proof. vm_compute. split; reflexivity. Qed.

(** two instances, the second empty *)
Definition demo_instances : list byte := repeat x00 56 ++ le_encode 8 4096 ++ repeat x11 56 ++ le_encode 8 0.
Definition demo_instance_buffers : list replay_buffer :=
  [ReplayBuffer (AddressBuffer state_bound 8192 0 128 false) true true (HostArea demo_instances true)].
Definition demo_translate (r : Z) : Z := if r =? 4096 then 65536 else 0.

Lemma demo_translate_u64 r : u64 (demo_translate r).
Proof. unfold demo_translate. destruct (r =? 4096); u_lia. Qed.

Lemma instance_references_translated_witness : exists k x, demo_instance_buffers !! k = Some x /\ pb_buffer x = AddressBuffer state_bound 8192 0 128 false /\
  let n := 2%nat in let mem := mem_map (pb_area x) in
  ((forall i, (i < n)%nat -> is_Some (remapped demo_translate [] (reference mem 0 i))) ->
     exists mem', fixup_instance_use demo_translate [] (InstanceUse 8192 0 2) demo_instance_buffers = Ok (<[k := with_area x mem']> demo_instance_buffers) /\
       references_fixed demo_translate [] 0 n mem mem') /\
  ((exists i, (i < n)%nat /\ remapped demo_translate [] (reference mem 0 i) = None) ->
     fixup_instance_use demo_translate [] (InstanceUse 8192 0 2) demo_instance_buffers = Fail AbortCall).
Proof.
  apply (instance_references_translated demo_translate [] (InstanceUse 8192 0 2) demo_instance_buffers _ 0 demo_translate_u64); [done|done|done|reflexivity|].
  intros x Hx _. apply list_elem_of_singleton in Hx as ->. split; [done|]. vm_compute. discriminate.
Defined.
