(* ===== verification/AddressTouches.v ===== *)
(** * What commands name by address (src/hardcode_write.cpp)

    Builds of acceleration structures, ray tracing and descriptor buffers name
    their data by device address. The capture finds the buffers behind the
    addresses and notes their bytes for the command buffer. *)

From Stdlib Require Import ZArith Lia Bool Sorted.
From Stdlib.Strings Require Import Byte.
From stdpp Require Import base numbers list gmap.
From S2P Require Import Prelude RangeTracking Patch Memory Packets Containers Translate Templates Updates HostMemory HostMemoryInv DescriptorSets DescriptorNotes ShaderTables.

#[local] Open Scope Z_scope.

(** ** The data of builds *)

(** [VkAccelerationStructureGeometryKHR] *)
Inductive geometry :=
  | Triangles (vertexData vertexStride maxVertex indexData : Z) (indexType : index_type) (transformData : Z)
  | Aabbs (data stride : Z)
  | Instances (arrayOfPointers : bool) (data : Z)
  | OtherGeometry.

(** [VkAccelerationStructureBuildRangeInfoKHR] *)
Record build_range := BuildRange { br_primitiveCount : Z; br_primitiveOffset : Z; br_firstVertex : Z; br_transformOffset : Z }.

(** the geometries of a build, null where no pointer leads to one, and its ranges *)
Record build := Build { b_geometries : list (option geometry); b_ranges : option (list build_range) }.

(** a build with its ranges in device memory: their address and stride, and the bounds of the counts *)
Record indirect_build := IndirectBuild {
  ib_geometries : list (option geometry);
  ib_address : option Z;
  ib_stride : option Z;
  ib_max_counts : option (list Z)
}.

Definition sizeof_VkTransformMatrixKHR : Z := 48.
Definition sizeof_VkAccelerationStructureInstanceKHR : Z := 64.
Definition sizeof_VkAccelerationStructureBuildRangeInfoKHR : Z := 16.
Definition sizeof_VkTraceRaysIndirectCommandKHR : Z := 12.
Definition sizeof_VkTraceRaysIndirectCommand2KHR : nat := 104.

Definition state_of (s : states) : object_state :=
  match s with
  | uninitialized => state_uninitialized
  | initialized => state_initialized
  | created => state_created
  | destroyed => state_destroyed
  | bound => state_bound
  end.

Section Addresses.
(** the objects in index order, and which buffers can hold shader binding tables *)
Context (objects : list hostobject) (is_sbt : nat -> bool).

(** ** The buffer behind an address *)

Definition buffer_of (obj : nat) (o : hostobject) : option address_buffer :=
  if bool_decide (h_type o = VK_OBJECT_TYPE_BUFFER)
  then Some (AddressBuffer (state_of (t_state (h_base o))) (h_device_address o) 0 (h_size o) (is_sbt obj)) else None.

(** one round of [find_buffer_by_device_address] that keeps the object *)
Definition choose_buffer (address size : Z) (obj : nat) (o : hostobject) (best : option (nat * address_buffer)) : option (nat * address_buffer) :=
  match buffer_of obj o with
  | None => best
  | Some b =>
      if holds_range address size b then
        match best with
        | None => Some (obj, b)
        | Some (_, b') => if better_buffer b b' then Some (obj, b) else best
        end
      else best
  end.

Fixpoint find_object_from (address size : Z) (rest : list hostobject) (obj : nat) (best : option (nat * address_buffer))
    : option (nat * address_buffer) :=
  match rest with
  | [] => best
  | o :: rest => find_object_from address size rest (Datatypes.S obj) (choose_buffer address size obj o best)
  end.

Definition find_buffer_object (address size : Z) : option (nat * Z) :=
  option_map (fun p => (p.1, address - ab_device_address p.2)) (find_object_from address size objects 0 None).

(** ** Touching by address *)

Definition trace_touch_buffer_by_address (commandBuffer address size : Z) (st : bindings) : outcome bindings :=
  if address =? 0 then Ok st
  else
    let found :=
      match find_buffer_object address (if size =? 0 then 1 else size) with
      | Some r => Some r
      | None => if size >? 1 then find_buffer_object address 1 else None
      end in
    match found with
    | None => Fail AbortCall
    | Some (obj, offset) =>
        let* buffer_size := size_of_object objects obj in
        let room := wrap64 (buffer_size - offset) in
        let touch_size := if size =? 0 then VK_WHOLE_SIZE else if size >? room then room else size in
        cmdbuf_touch objects commandBuffer obj offset touch_size st
    end.

Definition trace_touch_sbt_region (commandBuffer : Z) (region : option strided_region) (st : bindings) : outcome bindings :=
  match region with
  | None => Ok st
  | Some region =>
      if (sr_deviceAddress region =? 0) || (sr_size region =? 0) then Ok st
      else
        match find_buffer_object (sr_deviceAddress region) (sr_size region) with
        | None => Fail AbortCall
        | Some (obj, offset) => cmdbuf_touch objects commandBuffer obj offset (sr_size region) st
        end
  end.

(** the command buffer's data, if it is tracked *)
Definition for_cmdbuf (commandBuffer : Z) (st : bindings) (body : outcome bindings) : outcome bindings :=
  let* c := at_ (VkCommandBuffer_index st) commandBuffer in
  match c with None => Ok st | Some _ => body end.

Fixpoint bind_descriptor_buffers (commandBuffer : Z) (addresses : list Z) (st : bindings) : outcome bindings :=
  match addresses with
  | [] => Ok st
  | address :: addresses =>
      let* st :=
        match find_buffer_object address 1 with
        | None => Ok st
        | Some (obj, offset) =>
            let* buffer_size := size_of_object objects obj in
            cmdbuf_touch objects commandBuffer obj offset (wrap64 (buffer_size - offset)) st
        end in
      bind_descriptor_buffers commandBuffer addresses st
  end.

(** the addresses of [pBindingInfos]; descriptors may hold addresses, so every
    buffer whose address was taken counts as used *)
Definition trace_post_vkCmdBindDescriptorBuffersEXT (commandBuffer : Z) (pBindingInfos : option (list Z)) (st : bindings) : outcome bindings :=
  match pBindingInfos with
  | None => Ok st
  | Some addresses =>
      let* c := at_ (VkCommandBuffer_index st) commandBuffer in
      match c with
      | None => Ok st
      | Some c => bind_descriptor_buffers commandBuffer addresses (with_cmdbuf st commandBuffer (CmdBuffer (c_device c) (touched c) true))
      end
  end.

(** ** Builds *)

Definition index_bytes (t : index_type) : Z :=
  match t with VK_INDEX_TYPE_UINT16 => 2 | VK_INDEX_TYPE_UINT32 => 4 | VK_INDEX_TYPE_UINT8_EXT => 1 | VK_INDEX_TYPE_NONE_KHR => 0 end.

Definition vertex_size (maxVertex vertexStride : Z) : Z := wrap64 (wrap32 (maxVertex + 1) * vertexStride).

Definition has_indices (indexData : Z) (t : index_type) : bool :=
  negb (indexData =? 0) && negb (match t with VK_INDEX_TYPE_NONE_KHR => true | _ => false end).

Definition touch_geometry (commandBuffer : Z) (ranges : option (list build_range)) (g : nat) (geo : geometry) (st : bindings) : outcome bindings :=
  let touch := trace_touch_buffer_by_address commandBuffer in
  match geo with
  | Triangles vertexData vertexStride maxVertex indexData indexType transformData =>
      let* st :=
        if negb (vertexData =? 0) && (vertexStride >? 0) then touch vertexData (vertex_size maxVertex vertexStride) st else Ok st in
      let* st :=
        if has_indices indexData indexType then
          match ranges with
          | Some l =>
              let* r := element l g in
              touch (wrap64 (indexData + br_primitiveOffset r)) (wrap64 (br_primitiveCount r * 3 * index_bytes indexType)) st
          | None => touch indexData 0 st
          end
        else Ok st in
      if negb (transformData =? 0) then
        let* address := match ranges with Some l => let* r := element l g in Ok (wrap64 (transformData + br_transformOffset r)) | None => Ok transformData end in
        touch address sizeof_VkTransformMatrixKHR st
      else Ok st
  | Aabbs data stride =>
      match ranges with
      | Some l =>
          if stride >? 0 then
            let* r := element l g in
            touch (wrap64 (data + br_primitiveOffset r)) (wrap64 (br_primitiveCount r * stride)) st
          else touch data 0 st
      | None => touch data 0 st
      end
  | Instances arrayOfPointers data =>
      let* _ := require (negb arrayOfPointers) AbortCall in
      match ranges with
      | Some l =>
          let* r := element l g in
          touch (wrap64 (data + br_primitiveOffset r)) (wrap64 (br_primitiveCount r * sizeof_VkAccelerationStructureInstanceKHR)) st
      | None => touch data 0 st
      end
  | OtherGeometry => Ok st
  end.

(** the geometries from number [g] on *)
Fixpoint touch_geometries (body : nat -> geometry -> bindings -> outcome bindings) (g : nat) (geometries : list (option geometry)) (st : bindings)
    : outcome bindings :=
  match geometries with
  | [] => Ok st
  | None :: rest => touch_geometries body (Datatypes.S g) rest st
  | Some geo :: rest => let* st := body g geo st in touch_geometries body (Datatypes.S g) rest st
  end.

Fixpoint touch_builds (commandBuffer : Z) (infos : list build) (st : bindings) : outcome bindings :=
  match infos with
  | [] => Ok st
  | info :: infos =>
      let* st := touch_geometries (touch_geometry commandBuffer (b_ranges info)) 0 (b_geometries info) st in
      touch_builds commandBuffer infos st
  end.

Definition trace_post_vkCmdBuildAccelerationStructuresKHR (commandBuffer : Z) (infos : list build) (st : bindings) : outcome bindings :=
  for_cmdbuf commandBuffer st (touch_builds commandBuffer infos st).
Definition touch_geometry_indirect (commandBuffer : Z) (max_counts : option (list Z)) (g : nat) (geo : geometry) (st : bindings) : outcome bindings :=
  let* primitive_count := match max_counts with None => Ok 0 | Some l => element l g end in
  let touch := trace_touch_buffer_by_address commandBuffer in
  match geo with
  | Triangles vertexData vertexStride maxVertex indexData indexType transformData =>
      let* st :=
        if negb (vertexData =? 0) && (vertexStride >? 0) then touch vertexData (vertex_size maxVertex vertexStride) st else Ok st in
      let* st := if has_indices indexData indexType && (primitive_count >? 0) then touch indexData 0 st else Ok st in
      if negb (transformData =? 0) && (primitive_count >? 0) then touch transformData 0 st else Ok st
  | Aabbs data stride => if negb (data =? 0) && (primitive_count >? 0) then touch data 0 st else Ok st
  | Instances arrayOfPointers data =>
      let* _ := require (negb arrayOfPointers) AbortCall in
      if negb (data =? 0) && (primitive_count >? 0) then touch data 0 st else Ok st
  | OtherGeometry => Ok st
  end.

(** the size of the ranges in device memory; [stride] is nothing for a null pointer *)
Definition indirect_ranges_size (geometryCount : Z) (stride : option Z) : Z :=
  match stride with
  | Some stride =>
      if (geometryCount >? 0) && (stride >=? sizeof_VkAccelerationStructureBuildRangeInfoKHR)
      then wrap64 (wrap64 (wrap32 (geometryCount - 1) * stride) + sizeof_VkAccelerationStructureBuildRangeInfoKHR) else 0
  | None => 0
  end.

Fixpoint touch_builds_indirect (commandBuffer : Z) (infos : list indirect_build) (st : bindings) : outcome bindings :=
  match infos with
  | [] => Ok st
  | info :: infos =>
      let* st :=
        match ib_address info with
        | Some address =>
            if address =? 0 then Ok st
            else trace_touch_buffer_by_address commandBuffer address
                   (indirect_ranges_size (Z.of_nat (length (ib_geometries info))) (ib_stride info)) st
        | None => Ok st
        end in
      let* st := touch_geometries (touch_geometry_indirect commandBuffer (ib_max_counts info)) 0 (ib_geometries info) st in
      touch_builds_indirect commandBuffer infos st
  end.

Definition trace_post_vkCmdBuildAccelerationStructuresIndirectKHR (commandBuffer : Z) (infos : list indirect_build) (st : bindings)
    : outcome bindings :=
  for_cmdbuf commandBuffer st (touch_builds_indirect commandBuffer infos st).

(** ** Tracing rays *)

Definition touch_tables (commandBuffer : Z) (raygen miss hit callable : option strided_region) (st : bindings) : outcome bindings :=
  let* st := trace_touch_sbt_region commandBuffer raygen st in
  let* st := trace_touch_sbt_region commandBuffer miss st in
  let* st := trace_touch_sbt_region commandBuffer hit st in
  trace_touch_sbt_region commandBuffer callable st.

Definition trace_post_vkCmdTraceRaysKHR (commandBuffer : Z) (raygen miss hit callable : option strided_region) (st : bindings) : outcome bindings :=
  for_cmdbuf commandBuffer st (touch_tables commandBuffer raygen miss hit callable st).

Definition trace_post_vkCmdTraceRaysIndirectKHR (commandBuffer : Z) (raygen miss hit callable : option strided_region) (indirectDeviceAddress : Z)
    (st : bindings) : outcome bindings :=
  let* st := trace_post_vkCmdTraceRaysKHR commandBuffer raygen miss hit callable st in
  for_cmdbuf commandBuffer st
    (trace_touch_buffer_by_address commandBuffer indirectDeviceAddress sizeof_VkTraceRaysIndirectCommandKHR st).

(** ** Reading by address *)

Section Reading.
(** the driver's mappings, where [map_fails] says that one is refused *)
Context (wrap_vkMapMemory : nat -> Z -> Z -> window) (map_fails : nat -> Z -> Z -> bool).
(** the memories as the device has them, and whether the writer knows its device *)
Context (contents : list (list byte)) (has_device : bool).

(** the bytes through a mapping of part of the memory *)
Definition read_window (p : window) (bytes : list byte) (pos : Z) (size : nat) : outcome (list byte) :=
  let* _ := require (pos + Z.of_nat size <=? w_size p) OutOfRange in
  load bytes (w_base p + pos) size.

(** the mapping that was taken away, made again *)
Definition restore_mapping (restore : bool) (memory : nat) (m : hostmemory) (memories : list hostmemory) : outcome (list hostmemory) :=
  if restore then
    let* _ := require (negb (map_fails memory (m_offset m) (m_size m))) AbortCall in
    Ok (<[memory := with_mapping m (Some (wrap_vkMapMemory memory (m_offset m) (m_size m))) (m_offset m) (m_size m)]> memories)
  else Ok memories.

Definition trace_read_buffer_by_address (address : Z) (size : nat) (memories : list hostmemory) : outcome (option (list byte) * list hostmemory) :=
  if (address =? 0) || Nat.eqb size 0 then Ok (None, memories)
  else
    match find_buffer_object address (Z.of_nat size) with
    | None => Ok (None, memories)
    | Some (obj, offset) =>
        match objects !! obj with
        | None => Fail OutOfRange
        | Some o =>
            if wrap64 (offset + Z.of_nat size) >? h_size o then Ok (None, memories)
            else
              match h_backing o with
              | None => Ok (None, memories)
              | Some memory =>
                  match memories !! memory with
                  | None => Fail OutOfRange
                  | Some m =>
                      if Z.land (propertyFlags m) VK_MEMORY_PROPERTY_HOST_VISIBLE_BIT =? 0 then Ok (None, memories)
                      else
                        let memory_offset := wrap64 (h_offset o + offset) in
                        if negb has_device then Ok (None, memories)
                        else
                          let* bytes := match contents !! memory with Some b => Ok b | None => Fail OutOfRange end in
                          let inside := (m_offset m <=? memory_offset) && (wrap64 (m_offset m + m_size m) >=? wrap64 (memory_offset + Z.of_nat size)) in
                          match ptr m with
                          | Some p =>
                              if inside then
                                let* bs := read_window p bytes (memory_offset - m_offset m) size in Ok (Some bs, memories)
                              else if map_fails memory memory_offset (Z.of_nat size) then
                                let* memories := restore_mapping true memory m memories in Ok (None, memories)
                              else
                                let* bs := read_window (wrap_vkMapMemory memory memory_offset (Z.of_nat size)) bytes 0 size in
                                let* memories := restore_mapping true memory m memories in Ok (Some bs, memories)
                          | None =>
                              if map_fails memory memory_offset (Z.of_nat size) then Ok (None, memories)
                              else
                                let* bs := read_window (wrap_vkMapMemory memory memory_offset (Z.of_nat size)) bytes 0 size in
                                Ok (Some bs, memories)
                          end
                  end
              end
        end
    end.

(** a region of the indirect command: its address, size and stride, from byte [pos] on *)
Definition indirect_region (indirect : list byte) (pos : nat) : strided_region :=
  StridedRegion (le_decode (slice pos 8 indirect)) (le_decode (slice (pos + 16) 8 indirect)) (le_decode (slice (pos + 8) 8 indirect)).

(** the record of the ray generation shader has no stride of its own *)
Definition raygen_region (indirect : list byte) : strided_region :=
  StridedRegion (le_decode (slice 0 8 indirect)) (le_decode (slice 8 8 indirect)) (le_decode (slice 8 8 indirect)).

Definition trace_post_vkCmdTraceRaysIndirect2KHR (commandBuffer indirectDeviceAddress : Z) (st : bindings) (memories : list hostmemory)
    : outcome (bindings * list hostmemory) :=
  let* c := at_ (VkCommandBuffer_index st) commandBuffer in
  match c with
  | None => Ok (st, memories)
  | Some _ =>
      let* st := trace_touch_buffer_by_address commandBuffer indirectDeviceAddress (Z.of_nat sizeof_VkTraceRaysIndirectCommand2KHR) st in
      let* (read, memories) := trace_read_buffer_by_address indirectDeviceAddress sizeof_VkTraceRaysIndirectCommand2KHR memories in
      match read with
      | None => Ok (st, memories)
      | Some indirect =>
          let* st := touch_tables commandBuffer (Some (raygen_region indirect)) (Some (indirect_region indirect 16))
                       (Some (indirect_region indirect 40)) (Some (indirect_region indirect 64)) st in
          Ok (st, memories)
      end
  end.
End Reading.
End Addresses.
