(* ===== verification/AddressReads.v ===== *)
(** * The data that builds and rays read by address is noted

    A call of the application that names data by device address leaves all the
    bytes that the device reads in the notes of its command buffer. *)

From Stdlib Require Import ZArith Lia Bool Sorted.
From Stdlib.Strings Require Import Byte.
From stdpp Require Import base numbers list gmap.
From S2P Require Import Prelude RangeTracking Patch Memory Packets Containers Translate Templates Updates HostMemory HostMemoryInv DescriptorSets DescriptorNotes ShaderTables AddressTouches.

#[local] Open Scope Z_scope.

Section Reads.
Context (objects : list hostobject) (is_sbt : nat -> bool) (ex : existing).

(** ** The buffer that is found *)

(** a usable buffer with all of the range *)
Definition holds (obj : nat) (o : hostobject) (address size : Z) : Prop :=
  objects !! obj = Some o /\ exists b, buffer_of is_sbt obj o = Some b /\ holds_range address size b = true.

Definition chosen_ok (address size : Z) (best : option (nat * address_buffer)) : Prop :=
  match best with
  | None => True
  | Some (obj, b) => exists o, objects !! obj = Some o /\ buffer_of is_sbt obj o = Some b /\ holds_range address size b = true
  end.

Lemma choose_buffer_ok address size obj o best : objects !! obj = Some o -> chosen_ok address size best ->
  chosen_ok address size (choose_buffer is_sbt address size obj o best) /\
  (choose_buffer is_sbt address size obj o best = None -> best = None /\ ~ holds obj o address size).
Proof.
  intros Ho Hb. unfold choose_buffer. destruct (buffer_of is_sbt obj o) as [b|] eqn:Eb.
  - destruct (holds_range address size b) eqn:Eh.
    + assert (Hok : chosen_ok address size (Some (obj, b))) by (by exists o). destruct best as [[obj' b']|]; [destruct (better_buffer b b')|]; done.
    + split; [done|]. intros ->. split; [done|]. intros (_ & b' & E & E'). congruence.
  - split; [done|]. intros ->. split; [done|]. intros (_ & b' & E & _). congruence.
Qed.

Lemma find_object_from_ok address size rest : forall obj best, (forall i o, rest !! i = Some o -> objects !! (obj + i)%nat = Some o) ->
  chosen_ok address size best ->
  chosen_ok address size (find_object_from is_sbt address size rest obj best) /\
  (find_object_from is_sbt address size rest obj best = None -> best = None /\ forall i o, rest !! i = Some o -> ~ holds (obj + i) o address size).
Proof.
  induction rest as [|o rest IH]; intros obj best Hidx Hb; cbn [find_object_from]; [done|].
  pose proof (Hidx 0%nat o eq_refl) as Ho. rewrite Nat.add_0_r in Ho.
  destruct (choose_buffer_ok address size obj o best Ho Hb) as [H1 H2].
  destruct (IH (Datatypes.S obj) (choose_buffer is_sbt address size obj o best)) as [H3 H4].
  - intros i o' Hi. rewrite Nat.add_succ_comm. by apply (Hidx (Datatypes.S i)).
  - done.
  - split; [done|]. intros E. apply H4 in E as [E1 E2]. apply H2 in E1 as [-> Hno]. split; [done|].
    intros [|i] o' Hi; [injection Hi as <-; by rewrite Nat.add_0_r|]. rewrite <- Nat.add_succ_comm. by apply E2.
Qed.

(** [find_buffer_object] finds a buffer that holds the range when there is one *)
Lemma find_buffer_object_ok address size obj0 o0 : holds obj0 o0 address size ->
  exists obj o, find_buffer_object objects is_sbt address size = Some (obj, address - h_device_address o) /\ holds obj o address size.
Proof.
  intros Hh. destruct (find_object_from_ok address size objects 0 None) as [H1 H2]; [done|done|].
  unfold find_buffer_object. destruct (find_object_from is_sbt address size objects 0 None) as [[obj b]|] eqn:E.
  - destruct H1 as (o & Ho & Hb & Hr). exists obj, o. cbn [option_map fst snd]. split; [|split; [done|by exists b]].
    unfold buffer_of in Hb. destruct (bool_decide _); [|done]. injection Hb as <-. done.
  - destruct (H2 eq_refl) as [_ Hno]. exfalso. destruct Hh as (Ho & Hb). apply (Hno obj0 o0 Ho). by split.
Qed.

Lemma holds_inside obj o address size : holds obj o address size -> 0 <= size ->
  h_device_address o <= address /\ address - h_device_address o + size <= h_size o /\ h_type o = VK_OBJECT_TYPE_BUFFER.
Proof.
  intros (_ & b & Hb & Hr) Hs. unfold buffer_of in Hb. destruct (bool_decide (h_type o = VK_OBJECT_TYPE_BUFFER)) eqn:Et; [|done].
  injection Hb as <-. apply bool_decide_eq_true in Et. unfold holds_range in Hr. cbn [ab_state ab_device_address ab_size] in Hr.
  rewrite !andb_true_iff, !negb_true_iff, !orb_false_iff in Hr. destruct_and!. bool_to_prop. split; [lia|]. split; [lia|done].
Qed.

(** the sibling definition, which returns the buffer without its index, finds the same *)
Lemma find_agrees address size rest : forall obj best,
  option_map (fun p => (p.2, address - ab_device_address p.2)) (find_object_from is_sbt address size rest obj best) =
  foldl (find_buffer_step address size) (option_map (fun p => (p.2, address - ab_device_address p.2)) best)
    (imap (fun i o => buffer_of is_sbt (obj + i) o) rest).
Proof.
  induction rest as [|o rest IH]; intros obj best; cbn [find_object_from imap foldl]; [done|].
  rewrite IH, Nat.add_0_r. f_equal.
  - unfold choose_buffer, find_buffer_step. destruct (buffer_of is_sbt obj o) as [b|]; [|done]. destruct (holds_range address size b); [|done].
    destruct best as [[obj' b']|]; [|done]. cbn [option_map snd]. by destruct (better_buffer b b').
  - apply imap_ext. intros i o' _. cbn. by rewrite Nat.add_succ_r.
Qed.
(** ** Operations that note what is read *)

(** addresses and sizes of objects as a device gives them *)
Definition objects_sane : Prop :=
  forall obj o, objects !! obj = Some o -> 0 <= h_device_address o /\ 0 < h_size o <= INT64_MAX.

Definition held (address size : Z) : Prop := exists obj o, holds obj o address size.

(** the byte at the address is noted, unless the host cannot write to it *)
Definition noted (P : nat -> Z -> Prop) (a : Z) : Prop :=
  exists obj o, objects !! obj = Some o /\ h_device_address o <= a < h_device_address o + h_size o /\
    (h_accessible o = true -> P obj (a - h_device_address o)).

(** the operation succeeds and notes for the command buffer at least all of [R] *)
Definition notes_reads (c : Z) (op : bindings -> outcome bindings) (R : Z -> Prop) : Prop :=
  forall st n, refines ex st n -> exists st' P, op st = Ok st' /\ refines ex st' (add_cmd n c P) /\ forall a, R a -> noted P a.

Lemma noted_more (P Q : nat -> Z -> Prop) a : (forall o x, P o x -> Q o x) -> noted P a -> noted Q a.
Proof. intros Hpq (obj & o & Ho & Ha & Hp). exists obj, o. auto. Qed.

Lemma notes_nothing c R : (forall a, ~ R a) -> notes_reads c (fun st => Ok st) R.
Proof.
  intros Hn st n Hr. exists st, (fun _ _ => False). split; [done|]. split; [|intros a Ha; by apply Hn in Ha].
  apply (refines_same _ _ _ _ Hr), (add_for_nothing (Some c) n 0). by intros o x [].
Qed.

Lemma notes_seq c op1 op2 R1 R2 R : notes_reads c op1 R1 -> notes_reads c op2 R2 -> (forall a, R a -> R1 a \/ R2 a) ->
  notes_reads c (fun st => let* st := op1 st in op2 st) R.
Proof.
  intros H1 H2 HR st n Hr. destruct (H1 st n Hr) as (st1 & P1 & -> & Hr1 & N1). cbn [obind].
  destruct (H2 st1 _ Hr1) as (st2 & P2 & E2 & Hr2 & N2). exists st2, (fun o x => P1 o x \/ P2 o x). split; [done|]. split.
  - apply (refines_same _ _ _ _ Hr2), (add_for_twice (Some c) n 0).
  - intros a Ha. apply HR in Ha as [Ha|Ha]; [apply (noted_more P1), N1|apply (noted_more P2), N2]; auto.
Qed.

Lemma notes_weaken c op R R' : notes_reads c op R -> (forall a, R' a -> R a) -> notes_reads c op R'.
Proof. intros H HR st n Hr. destruct (H st n Hr) as (st' & P & E & Hr' & N). exists st', P. auto. Qed.

Lemma notes_ext c op op' R : (forall st, op st = op' st) -> notes_reads c op R -> notes_reads c op' R.
Proof. intros He H st n Hr. rewrite <- He. by apply H. Qed.

Section Sane.
Context (Hsane : objects_sane) (c : Z) (Hc : c ∈ ex_cmds ex).

(** touching bytes of a buffer that was found *)
Lemma touch_found_notes obj o address size touch_size : holds obj o address (Z.max 1 size) -> 0 <= size ->
  spanned o (address - h_device_address o) touch_size = (if size =? 0 then h_size o - (address - h_device_address o) else size) ->
  notes_reads c (cmdbuf_touch objects c obj (address - h_device_address o) touch_size) (fun a => address <= a < address + size).
Proof.
  intros Hh Hs Hsp st n Hr. destruct (holds_inside _ _ _ _ Hh ltac:(lia)) as (H1 & H2 & _). destruct Hh as (Ho & _). destruct (Hsane _ _ Ho) as (H3 & H4 & H5).
  destruct (touch_for_refines objects ex (Some c) 0 obj o (address - h_device_address o) touch_size st n Hr Hc Ho) as (st' & E & Hr').
  - split; [lia|]. rewrite Hsp. destruct (Z.eqb_spec size 0); lia.
  - exists st', (fun ob x => ob = obj /\ touches_byte objects obj (address - h_device_address o) touch_size x). split; [exact E|]. split; [exact Hr'|].
    intros a Ha. exists obj, o. split; [done|]. split; [lia|]. intros Hacc. split; [done|]. exists o. split; [done|]. split; [done|].
    rewrite Hsp. destruct (Z.eqb_spec size 0); lia.
Qed.

(** the range is in a buffer, and does not wrap around *)
Definition range_held (address size : Z) : Prop :=
  0 < address /\ 0 <= size /\ address + size <= UINT64_MAX /\ held address (Z.max 1 size).

Lemma touch_by_address_notes address size : range_held address size ->
  notes_reads c (trace_touch_buffer_by_address objects is_sbt c address size) (fun a => address <= a < address + size).
Proof.
  intros (H0 & H1 & H2 & obj0 & o0 & Hh). destruct (find_buffer_object_ok address (Z.max 1 size) obj0 o0 Hh) as (obj & o & E & Ho).
  pose proof (holds_inside _ _ _ _ Ho ltac:(lia)) as (H3 & H4 & _). destruct (Hsane _ _ (proj1 Ho)) as (H5 & H6 & H7).
  intros st n Hr. unfold trace_touch_buffer_by_address. rewrite (proj2 (Z.eqb_neq address 0)) by lia.
  replace (if size =? 0 then 1 else size) with (Z.max 1 size) by (destruct (Z.eqb_spec size 0); lia). rewrite E.
  unfold size_of_object. rewrite (proj1 Ho). cbn [obind]. rewrite (wrap64_small (h_size o - _)) by u_lia.
  apply touch_found_notes; [done|done| |done]. destruct (Z.eqb_spec size 0) as [->|Hne].
  - unfold spanned. rewrite Z.eqb_refl. apply wrap64_small. u_lia.
  - rewrite Z.gtb_ltb, (proj2 (Z.ltb_ge _ _)) by lia. unfold spanned. rewrite (proj2 (Z.eqb_neq size VK_WHOLE_SIZE)); [done|]. unfold VK_WHOLE_SIZE. u_lia.
Qed.

(** a region of a shader binding table that is used *)
Definition region_held (region : option strided_region) : Prop :=
  match region with
  | None => True
  | Some r => sr_deviceAddress r = 0 \/ sr_size r = 0 \/ range_held (sr_deviceAddress r) (sr_size r)
  end.

Definition region_reads (region : option strided_region) (a : Z) : Prop :=
  match region with
  | None => False
  | Some r => sr_deviceAddress r <> 0 /\ sr_deviceAddress r <= a < sr_deviceAddress r + sr_size r
  end.

Lemma touch_region_notes region : region_held region -> notes_reads c (trace_touch_sbt_region objects is_sbt c region) (region_reads region).
Proof.
  intros Hh. destruct region as [r|]; [|apply notes_nothing; by intros a []]. cbn [region_held region_reads] in *. unfold trace_touch_sbt_region.
  destruct (Z.eqb_spec (sr_deviceAddress r) 0) as [E0|Hn0]; cbn [orb]; [apply notes_nothing; by intros a [? _]|].
  destruct (Z.eqb_spec (sr_size r) 0) as [E1|Hn1]; [apply notes_nothing; intros a [_ Ha]; lia|].
  destruct Hh as [?|[?|(H0 & H1 & H2 & obj0 & o0 & Hh)]]; [done|done|]. rewrite Z.max_r in Hh by lia.
  destruct (find_buffer_object_ok _ _ obj0 o0 Hh) as (obj & o & -> & Ho).
  pose proof (holds_inside _ _ _ _ Ho ltac:(lia)) as (H3 & H4 & _). destruct (Hsane _ _ (proj1 Ho)) as (H5 & H6 & H7).
  eapply notes_weaken; [apply (touch_found_notes obj o (sr_deviceAddress r) (sr_size r))|by intros a [_ ?]].
  - by rewrite Z.max_r by lia.
  - lia.
  - rewrite (proj2 (Z.eqb_neq (sr_size r) 0)) by done. unfold spanned. rewrite (proj2 (Z.eqb_neq (sr_size r) VK_WHOLE_SIZE)); [done|]. unfold VK_WHOLE_SIZE. u_lia.
Qed.
(** ** What the device reads *)

(** the addresses that a build reads of a geometry: the vertices up to the largest,
    behind [br_primitiveOffset] when there are no indices *)
Inductive geometry_reads (r : build_range) : geometry -> Z -> Prop :=
  | reads_vertex vd vs mv id it td v b : vd <> 0 -> 0 <= v <= mv -> 0 <= b < vs ->
      geometry_reads r (Triangles vd vs mv id it td) (vd + (if has_indices id it then 0 else br_primitiveOffset r) + v * vs + b)
  | reads_index vd vs mv id it td k : has_indices id it = true -> 0 <= k < br_primitiveCount r * 3 * index_bytes it ->
      geometry_reads r (Triangles vd vs mv id it td) (id + br_primitiveOffset r + k)
  | reads_transform vd vs mv id it td k : td <> 0 -> 0 <= k < sizeof_VkTransformMatrixKHR ->
      geometry_reads r (Triangles vd vs mv id it td) (td + br_transformOffset r + k)
  | reads_box data stride p b : 0 <= p < br_primitiveCount r -> 0 <= b < stride ->
      geometry_reads r (Aabbs data stride) (data + br_primitiveOffset r + p * stride + b)
  | reads_instance data p b : 0 <= p < br_primitiveCount r -> 0 <= b < sizeof_VkAccelerationStructureInstanceKHR ->
      geometry_reads r (Instances false data) (data + br_primitiveOffset r + p * sizeof_VkAccelerationStructureInstanceKHR + b).

(** the data lies in buffers whose address was taken *)
Definition geometry_valid (r : build_range) (geo : geometry) : Prop :=
  match geo with
  | Triangles vd vs mv id it td =>
      0 <= vs /\ 0 <= mv < UINT32_MAX /\ (vd <> 0 -> 0 < vs -> range_held vd ((mv + 1) * vs)) /\
      (has_indices id it = true -> range_held (id + br_primitiveOffset r) (br_primitiveCount r * 3 * index_bytes it) /\ 0 <= id + br_primitiveOffset r) /\
      (td <> 0 -> range_held (td + br_transformOffset r) sizeof_VkTransformMatrixKHR)
  | Aabbs data stride => 0 < stride /\ range_held (data + br_primitiveOffset r) (br_primitiveCount r * stride)
  | Instances pointers data => pointers = false /\
      range_held (data + br_primitiveOffset r) (br_primitiveCount r * sizeof_VkAccelerationStructureInstanceKHR)
  | OtherGeometry => True
  end.

(** the vertices that are noted begin at the address of the vertices even where the
    device begins [br_primitiveOffset] behind it: the last bytes of these are missed *)
Definition geometry_missed (r : build_range) (geo : geometry) (a : Z) : Prop :=
  match geo with
  | Triangles vd vs mv id it td =>
      vd <> 0 /\ has_indices id it = false /\ vd + (mv + 1) * vs <= a < vd + br_primitiveOffset r + (mv + 1) * vs
  | _ => False
  end.

#[export] Instance geometry_missed_dec r geo a : Decision (geometry_missed r geo a).
Proof. destruct geo; apply _. Defined.

Definition geometry_noted (r : build_range) (geo : geometry) (a : Z) : Prop := geometry_reads r geo a /\ ~ geometry_missed r geo a.

Lemma range_held_u64 address size : range_held address size -> u64 address /\ u64 size.
Proof. intros (H0 & H1 & H2 & _). u_lia. Qed.

(** a touch whose address and size are computed without wrapping *)
Lemma touch_wrapped_notes address size : range_held address size ->
  notes_reads c (trace_touch_buffer_by_address objects is_sbt c (wrap64 address) (wrap64 size)) (fun a => address <= a < address + size).
Proof. intros Hh. destruct (range_held_u64 _ _ Hh). rewrite !wrap64_small by done. by apply touch_by_address_notes. Qed.

Lemma element_ok {A} (l : list A) g a : l !! g = Some a -> element l g = Ok a.
Proof. intros E. unfold element. by rewrite E. Qed.

Lemma triangles_notes l g r vd vs mv id it td : l !! g = Some r -> 0 <= br_primitiveOffset r -> geometry_valid r (Triangles vd vs mv id it td) ->
  notes_reads c (touch_geometry objects is_sbt c (Some l) g (Triangles vd vs mv id it td)) (geometry_noted r (Triangles vd vs mv id it td)).
Proof.
  intros Hr Hoff (V1 & V2 & V3 & V4 & V5). unfold touch_geometry. rewrite (element_ok l g r Hr). cbn [obind].
  set (touch := trace_touch_buffer_by_address objects is_sbt c).
  apply (notes_seq c (fun st => if negb (vd =? 0) && (vs >? 0) then touch vd (vertex_size mv vs) st else Ok st)
    (fun st => let* st := (if has_indices id it then touch (wrap64 (id + br_primitiveOffset r)) (wrap64 (br_primitiveCount r * 3 * index_bytes it)) st else Ok st) in
      if negb (td =? 0) then touch (wrap64 (td + br_transformOffset r)) sizeof_VkTransformMatrixKHR st else Ok st)
    (fun a => vd <> 0 /\ 0 < vs /\ vd <= a < vd + (mv + 1) * vs)
    (fun a => (has_indices id it = true /\ id + br_primitiveOffset r <= a < id + br_primitiveOffset r + br_primitiveCount r * 3 * index_bytes it) \/
      (td <> 0 /\ td + br_transformOffset r <= a < td + br_transformOffset r + sizeof_VkTransformMatrixKHR))).
  - destruct (Z.eqb_spec vd 0) as [E0|Hn]; cbn [negb andb]; [apply notes_nothing; by intros a [? _]|].
    rewrite Z.gtb_ltb. destruct (Z.ltb_spec 0 vs) as [Hp|Hz]; [|apply notes_nothing; intros a (_ & ? & _); lia].
    specialize (V3 Hn Hp). unfold vertex_size. rewrite wrap32_small by u_lia. destruct (range_held_u64 _ _ V3). rewrite wrap64_small by done.
    eapply notes_weaken; [by apply touch_by_address_notes|]. by intros a (_ & _ & ?).
  - apply (notes_seq c (fun st => if has_indices id it then touch (wrap64 (id + br_primitiveOffset r)) (wrap64 (br_primitiveCount r * 3 * index_bytes it)) st else Ok st)
      (fun st => if negb (td =? 0) then touch (wrap64 (td + br_transformOffset r)) sizeof_VkTransformMatrixKHR st else Ok st)
      (fun a => has_indices id it = true /\ id + br_primitiveOffset r <= a < id + br_primitiveOffset r + br_primitiveCount r * 3 * index_bytes it)
      (fun a => td <> 0 /\ td + br_transformOffset r <= a < td + br_transformOffset r + sizeof_VkTransformMatrixKHR)).
    + destruct (has_indices id it); [|apply notes_nothing; by intros a [? _]]. destruct (V4 eq_refl) as [V4' _].
      eapply notes_weaken; [by apply touch_wrapped_notes|]. by intros a [_ ?].
    + destruct (Z.eqb_spec td 0) as [E0|Hn]; cbn [negb]; [apply notes_nothing; by intros a [? _]|]. specialize (V5 Hn).
      eapply notes_weaken; [by apply (touch_wrapped_notes _ _ V5)|]. by intros a [_ ?].
    + tauto.
  - intros a [Ha Hm]. cbn [geometry_missed] in Hm. inversion Ha; subst; [left|right; left|right; right].
    + split; [done|]. split; [lia|]. destruct (has_indices id it); [nia|]. split; [nia|]. apply Z.lt_nge. intros Hge. apply Hm.
      do 2 (split; [done|]). nia.
    + split; [done|]. lia.
    + split; [done|]. lia.
Qed.

Lemma geometry_notes l g r geo : l !! g = Some r -> 0 <= br_primitiveOffset r -> geometry_valid r geo ->
  notes_reads c (touch_geometry objects is_sbt c (Some l) g geo) (geometry_noted r geo).
Proof.
  intros Hr Hoff Hv. destruct geo as [vd vs mv id it td|data stride|pointers data|].
  - by apply triangles_notes.
  - destruct Hv as [Hs Hh]. unfold touch_geometry. rewrite Z.gtb_ltb, (proj2 (Z.ltb_lt _ _)) by done. rewrite (element_ok l g r Hr). cbn [obind].
    eapply notes_weaken; [by apply touch_wrapped_notes|]. intros a [Ha _]. inversion Ha; subst. nia.
  - destruct Hv as [-> Hh]. unfold touch_geometry. cbn [negb require obind]. rewrite (element_ok l g r Hr). cbn [obind].
    eapply notes_weaken; [by apply touch_wrapped_notes|]. intros a [Ha _]. inversion Ha; subst. unfold sizeof_VkAccelerationStructureInstanceKHR in *. lia.
  - unfold touch_geometry. apply notes_nothing. intros a [Ha _]. inversion Ha.
Qed.

(** addresses of the geometries of a build, each with its range *)
Definition geometries_have (which : build_range -> geometry -> Z -> Prop) (l : list build_range) (g0 : nat) (geos : list (option geometry))
    (a : Z) : Prop :=
  exists k geo r, geos !! k = Some (Some geo) /\ l !! (g0 + k)%nat = Some r /\ which r geo a.

Definition geometries_valid (l : list build_range) (g0 : nat) (geos : list (option geometry)) : Prop :=
  forall k geo, geos !! k = Some (Some geo) -> exists r, l !! (g0 + k)%nat = Some r /\ 0 <= br_primitiveOffset r /\ geometry_valid r geo.

Lemma geometries_notes l geos : forall g0, geometries_valid l g0 geos ->
  notes_reads c (touch_geometries (touch_geometry objects is_sbt c (Some l)) g0 geos) (geometries_have geometry_noted l g0 geos).
Proof.
  induction geos as [|geo geos IH]; intros g0 Hv.
  { apply notes_nothing. by intros a (k & ? & ? & ? & _). }
  assert (Hrest : geometries_valid l (Datatypes.S g0) geos) by (intros k x Hk; rewrite Nat.add_succ_comm; by apply (Hv (Datatypes.S k))).
  destruct geo as [geo|]; cbn [touch_geometries].
  - destruct (Hv 0%nat geo eq_refl) as (r & Hr & Hoff & Hok). rewrite Nat.add_0_r in Hr.
    apply (notes_seq c _ _ _ _ _ (geometry_notes l g0 r geo Hr Hoff Hok) (IH _ Hrest)).
    intros a ([|k] & x & r' & Hk & Hr' & Ha).
    + injection Hk as <-. rewrite Nat.add_0_r in Hr'. assert (r' = r) as -> by congruence. by left.
    + right. exists k, x, r'. by rewrite Nat.add_succ_comm.
  - eapply notes_weaken; [by apply IH|]. intros a ([|k] & x & r' & Hk & Hr' & Ha); [done|]. exists k, x, r'. by rewrite Nat.add_succ_comm.
Qed.

Definition build_has (which : build_range -> geometry -> Z -> Prop) (info : build) (a : Z) : Prop :=
  exists l, b_ranges info = Some l /\ geometries_have which l 0 (b_geometries info) a.
Definition build_valid (info : build) : Prop := exists l, b_ranges info = Some l /\ geometries_valid l 0 (b_geometries info).

Lemma builds_notes infos : Forall build_valid infos ->
  notes_reads c (touch_builds objects is_sbt c infos) (fun a => Exists (fun info => build_has geometry_noted info a) infos).
Proof.
  induction 1 as [|info infos (l & El & Hv) Hf IH]; cbn [touch_builds]; [apply notes_nothing; intros a Hn; by apply Exists_nil in Hn|].
  rewrite El. apply (notes_seq c _ _ _ _ _ (geometries_notes l (b_geometries info) 0 Hv) IH).
  intros a Ha. apply Exists_cons in Ha as [(l' & El' & Ha)|Ha]; [left; congruence|by right].
Qed.

Lemma tables_notes raygen miss hit callable : region_held raygen -> region_held miss -> region_held hit -> region_held callable ->
  notes_reads c (AddressTouches.touch_tables objects is_sbt c raygen miss hit callable)
    (fun a => region_reads raygen a \/ region_reads miss a \/ region_reads hit a \/ region_reads callable a).
Proof.
  intros H1 H2 H3 H4. unfold AddressTouches.touch_tables.
  apply (notes_seq c _ _ _ _ _ (touch_region_notes raygen H1) (notes_seq c _ _ _ _ (fun a => _ a \/ _ a \/ _ a) (touch_region_notes miss H2)
    (notes_seq c _ _ _ _ (fun a => _ a \/ _ a) (touch_region_notes hit H3) (touch_region_notes callable H4) (fun a Ha => Ha)) (fun a Ha => Ha))).
  done.
Qed.

Lemma for_cmdbuf_notes body R : notes_reads c body R -> notes_reads c (fun st => for_cmdbuf c st (body st)) R.
Proof.
  intros H st n Hr. unfold for_cmdbuf. destruct (rf_cmd _ _ _ Hr c Hc) as (b & E & _). rewrite (at_ok _ _ _ E). cbn [obind]. by apply H.
Qed.
End Sane.

(** ** Commands *)

Inductive address_command :=
  | BuildAccelerationStructures (infos : list build)
  | TraceRays (raygen miss hit callable : option strided_region)
  | TraceRaysIndirect (raygen miss hit callable : option strided_region) (indirectDeviceAddress : Z).

Definition do_command (commandBuffer : Z) (x : address_command) (st : bindings) : outcome bindings :=
  match x with
  | BuildAccelerationStructures infos => trace_post_vkCmdBuildAccelerationStructuresKHR objects is_sbt commandBuffer infos st
  | TraceRays raygen miss hit callable => trace_post_vkCmdTraceRaysKHR objects is_sbt commandBuffer raygen miss hit callable st
  | TraceRaysIndirect raygen miss hit callable indirectDeviceAddress =>
      trace_post_vkCmdTraceRaysIndirectKHR objects is_sbt commandBuffer raygen miss hit callable indirectDeviceAddress st
  end.

Fixpoint do_commands (commandBuffer : Z) (xs : list address_command) (st : bindings) : outcome bindings :=
  match xs with
  | [] => Ok st
  | x :: xs => let* st := do_command commandBuffer x st in do_commands commandBuffer xs st
  end.

(** the addresses that the device reads for a command, and that its data lies in buffers *)
Definition command_has (which : build_range -> geometry -> Z -> Prop) (x : address_command) (a : Z) : Prop :=
  match x with
  | BuildAccelerationStructures infos => Exists (fun info => build_has which info a) infos
  | TraceRays raygen miss hit callable => region_reads raygen a \/ region_reads miss a \/ region_reads hit a \/ region_reads callable a
  | TraceRaysIndirect raygen miss hit callable address =>
      (region_reads raygen a \/ region_reads miss a \/ region_reads hit a \/ region_reads callable a) \/
      address <= a < address + sizeof_VkTraceRaysIndirectCommandKHR
  end.

Definition command_reads : address_command -> Z -> Prop := command_has geometry_reads.

(** vertices of a build that are not noted *)
Definition command_missed (x : address_command) (a : Z) : Prop :=
  match x with
  | BuildAccelerationStructures infos => Exists (fun info => build_has geometry_missed info a) infos
  | _ => False
  end.

Lemma reads_noted_or_missed x a : command_reads x a -> command_has geometry_noted x a \/ command_missed x a.
Proof.
  destruct x as [infos| |]; cbn; [|by left|by left]. rewrite !Exists_exists. intros (info & Hin & l & El & k & geo & r & Eg & Er & Ha).
  destruct (decide (geometry_missed r geo a)); [right|left]; (exists info; split; [done|]; exists l; split; [done|]; by exists k, geo, r).
Qed.

Definition command_valid (x : address_command) : Prop :=
  match x with
  | BuildAccelerationStructures infos => Forall build_valid infos
  | TraceRays raygen miss hit callable => region_held raygen /\ region_held miss /\ region_held hit /\ region_held callable
  | TraceRaysIndirect raygen miss hit callable address =>
      (region_held raygen /\ region_held miss /\ region_held hit /\ region_held callable) /\
      range_held address sizeof_VkTraceRaysIndirectCommandKHR
  end.

Lemma command_notes c x : objects_sane -> c ∈ ex_cmds ex -> command_valid x -> notes_reads c (do_command c x) (command_has geometry_noted x).
Proof.
  intros Hs Hc Hv. destruct x as [infos|raygen miss hit callable|raygen miss hit callable address]; cbn [do_command command_has command_valid] in *.
  - apply for_cmdbuf_notes; [done|]. by apply builds_notes.
  - destruct Hv as (? & ? & ? & ?). apply for_cmdbuf_notes; [done|]. by apply tables_notes.
  - destruct Hv as ((? & ? & ? & ?) & Hh). eapply (notes_seq c _ _ (fun a => _ a \/ _ a \/ _ a \/ _ a)).
    + apply for_cmdbuf_notes; [done|]. by apply tables_notes.
    + apply for_cmdbuf_notes; [done|]. by apply touch_by_address_notes.
    + done.
Qed.

Lemma commands_notes c xs : objects_sane -> c ∈ ex_cmds ex -> Forall command_valid xs ->
  notes_reads c (do_commands c xs) (fun a => Exists (fun x => command_has geometry_noted x a) xs).
Proof.
  intros Hs Hc. induction 1 as [|x xs Hx Hxs IH]; cbn [do_commands]; [apply notes_nothing; intros a Hn; by apply Exists_nil in Hn|].
  apply (notes_seq c _ _ _ _ _ (command_notes c x Hs Hc Hx) IH). intros a Ha. by apply Exists_cons in Ha.
Qed.
End Reads.

(** ** Tables that are named in memory *)

Section Indirect.
Context (objects : list hostobject) (is_sbt : nat -> bool) (ex : existing).
Context (wrap_vkMapMemory : nat -> Z -> Z -> window) (map_fails : nat -> Z -> Z -> bool).
Context (contents : list (list byte)) (has_device : bool).

(** a mapping reaches the bytes that were asked for *)
Definition reaches (p : window) (offset size : Z) : Prop := w_base p = offset /\ size <= w_size p.

Lemma read_window_bytes p bytes offset size_mapped pos n : reaches p offset size_mapped -> pos + Z.of_nat n <= size_mapped ->
  offset + pos + Z.of_nat n <= Z.of_nat (length bytes) -> read_window p bytes pos n = Ok (slice (Z.to_nat (offset + pos)) n bytes).
Proof.
  intros [<- Hs] Hp Hl. unfold read_window. rewrite (proj2 (Z.leb_le _ _)) by lia. cbn [require obind]. by rewrite load_ok by lia.
Qed.

(** what is read is what the memory of a buffer with the address holds there,
    through whatever mapping *)
Lemma read_by_address address n obj0 o0 memories : holds objects is_sbt obj0 o0 address (Z.of_nat n) -> address <> 0 -> n <> 0%nat ->
  objects_sane objects -> has_device = true ->
  (forall memory offset size, reaches (wrap_vkMapMemory memory offset size) offset size /\ map_fails memory offset size = false) ->
  (forall obj o memory m b, objects !! obj = Some o -> h_backing o = Some memory -> memories !! memory = Some m -> contents !! memory = Some b ->
    0 <= h_offset o /\ h_offset o + h_size o <= Z.of_nat (length b) <= INT64_MAX /\
    (forall p, ptr m = Some p -> reaches p (m_offset m) (m_size m) /\ 0 <= m_offset m /\ 0 <= m_size m /\ m_offset m + m_size m <= INT64_MAX)) ->
  (forall obj o, objects !! obj = Some o -> exists memory m b, h_backing o = Some memory /\ memories !! memory = Some m /\ contents !! memory = Some b /\
    Z.land (propertyFlags m) VK_MEMORY_PROPERTY_HOST_VISIBLE_BIT <> 0) ->
  exists obj o memory b memories', holds objects is_sbt obj o address (Z.of_nat n) /\ h_backing o = Some memory /\ contents !! memory = Some b /\
    trace_read_buffer_by_address objects is_sbt wrap_vkMapMemory map_fails contents has_device address n memories =
      Ok (Some (slice (Z.to_nat (h_offset o + (address - h_device_address o))) n b), memories').
Proof.
  intros Hh H0 Hn Hsane -> Hmap Hmem Hback. destruct (find_buffer_object_ok objects is_sbt address _ obj0 o0 Hh) as (obj & o & E & Ho).
  pose proof (holds_inside _ _ _ _ _ _ Ho ltac:(lia)) as (H1 & H2 & _). destruct (Hsane _ _ (proj1 Ho)) as (H3 & H4 & H5).
  destruct (Hback obj o (proj1 Ho)) as (memory & m & b & Hb & Hm & Hc & Hv). destruct (Hmem obj o memory m b (proj1 Ho) Hb Hm Hc) as (K1 & K2 & K3).
  unfold trace_read_buffer_by_address. rewrite (proj2 (Z.eqb_neq address 0)), (proj2 (Nat.eqb_neq n 0)) by done. cbn [orb]. rewrite E, (proj1 Ho).
  rewrite wrap64_small by u_lia. rewrite Z.gtb_ltb, (proj2 (Z.ltb_ge _ _)) by lia. rewrite Hb, Hm, (proj2 (Z.eqb_neq _ 0)) by done. cbn [negb].
  rewrite Hc. cbn [obind]. rewrite (wrap64_small (h_offset o + _)) by u_lia. set (pos := h_offset o + (address - h_device_address o)).
  assert (Hfresh : read_window (wrap_vkMapMemory memory pos (Z.of_nat n)) b 0 n = Ok (slice (Z.to_nat pos) n b)).
  { rewrite (read_window_bytes _ _ pos (Z.of_nat n)) by (apply Hmap || lia). by rewrite Z.add_0_r. }
  destruct (ptr m) as [p|] eqn:Ep.
  - destruct (K3 p eq_refl) as (R1 & R2 & R3 & R4). rewrite (wrap64_small (m_offset m + m_size m)), (wrap64_small (pos + Z.of_nat n)) by u_lia.
    destruct (_ && _) eqn:Ein.
    + bool_to_prop. rewrite (read_window_bytes p b (m_offset m) (m_size m)) by (done || lia).
      replace (m_offset m + (pos - m_offset m)) with pos by lia. cbn [obind]. exists obj, o, memory, b, memories. done.
    + rewrite (proj2 (Hmap memory pos (Z.of_nat n))), Hfresh. cbn [obind]. unfold restore_mapping. rewrite (proj2 (Hmap memory (m_offset m) (m_size m))).
      cbn [negb require obind]. eexists obj, o, memory, b, _. done.
  - rewrite (proj2 (Hmap memory pos (Z.of_nat n))), Hfresh. cbn [obind]. exists obj, o, memory, b, memories. done.
Qed.

(** the tables that the command in memory names are noted like those of a direct call *)
Lemma indirect2_notes c address st n indirect memories memories' : refines ex st n -> objects_sane objects -> c ∈ ex_cmds ex ->
  range_held objects is_sbt address (Z.of_nat sizeof_VkTraceRaysIndirectCommand2KHR) ->
  trace_read_buffer_by_address objects is_sbt wrap_vkMapMemory map_fails contents has_device address sizeof_VkTraceRaysIndirectCommand2KHR memories = Ok (Some indirect, memories') ->
  let regions := [raygen_region indirect; indirect_region indirect 16; indirect_region indirect 40; indirect_region indirect 64] in
  Forall (fun r => region_held objects is_sbt (Some r)) regions ->
  exists st' P, trace_post_vkCmdTraceRaysIndirect2KHR objects is_sbt wrap_vkMapMemory map_fails contents has_device c address st memories = Ok (st', memories') /\
    refines ex st' (add_cmd n c P) /\
    forall a, (address <= a < address + Z.of_nat sizeof_VkTraceRaysIndirectCommand2KHR \/ Exists (fun r => region_reads (Some r) a) regions) -> noted objects P a.
Proof.
  intros Hr Hs Hc Hh Hread regions Hf. repeat (apply Forall_cons in Hf as [? Hf]).
  unfold trace_post_vkCmdTraceRaysIndirect2KHR. destruct (rf_cmd _ _ _ Hr c Hc) as (b & E & _). rewrite (at_ok _ _ _ E). cbn [obind].
  destruct (notes_seq objects ex c _ _ _ (fun a => _ a \/ _ a \/ _ a \/ _ a) (fun a => _ a \/ (_ a \/ _ a \/ _ a \/ _ a)) (touch_by_address_notes objects is_sbt ex Hs c Hc address _ Hh)
    (tables_notes objects is_sbt ex Hs c Hc (Some (raygen_region indirect)) (Some (indirect_region indirect 16)) (Some (indirect_region indirect 40)) (Some (indirect_region indirect 64))
      ltac:(done) ltac:(done) ltac:(done) ltac:(done)) (fun a Ha => Ha) st n Hr) as (st' & P & E' & Hr' & N).
  exists st', P. destruct (trace_touch_buffer_by_address _ _ _ _ _ st) as [st1|]; [|done]. cbn [obind] in E' |- *. rewrite Hread. cbn [obind]. rewrite E'. cbn [obind].
  split; [done|]. split; [done|]. intros a Ha. apply N. unfold regions in Ha. rewrite !Exists_cons, Exists_nil in Ha. tauto.
Qed.
End Indirect.

(** ** Properties *)

(** C17: builds of acceleration structures with ranges and traces of rays, direct or
    with their size in memory, succeed when their data lies in buffers whose address was
    taken and instances are not given by pointers, and leave every byte that the device reads by address in the notes of the
    command buffer, whichever of the buffers at an address is chosen, with one
    exception: of vertices without indices that begin at an offset, the bytes behind
    where they would end without it ([command_missed], [offset_vertices_missed]).
    Nothing loses notes, and no other command buffer or set gains any. Buffers that the
    host cannot write to need none. *)
Theorem addressed_data_noted (objects : list hostobject) (is_sbt : nat -> bool) (ex : existing) (c : Z) (xs : list address_command)
    (st : bindings) (n : notes)
    (Hst : refines ex st n) (Hsane : objects_sane objects) (Hc : c ∈ ex_cmds ex)
    (Hvalid : Forall (command_valid objects is_sbt) xs) :
  exists st' n', do_commands objects is_sbt c xs st = Ok st' /\ refines ex st' n' /\
    (forall x a, x ∈ xs -> command_reads x a -> noted objects (n_cmd n' c) a \/ command_missed x a) /\
    (forall o x, n_cmd n c o x -> n_cmd n' c o x) /\
    (forall h o x, n_set n' h o x <-> n_set n h o x) /\
    forall c' o x, c' <> c -> n_cmd n' c' o x <-> n_cmd n c' o x.
Proof.
  destruct (commands_notes objects is_sbt ex c xs Hsane Hc Hvalid st n Hst) as (st' & P & E & Hr & N).
  exists st', (add_cmd n c P). split; [done|]. split; [done|]. split; [|split; [by left|split; [done|]]].
  - intros x a Hin Ha. destruct (reads_noted_or_missed x a Ha) as [Hn|Hm]; [left|by right].
    apply (noted_more _ P); [by right|]. apply N. apply Exists_exists. by exists x.
  - intros c' o x Hne. split; [intros [?|[? _]]; done|by left].
Qed.

(** ** A build and a trace *)

Definition address_data : hostobject := HostObject (Trackable 0 bound no_change) VK_OBJECT_TYPE_BUFFER 0 (Some 0%nat) 0 4096 true 65536 None 0 0.
Definition address_objects : list hostobject :=
  [address_data;
   HostObject (Trackable 1 bound no_change) VK_OBJECT_TYPE_BUFFER 0 (Some 0%nat) 4096 256 true 131072 None 0 0].
Definition address_sbt (obj : nat) : bool := Nat.eqb obj 1.
Definition address_start : bindings := Bindings ∅ {[ 200 := Some (CmdBuffer 0 [] false) ]}.
Definition address_existing : existing := Existing ∅ {[ 200 ]}.
Definition silent_notes : notes := Notes (fun _ _ _ => False) (fun _ _ _ => False) (fun _ _ => None).
Definition indexed_triangles : geometry := Triangles 65536 12 2 65600 VK_INDEX_TYPE_UINT16 0.
Definition address_commands : list address_command :=
  [BuildAccelerationStructures [Build [Some indexed_triangles; None; Some (Instances false 65792)]
     (Some [BuildRange 1 4 0 0; BuildRange 0 0 0 0; BuildRange 2 64 0 0])];
   TraceRays (Some (StridedRegion 131072 32 64)) None (Some (StridedRegion 0 0 0)) None].

Example address_commands_run :
  used_ranges (do_commands address_objects address_sbt 200 address_commands address_start) 200 =
  [(0%nat, [Range 0 35; Range 68 73; Range 320 447]); (1%nat, [Range 0 63])].
Proof. vm_compute. reflexivity. Qed.

(** without indices the vertices begin behind the offset of the primitives: the
    36 bytes that this build reads, from 64 on, are not noted *)
Example offset_vertices_missed :
  used_ranges (do_commands address_objects address_sbt 200
    [BuildAccelerationStructures [Build [Some (Triangles 65536 12 2 0 VK_INDEX_TYPE_NONE_KHR 0)] (Some [BuildRange 1 64 0 0])]] address_start) 200 =
  [(0%nat, [Range 0 35])].
Proof. vm_compute. reflexivity. Qed.

Example unknown_address_aborts :
  do_commands address_objects address_sbt 200 [TraceRays (Some (StridedRegion 200000 32 64)) None None None] address_start = Fail AbortCall.
Proof. vm_compute. reflexivity. Qed.

Lemma address_start_refines : refines address_existing address_start silent_notes.
Proof.
  split; cbn [address_existing ex_sets ex_cmds]; [by intros h Hh%not_elem_of_empty|].
  intros c Hc. apply elem_of_singleton in Hc as ->. exists (CmdBuffer 0 [] false). split; [vm_compute; reflexivity|].
  split; [apply map_ok_nil|]. intros o x. split; [apply in_touched_nil|done].
Qed.

Lemma address_objects_sane : objects_sane address_objects.
Proof. intros [|[|obj]] o E; try done; injection E as <-; cbn; u_lia. Qed.

Lemma address_held obj o address size : address_objects !! obj = Some o -> buffer_of address_sbt obj o <> None ->
  (match buffer_of address_sbt obj o with Some b => holds_range address (Z.max 1 size) b | None => false end) = true ->
  0 < address -> 0 <= size -> address + size <= UINT64_MAX -> range_held address_objects address_sbt address size.
Proof.
  intros Ho Hb Hh H0 H1 H2. do 3 (split; [done|]). exists obj, o. split; [done|]. destruct (buffer_of address_sbt obj o) as [b|]; [|done]. by exists b.
Qed.

Lemma address_commands_valid : Forall (command_valid address_objects address_sbt) address_commands.
Proof.
  assert (Hheld : forall address size, (match buffer_of address_sbt 0 address_data with Some b => holds_range address (Z.max 1 size) b | None => false end) = true ->
    0 < address -> 0 <= size -> address + size <= UINT64_MAX -> range_held address_objects address_sbt address size).
  { intros address size Hh. apply (address_held 0 _ _ _ eq_refl); [done|exact Hh]. }
  apply Forall_cons. split; [|apply Forall_cons; split; [|constructor]].
  - apply Forall_cons. split; [|constructor]. eexists. split; [reflexivity|]. intros [|[|[|k]]] geo Hk; try done; injection Hk as <-; (eexists; split; [reflexivity|split; [cbn; lia|]]).
    + cbn [geometry_valid indexed_triangles]. split; [lia|]. split; [u_lia|]. split; [intros _ _; apply Hheld; by vm_compute|].
      split; [intros _; split; [apply Hheld; by vm_compute|by vm_compute]|]. done.
    + split; [done|]. apply Hheld; by vm_compute.
  - split; [|split; [done|split; [by left|done]]]. right. right. apply (address_held 1 _ _ _ eq_refl); [done|by vm_compute..].
Qed.

Lemma addressed_data_noted_witness :
  exists st' n', do_commands address_objects address_sbt 200 address_commands address_start = Ok st' /\ refines address_existing st' n' /\
    noted address_objects (n_cmd n' 200) 65605 /\ noted address_objects (n_cmd n' 200) 131100.
Proof.
  destruct (addressed_data_noted address_objects address_sbt address_existing 200 address_commands address_start silent_notes
    address_start_refines address_objects_sane ltac:(cbn; set_solver) address_commands_valid) as (st' & n' & E & Hr & N & _).
  exists st', n'. split; [exact E|]. split; [exact Hr|]. split.
  - destruct (N (nth 0 address_commands (TraceRays None None None None)) 65605) as [Hn|Hm]; [left| |exact Hn|].
    + left. eexists. split; [reflexivity|]. exists 0%nat, indexed_triangles, (BuildRange 1 4 0 0). split; [reflexivity|]. split; [reflexivity|].
      apply (reads_index (BuildRange 1 4 0 0) 65536 12 2 65600 VK_INDEX_TYPE_UINT16 0 1); [reflexivity|cbn; lia].
    + exfalso. apply Exists_exists in Hm as (info & ->%list_elem_of_singleton & l & [= <-] & k & geo & r & Eg & Er & Hm).
      destruct k as [|[|[|k]]]; try discriminate Eg; injection Eg as <-; [by destruct Hm as (_ & ? & _)|destruct Hm].
  - destruct (N (nth 1 address_commands (TraceRays None None None None)) 131100) as [Hn|[]]; [right; left| |exact Hn]. left. cbn. lia.
Defined.
