(* ===== verification/ShaderStages.v ===== *)
(** * The shaders of pipelines in the post-processor (src/postprocess.cpp, src/lavatube.h)

    When a trace is post-processed the shaders of its pipelines are kept with their
    code and specialization constants, and so are the groups of ray-tracing pipelines
    and their handles. The bytes of the specialization constants have the packet that
    created the pipeline as their origin. *)

From Stdlib Require Import ZArith Lia Bool.
From Stdlib.Strings Require Import Byte.
From stdpp Require Import base numbers list gmap.
From S2P Require Import Prelude RangeTracking Patch Memory Heap FileWriter FileReader RandomAccess Packets Containers Translate Updates HostMemory HostWrites Checksums AccelerationBuilds ShaderTables Discovery.

#[local] Open Scope Z_scope.

Definition VK_OBJECT_TYPE_PIPELINE : Z := 19.
Definition VK_SHADER_STAGE_COMPUTE_BIT : Z := 32.
Definition VK_PIPELINE_BIND_POINT_GRAPHICS : Z := 0.
Definition VK_PIPELINE_BIND_POINT_COMPUTE : Z := 1.
Definition VK_PIPELINE_BIND_POINT_DATA_GRAPH_ARM : Z := 1000507000.
(** the largest value of an enumeration, for flags that were not set *)
Definition VK_FLAGS_MAX_ENUM : Z := 2 ^ 31 - 1.
Definition VK_SHADER_UNUSED_KHR : Z := UINT32_MAX.

(** ** Ray-tracing groups *)

Inductive raytracing_group_type :=
  | VK_RAY_TRACING_SHADER_GROUP_TYPE_GENERAL_KHR
  | VK_RAY_TRACING_SHADER_GROUP_TYPE_TRIANGLES_HIT_GROUP_KHR
  | VK_RAY_TRACING_SHADER_GROUP_TYPE_PROCEDURAL_HIT_GROUP_KHR
  | OtherGroupType.

Record raytracing_group := RaytracingGroup {
  rg_type : raytracing_group_type;
  general_shader : Z;
  closest_hit_shader : Z;
  any_hit_shader : Z;
  intersection_shader : Z
}.

(** ** Stages *)

(** [VkSpecializationMapEntry] *)
Record specialization_entry := SpecializationEntry { constantID : Z; se_offset : Z; se_size : Z }.

(** [VkPipelineShaderStageCreateInfo]: [si_module] is nothing for the null handle,
    [si_code] the words of a [VkShaderModuleCreateInfo] in its chain, and
    [si_identifier] says that the chain has a module identifier *)
Record stage_create_info := StageCreateInfo {
  si_flags : Z;
  si_module : option nat;
  si_identifier : bool;
  si_code : option (list Z);
  si_name : option (list byte);
  si_stage : Z;
  si_specialization : option (list specialization_entry * list byte)
}.

Section Stages.
Context {T : Type} `{MemoryFlagTracker T}.

Record shader_stage := ShaderStage {
  ss_index : Z;
  ss_unique_index : Z;
  ss_device_index : Z;
  ss_shader_module_index : Z;
  ss_flags : Z;
  ss_stage : Z;
  ss_module : option nat;
  ss_name : list byte;
  ss_code : list Z;
  ss_constants : list specialization_entry;
  ss_data : list byte;
  ss_sources : host_write_regions T;
  ss_sources_valid : bool;
  ss_source_object_type : Z;
  ss_source_object_index : Z;
  ss_source_stage_index : Z;
  ss_calls : Z
}.

Definition new_stage : shader_stage :=
  ShaderStage CONTAINER_INVALID_INDEX UINT64_MAX CONTAINER_INVALID_INDEX CONTAINER_INVALID_INDEX VK_FLAGS_MAX_ENUM VK_FLAGS_MAX_ENUM None [] [] [] []
    new_regions false VK_OBJECT_TYPE_UNKNOWN CONTAINER_NULL_VALUE CONTAINER_NULL_VALUE 0.

(** [trackedpipeline]; the fields of the replay in [sp_handles] are not used *)
Record simulated_pipeline := SimulatedPipeline {
  sp_index : Z;
  sp_device_index : Z;
  sp_type : Z;
  shader_stages : list shader_stage;
  raytracing_groups : list raytracing_group;
  sp_handles : pipeline_handles
}.

Definition with_stages (p : simulated_pipeline) (l : list shader_stage) : simulated_pipeline :=
  SimulatedPipeline (sp_index p) (sp_device_index p) (sp_type p) l (raytracing_groups p) (sp_handles p).

(** [stage.self_test] *)
Definition stage_self_test (s : shader_stage) : bool :=
  negb (ss_index s =? CONTAINER_INVALID_INDEX) && negb (ss_device_index s =? CONTAINER_INVALID_INDEX) &&
  negb (ss_unique_index s =? UINT64_MAX).

(** the code of [VkShaderModule_index] *)
Context (modules : list (list Z)).

Definition stage_code (info : stage_create_info) (stage : shader_stage) : outcome (list Z * Z) :=
  match si_module info with
  | None =>
      match si_code info with Some code => Ok (code, ss_shader_module_index stage) | None => Fail AssertFailed end
  | Some m => match modules !! m with Some code => Ok (code, Z.of_nat m) | None => Fail OutOfRange end
  end.

Definition copy_shader_stage (p : simulated_pipeline) (stage : shader_stage) (info : stage_create_info) (source : change_source)
    : outcome shader_stage :=
  let* _ := require (negb (bool_decide (si_module info = None)) || negb (si_identifier info)) AssertFailed in
  let* (code, module_index) := stage_code info stage in
  let* name := match si_name info with Some name => Ok name | None => Fail NullPointer end in
  let stage := ShaderStage (ss_index stage) (Z.lor (sp_index p) (Z.shiftl (si_stage info) 32)) (sp_device_index p) module_index (si_flags info)
                 (si_stage info) (si_module info) name code (ss_constants stage) (ss_data stage) (ss_sources stage) (ss_sources_valid stage)
                 (ss_source_object_type stage) (ss_source_object_index stage) (ss_source_stage_index stage) (ss_calls stage) in
  let* stage :=
    match si_specialization info with
    | None => Ok stage
    | Some (constants, data) =>
        let* sources := register_source 0 (Z.of_nat (length data)) source 1 0 CONTAINER_NULL_VALUE UINT64_MAX (ss_sources stage) in
        Ok (ShaderStage (ss_index stage) (ss_unique_index stage) (ss_device_index stage) (ss_shader_module_index stage) (ss_flags stage)
              (ss_stage stage) (ss_module stage) (ss_name stage) (ss_code stage) constants data sources (Z.of_nat (length data) >? 0)
              VK_OBJECT_TYPE_PIPELINE (sp_index p) (ss_index stage) (ss_calls stage))
    end in
  let* _ := require (stage_self_test stage) AssertFailed in
  Ok stage.

(** the one stage of a data graph; its constants have no sources *)
Definition copy_data_graph_shader_stage (p : simulated_pipeline) (stage : shader_stage) (info : stage_create_info) : outcome shader_stage :=
  let* (code, module_index) := stage_code info stage in
  let (constants, data) := default (ss_constants stage, ss_data stage) (si_specialization info) in
  let stage := ShaderStage (ss_index stage) (Z.lor (sp_index p) (Z.shiftl VK_PIPELINE_BIND_POINT_DATA_GRAPH_ARM 32)) (sp_device_index p)
                 module_index 0 VK_SHADER_STAGE_COMPUTE_BIT (si_module info) (default [] (si_name info)) code constants data (ss_sources stage)
                 (ss_sources_valid stage) (ss_source_object_type stage) (ss_source_object_index stage) (ss_source_stage_index stage) (ss_calls stage) in
  let* _ := require (stage_self_test stage) AssertFailed in
  Ok stage.

(** ** Pipelines *)

Definition with_index (stage : shader_stage) (index : Z) : shader_stage :=
  ShaderStage index (ss_unique_index stage) (ss_device_index stage) (ss_shader_module_index stage) (ss_flags stage) (ss_stage stage)
    (ss_module stage) (ss_name stage) (ss_code stage) (ss_constants stage) (ss_data stage) (ss_sources stage) (ss_sources_valid stage)
    (ss_source_object_type stage) (ss_source_object_index stage) (ss_source_stage_index stage) (ss_calls stage).

(** the stages from number [i] on, in the places [old] left by a [resize] *)
Fixpoint copy_stages (p : simulated_pipeline) (source : change_source) (i : nat) (infos : list stage_create_info) (old : list shader_stage)
    : outcome (list shader_stage) :=
  match infos with
  | [] => Ok []
  | info :: infos =>
      let* stage := copy_shader_stage p (with_index (default new_stage (head old)) (Z.of_nat i)) info source in
      let* rest := copy_stages p source (S i) infos (tail old) in
      Ok (stage :: rest)
  end.

Definition create_stages (p : simulated_pipeline) (source : change_source) (infos : list stage_create_info) : outcome simulated_pipeline :=
  let* stages := copy_stages p source 0 infos (shader_stages p) in Ok (with_stages p stages).

(** [VkPipeline_index] *)
Definition pipelines : Type := list simulated_pipeline.

Definition update_pipeline (i : nat) (f : simulated_pipeline -> outcome simulated_pipeline) (l : pipelines) : outcome pipelines :=
  match l !! i with
  | None => Fail OutOfRange
  | Some p => let* p := f p in Ok (<[i := p]> l)
  end.

(** one round of [postprocess_vkCreateComputePipelines] *)
Definition postprocess_vkCreateComputePipelines (i : nat) (stage : stage_create_info) (source : change_source) : pipelines -> outcome pipelines :=
  update_pipeline i (fun p => create_stages p source [stage]).

Definition postprocess_vkCreateGraphicsPipelines (i : nat) (stages : list stage_create_info) (source : change_source) : pipelines -> outcome pipelines :=
  update_pipeline i (fun p => create_stages p source stages).

(** [info] is nothing without a module in the chain *)
Definition postprocess_vkCreateDataGraphPipelinesARM (i : nat) (info : option stage_create_info) : pipelines -> outcome pipelines :=
  update_pipeline i (fun p =>
    let p := SimulatedPipeline (sp_index p) (sp_device_index p) VK_PIPELINE_BIND_POINT_DATA_GRAPH_ARM (shader_stages p) (raytracing_groups p) (sp_handles p) in
    match info with
    | None => Ok (with_stages p [])
    | Some info =>
        let* stage := copy_data_graph_shader_stage p (with_index (default new_stage (head (shader_stages p))) 0) info in
        Ok (with_stages p [stage])
    end).

Definition postprocess_vkCreateRayTracingPipelinesKHR (i : nat) (stages : list stage_create_info) (groups : list raytracing_group)
    (source : change_source) : pipelines -> outcome pipelines :=
  update_pipeline i (fun p =>
    let* p := create_stages p source stages in
    Ok (SimulatedPipeline (sp_index p) (sp_device_index p) (sp_type p) (shader_stages p) groups
          (PipelineHandles (Z.of_nat (length groups)) 0 [] (raytracing_group_handle_size_replay (sp_handles p))
             (raytracing_group_handles_replay (sp_handles p)) (raytracing_group_handles_capture_replay (sp_handles p))))).

(** the handles that the capture saw, at the places of their groups *)
Definition postprocess_vkGetRayTracingShaderGroupHandlesKHR (i : nat) (firstGroup groupCount : Z) (dataSize : Z) (pData : option (list byte))
    (l : pipelines) : outcome pipelines :=
  match pData with
  | None => Ok l
  | Some data =>
      if (groupCount =? 0) || (dataSize =? 0) then Ok l
      else update_pipeline i (fun p =>
        let handle_size := dataSize / groupCount in
        if (handle_size =? 0) || negb (dataSize mod groupCount =? 0) then Ok p
        else
          let h := sp_handles p in
          let* _ := require ((raytracing_group_handle_size h =? 0) || (raytracing_group_handle_size h =? handle_size)) AbortCall in
          let stored_size := if raytracing_group_handle_size h =? 0 then wrap32 handle_size else raytracing_group_handle_size h in
          let required_groups := Z.max (raytracing_group_count h) (wrap32 (firstGroup + groupCount)) in
          let handles := resized (wrap64 (required_groups * handle_size)) (raytracing_group_handles h) in
          let* bytes := Translate.load data 0 (Z.to_nat dataSize) in
          let* handles := store_bytes handles (firstGroup * handle_size) bytes in
          Ok (SimulatedPipeline (sp_index p) (sp_device_index p) (sp_type p) (shader_stages p) (raytracing_groups p)
                (PipelineHandles required_groups stored_size handles (raytracing_group_handle_size_replay h)
                   (raytracing_group_handles_replay h) (raytracing_group_handles_capture_replay h)))) l
  end.
End Stages.
Arguments shader_stage T : clear implicits.
Arguments simulated_pipeline T : clear implicits.
Arguments pipelines T : clear implicits.
