(* ===== verification/RaySimulation.v ===== *)
(** * Ray tracing in the post-processor (src/postprocess.cpp, src/execute_commands.cpp)

    The post-processor records which instances a build reads and which shader binding
    tables a trace of rays uses. At the submit it reads them in the simulated memory:
    the references of the instances, the addresses of an indirect trace and the group
    handles in the tables get markings, and the shaders of the groups that were found
    are run. *)

From Stdlib Require Import ZArith Lia Bool.
From Stdlib.Strings Require Import Byte.
From stdpp Require Import base numbers list gmap.
From S2P Require Import Prelude Patch Memory Heap Suballocator Packets Containers Markings Translate HostWrites AccelerationBuilds ShaderTables DescriptorSets AddressTouches Discovery Simulation ShaderStages.

#[local] Open Scope Z_scope.

(** ** Recorded commands *)

(** one geometry of instances of a build *)
Record instance_use := InstanceUse {
  iu_address : Z;
  iu_primitive_offset : Z;
  iu_primitive_count : Z;
  iu_indirect_range_address : Z
}.

Inductive trace_rays_mode := TRACE_RAYS_DIRECT | TRACE_RAYS_INDIRECT | TRACE_RAYS_INDIRECT2.

Record trace_rays := TraceRays {
  tr_mode : trace_rays_mode;
  tr_raygen : strided_region;
  tr_miss : strided_region;
  tr_hit : strided_region;
  tr_callable : strided_region;
  tr_width : Z;
  tr_height : Z;
  tr_depth : Z;
  tr_indirect_device_address : Z
}.

(** a trace without its parameters is one whose [trace_rays_valid] is false *)
Inductive ray_command_data :=
  | VKCMDBINDPIPELINE (pipelineBindPoint pipeline_index : Z)
  | VKCMDBUILDACCELERATIONSTRUCTURESKHR (uses : list instance_use)
  | VKCMDTRACERAYSKHR (parameters : option trace_rays).

Record ray_command := RayCommand { rc_source : change_source; rc_data : ray_command_data }.

(** of [trackedcmdbuffer] *)
Record ray_cmdbuffer := RayCmdbuffer { rc_commands : list ray_command; pending_raytracing_marker : bool }.

Definition push_command (c : ray_cmdbuffer) (source : change_source) (data : ray_command_data) : ray_cmdbuffer :=
  RayCmdbuffer (rc_commands c ++ [RayCommand source data]) (pending_raytracing_marker c).

Definition postprocess_vkCmdBindPipeline (current : change_source) (pipelineBindPoint pipeline_index : Z) (c : ray_cmdbuffer) : ray_cmdbuffer :=
  push_command c current (VKCMDBINDPIPELINE pipelineBindPoint pipeline_index).

Definition append_acceleration_structure_instance_use (uses : list instance_use) (address primitive_offset primitive_count indirect_range_address : Z)
    : list instance_use :=
  if (address =? 0) || ((primitive_count =? 0) && (indirect_range_address =? 0)) then uses
  else uses ++ [InstanceUse address primitive_offset primitive_count indirect_range_address].

(** the instances among the geometries from number [g] on *)
Fixpoint use_geometries (body : nat -> Z -> list instance_use -> outcome (list instance_use)) (g : nat) (geometries : list (option geometry))
    (uses : list instance_use) : outcome (list instance_use) :=
  match geometries with
  | [] => Ok uses
  | Some (Instances arrayOfPointers data) :: rest =>
      let* _ := require (negb arrayOfPointers) AbortCall in
      let* uses := body g data uses in
      use_geometries body (S g) rest uses
  | _ :: rest => use_geometries body (S g) rest uses
  end.

Definition use_range (ranges : list build_range) (g : nat) (data : Z) (uses : list instance_use) : outcome (list instance_use) :=
  let* r := element ranges g in
  Ok (append_acceleration_structure_instance_use uses data (br_primitiveOffset r) (br_primitiveCount r) 0).

Fixpoint use_builds (infos : list build) (uses : list instance_use) : outcome (list instance_use) :=
  match infos with
  | [] => Ok uses
  | info :: infos =>
      let* uses := match b_ranges info with
                   | None => Ok uses
                   | Some ranges => use_geometries (use_range ranges) 0 (b_geometries info) uses
                   end in
      use_builds infos uses
  end.

(** a command without instances is not recorded *)
Definition push_uses (c : ray_cmdbuffer) (current : change_source) (uses : list instance_use) : ray_cmdbuffer :=
  match uses with [] => c | _ => push_command c current (VKCMDBUILDACCELERATIONSTRUCTURESKHR uses) end.

(** [infos] is empty where one of the arrays is null *)
Definition postprocess_vkCmdBuildAccelerationStructuresKHR (current : change_source) (infos : list build) (c : ray_cmdbuffer)
    : outcome ray_cmdbuffer :=
  let* uses := use_builds infos [] in Ok (push_uses c current uses).

(** the range of a geometry lies in device memory *)
Definition use_indirect_range (ranges_address stride : Z) (g : nat) (data : Z) (uses : list instance_use) : outcome (list instance_use) :=
  let* _ := require (negb (stride <? sizeof_VkAccelerationStructureBuildRangeInfoKHR)) AbortCall in
  let range_address := wrap64 (ranges_address + wrap64 (Z.of_nat g * stride)) in
  let* _ := require (negb (range_address <? ranges_address)) AbortCall in
  Ok (append_acceleration_structure_instance_use uses data 0 0 range_address).

Fixpoint use_indirect_builds (infos : list indirect_build) (uses : list instance_use) : outcome (list instance_use) :=
  match infos with
  | [] => Ok uses
  | info :: infos =>
      let* uses :=
        match ib_address info, ib_stride info with
        | Some ranges_address, Some stride =>
            if ranges_address =? 0 then Ok uses
            else use_geometries (use_indirect_range ranges_address stride) 0 (ib_geometries info) uses
        | _, _ => Ok uses
        end in
      use_indirect_builds infos uses
  end.

Definition postprocess_vkCmdBuildAccelerationStructuresIndirectKHR (current : change_source) (infos : list indirect_build) (c : ray_cmdbuffer)
    : outcome ray_cmdbuffer :=
  let* uses := use_indirect_builds infos [] in Ok (push_uses c current uses).

(** a call with a callback of its own sets the marker, and the common callback that
    follows it takes the marker back *)
Definition push_trace (c : ray_cmdbuffer) (current : change_source) (t : trace_rays) : ray_cmdbuffer :=
  RayCmdbuffer (rc_commands c ++ [RayCommand current (VKCMDTRACERAYSKHR (Some t))]) true.

Definition region_or_zero (r : option strided_region) : strided_region := default no_region r.

Definition postprocess_vkCmdTraceRaysKHR (current : change_source) (raygen miss hit callable : option strided_region) (width height depth : Z)
    (c : ray_cmdbuffer) : ray_cmdbuffer :=
  push_trace c current (TraceRays TRACE_RAYS_DIRECT (region_or_zero raygen) (region_or_zero miss) (region_or_zero hit) (region_or_zero callable)
    width height depth 0).

Definition postprocess_vkCmdTraceRaysIndirectKHR (current : change_source) (raygen miss hit callable : option strided_region)
    (indirectDeviceAddress : Z) (c : ray_cmdbuffer) : ray_cmdbuffer :=
  push_trace c current (TraceRays TRACE_RAYS_INDIRECT (region_or_zero raygen) (region_or_zero miss) (region_or_zero hit) (region_or_zero callable)
    0 0 0 indirectDeviceAddress).

Definition postprocess_vkCmdTraceRaysIndirect2KHR (current : change_source) (indirectDeviceAddress : Z) (c : ray_cmdbuffer) : ray_cmdbuffer :=
  push_trace c current (TraceRays TRACE_RAYS_INDIRECT2 no_region no_region no_region no_region 0 0 0 indirectDeviceAddress).

Definition postprocess_raytracing_command (current : change_source) (c : ray_cmdbuffer) : ray_cmdbuffer :=
  if pending_raytracing_marker c then RayCmdbuffer (rc_commands c) false
  else push_command c current (VKCMDTRACERAYSKHR None).

(** ** Device addresses *)

(** where an address lies in the memory of the process *)
Record mapped_address_range := MappedAddressRange {
  mr_ptr : Z;
  mr_size : Z;
  mr_buffer_offset : Z;
  mr_buffer_data : nat
}.

(** the fields of [VkTraceRaysIndirectCommand2KHR] that are addresses: raygen, miss, hit
    and callable, each followed by its size, and by its stride but for raygen *)
Definition raygenShaderRecordAddress : Z := 0.
Definition missShaderBindingTableAddress : Z := 16.
Definition hitShaderBindingTableAddress : Z := 40.
Definition callableShaderBindingTableAddress : Z := 64.

Definition address_fields : list Z :=
  [raygenShaderRecordAddress; missShaderBindingTableAddress; hitShaderBindingTableAddress; callableShaderBindingTableAddress].

(** [offsetof(VkAccelerationStructureInstanceKHR, accelerationStructureReference)] *)
Definition accelerationStructureReference : Z := 56.

(** [VkShaderGroupShaderKHR] *)
Definition VK_SHADER_GROUP_SHADER_GENERAL_KHR : Z := 0.
Definition VK_SHADER_GROUP_SHADER_CLOSEST_HIT_KHR : Z := 1.
Definition VK_SHADER_GROUP_SHADER_ANY_HIT_KHR : Z := 2.
Definition VK_SHADER_GROUP_SHADER_INTERSECTION_KHR : Z := 3.

Section Execute.
Context {T : Type} `{MemoryFlagTracker T} `{MarkingHeader}.
Context (find_buffer_memory : nat -> outcome suballoc_location).
(** [device_address_remapping], its objects, and the place of an object in
    [VkBuffer_index] if it is a buffer *)
Context (address_map : remapper) (object_of : nat -> mapped) (buffer_of : nat -> option nat).
(** the order in which an [unordered_set] is walked *)
Context (walk : gset Z -> list Z).
(** the stage of a pipeline on the external simulator *)
Context (run_spirv : nat -> Z -> change_source -> sim_world T -> list address_rewrite -> outcome (sim_world T * list address_rewrite)).

Definition map_device_address_range (w : sim_world T) (address size : Z) : outcome (option mapped_address_range) :=
  if (address =? 0) || (size =? 0) then Ok None
  else
    match get_by_address object_of address_map address with
    | None => Ok None
    | Some obj =>
        match buffer_of obj with
        | None => Ok None
        | Some b =>
            let* buffer := buffer_at w b in
            let translated := translate_address object_of address_map address in
            if translated =? 0 then Ok None
            else
              let offset := wrap64 (translated - tb_device_address buffer) in
              if wrap64 (offset + size) >? tb_size buffer then Ok None
              else
                let* loc := find_buffer_memory b in
                let* _ := require (negb (loc_mapped loc =? 0)) AssertFailed in
                Ok (Some (MappedAddressRange (loc_mapped loc + offset) size offset b))
        end
    end.

(** a marking of bytes of a buffer, without a source of its own *)
Definition buffer_marking (b : nat) (offset size type subtype : Z) : discovered_buffer_marking :=
  DiscoveredBufferMarking (Some b) VK_OBJECT_TYPE_UNKNOWN CONTAINER_NULL_VALUE CONTAINER_NULL_VALUE offset size type subtype false no_change.

(** ** Groups of a pipeline *)

Definition insert_stage (p : simulated_pipeline T) (stage_index : Z) (stages : gset Z) : gset Z :=
  if stage_index =? VK_SHADER_UNUSED_KHR then stages
  else if stage_index >=? Z.of_nat (length (shader_stages p)) then stages
  else {[stage_index]} ∪ stages.

Definition add_raytracing_group_stages (p : simulated_pipeline T) (group_index : nat) (stages : gset Z) : gset Z :=
  match raytracing_groups p !! group_index with
  | None => stages
  | Some group =>
      match rg_type group with
      | VK_RAY_TRACING_SHADER_GROUP_TYPE_GENERAL_KHR => insert_stage p (general_shader group) stages
      | _ => insert_stage p (intersection_shader group) (insert_stage p (any_hit_shader group) (insert_stage p (closest_hit_shader group) stages))
      end
  end.

(** the number of handles to compare with *)
Definition compared_handles (p : simulated_pipeline T) : nat :=
  let h := sp_handles p in
  let group_count := if raytracing_group_count h =? 0 then wrap32 (Z.of_nat (length (raytracing_groups p))) else raytracing_group_count h in
  let max_groups := (length (raytracing_group_handles h) / Z.to_nat (raytracing_group_handle_size h))%nat in
  if group_count >? Z.of_nat max_groups then Z.to_nat (wrap32 (Z.of_nat max_groups)) else Z.to_nat group_count.

Definition find_raytracing_group_index (p : simulated_pipeline T) (w : sim_world T) (handle_ptr : Z) : option nat :=
  let h := sp_handles p in
  if raytracing_group_handle_size h =? 0 then None
  else
    let bytes := load w handle_ptr (Z.to_nat (raytracing_group_handle_size h)) in
    snd <$> list_find (fun g => capture_handle h g = bytes) (seq 0 (compared_handles p)).

Definition get_shader_group_handle_marking_subtype (p : simulated_pipeline T) (group_index : nat) : Z :=
  match raytracing_groups p !! group_index with
  | None => VK_SHADER_GROUP_SHADER_GENERAL_KHR
  | Some group =>
      let closest := negb (closest_hit_shader group =? VK_SHADER_UNUSED_KHR) in
      let any := negb (any_hit_shader group =? VK_SHADER_UNUSED_KHR) in
      match rg_type group with
      | VK_RAY_TRACING_SHADER_GROUP_TYPE_TRIANGLES_HIT_GROUP_KHR =>
          if closest then VK_SHADER_GROUP_SHADER_CLOSEST_HIT_KHR
          else if any then VK_SHADER_GROUP_SHADER_ANY_HIT_KHR else VK_SHADER_GROUP_SHADER_GENERAL_KHR
      | VK_RAY_TRACING_SHADER_GROUP_TYPE_PROCEDURAL_HIT_GROUP_KHR =>
          if negb (intersection_shader group =? VK_SHADER_UNUSED_KHR) then VK_SHADER_GROUP_SHADER_INTERSECTION_KHR
          else if closest then VK_SHADER_GROUP_SHADER_CLOSEST_HIT_KHR
          else if any then VK_SHADER_GROUP_SHADER_ANY_HIT_KHR else VK_SHADER_GROUP_SHADER_GENERAL_KHR
      | _ => VK_SHADER_GROUP_SHADER_GENERAL_KHR
      end
  end.

(** ** Shader binding tables *)

Definition collect_record (p : simulated_pipeline T) (w : sim_world T) (mapping : mapped_address_range) (stride : Z) (i : nat)
    (found : gset Z * list discovered_buffer_marking) : gset Z * list discovered_buffer_marking :=
  let '(stages, discovered) := found in
  match find_raytracing_group_index p w (mr_ptr mapping + Z.of_nat i * stride) with
  | None => found
  | Some group =>
      (add_raytracing_group_stages p group stages,
       discovered ++ [buffer_marking (mr_buffer_data mapping) (wrap64 (mr_buffer_offset mapping + Z.of_nat i * stride))
                        (raytracing_group_handle_size (sp_handles p)) VK_MARKING_TYPE_SHADER_GROUP_HANDLE_ARM
                        (get_shader_group_handle_marking_subtype p group)])
  end.

Definition collect_stages_from_sbt_region (p : simulated_pipeline T) (w : sim_world T) (region : strided_region)
    (found : gset Z * list discovered_buffer_marking) : outcome (gset Z * list discovered_buffer_marking) :=
  let h := sp_handles p in
  if (sr_deviceAddress region =? 0) || (sr_size region =? 0) then Ok found
  else if (raytracing_group_handle_size h =? 0) || Nat.eqb (length (raytracing_group_handles h)) 0 then Ok found
  else
    let stride := if sr_stride region =? 0 then sr_size region else sr_stride region in
    if (stride <? raytracing_group_handle_size h) || (sr_size region <? raytracing_group_handle_size h) then Ok found
    else
      let* mapping := map_device_address_range w (sr_deviceAddress region) (sr_size region) in
      match mapping with
      | None => Ok found
      | Some mapping =>
          let record_count := wrap32 (sr_size region / stride) in
          Ok (fold_left (fun found i => collect_record p w mapping stride i found) (seq 0 (Z.to_nat record_count)) found)
      end.

(** ** Instances *)

Fixpoint collect_instances (w : sim_world T) (buffer : trackedbuffer T) (mapping : mapped_address_range) (i n : nat)
    (discovered : list discovered_buffer_marking) : outcome (list discovered_buffer_marking) :=
  match n with
  | O => Ok discovered
  | S n =>
      let instance_offset := Z.of_nat i * sizeof_VkAccelerationStructureInstanceKHR in
      let reference_offset := wrap64 (mr_buffer_offset mapping + instance_offset + accelerationStructureReference) in
      let* _ := try_get_reference reference_offset 8 (tb_source buffer) in
      let reference := load64 w (mr_ptr mapping + instance_offset + accelerationStructureReference) in
      let discovered :=
        if reference =? 0 then discovered
        else discovered ++ [buffer_marking (mr_buffer_data mapping) reference_offset 8 VK_MARKING_TYPE_DEVICE_ADDRESS_ARM
                              VK_DEVICE_ADDRESS_TYPE_ACCELERATION_STRUCTURE_ARM] in
      collect_instances w buffer mapping (S i) n discovered
  end.

Definition collect_acceleration_structure_instance_markings (w : sim_world T) (address primitive_offset primitive_count : Z)
    (discovered : list discovered_buffer_marking) : outcome (list discovered_buffer_marking) :=
  if (address =? 0) || (primitive_count =? 0) then Ok discovered
  else
    let address := wrap64 (address + primitive_offset) in
    let* mapping := map_device_address_range w address (primitive_count * sizeof_VkAccelerationStructureInstanceKHR) in
    match mapping with
    | None => Ok discovered
    | Some mapping =>
        let* buffer := buffer_at w (mr_buffer_data mapping) in
        collect_instances w buffer mapping 0 (Z.to_nat primitive_count) discovered
    end.

(** a field of a struct in memory *)
Definition load_field (w : sim_world T) (ptr offset : Z) (n : nat) : Z := le_decode (load w (ptr + offset) n).

Definition read_acceleration_structure_build_range (w : sim_world T) (address : Z) : outcome (option build_range) :=
  if address =? 0 then Ok None
  else
    let* mapping := map_device_address_range w address sizeof_VkAccelerationStructureBuildRangeInfoKHR in
    Ok (option_map (fun m => BuildRange (load_field w (mr_ptr m) 0 4) (load_field w (mr_ptr m) 4 4) (load_field w (mr_ptr m) 8 4)
                               (load_field w (mr_ptr m) 12 4)) mapping).

(** the places of the instances of a geometry: their offset and count *)
Definition instance_range (w : sim_world T) (u : instance_use) : outcome (option (Z * Z)) :=
  if negb (iu_indirect_range_address u =? 0) then
    let* range := read_acceleration_structure_build_range w (iu_indirect_range_address u) in
    Ok (option_map (fun r => (br_primitiveOffset r, br_primitiveCount r)) range)
  else Ok (Some (iu_primitive_offset u, iu_primitive_count u)).

Fixpoint collect_uses (w : sim_world T) (uses : list instance_use) (discovered : list discovered_buffer_marking)
    : outcome (list discovered_buffer_marking) :=
  match uses with
  | [] => Ok discovered
  | u :: uses =>
      let* range := instance_range w u in
      let* discovered :=
        match range with
        | None => Ok discovered
        | Some (primitive_offset, primitive_count) =>
            collect_acceleration_structure_instance_markings w (iu_address u) primitive_offset primitive_count discovered
        end in
      collect_uses w uses discovered
  end.

(** ** Commands *)

Record ray_state := RayState {
  ry_world : sim_world T;
  ry_queue : list address_rewrite;
  ry_pipelines : pipelines T;
  raytracing_pipeline_bound : Z;
  execution_commands : Z
}.

Definition with_world_queue (st : ray_state) (w : sim_world T) (queue : list address_rewrite) : ray_state :=
  RayState w queue (ry_pipelines st) (raytracing_pipeline_bound st) (execution_commands st).

(** the addresses of an indirect command, each with a marking if it is not null *)
Definition address_field (w : sim_world T) (m : mapped_address_range) (field : Z) : list discovered_buffer_marking :=
  if load_field w (mr_ptr m) field 8 =? 0 then []
  else [buffer_marking (mr_buffer_data m) (wrap64 (mr_buffer_offset m + field)) 8 VK_MARKING_TYPE_DEVICE_ADDRESS_ARM VK_DEVICE_ADDRESS_TYPE_BUFFER_ARM].

Definition table_of (w : sim_world T) (ptr field : Z) : strided_region :=
  StridedRegion (load_field w ptr field 8) (load_field w ptr (field + 16) 8) (load_field w ptr (field + 8) 8).

(** the tables of an indirect command in memory: the one of raygen has no stride of its own *)
Definition stored_tables (w : sim_world T) (ptr : Z) : list strided_region :=
  let size := load_field w ptr (raygenShaderRecordAddress + 8) 8 in
  StridedRegion (load_field w ptr raygenShaderRecordAddress 8) size size ::
  map (table_of w ptr) [missShaderBindingTableAddress; hitShaderBindingTableAddress; callableShaderBindingTableAddress].

(** the tables of a trace and the markings of their addresses *)
Definition traced_tables (w : sim_world T) (t : trace_rays) : outcome (list strided_region * list discovered_buffer_marking) :=
  let own := [tr_raygen t; tr_miss t; tr_hit t; tr_callable t] in
  match tr_mode t with
  | TRACE_RAYS_DIRECT => Ok (own, [])
  | TRACE_RAYS_INDIRECT =>
      let* _ := map_device_address_range w (tr_indirect_device_address t) sizeof_VkTraceRaysIndirectCommandKHR in Ok (own, [])
  | TRACE_RAYS_INDIRECT2 =>
      let* mapping := map_device_address_range w (tr_indirect_device_address t) (Z.of_nat sizeof_VkTraceRaysIndirectCommand2KHR) in
      match mapping with
      | None => Ok (own, [])
      | Some m =>
          Ok (stored_tables w (mr_ptr m), flat_map (address_field w m) address_fields)
      end
  end.

Fixpoint collect_tables (p : simulated_pipeline T) (w : sim_world T) (tables : list strided_region)
    (found : gset Z * list discovered_buffer_marking) : outcome (gset Z * list discovered_buffer_marking) :=
  match tables with
  | [] => Ok found
  | table :: tables => let* found := collect_stages_from_sbt_region p w table found in collect_tables p w tables found
  end.

Definition count_call (stage : shader_stage T) : shader_stage T :=
  ShaderStage (ss_index stage) (ss_unique_index stage) (ss_device_index stage) (ss_shader_module_index stage) (ss_flags stage) (ss_stage stage)
    (ss_module stage) (ss_name stage) (ss_code stage) (ss_constants stage) (ss_data stage) (ss_sources stage) (ss_sources_valid stage)
    (ss_source_object_type stage) (ss_source_object_index stage) (ss_source_stage_index stage) (wrap32 (ss_calls stage + 1)).

(** run stages of the bound pipeline, each counted *)
Fixpoint run_stages (pipeline : nat) (source : change_source) (stages : list Z) (st : ray_state) : outcome ray_state :=
  match stages with
  | [] => Ok st
  | stage :: stages =>
      let* ps := update_pipeline pipeline (fun p => Ok (with_stages p (alter count_call (Z.to_nat stage) (shader_stages p)))) (ry_pipelines st) in
      let* (w, queue) := run_spirv pipeline stage source (ry_world st) (ry_queue st) in
      run_stages pipeline source stages (RayState w queue ps (raytracing_pipeline_bound st) (execution_commands st))
  end.

Definition all_stages (p : simulated_pipeline T) : list Z := map Z.of_nat (seq 0 (length (shader_stages p))).

Definition execute_trace_rays (source : change_source) (parameters : option trace_rays) (st : ray_state) : outcome ray_state :=
  let st := RayState (ry_world st) (ry_queue st) (ry_pipelines st) (raytracing_pipeline_bound st) (execution_commands st + 1) in
  if raytracing_pipeline_bound st =? CONTAINER_INVALID_INDEX then Ok st
  else
    let pipeline := Z.to_nat (raytracing_pipeline_bound st) in
    match ry_pipelines st !! pipeline with
    | None => Fail OutOfRange
    | Some p =>
        if Nat.eqb (length (shader_stages p)) 0 then Ok st
        else
          match parameters with
          | None => run_stages pipeline source (all_stages p) st
          | Some t =>
              let* (tables, discovered) := traced_tables (ry_world st) t in
              let* (stages, discovered) := collect_tables p (ry_world st) tables (∅, discovered) in
              let* queue := merge_discovered_markings (ry_world st) discovered (ry_queue st) in
              run_stages pipeline source (if bool_decide (stages = ∅) then all_stages p else walk stages) (with_world_queue st (ry_world st) queue)
          end
    end.

Definition execute_build (uses : list instance_use) (st : ray_state) : outcome ray_state :=
  let* discovered := collect_uses (ry_world st) uses [] in
  let* queue := merge_discovered_markings (ry_world st) discovered (ry_queue st) in
  Ok (with_world_queue st (ry_world st) queue).

(** the commands of [execute_commands] that ray tracing has *)
Definition execute_ray_command (c : ray_command) (st : ray_state) : outcome ray_state :=
  match rc_data c with
  | VKCMDBINDPIPELINE bind_point pipeline_index =>
      if bind_point =? VK_PIPELINE_BIND_POINT_RAY_TRACING_KHR
      then Ok (RayState (ry_world st) (ry_queue st) (ry_pipelines st) pipeline_index (execution_commands st)) else Ok st
  | VKCMDBUILDACCELERATIONSTRUCTURESKHR uses => execute_build uses st
  | VKCMDTRACERAYSKHR parameters => execute_trace_rays (rc_source c) parameters st
  end.

Fixpoint execute_ray_commands (commands : list ray_command) (st : ray_state) : outcome ray_state :=
  match commands with
  | [] => Ok st
  | c :: commands => let* st := execute_ray_command c st in execute_ray_commands commands st
  end.
End Execute.
Arguments ray_state T : clear implicits.
