(* ===== verification/RayPlaces.v ===== *)
(** * The places of ray-tracing data (src/execute_commands.cpp)

    Which bytes of which buffers hold the references of the instances that a build
    reads and the group handles and addresses of the tables that a trace uses, and
    that reading them in the post-processor finds exactly those. *)

From Stdlib Require Import ZArith Lia Bool Sorted.
From Stdlib.Strings Require Import Byte.
From stdpp Require Import base numbers list gmap.
From S2P Require Import Prelude Patch Memory Heap Suballocator Packets Containers Markings Translate HostWrites AccelerationBuilds ShaderTables DescriptorSets AddressTouches Discovery Simulation ShaderStages RaySimulation.

#[local] Open Scope Z_scope.

(** the key of the markings of a packet for a buffer *)
Definition provenance_key (p : provenance) (object_type object_index : Z) : rewrite_key :=
  (pv_packet p, pv_frame p, pv_thread p, pv_call_id p, object_type, object_index, CONTAINER_NULL_VALUE).

Section Places.
Context {T : Type} `{MemoryFlagTracker T} `{MarkingHeader}.
Context (find_buffer_memory : nat -> outcome suballoc_location).
Context (address_map : remapper) (object_of : nat -> mapped) (buffer_of : nat -> option nat).

Abbreviation place := (place find_buffer_memory).
Abbreviation map_range := (map_device_address_range find_buffer_memory address_map object_of buffer_of).

(** [size] bytes from an address on lie at an offset of a buffer *)
Definition found_at (w : sim_world T) (address size : Z) (b : nat) (offset : Z) : Prop :=
  address <> 0 /\ size <> 0 /\ exists obj base buffer, find_candidate object_of address_map address = Some (obj, base) /\
    buffer_of obj = Some b /\ VkBuffer_index w !! b = Some buffer /\ tb_device_address buffer <> 0 /\
    offset = address - base /\ offset + size <= tb_size buffer.

(** the buffers that addresses lead to have memory, and the remapper knows them as they are *)
Record addresses_ok (w : sim_world T) : Prop := {
  ao_sizes : forall p, u64 (mp_size (object_of p));
  ao_sorted : keys_sorted address_map;
  ao_bases : forall a p, Containers.registered address_map a p -> 0 <= a;
  ao_buffer : forall obj b, buffer_of obj = Some b ->
    exists buffer loc, VkBuffer_index w !! b = Some buffer /\ find_buffer_memory b = Ok loc /\ loc_mapped loc <> 0 /\
      mp_device_address (object_of obj) = tb_device_address buffer /\ mp_size (object_of obj) = tb_size buffer /\
      0 <= tb_device_address buffer /\ tb_device_address buffer + tb_size buffer < 2 ^ 64 /\ 0 <= tb_size buffer < 2 ^ 61 /\
      regions_ok (tb_source buffer)
}.

Lemma found_at_unique w address size b offset b' offset' :
  found_at w address size b offset -> found_at w address size b' offset' -> b' = b /\ offset' = offset.
Proof. intros (_ & _ & obj & base & buffer & E1 & E2 & _ & _ & -> & _) (_ & _ & obj' & base' & buffer' & E1' & E2' & _ & _ & -> & _). by simplify_eq. Qed.

Context (w : sim_world T) (Hw : addresses_ok w).

Lemma found_at_inside address size b offset : u64 address -> found_at w address size b offset ->
  exists buffer, VkBuffer_index w !! b = Some buffer /\ regions_ok (tb_source buffer) /\ 0 <= offset /\ offset + size <= tb_size buffer < 2 ^ 61.
Proof using Hw.
  intros Ha (_ & _ & obj & base & buffer & E1 & E2 & E3 & _ & -> & H3). destruct Hw as [A1 A2 A3 A4].
  destruct (A4 obj b E2) as (buffer' & loc & E3' & _ & _ & _ & _ & _ & _ & ? & Hr). simplify_eq. exists buffer.
  pose proof (find_candidate_spec object_of address_map address A1 A2) as Hf. rewrite E1 in Hf. destruct Hf as (_ & Hb & _).
  split; [done|]. split; [done|]. split; [lia|]. split; [done|]. lia.
Qed.

Lemma map_range_spec address size : u64 address -> 0 <= size < 2 ^ 63 ->
  exists r, map_range w address size = Ok r /\
    forall m, r = Some m <-> exists b offset, found_at w address size b offset /\ m = MappedAddressRange (place b + offset) size offset b.
Proof using Hw.
  intros Ha Hs. unfold map_device_address_range, found_at. destruct (_ || _) eqn:E0.
  { exists None. split; [done|]. intros m. split; [done|]. intros (b & o & (N1 & N2 & _) & _). apply orb_true_iff in E0 as [E0|E0]; bool_to_prop; lia. }
  bool_to_prop. unfold get_by_address, translate_address. destruct Hw as [A1 A2 A3 A4].
  pose proof (find_candidate_spec object_of address_map address A1 A2) as Hf.
  destruct (find_candidate object_of address_map address) as [[obj base]|]; cbn [option_map fst]; [|exists None; split; [done|]; naive_solver].
  destruct Hf as (Hreg & Hle & Hcov & _). pose proof (A3 _ _ Hreg) as Hbase.
  destruct (buffer_of obj) as [b|] eqn:Eb; [|exists None; split; [done|]; naive_solver].
  destruct (A4 obj b Eb) as (buffer & loc & E1 & E2 & E3 & E4 & E5 & B1 & B2 & B3 & _). unfold buffer_at. rewrite E1. cbn [obind]. rewrite E4.
  unfold covers in Hcov. rewrite E5 in Hcov. rewrite wrap64_small in Hcov by u_lia. bool_to_prop.
  destruct (Z.eqb_spec (tb_device_address buffer) 0) as [Ed|Ed]; [exists None; split; [done|]; naive_solver|].
  rewrite wrap64_small by u_lia. rewrite (proj2 (Z.eqb_neq _ _)) by lia.
  replace (tb_device_address buffer + (address - base) - tb_device_address buffer) with (address - base) by lia.
  rewrite (wrap64_small (address - base)) by u_lia. rewrite wrap64_small by u_lia.
  destruct (_ >? _) eqn:E6; bool_to_prop.
  { exists None. split; [done|]. intros m. split; [done|]. intros (b' & o & (_ & _ & obj' & base' & buffer' & [= <- <-] & Eb' & Ebf & _ & -> & Hin) & _).
    simplify_eq. lia. }
  rewrite E2. cbn [obind]. rewrite (proj2 (Z.eqb_neq _ _)) by done. cbn [negb require obind]. eexists. split; [done|]. intros m.
  assert (Hp : place b = loc_mapped loc) by (unfold Simulation.place; by rewrite E2). split.
  - intros [= <-]. exists b, (address - base). split; [|by rewrite Hp]. do 2 (split; [lia|]). exists obj, base, buffer.
    do 4 (split; [done|]). split; [done|lia].
  - intros (b' & o & (_ & _ & obj' & base' & buffer' & [= <- <-] & Eb' & _ & _ & -> & _) & ->). simplify_eq. by rewrite Hp.
Qed.

(** ** Into the queue *)

(** the bytes come from one write, and the marking goes under its packet *)
Definition marked_under (b : nat) (offset size type sub : Z) (k : rewrite_key) (x : marking) : Prop :=
  exists buffer p, VkBuffer_index w !! b = Some buffer /\ one_source (tb_source buffer) offset size p /\
    k = provenance_key p (tb_object_type buffer) (tb_index buffer) /\ x = Marking offset type sub.

(** a range of bytes of a buffer that can be marked *)
Definition in_buffer (b : nat) (offset size : Z) : Prop :=
  exists buffer, VkBuffer_index w !! b = Some buffer /\ regions_ok (tb_source buffer) /\ 0 <= offset /\ 0 < size <= UINT32_MAX /\
    offset + size <= tb_size buffer < 2 ^ 61.

Lemma in_buffer_ok b offset size type sub : in_buffer b offset size -> marking_ok w (buffer_marking b offset size type sub).
Proof.
  intros (buffer & E & Hr & H1 & H2 & H3). split; [cbn; lia|]. intros _. cbn [buffer_marking d_offset d_size d_buffer_data].
  split; [done|]. split; [u_lia|]. split; [u_lia|]. by exists b, buffer.
Qed.

Lemma goes_to_source b offset size type sub k x : in_buffer b offset size ->
  goes_to w (buffer_marking b offset size type sub) k x <-> marked_under b offset size type sub k x.
Proof.
  intros (buffer & E & Hr & H1 & H2 & H3). unfold goes_to, marking_source, marking_target, buffer_at.
  cbn [buffer_marking d_offset d_size d_buffer_data d_has_explicit_source d_output_object_type d_output_stage_index orb negb].
  rewrite Z.gtb_ltb, (proj2 (Z.ltb_lt 0 size)) by lia. cbn [require obind]. rewrite bool_decide_false by done.
  rewrite E. cbn [negb orb require obind]. rewrite wrap32_small by u_lia. unfold try_get_source.
  destruct (try_get_reference_spec (tb_source buffer) offset size Hr H1 ltac:(lia) ltac:(u_lia)) as (res & -> & Hres).
  cbn [obind]. change (VK_OBJECT_TYPE_UNKNOWN =? VK_OBJECT_TYPE_UNKNOWN) with true. cbn [negb orb]. split.
  - intros (source & ty & ix & [= Es] & [= <- <-] & <- & <-). destruct res as [ref|]; [|done]. injection Es as <-.
    exists buffer, (reference_provenance ref 0). split; [done|]. split; [by apply Hres; exists ref|]. done.
  - intros (buffer' & p & E' & Hp & -> & ->). rewrite E in E'. injection E' as <-. apply Hres in Hp as (ref & -> & <-). by do 3 eexists.
Qed.

(** the markings [ds] are those of the places in [P] *)
Definition marks_places (P : nat -> Z -> Z -> Z -> Z -> Prop) (ds : list discovered_buffer_marking) : Prop :=
  forall d, d ∈ ds <-> exists b offset size type sub, P b offset size type sub /\ d = buffer_marking b offset size type sub.

Lemma merge_places (P : nat -> Z -> Z -> Z -> Z -> Prop) ds queue n :
  (forall b offset size type sub, P b offset size type sub -> in_buffer b offset size) -> marks_places P ds ->
  Forall (entry_ok n) queue -> 0 <= n -> NoDup (map entry_key queue) -> n + Z.of_nat (length ds) <= UINT32_MAX ->
  exists queue', merge_discovered_markings w ds queue = Ok queue' /\ Forall (entry_ok UINT32_MAX) queue' /\ NoDup (map entry_key queue') /\
    forall k x, queued queue' k x <-> queued queue k x \/
      exists b offset size type sub, P b offset size type sub /\ marked_under b offset size type sub k x.
Proof.
  intros HP Hds Hq Hn Hd Hlen. destruct (merge_discovered_spec w ds queue n) as (queue' & E & Q1 & Q2 & Q3); try done.
  { apply Forall_forall. intros d Hin. apply Hds in Hin as (b & o & s & t & u & Hp & ->). by eapply in_buffer_ok, HP. }
  exists queue'. do 3 (split; [done|]). intros k x. rewrite Q3, Exists_exists. split; (intros [Hq'|Hx]; [by left|right]).
  - destruct Hx as (d & Hin & Hg). apply Hds in Hin as (b & o & s & t & u & Hp & ->). exists b, o, s, t, u. split; [done|].
    apply goes_to_source; [by eapply HP|done].
  - destruct Hx as (b & o & s & t & u & Hp & Hm). exists (buffer_marking b o s t u). split; [apply Hds; by exists b, o, s, t, u|].
    apply goes_to_source; [by eapply HP|done].
Qed.

(** ** Instances *)

(** a reference that is not null, of one of [count] instances from an address on *)
Definition references_from (address count : Z) (b : nat) (offset : Z) : Prop :=
  exists o i, found_at w address (count * sizeof_VkAccelerationStructureInstanceKHR) b o /\ 0 <= i < count /\
    offset = o + i * sizeof_VkAccelerationStructureInstanceKHR + accelerationStructureReference /\
    load64 w (place b + offset) <> 0.

Definition reference_place (R : nat -> Z -> Prop) (b : nat) (offset size type sub : Z) : Prop :=
  R b offset /\ size = 8 /\ type = VK_MARKING_TYPE_DEVICE_ADDRESS_ARM /\ sub = VK_DEVICE_ADDRESS_TYPE_ACCELERATION_STRUCTURE_ARM.

Lemma references_in_buffer address count b offset : u64 address -> references_from address count b offset -> in_buffer b offset 8.
Proof using Hw.
  intros Ha (o & i & Hf & Hi & -> & _). destruct (found_at_inside _ _ _ _ Ha Hf) as (buffer & E & Hr & H1 & H2).
  exists buffer. unfold sizeof_VkAccelerationStructureInstanceKHR, accelerationStructureReference in *. do 2 (split; [done|]). u_lia.
Qed.

(** the markings of one geometry, behind those found before *)
Lemma collect_instances_spec buffer b o sz n : VkBuffer_index w !! b = Some buffer -> regions_ok (tb_source buffer) -> 0 <= o ->
  forall i discovered, o + (Z.of_nat (i + n)) * 64 < 2 ^ 61 ->
  exists new, collect_instances w buffer (MappedAddressRange (place b + o) sz o b) i n discovered = Ok (discovered ++ new) /\ (length new <= n)%nat /\
    forall d, d ∈ new <-> exists j, (i <= j < i + n)%nat /\ load64 w (place b + (o + Z.of_nat j * 64 + 56)) <> 0 /\
      d = buffer_marking b (o + Z.of_nat j * 64 + 56) 8 VK_MARKING_TYPE_DEVICE_ADDRESS_ARM VK_DEVICE_ADDRESS_TYPE_ACCELERATION_STRUCTURE_ARM.
Proof.
  intros Hb Hr Ho. induction n as [|n IH]; intros i discovered Hlt; cbn [collect_instances mr_ptr mr_buffer_offset mr_buffer_data].
  { exists []. rewrite app_nil_r. split; [done|]. split; [simpl; lia|]. intros d. split; [by intros ?%not_elem_of_nil|]. intros (j & Hj & _). lia. }
  unfold sizeof_VkAccelerationStructureInstanceKHR, accelerationStructureReference. rewrite wrap64_small by u_lia.
  destruct (try_get_reference_spec (tb_source buffer) (o + Z.of_nat i * 64 + 56) 8 Hr ltac:(lia) ltac:(lia) ltac:(u_lia)) as (res & -> & _).
  cbn [obind]. replace (place b + o + Z.of_nat i * 64 + 56) with (place b + (o + Z.of_nat i * 64 + 56)) by lia.
  set (here := if _ =? 0 then _ else _). destruct (IH (S i) here) as (new & E & Hlen & Hnew); [lia|]. rewrite E. subst here.
  assert (Hstep : forall (Q : discovered_buffer_marking -> nat -> Prop) d, (exists j, (i <= j < i + S n)%nat /\ Q d j) <->
    Q d i \/ exists j, (S i <= j < S i + n)%nat /\ Q d j).
  { intros Q d. split.
    - intros (j & Hj & HQ). destruct (decide (j = i)) as [->|]; [by left|right; exists j; split; [lia|done]].
    - intros [HQ|(j & Hj & HQ)]; [exists i; split; [lia|done]|exists j; split; [lia|done]]. }
  destruct (Z.eqb_spec (load64 w (place b + (o + Z.of_nat i * 64 + 56))) 0) as [Ez|Ez].
  - exists new. split; [done|]. split; [lia|]. intros d. rewrite Hnew, (Hstep (fun d j => _ /\ d = _)). naive_solver.
  - eexists (_ :: new). split; [by rewrite <- app_assoc|]. split; [simpl; lia|]. intros d. rewrite elem_of_cons, Hnew, (Hstep (fun d j => _ /\ d = _)). naive_solver.
Qed.

Abbreviation collect_markings := (collect_acceleration_structure_instance_markings find_buffer_memory address_map object_of buffer_of).
Abbreviation range_of := (instance_range find_buffer_memory address_map object_of buffer_of).

Lemma collect_markings_spec address primitive_offset count discovered : 0 <= count <= UINT32_MAX ->
  exists new, collect_markings w address primitive_offset count discovered = Ok (discovered ++ new) /\ Z.of_nat (length new) <= count /\
    marks_places (reference_place (fun b offset => address <> 0 /\ references_from (wrap64 (address + primitive_offset)) count b offset)) new.
Proof using Hw.
  intros Hc. unfold collect_acceleration_structure_instance_markings, marks_places, reference_place, references_from.
  assert (Hnone : (forall b o, address <> 0 -> ~ found_at w (wrap64 (address + primitive_offset)) (count * sizeof_VkAccelerationStructureInstanceKHR) b o) ->
    exists new, Ok discovered = Ok (discovered ++ new) /\ Z.of_nat (length new) <= count /\ forall d, d ∈ new <-> exists b offset size type sub,
      ((address <> 0 /\ exists o i, found_at w (wrap64 (address + primitive_offset)) (count * sizeof_VkAccelerationStructureInstanceKHR) b o /\
          0 <= i < count /\ offset = o + i * sizeof_VkAccelerationStructureInstanceKHR + accelerationStructureReference /\
          load64 w (place b + offset) <> 0) /\ size = 8 /\ type = VK_MARKING_TYPE_DEVICE_ADDRESS_ARM /\ sub = VK_DEVICE_ADDRESS_TYPE_ACCELERATION_STRUCTURE_ARM) /\
      d = buffer_marking b offset size type sub).
  { intros Hn. exists []. rewrite app_nil_r. split; [done|]. split; [simpl; lia|]. intros d. split; [by intros ?%not_elem_of_nil|].
    intros (b & ? & ? & ? & ? & ((Ha & o & i & Hf & _) & _) & _). by destruct (Hn b o Ha). }
  destruct (_ || _) eqn:E0.
  { apply Hnone. intros b o Ha (_ & Hs & _). apply orb_true_iff in E0 as [E0|E0]; bool_to_prop; lia. }
  bool_to_prop. destruct (map_range_spec (wrap64 (address + primitive_offset)) (count * sizeof_VkAccelerationStructureInstanceKHR))
    as (r & -> & Hr); [apply wrap64_range|unfold sizeof_VkAccelerationStructureInstanceKHR; u_lia|]. cbn [obind].
  destruct r as [m|].
  2:{ apply Hnone. intros b o _ Hf. by assert (None = Some (MappedAddressRange (place b + o) (count * sizeof_VkAccelerationStructureInstanceKHR) o b)) by (apply Hr; eauto). }
  destruct (proj1 (Hr m) eq_refl) as (b & o & Hf & ->). cbn [mr_buffer_data].
  destruct (found_at_inside _ _ _ _ (wrap64_range _) Hf) as (buffer & Eb & Hreg & Ho & Hend). unfold buffer_at. rewrite Eb. cbn [obind].
  unfold sizeof_VkAccelerationStructureInstanceKHR, accelerationStructureReference in *.
  destruct (collect_instances_spec buffer b o (count * 64) (Z.to_nat count) Eb Hreg Ho 0%nat discovered ltac:(lia)) as (new & -> & Hlen & Hnew).
  exists new. split; [done|]. split; [lia|]. intros d. rewrite Hnew. split.
  - intros (j & Hj & Hz & ->). exists b, (o + Z.of_nat j * 64 + 56), 8, VK_MARKING_TYPE_DEVICE_ADDRESS_ARM, VK_DEVICE_ADDRESS_TYPE_ACCELERATION_STRUCTURE_ARM.
    split; [|done]. split; [|done]. split; [done|]. exists o, (Z.of_nat j). split; [done|]. split; [lia|]. done.
  - intros (b' & offset & ? & ? & ? & ((_ & o' & i & Hf' & Hi & -> & Hz) & -> & -> & ->) & ->).
    destruct (found_at_unique _ _ _ _ _ _ _ Hf Hf') as [-> ->]. exists (Z.to_nat i). rewrite Z2Nat.id by lia. split; [lia|]. done.
Qed.

(** the offset and the number of the instances of a geometry *)
Definition use_reads (u : instance_use) (primitive_offset count : Z) : Prop :=
  if iu_indirect_range_address u =? 0 then primitive_offset = iu_primitive_offset u /\ count = iu_primitive_count u
  else exists b o, found_at w (iu_indirect_range_address u) sizeof_VkAccelerationStructureBuildRangeInfoKHR b o /\
    primitive_offset = load_field w (place b + o) 4 4 /\ count = load_field w (place b + o) 0 4.

Definition use_ok (u : instance_use) : Prop := u32 (iu_primitive_count u) /\ u64 (iu_indirect_range_address u).

Lemma instance_range_spec u : use_ok u ->
  exists r, range_of w u = Ok r /\ forall offset count, r = Some (offset, count) <-> use_reads u offset count.
Proof using Hw.
  intros [_ Hu]. unfold instance_range, use_reads, read_acceleration_structure_build_range.
  destruct (Z.eqb_spec (iu_indirect_range_address u) 0) as [Ez|Ez]; cbn [negb].
  { eexists. split; [done|]. intros offset count. split; [by intros [= <- <-]|by intros [-> ->]]. }
  destruct (map_range_spec (iu_indirect_range_address u) sizeof_VkAccelerationStructureBuildRangeInfoKHR Hu ltac:(by vm_compute)) as (r & -> & Hr).
  cbn [obind]. eexists. split; [done|]. intros offset count. split.
  - destruct r as [m|]; [|done]. intros [= <- <-]. destruct (proj1 (Hr m) eq_refl) as (b & o & Hf & ->). by exists b, o.
  - intros (b & o & Hf & -> & ->). rewrite (proj2 (Hr (MappedAddressRange (place b + o) _ o b))) by eauto. done.
Qed.

Lemma use_reads_count u offset count : use_ok u -> use_reads u offset count -> 0 <= count <= UINT32_MAX.
Proof.
  intros [Hc _]. unfold use_reads. destruct (_ =? 0); [by intros [_ ->]|]. intros (b & o & _ & _ & ->).
  unfold load_field. pose proof (le_decode_range (load w (place b + o + 0) 4)) as Hl. unfold load in *.
  rewrite length_map, length_seq in Hl. change (256 ^ Z.of_nat 4) with (2 ^ 32) in Hl. u_lia.
Qed.

(** how many instances the geometries have *)
Definition instances_read (uses : list instance_use) : Z :=
  foldr (fun u n => match range_of w u with Ok (Some (_, count)) => count | _ => 0 end + n) 0 uses.

(** a reference that the build reads *)
Definition use_references (uses : list instance_use) (b : nat) (offset : Z) : Prop :=
  exists u primitive_offset count, u ∈ uses /\ use_reads u primitive_offset count /\ iu_address u <> 0 /\
    references_from (wrap64 (iu_address u + primitive_offset)) count b offset.

Lemma collect_uses_spec uses : Forall use_ok uses -> forall discovered,
  exists new, collect_uses find_buffer_memory address_map object_of buffer_of w uses discovered = Ok (discovered ++ new) /\
    Z.of_nat (length new) <= instances_read uses /\ marks_places (reference_place (use_references uses)) new.
Proof using Hw.
  induction 1 as [|u uses Hu Hus IH]; intros discovered; cbn [collect_uses instances_read foldr].
  { exists []. rewrite app_nil_r. split; [done|]. split; [simpl; lia|]. intros d. split; [by intros ?%not_elem_of_nil|].
    intros (b & o & ? & ? & ? & ((u & ? & ? & Hin & _) & _) & _). by apply not_elem_of_nil in Hin. }
  fold (instances_read uses). destruct (instance_range_spec u Hu) as (r & Er & Hr). rewrite Er. cbn [obind].
  assert (Hone : exists new, match r with Some (po, pc) => collect_markings w (iu_address u) po pc discovered | None => Ok discovered end = Ok (discovered ++ new) /\
    Z.of_nat (length new) <= match r with Some (_, pc) => pc | None => 0 end /\ marks_places (reference_place (use_references [u])) new).
  { destruct r as [[po pc]|].
    - pose proof (proj1 (Hr po pc) eq_refl) as Hreads. pose proof (use_reads_count u po pc Hu Hreads) as Hpc.
      destruct (collect_markings_spec (iu_address u) po pc discovered Hpc) as (new & -> & Hlen & Hnew). exists new. do 2 (split; [done|]).
      intros d. rewrite (Hnew d). unfold reference_place, use_references. split; intros (b & o & s & t & v & (Hp & Hrest) & ->); exists b, o, s, t, v;
        (split; [split; [|done]|done]).
      + destruct Hp as [Ha Hp]. exists u, po, pc. split; [by apply list_elem_of_singleton|]. done.
      + destruct Hp as (u' & po' & pc' & ->%list_elem_of_singleton & Hreads' & Ha & Hp). apply Hr in Hreads'. by injection Hreads' as <- <-.
    - exists []. rewrite app_nil_r. do 2 (split; [done|]). intros d. split; [by intros ?%not_elem_of_nil|].
      intros (b & o & ? & ? & ? & ((u' & po' & pc' & ->%list_elem_of_singleton & Hreads' & _) & _) & _). by apply Hr in Hreads'. }
  destruct Hone as (new1 & -> & Hlen1 & Hnew1). cbn [obind]. destruct (IH (discovered ++ new1)) as (new2 & -> & Hlen2 & Hnew2).
  exists (new1 ++ new2). split; [by rewrite app_assoc|]. split.
  { rewrite length_app. destruct r as [[po pc]|]; lia. }
  intros d. rewrite elem_of_app, (Hnew1 d), (Hnew2 d). unfold reference_place, use_references. split.
  - intros [(b & o & s & t & v & ((u' & po & pc & Hin & Hrest) & Hr') & ->)|(b & o & s & t & v & ((u' & po & pc & Hin & Hrest) & Hr') & ->)];
      exists b, o, s, t, v; (split; [split; [|done]|done]); exists u', po, pc; (split; [|done]).
    + apply list_elem_of_singleton in Hin as ->. by left.
    + by right.
  - intros (b & o & s & t & v & ((u' & po & pc & Hin & Hrest) & Hr') & ->). apply elem_of_cons in Hin as [->|Hin].
    + left. exists b, o, s, t, v. split; [split; [|done]|done]. exists u, po, pc. split; [by left|done].
    + right. exists b, o, s, t, v. split; [split; [|done]|done]. by exists u', po, pc.
Qed.

(** ** Recorded builds *)

Inductive build_call := DirectBuilds (infos : list build) | IndirectBuilds (infos : list indirect_build).

Definition build_uses (call : build_call) : outcome (list instance_use) :=
  match call with DirectBuilds infos => use_builds infos [] | IndirectBuilds infos => use_indirect_builds infos [] end.

Definition record_build (current : change_source) (call : build_call) (c : ray_cmdbuffer) : outcome ray_cmdbuffer :=
  match call with
  | DirectBuilds infos => postprocess_vkCmdBuildAccelerationStructuresKHR current infos c
  | IndirectBuilds infos => postprocess_vkCmdBuildAccelerationStructuresIndirectKHR current infos c
  end.

(** the build reads [count] instances at an offset behind [data] *)
Inductive build_reads : build_call -> Z -> Z -> Z -> Prop :=
  | direct_reads infos info ranges g data r :
      info ∈ infos -> b_ranges info = Some ranges -> b_geometries info !! g = Some (Some (Instances false data)) -> ranges !! g = Some r ->
      build_reads (DirectBuilds infos) data (br_primitiveOffset r) (br_primitiveCount r)
  | indirect_reads infos info address stride g data b o :
      info ∈ infos -> ib_address info = Some address -> address <> 0 -> ib_stride info = Some stride ->
      ib_geometries info !! g = Some (Some (Instances false data)) ->
      found_at w (address + Z.of_nat g * stride) sizeof_VkAccelerationStructureBuildRangeInfoKHR b o ->
      build_reads (IndirectBuilds infos) data (load_field w (place b + o) 4 4) (load_field w (place b + o) 0 4).

(** what an application has to keep to *)
Definition build_ok (call : build_call) : Prop :=
  match call with
  | DirectBuilds infos => forall info ranges g array data, info ∈ infos -> b_ranges info = Some ranges ->
      b_geometries info !! g = Some (Some (Instances array data)) ->
      array = false /\ exists r, ranges !! g = Some r /\ u32 (br_primitiveCount r)
  | IndirectBuilds infos => forall info address stride g array data, info ∈ infos -> ib_address info = Some address -> address <> 0 ->
      ib_stride info = Some stride -> ib_geometries info !! g = Some (Some (Instances array data)) ->
      array = false /\ 16 <= stride /\ 0 < address /\ address + Z.of_nat g * stride <= UINT64_MAX
  end.

Lemma use_geometries_spec body (piece : nat -> Z -> list instance_use) geometries : forall g0 uses,
  (forall g array data uses, geometries !! g = Some (Some (Instances array data)) -> array = false /\ body (g0 + g)%nat data uses = Ok (uses ++ piece (g0 + g)%nat data)) ->
  exists new, use_geometries body g0 geometries uses = Ok (uses ++ new) /\
    forall u, u ∈ new <-> exists g array data, geometries !! g = Some (Some (Instances array data)) /\ u ∈ piece (g0 + g)%nat data.
Proof.
  induction geometries as [|geo geometries IH]; intros g0 uses Hb.
  { exists []. rewrite app_nil_r. split; [done|]. intros u. split; [by intros ?%not_elem_of_nil|]. by intros (? & ? & ? & ? & _). }
  assert (Hb' : forall g array data uses, geometries !! g = Some (Some (Instances array data)) ->
    array = false /\ body (S g0 + g)%nat data uses = Ok (uses ++ piece (S g0 + g)%nat data)).
  { intros g array data us Hg. specialize (Hb (S g) array data us Hg). by rewrite Nat.add_succ_r in Hb. }
  assert (Hskip : (forall array data, geo <> Some (Instances array data)) -> exists new, use_geometries body (S g0) geometries uses = Ok (uses ++ new) /\
    forall u, u ∈ new <-> exists g array data, (geo :: geometries) !! g = Some (Some (Instances array data)) /\ u ∈ piece (g0 + g)%nat data).
  { intros Hn. destruct (IH (S g0) uses Hb') as (new & E & Hu). exists new. split; [done|]. intros u. rewrite Hu. split.
    - intros (g & array & data & Hg & Hin). exists (S g), array, data. by rewrite Nat.add_succ_r.
    - intros ([|g] & array & data & Hg & Hin); [by injection Hg as Hg; destruct (Hn array data)|]. exists g, array, data. by rewrite Nat.add_succ_r in Hin. }
  destruct geo as [[| |array data|]|]; cbn [use_geometries]; try (by apply Hskip).
  destruct (Hb 0%nat array data uses eq_refl) as [-> E0]. cbn [negb require obind]. rewrite Nat.add_0_r in E0. rewrite E0. cbn [obind].
  destruct (IH (S g0) (uses ++ piece g0 data) Hb') as (new & E & Hu). exists (piece g0 data ++ new). split; [by rewrite app_assoc|].
  intros u. rewrite elem_of_app, Hu. split.
  - intros [Hin|(g & a & d & Hg & Hin)]; [exists 0%nat, false, data; by rewrite Nat.add_0_r|exists (S g), a, d; by rewrite Nat.add_succ_r].
  - intros ([|g] & a & d & Hg & Hin); [left; injection Hg as <- <-; by rewrite Nat.add_0_r in Hin|right; exists g, a, d; by rewrite Nat.add_succ_r in Hin].
Qed.

(** what is appended for a geometry *)
Definition one_use (address offset count range_address : Z) : list instance_use :=
  append_acceleration_structure_instance_use [] address offset count range_address.

Lemma append_use uses address offset count range_address :
  append_acceleration_structure_instance_use uses address offset count range_address = uses ++ one_use address offset count range_address.
Proof. unfold one_use, append_acceleration_structure_instance_use. destruct (_ || _); by rewrite ?app_nil_r. Qed.

Lemma one_use_spec address offset count range_address u : u ∈ one_use address offset count range_address <->
  address <> 0 /\ (count <> 0 \/ range_address <> 0) /\ u = InstanceUse address offset count range_address.
Proof.
  unfold one_use, append_acceleration_structure_instance_use. destruct (Z.eqb_spec address 0); destruct (Z.eqb_spec count 0);
    destruct (Z.eqb_spec range_address 0); cbn [orb andb app]; rewrite ?list_elem_of_singleton, ?elem_of_nil; naive_solver.
Qed.

Lemma use_builds_spec infos : build_ok (DirectBuilds infos) -> forall uses,
  exists new, use_builds infos uses = Ok (uses ++ new) /\
    forall u, u ∈ new <-> exists info ranges g data r, info ∈ infos /\ b_ranges info = Some ranges /\
      b_geometries info !! g = Some (Some (Instances false data)) /\ ranges !! g = Some r /\
      u ∈ one_use data (br_primitiveOffset r) (br_primitiveCount r) 0.
Proof.
  induction infos as [|info infos IH]; intros Hok uses; cbn [use_builds].
  { exists []. rewrite app_nil_r. split; [done|]. intros u. split; [by intros ?%not_elem_of_nil|]. by intros (? & ? & ? & ? & ? & ?%not_elem_of_nil & _). }
  assert (Hfirst : exists new, match b_ranges info with Some ranges => use_geometries (use_range ranges) 0 (b_geometries info) uses | None => Ok uses end = Ok (uses ++ new) /\
    forall u, u ∈ new <-> exists ranges g data r, b_ranges info = Some ranges /\ b_geometries info !! g = Some (Some (Instances false data)) /\
      ranges !! g = Some r /\ u ∈ one_use data (br_primitiveOffset r) (br_primitiveCount r) 0).
  { destruct (b_ranges info) as [ranges|] eqn:Er; [|exists []; rewrite app_nil_r; split; [done|]; intros u; rewrite elem_of_nil; naive_solver].
    destruct (use_geometries_spec (use_range ranges)
      (fun g data => match ranges !! g with Some r => one_use data (br_primitiveOffset r) (br_primitiveCount r) 0 | None => [] end)
      (b_geometries info) 0 uses) as (new & E & Hu).
    { intros g array data us Hg. destruct (Hok info ranges g array data ltac:(by left) Er Hg) as (-> & r & Eg & _). split; [done|].
      unfold use_range, element. rewrite Nat.add_0_l, Eg. cbn [obind]. by rewrite append_use. }
    exists new. split; [done|]. intros u. rewrite Hu. split.
    - intros (g & array & data & Hg & Hin). destruct (Hok info ranges g array data ltac:(by left) Er Hg) as (-> & r & Eg & _).
      rewrite Nat.add_0_l, Eg in Hin. by exists ranges, g, data, r.
    - intros (ranges' & g & data & r & [= <-] & Hg & Eg & Hin). exists g, false, data. rewrite Nat.add_0_l, Eg. done. }
  destruct Hfirst as (new1 & -> & Hnew1). cbn [obind].
  destruct (IH (fun i' ranges g array data Hin => Hok i' ranges g array data (list_elem_of_further _ _ _ Hin)) (uses ++ new1)) as (new2 & -> & Hnew2).
  exists (new1 ++ new2). split; [by rewrite app_assoc|]. intros u. rewrite elem_of_app, Hnew1, Hnew2. split.
  - intros [(ranges & g & data & r & Hr)|(i' & ranges & g & data & r & Hin & Hr)]; [exists info|exists i']; exists ranges, g, data, r; (split; [|done]); by constructor.
  - intros (i' & ranges & g & data & r & [->|Hin]%elem_of_cons & Hr); [left; by exists ranges, g, data, r|right; by exists i', ranges, g, data, r].
Qed.

Lemma use_indirect_builds_spec infos : build_ok (IndirectBuilds infos) -> forall uses,
  exists new, use_indirect_builds infos uses = Ok (uses ++ new) /\
    forall u, u ∈ new <-> exists info address stride g data, info ∈ infos /\ ib_address info = Some address /\ address <> 0 /\
      ib_stride info = Some stride /\ ib_geometries info !! g = Some (Some (Instances false data)) /\
      u ∈ one_use data 0 0 (address + Z.of_nat g * stride).
Proof.
  induction infos as [|info infos IH]; intros Hok uses; cbn [use_indirect_builds].
  { exists []. rewrite app_nil_r. split; [done|]. intros u. split; [by intros ?%not_elem_of_nil|]. by intros (? & ? & ? & ? & ? & ?%not_elem_of_nil & _). }
  assert (Hfirst : exists new, match ib_address info, ib_stride info with
      | Some ranges_address, Some stride =>
          if ranges_address =? 0 then Ok uses else use_geometries (use_indirect_range ranges_address stride) 0 (ib_geometries info) uses
      | _, _ => Ok uses end = Ok (uses ++ new) /\
    forall u, u ∈ new <-> exists address stride g data, ib_address info = Some address /\ address <> 0 /\ ib_stride info = Some stride /\
      ib_geometries info !! g = Some (Some (Instances false data)) /\ u ∈ one_use data 0 0 (address + Z.of_nat g * stride)).
  { destruct (ib_address info) as [address|] eqn:Ea; [|exists []; rewrite app_nil_r; split; [done|]; intros u; rewrite elem_of_nil; naive_solver].
    destruct (ib_stride info) as [stride|] eqn:Es; [|exists []; rewrite app_nil_r; split; [done|]; intros u; rewrite elem_of_nil; naive_solver].
    destruct (Z.eqb_spec address 0) as [->|Hz]; [exists []; rewrite app_nil_r; split; [done|]; intros u; rewrite elem_of_nil; naive_solver|].
    destruct (use_geometries_spec (use_indirect_range address stride) (fun g data => one_use data 0 0 (address + Z.of_nat g * stride))
      (ib_geometries info) 0 uses) as (new & E & Hu).
    { intros g array data us Hg. destruct (Hok info address stride g array data ltac:(by left) Ea Hz Es Hg) as (-> & Hs & Hp & Hmax). split; [done|].
      rewrite Nat.add_0_l. unfold use_indirect_range, sizeof_VkAccelerationStructureBuildRangeInfoKHR.
      rewrite (proj2 (Z.ltb_ge _ _)) by lia. cbn [negb require obind]. rewrite (wrap64_small (Z.of_nat g * stride)), wrap64_small by u_lia.
      rewrite (proj2 (Z.ltb_ge _ _)) by lia. cbn [negb require obind]. by rewrite append_use. }
    exists new. split; [done|]. intros u. rewrite Hu. split.
    - intros (g & array & data & Hg & Hin). destruct (Hok info address stride g array data ltac:(by left) Ea Hz Es Hg) as (-> & _).
      by exists address, stride, g, data.
    - intros (a' & s' & g & data & [= <-] & _ & [= <-] & Hg & Hin). by exists g, false, data. }
  destruct Hfirst as (new1 & -> & Hnew1). cbn [obind].
  destruct (IH (fun i' a s g array data Hin => Hok i' a s g array data (list_elem_of_further _ _ _ Hin)) (uses ++ new1)) as (new2 & -> & Hnew2).
  exists (new1 ++ new2). split; [by rewrite app_assoc|]. intros u. rewrite elem_of_app, Hnew1, Hnew2. split.
  - intros [(a & s & g & data & Hr)|(i' & a & s & g & data & Hin & Hr)]; [exists info|exists i']; exists a, s, g, data; (split; [|done]); by constructor.
  - intros (i' & a & s & g & data & [->|Hin]%elem_of_cons & Hr); [left; by exists a, s, g, data|right; by exists i', a, s, g, data].
Qed.

(** the recorded geometries are those that the build reads *)
Lemma build_uses_spec call : build_ok call ->
  exists uses, build_uses call = Ok uses /\ Forall use_ok uses /\
    forall b offset, use_references uses b offset <->
      exists data primitive_offset count, build_reads call data primitive_offset count /\ data <> 0 /\
        references_from (wrap64 (data + primitive_offset)) count b offset.
Proof.
  intros Hok. destruct call as [infos|infos]; cbn [build_uses].
  - destruct (use_builds_spec infos Hok []) as (uses & -> & Hu). exists uses. split; [done|]. split.
    { apply Forall_forall. intros u Hin. apply Hu in Hin as (info & ranges & g & data & r & Hin & Er & Eg & Eg' & Hone).
      apply one_use_spec in Hone as (_ & _ & ->). split; [|done]. by destruct (Hok info ranges g false data Hin Er Eg) as (_ & r' & Er' & Hr); simplify_eq. }
    intros b offset. unfold use_references. split.
    + intros (u & po & pc & Hin & Hreads & Ha & Hf). apply Hu in Hin as (info & ranges & g & data & r & Hin & Er & Eg & Eg' & Hone).
      apply one_use_spec in Hone as (_ & _ & ->). unfold use_reads in Hreads. cbn in Hreads. destruct Hreads as [-> ->].
      exists data, (br_primitiveOffset r), (br_primitiveCount r). split; [by econstructor|done].
    + intros (data & po & pc & Hreads & Hd & Hf). inversion Hreads as [? info ranges g ? r Hin Er Eg Eg'|]; subst.
      exists (InstanceUse data (br_primitiveOffset r) (br_primitiveCount r) 0), (br_primitiveOffset r), (br_primitiveCount r).
      split; [|done]. apply Hu. exists info, ranges, g, data, r. do 4 (split; [done|]). apply one_use_spec. split; [done|]. split; [|done].
      left. destruct Hf as (? & ? & _ & Hi & _). lia.
  - destruct (use_indirect_builds_spec infos Hok []) as (uses & -> & Hu). exists uses. split; [done|]. split.
    { apply Forall_forall. intros u Hin. apply Hu in Hin as (info & a & s & g & data & Hin & Ea & Hz & Es & Eg & Hone).
      apply one_use_spec in Hone as (_ & _ & ->). destruct (Hok info a s g false data Hin Ea Hz Es Eg) as (_ & ? & ? & ?). split; [by vm_compute|cbn; u_lia]. }
    intros b offset. unfold use_references. split.
    + intros (u & po & pc & Hin & Hreads & Ha & Hf). apply Hu in Hin as (info & a & s & g & data & Hin & Ea & Hz & Es & Eg & Hone).
      apply one_use_spec in Hone as (_ & _ & ->). destruct (Hok info a s g false data Hin Ea Hz Es Eg) as (_ & ? & ? & ?).
      unfold use_reads in Hreads. cbn [iu_indirect_range_address] in Hreads. rewrite (proj2 (Z.eqb_neq _ _)) in Hreads by lia.
      destruct Hreads as (b' & o & Hfr & -> & ->). exists data, (load_field w (place b' + o) 4 4), (load_field w (place b' + o) 0 4).
      split; [by econstructor|done].
    + intros (data & po & pc & Hreads & Hd & Hf). inversion Hreads as [|? info a s g ? b' o Hin Ea Hz Es Eg Hfr]; subst.
      destruct (Hok info a s g false data Hin Ea Hz Es Eg) as (_ & ? & ? & ?).
      exists (InstanceUse data 0 0 (a + Z.of_nat g * s)), (load_field w (place b' + o) 4 4), (load_field w (place b' + o) 0 4).
      split; [apply Hu; exists info, a, s, g, data; do 5 (split; [done|]); apply one_use_spec; split; [done|split; [right; lia|done]]|].
      split; [|done]. unfold use_reads. cbn [iu_indirect_range_address]. rewrite (proj2 (Z.eqb_neq _ _)) by lia. by exists b', o.
Qed.

Lemma use_references_in_buffer uses b offset size type sub :
  reference_place (use_references uses) b offset size type sub -> in_buffer b offset size.
Proof using Hw.
  intros ((u & po & pc & _ & _ & _ & Hf) & -> & _). by apply (references_in_buffer (wrap64 (iu_address u + po)) pc); [apply wrap64_range|].
Qed.

(** ** Shader binding tables *)

Definition region_stride (region : strided_region) : Z := if sr_stride region =? 0 then sr_size region else sr_stride region.

(** the first group with these bytes as its handle *)
Definition group_of_bytes (p : simulated_pipeline T) (bytes : list byte) (g : nat) : Prop :=
  (g < compared_handles p)%nat /\ capture_handle (sp_handles p) g = bytes /\
  forall g', (g' < g)%nat -> capture_handle (sp_handles p) g' <> bytes.

(** a whole record of the table that begins with the handle of a group *)
Definition record_group (p : simulated_pipeline T) (region : strided_region) (b : nat) (offset : Z) (g : nat) : Prop :=
  let hs := raytracing_group_handle_size (sp_handles p) in
  exists o i, found_at w (sr_deviceAddress region) (sr_size region) b o /\ 0 < hs <= region_stride region /\
    0 <= i /\ (i + 1) * region_stride region <= sr_size region /\ offset = o + i * region_stride region /\
    group_of_bytes p (load w (place b + offset) (Z.to_nat hs)) g.

(** a shader of the group *)
Definition group_stage (p : simulated_pipeline T) (g : nat) (k : Z) : Prop :=
  exists group, raytracing_groups p !! g = Some group /\ k <> VK_SHADER_UNUSED_KHR /\ k < Z.of_nat (length (shader_stages p)) /\
    match rg_type group with
    | VK_RAY_TRACING_SHADER_GROUP_TYPE_GENERAL_KHR => k = general_shader group
    | _ => k = closest_hit_shader group \/ k = any_hit_shader group \/ k = intersection_shader group
    end.

Definition handle_place (p : simulated_pipeline T) (region : strided_region) (b : nat) (offset size type sub : Z) : Prop :=
  exists g, record_group p region b offset g /\ size = raytracing_group_handle_size (sp_handles p) /\
    type = VK_MARKING_TYPE_SHADER_GROUP_HANDLE_ARM /\ sub = get_shader_group_handle_marking_subtype p g.

Definition region_ok (region : strided_region) : Prop :=
  u64 (sr_deviceAddress region) /\ 0 <= sr_stride region /\ u32 (sr_size region).

Lemma insert_stage_spec (p : simulated_pipeline T) k stages j : j ∈ insert_stage p k stages <->
  j ∈ stages \/ j = k /\ k <> VK_SHADER_UNUSED_KHR /\ k < Z.of_nat (length (shader_stages p)).
Proof.
  unfold insert_stage. destruct (Z.eqb_spec k VK_SHADER_UNUSED_KHR); [naive_solver|].
  rewrite Z.geb_leb. destruct (Z.leb_spec (Z.of_nat (length (shader_stages p))) k); [|set_solver]. split; [by left|]. intros [?|(? & ? & ?)]; [done|lia].
Qed.

Lemma add_group_spec (p : simulated_pipeline T) g stages j : j ∈ add_raytracing_group_stages p g stages <-> j ∈ stages \/ group_stage p g j.
Proof.
  unfold add_raytracing_group_stages, group_stage. destruct (raytracing_groups p !! g) as [group|]; [|naive_solver].
  destruct (rg_type group) eqn:E; rewrite !insert_stage_spec; split; intros Hx; decompose [or and ex] Hx; simplify_eq;
    try (by left); try (right; eexists; split; [done|]; rewrite ?E; tauto); rewrite ?E in *; naive_solver.
Qed.

Lemma find_group_spec (p : simulated_pipeline T) ptr g : 0 <= raytracing_group_handle_size (sp_handles p) ->
  find_raytracing_group_index p w ptr = Some g <-> 0 < raytracing_group_handle_size (sp_handles p) /\
    group_of_bytes p (load w ptr (Z.to_nat (raytracing_group_handle_size (sp_handles p)))) g.
Proof.
  intros Hs. unfold find_raytracing_group_index, group_of_bytes. destruct (Z.eqb_spec (raytracing_group_handle_size (sp_handles p)) 0) as [E|E].
  { split; [done|]. lia. }
  set (bytes := load w ptr _). rewrite fmap_Some. split.
  - intros ((i & g') & Hf & ->). apply list_find_Some in Hf as (Hl & Hg & Hmin). apply lookup_seq in Hl as [-> Hlt]. cbn [snd]. rewrite Nat.add_0_l in *.
    split; [lia|]. split; [done|]. split; [done|]. intros g' Hlt'. apply (Hmin g' g'); [apply lookup_seq; lia|lia].
  - intros (_ & Hlt & Hg & Hmin). exists (g, g). split; [|done]. apply list_find_Some. split; [apply lookup_seq; lia|]. split; [done|].
    intros j y Hl Hj. apply lookup_seq in Hl as [-> _]. rewrite Nat.add_0_l. by apply Hmin.
Qed.

Lemma collect_records_spec (p : simulated_pipeline T) b o sz stride n : 0 <= o -> 0 <= stride -> forall i stages ds, o + Z.of_nat (i + n) * stride < 2 ^ 62 ->
  exists stages' new, fold_left (fun found i => collect_record p w (MappedAddressRange (place b + o) sz o b) stride i found) (seq i n) (stages, ds) =
      (stages', ds ++ new) /\ (length new <= n)%nat /\
    (forall d, d ∈ new <-> exists j g, (i <= j < i + n)%nat /\ find_raytracing_group_index p w (place b + o + Z.of_nat j * stride) = Some g /\
      d = buffer_marking b (o + Z.of_nat j * stride) (raytracing_group_handle_size (sp_handles p)) VK_MARKING_TYPE_SHADER_GROUP_HANDLE_ARM
            (get_shader_group_handle_marking_subtype p g)) /\
    (forall k, k ∈ stages' <-> k ∈ stages \/ exists j g, (i <= j < i + n)%nat /\
      find_raytracing_group_index p w (place b + o + Z.of_nat j * stride) = Some g /\ group_stage p g k).
Proof.
  intros Ho Hst. induction n as [|n IH]; intros i stages ds Hlt; cbn [seq fold_left].
  { exists stages, []. rewrite app_nil_r. split; [done|]. split; [simpl; lia|]. split.
    - intros d. split; [by intros ?%not_elem_of_nil|]. intros (j & g & Hj & _). lia.
    - intros k. split; [by left|]. intros [?|(j & g & Hj & _)]; [done|lia]. }
  assert (Hstep : forall (Q : nat -> nat -> Prop), (exists j g, (i <= j < i + S n)%nat /\ Q j g) <-> (exists g, Q i g) \/ exists j g, (S i <= j < S i + n)%nat /\ Q j g).
  { intros Q. split.
    - intros (j & g & Hj & HQ). destruct (decide (j = i)) as [->|]; [left; by exists g|right; exists j, g; split; [lia|done]].
    - intros [(g & HQ)|(j & g & Hj & HQ)]; [exists i, g; split; [lia|done]|exists j, g; split; [lia|done]]. }
  unfold collect_record at 2. cbn [mr_ptr mr_buffer_data mr_buffer_offset].
  assert (Hb : 0 <= Z.of_nat i * stride <= Z.of_nat (i + S n) * stride) by nia.
  rewrite wrap64_small by u_lia.
  destruct (find_raytracing_group_index p w (place b + o + Z.of_nat i * stride)) as [g|] eqn:Eg.
  - destruct (IH (S i) (add_raytracing_group_stages p g stages) (ds ++ [buffer_marking b (o + Z.of_nat i * stride)
      (raytracing_group_handle_size (sp_handles p)) VK_MARKING_TYPE_SHADER_GROUP_HANDLE_ARM (get_shader_group_handle_marking_subtype p g)]))
      as (stages' & new & -> & Hlen & Hd & Hk); [by rewrite Nat.add_succ_l, <- Nat.add_succ_r|].
    eexists stages', (_ :: new). split; [by rewrite <- app_assoc|]. split; [simpl; lia|]. split.
    + intros d. rewrite elem_of_cons, Hd, (Hstep (fun j g => _ = Some g /\ d = _)). rewrite Eg. naive_solver.
    + intros k. rewrite Hk, add_group_spec, (Hstep (fun j g => _ = Some g /\ _)). rewrite Eg. naive_solver.
  - destruct (IH (S i) stages ds) as (stages' & new & -> & Hlen & Hd & Hk); [by rewrite Nat.add_succ_l, <- Nat.add_succ_r|].
    exists stages', new. split; [done|]. split; [lia|]. split.
    + intros d. rewrite Hd, (Hstep (fun j g => _ = Some g /\ d = _)). rewrite Eg. naive_solver.
    + intros k. rewrite Hk, (Hstep (fun j g => _ = Some g /\ _)). rewrite Eg. naive_solver.
Qed.

Abbreviation collect_region := (collect_stages_from_sbt_region find_buffer_memory address_map object_of buffer_of).

(** the stages of the groups in a table *)
Definition region_stage (p : simulated_pipeline T) (region : strided_region) (k : Z) : Prop :=
  exists b offset g, record_group p region b offset g /\ group_stage p g k.

(** what a table with the handle of a group is like *)
Lemma record_group_region p region b offset g : record_group p region b offset g ->
  sr_deviceAddress region <> 0 /\ sr_size region <> 0 /\
  0 < raytracing_group_handle_size (sp_handles p) <= region_stride region /\ region_stride region <= sr_size region /\
  length (raytracing_group_handles (sp_handles p)) <> 0%nat.
Proof.
  intros (o & i & (N1 & N2 & _) & Hs & Hi & Hend & _ & (Hlt & _)). do 3 (split; [done|]). split; [nia|]. intros E.
  unfold compared_handles in Hlt. rewrite E, Nat.Div0.div_0_l in Hlt. destruct (_ >? _) eqn:Eg in Hlt; [vm_compute in Hlt; lia|]. bool_to_prop. lia.
Qed.

Lemma record_group_place p region b o b' offset g : found_at w (sr_deviceAddress region) (sr_size region) b o ->
  record_group p region b' offset g -> b' = b.
Proof. intros Hf (o' & i & Hf' & _). by destruct (found_at_unique _ _ _ _ _ _ _ Hf Hf') as [-> _]. Qed.

Lemma record_group_iff p region b o offset g : found_at w (sr_deviceAddress region) (sr_size region) b o ->
  0 < raytracing_group_handle_size (sp_handles p) <= region_stride region -> 0 <= sr_size region ->
  (exists j, (0 <= j < 0 + Z.to_nat (sr_size region / region_stride region))%nat /\
     find_raytracing_group_index p w (place b + o + Z.of_nat j * region_stride region) = Some g /\ offset = o + Z.of_nat j * region_stride region) <->
  record_group p region b offset g.
Proof.
  intros Hf Hhs Hsz. pose proof (Z.mul_div_le (sr_size region) (region_stride region) ltac:(lia)) as Hd. split.
  - intros (j & Hj & Hg & ->). apply find_group_spec in Hg as [_ Hg]; [|lia]. exists o, (Z.of_nat j). do 2 (split; [done|]). split; [lia|]. split; [nia|].
    split; [done|]. by rewrite Z.add_assoc.
  - intros (o' & i & Hf' & Hs & Hi & Hin & -> & Hg). destruct (found_at_unique _ _ _ _ _ _ _ Hf Hf') as [_ ->]. exists (Z.to_nat i).
    rewrite Z2Nat.id by done. assert (i + 1 <= sr_size region / region_stride region) by (apply Z.div_le_lower_bound; lia). split; [lia|]. split; [|done].
    apply find_group_spec; [lia|]. split; [lia|]. by rewrite <- Z.add_assoc.
Qed.

(** a table in which no handle is looked for *)
Lemma region_without_groups p region (stages : gset Z) ds : 0 <= sr_size region -> (forall b offset g, ~ record_group p region b offset g) ->
  exists stages' new, Ok (stages, ds) = Ok (stages', ds ++ new) /\ Z.of_nat (length new) <= sr_size region /\
    marks_places (handle_place p region) new /\ forall k, k ∈ stages' <-> k ∈ stages \/ region_stage p region k.
Proof.
  intros Hs Hn. exists stages, []. rewrite app_nil_r. split; [done|]. split; [simpl; u_lia|]. split.
  - intros d. split; [by intros ?%not_elem_of_nil|]. intros (b & o & ? & ? & ? & (g & Hg & _) & _). by destruct (Hn b o g).
  - intros k. split; [by left|]. intros [?|(b & o & g & Hg & _)]; [done|]. by destruct (Hn b o g).
Qed.

Lemma collect_region_spec p region stages ds : u32 (raytracing_group_handle_size (sp_handles p)) -> region_ok region ->
  exists stages' new, collect_region p w region (stages, ds) = Ok (stages', ds ++ new) /\ Z.of_nat (length new) <= sr_size region /\
    marks_places (handle_place p region) new /\ forall k, k ∈ stages' <-> k ∈ stages \/ region_stage p region k.
Proof using Hw.
  intros Hh (Hra & Hrs & Hsz). unfold collect_stages_from_sbt_region.
  destruct (_ || _) eqn:E0.
  { apply region_without_groups; [apply Hsz|]. intros b o g (N1 & N2 & _)%record_group_region. apply orb_true_iff in E0 as [E0|E0]; bool_to_prop; lia. }
  destruct (_ || _) eqn:E1 in |- *.
  { apply region_without_groups; [apply Hsz|]. intros b o g (_ & _ & N3 & _ & N5)%record_group_region.
    apply orb_true_iff in E1 as [E1|E1]; [bool_to_prop; lia|]. by apply Nat.eqb_eq in E1. }
  fold (region_stride region). destruct (_ || _) eqn:E2 in |- *.
  { apply region_without_groups; [apply Hsz|]. intros b o g (_ & _ & N3 & N4 & _)%record_group_region. apply orb_true_iff in E2 as [E2|E2]; bool_to_prop; lia. }
  bool_to_prop. destruct (map_range_spec (sr_deviceAddress region) (sr_size region) Hra ltac:(u_lia)) as (r & -> & Hr). cbn [obind].
  destruct r as [m|].
  2:{ apply region_without_groups; [apply Hsz|]. intros b offset g (o & i & Hf & _).
      by assert (None = Some (MappedAddressRange (place b + o) (sr_size region) o b)) by (apply Hr; eauto). }
  destruct (proj1 (Hr m) eq_refl) as (b & o & Hf & ->). destruct (found_at_inside _ _ _ _ Hra Hf) as (buffer & Eb & Hreg & Ho & Hend).
  assert (Hhs : 0 < raytracing_group_handle_size (sp_handles p)) by u_lia.
  pose proof (Z.div_pos (sr_size region) (region_stride region) ltac:(u_lia) ltac:(lia)) as Hd0.
  pose proof (Z.div_le_upper_bound (sr_size region) (region_stride region) (sr_size region) ltac:(lia) ltac:(nia)) as Hd1.
  pose proof (Z.mul_div_le (sr_size region) (region_stride region) ltac:(lia)) as Hd2. rewrite wrap32_small by u_lia.
  destruct (collect_records_spec p b o (sr_size region) (region_stride region) (Z.to_nat (sr_size region / region_stride region)) Ho ltac:(lia) 0%nat stages ds)
    as (stages' & new & E & Hlen & Hnew & Hst); [rewrite Nat.add_0_l, Z2Nat.id by done; nia|].
  exists stages', new. rewrite E. split; [done|]. split; [lia|].
  assert (Hiff := fun offset g => record_group_iff p region b o offset g Hf ltac:(lia) (proj1 Hsz)). split.
  - intros d. rewrite Hnew. split.
    + intros (j & g & Hj & Hg & ->). eexists b, _, _, _, _. split; [|done]. exists g. split; [|done]. apply Hiff. by exists j.
    + intros (b' & offset & ? & ? & ? & (g & Hg & -> & -> & ->) & ->). pose proof (record_group_place _ _ _ _ _ _ _ Hf Hg) as ->.
      apply Hiff in Hg as (j & Hj & Hg & ->). by exists j, g.
  - intros k. rewrite Hst. split; (intros [?|Hx]; [by left|right]).
    + destruct Hx as (j & g & Hj & Hg & Hk). exists b, (o + Z.of_nat j * region_stride region), g. split; [|done]. apply Hiff. by exists j.
    + destruct Hx as (b' & offset & g & Hg & Hk). pose proof (record_group_place _ _ _ _ _ _ _ Hf Hg) as ->.
      apply Hiff in Hg as (j & Hj & Hg & ->). by exists j, g.
Qed.

Lemma marks_places_app (P Q R : nat -> Z -> Z -> Z -> Z -> Prop) ds ds' : marks_places P ds -> marks_places Q ds' ->
  (forall b offset size type sub, R b offset size type sub <-> P b offset size type sub \/ Q b offset size type sub) ->
  marks_places R (ds ++ ds').
Proof.
  intros HP HQ HR d. rewrite elem_of_app, (HP d), (HQ d). split.
  - intros [(b & o & s & t & u & Hp & ->)|(b & o & s & t & u & Hp & ->)]; exists b, o, s, t, u; (split; [apply HR; tauto|done]).
  - intros (b & o & s & t & u & [Hp|Hp]%HR & ->); [left|right]; by exists b, o, s, t, u.
Qed.

Definition tables_size (tables : list strided_region) : Z := foldr (fun r n => sr_size r + n) 0 tables.

Definition tables_place (p : simulated_pipeline T) (tables : list strided_region) (b : nat) (offset size type sub : Z) : Prop :=
  exists region, region ∈ tables /\ handle_place p region b offset size type sub.

Lemma collect_tables_spec p tables : u32 (raytracing_group_handle_size (sp_handles p)) -> Forall region_ok tables -> forall stages ds,
  exists stages' new, collect_tables find_buffer_memory address_map object_of buffer_of p w tables (stages, ds) = Ok (stages', ds ++ new) /\
    Z.of_nat (length new) <= tables_size tables /\ marks_places (tables_place p tables) new /\
    forall k, k ∈ stages' <-> k ∈ stages \/ exists region, region ∈ tables /\ region_stage p region k.
Proof using Hw.
  intros Hh. induction 1 as [|region tables Hr Hrs IH]; intros stages ds; cbn [collect_tables].
  { exists stages, []. rewrite app_nil_r. split; [done|]. split; [done|]. split.
    - intros d. split; [by intros ?%not_elem_of_nil|]. by intros (? & ? & ? & ? & ? & (? & ?%not_elem_of_nil & _) & _).
    - intros k. split; [by left|]. by intros [?|(? & ?%not_elem_of_nil & _)]. }
  destruct (collect_region_spec p region stages ds Hh Hr) as (stages1 & new1 & -> & Hl1 & Hm1 & Hs1). cbn [obind].
  destruct (IH stages1 (ds ++ new1)) as (stages2 & new2 & -> & Hl2 & Hm2 & Hs2). exists stages2, (new1 ++ new2).
  split; [by rewrite app_assoc|]. split; [rewrite length_app; cbn [tables_size foldr]; fold (tables_size tables); lia|]. split.
  - eapply marks_places_app; [exact Hm1|exact Hm2|]. intros b o s t u. unfold tables_place. split.
    + intros (r & [->|Hin]%elem_of_cons & Hp); [by left|right; by exists r].
    + intros [Hp|(r & Hin & Hp)]; [exists region|exists r]; (split; [by constructor|done]).
  - intros k. rewrite Hs2, Hs1. split.
    + intros [[?|Hp]|(r & Hin & Hp)]; [by left|right; exists region|right; exists r]; (split; [by constructor|done]).
    + intros [?|(r & [->|Hin]%elem_of_cons & Hp)]; [by left; left|by left; right|right; by exists r].
Qed.

Lemma handle_in_buffer p tables b offset size type sub : u32 (raytracing_group_handle_size (sp_handles p)) -> Forall region_ok tables ->
  tables_place p tables b offset size type sub -> in_buffer b offset size.
Proof using Hw.
  intros Hh Hr (region & Hin & g & (o & i & Hf & Hs & Hi & Hend & -> & Hg) & -> & _).
  rewrite Forall_forall in Hr. destruct (Hr region Hin) as (Ha & _ & _).
  destruct (found_at_inside _ _ _ _ Ha Hf) as (buffer & E & Hreg & Ho & Hlast). exists buffer. do 2 (split; [done|]). split; [nia|]. split; [u_lia|]. nia.
Qed.

(** ** Tables named in memory *)

(** the addresses in the command of an indirect trace that are not null *)
Definition address_place (address : Z) (b : nat) (offset size type sub : Z) : Prop :=
  exists o field, found_at w address (Z.of_nat sizeof_VkTraceRaysIndirectCommand2KHR) b o /\ field ∈ address_fields /\
    load_field w (place b + o) field 8 <> 0 /\ offset = o + field /\ size = 8 /\ type = VK_MARKING_TYPE_DEVICE_ADDRESS_ARM /\
    sub = VK_DEVICE_ADDRESS_TYPE_BUFFER_ARM.

Lemma address_fields_inside field : field ∈ address_fields -> 0 <= field /\ field + 8 <= Z.of_nat sizeof_VkTraceRaysIndirectCommand2KHR.
Proof. unfold address_fields. intros Hin. repeat (apply elem_of_cons in Hin as [->|Hin]; [by vm_compute|]). by apply not_elem_of_nil in Hin. Qed.

Lemma address_in_buffer address b offset size type sub : u64 address -> address_place address b offset size type sub -> in_buffer b offset size.
Proof using Hw.
  intros Ha (o & field & Hf & Hin & _ & -> & -> & _). destruct (found_at_inside _ _ _ _ Ha Hf) as (buffer & E & Hreg & Ho & Hlast).
  apply address_fields_inside in Hin. exists buffer. do 2 (split; [done|]). split; [lia|]. split; [u_lia|]. lia.
Qed.

Lemma address_fields_spec address b o sz : u64 address -> found_at w address (Z.of_nat sizeof_VkTraceRaysIndirectCommand2KHR) b o ->
  marks_places (address_place address) (flat_map (address_field w (MappedAddressRange (place b + o) sz o b)) address_fields).
Proof using Hw.
  intros Ha Hf d. destruct (found_at_inside _ _ _ _ Ha Hf) as (buffer & E & Hreg & Ho & Hlast).
  assert (Hone : forall field, field ∈ address_fields -> d ∈ address_field w (MappedAddressRange (place b + o) sz o b) field <->
    load_field w (place b + o) field 8 <> 0 /\ d = buffer_marking b (o + field) 8 VK_MARKING_TYPE_DEVICE_ADDRESS_ARM VK_DEVICE_ADDRESS_TYPE_BUFFER_ARM).
  { intros field Hin. apply address_fields_inside in Hin. unfold address_field. cbn [mr_ptr mr_buffer_data mr_buffer_offset].
    destruct (Z.eqb_spec (load_field w (place b + o) field 8) 0); [rewrite elem_of_nil; naive_solver|].
    rewrite list_elem_of_singleton, wrap64_small by u_lia. naive_solver. }
  rewrite list_elem_of_In, in_flat_map. split.
  - intros (field & Hin & Hd). apply list_elem_of_In in Hin, Hd. apply Hone in Hd as [Hz ->]; [|done]. do 5 eexists. split; [|done]. by exists o, field.
  - intros (b' & offset & ? & ? & ? & (o' & field & Hf' & Hin & Hz & -> & -> & -> & ->) & ->).
    destruct (found_at_unique _ _ _ _ _ _ _ Hf Hf') as [-> ->]. exists field. split; apply list_elem_of_In; [done|]. by apply Hone.
Qed.

Lemma address_fields_few m : (length (flat_map (address_field w m) address_fields) <= 4)%nat.
Proof.
  assert (Hone : forall m' field, (length (address_field w m' field) <= 1)%nat) by (intros m' field; unfold address_field; destruct (_ =? _); simpl; lia).
  unfold address_fields. cbn [flat_map]. rewrite !length_app.
  pose proof (Hone m raygenShaderRecordAddress). pose proof (Hone m missShaderBindingTableAddress).
  pose proof (Hone m hitShaderBindingTableAddress). pose proof (Hone m callableShaderBindingTableAddress). simpl length. lia.
Qed.

(** ** Recorded traces *)

Inductive trace_call :=
  | TraceDirect (raygen miss hit callable : option strided_region) (width height depth : Z)
  | TraceIndirect (raygen miss hit callable : option strided_region) (address : Z)
  | TraceIndirect2 (address : Z).

(** a call is followed by the callback that all of them have *)
Definition record_trace (current : change_source) (call : trace_call) (c : ray_cmdbuffer) : ray_cmdbuffer :=
  postprocess_raytracing_command current
    (match call with
     | TraceDirect raygen miss hit callable width height depth => postprocess_vkCmdTraceRaysKHR current raygen miss hit callable width height depth c
     | TraceIndirect raygen miss hit callable address => postprocess_vkCmdTraceRaysIndirectKHR current raygen miss hit callable address c
     | TraceIndirect2 address => postprocess_vkCmdTraceRaysIndirect2KHR current address c
     end).

(** the tables a trace uses: those of the call, or those in memory *)
Definition call_tables (call : trace_call) (tables : list strided_region) : Prop :=
  match call with
  | TraceDirect raygen miss hit callable _ _ _ | TraceIndirect raygen miss hit callable _ =>
      tables = map (default no_region) [raygen; miss; hit; callable]
  | TraceIndirect2 address =>
      (exists b o, found_at w address (Z.of_nat sizeof_VkTraceRaysIndirectCommand2KHR) b o /\ tables = stored_tables w (place b + o)) \/
      ((forall b o, ~ found_at w address (Z.of_nat sizeof_VkTraceRaysIndirectCommand2KHR) b o) /\ tables = replicate 4 no_region)
  end.

(** the places a trace makes known *)
Definition trace_place (p : simulated_pipeline T) (call : trace_call) (tables : list strided_region) (b : nat) (offset size type sub : Z) : Prop :=
  match call with TraceIndirect2 address => address_place address b offset size type sub | _ => False end \/
  tables_place p tables b offset size type sub.

Definition trace_address (call : trace_call) : Z :=
  match call with TraceDirect _ _ _ _ _ _ _ => 0 | TraceIndirect _ _ _ _ address | TraceIndirect2 address => address end.

Lemma record_trace_spec current call c : exists t, record_trace current call c =
    RayCmdbuffer (rc_commands c ++ [RayCommand current (VKCMDTRACERAYSKHR (Some t))]) false /\
  (u64 (trace_address call) ->
   exists tables ds, traced_tables find_buffer_memory address_map object_of buffer_of w t = Ok (tables, ds) /\ call_tables call tables /\
     (length ds <= 4)%nat /\
     marks_places (fun b offset size type sub => match call with TraceIndirect2 address => address_place address b offset size type sub | _ => False end) ds).
Proof using Hw.
  assert (Hnil : marks_places (fun _ _ _ _ _ => False) []).
  { intros d. split; [by intros ?%not_elem_of_nil|]. by intros (? & ? & ? & ? & ? & [] & _). }
  destruct call as [raygen miss hit callable width height depth|raygen miss hit callable address|address]; (eexists; split; [reflexivity|]);
    intros Ha; unfold traced_tables; cbn [tr_mode tr_raygen tr_miss tr_hit tr_callable tr_indirect_device_address trace_address] in *.
  - do 2 eexists. split; [done|]. split; [done|]. split; [simpl; lia|done].
  - destruct (map_range_spec address sizeof_VkTraceRaysIndirectCommandKHR Ha ltac:(by vm_compute)) as (r & -> & _).
    do 2 eexists. split; [done|]. split; [done|]. split; [simpl; lia|done].
  - destruct (map_range_spec address (Z.of_nat sizeof_VkTraceRaysIndirectCommand2KHR) Ha ltac:(by vm_compute)) as (r & -> & Hr). cbn [obind].
    destruct r as [m|].
    + destruct (proj1 (Hr m) eq_refl) as (b & o & Hf & ->). do 2 eexists. split; [done|]. split; [left; by exists b, o|].
      split; [apply address_fields_few|]. by apply address_fields_spec.
    + assert (Hn : forall b o, ~ found_at w address (Z.of_nat sizeof_VkTraceRaysIndirectCommand2KHR) b o).
      { intros b o Hf. by assert (None = Some (MappedAddressRange (place b + o) (Z.of_nat sizeof_VkTraceRaysIndirectCommand2KHR) o b)) by (apply Hr; eauto). }
      do 2 eexists. split; [done|]. split; [by right|]. split; [simpl; lia|]. intros d. split; [by intros ?%not_elem_of_nil|].
      intros (b & ? & ? & ? & ? & (o & field & Hf & _) & _). by destruct (Hn b o).
Qed.
End Places.
