(* ===== verification/RayDiscovery.v ===== *)
(** * What the post-processor finds for ray tracing (src/execute_commands.cpp)

    A build adds to the queue exactly the references of the instances it reads, a
    trace of rays exactly the group handles in its tables and, where the tables are
    named in memory, their addresses; each under the packet that wrote the bytes. *)

From Stdlib Require Import ZArith Lia Bool Sorted.
From Stdlib.Strings Require Import Byte.
From stdpp Require Import base numbers list gmap.
From S2P Require Import Prelude Patch Memory Heap Suballocator Packets Containers Markings Translate HostWrites AccelerationBuilds ShaderTables DescriptorSets AddressTouches Discovery Simulation ShaderStages RaySimulation RayPlaces.

#[local] Open Scope Z_scope.

(** a queue with one entry for a key, whose markings are canonical and at most [n] each *)
Definition ray_queue_ok `{MarkingHeader} (n : Z) (queue : list address_rewrite) : Prop :=
  Forall (entry_ok n) queue /\ 0 <= n /\ NoDup (map entry_key queue).

(** ** Theorems *)

Section Builds.
Context {T : Type} `{MemoryFlagTracker T} `{MarkingHeader}.
Context (find_buffer_memory : nat -> outcome suballoc_location).
Context (address_map : remapper) (object_of : nat -> mapped) (buffer_of : nat -> option nat) (walk : gset Z -> list Z).
Context (run_spirv : nat -> Z -> change_source -> sim_world T -> list address_rewrite -> outcome (sim_world T * list address_rewrite)).

(** C25: A build of acceleration structures, with its ranges given or in device memory,
    is recorded, and at the submit the references of exactly the instances it reads
    that are not null are queued as addresses of acceleration structures, each under
    the packet that wrote it and at its place in the buffer; nothing else changes. *)
Theorem built_instances_discovered (current : change_source) (call : build_call) (c : ray_cmdbuffer) (st : ray_state T) (n : Z) :
  let w := ry_world st in
  addresses_ok find_buffer_memory address_map object_of buffer_of w -> build_ok call ->
  ray_queue_ok n (ry_queue st) ->
  (forall uses, build_uses call = Ok uses ->
    n + instances_read find_buffer_memory address_map object_of buffer_of w uses <= UINT32_MAX) ->
  exists c' commands queue', record_build current call c = Ok c' /\ rc_commands c' = rc_commands c ++ commands /\
    execute_ray_commands find_buffer_memory address_map object_of buffer_of walk run_spirv commands st = Ok (with_world_queue st w queue') /\
    ray_queue_ok UINT32_MAX queue' /\
    forall k x, queued queue' k x <-> queued (ry_queue st) k x \/
      exists data primitive_offset count b offset,
        build_reads find_buffer_memory address_map object_of buffer_of w call data primitive_offset count /\ data <> 0 /\
        references_from find_buffer_memory address_map object_of buffer_of w (wrap64 (data + primitive_offset)) count b offset /\
        marked_under w b offset 8 VK_MARKING_TYPE_DEVICE_ADDRESS_ARM VK_DEVICE_ADDRESS_TYPE_ACCELERATION_STRUCTURE_ARM k x.
Proof.
  intros w Hw Hok (Hq & Hn & Hd) Hcount.
  destruct (build_uses_spec find_buffer_memory address_map object_of buffer_of w call Hok) as (uses & Eu & Huses & Href).
  destruct (collect_uses_spec find_buffer_memory address_map object_of buffer_of w Hw uses Huses []) as (new & Ec & Hlen & Hnew).
  specialize (Hcount uses Eu). rewrite app_nil_l in Ec.
  destruct (merge_places w _ new (ry_queue st) n (use_references_in_buffer find_buffer_memory address_map object_of buffer_of w Hw uses) Hnew Hq Hn Hd
    ltac:(lia)) as (queue' & Em & Q1 & Q2 & Q3).
  assert (Q : ray_queue_ok UINT32_MAX queue') by (by split; [|split]).
  assert (Hiff : forall k x, queued queue' k x <-> queued (ry_queue st) k x \/ exists data primitive_offset count b offset,
        build_reads find_buffer_memory address_map object_of buffer_of w call data primitive_offset count /\ data <> 0 /\
        references_from find_buffer_memory address_map object_of buffer_of w (wrap64 (data + primitive_offset)) count b offset /\
        marked_under w b offset 8 VK_MARKING_TYPE_DEVICE_ADDRESS_ARM VK_DEVICE_ADDRESS_TYPE_ACCELERATION_STRUCTURE_ARM k x).
  { intros k x. rewrite Q3. split; (intros [Hx|Hx]; [by left|right]).
    - destruct Hx as (b & o & ? & ? & ? & (Hr & -> & -> & ->) & Hm). apply Href in Hr as (data & po & pc & Hr & Hz & Hf). by exists data, po, pc, b, o.
    - destruct Hx as (data & po & pc & b & o & Hr & Hz & Hf & Hm). do 5 eexists. split; [|exact Hm]. split; [|done]. apply Href. by exists data, po, pc. }
  assert (Er : record_build current call c = Ok (push_uses c current uses)).
  { destruct call; cbn [build_uses record_build] in *;
      unfold postprocess_vkCmdBuildAccelerationStructuresKHR, postprocess_vkCmdBuildAccelerationStructuresIndirectKHR; by rewrite Eu. }
  rewrite Er. destruct uses as [|u uses]; cbn [push_uses].
  - injection Ec as <-. injection Em as <-. exists c, [], (ry_queue st). split; [done|]. split; [by rewrite app_nil_r|]. split; [by destruct st|]. by split.
  - eexists _, [_], queue'. split; [reflexivity|]. split; [reflexivity|]. split; [|done].
    cbn [execute_ray_commands execute_ray_command rc_data]. unfold execute_build. fold w. rewrite Ec. cbn [obind]. by rewrite Em.
Qed.

(** C24: A trace of rays is recorded once, and at the submit exactly the group handles
    of whole records in its tables are queued, each with the kind of its group, and,
    where the tables are named by an indirect command in memory, the addresses in it
    that are not null; each under the packet that wrote it. Then the shaders of the
    groups that were found are run, or all of the pipeline if there are none. *)
Theorem traced_tables_discovered (current : change_source) (call : trace_call) (c : ray_cmdbuffer) (st : ray_state T) (i : nat)
    (p : simulated_pipeline T) (n : Z) :
  let w := ry_world st in
  addresses_ok find_buffer_memory address_map object_of buffer_of w -> u64 (trace_address call) ->
  raytracing_pipeline_bound st = Z.of_nat i -> Z.of_nat i <> CONTAINER_INVALID_INDEX -> ry_pipelines st !! i = Some p ->
  shader_stages p <> [] -> u32 (raytracing_group_handle_size (sp_handles p)) ->
  ray_queue_ok n (ry_queue st) ->
  (forall tables, call_tables find_buffer_memory address_map object_of buffer_of w call tables ->
    Forall region_ok tables /\ n + 4 + tables_size tables <= UINT32_MAX) ->
  exists tables command stages queue',
    rc_commands (record_trace current call c) = rc_commands c ++ [command] /\
    call_tables find_buffer_memory address_map object_of buffer_of w call tables /\
    execute_ray_commands find_buffer_memory address_map object_of buffer_of walk run_spirv [command] st =
      run_stages run_spirv i current (if bool_decide (stages = ∅) then all_stages p else walk stages)
        (RayState w queue' (ry_pipelines st) (Z.of_nat i) (execution_commands st + 1)) /\
    (forall k, k ∈ stages <-> exists region, region ∈ tables /\
       region_stage find_buffer_memory address_map object_of buffer_of w p region k) /\
    ray_queue_ok UINT32_MAX queue' /\
    forall k x, queued queue' k x <-> queued (ry_queue st) k x \/ exists b offset size type sub,
      trace_place find_buffer_memory address_map object_of buffer_of w p call tables b offset size type sub /\
      marked_under w b offset size type sub k x.
Proof.
  intros w Hw Ha Hbound Hvalid Hp Hstages Hh (Hq & Hn & Hd) Hbounds.
  destruct (record_trace_spec find_buffer_memory address_map object_of buffer_of w Hw current call c) as (t & Et & Ht).
  destruct (Ht Ha) as (tables & ds & Etab & Hcall & Hfew & Hds). destruct (Hbounds tables Hcall) as [Hregions Hsize].
  destruct (collect_tables_spec find_buffer_memory address_map object_of buffer_of w Hw p tables Hh Hregions ∅ ds)
    as (stages & new & Ec & Hlen & Hnew & Hst).
  destruct (merge_places w (trace_place find_buffer_memory address_map object_of buffer_of w p call tables) (ds ++ new) (ry_queue st) n)
    as (queue' & Em & Q1 & Q2 & Q3); try done.
  { intros b o s ty sub [Hpl|Hpl]; [|by eapply (handle_in_buffer find_buffer_memory address_map object_of buffer_of w Hw)].
    destruct call; [done|done|]. by eapply (address_in_buffer find_buffer_memory address_map object_of buffer_of w Hw). }
  { by eapply marks_places_app. }
  { rewrite length_app. lia. }
  assert (Q : ray_queue_ok UINT32_MAX queue') by (by split; [|split]).
  exists tables, (RayCommand current (VKCMDTRACERAYSKHR (Some t))), stages, queue'. rewrite Et. split; [done|]. split; [done|].
  split; [|split; [intros k; rewrite Hst; set_solver|done]].
  cbn [execute_ray_commands execute_ray_command rc_data rc_source]. unfold execute_trace_rays.
  cbn [ry_world ry_queue ry_pipelines raytracing_pipeline_bound execution_commands]. rewrite Hbound, (proj2 (Z.eqb_neq _ _) Hvalid), Nat2Z.id, Hp.
  destruct (Nat.eqb_spec (length (shader_stages p)) 0) as [El|_]; [by apply nil_length_inv in El|]. fold w. rewrite Etab. cbn [obind]. rewrite Ec. cbn [obind].
  rewrite Em. cbn [obind]. destruct (run_stages _ _ _ _ _); done.
Qed.
End Builds.

(** ** A concrete run *)

#[local] Existing Instance demo_header.

(** a buffer of 376 bytes at 4096 with the address 5000, written by packet 7: two
    instances, one with a reference, a table of two records, one with a handle, a range
    of two instances and an indirect command *)
Definition handle_bytes (g : nat) : list byte := replicate 32 (if Nat.eqb g 0 then x0a else x0b).

Definition ray_bytes : list byte :=
  replicate 56 x01 ++ le_encode 8 7000 ++ replicate 56 x02 ++ le_encode 8 0 ++
  handle_bytes 1 ++ replicate 96 x03 ++
  le_encode 4 2 ++ le_encode 4 0 ++ le_encode 8 0 ++
  le_encode 8 5128 ++ le_encode 8 64 ++ le_encode 8 5192 ++ le_encode 8 64 ++ le_encode 8 64 ++ replicate 64 x00.

Definition ray_written : change_source := ChangeSource 7 0 0 2 5.

Definition ray_regions : host_write_regions tracker_log :=
  match register_source 0 376 ray_written 1 0 CONTAINER_NULL_VALUE UINT64_MAX new_regions with Ok r => r | Fail _ => new_regions end.

Definition ray_world : sim_world tracker_log :=
  SimWorld [TrackedBuffer 3 9 376 5000 0 ray_regions] new_regions new_regions (fun a => nth (Z.to_nat (a - 4096)) ray_bytes x00).

Definition ray_find (b : nat) : outcome suballoc_location :=
  match b with O => Ok (SuballocLocation 4096 0 376 false false 4096) | _ => Fail OutOfRange end.

Definition ray_map : remapper := [(5000, [0%nat])].
Definition ray_object (_ : nat) : mapped := Mapped 376 5000 state_bound false.
Definition ray_buffer (obj : nat) : option nat := match obj with O => Some 0%nat | _ => None end.

(** two groups: one of a closest hit shader, one of an any hit shader *)
Definition ray_pipeline : simulated_pipeline tracker_log :=
  SimulatedPipeline 0 0 VK_PIPELINE_BIND_POINT_RAY_TRACING_KHR [new_stage; new_stage; new_stage]
    [RaytracingGroup VK_RAY_TRACING_SHADER_GROUP_TYPE_GENERAL_KHR 0 VK_SHADER_UNUSED_KHR VK_SHADER_UNUSED_KHR VK_SHADER_UNUSED_KHR;
     RaytracingGroup VK_RAY_TRACING_SHADER_GROUP_TYPE_TRIANGLES_HIT_GROUP_KHR VK_SHADER_UNUSED_KHR VK_SHADER_UNUSED_KHR 2 VK_SHADER_UNUSED_KHR]
    (PipelineHandles 2 32 (handle_bytes 0 ++ handle_bytes 1) 0 [] false).

Definition in_order (stages : gset Z) : list Z := base.elements stages.

Definition ray_start : ray_state tracker_log := RayState ray_world [] [ray_pipeline] 0 0.

Definition ray_cmds : ray_cmdbuffer := RayCmdbuffer [] false.

(** a shader that changes nothing *)
Definition idle_spirv (_ : nat) (_ : Z) (_ : change_source) (w : sim_world tracker_log) (queue : list address_rewrite)
    : outcome (sim_world tracker_log * list address_rewrite) := Ok (w, queue).

Definition ray_build : build_call := IndirectBuilds [IndirectBuild [Some (Instances false 5000)] (Some 5256) (Some 16) None].

Definition run_recorded (c : ray_cmdbuffer) (st : ray_state tracker_log) : outcome (ray_state tracker_log) :=
  execute_ray_commands ray_find ray_map ray_object ray_buffer in_order idle_spirv (rc_commands c) st.

Definition show_queue (m : outcome (ray_state tracker_log)) : list (Z * Z * list marking) :=
  match m with Ok st => map (fun e => (cs_packet (ar_source e), ar_object_index e, entry_marks e)) (ry_queue st) | Fail _ => [] end.

Example instance_reference_found :
  show_queue (let* c := record_build ray_written ray_build ray_cmds in run_recorded c ray_start) = [(7, 3, [Marking 56 1 1])].
Proof. vm_compute. done. Qed.

Example table_found :
  show_queue (run_recorded (record_trace ray_written (TraceIndirect2 5272) ray_cmds) ray_start) =
    [(7, 3, [Marking 128 5 VK_SHADER_GROUP_SHADER_ANY_HIT_KHR; Marking 272 1 0; Marking 288 1 0])] /\
  match run_recorded (record_trace ray_written (TraceIndirect2 5272) ray_cmds) ray_start with
  | Ok st => map (fun p => map ss_calls (shader_stages p)) (ry_pipelines st) | Fail _ => [] end = [[0; 0; 1]].
Proof. split; vm_compute; done. Qed.

(** A last record without the padding of the stride is not looked at: here the handle
    at offset 128, of a table with records of 64 bytes from offset 64 on. *)
Example unpadded_record_missed :
  match collect_stages_from_sbt_region ray_find ray_map ray_object ray_buffer ray_pipeline ray_world (StridedRegion 5064 64 96) (∅, []),
        collect_stages_from_sbt_region ray_find ray_map ray_object ray_buffer ray_pipeline ray_world (StridedRegion 5064 64 128) (∅, []) with
  | Ok (_, short), Ok (_, padded) => (map d_offset short, map d_offset padded)
  | _, _ => ([0], [0])
  end = ([], [128]).
Proof. vm_compute. done. Qed.

Lemma ray_addresses_ok : addresses_ok ray_find ray_map ray_object ray_buffer ray_world.
Proof.
  destruct (register_source_spec (T := tracker_log) new_regions 0 376 ray_written 1 0 CONTAINER_NULL_VALUE UINT64_MAX new_regions_ok) as (r & E & Hr & _).
  { by constructor; vm_compute. }
  constructor.
  - intros p. by vm_compute.
  - repeat constructor.
  - intros a p (es & [= -> ->]%list_elem_of_singleton & _). lia.
  - intros [|obj] b [= <-]. eexists _, _. split; [reflexivity|]. split; [reflexivity|]. cbn [loc_mapped tb_device_address tb_size tb_source ray_object mp_device_address mp_size].
    do 6 (split; [lia|]). unfold ray_regions. by rewrite E.
Qed.

Lemma built_instances_discovered_witness :
  exists c' commands queue', record_build ray_written ray_build ray_cmds = Ok c' /\ rc_commands c' = rc_commands ray_cmds ++ commands /\
    execute_ray_commands ray_find ray_map ray_object ray_buffer in_order idle_spirv commands ray_start = Ok (with_world_queue ray_start ray_world queue').
Proof.
  destruct (built_instances_discovered ray_find ray_map ray_object ray_buffer in_order idle_spirv ray_written ray_build ray_cmds ray_start 0)
    as (c' & commands & queue' & H1 & H2 & H3 & _); [apply ray_addresses_ok| |split; [constructor|split; [lia|constructor]]| |].
  - intros info a s g array data ->%list_elem_of_singleton [= <-] _ [= <-] Hg. destruct g as [|[|g]]; try done. injection Hg as <- <-.
    split; [done|]. u_lia.
  - intros uses [= <-]. by vm_compute.
  - by exists c', commands, queue'.
Defined.

Lemma ray_tables_ok tables : call_tables ray_find ray_map ray_object ray_buffer ray_world (TraceIndirect2 5272) tables ->
  Forall region_ok tables /\ 0 + 4 + tables_size tables <= UINT32_MAX.
Proof.
  assert (Hf : found_at ray_map ray_object ray_buffer ray_world 5272 (Z.of_nat sizeof_VkTraceRaysIndirectCommand2KHR) 0 272).
  { split; [done|]. split; [done|]. exists 0%nat, 5000. eexists. repeat (split; [reflexivity || done|]). by vm_compute. }
  intros [(b & o & Hf' & ->)|[Hn _]]; [|by destruct (Hn _ _ Hf)].
  destruct (found_at_unique _ _ _ _ _ _ _ _ _ _ Hf Hf') as [-> ->]. split; [|by vm_compute].
  repeat constructor; by vm_compute.
Qed.

Lemma traced_tables_discovered_witness : exists (tables : list strided_region) command stages queue',
  rc_commands (record_trace ray_written (TraceIndirect2 5272) ray_cmds) = [command] /\
  execute_ray_commands ray_find ray_map ray_object ray_buffer in_order idle_spirv [command] ray_start =
    run_stages idle_spirv 0 ray_written (if bool_decide (stages = ∅) then all_stages ray_pipeline else in_order stages)
      (RayState ray_world queue' [ray_pipeline] 0 1) /\
  forall k, k ∈ stages <-> exists region, region ∈ tables /\ region_stage ray_find ray_map ray_object ray_buffer ray_world ray_pipeline region k.
Proof.
  destruct (traced_tables_discovered ray_find ray_map ray_object ray_buffer in_order idle_spirv ray_written (TraceIndirect2 5272) ray_cmds ray_start 0
    ray_pipeline 0 ray_addresses_ok) as (tables & command & stages & queue' & H1 & _ & H3 & H4 & _); try done; [split; [constructor|split; [lia|constructor]]|exact ray_tables_ok|].
  by exists tables, command, stages, queue'.
Defined.
