(* ===== verification/DescriptorBuffers.v ===== *)
(** * Descriptor buffers in the post-processor (src/execute_commands.cpp, src/tool.cpp)

    A descriptor buffer holds the bytes that [vkGetDescriptorEXT] returned. The
    post-processor keeps what was returned with the buffer it stands for; when a
    command sets the offsets of the sets it looks for these bytes at the places of the
    bindings, gives the simulator the buffers that the descriptors stand for, and has
    the places marked. *)

From Stdlib Require Import ZArith Lia Bool.
From Stdlib.Strings Require Import Byte.
From stdpp Require Import base numbers list gmap sorting.
From S2P Require Import Prelude Patch Memory Heap Suballocator Packets Containers Markings Translate Updates HostMemory HostWrites Output Descriptors Discovery Simulation ShaderStages RaySimulation.

#[local] Open Scope Z_scope.

Definition VK_DESCRIPTOR_TYPE_UNIFORM_TEXEL_BUFFER : Z := 4.
Definition VK_DESCRIPTOR_TYPE_STORAGE_TEXEL_BUFFER : Z := 5.
Definition VK_DESCRIPTOR_TYPE_UNIFORM_BUFFER : Z := 6.
Definition VK_DESCRIPTOR_TYPE_STORAGE_BUFFER : Z := 7.
Definition VK_DESCRIPTOR_TYPE_MUTABLE_EXT : Z := 1000351000.
Definition VK_DESCRIPTOR_TYPE_MAX_ENUM : Z := 2 ^ 31 - 1.

(** ** Descriptors that were returned *)

(** [VkDescriptorAddressInfoEXT] *)
Record address_info := AddressInfo { ai_address : Z; ai_range : Z; ai_format : Z }.

#[export] Instance address_info_eq_dec : EqDecision address_info.
Proof. solve_decision. Defined.

(** the address info is nothing where [has_buffer_address_info] is false *)
Record descriptor_rewrite := DescriptorRewrite {
  dr_type : Z;
  dr_capture_bytes : list byte;
  dr_source : change_source;
  dr_info : option address_info
}.

(** [pDescriptorInfo] is the type with the address info of its union, if there is one *)
Definition note_descriptor_payload (current : change_source) (pDescriptorInfo : option (Z * option address_info)) (dataSize : nat)
    (pDescriptor : option (list byte)) (pending : list descriptor_rewrite) : list descriptor_rewrite :=
  match pDescriptorInfo, pDescriptor with
  | Some (type, info), Some memory =>
      if Nat.eqb dataSize 0 then pending
      else
        let info :=
          if (type =? VK_DESCRIPTOR_TYPE_UNIFORM_TEXEL_BUFFER) || (type =? VK_DESCRIPTOR_TYPE_STORAGE_TEXEL_BUFFER) ||
             (type =? VK_DESCRIPTOR_TYPE_UNIFORM_BUFFER) || (type =? VK_DESCRIPTOR_TYPE_STORAGE_BUFFER) then info else None in
        pending ++ [DescriptorRewrite type (take dataSize memory) current info]
  | _, _ => pending
  end.

(** ** What the simulator is given *)

Record buffer_access := BufferAccess { ba_buffer : option nat; ba_offset : Z; ba_size : Z }.

Definition no_access : buffer_access := BufferAccess None 0 0.

Record image_access := ImageAccess { ia_image : option nat; ia_layout : Z }.

Record simulator_binding := SimulatorBinding {
  sb_type : Z;
  sb_descriptor_buffer_backed : bool;
  sb_buffers : list buffer_access;
  sb_images : list image_access;
  sb_opaques : list Z
}.

(** a bound descriptor buffer *)
Record descriptor_buffer_binding_state := BindingState {
  bs_buffer_data : option nat;
  bs_offset : Z;
  bs_size : Z;
  bs_usage : Z
}.

(** sets by bind point, set and binding *)
Definition descriptor_sets : Type := gmap Z (gmap Z (gmap Z simulator_binding)).

Definition set_binding (sets : descriptor_sets) (bind_point set binding : Z) (b : simulator_binding) : descriptor_sets :=
  let of_point := default ∅ (sets !! bind_point) in
  let of_set := default ∅ (of_point !! set) in
  <[bind_point := <[set := <[binding := b]> of_set]> of_point]> sets.

Definition get_binding (sets : descriptor_sets) (bind_point set binding : Z) : option simulator_binding :=
  of_point ← sets !! bind_point; of_set ← of_point !! set; of_set !! binding.

Section Resolve.
Context {T : Type} `{MemoryFlagTracker T} `{MarkingHeader}.
Context (find_buffer_memory : nat -> outcome suballoc_location).
Context (address_map : remapper) (object_of : nat -> mapped) (buffer_of : nat -> option nat).

Abbreviation map_range := (map_device_address_range find_buffer_memory address_map object_of buffer_of).

(** the bytes of a descriptor lie at a place with [available] bytes behind it *)
Definition bytes_there (w : sim_world T) (payload : descriptor_rewrite) (descriptor_ptr available : Z) : bool :=
  (Z.of_nat (length (dr_capture_bytes payload)) <=? available) &&
  bool_decide (load w descriptor_ptr (length (dr_capture_bytes payload)) = dr_capture_bytes payload).

Definition descriptor_rewrite_matches_slot (w : sim_world T) (payload : descriptor_rewrite) (layout_type descriptor_ptr available : Z) : bool :=
  negb (bool_decide (dr_info payload = None)) && negb (Nat.eqb (length (dr_capture_bytes payload)) 0) &&
  ((layout_type =? VK_DESCRIPTOR_TYPE_MUTABLE_EXT) || (dr_type payload =? layout_type)) && bytes_there w payload descriptor_ptr available.

Definition same_descriptor_resource (a b : descriptor_rewrite) : bool := bool_decide (dr_info a = dr_info b).

(** the last of the descriptors that match, which have to stand for one resource *)
Fixpoint find_matching (w : sim_world T) (layout_type descriptor_ptr available : Z) (pending : list descriptor_rewrite)
    (found : option descriptor_rewrite) : outcome (option descriptor_rewrite) :=
  match pending with
  | [] => Ok found
  | payload :: pending =>
      if negb (descriptor_rewrite_matches_slot w payload layout_type descriptor_ptr available)
      then find_matching w layout_type descriptor_ptr available pending found
      else
        let* _ := require (match found with Some f => same_descriptor_resource f payload | None => true end) AbortCall in
        find_matching w layout_type descriptor_ptr available pending (Some payload)
  end.

Definition find_descriptor_buffer_resource (w : sim_world T) (pending : list descriptor_rewrite) (b : nat) (descriptor_offset layout_type : Z)
    : outcome (option descriptor_rewrite) :=
  let* buffer := buffer_at w b in
  if descriptor_offset >=? tb_size buffer then Ok None
  else
    let* loc := find_buffer_memory b in
    if loc_mapped loc =? 0 then Ok None
    else find_matching w layout_type (loc_mapped loc + descriptor_offset) (tb_size buffer - descriptor_offset) pending None.

(** the access and the type of one descriptor *)
Definition resolve_descriptor_buffer_resource (w : sim_world T) (pending : list descriptor_rewrite) (b : nat) (descriptor_offset layout_type : Z)
    : outcome (option (buffer_access * Z)) :=
  let* found := find_descriptor_buffer_resource w pending b descriptor_offset layout_type in
  match found with
  | None => Ok None
  | Some payload =>
      match dr_info payload with
      | None => Fail NullPointer
      | Some info =>
          if ai_address info =? 0 then Ok (Some (no_access, dr_type payload))
          else
            let* mapping := map_range w (ai_address info) (if ai_range info =? VK_WHOLE_SIZE then 1 else ai_range info) in
            match mapping with
            | None => Fail AbortCall
            | Some m =>
                let* buffer := buffer_at w (mr_buffer_data m) in
                let range := if ai_range info =? VK_WHOLE_SIZE then wrap64 (tb_size buffer - mr_buffer_offset m) else ai_range info in
                Ok (Some (BufferAccess (Some (mr_buffer_data m)) (mr_buffer_offset m) range, dr_type payload))
            end
      end
  end.

(** ** The stride of mutable descriptors *)

(** all elements from [i] on have a descriptor *)
Fixpoint elements_match (w : sim_world T) (pending : list descriptor_rewrite) (b : nat) (descriptor_offset layout_type stride : Z) (i n : nat)
    : outcome bool :=
  match n with
  | O => Ok true
  | S n =>
      let* found := find_descriptor_buffer_resource w pending b (wrap64 (descriptor_offset + stride * Z.of_nat i)) layout_type in
      match found with
      | None => Ok false
      | Some _ => elements_match w pending b descriptor_offset layout_type stride (S i) n
      end
  end.

Fixpoint drop_equal (l : list Z) : list Z :=
  match l with
  | x :: ((y :: _) as rest) => if x =? y then drop_equal rest else x :: drop_equal rest
  | _ => l
  end.

Definition possible_strides (pending : list descriptor_rewrite) (stride binding_span descriptor_count : Z) : list Z :=
  let known := map (fun p => Z.of_nat (length (dr_capture_bytes p)))
                 (filter (fun p => dr_info p <> None /\ dr_capture_bytes p <> []) pending) in
  let even := if binding_span mod descriptor_count =? 0 then [binding_span / descriptor_count] else [] in
  drop_equal (merge_sort Z.le (stride :: known ++ even)).

(** the one stride under which every element has a descriptor *)
Fixpoint pick_stride (fits_all : Z -> outcome bool) (stride max_stride : Z) (strides : list Z) (candidate_stride : Z) : outcome (option Z) :=
  match strides with
  | [] => Ok (if candidate_stride =? 0 then None else Some candidate_stride)
  | possible :: strides =>
      if (possible <? stride) || (possible >? max_stride) then pick_stride fits_all stride max_stride strides candidate_stride
      else
        let* matches := fits_all possible in
        if negb matches then pick_stride fits_all stride max_stride strides candidate_stride
        else if negb (candidate_stride =? 0) then Ok None
        else pick_stride fits_all stride max_stride strides possible
  end.

(** one element of a resolved binding: its access, its place and its type *)
Definition resolved_element : Type := (buffer_access * Z * Z)%type.

(** the elements from [i] on; nothing when one of them is not resolved *)
Fixpoint resolve_elements (w : sim_world T) (pending : list descriptor_rewrite) (b : nat) (descriptor_offset binding_end layout_type stride : Z)
    (i n : nat) : outcome (option (list resolved_element)) :=
  match n with
  | O => Ok (Some [])
  | S n =>
      if negb (Nat.eqb i 0) && (stride >? (binding_end - descriptor_offset) / Z.of_nat i) then Ok None
      else
        let element_offset := wrap64 (descriptor_offset + stride * Z.of_nat i) in
        if element_offset >=? binding_end then Ok None
        else
          let* resolved := resolve_descriptor_buffer_resource w pending b element_offset layout_type in
          match resolved with
          | None => Ok None
          | Some (access, type) =>
              let* rest := resolve_elements w pending b descriptor_offset binding_end layout_type stride (S i) n in
              Ok (option_map (cons (access, element_offset, type)) rest)
          end
  end.

Definition element_stride (w : sim_world T) (pending : list descriptor_rewrite) (b : nat) (descriptor_offset binding_end layout_type : Z)
    (descriptor_count stride : Z) : outcome (option Z) :=
  if (descriptor_count >? 1) && (layout_type =? VK_DESCRIPTOR_TYPE_MUTABLE_EXT) then
    let max_stride := (binding_end - descriptor_offset - 1) / (descriptor_count - 1) in
    pick_stride (fun s => elements_match w pending b descriptor_offset layout_type s 1 (Z.to_nat descriptor_count - 1)) stride max_stride
      (possible_strides pending stride (binding_end - descriptor_offset) descriptor_count) 0
  else Ok (Some stride).

Definition resolve_descriptor_buffer_binding (w : sim_world T) (pending : list descriptor_rewrite) (b : nat) (descriptor_offset binding_end : Z)
    (layout_type descriptor_count : Z) : outcome (option (list resolved_element)) :=
  if (descriptor_count =? 0) || (descriptor_offset >=? binding_end) then Ok None
  else
    let* first := find_descriptor_buffer_resource w pending b descriptor_offset layout_type in
    match first with
    | None => Ok None
    | Some first =>
        let* stride := element_stride w pending b descriptor_offset binding_end layout_type descriptor_count
                         (Z.of_nat (length (dr_capture_bytes first))) in
        match stride with
        | None => Ok None
        | Some stride => resolve_elements w pending b descriptor_offset binding_end layout_type stride 0 (Z.to_nat descriptor_count)
        end
    end.

(** the binding of the simulator for them *)
Definition resolved_binding (l : list resolved_element) : simulator_binding :=
  SimulatorBinding (default VK_DESCRIPTOR_TYPE_MAX_ENUM (head (filter (fun type => type <> VK_DESCRIPTOR_TYPE_MAX_ENUM) (map snd l)))) false (map (fun e => fst (fst e)) l) [] [].

(** ** What is seen for the output pass *)

Definition payload_eqb (a b : descriptor_buffer_payload) : bool :=
  (bp_buffer_index a =? bp_buffer_index b) && (bp_offset a =? bp_offset b) && (bp_type a =? bp_type b) &&
  bool_decide (bp_bytes a = bp_bytes b).

(** the first descriptor of the type whose bytes are there is noted, once *)
Fixpoint note_first (w : sim_world T) (mapped size index offset type : Z) (pending : list descriptor_rewrite)
    (payloads : list descriptor_buffer_payload) : list descriptor_buffer_payload :=
  match pending with
  | [] => payloads
  | payload :: pending =>
      let bytes := dr_capture_bytes payload in
      if (negb (type =? VK_DESCRIPTOR_TYPE_MUTABLE_EXT) && negb (dr_type payload =? type)) || Nat.eqb (length bytes) 0
      then note_first w mapped size index offset type pending payloads
      else if (offset >? size) || (Z.of_nat (length bytes) >? size - offset) then note_first w mapped size index offset type pending payloads
      else if negb (bool_decide (load w (mapped + offset) (length bytes) = bytes)) then note_first w mapped size index offset type pending payloads
      else
        let entry := BufferPayload index offset (dr_type payload) bytes in
        if existsb (payload_eqb entry) payloads then payloads else payloads ++ [entry]
  end.

Definition record_descriptor_buffer_payload (w : sim_world T) (pending : list descriptor_rewrite) (b : nat) (offset type : Z)
    (payloads : list descriptor_buffer_payload) : outcome (list descriptor_buffer_payload) :=
  let* buffer := buffer_at w b in
  let* loc := find_buffer_memory b in
  if loc_mapped loc =? 0 then Ok payloads
  else Ok (note_first w (loc_mapped loc) (tb_size buffer) (tb_index buffer) offset type pending payloads).

(** ** Commands *)

Record buffers_state := BuffersState {
  bf_sets : descriptor_sets;
  bf_bound : list descriptor_buffer_binding_state;
  bf_queue : list address_rewrite;
  bf_payloads : list descriptor_buffer_payload
}.

(** [VKCMDBINDDESCRIPTORBUFFERSEXT]; the infos are pairs of an address and a usage *)
Fixpoint bind_buffers (w : sim_world T) (infos : list (Z * Z)) : outcome (list descriptor_buffer_binding_state) :=
  match infos with
  | [] => Ok []
  | (address, usage) :: infos =>
      let* mapping := map_range w address 1 in
      let* binding_state :=
        match mapping with
        | None => Ok (BindingState None 0 0 0)
        | Some m =>
            let* buffer := buffer_at w (mr_buffer_data m) in
            Ok (BindingState (Some (mr_buffer_data m)) (mr_buffer_offset m) (wrap64 (tb_size buffer - mr_buffer_offset m)) usage)
        end in
      let* rest := bind_buffers w infos in
      Ok (binding_state :: rest)
  end.

Definition execute_bind_buffers (w : sim_world T) (infos : list (Z * Z)) (st : buffers_state) : outcome buffers_state :=
  let* binding_state := bind_buffers w infos in Ok (BuffersState (bf_sets st) binding_state (bf_queue st) (bf_payloads st)).

(** where the descriptors of a binding end: at the next binding, the end of the set or
    that of the buffer *)
Definition binding_end_of (layout : descriptor_set_layout) (set_base binding_offset size : Z) : Z :=
  let next := fold_left (fun e o => if snd o <=? binding_offset then e else Z.min e (wrap64 (set_base + snd o))) (dl_offsets layout) size in
  if dl_size layout >? binding_offset then Z.min next (wrap64 (set_base + dl_size layout)) else next.

Definition descriptor_marking (b : nat) (offset type : Z) : discovered_buffer_marking :=
  buffer_marking b offset 1 VK_MARKING_TYPE_DESCRIPTOR_ARM type.

(** the places of a binding are noted, one after the other *)
Fixpoint note_places (w : sim_world T) (pending : list descriptor_rewrite) (b : nat) (places : list (Z * Z))
    (payloads : list descriptor_buffer_payload) : outcome (list descriptor_buffer_payload) :=
  match places with
  | [] => Ok payloads
  | (offset, type) :: places =>
      let* payloads := record_descriptor_buffer_payload w pending b offset type payloads in
      note_places w pending b places payloads
  end.

(** one binding of a set *)
Definition execute_binding (w : sim_world T) (pending : list descriptor_rewrite) (bind_point set : Z) (layout : descriptor_set_layout)
    (b : nat) (set_base : Z) (binding layout_type : Z) (st : buffers_state) : outcome buffers_state :=
  let* buffer := buffer_at w b in
  let binding_offset := default 0 (map_find binding (dl_offsets layout)) in
  let descriptor_offset := wrap64 (set_base + binding_offset) in
  if descriptor_offset >=? tb_size buffer then Ok st
  else
    let descriptor_count := default 1 (map_find binding (dl_binding_counts layout)) in
    let binding_end := binding_end_of layout set_base binding_offset (tb_size buffer) in
    let* resolved := resolve_descriptor_buffer_binding w pending b descriptor_offset binding_end layout_type descriptor_count in
    let '(dst, places) :=
      match resolved with
      | Some l => (resolved_binding l, map (fun e => (snd (fst e), snd e)) l)
      | None => (SimulatorBinding layout_type true [BufferAccess (Some b) descriptor_offset (tb_size buffer - descriptor_offset)] [] [],
                 [(descriptor_offset, layout_type)])
      end in
    let* payloads := note_places w pending b places (bf_payloads st) in
    let* queue := merge_discovered_markings w (map (fun p => descriptor_marking b (fst p) (snd p)) places) (bf_queue st) in
    Ok (BuffersState (set_binding (bf_sets st) bind_point set binding dst) (bf_bound st) queue payloads).

Fixpoint execute_bindings (w : sim_world T) (pending : list descriptor_rewrite) (bind_point set : Z) (layout : descriptor_set_layout)
    (b : nat) (set_base : Z) (binding_types : list (Z * Z)) (st : buffers_state) : outcome buffers_state :=
  match binding_types with
  | [] => Ok st
  | (binding, layout_type) :: rest =>
      let* st := execute_binding w pending bind_point set layout b set_base binding layout_type st in
      execute_bindings w pending bind_point set layout b set_base rest st
  end.

(** set [i] of the command *)
Definition execute_set_offset (w : sim_world T) (pending : list descriptor_rewrite) (set_layouts : list descriptor_set_layout) (bind_point : Z)
    (layout_data : pipeline_layout) (firstSet : Z) (i : nat) (pBufferIndices pOffsets : option (list Z)) (st : buffers_state)
    : outcome buffers_state :=
  let set := wrap32 (firstSet + Z.of_nat i) in
  if set >=? descriptor_set_layout_count layout_data then Ok st
  else
    let* binding_index := element_or_zero pBufferIndices i in
    match bf_bound st !! Z.to_nat binding_index with
    | None => Ok st
    | Some binding_state =>
        match bs_buffer_data binding_state with
        | None => Ok st
        | Some b =>
            let* set_offset := element_or_zero pOffsets i in
            let set_layout_index := find_set_layout_index layout_data set in
            if set_layout_index =? CONTAINER_INVALID_INDEX then Ok st
            else match set_layouts !! Z.to_nat set_layout_index with
            | None => Fail OutOfRange
            | Some layout =>
                execute_bindings w pending bind_point set layout b (wrap64 (bs_offset binding_state + set_offset)) (dl_binding_types layout) st
            end
        end
    end.

(** [VKCMDSETDESCRIPTORBUFFEROFFSETSEXT]; the layout is nothing when its handle has no
    index *)
Fixpoint execute_set_offsets (w : sim_world T) (pending : list descriptor_rewrite) (set_layouts : list descriptor_set_layout) (bind_point : Z)
    (layout : option pipeline_layout) (firstSet : Z) (i setCount : nat) (pBufferIndices pOffsets : option (list Z)) (st : buffers_state)
    : outcome buffers_state :=
  match layout, setCount with
  | None, _ | _, O => Ok st
  | Some layout_data, S setCount =>
      let* st := execute_set_offset w pending set_layouts bind_point layout_data firstSet i pBufferIndices pOffsets st in
      execute_set_offsets w pending set_layouts bind_point layout firstSet (S i) setCount pBufferIndices pOffsets st
  end.
End Resolve.
