(* ===== verification/DescriptorResources.v ===== *)
(** * What descriptor buffers stand for (src/execute_commands.cpp)

    Which descriptors lie at the places of a bound descriptor buffer, what the simulator
    is given for them, and what setting the offsets of sets marks and notes. *)

From Stdlib Require Import ZArith Lia Bool Sorted.
From Stdlib.Strings Require Import Byte.
From stdpp Require Import base numbers list gmap sorting.
From S2P Require Import Prelude Patch Memory Heap Suballocator Packets Containers Markings Translate Updates HostMemory HostWrites Output Descriptors DescriptorSets AddressTouches Discovery Simulation ShaderStages RaySimulation RayPlaces DescriptorBuffers.

#[local] Open Scope Z_scope.

(** ** Strides *)

Lemma drop_equal_elem l : forall x, x ∈ drop_equal l <-> x ∈ l.
Proof.
  induction l as [|y l IH]; intros x; [done|]. cbn [drop_equal]. destruct l as [|z l]; [done|].
  destruct (Z.eqb_spec y z) as [->|]; [rewrite IH; set_solver|]. rewrite !elem_of_cons, IH, elem_of_cons. done.
Qed.

Lemma drop_equal_NoDup l : StronglySorted Z.le l -> NoDup (drop_equal l).
Proof.
  induction 1 as [|y l Hs IH Hy]; [by apply NoDup_nil_2|]. cbn [drop_equal]. destruct l as [|z l]; [apply NoDup_singleton|].
  destruct (Z.eqb_spec y z) as [->|Hne]; [done|]. apply NoDup_cons. split; [|done]. rewrite drop_equal_elem. intros Hin.
  apply Forall_cons in Hy as [Hyz _]. apply StronglySorted_inv in Hs as [_ Hz]. rewrite Forall_forall in Hz.
  apply elem_of_cons in Hin as [|Hin]; [lia|]. specialize (Hz y Hin). lia.
Qed.

(** what [pick_stride] picks: the one element that passes *)
Definition only {A} (l : list A) : option A := match l with [x] => Some x | _ => None end.

Lemma only_filter (f : Z -> bool) l s : NoDup l -> only (List.filter f l) = Some s <-> s ∈ l /\ f s = true /\ forall t, t ∈ l -> f t = true -> t = s.
Proof.
  intros Hd. assert (Hin : forall t, t ∈ List.filter f l <-> t ∈ l /\ f t = true).
  { intros t. rewrite !list_elem_of_In. apply List.filter_In. }
  assert (Hdf : NoDup (List.filter f l)) by (apply NoDup_ListNoDup, List.NoDup_filter; by apply NoDup_ListNoDup).
  destruct (List.filter f l) as [|x [|y rest]] eqn:E; cbn [only].
  - split; [done|]. intros (H1 & H2 & _). exfalso. by apply (not_elem_of_nil s), Hin.
  - split.
    + intros [= ->]. destruct (proj1 (Hin s)) as [H1 H2]; [by left|]. do 2 (split; [done|]). intros t Ht Hf.
      by apply list_elem_of_singleton, Hin.
    + intros (H1 & H2 & _). f_equal. symmetry. by apply list_elem_of_singleton, Hin.
  - split; [done|]. intros (_ & _ & Hu). exfalso. apply NoDup_cons in Hdf as [Hx _]. apply Hx.
    destruct (proj1 (Hin x)) as [X1 X2]; [by left|]. destruct (proj1 (Hin y)) as [Y1 Y2]; [by right; left|].
    rewrite (Hu x), (Hu y) by done. by left.
Qed.

Lemma pick_stride_spec (fits_all : Z -> outcome bool) (f : Z -> bool) stride max_stride : 0 < stride ->
  (forall s, stride <= s <= max_stride -> fits_all s = Ok (f s)) ->
  forall strides candidate_stride, pick_stride fits_all stride max_stride strides candidate_stride =
    Ok (let good := List.filter (fun s => (stride <=? s) && (s <=? max_stride) && f s) strides in
        if candidate_stride =? 0 then only good else match good with [] => Some candidate_stride | _ => None end).
Proof.
  intros Hs Hf. induction strides as [|s strides IH]; intros c; cbn [pick_stride List.filter].
  { by destruct (c =? 0). }
  destruct ((s <? stride) || (s >? max_stride)) eqn:Er.
  { assert (E : (stride <=? s) && (s <=? max_stride) && f s = false).
    { apply orb_true_iff in Er as [Er|Er]; bool_to_prop; [rewrite (proj2 (Z.leb_gt stride s)) by lia|rewrite (proj2 (Z.leb_gt s max_stride)) by lia];
        by rewrite ?andb_false_r. }
    rewrite E. apply IH. }
  bool_to_prop. rewrite Hf, (proj2 (Z.leb_le stride s)), (proj2 (Z.leb_le s max_stride)) by lia. cbn [obind andb].
  destruct (f s); cbn [negb]; [|apply IH]. destruct (Z.eqb_spec c 0) as [|Hc]; cbn [negb]; [|done]. rewrite IH.
  rewrite (proj2 (Z.eqb_neq s 0)) by lia. cbn [only]. by destruct (List.filter _ strides).
Qed.

Section Resources.
Context {T : Type} `{MemoryFlagTracker T} `{MarkingHeader}.
Context (find_buffer_memory : nat -> outcome suballoc_location).
Context (address_map : remapper) (object_of : nat -> mapped) (buffer_of : nat -> option nat).

Abbreviation place := (place find_buffer_memory).
Abbreviation found_at := (found_at address_map object_of buffer_of).
Abbreviation find_resource := (find_descriptor_buffer_resource find_buffer_memory).
Abbreviation resolve_resource := (resolve_descriptor_buffer_resource find_buffer_memory address_map object_of buffer_of).
Abbreviation resolve_binding := (resolve_descriptor_buffer_binding find_buffer_memory address_map object_of buffer_of).

(** ** One descriptor *)

(** bytes lie at an offset of the memory of a buffer, of which [size] bytes are its own *)
Definition bytes_at (w : sim_world T) (b : nat) (size offset : Z) (bytes : list byte) : Prop :=
  bytes <> [] /\ offset + Z.of_nat (length bytes) <= size /\ load w (place b + offset) (length bytes) = bytes.

(** those of a descriptor for a buffer *)
Definition resource_at (w : sim_world T) (b : nat) (size offset layout_type : Z) (d : descriptor_rewrite) : Prop :=
  dr_info d <> None /\ (layout_type = VK_DESCRIPTOR_TYPE_MUTABLE_EXT \/ dr_type d = layout_type) /\
  bytes_at w b size offset (dr_capture_bytes d).

(** the one that was returned last *)
Definition last_resource (w : sim_world T) (pending : list descriptor_rewrite) (b : nat) (size offset layout_type : Z)
    (d : descriptor_rewrite) : Prop :=
  exists before after, pending = before ++ d :: after /\ resource_at w b size offset layout_type d /\
    Forall (fun e => ~ resource_at w b size offset layout_type e) after.

(** descriptors at one place stand for one resource *)
Definition unambiguous (w : sim_world T) (pending : list descriptor_rewrite) (b : nat) (size : Z) : Prop :=
  forall offset layout_type d e, d ∈ pending -> e ∈ pending -> 0 <= offset ->
    resource_at w b size offset layout_type d -> resource_at w b size offset layout_type e -> dr_info d = dr_info e.

(** a buffer with memory *)
Definition has_memory (w : sim_world T) (b : nat) (size : Z) : Prop :=
  exists buffer loc, VkBuffer_index w !! b = Some buffer /\ find_buffer_memory b = Ok loc /\ loc_mapped loc <> 0 /\
    tb_size buffer = size /\ 0 <= size < 2 ^ 61 /\ regions_ok (tb_source buffer).

Lemma matches_slot w b size offset layout_type d : 0 <= offset < size ->
  descriptor_rewrite_matches_slot w d layout_type (place b + offset) (size - offset) = true <-> resource_at w b size offset layout_type d.
Proof.
  intros Ho. unfold descriptor_rewrite_matches_slot, bytes_there, resource_at, bytes_at.
  rewrite !andb_true_iff, orb_true_iff, !negb_true_iff, bool_decide_eq_false, bool_decide_eq_true, Nat.eqb_neq, !Z.eqb_eq, Z.leb_le.
  rewrite <- length_zero_iff_nil. intuition lia.
Qed.

Lemma find_matching_spec w b size offset layout_type pending : 0 <= offset < size -> unambiguous w pending b size ->
  forall rest0 found, (forall d, d ∈ rest0 -> d ∈ pending) ->
  (forall f, found = Some f -> f ∈ pending /\ resource_at w b size offset layout_type f) ->
  exists r, find_matching w layout_type (place b + offset) (size - offset) rest0 found = Ok r /\
    forall d, r = Some d <-> last_resource w rest0 b size offset layout_type d \/
      found = Some d /\ Forall (fun e => ~ resource_at w b size offset layout_type e) rest0.
Proof.
  intros Ho Hu rest0. induction rest0 as [|e rest IH]; intros found Hin Hf; cbn [find_matching].
  { exists found. split; [done|]. intros d. split; [intros ->; by right|]. intros [(? & ? & ?%(f_equal length) & _)|[? _]]; [|done].
    rewrite length_app in H1. simpl in H1. lia. }
  assert (Hrest : forall d, d ∈ rest -> d ∈ pending) by (intros d Hd; apply Hin; by right).
  assert (Hsplit : forall d, last_resource w (e :: rest) b size offset layout_type d <->
    last_resource w rest b size offset layout_type d \/
    d = e /\ resource_at w b size offset layout_type e /\ Forall (fun e => ~ resource_at w b size offset layout_type e) rest).
  { intros d. split.
    - intros ([|x before] & after & E & Hr & Ha); injection E as -> ->; [by right|left]. by exists before, after.
    - intros [(before & after & -> & ?)|(-> & ? & ?)]; [by exists (e :: before), after|by exists [], rest]. }
  destruct (descriptor_rewrite_matches_slot w e layout_type (place b + offset) (size - offset)) eqn:Em.
  - apply matches_slot in Em; [|done]. cbn [negb].
    assert (Hs : match found with Some f => same_descriptor_resource f e | None => true end = true).
    { destruct found as [f|]; [|done]. destruct (Hf f eq_refl) as [Hfi Hfr]. apply bool_decide_eq_true.
      eapply Hu; [exact Hfi|apply Hin; by left| |exact Hfr|done]. lia. }
    rewrite Hs. cbn [require obind].
    destruct (IH (Some e) Hrest) as (r & -> & Hr).
    { intros f [= <-]. split; [apply Hin; by left|done]. }
    exists r. split; [done|]. intros d. rewrite Hr, Hsplit, Forall_cons. naive_solver.
  - assert (Hn : ~ resource_at w b size offset layout_type e) by (intros Hc%matches_slot; [congruence|done]). cbn [negb].
    destruct (IH found Hrest Hf) as (r & -> & Hr). exists r. split; [done|]. intros d. rewrite Hr, Hsplit, Forall_cons. tauto.
Qed.

Lemma find_resource_spec w pending b size offset layout_type : has_memory w b size -> 0 <= offset -> unambiguous w pending b size ->
  exists r, find_resource w pending b offset layout_type = Ok r /\
    forall d, r = Some d <-> last_resource w pending b size offset layout_type d.
Proof.
  intros (buffer & loc & E1 & E2 & E3 & E4 & Hs & _) Ho Hu. unfold find_descriptor_buffer_resource, buffer_at. rewrite E1. cbn [obind]. rewrite E4.
  destruct (offset >=? size) eqn:Eo; bool_to_prop.
  { exists None. split; [done|]. intros d. split; [done|]. intros (? & ? & _ & (_ & _ & Hne & Hfit & _) & _).
    destruct (dr_capture_bytes d); [done|]. simpl in Hfit. lia. }
  rewrite E2. cbn [obind]. rewrite (proj2 (Z.eqb_neq _ _)) by done.
  assert (Hp : place b = loc_mapped loc) by (unfold Simulation.place; by rewrite E2). rewrite <- Hp.
  destruct (find_matching_spec w b size offset layout_type pending ltac:(lia) Hu pending None) as (r & -> & Hr); try done.
  exists r. split; [done|]. intros d. rewrite Hr. intuition congruence.
Qed.

(** what a descriptor gives the simulator: nothing for a null address, else the bytes
    that its address leads to *)
Definition needed_size (info : address_info) : Z := if ai_range info =? VK_WHOLE_SIZE then 1 else ai_range info.

Definition access_of (w : sim_world T) (info : address_info) (access : buffer_access) : Prop :=
  if ai_address info =? 0 then access = no_access
  else exists b offset buffer, found_at w (ai_address info) (needed_size info) b offset /\ VkBuffer_index w !! b = Some buffer /\
    access = BufferAccess (Some b) offset (if ai_range info =? VK_WHOLE_SIZE then tb_size buffer - offset else ai_range info).

(** the addresses of the descriptors that were returned are those of buffers *)
Definition reachable (w : sim_world T) (pending : list descriptor_rewrite) : Prop :=
  forall d info, d ∈ pending -> dr_info d = Some info -> ai_address info <> 0 ->
    u64 (ai_address info) /\ 0 <= needed_size info < 2 ^ 63 /\ exists b offset, found_at w (ai_address info) (needed_size info) b offset.

Lemma access_of_unique w info a a' : access_of w info a -> access_of w info a' -> a = a'.
Proof.
  unfold access_of. destruct (ai_address info =? 0); [congruence|]. intros (b & o & buffer & F & E & ->) (b' & o' & buffer' & F' & E' & ->).
  destruct (found_at_unique _ _ _ w _ _ _ _ _ _ F F') as [-> ->]. rewrite E in E'. by injection E' as <-.
Qed.

(** the descriptor found at a place, and its access *)
Definition element_at (w : sim_world T) (pending : list descriptor_rewrite) (b : nat) (size offset layout_type : Z) (access : buffer_access)
    (type : Z) : Prop :=
  exists d info, last_resource w pending b size offset layout_type d /\ dr_info d = Some info /\ access_of w info access /\ type = dr_type d.

Lemma last_resource_in w pending b size offset layout_type d : last_resource w pending b size offset layout_type d ->
  d ∈ pending /\ resource_at w b size offset layout_type d.
Proof. intros (before & after & -> & Hr & _). split; [set_solver|done]. Qed.

Lemma last_resource_unique w pending b size offset layout_type d e :
  last_resource w pending b size offset layout_type d -> last_resource w pending b size offset layout_type e -> d = e.
Proof.
  intros (before & after & E & Hd & Ha) (before' & after' & E' & He & Ha'). rewrite E in E'. clear E.
  rewrite Forall_forall in Ha, Ha'. apply app_eq_inv in E' as [(k & -> & E')|(k & -> & E')]; destruct k as [|x k]; injection E'; intros; subst; try done.
  - exfalso. apply (Ha' d); [set_solver|done].
  - exfalso. apply (Ha e); [set_solver|done].
Qed.

Lemma element_at_unique w pending b size offset layout_type a t a' t' :
  element_at w pending b size offset layout_type a t -> element_at w pending b size offset layout_type a' t' -> a = a' /\ t = t'.
Proof.
  intros (d & i & L & E & A & ->) (d' & i' & L' & E' & A' & ->). rewrite (last_resource_unique _ _ _ _ _ _ _ _ L' L) in *.
  rewrite E in E'. injection E' as <-. split; [by eapply access_of_unique|done].
Qed.

Lemma resolve_resource_spec w pending b size offset layout_type : addresses_ok find_buffer_memory address_map object_of buffer_of w ->
  has_memory w b size -> 0 <= offset -> unambiguous w pending b size -> reachable w pending ->
  exists r, resolve_resource w pending b offset layout_type = Ok r /\
    forall a t, r = Some (a, t) <-> element_at w pending b size offset layout_type a t.
Proof.
  intros Hw Hb Ho Hu Hr. unfold resolve_descriptor_buffer_resource.
  destruct (find_resource_spec w pending b size offset layout_type Hb Ho Hu) as (r & -> & Hd). cbn [obind].
  destruct r as [d|]; [|exists None; split; [done|]; intros a t; split; [done|]; intros (d & _ & L%Hd & _); done].
  pose proof (proj1 (Hd d) eq_refl) as L. destruct (last_resource_in _ _ _ _ _ _ _ L) as [Hin (Hi & _ & _)].
  destruct (dr_info d) as [info|] eqn:Ei; [|done].
  assert (Hone : exists a, access_of w info a /\ forall t, (if ai_address info =? 0 then Ok (Some (no_access, dr_type d))
      else let* mapping := map_device_address_range find_buffer_memory address_map object_of buffer_of w (ai_address info) (needed_size info) in
        match mapping with
        | None => Fail AbortCall
        | Some m =>
            let* buffer := buffer_at w (mr_buffer_data m) in
            let range := if ai_range info =? VK_WHOLE_SIZE then wrap64 (tb_size buffer - mr_buffer_offset m) else ai_range info in
            Ok (Some (BufferAccess (Some (mr_buffer_data m)) (mr_buffer_offset m) range, dr_type d))
        end) = Ok (Some (a, t)) <-> t = dr_type d).
  { unfold access_of. destruct (Z.eqb_spec (ai_address info) 0) as [|Hz]; [exists no_access; split; [done|]; naive_solver|].
    destruct (Hr d info Hin Ei Hz) as (Ha & Hs & b' & o & Hf).
    destruct (map_range_spec find_buffer_memory address_map object_of buffer_of w Hw _ _ Ha Hs) as (m & -> & Hm). cbn [obind].
    rewrite (proj2 (Hm _) (ex_intro _ b' (ex_intro _ o (conj Hf eq_refl)))). cbn [mr_buffer_data mr_buffer_offset].
    destruct (found_at_inside find_buffer_memory address_map object_of buffer_of w Hw _ _ _ _ Ha Hf) as (buffer & Eb & _ & H1 & H2).
    unfold buffer_at. rewrite Eb. cbn [obind]. rewrite wrap64_small by u_lia. eexists. split; [by exists b', o, buffer|]. naive_solver. }
  destruct Hone as (a0 & Ha0 & Hone). exists (Some (a0, dr_type d)). split; [by apply Hone|]. intros a t. split.
  - intros [= <- <-]. by exists d, info.
  - intros He. destruct (element_at_unique _ _ _ _ _ _ _ _ a0 (dr_type d) He) as [-> ->]; [|done]. by exists d, info.
Qed.

(** ** A binding *)

(** the hypotheses of a binding: a buffer with memory and places of it *)
Context (w : sim_world T) (pending : list descriptor_rewrite) (b : nat) (size : Z).

Record binding_ok : Prop := {
  bo_addresses : addresses_ok find_buffer_memory address_map object_of buffer_of w;
  bo_memory : has_memory w b size;
  bo_unambiguous : unambiguous w pending b size;
  bo_reachable : reachable w pending
}.

Context (Hok : binding_ok).

(** every element of an array but the first has a descriptor *)
Definition others_there (offset layout_type count stride : Z) : Prop :=
  forall i, 1 <= i < count -> exists d, last_resource w pending b size (offset + stride * i) layout_type d.

Lemma size_bound : 0 <= size < 2 ^ 61.
Proof using Hok. destruct Hok as [_ (? & ? & _ & _ & _ & _ & ? & _) _ _]. done. Qed.

Lemma elements_match_spec offset layout_type stride n : forall i, 0 <= offset < size -> 0 <= stride ->
  offset + stride * (Z.of_nat i + Z.of_nat n) < 2 ^ 63 ->
  exists r, elements_match find_buffer_memory w pending b offset layout_type stride i n = Ok r /\
    (r = true <-> forall k, Z.of_nat i <= k < Z.of_nat i + Z.of_nat n -> exists d, last_resource w pending b size (offset + stride * k) layout_type d).
Proof using Hok.
  induction n as [|n IH]; intros i Ho Hs Hfit; cbn [elements_match].
  { exists true. split; [done|]. split; [|done]. intros _ k Hk. lia. }
  rewrite wrap64_small by (u_lia || nia).
  destruct (find_resource_spec w pending b size (offset + stride * Z.of_nat i) layout_type) as (r & -> & Hr); [apply Hok|nia|apply Hok|].
  cbn [obind]. destruct r as [d|].
  - destruct (IH (S i) Ho Hs) as (r & -> & Hr'); [rewrite !Nat2Z.inj_succ in *; nia|]. exists r. split; [done|]. rewrite Hr'. split; intros K k Hk.
    + destruct (Z.eq_dec k (Z.of_nat i)) as [->|]; [exists d; by apply Hr|]. apply K. lia.
    + apply K. lia.
  - exists false. split; [done|]. split; [done|]. intros K. destruct (K (Z.of_nat i)) as (d & Hd%Hr); [lia|done].
Qed.

Lemma resolve_elements_spec offset binding_end layout_type stride n : 0 <= offset < binding_end -> binding_end <= size -> 0 < stride -> forall i,
  exists r, resolve_elements find_buffer_memory address_map object_of buffer_of w pending b offset binding_end layout_type stride i n = Ok r /\
    forall l, r = Some l <-> length l = n /\ forall k access o type, l !! k = Some (access, o, type) ->
      o = offset + stride * (Z.of_nat i + Z.of_nat k) /\ o < binding_end /\ element_at w pending b size o layout_type access type.
Proof using Hok.
  intros Ho He Hs. pose proof size_bound as Hb. induction n as [|n IH]; intros i; cbn [resolve_elements].
  { exists (Some []). split; [done|]. intros l. split; [by intros [= <-]|]. intros [->%nil_length_inv _]. done. }
  assert (Hnone : binding_end <= offset + stride * Z.of_nat i -> forall l : list resolved_element, None = Some l <-> length l = S n /\
    forall k access o type, l !! k = Some (access, o, type) ->
      o = offset + stride * (Z.of_nat i + Z.of_nat k) /\ o < binding_end /\ element_at w pending b size o layout_type access type).
  { intros Hout l. split; [done|]. intros [Hl K]. destruct l as [|[[a o] t] l]; [done|]. destruct (K 0%nat a o t eq_refl) as (-> & ? & _). exfalso. lia. }
  destruct (negb (Nat.eqb i 0) && _) eqn:Eg.
  { exists None. split; [done|]. apply Hnone. apply andb_true_iff in Eg as [Eg1 Eg2]. apply negb_true_iff, Nat.eqb_neq in Eg1. bool_to_prop.
    pose proof (Z.mul_succ_div_gt (binding_end - offset) (Z.of_nat i) ltac:(lia)). nia. }
  assert (Hfit : stride * Z.of_nat i <= binding_end - offset).
  { destruct (Nat.eqb_spec i 0) as [->|Hi]; [lia|]. cbn [negb andb] in Eg. bool_to_prop.
    pose proof (Z.mul_div_le (binding_end - offset) (Z.of_nat i) ltac:(lia)). nia. }
  rewrite wrap64_small by (unfold_width; nia). destruct (_ >=? _) eqn:Ee; bool_to_prop.
  { exists None. split; [done|]. apply Hnone. lia. }
  destruct (resolve_resource_spec w pending b size (offset + stride * Z.of_nat i) layout_type)
    as (r & -> & Hr); [apply Hok|apply Hok|nia|apply Hok|apply Hok|]. cbn [obind].
  destruct r as [[a t]|].
  - destruct (IH (S i)) as (r' & -> & Hr'). cbn [obind]. eexists. split; [reflexivity|]. intros l. split.
    + destruct r' as [l'|]; [|done]. cbn [option_map]. intros [= <-]. destruct (proj1 (Hr' l') eq_refl) as [Hl K].
      split; [simpl; lia|]. intros [|k] a' o' t' E; cbn in E.
      * injection E as <- <- <-. split; [f_equal; lia|]. split; [lia|]. by apply Hr.
      * destruct (K k a' o' t' E) as (-> & ? & ?). split; [rewrite !Nat2Z.inj_succ; f_equal; lia|done].
    + intros [Hl K]. destruct l as [|[[a' o'] t'] l]; [done|]. destruct (K 0%nat a' o' t' eq_refl) as (Eo & _ & He').
      replace (offset + stride * (Z.of_nat i + Z.of_nat 0)) with (offset + stride * Z.of_nat i) in Eo by (f_equal; lia). subst o'.
      apply Hr in He'. injection He' as <- <-. rewrite (proj2 (Hr' l)); [done|]. split; [simpl in Hl; lia|].
      intros k a' o' t' E. destruct (K (S k) a' o' t' E) as (-> & ? & ?). split; [rewrite !Nat2Z.inj_succ; f_equal; lia|done].
  - exists None. split; [done|]. intros l. split; [done|]. intros [Hl K]. destruct l as [|[[a' o'] t'] l]; [done|]. exfalso.
    destruct (K 0%nat a' o' t' eq_refl) as (Eo & _ & He').
    replace (offset + stride * (Z.of_nat i + Z.of_nat 0)) with (offset + stride * Z.of_nat i) in Eo by (f_equal; lia). subst o'. by apply Hr in He'.
Qed.

(** the strides that are tried for mutable descriptors *)
Definition possible_stride (first span count s : Z) : Prop :=
  s = first \/ (exists d, d ∈ pending /\ dr_info d <> None /\ dr_capture_bytes d <> [] /\ s = Z.of_nat (length (dr_capture_bytes d))) \/
  (span mod count = 0 /\ s = span / count).

(** under which every element has a descriptor *)
Definition fitting_stride (offset binding_end layout_type count first s : Z) : Prop :=
  first <= s <= (binding_end - offset - 1) / (count - 1) /\ possible_stride first (binding_end - offset) count s /\
  others_there offset layout_type count s.

(** the stride of an array is the size of its first descriptor; if the types differ
    from element to element, the only one that fits *)
Definition stride_ok (offset binding_end layout_type count first s : Z) : Prop :=
  if (count >? 1) && (layout_type =? VK_DESCRIPTOR_TYPE_MUTABLE_EXT)
  then fitting_stride offset binding_end layout_type count first s /\
       forall t, fitting_stride offset binding_end layout_type count first t -> t = s
  else s = first.

Lemma possible_strides_spec first span count :
  NoDup (possible_strides pending first span count) /\
  forall s, s ∈ possible_strides pending first span count <-> possible_stride first span count s.
Proof.
  unfold possible_strides, possible_stride. set (even := if _ =? 0 then _ else _).
  assert (Hev : forall s, s ∈ even <-> span mod count = 0 /\ s = span / count).
  { intros s. unfold even. destruct (Z.eqb_spec (span mod count) 0); [rewrite list_elem_of_singleton; naive_solver|].
    split; [intros K; by apply elem_of_nil in K|naive_solver]. }
  split; [apply drop_equal_NoDup, (StronglySorted_merge_sort Z.le)|]. intros s. rewrite drop_equal_elem, merge_sort_Permutation, elem_of_cons, elem_of_app, Hev.
  rewrite list_elem_of_fmap. setoid_rewrite list_elem_of_filter. naive_solver.
Qed.

Lemma element_stride_spec offset binding_end layout_type count first :
  0 <= offset < binding_end -> binding_end <= size -> 0 < first -> 0 < count ->
  exists r, element_stride find_buffer_memory w pending b offset binding_end layout_type count first = Ok r /\
    forall s, r = Some s <-> stride_ok offset binding_end layout_type count first s.
Proof using Hok.
  intros Ho He Hf Hc. pose proof size_bound as Hb. unfold element_stride, stride_ok. destruct (_ && _) eqn:E; [|exists (Some first); naive_solver].
  apply andb_true_iff in E as [E _]. bool_to_prop. set (max_stride := (binding_end - offset - 1) / (count - 1)).
  assert (Hm : max_stride * (count - 1) <= binding_end - offset - 1) by (unfold max_stride; pose proof (Z.mul_div_le (binding_end - offset - 1) (count - 1)); lia).
  set (fits_all := fun s => elements_match _ _ _ _ _ _ s _ _).
  set (f := fun s => match fits_all s with Ok r => r | Fail _ => false end).
  assert (Hfits : forall s, first <= s <= max_stride -> fits_all s = Ok (f s) /\ (f s = true <-> others_there offset layout_type count s)).
  { intros s Hs. unfold f, fits_all. destruct (elements_match_spec offset layout_type s (Z.to_nat count - 1) 1) as (r & -> & Hr); [lia|lia|nia|].
    split; [done|]. rewrite Hr. unfold others_there. split; intros K i Hi; apply K; lia. }
  rewrite (pick_stride_spec fits_all f first max_stride Hf) by (intros s Hs; by apply Hfits). cbn [Z.eqb].
  destruct (possible_strides_spec first (binding_end - offset) count) as [Hnd Hin]. eexists. split; [reflexivity|]. intros s.
  rewrite only_filter by done. unfold fitting_stride. fold max_stride.
  assert (Hall : forall t, t ∈ possible_strides pending first (binding_end - offset) count /\ (first <=? t) && (t <=? max_stride) && f t = true <->
    first <= t <= max_stride /\ possible_stride first (binding_end - offset) count t /\ others_there offset layout_type count t).
  { intros t. rewrite Hin, !andb_true_iff, !Z.leb_le. split.
    - intros (? & Hr & Hft). do 2 (split; [done|]). by apply Hfits.
    - intros (Hr & ? & Hft). split; [done|]. split; [done|]. by apply Hfits. }
  split.
  - intros (H1 & H2 & H3). split; [by apply Hall|]. intros t [Ht1 Ht2]%Hall. by apply H3.
  - intros (H1%Hall & H3). split; [apply H1|]. split; [apply H1|]. intros t Ht1 Ht2. by apply H3, Hall.
Qed.

Lemma resolve_binding_spec offset binding_end layout_type count : 0 <= offset -> binding_end <= size -> 0 <= count ->
  exists r, resolve_binding w pending b offset binding_end layout_type count = Ok r /\
    forall l, r = Some l <-> 0 < count /\ offset < binding_end /\ Z.of_nat (length l) = count /\
      exists first stride, last_resource w pending b size offset layout_type first /\
        stride_ok offset binding_end layout_type count (Z.of_nat (length (dr_capture_bytes first))) stride /\
        forall k access o type, l !! k = Some (access, o, type) ->
          o = offset + stride * Z.of_nat k /\ o < binding_end /\ element_at w pending b size o layout_type access type.
Proof using Hok.
  intros Ho He Hc. unfold resolve_descriptor_buffer_binding. destruct (_ || _) eqn:E0.
  { exists None. split; [done|]. intros l. split; [done|]. intros (? & ? & _). apply orb_true_iff in E0 as [E0|E0]; bool_to_prop; lia. }
  bool_to_prop. destruct (find_resource_spec w pending b size offset layout_type) as (r & -> & Hr); [apply Hok|done|apply Hok|]. cbn [obind].
  destruct r as [first|]; [|exists None; split; [done|]; intros l; split; [done|]; intros (_ & _ & _ & d & _ & Hd%Hr & _); done].
  pose proof (proj1 (Hr first) eq_refl) as Hfirst. destruct (last_resource_in _ _ _ _ _ _ _ Hfirst) as [_ (_ & _ & Hne & _)].
  destruct (element_stride_spec offset binding_end layout_type count (Z.of_nat (length (dr_capture_bytes first)))) as (rs & -> & Hs);
    [lia|done|destruct (dr_capture_bytes first); [done|simpl; lia]|lia|]. cbn [obind].
  destruct rs as [stride|].
  - pose proof (proj1 (Hs stride) eq_refl) as Hstride.
    assert (Hpos : 0 < stride).
    { unfold stride_ok in Hstride. destruct (dr_capture_bytes first); [done|]. destruct (_ && _); [|subst; simpl; lia].
      destruct Hstride as [[[? _] _] _]. simpl in *. lia. }
    destruct (resolve_elements_spec offset binding_end layout_type stride (Z.to_nat count)) with (i := 0%nat) as (r & -> & Hres); [lia|done|done|].
    exists r. split; [done|]. intros l. rewrite Hres. split.
    + intros [Hl K]. split; [lia|]. split; [lia|]. split; [lia|]. exists first, stride. split; [done|]. split; [done|].
      intros k access o type Hk. destruct (K k access o type Hk) as (-> & ? & ?). split; [f_equal; lia|done].
    + intros (_ & _ & Hl & first' & stride' & Hf' & Hs' & K). rewrite (last_resource_unique _ _ _ _ _ _ _ _ Hf' Hfirst) in Hs'.
      apply Hs in Hs'. injection Hs' as <-. split; [lia|].
      intros k access o type Hk. destruct (K k access o type Hk) as (-> & ? & ?). split; [f_equal; lia|done].
  - exists None. split; [done|]. intros l. split; [done|]. intros (_ & _ & _ & first' & stride' & Hf' & Hs' & _).
    rewrite (last_resource_unique _ _ _ _ _ _ _ _ Hf' Hfirst) in Hs'. apply Hs in Hs'. done.
Qed.
End Resources.
