(* ===== verification/DescriptorDiscovery.v ===== *)
(** * Descriptors found in bound buffers (src/execute_commands.cpp)

    What setting the offsets of descriptor buffers marks in the packets that wrote the
    descriptors, and which of their bytes it notes for the output pass. *)

From Stdlib Require Import ZArith Lia Bool.
From Stdlib.Strings Require Import Byte.
From stdpp Require Import base numbers list gmap.
From S2P Require Import Prelude Patch Memory Heap Suballocator Packets Containers Markings Translate Updates HostMemory HostWrites Output Descriptors DescriptorSets AddressTouches Discovery Simulation ShaderStages RaySimulation RayPlaces DescriptorBuffers DescriptorResources.

#[local] Open Scope Z_scope.

Section Commands.
Context {T : Type} `{MemoryFlagTracker T} `{MarkingHeader}.
Context (find_buffer_memory : nat -> outcome suballoc_location).
Context (address_map : remapper) (object_of : nat -> mapped) (buffer_of : nat -> option nat).
Context (w : sim_world T) (pending : list descriptor_rewrite).

Abbreviation resolve_binding := (resolve_descriptor_buffer_binding find_buffer_memory address_map object_of buffer_of).
Abbreviation bytes_at := (bytes_at find_buffer_memory).

(** ** What is noted at a place *)

(** a descriptor of the type whose bytes are there *)
Definition describes (b : nat) (size offset type : Z) (d : descriptor_rewrite) : Prop :=
  (type = VK_DESCRIPTOR_TYPE_MUTABLE_EXT \/ dr_type d = type) /\ bytes_at w b size offset (dr_capture_bytes d).

(** the first of them is noted with its own type *)
Definition noted_at (b : nat) (offset type : Z) (p : descriptor_buffer_payload) : Prop :=
  exists buffer before d after, VkBuffer_index w !! b = Some buffer /\ pending = before ++ d :: after /\
    describes b (tb_size buffer) offset type d /\ Forall (fun e => ~ describes b (tb_size buffer) offset type e) before /\
    p = BufferPayload (tb_index buffer) offset (dr_type d) (dr_capture_bytes d).

Lemma payload_eqb_eq a b : payload_eqb a b = true <-> a = b.
Proof.
  unfold payload_eqb. rewrite !andb_true_iff, bool_decide_eq_true, !Z.eqb_eq. destruct a, b; cbn. split; [|naive_solver].
  intros [[[-> ->] ->] ->]. done.
Qed.

Lemma note_first_spec b size index offset type l : 0 <= offset <= size -> forall payloads,
  exists new, note_first w (place find_buffer_memory b) size index offset type l payloads = payloads ++ new /\
    (NoDup payloads -> NoDup (payloads ++ new)) /\
    forall p, p ∈ payloads ++ new <-> p ∈ payloads \/ exists before d after, l = before ++ d :: after /\
      describes b size offset type d /\ Forall (fun e => ~ describes b size offset type e) before /\
      p = BufferPayload index offset (dr_type d) (dr_capture_bytes d).
Proof.
  intros Ho payloads. induction l as [|d l IH]; cbn [note_first].
  { exists []. rewrite app_nil_r. split; [done|]. split; [done|]. intros p. split; [by left|]. intros [?|(? & ? & ? & E & _)]; [done|]. by destruct x. }
  assert (Hskip : ~ describes b size offset type d -> forall p,
    (exists before e after, l = before ++ e :: after /\ describes b size offset type e /\ Forall (fun e => ~ describes b size offset type e) before /\
       p = BufferPayload index offset (dr_type e) (dr_capture_bytes e)) <->
    exists before e after, d :: l = before ++ e :: after /\ describes b size offset type e /\ Forall (fun e => ~ describes b size offset type e) before /\
       p = BufferPayload index offset (dr_type e) (dr_capture_bytes e)).
  { intros Hn p. split.
    - intros (before & e & after & -> & ? & ? & ?). exists (d :: before), e, after. split; [done|]. split; [done|]. by split; [constructor|].
    - intros ([|x before] & e & after & E & He & Hb & ->); injection E as <- ->; [done|]. apply Forall_cons in Hb as [_ Hb]. by exists before, e, after. }
  assert (Hgo : ~ describes b size offset type d -> exists new,
    note_first w (place find_buffer_memory b) size index offset type l payloads = payloads ++ new /\ (NoDup payloads -> NoDup (payloads ++ new)) /\
    forall p, p ∈ payloads ++ new <-> p ∈ payloads \/ exists before e after, d :: l = before ++ e :: after /\
      describes b size offset type e /\ Forall (fun e => ~ describes b size offset type e) before /\
      p = BufferPayload index offset (dr_type e) (dr_capture_bytes e)).
  { intros Hn. destruct IH as (new & E & Hd & Hp). exists new. split; [done|]. split; [done|]. intros p. by rewrite Hp, (Hskip Hn). }
  destruct (_ || Nat.eqb _ 0) eqn:E1.
  { apply Hgo. intros (Ht & Hne & _). rewrite <- length_zero_iff_nil in Hne. apply orb_true_iff in E1 as [E1|E1%Nat.eqb_eq]; [|done]. bool_to_prop.
    destruct Ht; tauto. }
  destruct (_ || (_ >? _)) eqn:E2.
  { apply Hgo. intros (_ & _ & Hfit & _). apply orb_true_iff in E2 as [E2|E2]; bool_to_prop; lia. }
  destruct (bool_decide _) eqn:E3; apply bool_decide_eq_true in E3 || apply bool_decide_eq_false in E3; cbn [negb].
  2:{ apply Hgo. intros (_ & _ & _ & Hl). done. }
  apply orb_false_iff in E1 as [E1 E1']. apply orb_false_iff in E2 as [E2 E2']. bool_to_prop.
  assert (Hd : describes b size offset type d).
  { split; [|split; [|split; [lia|done]]]; [|intros Hnil; rewrite Hnil in E1'; done].
    destruct E1; bool_to_prop; tauto. }
  assert (Hone : forall p, p = BufferPayload index offset (dr_type d) (dr_capture_bytes d) <->
    exists before e after, d :: l = before ++ e :: after /\ describes b size offset type e /\ Forall (fun e => ~ describes b size offset type e) before /\
      p = BufferPayload index offset (dr_type e) (dr_capture_bytes e)).
  { intros p. split; [intros ->; by exists [], d, l|]. intros ([|x before] & e & after & E & He & Hb & ->); injection E as <- ->; [done|].
    apply Forall_cons in Hb as [Hb _]. done. }
  set (entry := BufferPayload _ _ _ _) in *. destruct (existsb (payload_eqb entry) payloads) eqn:Ex.
  - apply existsb_exists in Ex as (q & Hq & <-%payload_eqb_eq). exists []. rewrite app_nil_r. split; [done|]. split; [done|]. intros p.
    rewrite <- Hone. split; [by left|]. intros [?| ->]; [done|]. by apply list_elem_of_In.
  - exists [entry]. split; [done|]. split.
    + intros Hnd. apply NoDup_app. split; [done|]. split; [|apply NoDup_singleton]. intros q Hq ->%list_elem_of_singleton.
      apply not_true_iff_false in Ex. apply Ex, existsb_exists. exists entry. split; [by apply list_elem_of_In|by apply payload_eqb_eq].
    + intros p. rewrite <- Hone, elem_of_app, list_elem_of_singleton. done.
Qed.

(** ** Parts of a command *)

(** descriptor buffers are bound, the queue has one entry for a key, whose markings are
    canonical and at most [n] each, and no descriptor is noted twice *)
Definition buffers_fine (bound_buffers : list descriptor_buffer_binding_state) (n : Z) (st : buffers_state) : Prop :=
  bf_bound st = bound_buffers /\ 0 <= n /\ Forall (entry_ok n) (bf_queue st) /\ NoDup (map entry_key (bf_queue st)) /\ NoDup (bf_payloads st).

(** the places of [P], and nothing else, are marked and noted *)
Definition discovers (P : nat -> Z -> Z -> Prop) (st st' : buffers_state) : Prop :=
  (forall k x, queued (bf_queue st') k x <-> queued (bf_queue st) k x \/ exists b offset type,
     P b offset type /\ marked_under w b offset 1 VK_MARKING_TYPE_DESCRIPTOR_ARM type k x) /\
  (forall p, p ∈ bf_payloads st' <-> p ∈ bf_payloads st \/ exists b offset type, P b offset type /\ noted_at b offset type p).

(** a part of a command discovers the places of [P], which are at most [k] *)
Definition part (bound_buffers : list descriptor_buffer_binding_state) (f : buffers_state -> outcome buffers_state)
    (P : nat -> Z -> Z -> Prop) (k : Z) : Prop :=
  forall st n, buffers_fine bound_buffers n st -> n + k <= UINT32_MAX ->
    exists st', f st = Ok st' /\ buffers_fine bound_buffers (n + k) st' /\ discovers P st st'.

Lemma part_skip bound_buffers (P : nat -> Z -> Z -> Prop) k : 0 <= k -> (forall b offset type, ~ P b offset type) -> part bound_buffers Ok P k.
Proof.
  intros Hk HP st n (H1 & H2 & H3 & H4 & H5) Hn. exists st. split; [done|]. split.
  - do 2 (split; [done || lia|]). split; [|done]. eapply Forall_impl; [exact H3|]. intros e He. eapply entry_ok_weaken; [exact He|lia].
  - split; intros; (split; [by left|]); (intros [?|(b & o & t & Hp & _)]; [done|]; by apply HP in Hp).
Qed.

Lemma part_then bound_buffers f g (P Q R : nat -> Z -> Z -> Prop) k k' : part bound_buffers f P k -> part bound_buffers g Q k' -> 0 <= k' ->
  (forall b offset type, R b offset type <-> P b offset type \/ Q b offset type) ->
  part bound_buffers (fun st => let* st := f st in g st) R (k + k').
Proof.
  intros Hf Hg Hk HR st n Hst Hn. destruct (Hf st n Hst ltac:(lia)) as (st1 & -> & F1 & M1 & N1). cbn [obind].
  destruct (Hg st1 (n + k) F1 ltac:(lia)) as (st2 & -> & F2 & M2 & N2). exists st2. split; [done|].
  split; [by rewrite Z.add_assoc|]. split.
  - intros key x. rewrite M2, M1. setoid_rewrite HR. naive_solver.
  - intros p. rewrite N2, N1. setoid_rewrite HR. naive_solver.
Qed.

Lemma part_iff bound_buffers f (P Q : nat -> Z -> Z -> Prop) k : part bound_buffers f P k -> (forall b offset type, P b offset type <-> Q b offset type) ->
  part bound_buffers f Q k.
Proof.
  intros Hf HP st n Hst Hn. destruct (Hf st n Hst Hn) as (st' & E & F & M & N). exists st'. split; [done|]. split; [done|].
  split; [intros key x; rewrite M|intros p; rewrite N]; by setoid_rewrite HP.
Qed.

(** ** Bindings *)

Definition binding_ok := binding_ok find_buffer_memory address_map object_of buffer_of w pending.

Lemma note_places_spec b size places : binding_ok b size -> (forall offset type, (offset, type) ∈ places -> 0 <= offset <= size) -> forall payloads,
  exists payloads', note_places find_buffer_memory w pending b places payloads = Ok payloads' /\ (NoDup payloads -> NoDup payloads') /\
    forall p, p ∈ payloads' <-> p ∈ payloads \/ exists offset type, (offset, type) ∈ places /\ noted_at b offset type p.
Proof.
  intros Hok. pose proof (bo_memory _ _ _ _ _ _ _ _ Hok) as (buffer & loc & E1 & E2 & E3 & E4 & _).
  induction places as [|[offset type] places IH]; intros Hin payloads; cbn [note_places].
  { exists payloads. split; [done|]. split; [done|]. intros p. split; [by left|]. intros [?|(? & ? & ?%elem_of_nil & _)]; done. }
  unfold record_descriptor_buffer_payload, buffer_at. rewrite E1. cbn [obind]. rewrite E2. cbn [obind]. rewrite (proj2 (Z.eqb_neq _ _)) by done.
  replace (loc_mapped loc) with (place find_buffer_memory b) by (unfold Simulation.place; by rewrite E2).
  destruct (note_first_spec b (tb_size buffer) (tb_index buffer) offset type pending) with (payloads := payloads) as (new & -> & Hd & Hp).
  { rewrite E4. apply (Hin offset type). by left. }
  cbn [obind]. destruct (IH) with (payloads := payloads ++ new) as (payloads' & -> & Hd' & Hp').
  { intros o t Ht. apply (Hin o t). by right. }
  exists payloads'. split; [done|]. split; [auto|]. intros p. rewrite Hp', Hp.
  assert (Hone : noted_at b offset type p <-> exists before d after, pending = before ++ d :: after /\
    describes b (tb_size buffer) offset type d /\ Forall (fun e => ~ describes b (tb_size buffer) offset type e) before /\
    p = BufferPayload (tb_index buffer) offset (dr_type d) (dr_capture_bytes d)).
  { unfold noted_at. rewrite E1. naive_solver. }
  rewrite <- Hone. setoid_rewrite elem_of_cons. naive_solver.
Qed.

(** the places of a binding: those of its elements, if all of them are found, or its
    first with the type of the layout *)
Definition place_of_binding (layout : descriptor_set_layout) (b : nat) (size set_base binding layout_type offset type : Z) : Prop :=
  let binding_offset := default 0 (map_find binding (dl_offsets layout)) in
  let descriptor_offset := wrap64 (set_base + binding_offset) in
  descriptor_offset < size /\
  exists r, resolve_binding w pending b descriptor_offset (binding_end_of layout set_base binding_offset size) layout_type
      (default 1 (map_find binding (dl_binding_counts layout))) = Ok r /\
    match r with
    | Some l => exists access, (access, offset, type) ∈ l
    | None => offset = descriptor_offset /\ type = layout_type
    end.

Definition binding_count (layout : descriptor_set_layout) (binding : Z) : Z :=
  Z.max 1 (default 1 (map_find binding (dl_binding_counts layout))).

Lemma binding_end_le layout set_base binding_offset size : binding_end_of layout set_base binding_offset size <= size.
Proof.
  unfold binding_end_of. set (f := fun (e : Z) (o : Z * Z) => _).
  assert (Hf : forall l e, fold_left f l e <= e).
  { induction l as [|o l IH]; intros e; cbn [fold_left]; [lia|]. rewrite IH. unfold f. destruct (_ <=? _); lia. }
  specialize (Hf (dl_offsets layout) size). destruct (_ >? _); lia.
Qed.

Lemma marked_places b size places queue n : binding_ok b size -> (forall offset type, (offset, type) ∈ places -> 0 <= offset < size) ->
  Forall (entry_ok n) queue -> 0 <= n -> NoDup (map entry_key queue) -> n + Z.of_nat (length places) <= UINT32_MAX ->
  exists queue', merge_discovered_markings w (map (fun p => descriptor_marking b (fst p) (snd p)) places) queue = Ok queue' /\
    Forall (entry_ok (n + Z.of_nat (length places))) queue' /\ NoDup (map entry_key queue') /\
    forall k x, queued queue' k x <-> queued queue k x \/
      exists offset type, (offset, type) ∈ places /\ marked_under w b offset 1 VK_MARKING_TYPE_DESCRIPTOR_ARM type k x.
Proof.
  intros Hok Hin Hq Hn Hd Hlen. pose proof (bo_memory _ _ _ _ _ _ _ _ Hok) as (buffer & loc & E1 & _ & _ & E4 & Hs & Hr).
  assert (Hbuf : forall offset type, (offset, type) ∈ places -> in_buffer w b offset 1).
  { intros o t Ht. specialize (Hin o t Ht). exists buffer. split; [done|]. split; [done|]. split; [lia|]. split; [u_lia|]. lia. }
  destruct (merge_discovered_counted w (map (fun p => descriptor_marking b (fst p) (snd p)) places) queue n) as (queue' & E & Q1 & Q2 & Q3); try done.
  { apply Forall_forall. intros d ([o t] & -> & Ht)%list_elem_of_fmap. by eapply in_buffer_ok, Hbuf. }
  { by rewrite length_map. }
  exists queue'. rewrite length_map in Q1. split; [done|]. split; [done|]. split; [done|]. intros k x. rewrite Q3, Exists_exists.
  split; (intros [?|Hx]; [by left|right]).
  - destruct Hx as (d & ([o t] & -> & Ht)%list_elem_of_fmap & Hg). exists o, t. split; [done|]. apply goes_to_source; [by eapply Hbuf|done].
  - destruct Hx as (o & t & Ht & Hm). exists (descriptor_marking b o t). split; [apply list_elem_of_fmap; by exists (o, t)|].
    apply goes_to_source; [by eapply Hbuf|done].
Qed.

Definition layout_ok (layout : descriptor_set_layout) : Prop := Forall (fun c => 0 <= snd c) (dl_binding_counts layout).

Lemma layout_count_nonneg layout binding : layout_ok layout -> 0 <= default 1 (map_find binding (dl_binding_counts layout)).
Proof.
  unfold layout_ok. induction 1 as [|[k c] l Hc Hl IH]; [done|]. unfold map_find in *. cbn in *. destruct (_ =? _); [done|apply IH].
Qed.

Abbreviation run_binding := (execute_binding find_buffer_memory address_map object_of buffer_of w pending).
Abbreviation run_bindings := (execute_bindings find_buffer_memory address_map object_of buffer_of w pending).

Lemma binding_part bound_buffers bind_point set layout b size set_base binding layout_type : binding_ok b size -> layout_ok layout ->
  part bound_buffers (run_binding bind_point set layout b set_base binding layout_type)
    (fun b' offset type => b' = b /\ place_of_binding layout b size set_base binding layout_type offset type) (binding_count layout binding).
Proof.
  intros Hok Hl st n Hst Hn. pose proof (bo_memory _ _ _ _ _ _ _ _ Hok) as (buffer & loc & E1 & _ & _ & E4 & Hs & _).
  pose proof (layout_count_nonneg layout binding Hl) as Hc. unfold execute_binding, buffer_at, place_of_binding, binding_count in *. rewrite E1. cbn [obind].
  rewrite E4. cbv zeta. set (binding_offset := default 0 _). set (descriptor_offset := wrap64 (set_base + binding_offset)).
  set (count := default 1 _) in *. pose proof (wrap64_range (set_base + binding_offset)) as Hwr. fold descriptor_offset in Hwr.
  destruct (_ >=? size) eqn:Eo; bool_to_prop.
  { apply (part_skip bound_buffers _ (Z.max 1 count) ltac:(lia)) with (n := n); [|done|done]. intros ? ? ? (_ & ? & _). lia. }
  set (binding_end := binding_end_of layout set_base binding_offset size). pose proof (binding_end_le layout set_base binding_offset size) as Hend.
  destruct (resolve_binding_spec find_buffer_memory address_map object_of buffer_of w pending b size Hok descriptor_offset binding_end layout_type count)
    as (r & Er & Hr); [u_lia|done|done|]. rewrite Er. cbn [obind].
  set (places := match r with Some l => map (fun e => (snd (fst e), snd e)) l | None => [(descriptor_offset, layout_type)] end).
  set (unresolved := SimulatorBinding layout_type true [BufferAccess (Some b) descriptor_offset (size - descriptor_offset)] [] []).
  set (dst := match r with Some l => resolved_binding l | None => unresolved end).
  assert (Ep : match r with
    | Some l => (resolved_binding l, map (fun e => (snd (fst e), snd e)) l)
    | None => (unresolved, [(descriptor_offset, layout_type)]) end = (dst, places)) by (unfold dst, places; by destruct r).
  rewrite Ep. clear Ep.
  assert (Hplaces : forall o t, (o, t) ∈ places <-> match r with
    | Some l => exists access, (access, o, t) ∈ l | None => o = descriptor_offset /\ t = layout_type end).
  { intros o t. unfold places. destruct r as [l|]; [rewrite list_elem_of_fmap|rewrite list_elem_of_singleton; naive_solver].
    split; [intros ([[a o'] t'] & [= -> ->] & ?); by exists a|intros [a ?]; by exists (a, o, t)]. }
  assert (Hin : forall o t, (o, t) ∈ places -> 0 <= o < size).
  { intros o t Ht%Hplaces. destruct r as [l|]; [|destruct Ht as [-> _]; u_lia]. destruct Ht as [a Ht].
    destruct (proj1 (Hr l) eq_refl) as (_ & _ & _ & first & stride & Hf & Hst' & K).
    apply list_elem_of_lookup in Ht as [k Hk]. destruct (K k a o t Hk) as (-> & Ho & _). split; [|lia].
    enough (0 <= stride) by u_lia. unfold stride_ok in Hst'. destruct (_ && _); [|lia]. destruct Hst' as [[[? _] _] _]. lia. }
  assert (Hlen : Z.of_nat (length places) <= Z.max 1 count).
  { unfold places. destruct r as [l|]; [|simpl; lia]. rewrite length_map. destruct (proj1 (Hr l) eq_refl) as (_ & _ & Hl' & _). rewrite <- Hl'. unfold resolved_element. lia. }
  destruct Hst as (B1 & B2 & B3 & B4 & B5).
  destruct (note_places_spec b size places Hok) with (payloads := bf_payloads st) as (payloads & -> & Hpd & Hp).
  { intros o t Ht. specialize (Hin o t Ht). lia. }
  cbn [obind]. destruct (marked_places b size places (bf_queue st) n Hok Hin B3 B2 B4 ltac:(lia)) as (queue & -> & Q1 & Q2 & Q3).
  cbn [obind]. eexists. split; [reflexivity|]. cbn [buffers_fine bf_bound bf_queue bf_payloads].
  assert (Hone : forall o t, (o, t) ∈ places <-> descriptor_offset < size /\ exists r0, resolve_binding w pending b descriptor_offset binding_end layout_type count = Ok r0 /\
    match r0 with Some l => exists access, (access, o, t) ∈ l | None => o = descriptor_offset /\ t = layout_type end).
  { intros o t. rewrite Hplaces, Er. naive_solver. }
  split.
  - split; [done|]. split; [lia|]. split; [|split; [done|by apply Hpd]]. eapply Forall_impl; [exact Q1|]. intros e He. eapply entry_ok_weaken; [exact He|lia].
  - split.
    + intros k x. rewrite Q3. setoid_rewrite Hone. naive_solver.
    + intros p. rewrite Hp. setoid_rewrite Hone. naive_solver.
Qed.

(** ** Sets *)

Definition set_count (layout : descriptor_set_layout) : Z := foldr (fun bt n => binding_count layout (fst bt) + n) 0 (dl_binding_types layout).

Lemma bindings_part bound_buffers bind_point set layout b size set_base types : binding_ok b size -> layout_ok layout ->
  part bound_buffers (run_bindings bind_point set layout b set_base types)
    (fun b' offset type => b' = b /\ exists binding layout_type, (binding, layout_type) ∈ types /\
       place_of_binding layout b size set_base binding layout_type offset type)
    (foldr (fun bt n => binding_count layout (fst bt) + n) 0 types).
Proof.
  intros Hok Hl. assert (Hpos : forall types : list (Z * Z), 0 <= foldr (fun bt n => binding_count layout (fst bt) + n) 0 types).
  { intros l. induction l as [|bt l IH]; simpl; [done|]. unfold binding_count at 1. lia. }
  induction types as [|[binding layout_type] types IH]; cbn [execute_bindings foldr fst].
  { apply part_skip; [done|]. intros ? ? ? (_ & ? & ? & ?%elem_of_nil & _). done. }
  eapply part_then; [by apply binding_part|exact IH|apply Hpos|]. intros b' o t. cbn beta. setoid_rewrite elem_of_cons. naive_solver.
Qed.

Context (set_layouts : list descriptor_set_layout).

Section Sets.
Context (bound_buffers : list descriptor_buffer_binding_state).

(** the places of the bindings of set [i] of a command *)
Definition place_of_set (layout_data : pipeline_layout) (firstSet : Z) (i : nat) (pBufferIndices pOffsets : option (list Z))
    (b : nat) (offset type : Z) : Prop :=
  let set := wrap32 (firstSet + Z.of_nat i) in
  set < descriptor_set_layout_count layout_data /\
  exists binding_index bs set_offset layout binding layout_type size,
    element_or_zero pBufferIndices i = Ok binding_index /\ bound_buffers !! Z.to_nat binding_index = Some bs /\ bs_buffer_data bs = Some b /\
    element_or_zero pOffsets i = Ok set_offset /\ find_set_layout_index layout_data set <> CONTAINER_INVALID_INDEX /\
    set_layouts !! Z.to_nat (find_set_layout_index layout_data set) = Some layout /\ (binding, layout_type) ∈ dl_binding_types layout /\
    has_memory find_buffer_memory w b size /\
    place_of_binding layout b size (wrap64 (bs_offset bs + set_offset)) binding layout_type offset type.

(** the arrays are as long as the command says, the layouts exist, and the bound buffers
    have memory and descriptors that can be told apart *)
Record command_ok (layout_data : pipeline_layout) (setCount : nat) (pBufferIndices pOffsets : option (list Z)) (most : Z) : Prop := {
  co_indices : forall i, (i < setCount)%nat -> exists v, element_or_zero pBufferIndices i = Ok v;
  co_offsets : forall i, (i < setCount)%nat -> exists v, element_or_zero pOffsets i = Ok v;
  co_layouts : forall set, set < descriptor_set_layout_count layout_data -> find_set_layout_index layout_data set <> CONTAINER_INVALID_INDEX ->
    exists layout, set_layouts !! Z.to_nat (find_set_layout_index layout_data set) = Some layout /\ layout_ok layout /\ set_count layout <= most;
  co_buffers : forall bs b, bs ∈ bound_buffers -> bs_buffer_data bs = Some b -> exists size, binding_ok b size;
  co_most : 0 <= most
}.

Lemma has_memory_size b size size' : has_memory find_buffer_memory w b size -> has_memory find_buffer_memory w b size' -> size = size'.
Proof. intros (buffer & _ & E & _ & _ & <- & _) (buffer' & _ & E' & _ & _ & <- & _). rewrite E in E'. by injection E' as <-. Qed.

Lemma set_part layout_data firstSet i setCount pBufferIndices pOffsets most bind_point :
  command_ok layout_data setCount pBufferIndices pOffsets most -> (i < setCount)%nat ->
  part bound_buffers (execute_set_offset find_buffer_memory address_map object_of buffer_of w pending set_layouts bind_point layout_data firstSet i
      pBufferIndices pOffsets)
    (place_of_set layout_data firstSet i pBufferIndices pOffsets) most.
Proof.
  intros [C1 C2 C3 C4 C5] Hi st n Hst Hn. unfold execute_set_offset. set (set := wrap32 (firstSet + Z.of_nat i)).
  pose proof (fun P => part_skip bound_buffers P most C5) as Hskip.
  destruct (_ >=? _) eqn:Es; bool_to_prop.
  { apply Hskip with (n := n); [|done|done]. intros ? ? ? [? _]. fold set in H1. lia. }
  destruct (C1 i Hi) as (binding_index & E1). rewrite E1. cbn [obind].
  assert (Hnone : (forall bs b, bound_buffers !! Z.to_nat binding_index = Some bs -> bs_buffer_data bs = Some b ->
      find_set_layout_index layout_data set <> CONTAINER_INVALID_INDEX -> False) ->
    forall b o t, ~ place_of_set layout_data firstSet i pBufferIndices pOffsets b o t).
  { intros K b o t (_ & bi & bs & ? & ? & ? & ? & ? & A1 & A2 & A3 & _ & A5 & _). rewrite E1 in A1. injection A1 as <-. by apply (K bs b). } pose proof Hst as (-> & _).
  destruct (bound_buffers !! Z.to_nat binding_index) as [bs|] eqn:E2; [|apply Hskip with (n := n); [apply Hnone; intros; congruence|done|done]].
  destruct (bs_buffer_data bs) as [b|] eqn:E3; [|apply Hskip with (n := n); [apply Hnone; intros; congruence|done|done]].
  destruct (C2 i Hi) as (set_offset & E4). rewrite E4. cbn [obind].
  destruct (Z.eqb_spec (find_set_layout_index layout_data set) CONTAINER_INVALID_INDEX) as [E5|E5]; [apply Hskip with (n := n); [by apply Hnone|done|done]|].
  destruct (C3 set Es E5) as (layout & E6 & Hl & Hm). rewrite E6.
  destruct (C4 bs b) as [size Hok]; [by eapply list_elem_of_lookup_2|done|]. pose proof (bo_memory _ _ _ _ _ _ _ _ Hok) as Hmem.
  destruct (bindings_part bound_buffers bind_point set layout b size (wrap64 (bs_offset bs + set_offset)) (dl_binding_types layout) Hok Hl st n Hst)
    as (st' & E & F & M & N); [fold (set_count layout); lia|]. exists st'. split; [done|]. fold (set_count layout) in F. split.
  { destruct F as (F1 & F2 & F3 & F4). split; [done|]. split; [lia|]. split; [|done]. eapply Forall_impl; [exact F3|].
    intros e He. eapply entry_ok_weaken; [exact He|lia]. }
  assert (Hiff : forall b' o t, b' = b /\ (exists binding layout_type, (binding, layout_type) ∈ dl_binding_types layout /\
      place_of_binding layout b size (wrap64 (bs_offset bs + set_offset)) binding layout_type o t) <->
    place_of_set layout_data firstSet i pBufferIndices pOffsets b' o t).
  { intros b' o t. unfold place_of_set. fold set. rewrite E1, E4, E6. split.
    - intros (-> & binding & lt & ? & ?). split; [done|]. exists binding_index, bs, set_offset, layout, binding, lt, size. by split_and!.
    - intros (_ & ? & bs' & ? & ? & binding & lt & size' & [= <-] & E2' & E3' & [= <-] & _ & [= <-] & Hin & Hmem' & Hp). simplify_eq.
      split; [done|]. exists binding, lt. split; [done|]. by rewrite (has_memory_size _ _ _ Hmem Hmem'). }
  split; [intros k x; rewrite M|intros p; rewrite N]; by setoid_rewrite Hiff.
Qed.
End Sets.

Lemma sets_part bound_buffers layout_data firstSet setCount pBufferIndices pOffsets most bind_point n : forall i,
  command_ok bound_buffers layout_data setCount pBufferIndices pOffsets most -> (i + n = setCount)%nat ->
  part bound_buffers (execute_set_offsets find_buffer_memory address_map object_of buffer_of w pending set_layouts bind_point (Some layout_data) firstSet i n
      pBufferIndices pOffsets)
    (fun b offset type => exists j, (i <= j < setCount)%nat /\ place_of_set bound_buffers layout_data firstSet j pBufferIndices pOffsets b offset type)
    (most * Z.of_nat n).
Proof.
  induction n as [|n IH]; intros i Hc Hi; cbn [execute_set_offsets].
  { apply part_skip; [lia|]. intros b o t (j & ? & _). lia. }
  replace (most * Z.of_nat (S n)) with (most + most * Z.of_nat n) by lia. pose proof (co_most _ _ _ _ _ _ Hc).
  eapply part_then; [eapply set_part; [exact Hc|lia]|apply (IH (S i)); [done|lia]|nia|]. intros b o t. split.
  - intros (j & Hj & Hp). destruct (decide (j = i)) as [->|]; [by left|right]. exists j. split; [lia|done].
  - intros [Hp|(j & Hj & Hp)]; [exists i|exists j]; (split; [lia|done]).
Qed.

(** ** Bound buffers *)

(** what an address and a usage bind *)
Definition bound_at (info : Z * Z) (bs : descriptor_buffer_binding_state) : Prop :=
  (exists b offset buffer, found_at address_map object_of buffer_of w (fst info) 1 b offset /\ VkBuffer_index w !! b = Some buffer /\
     bs = BindingState (Some b) offset (tb_size buffer - offset) (snd info)) \/
  (forall b offset, ~ found_at address_map object_of buffer_of w (fst info) 1 b offset) /\ bs = BindingState None 0 0 0.

Lemma bind_buffers_spec infos : addresses_ok find_buffer_memory address_map object_of buffer_of w -> Forall (fun info => u64 (fst info)) infos ->
  exists bound_buffers, bind_buffers find_buffer_memory address_map object_of buffer_of w infos = Ok bound_buffers /\ Forall2 bound_at infos bound_buffers.
Proof.
  intros Hw. induction 1 as [|[address usage] infos Ha Hi IH]; cbn [bind_buffers]; [by exists []|]. cbn [fst] in Ha.
  destruct (map_range_spec find_buffer_memory address_map object_of buffer_of w Hw address 1 Ha ltac:(lia)) as (m & -> & Hm). cbn [obind].
  destruct IH as (rest & -> & Hrest). destruct m as [m|].
  - destruct (proj1 (Hm m) eq_refl) as (b & o & Hf & ->). cbn [mr_buffer_data mr_buffer_offset].
    destruct (found_at_inside find_buffer_memory address_map object_of buffer_of w Hw _ _ _ _ Ha Hf) as (buffer & Eb & _ & H1 & H2).
    unfold buffer_at. rewrite Eb. cbn [obind]. rewrite wrap64_small by u_lia. eexists. split; [done|]. constructor; [|done]. left. by exists b, o, buffer.
  - cbn [obind]. eexists. split; [done|]. constructor; [|done]. right. split; [|done]. intros b o Hf.
    pose proof (proj2 (Hm _) (ex_intro _ b (ex_intro _ o (conj Hf eq_refl)))). done.
Qed.

(** ** What the simulator is given *)

Lemma get_set_binding sets p s b v p' s' b' : get_binding (set_binding sets p s b v) p' s' b' =
  if bool_decide ((p', s', b') = (p, s, b)) then Some v else get_binding sets p' s' b'.
Proof.
  revert sets. unfold get_binding, set_binding, descriptor_sets. intros sets. case_bool_decide as E.
  - injection E as -> -> ->. rewrite lookup_insert_eq. cbn [mbind option_bind]. rewrite lookup_insert_eq. cbn [mbind option_bind]. by rewrite lookup_insert_eq.
  - destruct (decide (p' = p)) as [->|]; [|by rewrite lookup_insert_ne]. rewrite lookup_insert_eq. cbn [mbind option_bind].
    destruct (decide (s' = s)) as [->|].
    + rewrite lookup_insert_eq. cbn [mbind option_bind]. rewrite lookup_insert_ne by congruence.
      destruct (sets !! p) as [m|]; cbn [from_option id mbind option_bind]; [destruct (m !! s); cbn [from_option id mbind option_bind]; [done|by rewrite lookup_empty]|]. rewrite lookup_empty. cbn [from_option id]. by rewrite lookup_empty.
    + rewrite lookup_insert_ne by done. destruct (sets !! p) as [m|]; cbn [from_option id mbind option_bind]; [done|by rewrite lookup_empty].
Qed.

(** all elements of an array of [count] descriptors from an offset on are resolved *)
Definition resolved_at (b : nat) (size offset binding_end layout_type count : Z) (l : list resolved_element) : Prop :=
  0 < count /\ offset < binding_end /\ Z.of_nat (length l) = count /\
  exists first stride, last_resource find_buffer_memory w pending b size offset layout_type first /\
    stride_ok find_buffer_memory w pending b size offset binding_end layout_type count (Z.of_nat (length (dr_capture_bytes first))) stride /\
    forall k access o type, l !! k = Some (access, o, type) ->
      o = offset + stride * Z.of_nat k /\ o < binding_end /\
      element_at find_buffer_memory address_map object_of buffer_of w pending b size o layout_type access type.

(** For a binding in a descriptor buffer the simulator is given, when every element
    holds the bytes of a descriptor that was returned, element by element the buffer,
    offset and size that the address in the descriptor leads to, or nothing for a null
    address; otherwise it is given the bytes of the descriptor buffer itself. No other
    binding changes. *)
Theorem bound_resources_exact (bind_point set : Z) (layout : descriptor_set_layout) (b : nat) (size set_base binding layout_type : Z)
    (st : buffers_state) (n : Z) :
  binding_ok b size -> layout_ok layout -> buffers_fine (bf_bound st) n st -> n + binding_count layout binding <= UINT32_MAX ->
  let binding_offset := default 0 (map_find binding (dl_offsets layout)) in
  let offset := wrap64 (set_base + binding_offset) in
  let resolved := resolved_at b size offset (binding_end_of layout set_base binding_offset size) layout_type
                    (default 1 (map_find binding (dl_binding_counts layout))) in
  exists st', run_binding bind_point set layout b set_base binding layout_type st = Ok st' /\
    (size <= offset -> bf_sets st' = bf_sets st) /\
    (offset < size ->
       (forall l, resolved l -> get_binding (bf_sets st') bind_point set binding = Some (resolved_binding l)) /\
       ((forall l, ~ resolved l) -> get_binding (bf_sets st') bind_point set binding =
          Some (SimulatorBinding layout_type true [BufferAccess (Some b) offset (size - offset)] [] []))) /\
    (forall p s v, (p, s, v) <> (bind_point, set, binding) -> get_binding (bf_sets st') p s v = get_binding (bf_sets st) p s v).
Proof.
  intros Hok Hl Hst Hn binding_offset offset resolved.
  destruct (binding_part (bf_bound st) bind_point set layout b size set_base binding layout_type Hok Hl st n Hst Hn) as (st' & E & _).
  exists st'. split; [done|]. pose proof (bo_memory _ _ _ _ _ _ _ _ Hok) as (buffer & loc & E1 & _ & _ & E4 & Hs & _).
  pose proof (wrap64_range (set_base + binding_offset)) as Hwr. fold offset in Hwr.
  destruct (resolve_binding_spec find_buffer_memory address_map object_of buffer_of w pending b size Hok offset
    (binding_end_of layout set_base binding_offset size) layout_type (default 1 (map_find binding (dl_binding_counts layout))))
    as (r & Er & Hr); [u_lia|apply binding_end_le|by apply layout_count_nonneg|]. unfold execute_binding, buffer_at in E. rewrite E1 in E. cbn [obind] in E.
  rewrite E4 in E. fold binding_offset offset in E. destruct (offset >=? size) eqn:Eo; bool_to_prop.
  { injection E as <-. split; [done|]. split; [lia|done]. }
  rewrite Er in E. cbn [obind] in E. split; [lia|].
  assert (Hsets : bf_sets st' = set_binding (bf_sets st) bind_point set binding
    (match r with Some l => resolved_binding l | None => SimulatorBinding layout_type true [BufferAccess (Some b) offset (size - offset)] [] [] end)).
  { destruct r; outcome_inv; done. }
  rewrite Hsets. split.
  - intros _. rewrite get_set_binding, bool_decide_true by done. split.
    + intros l ->%Hr. done.
    + intros Hnone. destruct r as [l|]; [|done]. by destruct (Hnone l (proj1 (Hr l) eq_refl)).
  - intros p s v Hne. by rewrite get_set_binding, bool_decide_false.
Qed.

(** Binding descriptor buffers at device addresses and setting the offsets of sets in
    them marks exactly the places of the descriptors of these sets, each with its type
    under the packet that wrote it, and notes for the output pass, once each, exactly
    the descriptors that were returned first and whose bytes are at such a place. The
    bound buffers have memory, and bytes that match descriptors of two resources, on which
    the code aborts, do not occur ([command_ok]). *)
Theorem bound_descriptors_discovered (infos : list (Z * Z)) (bind_point : Z) (layout_data : pipeline_layout) (firstSet : Z) (setCount : nat)
    (pBufferIndices pOffsets : option (list Z)) (most : Z) (st : buffers_state) (n : Z) :
  addresses_ok find_buffer_memory address_map object_of buffer_of w -> Forall (fun info => u64 (fst info)) infos ->
  (forall bound_buffers, Forall2 bound_at infos bound_buffers -> command_ok bound_buffers layout_data setCount pBufferIndices pOffsets most) ->
  buffers_fine (bf_bound st) n st -> n + most * Z.of_nat setCount <= UINT32_MAX ->
  exists bound_buffers st',
    (let* st := execute_bind_buffers find_buffer_memory address_map object_of buffer_of w infos st in
     execute_set_offsets find_buffer_memory address_map object_of buffer_of w pending set_layouts bind_point (Some layout_data) firstSet 0 setCount
       pBufferIndices pOffsets st) = Ok st' /\
    Forall2 bound_at infos bound_buffers /\ buffers_fine bound_buffers (n + most * Z.of_nat setCount) st' /\
    discovers (fun b offset type => exists i, (i < setCount)%nat /\
      place_of_set bound_buffers layout_data firstSet i pBufferIndices pOffsets b offset type) st st'.
Proof.
  intros Hw Ha Hc (_ & H1 & H2 & H3 & H4) Hn. destruct (bind_buffers_spec infos Hw Ha) as (bound_buffers & E & Hb).
  destruct (sets_part bound_buffers layout_data firstSet setCount pBufferIndices pOffsets most bind_point setCount 0 (Hc _ Hb) eq_refl
    (BuffersState (bf_sets st) bound_buffers (bf_queue st) (bf_payloads st)) n) as (st' & E' & F & M & N); [done|done|].
  exists bound_buffers, st'. unfold execute_bind_buffers. rewrite E. cbn [obind]. do 3 (split; [done|]).
  assert (Hiff : forall b o t, (exists j, (0 <= j < setCount)%nat /\ place_of_set bound_buffers layout_data firstSet j pBufferIndices pOffsets b o t) <->
    exists i, (i < setCount)%nat /\ place_of_set bound_buffers layout_data firstSet i pBufferIndices pOffsets b o t).
  { intros b o t. split; intros (j & ? & ?); exists j; (split; [lia|done]). }
  split; [intros k x; rewrite M|intros p; rewrite N]; by setoid_rewrite Hiff.
Qed.
End Commands.

(** ** A concrete run *)

#[local] Existing Instance demo_header.

(** a descriptor buffer of 64 bytes, at 4096 with the address 5000, written by packet 7,
    and a buffer of 32 bytes with the address 6000; two descriptors for it are in the
    first, at 16 and 24 *)
Definition first_descriptor : list byte := replicate 8 x0a.
Definition second_descriptor : list byte := replicate 8 x0b.

Definition buffers_written : change_source := ChangeSource 7 0 0 2 5.

Definition buffers_regions : host_write_regions tracker_log :=
  match register_source 0 64 buffers_written 1 0 CONTAINER_NULL_VALUE UINT64_MAX new_regions with Ok r => r | Fail _ => new_regions end.

Definition buffers_bytes : list byte := replicate 16 x01 ++ first_descriptor ++ second_descriptor ++ replicate 32 x02.

Definition buffers_world : sim_world tracker_log :=
  SimWorld [TrackedBuffer 3 9 64 5000 0 buffers_regions; TrackedBuffer 4 9 32 6000 0 new_regions] new_regions new_regions
    (fun a => nth (Z.to_nat (a - 4096)) buffers_bytes x00).

Definition buffers_find (b : nat) : outcome suballoc_location :=
  match b with
  | 0%nat => Ok (SuballocLocation 4096 0 64 false false 4096)
  | 1%nat => Ok (SuballocLocation 8192 0 32 false false 8192)
  | _ => Fail OutOfRange
  end.

Definition buffers_map : remapper := [(5000, [0%nat]); (6000, [1%nat])].
Definition buffers_object (obj : nat) : mapped := if Nat.eqb obj 0 then Mapped 64 5000 state_bound false else Mapped 32 6000 state_bound false.
Definition buffers_buffer (obj : nat) : option nat := match obj with 0%nat => Some 0%nat | 1%nat => Some 1%nat | _ => None end.

Definition buffers_pending : list descriptor_rewrite :=
  note_descriptor_payload buffers_written (Some (VK_DESCRIPTOR_TYPE_UNIFORM_BUFFER, Some (AddressInfo 6008 VK_WHOLE_SIZE 0))) 8 (Some second_descriptor)
    (note_descriptor_payload buffers_written (Some (VK_DESCRIPTOR_TYPE_UNIFORM_BUFFER, Some (AddressInfo 6000 16 0))) 8 (Some first_descriptor) []).

(** two uniform buffers and a storage buffer *)
Definition buffers_layout : descriptor_set_layout :=
  SetLayout 24 [(0, 0); (1, 16)] [(0, VK_DESCRIPTOR_TYPE_UNIFORM_BUFFER); (1, VK_DESCRIPTOR_TYPE_STORAGE_BUFFER)] [(0, 2); (1, 1)].

Definition buffers_pipeline_layout : pipeline_layout := PipelineLayout [0] [0].

Definition buffers_start : buffers_state := BuffersState ∅ [] [] [].

Definition buffers_run : outcome buffers_state :=
  let* st := execute_bind_buffers buffers_find buffers_map buffers_object buffers_buffer buffers_world [(5000, 0)] buffers_start in
  execute_set_offsets buffers_find buffers_map buffers_object buffers_buffer buffers_world buffers_pending [buffers_layout] 0
    (Some buffers_pipeline_layout) 0 0 1 (Some [0]) (Some [16]) st.

Example descriptors_found :
  match buffers_run with
  | Ok st => (map (fun e => (cs_packet (ar_source e), ar_object_index e, entry_marks e)) (bf_queue st), bf_payloads st,
              get_binding (bf_sets st) 0 0 0, get_binding (bf_sets st) 0 0 1)
  | Fail _ => ([], [], None, None)
  end =
  ([(7, 3, [Marking 16 VK_MARKING_TYPE_DESCRIPTOR_ARM 6; Marking 24 VK_MARKING_TYPE_DESCRIPTOR_ARM 6; Marking 32 VK_MARKING_TYPE_DESCRIPTOR_ARM 7])],
   [BufferPayload 3 16 6 first_descriptor; BufferPayload 3 24 6 second_descriptor],
   Some (SimulatorBinding 6 false [BufferAccess (Some 1%nat) 0 16; BufferAccess (Some 1%nat) 8 24] [] []),
   Some (SimulatorBinding 7 true [BufferAccess (Some 0%nat) 32 32] [] [])).
Proof. vm_compute. done. Qed.

Lemma buffers_addresses_ok : addresses_ok buffers_find buffers_map buffers_object buffers_buffer buffers_world.
Proof.
  destruct (register_source_spec (T := tracker_log) new_regions 0 64 buffers_written 1 0 CONTAINER_NULL_VALUE UINT64_MAX new_regions_ok) as (r & E & Hr & _).
  { by constructor; vm_compute. }
  constructor.
  - intros p. unfold buffers_object. by destruct (Nat.eqb p 0).
  - repeat constructor.
  - intros a p (es & Hin & _). apply elem_of_cons in Hin as [[= -> ->]|[= -> ->]%list_elem_of_singleton]; lia.
  - intros [|[|obj]] b [= <-]; (eexists _, _; split; [reflexivity|]; split; [reflexivity|]; cbn; do 6 (split; [lia|])); [|apply new_regions_ok].
    unfold buffers_regions. by rewrite E.
Qed.

Lemma buffers_found address size offset : (address, size, offset) ∈ [(6000, 16, 0); (6008, 1, 8)] ->
  found_at buffers_map buffers_object buffers_buffer buffers_world address size 1 offset.
Proof.
  intros Hin. split; [set_solver|]. split; [set_solver|]. exists 1%nat, 6000, (TrackedBuffer 4 9 32 6000 0 new_regions).
  apply elem_of_cons in Hin as [[= -> -> ->]|[= -> -> ->]%list_elem_of_singleton]; (split; [done|]); by vm_compute.
Qed.

Lemma buffers_binding_ok : binding_ok buffers_find buffers_map buffers_object buffers_buffer buffers_world buffers_pending 0 64.
Proof.
  constructor.
  - exact buffers_addresses_ok.
  - destruct (ao_buffer _ _ _ _ _ buffers_addresses_ok 0 0 eq_refl) as (buffer & loc & E1 & E2 & E3 & _ & E5 & _ & _ & E6 & E7).
    exists buffer, loc. do 3 (split; [done|]). split; [|by split; [lia|]]. done.
  - intros offset ty d e Hd He _ (_ & _ & _ & _ & Ld) (_ & _ & _ & _ & Le).
    apply elem_of_cons in Hd as [->| ->%list_elem_of_singleton]; apply elem_of_cons in He as [->| ->%list_elem_of_singleton]; try done;
      cbn [dr_capture_bytes] in Ld, Le; exfalso;
      replace (length (take 8 first_descriptor)) with 8%nat in * by done; replace (length (take 8 second_descriptor)) with 8%nat in * by done;
      rewrite Ld in Le; vm_compute in Le; discriminate Le.
  - intros d info Hd. apply elem_of_cons in Hd as [->| ->%list_elem_of_singleton]; intros [= <-] _; (split; [by vm_compute|]; split; [by vm_compute|]);
      [exists 1%nat, 0|exists 1%nat, 8]; apply buffers_found; set_solver.
Qed.
